(* ===== verification/_CoqProject ===== *)
-Q . S2P
Prelude.v
Sorting.v
CLib.v
Json.v
LogicValue.v
ExprParser.v
Waveform.v
ExprEval.v
WellenApi.v
WellenBackend.v
WellenTheory.v
ClockSampling.v
Cursor.v
SignalList.v
BinaryDesign.v
BinaryDesignTheory.v
DesignIndex.v
SessionTypes.v
SessionContract.v
SessionRegistry.v
SessionRegistryTheory.v
SessionArtifacts.v
Sha256.v
EnvConfig.v
Diagnostics.v
InternalRequest.v
SchemaProjection.v
SchemaProjectionTheory.v
SchemaValidator.v
SchemaValidatorTheory.v
Engine.v
StepLogic.v
TableWave.v
EngineFst.v
Apb.v
ApbTheory.v
Xout.v
XoutTheory.v
XoutRender.v
XoutRenderTheory.v
Protocol.v
ProtocolTheory.v
Stream.v
StreamQuery.v
StreamExport.v
StreamPackets.v
StreamFilter.v
StreamTheory.v
StreamActions.v
SourceContext.v
DomainRender.v
DomainRenderTheory.v
Axi.v
AxiActions.v
AxiQuery.v
AxiAnalysis.v
AxiTheory.v
AxiRender.v
AxiScanTheory.v
WaveState.v
ClockActions.v
PulseInspect.v
HandshakeInspect.v
CounterStatistics.v
SignalAnalysis.v
SignalAnalysisTheory.v
ValueAt.v
ListActions.v
ListExport.v
EventActions.v
WindowVerify.v
WaveRequests.v
ScopeList.v
DesignActions.v
DriverFacts.v
ActiveStatements.v
ActiveTrace.v
XOrigin.v
SessionService.v
SessionServiceTheory.v
