(* ===== verification/Prelude.v ===== *)
(** * xdebug-fst: a verification development

    [xdebug-fst] answers queries about a digital simulation: an engine
    process opens an FST waveform (through the Wellen library) and a design
    database, and action handlers read signals, evaluate expressions, sample
    on clock edges and trace drivers; a session layer keeps one engine per
    named session and persists what it knows in per-session files. The
    sources are under [src/src]; file names below are relative to it.

    ** The program's parts and the files that model them

    - Values ([core/value/logic_value.*]): [LogicValue.v]. Four-state bit
      vectors, rendering and parsing of SystemVerilog literals.
    - Expressions ([waveform/expr/expr_eval.*]): [ExprParser.v] is the
      recursive-descent parser, one function per precedence level;
      [ExprEval.v] the four-state operators, the evaluator with its memo table
      and [expr_eval_at].
    - The waveform interface ([backend/waveform_backend.h]): [Waveform.v]
      holds its data and two type classes, the observation operations and
      the laws clients rely on. [ExprEval.v] and [ClockSampling.v] are proved
      against the classes.
    - The FST backend ([backend/wellen_fst_backend.*]): [WellenApi.v] states
      the Wellen C API as a parameter with named laws, [WellenBackend.v]
      translates the backend, and [WellenTheory.v] proves its properties and
      discharges the laws of [Waveform.v].
    - Clock sampling ([waveform/clock_sampling.*]): [ClockSampling.v].
    - Cursors and signal lists ([waveform/cursor], [waveform/list]):
      [Cursor.v], [SignalList.v].
    - The binary design database ([backend/binary_design_format.h],
      [backend/binary_design_backend.*]): [BinaryDesign.v] (the mapped file as
      bytes, validation, queries) and [BinaryDesignTheory.v].
    - The trace index ([backend/design_query_index.*]): [DesignIndex.v], over
      a type class of the design backend of which the binary database is an
      instance.
    - Sessions: [SessionTypes.v] ([core/session/session_types.*],
      [core/common/path_utils.cpp]), [SessionContract.v]
      ([core/session/session_registry_contract.cpp],
      [core/session/session_endpoint_contract.cpp]), [SessionRegistry.v]
      ([session/session_registry.cpp] and the paths of
      [session/session_paths.cpp] over an explicit file system, with a
      concrete text format for the JSON parameter),
      [SessionRegistryTheory.v], and [SessionArtifacts.v] (the generation
      marker and the artifact removal of [session/session_paths.cpp]).
    - The session service ([session/session_service.cpp], the client end of
      [session/uds_transport.cpp], [session/session_lifecycle_lease.h]):
      [SessionService.v] with [SessionServiceTheory.v]. The registry is the
      explicit file system; files of a request, processes, signals and the
      peers of the sockets are an arbitrary instance of the class [SessionOs],
      and a log records the processes started and signalled and the evidence
      seen.
    - Digests ([core/common/sha256.cpp]): [Sha256.v].
    - Environment settings ([core/common/env_config.cpp]): [EnvConfig.v].
    - Diagnostics ([core/diagnostic_error.h]): [Diagnostics.v], the error
      builder and the redaction of ownership tokens.
    - The internal request envelope
      ([core/schema/internal_request_contract.cpp]): [InternalRequest.v].
    - Schema validation ([core/schema/runtime_schema_validator.cpp]):
      [SchemaProjection.v] (definition closure, branch selection, projection of
      response schemas) with [SchemaProjectionTheory.v], and
      [SchemaValidator.v] (caches, manifest, entry points) with
      [SchemaValidatorTheory.v].
    - Action handlers ([engine/actions]): [Engine.v] holds the waveform
      interface the handlers use, with its laws, and their JSON accessors;
      [EngineFst.v] discharges the laws for the FST backend; [Apb.v] is
      [engine/actions/protocol/apb_actions.cpp] and [ApbTheory.v] its theorems
      (its text renderers are in [XoutRender.v]).
    - Streams ([engine/actions/stream/stream_actions.cpp]): [Stream.v]
      (configurations, compiled and field expressions, the scan),
      [StreamQuery.v] (filters, stall windows, packets and the handlers),
      [StreamExport.v] (the export and its files), with [StreamTheory.v] (the
      scan), [StreamPackets.v] (packets and stalls), [StreamFilter.v] (filters)
      and [StreamActions.v] (the configurations through every history). The
      pointers of the source into the vector of samples are positions in a
      list that the assembly of packets updates.
    - AXI ([engine/actions/protocol/axi_actions.cpp]): [Axi.v]
      (configurations, handshakes, transactions, the scan), [AxiActions.v]
      (JSON, filters, state, configuration handlers), [AxiQuery.v] (queries,
      statistics, cursor, outliers, timeline, stalls), [AxiAnalysis.v]
      (latencies, depths, the export), [AxiRender.v] (the text renderers), with
      [AxiTheory.v] (pairing by ID, handshakes, depths) and
      [AxiScanTheory.v] (whole scans and a small bus).
    - Waveform actions ([engine/actions/waveform],
      [engine/actions/combined/window_actions.cpp]): [WaveState.v] is the state
      the handlers share (waveform, cursors, lists, event configurations,
      written files) and the monad they run in; [ClockActions.v],
      [PulseInspect.v], [HandshakeInspect.v] and [CounterStatistics.v] are
      [clock_counter_actions.cpp], each with its theorems; [SignalAnalysis.v]
      is [signal_analysis_actions.cpp], with [SignalAnalysisTheory.v];
      [ValueAt.v] is [value_at.cpp]; [ListActions.v], [ListExport.v] and
      [EventActions.v] are [list_event_cursor_actions.cpp]; [WindowVerify.v] is
      [window_actions.cpp]. [WaveRequests.v] is the table of these handlers and
      their histories. [StepLogic.v] derives what a handler does to its state
      from its steps.
    - Scopes ([engine/actions/waveform/scope_list.cpp]): [ScopeList.v].
    - Design actions ([engine/actions/design]): [DesignActions.v].
    - Traces ([engine/actions/combined/combined_actions.cpp]):
      [DriverFacts.v] (samples, signal names and their selectors, driver facts
      and the statements they are grouped into, the keys that identify states
      and chains), [ActiveStatements.v] (predicates of statements, loop
      variables, events, self-holds, races, sources through expressions, source
      text), [ActiveTrace.v] ([trace.active_driver] and
      [trace.active_driver_chain]) and [XOrigin.v] ([trace.x_origin]), each with
      its theorems, over the classes of the design backend and the waveform.
    - Text responses ([protocol/text_response_builder.*]): [Xout.v] with
      [XoutTheory.v]; rendering ([protocol/xout_renderer.cpp] and the APB
      renderers): [XoutRender.v] with [XoutRenderTheory.v]; the renderers of
      traces, streams and expressions ([protocol/domain_xout_renderer.cpp]):
      [DomainRender.v] with [DomainRenderTheory.v].
    - Source lines around a place ([engine/trace_source_context.cpp]):
      [SourceContext.v], over the files as an argument.
    - The public protocol ([protocol/action_spec.*],
      [protocol/public_action_registry.*], [protocol/contract.*],
      [protocol/response.cpp], [protocol/public_catalog.*]): [Protocol.v] with
      [ProtocolTheory.v].
    - Shared: this prelude, [CLib.v] (the C library functions used),
      [Json.v] ([nlohmann::json] values) and [Sorting.v] ([std::stable_sort] as
      a function, [std::sort] as a type class, since it may order equal elements
      either way).

    ** What the theorems show

    - Values: binary, hexadecimal and decimal renderings parse back to the
      value; [logic_value_from_u64] on every width, undefined above 64.
    - Expressions: parsing terminates within its fuel on every text and
      inverts printing; evaluation through the stateful backend and the memo
      table refines a pure reference semantics, as long as references that
      share a key of the table read alike; on operands and selects of at most
      64 bits it is defined and its known flag is sound; the operators compute
      what their specifications say.
    - FST backend: every reachable state satisfies the cache and handle
      invariant; lookup, packed selection, sampling, change scans and time
      lookup are exact with respect to the change lists of the file.
    - Clock sampling: the edges and the samples are exactly the specified
      ones, over any backend that satisfies the interface.
    - Cursors and lists: invariants over every sequence of operations, and
      map-like behaviour of each operation.
    - Design database: opening any byte string never reads outside it; on an
      accepted file every query is safe, traces return exactly the records of
      the signal, and name resolution is exact.
    - Trace index: its queries answer exactly what a scan of the backend
      would, on every backend whose reads are defined.
    - Sessions: accepted records satisfy every record invariant and are fixed
      points of write and read; documents round trip; under every schedule of
      system-call failures a file write is atomic and each registry operation
      refines a generation-guarded life cycle; removal archives first; a
      marker write is atomic and artifacts are removed only under a matching
      generation.
    - Session service, for every behaviour of the operating system: a signal
      goes only to a process the request started or that proved to be a
      session's own; opening a session leaves every other record and an
      existing record of its name as they are, and reports success only with
      the active record stored, its process started and its ping answered;
      removing one reports success only when the engine was seen stopped and
      the record archived, and keeps evidence otherwise.
    - Digests: the incremental hash is the one-shot hash of the concatenated
      input, and a directory digest is the hash of its sorted listing.
    - Environment: every setting is inside its documented range
      ([env_settings_bounded]).
    - Diagnostics: no token, nor a message or value that could quote one,
      survives redaction, and a value without sensitive fields is unchanged.
    - Internal requests: routing is derived or refused exactly as the target
      says, and the envelope carries the public request and nothing else.
    - Schema validation: the closure of definitions terminates with exactly
      the reachable ones; a projected response schema accepts what the full
      schema accepts; an accepted manifest is a consistent catalog; the caches
      never change an answer, after any history of calls, apart from the
      example a public error quotes; an internal request
      is accepted only by the strict schema of its own action.
    - APB: the scan reports exactly the completed transfers, one for each run
      of equal transfers at consecutive edges; cursors stay inside the
      transactions of their configuration through every history of actions, so
      the unchecked indexing is safe; statistics count what queries return.
    - Streams: the scan samples every selected edge of the range once and as
      the waveform reads when it starts, although lookups allocate handles;
      packets are the runs of each channel between packet boundaries, numbered
      by their first beats, and every row knows its place; stall windows are
      the maximal runs of stalled samples; field filters decide what every
      completion of the unknown bits decides, criterion by criterion as
      Kleene's conjunction; valid cycles are transfers or stalls; stored
      configurations are valid after any history.
    - AXI: write bursts bind to addresses in their order and responses to the
      oldest write of their ID with a whole burst, no write or response is
      lost; the reads of a scan are the n-th address of an ID with the n-th burst
      of its beats, however equal times are sorted, and the result is ordered
      and numbered; the one pass over starts and ends measures the depths a
      rescan of all transactions at every edge would.
    - Waveform actions: handshake inspection finds exactly the stalls, the
      changes of held data and the intervals of ready without valid; counter
      statistics are the extremes, their counts and the sums of the sampled
      values; clock-sampled statistics are the runs and counts of the samples;
      a window check under the mode eventually passes exactly when every
      condition holds at a sample, and under always and never exactly when no
      sample violates or hides one, and is inconclusive exactly when the limit
      on samples leaves that open; after any history of requests the cursors,
      lists and event configurations are well formed and queries change
      nothing; an exported row reads back as the value it was written from.
    - Scopes: the roots are those of both sources, one is recommended exactly
      when it is unique; the scopes at a depth are exact; the rows shown are
      the first ones up to the limit.
    - Traces: the driver facts of a signal are grouped into one statement per
      key of place, kind, predicate and identity, in the order of the keys,
      with its records in theirs and the distinct right-hand
      sides; the bindings tried for loop variables are all of their ranges' or
      none above the limit of 65536; the search for sources through
      expressions ends on every design and visits no signal twice; a chain of
      active drivers respects [max_depth] and [max_nodes] and numbers its hops;
      a path of the search for the origin of an X never visits a signal twice
      at one time and its length is its depth; coalescing keeps one chain per
      key, the first complete one when there is one; two states have the same
      key exactly when signal, onset, relation and hops agree apart from ports.
    - Text responses: the lines of the text are exactly the layout of the
      items the builder was asked to write ([layout]: header, aligned pairs,
      sections with indented lines and tables), for any sequence of operations
      other than [emit_raw]; the lines of every response are exactly the layout
      of its items ([response_lines]); a failure shows the fields of its error.
      The header line carries the action as it is, so these theorems assume an
      action without a newline. The text of a trace names every path, hop and
      candidate of the response, and the windows of source lines are the
      maximal runs of places near each other.
    - Public protocol: the table-driven edit distance is the least number of
      edits, suggestions are the best-ranked actions, the first registration
      of a name wins, a request is accepted exactly when every check passes
      and otherwise refused with the code of the first that fails, responses
      have the canonical envelope, and the catalogue lists exactly the matching
      actions.

    ** Conventions

    - A [std::string] is a [list ascii]; strings are shorter than [INT_MAX],
      so [(int) s.size()] is exact ([zlen]). Machine integers are [Z] with the
      wrap-around written out ([u64], [i32], ...); a signed overflow or an
      over-wide shift is the outcome [UB] of [res], an escaping exception is
      [Throw]. Differences of declared 64-bit bit indices wrap in two's
      complement.
    - A parser position is the unread suffix of its text. [atoi] is glibc's.
      Floating-point values are kept as bit patterns and only passed through.
    - A function that reports errors through an out-parameter returns a sum
      of the error text and the value.
    - Fuel: the expression parser gets one more than the length of its text
      ([parse_expression_terminates] shows that this is enough); decimal
      printing gets the bit length of the number; the binary search of the
      design database gets the number of index entries, more than its halvings,
      and exhausting it would be the outcome [UB] that the safety theorems
      exclude; the closure of schema definitions gets [closure_fuel], shown
      sufficient by [definition_closure_exact]; pointers are cut with one more
      than their length; field expressions get one more than their length
      ([field_expression_terminates]) and the search for stall windows the
      number of samples ([stall_windows_exact]); the search through expressions
      gets two more than the number of signals ([expression_sources_total]) and
      the search for races the source's own limit [max_nodes]
      ([race_search_fuel]), as chains recurse on [max_depth] and the search for
      the origin of an X on [max_nodes]; loops over files and tables recurse on their length.
      No theorem is stated only for runs that do not exhaust fuel.
    - Third-party code is a parameter: the Wellen C API ([WellenApi.v]; its
      Rust wrappers [wellen_capi] and [wellenx_capi] are in the repository, but
      only forward to the Wellen crate, and the laws follow their headers; where
      the headers are silent on an ordinal that is out of range the model
      answers -1 and the wrapper panics), the JSON text format ([JsonText]) and
      the JSON Schema library, vendored under [third_party] ([compile] and
      [run] of [SchemaValidator.v], the keyword laws [draft07] of
      [SchemaProjectionTheory.v]), each with named laws where the code relies on
      them and a concrete instance used by the witnesses. The operating
      system under the registry is an explicit state with a schedule that
      decides which calls fail; each registry operation is one uninterrupted
      run, as the lifecycle lease makes it. The laws [SessionOsLaws] of the
      system under the session service are ranges: a process id fits an int,
      sizes and times are not negative.

    ** Not modelled

    The server and the command line, with the listener end of the socket
    transport, the redirection of the standard streams of an engine and the
    time calls take; parsing and printing of times
    (long double arithmetic), which are arguments of [Engine.v]; the XDD
    backend (a dynamically loaded library); the generated entries of the action
    registry; the search for the data directory. *)

From Stdlib Require Export ZArith Lia Ascii.
From stdpp Require Export base list gmap strings numbers.

(** ** Scopes and byte strings

    A [std::string] is a list of 8-bit characters. [lit] turns a source
    literal into one. *)

Declare Scope xd_scope.
Delimit Scope xd_scope with xd.

Abbreviation bytes := (list ascii).
Abbreviation lit := String.list_ascii_of_string.

(** ** Outcomes of C++ evaluation

    [Ret] is a normal return; [UB] marks an execution the C++ standard gives
    no meaning to (an over-wide shift, a signed overflow); [Throw] is an
    escaping exception. *)

Inductive res (A : Type) : Type :=
| Ret (a : A)
| UB
| Throw (what : string).
Arguments Ret {A} a.
Arguments UB {A}.
Arguments Throw {A} what.

#[export] Instance res_ret : MRet res := fun A a => Ret a.
#[export] Instance res_bind : MBind res := fun A B f c =>
  match c with Ret a => f a | UB => UB | Throw w => Throw w end.
#[export] Instance res_fmap : FMap res := fun A B f c =>
  match c with Ret a => Ret (f a) | UB => UB | Throw w => Throw w end.

Definition is_ret {A} (c : res A) : bool :=
  match c with Ret _ => true | _ => false end.

Lemma Ret_inj {A} (a b : A) : Ret a = Ret b -> a = b.
Proof. congruence. Qed.

Lemma res_bind_Ret {A B} (c : res A) (f : A -> res B) b :
  c ≫= f = Ret b -> exists a, c = Ret a /\ f a = Ret b.
Proof. destruct c; simpl; intros H; try discriminate. eauto. Qed.

(** Loops whose body may throw. *)
Fixpoint map_res {A B} (f : A -> res B) (l : list A) : res (list B) :=
  match l with
  | [] => Ret []
  | a :: l' => b ← f a; bs ← map_res f l'; Ret (b :: bs)
  end.
Fixpoint filter_res {A} (p : A -> res bool) (l : list A) : res (list A) :=
  match l with
  | [] => Ret []
  | a :: l' =>
      keep ← p a;
      rest ← filter_res p l';
      Ret (match keep with true => a :: rest | false => rest end)
  end.
Definition fold_res {A B} (f : B -> A -> res B) (l : list A) (b : B) : res B := foldl (fun acc a => b ← acc; f b a) (Ret b) l.
(** [std::any_of]: the first hit ends the search. *)
Fixpoint exists_res {A} (p : A -> res bool) (l : list A) : res bool :=
  match l with
  | [] => Ret false
  | a :: l' => hit ← p a; match hit with true => Ret true | false => exists_res p l' end
  end.

(** ** Machine integers *)

Open Scope Z_scope.

Definition u64 (z : Z) : Z := z mod 2 ^ 64.
Definition u32 (z : Z) : Z := z mod 2 ^ 32.
Definition u16 (z : Z) : Z := z mod 2 ^ 16.
Definition i32 (z : Z) : Z := (z + 2 ^ 31) mod 2 ^ 32 - 2 ^ 31.
Definition i64 (z : Z) : Z := (z + 2 ^ 63) mod 2 ^ 64 - 2 ^ 63.

Definition int_max : Z := 2 ^ 31 - 1.
Definition int_min : Z := - 2 ^ 31.
Definition u64_max : Z := 2 ^ 64 - 1.
Definition i64_max : Z := 2 ^ 63 - 1.
Definition i64_min : Z := - 2 ^ 63.
Definition u32_max : Z := 2 ^ 32 - 1.

Definition in_int (z : Z) : bool := (int_min <=? z) && (z <=? int_max).

(** Signed [int] arithmetic: overflow is undefined. *)
Definition int_op (z : Z) : res Z := if in_int z then Ret z else UB.

Lemma u64_small z : 0 <= z < 2 ^ 64 -> u64 z = z.
Proof. apply Z.mod_small. Qed.

Lemma u64_range z : 0 <= u64 z < 2 ^ 64.
Proof. apply Z.mod_pos_bound. lia. Qed.

Lemma u32_range z : 0 <= u32 z < 2 ^ 32.
Proof. apply Z.mod_pos_bound. lia. Qed.

Lemma u32_small z : 0 <= z < 2 ^ 32 -> u32 z = z.
Proof. apply Z.mod_small. Qed.

Lemma u64_idemp z : u64 (u64 z) = u64 z.
Proof. apply u64_small, u64_range. Qed.

Lemma i32_small z : int_min <= z <= int_max -> i32 z = z.
Proof. unfold int_min, int_max, i32. intros. rewrite Z.mod_small; lia. Qed.

Lemma i64_small z : i64_min <= z <= i64_max -> i64 z = z.
Proof. unfold i64_min, i64_max, i64. intros. rewrite Z.mod_small; lia. Qed.

Create HintDb xd.
Create Rewrite HintDb xd.
#[export] Hint Rewrite u64_idemp : xd.
#[export] Hint Resolve u64_range : xd.

(** ** Characters

    [ascii_forall] decides a boolean fact about every character by
    enumerating the 256 of them. *)

Definition all_ascii : list ascii := map ascii_of_nat (List.seq 0 256).

Lemma ascii_forall (P : ascii -> bool) :
  forallb P all_ascii = true -> forall c, P c = true.
Proof.
  intros H c. rewrite List.forallb_forall in H. apply H.
  unfold all_ascii. apply List.in_map_iff. exists (nat_of_ascii c). split.
  - apply ascii_nat_embedding.
  - apply List.in_seq. pose proof (nat_ascii_bounded c). lia.
Qed.

Lemma ascii_forall_impl (P Q : ascii -> bool) :
  forallb (fun c => implb (P c) (Q c)) all_ascii = true ->
  forall c, P c = true -> Q c = true.
Proof.
  intros H c HP. pose proof (ascii_forall _ H c) as E. simpl in E.
  rewrite HP in E. exact E.
Qed.

Ltac ascii_dec_solve := vm_compute; reflexivity.

Definition code (c : ascii) : Z := Z.of_N (N_of_ascii c).
Definition chr (z : Z) : ascii := ascii_of_N (Z.to_N z).

Definition eqc (a b : ascii) : bool := bool_decide (a = b).

Lemma eqc_true a b : eqc a b = true <-> a = b.
Proof. apply bool_decide_eq_true. Qed.

Lemma eqc_false a b : eqc a b = false <-> a <> b.
Proof. apply bool_decide_eq_false. Qed.

Lemma eqc_refl a : eqc a a = true.
Proof. apply eqc_true. reflexivity. Qed.

Definition eqs (a b : bytes) : bool := bool_decide (a = b).

Lemma eqs_true a b : eqs a b = true <-> a = b.
Proof. apply bool_decide_eq_true. Qed.

Lemma eqs_refl a : eqs a a = true.
Proof. apply eqs_true. reflexivity. Qed.

Lemma eqs_false a b : eqs a b = false <-> a <> b.
Proof. apply bool_decide_eq_false. Qed.

#[export] Hint Rewrite eqc_refl eqs_refl : xd.

(** ** Lists *)

Fixpoint span {A} (p : A -> bool) (l : list A) : list A * list A :=
  match l with
  | [] => ([], [])
  | x :: l' => if p x then let '(a, b) := span p l' in (x :: a, b) else ([], l)
  end.

Lemma span_app {A} (p : A -> bool) l : fst (span p l) ++ snd (span p l) = l.
Proof.
  induction l as [|x l IH]; simpl; [done|].
  destruct (p x); [|done]. destruct (span p l). simpl in *. by rewrite IH.
Qed.

Lemma span_length {A} (p : A -> bool) l : (length (snd (span p l)) <= length l)%nat.
Proof. rewrite <- (span_app p l) at 2. rewrite length_app. lia. Qed.

Lemma span_stop {A} (p : A -> bool) a l :
  forallb p a = true ->
  match l with [] => True | x :: _ => p x = false end ->
  span p (a ++ l) = (a, l).
Proof.
  intros Ha Hl. induction a as [|x a IH]; simpl in *.
  - destruct l; simpl; [done|]. by rewrite Hl.
  - apply andb_true_iff in Ha as [-> Ha]. by rewrite IH.
Qed.

Lemma span_forallb {A} (p : A -> bool) l : forallb p (fst (span p l)) = true.
Proof.
  induction l as [|x l IH]; simpl; [done|].
  destruct (p x) eqn:E; [|done]. destruct (span p l). simpl in *. by rewrite E.
Qed.

(** [last_n n l]: the suffix of [l] of length [n] ([l] itself when shorter),
    i.e. [s.substr(s.size() - n)]. *)
Definition last_n {A} (n : nat) (l : list A) : list A := drop (length l - n) l.

Lemma length_last_n {A} n (l : list A) : (n <= length l)%nat -> length (last_n n l) = n.
Proof. intros. unfold last_n. rewrite length_drop. lia. Qed.

Lemma last_n_all {A} (l : list A) : last_n (length l) l = l.
Proof. unfold last_n. by rewrite Nat.sub_diag, drop_0. Qed.

(** [static_cast<int>(s.size())]; every string is shorter than [INT_MAX]. *)
Definition zlen {A} (s : list A) : Z := Z.of_nat (length s).

Lemma zlen_cons {A} (x : A) l : zlen (x :: l) = zlen l + 1.
Proof. unfold zlen. cbn [length]. lia. Qed.
Lemma zlen_app {A} (l k : list A) : zlen (l ++ k) = zlen l + zlen k.
Proof. unfold zlen. rewrite length_app. lia. Qed.
Lemma zlen_nonneg {A} (s : list A) : 0 <= zlen s.
Proof. unfold zlen. lia. Qed.

Lemma forallb_app {A} (p : A -> bool) l k :
  forallb p (l ++ k) = forallb p l && forallb p k.
Proof. apply List.forallb_app. Qed.

Lemma forallb_ext {A} (p q : A -> bool) l :
  (forall x, p x = q x) -> forallb p l = forallb q l.
Proof. intros H. induction l as [|x l IH]; simpl; [done|]. by rewrite H, IH. Qed.

Lemma forallb_impl {A} (p q : A -> bool) l :
  (forall x, p x = true -> q x = true) -> forallb p l = true -> forallb q l = true.
Proof.
  intros H. induction l as [|x l IH]; simpl; [done|].
  intros [Hx Hl]%andb_true_iff. rewrite (H _ Hx). by apply IH.
Qed.

Lemma forallb_replicate {A} (p : A -> bool) n x :
  p x = true -> forallb p (replicate n x) = true.
Proof. intros H. induction n; simpl; [done|]. by rewrite H. Qed.

Lemma forallb_drop {A} (p : A -> bool) n l :
  forallb p l = true -> forallb p (drop n l) = true.
Proof.
  revert n. induction l as [|x l IH]; intros [|n]; simpl; try done.
  intros [_ H]%andb_true_iff. by apply IH.
Qed.

Lemma forallb_Forall {A} (p : A -> bool) l :
  forallb p l = true <-> Forall (fun x => p x = true) l.
Proof.
  induction l as [|x l IH]; simpl; split; intros H; try done.
  - apply andb_true_iff in H as [Hx Hl]. constructor; [done|]. by apply IH.
  - inversion H; subst. apply andb_true_iff. split; [done|]. by apply IH.
Qed.

Lemma existsb_eqs l s : existsb (fun x => eqs x s) l = true <-> s ∈ l.
Proof.
  rewrite List.existsb_exists. split.
  - intros (x & Hin & ->%eqs_true). by apply list_elem_of_In.
  - intros Hin. exists s. split; [by apply list_elem_of_In|]. apply eqs_refl.
Qed.

Lemma existsb_eqs' l s : existsb (eqs s) l = true <-> s ∈ l.
Proof.
  rewrite List.existsb_exists. split.
  - intros (x & Hin & <-%eqs_true). by apply list_elem_of_In.
  - intros Hin. exists s. split; [by apply list_elem_of_In|]. apply eqs_refl.
Qed.

Lemma filter_none {A} (P : A -> Prop) `{!forall x, Decision (P x)} (l : list A) :
  (forall x, x ∈ l -> ~ P x) -> filter P l = [].
Proof.
  induction l as [|x l IH]; intros Hl; [done|].
  rewrite filter_cons_False by (apply Hl; left). apply IH. intros y Hy. apply Hl. by right.
Qed.

Lemma filter_all {A} (P : A -> Prop) `{!forall x, Decision (P x)} (l : list A) :
  (forall x, x ∈ l -> P x) -> filter P l = l.
Proof.
  induction l as [|x l IH]; intros Hl; [done|].
  rewrite filter_cons_True by (apply Hl; left). f_equal. apply IH. intros y Hy. apply Hl. by right.
Qed.

(** [List.filter] by a boolean test. *)
Lemma filter_false {A} (p : A -> bool) l : (forall a, a ∈ l -> p a = false) -> List.filter p l = [].
Proof.
  induction l as [|a l IH]; intros Hp; [done|]. cbn. rewrite (Hp a) by left. apply IH. intros b Hb. apply Hp. by right.
Qed.
Lemma filter_true {A} (p : A -> bool) l : (forall a, a ∈ l -> p a = true) -> List.filter p l = l.
Proof.
  induction l as [|a l IH]; intros Hp; [done|]. cbn. rewrite (Hp a) by left. f_equal. apply IH. intros b Hb. apply Hp. by right.
Qed.
Lemma filter_and {A} (p q : A -> bool) l : List.filter (fun a => p a && q a) l = List.filter q (List.filter p l).
Proof. induction l as [|a l IH]; [done|]. cbn [List.filter]. destruct (p a); cbn; by rewrite IH. Qed.

Lemma foldl_ext {A B} (f g : A -> B -> A) a l :
  (forall a b, f a b = g a b) -> foldl f a l = foldl g a l.
Proof. intros E. revert a. induction l as [|b l IH]; intros a; cbn; [done|]. by rewrite E, IH. Qed.

(** ** Tactics *)

(** Split a boolean conjunction in the hypotheses or the goal. *)
Ltac bsplit :=
  repeat match goal with
  | H : _ && _ = true |- _ => apply andb_true_iff in H; destruct H
  | H : _ || _ = false |- _ => apply orb_false_iff in H; destruct H
  | H : negb _ = true |- _ => apply negb_true_iff in H
  | H : negb _ = false |- _ => apply negb_false_iff in H
  | |- _ && _ = true => apply andb_true_iff; split
  | |- negb _ = true => apply negb_true_iff
  end.

(** Rewrite the goal with every known boolean value. *)
Ltac rew_bool :=
  repeat match goal with E : _ = false |- _ => rewrite E; clear E end; try done.

(** Case on the scrutinee of the goal's first [if]. *)
Ltac case_if :=
  match goal with
  | |- context [if ?b then _ else _] => destruct b eqn:?
  end.

Ltac case_if_in H :=
  match type of H with
  | context [if ?b then _ else _] => destruct b eqn:?
  end.

(** ** Counts and runs

    The statistics the handlers keep while they walk over the sampled edges are
    stated against these definitions over the whole list: how many elements
    satisfy a predicate, and the maximal runs of those that do. *)

Definition count_if {A} (p : A -> bool) (l : list A) : Z := zlen (List.filter p l).
Lemma count_snoc {A} (p : A -> bool) l a : count_if p (l ++ [a]) = count_if p l + (if p a then 1 else 0).
Proof. unfold count_if. rewrite filter_app, zlen_app. cbn. by destruct (p a). Qed.

Section Runs.
Context {A : Type} (p : A -> bool).

(** The maximal runs of [p] that have ended, each with the element that ended
    it, and the run at the end. *)
Definition run_step (runs : list (list A * A) * list A) (a : A) : list (list A * A) * list A :=
  let '(ended, open) := runs in
  if p a then (ended, open ++ [a]) else (match open with [] => ended | _ => ended ++ [(open, a)] end, []).
Definition runs_of (l : list A) : list (list A * A) * list A := foldl run_step ([], []) l.
Definition ended_runs (l : list A) : list (list A * A) := fst (runs_of l).
Definition last_run (l : list A) : list A := snd (runs_of l).

Lemma runs_of_snoc l a : runs_of (l ++ [a]) = run_step (runs_of l) a.
Proof. unfold runs_of. by rewrite foldl_app. Qed.
Lemma ended_snoc l a : ended_runs (l ++ [a]) =
  if p a then ended_runs l else match last_run l with [] => ended_runs l | r => ended_runs l ++ [(r, a)] end.
Proof. unfold ended_runs, last_run. rewrite runs_of_snoc. destruct (runs_of l) as [e o]. cbn. by destruct (p a), o. Qed.
Lemma last_run_snoc l a : last_run (l ++ [a]) = if p a then last_run l ++ [a] else [].
Proof. unfold last_run. rewrite runs_of_snoc. destruct (runs_of l) as [e o]. cbn. by destruct (p a). Qed.

(** They are runs of [p], ended by what is not, and hold every [p]. *)
Lemma runs_partition l : List.concat (map fst (ended_runs l)) ++ last_run l = List.filter p l /\
  Forall (fun r => fst r <> [] /\ Forall (fun a => p a = true) (fst r) /\ p (snd r) = false) (ended_runs l) /\
  Forall (fun a => p a = true) (last_run l).
Proof.
  induction l as [|a l (IH1 & IH2 & IH3)] using rev_ind; [by repeat constructor|]. rewrite ended_snoc, last_run_snoc, filter_app.
  cbn [List.filter]. destruct (p a) eqn:E.
  - split_and!; [by rewrite app_assoc, IH1|done|]. apply Forall_app. by split; [|constructor].
  - rewrite !app_nil_r. destruct (last_run l) as [|b r] eqn:Er; [by rewrite app_nil_r in IH1|].
    split_and!; [by rewrite map_app, concat_app; cbn; rewrite app_nil_r| |done].
    apply Forall_app. split; [done|]. by constructor.
Qed.
End Runs.

(** All the runs, the one at the end included. *)
Definition all_runs {A} (p : A -> bool) (l : list A) : list (list A) :=
  map fst (ended_runs p l) ++ match last_run p l with [] => [] | r => [r] end.
Definition longest {A} (runs : list (list A)) : Z := foldl (fun n r => Z.max n (zlen r)) 0 runs.
Lemma longest_snoc {A} (runs : list (list A)) r : longest (runs ++ [r]) = Z.max (longest runs) (zlen r).
Proof. unfold longest. by rewrite foldl_app. Qed.
Lemma all_runs_count {A} (p : A -> bool) l a :
  zlen (all_runs p (l ++ [a])) = zlen (all_runs p l) + (if p a && bool_decide (last_run p l = []) then 1 else 0).
Proof.
  unfold all_runs. rewrite ended_snoc, last_run_snoc. destruct (p a), (last_run p l) as [|b r]; cbn [andb app].
  - rewrite bool_decide_eq_true_2 by done. rewrite !zlen_app. unfold zlen. cbn. lia.
  - rewrite bool_decide_eq_false_2 by done. rewrite !zlen_app. unfold zlen. cbn. lia.
  - lia.
  - rewrite map_app, !zlen_app. unfold zlen. cbn. lia.
Qed.
Lemma open_run_some {A} (p : A -> bool) l : last_run p l <> [] -> List.filter p l <> [].
Proof. intros H E. destruct (runs_partition p l) as (Hc & _). rewrite E in Hc. by apply app_eq_nil in Hc as [_ ?]. Qed.
