(* ===== verification/Sorting.v ===== *)
(** * Sorting: the sorts of the standard library

    [std::stable_sort] is one function; [std::sort] may order equal elements
    either way, so it is an interface: whatever an implementation does, the
    result holds the same elements in ascending order of the key. *)

From stdpp Require Import sorting.
From S2P Require Import Prelude.

Open Scope Z_scope.

(** ** Sorted lists *)

Lemma StronglySorted_map {A B} (R : B -> B -> Prop) (f : A -> B) l :
  StronglySorted R (map f l) <-> StronglySorted (fun a b => R (f a) (f b)) l.
Proof.
  induction l as [|x l IH]; cbn [map]; [split; constructor|]. split; intros Hs; inversion Hs as [|? ? Hs' Hx]; subst;
    constructor; try (by apply IH).
  - apply list.Forall_forall. intros y Hy. apply (proj1 (list.Forall_forall _ _) Hx). by apply (list_elem_of_fmap_2 f).
  - apply list.Forall_forall. intros y Hy. apply list_elem_of_fmap in Hy as (z & -> & Hz).
    by apply (proj1 (list.Forall_forall _ _) Hx).
Qed.

Lemma StronglySorted_weaken {A} (R S : A -> A -> Prop) l : (forall x y, x ∈ l -> y ∈ l -> R x y -> S x y) ->
  StronglySorted R l -> StronglySorted S l.
Proof.
  intros Himp Hs. induction Hs as [|x l Hs IH Hx]; constructor.
  - apply IH. intros; apply Himp; [by right..|done].
  - rewrite list.Forall_forall in Hx |- *. intros y Hy. apply Himp; [left|by right|by apply Hx].
Qed.

Lemma StronglySorted_filter {A} (R : A -> A -> Prop) (p : A -> bool) l :
  StronglySorted R l -> StronglySorted R (List.filter p l).
Proof.
  induction 1 as [|x l Hs IH Hx]; cbn [List.filter]; [constructor|]. destruct (p x); [|done]. constructor; [done|].
  rewrite list.Forall_forall in Hx |- *. intros y Hy. apply Hx. rewrite !list_elem_of_In in *. by apply List.filter_In in Hy as [? _].
Qed.

Lemma StronglySorted_lookup {A} (R : A -> A -> Prop) l i j x y : StronglySorted R l ->
  l !! i = Some x -> l !! j = Some y -> (i < j)%nat -> R x y.
Proof.
  intros Hs. revert i j. induction Hs as [|z l Hs IH Hall]; intros [|i] [|j] Hi Hj Hlt; try done; try lia.
  - injection Hi as ->. apply (proj1 (list.Forall_forall _ _) Hall). by eapply list_elem_of_lookup_2.
  - eapply IH; [exact Hi|exact Hj|lia].
Qed.

Lemma seqZ_sorted m n : StronglySorted Z.lt (seqZ m (Z.of_nat n)).
Proof.
  induction n as [|n IH]; [constructor|]. rewrite Nat2Z.inj_succ, <- Z.add_1_r, seqZ_app by lia.
  apply StronglySorted_app. split; [|split; [done|repeat constructor]].
  intros x y [Hx1 Hx2]%elem_of_seqZ [Hy1 Hy2]%elem_of_seqZ. lia.
Qed.

Lemma Permutation_filter_bool {A} (p : A -> bool) l k : l ≡ₚ k -> List.filter p l ≡ₚ List.filter p k.
Proof.
  induction 1 as [|x l k _ IH|x y l|? ? ? _ IH1 _ IH2]; cbn [List.filter]; [done| | |by etransitivity].
  - destruct (p x); by rewrite IH.
  - destruct (p x), (p y); try done. apply perm_swap.
Qed.

(** A list sorted by a key is the only one with its elements if no two keys
    are equal. *)
Lemma sorted_unique {A} (key : A -> Z) l1 l2 : l1 ≡ₚ l2 ->
  StronglySorted (fun a b => key a <= key b) l1 -> StronglySorted (fun a b => key a < key b) l2 -> l1 = l2.
Proof.
  revert l1. induction l2 as [|x l2 IH]; intros l1 Hp H1 H2; [by apply Permutation_nil_r in Hp|].
  destruct l1 as [|y l1]; [by apply Permutation_nil_l in Hp|].
  apply StronglySorted_inv in H1 as [H1 Hy], H2 as [H2 Hx]. assert (y = x) as ->.
  { assert (y ∈ x :: l2) as [->|Hin]%elem_of_cons by (rewrite <- Hp; left); [done|].
    assert (x ∈ y :: l1) as [->|Hin']%elem_of_cons by (rewrite Hp; left); [done|].
    assert (key x < key y) by exact (proj1 (list.Forall_forall _ _) Hx _ Hin).
    assert (key y <= key x) by exact (proj1 (list.Forall_forall _ _) Hy _ Hin'). lia. }
  f_equal. apply IH; [by apply Permutation_cons_inv in Hp|done..].
Qed.

(** ** The sorts *)

(** [std::sort] by an integer key. *)
Class StdSort := {
  std_sort : forall {A : Type}, (A -> Z) -> list A -> list A;
  std_sort_perm : forall {A : Type} (key : A -> Z) l, Permutation (std_sort key l) l;
  std_sort_sorted : forall {A : Type} (key : A -> Z) l, StronglySorted (fun a b => key a <= key b) (std_sort key l);
}.

Section Stable.
Context {A : Type} (less : A -> A -> bool).

(** [x] goes before the first element that is not less than it. *)
Fixpoint insert_sorted (x : A) (l : list A) : list A :=
  match l with
  | [] => [x]
  | y :: l' => if less y x then y :: insert_sorted x l' else x :: y :: l'
  end.
Definition stable_sort (l : list A) : list A := foldr insert_sorted [] l.

Lemma insert_sorted_perm x l : Permutation (insert_sorted x l) (x :: l).
Proof.
  induction l as [|y l IH]; cbn [insert_sorted]; [done|]. destruct (less y x); [|done]. rewrite IH. constructor.
Qed.
Lemma stable_sort_perm l : Permutation (stable_sort l) l.
Proof. induction l as [|x l IH]; [done|]. cbn [stable_sort foldr]. rewrite insert_sorted_perm. by constructor. Qed.
Lemma stable_sort_length l : length (stable_sort l) = length l.
Proof. apply Permutation_length, stable_sort_perm. Qed.

(** [less] is the strict part of a total preorder. *)
Context (less_asym : forall a b, less a b = true -> less b a = false)
  (less_co_trans : forall a b c, less b a = false -> less c b = false -> less c a = false).

Definition not_after (a b : A) : Prop := less b a = false.

Lemma insert_sorted_sorted x l : StronglySorted not_after l -> StronglySorted not_after (insert_sorted x l).
Proof using less_asym less_co_trans.
  induction 1 as [|y l Hs IH Hall]; cbn [insert_sorted]; [by repeat constructor|]. destruct (less y x) eqn:E.
  - constructor; [done|]. rewrite insert_sorted_perm. constructor; [by apply less_asym|done].
  - constructor; [by constructor|]. constructor; [done|]. eapply list.Forall_impl; [exact Hall|].
    intros z Hz. by eapply less_co_trans.
Qed.
Lemma stable_sort_sorted l : StronglySorted not_after (stable_sort l).
Proof using less_asym less_co_trans. induction l as [|x l IH]; [constructor|]. by apply insert_sorted_sorted. Qed.

(** Elements that are not less than each other keep their order. *)
Lemma insert_sorted_tied p x l : (forall a b, p a = true -> p b = true -> less a b = false) ->
  List.filter p (insert_sorted x l) = List.filter p (x :: l).
Proof using.
  intros Hp. induction l as [|y l IH]; cbn [insert_sorted]; [done|]. destruct (less y x) eqn:E; [|done].
  cbn [List.filter] in *. rewrite IH. destruct (p y) eqn:Ey, (p x) eqn:Ex; try done. by rewrite (Hp y x Ey Ex) in E.
Qed.
Lemma stable_sort_tied p l : (forall a b, p a = true -> p b = true -> less a b = false) ->
  List.filter p (stable_sort l) = List.filter p l.
Proof using.
  intros Hp. induction l as [|x l IH]; [done|]. change (stable_sort (x :: l)) with (insert_sorted x (stable_sort l)).
  rewrite insert_sorted_tied by done.
  cbn [List.filter]. by rewrite IH.
Qed.
End Stable.

(** By a key. *)
Definition key_less {A} (key : A -> Z) (a b : A) : bool := key a <? key b.
Definition stable_sort_by {A} (key : A -> Z) : list A -> list A := stable_sort (key_less key).
Lemma stable_sort_by_sorted {A} (key : A -> Z) l : StronglySorted (fun a b => key a <= key b) (stable_sort_by key l).
Proof.
  assert (StronglySorted (not_after (key_less key)) (stable_sort_by key l)) as H.
  { apply stable_sort_sorted; unfold key_less; [intros a b|intros a b c]; rewrite ?Z.ltb_lt, ?Z.ltb_ge; lia. }
  revert H. apply StronglySorted_ind; [constructor|]. intros a l' _ IH Hall. constructor; [done|].
  eapply list.Forall_impl; [exact Hall|]. intros b Hb. by apply Z.ltb_ge in Hb.
Qed.

(** A stable sort is one way to sort. *)
Definition stable_std_sort : StdSort := {|
  std_sort A key l := stable_sort_by key l;
  std_sort_perm A key l := stable_sort_perm _ l;
  std_sort_sorted A key l := stable_sort_by_sorted key l;
|}.
