(* ===== verification/CLib.v ===== *)
(** * CLib: the C and C++ standard library functions the sources call

    Character classes in the "C" locale, decimal printing
    ([std::to_string]), and the [strto*] family with its whitespace, sign,
    prefix and saturation rules. [atoi] follows glibc:
    [(int) strtol (nptr, NULL, 10)]. *)

From S2P Require Import Prelude.

Open Scope Z_scope.

(** ** <cctype> *)

Definition isdigit (c : ascii) : bool := (48 <=? code c) && (code c <=? 57).
Definition isupper (c : ascii) : bool := (65 <=? code c) && (code c <=? 90).
Definition islower (c : ascii) : bool := (97 <=? code c) && (code c <=? 122).
Definition isalpha (c : ascii) : bool := isupper c || islower c.
Definition isalnum (c : ascii) : bool := isalpha c || isdigit c.
Definition isspace (c : ascii) : bool :=
  ((9 <=? code c) && (code c <=? 13)) || (code c =? 32).
Definition tolower (c : ascii) : ascii :=
  if isupper c then chr (code c + 32) else c.

Definition lowercase (s : bytes) : bytes := map tolower s.

Lemma tolower_idemp c : tolower (tolower c) = tolower c.
Proof.
  apply eqc_true. revert c. apply (ascii_forall (fun c => eqc (tolower (tolower c)) (tolower c))).
  ascii_dec_solve.
Qed.

Lemma lowercase_idemp s : lowercase (lowercase s) = lowercase s.
Proof.
  unfold lowercase. rewrite List.map_map. apply List.map_ext. apply tolower_idemp.
Qed.

Lemma tolower_digit c : isdigit c = true -> tolower c = c.
Proof.
  intros H. apply eqc_true. revert c H.
  apply (ascii_forall_impl isdigit (fun c => eqc (tolower c) c)). ascii_dec_solve.
Qed.

Lemma lowercase_app s t : lowercase (s ++ t) = lowercase s ++ lowercase t.
Proof. apply List.map_app. Qed.

Lemma lowercase_id s : forallb (fun c => eqc (tolower c) c) s = true -> lowercase s = s.
Proof.
  induction s as [|c s IH]; simpl; [done|]. intros H. bsplit.
  rewrite IH by done. f_equal. by apply eqc_true.
Qed.

(** ** Decimal printing *)

(** [while (acc > 0) { s.insert(s.begin(), '0' + acc % 10); acc /= 10; }] *)
Fixpoint dec_digits (fuel : nat) (acc : Z) (s : bytes) : bytes :=
  match fuel with
  | O => s
  | S f => if 0 <? acc then dec_digits f (acc / 10) (chr (48 + acc mod 10) :: s) else s
  end.

(** Enough iterations for [acc]: its bit length. *)
Definition dec_fuel (acc : Z) : nat := S (Z.to_nat (Z.log2 acc)).

(** [std::to_string] on a nonnegative and on a signed integer. *)
Definition udec (z : Z) : bytes :=
  if z =? 0 then lit "0" else dec_digits (dec_fuel z) z [].
Definition to_string (z : Z) : bytes :=
  if z <? 0 then "-"%char :: udec (- z) else udec z.

(** ** Digits in a base *)

Definition digit_of (c : ascii) : Z :=
  if isdigit c then code c - 48
  else if islower c then code c - 87
  else if isupper c then code c - 55
  else 99.

Definition is_base_digit (base : Z) (c : ascii) : bool := digit_of c <? base.

Definition base_val (base acc : Z) (l : bytes) : Z :=
  foldl (fun a c => a * base + digit_of c) acc l.

Lemma digit_of_nonneg c : 0 <= digit_of c.
Proof.
  apply Z.leb_le. revert c. apply (ascii_forall (fun c => 0 <=? digit_of c)).
  ascii_dec_solve.
Qed.

Lemma isdigit_base10 c : isdigit c = is_base_digit 10 c.
Proof.
  apply (Bool.eqb_prop). revert c.
  apply (ascii_forall (fun c => Bool.eqb (isdigit c) (is_base_digit 10 c))). ascii_dec_solve.
Qed.

Lemma base_val_acc base acc l :
  base_val base acc l = acc * base ^ Z.of_nat (length l) + base_val base 0 l.
Proof.
  revert acc. unfold base_val. induction l as [|c l IH]; intros acc; simpl.
  - rewrite Z.mul_1_r. lia.
  - rewrite IH, (IH (0 * base + digit_of c)).
    rewrite Nat2Z.inj_succ, Z.pow_succ_r by lia. ring.
Qed.

Lemma base_val_app base acc l k :
  base_val base acc (l ++ k) = base_val base (base_val base acc l) k.
Proof. apply foldl_app. Qed.

Lemma base_val_nonneg base acc l : 0 <= base -> 0 <= acc -> 0 <= base_val base acc l.
Proof.
  intros Hb. revert acc. unfold base_val. induction l as [|c l IH]; intros acc Ha; simpl; [lia|].
  apply IH. pose proof (digit_of_nonneg c). nia.
Qed.

(** ** strtol, strtoull, atoi *)

Definition skip_space (s : bytes) : bytes := snd (span isspace s).

(** Sign and the optional [0x] of base 16. *)
Definition strip_sign (s : bytes) : bool * bytes :=
  match s with
  | "-"%char :: s' => (true, s')
  | "+"%char :: s' => (false, s')
  | _ => (false, s)
  end.
Definition strip_prefix (base : Z) (s : bytes) : bytes :=
  match s with
  | "0"%char :: x :: d :: s' =>
      if (base =? 16) && (eqc (tolower x) "x") && is_base_digit 16 d then d :: s' else s
  | _ => s
  end.

(** [Some (negative, magnitude, rest)]; [None] when no digit is converted. *)
Definition strto (base : Z) (s : bytes) : option (bool * Z * bytes) :=
  let '(neg, s1) := strip_sign (skip_space s) in
  let '(ds, rest) := span (is_base_digit base) (strip_prefix base s1) in
  match ds with
  | [] => None
  | _ => Some (neg, base_val base 0 ds, rest)
  end.

(** Value, unconverted rest, and whether [errno] is set to [ERANGE]. *)
Definition strtoull (base : Z) (s : bytes) : Z * bytes * bool :=
  match strto base s with
  | None => (0, s, false)
  | Some (neg, m, rest) =>
      if u64_max <? m then (u64_max, rest, true)
      else ((if neg : bool then u64 (- m) else m), rest, false)
  end.
Definition strtoull_val (base : Z) (s : bytes) : Z := fst (fst (strtoull base s)).

Definition strtoll (base : Z) (s : bytes) : Z * bytes * bool :=
  match strto base s with
  | None => (0, s, false)
  | Some (neg, m, rest) =>
      let v := if neg : bool then - m else m in
      if v <? i64_min then (i64_min, rest, true)
      else if i64_max <? v then (i64_max, rest, true)
      else (v, rest, false)
  end.

Definition atoi (s : bytes) : Z := i32 (fst (fst (strtoll 10 s))).

(** ** Decimal round trips *)

Lemma chr_digit d : 0 <= d < 10 ->
  isdigit (chr (48 + d)) = true /\ digit_of (chr (48 + d)) = d.
Proof.
  intros H.
  assert (d = 0 \/ d = 1 \/ d = 2 \/ d = 3 \/ d = 4 \/ d = 5 \/ d = 6 \/ d = 7 \/ d = 8 \/ d = 9)
    as E by lia.
  repeat (destruct E as [->|E]; [split; reflexivity|]). subst. split; reflexivity.
Qed.

Lemma dec_digits_app fuel acc s :
  dec_digits fuel acc s = dec_digits fuel acc [] ++ s.
Proof.
  revert acc s. induction fuel as [|f IH]; intros acc s; simpl; [done|].
  case_if; [|done]. rewrite IH, (IH _ [_]). by rewrite <- app_assoc.
Qed.

Lemma dec_digits_all fuel acc : forallb isdigit (dec_digits fuel acc []) = true.
Proof.
  revert acc. induction fuel as [|f IH]; intros acc; simpl; [done|].
  case_if; [|done]. rewrite dec_digits_app, forallb_app, IH. simpl.
  rewrite andb_true_r. apply chr_digit. apply Z.mod_pos_bound. lia.
Qed.

Lemma dec_digits_val fuel acc :
  0 <= acc < 2 ^ Z.of_nat fuel -> base_val 10 0 (dec_digits fuel acc []) = acc.
Proof.
  revert acc. induction fuel as [|f IH]; intros acc H.
  - simpl in *. lia.
  - rewrite Nat2Z.inj_succ, Z.pow_succ_r in H by lia. cbn [dec_digits].
    destruct (Z.ltb_spec 0 acc).
    + rewrite dec_digits_app, base_val_app, IH.
      * unfold base_val. simpl.
        rewrite (proj2 (chr_digit (acc mod 10) (Z.mod_pos_bound acc 10 eq_refl))).
        pose proof (Z.div_mod acc 10). lia.
      * split; [apply Z.div_pos; lia|].
        apply Z.div_lt_upper_bound; lia.
    + unfold base_val. simpl. lia.
Qed.

Lemma dec_fuel_enough z : 0 < z -> z < 2 ^ Z.of_nat (dec_fuel z).
Proof.
  intros H. unfold dec_fuel. rewrite Nat2Z.inj_succ, Z2Nat.id by apply Z.log2_nonneg.
  apply Z.log2_spec. done.
Qed.

Lemma udec_val z : 0 <= z -> base_val 10 0 (udec z) = z.
Proof.
  intros H. unfold udec. destruct (Z.eqb_spec z 0); [subst; reflexivity|].
  apply dec_digits_val. pose proof (dec_fuel_enough z). lia.
Qed.

Lemma udec_digits z : forallb isdigit (udec z) = true.
Proof. unfold udec. case_if; [reflexivity|]. apply dec_digits_all. Qed.

Lemma dec_digits_nonempty fuel acc : (0 < fuel)%nat -> 0 < acc -> dec_digits fuel acc [] <> [].
Proof.
  intros Hf Ha. destruct fuel; [lia|]. simpl. rewrite (proj2 (Z.ltb_lt _ _) Ha).
  rewrite dec_digits_app. intros [? ?]%app_eq_nil. discriminate.
Qed.

Lemma udec_nonempty z : 0 <= z -> udec z <> [].
Proof.
  intros H. unfold udec. destruct (Z.eqb_spec z 0); [done|].
  apply dec_digits_nonempty; unfold dec_fuel; lia.
Qed.

Lemma udec_inj a b : 0 <= a -> 0 <= b -> udec a = udec b -> a = b.
Proof. intros Ha Hb E. rewrite <- (udec_val a), <- (udec_val b) by done. by rewrite E. Qed.

(** A run of digits converts to its value whatever follows it. *)
Lemma strto_digits ds rest :
  forallb isdigit ds = true -> ds <> [] ->
  match rest with [] => True | c :: _ => isdigit c = false end ->
  strto 10 (ds ++ rest) = Some (false, base_val 10 0 ds, rest).
Proof.
  intros Hd Hne Hr. destruct ds as [|d ds]; [done|]. cbn [app].
  assert (Hdd : isdigit d = true) by (simpl in Hd; bsplit; done).
  unfold strto, skip_space. cbn [span].
  assert (isspace d = false) as ->.
  { apply negb_true_iff. revert Hdd.
    apply (ascii_forall_impl isdigit (fun c => negb (isspace c))). ascii_dec_solve. }
  cbn [snd].
  assert (strip_sign (d :: ds ++ rest) = (false, d :: ds ++ rest)) as ->.
  { assert (eqc d "-" = false /\ eqc d "+" = false) as [H1 H2].
    { split; apply negb_true_iff; revert Hdd;
      [apply (ascii_forall_impl isdigit (fun c => negb (eqc c "-")))
      |apply (ascii_forall_impl isdigit (fun c => negb (eqc c "+")))]; ascii_dec_solve. }
    apply eqc_false in H1, H2. unfold strip_sign.
    destruct d as [[] [] [] [] [] [] [] []]; try done. }
  assert (strip_prefix 10 (d :: ds ++ rest) = d :: ds ++ rest) as ->.
  { unfold strip_prefix. cbn [Z.eqb andb].
    destruct d as [[] [] [] [] [] [] [] []]; try done.
    destruct (ds ++ rest) as [|? [|? ?]]; done. }
  change (d :: ds ++ rest) with ((d :: ds) ++ rest).
  rewrite (span_stop _ (d :: ds) rest); [done| |].
  - rewrite <- Hd. apply forallb_ext. intros. by rewrite isdigit_base10.
  - destruct rest; [done|]. by rewrite <- isdigit_base10.
Qed.

Lemma strtoull_udec z : 0 <= z < 2 ^ 64 -> strtoull 10 (udec z) = (z, [], false).
Proof.
  intros H. unfold strtoull. rewrite <- (app_nil_r (udec z)), strto_digits.
  - rewrite udec_val by lia. destruct (Z.ltb_spec u64_max z); [unfold u64_max in *; lia|done].
  - apply udec_digits.
  - apply udec_nonempty. lia.
  - done.
Qed.

Lemma atoi_udec z : 0 <= z <= int_max -> atoi (udec z) = z.
Proof.
  intros H. unfold atoi, strtoll. rewrite <- (app_nil_r (udec z)), strto_digits.
  - rewrite udec_val by lia.
    destruct (Z.ltb_spec z i64_min); [unfold i64_min, int_max in *; lia|].
    destruct (Z.ltb_spec i64_max z); [unfold i64_max, int_max in *; lia|].
    apply i32_small. unfold int_min. lia.
  - apply udec_digits.
  - apply udec_nonempty. lia.
  - done.
Qed.

(** ** std::upper_bound

    libstdc++'s halving loop over [\[first, first + len)]; [above x] is the
    comparison "the searched value is less than [x]". *)

Fixpoint upper_bound_loop {A} (fuel : nat) (above : A -> bool) (l : list A)
    (first len : nat) : nat :=
  match fuel with
  | O => first
  | S f =>
      match len with
      | O => first
      | _ =>
          let half := (len / 2)%nat in
          match l !! (first + half)%nat with
          | Some x =>
              if above x then upper_bound_loop f above l first half
              else upper_bound_loop f above l (first + half + 1) (len - half - 1)
          | None => first
          end
      end
  end.

Definition upper_bound {A} (above : A -> bool) (l : list A) : nat :=
  upper_bound_loop (length l) above l 0 (length l).

(** The range is partitioned: every element after one above the value is
    also above it. *)
Definition partitioned {A} (above : A -> bool) (l : list A) : Prop :=
  forall i j x y, (i <= j)%nat -> l !! i = Some x -> l !! j = Some y ->
    above x = true -> above y = true.

Lemma upper_bound_loop_spec {A} (above : A -> bool) (l : list A) fuel first len :
  partitioned above l -> (len <= fuel)%nat -> (first + len <= length l)%nat ->
  (forall i x, (i < first)%nat -> l !! i = Some x -> above x = false) ->
  (forall i x, (first + len <= i)%nat -> l !! i = Some x -> above x = true) ->
  let n := upper_bound_loop fuel above l first len in
  (n <= length l)%nat /\
  (forall i x, (i < n)%nat -> l !! i = Some x -> above x = false) /\
  (forall i x, (n <= i)%nat -> l !! i = Some x -> above x = true).
Proof.
  intros Hp. revert first len.
  induction fuel as [|f IH]; intros first len Hf Hl Hlo Hhi; cbn [upper_bound_loop].
  - assert (len = 0%nat) as -> by lia. rewrite Nat.add_0_r in Hhi. repeat split; auto; lia.
  - destruct len as [|len']; [rewrite Nat.add_0_r in Hhi; repeat split; auto; lia|].
    assert (S len' / 2 < S len')%nat as Hh by (apply Nat.div_lt; lia).
    generalize dependent (S len' / 2)%nat. intros half Hh.
    destruct (lookup_lt_is_Some_2 l (first + half)) as [x Hx]; [lia|].
    rewrite Hx. destruct (above x) eqn:E.
    + apply IH; [lia|lia|done|]. intros i y Hi Hy. by apply (Hp (first + half)%nat i x y).
    + apply IH; [lia|lia| |].
      * intros i y Hi Hy. destruct (above y) eqn:Ey; [|done].
        rewrite (Hp i (first + half)%nat y x) in E; (done || lia).
      * intros i y Hi Hy. apply (Hhi i y); [lia|done].
Qed.

Lemma upper_bound_spec {A} (above : A -> bool) (l : list A) :
  partitioned above l ->
  (upper_bound above l <= length l)%nat /\
  (forall i x, (i < upper_bound above l)%nat -> l !! i = Some x -> above x = false) /\
  (forall i x, (upper_bound above l <= i)%nat -> l !! i = Some x -> above x = true).
Proof.
  intros Hp. apply upper_bound_loop_spec; [done|lia|lia|lia|].
  intros i x Hi Hx. apply lookup_lt_Some in Hx. lia.
Qed.

(** The partition point is unique. *)
Lemma upper_bound_unique {A} (above : A -> bool) (l : list A) n :
  partitioned above l -> (n <= length l)%nat ->
  (forall i x, (i < n)%nat -> l !! i = Some x -> above x = false) ->
  (forall i x, (n <= i)%nat -> l !! i = Some x -> above x = true) ->
  upper_bound above l = n.
Proof.
  intros Hp Hn Hlo Hhi. destruct (upper_bound_spec above l Hp) as (Hm & Mlo & Mhi).
  destruct (Nat.lt_trichotomy (upper_bound above l) n) as [C|[C|C]]; [|done|].
  - destruct (lookup_lt_is_Some_2 l (upper_bound above l)) as [x Hx]; [lia|].
    pose proof (Hlo _ _ C Hx). rewrite (Mhi _ _ (le_n _) Hx) in H. done.
  - destruct (lookup_lt_is_Some_2 l n) as [x Hx]; [lia|].
    pose proof (Mlo _ _ C Hx). rewrite (Hhi _ _ (le_n _) Hx) in H. done.
Qed.
