(* ===== verification/Json.v ===== *)
(** * Json: the JSON values the program exchanges

    [nlohmann::json] as the sources use it: a tagged union whose object is a
    [std::map<std::string, json>], hence a list of members sorted by key. The
    operations are the ones called by the modelled code: [operator[]] with
    assignment, [contains], [size], the [is_*] queries and [get<T>]. *)

From S2P Require Import Prelude.

Open Scope Z_scope.

Inductive json : Type :=
| JNull
| JBool (b : bool)
| JInt (z : Z)          (* number_integer: a negative (or signed) integer *)
| JUint (z : Z)         (* number_unsigned *)
| JFloat (repr : bytes)
| JString (s : bytes)
| JArray (items : list json)
| JObject (members : list (bytes * json)).

(** [std::string::compare]: lexicographic on unsigned characters. *)
Fixpoint str_compare (a b : bytes) : comparison :=
  match a, b with
  | [], [] => Eq
  | [], _ => Lt
  | _, [] => Gt
  | x :: a', y :: b' =>
      match code x ?= code y with Eq => str_compare a' b' | c => c end
  end.
Definition str_ltb (a b : bytes) : bool :=
  match str_compare a b with Lt => true | _ => false end.

Lemma code_inj a b : code a = code b -> a = b.
Proof.
  unfold code. intros H. apply N2Z.inj in H.
  rewrite <- (ascii_N_embedding a), <- (ascii_N_embedding b). by rewrite H.
Qed.

Lemma str_compare_refl a : str_compare a a = Eq.
Proof. induction a as [|x a IH]; simpl; [done|]. by rewrite Z.compare_refl. Qed.

Lemma str_compare_eq a b : str_compare a b = Eq <-> a = b.
Proof.
  split; [|intros ->; apply str_compare_refl].
  revert b. induction a as [|x a IH]; intros [|y b]; simpl; try done.
  destruct (Z.compare_spec (code x) (code y)) as [E| |]; try done.
  intros H. f_equal; [by apply code_inj|by apply IH].
Qed.

Lemma str_compare_antisym a b : str_compare b a = CompOpp (str_compare a b).
Proof.
  revert b. induction a as [|x a IH]; intros [|y b]; simpl; try done.
  rewrite Z.compare_antisym. destruct (code x ?= code y); simpl; auto.
Qed.

Lemma str_compare_lt_trans a b c :
  str_compare a b = Lt -> str_compare b c = Lt -> str_compare a c = Lt.
Proof.
  revert b c. induction a as [|x a IH]; intros [|y b] [|z c]; simpl; try done.
  destruct (Z.compare_spec (code x) (code y)) as [E1|E1|E1]; try done;
  destruct (Z.compare_spec (code y) (code z)) as [E2|E2|E2]; try done.
  - rewrite E1, E2, Z.compare_refl. apply IH.
  - rewrite E1. by rewrite (proj2 (Z.compare_lt_iff _ _) E2).
  - rewrite <- E2. by rewrite (proj2 (Z.compare_lt_iff _ _) E1).
  - by rewrite (proj2 (Z.compare_lt_iff (code x) (code z))) by lia.
Qed.

(** ** Object members *)

Section Members.
Context {V : Type}.

(** [object[key] = value] *)
Fixpoint mset (k : bytes) (v : V) (m : list (bytes * V)) : list (bytes * V) :=
  match m with
  | [] => [(k, v)]
  | (k', v') :: m' =>
      match str_compare k k' with
      | Lt => (k, v) :: m
      | Eq => (k, v) :: m'
      | Gt => (k', v') :: mset k v m'
      end
  end.

(** [object.find(key)] *)
Fixpoint mget (k : bytes) (m : list (bytes * V)) : option V :=
  match m with
  | [] => None
  | (k', v') :: m' => if eqs k k' then Some v' else mget k m'
  end.

(** [object.erase(key)] *)
Fixpoint mdel (k : bytes) (m : list (bytes * V)) : list (bytes * V) :=
  match m with
  | [] => []
  | (k', v') :: m' => if eqs k k' then m' else (k', v') :: mdel k m'
  end.

(** An initializer list [{ {k1, v1}, ... }]. *)
Definition mfrom (l : list (bytes * V)) : list (bytes * V) :=
  foldl (fun m kv => mset (fst kv) (snd kv) m) [] l.

Lemma mget_mset_eq k v m : mget k (mset k v m) = Some v.
Proof.
  induction m as [|[k' v'] m IH]; simpl; [by rewrite eqs_refl|].
  destruct (str_compare k k') eqn:E; simpl; rewrite ?eqs_refl; try done.
  assert (eqs k k' = false) as ->; [|done].
  apply eqs_false. intros ->. by rewrite str_compare_refl in E.
Qed.

Lemma mget_mset_ne k k' v m : k <> k' -> mget k' (mset k v m) = mget k' m.
Proof.
  intros Hne. assert (eqs k' k = false) as Hf by (apply eqs_false; congruence).
  induction m as [|[k2 v2] m IH]; simpl; [by rewrite Hf|].
  destruct (str_compare k k2) eqn:E; simpl.
  - apply str_compare_eq in E as <-. by rewrite Hf.
  - by rewrite Hf.
  - by rewrite IH.
Qed.

Lemma mset_keys k v m k' : k' ∈ map fst (mset k v m) <-> k' = k \/ k' ∈ map fst m.
Proof.
  induction m as [|[k1 v1] m IH]; cbn [mset]; [set_solver|].
  destruct (str_compare k k1) eqn:E; cbn [map fst].
  - apply str_compare_eq in E as <-. set_solver.
  - set_solver.
  - rewrite !elem_of_cons, IH. tauto.
Qed.

(** The key order of a [std::map]: strictly increasing. *)
Fixpoint msorted (m : list (bytes * V)) : bool :=
  match m with
  | (k, _) :: ((k', _) :: _) as m' => str_ltb k k' && msorted m'
  | _ => true
  end.

Lemma str_ltb_lt a b : str_ltb a b = true <-> str_compare a b = Lt.
Proof. unfold str_ltb. by destruct (str_compare a b). Qed.

Lemma msorted_cons k v m : msorted ((k, v) :: m) = true ->
  msorted m = true /\ forall k' v', (k', v') ∈ m -> str_compare k k' = Lt.
Proof.
  revert k v. induction m as [|[k1 v1] m IH]; intros k v Hs.
  - split; [done|]. intros k' v' Hin. by apply elem_of_nil in Hin.
  - cbn [msorted] in Hs. apply andb_true_iff in Hs as [Hlt Hs]. split; [done|].
    apply str_ltb_lt in Hlt. intros k' v' [E|Hin]%elem_of_cons; [by simplify_eq|].
    destruct (IH k1 v1 Hs) as [_ Hall]. eapply str_compare_lt_trans; [done|by eapply Hall].
Qed.

Lemma msorted_intro k v m : msorted m = true ->
  (forall k' v', (k', v') ∈ m -> str_compare k k' = Lt) -> msorted ((k, v) :: m) = true.
Proof.
  destruct m as [|[k1 v1] m]; intros Hs Hall; [done|]. cbn [msorted] in *.
  apply andb_true_iff. split; [|done]. apply str_ltb_lt, (Hall k1 v1). left.
Qed.

Lemma mset_elem k v m k' v' : (k', v') ∈ mset k v m -> (k', v') = (k, v) \/ (k', v') ∈ m.
Proof.
  induction m as [|[k1 v1] m IH]; cbn [mset].
  - intros Hin%list_elem_of_singleton. by left.
  - destruct (str_compare k k1); intros [E|Hin]%elem_of_cons; auto.
    + right. by right.
    + right. rewrite E. left.
    + destruct (IH Hin) as [?|?]; [by left|]. right. by right.
Qed.

Lemma mset_sorted k v m : msorted m = true -> msorted (mset k v m) = true.
Proof.
  induction m as [|[k1 v1] m IH]; intros Hs; [done|].
  apply msorted_cons in Hs as [Hs Hall]. cbn [mset].
  destruct (str_compare k k1) eqn:E.
  - apply str_compare_eq in E as <-. by apply msorted_intro.
  - apply msorted_intro; [by apply msorted_intro|]. intros k' v' [E'|Hin]%elem_of_cons.
    + by simplify_eq.
    + eapply str_compare_lt_trans; [done|by eapply Hall].
  - apply msorted_intro; [by apply IH|]. intros k' v' [E'|Hin]%mset_elem; [|by eapply Hall].
    simplify_eq. rewrite str_compare_antisym, E. done.
Qed.

Lemma mdel_elem k m k' v' : (k', v') ∈ mdel k m -> (k', v') ∈ m.
Proof.
  induction m as [|[k1 v1] m IH]; cbn [mdel]; [done|]. case_if; [by right|].
  intros [E|Hin]%elem_of_cons; [rewrite E; left|right; auto].
Qed.

Lemma mdel_sorted k m : msorted m = true -> msorted (mdel k m) = true.
Proof.
  induction m as [|[k1 v1] m IH]; intros Hs; [done|].
  apply msorted_cons in Hs as [Hs Hall]. cbn [mdel]. case_if; [done|].
  apply msorted_intro; [by apply IH|]. intros k' v' Hin. by eapply Hall, mdel_elem.
Qed.

Lemma mget_elem k v m : mget k m = Some v -> (k, v) ∈ m.
Proof.
  induction m as [|[k1 v1] m IH]; cbn [mget]; [done|]. case_if.
  - intros [= <-]. apply eqs_true in Heqb as ->. left.
  - intros Hg. right. auto.
Qed.

Lemma elem_mget k v m : msorted m = true -> (k, v) ∈ m -> mget k m = Some v.
Proof.
  induction m as [|[k1 v1] m IH]; intros Hs Hin; [by apply elem_of_nil in Hin|].
  apply msorted_cons in Hs as [Hs Hall]. cbn [mget].
  apply elem_of_cons in Hin as [E|Hin]; [simplify_eq; by rewrite eqs_refl|].
  assert (eqs k k1 = false) as ->; [|auto]. apply eqs_false. intros ->.
  specialize (Hall k1 v Hin). by rewrite str_compare_refl in Hall.
Qed.

Lemma mget_mdel_ne k k' m : k <> k' -> mget k' (mdel k m) = mget k' m.
Proof.
  intros Hne. induction m as [|[k1 v1] m IH]; cbn [mdel mget]; [done|].
  destruct (eqs k k1) eqn:E; cbn [mget].
  - apply eqs_true in E as <-. rewrite (proj2 (eqs_false k' k)) by congruence. done.
  - by rewrite IH.
Qed.

Lemma mget_mdel_eq k m : msorted m = true -> mget k (mdel k m) = None.
Proof.
  induction m as [|[k1 v1] m IH]; intros Hs; [done|].
  apply msorted_cons in Hs as [Hs Hall]. cbn [mdel]. destruct (eqs k k1) eqn:E.
  - apply eqs_true in E as <-. destruct (mget k m) as [v|] eqn:Hg; [|done].
    apply mget_elem in Hg. specialize (Hall k v Hg). by rewrite str_compare_refl in Hall.
  - cbn [mget]. rewrite E. by apply IH.
Qed.
End Members.

(** ** Queries *)

Definition is_object (j : json) : bool := match j with JObject _ => true | _ => false end.
Definition is_array (j : json) : bool := match j with JArray _ => true | _ => false end.
Definition is_string (j : json) : bool := match j with JString _ => true | _ => false end.
Definition is_number_unsigned (j : json) : bool := match j with JUint _ => true | _ => false end.
Definition is_number_integer (j : json) : bool :=
  match j with JInt _ | JUint _ => true | _ => false end.

Definition members (j : json) : list (bytes * json) :=
  match j with JObject m => m | _ => [] end.
Definition jget (k : bytes) (j : json) : option json := mget k (members j).
Definition jcontains (k : bytes) (j : json) : bool :=
  match jget k j with Some _ => true | None => false end.
Definition jsize (j : json) : nat :=
  match j with
  | JNull => 0
  | JObject m => length m
  | JArray a => length a
  | _ => 1
  end%nat.
Definition jat (k : bytes) (j : json) : json := default JNull (jget k j).

(** A non-negative C++ integer stored in a [json] value from an unsigned
    type is [number_unsigned]; from a signed type it is [number_integer]. *)
Definition jstr (s : bytes) : json := JString s.

(** The values a [json] object can hold: numbers in the range of their C++
    type and, in every object, members ordered by key. *)
Fixpoint json_wf (j : json) : bool :=
  match j with
  | JInt z => (i64_min <=? z) && (z <=? i64_max)
  | JUint z => (0 <=? z) && (z <=? u64_max)
  | JArray items => forallb json_wf items
  | JObject m => msorted m && forallb (fun kv => json_wf (snd kv)) m
  | _ => true
  end.

Lemma json_wf_get k v j : json_wf j = true -> jget k j = Some v -> json_wf v = true.
Proof.
  unfold jget. destruct j; cbn [members mget]; try done. cbn [json_wf]. intros Hw Hg.
  apply andb_true_iff in Hw as [_ Hw]. rewrite List.forallb_forall in Hw.
  apply (Hw (k, v)), list_elem_of_In. by apply mget_elem.
Qed.

Lemma json_wf_at k j : json_wf j = true -> json_wf (jat k j) = true.
Proof. intros Hw. unfold jat. destruct (jget k j) eqn:E; [by eapply json_wf_get|done]. Qed.

Lemma msorted_NoDup {V} (m : list (bytes * V)) : msorted m = true -> NoDup (map fst m).
Proof.
  induction m as [|[k v] m IH]; intros Hs; [constructor|].
  apply msorted_cons in Hs as [Hs Hall]. cbn [map fst]. constructor; [|auto].
  rewrite list_elem_of_In, List.in_map_iff. intros ([k' v'] & <- & Hin).
  apply list_elem_of_In, Hall in Hin. cbn [fst] in Hin. by rewrite str_compare_refl in Hin.
Qed.

Lemma jcontains_elem k j : jcontains k j = true <-> k ∈ map fst (members j).
Proof.
  unfold jcontains, jget. induction (members j) as [|[k' v'] m IH]; cbn [mget map fst].
  - split; [done|]. by intros ?%elem_of_nil.
  - rewrite elem_of_cons. destruct (eqs k k') eqn:E.
    + apply eqs_true in E as ->. tauto.
    + rewrite IH. apply eqs_false in E. tauto.
Qed.

(** ** Members as a multiset *)

Lemma mdel_perm {A} k (m : list (bytes * A)) v : mget k m = Some v -> m ≡ₚ (k, v) :: mdel k m.
Proof.
  induction m as [|[k' v'] m IH]; cbn [mget mdel]; [done|]. destruct (eqs k k') eqn:E.
  - apply eqs_true in E as ->. by intros [= ->].
  - intros Hg. etransitivity; [apply perm_skip, IH, Hg|apply perm_swap].
Qed.

Lemma mset_perm {A} k (m : list (bytes * A)) v : mget k m = None -> mset k v m ≡ₚ (k, v) :: m.
Proof.
  induction m as [|[k' v'] m IH]; cbn [mget mset]; [done|]. destruct (eqs k k') eqn:E; [done|]. intros Hg.
  destruct (str_compare k k') eqn:C; [|done|].
  - apply str_compare_eq in C as ->. by rewrite eqs_refl in E.
  - rewrite (IH Hg). apply perm_swap.
Qed.

Lemma mset_del_perm {A} k (m : list (bytes * A)) v v0 : msorted m = true -> mget k m = Some v0 ->
  mset k v m ≡ₚ (k, v) :: mdel k m.
Proof.
  induction m as [|[k' v'] m IH]; [done|]. intros Hs. pose proof (msorted_cons k' v' m Hs) as [Hs' Hlt].
  cbn [mget mset mdel]. destruct (eqs k k') eqn:E.
  - apply eqs_true in E as ->. by rewrite str_compare_refl.
  - intros Hg. destruct (str_compare k k') eqn:C.
    + apply str_compare_eq in C as ->. by rewrite eqs_refl in E.
    + apply mget_elem in Hg. apply Hlt in Hg. rewrite str_compare_antisym, Hg in C. done.
    + rewrite (IH Hs' Hg). apply perm_swap.
Qed.
