(* ===== verification/LogicValue.v ===== *)
(** * LogicValue: 4-state values and their literals

    Models [src/core/value/logic_value.{h,cpp}]. A value is an MSB-first
    string of ['0' '1' 'x' 'z'] characters with a declared width (0 when
    unknown) and the known/has_x/has_z flags. *)

From S2P Require Import Prelude CLib Json.

Open Scope Z_scope.

(** ** Data *)

Inductive ValueRenderFormat := Hex | Bin | Dec.

Record LogicValue := MkLV {
  bits : bytes;
  width : Z;
  known : bool;
  has_x : bool;
  has_z : bool;
}.

(** [LogicValue{}] with the in-class initializers. *)
Definition lv_default : LogicValue := MkLV [] 0 true false false.

Definition lv_ok (v : LogicValue) : bool :=
  known v && negb (bool_decide (bits v = [])).

#[export] Instance LogicValue_eq_dec : EqDecision LogicValue.
Proof. solve_decision. Defined.

#[export] Instance ValueRenderFormat_eq_dec : EqDecision ValueRenderFormat.
Proof. solve_decision. Defined.

(** ** Construction *)

Definition classify (v : LogicValue) (c : ascii) : LogicValue :=
  if eqc c "x" || eqc c "X" || eqc c "h" || eqc c "u" || eqc c "w" || eqc c "-" then
    MkLV (bits v) (width v) false true (has_z v)
  else if eqc c "z" || eqc c "Z" || eqc c "l" then
    MkLV (bits v) (width v) false (has_x v) true
  else if negb (eqc c "0") && negb (eqc c "1") then
    MkLV (bits v) (width v) false true (has_z v)
  else v.

Definition logic_value_from_bits (bs : bytes) (w : Z) : LogicValue :=
  let v := foldl classify (MkLV bs w true false false) bs in
  if (width v =? 0) && negb (bool_decide (bs = [])) then
    MkLV (bits v) (zlen bs) (known v) (has_x v) (has_z v)
  else v.

(** One iteration of [(value >> i) & 1ULL]: undefined when [i >= 64]. *)
Definition bit_char (value : Z) (i : nat) : res ascii :=
  if Z.of_nat i <? 64 then
    Ret (if Z.land (Z.shiftr value (Z.of_nat i)) 1 =? 0 then "0"%char else "1"%char)
  else UB.

(** [for (int i = n - 1; i >= 0; --i) bits.push_back(...)] *)
Fixpoint u64_bits (value : Z) (n : nat) : res bytes :=
  match n with
  | O => Ret []
  | S i => c ← bit_char value i; rest ← u64_bits value i; Ret (c :: rest)
  end.

Definition logic_value_from_u64 (value w : Z) : res LogicValue :=
  let n := if 0 <? w then w else 64 in
  bs ← u64_bits value (Z.to_nat n);
  Ret (MkLV bs w true false false).

(** ** Rendering *)

Definition hex_char (d : Z) : ascii :=
  default "0"%char (lit "0123456789abcdef" !! Z.to_nat d).

Definition nibble_to_hex (nib : bytes) : bytes :=
  let hx := existsb (fun c => eqc c "x" || eqc c "h" || eqc c "u" || eqc c "w" || eqc c "-") nib in
  let hz := existsb (fun c => eqc c "z" || eqc c "l") nib in
  if hx then lit "x" else if hz then lit "z" else
  let v := foldl (fun v c => Z.lor (u32 (Z.shiftl v 1)) (if eqc c "1" then 1 else 0)) 0 nib in
  [hex_char (Z.land v 15)].

(** [unsigned __int128] accumulation, MSB first. *)
Definition bits_to_decimal (bs : bytes) : bytes :=
  let acc := foldl (fun acc c => (acc * 2 + (if eqc c "1" then 1 else 0)) mod 2 ^ 128) 0 bs in
  if acc =? 0 then lit "0" else dec_digits (dec_fuel acc) acc [].

(** The chunk loop of the hex branch: [nib] characters first, then fours. *)
Fixpoint hex_chunks (fuel nib : nat) (s : bytes) : bytes :=
  match fuel, s with
  | S f, _ :: _ => nibble_to_hex (take nib s) ++ hex_chunks f 4 (drop nib s)
  | _, _ => []
  end.

Definition sv_literal (v : LogicValue) (radix : ascii) : bytes :=
  let r := (if 0 <? width v then to_string (width v) else []) ++ ["'"%char; radix] in
  if eqc radix "h" || eqc radix "H" then
    let w := if 0 <? width v then width v else zlen (bits v) in
    let padded := replicate (Z.to_nat (w - zlen (bits v))) "0"%char ++ bits v in
    let padded := if w <? zlen padded then last_n (Z.to_nat w) padded else padded in
    let first := if Z.rem w 4 =? 0 then 4 else Z.rem w 4 in
    r ++ hex_chunks (length padded) (Z.to_nat first) padded
  else if eqc radix "b" || eqc radix "B" then r ++ bits v
  else if known v && negb (bool_decide (bits v = [])) then r ++ bits_to_decimal (bits v)
  else (if 0 <? width v then to_string (width v) else []) ++ lit "'bx".

Definition render_logic_value (v : LogicValue) (fmt : ValueRenderFormat) : bytes :=
  match fmt with
  | Bin => sv_literal v "b"
  | Dec =>
      if known v && negb (bool_decide (bits v = [])) then sv_literal v "d"
      else sv_literal v "b"
  | Hex => sv_literal v "h"
  end.

Definition logic_value_json (v : LogicValue) (fmt : ValueRenderFormat) : json :=
  let nonempty := negb (bool_decide (bits v = [])) in
  let set k j o := mset (lit k) j o in
  let out :=
    if bool_decide (fmt = Bin) then set "value" (JString (sv_literal v "b")) []
    else if bool_decide (fmt = Dec) && known v && nonempty then
      set "value" (JString (sv_literal v "d")) []
    else
      let out := set "value" (JString (sv_literal v "h")) [] in
      if bool_decide (fmt = Dec) && negb (known v) then
        set "value" (JString (sv_literal v "b"))
          (set "value_format_reason" (JString (lit "decimal cannot preserve per-bit X/Z"))
          (set "effective_value_format" (JString (lit "bin"))
          (set "requested_value_format" (JString (lit "dec")) out)))
      else out in
  let out := set "known" (JBool (known v)) out in
  let out := if 0 <? width v then set "width" (JInt (width v)) out else out in
  let out := if nonempty then set "bits" (JString (bits v)) out else out in
  let out :=
    if negb (known v) then
      set "has_z" (JBool (has_z v)) (set "has_x" (JBool (has_x v)) out)
    else out in
  JObject out.

Definition parse_value_render_format (text : bytes) : option ValueRenderFormat :=
  let t := lowercase text in
  if eqs t (lit "hex") || eqs t (lit "h") then Some Hex
  else if eqs t (lit "bin") || eqs t (lit "b") then Some Bin
  else if eqs t (lit "dec") || eqs t (lit "d") then Some Dec
  else None.

(** ** Parsing *)

Definition is_xz (c : ascii) : bool := eqc c "x" || eqc c "z".

Definition literal_digit_ok (base c : ascii) : bool :=
  if eqc base "b" then eqc c "0" || eqc c "1" || is_xz c
  else if eqc base "h" then
    isdigit c || ((97 <=? code c) && (code c <=? 102)) || is_xz c
  else if eqc base "o" then (48 <=? code c) && (code c <=? 55)
  else isdigit c.

(** [for (int i = n - 1; i >= 0; --i) bits.push_back(((d >> i) & 1) ? '1' : '0')] *)
Fixpoint digit_bits (d : Z) (n : nat) : bytes :=
  match n with
  | O => []
  | S i => (if Z.land (Z.shiftr d (Z.of_nat i)) 1 =? 0 then "0"%char else "1"%char)
           :: digit_bits d i
  end.

(** [(c >= 'a') ? (c - 'a' + 10) : (c - '0')] *)
Definition hex_digit_value (c : ascii) : Z :=
  if 97 <=? code c then code c - 97 + 10 else code c - 48.

Definition expand_hex (c : ascii) : bytes :=
  if is_xz c then replicate 4 c else digit_bits (hex_digit_value c) 4.
Definition expand_oct (c : ascii) : bytes := digit_bits (code c - 48) 3.

(** The part of [parse_sv_literal] after the tick. *)
Definition parse_based (w : Z) (base : ascii) (digits : bytes) : res (option LogicValue) :=
  if bool_decide (digits = []) then Ret None
  else if negb (eqc base "h" || eqc base "b" || eqc base "d" || eqc base "o") then Ret None
  else if negb (forallb (literal_digit_ok base) digits) then Ret None
  else if eqc base "d" then Some <$> logic_value_from_u64 (strtoull_val 10 digits) w
  else
    let unknown := existsb is_xz digits in
    let bs :=
      if eqc base "b" then digits
      else if eqc base "h" then List.concat (map expand_hex digits)
      else List.concat (map expand_oct digits) in
    let bs :=
      if 0 <? w then
        if w <? zlen bs then last_n (Z.to_nat w) bs
        else if zlen bs <? w then
          replicate (Z.to_nat (w - zlen bs)) (if unknown then "x"%char else "0"%char) ++ bs
        else bs
      else bs in
    Ret (Some (logic_value_from_bits bs w)).

Definition parse_sv_literal (text : bytes) : res (option LogicValue) :=
  let clean := List.filter (fun c => negb (eqc c "_")) (lowercase text) in
  match clean with
  | [] => Ret None
  | c0 :: _ =>
      let '(wstr, from_tick) := span (fun c => negb (eqc c "'")) clean in
      match from_tick with
      | _tick :: after =>
          if negb (forallb isdigit wstr) then Ret None
          else
            let w := match wstr with [] => 0 | _ => atoi wstr end in
            match after with
            | [] => Ret None
            | base :: digits => parse_based w base digits
            end
      | [] =>
          if (2 <? zlen clean) && eqc c0 "0" && bool_decide (clean !! 1%nat = Some "x"%char) then
            Some <$> logic_value_from_u64 (strtoull_val 16 (drop 2 clean)) 0
          else if forallb isdigit clean then
            Some <$> logic_value_from_u64 (strtoull_val 10 clean) 0
          else if negb (forallb (fun c => eqc c "0" || eqc c "1" || is_xz c) clean) then Ret None
          else Ret (Some (logic_value_from_bits clean (zlen clean)))
      end
  end.

(** ** Reference semantics of a bit string *)

Definition is_bit (c : ascii) : bool := eqc c "0" || eqc c "1".
Definition is_bit4 (c : ascii) : bool := is_bit c || is_xz c.
Definition bit_of (c : ascii) : Z := if eqc c "1" then 1 else 0.
Definition bits_val (bs : bytes) : Z := foldl (fun a c => 2 * a + bit_of c) 0 bs.

Lemma bit_of_range c : 0 <= bit_of c <= 1.
Proof. unfold bit_of. case_if; lia. Qed.

Lemma bits_val_acc a bs :
  foldl (fun a c => 2 * a + bit_of c) a bs = a * 2 ^ zlen bs + bits_val bs.
Proof.
  unfold bits_val, zlen. revert a. induction bs as [|c bs IH]; intros a; simpl; [lia|].
  rewrite IH, (IH (2 * 0 + bit_of c)), Nat2Z.inj_succ, Z.pow_succ_r by lia. ring.
Qed.

Lemma bits_val_cons c bs : bits_val (c :: bs) = bit_of c * 2 ^ zlen bs + bits_val bs.
Proof. unfold bits_val. simpl. rewrite bits_val_acc. unfold bits_val. lia. Qed.

Lemma bits_val_range bs : 0 <= bits_val bs < 2 ^ zlen bs.
Proof.
  induction bs as [|c bs IH]; [unfold bits_val, zlen; simpl; lia|].
  rewrite bits_val_cons. unfold zlen in *. simpl.
  rewrite Nat2Z.inj_succ, Z.pow_succ_r by lia.
  pose proof (bit_of_range c). nia.
Qed.

Lemma bits_val_zeros n bs : bits_val (replicate n "0"%char ++ bs) = bits_val bs.
Proof. induction n as [|n IH]; simpl; [done|]. rewrite bits_val_cons, IH. done. Qed.

Lemma bit_char_bit v i : exists c, is_bit c = true /\ bit_of c = Z.shiftr v (Z.of_nat i) mod 2 /\
  (if Z.land (Z.shiftr v (Z.of_nat i)) 1 =? 0 then "0"%char else "1"%char) = c.
Proof.
  eexists; split; [|split; [|reflexivity]].
  - by case_if.
  - change 1 with (Z.ones 1). rewrite Z.land_ones by lia. change (2 ^ 1) with 2.
    pose proof (Z.mod_pos_bound (Z.shiftr v (Z.of_nat i)) 2 eq_refl).
    destruct (Z.eqb_spec (Z.shiftr v (Z.of_nat i) mod 2) 0) as [->|]; [done|].
    assert (Z.shiftr v (Z.of_nat i) mod 2 = 1) as -> by lia. done.
Qed.

Lemma mod_pow2_succ v i : 0 <= i ->
  v mod 2 ^ (Z.succ i) = (Z.shiftr v i mod 2) * 2 ^ i + v mod 2 ^ i.
Proof.
  intros Hi. rewrite Z.pow_succ_r, Z.shiftr_div_pow2, (Z.mul_comm 2) by lia.
  rewrite Z.rem_mul_r by lia. lia.
Qed.

Lemma digit_bits_spec d n :
  forallb is_bit (digit_bits d n) = true /\ length (digit_bits d n) = n /\
  bits_val (digit_bits d n) = d mod 2 ^ Z.of_nat n.
Proof.
  induction n as [|i (IH1 & IH2 & IH3)]; [rewrite Z.mod_1_r; done|].
  cbn [digit_bits]. destruct (bit_char_bit d i) as (c & Hc & Hb & ->).
  split; [simpl; by rewrite Hc|]. split; [simpl; by rewrite IH2|].
  rewrite bits_val_cons, IH3, Hb. unfold zlen. rewrite IH2.
  rewrite Nat2Z.inj_succ, mod_pow2_succ by lia. done.
Qed.

Lemma length_digit_bits d n : length (digit_bits d n) = n.
Proof. apply digit_bits_spec. Qed.

Lemma is_bit_inj c c' : is_bit c = true -> is_bit c' = true -> bit_of c = bit_of c' -> c = c'.
Proof.
  unfold is_bit, bit_of. intros H H' E.
  destruct (eqc c "1") eqn:E1, (eqc c' "1") eqn:E2; try done.
  - apply eqc_true in E1, E2. congruence.
  - rewrite orb_false_r in H, H'. apply eqc_true in H, H'. congruence.
Qed.

(** A 2-state string is determined by its length and value. *)
Lemma bits_val_inj a b :
  forallb is_bit a = true -> forallb is_bit b = true ->
  length a = length b -> bits_val a = bits_val b -> a = b.
Proof.
  revert b. induction a as [|c a IH]; intros [|c' b] Ha Hb Hl Hv; try done.
  simpl in Ha, Hb, Hl. bsplit. injection Hl as Hl.
  rewrite !bits_val_cons in Hv. unfold zlen in Hv. rewrite Hl in Hv.
  pose proof (bits_val_range a) as Ra. pose proof (bits_val_range b) as Rb.
  unfold zlen in Ra, Rb. rewrite Hl in Ra.
  pose proof (bit_of_range c). pose proof (bit_of_range c').
  assert (bit_of c = bit_of c') by nia.
  f_equal; [by apply is_bit_inj|]. apply IH; try done. nia.
Qed.

Lemma digit_bits_val bs :
  forallb is_bit bs = true -> digit_bits (bits_val bs) (length bs) = bs.
Proof.
  intros H. pose proof (digit_bits_spec (bits_val bs) (length bs)) as (H1 & H2 & H3).
  apply bits_val_inj; try done. rewrite H3. apply Z.mod_small. apply bits_val_range.
Qed.

(** ** The constructors *)

Lemma u64_bits_defined v n : (n <= 64)%nat -> u64_bits v n = Ret (digit_bits v n).
Proof.
  induction n as [|i IH]; intros H; [done|]. cbn [u64_bits digit_bits].
  unfold bit_char. rewrite (proj2 (Z.ltb_lt _ _)) by lia. simpl.
  rewrite IH by lia. done.
Qed.

Lemma u64_bits_ub v n : (64 < n)%nat -> u64_bits v n = UB.
Proof.
  destruct n as [|i]; [lia|]. intros H. cbn [u64_bits]. unfold bit_char.
  rewrite (proj2 (Z.ltb_ge _ _)) by lia. done.
Qed.

Lemma from_u64_eq v w :
  logic_value_from_u64 v w =
    if w <=? 64 then
      Ret (MkLV (digit_bits v (Z.to_nat (if 0 <? w then w else 64))) w true false false)
    else UB.
Proof.
  unfold logic_value_from_u64. destruct (Z.leb_spec w 64).
  - rewrite u64_bits_defined; [done|]. case_if; lia.
  - rewrite u64_bits_ub; [done|]. case_if; [lia|]. apply Z.ltb_ge in Heqb. lia.
Qed.

Lemma classify_bit v c : is_bit c = true -> classify v c = v.
Proof.
  unfold is_bit, classify. intros H.
  apply orb_true_iff in H as [E%eqc_true|E%eqc_true]; subst; reflexivity.
Qed.

Lemma foldl_classify_bits v bs : forallb is_bit bs = true -> foldl classify v bs = v.
Proof.
  induction bs as [|c bs IH]; simpl; [done|]. intros H. bsplit.
  rewrite classify_bit by done. by apply IH.
Qed.

Lemma classify_proj v c : bits (classify v c) = bits v /\ width (classify v c) = width v.
Proof. unfold classify. repeat case_if; done. Qed.

Lemma foldl_classify_proj v bs :
  bits (foldl classify v bs) = bits v /\ width (foldl classify v bs) = width v.
Proof.
  revert v. induction bs as [|c bs IH]; intros v; simpl; [done|].
  destruct (IH (classify v c)) as [-> ->]. apply classify_proj.
Qed.

Lemma from_bits_bits bs w : bits (logic_value_from_bits bs w) = bs.
Proof.
  unfold logic_value_from_bits. destruct (foldl_classify_proj (MkLV bs w true false false) bs).
  by case_if.
Qed.

Lemma from_bits_width bs w :
  0 < w \/ bs = [] -> width (logic_value_from_bits bs w) = w.
Proof.
  intros Hw. unfold logic_value_from_bits.
  destruct (foldl_classify_proj (MkLV bs w true false false) bs) as [_ E]. simpl in E.
  case_if; [|done]. rewrite E in Heqb. bsplit. destruct Hw as [Hw| ->]; [lia|].
  discriminate.
Qed.

Lemma from_bits_known_bits bs w :
  0 < w -> forallb is_bit bs = true ->
  logic_value_from_bits bs w = MkLV bs w true false false.
Proof.
  intros Hw Hb. unfold logic_value_from_bits. rewrite foldl_classify_bits by done.
  simpl. destruct (Z.eqb_spec w 0); [lia|]. done.
Qed.

Lemma classify_known v c :
  known (classify v c) = known v && is_bit c.
Proof.
  destruct (is_bit c) eqn:E; [by rewrite classify_bit, andb_true_r|].
  unfold is_bit in E. bsplit. unfold classify. rewrite H, H0. simpl.
  rewrite andb_false_r. repeat case_if; done.
Qed.

(** The [known] flag of a freshly sampled value is exactly "every character
    is 0 or 1". *)
Lemma from_bits_known bs w :
  known (logic_value_from_bits bs w) = forallb is_bit bs.
Proof.
  assert (forall v, known (foldl classify v bs) = known v && forallb is_bit bs) as H.
  { induction bs as [|c bs IH]; intros v; simpl; [by rewrite andb_true_r|].
    rewrite IH, classify_known. by rewrite andb_assoc. }
  unfold logic_value_from_bits. case_if; simpl; by rewrite H.
Qed.

(** ** Literal round trips *)

(** Characters [parse_sv_literal] keeps unchanged. *)
Definition plain (c : ascii) : bool :=
  eqc (tolower c) c && negb (eqc c "_") && negb (eqc c "'").
Definition hex_ok (c : ascii) : bool :=
  plain c && literal_digit_ok "h" c && negb (is_xz c).

Lemma clean_id s :
  forallb (fun c => eqc (tolower c) c && negb (eqc c "_")) s = true ->
  List.filter (fun c => negb (eqc c "_")) (lowercase s) = s.
Proof.
  induction s as [|c s IH]; simpl; [done|]. intros H. bsplit.
  apply eqc_true in H. rewrite H, H1, IH by done. done.
Qed.

Lemma digit_plain c : isdigit c = true -> plain c = true.
Proof. apply (ascii_forall_impl isdigit plain). ascii_dec_solve. Qed.

Lemma bit_cases c : is_bit c = true -> c = "0"%char \/ c = "1"%char.
Proof.
  unfold is_bit. intros H. apply orb_true_iff in H as [E%eqc_true|E%eqc_true]; auto.
Qed.

Lemma bit4_plain c : is_bit4 c = true -> plain c = true.
Proof. apply (ascii_forall_impl is_bit4 plain). ascii_dec_solve. Qed.

Lemma plain_clean s : forallb plain s = true ->
  forallb (fun c => eqc (tolower c) c && negb (eqc c "_")) s = true.
Proof. apply forallb_impl. intros c H. unfold plain in H. bsplit; done. Qed.

Lemma to_string_pos w : 0 < w ->
  forallb isdigit (to_string w) = true /\ to_string w <> [] /\
  (w <= int_max -> atoi (to_string w) = w).
Proof.
  intros H. unfold to_string. destruct (Z.ltb_spec w 0); [lia|].
  split; [apply udec_digits|]. split; [apply udec_nonempty; lia|].
  intros. apply atoi_udec. lia.
Qed.

(** A sized literal reaches [parse_based] with its three parts. *)
Lemma parse_sized w base ds :
  0 < w <= int_max -> plain base = true -> forallb plain ds = true ->
  parse_sv_literal (to_string w ++ "'"%char :: base :: ds) = parse_based w base ds.
Proof.
  intros Hw Hb Hd. destruct (to_string_pos w) as (D & NE & A); [lia|].
  assert (Hp : forallb plain (to_string w) = true)
    by (revert D; apply forallb_impl, digit_plain).
  unfold parse_sv_literal. rewrite clean_id.
  - rewrite span_stop; [|by (revert Hp; apply forallb_impl; intros c Hc; unfold plain in Hc; bsplit; rewrite H0)|done].
    rewrite D. simpl. rewrite A by lia.
    destruct (to_string w); [done|]. done.
  - rewrite forallb_app, (plain_clean _ Hp). simpl.
    rewrite (plain_clean _ Hd), andb_true_r.
    assert (forallb plain [base] = true) as H1 by (simpl; by rewrite Hb).
    apply plain_clean in H1. simpl in H1. by rewrite andb_true_r in H1.
Qed.

Lemma literal_b c : literal_digit_ok "b" c = is_bit4 c.
Proof.
  unfold literal_digit_ok, is_bit4, is_bit. rewrite eqc_refl. by destruct (eqc c "0"), (eqc c "1").
Qed.

Lemma parse_based_bin w bs :
  0 < w -> zlen bs = w -> forallb is_bit4 bs = true ->
  parse_based w "b" bs = Ret (Some (logic_value_from_bits bs w)).
Proof.
  intros Hw Hl Hb. unfold parse_based.
  rewrite bool_decide_false by (intros ->; unfold zlen in Hl; simpl in Hl; lia).
  change (eqc "b" "h" || eqc "b" "b" || eqc "b" "d" || eqc "b" "o") with true. simpl negb. cbn iota.
  rewrite (forallb_ext _ is_bit4) by apply literal_b. rewrite Hb. simpl negb. cbn iota.
  change (eqc "b" "d") with false. change (eqc "b" "b") with true. cbn iota.
  rewrite (proj2 (Z.ltb_lt 0 w)) by done. rewrite Hl, Z.ltb_irrefl. done.
Qed.

(** Each hex character expands back to its nibble, zero-padded on the left. *)
Lemma nibble_expand nib :
  (1 <= length nib <= 4)%nat -> forallb is_bit nib = true ->
  exists h, nibble_to_hex nib = [h] /\ hex_ok h = true /\
    expand_hex h = replicate (4 - length nib) "0"%char ++ nib.
Proof.
  intros Hl Hb.
  assert (forall a : ascii, is_bit a = true -> a = "0"%char \/ a = "1"%char) as C by apply bit_cases.
  exists (hex_char (bits_val nib)).
  destruct nib as [|a [|b [|c [|d [|]]]]]; simpl in Hl; try lia;
    simpl in Hb; bsplit;
    repeat match goal with
    | H : is_bit ?x = true |- _ => apply C in H; destruct H as [->| ->]
    end; repeat split; vm_compute; reflexivity.
Qed.

Lemma hex_chunks_expand fuel nib s :
  (length s <= fuel)%nat -> (1 <= nib <= 4)%nat ->
  (exists q, length s = (nib + 4 * q)%nat) -> forallb is_bit s = true ->
  forallb hex_ok (hex_chunks fuel nib s) = true /\ hex_chunks fuel nib s <> [] /\
  List.concat (map expand_hex (hex_chunks fuel nib s)) = replicate (4 - nib) "0"%char ++ s.
Proof.
  revert nib s. induction fuel as [|f IH]; intros nib s Hf Hn [q Hq] Hb; [lia|].
  destruct s as [|c s']; [simpl in Hq; lia|]. set (s := c :: s') in *.
  assert (hex_chunks (S f) nib s = nibble_to_hex (take nib s) ++ hex_chunks f 4 (drop nib s))
    as -> by done.
  assert (forallb is_bit (take nib s) = true /\ forallb is_bit (drop nib s) = true) as [Ht Hd].
  { rewrite <- (take_drop nib s), forallb_app in Hb. by bsplit. }
  destruct (nibble_expand (take nib s)) as (h & Eh & Hh & Ex); [rewrite length_take; lia|done|].
  rewrite Eh. assert (length (take nib s) = nib) as El by (rewrite length_take; lia).
  rewrite El in Ex.
  destruct q as [|q].
  - assert (drop nib s = []) as -> by (apply drop_ge; lia).
    assert (hex_chunks f 4 [] = []) as -> by (by destruct f).
    rewrite take_ge in Ex by lia. simpl. rewrite Hh, Ex, app_nil_r. done.
  - destruct (IH 4%nat (drop nib s)) as (I1 & I2 & I3); [rewrite length_drop; lia|lia| |done|].
    { exists q. rewrite length_drop. lia. }
    split; [simpl; by rewrite Hh, I1|]. split; [done|].
    simpl. rewrite I3, Ex. simpl. rewrite <- app_assoc. by rewrite take_drop.
Qed.

Lemma hex_rest_bits w n :
  0 < w -> Z.of_nat n = w ->
  let first := if Z.rem w 4 =? 0 then 4 else Z.rem w 4 in
  (1 <= Z.to_nat first <= 4)%nat /\ exists q, n = (Z.to_nat first + 4 * q)%nat.
Proof.
  intros Hw Hn first. assert (first = if w mod 4 =? 0 then 4 else w mod 4) as E.
  { unfold first. rewrite Z.rem_mod_nonneg by lia. done. }
  rewrite E. pose proof (Z.mod_pos_bound w 4 eq_refl). pose proof (Z.div_mod w 4).
  destruct (Z.eqb_spec (w mod 4) 0); split; try lia.
  - exists (Z.to_nat (w / 4 - 1)). lia.
  - exists (Z.to_nat (w / 4)). pose proof (Z.div_pos w 4). lia.
Qed.

Lemma last_n_app_r {A} n (a b : list A) : length b = n -> last_n n (a ++ b) = b.
Proof.
  intros <-. unfold last_n. rewrite length_app.
  replace (length a + length b - length b)%nat with (length a) by lia. apply drop_app_length.
Qed.

Lemma parse_based_hex w bs ds :
  0 < w -> zlen bs = w -> forallb is_bit bs = true -> ds <> [] ->
  forallb hex_ok ds = true -> (exists k, (k < 4)%nat /\
  List.concat (map expand_hex ds) = replicate k "0"%char ++ bs) ->
  parse_based w "h" ds = Ret (Some (logic_value_from_bits bs w)).
Proof.
  intros Hw Hl Hb Hne Hok (k & Hk & E). unfold parse_based.
  rewrite bool_decide_false by done.
  change (eqc "h" "h" || eqc "h" "b" || eqc "h" "d" || eqc "h" "o") with true. simpl negb. cbn iota.
  assert (forallb (literal_digit_ok "h") ds = true) as ->.
  { revert Hok. apply forallb_impl. intros c Hc. unfold hex_ok in Hc. by bsplit. }
  simpl negb. cbn iota.
  change (eqc "h" "d") with false. change (eqc "h" "b") with false.
  change (eqc "h" "h") with true. cbn iota. rewrite E.
  rewrite (proj2 (Z.ltb_lt 0 w)) by done.
  assert (zlen (replicate k "0"%char ++ bs) = Z.of_nat k + w) as ->.
  { unfold zlen. rewrite length_app, length_replicate. unfold zlen in Hl. lia. }
  destruct (Z.ltb_spec w (Z.of_nat k + w)).
  - rewrite last_n_app_r; [done|]. unfold zlen in Hl. lia.
  - assert (k = 0%nat) as -> by lia. simpl replicate.
    rewrite (proj2 (Z.ltb_ge _ _)) by lia. done.
Qed.

Lemma parse_based_dec w bs ds :
  0 < w <= 64 -> zlen bs = w -> forallb is_bit bs = true ->
  ds = udec (bits_val bs) ->
  parse_based w "d" ds = Ret (Some (logic_value_from_bits bs w)).
Proof.
  intros Hw Hl Hb ->. pose proof (bits_val_range bs) as R.
  assert (bits_val bs < 2 ^ 64).
  { apply Z.lt_le_trans with (2 ^ zlen bs); [lia|]. apply Z.pow_le_mono_r; lia. }
  unfold parse_based.
  rewrite bool_decide_false by (apply udec_nonempty; lia).
  change (eqc "d" "h" || eqc "d" "b" || eqc "d" "d" || eqc "d" "o") with true. simpl negb. cbn iota.
  assert (forallb (literal_digit_ok "d") (udec (bits_val bs)) = true) as ->.
  { pose proof (udec_digits (bits_val bs)) as D. revert D. apply forallb_impl. done. }
  simpl negb. cbn iota. change (eqc "d" "d") with true. cbn iota.
  unfold strtoull_val. rewrite strtoull_udec by lia. simpl fst.
  rewrite from_u64_eq. rewrite (proj2 (Z.leb_le w 64)) by lia.
  rewrite (proj2 (Z.ltb_lt 0 w)) by lia. rewrite from_bits_known_bits by (done || lia).
  simpl. assert (Z.to_nat w = length bs) as -> by (unfold zlen in Hl; lia).
  by rewrite digit_bits_val.
Qed.

Lemma foldl_mod_acc m bs a :
  0 < m -> a * 2 ^ zlen bs + bits_val bs < m -> 0 <= a ->
  foldl (fun acc c => (acc * 2 + (if eqc c "1" then 1 else 0)) mod m) a bs
    = a * 2 ^ zlen bs + bits_val bs.
Proof.
  revert a. induction bs as [|c bs IH]; intros a Hm Hlt Ha; simpl.
  - unfold bits_val, zlen. simpl. lia.
  - rewrite bits_val_cons in *. unfold zlen in *. simpl length in *.
    rewrite Nat2Z.inj_succ, Z.pow_succ_r in * by lia. fold (bit_of c).
    pose proof (bit_of_range c). pose proof (bits_val_range bs) as R. unfold zlen in R.
    assert (0 < 2 ^ Z.of_nat (length bs)) by lia.
    rewrite Z.mod_small by nia. rewrite IH; nia.
Qed.

(** Decimal rendering is exact up to the 128 bits of the accumulator. *)
Lemma bits_to_decimal_exact bs :
  zlen bs <= 128 -> bits_to_decimal bs = udec (bits_val bs).
Proof.
  intros H. unfold bits_to_decimal. pose proof (bits_val_range bs).
  assert (2 ^ zlen bs <= 2 ^ 128) by (apply Z.pow_le_mono_r; lia).
  rewrite foldl_mod_acc by lia. rewrite Z.mul_0_l, Z.add_0_l. done.
Qed.

(** ** Claims *)

(** [logic_value_from_u64] on every width: a positive width up to 64
    gives exactly that many 0/1 characters denoting the value modulo
    [2^width]; a zero or negative width gives 64 characters; a width above
    64 shifts a 64-bit value by 64 or more, which is undefined. *)
Theorem from_u64_functional v w :
  0 <= v < 2 ^ 64 ->
  match logic_value_from_u64 v w with
  | Ret lv =>
      w <= 64 /\ width lv = w /\ known lv = true /\ forallb is_bit (bits lv) = true /\
      zlen (bits lv) = (if 0 <? w then w else 64) /\
      bits_val (bits lv) = (if 0 <? w then v mod 2 ^ w else v)
  | UB => 64 < w
  | Throw _ => False
  end.
Proof.
  intros Hv. rewrite from_u64_eq. destruct (Z.leb_spec w 64); [|done]. simpl.
  pose proof (digit_bits_spec v (Z.to_nat (if 0 <? w then w else 64))) as (A & B & D).
  repeat split; try done.
  - unfold zlen. rewrite B. destruct (Z.ltb_spec 0 w); lia.
  - rewrite D. destruct (Z.ltb_spec 0 w); rewrite Z2Nat.id by lia; [done|].
    by apply Z.mod_small.
Qed.

Lemma from_u64_functional_witness :
  0 <= 300 < 2 ^ 64 /\ logic_value_from_u64 300 8 = Ret (MkLV (lit "00101100") 8 true false false)
  /\ bits_val (lit "00101100") = 300 mod 2 ^ 8.
Proof.
  pose proof (from_u64_functional 300 8 ltac:(lia)) as H.
  split; [lia|]. split; [reflexivity|].
  replace (logic_value_from_u64 300 8)
    with (Ret (MkLV (lit "00101100") 8 true false false)) in H by reflexivity.
  simpl in H. tauto.
Defined.

(** The binary rendering of a 4-state value is lossless: parsing it back
    gives the same value, X and Z bits and flags included, at any width. *)
Lemma bin_literal_roundtrip bs w :
  0 < w <= int_max -> zlen bs = w -> forallb is_bit4 bs = true ->
  let v := logic_value_from_bits bs w in
  parse_sv_literal (render_logic_value v Bin) = Ret (Some v).
Proof.
  intros Hw Hl Hb v. unfold render_logic_value, sv_literal, v.
  rewrite from_bits_width, from_bits_bits by lia.
  change (eqc "b" "h" || eqc "b" "H") with false. change (eqc "b" "b" || eqc "b" "B") with true.
  cbn iota. rewrite (proj2 (Z.ltb_lt 0 w)) by lia. rewrite <- app_assoc. simpl.
  rewrite parse_sized; [apply parse_based_bin; (done || lia)|done|reflexivity|].
  revert Hb. apply forallb_impl, bit4_plain.
Qed.

(** A fully known value survives hexadecimal rendering and parsing at any
    width, including widths that are not a multiple of four. *)
Lemma hex_literal_roundtrip bs w :
  0 < w <= int_max -> zlen bs = w -> forallb is_bit bs = true ->
  let v := logic_value_from_bits bs w in
  parse_sv_literal (render_logic_value v Hex) = Ret (Some v).
Proof.
  intros Hw Hl Hb v. unfold render_logic_value, sv_literal, v.
  rewrite from_bits_width, from_bits_bits by lia.
  change (eqc "h" "h" || eqc "h" "H") with true.
  cbn iota. rewrite (proj2 (Z.ltb_lt 0 w)) by lia. rewrite Hl, Z.sub_diag. simpl replicate.
  rewrite app_nil_l, Hl, Z.ltb_irrefl.
  destruct (hex_rest_bits w (length bs)) as [F Q]; [lia|by unfold zlen in Hl|].
  destruct (hex_chunks_expand (length bs) (Z.to_nat (if Z.rem w 4 =? 0 then 4 else Z.rem w 4)) bs)
    as (O & NE & E); try done; try lia.
  rewrite <- app_assoc. simpl. rewrite parse_sized; [|done|reflexivity|].
  - eapply parse_based_hex; try done; try lia.
    eexists; split; [|exact E]. lia.
  - revert O. apply forallb_impl. intros c Hc. unfold hex_ok in Hc. by bsplit.
Qed.

(** A fully known value of at most 64 bits survives decimal rendering and
    parsing. *)
Lemma dec_literal_roundtrip bs w :
  0 < w <= 64 -> zlen bs = w -> forallb is_bit bs = true ->
  let v := logic_value_from_bits bs w in
  parse_sv_literal (render_logic_value v Dec) = Ret (Some v).
Proof.
  intros Hw Hl Hb v. unfold render_logic_value, v.
  rewrite from_bits_known, from_bits_bits, Hb.
  rewrite bool_decide_false by (intros ->; unfold zlen in Hl; simpl in Hl; lia).
  unfold sv_literal. rewrite from_bits_width, from_bits_bits, from_bits_known, Hb by lia.
  rewrite bool_decide_false by (intros ->; unfold zlen in Hl; simpl in Hl; lia).
  change (eqc "d" "h" || eqc "d" "H") with false. change (eqc "d" "b" || eqc "d" "B") with false.
  simpl andb. cbn iota. rewrite (proj2 (Z.ltb_lt 0 w)) by lia. rewrite <- app_assoc. simpl.
  rewrite bits_to_decimal_exact by lia.
  rewrite parse_sized; [by apply parse_based_dec|unfold int_max; lia|reflexivity|].
  pose proof (udec_digits (bits_val bs)) as D. revert D. apply forallb_impl, digit_plain.
Qed.

(** Renderings are lossless. Parsing the binary rendering of a 4-state
    value gives the same value back, X and Z bits and flags included, at any
    width; a fully known value also survives hexadecimal rendering, whatever
    its width modulo four, and decimal rendering up to 64 bits. *)
Theorem literal_roundtrip bs w :
  0 < w <= int_max -> zlen bs = w -> forallb is_bit4 bs = true ->
  let v := logic_value_from_bits bs w in
  parse_sv_literal (render_logic_value v Bin) = Ret (Some v) /\
  (forallb is_bit bs = true ->
     parse_sv_literal (render_logic_value v Hex) = Ret (Some v) /\
     (w <= 64 -> parse_sv_literal (render_logic_value v Dec) = Ret (Some v))).
Proof.
  intros Hw Hl Hb v. split; [by apply bin_literal_roundtrip|]. intros Hk.
  split; [by apply hex_literal_roundtrip|]. intros H64. apply dec_literal_roundtrip; (done || lia).
Qed.

Lemma literal_roundtrip_witness :
  parse_sv_literal (lit "5'b1x0z1") = Ret (Some (logic_value_from_bits (lit "1x0z1") 5)) /\
  parse_sv_literal (lit "9'h12c") = Ret (Some (logic_value_from_bits (lit "100101100") 9)) /\
  parse_sv_literal (lit "9'd300") = Ret (Some (logic_value_from_bits (lit "100101100") 9)).
Proof.
  split; [exact (proj1 (literal_roundtrip (lit "1x0z1") 5 ltac:(unfold int_max; lia) eq_refl eq_refl))|].
  pose proof (literal_roundtrip (lit "100101100") 9 ltac:(unfold int_max; lia) eq_refl eq_refl) as [_ Hk].
  destruct (Hk eq_refl) as [Hh Hd]. split; [exact Hh|]. apply Hd. lia.
Defined.

(** Above 128 bits the decimal rendering of a known value is wrong: the
    accumulator of [bits_to_decimal] wraps, so the 129-bit value [2^128]
    prints as zero. *)
Theorem wide_decimal_wraps :
  let v := logic_value_from_bits ("1"%char :: replicate 128 "0"%char) 129 in
  bits_val (bits v) = 2 ^ 128 /\ known v = true /\ render_logic_value v Dec = lit "129'd0".
Proof. vm_compute. auto. Qed.
