(* ===== verification/ExprParser.v ===== *)
(** * ExprParser: the expression lexer and recursive-descent parser

    Models [struct Parser] and [parse_expression] of
    [src/waveform/expr/expr_eval.cpp] (lines 13-440). The parser's [pos] is
    represented by the unread suffix [rest] of the text: every read of the
    source is relative to [pos], so [text.substr(pos)] carries the same
    information. A null [ExprNode*] is [None]. [PFuel] marks an exhausted
    recursion bound; it is shown never to occur. *)

From S2P Require Import Prelude CLib Json LogicValue.

Open Scope Z_scope.

(** ** Syntax trees *)

Inductive ExprNode :=
| ESignal (signal : bytes)
| ESlice (signal : bytes) (msb lsb : Z)
| EConst (value : LogicValue)
| EUnary (op : bytes) (right : ExprNode)
| EBinary (op : bytes) (left right : ExprNode).

(** ** Parser state and results *)

Record pst := MkP { rest : bytes; error : bytes }.

Inductive pres (A : Type) : Type :=
| POk (a : A)
| PUB
| PFuel.
Arguments POk {A} a.
Arguments PUB {A}.
Arguments PFuel {A}.

#[export] Instance pres_ret : MRet pres := fun A a => POk a.
#[export] Instance pres_bind : MBind pres := fun A B f c =>
  match c with POk a => f a | PUB => PUB | PFuel => PFuel end.

Definition of_res {A} (c : res A) : pres A :=
  match c with Ret a => POk a | _ => PUB end.

Definition with_rest (r : bytes) (st : pst) : pst := MkP r (error st).
Definition with_error (e : bytes) (st : pst) : pst := MkP (rest st) e.

Definition skip_ws (st : pst) : pst := with_rest (snd (span isspace (rest st))) st.

Definition at_end (st : pst) : bool * pst :=
  let st := skip_ws st in (bool_decide (rest st = []), st).

Definition peek (st : pst) : ascii * pst :=
  let st := skip_ws st in
  (match rest st with [] => "000"%char | c :: _ => c end, st).

Definition eat (c : ascii) (st : pst) : bool * pst :=
  let st := skip_ws st in
  match rest st with
  | c' :: r => if eqc c' c then (true, with_rest r st) else (false, st)
  | [] => (false, st)
  end.

(** ** Tokens *)

Definition id_start (c : ascii) : bool := isalpha c || eqc c "_".
Definition id_char (c : ascii) : bool := isalnum c || eqc c "_" || eqc c "$".

(** The dotted-hierarchy loop. *)
Fixpoint dotted (fuel : nat) (s : bytes) : bytes * bytes :=
  match fuel, s with
  | S f, d :: c :: s' =>
      if eqc d "." && id_start c then
        let '(seg, r) := span id_char (c :: s') in
        let '(more, r') := dotted f r in
        (d :: seg ++ more, r')
      else ([], s)
  | _, _ => ([], s)
  end.

Definition parse_identifier (st : pst) : bytes * pst :=
  let st := skip_ws st in
  match rest st with
  | c :: s =>
      if id_start c then
        let '(seg, r) := span id_char s in
        let '(more, r') := dotted (length r) r in
        (c :: seg ++ more, with_rest r' st)
      else ([], st)
  | [] => ([], st)
  end.

Definition parse_radix (digits : bytes) (base : ascii) (w : Z) : res LogicValue :=
  let unknown := existsb is_xz digits in
  let hx := existsb (fun c => eqc c "x") digits in
  let hz := existsb (fun c => eqc c "z") digits in
  if unknown then
    let bs :=
      if eqc base "b" then digits
      else if eqc base "h" then List.concat (map expand_hex digits)
      else if eqc base "o" then
        List.concat (map (fun c => if is_xz c then replicate 3 c else expand_oct c) digits)
      else digits in
    let bs := if (0 <? w) && (w <? zlen bs) then last_n (Z.to_nat w) bs else bs in
    Ret (MkLV bs w false hx hz)
  else
    let value :=
      if eqc base "b" then
        foldl (fun v c => Z.lor (u64 (Z.shiftl v 1)) (if eqc c "1" then 1 else 0)) 0 digits
      else if eqc base "h" then
        foldl (fun v c => Z.lor (u64 (Z.shiftl v 4)) (u64 (hex_digit_value c))) 0 digits
      else if eqc base "o" then
        foldl (fun v c => Z.lor (u64 (Z.shiftl v 3)) (u64 (code c - 48))) 0 digits
      else strtoull_val 10 digits in
    logic_value_from_u64 value w.

(** The [<width>'<base><digits>] form; [None] falls through to decimal. *)
Definition parse_const_based (s : bytes) : option (res (LogicValue * bytes)) :=
  let '(width_str, from_tick) := span (fun c => negb (eqc c "'")) s in
  match from_tick with
  | [] => None
  | _tick :: after =>
      if forallb isdigit width_str && (length width_str <=? 9)%nat then
        let w := atoi width_str in
        let after := match after with
                     | c :: a => if eqc (tolower c) "s" then a else after
                     | [] => after
                     end in
        match after with
        | [] => Some (Ret (lv_default, s))
        | b :: ds =>
            let base := tolower b in
            if eqc base "h" || eqc base "b" || eqc base "d" || eqc base "o" then
              let '(digits, r) := span (fun c =>
                isalnum c || eqc c "_" || eqc c "x" || eqc c "X" || eqc c "z" || eqc c "Z") ds in
              let clean := map tolower (List.filter (fun c => negb (eqc c "_")) digits) in
              Some (v ← parse_radix clean base w; Ret (v, r))
            else None
        end
      else None
  end.

Definition parse_const (st : pst) : pres (LogicValue * pst) :=
  let st := skip_ws st in
  match parse_const_based (rest st) with
  | Some c => '(v, r) ← of_res c; POk (v, with_rest r st)
  | None =>
      let '(num, r) := span isdigit (rest st) in
      match num with
      | [] =>
          POk (lv_default,
               with_error (lit "expected expression, found: '" ++ rest st ++ lit "'") st)
      | _ => v ← of_res (logic_value_from_u64 (strtoull_val 10 num) 0); POk (v, with_rest r st)
      end
  end.

(** The optional [\[msb:lsb\]] after an identifier. *)
Definition parse_select (id : bytes) (st : pst) : option ExprNode * pst :=
  let '(c, st) := peek st in
  if negb (eqc c "[") then (Some (ESignal id), st)
  else
    let st := with_rest (drop 1 (rest st)) st in
    let '(first, r) := span (fun c => negb (eqc c ":") && negb (eqc c "]")) (rest st) in
    let st := with_rest r st in
    let '(c, st) := peek st in
    let '(hi, lo, st) :=
      if eqc c ":" then
        let '(lo, r) := span (fun c => negb (eqc c "]")) (drop 1 (rest st)) in
        (first, lo, with_rest r st)
      else ([], first, st) in
    let '(ok, st) := eat "]" st in
    if negb ok then (None, with_error (lit "missing ']'") st)
    else
      let l := atoi lo in
      let h := match hi with [] => l | _ => atoi hi end in
      (Some (ESlice id h l), st).

(** ** Operator recognition, one function per precedence level

    Each looks at the input after whitespace and returns the operator and
    what follows it. *)

Definition lexer := bytes -> option (bytes * bytes).

Definition lex_mul : lexer := fun s =>
  match s with
  | c :: r => if eqc c "*" || eqc c "/" || eqc c "%" then Some ([c], r) else None
  | [] => None
  end.
Definition lex_add : lexer := fun s =>
  match s with
  | c :: r => if eqc c "+" || eqc c "-" then Some ([c], r) else None
  | [] => None
  end.
Definition lex_shift : lexer := fun s =>
  match s with
  | a :: b :: r =>
      if eqc a "<" && eqc b "<" then Some (lit "<<", r)
      else if eqc a ">" && eqc b ">" then Some (lit ">>", r)
      else None
  | _ => None
  end.
Definition lex_cmp : lexer := fun s =>
  match s with
  | a :: t =>
      let second := match t with b :: _ => eqc b "=" | [] => false end in
      if eqc a "<" && second then Some (lit "<=", drop 1 t)
      else if eqc a ">" && second then Some (lit ">=", drop 1 t)
      else if eqc a "<" then Some (lit "<", t)
      else if eqc a ">" then Some (lit ">", t)
      else None
  | [] => None
  end.
Definition lex_eq : lexer := fun s =>
  match s with
  | a :: b :: t =>
      let wild := match t with
                  | q :: k :: _ =>
                      if eqc a "=" && eqc b "=" && eqc q "?" &&
                         (eqc k "z" || eqc k "x" || eqc k "i") then Some [a; b; q; k] else None
                  | _ => None
                  end in
      let third := match t with c :: _ => eqc c "=" | [] => false end in
      match wild with
      | Some op => Some (op, drop 2 t)
      | None =>
          if eqc a "=" && eqc b "=" && third then Some (lit "===", drop 1 t)
          else if eqc a "!" && eqc b "=" && third then Some (lit "!==", drop 1 t)
          else if eqc a "=" && eqc b "=" then Some (lit "==", t)
          else if eqc a "!" && eqc b "=" then Some (lit "!=", t)
          else None
      end
  | _ => None
  end.
Definition lex_and : lexer := fun s =>
  match s with
  | a :: b :: r => if eqc a "&" && negb (eqc b "&") then Some (lit "&", b :: r) else None
  | _ => None
  end.
Definition lex_xor : lexer := fun s =>
  match s with
  | a :: r => if eqc a "^" then Some (lit "^", r) else None
  | [] => None
  end.
Definition lex_or : lexer := fun s =>
  match s with
  | a :: b :: r => if eqc a "|" && negb (eqc b "|") then Some (lit "|", b :: r) else None
  | _ => None
  end.
Definition lex_logical : lexer := fun s =>
  match s with
  | a :: b :: r =>
      if eqc a "&" && eqc b "&" then Some (lit "&&", r)
      else if eqc a "|" && eqc b "|" then Some (lit "||", r)
      else None
  | _ => None
  end.

(** ** The grammar *)

Definition P := pst -> pres (option ExprNode * pst).

(** [while (left) { ...; right = sub(); left = new Binary; }] *)
Fixpoint level_loop (fuel : nat) (sub : P) (lex : lexer) (lhs : option ExprNode) (st : pst)
    : pres (option ExprNode * pst) :=
  match lhs with
  | None => POk (None, st)
  | Some l =>
      let st := skip_ws st in
      match lex (rest st) with
      | None => POk (Some l, st)
      | Some (op, r) =>
          match fuel with
          | O => PFuel
          | S f =>
              '(rhs, st) ← sub (with_rest r st);
              match rhs with
              | None => POk (None, st)
              | Some rt => level_loop f sub lex (Some (EBinary op l rt)) st
              end
          end
      end
  end.

Definition level (sub : P) (lex : lexer) : P := fun st =>
  '(lhs, st) ← sub st; level_loop (length (rest st)) sub lex lhs st.

Definition parse_mul (primary : P) : P := level primary lex_mul.
Definition parse_add (primary : P) : P := level (parse_mul primary) lex_add.
Definition parse_shift (primary : P) : P := level (parse_add primary) lex_shift.
Definition parse_cmp (primary : P) : P := level (parse_shift primary) lex_cmp.
Definition parse_eq (primary : P) : P := level (parse_cmp primary) lex_eq.
Definition parse_and (primary : P) : P := level (parse_eq primary) lex_and.
Definition parse_xor (primary : P) : P := level (parse_and primary) lex_xor.
Definition parse_or (primary : P) : P := level (parse_xor primary) lex_or.
Definition parse_logical (primary : P) : P := level (parse_or primary) lex_logical.

Fixpoint parse_primary (fuel : nat) (st : pst) : pres (option ExprNode * pst) :=
  match fuel with
  | O => PFuel
  | S f =>
      let st := skip_ws st in
      let '(paren, st) := eat "(" st in
      if paren : bool then
        '(inner, st) ← parse_logical (parse_primary f) st;
        let '(closed, st) := eat ")" st in
        if negb closed then POk (None, with_error (lit "missing ')'") st)
        else POk (inner, st)
      else
        let '(op, st) := peek st in
        if eqc op "~" || eqc op "!" || eqc op "-" then
          '(rhs, st) ← parse_primary f (with_rest (drop 1 (rest st)) st);
          match rhs with
          | None => POk (None, st)
          | Some r => POk (Some (EUnary [op] r), st)
          end
        else
          let save := st in
          let '(id, st) := parse_identifier st in
          match id with
          | _ :: _ => POk (parse_select id st)
          | [] =>
              '(c, st) ← parse_const save;
              if bool_decide (bits c = []) && negb (bool_decide (error st = []))
              then POk (None, st)
              else POk (Some (EConst c), st)
          end
  end.

(** [Parser::parse] *)
Definition parse (fuel : nat) (st : pst) : pres (option ExprNode * pst) :=
  '(root, st) ← parse_logical (parse_primary fuel) st;
  match root with
  | None => POk (None, st)
  | Some n =>
      let '(fin, st) := at_end st in
      if negb fin then
        POk (None, with_error (lit "unexpected trailing input: '" ++ rest st ++ lit "'") st)
      else POk (Some n, st)
  end.

(** The tree (null on failure) and the error text. Each nested
    [parse_primary] call has consumed a character, so [length text + 1]
    levels are enough. *)
Definition parse_expression (text : bytes) : pres (option ExprNode * bytes) :=
  '(root, st) ← parse (S (length text)) (MkP text []);
  POk (root, error st).

(** ** The parser consumes its input *)

Definition len (st : pst) : nat := length (rest st).

Lemma skip_ws_len st : (len (skip_ws st) <= len st)%nat.
Proof. unfold len, skip_ws, with_rest. simpl. apply span_length. Qed.

Lemma eat_len c st b st' : eat c st = (b, st') ->
  (len st' <= len st)%nat /\ (b = true -> (len st' < len st)%nat).
Proof.
  pose proof (skip_ws_len st) as H. unfold eat.
  destruct (rest (skip_ws st)) as [|c' r] eqn:E; [intros [= <- <-]; by split|].
  destruct (eqc c' c); intros [= <- <-]; [|by split].
  assert (len (skip_ws st) = S (length r)) as E' by (unfold len; by rewrite E).
  assert (len (with_rest r (skip_ws st)) = length r) as -> by done.
  split; intros; lia.
Qed.

Lemma peek_len st c st' : peek st = (c, st') -> (len st' <= len st)%nat.
Proof. intros [= _ <-]. apply skip_ws_len. Qed.

Lemma peek_consume st c st' :
  peek st = (c, st') -> c <> "000"%char ->
  (length (drop 1 (rest st')) < len st)%nat.
Proof.
  unfold peek. intros E Hn. pose proof (skip_ws_len st) as H.
  cbv zeta in E. set (s1 := skip_ws st) in *. clearbody s1.
  injection E as Hc <-. unfold len in *. rewrite length_drop.
  destruct (rest s1); [congruence|]. simpl in *. lia.
Qed.

Lemma span_snd_len {A} (p : A -> bool) l a b : span p l = (a, b) -> (length b <= length l)%nat.
Proof. intros E. pose proof (span_length p l). by rewrite E in H. Qed.

Lemma dotted_len f s a b : dotted f s = (a, b) -> (length b <= length s)%nat.
Proof.
  revert s a b. induction f as [|f IH]; intros s a b; cbn [dotted]; [by intros [= _ <-]|].
  destruct s as [|d [|c s]]; try (intros [= _ <-]; done).
  destruct (eqc d "." && id_start c); [|by intros [= _ <-]].
  destruct (span id_char (c :: s)) as [seg r] eqn:Es.
  destruct (dotted f r) as [more r'] eqn:Ed. intros [= _ <-].
  apply IH in Ed. apply span_snd_len in Es. simpl in *. lia.
Qed.

Lemma parse_identifier_len st id st' :
  parse_identifier st = (id, st') -> (len st' <= len st)%nat.
Proof.
  pose proof (skip_ws_len st) as H. unfold parse_identifier.
  destruct (rest (skip_ws st)) as [|c s] eqn:E; [by intros [= _ <-]|].
  case_if; [|by intros [= _ <-]].
  destruct (span id_char s) as [seg r] eqn:Es. destruct (dotted (length r) r) as [more r'] eqn:Ed.
  intros [= _ <-]. apply dotted_len in Ed. apply span_snd_len in Es.
  unfold len in *. rewrite E in H. simpl in *. lia.
Qed.

Lemma parse_select_len id st n st' : parse_select id st = (n, st') -> (len st' <= len st)%nat.
Proof.
  unfold parse_select. destruct (peek st) as [c st1] eqn:E1. pose proof (peek_len _ _ _ E1).
  case_if; [by intros [= _ <-]|].
  destruct (span _ (rest (with_rest _ st1))) as [first r] eqn:E2.
  assert (len (with_rest r (with_rest (drop 1 (rest st1)) st1)) <= len st1)%nat as H2.
  { apply span_snd_len in E2. unfold len in *. simpl in *. rewrite length_drop in E2. lia. }
  destruct (peek (with_rest r _)) as [c' st2] eqn:E3. pose proof (peek_len _ _ _ E3).
  destruct (eqc c' ":").
  - destruct (span _ (drop 1 (rest st2))) as [lo r2] eqn:E4.
    assert (len (with_rest r2 st2) <= len st2)%nat.
    { apply span_snd_len in E4. unfold len in *. simpl in *. rewrite length_drop in E4. lia. }
    destruct (eat "]" (with_rest r2 st2)) as [ok st3] eqn:E5. apply eat_len in E5 as [? _].
    case_if; intros [= _ <-]; unfold len, with_error in *; simpl in *; lia.
  - destruct (eat "]" st2) as [ok st3] eqn:E5. apply eat_len in E5 as [? _].
    case_if; intros [= _ <-]; unfold len, with_error in *; simpl in *; lia.
Qed.

Lemma parse_const_based_len s v r :
  parse_const_based s = Some (Ret (v, r)) -> (length r <= length s)%nat.
Proof.
  unfold parse_const_based. destruct (span _ s) as [ws ft] eqn:E1. apply span_snd_len in E1.
  destruct ft as [|tick after]; [done|]. case_if; [|done].
  set (after' := match after with c :: a => if eqc (tolower c) "s" then a else after | [] => after end).
  assert (length after' <= length after)%nat.
  { unfold after'. destruct after; [done|]. case_if; simpl; lia. }
  destruct after' as [|b ds]; [by intros [= _ <-]|].
  case_if; [|done]. destruct (span _ ds) as [digits r'] eqn:E2. apply span_snd_len in E2.
  intros [= Hb]. apply res_bind_Ret in Hb as (v' & _ & [= _ <-]). simpl in *. lia.
Qed.

Lemma parse_const_len st :
  match parse_const st with
  | PFuel => False | PUB => True
  | POk (_, st') => (len st' <= len st)%nat
  end.
Proof.
  pose proof (skip_ws_len st). unfold parse_const.
  destruct (parse_const_based (rest (skip_ws st))) as [[[v r]| |w]|] eqn:E; try done.
  - apply parse_const_based_len in E. unfold len in *. simpl in *. lia.
  - destruct (span isdigit (rest (skip_ws st))) as [num r] eqn:E2. apply span_snd_len in E2.
    destruct num as [|d num]; [unfold len, with_error in *; simpl in *; lia|].
    destruct (logic_value_from_u64 _ 0); simpl; try done. unfold len in *. simpl in *. lia.
Qed.

(** ** Termination

    [good n p]: on input shorter than [n], [p] does not exhaust its bound
    and never gives input back. *)

Definition good (n : nat) (p : P) : Prop := forall st, (len st < n)%nat ->
  match p st with
  | PFuel => False
  | PUB => True
  | POk (_, st') => (len st' <= len st)%nat
  end.

Definition shrinks (lex : lexer) : Prop :=
  forall s op r, lex s = Some (op, r) -> (length r < length s)%nat.

Ltac lex_cases :=
  repeat match goal with
  | |- context [match ?s with [] => _ | _ :: _ => _ end] => destruct s; simpl
  | |- context [if ?b then _ else _] => destruct b; simpl
  end.

Lemma lexers_shrink :
  Forall shrinks [lex_mul; lex_add; lex_shift; lex_cmp; lex_eq; lex_and; lex_xor; lex_or; lex_logical].
Proof.
  repeat constructor; intros s op r;
    unfold lex_mul, lex_add, lex_shift, lex_cmp, lex_eq, lex_and, lex_xor, lex_or, lex_logical;
    lex_cases; intros [= <- <-]; simpl; rewrite ?drop_0, ?length_drop; lia.
Qed.

Lemma level_loop_good n sub lex : good n sub -> shrinks lex ->
  forall f l st, (len st <= f)%nat -> (len st < n)%nat ->
  match level_loop f sub lex l st with
  | PFuel => False | PUB => True
  | POk (_, st') => (len st' <= len st)%nat
  end.
Proof.
  intros Hs Hl. induction f as [|f IH]; intros [l|] st Hf Hn; cbn [level_loop]; try done;
    pose proof (skip_ws_len st) as Hk;
    destruct (lex (rest (skip_ws st))) as [[op r]|] eqn:El; try exact Hk;
    apply Hl in El; fold (len (skip_ws st)) in El; [lia|].
  pose proof (Hs (with_rest r (skip_ws st))) as Hsub.
  change (len (with_rest r (skip_ws st))) with (length r) in Hsub.
  destruct (sub _) as [[[rt|] st2]| |]; cbn [mbind pres_bind]; [| |done|apply Hsub; lia].
  - specialize (IH (Some (EBinary op l rt)) st2). specialize (Hsub ltac:(lia)).
    destruct (level_loop f sub lex _ st2) as [[? ?]| |]; try done; [|apply IH; lia].
    specialize (IH ltac:(lia) ltac:(lia)). lia.
  - specialize (Hsub ltac:(lia)). lia.
Qed.

Lemma level_good n sub lex : good n sub -> shrinks lex -> good n (level sub lex).
Proof.
  intros Hs Hl st Hn. unfold level. pose proof (Hs st Hn) as H1.
  destruct (sub st) as [[l st1]| |]; simpl; try done.
  pose proof (level_loop_good n sub lex Hs Hl (length (rest st1)) l st1) as H2.
  unfold len in *. destruct (level_loop _ _ _ _ _) as [[? ?]| |]; try done; [|apply H2; lia].
  specialize (H2 ltac:(lia) ltac:(lia)). lia.
Qed.

(** The nine levels as one fold, for proofs about all of them. *)
Definition lexers : list lexer :=
  [lex_mul; lex_add; lex_shift; lex_cmp; lex_eq; lex_and; lex_xor; lex_or; lex_logical].
Definition tower (primary : P) (ls : list lexer) : P := foldl level primary ls.

Lemma parse_logical_tower primary : parse_logical primary = tower primary lexers.
Proof. reflexivity. Qed.

Lemma tower_good n p ls : good n p -> Forall shrinks ls -> good n (tower p ls).
Proof.
  unfold tower. revert p. induction ls as [|lx ls IH]; intros p Hp Hls; simpl; [done|].
  inversion Hls; subst. apply IH; [by apply level_good|done].
Qed.

Lemma parse_logical_good n p : good n p -> good n (parse_logical p).
Proof. intros. rewrite parse_logical_tower. apply tower_good; [done|apply lexers_shrink]. Qed.

Lemma parse_primary_good n : good n (parse_primary n).
Proof.
  induction n as [|f IH]; intros st Hn; [lia|]. cbn [parse_primary].
  pose proof (skip_ws_len st) as H0.
  destruct (eat "(" (skip_ws st)) as [paren st1] eqn:E1.
  pose proof (eat_len _ _ _ _ E1) as [H1 H1'].
  destruct paren.
  - pose proof (parse_logical_good f _ IH st1) as H2.
    destruct (parse_logical (parse_primary f) st1) as [[inner st2]| |]; simpl; try done;
      [|apply H2; specialize (H1' eq_refl); lia].
    specialize (H2 ltac:(specialize (H1' eq_refl); lia)).
    destruct (eat ")" st2) as [closed st3] eqn:E3. apply eat_len in E3 as [H3 _].
    destruct closed; simpl; unfold len, with_error in *; simpl in *; lia.
  - destruct (peek st1) as [op st2] eqn:E2. pose proof (peek_len _ _ _ E2) as H2.
    destruct (eqc op "~" || eqc op "!" || eqc op "-") eqn:Eop.
    + assert (op <> "000"%char) as Hop by (intros ->; discriminate).
      pose proof (peek_consume _ _ _ E2 Hop) as H3.
      pose proof (IH (with_rest (drop 1 (rest st2)) st2)) as H4.
      destruct (parse_primary f _) as [[[r|] st3]| |]; simpl; try done;
        unfold len in *; simpl in *; try (apply H4; lia); specialize (H4 ltac:(lia)); lia.
    + destruct (parse_identifier st2) as [id st3] eqn:E3.
      pose proof (parse_identifier_len _ _ _ E3) as H3.
      destruct id as [|c id].
      * pose proof (parse_const_len st2) as H4.
        destruct (parse_const st2) as [[v st4]| |]; simpl; try done.
        case_if; lia.
      * destruct (parse_select (c :: id) st3) as [m st4] eqn:E4.
        apply parse_select_len in E4. lia.
Qed.

Lemma parse_total text : parse_expression text <> PFuel.
Proof.
  unfold parse_expression, parse.
  pose proof (parse_logical_good _ _ (parse_primary_good (S (length text))) (MkP text [])
                (Nat.lt_succ_diag_r _)) as H.
  destruct (parse_logical (parse_primary (S (length text))) (MkP text [])) as [[[n|] st]| |];
    cbn [mbind pres_bind]; try done.
  destruct (at_end st) as [[] ?]; done.
Qed.

(** ** A reference printer

    Binary nodes are parenthesised, so every printed tree is a primary. *)

Fixpoint print_expr (e : ExprNode) : bytes :=
  match e with
  | ESignal s => s
  | ESlice s m l => s ++ "["%char :: to_string m ++ ":"%char :: to_string l ++ ["]"%char]
  | EConst v => to_string (width v) ++ "'"%char :: "b"%char :: bits v
  | EUnary op r => op ++ print_expr r
  | EBinary op l r => "("%char :: print_expr l ++ op ++ print_expr r ++ [")"%char]
  end.

Definition unary_ops : list bytes := map lit ["~"; "!"; "-"]%string.
Definition binary_ops : list bytes :=
  map lit ["*"; "/"; "%"; "+"; "-"; "<<"; ">>"; "<="; ">="; "<"; ">"; "==?z"; "==?x"; "==?i";
           "==="; "!=="; "=="; "!="; "&"; "^"; "|"; "&&"; "||"]%string.

(** A dotted identifier: what [parse_identifier] accepts in full. *)
Definition ident (s : bytes) : Prop := parse_identifier (MkP s []) = (s, MkP [] []) /\ s <> [].

Fixpoint wf_expr (e : ExprNode) : Prop :=
  match e with
  | ESignal s => ident s
  | ESlice s m l => ident s /\ 0 <= m <= int_max /\ 0 <= l <= int_max
  | EConst v =>
      0 < width v <= 64 /\ zlen (bits v) = width v /\ forallb is_bit4 (bits v) = true /\
      v = logic_value_from_bits (bits v) (width v)
  | EUnary op r => op ∈ unary_ops /\ wf_expr r
  | EBinary op l r => op ∈ binary_ops /\ wf_expr l /\ wf_expr r
  end.

(** What may follow a printed primary. *)
Definition delim (c : ascii) : bool := existsb (eqc c) (lit ")*/%+-<>=!&^|").
Definition stops (s : bytes) : Prop := match s with [] => True | c :: _ => delim c = true end.

(** What a printed primary starts with. *)
Definition starts (c : ascii) : bool :=
  id_start c || isdigit c || existsb (eqc c) (lit "(~!-").

Lemma skip_ws_id st : match rest st with [] => True | c :: _ => isspace c = false end ->
  skip_ws st = st.
Proof.
  destruct st as [[|c r] e]; simpl; [done|]. intros H. unfold skip_ws, with_rest. simpl. by rewrite H.
Qed.

Lemma delim_props c : delim c = true ->
  isspace c = false /\ id_char c = false /\ eqc c "." = false /\ eqc c "[" = false /\
  isalnum c || eqc c "_" || eqc c "x" || eqc c "X" || eqc c "z" || eqc c "Z" = false.
Proof.
  intros H.
  assert (negb (isspace c) && negb (id_char c) && negb (eqc c ".") && negb (eqc c "[") &&
    negb (isalnum c || eqc c "_" || eqc c "x" || eqc c "X" || eqc c "z" || eqc c "Z") = true) as E.
  { revert H. apply (ascii_forall_impl delim (fun c => negb (isspace c) && negb (id_char c) &&
      negb (eqc c ".") && negb (eqc c "[") &&
      negb (isalnum c || eqc c "_" || eqc c "x" || eqc c "X" || eqc c "z" || eqc c "Z"))).
    ascii_dec_solve. }
  bsplit. repeat split; rew_bool.
Qed.

Lemma starts_space c : starts c = true -> isspace c = false.
Proof.
  intros H. apply negb_true_iff. revert H.
  apply (ascii_forall_impl starts (fun c => negb (isspace c))). ascii_dec_solve.
Qed.

Lemma stops_skip s e : stops s -> skip_ws (MkP s e) = MkP s e.
Proof. intros H. apply skip_ws_id. destruct s; [done|]. by apply delim_props in H as [? _]. Qed.

(** *** Levels *)

Definition fails_on (s : bytes) (lx : lexer) : Prop := lx s = None.

Lemma level_pass sub lx st n s e :
  sub st = POk (Some n, MkP s e) -> stops s -> lx s = None ->
  level sub lx st = POk (Some n, MkP s e).
Proof.
  intros Hs Hst Hl. unfold level. rewrite Hs. cbn [mbind pres_bind rest].
  destruct (length s); cbn [level_loop]; rewrite stops_skip by done; cbn [rest]; by rewrite Hl.
Qed.

Lemma tower_pass ls p st n s e :
  p st = POk (Some n, MkP s e) -> stops s -> Forall (fails_on s) ls ->
  tower p ls st = POk (Some n, MkP s e).
Proof.
  unfold tower. revert p. induction ls as [|lx ls IH]; intros p Hp Hst Hf; [done|].
  inversion Hf; subst. simpl. apply IH; [by apply level_pass|done|done].
Qed.

Lemma close_fails s : Forall (fails_on (")"%char :: s)) lexers.
Proof. repeat constructor; unfold fails_on; destruct s as [|? [|? [|? ?]]]; reflexivity. Qed.

Lemma nil_fails : Forall (fails_on []) lexers.
Proof. repeat constructor. Qed.

(** Try level [n] of the lexers for an operator followed by [c :: s]. *)
Ltac op_at c s n := exists n; eexists; split; [reflexivity|]; split;
  [|repeat constructor]; unfold fails_on;
  unfold lex_mul, lex_add, lex_shift, lex_cmp, lex_eq, lex_and, lex_xor, lex_or, lex_logical;
  simpl; repeat match goal with H : eqc c _ = false |- _ => rewrite H end;
  try reflexivity; destruct s as [|? [|? ?]]; simpl;
  repeat match goal with H : eqc c _ = false |- _ => rewrite H; clear H end; reflexivity.

(** Every operator is recognised at one level and refused at the tighter
    ones, whatever primary follows. *)
Lemma op_level op c s : op ∈ binary_ops -> starts c = true ->
  exists i lx, lexers !! i = Some lx /\ lx (op ++ c :: s) = Some (op, c :: s) /\
    Forall (fails_on (op ++ c :: s)) (take i lexers).
Proof.
  intros Hop Hc.
  assert (eqc c "<" = false /\ eqc c ">" = false /\ eqc c "=" = false /\ eqc c "?" = false /\
          eqc c "&" = false /\ eqc c "|" = false) as (A1 & A2 & A3 & A4 & A5 & A6).
  { assert (negb (eqc c "<") && negb (eqc c ">") && negb (eqc c "=") && negb (eqc c "?") &&
            negb (eqc c "&") && negb (eqc c "|") = true) as E.
    { revert Hc. apply (ascii_forall_impl starts (fun c => negb (eqc c "<") && negb (eqc c ">") &&
        negb (eqc c "=") && negb (eqc c "?") && negb (eqc c "&") && negb (eqc c "|"))).
      ascii_dec_solve. }
    by bsplit. }
  unfold binary_ops in Hop. simpl in Hop.
  repeat (apply elem_of_cons in Hop as [->|Hop];
    [first [op_at c s 0%nat | op_at c s 1%nat | op_at c s 2%nat | op_at c s 3%nat | op_at c s 4%nat
           | op_at c s 5%nat | op_at c s 6%nat | op_at c s 7%nat | op_at c s 8%nat]|]).
  by apply elem_of_nil in Hop.
Qed.

(** *** Primaries *)

Lemma span_ext {A} (p : A -> bool) l s a b :
  span p l = (a, b) -> match s with [] => True | c :: _ => p c = false end ->
  span p (l ++ s) = (a, b ++ s).
Proof.
  revert a b. induction l as [|x l IH]; intros a b E Hs; simpl in *.
  - injection E as <- <-. destruct s; [done|]. simpl. by rewrite Hs.
  - destruct (p x); [|by injection E as <- <-].
    destruct (span p l) as [a' b']. injection E as <- <-. by rewrite (IH a' b').
Qed.

Definition id_stops (s : bytes) : Prop :=
  match s with [] => True | c :: _ => id_char c = false /\ eqc c "." = false end.

Lemma id_stops_span s : id_stops s -> match s with [] => True | c :: _ => id_char c = false end.
Proof. destruct s; simpl; tauto. Qed.

Lemma dotted_ext f f' r m s :
  (f <= f')%nat -> id_stops s -> dotted f r = (m, []) -> dotted f' (r ++ s) = (m, s).
Proof.
  revert f' r m. induction f as [|f IH]; intros f' r m Hf Hs; cbn [dotted].
  - intros [= <- ->]. simpl. destruct f', s as [|d [|c s]]; try done.
    simpl. destruct Hs as [_ ->]. done.
  - destruct r as [|d [|c r]]; try (by intros [= <- ?]).
    { intros [= <-]. simpl. destruct f', s as [|d [|c s]]; try done. simpl.
      destruct Hs as [_ ->]. done. }
    destruct (eqc d "." && id_start c) eqn:Ed; [|by intros [= <- ?]].
    destruct (span id_char (c :: r)) as [seg r1] eqn:Es.
    destruct (dotted f r1) as [more r2] eqn:Em. intros [= <- ->].
    destruct f' as [|f']; [lia|]. cbn [dotted app]. rewrite Ed.
    change (c :: r ++ s) with ((c :: r) ++ s).
    rewrite (span_ext _ _ _ _ _ Es) by by apply id_stops_span.
    rewrite (IH f' r1 more) by (done || lia). done.
Qed.

Lemma ident_head s : ident s -> exists c b, s = c :: b /\ id_start c = true.
Proof.
  intros [E NE]. unfold parse_identifier in E.
  destruct (rest (skip_ws (MkP s []))) as [|c b]; [by injection E as <-|].
  case_if_in E; [|by injection E as <-].
  destruct (span id_char b) as [seg r]. destruct (dotted (length r) r) as [more r'].
  injection E as E _. exists c, (seg ++ more). by rewrite <- E.
Qed.

Lemma id_start_plain c : id_start c = true -> isspace c = false /\ eqc c "(" = false /\
  eqc c "~" || eqc c "!" || eqc c "-" = false.
Proof.
  intros H. assert (negb (isspace c) && negb (eqc c "(") &&
    negb (eqc c "~" || eqc c "!" || eqc c "-") = true) as E.
  { revert H. apply (ascii_forall_impl id_start (fun c => negb (isspace c) && negb (eqc c "(") &&
      negb (eqc c "~" || eqc c "!" || eqc c "-"))). ascii_dec_solve. }
  bsplit. repeat split; rew_bool.
Qed.

Lemma ident_ext s x e : ident s -> id_stops x ->
  parse_identifier (MkP (s ++ x) e) = (s, MkP x e).
Proof.
  intros Hi Hx. destruct (ident_head s Hi) as (c & b & -> & Hc). destruct Hi as [E _].
  apply id_start_plain in Hc as Hp. destruct Hp as (Hsp & _ & _).
  unfold parse_identifier in *. rewrite skip_ws_id in E by (simpl; done).
  rewrite skip_ws_id by (simpl; done). cbn [rest app] in *. rewrite Hc in *.
  destruct (span id_char b) as [seg r] eqn:Es.
  destruct (dotted (length r) r) as [more r'] eqn:Ed. injection E as E ->.
  rewrite (span_ext _ _ _ _ _ Es) by by apply id_stops_span.
  rewrite (dotted_ext (length r) _ r more); [|rewrite length_app; lia|done|done].
  unfold with_rest. simpl. by rewrite E.
Qed.

Lemma stops_id s : stops s -> id_stops s.
Proof. destruct s; simpl; [done|]. intros H. by apply delim_props in H as (_ & ? & ? & _). Qed.

Lemma select_none id s e : stops s ->
  parse_select id (MkP s e) = (Some (ESignal id), MkP s e).
Proof.
  intros H. unfold parse_select, peek. rewrite stops_skip by done. cbn [rest].
  destruct s as [|c s]; [done|]. apply delim_props in H as (_ & _ & _ & -> & _). done.
Qed.

Lemma to_string_udec z : 0 <= z -> to_string z = udec z.
Proof. intros. unfold to_string. destruct (Z.ltb_spec z 0); [lia|done]. Qed.

Lemma udec_no c z : isdigit c = false -> forallb (fun d => negb (eqc d c)) (udec z) = true.
Proof.
  intros Hc. pose proof (udec_digits z) as H. revert H. apply forallb_impl. intros d Hd.
  bsplit. apply eqc_false. congruence.
Qed.

Lemma select_slice id m l s e : 0 <= m <= int_max -> 0 <= l <= int_max -> stops s ->
  parse_select id (MkP ("["%char :: to_string m ++ ":"%char :: to_string l ++ "]"%char :: s) e)
    = (Some (ESlice id m l), MkP s e).
Proof.
  intros Hm Hl Hs. rewrite !to_string_udec by lia.
  unfold parse_select, peek at 1. rewrite skip_ws_id by done. cbn [rest].
  change (negb (eqc "[" "[")) with false. cbn iota. unfold with_rest. cbn [rest error drop].
  rewrite drop_0, span_stop; [| |done].
  2: { pose proof (udec_digits m) as A. revert A. apply forallb_impl.
       apply (ascii_forall_impl isdigit (fun c => negb (eqc c ":") && negb (eqc c "]"))).
       ascii_dec_solve. }
  unfold peek. rewrite skip_ws_id by done. cbn [rest].
  change (eqc ":" ":") with true. cbn iota. cbn [drop rest].
  rewrite drop_0, span_stop by (done || (apply udec_no; done)). cbn [error].
  unfold eat. rewrite skip_ws_id by done. cbn [rest].
  change (eqc "]" "]") with true. cbn iota. unfold with_rest. cbn [negb rest error].
  rewrite !atoi_udec by done. pose proof (udec_nonempty m ltac:(lia)). by destruct (udec m).
Qed.

(** *** Constants *)

Lemma foldl_classify_flags bs v : forallb is_bit4 bs = true ->
  has_x (foldl classify v bs) = has_x v || existsb (fun c => eqc c "x") bs /\
  has_z (foldl classify v bs) = has_z v || existsb (fun c => eqc c "z") bs.
Proof.
  revert v. induction bs as [|c bs IH]; intros v; simpl; [by rewrite !orb_false_r|].
  intros [Hc H]%andb_true_iff. destruct (IH (classify v c) H) as [-> ->].
  unfold is_bit4, is_bit, is_xz in Hc.
  repeat (apply orb_true_iff in Hc as [Hc|Hc]); apply eqc_true in Hc; subst c;
    [rewrite classify_bit by done; done|rewrite classify_bit by done; done| |];
    (split; [change (eqc "x" "x") with true|]); unfold classify; simpl;
    destruct (has_x v), (has_z v); done.
Qed.

Lemma existsb_xz bs : existsb is_xz bs = negb (forallb (fun c => negb (is_xz c)) bs).
Proof. induction bs as [|c bs IH]; simpl; [done|]. rewrite IH. by destruct (is_xz c). Qed.

Lemma bit4_known bs : forallb is_bit4 bs = true -> existsb is_xz bs = negb (forallb is_bit bs).
Proof.
  induction bs as [|c bs IH]; simpl; [done|]. intros [Hc H]%andb_true_iff. rewrite IH by done.
  unfold is_bit4 in Hc.
  assert (is_xz c = negb (is_bit c)) as ->; [|by destruct (is_bit c)].
  apply Bool.eqb_prop. clear H. revert Hc.
  apply (ascii_forall_impl is_bit4 (fun c => Bool.eqb (is_xz c) (negb (is_bit c)))).
  ascii_dec_solve.
Qed.

Lemma lor_low_bit a b : 0 <= a -> 0 <= b <= 1 -> Z.lor (2 * a) b = 2 * a + b.
Proof.
  intros Ha H. assert (b = 0 \/ b = 1) as [->| ->] by lia.
  - rewrite Z.lor_0_r. lia.
  - destruct a; [done|done|lia].
Qed.

(** Shifting in a bit modulo 2^64. *)
Lemma u64_shift_in a b : 0 <= b <= 1 -> Z.lor (u64 (Z.shiftl a 1)) b = u64 (2 * a + b).
Proof.
  intros H. rewrite Z.shiftl_mul_pow2 by lia. change (2 ^ 1) with 2. unfold u64.
  change (2 ^ 64) with (2 * 2 ^ 63). rewrite (Z.mul_comm a 2), Z.mul_mod_distr_l by lia.
  pose proof (Z.mod_pos_bound a (2 ^ 63) eq_refl). rewrite lor_low_bit by (done || lia).
  rewrite (Z.rem_mul_r (2 * a + b)) by lia.
  replace ((2 * a + b) / 2) with a by (apply Z.div_unique with b; lia).
  replace ((2 * a + b) mod 2) with b by (apply Z.mod_unique with a; lia). lia.
Qed.

Lemma u64_add_l a b : u64 (2 * u64 a + b) = u64 (2 * a + b).
Proof. unfold u64. rewrite <- Zplus_mod_idemp_l, Zmult_mod_idemp_r, Zplus_mod_idemp_l. done. Qed.

(** The [(acc << 1) | bit] accumulation of a [uint64_t] is the value of the
    bit string modulo 2^64. *)
Lemma shift_in_val bs a :
  foldl (fun v c => Z.lor (u64 (Z.shiftl v 1)) (if eqc c "1" then 1 else 0)) (u64 a) bs
    = u64 (foldl (fun v c => 2 * v + bit_of c) a bs).
Proof.
  revert a. induction bs as [|c bs IH]; intros a; simpl; [done|].
  fold (bit_of c). rewrite u64_shift_in by apply bit_of_range. rewrite u64_add_l. apply IH.
Qed.

Lemma parse_radix_bin bs w :
  0 < w <= 64 -> zlen bs = w -> forallb is_bit4 bs = true ->
  parse_radix bs "b" w = Ret (logic_value_from_bits bs w).
Proof.
  intros Hw Hl Hb. unfold parse_radix. rewrite bit4_known by done.
  change (eqc "b" "b") with true. cbn iota.
  destruct (forallb is_bit bs) eqn:Hk; cbn [negb].
  - change 0 with (u64 0) at 2. rewrite shift_in_val. fold (bits_val bs).
    pose proof (bits_val_range bs). assert (2 ^ zlen bs <= 2 ^ 64) by (apply Z.pow_le_mono_r; lia).
    rewrite u64_small, from_u64_eq by lia. rewrite (proj2 (Z.leb_le _ _)) by lia.
    rewrite (proj2 (Z.ltb_lt 0 w)) by lia. rewrite from_bits_known_bits by (done || lia).
    assert (Z.to_nat w = length bs) as -> by (unfold zlen in Hl; lia). by rewrite digit_bits_val.
  - rewrite Hl, Z.ltb_irrefl, andb_false_r.
    pose proof (foldl_classify_flags bs (MkLV bs w true false false) Hb) as [Fx Fz].
    pose proof (from_bits_known bs w) as K. rewrite Hk in K.
    unfold logic_value_from_bits in *.
    destruct (foldl_classify_proj (MkLV bs w true false false) bs) as [P1 P2].
    destruct (foldl classify _ bs) as [b' w' k' x' z'] eqn:E. simpl in *. subst.
    rewrite (proj2 (Z.eqb_neq _ _)) in * by lia. simpl in *. by subst.
Qed.

Lemma width_text_short w : 0 < w <= 64 -> (length (to_string w) <=? 9)%nat = true.
Proof.
  intros H.
  assert (forallb (fun n => length (to_string (Z.of_nat n)) <=? 9)%nat (List.seq 0 65) = true)
    as F by (vm_compute; reflexivity).
  rewrite List.forallb_forall in F. specialize (F (Z.to_nat w)).
  rewrite Z2Nat.id in F by lia. apply F. apply List.in_seq. lia.
Qed.

Lemma map_filter_bits bs : forallb is_bit4 bs = true ->
  map tolower (List.filter (fun c => negb (eqc c "_")) bs) = bs.
Proof.
  induction bs as [|c bs IH]; simpl; [done|]. intros [Hc H]%andb_true_iff.
  apply bit4_plain in Hc. unfold plain in Hc. bsplit. rewrite H2. simpl. rewrite IH by done.
  f_equal. by apply eqc_true.
Qed.

Lemma const_print bs w s e :
  0 < w <= 64 -> zlen bs = w -> forallb is_bit4 bs = true -> stops s ->
  parse_const (MkP (to_string w ++ "'"%char :: "b"%char :: bs ++ s) e)
    = POk (logic_value_from_bits bs w, MkP s e).
Proof.
  intros Hw Hl Hb Hs. destruct (to_string_pos w) as (D & NE & A); [lia|].
  unfold parse_const. rewrite skip_ws_id.
  2: { destruct (to_string w) as [|c t]; [done|]. simpl in *. bsplit.
       apply starts_space. unfold starts. rewrite H. by destruct (id_start c). }
  cbn [rest]. unfold parse_const_based. rewrite span_stop; [| |done].
  2: { revert D. apply forallb_impl. intros c Hc. apply digit_plain in Hc. unfold plain in Hc.
       bsplit. done. }
  rewrite D, width_text_short by done. cbn [andb]. rewrite A by (unfold int_max; lia).
  change (eqc (tolower "b") "s") with false. cbn iota.
  change (tolower "b") with "b"%char.
  change (eqc "b" "h" || eqc "b" "b" || eqc "b" "d" || eqc "b" "o") with true. cbn iota.
  rewrite span_stop.
  - rewrite map_filter_bits by done. rewrite parse_radix_bin by done. done.
  - revert Hb. apply forallb_impl. intros c. apply (ascii_forall_impl is_bit4
      (fun c => isalnum c || eqc c "_" || eqc c "x" || eqc c "X" || eqc c "z" || eqc c "Z")).
    ascii_dec_solve.
  - destruct s; [done|]. by apply delim_props in Hs as (_ & _ & _ & _ & ?).
Qed.

(** *** Whole trees *)

Lemma op_head op : op ∈ binary_ops -> exists c t, op = c :: t /\ delim c = true.
Proof.
  unfold binary_ops. simpl. intros H.
  repeat (apply elem_of_cons in H as [->|H]; [eexists _, _; split; reflexivity|]).
  by apply elem_of_nil in H.
Qed.

Lemma tower_app p a lx b : tower p (a ++ lx :: b) = tower (level (tower p a) lx) b.
Proof. unfold tower. by rewrite foldl_app. Qed.

(** One operator between two primaries, closed by a parenthesis. *)
Lemma tower_binop p op l r pl c pr s :
  op ∈ binary_ops -> starts c = true ->
  (forall x, stops x -> p (MkP (pl ++ x) []) = POk (Some l, MkP x [])) ->
  (forall x, stops x -> p (MkP ((c :: pr) ++ x) []) = POk (Some r, MkP x [])) ->
  tower p lexers (MkP (pl ++ op ++ (c :: pr) ++ ")"%char :: s) [])
    = POk (Some (EBinary op l r), MkP (")"%char :: s) []).
Proof.
  intros Hop Hc HL HR. set (y := ")"%char :: s). assert (Hy : stops y) by done.
  destruct (op_level op c (pr ++ y) Hop Hc) as (i & lx & Hi & Hlx & Hf).
  rewrite <- (take_drop_middle _ _ _ Hi), tower_app.
  assert (Forall (fails_on y) lexers) as Hcl by apply close_fails.
  rewrite <- (take_drop_middle _ _ _ Hi) in Hcl.
  apply Forall_app in Hcl as [Hc1 Hcl]. apply Forall_cons_1 in Hcl as [Hc2 Hc3].
  destruct (op_head op Hop) as (o & ot & Eop & Ho).
  assert (Hst : stops (op ++ (c :: pr) ++ y)) by (rewrite Eop; done).
  apply tower_pass; [|done|done].
  unfold level. rewrite (tower_pass _ _ _ l (op ++ (c :: pr) ++ y) []) by auto.
  cbn [mbind pres_bind rest].
  assert (exists k, length (op ++ (c :: pr) ++ y) = S k) as [k ->] by (rewrite Eop; by eexists).
  cbn [level_loop]. rewrite stops_skip by done. cbn [rest].
  change (op ++ (c :: pr) ++ y) with (op ++ c :: pr ++ y). rewrite Hlx.
  unfold with_rest. cbn [error]. change (c :: pr ++ y) with ((c :: pr) ++ y).
  rewrite (tower_pass _ _ _ r y []) by auto. cbn [mbind pres_bind].
  destruct k; cbn [level_loop]; rewrite stops_skip by done; cbn [rest]; by rewrite Hc2.
Qed.

Lemma print_starts e : wf_expr e -> exists c t, print_expr e = c :: t /\ starts c = true.
Proof.
  destruct e as [s|s m l|v|op r|op l r]; simpl.
  - intros H. destruct (ident_head s H) as (c & b & -> & Hc). exists c, b. unfold starts. by rewrite Hc.
  - intros [H _]. destruct (ident_head s H) as (c & b & -> & Hc). simpl. eexists c, _.
    split; [done|]. unfold starts. by rewrite Hc.
  - intros (Hw & _). destruct (to_string_pos (width v)) as (D & NE & _); [lia|].
    destruct (to_string (width v)) as [|c t]; [done|]. simpl in *. bsplit. eexists c, _.
    split; [done|]. unfold starts. rewrite H. by destruct (id_start c).
  - intros [H _]. unfold unary_ops in H. simpl in H.
    repeat (apply elem_of_cons in H as [->|H]; [eexists _, _; split; reflexivity|]).
    by apply elem_of_nil in H.
  - intros _. eexists _, _. split; [done|]. reflexivity.
Qed.

Lemma eat_other c d s e : isspace d = false -> eqc d c = false ->
  eat c (MkP (d :: s) e) = (false, MkP (d :: s) e).
Proof. intros H1 H2. unfold eat. rewrite skip_ws_id by done. cbn [rest]. by rewrite H2. Qed.

Lemma peek_head d s e : isspace d = false -> peek (MkP (d :: s) e) = (d, MkP (d :: s) e).
Proof. intros H. unfold peek. by rewrite skip_ws_id. Qed.

(** A primary that is neither parenthesised nor unary. *)
Lemma primary_leaf f c t : isspace c = false -> eqc c "(" = false ->
  eqc c "~" || eqc c "!" || eqc c "-" = false ->
  parse_primary (S f) (MkP (c :: t) []) =
    (let '(id, st) := parse_identifier (MkP (c :: t) []) in
     match id with
     | _ :: _ => POk (parse_select id st)
     | [] => '(v, st) ← parse_const (MkP (c :: t) []);
         if bool_decide (bits v = []) && negb (bool_decide (error st = []))
         then POk (None, st) else POk (Some (EConst v), st)
     end).
Proof.
  intros H1 H2 H3. cbn [parse_primary]. rewrite skip_ws_id by done.
  rewrite eat_other by done. cbn iota. rewrite peek_head by done. rewrite H3. done.
Qed.

Lemma digit_leaf c : isdigit c = true -> isspace c = false /\ eqc c "(" = false /\
  eqc c "~" || eqc c "!" || eqc c "-" = false /\ id_start c = false.
Proof.
  intros H. assert (negb (isspace c) && negb (eqc c "(") && negb (id_start c) &&
    negb (eqc c "~" || eqc c "!" || eqc c "-") = true) as E.
  { revert H. apply (ascii_forall_impl isdigit (fun c => negb (isspace c) && negb (eqc c "(") &&
      negb (id_start c) && negb (eqc c "~" || eqc c "!" || eqc c "-"))). ascii_dec_solve. }
  bsplit. repeat split; rew_bool.
Qed.

Lemma primary_const f v s :
  wf_expr (EConst v) -> stops s ->
  parse_primary (S f) (MkP (print_expr (EConst v) ++ s) []) = POk (Some (EConst v), MkP s []).
Proof.
  intros (Hw & Hl & Hb & Hv) Hs. cbn [print_expr]. rewrite <- app_assoc. cbn [app].
  pose proof (const_print (bits v) (width v) s [] Hw Hl Hb Hs) as HC.
  destruct (to_string_pos (width v)) as (D & NE & _); [lia|].
  destruct (to_string (width v)) as [|c t]; [done|]. cbn [forallb] in D. bsplit.
  destruct (digit_leaf c H) as (L1 & L2 & L3 & L4). cbn [app] in *.
  rewrite primary_leaf by done. unfold parse_identifier. rewrite skip_ws_id by done.
  cbn [rest]. rewrite L4, HC. cbn [mbind pres_bind]. rewrite <- Hv.
  rewrite bool_decide_false by (intros E; rewrite E in Hl; unfold zlen in Hl; simpl in Hl; lia).
  done.
Qed.

Lemma primary_ident f s sel x n : ident s -> id_stops (sel ++ x) -> 
  parse_select s (MkP (sel ++ x) []) = (Some n, MkP x []) ->
  parse_primary (S f) (MkP ((s ++ sel) ++ x) []) = POk (Some n, MkP x []).
Proof.
  intros Hi Hx HS. rewrite <- app_assoc. pose proof (ident_ext s (sel ++ x) [] Hi Hx) as HI.
  destruct (ident_head s Hi) as (c & b & -> & Hc).
  apply id_start_plain in Hc as (H1 & H2 & H3). cbn [app] in *.
  rewrite primary_leaf by done. rewrite HI. by rewrite HS.
Qed.

Lemma primary_print e : wf_expr e -> forall f s, (length (print_expr e) < f)%nat -> stops s ->
  parse_primary f (MkP (print_expr e ++ s) []) = POk (Some e, MkP s []).
Proof.
  induction e as [g|g m l|v|op r IHr|op l IHl r IHr]; intros Hwf f x Hf Hx;
    (destruct f as [|f]; [lia|]).
  - pose proof (primary_ident f g [] x (ESignal g) Hwf (stops_id _ Hx) (select_none _ _ _ Hx)) as H.
    by rewrite app_nil_r in H.
  - destruct Hwf as (Hi & Hm & Hl). cbn [print_expr].
    apply primary_ident; [done|by simpl|]. simpl. rewrite <- app_assoc. simpl.
    rewrite <- app_assoc. simpl. by apply select_slice.
  - by apply primary_const.
  - destruct Hwf as [Hop Hr]. cbn [print_expr] in *.
    assert (exists c, op = [c] /\ isspace c = false /\ eqc c "(" = false /\
            eqc c "~" || eqc c "!" || eqc c "-" = true) as (c & -> & H1 & H2 & H3).
    { unfold unary_ops in Hop. simpl in Hop.
      repeat (apply elem_of_cons in Hop as [->|Hop]; [eexists; repeat split; reflexivity|]).
      by apply elem_of_nil in Hop. }
    cbn [app parse_primary]. rewrite skip_ws_id by done. rewrite eat_other by done. cbn iota.
    rewrite peek_head by done. rewrite H3. unfold with_rest. cbn [rest error drop].
    rewrite drop_0, IHr; [done|done|simpl in Hf; lia|done].
  - destruct Hwf as (Hop & Hl & Hr). cbn [print_expr] in *.
    destruct (print_starts r Hr) as (c & t & Er & Hc).
    cbn [app parse_primary]. rewrite skip_ws_id by done.
    unfold eat at 1. rewrite skip_ws_id by done. cbn [rest].
    change (eqc "(" "(") with true. cbn iota. unfold with_rest. cbn [error].
    rewrite <- !app_assoc. cbn [app]. cbn [length] in Hf. rewrite !length_app in Hf.
    rewrite parse_logical_tower, Er.
    rewrite (tower_binop _ op l r (print_expr l) c t x); [|done|done| |].
    + cbn [mbind pres_bind]. unfold eat. rewrite skip_ws_id by done. done.
    + intros y Hy. apply IHl; [done|lia|done].
    + intros y Hy. rewrite <- Er. apply IHr; [done|lia|done].
Qed.

(** ** Claims *)

(** C40: the expression parser terminates on every input: with a recursion
    bound of one more than the text's length it always returns (a tree, or
    null with an error, or it has hit an over-wide constant), never running
    out of its bound. *)
Theorem parse_expression_terminates text :
  match parse_expression text with PFuel => False | _ => True end.
Proof. pose proof (parse_total text). by destruct (parse_expression text). Qed.

(** C2: printing a well-formed expression tree with explicit parentheses and
    parsing the text gives the tree back with no error: every operator of the
    grammar, nested to any depth, with dotted signal names, bit selects and
    sized 4-state constants. *)
Theorem print_parse_roundtrip e :
  wf_expr e -> parse_expression (print_expr e) = POk (Some e, []).
Proof.
  intros H. unfold parse_expression, parse. rewrite parse_logical_tower.
  pose proof (primary_print e H (S (length (print_expr e))) [] (Nat.lt_succ_diag_r _) I) as P1.
  rewrite app_nil_r in P1.
  rewrite (tower_pass _ _ _ e [] []); [|done|done|apply nil_fails].
  reflexivity.
Qed.

Definition sample_expr : ExprNode :=
  EBinary (lit "&&")
    (EBinary (lit "==") (ESlice (lit "top.u0.data") 7 0)
       (EConst (logic_value_from_bits (lit "0000x101") 8)))
    (EUnary (lit "!") (EBinary (lit "<<") (ESignal (lit "b_$1"))
       (EConst (logic_value_from_bits (lit "10") 2)))).

Lemma print_parse_roundtrip_witness :
  parse_expression (lit "((top.u0.data[7:0]==8'b0000x101)&&!(b_$1<<2'b10))")
    = POk (Some sample_expr, []).
Proof.
  refine (print_parse_roundtrip sample_expr _).
  assert (forall op, op ∈ binary_ops <-> existsb (eqs op) binary_ops = true) as D.
  { intros op. split; intros H.
    - apply List.existsb_exists. exists op. split; [by apply list_elem_of_In|apply eqs_refl].
    - apply List.existsb_exists in H as (x & Hx & E). apply eqs_true in E as ->.
      by apply list_elem_of_In. }
  repeat split; try reflexivity; try (apply D; reflexivity); try (unfold int_max; simpl; lia);
    try discriminate.
  unfold unary_ops. simpl. right. left.
Defined.

(** [&&] and [||] share one left-associative precedence level, so the text
    [a || b && c] is read as [(a || b) && c]; in SystemVerilog [&&] binds
    tighter and the expression is [a || (b && c)]. *)
Theorem logical_ops_share_precedence :
  parse_expression (lit "a || b && c") =
    POk (Some (EBinary (lit "&&")
                 (EBinary (lit "||") (ESignal (lit "a")) (ESignal (lit "b")))
                 (ESignal (lit "c"))), []).
Proof. vm_compute. reflexivity. Qed.
