(* ===== verification/Waveform.v ===== *)
(** * Waveform: the backend interface

    Models the data types of [IWaveformBackend]
    ([src/backend/waveform_backend.h]) and states the part of the interface
    the evaluators and samplers use as a class. Looking a path up may
    allocate a virtual signal handle, so [find_signal] returns the updated
    backend; the laws say that doing so never changes what any path reads. *)

From S2P Require Import Prelude.

Open Scope Z_scope.

Inductive ValueKind := BitVector | Real | VString | Event.
Inductive ObservationPoint := Raw | Before | After.

#[export] Instance ValueKind_eq_dec : EqDecision ValueKind.
Proof. solve_decision. Defined.
#[export] Instance ObservationPoint_eq_dec : EqDecision ObservationPoint.
Proof. solve_decision. Defined.

(** [real] is the 64-bit pattern of the [double]. *)
Record WaveformValue := MkWV { kind : ValueKind; text : bytes; real : Z }.
Definition wv_default : WaveformValue := MkWV BitVector [] 0.

#[export] Instance WaveformValue_eq_dec : EqDecision WaveformValue.
Proof. solve_decision. Defined.

Record SampledValue := MkSV {
  sv_value : WaveformValue;
  sv_time_idx : Z;
  sv_element : Z;
  sv_elements_at_time : Z;
  sv_time_match : bool;
}.

Record SignalInfo := MkSI {
  si_encoding : ValueKind;
  si_num_changes : Z;
  si_max_states : Z;
  si_width : Z;
  si_bytes_per_entry : Z;
  si_has_meta_byte : bool;
}.
Definition si_default : SignalInfo := MkSI BitVector 0 2 0 0 false.

Record SignalOffset := MkSO {
  so_start : Z;
  so_elements : Z;
  so_time_match : bool;
  so_next_idx : Z;
  so_has_next : bool;
}.

Record SignalChange := MkSC {
  sc_time_idx : Z;
  sc_time : Z;
  sc_delta : Z;
  sc_value : WaveformValue;
}.

Record ScanDiagnostics := MkSD {
  sd_total_count : Z;
  sd_returned_count : Z;
  sd_width : Z;
  sd_encoding : ValueKind;
  sd_scan_complete : bool;
  sd_analysis_complete : bool;
  sd_truncated : bool;
}.

(** ** The interface used by expression evaluation and sampling *)

Class WaveformBackend (W : Type) := {
  find_signal : W -> bytes -> Z * W;
  sampled_value_at : W -> Z -> Z -> ObservationPoint -> option SampledValue;
  signal_info : W -> Z -> option SignalInfo;
}.

Section Reads.
Context {W : Type} `{WaveformBackend W}.

(** What a client can learn about a path at an observation: whether it
    resolves, the sample, and the metadata. *)
Definition read (w : W) (path : bytes) (time_idx : Z) (point : ObservationPoint)
    : bool * option SampledValue * option SignalInfo :=
  let '(ref, w') := find_signal w path in
  (negb (ref =? 0), sampled_value_at w' ref time_idx point, signal_info w' ref).
End Reads.

(** [wave_ok n] is the backend's own invariant with room for [n] more
    lookups (virtual handles are a finite resource); within it a lookup does
    not disturb any read. *)
Class WaveformLaws (W : Type) `{WaveformBackend W} := {
  wave_ok : nat -> W -> Prop;
  wave_ok_le : forall n m w, (m <= n)%nat -> wave_ok n w -> wave_ok m w;
  find_signal_ok : forall n w path, wave_ok (S n) w -> wave_ok n (snd (find_signal w path));
  read_stable : forall w path path' time_idx point, wave_ok 2 w ->
    read (snd (find_signal w path)) path' time_idx point = read w path' time_idx point;
}.

(** ** A constant waveform

    The smallest backend: each listed path holds one bit string forever. *)

Definition const_wave := list (bytes * bytes).

Fixpoint const_index (n : Z) (w : const_wave) (path : bytes) : Z :=
  match w with
  | [] => 0
  | (p, _) :: w' => if eqs p path then n else const_index (n + 1) w' path
  end.

#[export] Instance const_wave_backend : WaveformBackend const_wave := {|
  find_signal w path := (const_index 1 w path, w);
  sampled_value_at w ref ti _ :=
    (fun pb : bytes * bytes => MkSV (MkWV BitVector (snd pb) 0) ti 0 1 false)
      <$> w !! Z.to_nat (ref - 1);
  signal_info w ref :=
    (fun pb : bytes * bytes => MkSI BitVector 1 4 (Z.of_nat (length (snd pb))) 1 false)
      <$> w !! Z.to_nat (ref - 1);
|}.

#[export, refine] Instance const_wave_laws : WaveformLaws const_wave := {|
  wave_ok _ _ := True;
|}.
Proof. all: done. Defined.
