(* ===== verification/ExprEval.v ===== *)
(** * ExprEval: 4-state expression evaluation

    Models the evaluation half of [src/waveform/expr/expr_eval.cpp]
    (lines 440-812): the bitwise, arithmetic, comparison, equality, wildcard
    and reduction helpers, and [eval_expression] over the waveform interface
    with its optional memo table. *)

From S2P Require Import Prelude CLib Json LogicValue ExprParser Waveform.

Open Scope Z_scope.

(** ** Helpers *)

(** Declared width, or the number of characters when there is none. *)
Definition lv_width (v : LogicValue) : Z := if 0 <? width v then width v else zlen (bits v).

Definition extend_bits (w : Z) (fill : ascii) (bs : bytes) : bytes :=
  let bs := if zlen bs <? w then replicate (Z.to_nat (w - zlen bs)) fill ++ bs else bs in
  if w <? zlen bs then last_n (Z.to_nat w) bs else bs.

Definition bit_unknown (c : ascii) : bool := negb (eqc c "0") && negb (eqc c "1").

(** One position: result character and which flag an unknown sets. *)
Definition bitwise_char (op : bytes) (ca cb : ascii) : ascii :=
  if bit_unknown ca || bit_unknown cb then "x"%char
  else
    let va := code ca - 48 in
    let vb := code cb - 48 in
    let v := if eqs op (lit "&") then Z.land va vb
             else if eqs op (lit "|") then Z.lor va vb
             else Z.lxor va vb in
    if v =? 0 then "0"%char else "1"%char.

Definition bitwise (a b : LogicValue) (op : bytes) : LogicValue :=
  let w := Z.max (lv_width a) (lv_width b) in
  let ba := extend_bits w (if known a then "0"%char else "x"%char) (bits a) in
  let bb := extend_bits w (if known b then "0"%char else "x"%char) (bits b) in
  let ps := zip ba bb in
  let unk p := bit_unknown (fst p) || bit_unknown (snd p) in
  let isz (p : ascii * ascii) := eqc (fst p) "z" || eqc (snd p) "z" in
  MkLV (map (fun p => bitwise_char op (fst p) (snd p)) ps) w
       (negb (existsb unk ps))
       (existsb (fun p => unk p && negb (isz p)) ps)
       (existsb (fun p => unk p && isz p) ps).

Inductive LogicalTruth := LFalse | LTrue | LUnknown.

#[export] Instance LogicalTruth_eq_dec : EqDecision LogicalTruth.
Proof. solve_decision. Defined.

Fixpoint truth_scan (saw_unknown : bool) (bs : bytes) : LogicalTruth :=
  match bs with
  | [] => if saw_unknown then LUnknown else LFalse
  | c :: r => if eqc c "1" then LTrue
              else truth_scan (if negb (eqc c "0") then true else saw_unknown) r
  end.
Definition logical_truth (v : LogicValue) : LogicalTruth := truth_scan false (bits v).

Definition unknown_bool : LogicValue := MkLV (lit "x") 1 false true false.
Definition from_bool (b : bool) : res LogicValue := logic_value_from_u64 (if b then 1 else 0) 1.

Definition to_u64 (v : LogicValue) : Z :=
  foldl (fun acc c => Z.lor (u64 (Z.shiftl acc 1)) (if eqc c "1" then 1 else 0)) 0 (bits v).

Definition arith_width (a b : LogicValue) : Z :=
  if (0 <? width a) && (0 <? width b) then Z.max (width a) (width b)
  else if 0 <? width a then width a
  else if 0 <? width b then width b
  else Z.max (zlen (bits a)) (zlen (bits b)).

Definition arith_u64 (op : bytes) (va vb : Z) : Z :=
  if eqs op (lit "+") then u64 (va + vb)
  else if eqs op (lit "-") then u64 (va - vb)
  else if eqs op (lit "*") then u64 (va * vb)
  else if eqs op (lit "/") then (if vb =? 0 then 0 else va / vb)
  else if eqs op (lit "%") then (if vb =? 0 then 0 else va mod vb)
  else if eqs op (lit "<<") then u64 (Z.shiftl va (Z.land vb 63))
  else if eqs op (lit ">>") then Z.shiftr va (Z.land vb 63)
  else 0.

Definition arith (a b : LogicValue) (op : bytes) : res LogicValue :=
  let w := arith_width a b in
  if negb (known a) || negb (known b) then
    Ret (MkLV (replicate (Z.to_nat (Z.max 1 w)) "x"%char) w false true false)
  else logic_value_from_u64 (arith_u64 op (to_u64 a) (to_u64 b)) w.

Definition cmp (a b : LogicValue) (op : bytes) : res LogicValue :=
  if negb (known a) || negb (known b) then Ret unknown_bool
  else
    let va := to_u64 a in
    let vb := to_u64 b in
    from_bool (if eqs op (lit "<") then va <? vb
               else if eqs op (lit "<=") then va <=? vb
               else if eqs op (lit ">") then vb <? va
               else if eqs op (lit ">=") then vb <=? va
               else false).

(** Zero-extend both strings to the longer length and compare characters. *)
Definition padded_equal (a b : bytes) : bool :=
  let n := Nat.max (length a) (length b) in
  eqs (replicate (n - length a) "0"%char ++ a) (replicate (n - length b) "0"%char ++ b).

Definition eq_values (a b : LogicValue) (op : bytes) : res LogicValue :=
  let strict := eqs op (lit "===") || eqs op (lit "!==") in
  if (negb (known a) || negb (known b)) && negb strict then Ret unknown_bool
  else
    let equal := padded_equal (bits a) (bits b) in
    from_bool (if eqs op (lit "!=") || eqs op (lit "!==") then negb equal else equal).

Definition wildcard_extend (w : Z) (v : LogicValue) : bytes :=
  let bs := bits v in
  if w <? zlen bs then last_n (Z.to_nat w) bs
  else if zlen bs <? w then
    let fill := match bs with
                | c :: _ => if negb (known v) && is_xz c then c else "0"%char
                | [] => "0"%char
                end in
    replicate (Z.to_nat (w - zlen bs)) fill ++ bs
  else bs.

Definition wildcard_case_eq (a b : LogicValue) (op : bytes) : res LogicValue :=
  let w := Z.max (lv_width a) (lv_width b) in
  let lhs := wildcard_extend w a in
  let rhs := wildcard_extend w b in
  let casex := eqs op (lit "==?x") in
  let inside := eqs op (lit "==?i") in
  let wildcard c := eqc c "z" || (casex && eqc c "x") in
  from_bool (forallb (fun p => (negb inside && wildcard (fst p)) || wildcard (snd p)
                               || eqc (fst p) (snd p)) (zip lhs rhs)).

(** [~] on a known vector: every character that is not 0 becomes 0. *)
Definition invert (bs : bytes) : bytes :=
  map (fun c => if eqc c "0" then "1"%char else "0"%char) bs.

Definition reduce_step (op : bytes) (r : Z) (c : ascii) : Z :=
  let b := if eqc c "1" then 1 else 0 in
  if eqs op (lit "~") then (if r <? 0 then b else Z.lxor r b)
  else if eqs op (lit "&") then (if r <? 0 then b else Z.land r b)
  else if eqs op (lit "|") then (if r <? 0 then b else Z.lor r b)
  else if eqs op (lit "^") then (if r <? 0 then b else Z.lxor r b)
  else r.

Definition reduce (a : LogicValue) (op : bytes) : res LogicValue :=
  if eqs op (lit "!") then
    match logical_truth a with
    | LUnknown => Ret unknown_bool
    | t => from_bool (bool_decide (t = LFalse))
    end
  else if negb (known a) then Ret unknown_bool
  else
    let r := foldl (reduce_step op) (-1) (bits a) in
    let r := if r <? 0 then 0 else r in
    if eqs op (lit "~") then Ret (MkLV (invert (bits a)) (width a) true false false)
    else from_bool (negb (r =? 0)).

(** ** Bit selects *)

(** [for (int i = msb; i >= lsb; --i) out.push_back(...)], [n] iterations. *)
Fixpoint slice_chars (bs : bytes) (w i : Z) (n : nat) : bytes :=
  match n with
  | O => []
  | S n' =>
      let idx := w - 1 - i in
      (if (0 <=? idx) && (idx <? w) then default "0"%char (bs !! Z.to_nat idx) else "0"%char)
        :: slice_chars bs w (i - 1) n'
  end.

Definition slice_value (v : LogicValue) (bs : bytes) (msb lsb : Z) : LogicValue :=
  let w := zlen bs in
  let '(msb, lsb) := if msb <? lsb then (lsb, msb) else (msb, lsb) in
  let msb := if w <=? msb then w - 1 else msb in
  let lsb := if lsb <? 0 then 0 else lsb in
  MkLV (slice_chars bs w msb (Z.to_nat (msb - lsb + 1))) (msb - lsb + 1)
       (known v) (has_x v) (has_z v).

(** [std::string(n, 'x')] with an [int] count: a negative count converts to a
    huge [size_t] and the constructor throws. *)
Definition x_string (n : Z) : res bytes :=
  if n <? 0 then Throw "std::length_error" else Ret (replicate (Z.to_nat n) "x"%char).

(** ** Evaluation *)

Section Eval.
Context {W : Type} `{WaveformBackend W}.

Definition leaf_key (signal : bytes) (sel : option (Z * Z)) : bytes :=
  match sel with
  | None => signal
  | Some (m, l) => signal ++ lit "[" ++ to_string m ++ lit ":" ++ to_string l ++ lit "]"
  end.

(** The value computed for a signal or slice that is not memoised. *)
Definition eval_leaf (signal : bytes) (sel : option (Z * Z)) (w : W) (time_idx : Z)
    (point : ObservationPoint) : res (LogicValue * W) :=
  let '(ref, w) := find_signal w signal in
  if negb (ref =? 0) then
    match sampled_value_at w ref time_idx point with
    | Some sampled =>
        let bs := text (sv_value sampled) in
        let info := default si_default (signal_info w ref) in
        let v := logic_value_from_bits bs (i32 (si_width info)) in
        Ret (match sel with
             | Some (m, l) => slice_value v bs m l
             | None => v
             end, w)
    | None =>
        n ← match sel with
            | Some (m, l) => d ← int_op (m - l); int_op (d + 1)
            | None => Ret 1
            end;
        bs ← x_string n;
        Ret (MkLV bs 0 false true false, w)
    end
  else Ret (MkLV (lit "x") 0 false true false, w).

Definition memo := option (gmap bytes LogicValue).

Definition eval_memo_leaf (signal : bytes) (sel : option (Z * Z)) (w : W) (time_idx : Z)
    (samples : memo) (point : ObservationPoint) : res (LogicValue * W * memo) :=
  let key := leaf_key signal sel in
  match samples ≫= (fun m => m !! key) with
  | Some v => Ret (v, w, samples)
  | None =>
      '(v, w) ← eval_leaf signal sel w time_idx point;
      Ret (v, w, (fun m => <[key := v]> m) <$> samples)
  end.

Definition eval_unary (op : bytes) (r : LogicValue) : res LogicValue :=
  if eqs op (lit "~") then
    if negb (known r) then
      Ret (MkLV (replicate (Z.to_nat (Z.max 1 (zlen (bits r)))) "x"%char) (width r)
             false true false)
    else Ret (MkLV (invert (bits r)) (width r) true false false)
  else if eqs op (lit "-") then
    if negb (known r) then Ret r
    else neg ← logic_value_from_u64 0 (width r); arith neg r (lit "-")
  else reduce r op.

Definition logical_and (l r : LogicValue) : res LogicValue :=
  match logical_truth l, logical_truth r with
  | LFalse, _ | _, LFalse => from_bool false
  | LTrue, LTrue => from_bool true
  | _, _ => Ret unknown_bool
  end.

Definition logical_or (l r : LogicValue) : res LogicValue :=
  match logical_truth l, logical_truth r with
  | LTrue, _ | _, LTrue => from_bool true
  | LFalse, LFalse => from_bool false
  | _, _ => Ret unknown_bool
  end.

Definition op_in (op : bytes) (l : list string) : bool :=
  existsb (fun s => eqs op (lit s)) l.

Definition eval_binary (op : bytes) (l r : LogicValue) : res LogicValue :=
  if op_in op ["&"; "|"; "^"]%string then Ret (bitwise l r op)
  else if eqs op (lit "&&") then logical_and l r
  else if eqs op (lit "||") then logical_or l r
  else if op_in op ["+"; "-"; "*"; "/"; "%"; "<<"; ">>"]%string then arith l r op
  else if op_in op ["<"; "<="; ">"; ">="]%string then cmp l r op
  else if op_in op ["=="; "!="; "==="; "!=="]%string then eq_values l r op
  else if op_in op ["==?z"; "==?x"; "==?i"]%string then wildcard_case_eq l r op
  else Ret lv_default.

Fixpoint eval_expression (root : ExprNode) (w : W) (time_idx : Z) (samples : memo)
    (point : ObservationPoint) : res (LogicValue * W * memo) :=
  match root with
  | EConst v => Ret (v, w, samples)
  | ESignal s => eval_memo_leaf s None w time_idx samples point
  | ESlice s m l => eval_memo_leaf s (Some (m, l)) w time_idx samples point
  | EUnary op r =>
      '(v, w, samples) ← eval_expression r w time_idx samples point;
      v' ← eval_unary op v;
      Ret (v', w, samples)
  | EBinary op a b =>
      '(l, w, samples) ← eval_expression a w time_idx samples point;
      '(r, w, samples) ← eval_expression b w time_idx samples point;
      v ← eval_binary op l r;
      Ret (v, w, samples)
  end.

(** [expr_eval_at]: [Ret (inl error)] is the [false] return. *)
Definition expr_eval_at (text : bytes) (w : W) (time_idx : Z)
    : res ((bytes + LogicValue) * W) :=
  match parse_expression text with
  | POk (None, err) => Ret (inl err, w)
  | POk (Some root, _) =>
      '(v, w, _) ← eval_expression root w time_idx None Raw;
      Ret (inr v, w)
  | PUB => UB
  | PFuel => Throw "unreachable"
  end.
End Eval.

(** [expression_signals]: the distinct signal names, in first-visit order. *)
Fixpoint signals_walk (n : ExprNode) (out : list bytes) : list bytes :=
  match n with
  | ESignal s | ESlice s _ _ => if bool_decide (s ∈ out) then out else out ++ [s]
  | EConst _ => out
  | EUnary _ r => signals_walk r out
  | EBinary _ l r => signals_walk r (signals_walk l out)
  end.
Definition expression_signals (root : ExprNode) : list bytes := signals_walk root [].

(** ** Reference semantics

    A tree denotes a value given what each path reads: no backend state, no
    memo table. *)

Definition reading : Type := bool * option SampledValue * option SignalInfo.

Definition leaf_of (sel : option (Z * Z)) (r : reading) : res LogicValue :=
  match r with
  | (true, Some sampled, info) =>
      let bs := text (sv_value sampled) in
      let v := logic_value_from_bits bs (i32 (si_width (default si_default info))) in
      Ret (match sel with Some (m, l) => slice_value v bs m l | None => v end)
  | (true, None, _) =>
      n ← match sel with
          | Some (m, l) => d ← int_op (m - l); int_op (d + 1)
          | None => Ret 1
          end;
      bs ← x_string n;
      Ret (MkLV bs 0 false true false)
  | (false, _, _) => Ret (MkLV (lit "x") 0 false true false)
  end.

Fixpoint eval_ref (env : bytes -> reading) (e : ExprNode) : res LogicValue :=
  match e with
  | EConst v => Ret v
  | ESignal s => leaf_of None (env s)
  | ESlice s m l => leaf_of (Some (m, l)) (env s)
  | EUnary op r => v ← eval_ref env r; eval_unary op v
  | EBinary op a b => l ← eval_ref env a; r ← eval_ref env b; eval_binary op l r
  end.

(** ** Memo keys *)

(** A reference to a signal, whole or a select of it. *)
Abbreviation leaf := (bytes * option (Z * Z))%type.

Fixpoint leaf_list (e : ExprNode) : list leaf :=
  match e with
  | ESignal s => [(s, None)]
  | ESlice s m l => [(s, Some (m, l))]
  | EConst _ => []
  | EUnary _ r => leaf_list r
  | EBinary _ l r => leaf_list l ++ leaf_list r
  end.

(** References that share a key read the same value. A name that ends like a
    select can share the key of one: [a[3:0]] as a signal of its own and the
    bits 3 to 0 of [a]. *)
Definition keys_agree (env : bytes -> reading) (L : list leaf) : Prop :=
  forall s sel s' sel', (s, sel) ∈ L -> (s', sel') ∈ L -> leaf_key s sel = leaf_key s' sel' ->
  leaf_of sel (env s) = leaf_of sel' (env s').

Definition no_bracket (s : bytes) : bool := forallb (fun c => negb (eqc c "[")) s.

Lemma to_string_inj a b : to_string a = to_string b -> a = b.
Proof.
  unfold to_string.
  assert (forall z t, 0 <= z -> udec z <> "-"%char :: t) as N.
  { intros z t Hz E. pose proof (udec_digits z) as D. by rewrite E in D. }
  destruct (Z.ltb_spec a 0), (Z.ltb_spec b 0); intros E.
  - injection E as E. apply udec_inj in E; lia.
  - symmetry in E. by apply N in E.
  - by apply N in E.
  - by apply udec_inj in E.
Qed.

Lemma to_string_no_colon z : forallb (fun c => negb (eqc c ":")) (to_string z) = true.
Proof. unfold to_string. case_if; simpl; by apply udec_no. Qed.

Lemma span_inj {A} (p : A -> bool) a b x y :
  forallb p a = true -> forallb p b = true ->
  match x with [] => True | c :: _ => p c = false end ->
  match y with [] => True | c :: _ => p c = false end ->
  a ++ x = b ++ y -> a = b /\ x = y.
Proof.
  intros Ha Hb Hx Hy E. pose proof (span_stop p a x Ha Hx) as E1.
  rewrite E, (span_stop p b y Hb Hy) in E1. by injection E1 as -> ->.
Qed.

Lemma leaf_key_inj s sel s' sel' :
  no_bracket s = true -> no_bracket s' = true ->
  leaf_key s sel = leaf_key s' sel' -> s = s' /\ sel = sel'.
Proof.
  intros Hs Hs' E.
  assert (forall t sl, leaf_key t sl = t ++ match sl with
    | None => []
    | Some (m, l) => "["%char :: to_string m ++ ":"%char :: to_string l ++ ["]"%char] end) as K.
  { intros t [[m l]|]; simpl; [done|by rewrite app_nil_r]. }
  rewrite !K in E. apply (span_inj (fun c => negb (eqc c "["))) in E as [-> E]; try done.
  2: by destruct sel as [[? ?]|].
  2: by destruct sel' as [[? ?]|].
  split; [done|]. destruct sel as [[m l]|], sel' as [[m' l']|]; try done.
  injection E as E. apply (span_inj (fun c => negb (eqc c ":"))) in E as [E1 E2];
    try done; try apply to_string_no_colon.
  injection E2 as E2. apply (app_inj_2 _ _ _ _) in E2 as [E2 _]; [|done].
  apply to_string_inj in E1, E2. by subst.
Qed.

(** Names without a bracket never share the key of another reference. *)
Lemma brackets_free_agree env L : Forall (fun r : leaf => no_bracket (fst r) = true) L -> keys_agree env L.
Proof.
  intros HL s sel s' sel' Hin Hin' E. eapply list.Forall_forall in Hin, Hin'; [|exact HL..].
  by apply leaf_key_inj in E as [-> ->].
Qed.

(** ** Refinement of the reference semantics *)

(** Signal references in a tree: the most lookups an evaluation makes. *)
Fixpoint leaves (e : ExprNode) : nat :=
  match e with
  | ESignal _ | ESlice _ _ _ => 1
  | EConst _ => 0
  | EUnary _ r => leaves r
  | EBinary _ l r => leaves l + leaves r
  end.

Section Refinement.
Context {W : Type} `{WaveformLaws W}.

Definition env_of (w : W) (ti : Z) (pt : ObservationPoint) : bytes -> reading :=
  fun p => read w p ti pt.

Lemma eval_leaf_read s sel w ti pt :
  eval_leaf s sel w ti pt =
    (v ← leaf_of sel (read w s ti pt); Ret (v, snd (find_signal w s))).
Proof.
  unfold eval_leaf, leaf_of, read. destruct (find_signal w s) as [ref w'] eqn:E. cbn [snd].
  destruct (ref =? 0); cbn [negb]; [done|].
  destruct (sampled_value_at w' ref ti pt); [done|].
  destruct sel as [[m l]|]; cbn [mbind res_bind]; [|done].
  destruct (int_op (m - l)); cbn [mbind res_bind]; try done.
  destruct (int_op (a + 1)); cbn [mbind res_bind]; try done.
  by destruct (x_string a0).
Qed.

(** Every memoised value is what the references in [L] with its key denote. *)
Definition memo_ok (env : bytes -> reading) (L : list leaf) (samples : memo) : Prop :=
  forall m s sel v, samples = Some m -> (s, sel) ∈ L -> m !! leaf_key s sel = Some v -> leaf_of sel (env s) = Ret v.

(** A table is given only where the keys of [L] tell its references apart. *)
Definition memo_safe (env : bytes -> reading) (L : list leaf) (samples : memo) : Prop :=
  samples = None \/ keys_agree env L.

Lemma memo_ok_insert env L m s sel v :
  (s, sel) ∈ L -> keys_agree env L -> memo_ok env L (Some m) -> leaf_of sel (env s) = Ret v ->
  memo_ok env L (Some (<[leaf_key s sel := v]> m)).
Proof.
  intros Hs Hk Hm Hv m' s' sel' v' [= <-] Hs' Hl.
  destruct (decide (leaf_key s sel = leaf_key s' sel')) as [E|NE].
  - rewrite <- E, lookup_insert_eq in Hl. injection Hl as <-. rewrite <- Hv. by apply Hk.
  - rewrite lookup_insert_ne in Hl by done. by eapply Hm.
Qed.

(** [k] lookups are still available after the run. *)
Definition refines_at (k : nat) (env : bytes -> reading) (L : list leaf) (ti : Z) (pt : ObservationPoint)
    (samples : memo) (spec : res LogicValue) (run : res (LogicValue * W * memo)) : Prop :=
  match run with
  | Ret (v, w', samples') =>
      spec = Ret v /\ wave_ok (S k) w' /\ (forall p, read w' p ti pt = env p) /\ memo_ok env L samples' /\
      (samples = None <-> samples' = None)
  | UB => spec = UB
  | Throw e => spec = Throw e
  end.

Lemma eval_memo_leaf_refines k env L s sel w ti samples pt :
  (s, sel) ∈ L -> memo_safe env L samples -> wave_ok (S (S k)) w -> (forall p, read w p ti pt = env p) ->
  memo_ok env L samples ->
  refines_at k env L ti pt samples (leaf_of sel (env s)) (eval_memo_leaf s sel w ti samples pt).
Proof.
  intros Hs Hk Hw He Hm. unfold eval_memo_leaf.
  destruct (samples ≫= (fun m => m !! leaf_key s sel)) as [v|] eqn:El.
  - destruct samples as [m|]; [|done]. simpl in El. cbn [refines_at].
    split_and!; auto; [by eapply Hm|]. revert Hw. apply wave_ok_le. lia.
  - rewrite eval_leaf_read, He.
    destruct (leaf_of sel (env s)) as [v| |e] eqn:Ev; cbn [mbind res_bind refines_at]; try done.
    split_and!; [done|by apply find_signal_ok| | |by destruct samples].
    + intros p. rewrite read_stable; [apply He|]. revert Hw. apply wave_ok_le. lia.
    + destruct Hk as [->|Hk]; [by intros ? ? ? ? ?|]. destruct samples as [m|]; simpl; [by apply memo_ok_insert|by intros ? ? ? ? ?].
Qed.

Lemma memo_safe_after env L samples samples' : (samples = None <-> samples' = None) -> memo_safe env L samples -> memo_safe env L samples'.
Proof. intros E [Hn|Hk]; [left; by apply E|by right]. Qed.

Lemma eval_refines_env env L e : forall k w ti samples pt,
  leaf_list e ⊆ L -> memo_safe env L samples -> wave_ok (leaves e + S k) w -> (forall p, read w p ti pt = env p) ->
  memo_ok env L samples ->
  refines_at k env L ti pt samples (eval_ref env e) (eval_expression e w ti samples pt).
Proof.
  induction e as [s|s m l|v|op r IHr|op a IHa b IHb]; intros k w ti samples pt Hb Hk Hw He Hm;
    cbn [eval_ref eval_expression leaf_list leaves] in *.
  - apply eval_memo_leaf_refines; auto. apply Hb. by left.
  - apply eval_memo_leaf_refines; auto. apply Hb. by left.
  - simpl. auto.
  - specialize (IHr k w ti samples pt Hb Hk Hw He Hm).
    destruct (eval_expression r w ti samples pt) as [[[v w'] s']| |e]; cbn [mbind res_bind refines_at] in *;
      [|by rewrite IHr|by rewrite IHr].
    destruct IHr as (-> & Hw' & He' & Hm' & Hs'). cbn [mbind res_bind].
    destruct (eval_unary op v); cbn [mbind res_bind refines_at]; auto.
  - assert (leaf_list a ⊆ L /\ leaf_list b ⊆ L) as [Hba Hbb] by set_solver.
    assert (wave_ok (leaves a + S (leaves b + k)) w) as Hwa by (revert Hw; apply wave_ok_le; lia).
    specialize (IHa (leaves b + k)%nat w ti samples pt Hba Hk Hwa He Hm).
    destruct (eval_expression a w ti samples pt) as [[[v w'] s']| |e]; cbn [mbind res_bind refines_at] in *;
      [|by rewrite IHa|by rewrite IHa].
    destruct IHa as (-> & Hw' & He' & Hm' & Hs'). cbn [mbind res_bind]. apply (memo_safe_after _ _ _ s' Hs') in Hk.
    rewrite plus_n_Sm in Hw'. specialize (IHb k w' ti s' pt Hbb Hk Hw' He' Hm').
    destruct (eval_expression b w' ti s' pt) as [[[v2 w2] s2]| |e]; cbn [mbind res_bind refines_at] in *;
      [|by rewrite IHb|by rewrite IHb].
    destruct IHb as (-> & Hw2 & He2 & Hm2 & Hs2). cbn [mbind res_bind].
    destruct (eval_binary op v v2); cbn [mbind res_bind refines_at]; try done. split_and!; try done. by rewrite Hs'.
Qed.
End Refinement.

(** ** Values of the helpers *)

Lemma to_u64_val v : to_u64 v = u64 (bits_val (bits v)).
Proof. unfold to_u64. change 0 with (u64 0) at 2. rewrite shift_in_val. done. Qed.

Lemma to_u64_exact v : zlen (bits v) <= 64 -> to_u64 v = bits_val (bits v).
Proof.
  intros H. rewrite to_u64_val. apply u64_small. pose proof (bits_val_range (bits v)).
  assert (2 ^ zlen (bits v) <= 2 ^ 64) by (apply Z.pow_le_mono_r; lia). lia.
Qed.

(** Unbounded arithmetic on the operand values. *)
Definition arith_spec (op : bytes) (va vb : Z) : Z :=
  if eqs op (lit "+") then va + vb
  else if eqs op (lit "-") then va - vb
  else if eqs op (lit "*") then va * vb
  else if eqs op (lit "/") then (if vb =? 0 then 0 else va / vb)
  else if eqs op (lit "%") then (if vb =? 0 then 0 else va mod vb)
  else if eqs op (lit "<<") then va * 2 ^ (vb mod 64)
  else if eqs op (lit ">>") then va / 2 ^ (vb mod 64)
  else 0.

Lemma mod_pow2_u64 x w : 0 <= w <= 64 -> u64 x mod 2 ^ w = x mod 2 ^ w.
Proof.
  intros H. unfold u64. replace (2 ^ 64) with (2 ^ w * 2 ^ (64 - w))
    by (rewrite <- Z.pow_add_r by lia; f_equal; lia).
  rewrite Z.rem_mul_r by lia. rewrite Z.mul_comm, Z_mod_plus_full, Z.mod_mod by lia. done.
Qed.

Lemma arith_u64_spec op va vb w : 0 <= va -> 0 <= vb -> 0 <= w <= 64 ->
  arith_u64 op va vb mod 2 ^ w = arith_spec op va vb mod 2 ^ w.
Proof.
  intros Ha Hb Hw. unfold arith_u64, arith_spec.
  change 63 with (Z.ones 6). rewrite Z.land_ones by lia. change (2 ^ 6) with 64.
  pose proof (Z.mod_pos_bound vb 64 eq_refl).
  rewrite Z.shiftl_mul_pow2, Z.shiftr_div_pow2 by lia.
  repeat case_if; rewrite ?mod_pow2_u64 by done; done.
Qed.

(** ** Definedness and soundness of the [known] flag *)

Definition small (v : LogicValue) : Prop := width v <= 64 /\ zlen (bits v) <= 64.
Definition sound (v : LogicValue) : Prop := known v = true -> forallb is_bit (bits v) = true.
Definition fine (c : res LogicValue) : Prop := exists v, c = Ret v /\ small v /\ sound v.

Lemma zlen_replicate {A} n (x : A) : zlen (replicate n x) = Z.of_nat n.
Proof. unfold zlen. by rewrite length_replicate. Qed.

Lemma from_u64_fine x w : w <= 64 -> fine (logic_value_from_u64 x w).
Proof.
  intros H. rewrite from_u64_eq, (proj2 (Z.leb_le _ _)) by done. eexists; split; [done|].
  pose proof (digit_bits_spec x (Z.to_nat (if 0 <? w then w else 64))) as (A & B & _).
  split; [split; simpl; [done|]|by intros _].
  unfold zlen. rewrite B. destruct (Z.ltb_spec 0 w); lia.
Qed.

Lemma from_bool_fine b : fine (from_bool b).
Proof. apply from_u64_fine. lia. Qed.

Lemma unknown_bool_fine : fine (Ret unknown_bool).
Proof. eexists; split; [done|]. split; [split; vm_compute; done|done]. Qed.

Lemma extend_bits_length w fill bs : 0 <= w -> zlen (extend_bits w fill bs) = w.
Proof.
  intros Hw. unfold extend_bits. destruct (Z.ltb_spec (zlen bs) w).
  - rewrite (proj2 (Z.ltb_ge _ _)); unfold zlen in *; rewrite length_app, length_replicate; lia.
  - destruct (Z.ltb_spec w (zlen bs)); [|lia].
    unfold zlen in *. rewrite length_last_n; lia.
Qed.

Lemma lv_width_nonneg v : 0 <= lv_width v.
Proof. unfold lv_width. destruct (Z.ltb_spec 0 (width v)); unfold zlen; lia. Qed.

Lemma lv_width_small v : small v -> lv_width v <= 64.
Proof. intros [A B]. unfold lv_width. by case_if. Qed.

Lemma bitwise_char_known op a b :
  bit_unknown a || bit_unknown b = false -> is_bit (bitwise_char op a b) = true.
Proof. intros H. unfold bitwise_char. rewrite H. by case_if. Qed.

Lemma bitwise_fine a b op : small a -> small b -> fine (Ret (bitwise a b op)).
Proof.
  intros Ha Hb. eexists; split; [done|]. unfold bitwise.
  pose proof (lv_width_nonneg a). pose proof (lv_width_nonneg b).
  pose proof (lv_width_small a Ha). pose proof (lv_width_small b Hb).
  set (w := Z.max (lv_width a) (lv_width b)). set (ps := zip _ _). split; [split; simpl; [lia|]|].
  - unfold zlen. rewrite List.length_map. unfold ps.
    transitivity (zlen (extend_bits w (if known a then "0"%char else "x"%char) (bits a))).
    + unfold zlen. rewrite length_zip_with. lia.
    + rewrite extend_bits_length; lia.
  - unfold sound. simpl. clearbody ps. induction ps as [|[ca cb] ps IH]; simpl; [done|].
    intros K. apply negb_true_iff, orb_false_iff in K as [K1 K2].
    rewrite bitwise_char_known by done. apply IH. by rewrite K2.
Qed.

Lemma arith_width_small a b : small a -> small b -> arith_width a b <= 64.
Proof. intros [A1 A2] [B1 B2]. unfold arith_width. repeat case_if; lia. Qed.

Lemma arith_fine a b op : small a -> small b -> fine (arith a b op).
Proof.
  intros Ha Hb. pose proof (arith_width_small a b Ha Hb). unfold arith. case_if.
  - eexists; split; [done|]. split; [split; simpl; [done|]|done]. rewrite zlen_replicate. lia.
  - by apply from_u64_fine.
Qed.

Lemma cmp_fine a b op : fine (cmp a b op).
Proof. unfold cmp. case_if; [apply unknown_bool_fine|apply from_bool_fine]. Qed.

Lemma eq_fine a b op : fine (eq_values a b op).
Proof. unfold eq_values. case_if; [apply unknown_bool_fine|apply from_bool_fine]. Qed.

Lemma invert_bits bs : forallb is_bit (invert bs) = true.
Proof. unfold invert. induction bs as [|c bs IH]; simpl; [done|]. rewrite IH. by case_if. Qed.

Lemma invert_fine v : small v -> fine (Ret (MkLV (invert (bits v)) (width v) true false false)).
Proof.
  intros [A B]. eexists; split; [done|]. split; [split; simpl; [done|]|intros _; apply invert_bits].
  unfold zlen, invert in *. by rewrite List.length_map.
Qed.

Lemma reduce_fine v op : small v -> fine (reduce v op).
Proof.
  intros Hv. unfold reduce. repeat case_if; try apply unknown_bool_fine; try apply from_bool_fine.
  - destruct (logical_truth v); apply unknown_bool_fine || apply from_bool_fine.
  - by apply invert_fine.
Qed.

Lemma eval_unary_fine op v : small v -> sound v -> fine (eval_unary op v).
Proof.
  intros Hv Hs. unfold eval_unary. repeat case_if.
  - eexists; split; [done|]. destruct Hv. split; [split; simpl; [done|]|done].
    rewrite zlen_replicate. lia.
  - by apply invert_fine.
  - by exists v.
  - destruct (from_u64_fine 0 (width v)) as (n & -> & Hn & _); [apply Hv|].
    by apply arith_fine.
  - by apply reduce_fine.
Qed.

Lemma eval_binary_fine op l r : small l -> small r -> fine (eval_binary op l r).
Proof.
  intros Hl Hr. unfold eval_binary, logical_and, logical_or, wildcard_case_eq.
  repeat case_if; repeat case_match;
    auto using bitwise_fine, arith_fine, cmp_fine, eq_fine, from_bool_fine, unknown_bool_fine.
  eexists; split; [done|]. by repeat split; vm_compute.
Qed.

(** ** Bit selects *)

Lemma slice_chars_sub bs i n :
  (Z.of_nat n <= i + 1) -> i < zlen bs ->
  slice_chars bs (zlen bs) i n = take n (drop (Z.to_nat (zlen bs - 1 - i)) bs).
Proof.
  revert i. induction n as [|n IH]; intros i Hn Hi; [done|]. cbn [slice_chars].
  rewrite IH by lia. rewrite (proj2 (Z.leb_le _ _)), (proj2 (Z.ltb_lt _ _)) by lia. cbn [andb].
  unfold zlen in *. set (k := Z.to_nat (Z.of_nat (length bs) - 1 - i)).
  replace (Z.to_nat (Z.of_nat (length bs) - 1 - (i - 1))) with (S k) by lia.
  destruct (lookup_lt_is_Some_2 bs k) as [c Hc]; [lia|]. rewrite Hc. simpl.
  by rewrite (drop_S _ _ _ Hc).
Qed.

Lemma length_slice_chars bs w i n : length (slice_chars bs w i n) = n.
Proof. revert i. induction n; intros; simpl; auto. Qed.

Lemma slice_chars_bits bs w i n : w = zlen bs -> forallb is_bit bs = true ->
  forallb is_bit (slice_chars bs w i n) = true.
Proof.
  intros -> Hb. revert i. induction n as [|n IH]; intros i; simpl; [done|]. rewrite IH, andb_true_r.
  case_if; [|done]. destruct (bs !! _) eqn:E; [|done]. simpl.
  apply forallb_Forall in Hb. by apply (Forall_lookup_1 _ _ _ _ Hb E).
Qed.

Lemma slice_value_fine v bs m l : zlen bs <= 64 -> (known v = true -> forallb is_bit bs = true) ->
  fine (Ret (slice_value v bs m l)).
Proof.
  intros Hl Hk. eexists; split; [done|]. unfold slice_value. pose proof (zlen_nonneg bs).
  destruct (Z.ltb_spec m l);
    (split; [split; simpl; [|unfold zlen; rewrite length_slice_chars]
            |unfold sound; simpl; intros K; by apply slice_chars_bits, Hk]);
    repeat match goal with
      | |- context [if ?a <? ?b then _ else _] => destruct (Z.ltb_spec a b)
      | |- context [if ?a <=? ?b then _ else _] => destruct (Z.leb_spec a b)
      end; unfold zlen in *; lia.
Qed.

(** ** The whole evaluator *)

Fixpoint safe_expr (e : ExprNode) : Prop :=
  match e with
  | ESignal _ => True
  | ESlice _ m l => in_int m = true /\ in_int l = true /\ l <= m <= l + 63
  | EConst v => small v /\ sound v
  | EUnary _ r => safe_expr r
  | EBinary _ l r => safe_expr l /\ safe_expr r
  end.

(** No sampled signal is wider than the evaluator's 64-bit arithmetic. *)
Definition narrow (env : bytes -> reading) : Prop :=
  forall p s info, env p = (true, Some s, info) ->
    zlen (text (sv_value s)) <= 64 /\ i32 (si_width (default si_default info)) <= 64.

Lemma from_bits_small bs w : zlen bs <= 64 -> w <= 64 ->
  small (logic_value_from_bits bs w) /\ sound (logic_value_from_bits bs w).
Proof.
  intros Hb Hw. split; [split|].
  - unfold logic_value_from_bits.
    destruct (foldl_classify_proj (MkLV bs w true false false) bs) as [_ E]. simpl in E.
    case_if; simpl; lia.
  - by rewrite from_bits_bits.
  - intros K. by rewrite from_bits_bits, <- (from_bits_known bs w).
Qed.

Lemma leaf_of_fine env p sel : narrow env ->
  match sel with Some (m, l) => in_int m = true /\ in_int l = true /\ l <= m <= l + 63 | None => True end ->
  fine (leaf_of sel (env p)).
Proof.
  intros Hn Hs. unfold leaf_of. destruct (env p) as [[[] [s|]] info] eqn:E.
  - destruct (Hn p s info E) as [A B]. destruct (from_bits_small _ _ A B) as [C D].
    destruct sel as [[m l]|]; [apply slice_value_fine; [done|by rewrite from_bits_known]|].
    by eexists.
  - destruct sel as [[m l]|]; cbn [mbind res_bind].
    + destruct Hs as (I1 & I2 & I3). unfold in_int, int_min, int_max in *. bsplit.
      unfold int_op, in_int, int_min, int_max.
      rewrite !(proj2 (Z.leb_le _ _)) by lia. cbn [andb mbind res_bind].
      rewrite !(proj2 (Z.leb_le _ _)) by lia. cbn [andb mbind res_bind].
      unfold x_string. rewrite (proj2 (Z.ltb_ge _ _)) by lia. cbn [mbind res_bind].
      eexists; split; [done|]. split; [split; simpl; [lia|rewrite zlen_replicate; lia]|done].
    + eexists; split; [done|]. by repeat split; vm_compute.
  - eexists; split; [done|]. by repeat split; vm_compute.
  - eexists; split; [done|]. by repeat split; vm_compute.
Qed.

Lemma eval_ref_fine env e : narrow env -> safe_expr e -> fine (eval_ref env e).
Proof.
  intros Hn. induction e as [s|s m l|v|op r IHr|op a IHa b IHb]; intros He; cbn [eval_ref safe_expr] in *.
  - by apply leaf_of_fine.
  - by apply leaf_of_fine.
  - destruct He. by exists v.
  - destruct (IHr He) as (v & -> & ? & ?). by apply eval_unary_fine.
  - destruct He as [Ha Hb]. destruct (IHa Ha) as (va & -> & ? & ?).
    destruct (IHb Hb) as (vb & -> & ? & ?). by apply eval_binary_fine.
Qed.

(** ** Claims *)

(** C1: evaluating a tree through the stateful backend returns exactly what the
    pure reference semantics assigns to it (value, undefined behaviour or
    exception alike), and the backend's reads are unchanged afterwards. Without
    a memo table this holds for every tree. With a table, possibly shared with
    other trees, it holds when the table is consistent with the references [L]
    of all of them and references whose keys coincide read the same value; the
    table is then consistent again. Names without an opening bracket never
    share a key; a name written like a select, [a[3:0]], shares the key of that
    select of [a], and the table cannot tell them apart. *)
Theorem eval_refines_reference {W} `{WaveformLaws W} k L e (w : W) ti samples pt :
  leaf_list e ⊆ L -> samples = None \/ keys_agree (env_of w ti pt) L ->
  wave_ok (leaves e + S k) w -> memo_ok (env_of w ti pt) L samples ->
  refines_at k (env_of w ti pt) L ti pt samples (eval_ref (env_of w ti pt) e)
    (eval_expression e w ti samples pt).
Proof. intros. by apply eval_refines_env. Qed.

Definition sample_wave : const_wave :=
  [(lit "a", lit "0110"); (lit "top.b", lit "1x01")].

Definition value_of {W} (r : res (LogicValue * W * memo)) : option LogicValue :=
  match r with Ret (v, _, _) => Some v | _ => None end.

Lemma eval_refines_reference_witness :
  let e := EBinary (lit "+") (ESignal (lit "a")) (ESlice (lit "a") 2 1) in
  let env := env_of sample_wave 0 Raw in
  refines_at 0 env (leaf_list e) 0 Raw (Some ∅) (eval_ref env e) (eval_expression e sample_wave 0 (Some ∅) Raw) /\
  value_of (eval_expression e sample_wave 0 (Some ∅) Raw)
    = Some (MkLV (lit "1001") 4 true false false).
Proof.
  intros e env. split; [|vm_compute; reflexivity].
  apply (eval_refines_reference 0 (leaf_list e) e sample_wave 0 (Some ∅) Raw); [done| |exact I|].
  - right. apply brackets_free_agree. repeat constructor.
  - intros m s sel v [= <-] _ Hl. by rewrite lookup_empty in Hl.
Defined.

(** Where a name reads differently from the select it is written like, the
    table gives one of them the value of the other. *)
Definition bracket_wave : const_wave := [(lit "a", lit "0110"); (lit "a[0:0]", lit "1")].
Lemma bracketed_name_shares_key :
  let e := EBinary (lit "==") (ESignal (lit "a[0:0]")) (ESlice (lit "a") 0 0) in
  leaf_key (lit "a[0:0]") None = leaf_key (lit "a") (Some (0, 0)) /\
  bits <$> value_of (eval_expression e bracket_wave 0 None Raw) = Some (lit "0") /\
  bits <$> value_of (eval_expression e bracket_wave 0 (Some ∅) Raw) = Some (lit "1").
Proof. by vm_compute. Qed.

(** C13: with every constant and sampled signal at most 64 bits wide, constants
    flagged known made of 0 and 1 only, and every bit select written high to
    low, with [int] bounds and at most 64 bits wide, evaluation is defined (no over-wide shift, no signed overflow, no
    exception), its result again fits in 64 bits, and whenever the result is
    flagged known every one of its characters is 0 or 1. This holds for every
    such tree without a memo table, and with a consistent table when references
    whose keys coincide read the same value. *)
Theorem eval_defined_and_sound {W} `{WaveformLaws W} k L e (w : W) ti samples pt :
  leaf_list e ⊆ L -> samples = None \/ keys_agree (env_of w ti pt) L ->
  wave_ok (leaves e + S k) w -> memo_ok (env_of w ti pt) L samples ->
  safe_expr e -> narrow (env_of w ti pt) ->
  exists v w' samples', eval_expression e w ti samples pt = Ret (v, w', samples') /\
    width v <= 64 /\ zlen (bits v) <= 64 /\
    (known v = true -> forallb is_bit (bits v) = true).
Proof.
  intros Hb Hk Hw Hm Hs Hn. pose proof (eval_refines_env (env_of w ti pt) L e k w ti samples pt Hb Hk Hw
    (fun p => eq_refl) Hm) as R.
  destruct (eval_ref_fine _ e Hn Hs) as (v & Hv & [A B] & C).
  destruct (eval_expression e w ti samples pt) as [[[v' w'] s']| |x]; cbn [refines_at] in R.
  - destruct R as (R & _). rewrite Hv in R. injection R as <-. eauto 10.
  - congruence.
  - congruence.
Qed.

Lemma const_wave_narrow (w : const_wave) ti pt :
  Forall (fun pb => zlen (snd pb) <= 64) w -> narrow (env_of w ti pt).
Proof.
  intros Hw p s info E. unfold env_of, read in E. cbn [find_signal const_wave_backend] in E.
  cbn [sampled_value_at signal_info const_wave_backend] in E.
  destruct (w !! Z.to_nat (const_index 1 w p - 1)) as [[q bs]|] eqn:El; [|done].
  pose proof (Forall_lookup_1 _ _ _ _ Hw El) as H. simpl in H.
  injection E as _ <- <-. simpl. split; [done|].
  rewrite i32_small; unfold zlen, int_min, int_max in *; lia.
Qed.

Lemma eval_defined_and_sound_witness :
  exists v w' s', eval_expression (EBinary (lit "&&") (ESlice (lit "a") 2 1) (ESignal (lit "zz")))
      sample_wave 0 None Raw = Ret (v, w', s') /\
    width v <= 64 /\ zlen (bits v) <= 64 /\ (known v = true -> forallb is_bit (bits v) = true).
Proof.
  apply (eval_defined_and_sound (W := const_wave) 0 (leaf_list (EBinary (lit "&&") (ESlice (lit "a") 2 1) (ESignal (lit "zz")))));
    [done|by left|exact I|by intros ?| |].
  - split; [split; [reflexivity|split; [reflexivity|lia]]|exact I].
  - apply const_wave_narrow. repeat constructor; vm_compute; discriminate.
Defined.

(** On known operands of at most 64 bits and a result width in 1..64,
    [arith] computes the unbounded integer result reduced modulo [2^width]
    (division and remainder by zero give zero, shift amounts are taken
    modulo 64). *)
Theorem arith_exact a b op :
  known a = true -> known b = true -> zlen (bits a) <= 64 -> zlen (bits b) <= 64 ->
  0 < arith_width a b <= 64 ->
  exists v, arith a b op = Ret v /\ known v = true /\ width v = arith_width a b /\
    zlen (bits v) = arith_width a b /\
    bits_val (bits v) = arith_spec op (bits_val (bits a)) (bits_val (bits b)) mod 2 ^ arith_width a b.
Proof.
  intros Ka Kb La Lb Hw. unfold arith. rewrite Ka, Kb. cbn [negb orb].
  rewrite from_u64_eq, (proj2 (Z.leb_le _ _)) by lia. eexists; split; [done|]. cbn [known width bits].
  rewrite (proj2 (Z.ltb_lt 0 _)) by lia.
  destruct (digit_bits_spec (arith_u64 op (to_u64 a) (to_u64 b)) (Z.to_nat (arith_width a b)))
    as (_ & L & V).
  repeat split; [unfold zlen; rewrite L; lia|].
  rewrite V, Z2Nat.id by lia. rewrite !to_u64_exact by done.
  apply arith_u64_spec; try lia; apply bits_val_range.
Qed.

Lemma arith_exact_witness :
  exists v, arith (logic_value_from_bits (lit "0011") 4) (logic_value_from_bits (lit "0101") 4) (lit "-")
    = Ret v /\ bits_val (bits v) = (3 - 5) mod 2 ^ 4.
Proof.
  destruct (arith_exact (logic_value_from_bits (lit "0011") 4) (logic_value_from_bits (lit "0101") 4)
    (lit "-") eq_refl eq_refl ltac:(vm_compute; discriminate) ltac:(vm_compute; discriminate)
    ltac:(vm_compute; split; [reflexivity|discriminate])) as (v & E & _ & _ & _ & V).
  exists v. split; [exact E|exact V].
Defined.

(** Kleene's strong three-valued connectives. *)
Definition kleene_not (t : LogicalTruth) : LogicalTruth :=
  match t with LFalse => LTrue | LTrue => LFalse | LUnknown => LUnknown end.
Definition kleene_and (a b : LogicalTruth) : LogicalTruth :=
  match a, b with
  | LFalse, _ | _, LFalse => LFalse | LTrue, LTrue => LTrue | _, _ => LUnknown
  end.
Definition kleene_or (a b : LogicalTruth) : LogicalTruth :=
  kleene_not (kleene_and (kleene_not a) (kleene_not b)).

(** [!], [&&] and [||] implement Kleene's strong three-valued logic on the
    truth of their operands, where a vector is true when some bit is 1, false
    when all are 0, and unknown otherwise; the result is a one-bit value. *)
Theorem logical_ops_kleene l r :
  (exists v, eval_binary (lit "&&") l r = Ret v /\ width v = 1 /\
     logical_truth v = kleene_and (logical_truth l) (logical_truth r)) /\
  (exists v, eval_binary (lit "||") l r = Ret v /\ width v = 1 /\
     logical_truth v = kleene_or (logical_truth l) (logical_truth r)) /\
  (exists v, eval_unary (lit "!") l = Ret v /\ width v = 1 /\
     logical_truth v = kleene_not (logical_truth l)).
Proof.
  unfold eval_binary, eval_unary, reduce, logical_and, logical_or. cbn -[logical_truth].
  repeat split; destruct (logical_truth l), (logical_truth r);
    eexists; (split; [reflexivity|split; reflexivity]).
Qed.

(** [==] decides equality of values: on known operands of any lengths it
    returns the bit 1 exactly when their unsigned values agree, and [!=] the
    opposite; with an unknown operand both return a single X. *)
Theorem eq_decides_value a b :
  sound a -> sound b ->
  if known a && known b then
    eq_values a b (lit "==") = from_bool (bits_val (bits a) =? bits_val (bits b)) /\
    eq_values a b (lit "!=") = from_bool (negb (bits_val (bits a) =? bits_val (bits b)))
  else eq_values a b (lit "==") = Ret unknown_bool /\ eq_values a b (lit "!=") = Ret unknown_bool.
Proof.
  intros Sa Sb. unfold eq_values.
  change (eqs (lit "==") (lit "===") || eqs (lit "==") (lit "!==")) with false.
  change (eqs (lit "!=") (lit "===") || eqs (lit "!=") (lit "!==")) with false.
  destruct (known a) eqn:Ka, (known b) eqn:Kb; cbn [negb orb andb]; try done.
  assert (padded_equal (bits a) (bits b) = (bits_val (bits a) =? bits_val (bits b))) as ->; [|done].
  unfold padded_equal. set (n := Nat.max _ _).
  pose proof (bits_val_zeros (n - length (bits a)) (bits a)) as Va.
  pose proof (bits_val_zeros (n - length (bits b)) (bits b)) as Vb.
  destruct (Z.eqb_spec (bits_val (bits a)) (bits_val (bits b))) as [E|E].
  - apply eqs_true. apply bits_val_inj.
    + rewrite forallb_app, forallb_replicate, (Sa Ka) by done. done.
    + rewrite forallb_app, forallb_replicate, (Sb Kb) by done. done.
    + rewrite !length_app, !length_replicate. lia.
    + congruence.
  - apply eqs_false. intros E'. apply E. congruence.
Qed.

Lemma eq_decides_value_witness :
  eq_values (logic_value_from_bits (lit "0101") 4) (logic_value_from_bits (lit "101") 3) (lit "==")
    = from_bool true.
Proof.
  exact (proj1 (eq_decides_value (logic_value_from_bits (lit "0101") 4)
    (logic_value_from_bits (lit "101") 3) (fun _ => eq_refl) (fun _ => eq_refl))).
Defined.

(** A bit select [\[msb:lsb\]] inside a vector takes exactly the characters
    of those bit positions, MSB first: its value is the vector's value
    shifted right by [lsb] modulo [2^(msb-lsb+1)], and swapped bounds select
    the same bits. *)
Theorem slice_selects v bs msb lsb :
  0 <= lsb <= msb -> msb < zlen bs ->
  let s := slice_value v bs msb lsb in
  bits s = take (Z.to_nat (msb - lsb + 1)) (drop (Z.to_nat (zlen bs - 1 - msb)) bs) /\
  width s = msb - lsb + 1 /\
  bits_val (bits s) = (bits_val bs / 2 ^ lsb) mod 2 ^ (msb - lsb + 1) /\
  slice_value v bs lsb msb = s.
Proof.
  intros Hl Hm. cbn zeta. unfold slice_value.
  assert (forall x y, x <= y -> (if y <? x then (x, y) else (y, x)) = (y, x)) as E1
    by (intros x y ?; destruct (Z.ltb_spec y x); [lia|done]).
  assert ((if lsb <? msb then (msb, lsb) else (lsb, msb)) = (msb, lsb)) as E2.
  { destruct (Z.ltb_spec lsb msb); [done|]. assert (lsb = msb) as -> by lia. done. }
  rewrite E1, E2 by lia. rewrite (proj2 (Z.leb_gt _ _)), (proj2 (Z.ltb_ge _ _)) by lia.
  cbn [bits width]. rewrite slice_chars_sub by lia.
  repeat split; try done.
  set (n := Z.to_nat (msb - lsb + 1)). set (k := Z.to_nat (zlen bs - 1 - msb)).
  assert (Z.of_nat n = msb - lsb + 1 /\ Z.of_nat k = zlen bs - 1 - msb) as [Hn Hk] by lia.
  clearbody n k.
  assert (forall x y, bits_val (x ++ y) = bits_val x * 2 ^ zlen y + bits_val y) as App.
  { intros x y. unfold bits_val at 1. rewrite foldl_app, bits_val_acc. done. }
  unfold zlen in *.
  assert (bits_val bs = bits_val (take k bs) * 2 ^ (msb + 1) +
          (bits_val (take n (drop k bs)) * 2 ^ lsb + bits_val (drop n (drop k bs)))) as EV.
  { pose proof (App (take k bs) (drop k bs)) as A1. rewrite take_drop in A1.
    pose proof (App (take n (drop k bs)) (drop n (drop k bs))) as A2. rewrite take_drop in A2.
    unfold zlen in A1, A2. rewrite length_drop in A1. rewrite !length_drop in A2.
    replace (Z.of_nat (length bs - k)) with (msb + 1) in A1 by lia.
    replace (Z.of_nat (length bs - k - n)) with lsb in A2 by lia.
    lia. }
  pose proof (bits_val_range (take n (drop k bs))) as R1.
  pose proof (bits_val_range (drop n (drop k bs))) as R2. unfold zlen in R1, R2.
  rewrite length_take, length_drop in R1. rewrite !length_drop in R2.
  replace (Z.of_nat (n `min` (length bs - k))) with (msb - lsb + 1) in R1 by lia.
  replace (Z.of_nat (length bs - k - n)) with lsb in R2 by lia.
  rewrite EV. replace (2 ^ (msb + 1)) with (2 ^ (msb - lsb + 1) * 2 ^ lsb)
    by (rewrite <- Z.pow_add_r by lia; f_equal; lia).
  symmetry. rewrite Z.mul_assoc, Z.add_assoc, <- Z.mul_add_distr_r.
  rewrite Z.div_add_l, (Z.div_small (bits_val (drop n (drop k bs)))), Z.add_0_r by lia.
  rewrite Z.add_comm, Z_mod_plus_full. by apply Z.mod_small.
Qed.

Lemma slice_selects_witness :
  bits (slice_value lv_default (lit "1x0110") 2 1) = lit "11".
Proof.
  exact (proj1 (slice_selects lv_default (lit "1x0110") 2 1 ltac:(lia)
                  ltac:(vm_compute; reflexivity))).
Defined.

(** The flags of a bit select are those of the whole vector: selecting the
    known low bits of a vector with an X elsewhere gives a value whose
    characters are all 0 or 1 but which is flagged unknown, so comparing it
    with the very bits it holds yields X instead of 1. *)
Theorem slice_keeps_stale_flags :
  let env (p : bytes) : reading :=
    (true, Some (MkSV (MkWV BitVector (lit "x101") 0) 0 0 1 false),
     Some (MkSI BitVector 1 4 4 1 false)) in
  let e := ESlice (lit "a") 1 0 in
  (exists v, eval_ref env e = Ret v /\ bits v = lit "01" /\ known v = false) /\
  eval_ref env (EBinary (lit "==") e (EConst (logic_value_from_bits (lit "01") 2)))
    = Ret unknown_bool.
Proof. split; [eexists; vm_compute; auto|vm_compute; reflexivity]. Qed.

(** Relational comparison keeps only the low 64 bits of its operands: the
    65-bit value [2^64] compares as smaller than 1. *)
Theorem wide_compare_truncates :
  let a := logic_value_from_bits ("1"%char :: replicate 64 "0"%char) 65 in
  let b := logic_value_from_bits (lit "1") 1 in
  bits_val (bits a) = 2 ^ 64 /\ bits_val (bits b) = 1 /\ cmp a b (lit "<") = from_bool true.
Proof. vm_compute. auto. Qed.
