(* ===== verification/WellenApi.v ===== *)
(** * WellenApi: the waveform reader's C interface

    The waveform reader behind [WellenFstBackend] is the Wellen library,
    reached through two C interfaces ([wellen_capi.h], [wellenx_capi.h]). It
    is a parameter of the development: [WellenApi] lists the calls the backend
    makes, on an opaque database [D] and an opaque extension handle [X], and
    [WellenDoc] the behaviour their headers document. A null handle is never
    passed to a call of the class: the backend's definitions return what the
    interface documents for it (0, or the failure code). [mem_db] is a small
    in-memory reader that satisfies both. *)

From S2P Require Import Prelude CLib Waveform.

Open Scope Z_scope.

Inductive WellenSignalEncoding :=
  WELLEN_BITVECTOR | WELLEN_REAL | WELLEN_STRING | WELLEN_EVENT.

#[export] Instance WellenSignalEncoding_eq_dec : EqDecision WellenSignalEncoding.
Proof. solve_decision. Defined.

Record WellenSignalInfo := MkWI {
  wi_encoding : WellenSignalEncoding;
  wi_num_changes : Z;
  wi_max_states : Z;
  wi_width : Z;
  wi_bytes_per_entry : Z;
  wi_has_meta_byte : Z;
}.

(** The reply of [wellen_signal_typed_value_at_offset]: the return code and
    the out parameters, [tr_text] being the bytes written to the buffer. *)
Record TypedReply := MkTR {
  tr_result : Z;
  tr_text : bytes;
  tr_text_len : Z;
  tr_real : Z;
  tr_encoding : WellenSignalEncoding;
}.

Class WellenApi (D X : Type) := {
  file_exists : bytes -> bool;
  wellen_open : bytes -> option D;
  wellenx_open : bytes -> option X;
  wellen_get_times : D -> list Z;
  wellen_timescale : D -> option (Z * Z);
  wellen_scope_count : D -> Z;
  wellen_scope_at : D -> Z -> Z;
  wellen_scope_var_count : D -> Z -> Z;
  wellen_scope_var_at : D -> Z -> Z -> Z;
  wellen_scope_name : D -> Z -> option bytes;
  wellen_scope_full_name : D -> Z -> option bytes;
  wellen_scope_component : D -> Z -> option bytes;
  wellen_var_name : D -> Z -> option bytes;
  wellen_var_full_name : D -> Z -> option bytes;
  wellen_var_signal_ref : D -> Z -> Z;
  wellen_var_encoding : D -> Z -> WellenSignalEncoding * Z;
  wellen_var_index : D -> Z -> option (Z * Z);
  wellen_load_signals : D -> list Z -> Z * D;
  wellenx_load_signals : X -> list Z -> X;
  wellen_unload_signals : D -> list Z -> D;
  wellenx_unload_signals : X -> list Z -> X;
  wellen_signal_info : D -> Z -> option WellenSignalInfo;
  wellen_signal_offset_at : D -> Z -> Z -> option SignalOffset;
  wellen_signal_value_at_offset : D -> Z -> Z -> Z -> option bytes;
  wellen_signal_typed_value_at_offset : D -> Z -> Z -> Z -> Z -> TypedReply;
  wellenx_signal_time_indices : X -> Z -> option (list Z);
  (** [std::ostringstream << std::setprecision(17)] of a [double]. *)
  print_real : Z -> bytes;
}.

(** ** What an offset lookup means

    For the sorted time indices of a signal's changes: the group of changes
    at the latest index not after [ti], whether it is at [ti] itself, and
    where the next change is. *)

Definition count_le (l : list Z) (t : Z) : nat := length (filter (fun x => x <= t) l).
Definition count_lt (l : list Z) (t : Z) : nat := length (filter (fun x => x < t) l).

Definition offset_spec (l : list Z) (ti : Z) : option SignalOffset :=
  match count_le l ti with
  | O => None
  | S m =>
      t ← l !! m;
      Some (MkSO (Z.of_nat (count_lt l t)) (Z.of_nat (S m - count_lt l t)) (t =? ti)
        (default 0 (l !! S m)) (bool_decide (is_Some (l !! S m))))
  end.

(** ** Documented behaviour *)

Definition sorted_idx (l : list Z) : Prop :=
  forall i j x y, (i <= j)%nat -> l !! i = Some x -> l !! j = Some y -> x <= y.

(** Fewer than 2^16 changes share a time index and fewer than 2^31 changes
    are recorded, the widths the interface counts them with. *)
Definition idx_sized (l : list Z) : Prop :=
  zlen l < 2 ^ 31 /\ forall t, Z.of_nat (length (filter (fun x => x = t) l)) < 2 ^ 16.

Class WellenDoc (D X : Type) `{WellenApi D X} := {
  (** The change recorded at an ordinal of a loaded signal. *)
  stored : D -> Z -> Z -> option (WellenSignalEncoding * bytes * Z);
  (** The reader answers for both handles from one file. *)
  paired : D -> X -> Prop;
  (** Two databases over one file, possibly with different signals loaded. *)
  same_file : D -> D -> Prop;

  typed_reply : forall d ref start element cap, 0 <= start -> 0 <= element ->
    wellen_signal_typed_value_at_offset d ref start element cap =
    match stored d ref (start + element) with
    | None => MkTR (-1) [] 0 0 WELLEN_BITVECTOR
    | Some (enc, text, real) =>
        if cap <? zlen text then MkTR (-2) [] (zlen text) real enc
        else MkTR 0 text (zlen text) real enc
    end;
  indices_ok : forall d x ref i, paired d x -> wellen_signal_info d ref = Some i ->
    exists l, wellenx_signal_time_indices x ref = Some l /\
      zlen l = wi_num_changes i /\ sorted_idx l /\ idx_sized l /\
      (forall n, is_Some (stored d ref n) <-> 0 <= n < zlen l) /\
      (forall ti, wellen_signal_offset_at d ref ti = offset_spec l ti);
  unloaded : forall d ref ti, wellen_signal_info d ref = None ->
    wellen_signal_offset_at d ref ti = None /\ forall n, stored d ref n = None;
  invalid_ref : forall d, wellen_signal_info d 0 = None;

  open_paired : forall p d x, wellen_open p = Some d -> wellenx_open p = Some x -> paired d x;
  load_paired : forall d x refs, paired d x ->
    paired (snd (wellen_load_signals d refs)) (wellenx_load_signals x refs);
  unload_paired : forall d x refs, paired d x ->
    paired (wellen_unload_signals d refs) (wellenx_unload_signals x refs);

  same_file_load : forall d refs, same_file d (snd (wellen_load_signals d refs));
  same_file_unload : forall d refs, same_file d (wellen_unload_signals d refs);
  same_scopes : forall d d', same_file d d' ->
    wellen_scope_count d' = wellen_scope_count d /\
    (forall i, wellen_scope_at d' i = wellen_scope_at d i) /\
    (forall s, wellen_scope_var_count d' s = wellen_scope_var_count d s) /\
    (forall s i, wellen_scope_var_at d' s i = wellen_scope_var_at d s i);
  same_vars : forall d d' v, same_file d d' ->
    wellen_var_name d' v = wellen_var_name d v /\
    wellen_var_full_name d' v = wellen_var_full_name d v /\
    wellen_var_signal_ref d' v = wellen_var_signal_ref d v /\
    wellen_var_encoding d' v = wellen_var_encoding d v /\
    wellen_var_index d' v = wellen_var_index d v;
  load_keeps : forall d x refs ref i, paired d x -> wellen_signal_info d ref = Some i ->
    wellen_signal_info (snd (wellen_load_signals d refs)) ref = Some i /\
    (forall n, stored (snd (wellen_load_signals d refs)) ref n = stored d ref n) /\
    wellenx_signal_time_indices (wellenx_load_signals x refs) ref =
      wellenx_signal_time_indices x ref;
  unload_keeps : forall d x refs ref i, paired d x -> ref ∉ refs ->
    wellen_signal_info d ref = Some i ->
    wellen_signal_info (wellen_unload_signals d refs) ref = Some i /\
    (forall n, stored (wellen_unload_signals d refs) ref n = stored d ref n) /\
    wellenx_signal_time_indices (wellenx_unload_signals x refs) ref =
      wellenx_signal_time_indices x ref;
  (** Signal references are 1-based and leave the top bit free; a bit range
      is a low index with a positive 32-bit width. *)
  signal_ref_range : forall d v, 0 <= wellen_var_signal_ref d v < 2 ^ 31;
  var_index_range : forall d v m l, wellen_var_index d v = Some (m, l) ->
    i64_min <= m <= i64_max /\ i64_min <= l <= i64_max;
  var_width_range : forall d v, 0 <= snd (wellen_var_encoding d v) <= u32_max;
}.

(** ** A reader over an in-memory file

    One scope whose variables are the list's entries; signal [k] (1-based)
    is the one of variable [k]. [mem_loaded] is the set of loaded signals. *)

Record mem_var := MkMV {
  mv_full : bytes;
  mv_name : bytes;
  mv_enc : WellenSignalEncoding;
  mv_width : Z;
  mv_index : option (Z * Z);
  mv_changes : list (Z * (bytes * Z));
}.

Record mem_db := MkMem {
  mem_times : list Z;
  mem_vars : list mem_var;
  mem_loaded : list Z;
}.

Definition mem_find (d : mem_db) (ref : Z) : option mem_var :=
  if ref <? 1 then None else mem_vars d !! Z.to_nat (ref - 1).
Definition mem_signal (d : mem_db) (ref : Z) : option mem_var :=
  if bool_decide (ref ∈ mem_loaded d) then mem_find d ref else None.

Definition mem_load (d : mem_db) (refs : list Z) : mem_db :=
  MkMem (mem_times d) (mem_vars d) (refs ++ mem_loaded d).
Definition mem_unload (d : mem_db) (refs : list Z) : mem_db :=
  MkMem (mem_times d) (mem_vars d) (filter (fun r => r ∉ refs) (mem_loaded d)).

Definition mem_stored (d : mem_db) (ref n : Z) : option (WellenSignalEncoding * bytes * Z) :=
  v ← mem_signal d ref;
  if n <? 0 then None
  else '(_, (text, real)) ← mv_changes v !! Z.to_nat n; Some (mv_enc v, text, real).

(** The files the witnesses open. *)
Definition demo_vars : list mem_var :=
  [MkMV (lit "top.clk") (lit "clk") WELLEN_BITVECTOR 1 None
     [(0, (lit "0", 0)); (1, (lit "1", 0)); (2, (lit "0", 0)); (3, (lit "1", 0))];
   MkMV (lit "top.Bus") (lit "Bus") WELLEN_BITVECTOR 4 (Some (3, 0))
     [(0, (lit "0000", 0)); (1, (lit "0001", 0)); (2, (lit "0101", 0)); (2, (lit "0100", 0))];
   MkMV (lit "top.name") (lit "name") WELLEN_STRING 0 None [(1, (lit "idle", 0))]].
Definition demo_file : mem_db := MkMem [0; 5; 10; 15] demo_vars [].

#[export] Instance mem_api : WellenApi mem_db mem_db := {|
  file_exists p := eqs p (lit "demo.fst");
  wellen_open p := if eqs p (lit "demo.fst") then Some demo_file else None;
  wellenx_open p := if eqs p (lit "demo.fst") then Some demo_file else None;
  wellen_get_times := mem_times;
  wellen_timescale _ := Some (1, -9);
  wellen_scope_count _ := 1;
  wellen_scope_at _ i := if i =? 0 then 1 else 0;
  wellen_scope_var_count d s := if s =? 1 then zlen (mem_vars d) else 0;
  wellen_scope_var_at d s i :=
    if (s =? 1) && (0 <=? i) && (i <? zlen (mem_vars d)) then i + 1 else 0;
  wellen_scope_name _ s := if s =? 1 then Some (lit "top") else None;
  wellen_scope_full_name _ s := if s =? 1 then Some (lit "top") else None;
  wellen_scope_component _ _ := None;
  wellen_var_name d v := mv_name <$> mem_find d v;
  wellen_var_full_name d v := mv_full <$> mem_find d v;
  wellen_var_signal_ref d v :=
    if (1 <=? v) && (v <=? zlen (mem_vars d)) && (v <? 2 ^ 31) then v else 0;
  wellen_var_encoding d v :=
    match mem_find d v with Some m => (mv_enc m, u32 (mv_width m)) | None => (WELLEN_BITVECTOR, 0) end;
  wellen_var_index d v :=
    match mem_find d v ≫= mv_index with
    | Some (m, l) =>
        if (i64_min <=? m) && (m <=? i64_max) && (i64_min <=? l) && (l <=? i64_max)
        then Some (m, l) else None
    | None => None
    end;
  wellen_load_signals d refs := (zlen refs, mem_load d refs);
  wellenx_load_signals := mem_load;
  wellen_unload_signals := mem_unload;
  wellenx_unload_signals := mem_unload;
  wellen_signal_info d ref :=
    (fun v => MkWI (mv_enc v) (zlen (mv_changes v)) 2 (mv_width v) (mv_width v) 0)
      <$> mem_signal d ref;
  wellen_signal_offset_at d ref ti :=
    v ← mem_signal d ref; offset_spec (map fst (mv_changes v)) ti;
  wellen_signal_value_at_offset _ _ _ _ := None;
  wellen_signal_typed_value_at_offset d ref start element cap :=
    match mem_stored d ref (start + element) with
    | None => MkTR (-1) [] 0 0 WELLEN_BITVECTOR
    | Some (enc, text, real) =>
        if cap <? zlen text then MkTR (-2) [] (zlen text) real enc
        else MkTR 0 text (zlen text) real enc
    end;
  wellenx_signal_time_indices x ref := (fun v => map fst (mv_changes v)) <$> mem_signal x ref;
  print_real _ := lit "0";
|}.

(** Every signal of the file has sorted and countable change times. *)
Definition mem_ok (d : mem_db) : Prop :=
  Forall (fun v => sorted_idx (map fst (mv_changes v)) /\
                   idx_sized (map fst (mv_changes v))) (mem_vars d).

Lemma mem_signal_ok d ref v : mem_ok d -> mem_signal d ref = Some v ->
  sorted_idx (map fst (mv_changes v)) /\ idx_sized (map fst (mv_changes v)).
Proof.
  unfold mem_signal, mem_find. intros Hok Hv. repeat case_if_in Hv; try done.
  by apply (Forall_lookup_1 _ _ _ _ Hok Hv).
Qed.

Lemma mem_signal_load d refs ref v :
  mem_signal d ref = Some v -> mem_signal (mem_load d refs) ref = Some v.
Proof.
  unfold mem_signal. intros Hv. case_bool_decide; [|done].
  rewrite bool_decide_true; [done|]. cbn. set_solver.
Qed.

Lemma mem_signal_unload d refs ref v : ref ∉ refs ->
  mem_signal d ref = Some v -> mem_signal (mem_unload d refs) ref = Some v.
Proof.
  unfold mem_signal. intros Hr Hv. case_bool_decide; [|done].
  rewrite bool_decide_true; [done|]. cbn. by apply list_elem_of_filter.
Qed.

Lemma mem_stored_signal d d' ref : mem_signal d' ref = mem_signal d ref ->
  forall n, mem_stored d' ref n = mem_stored d ref n.
Proof. intros E n. unfold mem_stored. by rewrite E. Qed.

(** Sortedness and sizes are decidable on a concrete list. *)
Fixpoint sorted_b (l : list Z) : bool :=
  match l with
  | x :: (y :: _) as l' => (x <=? y) && sorted_b l'
  | _ => true
  end.

Lemma sorted_b_cons x l : sorted_b (x :: l) = true ->
  sorted_b l = true /\ forall j y, l !! j = Some y -> x <= y.
Proof.
  revert x. induction l as [|y l IH]; intros x Hs; [done|].
  cbn in Hs. apply andb_true_iff in Hs as [Hxy Hs]. split; [done|].
  intros [|j] z Hz; cbn in Hz; [injection Hz as <-; lia|].
  destruct (IH y Hs) as [_ Hy]. specialize (Hy j z Hz). lia.
Qed.

Lemma sorted_b_ok l : sorted_b l = true -> sorted_idx l.
Proof.
  induction l as [|x l IH]; intros Hs i j a b Hij Ha Hb; [done|].
  apply sorted_b_cons in Hs as [Hs Hx].
  destruct i as [|i], j as [|j]; cbn in Ha, Hb; [simplify_eq; lia| |lia|].
  - injection Ha as <-. by eapply Hx.
  - apply (IH Hs i j); (done || lia).
Qed.

Lemma idx_sized_small l : zlen l < 2 ^ 16 -> idx_sized l.
Proof.
  intros Hl. split; [lia|]. intros t.
  pose proof (length_filter (fun x => x = t) l). unfold zlen in Hl. lia.
Qed.

Lemma mem_ok_vars d vars : mem_vars d = vars ->
  forallb (fun v => sorted_b (map fst (mv_changes v)) && (zlen (mv_changes v) <? 2 ^ 16)) vars = true ->
  mem_ok d.
Proof.
  intros <- Hv. apply forallb_Forall in Hv. unfold mem_ok. revert Hv. apply Forall_impl.
  intros v [Hs Hl]%andb_true_iff. split; [by apply sorted_b_ok|].
  apply idx_sized_small. unfold zlen in *. rewrite length_map. lia.
Qed.

#[export, refine] Instance mem_doc : WellenDoc mem_db mem_db := {|
  stored := mem_stored;
  paired d x := d = x /\ mem_ok d;
  same_file d d' := mem_vars d' = mem_vars d;
|}.
Proof.
  all: cbn.
  - intros d ref start element cap _ _. done.
  - intros d x ref i [<- Hok] Hi. destruct (mem_signal d ref) as [v|] eqn:Hv; [|done].
    injection Hi as <-. exists (map fst (mv_changes v)). destruct (mem_signal_ok _ _ _ Hok Hv).
    split; [done|]. unfold zlen. rewrite length_map. split; [done|]. split; [done|]. split; [done|].
    split; [|done]. intros n. unfold mem_stored. rewrite Hv. cbn.
    destruct (Z.ltb_spec n 0); [split; [by intros [? ?]|lia]|].
    destruct (mv_changes v !! Z.to_nat n) as [[? [? ?]]|] eqn:E; cbn.
    + apply lookup_lt_Some in E. split; [lia|eauto].
    + apply lookup_ge_None in E. split; [by intros [? ?]|lia].
  - intros d ref ti Hi. unfold mem_stored. by destruct (mem_signal d ref).
  - intros d. unfold mem_signal, mem_find. by case_bool_decide.
  - intros p d x. case_if; [|done]. intros [= <-] [= <-].
    split; [done|]. by apply (mem_ok_vars _ demo_vars).
  - intros d x refs [<- Hok]. done.
  - intros d x refs [<- Hok]. done.
  - done.
  - done.
  - intros d d' E. by rewrite E.
  - intros d d' v E. unfold mem_find. by rewrite E.
  - intros d x refs ref i [<- Hok] Hi. destruct (mem_signal d ref) as [v|] eqn:Hv; [|done].
    rewrite (mem_signal_load _ refs _ _ Hv). split; [done|]. split; [|done].
    apply mem_stored_signal. by rewrite (mem_signal_load _ _ _ _ Hv).
  - intros d x refs ref i [<- Hok] Hr Hi. destruct (mem_signal d ref) as [v|] eqn:Hv; [|done].
    rewrite (mem_signal_unload _ refs _ _ Hr Hv). split; [done|]. split; [|done].
    apply mem_stored_signal. by rewrite (mem_signal_unload _ _ _ _ Hr Hv).
  - intros d v. case_if; [|lia]. bsplit. lia.
  - intros d v m l. destruct (mem_find d v ≫= mv_index) as [[a b]|]; [|done].
    case_if; [|done]. intros [= <- <-]. bsplit. lia.
  - intros d v. destruct (mem_find d v) as [m|]; cbn [snd]; [|unfold u32_max; lia].
    unfold u32, u32_max. pose proof (Z.mod_pos_bound (mv_width m) (2 ^ 32) eq_refl). lia.
Defined.
