(* ===== verification/WellenBackend.v ===== *)
(** * WellenBackend: the FST waveform backend

    Models [WellenFstBackend] ([src/backend/wellen_fst_backend.{h,cpp}]) over
    the reader interface of [WellenApi]. The state record has the class's
    fields; a [const] method that fills a mutable cache returns the updated
    state. [int64_t] differences of declared bit indices are written with
    their two's complement wrap. *)

From S2P Require Import Prelude CLib Waveform WellenApi.

Open Scope Z_scope.

(** ** Data *)

Record WaveformTimeScale := MkTS { factor : Z; exponent : Z }.
Definition ts_default : WaveformTimeScale := MkTS 0 0.

Record DeclaredRange := MkDR { dr_msb : Z; dr_lsb : Z; dr_width : Z }.

#[export] Instance DeclaredRange_eq_dec : EqDecision DeclaredRange.
Proof. solve_decision. Defined.

Record PackedSelection := MkPS {
  base_ref : Z;
  declared_msb : Z;
  declared_lsb : Z;
  selected_msb : Z;
  selected_lsb : Z;
  ps_width : Z;
}.

Record SelectedChange := MkSel { sel_time_idx : Z; sel_value : WaveformValue }.

Definition kInvalidSignalRef : Z := 0.
Definition kVirtualSignalFlag : Z := 0x80000000.

(** ** Pure helpers *)

(** [s.rfind(p, 0) == 0]. *)
Fixpoint starts_with (p s : bytes) : bool :=
  match p, s with
  | [], _ => true
  | a :: p', b :: s' => eqc a b && starts_with p' s'
  | _ :: _, [] => false
  end.

Definition has_fst_suffix (path : bytes) : bool :=
  (4 <=? zlen path) && eqs (last_n 4 path) (lit ".fst").

(** The erasing loop over [".["]: it resumes at the position of the erased
    dot. *)
Fixpoint drop_array_dots (s : bytes) : bytes :=
  match s with
  | [] => []
  | c :: s' =>
      if eqc c "."%char && match s' with d :: _ => eqc d "["%char | [] => false end
      then drop_array_dots s' else c :: drop_array_dots s'
  end.

Definition normalize_path (path : bytes) : bytes :=
  let out := lowercase path in
  let out := if starts_with (lit "top.") out then drop 4 out else out in
  drop_array_dots out.

Definition parse_signed_index (text : bytes) : option Z :=
  match text with
  | [] => None
  | _ =>
      let '(parsed, rest, erange) := strtoll 10 text in
      if erange || negb (eqs rest []) then None else Some parsed
  end.

(** [static_cast<uint64_t>(hi >= lo ? hi - lo + 1 : lo - hi + 1)]. *)
Definition range_width (a b : Z) : Z :=
  u64 (if b <=? a then i64 (a - b + 1) else i64 (b - a + 1)).

Fixpoint select_loop (fuel : nat) (sel : PackedSelection) (source selected : bytes)
    (step bit : Z) : option bytes :=
  let offset := u64 (if declared_lsb sel <=? declared_msb sel
                     then i64 (declared_msb sel - bit) else i64 (bit - declared_msb sel)) in
  if zlen source <=? offset then None else
  match source !! Z.to_nat offset with
  | None => None
  | Some c =>
      let selected := selected ++ [c] in
      if bit =? selected_lsb sel then Some selected
      else match fuel with
           | O => None
           | S f => select_loop f sel source selected step (bit + step)
           end
  end.

Definition select_packed_bits (sel : PackedSelection) (source : bytes) : option bytes :=
  if negb (range_width (declared_msb sel) (declared_lsb sel) =? zlen source) then None
  else
    let step := if selected_msb sel <=? selected_lsb sel then 1 else -1 in
    select_loop (Z.to_nat (Z.abs (selected_lsb sel - selected_msb sel))) sel source [] step
      (selected_msb sel).

(** The last position of [c] in [s] ([std::string::rfind]). *)
Fixpoint rfind (c : ascii) (s : bytes) : option nat :=
  match s with
  | [] => None
  | d :: s' =>
      match rfind c s' with
      | Some i => Some (S i)
      | None => if eqc d c then Some O else None
      end
  end.

(** [std::string::find] of a character. *)
Fixpoint find_char (c : ascii) (s : bytes) : option nat :=
  match s with
  | [] => None
  | d :: s' => if eqc d c then Some O else S <$> find_char c s'
  end.

Fixpoint back_to (times : list Z) (t : Z) (first : nat) : nat :=
  match first with
  | S f => if bool_decide (times !! f = Some t) then back_to times t f else first
  | O => O
  end.

Fixpoint forward_to (fuel : nat) (times : list Z) (t : Z) (last : nat) : nat :=
  match fuel with
  | O => last
  | S f => if bool_decide (times !! S last = Some t) then forward_to f times t (S last) else last
  end.

(** The number of entries directly before [ordinal] with time index [t],
    counted in a [uint16_t]. *)
Fixpoint delta_of (times : list Z) (t : Z) (ordinal : nat) : Z :=
  match ordinal with
  | S i => if bool_decide (times !! i = Some t) then u16 (delta_of times t i + 1) else 0
  | O => 0
  end.

Definition encoding_kind (e : WellenSignalEncoding) : ValueKind :=
  match e with
  | WELLEN_REAL => Real
  | WELLEN_STRING => VString
  | WELLEN_EVENT => Event
  | WELLEN_BITVECTOR => BitVector
  end.

(** [text.resize(n)]. *)
Definition resize (n : Z) (text : bytes) : bytes :=
  take (Z.to_nat n) text ++ replicate (Z.to_nat n - length text) (chr 0).

Section Backend.
Context {D X : Type} `{WellenApi D X}.

Record WellenFstBackend := MkW {
  db : option D;
  xdb : option X;
  time_table : list Z;
  time_scale : WaveformTimeScale;
  name_cache : gmap Z bytes;
  signal_index : gmap bytes Z;
  signal_index_built : bool;
  signal_index_build_count : Z;
  declared_ranges : gmap bytes DeclaredRange;
  packed_selection_index : gmap bytes Z;
  packed_selections : list PackedSelection;
  selected_change_cache : gmap Z (list SelectedChange);
}.

Definition initial : WellenFstBackend :=
  MkW None None [] ts_default ∅ ∅ false 0 ∅ ∅ [] ∅.

Definition set_handles (w : WellenFstBackend) (d : option D) (x : option X) : WellenFstBackend :=
  MkW d x (time_table w) (time_scale w) (name_cache w) (signal_index w)
    (signal_index_built w) (signal_index_build_count w) (declared_ranges w)
    (packed_selection_index w) (packed_selections w) (selected_change_cache w).
Definition set_cache (w : WellenFstBackend) (c : gmap Z (list SelectedChange)) : WellenFstBackend :=
  MkW (db w) (xdb w) (time_table w) (time_scale w) (name_cache w) (signal_index w)
    (signal_index_built w) (signal_index_build_count w) (declared_ranges w)
    (packed_selection_index w) (packed_selections w) c.
Definition set_names (w : WellenFstBackend) (n : gmap Z bytes) : WellenFstBackend :=
  MkW (db w) (xdb w) (time_table w) (time_scale w) n (signal_index w)
    (signal_index_built w) (signal_index_build_count w) (declared_ranges w)
    (packed_selection_index w) (packed_selections w) (selected_change_cache w).

(** *** Lifecycle *)

(** Releases both handles and clears every member. *)
Definition close (w : WellenFstBackend) : WellenFstBackend := initial.

Definition open (w : WellenFstBackend) (path : bytes) : bool * WellenFstBackend :=
  let w := close w in
  if negb (has_fst_suffix path) then (false, w)
  else if negb (file_exists path) then (false, w)
  else
    match wellen_open path with
    | None => (false, w)
    | Some d =>
        match wellenx_open path with
        | None => (false, set_handles w None None)
        | Some x =>
            let scale := match wellen_timescale d with
                         | Some (f, e) => MkTS f e
                         | None => time_scale w
                         end in
            (true, MkW (Some d) (Some x) (wellen_get_times d) scale (name_cache w)
               (signal_index w) (signal_index_built w) (signal_index_build_count w)
               (declared_ranges w) (packed_selection_index w) (packed_selections w)
               (selected_change_cache w))
        end
    end.

Definition is_open (w : WellenFstBackend) : bool := bool_decide (is_Some (db w)).

(** *** Time *)

Definition time_count (w : WellenFstBackend) : Z := u32 (zlen (time_table w)).

Definition time_at (w : WellenFstBackend) (idx : Z) : Z :=
  default 0 (time_table w !! Z.to_nat idx).

Definition min_time (w : WellenFstBackend) : Z := default 0 (list.head (time_table w)).
Definition max_time (w : WellenFstBackend) : Z := default 0 (list.last (time_table w)).

Definition time_idx_of (w : WellenFstBackend) (t : Z) : Z :=
  match time_table w with
  | [] => 0
  | _ =>
      match upper_bound (fun x => t <? x) (time_table w) with
      | O => 0
      | S i => u32 (Z.of_nat i)
      end
  end.

(** *** Names *)

Definition get_or_cache_name (w : WellenFstBackend) (ref : Z) (is_var full : bool)
    : bytes * WellenFstBackend :=
  let key := ref in
  let key := if is_var then Z.lor key 0x80000000 else key in
  let key := if full then Z.lor key 0x40000000 else key in
  match name_cache w !! key with
  | Some ((_ :: _) as s) => (s, w)
  | _ =>
      let cstr := d ← db w;
        if is_var then (if full then wellen_var_full_name d ref else wellen_var_name d ref)
        else wellen_scope_name d ref in
      let result := default [] cstr in
      (result, set_names w (<[key := result]> (name_cache w)))
  end.

(** [name_cache_\[key\]] inserts an empty string on a miss; [fill] is called
    when the entry is empty and its result assigned to it. *)
Definition name_entry (w : WellenFstBackend) (key : Z)
    (fill : WellenFstBackend -> bytes * WellenFstBackend) : bytes * WellenFstBackend :=
  let s := default [] (name_cache w !! key) in
  let w := set_names w (<[key := s]> (name_cache w)) in
  match s with
  | [] => let '(s, w) := fill w in (s, set_names w (<[key := s]> (name_cache w)))
  | _ => (s, w)
  end.

Definition scope_name (w : WellenFstBackend) (scope_ref : Z) : bytes * WellenFstBackend :=
  name_entry w scope_ref (fun w => get_or_cache_name w scope_ref false false).
Definition scope_full_name (w : WellenFstBackend) (scope_ref : Z) : bytes * WellenFstBackend :=
  name_entry w (Z.lor scope_ref 0x40000000)
    (fun w => (default [] (d ← db w; wellen_scope_full_name d scope_ref), w)).
Definition scope_component (w : WellenFstBackend) (scope_ref : Z) : bytes * WellenFstBackend :=
  name_entry w (Z.lor scope_ref 0x20000000)
    (fun w => (default [] (d ← db w; wellen_scope_component d scope_ref), w)).
Definition var_name (w : WellenFstBackend) (var_ref : Z) : bytes * WellenFstBackend :=
  name_entry w (Z.lor var_ref 0x80000000) (fun w => get_or_cache_name w var_ref true false).
Definition var_full_name (w : WellenFstBackend) (var_ref : Z) : bytes * WellenFstBackend :=
  name_entry w (Z.lor var_ref 0xC0000000) (fun w => get_or_cache_name w var_ref true true).

(** *** The name index *)

Record index_acc := MkAcc {
  ia_index : gmap bytes Z;
  ia_ranges : gmap bytes DeclaredRange;
  ia_locals : gmap bytes Z;
  ia_local_ranges : gmap bytes DeclaredRange;
  ia_ambiguous : gset bytes;
  ia_ambiguous_ranges : gset bytes;
}.

(** The body of the inner loop, [continue] returning the accumulator. *)
Definition index_var (d : D) (a : index_acc) (vr : Z) : index_acc :=
  if vr =? 0 then a else
  let full := default [] (wellen_var_full_name d vr) in
  if eqs full [] then a else
  let sig := wellen_var_signal_ref d vr in
  if sig =? 0 then a else
  let '(encoding, width) := wellen_var_encoding d vr in
  let index := if bool_decide (encoding = WELLEN_BITVECTOR) then wellen_var_index d vr else None in
  let has_range := bool_decide (is_Some index) in
  let range := match index with Some (m, l) => MkDR m l width | None => MkDR 0 0 width end in
  let key := normalize_path full in
  let a :=
    if eqs key [] then a else
    MkAcc (<[key := sig]> (ia_index a))
      (if has_range then <[key := range]> (ia_ranges a) else ia_ranges a)
      (ia_locals a) (ia_local_ranges a) (ia_ambiguous a) (ia_ambiguous_ranges a) in
  let local := normalize_path (default [] (wellen_var_name d vr)) in
  if eqs local [] then a else
  let ambiguous :=
    match ia_locals a !! local with
    | Some sig' => if sig' =? sig then ia_ambiguous a else {[local]} ∪ ia_ambiguous a
    | None => ia_ambiguous a
    end in
  let locals := match ia_locals a !! local with
                | Some _ => ia_locals a
                | None => <[local := sig]> (ia_locals a)
                end in
  if has_range then
    let ambiguous_ranges :=
      match ia_local_ranges a !! local with
      | Some r => if bool_decide (r = range) then ia_ambiguous_ranges a
                  else {[local]} ∪ ia_ambiguous_ranges a
      | None => ia_ambiguous_ranges a
      end in
    let local_ranges := match ia_local_ranges a !! local with
                        | Some _ => ia_local_ranges a
                        | None => <[local := range]> (ia_local_ranges a)
                        end in
    MkAcc (ia_index a) (ia_ranges a) locals local_ranges ambiguous ambiguous_ranges
  else
    MkAcc (ia_index a) (ia_ranges a) locals (ia_local_ranges a) ambiguous
      ({[local]} ∪ ia_ambiguous_ranges a).

Definition upto (n : Z) : list Z := map Z.of_nat (List.seq 0 (Z.to_nat n)).

Definition index_scope (d : D) (a : index_acc) (si : Z) : index_acc :=
  let sr := wellen_scope_at d si in
  if sr =? 0 then a
  else foldl (fun a vi => index_var d a (wellen_scope_var_at d sr vi)) a
         (upto (wellen_scope_var_count d sr)).

(** The last loop: unambiguous local names that are not full names. *)
Definition index_local (a : index_acc) (m : gmap bytes Z * gmap bytes DeclaredRange)
    (item : bytes * Z) : gmap bytes Z * gmap bytes DeclaredRange :=
  let '(index, ranges) := m in
  let '(local, sig) := item in
  if bool_decide (local ∈ ia_ambiguous a) || bool_decide (is_Some (index !! local)) then m
  else
    (<[local := sig]> index,
     match ia_local_ranges a !! local with
     | Some r => if bool_decide (local ∈ ia_ambiguous_ranges a) then ranges
                 else <[local := r]> ranges
     | None => ranges
     end).

Definition index_of (d : D) (index : gmap bytes Z) (ranges : gmap bytes DeclaredRange)
    : gmap bytes Z * gmap bytes DeclaredRange :=
  let a := foldl (index_scope d) (MkAcc index ranges ∅ ∅ ∅ ∅) (upto (wellen_scope_count d)) in
  foldl (index_local a) (ia_index a, ia_ranges a) (map_to_list (ia_locals a)).

Definition build_signal_index (w : WellenFstBackend) : WellenFstBackend :=
  match db w with
  | None => w
  | Some d =>
      if signal_index_built w then w else
      let '(index, ranges) := index_of d (signal_index w) (declared_ranges w) in
      MkW (db w) (xdb w) (time_table w) (time_scale w) (name_cache w) index true
        (u64 (signal_index_build_count w + 1)) ranges (packed_selection_index w)
        (packed_selections w) (selected_change_cache w)
  end.

(** *** Virtual handles *)

Definition packed_selection (w : WellenFstBackend) (signal_ref : Z) : option PackedSelection :=
  if Z.land signal_ref kVirtualSignalFlag =? 0 then None else
  let encoded_index := Z.land signal_ref (u32_max - kVirtualSignalFlag) in
  if (encoded_index =? 0) || (zlen (packed_selections w) <? encoded_index) then None
  else packed_selections w !! Z.to_nat (encoded_index - 1).

Definition native_signal_ref (w : WellenFstBackend) (signal_ref : Z) : Z :=
  match packed_selection w signal_ref with
  | Some sel => base_ref sel
  | None => if Z.land signal_ref kVirtualSignalFlag =? 0 then signal_ref else kInvalidSignalRef
  end.

(** The checks of [create_packed_selection]: the selection a path names. *)
Definition parse_selection (index : gmap bytes Z) (ranges : gmap bytes DeclaredRange)
    (normalized_path : bytes) : option PackedSelection :=
  if negb (bool_decide (list.last normalized_path = Some "]"%char)) then None else
  match rfind "["%char normalized_path with
  | None | Some O => None
  | Some open =>
      let base_path := take open normalized_path in
      base ← index !! base_path;
      if negb (Z.land base kVirtualSignalFlag =? 0) then None else
      declared ← ranges !! base_path;
      let declared_width := range_width (dr_msb declared) (dr_lsb declared) in
      if (declared_width =? 0) || negb (declared_width =? dr_width declared) then None else
      let selector := take (length normalized_path - open - 2) (drop (open + 1) normalized_path) in
      let colon := find_char ":"%char selector in
      if match colon with
         | Some c => bool_decide (is_Some (find_char ":"%char (drop (c + 1) selector)))
         | None => false
         end then None else
      smsb ← parse_signed_index (match colon with Some c => take c selector | None => selector end);
      slsb ← match colon with
             | None => Some smsb
             | Some c => parse_signed_index (drop (c + 1) selector)
             end;
      let declared_low := Z.min (dr_msb declared) (dr_lsb declared) in
      let declared_high := Z.max (dr_msb declared) (dr_lsb declared) in
      if (smsb <? declared_low) || (declared_high <? smsb) ||
         (slsb <? declared_low) || (declared_high <? slsb) then None else
      let selected_width := range_width smsb slsb in
      if (selected_width =? 0) || (u32_max <? selected_width) then None else
      Some (MkPS base (dr_msb declared) (dr_lsb declared) smsb slsb (u32 selected_width))
  end.

Definition create_packed_selection (w : WellenFstBackend) (normalized_path : bytes)
    : Z * WellenFstBackend :=
  match packed_selection_index w !! normalized_path with
  | Some handle => (handle, w)
  | None =>
      match parse_selection (signal_index w) (declared_ranges w) normalized_path with
      | None => (kInvalidSignalRef, w)
      | Some sel =>
          if kVirtualSignalFlag <=? zlen (packed_selections w) + 1 then (kInvalidSignalRef, w)
          else
            let selections := packed_selections w ++ [sel] in
            let handle := Z.lor kVirtualSignalFlag (u32 (zlen selections)) in
            (handle,
             MkW (db w) (xdb w) (time_table w) (time_scale w) (name_cache w) (signal_index w)
               (signal_index_built w) (signal_index_build_count w) (declared_ranges w)
               (<[normalized_path := handle]> (packed_selection_index w)) selections
               (selected_change_cache w))
      end
  end.

Definition find_signal (w : WellenFstBackend) (path : bytes) : Z * WellenFstBackend :=
  if eqs path [] || negb (is_open w) then (kInvalidSignalRef, w) else
  let w := build_signal_index w in
  let key := normalize_path path in
  match signal_index w !! key with
  | Some ref => (ref, w)
  | None =>
      let '(selected, w) := create_packed_selection w key in
      if negb (selected =? kInvalidSignalRef) then (selected, w)
      else if starts_with (lit "top.") key then
        let key := drop 4 key in
        match signal_index w !! key with
        | Some ref => (ref, w)
        | None =>
            let '(duplicate, w) := create_packed_selection w key in
            if negb (duplicate =? kInvalidSignalRef) then (duplicate, w)
            else (kInvalidSignalRef, w)
        end
      else (kInvalidSignalRef, w)
  end.

(** *** Changes of native and selected signals *)

Definition native_typed_value_at (w : WellenFstBackend) (signal_ref start element : Z)
    : option WaveformValue :=
  d ← db w;
  let first := wellen_signal_typed_value_at_offset d signal_ref start element 0 in
  if negb (tr_result first =? 0) && negb (tr_result first =? -2) then None else
  let length1 := tr_text_len first in
  let buffer := replicate (Z.to_nat length1) (chr 0) in
  let second := wellen_signal_typed_value_at_offset d signal_ref start element length1 in
  if negb (tr_result second =? 0) then None else
  let written := tr_text second ++ drop (length (tr_text second)) buffer in
  let text := resize (tr_text_len second) written in
  Some (match tr_encoding second with
        | WELLEN_REAL => MkWV Real [] (tr_real second)
        | WELLEN_STRING => MkWV VString text 0
        | WELLEN_EVENT => MkWV Event [] 0
        | WELLEN_BITVECTOR => MkWV BitVector text 0
        end).

(** The buffer has [num_changes] entries; with none its pointer is null and
    the call fails. *)
Definition native_time_indices_of (w : WellenFstBackend) (signal_ref : Z) : list Z :=
  default []
    (x ← xdb w; d ← db w;
     info ← wellen_signal_info d signal_ref;
     if wi_num_changes info =? 0 then None else wellenx_signal_time_indices x signal_ref).

(** The loop of [selected_changes]; [None] is its [return empty]. *)
Fixpoint select_changes (w : WellenFstBackend) (sel : PackedSelection) (indices : list Z)
    (ordinal : nat) (selected : list SelectedChange) (previous : bytes)
    : option (list SelectedChange) :=
  match indices with
  | [] => Some selected
  | idx :: indices' =>
      source ← native_typed_value_at w (base_ref sel) (u32 (Z.of_nat ordinal)) 0;
      if negb (bool_decide (kind source = BitVector)) then None else
      value ← select_packed_bits sel (text source);
      if negb (bool_decide (selected = [])) && eqs value previous
      then select_changes w sel indices' (S ordinal) selected previous
      else select_changes w sel indices' (S ordinal)
             (selected ++ [MkSel idx (MkWV BitVector value 0)]) value
  end.

Definition selected_changes (w : WellenFstBackend) (signal_ref : Z)
    : list SelectedChange * WellenFstBackend :=
  match selected_change_cache w !! signal_ref with
  | Some cached => (cached, w)
  | None =>
      match packed_selection w signal_ref with
      | None => ([], w)
      | Some sel =>
          match d ← db w; wellen_signal_info d (base_ref sel) with
          | None => ([], w)
          | Some _ =>
              match select_changes w sel (native_time_indices_of w (base_ref sel)) 0 [] [] with
              | None => ([], w)
              | Some selected =>
                  (selected, set_cache w (<[signal_ref := selected]> (selected_change_cache w)))
              end
          end
      end
  end.

(** *** Loading *)

Definition load_signals (w : WellenFstBackend) (refs : list Z) : Z * WellenFstBackend :=
  match refs with
  | [] => (0, w)
  | _ =>
      let native_refs := map (native_signal_ref w) refs in
      if existsb (fun r => r =? kInvalidSignalRef) native_refs then (0, w)
      else
        match db w with
        | None => (0, w)
        | Some d =>
            let '(n, d) := wellen_load_signals d native_refs in
            (n, set_handles w (Some d) ((fun x => wellenx_load_signals x native_refs) <$> xdb w))
        end
  end.

Definition unload_signals (w : WellenFstBackend) (refs : list Z) : WellenFstBackend :=
  match refs with
  | [] => w
  | _ =>
      let native_refs :=
        filter (fun r => r <> kInvalidSignalRef) (map (native_signal_ref w) refs) in
      if bool_decide (native_refs = []) then w
      else
        let stale (item : Z * list SelectedChange) : bool :=
          match packed_selection w item.1 with
          | Some sel => bool_decide (base_ref sel ∈ native_refs)
          | None => false
          end in
        let w := set_cache w (filter (fun item => stale item = false) (selected_change_cache w)) in
        set_handles w ((fun d => wellen_unload_signals d native_refs) <$> db w)
          ((fun x => wellenx_unload_signals x native_refs) <$> xdb w)
  end.

Definition is_loaded (w : WellenFstBackend) (signal_ref : Z) : bool :=
  bool_decide (is_Some (d ← db w; wellen_signal_info d (native_signal_ref w signal_ref))).

Definition signal_info (w : WellenFstBackend) (signal_ref : Z)
    : option SignalInfo * WellenFstBackend :=
  match d ← db w; wellen_signal_info d (native_signal_ref w signal_ref) with
  | None => (None, w)
  | Some info =>
      let out := MkSI (encoding_kind (wi_encoding info)) (wi_num_changes info)
        (wi_max_states info) (wi_width info) (wi_bytes_per_entry info)
        (negb (wi_has_meta_byte info =? 0)) in
      match packed_selection w signal_ref with
      | None => (Some out, w)
      | Some sel =>
          let '(changes, w) := selected_changes w signal_ref in
          (Some (MkSI (si_encoding out) (u32 (zlen changes)) (si_max_states out) (ps_width sel)
             (u32 (ps_width sel + 7) / 8) ((2 <? si_max_states out) && (8 <=? ps_width sel))), w)
      end
  end.

(** *** Core queries *)

(** The search of [signal_offset_at] over the selected changes. *)
Definition offset_in (times : list Z) (time_idx : Z) : option SignalOffset :=
  match upper_bound (fun x => time_idx <? x) times with
  | O => None
  | S last =>
      selected_time ← times !! last;
      let first := back_to times selected_time last in
      let last := forward_to (length times) times selected_time last in
      let has_next := (S last <? length times)%nat in
      Some (MkSO (u32 (Z.of_nat first)) (u16 (Z.of_nat (last - first + 1)))
        (selected_time =? time_idx)
        (if has_next then default 0 (times !! S last) else 0) has_next)
  end.

Definition signal_offset_at (w : WellenFstBackend) (signal_ref time_idx : Z)
    : option SignalOffset * WellenFstBackend :=
  match packed_selection w signal_ref with
  | Some _ =>
      let '(changes, w) := selected_changes w signal_ref in
      (offset_in (map sel_time_idx changes) time_idx, w)
  | None => (d ← db w; wellen_signal_offset_at d signal_ref time_idx, w)
  end.

Definition signal_typed_value_at (w : WellenFstBackend) (signal_ref start element : Z)
    : option WaveformValue * WellenFstBackend :=
  match packed_selection w signal_ref with
  | Some _ =>
      let '(changes, w) := selected_changes w signal_ref in
      (sel_value <$> changes !! Z.to_nat (start + element), w)
  | None => (native_typed_value_at w signal_ref start element, w)
  end.

Definition signal_value_at (w : WellenFstBackend) (signal_ref start element : Z)
    : bytes * WellenFstBackend :=
  match packed_selection w signal_ref with
  | Some _ =>
      let '(value, w) := signal_typed_value_at w signal_ref start element in
      (match value with
       | Some v => if bool_decide (kind v = BitVector) then text v else []
       | None => []
       end, w)
  | None =>
      (default [] (d ← db w; wellen_signal_value_at_offset d signal_ref start element), w)
  end.

Definition value_text (v : WaveformValue) : bytes :=
  match kind v with
  | Real => print_real (real v)
  | Event => lit "event"
  | _ => text v
  end.

Definition signal_value_str (w : WellenFstBackend) (signal_ref start element : Z)
    : bytes * WellenFstBackend :=
  let '(value, w) := signal_typed_value_at w signal_ref start element in
  (match value with Some v => value_text v | None => [] end, w).

Definition sampled_value_at (w : WellenFstBackend) (signal_ref time_idx : Z)
    (point : ObservationPoint) : option SampledValue * WellenFstBackend :=
  let '(offset, w) := signal_offset_at w signal_ref time_idx in
  match offset with
  | None => (None, w)
  | Some offset =>
      if so_elements offset =? 0 then (None, w) else
      let before := bool_decide (point = Before) && so_time_match offset in
      if before && (so_start offset =? 0) then (None, w) else
      let start := if before then so_start offset - 1 else so_start offset in
      let element := if before then 0 else u16 (so_elements offset - 1) in
      let '(value, w) := signal_typed_value_at w signal_ref start element in
      ((fun v => MkSV v time_idx element (so_elements offset) (so_time_match offset)) <$> value, w)
  end.

(** The loop of [delta_values_at]: [n] elements from [element] on. *)
Fixpoint delta_loop (n : nat) (w : WellenFstBackend) (signal_ref start element : Z)
    (out : list WaveformValue) : option (list WaveformValue) * WellenFstBackend :=
  match n with
  | O => (Some out, w)
  | S n' =>
      let '(value, w) := signal_typed_value_at w signal_ref start element in
      match value with
      | None => (None, w)
      | Some v => delta_loop n' w signal_ref start (element + 1) (out ++ [v])
      end
  end.

Definition delta_values_at (w : WellenFstBackend) (signal_ref time_idx : Z)
    : option (list WaveformValue * bool) * WellenFstBackend :=
  let '(offset, w) := signal_offset_at w signal_ref time_idx in
  match offset with
  | None => (None, w)
  | Some offset =>
      if so_elements offset =? 0 then (None, w) else
      let '(out, w) := delta_loop (Z.to_nat (so_elements offset)) w signal_ref
                         (so_start offset) 0 [] in
      ((fun out => (out, so_time_match offset)) <$> out, w)
  end.

(** *** Batches and scans *)

Fixpoint values_loop (w : WellenFstBackend) (refs : list Z) (time_idx : Z) (i : nat)
    (out_values : list bytes) (out_found : list bool)
    : list bytes * list bool * WellenFstBackend :=
  match refs with
  | [] => (out_values, out_found, w)
  | ref :: refs' =>
      let '(sampled, w) := sampled_value_at w ref time_idx Raw in
      match sampled with
      | None => values_loop w refs' time_idx (S i) out_values out_found
      | Some s =>
          values_loop w refs' time_idx (S i) (<[i := value_text (sv_value s)]> out_values)
            (<[i := true]> out_found)
      end
  end.

(** [resize] keeps what the caller's vectors already hold. *)
Definition values_at (w : WellenFstBackend) (refs : list Z) (time_idx : Z)
    (out_values : list bytes) (out_found : list bool)
    : list bytes * list bool * WellenFstBackend :=
  let n := length refs in
  values_loop w refs time_idx 0
    (take n out_values ++ replicate (n - length out_values) [])
    (take n out_found ++ replicate (n - length out_found) false).

Fixpoint typed_values_at (w : WellenFstBackend) (refs : list Z) (time_idx : Z)
    (point : ObservationPoint) : list (option SampledValue) * WellenFstBackend :=
  match refs with
  | [] => ([], w)
  | ref :: refs' =>
      let '(sampled, w) := sampled_value_at w ref time_idx point in
      let '(rest, w) := typed_values_at w refs' time_idx point in
      (sampled :: rest, w)
  end.

Definition time_indices_of (w : WellenFstBackend) (signal_ref : Z)
    : list Z * WellenFstBackend :=
  match packed_selection w signal_ref with
  | Some _ =>
      let '(changes, w) := selected_changes w signal_ref in (map sel_time_idx changes, w)
  | None => (native_time_indices_of w signal_ref, w)
  end.

Definition signal_change_at (w : WellenFstBackend) (signal_ref ordinal : Z)
    : option SignalChange * WellenFstBackend :=
  let '(indices, w) := time_indices_of w signal_ref in
  match indices !! Z.to_nat ordinal with
  | None => (None, w)
  | Some time_idx =>
      let delta := delta_of indices time_idx (Z.to_nat ordinal) in
      let '(value, w) := signal_typed_value_at w signal_ref ordinal 0 in
      ((fun v => MkSC time_idx (time_at w time_idx) delta v) <$> value, w)
  end.

Fixpoint scan_loop (w : WellenFstBackend) (signal_ref b e limit : Z) (indices todo : list Z)
    (ordinal : nat) (total : Z) (out : list SignalChange)
    : option (Z * list SignalChange) * WellenFstBackend :=
  match todo with
  | [] => (Some (total, out), w)
  | idx :: todo' =>
      if (idx <? b) || (e <? idx)
      then scan_loop w signal_ref b e limit indices todo' (S ordinal) total out
      else
        let total := u32 (total + 1) in
        if negb (limit =? 0) && (limit <=? zlen out)
        then scan_loop w signal_ref b e limit indices todo' (S ordinal) total out
        else
          let '(value, w) := signal_typed_value_at w signal_ref (Z.of_nat ordinal) 0 in
          match value with
          | None => (None, w)
          | Some v =>
              scan_loop w signal_ref b e limit indices todo' (S ordinal) total
                (out ++ [MkSC idx (time_at w idx) (delta_of indices idx ordinal) v])
          end
  end.

Definition scan_changes (w : WellenFstBackend) (signal_ref b e limit : Z)
    : option (list SignalChange * ScanDiagnostics) * WellenFstBackend :=
  if e <? b then (None, w) else
  let '(info, w) := signal_info w signal_ref in
  match info with
  | None => (None, w)
  | Some info =>
      let '(indices, w) := time_indices_of w signal_ref in
      let '(result, w) := scan_loop w signal_ref b e limit indices indices 0 0 [] in
      ((fun r : Z * list SignalChange =>
          let '(total, out) := r in
          let returned := u32 (zlen out) in
          (out, MkSD total returned (si_width info) (si_encoding info) true true
                  (returned <? total))) <$> result, w)
  end.

(** The reply of [value_at]: the text, the width when the metadata is
    available, the exact-time flag and the time index. *)
Definition value_at (w : WellenFstBackend) (path : bytes) (time : Z)
    : option (bytes * option Z * bool * Z) * WellenFstBackend :=
  let '(ref, w) := find_signal w path in
  if ref =? kInvalidSignalRef then (None, w) else
  let w := if is_loaded w ref then w else snd (load_signals w [ref]) in
  let ti := time_idx_of w time in
  let '(info, w) := signal_info w ref in
  let '(off, w) := signal_offset_at w ref ti in
  match off with
  | None => (None, w)
  | Some off =>
      let '(value, w) := signal_value_str w ref (so_start off) 0 in
      (Some (value, si_width <$> info, so_time_match off, ti), w)
  end.
End Backend.

Arguments WellenFstBackend : clear implicits.
