(* ===== verification/WellenTheory.v ===== *)
(** * WellenTheory: correctness of the FST waveform backend

    Proves, against the documented reader behaviour ([WellenDoc]): time lookup
    finds the largest index not after a time; a sample is the settled change
    at (or strictly before) an index, for native and for packed-selection
    signals; a packed selection reads the selected bits of its base signal;
    lookups implement a pure resolution and never disturb one another; the
    caches are transparent; a scan reports exactly the changes of its window.
    [wave_laws] discharges the interface the evaluator is proved against. *)

From S2P Require Import Prelude CLib Waveform WellenApi WellenBackend.

Open Scope Z_scope.

(** ** Prefixes of sorted lists *)

Section Prefix.
Context {A : Type} (tm : A -> Z).

Definition sorted_by (l : list A) : Prop := sorted_idx (map tm l).

Lemma sorted_by_cons x l : sorted_by (x :: l) ->
  sorted_by l /\ forall y, y ∈ l -> tm x <= tm y.
Proof.
  intros Hs. split.
  - intros i j a b Hij Ha Hb. apply (Hs (S i) (S j)); (done || lia).
  - intros y [i Hy]%list_elem_of_lookup. apply (Hs 0%nat (S i)); [lia|done|].
    change ((tm <$> l) !! i = Some (tm y)). by rewrite list_lookup_fmap, Hy.
Qed.

(** A threshold on the times. *)
Variable P : Z -> Prop.
Context `{!forall t, Decision (P t)}.
Hypothesis P_down : forall s t, s <= t -> P t -> P s.

Definition below (l : list A) : list A := filter (fun x => P (tm x)) l.

Lemma below_take l : sorted_by l -> below l = take (length (below l)) l.
Proof.
  induction l as [|x l IH]; intros Hs; [done|].
  apply sorted_by_cons in Hs as [Hs Hx]. unfold below in *. rewrite filter_cons.
  destruct (decide (P (tm x))) as [Hp|Hn]; cbn [length take].
  - by rewrite <- IH.
  - rewrite filter_none; [done|]. intros y Hy Hpy. apply Hn. revert Hpy. by apply P_down, Hx.
Qed.

Lemma below_iff l i x : sorted_by l -> l !! i = Some x ->
  (i < length (below l))%nat <-> P (tm x).
Proof.
  revert i. induction l as [|y l IH]; intros i Hs Hi; [done|].
  apply sorted_by_cons in Hs as [Hs Hy]. unfold below in *. rewrite filter_cons.
  destruct (decide (P (tm y))) as [Hp|Hn].
  - destruct i as [|i]; cbn in Hi |- *; [simplify_eq; split; [done|lia]|].
    rewrite <- (IH i Hs Hi). lia.
  - assert (filter (fun x => P (tm x)) l = []) as ->.
    { apply filter_none. intros z Hz Hpz. apply Hn.
      revert Hpz. by apply P_down, Hy. }
    split; [cbn; lia|]. intros Hp. destruct Hn. revert Hp. apply P_down.
    destruct i as [|i]; cbn in Hi; [simplify_eq; lia|].
    apply Hy. by eapply list_elem_of_lookup_2.
Qed.

Lemma below_last l : sorted_by l ->
  list.last (below l) = match length (below l) with O => None | S n => l !! n end.
Proof.
  intros Hs. rewrite (below_take l Hs) at 1.
  assert (length (below l) <= length l)%nat by apply length_filter.
  destruct (length (below l)) as [|n] eqn:E; [by rewrite take_0|].
  rewrite last_lookup, length_take, Nat.min_l by lia. cbn [pred]. apply lookup_take_lt. lia.
Qed.
End Prefix.

(** ** Counting by time *)

Lemma lt_down ti s t : s <= t -> t < ti -> s < ti.
Proof. lia. Qed.
Lemma le_down ti s t : s <= t -> t <= ti -> s <= ti.
Proof. lia. Qed.

Lemma sorted_idx_id l : sorted_idx l -> sorted_by (fun x => x) l.
Proof. unfold sorted_by. by rewrite map_id. Qed.

Lemma count_le_iff l i x ti : sorted_idx l -> l !! i = Some x ->
  (i < count_le l ti)%nat <-> x <= ti.
Proof.
  intros Hs. apply (below_iff (fun x => x) (fun x => x <= ti)); [apply le_down|by apply sorted_idx_id].
Qed.

Lemma count_lt_iff l i x ti : sorted_idx l -> l !! i = Some x ->
  (i < count_lt l ti)%nat <-> x < ti.
Proof.
  intros Hs. apply (below_iff (fun x => x) (fun x => x < ti)); [apply lt_down|by apply sorted_idx_id].
Qed.

Lemma count_le_length l ti : (count_le l ti <= length l)%nat.
Proof. apply length_filter. Qed.
Lemma count_lt_length l ti : (count_lt l ti <= length l)%nat.
Proof. apply length_filter. Qed.

Lemma count_le_split l t :
  count_le l t = (count_lt l t + length (filter (fun x => x = t) l))%nat.
Proof.
  unfold count_le, count_lt. induction l as [|x l IH]; [done|]. rewrite !filter_cons.
  repeat case_decide; cbn [length]; lia.
Qed.

Lemma upper_bound_count l ti : sorted_idx l -> upper_bound (fun x => ti <? x) l = count_le l ti.
Proof.
  intros Hs. apply upper_bound_unique.
  - intros i j x y Hij Hx Hy. specialize (Hs i j x y Hij Hx Hy). lia.
  - apply count_le_length.
  - intros i x Hi Hx. rewrite (count_le_iff l i x) in Hi by done. lia.
  - intros i x Hi Hx. pose proof (count_le_iff l i x ti Hs Hx). lia.
Qed.

(** The last index of a count. *)
Lemma count_le_last l ti m : sorted_idx l -> count_le l ti = S m ->
  exists t, l !! m = Some t /\ t <= ti /\
    (forall x, l !! S m = Some x -> ti < x) /\ (count_lt l t <= m < count_le l t)%nat.
Proof.
  intros Hs Hc. pose proof (count_le_length l ti).
  destruct (lookup_lt_is_Some_2 l m) as [t Ht]; [lia|]. exists t. split; [done|].
  pose proof (count_le_iff l m t ti Hs Ht). pose proof (count_lt_iff l m t t Hs Ht).
  pose proof (count_le_iff l m t t Hs Ht).
  split; [lia|]. split; [|lia].
  intros x Hx. pose proof (count_le_iff l (S m) x ti Hs Hx). lia.
Qed.

Lemma back_to_count l t n : sorted_idx l -> (count_lt l t <= n <= count_le l t)%nat ->
  back_to l t n = count_lt l t.
Proof.
  intros Hs. induction n as [|n IH]; intros Hn; cbn [back_to]; [lia|].
  pose proof (count_le_length l t). destruct (lookup_lt_is_Some_2 l n) as [x Hx]; [lia|].
  pose proof (count_le_iff l n x t Hs Hx). pose proof (count_lt_iff l n x t Hs Hx).
  rewrite Hx. case_bool_decide as E.
  - injection E as ->. apply IH. lia.
  - assert (x <> t) by congruence. lia.
Qed.

Lemma count_le_same l t ti m : sorted_idx l -> count_le l ti = S m -> l !! m = Some t ->
  count_le l t = S m.
Proof.
  intros Hs Hc Ht. destruct (count_le_last l ti m Hs Hc) as (t' & Ht' & Hle & Hn & Hlo).
  simplify_eq. pose proof (count_le_length l t). destruct (decide (count_le l t = S m)); [done|].
  destruct (lookup_lt_is_Some_2 l (S m)) as [x Hx]; [lia|].
  specialize (Hn x Hx). pose proof (count_le_iff l (S m) x t Hs Hx). lia.
Qed.

(** The search over selected changes computes the documented offset. *)
Lemma offset_in_spec l ti : sorted_idx l -> idx_sized l -> offset_in l ti = offset_spec l ti.
Proof.
  intros Hs [Hlen Hsz]. unfold offset_in, offset_spec. rewrite upper_bound_count by done.
  destruct (count_le l ti) as [|m] eqn:Hc; [done|].
  destruct (count_le_last l ti m Hs Hc) as (t & Ht & Hle & Hn & Hlo).
  rewrite Ht. cbn [mbind option_bind].
  rewrite back_to_count by (done || lia).
  assert (forward_to (length l) l t m = m) as ->.
  { destruct (length l); cbn [forward_to]; [done|]. rewrite bool_decide_false; [done|].
    intros Hx. specialize (Hn t Hx). lia. }
  pose proof (count_le_same l t ti m Hs Hc Ht) as Hct. specialize (Hsz t).
  rewrite count_le_split in Hct.
  assert (m < length l)%nat by (by eapply lookup_lt_Some).
  replace (m - count_lt l t + 1)%nat with (S m - count_lt l t)%nat by lia.
  unfold zlen in Hlen. unfold u32, u16. rewrite !Z.mod_small by lia.
  destruct (l !! S m) as [x|] eqn:Hx.
  - apply lookup_lt_Some in Hx as Hlt. by rewrite (proj2 (Nat.ltb_lt _ _)), bool_decide_true by eauto.
  - apply lookup_ge_None in Hx as Hge. rewrite (proj2 (Nat.ltb_ge _ _)) by done.
    rewrite bool_decide_false; [done|]. by intros [? ?].
Qed.

(** ** Settled values

    The value a sample must report: the last change at or before the index,
    or strictly before it. *)

Definition threshold (point : ObservationPoint) (ti t : Z) : Prop :=
  match point with Before => t < ti | _ => t <= ti end.

#[export] Instance threshold_dec point ti t : Decision (threshold point ti t).
Proof. destruct point; cbn; apply _. Defined.

Definition settled {V} (point : ObservationPoint) (ti : Z) (changes : list (Z * V)) : option V :=
  snd <$> list.last (below fst (threshold point ti) changes).

Lemma threshold_down point ti s t : s <= t -> threshold point ti t -> threshold point ti s.
Proof. destruct point; cbn; lia. Qed.

Lemma length_below_le {V} (cs : list (Z * V)) ti point : point <> Before ->
  length (below fst (threshold point ti) cs) = count_le (map fst cs) ti.
Proof.
  intros Hp. unfold below, count_le. induction cs as [|c cs IH]; [done|]. cbn [map].
  rewrite !filter_cons. destruct (decide (c.1 <= ti)), (decide (threshold point ti c.1)) as [D|D];
    cbn [length]; rewrite ?IH; try done; by destruct point.
Qed.

Lemma length_below_lt {V} (cs : list (Z * V)) ti :
  length (below fst (threshold Before ti) cs) = count_lt (map fst cs) ti.
Proof.
  unfold below, count_lt. induction cs as [|c cs IH]; [done|]. cbn [map].
  rewrite !filter_cons. destruct (decide (c.1 < ti)), (decide (threshold Before ti c.1)) as [D|D];
    cbn [length]; rewrite ?IH; done.
Qed.

(** Reading at a documented offset yields the settled value. *)
Definition offset_pos (point : ObservationPoint) (o : SignalOffset) : option Z :=
  if bool_decide (point = Before) && so_time_match o
  then (if so_start o =? 0 then None else Some (so_start o - 1))
  else Some (so_start o + (so_elements o - 1)).

Lemma settled_offset {V} (cs : list (Z * V)) ti point : sorted_idx (map fst cs) ->
  settled point ti cs =
  (o ← offset_spec (map fst cs) ti; n ← offset_pos point o; snd <$> cs !! Z.to_nat n).
Proof.
  intros Hs. set (l := map fst cs) in *. unfold settled.
  rewrite (below_last fst (threshold point ti) (threshold_down point ti)) by done.
  unfold offset_spec. destruct (count_le l ti) as [|m] eqn:Hc.
  - destruct (decide (point = Before)) as [->|Hp].
    + rewrite length_below_lt. fold l. destruct (count_lt l ti) as [|k] eqn:Hk; [done|].
      pose proof (count_lt_length l ti). destruct (lookup_lt_is_Some_2 l 0) as [x Hx]; [lia|].
      pose proof (count_le_iff l 0 x ti Hs Hx). pose proof (count_lt_iff l 0 x ti Hs Hx). lia.
    + rewrite length_below_le by done. fold l. by rewrite Hc.
  - destruct (count_le_last l ti m Hs Hc) as (t & Ht & Hle & Hn & Hlo). rewrite Ht.
    cbn [mbind option_bind]. unfold offset_pos. cbn [so_time_match so_start so_elements].
    assert (Hlast : Z.to_nat (Z.of_nat (count_lt l t) + (Z.of_nat (S m - count_lt l t) - 1)) = m) by lia.
    destruct (decide (point = Before)) as [->|Hp].
    + rewrite length_below_lt, bool_decide_true by done. fold l.
      destruct (Z.eqb_spec t ti) as [->|Hne]; cbn [andb mbind option_bind].
      * destruct (count_lt l ti) as [|k] eqn:Hk; [done|].
        rewrite (proj2 (Z.eqb_neq _ _)) by lia. cbn [mbind option_bind]. do 2 f_equal. lia.
      * pose proof (count_lt_iff l m t ti Hs Ht). pose proof (count_lt_length l ti).
        assert (count_lt l ti = S m) as ->; [|cbn [mbind option_bind]; do 2 f_equal; lia].
        destruct (decide (count_lt l ti = S m)); [done|].
        destruct (lookup_lt_is_Some_2 l (S m)) as [x Hx]; [lia|].
        specialize (Hn x Hx). pose proof (count_lt_iff l (S m) x ti Hs Hx). lia.
    + rewrite length_below_le, bool_decide_false by done. fold l. rewrite Hc.
      cbn [andb mbind option_bind]. do 2 f_equal. lia.
Qed.

(** ** Packed bit selection *)

(** A selection within its declared range, the widths being exact. *)
Definition selection_ok (sel : PackedSelection) : Prop :=
  i64_min <= declared_msb sel <= i64_max /\ i64_min <= declared_lsb sel <= i64_max /\
  Z.min (declared_msb sel) (declared_lsb sel) <= selected_msb sel
    <= Z.max (declared_msb sel) (declared_lsb sel) /\
  Z.min (declared_msb sel) (declared_lsb sel) <= selected_lsb sel
    <= Z.max (declared_msb sel) (declared_lsb sel) /\
  Z.abs (declared_msb sel - declared_lsb sel) + 1 <= u32_max /\
  ps_width sel = Z.abs (selected_msb sel - selected_lsb sel) + 1.

Lemma range_width_exact a b : Z.abs (a - b) + 1 <= u32_max -> range_width a b = Z.abs (a - b) + 1.
Proof.
  unfold range_width, u32_max. intros Hw. case_if; rewrite i64_small by (unfold i64_min, i64_max; lia);
    rewrite u64_small; lia.
Qed.

(** Conversely, a computed width that fits 32 bits did not overflow. *)
Lemma range_width_inv a b : i64_min <= a <= i64_max -> i64_min <= b <= i64_max ->
  0 < range_width a b <= u32_max -> Z.abs (a - b) + 1 = range_width a b.
Proof.
  unfold range_width, u32_max, i64_min, i64_max. intros Ha Hb.
  assert (forall z, 0 < z <= 2 ^ 64 -> 0 < u64 (i64 z) <= 2 ^ 32 - 1 -> z = u64 (i64 z)) as Hz.
  { intros z Hz. unfold u64, i64. destruct (decide (z < 2 ^ 63)).
    - rewrite (Z.mod_small (z + 2 ^ 63)) by lia. rewrite Z.mod_small; lia.
    - destruct (decide (z = 2 ^ 64)) as [->|]; [vm_compute; by intros [? ?]|].
      replace (z + 2 ^ 63) with (z - 2 ^ 63 + 1 * 2 ^ 64) by lia.
      rewrite Z_mod_plus_full, (Z.mod_small (z - 2 ^ 63)) by lia.
      replace (z - 2 ^ 63 - 2 ^ 63) with (z + (-1) * 2 ^ 64) by lia.
      rewrite Z_mod_plus_full, Z.mod_small by lia. lia. }
  case_if; intros Hw; rewrite <- Hz in *; lia.
Qed.

(** The position of declared bit [bit] in the value's text. *)
Definition bit_pos (sel : PackedSelection) (bit : Z) : Z :=
  if declared_lsb sel <=? declared_msb sel then declared_msb sel - bit else bit - declared_msb sel.

Definition select_step (sel : PackedSelection) : Z :=
  if selected_msb sel <=? selected_lsb sel then 1 else -1.

Definition bit_index (sel : PackedSelection) (i : nat) : Z :=
  selected_msb sel + select_step sel * Z.of_nat i.

Lemma bit_pos_range sel (source : bytes) i : selection_ok sel ->
  zlen source = Z.abs (declared_msb sel - declared_lsb sel) + 1 ->
  Z.of_nat i <= Z.abs (selected_lsb sel - selected_msb sel) ->
  0 <= bit_pos sel (bit_index sel i) < zlen source.
Proof.
  intros (? & ? & ? & ? & ? & ?) Hl Hi. unfold bit_pos, bit_index, select_step.
  repeat case_if; lia.
Qed.

Lemma select_loop_spec sel source fuel i acc : selection_ok sel ->
  zlen source = Z.abs (declared_msb sel - declared_lsb sel) + 1 ->
  (Z.of_nat i + Z.of_nat fuel = Z.abs (selected_lsb sel - selected_msb sel)) ->
  exists out, select_loop fuel sel source acc (select_step sel) (bit_index sel i) = Some (acc ++ out) /\
    length out = S fuel /\
    forall k, (k <= fuel)%nat ->
      out !! k = source !! Z.to_nat (bit_pos sel (bit_index sel (i + k))).
Proof.
  intros Hok Hl. revert i acc. induction fuel as [|f IH]; intros i acc Hi;
    cbn [select_loop]; fold (bit_pos sel (bit_index sel i));
    pose proof (bit_pos_range sel source i Hok Hl ltac:(lia)) as Hr;
    assert ((if declared_lsb sel <=? declared_msb sel then i64 (declared_msb sel - bit_index sel i)
             else i64 (bit_index sel i - declared_msb sel)) = bit_pos sel (bit_index sel i)) as ->
      by (unfold bit_pos in *; destruct Hok as (? & ? & ? & ? & Hw & ?); unfold u32_max in Hw;
          case_if; apply i64_small; unfold i64_min, i64_max in *; lia);
    rewrite u64_small by (destruct Hok as (? & ? & ? & ? & Hw & ?); unfold u32_max in Hw; lia);
    rewrite (proj2 (Z.leb_gt _ _)) by lia;
    (destruct (lookup_lt_is_Some_2 source (Z.to_nat (bit_pos sel (bit_index sel i)))) as [c Hc];
      [unfold zlen in Hr; lia|]); rewrite Hc.
  - assert (bit_index sel i = selected_lsb sel) as E.
    { unfold bit_index, select_step in *. case_if; lia. }
    rewrite (proj2 (Z.eqb_eq _ _) E). exists [c]. split; [done|]. split; [done|].
    intros k Hk. assert (k = 0%nat) as -> by lia. by rewrite Nat.add_0_r.
  - assert (bit_index sel i <> selected_lsb sel) as NE.
    { unfold bit_index, select_step in *. case_if; lia. }
    rewrite (proj2 (Z.eqb_neq _ _) NE).
    replace (bit_index sel i + select_step sel) with (bit_index sel (S i))
      by (unfold bit_index; lia).
    destruct (IH (S i) (acc ++ [c]) ltac:(lia)) as (out & Ho & Hlen & Hk).
    exists (c :: out). rewrite Ho, <- app_assoc. split; [done|]. split; [cbn; lia|].
    intros [|k] Hk'; [by rewrite Nat.add_0_r|]. cbn [lookup list_lookup].
    rewrite Nat.add_succ_r, <- Nat.add_succ_l. apply Hk. lia.
Qed.

Lemma select_packed_bits_total sel source : selection_ok sel ->
  zlen source = Z.abs (declared_msb sel - declared_lsb sel) + 1 ->
  exists out, select_packed_bits sel source = Some out /\ zlen out = ps_width sel /\
    forall k, Z.of_nat k < ps_width sel ->
      out !! k = source !! Z.to_nat (bit_pos sel (bit_index sel k)).
Proof.
  intros Hok Hl. destruct Hok as (H1 & H2 & H3 & H4 & H5 & H6).
  unfold select_packed_bits. rewrite range_width_exact, Hl, Z.eqb_refl by done. cbn [negb].
  fold (select_step sel).
  destruct (select_loop_spec sel source
    (Z.to_nat (Z.abs (selected_lsb sel - selected_msb sel))) 0 []) as (out & Ho & Hlen & Hk);
    [done|done|lia|].
  replace (bit_index sel 0) with (selected_msb sel) in Ho by (unfold bit_index; lia).
  rewrite Ho.
  exists out. cbn [app]. split; [done|]. split; [unfold zlen; lia|].
  intros k Hk'. apply Hk. lia.
Qed.

Lemma select_packed_bits_width sel source : selection_ok sel ->
  zlen source <> Z.abs (declared_msb sel - declared_lsb sel) + 1 ->
  select_packed_bits sel source = None.
Proof.
  intros (? & ? & ? & ? & ? & ?) Hl. unfold select_packed_bits. rewrite range_width_exact by done.
  rewrite (proj2 (Z.eqb_neq _ _)) by done. done.
Qed.

(** ** Change lists *)

Lemma sorted_by_app {A} (tm : A -> Z) l c k : sorted_by tm (l ++ c :: k) ->
  forall y, y ∈ l -> tm y <= tm c.
Proof.
  induction l as [|x l IH]; intros Hs y Hy; [by apply elem_of_nil in Hy|].
  cbn [app] in Hs. apply sorted_by_cons in Hs as [Hs Hx].
  apply elem_of_cons in Hy as [->|Hy]; [|by apply IH].
  apply Hx. set_solver.
Qed.

Lemma sorted_idx_sublist l k : l `sublist_of` k -> sorted_idx k -> sorted_idx l.
Proof.
  intros Hlk Hk. apply sorted_idx_id in Hk. unfold sorted_idx.
  enough (sorted_by (fun x : Z => x) l) as He by (unfold sorted_by in He; by rewrite map_id in He).
  revert Hk. induction Hlk as [|x l k Hlk IH|x l k Hlk IH]; intros Hk; [done| |].
  - apply sorted_by_cons in Hk as [Hk Hx]. specialize (IH Hk).
    unfold sorted_by in *. rewrite map_id in *. intros [|i] [|j] a b Hij Ha Hb; cbn in Ha, Hb.
    + simplify_eq. lia.
    + injection Ha as <-. apply Hx. apply list_elem_of_lookup_2 in Hb.
      by apply (elem_of_sublist l k b).
    + lia.
    + apply (IH i j); (done || lia).
  - apply sorted_by_cons in Hk as [Hk _]. by apply IH.
Qed.

Lemma idx_sized_sublist l k : l `sublist_of` k -> idx_sized k -> idx_sized l.
Proof.
  intros Hlk [Hn Hk]. split.
  - apply sublist_length in Hlk. unfold zlen in *. lia.
  - intros t. specialize (Hk t).
    enough (length (filter (fun x => x = t) l) <= length (filter (fun x => x = t) k))%nat by lia.
    clear Hn Hk. induction Hlk as [|x l k Hlk IH|x l k Hlk IH]; rewrite ?filter_cons; [done| |];
      case_decide; cbn [length]; lia.
Qed.

Definition sel_pair (c : SelectedChange) : Z * WaveformValue := (sel_time_idx c, sel_value c).

(** The value a selection takes from a base value. *)
Definition sel_wv (sel : PackedSelection) (v : WaveformValue) : WaveformValue :=
  MkWV BitVector (default [] (select_packed_bits sel (text v))) 0.


Definition in_window (b e : Z) (r : SignalChange) : Prop := b <= sc_time_idx r <= e.
#[export] Instance in_window_dec b e r : Decision (in_window b e r).
Proof. unfold in_window. apply _. Defined.

(** ** Handles

    A virtual handle is the flag plus a 1-based ordinal; native references
    leave the flag clear. *)

Lemma land_native r : 0 <= r < 2 ^ 31 -> Z.land r kVirtualSignalFlag = 0.
Proof.
  intros Hr. rewrite <- (Z.mod_small r (2 ^ 31)) by done. rewrite <- Z.land_ones by lia.
  by rewrite <- Z.land_assoc, Z.land_0_r.
Qed.

Lemma lor_handle k : 0 <= k < 2 ^ 31 -> Z.lor kVirtualSignalFlag k = kVirtualSignalFlag + k.
Proof.
  intros Hk. pose proof (Z.add_lor_land kVirtualSignalFlag k) as E.
  rewrite (Z.land_comm kVirtualSignalFlag k), land_native in E by done. lia.
Qed.

Lemma land_handle_flag k : 0 <= k < 2 ^ 31 ->
  Z.land (kVirtualSignalFlag + k) kVirtualSignalFlag = kVirtualSignalFlag.
Proof.
  intros Hk. rewrite <- lor_handle by done. rewrite Z.land_lor_distr_l, Z.land_diag.
  by rewrite land_native.
Qed.

Lemma land_handle_index k : 0 <= k < 2 ^ 31 ->
  Z.land (kVirtualSignalFlag + k) (u32_max - kVirtualSignalFlag) = k.
Proof.
  intros Hk. change (u32_max - kVirtualSignalFlag) with (Z.ones 31).
  rewrite Z.land_ones by lia. change kVirtualSignalFlag with (1 * 2 ^ 31).
  by rewrite Z.add_comm, Z_mod_plus_full, Z.mod_small.
Qed.

Section Theory.
Context {D X : Type} `{WellenDoc D X}.
Abbreviation W := (WellenFstBackend D X).

(** *** Native values: the two-call protocol reads the stored change *)

Definition wv_of (c : WellenSignalEncoding * bytes * Z) : WaveformValue :=
  let '(enc, text, real) := c in
  match enc with
  | WELLEN_REAL => MkWV Real [] real
  | WELLEN_STRING => MkWV VString text 0
  | WELLEN_EVENT => MkWV Event [] 0
  | WELLEN_BITVECTOR => MkWV BitVector text 0
  end.

Lemma resize_exact (t : bytes) : resize (zlen t) t = t.
Proof.
  unfold resize, zlen. rewrite Nat2Z.id, Nat.sub_diag. cbn [replicate].
  by rewrite app_nil_r, firstn_all.
Qed.

Lemma native_typed_value_stored (w : W) d ref start element :
  db w = Some d -> 0 <= start -> 0 <= element ->
  native_typed_value_at w ref start element = wv_of <$> stored d ref (start + element).
Proof.
  intros Hd Hs He. unfold native_typed_value_at. rewrite Hd. cbn [mbind option_bind].
  rewrite !typed_reply by done.
  destruct (stored d ref (start + element)) as [[[enc t] r]|]; [|done].
  pose proof (zlen_nonneg t).
  destruct (Z.ltb_spec 0 (zlen t)); cbn [tr_result tr_text_len Z.eqb negb andb];
    rewrite Z.ltb_irrefl; cbn [tr_result tr_text tr_text_len tr_encoding tr_real Z.eqb negb];
    (rewrite (drop_ge _ (length t)) by (rewrite length_replicate; unfold zlen; lia));
    rewrite app_nil_r, resize_exact; by destruct enc.
Qed.

(** *** The changes of a loaded native signal *)

Definition native_changes (d : D) (x : X) (ref : Z) : list (Z * WaveformValue) :=
  match wellen_signal_info d ref with
  | None => []
  | Some _ =>
      imap (fun i t => (t, default wv_default (wv_of <$> stored d ref (Z.of_nat i))))
        (default [] (wellenx_signal_time_indices x ref))
  end.

Lemma native_changes_times d x ref i l : wellen_signal_info d ref = Some i ->
  wellenx_signal_time_indices x ref = Some l -> map fst (native_changes d x ref) = l.
Proof.
  intros Hi Hl. unfold native_changes. rewrite Hi, Hl. cbn [default from_option id].
  change (map fst) with (fmap (M := list) (@fst Z WaveformValue)).
  rewrite fmap_imap. transitivity (imap (fun _ : nat => @id Z) l); [done|].
  rewrite (imap_const id). apply list_fmap_id.
Qed.

Lemma native_changes_lookup d x ref i n c : paired d x -> wellen_signal_info d ref = Some i ->
  native_changes d x ref !! n = Some c -> wv_of <$> stored d ref (Z.of_nat n) = Some c.2.
Proof.
  intros Hp Hi Hc. destruct (indices_ok d x ref i Hp Hi) as (l & Hl & _ & _ & _ & Hs & _).
  unfold native_changes in Hc. rewrite Hi, Hl in Hc. cbn [default from_option id] in Hc.
  rewrite list_lookup_imap in Hc. destruct (l !! n) as [t|] eqn:Ht; [|done].
  cbn [fmap option_fmap option_map] in Hc. injection Hc as <-. cbn [snd].
  apply lookup_lt_Some in Ht. destruct (proj2 (Hs (Z.of_nat n))) as [v Hv]; [unfold zlen; lia|].
  by rewrite Hv.
Qed.

Lemma native_time_indices_eq (w : W) d x ref : db w = Some d -> xdb w = Some x -> paired d x ->
  native_time_indices_of w ref = map fst (native_changes d x ref).
Proof.
  intros Hd Hx Hp. unfold native_time_indices_of. rewrite Hd, Hx. cbn [mbind option_bind].
  destruct (wellen_signal_info d ref) as [i|] eqn:Hi; cbn [mbind option_bind].
  - destruct (indices_ok d x ref i Hp Hi) as (l & Hl & Hn & _).
    rewrite (native_changes_times d x ref i l Hi Hl).
    destruct (Z.eqb_spec (wi_num_changes i) 0); [|by rewrite Hl].
    destruct l; [done|]. unfold zlen in Hn. cbn in Hn. lia.
  - unfold native_changes. by rewrite Hi.
Qed.

(** *** Removing repeated values keeps every settled value *)

Definition dedup_inv (sel : PackedSelection) (done : list (Z * WaveformValue))
    (selected : list SelectedChange) (previous : bytes) : Prop :=
  (selected = [] <-> done = []) /\
  (selected <> [] -> sel_value <$> list.last selected = Some (MkWV BitVector previous 0)) /\
  map sel_time_idx selected `sublist_of` map fst done /\
  forall point ti,
    sel_value <$> list.last (below sel_time_idx (threshold point ti) selected) =
    sel_wv sel <$> settled point ti done.

Lemma below_snoc {A} (tm : A -> Z) P `{!forall t, Decision (P t)} l c :
  below tm P (l ++ [c]) = if decide (P (tm c)) then below tm P l ++ [c] else below tm P l.
Proof.
  unfold below. rewrite list.filter_app, filter_cons. case_decide; cbn; by rewrite ?app_nil_r.
Qed.

Lemma dedup_step sel done c selected previous value :
  (forall y, y ∈ done -> y.1 <= c.1) ->
  select_packed_bits sel (text c.2) = Some value ->
  dedup_inv sel done selected previous ->
  (selected <> [] -> value = previous -> dedup_inv sel (done ++ [c]) selected previous) /\
  dedup_inv sel (done ++ [c]) (selected ++ [MkSel c.1 (MkWV BitVector value 0)]) value.
Proof.
  intros Hle Hv (Hnil & Hlast & Hsub & Hset).
  assert (forall point ti, threshold point ti c.1 ->
    below fst (threshold point ti) done = done /\
    below sel_time_idx (threshold point ti) selected = selected) as Hall.
  { intros point ti Hp. split; apply filter_all.
    - intros y Hy. revert Hp. by apply threshold_down, Hle.
    - intros y Hy. apply (list_elem_of_fmap_2 sel_time_idx) in Hy.
      apply (elem_of_sublist _ _ _ Hy) in Hsub.
      apply list_elem_of_fmap in Hsub as (z & -> & Hz). revert Hp. by apply threshold_down, Hle. }
  assert (sel_wv sel c.2 = MkWV BitVector value 0) as Hw by (unfold sel_wv; by rewrite Hv).
  split.
  - intros Hne ->. split; [|split; [done|split]].
    + split; [done|]. intros E. by destruct done.
    + change (map fst) with (fmap (M := list) (@fst Z WaveformValue)). rewrite fmap_app.
      by apply sublist_inserts_r.
    + intros point ti. unfold settled. rewrite below_snoc.
      destruct (decide (threshold point ti c.1)) as [Hp|Hp]; [|apply Hset].
      destruct (Hall point ti Hp) as [_ ->]. rewrite last_snoc, (Hlast Hne). cbn. by rewrite Hw.
  - split; [|split; [|split]].
    + split; intros E; by apply app_eq_nil in E as [_ ?].
    + intros _. by rewrite last_snoc.
    + change (map sel_time_idx) with (fmap (M := list) sel_time_idx).
      change (map fst) with (fmap (M := list) (@fst Z WaveformValue)). rewrite !fmap_app.
      by apply sublist_app.
    + intros point ti. unfold settled. rewrite !below_snoc. cbn [sel_time_idx].
      destruct (decide (threshold point ti c.1)) as [Hp|Hp]; [|apply Hset].
      rewrite !last_snoc. cbn. by rewrite Hw.
Qed.

Lemma select_changes_inv (w : W) sel todo : forall done selected previous cs,
  sorted_by fst (done ++ todo) ->
  (forall n c, (done ++ todo) !! n = Some c ->
     native_typed_value_at w (base_ref sel) (u32 (Z.of_nat n)) 0 = Some c.2) ->
  dedup_inv sel done selected previous ->
  select_changes w sel (map fst todo) (length done) selected previous = Some cs ->
  exists previous', dedup_inv sel (done ++ todo) cs previous'.
Proof.
  induction todo as [|c todo IH]; intros done selected previous cs Hs Hv Hinv Hcs;
    cbn [map select_changes] in Hcs.
  { injection Hcs as <-. rewrite app_nil_r. by exists previous. }
  rewrite (Hv (length done) c) in Hcs by (by rewrite list_lookup_middle).
  cbn [mbind option_bind] in Hcs. case_if_in Hcs; [done|].
  destruct (select_packed_bits sel (text c.2)) as [value|] eqn:Hval; [|done].
  cbn [mbind option_bind] in Hcs.
  destruct (dedup_step sel done c selected previous value (sorted_by_app fst done c todo Hs) Hval Hinv)
    as [Hskip Hpush].
  replace (S (length done)) with (length (done ++ [c])) in Hcs by (rewrite length_app; cbn; lia).
  change (c :: todo) with ([c] ++ todo) in Hs, Hv |- *. rewrite (assoc_L (++)) in Hs, Hv |- *.
  case_if_in Hcs.
  - bsplit. apply (IH _ _ _ _ Hs Hv) in Hcs; [done|]. apply Hskip.
    + by eapply bool_decide_eq_false.
    + by apply eqs_true.
  - by apply (IH _ _ _ _ Hs Hv) in Hcs.
Qed.

(** *** The name index *)

Definition ref_ok (r : Z) : Prop := 0 < r < 2 ^ 31.
Definition range_ok (r : DeclaredRange) : Prop :=
  i64_min <= dr_msb r <= i64_max /\ i64_min <= dr_lsb r <= i64_max /\ dr_width r <= u32_max.
Definition refs_ok (m : gmap bytes Z) : Prop := forall k r, m !! k = Some r -> ref_ok r.
Definition ranges_ok (m : gmap bytes DeclaredRange) : Prop :=
  forall k r, m !! k = Some r -> range_ok r.
Definition acc_ok (a : index_acc) : Prop :=
  refs_ok (ia_index a) /\ ranges_ok (ia_ranges a) /\ refs_ok (ia_locals a) /\
  ranges_ok (ia_local_ranges a).

Lemma refs_ok_insert m k r : refs_ok m -> ref_ok r -> refs_ok (<[k := r]> m).
Proof. intros Hm Hr k' r' [[_ <-]|[_ E]]%lookup_insert_Some; [done|by eapply Hm]. Qed.
Lemma ranges_ok_insert m k r : ranges_ok m -> range_ok r -> ranges_ok (<[k := r]> m).
Proof. intros Hm Hr k' r' [[_ <-]|[_ E]]%lookup_insert_Some; [done|by eapply Hm]. Qed.
Lemma refs_ok_empty : refs_ok ∅.
Proof. intros k r E. by rewrite lookup_empty in E. Qed.
Lemma ranges_ok_empty : ranges_ok ∅.
Proof. intros k r E. by rewrite lookup_empty in E. Qed.
Hint Resolve refs_ok_insert ranges_ok_insert refs_ok_empty ranges_ok_empty : xd.

Lemma index_var_ok d a vr : acc_ok a -> acc_ok (index_var d a vr).
Proof.
  intros (H1 & H2 & H3 & H4). unfold index_var.
  destruct (vr =? 0); [done|]. case_if; [done|].
  destruct (Z.eqb_spec (wellen_var_signal_ref d vr) 0); [done|].
  assert (ref_ok (wellen_var_signal_ref d vr))
    by (pose proof (signal_ref_range d vr); unfold ref_ok; lia).
  pose proof (var_width_range d vr) as Hw.
  destruct (wellen_var_encoding d vr) as [enc width]. cbn [snd] in Hw.
  set (index := if bool_decide (enc = WELLEN_BITVECTOR) then wellen_var_index d vr else None).
  set (range := match index with Some (m, l) => MkDR m l width | None => MkDR 0 0 width end).
  assert (range_ok range) as Hr.
  { unfold range. destruct index as [[m l]|] eqn:E; [|unfold range_ok, i64_min, i64_max; cbn; lia].
    unfold index in E. case_bool_decide; [|done]. apply var_index_range in E.
    unfold range_ok. cbn. lia. }
  clearbody range. generalize (bool_decide (is_Some index)). intros has_range.
  repeat case_if; repeat case_match; unfold acc_ok;
    cbn [ia_index ia_ranges ia_locals ia_local_ranges]; auto 10 with xd.
Qed.

Lemma foldl_ok {A B} (P : A -> Prop) (f : A -> B -> A) l a :
  (forall a b, P a -> P (f a b)) -> P a -> P (foldl f a l).
Proof. intros Hf. revert a. induction l as [|b l IH]; cbn; auto. Qed.

Lemma index_of_ok d : refs_ok (index_of d ∅ ∅).1 /\ ranges_ok (index_of d ∅ ∅).2.
Proof.
  unfold index_of.
  set (a := foldl (index_scope d) _ _).
  assert (acc_ok a) as (H1 & H2 & H3 & H4).
  { apply foldl_ok; [|unfold acc_ok; cbn; auto 10 with xd].
    intros b si Hb. unfold index_scope. case_if; [done|]. apply foldl_ok; [|done].
    intros c vi. apply index_var_ok. }
  clearbody a.
  assert (forall l m, (forall k r, (k, r) ∈ l -> ref_ok r) -> refs_ok m.1 /\ ranges_ok m.2 ->
    refs_ok (foldl (index_local a) m l).1 /\ ranges_ok (foldl (index_local a) m l).2) as Hl.
  { induction l as [|[k r] l IH]; intros m Hk Hm; cbn [foldl]; [done|].
    apply IH; [intros k' r' Hin; apply (Hk k' r'); by right|].
    destruct m as [index ranges]. cbn [fst snd] in Hm. destruct Hm as [Hm1 Hm2].
    pose proof (Hk k r (list_elem_of_here _ _)) as Hr.
    unfold index_local. case_if; [done|]. cbn [fst snd]. split; [auto with xd|].
    destruct (ia_local_ranges a !! k) eqn:E; [|done]. case_if; [done|].
    apply ranges_ok_insert; [done|by eapply H4]. }
  apply Hl; [|done]. intros k r Hin. apply elem_of_map_to_list in Hin. by eapply H3.
Qed.

Lemma parse_selection_ok index ranges path sel : refs_ok index -> ranges_ok ranges ->
  parse_selection index ranges path = Some sel -> selection_ok sel /\ ref_ok (base_ref sel).
Proof.
  intros Hi Hr. unfold parse_selection. case_if; [done|].
  destruct (rfind "["%char path) as [[|open]|]; [done| |done].
  destruct (index !! take (S open) path) as [base|] eqn:Hbase; [|done]. cbn [mbind option_bind].
  case_if; [done|].
  destruct (ranges !! take (S open) path) as [r|] eqn:Hrange; [|done]. cbn [mbind option_bind].
  destruct (Hr _ _ Hrange) as (Hm & Hl & Hw). pose proof (Hi _ _ Hbase).
  destruct (_ || _) eqn:Hz; [done|]. apply orb_false_iff in Hz as [Hz1 Hz2].
  apply negb_false_iff in Hz2.
  case_if; [done|].
  generalize (parse_signed_index (match find_char ":"%char
    (take (length path - S open - 2) (drop (S open + 1) path)) with
    | Some c => take c (take (length path - S open - 2) (drop (S open + 1) path))
    | None => take (length path - S open - 2) (drop (S open + 1) path) end)).
  intros [smsb|]; [|done]. cbn [mbind option_bind].
  match goal with |- context [mbind _ ?c] => destruct c as [slsb|]; [|done] end.
  cbn [mbind option_bind]. case_if; [done|]. case_if; [done|]. intros [= <-].
  bsplit. cbn [base_ref]. split; [|done]. unfold selection_ok.
  cbn [declared_msb declared_lsb selected_msb selected_lsb ps_width].
  assert (Z.abs (dr_msb r - dr_lsb r) + 1 = range_width (dr_msb r) (dr_lsb r)) as Hd.
  { apply range_width_inv; [done|done|]. pose proof (u64_range 0).
    assert (0 <= range_width (dr_msb r) (dr_lsb r)) by (unfold range_width; apply u64_range). lia. }
  assert (range_width smsb slsb = Z.abs (smsb - slsb) + 1) as Hsw
    by (apply range_width_exact; unfold u32_max in *; lia).
  rewrite Hsw in *. unfold u32, u32_max in *. rewrite Z.mod_small by lia. repeat split; lia.
Qed.

(** *** The backend's invariant *)

Definition handle (k : nat) : Z := kVirtualSignalFlag + Z.of_nat (S k).

Record wf (w : W) : Prop := {
  wf_handles : match db w, xdb w with
               | Some d, Some x => paired d x
               | None, None => True
               | _, _ => False
               end;
  wf_index : if signal_index_built w
             then signal_index_build_count w = 1 /\
                  exists d, db w = Some d /\ (signal_index w, declared_ranges w) = index_of d ∅ ∅
             else signal_index_build_count w = 0 /\ signal_index w = ∅ /\ declared_ranges w = ∅ /\
                  packed_selection_index w = ∅ /\ packed_selections w = [];
  wf_size : zlen (packed_selections w) < 2 ^ 31;
  wf_paths : forall p h, packed_selection_index w !! p = Some h ->
    exists k sel, h = handle k /\ packed_selections w !! k = Some sel /\
      parse_selection (signal_index w) (declared_ranges w) p = Some sel;
  wf_inj : forall p q h, packed_selection_index w !! p = Some h ->
    packed_selection_index w !! q = Some h -> p = q;
  wf_selections : Forall (fun sel => selection_ok sel /\ ref_ok (base_ref sel)) (packed_selections w);
  wf_cache : forall h cs, selected_change_cache w !! h = Some cs ->
    exists sel, packed_selection w h = Some sel /\
      is_Some (d ← db w; wellen_signal_info d (base_ref sel)) /\
      select_changes w sel (native_time_indices_of w (base_ref sel)) 0 [] [] = Some cs;
}.

Lemma packed_selection_handle (w : W) k sel : zlen (packed_selections w) < 2 ^ 31 ->
  packed_selections w !! k = Some sel -> packed_selection w (handle k) = Some sel.
Proof.
  intros Hs Hk. apply lookup_lt_Some in Hk as Hlt. unfold packed_selection, handle, zlen in *.
  rewrite land_handle_flag, land_handle_index by lia. cbn [Z.eqb kVirtualSignalFlag].
  rewrite (proj2 (Z.eqb_neq _ _)), (proj2 (Z.ltb_ge _ _)) by lia. cbn [orb].
  by replace (Z.to_nat (Z.of_nat (S k) - 1)) with k by lia.
Qed.

Lemma packed_selection_native (w : W) r : 0 <= r < 2 ^ 31 -> packed_selection w r = None.
Proof. intros Hr. unfold packed_selection. by rewrite land_native. Qed.

Lemma native_ref_native (w : W) r : 0 <= r < 2 ^ 31 -> native_signal_ref w r = r.
Proof.
  intros Hr. unfold native_signal_ref. rewrite packed_selection_native by done.
  by rewrite land_native.
Qed.

(** Growing the selection table keeps what existing handles mean. *)
Lemma packed_selection_app (w w' : W) h sel k :
  packed_selections w' = packed_selections w ++ k ->
  packed_selection w h = Some sel -> packed_selection w' h = Some sel.
Proof.
  unfold packed_selection. intros -> Hh. destruct (Z.land h kVirtualSignalFlag =? 0); [done|].
  generalize dependent (Z.land h (u32_max - kVirtualSignalFlag)). intros i Hh.
  destruct (Z.eqb_spec i 0); [done|]. cbn [orb] in *. case_if_in Hh; [done|].
  assert ((zlen (packed_selections w ++ k) <? i) = false) as ->
    by (apply Z.ltb_ge in Heqb; apply Z.ltb_ge; unfold zlen in *; rewrite length_app; lia). rewrite lookup_app_l; [done|]. by eapply lookup_lt_Some.
Qed.

(** A state that differs only in tables the changes do not use. *)
Lemma native_typed_value_db (w w' : W) r s e :
  db w' = db w -> native_typed_value_at w' r s e = native_typed_value_at w r s e.
Proof. intros E. unfold native_typed_value_at. by rewrite E. Qed.

Lemma select_changes_ext (w w' : W) sel idx : forall n selected previous,
  (forall m, 0 <= m ->
     native_typed_value_at w' (base_ref sel) m 0 = native_typed_value_at w (base_ref sel) m 0) ->
  select_changes w' sel idx n selected previous = select_changes w sel idx n selected previous.
Proof.
  induction idx as [|t idx IH]; intros n selected previous Hv; cbn [select_changes]; [done|].
  rewrite Hv by apply u32_range.
  destruct (native_typed_value_at w _ _ _) as [v|]; [|done]. cbn [mbind option_bind].
  case_if; [done|]. destruct (select_packed_bits sel (text v)); [|done]. cbn [mbind option_bind].
  case_if; by apply IH.
Qed.

Lemma native_time_indices_db (w w' : W) r :
  db w' = db w -> xdb w' = xdb w -> native_time_indices_of w' r = native_time_indices_of w r.
Proof. intros E1 E2. unfold native_time_indices_of. by rewrite E1, E2. Qed.

Lemma select_changes_db (w w' : W) sel : db w' = db w -> xdb w' = xdb w ->
  select_changes w' sel (native_time_indices_of w' (base_ref sel)) 0 [] [] =
  select_changes w sel (native_time_indices_of w (base_ref sel)) 0 [] [].
Proof.
  intros E1 E2. rewrite (native_time_indices_db w w') by done.
  apply select_changes_ext. intros m _. by apply native_typed_value_db.
Qed.

(** *** Lookup: a pure resolution *)

Inductive target := TNone | TNative (ref : Z) | TVirtual (sel : PackedSelection).

Definition resolve_key (index : gmap bytes Z) (ranges : gmap bytes DeclaredRange)
    (key : bytes) : target :=
  match index !! key with
  | Some ref => TNative ref
  | None =>
      match parse_selection index ranges key with
      | Some sel => TVirtual sel
      | None => TNone
      end
  end.

(** The exact name first, then the name without a duplicated root. *)
Definition resolve (odb : option D) (path : bytes) : target :=
  match odb with
  | None => TNone
  | Some d =>
      if eqs path [] then TNone else
      let '(index, ranges) := index_of d ∅ ∅ in
      let key := normalize_path path in
      match resolve_key index ranges key with
      | TNone => if starts_with (lit "top.") key then resolve_key index ranges (drop 4 key) else TNone
      | t => t
      end
  end.

Definition denotes (w : W) (h : Z) (t : target) : Prop :=
  match t with
  | TNone => h = kInvalidSignalRef
  | TNative ref => h = ref /\ ref_ok ref
  | TVirtual sel => packed_selection w h = Some sel /\ h <> 0 /\ ref_ok (base_ref sel) /\
                    selection_ok sel
  end.

(** [w'] extends [w]: same file, same meaning of every handle. *)
Definition extends (w w' : W) : Prop :=
  db w' = db w /\ xdb w' = xdb w /\ time_table w' = time_table w /\
  forall h sel, packed_selection w h = Some sel -> packed_selection w' h = Some sel.

Lemma extends_refl w : extends w w.
Proof. unfold extends. auto. Qed.

Lemma extends_trans w1 w2 w3 : extends w1 w2 -> extends w2 w3 -> extends w1 w3.
Proof. intros (? & ? & ? & ?) (? & ? & ? & ?). unfold extends. repeat split; auto; congruence. Qed.

Lemma denotes_extends w w' h t : extends w w' -> denotes w h t -> denotes w' h t.
Proof. intros (_ & _ & _ & Hh). destruct t; cbn; [done|done|]. intros (? & ?). auto. Qed.

Lemma build_wf (w : W) d : db w = Some d -> wf w ->
  let w' := build_signal_index w in
  wf w' /\ extends w w' /\ packed_selections w' = packed_selections w /\
  signal_index_built w' = true /\ (signal_index w', declared_ranges w') = index_of d ∅ ∅.
Proof.
  intros Hd Hw. unfold build_signal_index. rewrite Hd.
  destruct (signal_index_built w) eqn:Hb.
  - pose proof (wf_index w Hw) as Hi. rewrite Hb in Hi. destruct Hi as (_ & d' & Hd' & Hi).
    rewrite Hd in Hd'. injection Hd' as <-. auto using extends_refl.
  - pose proof (wf_index w Hw) as Hi. rewrite Hb in Hi. destruct Hi as (Hc & Hi & Hr & Hp & Hps).
    rewrite Hi, Hr, Hc. destruct (index_of d ∅ ∅) as [index ranges] eqn:E.
    cbn [packed_selections signal_index_built signal_index declared_ranges].
    split; [|split; [unfold extends; cbn; auto|done]].
    destruct Hw. constructor; cbn; try done.
    + rewrite Hd in *. done.
    + split; [done|]. by exists d.
    + intros p h Hp'. by rewrite Hp, lookup_empty in Hp'.
    + intros h cs Hcs. destruct (wf_cache0 h cs Hcs) as (sel & Hsel & Hinfo & Hch).
      exists sel. split; [done|]. rewrite Hd in Hinfo. split; [done|].
      etransitivity; [|exact Hch]. by apply select_changes_db.
Qed.

Definition selection_target (o : option PackedSelection) : target :=
  match o with Some sel => TVirtual sel | None => TNone end.

Definition same_index (w w' : W) : Prop :=
  signal_index w' = signal_index w /\ declared_ranges w' = declared_ranges w /\
  signal_index_built w' = signal_index_built w /\
  signal_index_build_count w' = signal_index_build_count w.

Lemma built_ok (w : W) : wf w -> refs_ok (signal_index w) /\ ranges_ok (declared_ranges w).
Proof.
  intros Hw. pose proof (wf_index w Hw) as Hi. destruct (signal_index_built w).
  - destruct Hi as (_ & d & _ & E). pose proof (index_of_ok d) as Ho. by rewrite <- E in Ho.
  - destruct Hi as (_ & -> & -> & _). split; [apply refs_ok_empty|apply ranges_ok_empty].
Qed.

Lemma handle_bound (w : W) p h : wf w -> packed_selection_index w !! p = Some h ->
  kVirtualSignalFlag < h <= kVirtualSignalFlag + zlen (packed_selections w).
Proof.
  intros Hw Hp. destruct (wf_paths w Hw p h Hp) as (k & sel & -> & Hk & _).
  apply lookup_lt_Some in Hk. unfold handle, zlen. lia.
Qed.

(** Appending a selection under a fresh handle keeps the invariant. *)
Lemma push_wf (w : W) key sel : wf w -> signal_index_built w = true ->
  packed_selection_index w !! key = None ->
  parse_selection (signal_index w) (declared_ranges w) key = Some sel ->
  zlen (packed_selections w) + 1 < 2 ^ 31 ->
  let h := handle (length (packed_selections w)) in
  let w' := MkW (db w) (xdb w) (time_table w) (time_scale w) (name_cache w) (signal_index w)
               (signal_index_built w) (signal_index_build_count w) (declared_ranges w)
               (<[key := h]> (packed_selection_index w)) (packed_selections w ++ [sel])
               (selected_change_cache w) in
  wf w' /\ extends w w' /\ packed_selection w' h = Some sel.
Proof.
  intros Hw Hbuilt Hnew Hsel Hroom h w'.
  assert (zlen (packed_selections w') < 2 ^ 31) as Hsz
    by (unfold zlen in *; cbn; rewrite length_app; cbn; lia).
  assert (forall k s, packed_selections w !! k = Some s -> packed_selections w' !! k = Some s) as Hold
    by (intros k s Hk; by apply lookup_app_l_Some).
  assert (packed_selections w' !! length (packed_selections w) = Some sel) as Hat
    by (by apply list_lookup_middle).
  destruct (built_ok w Hw) as [Hrefs Hranges].
  split; [|split].
  - constructor; try apply Hw; try done.
    + pose proof (wf_index w Hw) as Hi. cbn. by rewrite Hbuilt in *.
    + intros p h' Hp. change (<[key := h]> (packed_selection_index w) !! p = Some h') in Hp.
      apply lookup_insert_Some in Hp as [[<- <-]|[Hne Hp]].
      * by exists (length (packed_selections w)), sel.
      * destruct (wf_paths w Hw p h' Hp) as (k & s & -> & Hk & Hs).
        exists k, s. auto.
    + intros p q h' Hp Hq.
      change (<[key := h]> (packed_selection_index w) !! p = Some h') in Hp.
      change (<[key := h]> (packed_selection_index w) !! q = Some h') in Hq.
      apply lookup_insert_Some in Hp as [[<- <-]|[Hne Hp]];
        apply lookup_insert_Some in Hq as [[<- Hq]|[Hne' Hq]]; try done.
      * pose proof (handle_bound w q _ Hw Hq). unfold h, handle, zlen in *. lia.
      * subst h'. pose proof (handle_bound w p _ Hw Hp). unfold h, handle, zlen in *. lia.
      * by apply (wf_inj w Hw p q h').
    + apply Forall_app. split; [apply Hw|]. constructor; [|done].
      by apply (parse_selection_ok (signal_index w) (declared_ranges w) key).
    + intros h' cs Hcs. destruct (wf_cache w Hw h' cs Hcs) as (s & Hs & Hinfo & Hch).
      exists s. split; [by apply (packed_selection_app w w' h' s [sel])|]. split; [done|].
      etransitivity; [|exact Hch]. by apply select_changes_db.
  - unfold extends. split; [done|]. split; [done|]. split; [done|].
    intros h' s Hs. by apply (packed_selection_app w w' h' s [sel]).
  - by apply packed_selection_handle.
Qed.

Lemma create_refines (w : W) key : wf w -> signal_index_built w = true ->
  zlen (packed_selections w) + 1 < 2 ^ 31 ->
  let '(h, w') := create_packed_selection w key in
  wf w' /\ extends w w' /\ same_index w w' /\
  denotes w' h (selection_target (parse_selection (signal_index w) (declared_ranges w) key)) /\
  zlen (packed_selections w') <= zlen (packed_selections w) + (if h =? 0 then 0 else 1).
Proof.
  intros Hw Hb Hroom. unfold create_packed_selection. destruct (built_ok w Hw) as [Hrefs Hranges].
  destruct (packed_selection_index w !! key) as [h|] eqn:Hp.
  - destruct (wf_paths w Hw key h Hp) as (k & sel & -> & Hk & Hs). rewrite Hs.
    destruct (parse_selection_ok _ _ _ _ Hrefs Hranges Hs).
    pose proof (wf_size w Hw). pose proof (handle_bound w key _ Hw Hp).
    split; [done|]. split; [apply extends_refl|]. split; [done|]. split; [|case_if; lia].
    cbn. split; [by apply packed_selection_handle|]. unfold kVirtualSignalFlag in *. split; [lia|done].
  - destruct (parse_selection _ _ key) as [sel|] eqn:Hs.
    + destruct (parse_selection_ok _ _ _ _ Hrefs Hranges Hs).
      rewrite (proj2 (Z.leb_gt _ _)) by (unfold kVirtualSignalFlag; lia).
      assert (Z.lor kVirtualSignalFlag (u32 (zlen (packed_selections w ++ [sel]))) =
              handle (length (packed_selections w))) as ->.
      { unfold zlen in *. rewrite length_app. cbn [length]. unfold u32. rewrite Z.mod_small by lia.
        rewrite lor_handle by lia. unfold handle. lia. }
      destruct (push_wf w key sel Hw Hb Hp Hs Hroom) as (Hw' & He & Hsel).
      split; [done|]. split; [done|]. split; [done|]. split.
      * cbn [denotes selection_target]. split; [done|]. split; [|done].
        unfold handle, kVirtualSignalFlag. lia.
      * unfold handle, kVirtualSignalFlag. rewrite (proj2 (Z.eqb_neq _ _)) by lia.
        unfold zlen. cbn. rewrite length_app. cbn. lia.
    + split; [done|]. split; [apply extends_refl|]. split; [done|]. split; [done|]. cbn. lia.
Qed.

Lemma resolve_key_native (w : W) key r : wf w -> signal_index w !! key = Some r -> ref_ok r.
Proof. intros Hw. destruct (built_ok w Hw) as [Hr _]. apply Hr. Qed.

(** Lookup implements [resolve], within the room for one more handle. *)
Lemma find_signal_refines (w : W) path : wf w -> zlen (packed_selections w) + 1 < 2 ^ 31 ->
  let '(h, w') := find_signal w path in
  wf w' /\ extends w w' /\ denotes w' h (resolve (db w) path) /\
  zlen (packed_selections w') <= zlen (packed_selections w) + 1.
Proof.
  intros Hw Hroom. unfold find_signal, resolve, is_open.
  destruct (db w) as [d|] eqn:Hd; cycle 1.
  { rewrite bool_decide_false by (by intros [? ?]). rewrite orb_true_r. cbn.
    auto using extends_refl with lia. }
  rewrite bool_decide_true by eauto. cbn [negb]. rewrite orb_false_r.
  destruct (eqs path []) eqn:Hpath; [cbn; auto using extends_refl with lia|].
  destruct (build_wf w d Hd Hw) as (Hw1 & He1 & Hps & Hb1 & Hix).
  set (w1 := build_signal_index w) in *. rewrite <- Hix. rewrite <- Hps in *. clearbody w1.
  unfold resolve_key. set (key := normalize_path path). cbv beta iota zeta.
  destruct (signal_index w1 !! key) as [r|] eqn:Hr.
  { cbn. split; [done|]. split; [done|]. split; [|lia].
    split; [done|]. by eapply resolve_key_native. }
  pose proof (create_refines w1 key Hw1 Hb1 Hroom) as Hc.
  destruct (create_packed_selection w1 key) as [h w2].
  destruct Hc as (Hw2 & He2 & (Hi2 & Hr2 & Hb2 & _) & Hden & Hz).
  destruct (parse_selection _ _ key) as [sel|] eqn:Hs; cbn [selection_target] in Hden.
  { destruct Hden as (Hsel & Hne & Hok & Hok2). rewrite (proj2 (Z.eqb_neq h _)) by done.
    cbn [negb]. split; [done|]. split; [by eapply extends_trans|]. split; [done|].
    case_if_in Hz; lia. }
  cbn in Hden. subst h. cbn [negb Z.eqb] in *. change (kInvalidSignalRef =? kInvalidSignalRef) with true.
  change (kInvalidSignalRef =? 0) with true in Hz. cbn [negb] in *.
  assert (He : extends w w2) by (by eapply extends_trans).
  destruct (starts_with (lit "top.") key); [|split; [done|]; split; [done|]; split; [done|lia]].
  rewrite Hi2. destruct (signal_index w1 !! drop 4 key) as [r|] eqn:Hr'.
  { split; [done|]. split; [done|]. split; [|lia]. split; [done|].
    eapply (resolve_key_native w1); done. }
  pose proof (create_refines w2 (drop 4 key) Hw2 ltac:(congruence) ltac:(lia)) as Hc.
  destruct (create_packed_selection w2 (drop 4 key)) as [h w3].
  destruct Hc as (Hw3 & He3 & _ & Hden3 & Hz3). rewrite Hi2, Hr2 in Hden3.
  assert (extends w w3) by (by eapply extends_trans).
  destruct (parse_selection _ _ (drop 4 key)) as [sel|]; cbn [selection_target] in Hden3.
  - destruct Hden3 as (Hsel & Hne & Hok & Hok2). rewrite (proj2 (Z.eqb_neq h _)) by done.
    cbn [negb]. split; [done|]. split; [done|]. split; [done|]. case_if_in Hz3; lia.
  - cbn in Hden3. subst h. change (kInvalidSignalRef =? kInvalidSignalRef) with true.
    change (kInvalidSignalRef =? 0) with true in Hz3. cbn [negb] in *.
    split; [done|]. split; [done|]. split; [done|lia].
Qed.

(** *** What a target's changes are

    A function of the open handles alone: no cache occurs in it. *)

Definition at_handles (od : option D) (ox : option X) : W := set_handles initial od ox.

Definition selection_changes (od : option D) (ox : option X) (sel : PackedSelection)
    : list SelectedChange :=
  match d ← od; wellen_signal_info d (base_ref sel) with
  | None => []
  | Some _ =>
      let w := at_handles od ox in
      default [] (select_changes w sel (native_time_indices_of w (base_ref sel)) 0 [] [])
  end.

Definition target_changes (od : option D) (ox : option X) (t : target)
    : list (Z * WaveformValue) :=
  match t, od, ox with
  | TNative r, Some d, Some x => native_changes d x r
  | TVirtual sel, _, _ => map sel_pair (selection_changes od ox sel)
  | _, _, _ => []
  end.

Lemma native_changes_ok d x r : paired d x ->
  sorted_idx (map fst (native_changes d x r)) /\ idx_sized (map fst (native_changes d x r)).
Proof.
  intros Hp. destruct (wellen_signal_info d r) as [i|] eqn:Hi.
  - destruct (indices_ok d x r i Hp Hi) as (l & Hl & _ & Hs & Hz & _).
    by rewrite (native_changes_times d x r i l Hi Hl).
  - unfold native_changes. rewrite Hi. split; [by intros ? ? ? ? ? ?|].
    apply idx_sized_small. done.
Qed.

Lemma native_value (w : W) d x r s e : db w = Some d -> paired d x -> 0 <= s -> 0 <= e ->
  native_typed_value_at w r s e = snd <$> native_changes d x r !! Z.to_nat (s + e).
Proof.
  intros Hd Hp Hs He. rewrite (native_typed_value_stored w d) by done.
  destruct (wellen_signal_info d r) as [i|] eqn:Hi.
  - destruct (indices_ok d x r i Hp Hi) as (l & Hl & _ & _ & _ & Hst & _).
    unfold native_changes. rewrite Hi, Hl, list_lookup_imap. cbn [default from_option id].
    destruct (l !! Z.to_nat (s + e)) as [t|] eqn:Ht; cbn [fmap option_fmap option_map snd].
    + rewrite Z2Nat.id by lia. apply lookup_lt_Some in Ht.
      destruct (proj2 (Hst (s + e))) as [v Hv]; [unfold zlen; lia|]. by rewrite Hv.
    + apply lookup_ge_None in Ht. destruct (stored d r (s + e)) as [v|] eqn:Hv; [|done].
      destruct (proj1 (Hst (s + e))); [eauto|]. unfold zlen in *. lia.
  - destruct (unloaded d r 0 Hi) as [_ Hst]. rewrite Hst. unfold native_changes. by rewrite Hi.
Qed.

(** The computed selection: a sub-sequence of the base's change times whose
    settled values are the selected bits of the base's. *)
Lemma selection_changes_inv d x sel : paired d x ->
  selection_changes (Some d) (Some x) sel <> [] ->
  exists previous, dedup_inv sel (native_changes d x (base_ref sel))
    (selection_changes (Some d) (Some x) sel) previous.
Proof.
  intros Hp. unfold selection_changes. cbn [mbind option_bind].
  destruct (wellen_signal_info d (base_ref sel)) as [i|] eqn:Hi; [|done].
  set (w := at_handles (Some d) (Some x)).
  rewrite (native_time_indices_eq w d x) by done.
  destruct (select_changes w sel (map fst (native_changes d x (base_ref sel))) 0 [] []) as [cs|] eqn:E;
    [|done]. cbn [default from_option id]. intros _.
  destruct (native_changes_ok d x (base_ref sel) Hp) as [Hs [Hz _]].
  apply (select_changes_inv w sel (native_changes d x (base_ref sel)) [] [] [] cs); try done.
  - cbn [app]. intros n c Hc.
    apply lookup_lt_Some in Hc as Hlt. unfold zlen in Hz. rewrite length_map in Hz.
    unfold u32. rewrite Z.mod_small by lia.
    rewrite (native_value w d x) by (done || lia).
    by replace (Z.to_nat (Z.of_nat n + 0)) with n by lia; rewrite Hc.
Qed.

Lemma selection_changes_ok d x sel : paired d x ->
  sorted_idx (map fst (map sel_pair (selection_changes (Some d) (Some x) sel))) /\
  idx_sized (map fst (map sel_pair (selection_changes (Some d) (Some x) sel))).
Proof.
  intros Hp. rewrite map_map. cbn [sel_pair fst].
  destruct (native_changes_ok d x (base_ref sel) Hp) as [Hs Hz].
  destruct (decide (selection_changes (Some d) (Some x) sel = [])) as [->|Hne].
  - split; [by intros ? ? ? ? ? ?|]. by apply idx_sized_small.
  - destruct (selection_changes_inv d x sel Hp Hne) as (p & _ & _ & Hsub & _).
    split; [by eapply sorted_idx_sublist|by eapply idx_sized_sublist].
Qed.

Lemma target_changes_ok (w : W) t : wf w ->
  sorted_idx (map fst (target_changes (db w) (xdb w) t)) /\
  idx_sized (map fst (target_changes (db w) (xdb w) t)).
Proof.
  intros Hw. pose proof (wf_handles w Hw) as Hh.
  assert (sorted_idx [] /\ idx_sized []) as Hnil
    by (split; [by intros ? ? ? ? ? ?|by apply idx_sized_small]).
  destruct (db w) as [d|], (xdb w) as [x|]; try done.
  - destruct t; [done|by apply native_changes_ok|by apply selection_changes_ok].
  - by destruct t.
Qed.

(** *** Cached and computed changes agree *)

Lemma set_cache_wf (w : W) h sel cs : wf w -> packed_selection w h = Some sel ->
  is_Some (d ← db w; wellen_signal_info d (base_ref sel)) ->
  select_changes w sel (native_time_indices_of w (base_ref sel)) 0 [] [] = Some cs ->
  wf (set_cache w (<[h := cs]> (selected_change_cache w))).
Proof.
  intros Hw Hsel Hi Hcs. constructor; try apply Hw.
  intros h' cs' E. cbn [set_cache selected_change_cache] in E.
  apply lookup_insert_Some in E as [[<- <-]|[_ E]].
  - exists sel. split; [done|]. split; [done|]. etransitivity; [|exact Hcs]. by apply select_changes_db.
  - destruct (wf_cache w Hw h' cs' E) as (s & Hs & Hi' & Hc).
    exists s. split; [done|]. split; [done|]. etransitivity; [|exact Hc]. by apply select_changes_db.
Qed.

Lemma selected_changes_refines (w : W) h sel : wf w -> packed_selection w h = Some sel ->
  let '(cs, w') := selected_changes w h in
  cs = selection_changes (db w) (xdb w) sel /\ wf w' /\ extends w w' /\
  exists c, w' = set_cache w c.
Proof.
  intros Hw Hsel. unfold selected_changes, selection_changes.
  assert (w = set_cache w (selected_change_cache w)) as Heta by (by destruct w).
  rewrite (select_changes_db w (at_handles (db w) (xdb w))) by done.
  destruct (selected_change_cache w !! h) as [cs|] eqn:Hc.
  - destruct (wf_cache w Hw h cs Hc) as (s & Hs & Hi & Hcs). simplify_eq.
    destruct Hi as [i Hi]. rewrite Hi, Hcs. eauto using extends_refl.
  - rewrite Hsel. destruct (d ← db w; wellen_signal_info d (base_ref sel)) as [i|] eqn:Hi;
      [|eauto using extends_refl].
    destruct (select_changes w sel _ 0 [] []) as [cs|] eqn:Hcs; [|eauto using extends_refl].
    split; [done|]. split; [apply (set_cache_wf w h sel cs Hw Hsel); [by rewrite Hi|done]|].
    split; [unfold extends; cbn; auto|]. by eexists.
Qed.

(** *** Reads through a handle *)

(** A read returns a function of the target's changes, updating no more
    than the change cache. *)
Definition reads {A} (w : W) (r : A * W) (a : A) : Prop :=
  r.1 = a /\ wf r.2 /\ extends w r.2 /\ exists c, r.2 = set_cache w c.

Lemma reads_pure {A} (w : W) (a : A) : wf w -> reads w (a, w) a.
Proof.
  intros Hw. split; [done|]. split; [done|]. split; [apply extends_refl|].
  exists (selected_change_cache w). by destruct w.
Qed.

Lemma reads_map {A B} (w : W) (r : A * W) a (f : A -> B) : reads w r a ->
  reads w (let '(x, w') := r in (f x, w')) (f a).
Proof. destruct r as [x w']. intros (Hx & Hrest). cbn in *. by subst. Qed.

Lemma reads_trans {A B} (w : W) (r : A * W) a (k : A -> W -> B * W) b : reads w r a ->
  (forall w', wf w' -> extends w w' -> (exists c, w' = set_cache w c) -> reads w' (k a w') b) ->
  reads w (let '(x, w') := r in k x w') b.
Proof.
  destruct r as [x w1]. intros (Hx & Hw1 & He1 & c1 & Hc1) Hk. cbn in *. subst x.
  destruct (Hk w1 Hw1 He1 (ex_intro _ c1 Hc1)) as (Hb & Hw2 & He2 & c2 & Hc2).
  split; [done|]. split; [done|]. split; [by eapply extends_trans|].
  exists c2. by rewrite Hc2, Hc1.
Qed.

Lemma selected_reads (w : W) h sel : wf w -> packed_selection w h = Some sel ->
  reads w (selected_changes w h) (selection_changes (db w) (xdb w) sel).
Proof.
  intros Hw Hs. pose proof (selected_changes_refines w h sel Hw Hs) as Hr.
  destruct (selected_changes w h) as [cs w']. by unfold reads.
Qed.

(** The three shapes of a denoted handle. *)
Lemma denotes_packed (w : W) h t : denotes w h t ->
  packed_selection w h = match t with TVirtual sel => Some sel | _ => None end.
Proof.
  destruct t as [|r|sel]; cbn; [intros ->|intros [-> Hr]|by intros [? _]];
    apply packed_selection_native; unfold ref_ok, kInvalidSignalRef in *; lia.
Qed.

Lemma native_empty d x : native_changes d x 0 = [].
Proof. unfold native_changes. by rewrite invalid_ref. Qed.

(** Without a selection, the changes are the native ones of the handle. *)
Lemma target_native (w : W) h t d x : denotes w h t -> db w = Some d -> xdb w = Some x ->
  packed_selection w h = None -> target_changes (db w) (xdb w) t = native_changes d x h.
Proof.
  intros Ht Hd Hx Hp. rewrite (denotes_packed w h t Ht) in Hp. rewrite Hd, Hx.
  destruct t as [|r|sel]; cbn in *; [subst h; by rewrite native_empty|by destruct Ht as [-> _]|done].
Qed.

Lemma offset_reads (w : W) h t ti : wf w -> denotes w h t ->
  reads w (signal_offset_at w h ti) (offset_spec (map fst (target_changes (db w) (xdb w) t)) ti).
Proof.
  intros Hw Ht. destruct (target_changes_ok w t Hw) as [Hs Hz]. unfold signal_offset_at.
  rewrite (denotes_packed w h t Ht). pose proof (wf_handles w Hw) as Hh.
  destruct t as [|r|sel]; [| |].
  - cbn in Ht. subst h. replace (d ← db w; _) with (@None SignalOffset); [by apply reads_pure|].
    destruct (db w) as [d|]; [|done]. cbn [mbind option_bind].
    by destruct (unloaded d kInvalidSignalRef ti (invalid_ref d)) as [-> _].
  - destruct Ht as [-> Hr]. replace (d ← db w; _)
      with (offset_spec (map fst (target_changes (db w) (xdb w) (TNative r))) ti);
      [by apply reads_pure|].
    destruct (db w) as [d|], (xdb w) as [x|]; try done. cbn [target_changes mbind option_bind].
    destruct (wellen_signal_info d r) as [i|] eqn:Hi.
    + destruct (indices_ok d x r i Hh Hi) as (l & Hl & _ & _ & _ & _ & Ho).
      by rewrite (native_changes_times d x r i l Hi Hl), Ho.
    + destruct (unloaded d r ti Hi) as [-> _]. unfold native_changes. by rewrite Hi.
  - destruct Ht as (Hsel & _). rewrite <- (offset_in_spec _ ti Hs Hz).
    cbn [target_changes]. rewrite map_map. cbn [sel_pair fst].
    apply (reads_map w _ _ (fun cs => offset_in (map sel_time_idx cs) ti)).
    by apply selected_reads.
Qed.

Lemma native_typed_target (w : W) h t s e : wf w -> denotes w h t -> packed_selection w h = None ->
  0 <= s -> 0 <= e ->
  native_typed_value_at w h s e = snd <$> target_changes (db w) (xdb w) t !! Z.to_nat (s + e).
Proof.
  intros Hw Ht Hp Hs He. pose proof (wf_handles w Hw) as Hh.
  destruct (db w) as [d|] eqn:Hd, (xdb w) as [x|] eqn:Hx; try done.
  - rewrite <- Hd, <- Hx, (target_native w h t d x) by done. by apply native_value.
  - unfold native_typed_value_at. rewrite (denotes_packed w h t Ht) in Hp. rewrite Hd. by destruct t.
Qed.

Lemma native_indices_target (w : W) h t : wf w -> denotes w h t -> packed_selection w h = None ->
  native_time_indices_of w h = map fst (target_changes (db w) (xdb w) t).
Proof.
  intros Hw Ht Hp. pose proof (wf_handles w Hw) as Hh.
  destruct (db w) as [d|] eqn:Hd, (xdb w) as [x|] eqn:Hx; try done.
  - rewrite <- Hd, <- Hx, (target_native w h t d x) by done. by apply native_time_indices_eq.
  - unfold native_time_indices_of. rewrite (denotes_packed w h t Ht) in Hp. rewrite Hx. by destruct t.
Qed.

Lemma virtual_target (w : W) h t sel : denotes w h t -> packed_selection w h = Some sel ->
  t = TVirtual sel.
Proof. intros Ht Hp. rewrite (denotes_packed w h t Ht) in Hp. destruct t; congruence. Qed.

Lemma typed_reads (w : W) h t s e : wf w -> denotes w h t -> 0 <= s -> 0 <= e ->
  reads w (signal_typed_value_at w h s e)
    (snd <$> target_changes (db w) (xdb w) t !! Z.to_nat (s + e)).
Proof.
  intros Hw Ht Hs He. unfold signal_typed_value_at.
  destruct (packed_selection w h) as [sel|] eqn:Hp.
  - rewrite (virtual_target w h t sel Ht Hp). cbn [target_changes].
    change (map sel_pair) with (fmap (M := list) sel_pair).
    rewrite list_lookup_fmap, <- option_fmap_compose.
    apply (reads_map w _ _ (fun cs => sel_value <$> cs !! Z.to_nat (s + e))).
    by apply selected_reads.
  - rewrite (native_typed_target w h t) by done. by apply reads_pure.
Qed.

Lemma indices_reads (w : W) h t : wf w -> denotes w h t ->
  reads w (time_indices_of w h) (map fst (target_changes (db w) (xdb w) t)).
Proof.
  intros Hw Ht. unfold time_indices_of. destruct (packed_selection w h) as [sel|] eqn:Hp.
  - rewrite (virtual_target w h t sel Ht Hp). cbn [target_changes]. rewrite map_map.
    cbn [sel_pair fst]. apply (reads_map w _ _ (map sel_time_idx)). by apply selected_reads.
  - rewrite (native_indices_target w h t) by done. by apply reads_pure.
Qed.

(** *** Samples *)

Definition sample_of (cs : list (Z * WaveformValue)) (ti : Z) (point : ObservationPoint)
    : option SampledValue :=
  o ← offset_spec (map fst cs) ti;
  n ← offset_pos point o;
  v ← snd <$> cs !! Z.to_nat n;
  Some (MkSV v ti (if bool_decide (point = Before) && so_time_match o then 0 else so_elements o - 1)
          (so_elements o) (so_time_match o)).

Lemma offset_spec_range l ti o : sorted_idx l -> idx_sized l -> offset_spec l ti = Some o ->
  0 <= so_start o /\ 0 < so_elements o < 2 ^ 16.
Proof.
  intros Hs [Hn Hz] Ho. unfold offset_spec in Ho.
  destruct (count_le l ti) as [|m] eqn:Hc; [done|].
  destruct (count_le_last l ti m Hs Hc) as (t & Ht & _ & _ & Hlo).
  rewrite Ht in Ho. cbn in Ho. injection Ho as <-. cbn [so_start so_elements].
  pose proof (count_le_same l t ti m Hs Hc Ht) as Hct. rewrite count_le_split in Hct.
  specialize (Hz t). lia.
Qed.

Lemma sampled_reads (w : W) h t ti point : wf w -> denotes w h t ->
  reads w (sampled_value_at w h ti point)
    (sample_of (target_changes (db w) (xdb w) t) ti point).
Proof.
  intros Hw Ht. unfold sampled_value_at, sample_of.
  destruct (target_changes_ok w t Hw) as [Hs Hz]. set (cs := target_changes (db w) (xdb w) t) in *.
  eapply reads_trans; [by apply offset_reads|]. fold cs.
  intros w1 Hw1 He1 Hc1. destruct (offset_spec (map fst cs) ti) as [o|] eqn:Ho;
    cbn [mbind option_bind]; [|by apply reads_pure].
  destruct (offset_spec_range _ _ _ Hs Hz Ho) as [Hst Hel].
  rewrite (proj2 (Z.eqb_neq (so_elements o) 0)) by lia. unfold offset_pos.
  assert (target_changes (db w1) (xdb w1) t = cs) as Hcs
    by (destruct He1 as (-> & -> & _); done).
  assert (denotes w1 h t) as Ht1 by (by eapply denotes_extends).
  destruct (bool_decide (point = Before) && so_time_match o) eqn:Hb; cbn [andb].
  - destruct (Z.eqb_spec (so_start o) 0); cbn [mbind option_bind]; [by apply reads_pure|].
    rewrite <- Hcs, <- (Z.add_0_r (so_start o - 1)).
    pose proof (typed_reads w1 h t (so_start o - 1) 0 Hw1 Ht1 ltac:(lia) ltac:(lia)) as Hr.
    apply (reads_map w1 _ _ (fmap (fun v => MkSV v ti 0 (so_elements o) (so_time_match o)))) in Hr.
    rewrite Z.add_0_r in Hr |- *. by destruct (snd <$> _).
  - cbn [mbind option_bind]. unfold u16. rewrite Z.mod_small by lia. rewrite <- Hcs.
    pose proof (typed_reads w1 h t (so_start o) (so_elements o - 1) Hw1 Ht1 ltac:(lia) ltac:(lia)) as Hr.
    apply (reads_map w1 _ _ (fmap (fun v =>
      MkSV v ti (so_elements o - 1) (so_elements o) (so_time_match o)))) in Hr.
    by destruct (snd <$> _).
Qed.

Lemma sample_settled cs ti point : sorted_idx (map fst cs) ->
  sv_value <$> sample_of cs ti point = settled point ti cs.
Proof.
  intros Hs. rewrite settled_offset by done. unfold sample_of.
  destruct (offset_spec (map fst cs) ti) as [o|]; [|done]. cbn [mbind option_bind].
  destruct (offset_pos point o) as [n|]; [|done]. cbn [mbind option_bind].
  by destruct (cs !! Z.to_nat n) as [[? ?]|].
Qed.

(** *** Metadata *)

Definition target_ref (t : target) : Z :=
  match t with TNone => kInvalidSignalRef | TNative r => r | TVirtual sel => base_ref sel end.

Definition info_of (od : option D) (ox : option X) (t : target) : option SignalInfo :=
  info ← (d ← od; wellen_signal_info d (target_ref t));
  let out := MkSI (encoding_kind (wi_encoding info)) (wi_num_changes info)
    (wi_max_states info) (wi_width info) (wi_bytes_per_entry info)
    (negb (wi_has_meta_byte info =? 0)) in
  Some (match t with
        | TVirtual sel =>
            MkSI (si_encoding out) (u32 (zlen (selection_changes od ox sel))) (si_max_states out)
              (ps_width sel) (u32 (ps_width sel + 7) / 8)
              ((2 <? si_max_states out) && (8 <=? ps_width sel))
        | _ => out
        end).

Lemma native_ref_target (w : W) h t : denotes w h t -> native_signal_ref w h = target_ref t.
Proof.
  intros Ht. destruct t as [|r|sel]; cbn in *.
  - subst h. apply native_ref_native. unfold kInvalidSignalRef. lia.
  - destruct Ht as [-> Hr]. apply native_ref_native. unfold ref_ok in Hr. lia.
  - destruct Ht as [Hs _]. unfold native_signal_ref. by rewrite Hs.
Qed.

Lemma info_reads (w : W) h t : wf w -> denotes w h t ->
  reads w (signal_info w h) (info_of (db w) (xdb w) t).
Proof.
  intros Hw Ht. unfold signal_info, info_of. rewrite (native_ref_target w h t Ht).
  destruct (d ← db w; wellen_signal_info d (target_ref t)) as [info|]; [|by apply reads_pure].
  cbn [mbind option_bind]. destruct (packed_selection w h) as [sel|] eqn:Hp.
  - rewrite (virtual_target w h t sel Ht Hp).
    apply (reads_map w _ _ (fun cs => Some (MkSI _ (u32 (zlen cs)) _ _ _ _))).
    by apply selected_reads.
  - rewrite (denotes_packed w h t Ht) in Hp. destruct t; try done; by apply reads_pure.
Qed.

(** *** The interface instance *)

#[local] Instance wave_backend : WaveformBackend W := {|
  Waveform.find_signal := find_signal;
  Waveform.sampled_value_at w h ti point := (sampled_value_at w h ti point).1;
  Waveform.signal_info w h := (signal_info w h).1;
|}.

Definition target_found (t : target) : bool := match t with TNone => false | _ => true end.

Lemma denotes_found (w : W) h t : denotes w h t -> negb (h =? 0) = target_found t.
Proof.
  destruct t; cbn; [by intros ->|intros [-> Hr]|intros (_ & Hn & _)];
    unfold ref_ok in *; rewrite (proj2 (Z.eqb_neq _ _)) by lia; done.
Qed.

Definition roomy (n : nat) (w : W) : Prop :=
  wf w /\ zlen (packed_selections w) + Z.of_nat n < 2 ^ 31.

Lemma read_target (w : W) path ti point : roomy 1 w ->
  read w path ti point =
  (target_found (resolve (db w) path),
   sample_of (target_changes (db w) (xdb w) (resolve (db w) path)) ti point,
   info_of (db w) (xdb w) (resolve (db w) path)).
Proof.
  intros [Hw Hroom]. unfold read. cbn [Waveform.find_signal wave_backend].
  pose proof (find_signal_refines w path Hw Hroom) as Hf.
  destruct (find_signal w path) as [h w']. destruct Hf as (Hw' & He & Hden & _).
  cbn [Waveform.sampled_value_at Waveform.signal_info wave_backend].
  rewrite (denotes_found _ _ _ Hden), (proj1 (sampled_reads w' h _ ti point Hw' Hden)),
    (proj1 (info_reads w' h _ Hw' Hden)).
  destruct He as (-> & -> & _). done.
Qed.

Lemma find_roomy n (w : W) path : roomy (S n) w ->
  roomy n (find_signal w path).2 /\ db (find_signal w path).2 = db w /\
  xdb (find_signal w path).2 = xdb w.
Proof.
  intros [Hw Hroom]. pose proof (find_signal_refines w path Hw ltac:(lia)) as Hf.
  destruct (find_signal w path) as [h w']. destruct Hf as (Hw' & He & Hden & Hz).
  cbn [snd]. destruct He as (-> & -> & _). split; [|done]. split; [done|lia].
Qed.

#[local, refine] Instance wave_laws : WaveformLaws W := {| wave_ok := roomy |}.
Proof.
  - intros n m w Hle [Hw Hroom]. split; [done|lia].
  - intros n w path Hw. by apply find_roomy.
  - intros w path path' ti point Hw.
    destruct (find_roomy 1 w path Hw) as (Hw' & Hd & Hx).
    change (snd (Waveform.find_signal w path)) with (find_signal w path).2.
    rewrite (read_target (find_signal w path).2), Hd, Hx by done. symmetry.
    apply read_target. destruct Hw as [? ?]. split; [done|lia].
Defined.

(** *** Every operation keeps the invariant *)

Lemma initial_wf : wf initial.
Proof.
  constructor; cbn; done.
Qed.

Lemma open_wf (w : W) path : wf (open w path).2.
Proof.
  unfold open, close. destruct (has_fst_suffix path), (file_exists path);
    cbn [negb snd]; try apply initial_wf.
  destruct (wellen_open path) as [d|] eqn:Hd; [|apply initial_wf].
  destruct (wellenx_open path) as [x|] eqn:Hx; [|apply initial_wf].
  cbn [snd]. destruct initial_wf. constructor; cbn; try done.
  by eapply open_paired.
Qed.

Lemma create_wf (w : W) key : wf w -> signal_index_built w = true ->
  wf (create_packed_selection w key).2 /\
  signal_index_built (create_packed_selection w key).2 = true.
Proof.
  intros Hw Hb. destruct (decide (zlen (packed_selections w) + 1 < 2 ^ 31)) as [Hr|Hr].
  - pose proof (create_refines w key Hw Hb Hr) as Hc.
    destruct (create_packed_selection w key) as [h w'].
    destruct Hc as (Hw' & _ & (_ & _ & Hb' & _) & _). cbn. by rewrite Hb'.
  - unfold create_packed_selection. destruct (packed_selection_index w !! key); [done|].
    destruct (parse_selection _ _ key); [|done].
    by rewrite (proj2 (Z.leb_le _ _)) by (unfold kVirtualSignalFlag; lia).
Qed.

Lemma find_wf (w : W) path : wf w -> wf (find_signal w path).2.
Proof.
  intros Hw. unfold find_signal, is_open. case_if; [done|].
  apply orb_false_iff in Heqb as [_ Ho]. apply negb_false_iff, bool_decide_eq_true in Ho as [d Hd].
  destruct (build_wf w d Hd Hw) as (Hw1 & _ & _ & Hb1 & _).
  generalize dependent (build_signal_index w). intros w1 Hw1 Hb1.
  destruct (signal_index w1 !! normalize_path path); [done|].
  destruct (create_wf w1 (normalize_path path) Hw1 Hb1) as [Hw2 Hb2].
  destruct (create_packed_selection w1 (normalize_path path)) as [h w2]. cbn [snd] in *.
  case_if; [done|]. case_if; [|done].
  destruct (signal_index w2 !! drop 4 (normalize_path path)); [done|].
  destruct (create_wf w2 (drop 4 (normalize_path path)) Hw2 Hb2) as [Hw3 _].
  destruct (create_packed_selection w2 _) as [h' w3]. by case_if.
Qed.

(** The index depends on the hierarchy only. *)
Lemma index_of_same d d' : same_file d d' -> index_of d' ∅ ∅ = index_of d ∅ ∅.
Proof.
  intros Hf. destruct (same_scopes d d' Hf) as (Hn & Hat & Hvc & Hva).
  unfold index_of. rewrite Hn.
  rewrite (foldl_ext (index_scope d') (index_scope d)); [done|].
  intros a si. unfold index_scope. rewrite Hat, Hvc. case_if; [done|].
  apply foldl_ext. intros b vi. rewrite Hva. unfold index_var.
  destruct (same_vars d d' (wellen_scope_var_at d (wellen_scope_at d si) vi) Hf)
    as (E1 & E2 & E3 & E4 & E5). by rewrite E1, E2, E3, E4, E5.
Qed.

(** Replacing the handles by others of the same file that keep the data of
    every cached base signal. *)
Lemma set_handles_wf (w : W) d x d' x' cache : wf w -> db w = Some d -> xdb w = Some x ->
  paired d' x' -> same_file d d' ->
  (forall h cs, cache !! h = Some cs -> selected_change_cache w !! h = Some cs /\
     forall sel i, packed_selection w h = Some sel -> wellen_signal_info d (base_ref sel) = Some i ->
       wellen_signal_info d' (base_ref sel) = Some i /\
       (forall n, stored d' (base_ref sel) n = stored d (base_ref sel) n) /\
       wellenx_signal_time_indices x' (base_ref sel) = wellenx_signal_time_indices x (base_ref sel)) ->
  wf (set_handles (set_cache w cache) (Some d') (Some x')).
Proof.
  intros Hw Hd Hx Hp Hf Hcache. constructor; try apply Hw; [done| |].
  - pose proof (wf_index w Hw) as Hi. cbn. destruct (signal_index_built w); [|done].
    destruct Hi as (Hc & d0 & Hd0 & Hi). rewrite Hd in Hd0. injection Hd0 as <-.
    split; [done|]. exists d'. split; [done|]. by rewrite (index_of_same d d' Hf).
  - intros h cs Hcs. destruct (Hcache h cs Hcs) as [Hold Hdata].
    destruct (wf_cache w Hw h cs Hold) as (sel & Hsel & [i Hi] & Hch).
    rewrite Hd in Hi. cbn [mbind option_bind] in Hi.
    destruct (Hdata sel i Hsel Hi) as (Hi' & Hst & Hidx).
    exists sel. split; [done|]. cbn [db set_handles mbind option_bind]. split; [by rewrite Hi'|].
    etransitivity; [|exact Hch]. set (w' := set_handles _ _ _).
    assert (native_time_indices_of w' (base_ref sel) = native_time_indices_of w (base_ref sel)) as ->.
    { unfold native_time_indices_of. rewrite Hd, Hx. cbn [db xdb w' set_handles mbind option_bind].
      by rewrite Hi', Hi, Hidx. }
    apply select_changes_ext. intros m Hm.
    rewrite (native_typed_value_stored w' d'), (native_typed_value_stored w d) by done.
    by rewrite Hst.
Qed.

Lemma wf_open_handles (w : W) d : wf w -> db w = Some d -> exists x, xdb w = Some x /\ paired d x.
Proof.
  intros Hw Hd. pose proof (wf_handles w Hw) as Hh. rewrite Hd in Hh.
  destruct (xdb w); [eauto|done].
Qed.

Lemma set_cache_id (w : W) : set_cache w (selected_change_cache w) = w.
Proof. by destruct w. Qed.

Lemma load_wf (w : W) refs : wf w -> wf (load_signals w refs).2.
Proof.
  intros Hw. unfold load_signals. destruct refs as [|r refs]; [done|].
  generalize (map (native_signal_ref w) (r :: refs)). intros refs'.
  case_if; [done|]. destruct (db w) as [d|] eqn:Hd; [|done].
  destruct (wf_open_handles w d Hw Hd) as (x & Hx & Hp).
  pose proof (load_paired d x refs' Hp) as Hp'. pose proof (same_file_load d refs') as Hf.
  pose proof (fun ref i => load_keeps d x refs' ref i Hp) as Hk.
  destruct (wellen_load_signals d refs') as [n d']. cbn [snd] in *.
  rewrite Hx. cbn [fmap option_fmap option_map]. rewrite <- (set_cache_id w).
  apply (set_handles_wf w d x); try done.
  intros h cs Hcs. split; [done|]. intros sel i _. apply Hk.
Qed.

Lemma unload_wf (w : W) refs : wf w -> wf (unload_signals w refs).
Proof.
  intros Hw. unfold unload_signals. destruct refs as [|r refs]; [done|].
  generalize (filter (fun r => r <> kInvalidSignalRef) (map (native_signal_ref w) (r :: refs))).
  intros refs'. case_if; [done|]. cbn [db xdb set_cache].
  destruct (db w) as [d|] eqn:Hd; cycle 1.
  { pose proof (wf_handles w Hw) as Hh. rewrite Hd in Hh. destruct (xdb w) as [x|] eqn:Hx; [done|].
    cbn [fmap option_fmap option_map]. destruct Hw. constructor; try done; cbn in *.
    - destruct (signal_index_built w); [|done]. destruct wf_index0 as (_ & d & E & _). congruence.
    - intros h cs Hcs. apply map_lookup_filter_Some in Hcs as [Hcs _].
      destruct (wf_cache0 h cs Hcs) as (sel & _ & [? E] & _). by rewrite Hd in E. }
  destruct (wf_open_handles w d Hw Hd) as (x & Hx & Hp). rewrite Hx.
  cbn [fmap option_fmap option_map].
  apply (set_handles_wf w d x); try done; [by apply unload_paired|apply same_file_unload|].
  intros h cs Hcs. apply map_lookup_filter_Some in Hcs as [Hcs Hstale]. split; [done|].
  intros sel i Hsel Hi. cbn [fst] in Hstale. rewrite Hsel in Hstale.
  apply bool_decide_eq_false in Hstale. by apply (unload_keeps d x).
Qed.

(** *** Scans *)

Lemma delta_of_count l t n : sorted_idx l -> idx_sized l ->
  (count_lt l t <= n <= count_le l t)%nat -> delta_of l t n = Z.of_nat (n - count_lt l t).
Proof.
  intros Hs [Hn Hz]. specialize (Hz t). pose proof (count_le_split l t) as Hsp.
  induction n as [|n IH]; intros Hb; cbn [delta_of]; [done|].
  pose proof (count_le_length l t). destruct (lookup_lt_is_Some_2 l n) as [x Hx]; [lia|].
  pose proof (count_le_iff l n x t Hs Hx). pose proof (count_lt_iff l n x t Hs Hx).
  rewrite Hx. case_bool_decide as E.
  - injection E as ->. rewrite IH by lia. unfold u16. rewrite Z.mod_small; lia.
  - assert (x <> t) by congruence. lia.
Qed.

(** The row of the change at ordinal [n]: [delta] is its position among the
    changes of the same time index. *)
Definition row (w : W) (cs : list (Z * WaveformValue)) (n : nat) (c : Z * WaveformValue)
    : SignalChange :=
  MkSC c.1 (time_at w c.1) (Z.of_nat (n - count_lt (map fst cs) c.1)) c.2.

Definition rows (w : W) (cs : list (Z * WaveformValue)) : list SignalChange :=
  imap (row w cs) cs.

Definition cap {A} (limit : Z) (l : list A) : list A :=
  if limit =? 0 then l else take (Z.to_nat limit) l.

Fixpoint rows_from (w : W) (cs : list (Z * WaveformValue)) (n : nat)
    (todo : list (Z * WaveformValue)) : list SignalChange :=
  match todo with
  | [] => []
  | c :: todo' => row w cs n c :: rows_from w cs (S n) todo'
  end.

Lemma rows_from_rows (w : W) cs todo n :
  rows_from w cs n todo = imap (fun i => row w cs (n + i)) todo.
Proof.
  revert n. induction todo as [|c todo IH]; intros n; [done|].
  cbn [rows_from]. rewrite imap_cons, Nat.add_0_r, IH. f_equal. apply imap_ext.
  intros i x _. cbn. by rewrite Nat.add_succ_r.
Qed.

Lemma rows_from_time (w w' : W) cs n todo : time_table w' = time_table w ->
  rows_from w' cs n todo = rows_from w cs n todo.
Proof.
  intros E. revert n. induction todo as [|c todo IH]; intros n; cbn [rows_from]; [done|].
  rewrite IH. unfold row, time_at. by rewrite E.
Qed.

Lemma row_delta (w : W) cs n c : sorted_idx (map fst cs) -> idx_sized (map fst cs) ->
  cs !! n = Some c -> delta_of (map fst cs) c.1 n = sc_delta (row w cs n c).
Proof.
  intros Hs Hz Hc. apply delta_of_count; [done|done|].
  assert (map fst cs !! n = Some c.1) as Hl.
  { change (map fst) with (fmap (M := list) (@fst Z WaveformValue)). by rewrite list_lookup_fmap, Hc. }
  pose proof (count_le_iff _ _ _ c.1 Hs Hl). pose proof (count_lt_iff _ _ _ c.1 Hs Hl). lia.
Qed.

Lemma cap_full {A} limit (out k : list A) : 0 <= limit ->
  (negb (limit =? 0) && (limit <=? zlen out)) = true -> cap limit out = out ->
  cap limit (out ++ k) = out.
Proof.
  unfold cap, zlen. intros Hl Hb Hc. bsplit. rewrite H1 in *.
  rewrite take_app_le by lia. done.
Qed.

Lemma cap_snoc {A} limit (out : list A) r : 0 <= limit ->
  (negb (limit =? 0) && (limit <=? zlen out)) = false -> cap limit out = out ->
  cap limit (out ++ [r]) = out ++ [r].
Proof.
  unfold cap, zlen. intros Hl Hb Hc. destruct (limit =? 0); [done|]. cbn [negb andb] in Hb.
  apply take_ge. rewrite length_app. cbn. lia.
Qed.

Lemma scan_loop_reads h t b e limit todo : forall (w : W) done total out,
  wf w -> denotes w h t -> 0 <= limit ->
  target_changes (db w) (xdb w) t = done ++ todo ->
  0 <= total -> total + zlen todo < 2 ^ 32 -> cap limit out = out ->
  let cs := target_changes (db w) (xdb w) t in
  let win := filter (in_window b e) (rows_from w cs (length done) todo) in
  reads w (scan_loop w h b e limit (map fst cs) (map fst todo) (length done) total out)
    (Some (total + zlen win, cap limit (out ++ win))).
Proof.
  induction todo as [|c todo IH]; intros w done total out Hw Ht Hl Hcs Htot Hsum Hcap cs win;
    cbn [map scan_loop].
  { unfold win. cbn. rewrite app_nil_r, Hcap, Z.add_0_r. by apply reads_pure. }
  destruct (target_changes_ok w t Hw) as [Hs Hz]. fold cs in Hs, Hz, Hcs.
  assert (cs !! length done = Some c) as Hc by (rewrite Hcs; by apply list_lookup_middle).
  unfold zlen in Hsum. cbn [length] in Hsum.
  assert (Hcs' : cs = (done ++ [c]) ++ todo) by (by rewrite Hcs, <- app_assoc).
  replace (S (length done)) with (length (done ++ [c])) by (rewrite length_app; cbn; lia).
  assert (Hstep : win = if decide (in_window b e (row w cs (length done) c))
    then row w cs (length done) c ::
           filter (in_window b e) (rows_from w cs (length (done ++ [c])) todo)
    else filter (in_window b e) (rows_from w cs (length (done ++ [c])) todo)).
  { unfold win. cbn [rows_from]. rewrite filter_cons, length_app, Nat.add_1_r. done. }
  rewrite Hstep. clear Hstep win.
  destruct (decide (in_window b e (row w cs (length done) c))) as [Hin|Hout];
    [unfold in_window in Hin; cbn [sc_time_idx row] in Hin
    |unfold in_window in Hout; cbn [sc_time_idx row] in Hout].
  - assert ((c.1 <? b) || (e <? c.1) = false) as -> by lia. rewrite u32_small by lia.
    destruct (negb (limit =? 0) && (limit <=? zlen out)) eqn:Hfull.
    + pose proof (IH w (done ++ [c]) (total + 1) out Hw Ht Hl Hcs' ltac:(lia)
        ltac:(unfold zlen; lia) Hcap) as Hr. cbv zeta in Hr. fold cs in Hr.
      generalize dependent (filter (in_window b e) (rows_from w cs (length (done ++ [c])) todo)).
      intros win Hr. rewrite (cap_full limit out) in Hr |- * by done. unfold zlen in *. cbn [length].
      by replace (total + Z.of_nat (S (length win))) with (total + 1 + Z.of_nat (length win)) by lia.
    + eapply reads_trans; [by apply typed_reads; try done; lia|].
      intros w1 Hw1 He1 [c1 Hc1]. fold cs. rewrite Z.add_0_r, Nat2Z.id, Hc.
      cbn [fmap option_fmap option_map snd].
      assert (cs = target_changes (db w1) (xdb w1) t) as Hcs1 by (by rewrite Hc1).
      assert (MkSC c.1 (time_at w1 c.1) (delta_of (map fst cs) c.1 (length done)) c.2 =
              row w cs (length done) c) as ->.
      { rewrite (row_delta w) by done. by rewrite Hc1. }
      pose proof (IH w1 (done ++ [c]) (total + 1) (out ++ [row w cs (length done) c]) Hw1
        (denotes_extends _ _ _ _ He1 Ht) Hl (eq_trans (eq_sym Hcs1) Hcs') ltac:(lia)
        ltac:(unfold zlen; lia) (cap_snoc _ _ _ Hl Hfull Hcap)) as Hr.
      cbv zeta in Hr. rewrite <- Hcs1, <- app_assoc in Hr.
      assert (rows_from w1 cs (length (done ++ [c])) todo = rows_from w cs (length (done ++ [c])) todo)
        as Erows by (apply rows_from_time; apply He1). rewrite Erows in Hr.
      generalize dependent (filter (in_window b e) (rows_from w cs (length (done ++ [c])) todo)).
      intros win Hr. unfold zlen in *. cbn [app length] in *.
      by replace (total + Z.of_nat (S (length win))) with (total + 1 + Z.of_nat (length win)) by lia.
  - assert ((c.1 <? b) || (e <? c.1) = true) as -> by lia.
    apply (IH w (done ++ [c]) total out); try done. unfold zlen. lia.
Qed.

(** *** Reads of arbitrary handles keep the invariant *)

Lemma selected_wf (w : W) h : wf w -> wf (selected_changes w h).2.
Proof.
  intros Hw. destruct (packed_selection w h) as [sel|] eqn:Hp.
  - by apply (selected_reads w h sel).
  - unfold selected_changes. rewrite Hp. by destruct (selected_change_cache w !! h).
Qed.

Lemma offset_wf (w : W) h ti : wf w -> wf (signal_offset_at w h ti).2.
Proof.
  intros Hw. pose proof (selected_wf w h Hw). unfold signal_offset_at.
  destruct (packed_selection w h); [|done]. by destruct (selected_changes w h).
Qed.

Lemma typed_wf (w : W) h s e : wf w -> wf (signal_typed_value_at w h s e).2.
Proof.
  intros Hw. pose proof (selected_wf w h Hw). unfold signal_typed_value_at.
  destruct (packed_selection w h); [|done]. by destruct (selected_changes w h).
Qed.

Lemma indices_wf (w : W) h : wf w -> wf (time_indices_of w h).2.
Proof.
  intros Hw. pose proof (selected_wf w h Hw). unfold time_indices_of.
  destruct (packed_selection w h); [|done]. by destruct (selected_changes w h).
Qed.

Lemma info_wf (w : W) h : wf w -> wf (signal_info w h).2.
Proof.
  intros Hw. pose proof (selected_wf w h Hw). unfold signal_info.
  destruct (d ← db w; _); [|done]. destruct (packed_selection w h); [|done].
  by destruct (selected_changes w h).
Qed.

Lemma sampled_wf (w : W) h ti point : wf w -> wf (sampled_value_at w h ti point).2.
Proof.
  intros Hw. pose proof (offset_wf w h ti Hw) as H1. unfold sampled_value_at.
  destruct (signal_offset_at w h ti) as [[o|] w1]; [|done]. cbn [snd] in H1.
  case_if; [done|]. cbv zeta. case_if; [done|].
  match goal with |- context [signal_typed_value_at w1 h ?s ?e] =>
    pose proof (typed_wf w1 h s e H1); by destruct (signal_typed_value_at w1 h s e) end.
Qed.

Lemma delta_loop_wf n : forall (w : W) h s e out, wf w -> wf (delta_loop n w h s e out).2.
Proof.
  induction n as [|n IH]; intros w h s e out Hw; cbn [delta_loop]; [done|].
  pose proof (typed_wf w h s e Hw). destruct (signal_typed_value_at w h s e) as [[v|] w1]; auto.
Qed.

Lemma deltas_wf (w : W) h ti : wf w -> wf (delta_values_at w h ti).2.
Proof.
  intros Hw. pose proof (offset_wf w h ti Hw) as H1. unfold delta_values_at.
  destruct (signal_offset_at w h ti) as [[o|] w1]; [|done]. cbn [snd] in H1. case_if; [done|].
  pose proof (delta_loop_wf (Z.to_nat (so_elements o)) w1 h (so_start o) 0 [] H1).
  by destruct (delta_loop _ w1 h (so_start o) 0 []).
Qed.

Lemma change_wf (w : W) h n : wf w -> wf (signal_change_at w h n).2.
Proof.
  intros Hw. pose proof (indices_wf w h Hw) as H1. unfold signal_change_at.
  destruct (time_indices_of w h) as [l w1]. cbn [snd] in H1.
  destruct (l !! Z.to_nat n); [|done]. cbv zeta. pose proof (typed_wf w1 h n 0 H1).
  by destruct (signal_typed_value_at w1 h n 0).
Qed.

Lemma scan_loop_wf h b e limit idx todo : forall (w : W) n total out,
  wf w -> wf (scan_loop w h b e limit idx todo n total out).2.
Proof.
  induction todo as [|t todo IH]; intros w n total out Hw; cbn [scan_loop]; [done|].
  case_if; [auto|]. cbv zeta. case_if; [auto|].
  pose proof (typed_wf w h (Z.of_nat n) 0 Hw).
  destruct (signal_typed_value_at w h (Z.of_nat n) 0) as [[v|] w1]; auto.
Qed.

Lemma scan_wf (w : W) h b e limit : wf w -> wf (scan_changes w h b e limit).2.
Proof.
  intros Hw. unfold scan_changes. case_if; [done|].
  pose proof (info_wf w h Hw) as H1. destruct (signal_info w h) as [[i|] w1]; [|done].
  pose proof (indices_wf w1 h H1) as H2. destruct (time_indices_of w1 h) as [l w2].
  pose proof (scan_loop_wf h b e limit l l w2 0 0 [] H2).
  by destruct (scan_loop w2 h b e limit l l 0 0 []).
Qed.

Lemma value_str_wf (w : W) h s e : wf w -> wf (signal_value_str w h s e).2.
Proof.
  intros Hw. pose proof (typed_wf w h s e Hw). unfold signal_value_str.
  by destruct (signal_typed_value_at w h s e).
Qed.

Lemma value_at_wf (w : W) path t : wf w -> wf (value_at w path t).2.
Proof.
  intros Hw. pose proof (find_wf w path Hw) as H1. unfold value_at.
  destruct (find_signal w path) as [h w1]. cbn [snd] in H1. case_if; [done|]. cbv zeta.
  assert (wf (if is_loaded w1 h then w1 else (load_signals w1 [h]).2)) as H2
    by (case_if; [done|by apply load_wf]).
  generalize dependent (if is_loaded w1 h then w1 else (load_signals w1 [h]).2). intros w2 H2.
  pose proof (info_wf w2 h H2) as H3. destruct (signal_info w2 h) as [i w3].
  pose proof (offset_wf w3 h (time_idx_of w2 t) H3) as H4.
  destruct (signal_offset_at w3 h (time_idx_of w2 t)) as [[o|] w4]; [|done].
  pose proof (value_str_wf w4 h (so_start o) 0 H4).
  by destruct (signal_value_str w4 h (so_start o) 0).
Qed.

(** *** Reachable states *)

Inductive step (w : W) : W -> Prop :=
| step_open path : step w (open w path).2
| step_close : step w (close w)
| step_find path : step w (find_signal w path).2
| step_load refs : step w (load_signals w refs).2
| step_unload refs : step w (unload_signals w refs)
| step_info h : step w (signal_info w h).2
| step_sample h ti point : step w (sampled_value_at w h ti point).2
| step_deltas h ti : step w (delta_values_at w h ti).2
| step_change h n : step w (signal_change_at w h n).2
| step_scan h b e limit : step w (scan_changes w h b e limit).2
| step_value_at path t : step w (value_at w path t).2.

Lemma step_wf (w w' : W) : wf w -> step w w' -> wf w'.
Proof.
  intros Hw Hs. destruct Hs; auto using open_wf, find_wf, load_wf, unload_wf, info_wf, sampled_wf,
    deltas_wf, change_wf, scan_wf, value_at_wf. apply initial_wf.
Qed.

Lemma reachable_wf (w : W) : rtc step initial w -> wf w.
Proof.
  assert (forall w0 w, rtc step w0 w -> wf w0 -> wf w) as Hr.
  { intros w0 w1 Hs. induction Hs as [|w0 w1 w2 Hst _ IH]; [done|]. intros H1.
    apply IH. by eapply step_wf. }
  intros Hs. by apply (Hr initial w Hs initial_wf).
Qed.
End Theory.

#[export] Existing Instance wave_backend.
#[export] Existing Instance wave_laws.

(** ** Properties *)

Section Properties.
Context {D X : Type} `{WellenDoc D X}.
Abbreviation W := (WellenFstBackend D X).

(** [i] is the largest index whose time is not after [t]. *)
Definition largest_not_after (w : W) (t i : Z) : Prop :=
  0 <= i < time_count w /\ time_at w i <= t /\
  forall j, i < j < time_count w -> t < time_at w j.

(** Time lookup. On a sorted time table [time_idx_of] returns 0 when the
    table is empty or starts after [t], and otherwise the largest index
    whose time is not after [t]. *)
Theorem time_idx_of_largest (w : W) (t : Z) :
  sorted_idx (time_table w) -> zlen (time_table w) < 2 ^ 32 ->
  (time_table w = [] \/ t < min_time w -> time_idx_of w t = 0) /\
  (time_table w <> [] -> min_time w <= t -> largest_not_after w t (time_idx_of w t)).
Proof.
  intros Hs Hn. unfold largest_not_after, time_idx_of, min_time, time_count, time_at.
  rewrite u32_small by (split; [apply zlen_nonneg|done]).
  destruct (time_table w) as [|t0 l] eqn:Ht; [done|]. rewrite <- Ht in *.
  rewrite upper_bound_count by done. rewrite Ht. cbn [list.head default from_option id]. rewrite <- Ht.
  assert (time_table w !! 0%nat = Some t0) as H0' by (by rewrite Ht).
  pose proof (count_le_iff _ _ _ t Hs H0') as Hfirst.
  split; [intros [?|Hlt]; [congruence|]; destruct (count_le _ t); [done|lia]|]. intros _ Hle.
  destruct (count_le (time_table w) t) as [|m] eqn:Hc; [lia|].
  destruct (count_le_last _ t m Hs Hc) as (x & Hx & Hxt & _ & _).
  apply lookup_lt_Some in Hx as Hlt. unfold zlen in *. rewrite u32_small, Nat2Z.id, Hx by lia.
  split; [lia|]. split; [done|]. intros j Hj.
  destruct (lookup_lt_is_Some_2 (time_table w) (Z.to_nat j)) as [y Hy]; [lia|]. rewrite Hy. cbn.
  pose proof (count_le_iff _ _ _ t Hs Hy). lia.
Qed.

(** Bit selection. For a selection inside its declared range and a
    source of the declared width, [select_packed_bits] terminates with
    exactly [width] bits, the [k]-th being the source bit of declared index
    [selected_msb -/+ k], whichever way the two ranges run; a source of any
    other width is refused. *)
Theorem select_packed_bits_exact (sel : PackedSelection) (source : bytes) :
  selection_ok sel ->
  (zlen source = Z.abs (declared_msb sel - declared_lsb sel) + 1 ->
   exists out, select_packed_bits sel source = Some out /\ zlen out = ps_width sel /\
     forall k, Z.of_nat k < ps_width sel ->
       out !! k = source !! Z.to_nat (bit_pos sel (bit_index sel k))) /\
  (zlen source <> Z.abs (declared_msb sel - declared_lsb sel) + 1 ->
   select_packed_bits sel source = None).
Proof.
  intros Hok. split; [by apply select_packed_bits_total|by apply select_packed_bits_width].
Qed.

(** Lookup. With room for one more virtual handle, [find_signal] keeps
    the invariant, returns a handle for exactly what the path resolves to
    in the file's name index (a native signal, a packed selection, or
    nothing), and keeps the meaning of every handle given out before. *)
Theorem find_signal_resolves (w : W) (path : bytes) :
  wf w -> zlen (packed_selections w) + 1 < 2 ^ 31 ->
  let '(h, w') := find_signal w path in
  wf w' /\ denotes w' h (resolve (db w) path) /\
  (forall h' t, denotes w h' t -> denotes w' h' t) /\
  (forall h' t ti point, denotes w h' t ->
     (sampled_value_at w' h' ti point).1 = (sampled_value_at w h' ti point).1).
Proof.
  intros Hw Hroom. pose proof (find_signal_refines w path Hw Hroom) as Hf.
  destruct (find_signal w path) as [h w']. destruct Hf as (Hw' & He & Hden & _).
  split; [done|]. split; [done|]. split; [intros h' t; by apply denotes_extends|].
  intros h' t ti point Hd. pose proof (denotes_extends w w' h' t He Hd) as Hd'.
  rewrite (proj1 (sampled_reads w' h' t ti point Hw' Hd')).
  rewrite (proj1 (sampled_reads w h' t ti point Hw Hd)). destruct He as (-> & -> & _). done.
Qed.

(** C4: sampling. Through any handle, [sampled_value_at] returns the value
    of the last change at or before the time index ([Raw], [After]) or
    strictly before it ([Before]), and nothing when there is none; it
    changes no more of the state than the change cache. *)
Theorem sampled_value_settled (w : W) (h : Z) (t : target) (ti : Z) (point : ObservationPoint) :
  wf w -> denotes w h t ->
  sv_value <$> (sampled_value_at w h ti point).1 =
    settled point ti (target_changes (db w) (xdb w) t) /\
  wf (sampled_value_at w h ti point).2 /\
  exists cache, (sampled_value_at w h ti point).2 = set_cache w cache.
Proof.
  intros Hw Ht. destruct (sampled_reads w h t ti point Hw Ht) as (-> & Hw' & _ & Hc).
  split; [|done]. apply sample_settled. by apply target_changes_ok.
Qed.

(** Every change of the base signal is a bit vector of the declared width. *)
Definition base_ok (d : D) (x : X) (sel : PackedSelection) : Prop :=
  forall c, c ∈ native_changes d x (base_ref sel) -> kind c.2 = BitVector /\
    zlen (text c.2) = Z.abs (declared_msb sel - declared_lsb sel) + 1.

Lemma select_changes_total (w : W) sel todo : selection_ok sel -> forall n selected previous,
  (forall i c, todo !! i = Some c ->
     native_typed_value_at w (base_ref sel) (u32 (Z.of_nat (n + i))) 0 = Some c.2 /\
     kind c.2 = BitVector /\ zlen (text c.2) = Z.abs (declared_msb sel - declared_lsb sel) + 1) ->
  is_Some (select_changes w sel (map fst todo) n selected previous).
Proof.
  intros Hok. induction todo as [|c todo IH]; intros n selected previous Hv;
    cbn [map select_changes]; [eauto|].
  destruct (Hv 0%nat c eq_refl) as (Hn & Hk & Hl). rewrite Nat.add_0_r in Hn. rewrite Hn.
  cbn [mbind option_bind]. rewrite bool_decide_true by done. cbn [negb].
  destruct (select_packed_bits_total sel (text c.2) Hok Hl) as (out & -> & _).
  cbn [mbind option_bind].
  assert (forall i c', todo !! i = Some c' ->
     native_typed_value_at w (base_ref sel) (u32 (Z.of_nat (S n + i))) 0 = Some c'.2 /\
     kind c'.2 = BitVector /\ zlen (text c'.2) = Z.abs (declared_msb sel - declared_lsb sel) + 1)
    as Hv' by (intros i c' Hi; specialize (Hv (S i) c' Hi); by rewrite Nat.add_succ_r in Hv).
  case_if; by apply IH.
Qed.

Lemma settled_sel_pair point ti cs :
  settled point ti (map sel_pair cs) =
  sel_value <$> list.last (below sel_time_idx (threshold point ti) cs).
Proof.
  unfold settled, below.
  assert (filter (fun c => threshold point ti (fst c)) (map sel_pair cs) =
          sel_pair <$> filter (fun c => threshold point ti (sel_time_idx c)) cs) as ->.
  { induction cs as [|c cs IH]; [done|]. cbn [map]. rewrite !filter_cons. cbn [sel_pair fst].
    case_decide; cbn; by rewrite IH. }
  rewrite fmap_last, <- option_fmap_compose. done.
Qed.

Lemma selection_settled d x sel point ti : paired d x -> selection_ok sel -> base_ok d x sel ->
  settled point ti (target_changes (Some d) (Some x) (TVirtual sel)) =
  sel_wv sel <$> settled point ti (native_changes d x (base_ref sel)).
Proof.
  intros Hp Hok Hbase. cbn [target_changes]. unfold selection_changes. cbn [mbind option_bind].
  destruct (wellen_signal_info d (base_ref sel)) as [i|] eqn:Hi; cycle 1.
  { unfold native_changes. by rewrite Hi. }
  set (w := at_handles (Some d) (Some x)). rewrite (native_time_indices_eq w d x) by done.
  destruct (native_changes_ok d x (base_ref sel) Hp) as [Hs [Hz _]].
  unfold zlen in Hz. rewrite length_map in Hz. set (base := native_changes d x (base_ref sel)) in *.
  assert (forall n c, base !! n = Some c ->
    native_typed_value_at w (base_ref sel) (u32 (Z.of_nat n)) 0 = Some c.2) as Hval.
  { intros n c Hc. apply lookup_lt_Some in Hc as Hlt. rewrite u32_small by lia.
    rewrite (native_value w d x), Z.add_0_r, Nat2Z.id by (done || lia). fold base. by rewrite Hc. }
  destruct (select_changes_total w sel base Hok 0 [] []) as [cs Hcs].
  { intros n c Hc. cbn [plus]. split; [by apply Hval|]. apply Hbase. by eapply list_elem_of_lookup_2. }
  rewrite Hcs. cbn [default from_option id].
  destruct (select_changes_inv w sel base [] [] [] cs Hs Hval) as (p & _ & _ & _ & Hset); [done|done|].
  cbn [app] in Hset. rewrite <- Hset. apply settled_sel_pair.
Qed.

(** Packed selections. When the base signal's changes are bit vectors of
    the declared width, sampling a packed selection gives at every time
    index and observation point the selected bits of what sampling the base
    signal gives, although repeated selected values are dropped from the
    selection's own change list. *)
Theorem selection_samples_base (w : W) (h : Z) (sel : PackedSelection) (d : D) (x : X)
    (ti : Z) (point : ObservationPoint) :
  wf w -> db w = Some d -> xdb w = Some x -> denotes w h (TVirtual sel) -> base_ok d x sel ->
  sv_value <$> (sampled_value_at w h ti point).1 =
  sel_wv sel <$> (sv_value <$> (sampled_value_at w (base_ref sel) ti point).1).
Proof.
  intros Hw Hd Hx Ht Hbase. assert (paired d x) as Hp
    by (pose proof (wf_handles w Hw) as Hh; by rewrite Hd, Hx in Hh).
  assert (denotes w (base_ref sel) (TNative (base_ref sel))) as Hn
    by (destruct Ht as (_ & _ & Hr & _); by split).
  rewrite (proj1 (sampled_reads w h _ ti point Hw Ht)), (proj1 (sampled_reads w _ _ ti point Hw Hn)).
  rewrite !sample_settled by (by apply target_changes_ok). rewrite Hd, Hx.
  apply selection_settled; [done|apply Ht|done].
Qed.

(** C3: scans. Over a non-empty window with known metadata, [scan_changes]
    succeeds: the rows are the changes of the window in order, each with its
    time, its position among the changes of its time index and its value,
    cut to [limit] rows when [limit] is not zero; the total counts the whole
    window, and [truncated] says whether rows were cut. *)
Theorem scan_changes_exact (w : W) (h : Z) (t : target) (b e limit : Z) (info : SignalInfo) :
  wf w -> denotes w h t -> b <= e -> 0 <= limit < 2 ^ 32 ->
  info_of (db w) (xdb w) t = Some info ->
  let cs := target_changes (db w) (xdb w) t in
  let win := filter (in_window b e) (rows w cs) in
  (scan_changes w h b e limit).1 =
    Some (cap limit win,
          MkSD (zlen win) (zlen (cap limit win)) (si_width info) (si_encoding info) true true
            (zlen (cap limit win) <? zlen win)).
Proof.
  intros Hw Ht Hbe Hl Hi cs win. unfold scan_changes.
  rewrite (proj2 (Z.ltb_ge e b)) by done.
  pose proof (info_reads w h t Hw Ht) as H1. rewrite Hi in H1.
  destruct (signal_info w h) as [i w1]. destruct H1 as (E1 & Hw1 & He1 & c1 & Hc1). cbn in E1, Hw1, He1, Hc1.
  subst i. pose proof (denotes_extends _ _ _ _ He1 Ht) as Ht1.
  assert (target_changes (db w1) (xdb w1) t = cs) as Hcs1 by (by rewrite Hc1).
  pose proof (indices_reads w1 h t Hw1 Ht1) as H2. rewrite Hcs1 in H2.
  destruct (time_indices_of w1 h) as [l w2]. destruct H2 as (E2 & Hw2 & He2 & c2 & Hc2). cbn in E2, Hw2, He2, Hc2.
  subst l. pose proof (denotes_extends _ _ _ _ He2 Ht1) as Ht2.
  assert (target_changes (db w2) (xdb w2) t = cs) as Hcs2 by (by rewrite Hc2).
  destruct (target_changes_ok w t Hw) as [_ [Hz _]]. fold cs in Hz. unfold zlen in Hz.
  rewrite length_map in Hz.
  pose proof (scan_loop_reads h t b e limit cs w2 [] 0 [] Hw2 Ht2 ltac:(lia) Hcs2 ltac:(lia)
    ltac:(unfold zlen; lia) ltac:(unfold cap; case_if; [done|by rewrite take_nil])) as H3.
  cbv zeta in H3. rewrite Hcs2 in H3. cbn [length app] in H3.
  assert (rows_from w2 cs 0 cs = rows w cs) as Erows.
  { rewrite rows_from_rows. unfold rows. apply imap_ext. intros i c _. cbn. unfold row, time_at.
    by rewrite Hc2, Hc1. }
  rewrite Erows in H3. fold win in H3.
  destruct (scan_loop w2 h b e limit _ _ 0 0 []) as [r w3]. destruct H3 as (E3 & _). cbn in E3.
  subst r. cbn [fst fmap option_fmap option_map]. rewrite Z.add_0_l.
  assert (length win <= length cs)%nat as Hwl.
  { unfold win. etransitivity; [apply length_filter|]. unfold rows. by rewrite length_imap. }
  assert (zlen (cap limit win) <= zlen win) as Hcl.
  { unfold cap, zlen. case_if; [lia|]. rewrite length_take. lia. }
  rewrite u32_small by (unfold zlen in *; lia). done.
Qed.

(** C10: reachable states. From a fresh backend, after any sequence of opens,
    closes, lookups, loads, unloads and reads, the invariant holds: the name
    index has been built at most once since the last open and is then the
    file's index, distinct selection paths have distinct handles, and every
    cached change list is what would be recomputed. *)
Theorem reachable_invariant (w : W) :
  rtc step initial w ->
  wf w /\ signal_index_build_count w <= 1 /\
  (signal_index_built w = true -> forall d, db w = Some d ->
     (signal_index w, declared_ranges w) = index_of d ∅ ∅) /\
  (forall h cs, selected_change_cache w !! h = Some cs ->
     exists sel, packed_selection w h = Some sel /\ cs = selection_changes (db w) (xdb w) sel).
Proof.
  intros Hr. apply reachable_wf in Hr as Hw. split; [done|].
  pose proof (wf_index w Hw) as Hi.
  split; [destruct (signal_index_built w); destruct Hi as [-> _]; lia|]. split.
  - intros Hb d Hd. rewrite Hb in Hi. destruct Hi as (_ & d' & Hd' & E). congruence.
  - intros h cs Hc. destruct (wf_cache w Hw h cs Hc) as (sel & Hs & _). exists sel. split; [done|].
    pose proof (selected_changes_refines w h sel Hw Hs) as Hx. unfold selected_changes in Hx.
    rewrite Hc in Hx. by destruct Hx.
Qed.
End Properties.

(** ** Witnesses

    The demo file, a packed selection of its bus found through a path with a
    duplicated root, and the base signal loaded. *)

Abbreviation demo_state := (WellenFstBackend mem_db mem_db).
Definition demo_open : demo_state := (open initial (lit "demo.fst")).2.
Definition demo_found : Z * demo_state := find_signal demo_open (lit "TOP.top.Bus[2:1]").
Definition demo_loaded : demo_state := (load_signals demo_found.2 [demo_found.1]).2.
Definition demo_sel : PackedSelection := MkPS 2 3 0 2 1 2.

Lemma demo_open_wf : wf demo_open.
Proof. apply open_wf. Qed.

Lemma demo_loaded_wf : wf demo_loaded.
Proof. apply load_wf, find_wf, demo_open_wf. Qed.

Lemma demo_sel_ok : selection_ok demo_sel.
Proof. unfold selection_ok, i64_min, i64_max, u32_max. cbn. lia. Qed.

Lemma demo_denotes : denotes demo_loaded 0x80000001 (TVirtual demo_sel).
Proof.
  split; [vm_compute; reflexivity|]. split; [done|]. split; [|apply demo_sel_ok].
  unfold ref_ok. cbn. lia.
Qed.

Lemma select_packed_bits_exact_witness :
  exists out, select_packed_bits demo_sel (lit "0110") = Some out /\ zlen out = 2 /\
    out !! 0%nat = Some "1"%char.
Proof.
  destruct (select_packed_bits_exact demo_sel (lit "0110") demo_sel_ok) as [Hs _].
  destruct (Hs eq_refl) as (out & Ho & Hw & Hk). exists out. split; [exact Ho|]. split; [exact Hw|].
  rewrite Hk by done. vm_compute. reflexivity.
Defined.

Lemma find_signal_resolves_witness :
  resolve (db demo_open) (lit "TOP.top.Bus[2:1]") = TVirtual demo_sel /\
  denotes demo_found.2 demo_found.1 (resolve (db demo_open) (lit "TOP.top.Bus[2:1]")).
Proof.
  split; [vm_compute; reflexivity|].
  pose proof (find_signal_resolves demo_open (lit "TOP.top.Bus[2:1]") demo_open_wf eq_refl) as Hf.
  unfold demo_found. destruct (find_signal demo_open (lit "TOP.top.Bus[2:1]")) as [h w'].
  destruct Hf as (_ & Hd & _). exact Hd.
Defined.

Lemma sampled_value_settled_witness :
  sv_value <$> (sampled_value_at demo_loaded 0x80000001 2 Before).1 = Some (MkWV BitVector (lit "00") 0).
Proof.
  rewrite (proj1 (sampled_value_settled demo_loaded 0x80000001 (TVirtual demo_sel) 2 Before
    demo_loaded_wf demo_denotes)).
  vm_compute. reflexivity.
Defined.

Lemma selection_samples_base_witness :
  sv_value <$> (sampled_value_at demo_loaded 0x80000001 2 Raw).1 = Some (MkWV BitVector (lit "10") 0).
Proof.
  rewrite (selection_samples_base demo_loaded 0x80000001 demo_sel
    (mem_load demo_file [2]) (mem_load demo_file [2]) 2 Raw demo_loaded_wf);
    [vm_compute; reflexivity|vm_compute; reflexivity|vm_compute; reflexivity|apply demo_denotes|].
  assert (Forall (fun c => kind c.2 = BitVector /\ zlen (text c.2) = 4)
    (native_changes (mem_load demo_file [2]) (mem_load demo_file [2]) 2)) as Hf
    by (vm_compute; repeat constructor).
  intros c Hc. exact (proj1 (list.Forall_forall _ _) Hf c Hc).
Defined.

Lemma scan_changes_exact_witness :
  (snd <$> (scan_changes demo_loaded 2 1 2 2).1) = Some (MkSD 3 2 4 BitVector true true true).
Proof.
  rewrite (scan_changes_exact demo_loaded 2 (TNative 2) 1 2 2 (MkSI BitVector 4 2 4 4 false)
    demo_loaded_wf); [vm_compute; reflexivity| |lia|lia|vm_compute; reflexivity].
  split; [done|]. unfold ref_ok. lia.
Defined.

Lemma reachable_invariant_witness : signal_index_build_count demo_loaded <= 1.
Proof.
  apply reachable_invariant. unfold demo_loaded, demo_found, demo_open.
  eapply rtc_l; [apply (step_open initial (lit "demo.fst"))|].
  eapply rtc_l; [apply (step_find _ (lit "TOP.top.Bus[2:1]"))|].
  eapply rtc_l; [apply step_load|]. apply rtc_refl.
Defined.

(** [value_at] reads the first of several changes at the selected time
    while a [Raw] sample, and every caller of it, reads the last: on the demo
    bus at time 10 the two disagree. *)
Theorem value_at_reads_first_delta :
  (fst ∘ fst ∘ fst <$> (value_at demo_loaded (lit "top.bus") 10).1) = Some (lit "0101") /\
  (text ∘ sv_value <$> (sampled_value_at demo_loaded 2 (time_idx_of demo_loaded 10) Raw).1) =
    Some (lit "0100").
Proof. split; vm_compute; reflexivity. Qed.
