(* ===== verification/ClockSampling.v ===== *)
(** * ClockSampling: clock edges and the values around them

    Models [src/waveform/clock_sampling.{h,cpp}] over the part of
    [IWaveformBackend] it uses, given as a class: the change indices of a
    signal, the time of an index and sampling. [SampledLaws] states what the
    sampler relies on, every sample being the settled value of the signal's
    change list; [wellen_sampled_laws] discharges it for the FST backend. The
    theorems show that the detected edges are exactly the indices where the
    settled clock value goes from [0] to [1] (or [1] to [0]) and what each
    reported sample contains. *)

From Stdlib Require Import Sorted.
From S2P Require Import Prelude CLib Waveform WellenApi WellenBackend WellenTheory.

Open Scope Z_scope.

Class SampledBackend (B : Type) := {
  sb_time_indices_of : B -> Z -> list Z;
  sb_time_at : B -> Z -> Z;
  sb_sampled_value_at : B -> Z -> Z -> ObservationPoint -> option SampledValue;
}.

Record ClockSample := MkCS {
  cs_time_idx : Z;
  cs_time : Z;
  cs_before : bytes;
  cs_middle : bytes;
  cs_after : bytes;
  cs_changed_at_edge : bool;
}.

Record PointValues := MkPV {
  pv_before : bytes;
  pv_middle : bytes;
  pv_after : bytes;
  pv_middle_match : bool;
  pv_has_before : bool;
  pv_has_after : bool;
}.
Definition pv_default : PointValues := MkPV [] [] [] false false false.

(** [s.back()] of a non-empty string. *)
Definition ends_with (c : ascii) (s : bytes) : bool :=
  match list.last s with Some d => eqc d c | None => false end.

Definition is_rising_edge (prev cur : bytes) : bool :=
  negb (eqs prev []) && negb (eqs cur []) && ends_with "0"%char prev && ends_with "1"%char cur.
Definition is_falling_edge (prev cur : bytes) : bool :=
  negb (eqs prev []) && negb (eqs cur []) && ends_with "1"%char prev && ends_with "0"%char cur.

Section Sampler.
Context {B : Type} `{SampledBackend B}.

(** [std::to_string(double)], six decimals in the C locale. *)
Variable real_to_string : Z -> bytes.

(** The local lambda of [read_point_values]. *)
Definition render_point (v : WaveformValue) : bytes :=
  match kind v with
  | Real => real_to_string (real v)
  | Event => lit "event"
  | _ => text v
  end.

Definition read_point_values (wf : B) (signal_ref time_idx : Z) : PointValues :=
  match sb_sampled_value_at wf signal_ref time_idx Raw with
  | None => pv_default
  | Some sampled =>
      let before := sb_sampled_value_at wf signal_ref time_idx Before in
      let after := sb_sampled_value_at wf signal_ref time_idx After in
      MkPV (match before with Some s => render_point (sv_value s) | None => [] end)
        (render_point (sv_value sampled))
        (match after with Some s => render_point (sv_value s) | None => [] end)
        (sv_time_match sampled)
        (bool_decide (is_Some before)) (bool_decide (is_Some after))
  end.

(** The constructor's loop over the clock's change indices. *)
Fixpoint edge_loop (wf : B) (clk_ref : Z) (rising falling : bool) (idxs : list Z)
    (prev : bytes) (previous_ti : Z) : list Z :=
  match idxs with
  | [] => []
  | ti :: idxs' =>
      if ti =? previous_ti then edge_loop wf clk_ref rising falling idxs' prev previous_ti
      else
        match sb_sampled_value_at wf clk_ref ti Raw with
        | None => edge_loop wf clk_ref rising falling idxs' prev ti
        | Some sampled =>
            let cur := text (sv_value sampled) in
            let rest := edge_loop wf clk_ref rising falling idxs' cur ti in
            if negb (eqs prev []) &&
               ((rising && is_rising_edge prev cur) || (falling && is_falling_edge prev cur))
            then ti :: rest else rest
        end
  end.

Record ClockSampleScanner := MkScanner {
  sc_target_ref : Z;
  edge_indices : list Z;
}.

Definition new_scanner (wf : B) (clk_ref target_ref : Z) (rising falling : bool)
    : ClockSampleScanner :=
  MkScanner target_ref
    (edge_loop wf clk_ref rising falling (sb_time_indices_of wf clk_ref) [] u32_max).

Fixpoint scan_edges (wf : B) (target_ref b e : Z) (edges : list Z) : list ClockSample :=
  match edges with
  | [] => []
  | ti :: edges' =>
      let rest := scan_edges wf target_ref b e edges' in
      if (ti <? b) || (e <? ti) then rest
      else
        let point := read_point_values wf target_ref ti in
        if eqs (pv_middle point) [] then rest
        else MkCS ti (sb_time_at wf ti) (pv_before point) (pv_middle point) (pv_after point)
               (pv_middle_match point && pv_has_before point &&
                negb (eqs (pv_before point) (pv_after point))) :: rest
  end.

(** The samples appended to [out] and their number. *)
Definition scan (wf : B) (s : ClockSampleScanner) (b e : Z) (out : list ClockSample)
    : Z * list ClockSample :=
  let samples := scan_edges wf (sc_target_ref s) b e (edge_indices s) in
  (zlen (out ++ samples) - zlen out, out ++ samples).

Definition edge_count (s : ClockSampleScanner) : Z := zlen (edge_indices s).
End Sampler.

(** ** What the sampler relies on *)

Class SampledLaws (B : Type) `{SampledBackend B} := {
  sb_ok : B -> Z -> Prop;
  sb_changes : B -> Z -> list (Z * WaveformValue);
  sb_sorted : forall b r, sb_ok b r -> sorted_idx (map fst (sb_changes b r));
  sb_indices : forall b r, sb_ok b r -> sb_time_indices_of b r = map fst (sb_changes b r);
  sb_settled : forall b r ti point, sb_ok b r ->
    sv_value <$> sb_sampled_value_at b r ti point = settled point ti (sb_changes b r);
  sb_match : forall b r ti point s, sb_ok b r -> sb_sampled_value_at b r ti point = Some s ->
    sv_time_match s = bool_decide (ti ∈ map fst (sb_changes b r));
}.

(** ** The FST backend as a sampled backend *)

Section Wellen.
Context {D X : Type} `{WellenDoc D X}.
Abbreviation W := (WellenFstBackend D X).

#[export] Instance wellen_sampled : SampledBackend W := {|
  sb_time_indices_of w r := (time_indices_of w r).1;
  sb_time_at := time_at;
  sb_sampled_value_at w r ti point := (sampled_value_at w r ti point).1;
|}.

(** What a handle of a state denotes. *)
Definition target_of (w : W) (r : Z) : target :=
  match packed_selection w r with
  | Some sel => TVirtual sel
  | None => if r =? 0 then TNone else TNative r
  end.

Lemma offset_spec_match l ti o : sorted_idx l -> offset_spec l ti = Some o ->
  so_time_match o = bool_decide (ti ∈ l).
Proof.
  intros Hs Ho. unfold offset_spec in Ho. destruct (count_le l ti) as [|m] eqn:Hc; [done|].
  destruct (count_le_last l ti m Hs Hc) as (t & Ht & Hle & Hn & _). rewrite Ht in Ho.
  cbn in Ho. injection Ho as <-. cbn [so_time_match]. destruct (Z.eqb_spec t ti) as [->|Hne].
  - symmetry. apply bool_decide_eq_true. by eapply list_elem_of_lookup_2.
  - symmetry. apply bool_decide_eq_false. intros [i Hi]%list_elem_of_lookup.
    pose proof (count_le_iff l i ti ti Hs Hi). assert (i <= m)%nat as Him by lia.
    pose proof (Hs i m ti t Him Hi Ht). lia.
Qed.

#[export, refine] Instance wellen_sampled_laws : SampledLaws W := {|
  sb_ok w r := wf w /\ denotes w r (target_of w r);
  sb_changes w r := target_changes (db w) (xdb w) (target_of w r);
|}.
Proof.
  - intros w r [Hw _]. by apply target_changes_ok.
  - intros w r [Hw Ht]. apply (indices_reads w r _ Hw Ht).
  - intros w r ti point [Hw Ht]. cbn.
    rewrite (proj1 (sampled_reads w r _ ti point Hw Ht)). by apply sample_settled, target_changes_ok.
  - intros w r ti point s [Hw Ht]. cbn. rewrite (proj1 (sampled_reads w r _ ti point Hw Ht)).
    destruct (target_changes_ok w (target_of w r) Hw) as [Hs _].
    unfold sample_of. destruct (offset_spec _ ti) as [o|] eqn:Ho; [|done]. cbn [mbind option_bind].
    destruct (offset_pos point o); [|done]. cbn [mbind option_bind].
    destruct (_ !! _); [|done]. cbn. intros [= <-]. cbn. by apply offset_spec_match.
Defined.
End Wellen.

(** ** Edges *)

(** The distinct values of a sorted list, [p] being the one before it. *)
Fixpoint distinct_from (p : Z) (l : list Z) : list Z :=
  match l with
  | [] => []
  | t :: l' => if t =? p then distinct_from p l' else t :: distinct_from t l'
  end.

Lemma distinct_from_spec l : forall p, sorted_idx l -> (forall t, t ∈ l -> p <= t) ->
  StronglySorted Z.lt (p :: distinct_from p l) /\
  forall t, t ∈ distinct_from p l <-> t ∈ l /\ t <> p.
Proof.
  induction l as [|x l IH]; intros p Hs Hp; cbn [distinct_from].
  { split; [repeat constructor|]. intros t. split; [by intros ?%elem_of_nil|by intros [?%elem_of_nil _]]. }
  apply sorted_idx_id, sorted_by_cons in Hs as [Hs Hx].
  assert (sorted_idx l) as Hs' by (unfold sorted_by in Hs; by rewrite map_id in Hs).
  pose proof (Hp x (list_elem_of_here _ _)) as Hpx.
  destruct (Z.eqb_spec x p) as [->|Hne].
  - destruct (IH p Hs' Hx) as [Hsort Hmem]. split; [done|]. intros t.
    rewrite Hmem, elem_of_cons. split; [by intros [? ?]; auto|]. intros [[->|?] ?]; done.
  - destruct (IH x Hs' Hx) as [Hsort Hmem]. split.
    + constructor; [done|]. constructor; [lia|]. apply list.Forall_forall. intros t Ht.
      apply Hmem in Ht as [Ht _]. specialize (Hx t Ht). lia.
    + intros t. rewrite !elem_of_cons, Hmem. split.
      * intros [->|[Ht Hne']]; [auto|]. specialize (Hx t Ht). split; [auto|]. lia.
      * intros [[->|Ht] ?]; [by left|]. destruct (decide (t = x)); auto.
Qed.

Lemma sorted_by_suffix {A} (tm : A -> Z) l k : sorted_by tm (l ++ k) -> sorted_by tm k.
Proof.
  induction l as [|x l IH]; intros Hs; [done|]. cbn [app] in Hs.
  apply sorted_by_cons in Hs as [Hs _]. by apply IH.
Qed.

Section Edges.
Context {B : Type} `{SampledLaws B}.

Definition settled_text (b : B) (r ti : Z) (point : ObservationPoint) : bytes :=
  match settled point ti (sb_changes b r) with Some v => text v | None => [] end.

(** The clock has the wanted edge at [ti]: its settled value strictly before
    [ti] and its settled value at [ti] differ that way in the last bit. *)
Definition edge_at (b : B) (r : Z) (rising falling : bool) (ti : Z) : bool :=
  let before := settled_text b r ti Before in
  let at_ := settled_text b r ti Raw in
  (rising && (ends_with "0"%char before && ends_with "1"%char at_)) ||
  (falling && (ends_with "1"%char before && ends_with "0"%char at_)).

Lemma ends_with_nonempty c s : ends_with c s = true -> eqs s [] = false.
Proof. intros Hs. apply eqs_false. by intros ->. Qed.

Lemma rising_edge_ends p c : is_rising_edge p c = ends_with "0"%char p && ends_with "1"%char c.
Proof.
  unfold is_rising_edge. destruct (ends_with "0"%char p) eqn:E1, (ends_with "1"%char c) eqn:E2;
    rewrite ?andb_false_r; try done.
  by rewrite (ends_with_nonempty _ _ E1), (ends_with_nonempty _ _ E2).
Qed.

Lemma falling_edge_ends p c : is_falling_edge p c = ends_with "1"%char p && ends_with "0"%char c.
Proof.
  unfold is_falling_edge. destruct (ends_with "1"%char p) eqn:E1, (ends_with "0"%char c) eqn:E2;
    rewrite ?andb_false_r; try done.
  by rewrite (ends_with_nonempty _ _ E1), (ends_with_nonempty _ _ E2).
Qed.

Lemma edge_test prev cur (rising falling : bool) :
  negb (eqs prev []) &&
    ((rising && is_rising_edge prev cur) || (falling && is_falling_edge prev cur)) =
  (rising && (ends_with "0"%char prev && ends_with "1"%char cur)) ||
  (falling && (ends_with "1"%char prev && ends_with "0"%char cur)).
Proof.
  rewrite rising_edge_ends, falling_edge_ends. destruct prev; [|done].
  cbn. by rewrite !andb_false_r.
Qed.

(** Splitting a change list at its first entry of time [c.1]. *)
Lemma below_split (cd : list (Z * WaveformValue)) c ct point ti :
  (forall y, y ∈ cd -> threshold point ti y.1) ->
  (forall y, y ∈ c :: ct -> ~ threshold point ti y.1) ->
  below fst (threshold point ti) (cd ++ c :: ct) = cd.
Proof.
  intros Hd Ht. unfold below. rewrite list.filter_app, filter_all, filter_none, app_nil_r by done. done.
Qed.

Lemma settled_some (b : B) r c ti : sb_ok b r -> c ∈ sb_changes b r -> c.1 <= ti ->
  is_Some (settled Raw ti (sb_changes b r)).
Proof.
  intros Hok Hin Hle. unfold settled.
  destruct (list.last (below fst (threshold Raw ti) (sb_changes b r))) eqn:E; [eauto|].
  apply last_None in E. assert (c ∈ below fst (threshold Raw ti) (sb_changes b r)) as Hc
    by (by apply list_elem_of_filter). rewrite E in Hc. by apply elem_of_nil in Hc.
Qed.

(** [cd] is scanned, [prev] is the settled text at its last index [p]. *)
Lemma edge_loop_spec (b : B) r rising falling ct : forall cd prev p,
  sb_ok b r -> sb_changes b r = cd ++ ct ->
  (cd = [] /\ prev = [] /\ (forall c, c ∈ ct -> c.1 <> p) \/
   (exists c, list.last cd = Some c /\ c.1 = p) /\ prev = settled_text b r p Raw) ->
  edge_loop b r rising falling (map fst ct) prev p =
  List.filter (edge_at b r rising falling) (distinct_from p (map fst ct)).
Proof.
  induction ct as [|c ct IH]; intros cd prev p Hok Hcs Hinv; [done|].
  cbn [map edge_loop distinct_from].
  pose proof (sb_sorted b r Hok) as Hs. rewrite Hcs in Hs.
  pose proof (sorted_by_app fst cd c ct Hs) as Hcd.
  assert (sb_changes b r = (cd ++ [c]) ++ ct) as Hcs' by (by rewrite Hcs, <- app_assoc).
  destruct (Z.eqb_spec c.1 p) as [Ep|Hne].
  { apply (IH (cd ++ [c])); [done|done|]. right.
    destruct Hinv as [(_ & _ & Hn)|[_ ->]]; [by destruct (Hn c (list_elem_of_here _ _))|].
    split; [|done]. exists c. by rewrite last_snoc. }
  assert (is_Some (settled Raw c.1 (sb_changes b r))) as [v Hv].
  { apply (settled_some b r c); [done| |lia]. rewrite Hcs. apply elem_of_app. right. left. }
  pose proof (sb_settled b r c.1 Raw Hok) as Hsamp. rewrite Hv in Hsamp.
  destruct (sb_sampled_value_at b r c.1 Raw) as [s|] eqn:Es; [|done].
  cbn in Hsamp. injection Hsamp as Hsv. rewrite Hsv.
  assert (text v = settled_text b r c.1 Raw) as -> by (unfold settled_text; by rewrite Hv).
  assert (prev = settled_text b r c.1 Before) as ->.
  { unfold settled_text, settled. rewrite Hcs.
    assert (forall y, y ∈ c :: ct -> c.1 <= y.1) as Hge.
    { intros y [->|Hy]%elem_of_cons; [done|].
      apply (sorted_by_cons fst c ct); [by apply (sorted_by_suffix fst cd)|done]. }
    destruct Hinv as [(-> & -> & _)|[(q & Hq & <-) ->]].
    - rewrite (below_split [] c ct Before c.1); [done|by intros y ?%elem_of_nil|].
      intros y Hy Hlt. specialize (Hge y Hy). cbn in Hlt. lia.
    - assert (q ∈ cd) as Hqin by (by apply last_Some_elem_of).
      pose proof (Hcd q Hqin) as Hqc.
      assert (forall y, y ∈ cd -> y.1 <= q.1) as Hyq.
      { intros y Hy. apply last_Some in Hq as [l' ->]. rewrite <- app_assoc in Hs.
        apply elem_of_app in Hy as [Hy|Hy%list_elem_of_singleton]; [|by subst].
        by apply (sorted_by_app fst l' q (c :: ct)). }
      unfold settled_text, settled. rewrite Hcs.
      rewrite (below_split cd c ct Before c.1), (below_split cd c ct Raw q.1); try done.
      + intros y Hy Hle. specialize (Hge y Hy). cbn in Hle. lia.
      + intros y Hy. specialize (Hyq y Hy). cbn. lia.
      + intros y Hy Hlt. specialize (Hge y Hy). cbn in Hlt. lia. }
  rewrite edge_test. cbn [List.filter]. unfold edge_at at 1.
  rewrite (IH (cd ++ [c])); [done|done|done|]. right. split; [|done].
  exists c. by rewrite last_snoc.
Qed.
End Edges.

Section Properties.
Context {B : Type} `{SampledLaws B}.
Variable real_to_string : Z -> bytes.

Lemma edge_indices_eq (b : B) clk target rising falling : sb_ok b clk ->
  (forall c, c ∈ sb_changes b clk -> 0 <= c.1 < u32_max) ->
  edge_indices (new_scanner b clk target rising falling) =
  List.filter (edge_at b clk rising falling) (distinct_from (-1) (map fst (sb_changes b clk))).
Proof.
  intros Hok Hr. unfold new_scanner. cbn [edge_indices]. rewrite sb_indices by done.
  rewrite (edge_loop_spec b clk rising falling (sb_changes b clk) []); [|done|done|].
  - destruct (sb_changes b clk) as [|c cs]; [done|]. cbn [map distinct_from].
    pose proof (Hr c (list_elem_of_here _ _)).
    by rewrite !(proj2 (Z.eqb_neq c.1 _)) by lia.
  - left. split; [done|]. split; [done|]. intros c Hc. specialize (Hr c Hc). lia.
Qed.

(** Clock edges. The scanner records, in increasing order and once each,
    exactly the clock's change indices where its settled value goes from a
    last bit 0 strictly before the index to a last bit 1 at it (rising) or
    from 1 to 0 (falling), as selected; glitches within one index and
    transitions through x or z are no edges. *)
Theorem clock_edges_exact (b : B) (clk target : Z) (rising falling : bool) :
  sb_ok b clk -> (forall c, c ∈ sb_changes b clk -> 0 <= c.1 < u32_max) ->
  let edges := edge_indices (new_scanner b clk target rising falling) in
  StronglySorted Z.lt edges /\
  forall ti, ti ∈ edges <->
    ti ∈ sb_time_indices_of b clk /\ edge_at b clk rising falling ti = true.
Proof.
  intros Hok Hr edges. unfold edges. rewrite edge_indices_eq, sb_indices by done.
  destruct (distinct_from_spec (map fst (sb_changes b clk)) (-1)) as [Hsort Hmem].
  { by apply sb_sorted. }
  { intros t Ht. apply list_elem_of_fmap in Ht as (c & -> & Hc). specialize (Hr c Hc). lia. }
  split.
  - apply StronglySorted_inv in Hsort as [Hsort _]. clear Hmem.
    induction Hsort as [|x l Hl IH Hx]; cbn [List.filter]; [constructor|].
    case_if; [|done]. constructor; [done|]. apply list.Forall_forall. intros y Hy.
    apply list_elem_of_In, List.filter_In in Hy as [Hy _].
    apply (proj1 (list.Forall_forall _ _) Hx). by apply list_elem_of_In.
  - intros ti. rewrite list_elem_of_In, List.filter_In, <- list_elem_of_In, Hmem.
    split; [intros [[? ?] ?]; done|]. intros [Hin He]. split; [|done]. split; [done|].
    apply list_elem_of_fmap in Hin as (c & -> & Hc). specialize (Hr c Hc). lia.
Qed.

Lemma sampled_settled (b : B) r ti point : sb_ok b r ->
  match sb_sampled_value_at b r ti point with
  | Some s => settled point ti (sb_changes b r) = Some (sv_value s)
  | None => settled point ti (sb_changes b r) = None
  end.
Proof.
  intros Hok. pose proof (sb_settled b r ti point Hok) as E.
  by destruct (sb_sampled_value_at b r ti point).
Qed.

(** Rendering of an optional settled value, empty when there is none. *)
Definition point_text (b : B) (r ti : Z) (point : ObservationPoint) : bytes :=
  match settled point ti (sb_changes b r) with
  | Some v => render_point real_to_string v
  | None => []
  end.

(** [After] selects the same settled value as [Raw]. *)
Lemma read_point_settled (b : B) r ti : sb_ok b r ->
  let p := read_point_values real_to_string b r ti in
  pv_middle p = point_text b r ti Raw /\ pv_after p = pv_middle p /\
  (is_Some (settled Raw ti (sb_changes b r)) ->
   pv_before p = point_text b r ti Before /\
   pv_has_before p = bool_decide (is_Some (settled Before ti (sb_changes b r))) /\
   pv_middle_match p = bool_decide (ti ∈ sb_time_indices_of b r)).
Proof.
  intros Hok p. unfold p, read_point_values, point_text.
  pose proof (sampled_settled b r ti Raw Hok) as E1.
  pose proof (sampled_settled b r ti Before Hok) as E2.
  pose proof (sampled_settled b r ti After Hok) as E3.
  change (settled After ti (sb_changes b r)) with (settled Raw ti (sb_changes b r)) in E3.
  destruct (sb_sampled_value_at b r ti Raw) as [s|] eqn:Es; rewrite E1.
  - cbn [pv_middle pv_after pv_before pv_has_before pv_middle_match].
    split; [done|]. split.
    + destruct (sb_sampled_value_at b r ti After) as [s3|]; congruence.
    + intros _. rewrite (sb_match b r ti Raw s Hok Es), sb_indices by done.
      destruct (sb_sampled_value_at b r ti Before) as [s2|]; rewrite E2.
      * by rewrite !bool_decide_true by eauto.
      * by rewrite !(bool_decide_false (is_Some None)) by (by intros [? ?]).
  - split; [done|]. split; [done|]. by intros [? ?].
Qed.

(** Clock samples. Scanning appends, in order, one sample for every edge
    in the window at which the target has a non-empty settled value, and
    returns their number. In each sample [middle] and [after] are both the
    target's settled value at the edge, [before] its settled value strictly
    before it, and [changed_at_edge] holds exactly when the target has a
    change at that index and those two values differ. *)
Theorem clock_samples_exact (b : B) (s : ClockSampleScanner) (lo hi : Z) (out : list ClockSample) :
  sb_ok b (sc_target_ref s) ->
  let r := sc_target_ref s in
  let kept := List.filter (fun ti => (lo <=? ti) && (ti <=? hi) &&
                negb (eqs (point_text b r ti Raw) [])) (edge_indices s) in
  scan real_to_string b s lo hi out =
    (zlen kept, out ++ map (fun ti =>
       MkCS ti (sb_time_at b ti) (point_text b r ti Before) (point_text b r ti Raw)
         (point_text b r ti Raw)
         (bool_decide (ti ∈ sb_time_indices_of b r) &&
          bool_decide (is_Some (settled Before ti (sb_changes b r))) &&
          negb (eqs (point_text b r ti Before) (point_text b r ti Raw)))) kept).
Proof.
  intros Hok r kept. unfold scan.
  assert (scan_edges real_to_string b r lo hi (edge_indices s) = map (fun ti =>
       MkCS ti (sb_time_at b ti) (point_text b r ti Before) (point_text b r ti Raw)
         (point_text b r ti Raw)
         (bool_decide (ti ∈ sb_time_indices_of b r) &&
          bool_decide (is_Some (settled Before ti (sb_changes b r))) &&
          negb (eqs (point_text b r ti Before) (point_text b r ti Raw)))) kept) as E.
  { unfold kept. induction (edge_indices s) as [|ti l IH]; [done|]. cbn [scan_edges List.filter].
    destruct (read_point_settled b r ti Hok) as (Em & Ea & Erest).
    destruct (Z.ltb_spec ti lo), (Z.ltb_spec hi ti), (Z.leb_spec lo ti), (Z.leb_spec ti hi);
      try lia; cbn [orb andb]; try exact IH.
    rewrite Em. destruct (eqs (point_text b r ti Raw) []) eqn:Ee; cbn [negb]; [exact IH|].
    cbn [map]. rewrite IH, Ea, Em. f_equal.
    destruct Erest as (-> & -> & ->); [|done].
    unfold point_text in Ee. destruct (settled Raw ti (sb_changes b r)); [eauto|done]. }
  fold r. rewrite E. f_equal. unfold zlen. rewrite length_app, length_map. lia.
Qed.
End Properties.

(** ** Witnesses on the demo file *)

Definition demo_clocked : demo_state := (load_signals demo_loaded [1; 2]).2.

Lemma demo_clocked_wf : wf demo_clocked.
Proof. apply load_wf, demo_loaded_wf. Qed.

Lemma demo_native_ok r : (r =? 1) || (r =? 2) = true -> sb_ok demo_clocked r.
Proof.
  intros [E|E]%orb_true_iff; apply Z.eqb_eq in E as ->; (split; [apply demo_clocked_wf|]);
    unfold target_of; vm_compute; done.
Qed.

Lemma clock_edges_exact_witness :
  3 ∈ edge_indices (new_scanner demo_clocked 1 2 true false).
Proof.
  apply (clock_edges_exact demo_clocked 1 2 true false); [by apply demo_native_ok| |].
  - assert (forallb (fun c => (0 <=? c.1) && (c.1 <? u32_max)) (sb_changes demo_clocked 1) = true) as Hf
      by (vm_compute; reflexivity).
    rewrite List.forallb_forall in Hf. intros c Hc%list_elem_of_In. specialize (Hf c Hc). lia.
  - split; [|vm_compute; reflexivity].
    apply list_elem_of_In. vm_compute. tauto.
Defined.

Lemma clock_samples_exact_witness :
  scan (fun _ => []) demo_clocked (new_scanner demo_clocked 1 2 true false) 0 3 [] =
    (2, [MkCS 1 5 (lit "0000") (lit "0001") (lit "0001") true;
         MkCS 3 15 (lit "0100") (lit "0100") (lit "0100") false]).
Proof.
  rewrite (clock_samples_exact (fun _ => []) demo_clocked (new_scanner demo_clocked 1 2 true false));
    [vm_compute; reflexivity|by apply demo_native_ok].
Defined.
