(* ===== verification/Cursor.v ===== *)
(** * Cursor: named waveform cursors

    Models [CursorManager] ([src/waveform/cursor/cursor_manager.{h,cpp}]), the
    session's registry of time markers: a [std::map] in key order, the name of
    the active cursor, and a 64-bit revision counter that stamps updates. The
    theorems show the registry's invariant over every sequence of operations
    and that it behaves as a map from names to the last time set. *)

From S2P Require Import Prelude Json.

Open Scope Z_scope.

Record WaveformCursor := MkCursor {
  cur_name : bytes;
  cur_time : Z;
  cur_note : bytes;
  cur_origin : bytes;
  cur_clock : bytes;
  created_at : Z;
  updated_at : Z;
}.

Record CursorManager := MkCM {
  cursors : list (bytes * WaveformCursor);
  active_name : bytes;
  revision : Z;
}.

Definition cm_initial : CursorManager := MkCM [] [] 0.

Definition cm_set (m : CursorManager) (name : bytes) (time : Z) : bool * CursorManager :=
  match name with
  | [] => (false, m)
  | _ =>
      let rev := u64 (revision m + 1) in
      let cursor :=
        match mget name (cursors m) with
        | None => MkCursor name time [] (lit "user") [] rev rev
        | Some c => MkCursor (cur_name c) time (cur_note c) (cur_origin c) (cur_clock c)
                      (created_at c) rev
        end in
      (true, MkCM (mset name cursor (cursors m)) (active_name m) rev)
  end.

Definition cm_get (m : CursorManager) (name : bytes) : option WaveformCursor :=
  mget name (cursors m).

Definition cm_remove (m : CursorManager) (name : bytes) : bool * CursorManager :=
  match mget name (cursors m) with
  | None => (false, m)
  | Some _ =>
      (true, MkCM (mdel name (cursors m))
               (if eqs (active_name m) name then [] else active_name m) (revision m))
  end.

Definition cm_use (m : CursorManager) (name : bytes) : option WaveformCursor * CursorManager :=
  match cm_get m name with
  | None => (None, m)
  | Some c => (Some c, MkCM (cursors m) name (revision m))
  end.

Definition cm_all (m : CursorManager) : list WaveformCursor := map snd (cursors m).

Definition cm_clear (m : CursorManager) : CursorManager := cm_initial.

(** ** Invariant *)

Definition cursor_ok (rev : Z) (kc : bytes * WaveformCursor) : Prop :=
  cur_name kc.2 = kc.1 /\ kc.1 <> [] /\ 0 < created_at kc.2 <= updated_at kc.2 /\ updated_at kc.2 <= rev.

(** Entries in key order under their own names, stamped in order and not
    ahead of the counter; no two updates share a stamp; the active name is
    empty or names a cursor. *)
Record cm_inv (m : CursorManager) : Prop := {
  cm_sorted : msorted (cursors m) = true;
  cm_entries : forall kc, kc ∈ cursors m -> cursor_ok (revision m) kc;
  cm_stamps : forall a b, a ∈ cursors m -> b ∈ cursors m -> updated_at a.2 = updated_at b.2 -> a = b;
  cm_active : active_name m = [] \/ is_Some (mget (active_name m) (cursors m));
  cm_revision : 0 <= revision m;
}.

Lemma cm_initial_inv : cm_inv cm_initial.
Proof.
  constructor; cbn; try done; [by intros kc Hin%elem_of_nil|by intros a b Hin%elem_of_nil|by left].
Qed.

Lemma cm_set_inv m name time : cm_inv m -> revision m < u64_max -> cm_inv (cm_set m name time).2.
Proof.
  intros [Hs He Hst Ha Hr] Hb. unfold cm_set. destruct name as [|c0 s0]; [done|].
  set (name := c0 :: s0). assert (u64 (revision m + 1) = revision m + 1) as ->
    by (apply u64_small; unfold u64_max in Hb; lia).
  cbv zeta. set (cursor := match mget name (cursors m) with Some c => _ | None => _ end).
  assert (cursor_ok (revision m + 1) (name, cursor) /\ updated_at cursor = revision m + 1) as [Hc Hu].
  { unfold cursor. destruct (mget name (cursors m)) as [c|] eqn:Hg.
    - apply mget_elem in Hg. destruct (He _ Hg) as (Hn & _ & Hstamp & Hle). cbn in *.
      unfold cursor_ok. cbn. repeat split; try done; lia.
    - unfold cursor_ok. cbn. repeat split; try done; lia. }
  clearbody cursor. cbn [snd]. constructor; cbn [cursors revision active_name].
  - by apply mset_sorted.
  - intros [k v] [->|Hin]%mset_elem; [done|]. destruct (He _ Hin) as (H1 & H2 & H3 & H4).
    unfold cursor_ok. repeat split; try done; lia.
  - intros [ka va] [kb vb] Hin1 Hin2 Heq. cbn in Heq.
    apply mset_elem in Hin1 as [E1|Hin1]; apply mset_elem in Hin2 as [E2|Hin2].
    + congruence.
    + injection E1 as -> ->. destruct (He _ Hin2) as (_ & _ & _ & ?). cbn in *. lia.
    + injection E2 as -> ->. destruct (He _ Hin1) as (_ & _ & _ & ?). cbn in *. lia.
    + by apply (Hst (ka, va) (kb, vb)).
  - destruct Ha as [?|Ha]; [by left|right].
    destruct (decide (name = active_name m)) as [<-|Hne]; [rewrite mget_mset_eq; eauto|].
    by rewrite mget_mset_ne.
  - lia.
Qed.

Lemma cm_remove_inv m name : cm_inv m -> cm_inv (cm_remove m name).2.
Proof.
  intros [Hs He Hst Ha Hr]. unfold cm_remove. destruct (mget name (cursors m)); [|done].
  cbn [snd]. constructor; cbn [cursors revision active_name]; [by apply mdel_sorted| | | |done].
  - intros [k v] Hin%mdel_elem. by apply He.
  - intros [ka va] [kb vb] H1%mdel_elem H2%mdel_elem. by apply Hst.
  - destruct (eqs (active_name m) name) eqn:E; [by left|]. apply eqs_false in E.
    destruct Ha as [?|Ha]; [by left|right]. by rewrite mget_mdel_ne.
Qed.

Lemma cm_use_inv m name : cm_inv m -> cm_inv (cm_use m name).2.
Proof.
  intros Hi. unfold cm_use, cm_get. destruct (mget name (cursors m)) eqn:E; [|done].
  destruct Hi. constructor; cbn; try done. right. by rewrite E.
Qed.

(** ** Sequences of operations *)

Inductive cm_step (m : CursorManager) : CursorManager -> Prop :=
| cm_step_set name time : cm_step m (cm_set m name time).2
| cm_step_remove name : cm_step m (cm_remove m name).2
| cm_step_use name : cm_step m (cm_use m name).2
| cm_step_clear : cm_step m (cm_clear m).

Lemma cm_step_revision m m' : cm_step m m' -> 0 <= revision m -> revision m' <= revision m + 1.
Proof.
  intros [name time|name|name|] Hr; cbn; try lia.
  - unfold cm_set. destruct name; cbn; [lia|]. unfold u64.
    apply (Z.mod_le (revision m + 1) (2 ^ 64)); lia.
  - unfold cm_remove. destruct (mget name (cursors m)); cbn; lia.
  - unfold cm_use, cm_get. destruct (mget name (cursors m)); cbn; lia.
Qed.

Lemma cm_step_inv m m' : cm_step m m' -> cm_inv m -> revision m < u64_max -> cm_inv m'.
Proof.
  intros [name time|name|name|] Hi Hb;
    [by apply cm_set_inv|by apply cm_remove_inv|by apply cm_use_inv|apply cm_initial_inv].
Qed.

(** The abstract registry: the last time set for each name. *)
Definition times_of (m : CursorManager) (name : bytes) : option Z := cur_time <$> cm_get m name.

(** Cursors are safe. After any sequence of fewer than 2^64 operations the
    cursor registry satisfies its invariant: entries in key order under their
    own non-empty names, creation and update stamps ordered and bounded by the
    revision counter, no two cursors with one update stamp, and an active name
    that is empty or names an existing cursor. *)
Theorem cursor_registry_invariant (n : nat) (m : CursorManager) :
  nsteps cm_step n cm_initial m -> Z.of_nat n <= u64_max -> cm_inv m.
Proof.
  intros Hn Hb.
  assert (forall k m0 m1, nsteps cm_step k m0 m1 -> cm_inv m0 ->
    revision m0 + Z.of_nat k <= u64_max -> cm_inv m1) as Hk.
  { induction k as [|k IH]; intros m0 m1 Hst Hi Hr; inversion Hst as [|? ? m' ? Hs1 Hs2]; subst; [done|].
    pose proof (cm_step_revision m0 m' Hs1 (cm_revision m0 Hi)).
    apply (IH m' m1 Hs2); [|lia]. apply (cm_step_inv m0); [done|done|lia]. }
  apply (Hk n cm_initial m Hn cm_initial_inv). cbn. lia.
Qed.

(** Cursors behave as a map. In a state satisfying the invariant, [set]
    with a non-empty name succeeds and changes only that name's time, keeping
    its creation stamp and annotations; [remove] succeeds exactly on present
    names, forgets only that one and deactivates it; [use] activates exactly
    the present names and changes no cursor. *)
Theorem cursor_registry_map (m : CursorManager) (name : bytes) (time : Z) :
  cm_inv m -> name <> [] ->
  ((cm_set m name time).1 = true /\ times_of (cm_set m name time).2 name = Some time /\
   (forall c, cm_get m name = Some c ->
      created_at <$> cm_get (cm_set m name time).2 name = Some (created_at c)) /\
   forall other, other <> name -> cm_get (cm_set m name time).2 other = cm_get m other) /\
  ((cm_remove m name).1 = bool_decide (is_Some (cm_get m name)) /\
   cm_get (cm_remove m name).2 name = None /\ active_name (cm_remove m name).2 <> name /\
   forall other, other <> name -> cm_get (cm_remove m name).2 other = cm_get m other) /\
  ((cm_use m name).1 = cm_get m name /\ cursors (cm_use m name).2 = cursors m /\
   (is_Some (cm_get m name) -> active_name (cm_use m name).2 = name)).
Proof.
  intros [Hs He Hst Ha Hr] Hn. destruct name as [|c0 s0]; [done|]. set (name := c0 :: s0) in *.
  unfold times_of, cm_set, cm_remove, cm_use, cm_get. subst name. cbn [fst snd cursors].
  set (name := c0 :: s0) in *. rewrite mget_mset_eq. split; [|split].
  - split; [done|]. split; [by destruct (mget name (cursors m))|]. split.
    + intros c Hc. by rewrite Hc.
    + intros other Ho. by apply mget_mset_ne.
  - destruct (mget name (cursors m)) as [c|] eqn:Hg; cbn [fst snd cursors active_name].
    + rewrite bool_decide_true by eauto. split; [done|]. split; [by apply mget_mdel_eq|]. split.
      * destruct (eqs (active_name m) name) eqn:E; [done|]. by apply eqs_false.
      * intros other Ho. by apply mget_mdel_ne.
    + rewrite bool_decide_false by (by intros [? ?]). split; [done|]. split; [done|]. split; [|done].
      intros E. destruct Ha as [Ha|[c Hc]]; [congruence|]. congruence.
  - destruct (mget name (cursors m)) eqn:Hg; cbn; [done|]. split; [done|]. split; [done|].
    by intros [? ?].
Qed.

Definition two_cursors : CursorManager :=
  (cm_set (cm_set (cm_set cm_initial (lit "b") 7).2 (lit "a") 3).2 (lit "b") 9).2.

Lemma two_cursors_steps : nsteps cm_step 3 cm_initial two_cursors.
Proof.
  unfold two_cursors. do 3 (eapply nsteps_l; [apply cm_step_set|]). apply nsteps_O.
Qed.

Lemma cursor_registry_invariant_witness :
  cm_inv two_cursors /\ map cur_name (cm_all two_cursors) = [lit "a"; lit "b"].
Proof.
  split; [apply (cursor_registry_invariant 3 _ two_cursors_steps); by vm_compute|reflexivity].
Defined.

Lemma cursor_registry_map_witness :
  times_of (cm_set two_cursors (lit "a") 11).2 (lit "a") = Some 11 /\
  times_of two_cursors (lit "b") = Some 9.
Proof.
  split; [|reflexivity].
  apply (cursor_registry_map two_cursors (lit "a") 11); [|done].
  constructor; cbn; try done; [| |by left].
  - intros kc Hin. repeat (apply elem_of_cons in Hin as [->|Hin]; [by vm_compute|]).
    by apply elem_of_nil in Hin.
  - intros a b Ha Hb E.
    repeat (apply elem_of_cons in Ha as [->|Ha] || apply elem_of_nil in Ha);
      repeat (apply elem_of_cons in Hb as [->|Hb] || apply elem_of_nil in Hb); done.
Defined.
