(* ===== verification/SignalList.v ===== *)
(** * SignalList: named signal lists

    Models [ListManager] ([src/waveform/list/list_manager.{h,cpp}]): a
    [std::map] from names to signal lists. Every fallible operation returns
    the error text or the updated registry; the file [load] reads is a
    parameter ([None] when it cannot be opened). The theorems show what each
    operation does to the listed signals, that the lists built through the
    operations hold no empty and, except for loaded ones, no repeated name,
    and that a list written one signal per line loads back. *)

From S2P Require Import Prelude CLib Json.

Open Scope Z_scope.

Record SignalList := MkSL {
  sl_name : bytes;
  sl_signals : list bytes;
  sl_created_from : bytes;
}.

Definition ListManager := list (bytes * SignalList).

Definition lm_create (m : ListManager) (name : bytes) : bytes + ListManager :=
  match name with
  | [] => inl (lit "list name is required")
  | _ =>
      match mget name m with
      | Some _ => inl (lit "list already exists: " ++ name)
      | None => inr (mset name (MkSL name [] (lit "user")) m)
      end
  end.

(** One iteration of the loop of [add]. *)
Definition add_signal (signals : list bytes) (s : bytes) : list bytes :=
  match s with
  | [] => signals
  | _ => if existsb (fun existing => eqs existing s) signals then signals else signals ++ [s]
  end.

Definition lm_add (m : ListManager) (name : bytes) (signals : list bytes) : bytes + ListManager :=
  match mget name m with
  | None => inl (lit "list not found: " ++ name)
  | Some l =>
      inr (mset name (MkSL (sl_name l) (foldl add_signal (sl_signals l) signals)
                        (sl_created_from l)) m)
  end.

Definition keep_signals (kept removed : list bytes) : list bytes :=
  List.filter (fun s => negb (existsb (fun r => eqs s r) removed)) kept.

Definition lm_remove (m : ListManager) (name : bytes) (signals : list bytes) : bytes + ListManager :=
  match mget name m with
  | None => inl (lit "list not found: " ++ name)
  | Some l =>
      inr (mset name (MkSL (sl_name l) (keep_signals (sl_signals l) signals)
                        (sl_created_from l)) m)
  end.

Definition lm_erase (m : ListManager) (name : bytes) : bool * ListManager :=
  match mget name m with
  | Some _ => (true, mdel name m)
  | None => (false, m)
  end.

(** [std::getline]: the lines of a text; a final newline opens no line. *)
Fixpoint lines_from (line text : bytes) : list bytes :=
  match text with
  | [] => match line with [] => [] | _ => [line] end
  | c :: text' =>
      if eqc c (chr 10) then line :: lines_from [] text' else lines_from (line ++ [c]) text'
  end.

(** [ss >> token] until the stream ends. *)
Fixpoint tokens_from (token text : bytes) : list bytes :=
  let flush := match token with [] => [] | _ => [token] end in
  match text with
  | [] => flush
  | c :: text' =>
      if isspace c then flush ++ tokens_from [] text' else tokens_from (token ++ [c]) text'
  end.

Definition strip_comment (line : bytes) : bytes := fst (span (fun c => negb (eqc c "#"%char)) line).

Definition file_signals (content : bytes) : list bytes :=
  concat (map (fun line => tokens_from [] (strip_comment line)) (lines_from [] content)).

Definition lm_load (m : ListManager) (name path : bytes) (content : option bytes)
    : bytes + ListManager :=
  match content with
  | None => inl (lit "cannot open file: " ++ path)
  | Some text =>
      let entry := match mget name m with Some l => sl_name l | None => name end in
      inr (mset name (MkSL entry (file_signals text) (lit "file:" ++ path)) m)
  end.

Definition lm_validate (m : ListManager) (name : bytes) : option bytes :=
  match mget name m with
  | None => Some (lit "list not found: " ++ name)
  | Some l =>
      if existsb (fun s => eqs s []) (sl_signals l)
      then Some (lit "list contains an empty signal name") else None
  end.

Definition lm_get (m : ListManager) (name : bytes) : option SignalList := mget name m.
Definition lm_exists (m : ListManager) (name : bytes) : bool :=
  match mget name m with Some _ => true | None => false end.
Definition lm_names (m : ListManager) : list bytes := map fst m.
Definition lm_clear (m : ListManager) : ListManager := [].

(** ** Listed signals *)

Lemma add_signal_elem l s x : x ∈ add_signal l s <-> x ∈ l \/ (x = s /\ s <> []).
Proof.
  unfold add_signal. destruct s as [|c s].
  - split; [by left|]. by intros [?|[_ ?]].
  - destruct (existsb _ l) eqn:E.
    + apply existsb_eqs in E. split; [by left|]. intros [?|[-> _]]; done.
    + rewrite elem_of_app, list_elem_of_singleton. split; [intros [?| ->]; auto|]. intros [?|[? _]]; auto.
Qed.

Lemma add_signal_nodup l s : NoDup l -> NoDup (add_signal l s).
Proof.
  intros Hl. unfold add_signal. destruct s as [|c s]; [done|]. destruct (existsb _ l) eqn:E; [done|].
  apply list.NoDup_app. split; [done|]. split; [|apply NoDup_singleton].
  intros x Hx Hy%list_elem_of_singleton. subst x.
  assert (existsb (fun e => eqs e (c :: s)) l = true) by (by apply existsb_eqs). congruence.
Qed.

Lemma add_signals_elem signals : forall l x,
  x ∈ foldl add_signal l signals <-> x ∈ l \/ (x ∈ signals /\ x <> []).
Proof.
  induction signals as [|s signals IH]; intros l x; cbn [foldl].
  - split; [by left|]. intros [?|[?%elem_of_nil _]]; done.
  - rewrite IH, add_signal_elem, elem_of_cons. split.
    + intros [[?|[-> ?]]|[? ?]]; auto.
    + intros [?|[[->|?] ?]]; auto.
Qed.

Lemma add_signals_nodup signals : forall l, NoDup l -> NoDup (foldl add_signal l signals).
Proof. induction signals as [|s signals IH]; intros l Hl; cbn [foldl]; auto using add_signal_nodup. Qed.

Lemma add_signals_prefix signals : forall l, l `prefix_of` foldl add_signal l signals.
Proof.
  induction signals as [|s signals IH]; intros l; cbn [foldl]; [done|].
  etransitivity; [|apply IH]. unfold add_signal. destruct s; [done|].
  destruct (existsb _ l); [done|]. by apply prefix_app_r.
Qed.

Lemma add_known l signals : (forall s, s ∈ signals -> s = [] \/ s ∈ l) -> foldl add_signal l signals = l.
Proof.
  induction signals as [|s signals IH]; intros Hs; cbn [foldl]; [done|].
  assert (add_signal l s = l) as ->; [|apply IH; intros x Hx; apply Hs; by right].
  unfold add_signal. destruct (Hs s (list_elem_of_here _ _)) as [->|Hin]; [done|].
  destruct s; [done|]. by rewrite (proj2 (existsb_eqs l _) Hin).
Qed.

Lemma keep_signals_elem kept removed x : x ∈ keep_signals kept removed <-> x ∈ kept /\ x ∉ removed.
Proof.
  unfold keep_signals. rewrite list_elem_of_In, filter_In, <- list_elem_of_In, negb_true_iff.
  rewrite <- not_true_iff_false, existsb_eqs'. done.
Qed.

Lemma keep_signals_sublist kept removed : keep_signals kept removed `sublist_of` kept.
Proof.
  unfold keep_signals. induction kept as [|s kept IH]; cbn; [done|].
  case_if; by constructor.
Qed.

(** ** Files *)

Lemma tokens_from_app token text rest c : forallb (fun d => negb (isspace d)) text = true ->
  token ++ text <> [] -> isspace c = true ->
  tokens_from token (text ++ c :: rest) = (token ++ text) :: tokens_from [] rest.
Proof.
  revert token. induction text as [|d text IH]; intros token Ht Hne Hc; cbn [app tokens_from].
  - rewrite Hc, app_nil_r in *. by destruct token.
  - cbn in Ht. apply andb_true_iff in Ht as [Hd Ht]. apply negb_true_iff in Hd. rewrite Hd.
    rewrite IH; [|done| |done]; rewrite <- app_assoc; [done|]. by destruct token.
Qed.

Lemma tokens_from_end token text : forallb (fun d => negb (isspace d)) text = true ->
  token ++ text <> [] -> tokens_from token text = [token ++ text].
Proof.
  revert token. induction text as [|d text IH]; intros token Ht Hne; cbn [tokens_from].
  - rewrite app_nil_r in *. by destruct token.
  - cbn in Ht. apply andb_true_iff in Ht as [Hd Ht]. apply negb_true_iff in Hd. rewrite Hd.
    rewrite IH, <- app_assoc; [done|done|]. rewrite <- app_assoc. by destruct token.
Qed.

Lemma tokens_from_nonempty text : forall token x, x ∈ tokens_from token text -> x <> [].
Proof.
  induction text as [|c text IH]; intros token x; cbn [tokens_from].
  - destruct token; [by intros ?%elem_of_nil|]. by intros ->%list_elem_of_singleton.
  - case_if; [|apply IH]. destruct token; [apply IH|].
    intros [->|Hin]%elem_of_cons; [done|by eapply IH].
Qed.

Lemma file_signals_nonempty content x : x ∈ file_signals content -> x <> [].
Proof.
  unfold file_signals. intros Hin. apply list_elem_of_In, in_concat in Hin as (l & Hl & Hx).
  apply in_map_iff in Hl as (line & <- & _). apply list_elem_of_In in Hx.
  by eapply tokens_from_nonempty.
Qed.

(** A signal name that survives in a list file. *)
Definition plain_signal (s : bytes) : bool :=
  negb (eqs s []) && forallb (fun c => negb (isspace c) && negb (eqc c "#"%char)) s.

Definition write_lines (signals : list bytes) : bytes :=
  concat (map (fun s => s ++ [chr 10]) signals).

Lemma lines_from_app s : forallb (fun c => negb (isspace c) && negb (eqc c "#"%char)) s = true ->
  forall line rest, lines_from line (s ++ chr 10 :: rest) = (line ++ s) :: lines_from [] rest.
Proof.
  induction s as [|c s IH]; intros Hs line rest; cbn [app lines_from].
  - by rewrite app_nil_r.
  - cbn in Hs. apply andb_true_iff in Hs as [Hc Hs].
    assert (eqc c (chr 10) = false) as ->.
    { apply eqc_false. intros ->. by vm_compute in Hc. }
    by rewrite IH, <- app_assoc.
Qed.

Lemma write_lines_load signals : forallb plain_signal signals = true ->
  file_signals (write_lines signals) = signals.
Proof.
  unfold file_signals. induction signals as [|s signals IH]; intros Hs; [done|].
  cbn in Hs. apply andb_true_iff in Hs as [Hp Hs]. unfold plain_signal in Hp.
  apply andb_true_iff in Hp as [Hne Hp]. apply negb_true_iff, eqs_false in Hne.
  unfold write_lines. cbn [map concat]. rewrite <- app_assoc. cbn [app].
  rewrite lines_from_app by done. cbn [map concat app]. fold (write_lines signals). rewrite IH by done.
  assert (strip_comment s = s) as ->.
  { unfold strip_comment. rewrite <- (app_nil_r s) at 1. rewrite span_stop; [done| |done].
    revert Hp. apply forallb_impl. by intros c [_ ?]%andb_true_iff. }
  rewrite tokens_from_end; [done| |done]. revert Hp. apply forallb_impl. by intros c [? _]%andb_true_iff.
Qed.

(** ** Sequences of operations *)

Inductive lm_step (m : ListManager) : ListManager -> Prop :=
| lm_step_create name m' : lm_create m name = inr m' -> lm_step m m'
| lm_step_add name signals m' : lm_add m name signals = inr m' -> lm_step m m'
| lm_step_remove name signals m' : lm_remove m name signals = inr m' -> lm_step m m'
| lm_step_erase name : lm_step m (lm_erase m name).2
| lm_step_load name path text m' : lm_load m name path (Some text) = inr m' -> lm_step m m'
| lm_step_clear : lm_step m (lm_clear m).

Definition list_ok (kl : bytes * SignalList) : Prop :=
  sl_name kl.2 = kl.1 /\ (forall s, s ∈ sl_signals kl.2 -> s <> []) /\
  (sl_created_from kl.2 = lit "user" -> NoDup (sl_signals kl.2)).

Definition lm_inv (m : ListManager) : Prop :=
  msorted m = true /\ forall kl, kl ∈ m -> list_ok kl.

Lemma lm_inv_set m name l : lm_inv m -> list_ok (name, l) -> lm_inv (mset name l m).
Proof.
  intros [Hs Hl] Hok. split; [by apply mset_sorted|].
  intros [k v] [->|Hin]%mset_elem; [done|by apply Hl].
Qed.

Lemma lm_step_inv m m' : lm_inv m -> lm_step m m' -> lm_inv m'.
Proof.
  intros Hi Hst. pose proof Hi as [Hs Hl].
  assert (forall name l, mget name m = Some l -> list_ok (name, l)) as Hget
    by (intros name l Hg; apply Hl; by apply mget_elem).
  destruct Hst as [name m' E|name sigs m' E|name sigs m' E|name|name path text m' E|].
  - unfold lm_create in E. destruct name; [done|]. destruct (mget _ m); [done|]. injection E as <-.
    apply lm_inv_set; [done|]. split; [done|]. split; [by intros s ?%elem_of_nil|].
    intros _. apply NoDup_nil_2.
  - unfold lm_add in E. destruct (mget name m) as [l|] eqn:Hg; [|done]. injection E as <-.
    destruct (Hget _ _ Hg) as (Hn & He & Hd). apply lm_inv_set; [done|]. split; [done|]. split.
    + intros s [?|[_ ?]]%add_signals_elem; [by apply He|done].
    + intros Hu. by apply add_signals_nodup, Hd.
  - unfold lm_remove in E. destruct (mget name m) as [l|] eqn:Hg; [|done]. injection E as <-.
    destruct (Hget _ _ Hg) as (Hn & He & Hd). apply lm_inv_set; [done|]. split; [done|]. split.
    + intros s [? _]%keep_signals_elem. by apply He.
    + intros Hu. eapply sublist_NoDup; [by apply Hd|apply keep_signals_sublist].
  - unfold lm_erase. destruct (mget name m); [|done]. split; [by apply mdel_sorted|].
    intros [k v] Hin%mdel_elem. by apply Hl.
  - unfold lm_load in E. injection E as <-. apply lm_inv_set; [done|]. split; [|split].
    + cbn. destruct (mget name m) as [l|] eqn:Hg; [|done]. destruct (Hget _ _ Hg) as (Hn & _). exact Hn.
    + intros s. apply (file_signals_nonempty text).
    + intros Hu. discriminate Hu.
  - split; [done|]. by intros kl ?%elem_of_nil.
Qed.

(** Signal lists are well formed. After any sequence of operations every
    list is stored under its own name, holds no empty signal name, and holds
    no signal twice unless its last origin is a loaded file; [validate]
    therefore accepts every existing list. *)
Theorem signal_lists_invariant (m : ListManager) :
  rtc lm_step [] m ->
  lm_inv m /\ forall name, lm_exists m name = true -> lm_validate m name = None.
Proof.
  intros Hr. assert (lm_inv m) as Hi.
  { assert (lm_inv []) as H0 by (split; [done|by intros kl ?%elem_of_nil]).
    revert H0. induction Hr as [|m0 m1 m2 Hst _ IH]; [done|]. intros H0. apply IH.
    by eapply lm_step_inv. }
  split; [done|]. intros name. unfold lm_exists, lm_validate.
  destruct (mget name m) as [l|] eqn:Hg; [|done]. intros _.
  destruct Hi as [_ Hl]. destruct (Hl _ (mget_elem _ _ _ Hg)) as (_ & He & _).
  destruct (existsb _ (sl_signals l)) eqn:E; [|done]. apply existsb_eqs in E. by destruct (He [] E).
Qed.

(** Edits of a list. On an existing list, [add] keeps the present signals
    in place and appends the new non-empty ones once each (so adding again
    changes nothing), and [remove] keeps exactly the others in order; every
    other list is untouched, and on a missing list both report it. *)
Theorem signal_list_edits (m : ListManager) (name : bytes) (signals : list bytes) :
  match mget name m with
  | Some l =>
      exists la lr ma mr,
        lm_add m name signals = inr ma /\ mget name ma = Some la /\
        lm_remove m name signals = inr mr /\ mget name mr = Some lr /\
        sl_signals l `prefix_of` sl_signals la /\
        (forall s, s ∈ sl_signals la <-> s ∈ sl_signals l \/ (s ∈ signals /\ s <> [])) /\
        (NoDup (sl_signals l) -> NoDup (sl_signals la)) /\
        lm_add ma name signals = inr (mset name la ma) /\
        sl_signals lr `sublist_of` sl_signals l /\
        (forall s, s ∈ sl_signals lr <-> s ∈ sl_signals l /\ s ∉ signals) /\
        (forall other, other <> name -> mget other ma = mget other m /\ mget other mr = mget other m)
  | None =>
      lm_add m name signals = inl (lit "list not found: " ++ name) /\
      lm_remove m name signals = inl (lit "list not found: " ++ name)
  end.
Proof.
  unfold lm_add, lm_remove. destruct (mget name m) as [l|] eqn:Hg; [|done].
  do 4 eexists. split; [done|]. split; [apply mget_mset_eq|]. split; [done|].
  split; [apply mget_mset_eq|]. cbn [sl_signals sl_name sl_created_from].
  split; [apply add_signals_prefix|]. split; [intros s; apply add_signals_elem|].
  split; [apply add_signals_nodup|]. split.
  { rewrite mget_mset_eq. cbn [sl_signals sl_name sl_created_from]. do 3 f_equal.
    apply add_known. intros s Hs. rewrite add_signals_elem.
    destruct s; [by left|]. right. right. done. }
  split; [apply keep_signals_sublist|]. split; [intros s; apply keep_signals_elem|].
  intros other Ho. by rewrite !mget_mset_ne.
Qed.

(** List files. A list of names without white space or [#], written one
    per line, is loaded back exactly, in order, whatever list was there. *)
Theorem signal_list_file_roundtrip (m : ListManager) (name path : bytes) (signals : list bytes) :
  forallb plain_signal signals = true ->
  exists m', lm_load m name path (Some (write_lines signals)) = inr m' /\
    sl_signals <$> lm_get m' name = Some signals /\
    sl_created_from <$> lm_get m' name = Some (lit "file:" ++ path).
Proof.
  intros Hs. eexists. split; [done|]. unfold lm_get. rewrite mget_mset_eq. cbn.
  by rewrite write_lines_load.
Qed.

(** [load] does not drop repeated names, unlike [add]: a file naming a
    signal twice yields a list that holds it twice. *)
Theorem load_keeps_duplicates :
  (fun m => sl_signals <$> lm_get m (lit "l")) <$>
    (match lm_load [] (lit "l") (lit "f") (Some (lit "top.a top.a")) with
     | inr m => Some m | inl _ => None end) = Some (Some [lit "top.a"; lit "top.a"]) /\
  foldl add_signal [] [lit "top.a"; lit "top.a"] = [lit "top.a"].
Proof. split; reflexivity. Qed.

Lemma signal_lists_invariant_witness :
  lm_validate (mset (lit "l") (MkSL (lit "l") [lit "top.a"] (lit "user")) []) (lit "l") = None.
Proof.
  apply signal_lists_invariant; [|reflexivity].
  eapply rtc_l; [by apply (lm_step_create [] (lit "l"))|].
  eapply rtc_l; [by apply (lm_step_add _ (lit "l") [lit "top.a"])|]. apply rtc_refl.
Defined.

Lemma signal_list_file_roundtrip_witness :
  exists m', lm_load [] (lit "l") (lit "f") (Some (write_lines [lit "top.a"; lit "top.b[3:0]"])) = inr m' /\
    sl_signals <$> lm_get m' (lit "l") = Some [lit "top.a"; lit "top.b[3:0]"].
Proof.
  destruct (signal_list_file_roundtrip [] (lit "l") (lit "f") [lit "top.a"; lit "top.b[3:0]"] eq_refl)
    as (m' & Hm & Hs & _).
  by exists m'.
Defined.
