(* ===== verification/BinaryDesignTheory.v ===== *)
(** * BinaryDesignTheory: safety and correctness of the design database reader

    [Ok c] says a computation neither leaves the file nor dereferences a null
    string. The theorems: opening is safe on every file; after a successful
    open every query is safe; name resolution finds exactly the recorded
    names; the traced groups are exactly the records of the signal. *)

From S2P Require Import Prelude CLib Json WellenBackend BinaryDesign.

Open Scope Z_scope.

(** ** Safe computations *)

Definition Ok {A} (c : res A) : Prop := exists a, c = Ret a.

Lemma Ok_Ret {A} (a : A) : Ok (Ret a).
Proof. by exists a. Qed.

Lemma Ok_bind {A B} (c : res A) (f : A -> res B) :
  Ok c -> (forall a, c = Ret a -> Ok (f a)) -> Ok (c ≫= f).
Proof. intros [a ->] Hf. by apply Hf. Qed.

Lemma Ok_and_then a b : Ok a -> (a = Ret true -> Ok b) -> Ok (and_then a b).
Proof.
  intros Ha Hb. unfold and_then. apply Ok_bind; [done|]. intros [|] E; [by apply Hb|apply Ok_Ret].
Qed.

Lemma and_then_true a b : and_then a b = Ret true -> a = Ret true /\ b = Ret true.
Proof. unfold and_then. destruct a as [[|]| |]; cbn; try done. Qed.

Lemma bind_Ret {A B} (c : res A) (f : A -> res B) b :
  c ≫= f = Ret b -> exists a, c = Ret a /\ f a = Ret b.
Proof. apply res_bind_Ret. Qed.

Lemma for_all_Ok n : forall i body, (forall j, i <= j < i + Z.of_nat n -> Ok (body j)) ->
  Ok (for_all n i body).
Proof.
  induction n as [|n IH]; intros i body Hb; cbn [for_all]; [apply Ok_Ret|].
  apply Ok_and_then; [apply Hb; lia|]. intros _. apply IH. intros j Hj. apply Hb. lia.
Qed.

Lemma for_all_true n : forall i body, for_all n i body = Ret true ->
  forall j, i <= j < i + Z.of_nat n -> body j = Ret true.
Proof.
  induction n as [|n IH]; intros i body Hf j Hj; [lia|]. cbn [for_all] in Hf.
  apply and_then_true in Hf as [H1 H2]. destruct (decide (j = i)) as [->|]; [done|].
  apply (IH (i + 1)); [done|lia].
Qed.

Lemma byte_at_Ok f off : 0 <= off < zlen f -> exists b, byte_at f off = Ret b /\ 0 <= b < 256.
Proof.
  intros Hr. unfold byte_at. rewrite (proj2 (Z.ltb_ge off 0)) by lia.
  destruct (lookup_lt_is_Some_2 f (Z.to_nat off)) as [c Hc]; [unfold zlen in Hr; lia|]. rewrite Hc.
  eexists; split; [done|]. unfold code. pose proof (N_ascii_bounded c). lia.
Qed.

Lemma rd_Ok f n : forall off, 0 <= off -> off + Z.of_nat n <= zlen f -> Ok (rd f off n).
Proof.
  induction n as [|n IH]; intros off H0 Hn; cbn [rd]; [apply Ok_Ret|].
  destruct (byte_at_Ok f off) as (b & -> & _); [lia|]. cbn [mbind res_bind].
  apply Ok_bind; [apply IH; lia|]. intros r _. apply Ok_Ret.
Qed.

Lemma byte_at_range f off b : byte_at f off = Ret b -> 0 <= b < 256.
Proof.
  unfold byte_at. case_if; [done|]. destruct (f !! _) as [c|]; [|done]. intros [= <-].
  unfold code. pose proof (N_ascii_bounded c). lia.
Qed.

Lemma rd_range f n : forall off v, rd f off n = Ret v -> 0 <= v < 256 ^ Z.of_nat n.
Proof.
  induction n as [|n IH]; intros off v; cbn [rd]; [by intros [= <-]|].
  intros (b & Hb & (r & Hr & [= <-])%bind_Ret)%bind_Ret.
  apply byte_at_range in Hb. apply IH in Hr.
  rewrite Nat2Z.inj_succ, Z.pow_succ_r by lia. lia.
Qed.

Lemma rd_bytes_Ok f n : forall off, 0 <= off -> off + Z.of_nat n <= zlen f -> Ok (rd_bytes f off n).
Proof.
  induction n as [|n IH]; intros off H0 Hn; cbn [rd_bytes]; [apply Ok_Ret|].
  destruct (byte_at_Ok f off) as (b & -> & _); [lia|]. cbn [mbind res_bind].
  apply Ok_bind; [apply IH; lia|]. intros r _. apply Ok_Ret.
Qed.

Lemma rd_sections_Ok f n : forall off, 0 <= off -> off + 16 * Z.of_nat n <= zlen f ->
  Ok (rd_sections f off n).
Proof.
  induction n as [|n IH]; intros off H0 Hn; cbn [rd_sections]; [apply Ok_Ret|]. unfold rd_u64.
  apply Ok_bind; [apply rd_Ok; lia|]. intros o _. apply Ok_bind; [apply rd_Ok; lia|]. intros c _.
  apply Ok_bind; [apply IH; lia|]. intros r _. apply Ok_Ret.
Qed.

Ltac ok_step :=
  match goal with
  | |- Ok (Ret _) => apply Ok_Ret
  | |- Ok (and_then _ _) => apply Ok_and_then; [|intros ?]
  | |- Ok (mbind _ _) => apply Ok_bind; [|intros ? ?]
  | |- Ok (if ?b then _ else _) => destruct b eqn:?
  | |- Ok (rd_u32 _ _) => apply rd_Ok
  | |- Ok (rd_u64 _ _) => apply rd_Ok
  | |- Ok (rd _ _ _) => apply rd_Ok
  end.

Lemma rd_header_Ok f : header_bytes <= zlen f -> Ok (rd_header f).
Proof.
  unfold header_bytes. intros Hf. unfold rd_header.
  repeat first [apply rd_bytes_Ok | apply rd_sections_Ok | ok_step]; try lia.
Qed.

(** ** Sections of a decoded header *)

Definition u64_ok (z : Z) : Prop := 0 <= z < 2 ^ 64.
Definition secs_ok (h : Header) : Prop :=
  forall i, u64_ok (s_offset (sec h i)) /\ u64_ok (s_count (sec h i)).

Lemma rd_sections_range f n : forall off l, rd_sections f off n = Ret l ->
  Forall (fun s => u64_ok (s_offset s) /\ u64_ok (s_count s)) l.
Proof.
  induction n as [|n IH]; intros off l; cbn [rd_sections]; [by intros [= <-]|].
  intros (o & Ho & (c & Hc & (r & Hr & [= <-])%bind_Ret)%bind_Ret)%bind_Ret.
  apply rd_range in Ho, Hc. constructor; [done|]. by eapply IH.
Qed.

Lemma rd_header_secs f h : rd_header f = Ret h -> secs_ok h.
Proof.
  unfold rd_header. intros (mg & _ & (mj & _ & (mn & _ & (et & _ & (hs & _ & (fs & _ &
    (ss & Hs & [= <-])%bind_Ret)%bind_Ret)%bind_Ret)%bind_Ret)%bind_Ret)%bind_Ret)%bind_Ret.
  apply rd_sections_range in Hs. intros i. unfold sec. cbn [sections].
  destruct (ss !! section_no i) as [s|] eqn:E; [|by split].
  by apply (Forall_lookup_1 _ _ _ _ Hs E).
Qed.

(** The records of section [i] lie inside the file. *)
Definition fits (f : bytes) (h : Header) (i : SectionIndex) : Prop :=
  header_bytes <= s_offset (sec h i) /\ 0 <= s_count (sec h i) /\
  s_offset (sec h i) + s_count (sec h i) * width_of i <= zlen f.

Lemma width_pos i : 1 <= width_of i.
Proof. destruct i; cbn; lia. Qed.

Lemma valid_section_fits f h i : secs_ok h -> valid_section h i (zlen f) = true -> fits f h i.
Proof.
  intros Hs Hv. destruct (Hs i) as [Ho Hc]. unfold valid_section in Hv.
  case_if_in Hv; [done|]. apply orb_false_iff in Heqb as [H1 H2].
  destruct (Z.ltb_spec (u64_max / width_of i) (s_count (sec h i))) as [|Hle]; [done|].
  pose proof (width_pos i) as Hw. unfold fits.
  assert (s_count (sec h i) * width_of i <= u64_max) as Hm.
  { apply Z.le_trans with (u64_max / width_of i * width_of i); [nia|].
    pose proof (Z.mul_div_le u64_max (width_of i)). lia. }
  unfold u64_ok in *. rewrite u64_small in Hv by (unfold u64_max in Hm; nia). lia.
Qed.

Lemma record_load f h i k off n : fits f h i -> 0 <= k < s_count (sec h i) ->
  0 <= off -> off + Z.of_nat n <= width_of i -> Ok (rd f (record_at h i k + off) n).
Proof.
  intros (H1 & H2 & H3) Hk Ho Hn. unfold record_at, header_bytes in *.
  assert ((k + 1) * width_of i <= s_count (sec h i) * width_of i) by (pose proof (width_pos i); nia).
  assert (0 <= k * width_of i) by (pose proof (width_pos i); nia).
  apply rd_Ok; lia.
Qed.

Lemma record_load0 f h i k n : fits f h i -> 0 <= k < s_count (sec h i) ->
  Z.of_nat n <= width_of i -> Ok (rd f (record_at h i k) n).
Proof.
  intros Hf Hk Hn. rewrite <- (Z.add_0_r (record_at h i k)). by apply record_load.
Qed.

Ltac load_ok :=
  repeat match goal with
  | |- Ok (Ret _) => apply Ok_Ret
  | |- Ok (mbind _ _) => apply Ok_bind; [|intros ? ?]
  | |- Ok (rd_u32 _ _) => unfold rd_u32
  | |- Ok (rd_u64 _ _) => unfold rd_u64
  | |- Ok (rd_i32 _ _) => unfold rd_i32
  | |- Ok (rd _ (record_at _ _ _ + _) _) => apply record_load; [done|done|cbn; lia|cbn; lia]
  | |- Ok (rd _ (record_at _ _ _) _) => apply record_load0; [done|done|cbn; lia]
  end.

Lemma signal_record_Ok f h k : fits f h Signals -> 0 <= k < s_count (sec h Signals) ->
  Ok (signal_record f h k).
Proof. intros. unfold signal_record. load_ok. Qed.
Lemma name_record_Ok f h k : fits f h NameIndex -> 0 <= k < s_count (sec h NameIndex) ->
  Ok (name_record f h k).
Proof. intros. unfold name_record. load_ok. Qed.
Lemma driver_record_Ok f h k : fits f h Drivers -> 0 <= k < s_count (sec h Drivers) ->
  Ok (driver_record f h k).
Proof. intros. unfold driver_record. load_ok. Qed.
Lemma load_record_Ok f h k : fits f h Loads -> 0 <= k < s_count (sec h Loads) ->
  Ok (load_record f h k).
Proof. intros. unfold load_record. load_ok. Qed.
Lemma port_record_Ok f h k : fits f h Ports -> 0 <= k < s_count (sec h Ports) ->
  Ok (port_record f h k).
Proof. intros. unfold port_record. load_ok. Qed.

Lemma start_at_Ok f h i k : fits f h i -> width_of i = 8 -> 0 <= k < s_count (sec h i) ->
  Ok (start_at f h i k).
Proof. intros Hf Hw Hk. apply record_load0; [done|done|]. rewrite Hw. cbn. lia. Qed.

Lemma c_string_Ok f n : forall off, 0 <= off -> off + Z.of_nat n <= zlen f -> Ok (c_string f off n).
Proof.
  induction n as [|n IH]; intros off H0 Hn; cbn [c_string]; [apply Ok_Ret|].
  destruct (byte_at_Ok f off) as (b & -> & _); [lia|]. cbn [mbind res_bind].
  case_if; [apply Ok_Ret|]. apply Ok_bind; [apply IH; lia|]. intros r _. apply Ok_Ret.
Qed.

Lemma string_at_Ok f h off : fits f h Strings -> 0 <= off -> Ok (string_at f h off).
Proof.
  intros (H1 & H2 & H3) Ho. unfold string_at, header_bytes in *. cbn [width_of] in H3.
  case_if; [apply Ok_Ret|]. apply c_string_Ok; lia.
Qed.

Lemma has_string_Ok f h off : fits f h Strings -> 0 <= off -> Ok (has_string f h off).
Proof. intros. apply Ok_bind; [by apply string_at_Ok|]. intros. apply Ok_Ret. Qed.

Lemma has_string_true f h off : has_string f h off = Ret true ->
  exists s, string_at f h off = Ret (Some s).
Proof. intros ([s|] & Hs & E)%bind_Ret; [by exists s|done]. Qed.

(** String offsets come from unsigned loads. *)
Lemma rd_u32_nonneg f off v : rd_u32 f off = Ret v -> 0 <= v.
Proof. intros Hv%rd_range. lia. Qed.

Ltac inv_binds H :=
  repeat (let x := fresh "x" in let Hx := fresh "Hx" in
          apply bind_Ret in H as (x & Hx & H)); injection H as H; subst.

Lemma signal_record_strings f h k r : signal_record f h k = Ret r ->
  0 <= sr_name r /\ 0 <= sr_type r /\ 0 <= sr_file r.
Proof. unfold signal_record. intros H. inv_binds H. cbn. repeat split; by eapply rd_u32_nonneg. Qed.
Lemma name_record_strings f h k r : name_record f h k = Ret r -> 0 <= nr_name r.
Proof. unfold name_record. intros H. inv_binds H. cbn. by eapply rd_u32_nonneg. Qed.
Lemma driver_record_strings f h k r : driver_record f h k = Ret r ->
  0 <= d_kind r /\ 0 <= d_role r /\ 0 <= d_predicate r /\ 0 <= d_file r.
Proof. unfold driver_record. intros H. inv_binds H. cbn. repeat split; by eapply rd_u32_nonneg. Qed.
Lemma load_record_strings f h k r : load_record f h k = Ret r -> 0 <= l_kind r /\ 0 <= l_file r.
Proof. unfold load_record. intros H. inv_binds H. cbn. repeat split; by eapply rd_u32_nonneg. Qed.
Lemma port_record_strings f h k r : port_record f h k = Ret r -> 0 <= p_kind r.
Proof. unfold port_record. intros H. inv_binds H. cbn. by eapply rd_u32_nonneg. Qed.

(** ** Validation is safe *)

(** What the section checks of [validate] establish. *)
Record shaped (f : bytes) (h : Header) : Prop := {
  sh_fits : forall i, fits f h i;
  sh_signals : 0 <= s_count (sec h Signals) <= int_max;
  sh_small : s_count (sec h Drivers) <= int_max /\ s_count (sec h Loads) <= int_max /\
             s_count (sec h Ports) <= int_max;
  sh_names : s_count (sec h NameIndex) = s_count (sec h Signals);
  sh_starts : forall i, i = DriverStarts \/ i = LoadStarts \/ i = PortStarts ->
    s_count (sec h i) = s_count (sec h Signals) + 1;
}.

Lemma shaped_intro f h : secs_ok h ->
  forallb (fun i => valid_section h i (zlen f)) all_sections && counts_ok h = true -> shaped f h.
Proof.
  intros Hs Hv. apply andb_true_iff in Hv as [Hv Hc].
  assert (forall i, fits f h i) as Hfit.
  { intros i. apply valid_section_fits; [done|]. rewrite List.forallb_forall in Hv. apply Hv.
    destruct i; cbn; tauto. }
  unfold counts_ok in Hc. cbv zeta in Hc. bsplit.
  assert (0 <= s_count (sec h Signals)) by apply (Hs Signals). unfold int_max in *.
  rewrite u64_small in * by lia.
  constructor; [done|unfold int_max; lia|unfold int_max; lia|lia|].
  intros i [->|[->| ->]]; lia.
Qed.

Section Safe.
Context (f : bytes) (h : Header) (Hsh : shaped f h).
Let signals := s_count (sec h Signals).

Lemma string_safe off : 0 <= off -> Ok (string_at f h off).
Proof. apply string_at_Ok. apply Hsh. Qed.
Lemma has_string_safe off : 0 <= off -> Ok (has_string f h off).
Proof. apply has_string_Ok. apply Hsh. Qed.

Lemma signal_ok_safe i : 0 <= i < signals -> Ok (signal_ok f h i).
Proof.
  intros Hi. apply Ok_bind; [apply signal_record_Ok; [apply Hsh|done]|].
  intros r (? & ? & ?)%signal_record_strings.
  repeat (apply Ok_and_then; [by apply has_string_safe|intros _]). apply Ok_Ret.
Qed.

Lemma name_safe i : 0 <= i < signals -> Ok (name_record f h i).
Proof. intros Hi. apply name_record_Ok; [apply Hsh|]. by rewrite (sh_names f h Hsh). Qed.

Lemma names_ok_safe n : forall i prior indexed, 0 <= i -> i + Z.of_nat n <= signals ->
  Ok (names_ok n i f h signals prior indexed).
Proof.
  induction n as [|n IH]; intros i prior indexed Hi Hn; cbn [names_ok]; [apply Ok_Ret|].
  apply Ok_bind; [apply name_safe; lia|]. intros r Hr%name_record_strings.
  apply Ok_bind; [by apply string_safe|]. intros [name|] _; [|apply Ok_Ret].
  case_if; [apply Ok_Ret|]. apply IH; lia.
Qed.

Definition is_starts (s : SectionIndex) : Prop := s = DriverStarts \/ s = LoadStarts \/ s = PortStarts.

Lemma start_safe s i : is_starts s -> 0 <= i <= signals -> Ok (start_at f h s i).
Proof.
  intros Hs Hi. apply start_at_Ok; [apply Hsh|by destruct Hs as [->|[->| ->]]|].
  rewrite (sh_starts f h Hsh s Hs). fold signals. lia.
Qed.

Lemma starts_ok_safe s records : is_starts s -> Ok (starts_ok f h s signals records).
Proof.
  intros Hs. pose proof (sh_signals f h Hsh) as Hn. fold signals in Hn.
  apply Ok_bind; [apply start_safe; [done|lia]|]. intros a _. case_if; [apply Ok_Ret|].
  apply Ok_bind; [apply start_safe; [done|lia]|]. intros z _. case_if; [apply Ok_Ret|].
  apply for_all_Ok. intros j Hj.
  apply Ok_bind; [apply start_safe; [done|lia]|]. intros x _.
  apply Ok_bind; [apply start_safe; [done|lia]|]. intros p _. apply Ok_Ret.
Qed.

Lemma advance_safe s i fuel : is_starts s -> forall owner, 0 <= owner ->
  signals <= owner + Z.of_nat fuel -> Ok (advance fuel f h s signals i owner).
Proof.
  intros Hs. induction fuel as [|fuel IH]; intros owner Ho Hf; cbn [advance];
    (destruct (Z.leb_spec signals owner); [apply Ok_Ret|]); [lia|].
  apply Ok_bind; [apply start_safe; [done|lia]|]. intros x _. case_if; [|apply Ok_Ret].
  apply IH; lia.
Qed.

Lemma advance_ge s i fuel : forall owner o, advance fuel f h s signals i owner = Ret o -> owner <= o.
Proof.
  induction fuel as [|fuel IH]; intros owner o; cbn [advance]; (case_if; [by intros [= <-]|]);
    intros (x & _ & Hx)%bind_Ret; case_if_in Hx; try done; try (by injection Hx as <-).
  apply IH in Hx. lia.
Qed.

Lemma groups_ok_safe s check n : is_starts s -> forall i owner, 0 <= owner ->
  (forall o j, i <= j < i + Z.of_nat n -> Ok (check o j)) ->
  Ok (groups_ok n i owner f h s signals check).
Proof.
  intros Hs. induction n as [|n IH]; intros i owner Ho Hc; cbn [groups_ok]; [apply Ok_Ret|].
  pose proof (sh_signals f h Hsh) as Hn. fold signals in Hn.
  apply Ok_bind; [apply advance_safe; [done|done|lia]|]. intros o E%advance_ge.
  apply Ok_and_then; [apply Hc; lia|]. intros _. apply IH; [lia|]. intros o' j Hj. apply Hc. lia.
Qed.

Lemma driver_ok_safe o j : 0 <= j < s_count (sec h Drivers) -> Ok (driver_ok f h signals o j).
Proof.
  intros Hj. apply Ok_bind; [apply driver_record_Ok; [apply Hsh|done]|].
  intros r (? & ? & ? & ?)%driver_record_strings. case_if; [apply Ok_Ret|].
  repeat (apply Ok_and_then; [by apply has_string_safe|intros _]). by apply has_string_safe.
Qed.
Lemma load_ok_safe o j : 0 <= j < s_count (sec h Loads) -> Ok (load_ok f h signals o j).
Proof.
  intros Hj. apply Ok_bind; [apply load_record_Ok; [apply Hsh|done]|].
  intros r (? & ?)%load_record_strings. case_if; [apply Ok_Ret|].
  apply Ok_and_then; [by apply has_string_safe|intros _]. by apply has_string_safe.
Qed.
Lemma port_ok_safe o j : 0 <= j < s_count (sec h Ports) -> Ok (port_ok f h signals o j).
Proof.
  intros Hj. apply Ok_bind; [apply port_record_Ok; [apply Hsh|done]|].
  intros r ?%port_record_strings. case_if; [apply Ok_Ret|]. by apply has_string_safe.
Qed.
End Safe.

Lemma validate_safe f h : secs_ok h -> Ok (validate f h).
Proof.
  intros Hs. unfold validate. cbv zeta. case_if; [apply Ok_Ret|].
  destruct (forallb _ all_sections && counts_ok h) eqn:Hv; cbn [negb]; [|apply Ok_Ret].
  pose proof (shaped_intro f h Hs Hv) as Hsh. case_if; [apply Ok_Ret|].
  pose proof (sh_signals f h Hsh) as Hn.
  assert (forall i, 0 <= s_count (sec h i)) as Hc by (intros i; apply (Hs i)).
  apply Ok_and_then; [apply for_all_Ok; intros j Hj; apply (signal_ok_safe f h Hsh); lia|intros _].
  apply Ok_and_then; [apply (names_ok_safe f h Hsh); lia|intros _].
  do 3 (apply Ok_and_then; [apply (starts_ok_safe f h Hsh); unfold is_starts; auto|intros _]).
  pose proof (Hc Drivers). pose proof (Hc Loads). pose proof (Hc Ports).
  apply Ok_and_then; [apply (groups_ok_safe f h Hsh); [unfold is_starts; auto|lia|]|intros _].
  { intros o j Hj. apply (driver_ok_safe f h Hsh). lia. }
  apply Ok_and_then; [apply (groups_ok_safe f h Hsh); [unfold is_starts; auto|lia|]|intros _].
  { intros o j Hj. apply (load_ok_safe f h Hsh). lia. }
  apply (groups_ok_safe f h Hsh); [unfold is_starts; auto|lia|].
  intros o j Hj. apply (port_ok_safe f h Hsh). lia.
Qed.

(** ** What validation establishes *)

(** Entry [i] of the name index: its name and its signal. *)
Definition entry (f : bytes) (h : Header) (i : Z) (name : bytes) (signal : Z) : Prop :=
  exists r, name_record f h i = Ret r /\ string_at f h (nr_name r) = Ret (Some name) /\
    nr_signal r = signal.

Lemma entry_fun f h i n1 s1 n2 s2 : entry f h i n1 s1 -> entry f h i n2 s2 -> n1 = n2 /\ s1 = s2.
Proof. intros (r & Hr & Hn & <-) (r' & Hr' & Hn' & <-). rewrite Hr in Hr'. simplify_eq. rewrite Hn in Hn'. by simplify_eq. Qed.

Lemma names_ok_true f h signals n : forall i prior indexed,
  names_ok n i f h signals prior indexed = Ret true ->
  forall j, i <= j < i + Z.of_nat n -> exists name s, entry f h j name s /\ 0 <= s < signals /\
    s ∉ indexed /\ (forall p, prior = Some p -> str_compare p name = Lt) /\
    forall k name' s', i <= k < j -> entry f h k name' s' -> str_compare name' name = Lt /\ s' <> s.
Proof.
  induction n as [|n IH]; intros i prior indexed Hn j Hj; [lia|]. cbn [names_ok] in Hn.
  apply bind_Ret in Hn as (r & Hr & Hn). apply bind_Ret in Hn as ([name|] & Hname & Hn); [|done].
  case_if_in Hn; [done|].
  apply orb_false_iff in Heqb as [Heqb Hprior]. apply orb_false_iff in Heqb as [Heqb Hidx].
  apply orb_false_iff in Heqb as [Hlo Hhi]. apply bool_decide_eq_false in Hidx.
  assert (entry f h i name (nr_signal r)) as Hent by (exists r; done).
  assert (forall p, prior = Some p -> str_compare p name = Lt) as Hp.
  { intros p ->. apply negb_false_iff, str_ltb_lt in Hprior. done. }
  destruct (decide (j = i)) as [->|Hne].
  { exists name, (nr_signal r). split; [done|]. split; [lia|]. split; [done|]. split; [done|]. lia. }
  destruct (IH (i + 1) (Some name) _ Hn j) as (nm & s & He & Hs & Hni & Hlt & Hk); [lia|].
  exists nm, s. apply not_elem_of_union in Hni as [Hni1 Hni2]. apply not_elem_of_singleton in Hni1.
  split; [done|]. split; [done|]. split; [done|]. specialize (Hlt name eq_refl). split.
  - intros p Hpp. eapply str_compare_lt_trans; [by apply Hp|done].
  - intros k name' s' Hkr Hk'. destruct (decide (k = i)) as [->|]; [|apply (Hk k); [lia|done]].
    destruct (entry_fun _ _ _ _ _ _ _ Hk' Hent) as [-> ->]. split; [done|]. congruence.
Qed.

(** The value of a start entry. *)
Definition st (f : bytes) (h : Header) (s : SectionIndex) (k : Z) : Z :=
  match start_at f h s k with Ret v => v | _ => 0 end.

Record valid_db (f : bytes) (h : Header) : Prop := {
  vd_shaped : shaped f h;
  vd_signals : forall i, 0 <= i < s_count (sec h Signals) -> signal_ok f h i = Ret true;
  vd_names : names_ok (Z.to_nat (s_count (sec h Signals))) 0 f h (s_count (sec h Signals)) None ∅ = Ret true;
  vd_driver_starts : starts_ok f h DriverStarts (s_count (sec h Signals)) (s_count (sec h Drivers)) = Ret true;
  vd_load_starts : starts_ok f h LoadStarts (s_count (sec h Signals)) (s_count (sec h Loads)) = Ret true;
  vd_port_starts : starts_ok f h PortStarts (s_count (sec h Signals)) (s_count (sec h Ports)) = Ret true;
  vd_drivers : groups_ok (Z.to_nat (s_count (sec h Drivers))) 0 0 f h DriverStarts
    (s_count (sec h Signals)) (driver_ok f h (s_count (sec h Signals))) = Ret true;
  vd_loads : groups_ok (Z.to_nat (s_count (sec h Loads))) 0 0 f h LoadStarts
    (s_count (sec h Signals)) (load_ok f h (s_count (sec h Signals))) = Ret true;
  vd_ports : groups_ok (Z.to_nat (s_count (sec h Ports))) 0 0 f h PortStarts
    (s_count (sec h Signals)) (port_ok f h (s_count (sec h Signals))) = Ret true;
}.

Lemma validate_valid f h : secs_ok h -> validate f h = Ret true -> valid_db f h.
Proof.
  intros Hs. unfold validate. cbv zeta. case_if; [done|].
  destruct (forallb _ all_sections && counts_ok h) eqn:Hv; cbn [negb]; [|done].
  pose proof (shaped_intro f h Hs Hv) as Hsh. case_if; [done|]. intros Hall.
  do 7 (apply and_then_true in Hall as [? Hall]). constructor; try done.
  pose proof (sh_signals f h Hsh). intros i Hi. eapply for_all_true; [done|lia].
Qed.

(** A group section [s] over [records] records, whose validated starts
    partition them by owner. *)
Section Groups.
Context (f : bytes) (h : Header) (Hv : valid_db f h).
Context (s : SectionIndex) (records : Z) (Hs : is_starts s) (Hrec : 0 <= records).
Context (Hst : starts_ok f h s (s_count (sec h Signals)) records = Ret true).
Let signals := s_count (sec h Signals).

Lemma signals_nonneg : 0 <= signals.
Proof. apply (sh_signals f h (vd_shaped f h Hv)). Qed.

Lemma start_st k : 0 <= k <= signals -> start_at f h s k = Ret (st f h s k).
Proof.
  intros Hk. destruct (start_safe f h (vd_shaped f h Hv) s k Hs Hk) as [v E].
  unfold st. by rewrite E.
Qed.

Lemma starts_facts : st f h s 0 = 0 /\ st f h s signals = records /\
  forall k, 0 <= k < signals -> st f h s k <= st f h s (k + 1) <= records.
Proof.
  pose proof signals_nonneg. unfold starts_ok in Hst.
  rewrite (start_st 0) in Hst by lia. cbn [mbind res_bind] in Hst.
  destruct (Z.eqb_spec (st f h s 0) 0) as [E0|]; [cbn [negb] in Hst|done].
  fold signals in Hst. rewrite (start_st signals) in Hst by lia. cbn [mbind res_bind] in Hst.
  destruct (Z.eqb_spec (st f h s signals) records) as [E1|]; [cbn [negb] in Hst|done].
  split; [done|]. split; [done|]. intros k Hk.
  pose proof (for_all_true _ _ _ Hst (k + 1)) as Hb. specialize (Hb ltac:(lia)). cbn beta in Hb.
  rewrite (start_st (k + 1)) in Hb by lia. replace (k + 1 - 1) with k in Hb by lia.
  rewrite (start_st k) in Hb by lia. cbn [mbind res_bind] in Hb. injection Hb as Hb.
  apply negb_true_iff, orb_false_iff in Hb as [? ?]. lia.
Qed.

Lemma starts_mono a b : 0 <= a <= b -> b <= signals -> st f h s a <= st f h s b.
Proof.
  intros Ha Hb. destruct starts_facts as (_ & _ & Hk).
  assert (forall n, a + Z.of_nat n <= signals -> st f h s a <= st f h s (a + Z.of_nat n)) as Hn.
  { induction n as [|n IH]; intros Hle; [rewrite Z.add_0_r; lia|].
    specialize (Hk (a + Z.of_nat n) ltac:(lia)). rewrite Nat2Z.inj_succ, <- Z.add_1_r, Z.add_assoc.
    specialize (IH ltac:(lia)). lia. }
  replace b with (a + Z.of_nat (Z.to_nat (b - a))) by lia. apply Hn. lia.
Qed.

Lemma advance_spec i fuel : forall owner o, 0 <= owner <= signals -> st f h s owner <= i ->
  advance fuel f h s signals i owner = Ret o ->
  0 <= o <= signals /\ st f h s o <= i /\ (o < signals -> i < st f h s (o + 1)).
Proof.
  induction fuel as [|fuel IH]; intros owner o Ho Hi; cbn [advance];
    (destruct (Z.leb_spec signals owner); [intros [= <-]; split; [lia|]; split; [done|lia]|]);
    rewrite (start_st (owner + 1)) by lia; cbn [mbind res_bind];
    (destruct (Z.leb_spec (st f h s (owner + 1)) i);
      [|intros [= <-]; split; [lia|]; split; [done|lia]]).
  - done.
  - apply IH; lia.
Qed.

Lemma groups_true check n : forall i owner, 0 <= i -> 0 <= owner <= signals -> st f h s owner <= i ->
  groups_ok n i owner f h s signals check = Ret true ->
  forall j, i <= j < i + Z.of_nat n -> exists o, check o j = Ret true /\ 0 <= o <= signals /\
    st f h s o <= j /\ (o < signals -> j < st f h s (o + 1)).
Proof.
  induction n as [|n IH]; intros i owner Hi Ho Hle Hg j Hj; [lia|]. cbn [groups_ok] in Hg.
  apply bind_Ret in Hg as (o & Hadv & Hg). apply and_then_true in Hg as [Hc Hg].
  destruct (advance_spec i _ owner o Ho Hle Hadv) as (Ho' & H1 & H2).
  destruct (decide (j = i)) as [->|]; [by exists o|].
  apply (IH (i + 1) o); try done; lia.
Qed.

(** The records between two consecutive starts are those of the owner. *)
Lemma group_owner check target :
  groups_ok (Z.to_nat records) 0 0 f h s signals check = Ret true ->
  (forall o j, check o j = Ret true -> target j = o /\ o < signals) ->
  forall j k, 0 <= j < records -> 0 <= k < signals ->
    (target j = k <-> st f h s k <= j < st f h s (k + 1)).
Proof.
  intros Hg Ht j k Hj Hk. destruct starts_facts as (H0 & _ & _). pose proof signals_nonneg.
  destruct (groups_true check _ 0 0 ltac:(lia) ltac:(lia) ltac:(lia) Hg j ltac:(lia))
    as (o & Hc & Ho & H1 & H2).
  destruct (Ht o j Hc) as [E Hlt]. specialize (H2 Hlt). split; [intros <-; subst; lia|].
  intros [Ha Hb]. rewrite E. destruct (Z.lt_trichotomy o k) as [C|[C|C]]; [|done|].
  - pose proof (starts_mono (o + 1) k ltac:(lia) ltac:(lia)). lia.
  - pose proof (starts_mono (k + 1) o ltac:(lia) ltac:(lia)). lia.
Qed.
End Groups.

(** ** Name resolution *)

Section Resolve.
Context (f : bytes) (h : Header) (Hv : valid_db f h).
Let signals := s_count (sec h Signals).

Lemma entry_at j : 0 <= j < signals -> exists name s, entry f h j name s /\ 0 <= s < signals /\
  forall k name' s', 0 <= k < j -> entry f h k name' s' -> str_compare name' name = Lt /\ s' <> s.
Proof.
  intros Hj. destruct (names_ok_true _ _ _ _ _ _ _ (vd_names f h Hv) j) as (n & s & He & Hs & _ & _ & Hk);
    [fold signals; lia|]. by exists n, s.
Qed.

Lemma entry_order j k n1 s1 n2 s2 : 0 <= j -> j < k < signals ->
  entry f h j n1 s1 -> entry f h k n2 s2 -> str_compare n1 n2 = Lt.
Proof.
  intros Hj Hk H1 H2. destruct (entry_at k ltac:(lia)) as (n & s & He & _ & Hlt).
  destruct (entry_fun _ _ _ _ _ _ _ He H2) as [-> ->]. apply (Hlt j n1 s1); [lia|done].
Qed.

Lemma exact_loop_spec query fuel : forall low high, 0 <= low -> high <= signals ->
  high - low <= Z.of_nat fuel ->
  exists r, exact_loop fuel f h query low high = Ret r /\
    ((exists i, low <= i < high /\ entry f h i query r) \/
     (r = -1 /\ forall i s, low <= i < high -> ~ entry f h i query s)).
Proof.
  induction fuel as [|fuel IH]; intros low high Hl Hh Hf; cbn [exact_loop];
    (destruct (Z.leb_spec high low); [exists (-1); split; [done|]; right; split; [done|lia]|]); [lia|].
  cbv zeta. set (mid := low + (high - low) / 2).
  assert (low <= mid < high) as Hmid.
  { unfold mid. pose proof (Z.div_pos (high - low) 2). pose proof (Z.div_lt (high - low) 2). lia. }
  destruct (entry_at mid ltac:(lia)) as (name & s & (r & Hr & Hn & Hsig) & Hs & _).
  rewrite Hr. cbn [mbind res_bind]. rewrite Hn. cbn [mbind res_bind].
  assert (entry f h mid name s) as Hent by (exists r; done).
  destruct (str_compare query name) eqn:E.
  - apply str_compare_eq in E as ->. exists (nr_signal r). split; [done|]. left.
    exists mid. split; [done|]. by rewrite Hsig.
  - destruct (IH low mid) as (v & -> & Hcase); [lia|lia|lia|]. exists v. split; [done|].
    destruct Hcase as [(i & Hi & He)|[-> Hno]]; [left; exists i; split; [lia|done]|].
    right. split; [done|]. intros i s' Hi He. destruct (decide (i < mid)); [apply (Hno i s'); [lia|done]|].
    destruct (decide (i = mid)) as [->|].
    + destruct (entry_fun _ _ _ _ _ _ _ He Hent) as [-> _]. by rewrite str_compare_refl in E.
    + pose proof (entry_order mid i _ _ _ _ ltac:(lia) ltac:(lia) Hent He) as Hlt.
      rewrite str_compare_antisym, E in Hlt. done.
  - destruct (IH (mid + 1) high) as (v & -> & Hcase); [lia|lia|lia|]. exists v. split; [done|].
    destruct Hcase as [(i & Hi & He)|[-> Hno]]; [left; exists i; split; [lia|done]|].
    right. split; [done|]. intros i s' Hi He. destruct (decide (mid < i)); [apply (Hno i s'); [lia|done]|].
    destruct (decide (i = mid)) as [->|].
    + destruct (entry_fun _ _ _ _ _ _ _ He Hent) as [-> _]. by rewrite str_compare_refl in E.
    + pose proof (entry_order i mid _ _ _ _ ltac:(lia) ltac:(lia) He Hent) as Hlt. congruence.
Qed.

(** The index records [name] for signal [s]. *)
Definition indexed_as (name : bytes) (s : Z) : Prop :=
  exists i, 0 <= i < signals /\ entry f h i name s.

Lemma indexed_range name s : indexed_as name s -> 0 <= s < signals.
Proof.
  intros (i & Hi & He). destruct (entry_at i Hi) as (n & s' & He' & Hs & _).
  by destruct (entry_fun _ _ _ _ _ _ _ He He') as [-> ->].
Qed.

Lemma exact_spec query : exists r, exact_index f h query = Ret r /\
  (indexed_as query r \/ r = -1 /\ forall s, ~ indexed_as query s).
Proof.
  pose proof (sh_signals f h (vd_shaped f h Hv)) as Hn.
  unfold exact_index. cbv zeta. rewrite (sh_names f h (vd_shaped f h Hv)).
  destruct (exact_loop_spec query (Z.to_nat (s_count (sec h Signals))) 0 (s_count (sec h Signals)))
    as (r & -> & Hcase); [lia|unfold signals; lia|lia|].
  exists r. split; [done|]. destruct Hcase as [?|[-> Hno]]; [by left|]. right. split; [done|].
  intros s (i & Hi & He). by apply (Hno i s).
Qed.

(** The first candidate spelling that is recorded decides. *)
Lemma first_exact_spec queries : exists r, first_exact f h queries = Ret r /\
  ((exists pre q post, queries = pre ++ q :: post /\ indexed_as q r /\
      forall p s, p ∈ pre -> ~ indexed_as p s) \/
   r = -1 /\ forall q s, q ∈ queries -> ~ indexed_as q s).
Proof.
  induction queries as [|q qs IH]; cbn [first_exact].
  { exists (-1). split; [done|]. right. split; [done|]. by intros q s ?%elem_of_nil. }
  destruct (exact_spec q) as (r & -> & [Hin|[-> Hno]]); cbn [mbind res_bind].
  - pose proof (indexed_range q r Hin). rewrite (proj2 (Z.leb_le 0 r)) by lia.
    exists r. split; [done|]. left. exists [], q, qs. split; [done|]. split; [done|].
    by intros p s ?%elem_of_nil.
  - cbn [Z.leb]. change (0 <=? -1) with false. destruct IH as (r & -> & Hcase).
    exists r. split; [done|]. destruct Hcase as [(pre & q' & post & -> & Hin & Hpre)|[-> Hall]].
    + left. exists (q :: pre), q', post. split; [done|]. split; [done|].
      intros p s [->|Hp]%elem_of_cons; [apply Hno|by apply Hpre].
    + right. split; [done|]. intros q' s [->|Hp]%elem_of_cons; [apply Hno|by apply Hall].
Qed.
End Resolve.

(** ** Traced groups *)

Fixpoint collect_list {A} (l : list Z) (get : Z -> res A) : res (list A) :=
  match l with
  | [] => Ret []
  | i :: l' => a ← get i; r ← collect_list l' get; Ret (a :: r)
  end.

Definition range (x y : Z) : list Z := map (fun k => x + Z.of_nat k) (List.seq 0 (Z.to_nat (y - x))).

Lemma range_cons x y : x < y -> range x y = x :: range (x + 1) y.
Proof.
  intros Hxy. unfold range. replace (Z.to_nat (y - x)) with (S (Z.to_nat (y - (x + 1)))) by lia.
  cbn [List.seq map]. rewrite Z.add_0_r. f_equal. rewrite <- List.seq_shift, List.map_map.
  apply List.map_ext. intros k. lia.
Qed.

Lemma range_empty x y : y <= x -> range x y = [].
Proof. intros Hxy. unfold range. by replace (Z.to_nat (y - x)) with 0%nat by lia. Qed.

Lemma collect_range {A} (get : Z -> res A) n : forall x,
  collect n x get = collect_list (range x (x + Z.of_nat n)) get.
Proof.
  induction n as [|n IH]; intros x; cbn [collect].
  - by rewrite range_empty by lia.
  - rewrite range_cons by lia. cbn [collect_list]. rewrite IH.
    by replace (x + 1 + Z.of_nat n) with (x + Z.of_nat (S n)) by lia.
Qed.

Lemma elem_of_range x y i : i ∈ range x y -> x <= i < y.
Proof.
  intros Hi. apply list_elem_of_In, List.in_map_iff in Hi as (k & <- & Hk%List.in_seq). lia.
Qed.

Lemma filter_range (p : Z -> bool) lo hi x y : lo <= x <= y -> y <= hi ->
  (forall j, lo <= j < hi -> (p j = true <-> x <= j < y)) ->
  List.filter p (range lo hi) = range x y.
Proof.
  intros Hx Hy. remember (Z.to_nat (hi - lo)) as n eqn:En.
  revert lo x Hx Hy En. induction n as [|n IH]; intros lo x Hx Hy En Hp.
  { by rewrite !range_empty by lia. }
  rewrite (range_cons lo) by lia. cbn [List.filter]. pose proof (Hp lo ltac:(lia)) as Hlo.
  destruct (p lo) eqn:E.
  - assert (lo = x) as -> by lia. rewrite (range_cons x y) by lia. f_equal.
    apply IH; try lia. intros j Hj. rewrite Hp by lia. lia.
  - destruct (decide (x = lo)) as [->|].
    + assert (y = lo) as -> by (destruct (decide (y = lo)); [done|]; assert (false = true) by (apply Hlo; lia); done).
      rewrite (range_empty lo lo) by lia. apply filter_false. intros j Hj%elem_of_range.
      destruct (p j) eqn:Ej; [|done]. apply Hp in Ej; lia.
    + apply IH; try lia. intros j Hj. rewrite Hp by lia. lia.
Qed.

Lemma collect_list_Ok {A} (get : Z -> res A) l : (forall i, i ∈ l -> Ok (get i)) -> Ok (collect_list l get).
Proof.
  induction l as [|i l IH]; intros Hl; cbn [collect_list]; [apply Ok_Ret|].
  apply Ok_bind; [apply Hl; left|]. intros a _. apply Ok_bind; [apply IH; intros; apply Hl; by right|].
  intros r _. apply Ok_Ret.
Qed.

Lemma collect_list_length {A} (get : Z -> res A) l r : collect_list l get = Ret r -> length r = length l.
Proof.
  revert r. induction l as [|i l IH]; intros r; cbn [collect_list]; [by intros [= <-]|].
  intros (a & _ & (r' & Hr & [= <-])%bind_Ret)%bind_Ret. cbn. f_equal. auto.
Qed.

Lemma length_range x y : x <= y -> zlen (range x y) = y - x.
Proof. intros Hxy. unfold zlen, range. rewrite length_map, List.length_seq. lia. Qed.

(** Owners of records. *)
Definition driver_target (f : bytes) (h : Header) (i : Z) : Z :=
  match driver_record f h i with Ret r => d_target r | _ => -1 end.
Definition load_source (f : bytes) (h : Header) (i : Z) : Z :=
  match load_record f h i with Ret r => l_source r | _ => -1 end.
Definition port_owner (f : bytes) (h : Header) (i : Z) : Z :=
  match port_record f h i with Ret r => p_signal r | _ => -1 end.

Lemma driver_ok_target f h signals o j : driver_ok f h signals o j = Ret true ->
  driver_target f h j = o /\ o < signals.
Proof.
  intros (r & Hr & Hd)%bind_Ret. unfold driver_target. rewrite Hr. case_if_in Hd; [done|]. lia.
Qed.
Lemma load_ok_source f h signals o j : load_ok f h signals o j = Ret true ->
  load_source f h j = o /\ o < signals.
Proof.
  intros (r & Hr & Hd)%bind_Ret. unfold load_source. rewrite Hr. case_if_in Hd; [done|]. lia.
Qed.
Lemma port_ok_owner f h signals o j : port_ok f h signals o j = Ret true ->
  port_owner f h j = o /\ o < signals.
Proof.
  intros (r & Hr & Hd)%bind_Ret. unfold port_owner. rewrite Hr. case_if_in Hd; [done|]. lia.
Qed.

Lemma string_of_Ok f h off s : string_at f h off = Ret (Some s) -> Ok (string_of f h off).
Proof. intros E. unfold string_of. rewrite E. apply Ok_Ret. Qed.

Lemma driver_of_Ok f h signals o j : driver_ok f h signals o j = Ret true -> Ok (driver_of f h j).
Proof.
  intros (r & Hr & Hd)%bind_Ret. case_if_in Hd; [done|].
  do 3 (apply and_then_true in Hd as [?%has_string_true Hd]). apply has_string_true in Hd.
  unfold driver_of. rewrite Hr. cbn [mbind res_bind]. destruct_and?.
  repeat match goal with H : exists s, string_at _ _ _ = _ |- _ => destruct H end.
  repeat (apply Ok_bind; [by eapply string_of_Ok|intros ? _]). apply Ok_Ret.
Qed.
Lemma load_of_Ok f h signals o j : load_ok f h signals o j = Ret true -> Ok (load_of f h j).
Proof.
  intros (r & Hr & Hd)%bind_Ret. case_if_in Hd; [done|].
  apply and_then_true in Hd as [[? ?]%has_string_true [? ?]%has_string_true].
  unfold load_of. rewrite Hr. cbn [mbind res_bind].
  repeat (apply Ok_bind; [by eapply string_of_Ok|intros ? _]). apply Ok_Ret.
Qed.
Lemma port_of_Ok f h signals o j : port_ok f h signals o j = Ret true -> Ok (port_of f h j).
Proof.
  intros (r & Hr & Hd)%bind_Ret. case_if_in Hd; [done|]. apply has_string_true in Hd as [? ?].
  unfold port_of. rewrite Hr. cbn [mbind res_bind].
  apply Ok_bind; [by eapply string_of_Ok|intros ? _]. apply Ok_Ret.
Qed.

(** A validated group: the trace of a signal is the list of its records. *)
Lemma trace_group_spec {A} f h starts records (get : bytes -> Header -> Z -> res A) check target k :
  valid_db f h -> is_starts starts -> 0 <= s_count (sec h records) <= int_max ->
  starts_ok f h starts (s_count (sec h Signals)) (s_count (sec h records)) = Ret true ->
  groups_ok (Z.to_nat (s_count (sec h records))) 0 0 f h starts (s_count (sec h Signals)) check = Ret true ->
  (forall o j, check o j = Ret true -> target j = o /\ o < s_count (sec h Signals)) ->
  (forall o j, check o j = Ret true -> Ok (get f h j)) ->
  0 <= k < s_count (sec h Signals) ->
  exists out, trace_group (Some (f, h)) starts records get k = Ret out /\
    collect_list (List.filter (fun j => target j =? k) (range 0 (s_count (sec h records)))) (get f h) = Ret out /\
    group_count (Some (f, h)) starts records k = Ret (zlen out).
Proof.
  intros Hv Hs Hr Hst Hg Ht Hget Hk.
  destruct (starts_facts f h Hv starts (s_count (sec h records)) Hs Hst) as (H0 & Hn & Hmono).
  pose proof (starts_mono f h Hv starts _ Hs Hst 0 k ltac:(lia) ltac:(lia)) as Hlo. rewrite H0 in Hlo.
  destruct (Hmono k Hk) as [Hle Hhi].
  assert (List.filter (fun j => target j =? k) (range 0 (s_count (sec h records))) =
          range (st f h starts k) (st f h starts (k + 1))) as Hfil.
  { apply filter_range; [lia|lia|]. intros j Hj. rewrite Z.eqb_eq.
    by apply (group_owner f h Hv starts (s_count (sec h records)) Hs Hst check target Hg Ht). }
  rewrite Hfil.
  destruct (collect_list_Ok (get f h) (range (st f h starts k) (st f h starts (k + 1)))) as [out Hout].
  { intros i Hi%elem_of_range.
    destruct (groups_true f h Hv starts Hs check _ 0 0 ltac:(lia) ltac:(lia) ltac:(lia) Hg i ltac:(lia))
      as (o & Hc & _). by apply (Hget o). }
  exists out. unfold trace_group, group_count, grouped_range.
  assert (valid_signal (Some (f, h)) k = true) as -> by (cbn; lia).
  rewrite (start_st f h Hv starts Hs k), (start_st f h Hv starts Hs (k + 1)) by lia.
  cbn [mbind res_bind]. rewrite (proj2 (Z.leb_le _ _)) by lia.
  rewrite collect_range, Z2Nat.id by lia.
  replace (st f h starts k + (st f h starts (k + 1) - st f h starts k)) with (st f h starts (k + 1)) by lia.
  split; [done|]. split; [done|]. apply collect_list_length in Hout. f_equal.
  unfold int_max in Hr. rewrite u64_small, i32_small by (unfold int_min, int_max; lia).
  unfold zlen. rewrite Hout. fold (zlen (range (st f h starts k) (st f h starts (k + 1)))).
  rewrite length_range; lia.
Qed.

(** ** Properties *)

Definition bd_inv (b : BinaryDesignBackend) : Prop :=
  match b with None => True | Some (f, h) => valid_db f h end.

(** Opening is safe. Whatever the operating system returns for a path, and
    whatever bytes a file holds, [open] completes without reading outside the
    mapping; it reports success exactly when it leaves the backend open, and
    then only on a database that passed validation. *)
Theorem design_open_safe (b : BinaryDesignBackend) (content : option bytes) :
  exists ok b', bd_open b content = Ret (ok, b') /\ ok = bd_is_open b' /\ bd_inv b'.
Proof.
  destruct content as [f|]; cbn [bd_open]; [|by exists false, None].
  destruct (Z.ltb_spec (zlen f) header_bytes) as [|Hf]; [by exists false, None|].
  destruct (rd_header_Ok f Hf) as [h Hh]. rewrite Hh. cbn [mbind res_bind].
  pose proof (rd_header_secs f h Hh) as Hs. destruct (validate_safe f h Hs) as [ok Hok].
  rewrite Hok. cbn [mbind res_bind]. destruct ok; [|by exists false, None].
  exists true, (Some (f, h)). split; [done|]. split; [done|]. by apply validate_valid.
Qed.

Lemma signal_ok_strings f h i r : signal_ok f h i = Ret true -> signal_record f h i = Ret r ->
  (exists s, string_at f h (sr_name r) = Ret (Some s)) /\
  (exists s, string_at f h (sr_type r) = Ret (Some s)) /\
  (exists s, string_at f h (sr_file r) = Ret (Some s)) /\ 0 <= sr_direction r <= 3.
Proof.
  intros (r' & Hr & Hok)%bind_Ret E. rewrite Hr in E. injection E as ->.
  do 3 (apply and_then_true in Hok as [?%has_string_true Hok]). injection Hok as Hok.
  repeat split; try done; lia.
Qed.

Lemma queries_safe (b : BinaryDesignBackend) (i : Z) :
  bd_inv b ->
  if valid_signal b i
  then (exists name, signal_name b i = Ret (Some name)) /\
       (exists type, signal_type b i = Ret (Some type)) /\
       (exists file, signal_file b i = Ret (Some file)) /\
       (exists d, signal_direction b i = Ret d /\ 0 <= d <= 3) /\
       Ok (signal_width b i) /\ Ok (signal_line b i) /\
       Ok (trace_driver b i) /\ Ok (trace_load b i) /\ Ok (port_connections b i)
  else signal_name b i = Ret None /\ signal_type b i = Ret None /\ signal_file b i = Ret None /\
       signal_width b i = Ret 0 /\ signal_line b i = Ret 0 /\ signal_direction b i = Ret 0 /\
       trace_driver b i = Ret [] /\ trace_load b i = Ret [] /\ port_connections b i = Ret [].
Proof.
  destruct b as [[f h]|]; [|done]. intros Hv. cbn [bd_inv] in Hv.
  pose proof (vd_shaped f h Hv) as Hsh. destruct (valid_signal (Some (f, h)) i) eqn:Hi; cycle 1.
  { unfold signal_name, signal_type, signal_file, signal_width, signal_line, signal_direction,
      signal_string, signal_number, trace_driver, trace_load, port_connections, trace_group, grouped_range.
    rewrite Hi. cbn. done. }
  assert (0 <= i < s_count (sec h Signals)) as Hr by (cbn in Hi; lia).
  destruct (signal_record_Ok f h i (sh_fits f h Hsh Signals) Hr) as [r Hrec].
  destruct (signal_ok_strings f h i r (vd_signals f h Hv i Hr) Hrec) as ([n Hn] & [t Ht] & [fl Hfl] & Hd).
  unfold signal_name, signal_type, signal_file, signal_width, signal_line, signal_direction,
    signal_string, signal_number. rewrite Hi, Hrec. cbn [mbind res_bind]. rewrite Hn, Ht, Hfl.
  destruct (sh_small f h Hsh) as (S1 & S2 & S3).
  assert (forall s, 0 <= s_count (sec h s)) as Hc by (intros s; apply (sh_fits f h Hsh s)).
  destruct (trace_group_spec f h DriverStarts Drivers driver_of _ (driver_target f h) i Hv
    ltac:(unfold is_starts; auto) (conj (Hc Drivers) S1) (vd_driver_starts f h Hv) (vd_drivers f h Hv)
    (driver_ok_target f h _) (driver_of_Ok f h _) Hr) as (o1 & E1 & _).
  destruct (trace_group_spec f h LoadStarts Loads load_of _ (load_source f h) i Hv
    ltac:(unfold is_starts; auto) (conj (Hc Loads) S2) (vd_load_starts f h Hv) (vd_loads f h Hv)
    (load_ok_source f h _) (load_of_Ok f h _) Hr) as (o2 & E2 & _).
  destruct (trace_group_spec f h PortStarts Ports port_of _ (port_owner f h) i Hv
    ltac:(unfold is_starts; auto) (conj (Hc Ports) S3) (vd_port_starts f h Hv) (vd_ports f h Hv)
    (port_ok_owner f h _) (port_of_Ok f h _) Hr) as (o3 & E3 & _).
  unfold trace_driver, trace_load, port_connections. rewrite E1, E2, E3.
  repeat split; eauto using Ok_Ret.
Qed.

(** C5: queries are safe. On a backend that [open] left in place, every signal
    query completes without an out-of-bounds or null access, for every index:
    an index in range has a name, a type, a file and a direction in 0..3, any
    other gives null or zero; the trace queries complete too, and return
    nothing out of range. *)
Theorem design_queries_safe (b : BinaryDesignBackend) (i : Z) :
  bd_inv b ->
  if valid_signal b i
  then (exists name, signal_name b i = Ret (Some name)) /\
       (exists type, signal_type b i = Ret (Some type)) /\
       (exists file, signal_file b i = Ret (Some file)) /\
       (exists d, signal_direction b i = Ret d /\ 0 <= d <= 3) /\
       Ok (signal_width b i) /\ Ok (signal_line b i) /\
       Ok (trace_driver b i) /\ Ok (trace_load b i) /\ Ok (port_connections b i)
  else signal_name b i = Ret None /\ signal_type b i = Ret None /\ signal_file b i = Ret None /\
       signal_width b i = Ret 0 /\ signal_line b i = Ret 0 /\ signal_direction b i = Ret 0 /\
       trace_driver b i = Ret [] /\ trace_load b i = Ret [] /\ port_connections b i = Ret [].
Proof. apply queries_safe. Qed.

(** C11: traces are exact. For a signal of a validated database, the traced
    drivers are all driver records whose target is the signal, in file order,
    the traced loads all load records whose source it is, and the port
    connections all port records of it; each count is the number returned. *)
Theorem design_traces_exact (f : bytes) (h : Header) (k : Z) :
  valid_db f h -> 0 <= k < s_count (sec h Signals) ->
  let own (target : Z -> Z) records := List.filter (fun j => target j =? k) (range 0 (s_count (sec h records))) in
  (exists out, trace_driver (Some (f, h)) k = Ret out /\
     collect_list (own (driver_target f h) Drivers) (driver_of f h) = Ret out /\
     trace_driver_count (Some (f, h)) k = Ret (zlen out)) /\
  (exists out, trace_load (Some (f, h)) k = Ret out /\
     collect_list (own (load_source f h) Loads) (load_of f h) = Ret out /\
     trace_load_count (Some (f, h)) k = Ret (zlen out)) /\
  (exists out, port_connections (Some (f, h)) k = Ret out /\
     collect_list (own (port_owner f h) Ports) (port_of f h) = Ret out /\
     port_conn_count (Some (f, h)) k = Ret (zlen out)).
Proof.
  intros Hv Hk own. pose proof (vd_shaped f h Hv) as Hsh. destruct (sh_small f h Hsh) as (S1 & S2 & S3).
  assert (forall s, 0 <= s_count (sec h s)) as Hc by (intros s; apply (sh_fits f h Hsh s)).
  split; [|split]; (eapply trace_group_spec; [done|unfold is_starts; auto|split; [apply Hc|done]|apply Hv|apply Hv| | |done]).
  - apply driver_ok_target.
  - apply driver_of_Ok.
  - apply load_ok_source.
  - apply load_of_Ok.
  - apply port_ok_owner.
  - apply port_of_Ok.
Qed.

(** C12: resolution is exact. On a validated database, [resolve] of a non-empty
    name terminates with the signal recorded under the first spelling in
    [candidates] (the name itself, then the variants with the model root
    added or removed) that the name index records, and with -1 exactly when
    it records none of them; every recorded name resolves to its own signal. *)
Theorem design_resolve_exact (f : bytes) (h : Header) (name : bytes) :
  valid_db f h -> name <> [] ->
  (exists r, resolve_name (Some (f, h)) name = Ret r /\
    ((exists pre q post, candidates name = pre ++ q :: post /\ indexed_as f h q r /\
        forall p s, p ∈ pre -> ~ indexed_as f h p s) \/
     r = -1 /\ forall q s, q ∈ candidates name -> ~ indexed_as f h q s)) /\
  (forall s, indexed_as f h name s -> resolve_name (Some (f, h)) name = Ret s).
Proof.
  intros Hv Hne. cbn [resolve_name]. rewrite (proj2 (eqs_false name [])) by done.
  split; [by apply first_exact_spec|]. intros s Hs. unfold candidates. cbn [first_exact].
  destruct (exact_spec f h Hv name) as (r & -> & [Hr|[_ Hno]]); [|by destruct (Hno s)].
  cbn [mbind res_bind]. pose proof (indexed_range f h Hv name r Hr).
  rewrite (proj2 (Z.leb_le 0 r)) by lia. f_equal.
  destruct Hs as (i & Hi & He), Hr as (j & Hj & He').
  destruct (Z.lt_trichotomy i j) as [C|[->|C]].
  - pose proof (entry_order f h Hv i j _ _ _ _ ltac:(lia) ltac:(lia) He He') as E.
    by rewrite str_compare_refl in E.
  - by destruct (entry_fun _ _ _ _ _ _ _ He He') as [_ ->].
  - pose proof (entry_order f h Hv j i _ _ _ _ ltac:(lia) ltac:(lia) He' He) as E.
    by rewrite str_compare_refl in E.
Qed.

(** ** A small database *)

Fixpoint le (n : nat) (v : Z) : bytes :=
  match n with O => [] | S n' => chr (v mod 256) :: le n' (v / 256) end.

Definition demo_sections : list (Z * Z) :=
  [(176, 2); (224, 2); (240, 1); (272, 3); (296, 1); (320, 3); (344, 1); (360, 3); (384, 21)].

(** Signals [top.a], [top.b]; [top.b] is driven by [top.a] and connected to it. *)
Definition demo_design : bytes :=
  kMagic ++ le 4 1 ++ le 4 0 ++ le 4 kEndianTag ++ le 4 176 ++ le 8 405 ++
  concat (map (fun s => le 8 s.1 ++ le 8 s.2) demo_sections) ++
  concat (map (le 4) [0; 12; 17; 8; 3; 1; 6; 12; 17; 8; 4; 2]) ++
  concat (map (le 4) [0; 0; 6; 1]) ++
  concat (map (le 4) [1; 0; 12; 12; 12; 17; 4]) ++ le 4 0 ++
  concat (map (le 8) [0; 0; 1]) ++
  concat (map (le 4) [0; 1; 12; 17; 4]) ++ le 4 0 ++
  concat (map (le 8) [0; 1; 1]) ++
  concat (map (le 4) [1; 0; 12]) ++ le 4 0 ++
  concat (map (le 8) [0; 0; 1]) ++
  lit "top.a" ++ [chr 0] ++ lit "top.b" ++ [chr 0] ++ lit "wire" ++ [chr 0] ++ lit "f.v" ++ [chr 0].

Definition demo_header : Header :=
  match rd_header demo_design with Ret h => h | _ => MkHdr [] 0 0 0 0 0 [] end.

Lemma demo_design_valid : valid_db demo_design demo_header.
Proof.
  apply validate_valid; [apply (rd_header_secs demo_design); vm_compute; reflexivity|].
  vm_compute. reflexivity.
Qed.

Lemma design_queries_safe_witness :
  exists name, signal_name (Some (demo_design, demo_header)) 1 = Ret (Some name).
Proof.
  pose proof (design_queries_safe (Some (demo_design, demo_header)) 1 demo_design_valid) as Hq.
  assert (valid_signal (Some (demo_design, demo_header)) 1 = true) as E by (vm_compute; reflexivity).
  rewrite E in Hq. apply Hq.
Defined.

Lemma design_traces_exact_witness :
  trace_driver (Some (demo_design, demo_header)) 1 =
    Ret [MkDriver 0 (lit "wire") (lit "wire") (lit "wire") (lit "f.v") 4] /\
  exists out, trace_load (Some (demo_design, demo_header)) 0 = Ret out /\
    trace_load_count (Some (demo_design, demo_header)) 0 = Ret (zlen out).
Proof.
  split; [vm_compute; reflexivity|].
  destruct (design_traces_exact demo_design demo_header 0 demo_design_valid) as (_ & (out & H1 & _ & H2) & _);
    [vm_compute; split; [discriminate|reflexivity]|]. exists out. split; [exact H1|exact H2].
Defined.

Lemma design_resolve_exact_witness :
  exists r, resolve_name (Some (demo_design, demo_header)) (lit "TOP.b") = Ret r /\ r = 1.
Proof.
  destruct (design_resolve_exact demo_design demo_header (lit "TOP.b") demo_design_valid) as [(r & Hr & _) _];
    [done|]. exists r. split; [exact Hr|].
  vm_compute in Hr. by injection Hr as <-.
Defined.
