(* ===== verification/DesignIndex.v ===== *)
(** * DesignIndex: reverse indexes for trace queries

    Models [DesignQueryIndex] ([src/backend/design_query_index.{h,cpp}]) over
    the part of [IDesignBackend] it calls, a type class whose operations may
    have the undefined outcome of [res]. The byte estimate depends on
    container capacities, which the library leaves open, and is not kept.
    The theorems show that the constructor is defined on every safe backend
    and that each query returns exactly what a scan of the backend would;
    the binary database is an instance. *)

From S2P Require Import Prelude CLib Json WellenBackend BinaryDesign BinaryDesignTheory.
From stdpp Require Import sorting.

Open Scope Z_scope.

(** ** The backend interface *)

Class DesignBackend (D : Type) := {
  db_signal_count : D -> Z;
  db_signal_name : D -> Z -> res (option bytes);
  db_signal_direction : D -> Z -> res Z;
  db_port_connections : D -> Z -> res (list PortConnection);
}.

(** What the index relies on: reads of signals below the count are defined. *)
Class DesignBackendLaws (D : Type) `{DesignBackend D} := {
  db_ok : D -> Prop;
  db_name_ret : forall d i, db_ok d -> 0 <= i < db_signal_count d ->
    exists n, db_signal_name d i = Ret n;
  db_direction_ret : forall d i, db_ok d -> 0 <= i < db_signal_count d ->
    exists n, db_signal_direction d i = Ret n;
  db_ports_ret : forall d i, db_ok d -> 0 <= i < db_signal_count d ->
    exists l, db_port_connections d i = Ret l;
}.

(** ** Names *)

(** [std::string::empty] *)
Definition is_nil (s : bytes) : bool := match s with [] => true | _ => false end.

Definition scope_of (signal : bytes) : bytes :=
  match rfind "." signal with None => [] | Some dot => take dot signal end.

(** The base and value of a final [\[digits\]]; [None] is [false]. *)
Definition final_numeric_selector (signal : bytes) : option (bytes * Z) :=
  match list.last signal with
  | Some "]"%char =>
      match rfind "[" signal with
      | None => None
      | Some open_ =>
          if (length signal - 1 <=? open_ + 1)%nat then None
          else
            let text := take (length signal - open_ - 2) (drop (open_ + 1) signal) in
            if is_nil text || negb (forallb isdigit text) then None
            else
              let '(parsed, rest, erange) := strtoull 10 text in
              if erange || negb (is_nil rest) || (i64_max <? parsed) then None
              else
                let base := take open_ signal in
                if is_nil base then None else Some (base, parsed)
      end
  | _ => None
  end.

(** ** The index *)

(** [std::array<std::vector<int>, 4>] *)
Notation Directions := (list (list Z)).
Definition no_directions : Directions := [[]; []; []; []].

Record DesignQueryIndex := MkDQI {
  connected_ports_ : gmap Z Directions;
  connected_signals_ : gmap Z (list Z);
  scope_ports_ : gmap bytes Directions;
  last_selectors_ : gmap bytes Z;
  signals_scanned : Z;
  port_records_scanned : Z;
}.

(** [map[key][direction].push_back(index)]: a missing key is created. *)
Definition push_port {K} `{Countable K} (key : K) (direction index : Z) (m : gmap K Directions)
  : gmap K Directions :=
  let dirs := default no_directions (m !! key) in
  <[key := alter (fun l => l ++ [index]) (Z.to_nat direction) dirs]> m.

(** [map[key].push_back(value)] *)
Definition push_signal (key value : Z) (m : gmap Z (list Z)) : gmap Z (list Z) :=
  <[key := default [] (m !! key) ++ [value]]> m.

Definition is_port_direction (direction : Z) : bool := (0 <? direction) && (direction <? 4).

(** One port connection of the port [index]; [once] is [connected_once]. *)
Definition index_connection (index direction : Z) (st : gmap Z Directions * gmap Z (list Z) * gset Z)
    (c : PortConnection) : gmap Z Directions * gmap Z (list Z) * gset Z :=
  let '(ports, signals, once) := st in
  let other := if port_signal c =? index then connected_signal c else port_signal c in
  let '(ports, once) :=
    if (0 <=? other) && negb (bool_decide (other ∈ once))
    then (push_port other direction index ports, {[other]} ∪ once)
    else (ports, once) in
  let signals :=
    if (0 <=? port_signal c) && (0 <=? connected_signal c)
    then push_signal (connected_signal c) (port_signal c)
           (push_signal (port_signal c) (connected_signal c) signals)
    else signals in
  (ports, signals, once).

(** [if (found == end || selector > found->second) last_selectors_[base] = selector;] *)
Definition index_selector (name : bytes) (m : gmap bytes Z) : gmap bytes Z :=
  match final_numeric_selector name with
  | None => m
  | Some (base, selector) =>
      match m !! base with
      | Some old => if old <? selector then <[base := selector]> m else m
      | None => <[base := selector]> m
      end
  end.

Section Index.
Context {D : Type} `{DesignBackend D}.

(** One iteration of the constructor's loop. *)
Definition index_signal (d : D) (x : DesignQueryIndex) (index : Z) : res DesignQueryIndex :=
  raw ← db_signal_name d index;
  let name := default [] raw in
  direction ← db_signal_direction d index;
  let scopes := if is_port_direction direction
                then push_port (scope_of name) direction index (scope_ports_ x) else scope_ports_ x in
  let selectors := index_selector name (last_selectors_ x) in
  if negb (is_port_direction direction)
  then Ret (MkDQI (connected_ports_ x) (connected_signals_ x) scopes selectors
              (signals_scanned x) (port_records_scanned x))
  else
    connections ← db_port_connections d index;
    let '(ports, signals, _) :=
      foldl (index_connection index direction) (connected_ports_ x, connected_signals_ x, ∅) connections in
    Ret (MkDQI ports signals scopes selectors (signals_scanned x)
           (u64 (port_records_scanned x + zlen connections))).

Fixpoint index_signals (n : nat) (d : D) (x : DesignQueryIndex) (index : Z) : res DesignQueryIndex :=
  match n with
  | O => Ret x
  | S n' => x' ← index_signal d x index; index_signals n' d x' (index + 1)
  end.

(** [std::sort] and [std::unique] *)
Fixpoint unique (l : list Z) : list Z :=
  match l with
  | a :: ((b :: _) as l') => if a =? b then unique l' else a :: unique l'
  | _ => l
  end.
Definition sort_unique (l : list Z) : list Z := unique (merge_sort Z.le l).

Definition new_index (d : D) : res DesignQueryIndex :=
  let count := db_signal_count d in
  let x0 := MkDQI ∅ ∅ ∅ ∅ (if 0 <? count then count else 0) 0 in
  x ← index_signals (Z.to_nat count) d x0 0;
  Ret (MkDQI (connected_ports_ x) (sort_unique <$> connected_signals_ x) (scope_ports_ x)
         (last_selectors_ x) (signals_scanned x) (port_records_scanned x)).
End Index.

(** ** Queries *)

(** [found == end || direction < 0 || direction >= 4 ? kEmpty : found->second[direction]] *)
Definition ports_at {K} `{Countable K} (m : gmap K Directions) (key : K) (direction : Z) : list Z :=
  match m !! key with
  | None => []
  | Some dirs => if (direction <? 0) || (4 <=? direction) then [] else nth (Z.to_nat direction) dirs []
  end.

Definition connected_signals (x : DesignQueryIndex) (signal : Z) : list Z :=
  default [] (connected_signals_ x !! signal).
Definition ports_connected_to (x : DesignQueryIndex) (signal direction : Z) : list Z :=
  ports_at (connected_ports_ x) signal direction.
Definition ports_in_scope (x : DesignQueryIndex) (scope : bytes) (direction : Z) : list Z :=
  ports_at (scope_ports_ x) scope direction.
Definition last_materialized_selector (x : DesignQueryIndex) (base : bytes) : option Z :=
  last_selectors_ x !! base.

(** ** What a scan of the backend sees *)

Section Scan.
Context {D : Type} `{DesignBackend D}.

Definition name_at (d : D) (i : Z) : bytes :=
  match db_signal_name d i with Ret n => default [] n | _ => [] end.
Definition direction_at (d : D) (i : Z) : Z :=
  match db_signal_direction d i with Ret n => n | _ => 0 end.
Definition ports_of (d : D) (i : Z) : list PortConnection :=
  match db_port_connections d i with Ret l => l | _ => [] end.

(** The iteration of the constructor's loop on a safe backend. *)
Definition step (d : D) (x : DesignQueryIndex) (i : Z) : DesignQueryIndex :=
  if is_port_direction (direction_at d i)
  then
    let '(ports, signals, _) := foldl (index_connection i (direction_at d i))
      (connected_ports_ x, connected_signals_ x, ∅) (ports_of d i) in
    MkDQI ports signals (push_port (scope_of (name_at d i)) (direction_at d i) i (scope_ports_ x))
      (index_selector (name_at d i) (last_selectors_ x)) (signals_scanned x)
      (u64 (port_records_scanned x + zlen (ports_of d i)))
  else MkDQI (connected_ports_ x) (connected_signals_ x) (scope_ports_ x)
         (index_selector (name_at d i) (last_selectors_ x)) (signals_scanned x) (port_records_scanned x).

(** The signal at the other end of connection [c] of port [i]. *)
Definition other_end (i : Z) (c : PortConnection) : Z :=
  if port_signal c =? i then connected_signal c else port_signal c.

Definition scope_port (d : D) (scope : bytes) (direction i : Z) : bool :=
  bool_decide (direction_at d i = direction) && bool_decide (scope_of (name_at d i) = scope).
Definition connected_port (d : D) (signal direction i : Z) : bool :=
  bool_decide (direction_at d i = direction) && bool_decide (signal ∈ other_end i <$> ports_of d i).

(** Some port among [l] records a connection between [s] and [t]. *)
Definition linked (d : D) (l : list Z) (s t : Z) : Prop :=
  0 <= s /\ 0 <= t /\ exists i c, i ∈ l /\ is_port_direction (direction_at d i) = true /\ c ∈ ports_of d i /\
    ((port_signal c = s /\ connected_signal c = t) \/ (port_signal c = t /\ connected_signal c = s)).

(** Some signal among [l] is element [v] of [base]. *)
Definition selects (d : D) (l : list Z) (base : bytes) (v : Z) : Prop :=
  exists i, i ∈ l /\ final_numeric_selector (name_at d i) = Some (base, v).
End Scan.

(** ** Maps of port lists *)

Definition four {K} `{Countable K} (m : gmap K Directions) : Prop :=
  map_Forall (fun _ dirs => length dirs = 4%nat) m.

Section Ports.
Context {K : Type} `{Countable K}.
Implicit Types (m : gmap K Directions) (k : K).

Lemma four_empty : four (∅ : gmap K Directions).
Proof. apply map_Forall_empty. Qed.

Lemma push_port_four k dir i m : four m -> four (push_port k dir i m).
Proof.
  intros Hm. unfold push_port. apply map_Forall_insert_2; [|done]. cbv beta zeta. rewrite length_alter.
  destruct (m !! k) as [dirs|] eqn:E; [by apply (Hm k)|done].
Qed.

Lemma ports_at_push k dir i m k' dir' : four m -> is_port_direction dir = true ->
  ports_at (push_port k dir i m) k' dir' =
    ports_at m k' dir' ++ (if bool_decide (dir = dir') && bool_decide (k = k') then [i] else []).
Proof.
  intros Hm [Hd1%Z.ltb_lt Hd2%Z.ltb_lt]%andb_true_iff. unfold ports_at, push_port.
  destruct (decide (k = k')) as [->|Hne].
  2: { rewrite lookup_insert_ne by done. rewrite (bool_decide_false (k = k')) by done.
       by rewrite andb_false_r, app_nil_r. }
  rewrite lookup_insert_eq, (bool_decide_true (k' = k')), andb_true_r by done.
  assert (length (default no_directions (m !! k')) = 4%nat) as H4.
  { destruct (m !! k') as [dirs|] eqn:E; [by apply (Hm k')|done]. }
  replace (match m !! k' with Some dirs => _ | None => [] end) with
    (if (dir' <? 0) || (4 <=? dir') then [] else nth (Z.to_nat dir') (default no_directions (m !! k')) []).
  2: { destruct (m !! k'); [done|]. cbn. case_match; [done|]. unfold no_directions.
       destruct (Z.to_nat dir') as [|[|[|[|[|]]]]]; done. }
  destruct ((dir' <? 0) || (4 <=? dir')) eqn:E; [rewrite bool_decide_false by lia; done|].
  apply orb_false_iff in E as [E1%Z.ltb_ge E2%Z.leb_gt].
  set (dirs := default no_directions (m !! k')) in *. clearbody dirs.
  rewrite !nth_lookup. destruct (decide (dir = dir')) as [->|Hne].
  - rewrite list_lookup_alter_eq, bool_decide_true by done.
    destruct (lookup_lt_is_Some_2 dirs (Z.to_nat dir')) as [l ->]; [lia|]. done.
  - rewrite list_lookup_alter_ne, bool_decide_false, app_nil_r by lia. done.
Qed.
End Ports.

(** ** The inner loop over the connections of one port *)

Definition add_link (c : PortConnection) (signals : gmap Z (list Z)) : gmap Z (list Z) :=
  if (0 <=? port_signal c) && (0 <=? connected_signal c)
  then push_signal (connected_signal c) (port_signal c)
         (push_signal (port_signal c) (connected_signal c) signals)
  else signals.

Lemma index_connection_eq i dir ports signals once c :
  index_connection i dir (ports, signals, once) c =
    if bool_decide (0 <= other_end i c /\ other_end i c ∉ once)
    then (push_port (other_end i c) dir i ports, add_link c signals, {[other_end i c]} ∪ once)
    else (ports, add_link c signals, once).
Proof.
  unfold index_connection. cbv zeta. fold (other_end i c). fold (add_link c signals).
  case (bool_decide_reflect (0 <= other_end i c /\ other_end i c ∉ once)); intros Hn.
  - destruct Hn as [Ho1 Ho2]. by rewrite (proj2 (Z.leb_le _ _) Ho1), (bool_decide_false (_ ∈ once)).
  - replace ((0 <=? other_end i c) && negb (bool_decide (other_end i c ∈ once))) with false; [done|].
    symmetry. apply andb_false_iff. destruct (decide (0 <= other_end i c)) as [Hp|Hp]; [right|left; lia].
    rewrite bool_decide_true; [done|]. destruct (decide (other_end i c ∈ once)); tauto.
Qed.

Lemma push_signal_spec k v m s t :
  t ∈ default [] (push_signal k v m !! s) <-> t ∈ default [] (m !! s) \/ (s = k /\ t = v).
Proof.
  unfold push_signal. destruct (decide (s = k)) as [->|].
  - rewrite lookup_insert_eq. cbn. rewrite elem_of_app, list_elem_of_singleton. naive_solver.
  - rewrite lookup_insert_ne by done. naive_solver.
Qed.

Lemma add_link_spec c m s t :
  t ∈ default [] (add_link c m !! s) <->
    t ∈ default [] (m !! s) \/
    0 <= s /\ 0 <= t /\
      ((port_signal c = s /\ connected_signal c = t) \/ (port_signal c = t /\ connected_signal c = s)).
Proof.
  unfold add_link. destruct (_ && _) eqn:E.
  - apply andb_true_iff in E as [E1%Z.leb_le E2%Z.leb_le]. rewrite !push_signal_spec. naive_solver.
  - split; [by left|]. intros [?|?]; [done|]. exfalso. lia.
Qed.

Lemma connections_ports (i dir : Z) (cs : list PortConnection) : is_port_direction dir = true ->
  forall ports signals once, four ports ->
  let out := foldl (index_connection i dir) (ports, signals, once) cs in
  four (out.1.1) /\
  forall s dir', ports_at (out.1.1) s dir' =
    ports_at ports s dir' ++
      (if bool_decide (dir = dir') && bool_decide (0 <= s /\ s ∉ once /\ s ∈ other_end i <$> cs) then [i] else []).
Proof.
  intros Hd. induction cs as [|c cs IH]; intros ports signals once Hf out.
  { split; [done|]. intros s dir'. rewrite (bool_decide_false (0 <= s /\ _)) by (intros (_ & _ & []%elem_of_nil)).
    by rewrite andb_false_r, app_nil_r. }
  subst out. cbn [foldl]. rewrite index_connection_eq. set (sig' := add_link c signals). clearbody sig'.
  case_bool_decide as Hn.
  - destruct Hn as [Ho1 Ho2].
    destruct (IH (push_port (other_end i c) dir i ports) sig' ({[other_end i c]} ∪ once)) as [H1 H2];
      [by apply push_port_four|]. split; [exact H1|]. intros s dir'. rewrite H2, ports_at_push by done.
    rewrite <- app_assoc. f_equal. case (bool_decide_reflect (dir = dir')); intros Hdd; [|done]. cbn [andb].
    rewrite fmap_cons. repeat case_bool_decide; try done; set_solver.
  - destruct (IH ports sig' once Hf) as [H1 H2]. split; [exact H1|]. intros s dir'. rewrite H2.
    f_equal. rewrite (bool_decide_ext (0 <= s /\ s ∉ once /\ s ∈ other_end i <$> cs)
                        (0 <= s /\ s ∉ once /\ s ∈ other_end i <$> c :: cs)); [done|].
    rewrite fmap_cons, elem_of_cons. split; [tauto|]. intros (? & ? & [->|?]); tauto.
Qed.

Lemma connections_signals (i dir : Z) (cs : list PortConnection) : forall ports signals once s t,
  t ∈ default [] ((foldl (index_connection i dir) (ports, signals, once) cs).1.2 !! s) <->
    t ∈ default [] (signals !! s) \/
    0 <= s /\ 0 <= t /\ exists c, c ∈ cs /\
      ((port_signal c = s /\ connected_signal c = t) \/ (port_signal c = t /\ connected_signal c = s)).
Proof.
  induction cs as [|c cs IH]; intros ports signals once s t.
  { cbn. split; [by left|]. intros [?|(_ & _ & c & []%elem_of_nil & _)]; done. }
  cbn [foldl]. rewrite index_connection_eq.
  case_bool_decide; rewrite IH, add_link_spec; setoid_rewrite elem_of_cons; naive_solver.
Qed.

(** ** The selectors *)

Lemma index_selector_spec name m base :
  index_selector name m !! base =
    match final_numeric_selector name with
    | Some (b, v) => if decide (b = base) then Some (match m !! base with Some old => Z.max old v | None => v end)
                     else m !! base
    | None => m !! base
    end.
Proof.
  unfold index_selector. destruct (final_numeric_selector name) as [[b v]|]; [|done].
  destruct (decide (b = base)) as [->|Hne].
  - destruct (m !! base) as [old|] eqn:E; [|by rewrite lookup_insert_eq].
    case_match eqn:Ho; [rewrite lookup_insert_eq; f_equal; lia|rewrite E; f_equal; lia].
  - destruct (m !! b) as [old|]; [case_match|]; by rewrite ?lookup_insert_ne.
Qed.

(** ** Sorting *)

Lemma unique_spec l : StronglySorted Z.le l -> StronglySorted Z.lt (unique l) /\ forall x, x ∈ unique l <-> x ∈ l.
Proof.
  induction l as [|a l IH]; intros Hs; [split; [constructor|done]|].
  apply StronglySorted_inv in Hs as [Hs Ha]. destruct (IH Hs) as [H1 H2]. clear IH.
  destruct l as [|b l]; [split; [repeat constructor|done]|].
  change (unique (a :: b :: l)) with (if a =? b then unique (b :: l) else a :: unique (b :: l)).
  destruct (Z.eqb_spec a b) as [->|Hne].
  - split; [done|]. intros x. rewrite H2, !elem_of_cons. tauto.
  - split; [|intros x; rewrite !(elem_of_cons _ _ a), H2; done].
    constructor; [done|]. apply list.Forall_forall. intros x Hx%H2.
    apply list.Forall_cons in Ha as [Hab Hal].
    apply elem_of_cons in Hx as [->|Hx]; [lia|].
    apply StronglySorted_inv in Hs as [_ Hb]. rewrite list.Forall_forall in Hb. specialize (Hb _ Hx). lia.
Qed.

Lemma sort_unique_spec l : StronglySorted Z.lt (sort_unique l) /\ forall x, x ∈ sort_unique l <-> x ∈ l.
Proof.
  unfold sort_unique. destruct (unique_spec (merge_sort Z.le l)) as [H1 H2].
  { apply (StronglySorted_merge_sort Z.le). }
  split; [done|]. intros x. rewrite H2. by rewrite (merge_sort_Permutation Z.le l).
Qed.

(** ** The outer loop *)

Section Loop.
Context {D : Type} `{DesignBackendLaws D}.
Implicit Types (d : D) (x : DesignQueryIndex).

(** What the index knows after the signals of [l]. *)
Record indexed (d : D) (l : list Z) (x : DesignQueryIndex) : Prop := {
  ix_ports_four : four (connected_ports_ x);
  ix_scopes_four : four (scope_ports_ x);
  ix_scopes : forall scope dir, is_port_direction dir = true ->
    ports_at (scope_ports_ x) scope dir = List.filter (scope_port d scope dir) l;
  ix_ports : forall s dir, is_port_direction dir = true -> 0 <= s ->
    ports_at (connected_ports_ x) s dir = List.filter (connected_port d s dir) l;
  ix_signals : forall s t, t ∈ default [] (connected_signals_ x !! s) <-> linked d l s t;
  ix_max : forall base v, last_selectors_ x !! base = Some v ->
    selects d l base v /\ forall w, selects d l base w -> w <= v;
  ix_none : forall base, last_selectors_ x !! base = None -> forall w, ~ selects d l base w;
  ix_no_port : forall scope s dir, is_port_direction dir = false ->
    ports_at (scope_ports_ x) scope dir = [] /\ ports_at (connected_ports_ x) s dir = [];
  ix_negative : forall s dir, s < 0 -> ports_at (connected_ports_ x) s dir = [];
}.

Lemma index_signal_step d x i : db_ok d -> 0 <= i < db_signal_count d ->
  index_signal d x i = Ret (step d x i).
Proof.
  intros Hd Hi. unfold index_signal, step, direction_at, name_at, ports_of.
  destruct (db_name_ret d i Hd Hi) as [n ->], (db_direction_ret d i Hd Hi) as [dir ->],
    (db_ports_ret d i Hd Hi) as [l ->]. cbn [mbind res_bind].
  destruct (is_port_direction dir); cbn [negb]; [|done].
  by destruct (foldl _ _ l) as [[p s] o].
Qed.

Lemma index_signals_foldl d : db_ok d -> forall n x i, 0 <= i -> i + Z.of_nat n <= db_signal_count d ->
  index_signals n d x i = Ret (foldl (step d) x (seqZ i (Z.of_nat n))).
Proof.
  intros Hd. induction n as [|n IH]; intros x i Hi Hn; [done|]. cbn [index_signals].
  rewrite index_signal_step by (done || lia). cbn [mbind res_bind]. rewrite IH by lia.
  by rewrite (seqZ_cons i (Z.of_nat (S n))) by lia; rewrite <- Z.add_1_r, Nat2Z.inj_succ, Z.pred_succ.
Qed.

Lemma selects_snoc d l i base v :
  selects d (l ++ [i]) base v <-> selects d l base v \/ final_numeric_selector (name_at d i) = Some (base, v).
Proof.
  unfold selects. split.
  - intros (k & [Hk | ->%list_elem_of_singleton]%elem_of_app & Hf); [left; by exists k|by right].
  - intros [(k & Hk & Hf)|Hf]; [exists k|exists i]; rewrite elem_of_app, list_elem_of_singleton; auto.
Qed.

Lemma linked_snoc d l i s t :
  linked d (l ++ [i]) s t <-> linked d l s t \/ linked d [i] s t.
Proof.
  unfold linked. split.
  - intros (Hs & Ht & k & c & [Hk|Hk]%elem_of_app & Hd); [left|right]; eauto 10.
  - intros [(Hs & Ht & k & c & Hk & Hd)|(Hs & Ht & k & c & Hk & Hd)];
      (split; [done|split; [done|]]); exists k, c; rewrite elem_of_app; tauto.
Qed.

Lemma linked_one d i s t : is_port_direction (direction_at d i) = true ->
  linked d [i] s t <-> 0 <= s /\ 0 <= t /\ exists c, c ∈ ports_of d i /\
    ((port_signal c = s /\ connected_signal c = t) \/ (port_signal c = t /\ connected_signal c = s)).
Proof.
  intros Hd. unfold linked. split.
  - intros (Hs & Ht & k & c & ->%list_elem_of_singleton & _ & Hc). eauto.
  - intros (Hs & Ht & c & Hc). split; [done|]. split; [done|]. exists i, c.
    rewrite list_elem_of_singleton. tauto.
Qed.

Lemma filter_snoc {A} (f : A -> bool) l a : List.filter f (l ++ [a]) = List.filter f l ++ (if f a then [a] else []).
Proof. rewrite List.filter_app. cbn. by destruct (f a). Qed.

Lemma step_selectors d x i : last_selectors_ (step d x i) = index_selector (name_at d i) (last_selectors_ x).
Proof. unfold step. destruct (is_port_direction _); [|done]. by destruct (foldl _ _ _) as [[? ?] ?]. Qed.


(** The selector fields of [indexed] do not depend on the rest. *)
Lemma selectors_step d l x i :
  (forall base v, last_selectors_ x !! base = Some v -> selects d l base v /\ forall w, selects d l base w -> w <= v) ->
  (forall base, last_selectors_ x !! base = None -> forall w, ~ selects d l base w) ->
  forall base,
    match last_selectors_ (step d x i) !! base with
    | Some v => selects d (l ++ [i]) base v /\ forall w, selects d (l ++ [i]) base w -> w <= v
    | None => forall w, ~ selects d (l ++ [i]) base w
    end.
Proof.
  intros Hsome Hnone base. rewrite step_selectors, index_selector_spec.
  destruct (final_numeric_selector (name_at d i)) as [[b v]|] eqn:Ef; [destruct (decide (b = base)) as [->|Hne]|].
  - destruct (last_selectors_ x !! base) as [old|] eqn:El.
    + apply Hsome in El as [Hs Hm]. split.
      * rewrite selects_snoc. destruct (Z.max_spec old v) as [[_ ->]|[_ ->]]; auto.
      * intros w [Hw|Hw]%selects_snoc; [apply Hm in Hw; lia|]. assert (w = v) as -> by congruence. lia.
    + split; [rewrite selects_snoc; auto|]. intros w [Hw|Hw]%selects_snoc; [by apply (Hnone _ El) in Hw|].
      assert (w = v) as -> by congruence. lia.
  - assert (forall w, selects d (l ++ [i]) base w <-> selects d l base w) as Hiff.
    { intros w. rewrite selects_snoc, Ef. split; [|by left]. intros [?|?]; [done|congruence]. }
    destruct (last_selectors_ x !! base) eqn:El; setoid_rewrite Hiff; eauto.
  - assert (forall w, selects d (l ++ [i]) base w <-> selects d l base w) as Hiff.
    { intros w. rewrite selects_snoc, Ef. split; [|by left]. intros [?|?]; [done|congruence]. }
    destruct (last_selectors_ x !! base) eqn:El; setoid_rewrite Hiff; eauto.
Qed.

Lemma other_direction d i dir : is_port_direction (direction_at d i) = false -> is_port_direction dir = true ->
  bool_decide (direction_at d i = dir) = false.
Proof. intros H1 H2. apply bool_decide_eq_false. congruence. Qed.

Lemma indexed_step_port d l x i : is_port_direction (direction_at d i) = true ->
  indexed d l x -> indexed d (l ++ [i]) (step d x i).
Proof.
  intros Hd []. pose proof (selectors_step d l x i ix_max0 ix_none0) as Hsel.
  set (y := step d x i) in *. revert Hsel. subst y. unfold step. rewrite Hd.
  pose proof (connections_ports i _ (ports_of d i) Hd (connected_ports_ x) (connected_signals_ x) ∅ ix_ports_four0)
    as [Hf Hp].
  pose proof (connections_signals i (direction_at d i) (ports_of d i) (connected_ports_ x) (connected_signals_ x) ∅) as Hs.
  destruct (foldl _ _ _) as [[ports signals] once]. cbn [fst snd] in Hf, Hp, Hs.
  intros Hsel. split; cbn [connected_ports_ connected_signals_ scope_ports_ last_selectors_] in *.
  - done.
  - by apply push_port_four.
  - intros scope dir Hdir. rewrite ports_at_push, ix_scopes0, filter_snoc by done. done.
  - intros s dir Hdir H0s. rewrite Hp, ix_ports0, filter_snoc by done. unfold connected_port.
    rewrite (bool_decide_ext (0 <= s /\ s ∉ (∅ : gset Z) /\ s ∈ other_end i <$> ports_of d i)
               (s ∈ other_end i <$> ports_of d i)); [done|]. set_solver.
  - intros s t. rewrite Hs, ix_signals0, linked_snoc, linked_one by done. done.
  - intros base v Hv. specialize (Hsel base). by rewrite Hv in Hsel.
  - intros base Hv. specialize (Hsel base). by rewrite Hv in Hsel.
  - intros scope s dir Hdir. rewrite ports_at_push, Hp by done. destruct (ix_no_port0 scope s dir Hdir) as [-> ->].
    rewrite !(bool_decide_false (direction_at d i = dir)) by congruence. done.
  - intros s dir Hs0. rewrite Hp, ix_negative0 by done.
    rewrite (bool_decide_false (0 <= s /\ _)) by lia. by rewrite andb_false_r.
Qed.

Lemma indexed_step_other d l x i : is_port_direction (direction_at d i) = false ->
  indexed d l x -> indexed d (l ++ [i]) (step d x i).
Proof.
  intros Hd []. pose proof (selectors_step d l x i ix_max0 ix_none0) as Hsel.
  revert Hsel. unfold step. rewrite Hd. intros Hsel.
  split; cbn [connected_ports_ connected_signals_ scope_ports_ last_selectors_] in *; try done.
  - intros scope dir Hdir. rewrite ix_scopes0, filter_snoc by done. unfold scope_port at 3.
    rewrite other_direction by done. by rewrite app_nil_r.
  - intros s dir Hdir H0s. rewrite ix_ports0, filter_snoc by done. unfold connected_port at 3.
    rewrite other_direction by done. by rewrite app_nil_r.
  - intros s t. rewrite ix_signals0, linked_snoc. split; [by left|]. intros [?|Hl]; [done|].
    destruct Hl as (_ & _ & k & c & ->%list_elem_of_singleton & Hk & _). congruence.
  - intros base v Hv. specialize (Hsel base). by rewrite Hv in Hsel.
  - intros base Hv. specialize (Hsel base). by rewrite Hv in Hsel.
Qed.

Lemma indexed_initial d n : indexed d [] (MkDQI ∅ ∅ ∅ ∅ n 0).
Proof.
  split; cbn [connected_ports_ connected_signals_ scope_ports_ last_selectors_]; try apply four_empty; try done.
  - intros s t. rewrite lookup_empty. cbn. split; [by intros []%elem_of_nil|].
    intros (_ & _ & k & c & []%elem_of_nil & _).
  - intros base _ w (k & []%elem_of_nil & _).
Qed.

Lemma indexed_foldl d n l : indexed d l (foldl (step d) (MkDQI ∅ ∅ ∅ ∅ n 0) l).
Proof.
  induction l as [|i l IH] using rev_ind; [apply indexed_initial|]. rewrite foldl_app. cbn [foldl].
  destruct (is_port_direction (direction_at d i)) eqn:E; [by apply indexed_step_port|by apply indexed_step_other].
Qed.

End Loop.

(** ** Correctness *)

Section Correct.
Context {D : Type} `{DesignBackendLaws D}.

(** What the queries of an index answer on a backend: a scan of its signals. *)
Definition index_answers (d : D) (x : DesignQueryIndex) : Prop :=
  let all := seqZ 0 (db_signal_count d) in
  (forall scope direction, ports_in_scope x scope direction =
     if is_port_direction direction then List.filter (scope_port d scope direction) all else []) /\
  (forall signal direction, ports_connected_to x signal direction =
     if is_port_direction direction && (0 <=? signal)
     then List.filter (connected_port d signal direction) all else []) /\
  (forall s, StronglySorted Z.lt (connected_signals x s) /\
     forall t, t ∈ connected_signals x s <-> linked d all s t) /\
  (forall base, match last_materialized_selector x base with
     | Some v => selects d all base v /\ forall w, selects d all base w -> w <= v
     | None => forall w, ~ selects d all base w
     end).

Lemma new_index_foldl (d : D) : db_ok d ->
  exists x, indexed d (seqZ 0 (db_signal_count d)) x /\
    new_index d = Ret (MkDQI (connected_ports_ x) (sort_unique <$> connected_signals_ x) (scope_ports_ x)
                         (last_selectors_ x) (signals_scanned x) (port_records_scanned x)).
Proof.
  intros Hd. eexists. split; [apply indexed_foldl|]. unfold new_index.
  destruct (Z.lt_ge_cases (db_signal_count d) 0) as [Hc|Hc].
  - rewrite Z2Nat.nonpos, (seqZ_nil 0 (db_signal_count d)) by lia. done.
  - rewrite index_signals_foldl by (done || lia). by rewrite Z2Nat.id by lia.
Qed.

(** C16: the trace index is exact. On any backend whose reads are defined for
    the signals below its count, building the index is defined, and then the
    ports of a scope or of a connected signal with a direction are those a
    scan finds, in index order, the neighbours of a signal are listed
    increasing and without repetition and are exactly the signals some port
    record joins to it, and the last selector of a base is the largest
    numeric index among the names that select from it. *)
Theorem design_index_exact (d : D) : db_ok d ->
  exists x, new_index d = Ret x /\ index_answers d x.
Proof.
  intros Hd. destruct (new_index_foldl d Hd) as (x & [] & ->). eexists. split; [done|].
  unfold index_answers, ports_in_scope, ports_connected_to, connected_signals, last_materialized_selector.
  cbn [connected_ports_ connected_signals_ scope_ports_ last_selectors_]. split_and!.
  - intros scope dir. destruct (is_port_direction dir) eqn:E; [by apply ix_scopes0|].
    by apply (ix_no_port0 scope 0).
  - intros s dir. destruct (is_port_direction dir) eqn:E; [|by apply (ix_no_port0 [] s)]. cbn [andb].
    destruct (Z.leb_spec 0 s); [by apply ix_ports0|by apply ix_negative0].
  - intros s. rewrite lookup_fmap. setoid_rewrite <- ix_signals0.
    destruct (connected_signals_ x !! s); cbn; [apply sort_unique_spec|]. split; [constructor|done].
  - intros base. destruct (last_selectors_ x !! base) eqn:E; eauto.
Qed.
End Correct.

(** ** The binary database as backend *)

#[export] Instance binary_design_backend : DesignBackend BinaryDesignBackend := {
  db_signal_count := signal_count;
  db_signal_name := signal_name;
  db_signal_direction := signal_direction;
  db_port_connections := port_connections;
}.

#[export] Instance binary_design_laws : DesignBackendLaws BinaryDesignBackend.
Proof.
  refine {| db_ok := bd_inv |}; cbn [db_signal_count db_signal_name db_signal_direction db_port_connections
    binary_design_backend]; intros b i Hb Hi; pose proof (queries_safe b i Hb) as Hq;
    destruct (valid_signal b i); (eauto || destruct Hq as (?&?&?&?&?&?&?&?&?); unfold Ok in *; naive_solver eauto).
Defined.

Lemma design_index_exact_witness :
  exists x, new_index (Some (demo_design, demo_header)) = Ret x /\ index_answers (Some (demo_design, demo_header)) x.
Proof. apply (design_index_exact (D := BinaryDesignBackend)). exact demo_design_valid. Defined.

(** Selectors and scopes of names. *)
Example final_numeric_selector_cases :
  final_numeric_selector (lit "TOP.mem[12]") = Some (lit "TOP.mem", 12) /\
  final_numeric_selector (lit "TOP.mem[1:0]") = None /\
  final_numeric_selector (lit "[3]") = None /\
  final_numeric_selector (lit "a[9223372036854775808]") = None /\
  scope_of (lit "TOP.u.clk") = lit "TOP.u".
Proof. vm_compute. repeat split. Qed.
