(* ===== verification/SessionTypes.v ===== *)
(** * SessionTypes: session records, names and paths

    Models [src/core/session/session_types.{h,cpp}] and
    [src/core/common/path_utils.cpp]: the [SessionInfo] record shared by the
    registry, the endpoint document and the session service, the rule for
    session names, and the deterministic mapping from a session id to its
    directory. The environment ([HOME], [XVERIF_TEST_TMPDIR], the user id) is
    an explicit argument; the [mkdir] calls of [temporary_dir] are ignored,
    since their result is. *)

From S2P Require Import Prelude CLib.

Open Scope Z_scope.

(** ** Data *)

Inductive DatabaseKind := Fsdb | Daidir | Combined.
#[export] Instance DatabaseKind_eq_dec : EqDecision DatabaseKind.
Proof. solve_decision. Defined.

Record SessionInfo := MkSession {
  session_id : bytes;
  generation : bytes;
  lifecycle_state : bytes;
  transport : bytes;
  si_socket_path : bytes;
  file_dir : bytes;
  host : bytes;
  bind_host : bytes;
  port : Z;
  server_host : bytes;
  auth_token : bytes;
  ownership_token_hash : bytes;
  server_pid : Z;
  created_at : Z;
  last_active : Z;
  dbdir_path : bytes;
  design_db_format : bytes;
  dbdir_mtime : Z;
  dbdir_size : Z;
  dbdir_dev : Z;
  dbdir_inode : Z;
  fsdb_file : bytes;
  fsdb_mtime : Z;
  fsdb_size : Z;
  fsdb_dev : Z;
  fsdb_inode : Z;
}.

(** The value-initialized [SessionInfo]. *)
Definition empty_session : SessionInfo :=
  MkSession [] [] [] [] [] [] [] [] 0 [] [] [] 0 0 0 [] [] 0 0 0 0 [] 0 0 0 0.

(** [std::string::empty] *)
Definition str_empty (s : bytes) : bool := match s with [] => true | _ => false end.

Lemma str_empty_true s : str_empty s = true <-> s = [].
Proof. by destruct s. Qed.
Lemma str_empty_false s : str_empty s = false <-> s <> [].
Proof. by destruct s. Qed.

Definition database_kind (s : SessionInfo) : DatabaseKind :=
  if negb (str_empty (dbdir_path s)) && negb (str_empty (fsdb_file s)) then Combined
  else if str_empty (dbdir_path s) then Fsdb else Daidir.

Definition database_kind_name (k : DatabaseKind) : bytes :=
  match k with
  | Fsdb => lit "fsdb"
  | Daidir => lit "daidir"
  | Combined => lit "combined"
  end.

Definition resource_content_matches (expected_mtime expected_size current_mtime current_size : Z) :=
  (expected_mtime =? current_mtime) && (expected_size =? current_size).

Definition resource_identity_differs (expected_dev expected_inode current_dev current_inode : Z) :=
  negb (expected_dev =? current_dev) || negb (expected_inode =? current_inode).

(** ** Session names *)

(** [(c >= 'A' && c <= 'Z') || ... || c == '_'] *)
Definition name_char (c : ascii) : bool := isalpha c || isdigit c || eqc c "_".

Definition is_valid_session_name (session_id : bytes) : bool :=
  match session_id with
  | [] => false
  | first :: _ =>
      if 64 <? zlen session_id then false
      else if negb (isalpha first) then false
      else forallb name_char session_id
  end.

(** ** Directories *)

(** FNV-1a over the bytes, modulo 2^64. *)
Definition stable_path_hash (value : bytes) : Z :=
  foldl (fun hash c => u64 (Z.lxor hash (code c) * 1099511628211)) 1469598103934665603 value.

(** [std::hex << std::nouppercase << z]: no leading zeros, "0" for zero. *)
Definition hex_lower (d : Z) : ascii := if d <? 10 then chr (48 + d) else chr (87 + d).
Fixpoint hex_digits (fuel : nat) (z : Z) (acc : bytes) : bytes :=
  match fuel with
  | O => acc
  | S f => if 0 <? z then hex_digits f (z / 16) (hex_lower (z mod 16) :: acc) else acc
  end.
(** Sixteen digits hold every 64-bit value. *)
Definition hex_print (z : Z) : bytes := if z =? 0 then lit "0" else hex_digits 16 z [].

(** [std::setw(width) << std::setfill('0')] *)
Definition setw_zero (width : nat) (s : bytes) : bytes :=
  replicate (width - length s) "0"%char ++ s.

Definition safe_dir_prefix (session_id : bytes) : bytes :=
  let prefix := map (fun c => if name_char c then c else "_"%char) (take 16 session_id) in
  if str_empty prefix then lit "adhoc" else prefix.

Definition session_dir_name (session_id : bytes) : bytes :=
  safe_dir_prefix session_id ++ lit "_"
    ++ setw_zero 16 (hex_print (stable_path_hash session_id)).

(** The environment variables the paths depend on; an unset variable is the
    empty string, as [env_raw_string] returns it. *)
Record Env := MkEnv { env_HOME : bytes; env_XVERIF_TEST_TMPDIR : bytes; env_uid : Z }.

(** [ToolConfig::home_dir_name] of the engine. *)
Definition engine_home_name : bytes := lit ".xdebug/engine".

Section Paths.
Context (env : Env).

Definition temporary_dir : bytes :=
  if negb (str_empty (env_XVERIF_TEST_TMPDIR env)) then env_XVERIF_TEST_TMPDIR env
  else (if str_empty (env_HOME env) then lit "." else env_HOME env)
         ++ lit "/.xdebug" ++ lit "/tmp".

Definition home_dir : bytes :=
  if str_empty (env_HOME env) then temporary_dir else env_HOME env.

Definition tool_home_dir (home_dir_name : bytes) : bytes :=
  home_dir ++ lit "/" ++ home_dir_name.
Definition tool_sessions_dir (home_dir_name : bytes) : bytes :=
  tool_home_dir home_dir_name ++ lit "/sessions".
Definition tool_session_dir (home_dir_name session_id : bytes) : bytes :=
  tool_sessions_dir home_dir_name ++ lit "/" ++ session_dir_name session_id.
Definition registry_path (home_dir_name : bytes) : bytes :=
  tool_home_dir home_dir_name ++ lit "/registry.json".

Definition short_socket_path (nominal_path : bytes) : bytes :=
  temporary_dir ++ lit "/xdebug-" ++ udec (env_uid env) ++ lit "-"
    ++ hex_print (stable_path_hash nominal_path) ++ lit ".sock".

Definition socket_path (home_dir_name session_id : bytes) : bytes :=
  let nominal := tool_session_dir home_dir_name session_id ++ lit "/socket" in
  if zlen nominal <? 104 then nominal else short_socket_path nominal.

Definition endpoint_path (home_dir_name session_id : bytes) : bytes :=
  tool_session_dir home_dir_name session_id ++ lit "/endpoint.json".
Definition session_json_path (home_dir_name session_id : bytes) : bytes :=
  tool_session_dir home_dir_name session_id ++ lit "/session.json".
End Paths.

(** ** Facts *)

Lemma hex_lower_name d : 0 <= d < 16 -> name_char (hex_lower d) = true.
Proof.
  intros H.
  assert (Hc : forallb (fun n => name_char (hex_lower (Z.of_nat n))) (List.seq 0 16) = true)
    by reflexivity.
  rewrite List.forallb_forall in Hc. specialize (Hc (Z.to_nat d)).
  rewrite Z2Nat.id in Hc by lia. apply Hc, List.in_seq. lia.
Qed.

Lemma hex_digits_name fuel z acc :
  forallb name_char acc = true -> forallb name_char (hex_digits fuel z acc) = true.
Proof.
  revert z acc. induction fuel as [|f IH]; intros z acc Ha; cbn [hex_digits]; [done|].
  case_if; [|done]. apply IH. cbn [forallb]. bsplit; [|done].
  apply hex_lower_name, Z.mod_pos_bound. lia.
Qed.

Lemma hex_digits_length fuel z acc :
  (length (hex_digits fuel z acc) <= fuel + length acc)%nat.
Proof.
  revert z acc. induction fuel as [|f IH]; intros z acc; cbn [hex_digits]; [lia|].
  case_if; [|lia]. etransitivity; [apply IH|]. cbn [length]. lia.
Qed.

Lemma hex_print_name z : forallb name_char (hex_print z) = true.
Proof. unfold hex_print. case_if; [done|]. by apply hex_digits_name. Qed.

Lemma hex_print_length z : (length (hex_print z) <= 16)%nat.
Proof.
  unfold hex_print. case_if; [cbn; lia|]. etransitivity; [apply hex_digits_length|]. cbn; lia.
Qed.

Lemma setw_zero_length w s : (length s <= w)%nat -> length (setw_zero w s) = w.
Proof. intros H. unfold setw_zero. rewrite length_app, length_replicate. lia. Qed.

Lemma safe_dir_prefix_name id :
  forallb name_char (safe_dir_prefix id) = true /\
  (1 <= length (safe_dir_prefix id) <= 16)%nat.
Proof.
  unfold safe_dir_prefix. set (p := map _ _).
  assert (Hp : forallb name_char p = true /\ (length p <= 16)%nat).
  { unfold p. split; [|rewrite length_map, length_take; lia].
    apply List.forallb_forall. intros x [c [<- _]]%List.in_map_iff. by destruct (name_char c) eqn:?. }
  destruct Hp as [Hp Hl]. destruct p as [|c p]; cbn [str_empty]; [split; [reflexivity|cbn; lia]|].
  split; [done|]. cbn [length] in *. lia.
Qed.

Lemma session_dir_name_chars id : forallb name_char (session_dir_name id) = true.
Proof.
  unfold session_dir_name. rewrite !forallb_app. bsplit; [apply safe_dir_prefix_name|done|].
  unfold setw_zero. rewrite forallb_app. bsplit; [by apply forallb_replicate|apply hex_print_name].
Qed.

Lemma session_dir_name_length id : (18 <= length (session_dir_name id) <= 33)%nat.
Proof.
  unfold session_dir_name. rewrite !length_app, setw_zero_length by apply hex_print_length.
  pose proof (proj2 (safe_dir_prefix_name id)). cbn [length lit String.list_ascii_of_string]. lia.
Qed.

Lemma name_char_no_slash s : forallb name_char s = true -> "/"%char ∉ s.
Proof.
  intros H Hin. rewrite List.forallb_forall in H.
  specialize (H "/"%char (proj1 (list_elem_of_In _ _) Hin)). discriminate H.
Qed.
