(* ===== verification/SessionContract.v ===== *)
(** * SessionContract: the persisted session documents

    Models [src/core/session/session_registry_contract.cpp] and
    [src/core/session/session_endpoint_contract.cpp]: the strict JSON forms
    of a session record, of the legacy registry document and of the endpoint
    document. A parser returns the error text or the value; the out-parameter
    of a failed C++ call is not part of the model, since every caller drops
    it. [session_ok] is the independent statement of what a valid record
    is; the theorems relate the parsers to it. *)

From S2P Require Import Prelude CLib Json SessionTypes.

Open Scope Z_scope.

(** ** The error monad *)

#[export] Instance err_bind : MBind (sum bytes) := fun A B f c =>
  match c with inl e => inl e | inr a => f a end.

#[export] Instance err_fmap : FMap (sum bytes) := fun A B f c =>
  match c with inl e => inl e | inr a => inr (f a) end.

(** [if (!b) return fail(error, message);] *)
Definition check (b : bool) (message : bytes) : bytes + unit :=
  if b then inr tt else inl message.

Lemma err_bind_inr {A B} (c : bytes + A) (f : A -> bytes + B) b :
  c ≫= f = inr b -> exists a, c = inr a /\ f a = inr b.
Proof. destruct c; cbn; [done|eauto]. Qed.

Lemma check_inr b m u : check b m = inr u -> b = true.
Proof. unfold check. by destruct b. Qed.

(** Split every step of a successful parse. *)
Ltac err_steps H :=
  repeat (let x := fresh "x" in let E := fresh "E" in
          apply err_bind_inr in H as (x & E & H); try (apply check_inr in E; clear x)).

(** A [std::set<std::string>] given by an initializer list. *)
Definition string_set (l : list bytes) : list bytes := map fst (mfrom (map (fun k => (k, tt)) l)).

(** ** Scalars *)

Definition read_nonnegative_u64 (v : json) : option Z :=
  match v with
  | JUint z => Some z
  | JInt z => if z <? 0 then None else Some z
  | _ => None
  end.

(** [maximum] is [std::numeric_limits<T>::max()]. *)
Definition read_bounded_nonnegative (maximum : Z) (v : json) : option Z :=
  match read_nonnegative_u64 v with
  | Some parsed => if maximum <? parsed then None else Some parsed
  | None => None
  end.

Definition lower_hex (c : ascii) : bool :=
  ((48 <=? code c) && (code c <=? 57)) || ((97 <=? code c) && (code c <=? 102)).

Definition valid_generation (generation : bytes) : bool :=
  if negb (zlen generation =? 64) then false else forallb lower_hex generation.

Definition valid_optional_sha256 (digest : bytes) : bool :=
  if str_empty digest then true
  else if negb (zlen digest =? 64) then false else forallb lower_hex digest.

(** ** Invariants of a record *)

Definition resource_fingerprint_is_zero (mtime size dev inode : Z) : bool :=
  (mtime =? 0) && (size =? 0) && (dev =? 0) && (inode =? 0).

Definition validate_resource_invariants (s : SessionInfo) : bytes + unit :=
  check (negb (str_empty (dbdir_path s) && str_empty (fsdb_file s)))
    (lit "session requires dbdir_path or fsdb_file") ≫= fun _ =>
  check (negb (str_empty (dbdir_path s) && negb (str_empty (design_db_format s))))
    (lit "session without dbdir_path must not carry design_db_format") ≫= fun _ =>
  check (negb (negb (str_empty (dbdir_path s)) && negb (eqs (design_db_format s) (lit "xdd-so"))
               && negb (eqs (design_db_format s) (lit "binary-v1"))))
    (lit "design session requires design_db_format xdd-so or binary-v1") ≫= fun _ =>
  check (negb (str_empty (dbdir_path s)
               && negb (resource_fingerprint_is_zero (dbdir_mtime s) (dbdir_size s)
                          (dbdir_dev s) (dbdir_inode s))))
    (lit "session without dbdir_path must not carry dbdir fingerprint fields") ≫= fun _ =>
  check (negb (str_empty (fsdb_file s)
               && negb (resource_fingerprint_is_zero (fsdb_mtime s) (fsdb_size s)
                          (fsdb_dev s) (fsdb_inode s))))
    (lit "session without fsdb_file must not carry fsdb fingerprint fields").

Definition validate_transport_invariants (s : SessionInfo) : bytes + unit :=
  check (negb (str_empty (server_host s))) (lit "session requires nonempty server_host") ≫= fun _ =>
  if eqs (transport s) (lit "uds") then
    check (negb (str_empty (si_socket_path s))) (lit "uds session requires socket_path") ≫= fun _ =>
    check (negb (negb (str_empty (file_dir s)) || negb (str_empty (host s))
                 || negb (str_empty (bind_host s)) || negb (port s =? 0)
                 || negb (str_empty (auth_token s))))
      (lit "uds session forbids file_dir, host, bind_host, port, and auth_token")
  else if eqs (transport s) (lit "tcp") then
    let active_port := (0 <? port s) && (port s <=? 65535) in
    let pending_ephemeral_port :=
      negb (eqs (lifecycle_state s) (lit "active")) && (port s =? 0) in
    check (negb (str_empty (host s) || str_empty (bind_host s) || str_empty (auth_token s)
                 || (negb active_port && negb pending_ephemeral_port)))
      (lit "tcp session requires host, bind_host, auth_token, and an active port in 1..65535")
    ≫= fun _ =>
    check (negb (negb (str_empty (si_socket_path s)) || negb (str_empty (file_dir s))))
      (lit "tcp session forbids socket_path and file_dir")
  else if eqs (transport s) (lit "file") then
    check (negb (str_empty (file_dir s))) (lit "file session requires file_dir") ≫= fun _ =>
    check (negb (negb (str_empty (si_socket_path s)) || negb (str_empty (host s))
                 || negb (str_empty (bind_host s)) || negb (port s =? 0)
                 || negb (str_empty (auth_token s))))
      (lit "file session forbids socket_path, host, bind_host, port, and auth_token")
  else inl (lit "transport must be uds, tcp, or file").

Definition validate_lifecycle_invariants (s : SessionInfo) : bytes + unit :=
  check (valid_generation (generation s))
    (lit "generation must be 64 lowercase hexadecimal characters") ≫= fun _ =>
  check (negb (negb (eqs (lifecycle_state s) (lit "opening"))
               && negb (eqs (lifecycle_state s) (lit "active"))
               && negb (eqs (lifecycle_state s) (lit "cleanup_failed"))))
    (lit "lifecycle_state must be opening, active, or cleanup_failed") ≫= fun _ =>
  check (negb (eqs (lifecycle_state s) (lit "active") && (server_pid s <=? 0)))
    (lit "active session requires a positive server_pid").

(** ** Records *)

Definition record_fields : list bytes :=
  string_set [
    lit "session_id"; lit "generation"; lit "lifecycle_state";
    lit "transport"; lit "socket_path"; lit "file_dir"; lit "host";
    lit "bind_host"; lit "port"; lit "server_host"; lit "auth_token";
    lit "ownership_token_hash"; lit "dbdir_path";
    lit "design_db_format";
    lit "fsdb_file"; lit "server_pid"; lit "created_at"; lit "last_active";
    lit "dbdir_mtime"; lit "dbdir_size"; lit "dbdir_dev"; lit "dbdir_inode";
    lit "fsdb_mtime"; lit "fsdb_size"; lit "fsdb_dev"; lit "fsdb_inode"].

(** Signed members become [number_integer], unsigned ones [number_unsigned]. *)
Definition session_registry_record_to_json (s : SessionInfo) : json :=
  JObject (mfrom [
    (lit "session_id", JString (session_id s));
    (lit "generation", JString (generation s));
    (lit "lifecycle_state", JString (lifecycle_state s));
    (lit "transport", JString (transport s));
    (lit "socket_path", JString (si_socket_path s));
    (lit "file_dir", JString (file_dir s));
    (lit "host", JString (host s));
    (lit "bind_host", JString (bind_host s));
    (lit "port", JInt (port s));
    (lit "server_host", JString (server_host s));
    (lit "auth_token", JString (auth_token s));
    (lit "ownership_token_hash", JString (ownership_token_hash s));
    (lit "dbdir_path", JString (dbdir_path s));
    (lit "design_db_format", JString (design_db_format s));
    (lit "fsdb_file", JString (fsdb_file s));
    (lit "server_pid", JInt (server_pid s));
    (lit "created_at", JInt (created_at s));
    (lit "last_active", JInt (last_active s));
    (lit "dbdir_mtime", JInt (dbdir_mtime s));
    (lit "dbdir_size", JInt (dbdir_size s));
    (lit "dbdir_dev", JUint (dbdir_dev s));
    (lit "dbdir_inode", JUint (dbdir_inode s));
    (lit "fsdb_mtime", JInt (fsdb_mtime s));
    (lit "fsdb_size", JInt (fsdb_size s));
    (lit "fsdb_dev", JUint (fsdb_dev s));
    (lit "fsdb_inode", JUint (fsdb_inode s))]).

(** [value[field].get<std::string>()] on a field already known to be a string. *)
Definition get_string (v : json) (field : bytes) : bytes :=
  match jat field v with JString s => s | _ => [] end.

(** [if (!read_bounded_nonnegative(value[field], out)) return fail(error, message);] *)
Definition read_field (maximum : Z) (v : json) (field message : bytes) : bytes + Z :=
  match read_bounded_nonnegative maximum (jat field v) with
  | Some z => inr z
  | None => inl message
  end.

Definition string_fields : list bytes :=
  [lit "session_id"; lit "generation"; lit "lifecycle_state";
   lit "transport"; lit "socket_path"; lit "file_dir"; lit "host";
   lit "bind_host"; lit "server_host"; lit "auth_token";
   lit "ownership_token_hash"; lit "dbdir_path";
   lit "fsdb_file"; lit "design_db_format"].

(** The two loops of the parser: the first field, in order, that the check
    refuses, skipping [design_db_format] for a legacy record. *)
Definition first_refused (legacy : bool) (accept : bytes -> bool) (fields : list bytes)
  : option bytes :=
  List.find (fun field => negb (legacy && eqs field (lit "design_db_format"))
                          && negb (accept field)) fields.

Definition session_registry_record_from_json (v : json) : bytes + SessionInfo :=
  check (is_object v) (lit "session record must be an object") ≫= fun _ =>
  let legacy_without_format :=
    (S (jsize v) =? length record_fields)%nat && negb (jcontains (lit "design_db_format") v) in
  check ((jsize v =? length record_fields)%nat || legacy_without_format)
    (lit "session record fields do not match schema version 3") ≫= fun _ =>
  match first_refused legacy_without_format (fun f => jcontains f v) record_fields with
  | Some field => inl (lit "session record is missing field: " ++ field)
  | None =>
  match first_refused legacy_without_format (fun f => is_string (jat f v)) string_fields with
  | Some field => inl (lit "session field must be string: " ++ field)
  | None =>
  read_field int_max v (lit "port") (lit "session port must be in range 0..65535") ≫= fun port_ =>
  check (negb (65535 <? port_)) (lit "session port must be in range 0..65535") ≫= fun _ =>
  read_field int_max v (lit "server_pid") (lit "session server_pid is out of range") ≫= fun pid =>
  read_field i64_max v (lit "created_at") (lit "session created_at is out of range") ≫= fun created =>
  read_field i64_max v (lit "last_active") (lit "session last_active is out of range") ≫= fun active =>
  read_field i64_max v (lit "dbdir_mtime") (lit "session dbdir_mtime is out of range") ≫= fun dm =>
  read_field i64_max v (lit "dbdir_size") (lit "session dbdir_size is out of range") ≫= fun ds =>
  read_field u64_max v (lit "dbdir_dev") (lit "session dbdir_dev is out of range") ≫= fun dd =>
  read_field u64_max v (lit "dbdir_inode") (lit "session dbdir_inode is out of range") ≫= fun di =>
  read_field i64_max v (lit "fsdb_mtime") (lit "session fsdb_mtime is out of range") ≫= fun fm =>
  read_field i64_max v (lit "fsdb_size") (lit "session fsdb_size is out of range") ≫= fun fs =>
  read_field u64_max v (lit "fsdb_dev") (lit "session fsdb_dev is out of range") ≫= fun fd =>
  read_field u64_max v (lit "fsdb_inode") (lit "session fsdb_inode is out of range") ≫= fun fi =>
  let s := {|
    session_id := get_string v (lit "session_id");
    generation := get_string v (lit "generation");
    lifecycle_state := get_string v (lit "lifecycle_state");
    transport := get_string v (lit "transport");
    si_socket_path := get_string v (lit "socket_path");
    file_dir := get_string v (lit "file_dir");
    host := get_string v (lit "host");
    bind_host := get_string v (lit "bind_host");
    port := port_;
    server_host := get_string v (lit "server_host");
    auth_token := get_string v (lit "auth_token");
    ownership_token_hash := get_string v (lit "ownership_token_hash");
    server_pid := pid;
    created_at := created;
    last_active := active;
    dbdir_path := get_string v (lit "dbdir_path");
    design_db_format :=
      if legacy_without_format then [] else get_string v (lit "design_db_format");
    dbdir_mtime := dm; dbdir_size := ds; dbdir_dev := dd; dbdir_inode := di;
    fsdb_file := get_string v (lit "fsdb_file");
    fsdb_mtime := fm; fsdb_size := fs; fsdb_dev := fd; fsdb_inode := fi |} in
  check (is_valid_session_name (session_id s)) (lit "session_id is invalid") ≫= fun _ =>
  check (valid_optional_sha256 (ownership_token_hash s))
    (lit "ownership_token_hash must be empty or 64 lowercase hexadecimal characters") ≫= fun _ =>
  check (negb (legacy_without_format && negb (str_empty (dbdir_path s))))
    (lit "legacy design session lacks design_db_format and must be reopened") ≫= fun _ =>
  validate_lifecycle_invariants s ≫= fun _ =>
  validate_resource_invariants s ≫= fun _ =>
  validate_transport_invariants s ≫= fun _ =>
  inr s
  end
  end.

(** ** Documents *)

(** The loop over [value["sessions"]]; [ids] are the ids inserted so far. *)
Fixpoint read_sessions (index : Z) (ids : list bytes) (items : list json)
  : bytes + list SessionInfo :=
  match items with
  | [] => inr []
  | item :: items' =>
      match session_registry_record_from_json item with
      | inl record_error => inl (lit "sessions[" ++ to_string index ++ lit "]: " ++ record_error)
      | inr s =>
          if existsb (eqs (session_id s)) ids
          then inl (lit "duplicate session_id: " ++ session_id s)
          else (fun l => s :: l) <$> read_sessions (index + 1) (session_id s :: ids) items'
      end
  end.

Definition session_registry_document_from_json (v : json) : bytes + list SessionInfo :=
  check (is_object v && (jsize v =? 2)%nat && jcontains (lit "version") v
         && match read_nonnegative_u64 (jat (lit "version") v) with
            | Some version => version =? 2
            | None => false
            end
         && jcontains (lit "sessions") v && is_array (jat (lit "sessions") v))
    (lit "registry must match schema version 2") ≫= fun _ =>
  match jat (lit "sessions") v with
  | JArray items => read_sessions 0 [] items
  | _ => inl []
  end.

Fixpoint write_sessions (ids : list bytes) (sessions : list SessionInfo) : bytes + list json :=
  match sessions with
  | [] => inr []
  | s :: sessions' =>
      if existsb (eqs (session_id s)) ids
      then inl (lit "duplicate session_id: " ++ session_id s)
      else
        let record := session_registry_record_to_json s in
        match session_registry_record_from_json record with
        | inl record_error => inl (lit "session " ++ session_id s ++ lit ": " ++ record_error)
        | inr _ => (fun l => record :: l) <$> write_sessions (session_id s :: ids) sessions'
        end
  end.

Definition session_registry_document_to_json (sessions : list SessionInfo) : bytes + json :=
  write_sessions [] sessions ≫= fun records =>
  inr (JObject (mfrom [(lit "version", JInt 2); (lit "sessions", JArray records)])).

(** ** Endpoint documents *)

Definition has_exact_fields (v : json) (fields : list bytes) : bool :=
  is_object v && (jsize v =? length (string_set fields))%nat
  && forallb (fun f => jcontains f v) (string_set fields).

Definition require_nonempty_string (v : json) (field : bytes) : bytes + bytes :=
  match jat field v with
  | JString s =>
      if str_empty s then inl (lit "endpoint field must be a nonempty string: " ++ field) else inr s
  | _ => inl (lit "endpoint field must be a nonempty string: " ++ field)
  end.

Definition validate_common (endpoint : SessionInfo) : bytes + unit :=
  check (is_valid_session_name (session_id endpoint)) (lit "endpoint session_id is invalid")
  ≫= fun _ =>
  check (negb (str_empty (server_host endpoint))) (lit "endpoint server_host must be nonempty").

Definition session_endpoint_document_to_json (endpoint : SessionInfo) : bytes + json :=
  validate_common endpoint ≫= fun _ =>
  (if eqs (transport endpoint) (lit "uds") then
     check (negb (str_empty (si_socket_path endpoint))) (lit "uds endpoint requires socket_path")
     ≫= fun _ =>
     inr [(lit "transport", JString (lit "uds"));
          (lit "socket_path", JString (si_socket_path endpoint));
          (lit "server_host", JString (server_host endpoint))]
   else if eqs (transport endpoint) (lit "tcp") then
     check (negb (str_empty (host endpoint) || str_empty (bind_host endpoint)
                  || str_empty (auth_token endpoint) || (port endpoint <=? 0)
                  || (65535 <? port endpoint)))
       (lit "tcp endpoint requires host, bind_host, auth_token, and port in 1..65535") ≫= fun _ =>
     inr [(lit "transport", JString (lit "tcp"));
          (lit "host", JString (host endpoint));
          (lit "bind_host", JString (bind_host endpoint));
          (lit "port", JInt (port endpoint));
          (lit "server_host", JString (server_host endpoint));
          (lit "auth_token", JString (auth_token endpoint))]
   else if eqs (transport endpoint) (lit "file") then
     check (negb (str_empty (file_dir endpoint))) (lit "file endpoint requires file_dir") ≫= fun _ =>
     inr [(lit "transport", JString (lit "file"));
          (lit "file_dir", JString (file_dir endpoint));
          (lit "server_host", JString (server_host endpoint))]
   else inl (lit "endpoint transport must be uds, tcp, or file")) ≫= fun fields =>
  inr (JObject (mfrom [(lit "version", JInt 1); (lit "endpoint", JObject (mfrom fields))])).

(** [get<int>()] of an integer number: [static_cast<int>] of the stored
    64-bit value, which never throws. *)
Definition get_int (v : json) : option Z :=
  match v with JInt z | JUint z => Some (i32 z) | _ => None end.

(** A [SessionInfo] with only the endpoint members set. *)
Definition endpoint_info (id transport_ socket dir host_ bind : bytes) (port_ : Z)
    (server token : bytes) : SessionInfo :=
  {| session_id := id; generation := []; lifecycle_state := []; transport := transport_;
     si_socket_path := socket; file_dir := dir; host := host_; bind_host := bind; port := port_;
     server_host := server; auth_token := token; ownership_token_hash := [];
     server_pid := 0; created_at := 0; last_active := 0;
     dbdir_path := []; design_db_format := [];
     dbdir_mtime := 0; dbdir_size := 0; dbdir_dev := 0; dbdir_inode := 0;
     fsdb_file := []; fsdb_mtime := 0; fsdb_size := 0; fsdb_dev := 0; fsdb_inode := 0 |}.

Definition session_endpoint_document_from_json (v : json) (expected_session_id : bytes)
  : bytes + SessionInfo :=
  check (is_valid_session_name expected_session_id)
    (lit "expected endpoint session_id is invalid") ≫= fun _ =>
  check (has_exact_fields v [lit "version"; lit "endpoint"]
         && match get_int (jat (lit "version") v) with Some n => n =? 1 | None => false end
         && is_object (jat (lit "endpoint") v))
    (lit "endpoint document must match schema version 1") ≫= fun _ =>
  let fields := jat (lit "endpoint") v in
  check (jcontains (lit "transport") fields && is_string (jat (lit "transport") fields))
    (lit "endpoint transport must be a string") ≫= fun _ =>
  let transport_ := get_string fields (lit "transport") in
  if eqs transport_ (lit "uds") then
    check (has_exact_fields fields [lit "transport"; lit "socket_path"; lit "server_host"])
      (lit "uds endpoint fields do not match schema version 1") ≫= fun _ =>
    require_nonempty_string fields (lit "socket_path") ≫= fun socket =>
    require_nonempty_string fields (lit "server_host") ≫= fun server =>
    inr (endpoint_info expected_session_id transport_ socket [] [] [] 0 server [])
  else if eqs transport_ (lit "tcp") then
    check (has_exact_fields fields [lit "transport"; lit "host"; lit "bind_host"; lit "port";
                                    lit "server_host"; lit "auth_token"])
      (lit "tcp endpoint fields do not match schema version 1") ≫= fun _ =>
    require_nonempty_string fields (lit "host") ≫= fun host_ =>
    require_nonempty_string fields (lit "bind_host") ≫= fun bind =>
    require_nonempty_string fields (lit "server_host") ≫= fun server =>
    require_nonempty_string fields (lit "auth_token") ≫= fun token =>
    match get_int (jat (lit "port") fields) with
    | None => inl (lit "endpoint port must be an integer in 1..65535")
    | Some port_ =>
        check (negb ((port_ <=? 0) || (65535 <? port_)))
          (lit "endpoint port must be an integer in 1..65535") ≫= fun _ =>
        inr (endpoint_info expected_session_id transport_ [] [] host_ bind port_ server token)
    end
  else if eqs transport_ (lit "file") then
    check (has_exact_fields fields [lit "transport"; lit "file_dir"; lit "server_host"])
      (lit "file endpoint fields do not match schema version 1") ≫= fun _ =>
    require_nonempty_string fields (lit "file_dir") ≫= fun dir =>
    require_nonempty_string fields (lit "server_host") ≫= fun server =>
    inr (endpoint_info expected_session_id transport_ [] dir [] [] 0 server [])
  else inl (lit "endpoint transport must be uds, tcp, or file").

(** ** What a valid session record is *)

Definition session_name_ok (id : bytes) : Prop :=
  exists first rest, id = first :: rest /\ isalpha first = true /\
    Forall (fun c => name_char c = true) rest /\ zlen id <= 64.

Definition hex64 (s : bytes) : Prop :=
  zlen s = 64 /\ Forall (fun c => c ∈ lit "0123456789abcdef") s.

Inductive lifecycle_ok (s : SessionInfo) : Prop :=
| opening_ok : lifecycle_state s = lit "opening" -> lifecycle_ok s
| active_ok : lifecycle_state s = lit "active" -> 0 < server_pid s -> lifecycle_ok s
| cleanup_failed_ok : lifecycle_state s = lit "cleanup_failed" -> lifecycle_ok s.

Record resource_ok (s : SessionInfo) : Prop := {
  res_some : dbdir_path s <> [] \/ fsdb_file s <> [];
  res_no_design : dbdir_path s = [] ->
    design_db_format s = [] /\ dbdir_mtime s = 0 /\ dbdir_size s = 0 /\
    dbdir_dev s = 0 /\ dbdir_inode s = 0;
  res_design : dbdir_path s <> [] -> design_db_format s ∈ [lit "xdd-so"; lit "binary-v1"];
  res_no_wave : fsdb_file s = [] ->
    fsdb_mtime s = 0 /\ fsdb_size s = 0 /\ fsdb_dev s = 0 /\ fsdb_inode s = 0;
}.

Inductive transport_ok (s : SessionInfo) : Prop :=
| uds_ok : transport s = lit "uds" -> si_socket_path s <> [] ->
    file_dir s = [] -> host s = [] -> bind_host s = [] -> port s = 0 -> auth_token s = [] ->
    transport_ok s
| tcp_ok : transport s = lit "tcp" -> host s <> [] -> bind_host s <> [] -> auth_token s <> [] ->
    (0 < port s <= 65535 \/ lifecycle_state s <> lit "active" /\ port s = 0) ->
    si_socket_path s = [] -> file_dir s = [] -> transport_ok s
| file_ok : transport s = lit "file" -> file_dir s <> [] ->
    si_socket_path s = [] -> host s = [] -> bind_host s = [] -> port s = 0 -> auth_token s = [] ->
    transport_ok s.

Record ranges_ok (s : SessionInfo) : Prop := {
  range_port : 0 <= port s <= 65535;
  range_pid : 0 <= server_pid s <= int_max;
  range_created : 0 <= created_at s <= i64_max;
  range_active : 0 <= last_active s <= i64_max;
  range_dm : 0 <= dbdir_mtime s <= i64_max;
  range_ds : 0 <= dbdir_size s <= i64_max;
  range_dd : 0 <= dbdir_dev s <= u64_max;
  range_di : 0 <= dbdir_inode s <= u64_max;
  range_fm : 0 <= fsdb_mtime s <= i64_max;
  range_fs : 0 <= fsdb_size s <= i64_max;
  range_fd : 0 <= fsdb_dev s <= u64_max;
  range_fi : 0 <= fsdb_inode s <= u64_max;
}.

Record session_ok (s : SessionInfo) : Prop := {
  ok_name : session_name_ok (session_id s);
  ok_generation : hex64 (generation s);
  ok_owner : ownership_token_hash s = [] \/ hex64 (ownership_token_hash s);
  ok_ranges : ranges_ok s;
  ok_lifecycle : lifecycle_ok s;
  ok_resource : resource_ok s;
  ok_server : server_host s <> [];
  ok_transport : transport_ok s;
}.

(** ** The checks decide it *)

(** Turn boolean string and integer tests into propositions. *)
Ltac sbool :=
  repeat first
    [ progress bsplit
    | match goal with
      | H : eqs _ _ = true |- _ => apply eqs_true in H
      | H : eqs _ _ = false |- _ => apply eqs_false in H
      | H : str_empty _ = true |- _ => apply str_empty_true in H
      | H : str_empty _ = false |- _ => apply str_empty_false in H
      | H : (_ =? _) = true |- _ => apply Z.eqb_eq in H
      | H : (_ =? _) = false |- _ => apply Z.eqb_neq in H
      | H : (_ <? _) = false |- _ => apply Z.ltb_ge in H
      | H : (_ <? _) = true |- _ => apply Z.ltb_lt in H
      | H : (_ <=? _) = false |- _ => apply Z.leb_gt in H
      | H : (_ <=? _) = true |- _ => apply Z.leb_le in H
      | H : check _ _ = inr _ |- _ => apply check_inr in H
      end ].

(** The same, with a case for each branch of a refuted conjunction. *)
Ltac scases :=
  sbool;
  repeat (match goal with
          | H : _ && _ = false |- _ => apply andb_false_iff in H as [H|H]
          | H : _ || _ = true |- _ => apply orb_true_iff in H as [H|H]
          end; sbool).

(** Evaluate the string tests the context decides. *)
Ltac seval :=
  repeat match goal with
  | H : ?x <> [] |- context [str_empty ?x] => rewrite (proj2 (str_empty_false x) H)
  | H : ?x = [] |- context [?x] => rewrite H
  | H : ?x = 0 |- context [?x] => rewrite H
  end; cbn [negb andb orb str_empty Z.eqb].

(** Decide the comparisons of two literals. *)
Ltac lit_eqs :=
  repeat match goal with
  | |- context [eqs (lit ?a) (lit ?b)] =>
      let r := eval vm_compute in (eqs (lit a) (lit b)) in change (eqs (lit a) (lit b)) with r
  end; cbv beta iota zeta.

Lemma valid_name_iff id : is_valid_session_name id = true <-> session_name_ok id.
Proof.
  unfold is_valid_session_name, session_name_ok. destruct id as [|c rest].
  { split; [done|]. by intros (? & ? & ? & _). }
  split.
  - case_if; [done|]. case_if; [done|]. cbn [forallb]. intros H. sbool.
    exists c, rest. split; [done|]. split; [done|]. split; [by apply forallb_Forall|lia].
  - intros (c' & r' & [= <- <-] & Hc & Hr & Hl).
    rewrite (proj2 (Z.ltb_ge _ _) Hl), Hc. cbn [negb forallb]. bsplit.
    + unfold name_char. by rewrite Hc.
    + by apply forallb_Forall.
Qed.

Lemma lower_hex_iff c : lower_hex c = true <-> c ∈ lit "0123456789abcdef".
Proof.
  rewrite <- (bool_decide_eq_true (c ∈ lit "0123456789abcdef")).
  assert (E : lower_hex c = bool_decide (c ∈ lit "0123456789abcdef")); [|by rewrite E].
  apply Bool.eqb_prop. revert c.
  apply (ascii_forall (fun c => Bool.eqb (lower_hex c) (bool_decide (c ∈ lit "0123456789abcdef")))).
  ascii_dec_solve.
Qed.

Lemma forallb_lower_hex s : forallb lower_hex s = true <-> Forall (fun c => c ∈ lit "0123456789abcdef") s.
Proof.
  rewrite forallb_Forall. split; intros H; eapply Forall_impl; eauto; intros x; apply lower_hex_iff.
Qed.

Lemma valid_generation_iff g : valid_generation g = true <-> hex64 g.
Proof.
  unfold valid_generation, hex64. rewrite <- forallb_lower_hex, <- Z.eqb_eq.
  destruct (zlen g =? 64); cbn [negb]; [tauto|]. split; [done|]. by intros [? _].
Qed.

Lemma valid_optional_sha256_iff d : valid_optional_sha256 d = true <-> d = [] \/ hex64 d.
Proof.
  rewrite <- valid_generation_iff. unfold valid_optional_sha256, valid_generation.
  destruct d as [|c d]; cbn [str_empty]; [tauto|]. split; [tauto|]. intros [?|?]; done.
Qed.

Lemma check_iff b m : check b m = inr tt <-> b = true.
Proof. unfold check. by destruct b. Qed.

Lemma err_bind_check b m {A} (f : unit -> bytes + A) a :
  check b m ≫= f = inr a <-> b = true /\ f tt = inr a.
Proof. unfold check. destruct b; cbn; [tauto|]. split; [done|]. by intros [? _]. Qed.

Lemma validate_lifecycle_iff s :
  validate_lifecycle_invariants s = inr tt <-> hex64 (generation s) /\ lifecycle_ok s.
Proof.
  unfold validate_lifecycle_invariants. rewrite !err_bind_check, check_iff, valid_generation_iff.
  split.
  - intros (Hg & Ha & Hb). split; [done|].
    scases; try congruence; first [by constructor 1|by constructor 3|by constructor 2].
  - intros [Hg HL]. split; [done|].
    destruct HL as [->| -> Hp| ->]; rewrite ?eqs_refl; [done| |done].
    split; [done|]. by rewrite (proj2 (Z.leb_gt _ _) Hp).
Qed.

Lemma fingerprint_zero_iff a b c d :
  resource_fingerprint_is_zero a b c d = true <-> a = 0 /\ b = 0 /\ c = 0 /\ d = 0.
Proof.
  unfold resource_fingerprint_is_zero. rewrite !andb_true_iff, !Z.eqb_eq. tauto.
Qed.

Lemma validate_resource_iff s : validate_resource_invariants s = inr tt <-> resource_ok s.
Proof.
  unfold validate_resource_invariants. rewrite !err_bind_check, check_iff. split.
  - intros (H1 & H2 & H3 & H4 & H5).
    split; intros; scases; try congruence; auto;
      repeat match goal with H : resource_fingerprint_is_zero _ _ _ _ = true |- _ =>
               apply fingerprint_zero_iff in H end; rewrite ?elem_of_cons, ?list_elem_of_singleton; tauto.
  - intros [Ha Hb Hc Hd].
    destruct (dbdir_path s) as [|c p] eqn:Ed.
    + destruct (Hb eq_refl) as (-> & -> & -> & -> & ->). destruct Ha as [Ha|Ha]; [done|].
      rewrite (proj2 (str_empty_false _) Ha). cbn. tauto.
    + cbn [str_empty negb andb]. assert (Hf : c :: p <> []) by done. specialize (Hc Hf).
      split; [done|]. split; [done|]. split.
      * apply elem_of_cons in Hc as [->|Hc]; [done|].
        apply list_elem_of_singleton in Hc as ->. done.
      * split; [done|]. destruct (fsdb_file s) eqn:Ef; [|done].
        destruct (Hd eq_refl) as (-> & -> & -> & ->). done.
Qed.

Lemma validate_transport_iff s :
  validate_transport_invariants s = inr tt <-> server_host s <> [] /\ transport_ok s.
Proof.
  unfold validate_transport_invariants. rewrite err_bind_check.
  rewrite negb_true_iff, str_empty_false. split.
  - intros [Hs H]. split; [done|].
    destruct (eqs (transport s) (lit "uds")) eqn:E1; [|destruct (eqs (transport s) (lit "tcp")) eqn:E2;
      [|destruct (eqs (transport s) (lit "file")) eqn:E3; [|done]]];
      apply err_bind_check in H as [H1 H2]; sbool; scases; try congruence; try lia;
      try (by constructor 1); try (by constructor 3);
      (constructor 2; [done..| |done|done]; first [left; lia|right; done]).
  - intros [Hs HT]. split; [done|].
    destruct HT as [-> Hp ? ? ? ? ?| -> Hh Hb Ha Hp ? ?| -> Hp ? ? ? ? ?]; lit_eqs;
      apply err_bind_check; seval; [done| |done]. split; [|done].
    destruct Hp as [Hp|[Hl Hp]].
    + rewrite (proj2 (Z.ltb_lt _ _)), (proj2 (Z.leb_le _ _)) by lia. done.
    + rewrite Hp, (proj2 (eqs_false _ _) Hl). done.
Qed.

Lemma read_nonnegative_range v z :
  json_wf v = true -> read_nonnegative_u64 v = Some z -> 0 <= z <= u64_max.
Proof.
  destruct v; cbn [read_nonnegative_u64 json_wf]; try done; intros Hw H; bsplit; sbool.
  - case_if_in H; simplify_eq. sbool. unfold u64_max, i64_max in *. lia.
  - simplify_eq. lia.
Qed.

Lemma read_field_range max v f m z :
  json_wf v = true -> read_field max v f m = inr z -> 0 <= z <= max.
Proof.
  intros Hw. unfold read_field, read_bounded_nonnegative.
  destruct (read_nonnegative_u64 (jat f v)) as [p|] eqn:E; [|done].
  apply read_nonnegative_range in E; [|by apply json_wf_at].
  destruct (Z.ltb_spec max p); [done|]. intros [= <-]. lia.
Qed.

Lemma read_field_to max v f m z :
  0 <= z <= max -> jat f v = JInt z \/ jat f v = JUint z -> read_field max v f m = inr z.
Proof.
  intros Hz Hj. unfold read_field, read_bounded_nonnegative.
  assert (read_nonnegative_u64 (jat f v) = Some z) as ->.
  { destruct Hj as [-> | ->]; cbn [read_nonnegative_u64]; [|done].
    by rewrite (proj2 (Z.ltb_ge z 0)) by lia. }
  by rewrite (proj2 (Z.ltb_ge max z)) by lia.
Qed.

Lemma record_parse_ok v s :
  json_wf v = true -> session_registry_record_from_json v = inr s -> session_ok s.
Proof.
  intros Hw H. unfold session_registry_record_from_json in H.
  apply err_bind_check in H as [_ H]. cbv zeta in H. apply err_bind_check in H as [_ H].
  case_match; [done|]. case_match; [done|].
  err_steps H. apply (inj inr) in H. cbn [session_id ownership_token_hash dbdir_path] in *.
  repeat match goal with E : read_field _ _ _ _ = inr _ |- _ => apply read_field_range in E; [|done] end.
  repeat match goal with u : unit |- _ => destruct u end.
  match goal with E : validate_lifecycle_invariants _ = _ |- _ =>
    rewrite H in E; apply validate_lifecycle_iff in E as [? ?] end.
  match goal with E : validate_resource_invariants _ = _ |- _ =>
    rewrite H in E; apply validate_resource_iff in E end.
  match goal with E : validate_transport_invariants _ = _ |- _ =>
    rewrite H in E; apply validate_transport_iff in E as [? ?] end.
  sbool. split; try done; rewrite <- H; cbn [session_id ownership_token_hash].
  - by apply valid_name_iff.
  - by apply valid_optional_sha256_iff.
  - split; cbn [port server_pid created_at last_active dbdir_mtime dbdir_size dbdir_dev
      dbdir_inode fsdb_mtime fsdb_size fsdb_dev fsdb_inode]; lia.
Qed.

(** The lookups of a written record. *)
Lemma record_to_json_shape s :
  let v := session_registry_record_to_json s in
  jsize v = 26%nat /\ jcontains (lit "design_db_format") v = true /\
  first_refused false (fun f => jcontains f v) record_fields = None /\
  first_refused false (fun f => is_string (jat f v)) string_fields = None.
Proof. vm_compute. auto. Qed.

Lemma record_to_json_strings s :
  let v := session_registry_record_to_json s in
  map (get_string v) string_fields =
  [session_id s; generation s; lifecycle_state s; transport s; si_socket_path s; file_dir s; host s;
   bind_host s; server_host s; auth_token s; ownership_token_hash s; dbdir_path s; fsdb_file s;
   design_db_format s].
Proof. destruct s. vm_compute. reflexivity. Qed.

Lemma record_to_json_ints s :
  let v := session_registry_record_to_json s in
  map (fun f => jat f v) [lit "port"; lit "server_pid"; lit "created_at"; lit "last_active";
    lit "dbdir_mtime"; lit "dbdir_size"; lit "dbdir_dev"; lit "dbdir_inode";
    lit "fsdb_mtime"; lit "fsdb_size"; lit "fsdb_dev"; lit "fsdb_inode"] =
  [JInt (port s); JInt (server_pid s); JInt (created_at s); JInt (last_active s);
   JInt (dbdir_mtime s); JInt (dbdir_size s); JUint (dbdir_dev s); JUint (dbdir_inode s);
   JInt (fsdb_mtime s); JInt (fsdb_size s); JUint (fsdb_dev s); JUint (fsdb_inode s)].
Proof. destruct s. vm_compute. reflexivity. Qed.

Lemma record_roundtrip s :
  session_ok s -> session_registry_record_from_json (session_registry_record_to_json s) = inr s.
Proof.
  intros [Hn Hg Ho [] Hl Hr Hs Ht]. unfold session_registry_record_from_json.
  pose proof (record_to_json_shape s) as (Hsz & Hd & Hf1 & Hf2).
  pose proof (record_to_json_strings s) as Hst. pose proof (record_to_json_ints s) as Hin.
  assert (Ho' : is_object (session_registry_record_to_json s) = true) by reflexivity.
  set (v := session_registry_record_to_json s) in *. clearbody v. cbv zeta in *.
  unfold string_fields in Hst. cbn [map] in Hst, Hin. simplify_eq.
  rewrite Hsz, Hd, Ho'. assert (length record_fields = 26%nat) as -> by (vm_compute; done).
  cbn [check mbind err_bind Nat.eqb andb negb orb]. rewrite Hf1, Hf2.
  repeat match goal with
  | |- context [read_field ?m v ?f ?msg] =>
      erewrite (read_field_to m v f msg);
      [|..|first [left; eassumption|right; eassumption]]; [|unfold int_max in *; lia];
      cbn [mbind err_bind]
  end.
  repeat match goal with E : get_string v _ = _ |- _ => rewrite E; clear E end.
  rewrite (proj2 (Z.ltb_ge _ _)) by lia. cbn [check negb mbind err_bind].
  match goal with |- context [validate_lifecycle_invariants ?r] =>
    replace r with s by (by destruct s) end.
  rewrite !err_bind_check. cbn [andb negb].
  rewrite (proj2 (validate_lifecycle_iff s)), (proj2 (validate_resource_iff s)),
    (proj2 (validate_transport_iff s)) by done.
  split; [by apply valid_name_iff|]. split; [by apply valid_optional_sha256_iff|done].
Qed.

Lemma first_refused_None legacy accept fields f :
  first_refused legacy accept fields = None -> f ∈ fields ->
  legacy && eqs f (lit "design_db_format") = false -> accept f = true.
Proof.
  intros H Hin Hl. eapply List.find_none in H; [|by apply list_elem_of_In].
  rewrite Hl in H. cbn [negb andb] in H. by apply negb_false_iff in H.
Qed.

(** A parsed record has no field outside the schema. *)
Lemma record_parse_keys v s k :
  session_registry_record_from_json v = inr s -> jcontains k v = true -> k ∈ record_fields.
Proof.
  intros H Hk. unfold session_registry_record_from_json in H.
  apply err_bind_check in H as [Ho H]. cbv zeta in H. apply err_bind_check in H as [Hsz H].
  case_match eqn:Hf; [done|]. clear H. set (legacy := _ && negb _) in *.
  set (known := List.filter (fun f => negb (legacy && eqs f (lit "design_db_format"))) record_fields).
  assert (Hlen : (length (map fst (members v)) <= length known)%nat).
  { unfold known. rewrite length_map. replace (length (members v)) with (jsize v) by (by destruct v).
    destruct legacy eqn:El; cbn [orb andb negb] in *.
    - unfold legacy in El. bsplit. apply Nat.eqb_eq in H.
      match goal with |- context [List.filter ?p ?l] =>
        change (length (List.filter p l)) with 25%nat end.
      change (length record_fields) with 26%nat in H. lia.
    - rewrite orb_false_r in Hsz. apply Nat.eqb_eq in Hsz. rewrite Hsz.
      apply Nat.eq_le_incl. vm_compute. reflexivity. }
  assert (Hincl : List.incl known (map fst (members v))).
  { intros f Hin. unfold known in Hin. apply List.filter_In in Hin as [Hin Hnl].
    apply list_elem_of_In, jcontains_elem. eapply (first_refused_None legacy (fun f => jcontains f v)); [done|by apply list_elem_of_In|].
    by apply negb_true_iff. }
  assert (Hnd : List.NoDup known).
  { apply List.NoDup_filter, NoDup_ListNoDup. apply (bool_decide_eq_true_1 (NoDup record_fields)).
    vm_compute. reflexivity. }
  pose proof (List.NoDup_length_incl Hnd Hlen Hincl k) as Hin.
  apply jcontains_elem, list_elem_of_In, Hin, List.filter_In in Hk as [Hk _].
  by apply list_elem_of_In.
Qed.

(** Reading back a written record gives the record, whatever the checks say. *)
Lemma read_field_back max v f m z z' :
  read_field max v f m = inr z' -> jat f v = JInt z \/ jat f v = JUint z -> z' = z.
Proof.
  unfold read_field, read_bounded_nonnegative. intros H [Hj|Hj]; rewrite Hj in H;
    cbn [read_nonnegative_u64] in H; repeat case_if_in H; by simplify_eq.
Qed.

Lemma record_write_read s s' :
  session_registry_record_from_json (session_registry_record_to_json s) = inr s' -> s' = s.
Proof.
  unfold session_registry_record_from_json.
  pose proof (record_to_json_shape s) as (Hsz & Hd & Hf1 & Hf2).
  pose proof (record_to_json_strings s) as Hst. pose proof (record_to_json_ints s) as Hin.
  set (v := session_registry_record_to_json s) in *. clearbody v. cbv zeta in *.
  unfold string_fields in Hst. cbn [map] in Hst, Hin. simplify_eq.
  rewrite err_bind_check. intros [_ HP]. rewrite err_bind_check in HP. destruct HP as [_ HP].
  rewrite Hd in HP. rewrite andb_false_r in HP. rewrite Hf1, Hf2 in HP. err_steps HP.
  apply (inj inr) in HP. rewrite <- HP.
  repeat match goal with
  | E : read_field _ v _ _ = inr ?z |- _ =>
      eapply read_field_back in E; [|first [left; eassumption|right; eassumption]]; subst z
  end.
  repeat match goal with E : get_string v _ = _ |- _ => rewrite E; clear E end. by destruct s.
Qed.

(** ** Documents *)

Definition session_typed (s : SessionInfo) : Prop :=
  json_wf (session_registry_record_to_json s) = true.

Lemma read_sessions_ok i ids items l :
  forallb json_wf items = true -> read_sessions i ids items = inr l ->
  Forall session_ok l /\ NoDup (map session_id l) /\ Forall (fun id => id ∉ ids) (map session_id l).
Proof.
  revert i ids l. induction items as [|v items IH]; intros i ids l Hw H; cbn [read_sessions] in H.
  { simplify_eq. split_and!; constructor. }
  cbn [forallb] in Hw. bsplit.
  destruct (session_registry_record_from_json v) as [|s] eqn:E; [done|].
  case_if_in H; [done|]. destruct (read_sessions _ _ items) as [|l'] eqn:E2; [done|].
  cbn in H. simplify_eq. apply IH in E2 as (Hok & Hnd & Hids); [|done].
  split_and!.
  - constructor; [by eapply record_parse_ok|done].
  - cbn [map]. constructor; [|done]. intros Hin. rewrite list.Forall_forall in Hids.
    apply (Hids _ Hin). left.
  - cbn [map]. constructor.
    + intros Hin%existsb_eqs'. congruence.
    + eapply list.Forall_impl; [done|]. cbn. intros x Hx Hin. apply Hx. by right.
Qed.

Lemma write_read_sessions i ids l js :
  write_sessions ids l = inr js -> read_sessions i ids js = inr l.
Proof.
  revert i ids js. induction l as [|s l IH]; intros i ids js H; cbn [write_sessions] in H.
  { by simplify_eq. }
  case_if_in H; [done|]. destruct (session_registry_record_from_json _) as [|s'] eqn:E; [done|].
  pose proof (record_write_read _ _ E) as ->.
  destruct (write_sessions _ l) as [|js'] eqn:E2; [done|]. cbn in H. simplify_eq.
  cbn [read_sessions]. rewrite E, Heqb. by rewrite (IH _ _ _ E2).
Qed.

Lemma write_sessions_total ids l :
  Forall session_ok l -> NoDup (map session_id l) -> Forall (fun id => id ∉ ids) (map session_id l) ->
  exists js, write_sessions ids l = inr js.
Proof.
  revert ids. induction l as [|s l IH]; intros ids Hok Hnd Hids; cbn [write_sessions].
  { by eexists. }
  apply list.Forall_cons in Hok as [Hs Hok]. cbn [map] in *. apply list.NoDup_cons in Hnd as [Hn Hnd].
  apply list.Forall_cons in Hids as [Hi Hids].
  destruct (existsb (eqs (session_id s)) ids) eqn:E; [by apply existsb_eqs' in E|].
  rewrite record_roundtrip by done.
  destruct (IH (session_id s :: ids)) as [js ->]; [done..| |by eexists].
  rewrite list.Forall_forall in Hids |- *. intros x Hx [->|Hin]%elem_of_cons; [done|].
  by apply (Hids x).
Qed.

Lemma document_write_read l j :
  session_registry_document_to_json l = inr j -> session_registry_document_from_json j = inr l.
Proof.
  unfold session_registry_document_to_json. destruct (write_sessions [] l) as [|js] eqn:E; [done|].
  cbn [mbind err_bind]. intros [= <-]. unfold session_registry_document_from_json.
  apply err_bind_check. split; [reflexivity|]. by apply write_read_sessions.
Qed.

Lemma write_sessions_map ids l js :
  write_sessions ids l = inr js -> js = map session_registry_record_to_json l.
Proof.
  revert ids js. induction l as [|s l IH]; intros ids js H; cbn [write_sessions] in H.
  { by simplify_eq. }
  case_if_in H; [done|]. destruct (session_registry_record_from_json _); [done|].
  destruct (write_sessions _ l) as [|js'] eqn:E; [done|]. cbn in H. simplify_eq.
  cbn [map]. f_equal. by eapply IH.
Qed.

Lemma forallb_map_Forall {A B} (f : A -> B) (p : B -> bool) l :
  forallb p (map f l) = true <-> Forall (fun x => p (f x) = true) l.
Proof. rewrite forallb_Forall. apply List.Forall_map. Qed.

(** ** Endpoints *)

(** What an endpoint document says of a session: the members of its transport. *)
Definition endpoint_view (e : SessionInfo) : SessionInfo :=
  let info := endpoint_info (session_id e) (transport e) in
  if eqs (transport e) (lit "uds") then info (si_socket_path e) [] [] [] 0 (server_host e) []
  else if eqs (transport e) (lit "tcp")
  then info [] [] (host e) (bind_host e) (port e) (server_host e) (auth_token e)
  else info [] (file_dir e) [] [] 0 (server_host e) [].

(** The sessions an endpoint document can describe. *)
Definition endpoint_ok (e : SessionInfo) : Prop :=
  session_name_ok (session_id e) /\ server_host e <> [] /\
  (transport e = lit "uds" /\ si_socket_path e <> [] \/
   transport e = lit "tcp" /\ host e <> [] /\ bind_host e <> [] /\ auth_token e <> [] /\
     1 <= port e <= 65535 \/
   transport e = lit "file" /\ file_dir e <> []).

Lemma require_ok v f s :
  jat f v = JString s -> s <> [] -> require_nonempty_string v f = inr s.
Proof. intros Hj Hs. unfold require_nonempty_string. rewrite Hj. by destruct s. Qed.

Lemma require_inv v f s :
  require_nonempty_string v f = inr s -> jat f v = JString s /\ s <> [].
Proof.
  unfold require_nonempty_string. destruct (jat f v) as [| | | | |t| |]; try done.
  destruct t; [done|]. by intros [= <-].
Qed.

Lemma endpoint_to_json_iff e :
  (exists j, session_endpoint_document_to_json e = inr j) <-> endpoint_ok e.
Proof.
  unfold session_endpoint_document_to_json, validate_common, endpoint_ok.
  rewrite <- valid_name_iff. split.
  - intros [j H]. err_steps H. err_steps E.
    destruct (eqs (transport e) (lit "uds")) eqn:T1; [|destruct (eqs (transport e) (lit "tcp")) eqn:T2;
      [|destruct (eqs (transport e) (lit "file")) eqn:T3; [|done]]]; err_steps E0; sbool;
      (split; [done|]); (split; [done|]); [by left| |by right; right].
    right. left. split_and!; try done; lia.
  - intros (Hn & Hs & HT). rewrite Hn, (proj2 (str_empty_false _) Hs). cbn [check negb mbind err_bind].
    destruct HT as [(-> & H1)|[(-> & H1 & H2 & H3 & H4)|(-> & H1)]]; lit_eqs; seval;
      [by eexists| |by eexists].
    rewrite (proj2 (Z.leb_gt _ _)), (proj2 (Z.ltb_ge _ _)) by lia. by eexists.
Qed.

Lemma endpoint_from_json_ok v id e :
  session_endpoint_document_from_json v id = inr e ->
  endpoint_ok e /\ e = endpoint_view e /\ session_id e = id.
Proof.
  unfold session_endpoint_document_from_json, endpoint_ok. rewrite <- valid_name_iff. intros H.
  apply err_bind_check in H as [Hn H]. apply err_bind_check in H as [_ H]. cbv zeta in H.
  apply err_bind_check in H as [_ H].
  set (F := jat (lit "endpoint") v) in *. set (T := get_string F (lit "transport")) in *.
  destruct (eqs T (lit "uds")) eqn:E1; [|destruct (eqs T (lit "tcp")) eqn:E2;
      [|destruct (eqs T (lit "file")) eqn:E3; [|done]]]; apply err_bind_check in H as [_ H];
    repeat (let s := fresh "s" in let Q := fresh "Q" in
            apply err_bind_inr in H as (s & Q & H); apply require_inv in Q as [_ Q]).
  - apply (inj inr) in H as <-. unfold endpoint_view. cbn [endpoint_info session_id transport].
    rewrite E1. apply eqs_true in E1. cbn. tauto.
  - destruct (get_int _) as [p|]; [|done]. apply err_bind_check in H as [Hp H].
    apply (inj inr) in H as <-. unfold endpoint_view. cbn [endpoint_info session_id transport].
    rewrite E1, E2. sbool. cbn. split; [|done]. split; [done|]. split; [done|]. right. left.
    split_and!; try done; lia.
  - apply (inj inr) in H as <-. unfold endpoint_view. cbn [endpoint_info session_id transport].
    rewrite E1, E2. apply eqs_true in E3. cbn. tauto.
Qed.

Lemma endpoint_write_read e j :
  session_endpoint_document_to_json e = inr j ->
  session_endpoint_document_from_json j (session_id e) = inr (endpoint_view e).
Proof.
  intros H. assert (He : endpoint_ok e) by (apply endpoint_to_json_iff; by eexists).
  destruct He as (Hn & Hs & HT). apply valid_name_iff in Hn.
  unfold session_endpoint_document_to_json, validate_common in H.
  rewrite Hn, (proj2 (str_empty_false _) Hs) in H. cbn [check negb mbind err_bind] in H.
  unfold endpoint_view, session_endpoint_document_from_json. rewrite Hn. cbn [check mbind err_bind].
  destruct HT as [(ET & H1)|[(ET & H1 & H2 & H3 & H4)|(ET & H1)]]; rewrite ET in *; revert H; lit_eqs;
    intros H; err_steps H; err_steps E; apply (inj inr) in H as <-; apply (inj inr) in E as <-;
    repeat (apply err_bind_check; split; [reflexivity|]); cbv zeta;
    repeat (erewrite require_ok by (reflexivity || done); cbn [mbind err_bind]).
  - reflexivity.
  - match goal with |- context [get_int ?x] => change x with (JInt (port e)) end.
    cbn [get_int]. rewrite i32_small by (unfold int_min, int_max; lia).
    apply err_bind_check. split; [|reflexivity].
    by rewrite (proj2 (Z.leb_gt _ _)), (proj2 (Z.ltb_ge _ _)) by lia.
  - reflexivity.
Qed.

(** ** Properties *)

(** C14: a JSON value accepted as a session record has no field outside the
    schema, yields a valid record (name, generation, fingerprints, lifecycle
    and transport members consistent, every number within its C++ type), and
    writing that record and reading it again gives it back. *)
Theorem registry_record_strict v s :
  json_wf v = true -> session_registry_record_from_json v = inr s ->
  (forall k, jcontains k v = true -> k ∈ record_fields) /\ session_ok s /\
  session_registry_record_from_json (session_registry_record_to_json s) = inr s.
Proof.
  intros Hw H. split; [|split].
  - intros k. by eapply record_parse_keys.
  - by eapply record_parse_ok.
  - by eapply record_roundtrip, record_parse_ok.
Qed.

(** An opening session of a waveform file over a Unix socket. *)
Definition sample_session : SessionInfo :=
  {| session_id := lit "s1"; generation := replicate 64 "a"%char; lifecycle_state := lit "opening";
     transport := lit "uds"; si_socket_path := lit "/tmp/s1"; file_dir := []; host := [];
     bind_host := []; port := 0; server_host := lit "h"; auth_token := [];
     ownership_token_hash := []; server_pid := 0; created_at := 7; last_active := 7;
     dbdir_path := []; design_db_format := [];
     dbdir_mtime := 0; dbdir_size := 0; dbdir_dev := 0; dbdir_inode := 0;
     fsdb_file := lit "a.fst"; fsdb_mtime := 1; fsdb_size := 2; fsdb_dev := 3; fsdb_inode := 4 |}.

Lemma registry_record_strict_witness :
  session_registry_record_from_json (session_registry_record_to_json sample_session)
    = inr sample_session /\ session_ok sample_session.
Proof.
  assert (H : session_registry_record_from_json (session_registry_record_to_json sample_session)
              = inr sample_session) by (vm_compute; reflexivity).
  split; [exact H|].
  exact (proj1 (proj2 (registry_record_strict (session_registry_record_to_json sample_session)
                         sample_session ltac:(vm_compute; reflexivity) H))).
Defined.

(** C15: a list of sessions whose members fit their C++ types can be written
    as a registry document exactly when every session is valid and no two
    share an id; the written document reads back as the same list. *)
Theorem registry_document_roundtrip l :
  Forall session_typed l ->
  ((exists j, session_registry_document_to_json l = inr j) <->
   Forall session_ok l /\ NoDup (map session_id l)) /\
  (forall j, session_registry_document_to_json l = inr j ->
     session_registry_document_from_json j = inr l).
Proof.
  intros Ht. split; [|apply document_write_read]. split.
  - intros [j H]. unfold session_registry_document_to_json in H. err_steps H.
    pose proof (write_read_sessions 0 _ _ _ E) as Hr.
    apply read_sessions_ok in Hr as (? & ? & _); [done|].
    rewrite (write_sessions_map _ _ _ E). by apply forallb_map_Forall.
  - intros [Hok Hnd]. destruct (write_sessions_total [] l Hok Hnd) as [js E].
    { apply list.Forall_forall. intros x _. apply not_elem_of_nil. }
    unfold session_registry_document_to_json. rewrite E. by eexists.
Qed.

Lemma registry_document_roundtrip_witness :
  exists j, session_registry_document_to_json [sample_session] = inr j /\
    session_registry_document_from_json j = inr [sample_session].
Proof.
  eexists. split; [vm_compute; reflexivity|].
  apply (proj2 (registry_document_roundtrip [sample_session]
                  ltac:(constructor; [vm_compute; reflexivity|constructor]))).
  vm_compute. reflexivity.
Defined.

(** An endpoint document is written exactly for the sessions whose
    transport has its members, and reads back, under the session's id, as
    those members; whatever document is accepted describes such a session. *)
Theorem endpoint_document_roundtrip e :
  ((exists j, session_endpoint_document_to_json e = inr j) <-> endpoint_ok e) /\
  (forall j, session_endpoint_document_to_json e = inr j ->
     session_endpoint_document_from_json j (session_id e) = inr (endpoint_view e)) /\
  (forall v id, session_endpoint_document_from_json v id = inr e ->
     endpoint_ok e /\ e = endpoint_view e /\ session_id e = id).
Proof.
  split; [apply endpoint_to_json_iff|]. split; [intros j; apply endpoint_write_read|].
  intros v id. apply endpoint_from_json_ok.
Qed.

(** The port and the version are read with [get<int>()], which truncates: a
    port of 2^32 + 80 in a document of version 2^32 + 1 is accepted as port
    80 of version 1. *)
Lemma endpoint_port_wraps :
  port <$> session_endpoint_document_from_json
    (JObject [(lit "endpoint",
       JObject [(lit "auth_token", JString (lit "t")); (lit "bind_host", JString (lit "b"));
                (lit "host", JString (lit "h")); (lit "port", JUint (2 ^ 32 + 80));
                (lit "server_host", JString (lit "s")); (lit "transport", JString (lit "tcp"))]);
      (lit "version", JUint (2 ^ 32 + 1))]) (lit "s1") = inr 80.
Proof. vm_compute. reflexivity. Qed.
