(* ===== verification/SessionRegistry.v ===== *)
(** * SessionRegistry: the per-session state files

    Models [src/session/session_registry.{h,cpp}] and the paths of
    [src/session/session_paths.cpp] it uses. The operating system is an
    explicit state: the regular files with their contents and modification
    times, the directories, and a schedule that decides, call by call,
    whether a system call fails or a [write] is short. [ENOENT] and [EEXIST]
    follow from the state; every other failure comes from the schedule, so a
    theorem about every schedule covers every placement of I/O errors. A
    computation ends in [None] when a C++ exception escapes
    ([json::dump] on a string that is not UTF-8). Each operation is one
    uninterrupted run, as [SessionLifecycleLease] makes it for one session
    id. The JSON text format is [nlohmann::json]'s and is a parameter. *)

From S2P Require Import Prelude CLib Json SessionTypes SessionContract.
From stdpp Require Import countable.

Open Scope Z_scope.

(** ** The operating system *)

Inductive outcome :=
| Done                    (* the call does what it is asked *)
| Partial (n : nat)       (* a write of at most [n] bytes *)
| Interrupted             (* fails with EINTR *)
| Fault.                  (* fails with another error *)

Inductive errno := ENOENT | EEXIST | EINTR | EIO.
#[export] Instance errno_eq_dec : EqDecision errno.
Proof. solve_decision. Defined.

Record file := MkFile { contents : bytes; mtime : Z }.

Record world := MkWorld {
  files : gmap bytes file;
  dirs : gset bytes;
  schedule : list outcome;
  suffixes : list bytes;     (* the names [mkstemp] tries *)
  clock : Z;                 (* [time(nullptr)] *)
}.

Definition set_files (f : gmap bytes file) (w : world) : world :=
  MkWorld f (dirs w) (schedule w) (suffixes w) (clock w).
Definition set_dirs (d : gset bytes) (w : world) : world :=
  MkWorld (files w) d (schedule w) (suffixes w) (clock w).
Definition set_schedule (s : list outcome) (w : world) : world :=
  MkWorld (files w) (dirs w) s (suffixes w) (clock w).

Definition io (A : Type) : Type := world -> world * option A.
Definition iret {A} (a : A) : io A := fun w => (w, Some a).
Definition ibind {A B} (c : io A) (f : A -> io B) : io B := fun w =>
  match c w with
  | (w', Some a) => f a w'
  | (w', None) => (w', None)
  end.
(** An escaping exception. *)
Definition ithrow {A} : io A := fun w => (w, None).
Notation "x <-- c ;; k" := (ibind c (fun x => k))
  (at level 100, c at next level, right associativity) : xd_scope.
Open Scope xd_scope.

(** The next entry of the schedule as the error of a call, if any. *)
Definition syscall : io (option errno) := fun w =>
  match schedule w with
  | [] => (w, Some None)
  | o :: sched =>
      (set_schedule sched w,
       Some match o with
            | Done | Partial _ => None
            | Interrupted => Some EINTR
            | Fault => Some EIO
            end)
  end.

(** [mkdir(path, 0700)] *)
Definition sys_mkdir (path : bytes) : io (option errno) :=
  e <-- syscall;;
  match e with
  | Some e => iret (Some e)
  | None => fun w =>
      if decide (path ∈ dirs w) then (w, Some (Some EEXIST))
      else match files w !! path with
           | Some _ => (w, Some (Some EEXIST))
           | None => (set_dirs ({[path]} ∪ dirs w) w, Some None)
           end
  end.

(** [stat(path, &st) == 0 && S_ISDIR(st.st_mode)] *)
Definition sys_is_dir (path : bytes) : io bool :=
  e <-- syscall;;
  match e with
  | Some _ => iret false
  | None => fun w => (w, Some (bool_decide (path ∈ dirs w)))
  end.

(** [open] of an existing file, or [access(path, F_OK)]. *)
Definition sys_access (path : bytes) : io (option errno) := fun w =>
  match files w !! path with
  | None => (w, Some (Some ENOENT))
  | Some _ => syscall w
  end.

Definition sys_unlink (path : bytes) : io (option errno) := fun w =>
  match files w !! path with
  | None => (w, Some (Some ENOENT))
  | Some _ =>
      match syscall w with
      | (w', Some None) => (set_files (delete path (files w')) w', Some None)
      | r => r
      end
  end.

Definition sys_rename (from to : bytes) : io (option errno) := fun w =>
  match files w !! from with
  | None => (w, Some (Some ENOENT))
  | Some f =>
      match syscall w with
      | (w', Some None) => (set_files (<[to := f]> (delete from (files w'))) w', Some None)
      | r => r
      end
  end.

(** [open], [fsync] and [close] on a directory. *)
Definition sync_directory (path : bytes) : io bool :=
  fd <-- syscall;;
  if decide (fd = None) then
    synced <-- syscall;;
    closed <-- syscall;;
    iret (bool_decide (synced = None) && bool_decide (closed = None))
  else iret false.

(** ** Atomic files *)

Definition ensure_directory (path : bytes) : io bool :=
  e <-- sys_mkdir path;;
  match e with
  | None => iret true
  | Some EEXIST => sys_is_dir path
  | Some _ => iret false
  end.

(** [ensure_dir] of session_paths.cpp does not look at [errno]. *)
Definition ensure_dir (path : bytes) : io bool :=
  e <-- sys_mkdir path;;
  match e with
  | None => iret true
  | Some _ => sys_is_dir path
  end.

(** [mkstemp]: the first name that is not taken. *)
Definition temp_name (path suffix : bytes) : bytes := path ++ lit ".tmp." ++ suffix.
Definition sys_mkstemp (path : bytes) : io (option bytes) :=
  e <-- syscall;;
  match e with
  | Some _ => iret None
  | None => fun w =>
      match List.find (fun s => negb (bool_decide (is_Some (files w !! temp_name path s))))
              (suffixes w) with
      | None => (w, Some None)
      | Some s =>
          let name := temp_name path s in
          (set_files (<[name := MkFile [] (clock w)]> (files w)) w, Some (Some name))
      end
  end.

(** The [write] loop: the bytes written so far and whether it succeeded. *)
Fixpoint write_loop (sched : list outcome) (written rest : bytes)
  : list outcome * (bytes * bool) :=
  match rest with
  | [] => (sched, (written, true))
  | _ =>
      match sched with
      | [] => ([], (written ++ rest, true))
      | Done :: sched' => (sched', (written ++ rest, true))
      | Partial O :: sched' => (sched', (written, false))
      | Partial n :: sched' => write_loop sched' (written ++ take n rest) (drop n rest)
      | Interrupted :: sched' => write_loop sched' written rest
      | Fault :: sched' => (sched', (written, false))
      end
  end.

Definition sys_write_all (path data : bytes) : io bool := fun w =>
  let '(sched, (written, ok)) := write_loop (schedule w) [] data in
  (set_schedule sched (set_files (<[path := MkFile written (clock w)]> (files w)) w), Some ok).

(** [path.substr(0, path.rfind('/'))], or ["."]. *)
Fixpoint parent_dir (path : bytes) : option bytes :=
  match path with
  | [] => None
  | c :: p =>
      match parent_dir p with
      | Some d => Some (c :: d)
      | None => if eqc c "/" then Some [] else None
      end
  end.

(** [if (ok) ok = <call> == 0;] *)
Definition when_ok (ok : bool) (call : io (option errno)) : io bool :=
  if ok then (e <-- call;; iret (bool_decide (e = None))) else iret false.

(** The [write] loop, [fsync] and [close] on the temporary file, given whether
    all went well so far; [close] is called in any case. *)
Definition write_sync_close (ok : bool) (temp data : bytes) : io bool :=
  ok <-- (if ok then sys_write_all temp data else iret false);;
  ok <-- when_ok ok syscall;;
  closed <-- syscall;;
  iret (ok && bool_decide (closed = None)).

(** [fchmod], then the above. *)
Definition fill_temp (temp data : bytes) : io bool :=
  chmod <-- syscall;;
  write_sync_close (bool_decide (chmod = None)) temp data.

Definition write_atomic_file (path data : bytes) : io bool :=
  fd <-- sys_mkstemp path;;
  match fd with
  | None => iret false
  | Some temp =>
      ok <-- fill_temp temp data;;
      ok <-- when_ok ok (sys_rename temp path);;
      if (ok : bool) then sync_directory (default (lit ".") (parent_dir path))
      else (_ <-- sys_unlink temp;; iret false)
  end.

(** ** JSON text

    [json::parse] and [dump(2)]: [None] is the exception. *)

Class JsonText := {
  json_parse : bytes -> option json;
  json_dump : json -> option bytes;
}.

(** What a written value is after a round trip through text: the parser
    reads a nonnegative integer as [number_unsigned]. *)
Fixpoint jnorm (j : json) : json :=
  match j with
  | JInt z => if z <? 0 then JInt z else JUint z
  | JArray items => JArray (map jnorm items)
  | JObject m => JObject (map (fun kv => (fst kv, jnorm (snd kv))) m)
  | _ => j
  end.

Definition newline : bytes := [chr 10].

(** Documented behaviour of the library: dumped text, with a trailing
    newline, parses back; a parsed value is a well-formed one. *)
Class JsonTextLaws `{JsonText} : Prop := {
  dump_parse : forall j t, json_dump j = Some t -> json_parse (t ++ newline) = Some (jnorm j);
  parse_wf : forall t j, json_parse t = Some j -> json_wf j = true;
}.

(** ** Results *)

Inductive SessionRegistryStatus :=
| Ok | NotFound | Conflict | GenerationMismatch | Invalid | IoError.
#[export] Instance SessionRegistryStatus_eq_dec : EqDecision SessionRegistryStatus.
Proof. solve_decision. Defined.

Record SessionRegistryResult := MkResult { status : SessionRegistryStatus; message : bytes }.
Definition result_ok : SessionRegistryResult := MkResult Ok [].
Definition ok (r : SessionRegistryResult) : bool := bool_decide (status r = Ok).

Section Registry.
Context `{JsonText} (env : Env).

(** *** Paths (session_paths.cpp) *)

Definition xdebug_home_dir : bytes := home_dir env ++ lit "/.xdebug".
Definition xdebug_design_home_dir : bytes := tool_home_dir env engine_home_name.
Definition xdebug_design_sessions_dir : bytes := tool_sessions_dir env engine_home_name.
Definition xdebug_design_session_dir (id : bytes) : bytes :=
  tool_session_dir env engine_home_name id.
Definition xdebug_design_registry_path : bytes := registry_path env engine_home_name.
Definition xdebug_design_lifecycle_locks_dir : bytes :=
  xdebug_design_home_dir ++ lit "/lifecycle-locks".
Definition xdebug_design_session_state_path (id : bytes) : bytes :=
  xdebug_design_session_dir id ++ lit "/state.json".
Definition xdebug_design_session_activity_path (id : bytes) : bytes :=
  xdebug_design_session_dir id ++ lit "/activity".

(** [a && b] on calls: [b] runs only when [a] holds. *)
Definition and_then (a b : io bool) : io bool :=
  x <-- a;;
  if (x : bool) then b else iret false.

Definition xdebug_design_ensure_home : io bool :=
  and_then (ensure_dir xdebug_home_dir)
    (and_then (ensure_dir xdebug_design_home_dir)
       (and_then (ensure_dir xdebug_design_sessions_dir)
          (ensure_dir xdebug_design_lifecycle_locks_dir))).

Definition xdebug_design_ensure_session_dir (id : bytes) : io bool :=
  and_then xdebug_design_ensure_home (ensure_dir (xdebug_design_session_dir id)).

(** *** Reading *)

Definition fail_with {A} (s : SessionRegistryStatus) (m : bytes)
  : SessionRegistryResult + A := inl (MkResult s m).

Definition parse_record_file (path : bytes) : io (SessionRegistryResult + SessionInfo) :=
  fun w =>
  match files w !! path with
  | None => (w, Some (fail_with NotFound (lit "session generation is not in registry")))
  | Some f =>
      (e <-- syscall;;
       match e with
       | Some _ => iret (fail_with IoError (lit "cannot read per-session state"))
       | None =>
           match json_parse (contents f) with
           | None => iret (fail_with Invalid (lit "per-session state is not strict JSON"))
           | Some value =>
               match session_registry_record_from_json value with
               | inl error =>
                   iret (fail_with Invalid (lit "per-session state is invalid: " ++ error))
               | inr session => iret (inr session)
               end
           end
       end) w
  end.

Definition set_last_active (t : Z) (s : SessionInfo) : SessionInfo :=
  {| session_id := session_id s; generation := generation s;
     lifecycle_state := lifecycle_state s; transport := transport s;
     si_socket_path := si_socket_path s; file_dir := file_dir s; host := host s;
     bind_host := bind_host s; port := port s; server_host := server_host s;
     auth_token := auth_token s; ownership_token_hash := ownership_token_hash s;
     server_pid := server_pid s; created_at := created_at s; last_active := t;
     dbdir_path := dbdir_path s; design_db_format := design_db_format s;
     dbdir_mtime := dbdir_mtime s; dbdir_size := dbdir_size s;
     dbdir_dev := dbdir_dev s; dbdir_inode := dbdir_inode s;
     fsdb_file := fsdb_file s; fsdb_mtime := fsdb_mtime s; fsdb_size := fsdb_size s;
     fsdb_dev := fsdb_dev s; fsdb_inode := fsdb_inode s |}.

Definition merge_activity (path : bytes) (s : SessionInfo) : io SessionInfo := fun w =>
  match files w !! path with
  | None => (w, Some s)
  | Some f =>
      (e <-- syscall;;
       iret (if decide (e = None) then
               if last_active s <? mtime f then set_last_active (mtime f) s else s
             else s)) w
  end.

Definition check_legacy_registry : io SessionRegistryResult := fun w =>
  let path := xdebug_design_registry_path in
  let retired := path ++ lit ".v2.retired" in
  match files w !! path with
  | None => (w, Some result_ok)
  | Some f =>
      (e <-- syscall;;
       match e with
       | Some _ => iret (MkResult IoError (lit "cannot inspect legacy session registry"))
       | None =>
       match json_parse (contents f) with
       | None => iret (MkResult Invalid (lit "legacy registry is not strict JSON"))
       | Some root =>
       match session_registry_document_from_json root with
       | inl error => iret (MkResult Invalid (lit "legacy registry is invalid: " ++ error))
       | inr (_ :: _) =>
           iret (MkResult Invalid
             (lit "REGISTRY_MIGRATION_REQUIRED: close or gc every legacy session with the old binary before upgrading"))
       | inr [] =>
           a <-- sys_access retired;;
           match a with
           | None =>
               iret (MkResult Invalid
                 (lit "legacy registry archive already exists; refusing to overwrite evidence"))
           | Some ENOENT =>
               r <-- sys_rename path retired;;
               match r with
               | None =>
                   synced <-- sync_directory (default (lit ".") (parent_dir path));;
                   iret (if (synced : bool) then result_ok
                         else MkResult IoError (lit "cannot sync legacy registry archive"))
               | Some ENOENT =>
                   a2 <-- sys_access retired;;
                   iret (if decide (a2 = None) then result_ok
                         else MkResult IoError (lit "cannot archive empty legacy session registry"))
               | Some _ =>
                   iret (MkResult IoError (lit "cannot archive empty legacy session registry"))
               end
           | Some _ => iret (MkResult IoError (lit "cannot inspect legacy registry archive target"))
           end
       end
       end
       end) w
  end.

Definition read_one (id : bytes) : io (SessionRegistryResult + SessionInfo) :=
  legacy <-- check_legacy_registry;;
  if negb (ok legacy) then iret (inl legacy)
  else
    result <-- parse_record_file (xdebug_design_session_state_path id);;
    match result with
    | inl r => iret (inl r)
    | inr session =>
        if negb (eqs (session_id session) id)
        then iret (fail_with Invalid (lit "per-session state identity does not match its directory"))
        else
          s <-- merge_activity (xdebug_design_session_activity_path id) session;;
          iret (inr s)
    end.

(** *** Writing *)

Definition dump_line (j : json) : io bytes :=
  match json_dump j with Some t => iret (t ++ newline) | None => ithrow end.

Definition write_one (s : SessionInfo) : io bool :=
  d <-- xdebug_design_ensure_session_dir (session_id s);;
  if negb d then iret false
  else
    data <-- dump_line (session_registry_record_to_json s);;
    write_atomic_file (xdebug_design_session_state_path (session_id s)) data.

Definition write_result (s : SessionInfo) (failed : bytes) : io SessionRegistryResult :=
  b <-- write_one s;;
  iret (if (b : bool) then result_ok else MkResult IoError failed).

Definition reserve_opening (s : SessionInfo) : io SessionRegistryResult :=
  if negb (eqs (lifecycle_state s) (lit "opening"))
  then iret (MkResult Invalid (lit "new session reservation must use lifecycle_state=opening"))
  else
    existing <-- read_one (session_id s);;
    match existing with
    | inr _ => iret (MkResult Conflict (lit "session id already has a lifecycle generation"))
    | inl r =>
        if decide (status r = NotFound)
        then write_result s (lit "failed to persist opening session reservation")
        else iret r
    end.

Definition update_opening (s : SessionInfo) (expected : bytes) : io SessionRegistryResult :=
  if negb (eqs (lifecycle_state s) (lit "opening")) || negb (eqs (generation s) expected)
  then iret (MkResult Invalid
         (lit "opening update requires the expected generation in opening state"))
  else
    found <-- read_one (session_id s);;
    match found with
    | inl r => iret r
    | inr current =>
        if negb (eqs (generation current) expected)
        then iret (MkResult GenerationMismatch
               (lit "opening update no longer matches expected generation"))
        else if negb (eqs (lifecycle_state current) (lit "opening"))
        then iret (MkResult Conflict (lit "opening reservation is no longer opening"))
        else write_result s (lit "failed to persist opening session evidence")
    end.

Definition finalize_opening (s : SessionInfo) (expected : bytes) : io SessionRegistryResult :=
  if negb (eqs (lifecycle_state s) (lit "active")) || negb (eqs (generation s) expected)
  then iret (MkResult Invalid
         (lit "session finalization requires the expected generation in active state"))
  else
    found <-- read_one (session_id s);;
    match found with
    | inl r => iret r
    | inr current =>
        if negb (eqs (generation current) expected)
        then iret (MkResult GenerationMismatch
               (lit "opening reservation no longer matches expected generation"))
        else if negb (eqs (lifecycle_state current) (lit "opening"))
        then iret (MkResult Conflict (lit "opening reservation is no longer opening"))
        else write_result s (lit "failed to finalize opening session generation")
    end.

Definition mark_cleanup_failed (s : SessionInfo) (expected : bytes) : io SessionRegistryResult :=
  if negb (eqs (lifecycle_state s) (lit "cleanup_failed")) || negb (eqs (generation s) expected)
  then iret (MkResult Invalid (lit "cleanup failure must preserve the expected generation"))
  else
    found <-- read_one (session_id s);;
    match found with
    | inl r => iret r
    | inr current =>
        if negb (eqs (generation current) expected)
        then iret (MkResult GenerationMismatch
               (lit "cleanup failure generation no longer matches registry"))
        else write_result s (lit "failed to preserve cleanup failure generation")
    end.

(** [open(path, O_WRONLY | O_CREAT)]: creates the file when it is missing. *)
Definition sys_open_create (path : bytes) : io (option errno) :=
  e <-- syscall;;
  match e with
  | Some e => iret (Some e)
  | None => fun w =>
      match files w !! path with
      | Some _ => (w, Some None)
      | None => (set_files (<[path := MkFile [] (clock w)]> (files w)) w, Some None)
      end
  end.

(** [futimens(fd, {t, t})] *)
Definition sys_futimens (path : bytes) (t : Z) : io (option errno) :=
  e <-- syscall;;
  match e with
  | Some e => iret (Some e)
  | None => fun w =>
      (set_files (alter (fun f => MkFile (contents f) t) path (files w)) w, Some None)
  end.

Definition touch_if_generation (id expected : bytes) (last_active_ : Z)
  : io SessionRegistryResult :=
  found <-- read_one id;;
  match found with
  | inl r => iret r
  | inr current =>
      if negb (eqs (generation current) expected)
      then iret (MkResult GenerationMismatch (lit "touch generation no longer matches registry"))
      else if last_active_ <=? last_active current then iret result_ok
      else
        let path := xdebug_design_session_activity_path id in
        fd <-- sys_open_create path;;
        match fd with
        | Some _ => iret (MkResult IoError (lit "failed to open session activity marker"))
        | None =>
            touched <-- sys_futimens path last_active_;;
            closed <-- syscall;;
            iret (if bool_decide (touched = None) && bool_decide (closed = None) then result_ok
                  else MkResult IoError (lit "failed to update session activity marker"))
        end
  end.

Definition history_dir (id : bytes) : bytes := xdebug_design_session_dir id ++ lit "/history".
Definition closed_record (s : SessionInfo) (now : Z) : json :=
  JObject (mset (lit "final_state") (JString (lit "closed"))
             (mset (lit "closed_at") (JInt now) (members (session_registry_record_to_json s)))).

Definition get_clock : io Z := fun w => (w, Some (clock w)).

(** [unlink(path) != 0 && errno != ENOENT] *)
Definition unlink_failed (e : option errno) : bool :=
  match e with Some ENOENT | None => false | Some _ => true end.

Definition remove_if_generation (id expected : bytes) : io SessionRegistryResult :=
  found <-- read_one id;;
  match found with
  | inl r => iret r
  | inr current =>
      if negb (eqs (generation current) expected)
      then iret (MkResult GenerationMismatch (lit "remove generation no longer matches registry"))
      else
        dir <-- ensure_directory (history_dir id);;
        if negb dir then iret (MkResult IoError (lit "failed to prepare session history"))
        else
          now <-- get_clock;;
          data <-- dump_line (closed_record current now);;
          archived <-- write_atomic_file (history_dir id ++ lit "/" ++ expected ++ lit ".json") data;;
          if negb archived
          then iret (MkResult IoError (lit "failed to archive closed session generation"))
          else
            e1 <-- sys_unlink (xdebug_design_session_state_path id);;
            if unlink_failed e1
            then iret (MkResult IoError (lit "failed to retire closed session state"))
            else
              e2 <-- sys_unlink (xdebug_design_session_activity_path id);;
              if unlink_failed e2
              then iret (MkResult IoError (lit "failed to retire session activity marker"))
              else
                synced <-- sync_directory (xdebug_design_session_dir id);;
                iret (if (synced : bool) then result_ok
                      else MkResult IoError (lit "failed to sync retired session state"))
  end.

(** *** Enumeration *)

(** The entries [readdir] yields for a directory: the names directly below. *)
Definition strip_dir (d p : bytes) : option bytes :=
  let pre := d ++ lit "/" in
  if eqs (take (length pre) p) pre then
    let name := drop (length pre) p in
    if str_empty name || existsb (fun c => eqc c "/") name then None else Some name
  else None.
Definition dir_entries (w : world) (d : bytes) : list bytes :=
  omap (strip_dir d) (elements (dirs w)).

(** The [readdir] loop; the boolean tells that it ended with [errno] set. *)
Fixpoint load_entries (entries : list bytes) (sessions : list SessionInfo)
  : io (bool * list SessionInfo) :=
  e <-- syscall;;
  if decide (e = None) then
    match entries with
    | [] => iret (false, sessions)
    | name :: entries' =>
        if eqs name (lit ".") || eqs name (lit "..") then load_entries entries' sessions
        else
          let base := xdebug_design_sessions_dir ++ lit "/" ++ name in
          parsed <-- parse_record_file (base ++ lit "/state.json");;
          match parsed with
          | inl _ => load_entries entries' sessions
          | inr session =>
              s <-- merge_activity (base ++ lit "/activity") session;;
              load_entries entries' (sessions ++ [s])
          end
    end
  else iret (true, sessions).

(** [std::sort] by session id. *)
Fixpoint insert_by_id (s : SessionInfo) (l : list SessionInfo) : list SessionInfo :=
  match l with
  | [] => [s]
  | x :: l' => if str_ltb (session_id x) (session_id s) then x :: insert_by_id s l' else s :: l
  end.
Definition sort_by_id (l : list SessionInfo) : list SessionInfo := foldr insert_by_id [] l.

Definition load_all : io (SessionRegistryResult + list SessionInfo) :=
  legacy <-- check_legacy_registry;;
  if negb (ok legacy) then iret (inl legacy)
  else fun w =>
    if decide (xdebug_design_sessions_dir ∈ dirs w) then
      (opened <-- syscall;;
       if decide (opened = None) then
         r <-- load_entries (dir_entries w xdebug_design_sessions_dir) [];;
         closed <-- syscall;;
         if (fst r : bool) || negb (bool_decide (closed = None))
         then iret (fail_with IoError (lit "cannot complete per-session registry enumeration"))
         else iret (inr (sort_by_id (snd r)))
       else iret (fail_with IoError (lit "cannot enumerate per-session registry"))) w
    else (w, Some (inr [])).

Definition get (id : bytes) : io (SessionRegistryResult + SessionInfo) := read_one id.

(** [std::max_element] by creation time. *)
Definition latest_of (s : SessionInfo) (l : list SessionInfo) : SessionInfo :=
  foldl (fun best x => if created_at best <? created_at x then x else best) s l.

Definition get_latest : io (SessionRegistryResult + SessionInfo) :=
  loaded <-- load_all;;
  match loaded with
  | inl r => iret (inl r)
  | inr [] => iret (fail_with NotFound (lit "per-session registry is empty"))
  | inr (s :: l) => iret (inr (latest_of s l))
  end.
End Registry.

(** ** A concrete text format

    An instance of [JsonText] with its laws: what the witnesses run on. *)

(** Induction through the nested lists. *)
Fixpoint json_nested_ind (P : json -> Prop)
    (Hnull : P JNull) (Hbool : forall b, P (JBool b)) (Hint : forall z, P (JInt z))
    (Huint : forall z, P (JUint z)) (Hfloat : forall r, P (JFloat r)) (Hstr : forall s, P (JString s))
    (Harr : forall l, Forall P l -> P (JArray l))
    (Hobj : forall m, Forall (fun kv => P (snd kv)) m -> P (JObject m)) (j : json) : P j :=
  let rec := json_nested_ind P Hnull Hbool Hint Huint Hfloat Hstr Harr Hobj in
  match j with
  | JNull => Hnull
  | JBool b => Hbool b
  | JInt z => Hint z
  | JUint z => Huint z
  | JFloat r => Hfloat r
  | JString s => Hstr s
  | JArray l =>
      Harr l ((fix go l : Forall P l :=
                 match l with [] => @List.Forall_nil _ _ | x :: l' => @List.Forall_cons _ _ _ _ (rec x) (go l') end) l)
  | JObject m =>
      Hobj m ((fix go m : Forall (fun kv => P (snd kv)) m :=
                 match m with [] => @List.Forall_nil _ _ | (k, v) :: m' => @List.Forall_cons _ _ (k, v) _ (rec v) (go m') end) m)
  end.

Definition leaf : Type := (bool + Z + bytes)%type.

Fixpoint to_tree (j : json) : gen_tree leaf :=
  match j with
  | JNull => GenNode 0 []
  | JBool b => GenNode 1 [GenLeaf (inl (inl b))]
  | JInt z => GenNode 2 [GenLeaf (inl (inr z))]
  | JUint z => GenNode 3 [GenLeaf (inl (inr z))]
  | JFloat r => GenNode 4 [GenLeaf (inr r)]
  | JString s => GenNode 5 [GenLeaf (inr s)]
  | JArray l => GenNode 6 (map to_tree l)
  | JObject m => GenNode 7 (map (fun kv => GenNode 0 [GenLeaf (inr (fst kv)); to_tree (snd kv)]) m)
  end.

Fixpoint of_tree (t : gen_tree leaf) : json :=
  match t with
  | GenNode 1 [GenLeaf (inl (inl b))] => JBool b
  | GenNode 2 [GenLeaf (inl (inr z))] => JInt z
  | GenNode 3 [GenLeaf (inl (inr z))] => JUint z
  | GenNode 4 [GenLeaf (inr r)] => JFloat r
  | GenNode 5 [GenLeaf (inr s)] => JString s
  | GenNode 6 l => JArray (map of_tree l)
  | GenNode 7 l =>
      JObject (map (fun t => match t with
                             | GenNode 0 [GenLeaf (inr k); v] => (k, of_tree v)
                             | _ => ([], JNull)
                             end) l)
  | _ => JNull
  end.

Lemma of_to_tree j : of_tree (to_tree j) = j.
Proof.
  induction j as [| | | | | |l IH|m IH] using json_nested_ind; try done; cbn [to_tree of_tree];
    f_equal; rewrite List.map_map.
  - induction IH as [|x l Hx IH IH']; cbn [map]; [done|]. by rewrite Hx, IH'.
  - induction IH as [|[k v] m Hx IH IH']; cbn [map fst snd]; [done|]. cbn [snd] in Hx. by rewrite Hx, IH'.
Qed.

(** Binary digits, least significant first. *)
Fixpoint bits_of (p : positive) : bytes :=
  match p with
  | xH => []
  | xO p => "0"%char :: bits_of p
  | xI p => "1"%char :: bits_of p
  end.
Fixpoint of_bits (s : bytes) : positive :=
  match s with
  | [] => xH
  | c :: s' => if eqc c "1" then xI (of_bits s') else xO (of_bits s')
  end.

Lemma of_bits_of p : of_bits (bits_of p) = p.
Proof. induction p; cbn; by rewrite ?IHp. Qed.

Definition codec_dump (j : json) : option bytes :=
  if json_wf (jnorm j) then Some (bits_of (encode (to_tree j))) else None.

Definition codec_parse (t : bytes) : option json :=
  match decode (of_bits (take (length t - 1) t)) with
  | Some tree => let j := jnorm (of_tree tree) in if json_wf j then Some j else None
  | None => None
  end.

#[export] Instance codec_text : JsonText := {| json_parse := codec_parse; json_dump := codec_dump |}.

#[export] Instance codec_laws : JsonTextLaws.
Proof.
  split.
  - intros j t. cbn [json_dump json_parse codec_text]. unfold codec_dump, codec_parse.
    destruct (json_wf (jnorm j)) eqn:E; [|done]. intros [= <-].
    rewrite length_app. cbn [newline length]. rewrite Nat.add_sub, take_app_length.
    by rewrite of_bits_of, decode_encode, of_to_tree, E.
  - intros t j. cbn [json_parse codec_text]. unfold codec_parse.
    destruct (decode _) as [tree|]; [|done]. cbv zeta. case_if; [|done]. by intros [= <-].
Qed.
