(* ===== verification/SessionRegistryTheory.v ===== *)
(** * SessionRegistryTheory: properties of the session registry

    The effect of the operations of [SessionRegistry] on the state files,
    for every schedule of system-call failures: atomic replacement, the
    generation-guarded life cycle as an abstract transition relation and its
    refinement, and the activity marker. *)

From S2P Require Import Prelude CLib Json SessionTypes SessionContract SessionRegistry.

Open Scope Z_scope.

(** ** Symbolic execution *)

Lemma syscall_eq w : exists sched e, syscall w = (set_schedule sched w, Some e).
Proof.
  unfold syscall. destruct (schedule w) as [|o sched] eqn:E; [|by eauto].
  exists [], None. destruct w. cbn in *. by subst.
Qed.

(** Two worlds with the same files (and clock). *)
Definition same_files (w w' : world) : Prop := files w' = files w /\ clock w' = clock w.

#[export] Instance same_files_preorder : PreOrder same_files.
Proof. split; [done|]. intros ??? [] []. split; congruence. Qed.

(** A computation that never throws and leaves the files alone. *)
Definition quiet {A} (c : io A) : Prop :=
  forall w, exists a w', c w = (w', Some a) /\ same_files w w'.

Lemma quiet_ret {A} (a : A) : quiet (iret a).
Proof. intros w. by exists a, w. Qed.

Lemma quiet_bind {A B} (c : io A) (f : A -> io B) :
  quiet c -> (forall a, quiet (f a)) -> quiet (ibind c f).
Proof.
  intros Hc Hf w. unfold ibind. destruct (Hc w) as (a & w1 & -> & H1).
  destruct (Hf a w1) as (b & w2 & E & H2). exists b, w2. split; [done|]. by etransitivity.
Qed.

Lemma quiet_syscall : quiet syscall.
Proof. intros w. destruct (syscall_eq w) as (s & e & ->). by exists e, (set_schedule s w). Qed.

Lemma quiet_if {A} (b : bool) (c d : io A) : quiet c -> quiet d -> quiet (if b then c else d).
Proof. by destruct b. Qed.

Create HintDb quiet.
#[export] Hint Resolve quiet_ret quiet_bind quiet_syscall quiet_if : quiet.

Lemma quiet_mkdir p : quiet (sys_mkdir p).
Proof.
  apply quiet_bind; [auto with quiet|]. intros [e|]; [auto with quiet|].
  intros w. case_decide; [by eexists _, _|]. destruct (files w !! p); by eexists _, _.
Qed.

Lemma quiet_is_dir p : quiet (sys_is_dir p).
Proof.
  apply quiet_bind; [auto with quiet|]. intros [e|]; [auto with quiet|]. intros w. by eexists _, _.
Qed.
#[export] Hint Resolve quiet_mkdir quiet_is_dir : quiet.

Lemma quiet_ensure_dir p : quiet (ensure_dir p).
Proof. apply quiet_bind; [auto with quiet|]. intros [e|]; auto with quiet. Qed.

Lemma quiet_ensure_directory p : quiet (ensure_directory p).
Proof. apply quiet_bind; [auto with quiet|]. intros [[]|]; auto with quiet. Qed.

Lemma quiet_sync_directory p : quiet (sync_directory p).
Proof.
  apply quiet_bind; [auto with quiet|]. intros e. case_decide; [|auto with quiet].
  auto with quiet.
Qed.

Lemma quiet_access p : quiet (sys_access p).
Proof. intros w. unfold sys_access. destruct (files w !! p); [apply quiet_syscall|by eexists _, _]. Qed.

Lemma quiet_and_then a b : quiet a -> quiet b -> quiet (and_then a b).
Proof. intros. apply quiet_bind; auto with quiet. Qed.
#[export] Hint Resolve quiet_ensure_dir quiet_ensure_directory quiet_sync_directory quiet_access
  quiet_and_then : quiet.

Lemma quiet_session_dir env id : quiet (xdebug_design_ensure_session_dir env id).
Proof.
  apply quiet_and_then; [unfold xdebug_design_ensure_home; auto 6 with quiet|auto with quiet].
Qed.

(** ** Atomic replacement *)

Lemma write_loop_ok sched written rest sched' written' :
  write_loop sched written rest = (sched', (written', true)) -> written' = written ++ rest.
Proof.
  revert written rest. induction sched as [|o sched IH]; intros written rest H; cbn [write_loop] in H;
    (destruct rest as [|c rest]; [simplify_eq; by rewrite app_nil_r|]).
  - by simplify_eq.
  - destruct o as [|[|n]| |]; simplify_eq; try done.
    + apply IH in H. by rewrite H, <- app_assoc, take_drop.
    + by apply IH.
Qed.

Definition temp_of (path p : bytes) : Prop := exists s, p = temp_name path s.

(** The files agree except at one name. *)
Definition agree_off (name : bytes) (w w' : world) : Prop :=
  forall p, p <> name -> files w' !! p = files w !! p.

Lemma write_sync_close_spec ok name data w w' b :
  write_sync_close ok name data w = (w', b) ->
  exists r, b = Some r /\ agree_off name w w' /\
    (r = true -> exists t, files w' !! name = Some (MkFile data t)).
Proof.
  unfold write_sync_close, ibind, when_ok, iret. intros H.
  destruct ok; unfold sys_write_all, ibind, iret in H.
  - destruct (write_loop (schedule w) [] data) as [s2 [wr b2]] eqn:El.
    set (w2 := set_schedule s2 _) in H.
    assert (Ha : agree_off name w w2).
    { intros p Hp. unfold w2. cbn. by rewrite lookup_insert_ne by congruence. }
    assert (Hn : files w2 !! name = Some (MkFile wr (clock w))) by apply lookup_insert_eq.
    clearbody w2. destruct b2.
    + apply write_loop_ok in El as ->. cbn [app] in Hn.
      destruct (syscall_eq w2) as (s3 & e3 & E3). rewrite E3 in H.
      destruct (syscall_eq (set_schedule s3 w2)) as (s4 & e4 & E4). rewrite E4 in H.
      simplify_eq. eexists. split; [done|]. split; [done|]. by eexists.
    + destruct (syscall_eq w2) as (s4 & e4 & E4). rewrite E4 in H. simplify_eq.
      eexists. split; [done|]. split; [done|]. done.
  - destruct (syscall_eq w) as (s4 & e4 & E4). rewrite E4 in H. simplify_eq.
    eexists. split; [done|]. split; [by intros p _|]. done.
Qed.

Lemma fill_temp_spec name data w w' b :
  fill_temp name data w = (w', b) ->
  exists r, b = Some r /\ agree_off name w w' /\
    (r = true -> exists t, files w' !! name = Some (MkFile data t)).
Proof.
  unfold fill_temp, ibind. destruct (syscall_eq w) as (s1 & e1 & ->).
  intros H. apply write_sync_close_spec in H as (r & -> & Ha & Hr). by exists r.
Qed.

Lemma mkstemp_spec path w w' r :
  sys_mkstemp path w = (w', r) ->
  r = Some None /\ files w' = files w \/
  exists s t, r = Some (Some (temp_name path s)) /\ files w !! temp_name path s = None /\
    files w' = <[temp_name path s := MkFile [] t]> (files w).
Proof.
  unfold sys_mkstemp, ibind, iret. destruct (syscall_eq w) as (s1 & e1 & ->).
  destruct e1; [intros [= <- <-]; by left|]. cbn [files set_schedule suffixes].
  destruct (List.find _ _) as [s|] eqn:E; intros [= <- <-]; [|by left].
  right. exists s, (clock w). split; [done|]. split; [|done].
  apply List.find_some in E as [_ E]. apply negb_true_iff, bool_decide_eq_false in E.
  by apply eq_None_not_Some.
Qed.

Lemma temp_name_ne path s : temp_name path s <> path.
Proof.
  unfold temp_name. intros E. apply (f_equal length) in E. rewrite !length_app in E. cbn in E. lia.
Qed.

Lemma rename_spec from to w w' r :
  sys_rename from to w = (w', r) ->
  exists e, r = Some e /\
  ((e <> None /\ files w' = files w) \/
   exists f, e = None /\ files w !! from = Some f /\ files w' = <[to := f]> (delete from (files w))).
Proof.
  unfold sys_rename. destruct (files w !! from) as [f|] eqn:Ef.
  - destruct (syscall_eq w) as (s1 & e1 & ->). destruct e1; intros [= <- <-]; eexists; (split; [done|]).
    + by left.
    + right. by exists f.
  - intros [= <- <-]. eexists. split; [done|]. by left.
Qed.

Lemma unlink_spec path w w' r :
  sys_unlink path w = (w', r) ->
  exists e, r = Some e /\
  ((files w' = files w /\ (unlink_failed e = false -> files w !! path = None)) \/
   files w' = delete path (files w) /\ e = None).
Proof.
  unfold sys_unlink. destruct (files w !! path) as [f|] eqn:Ef.
  - destruct (syscall_eq w) as (s1 & e1 & E1). rewrite E1. unfold syscall in E1.
    destruct e1 as [e|]; intros [= <- <-]; eexists; (split; [done|]); [|by right].
    left. split; [done|]. destruct (schedule w) as [|[]]; simplify_eq; done.
  - intros [= <- <-]. eexists. split; [done|]. by left.
Qed.

Lemma unlink_off path w w' r :
  sys_unlink path w = (w', r) -> (exists e, r = Some e) /\ agree_off path w w'.
Proof.
  intros E. apply unlink_spec in E as (e & -> & H). split; [by eexists|]. intros p Hp.
  destruct H as [[-> _]|[-> _]]; [done|]. by rewrite lookup_delete_ne by congruence.
Qed.

Lemma agree_off_trans name a b c : agree_off name a b -> agree_off name b c -> agree_off name a c.
Proof. intros H1 H2 p Hp. by rewrite H2, H1. Qed.

(** What an attempt to replace [path] through the temporary file [name] may
    leave behind. *)
Definition replaced (path name data : bytes) (w w' : world) (b : bool) : Prop :=
  (forall p, p <> path -> p <> name -> files w' !! p = files w !! p) /\
  (files w' !! path = files w !! path /\ b = false \/
   exists t, files w' !! path = Some (MkFile data t)).

Lemma replaced_not path name data w w' :
  name <> path -> agree_off name w w' -> replaced path name data w w' false.
Proof. intros Hne Ha. split; [by intros p _; apply Ha|]. left. split; [by apply Ha|done]. Qed.

(** Renaming the filled temporary file over the target. *)
Lemma rename_replaces path name data t w w1 w2 w3 b :
  agree_off name w w1 -> files w1 !! name = Some (MkFile data t) ->
  sys_rename name path w1 = (w2, Some None) -> files w3 = files w2 \/ agree_off name w2 w3 ->
  name <> path -> replaced path name data w w3 b.
Proof.
  intros Ha Hn E H3 Hne. apply rename_spec in E as (e & [= <-] & [[? _]|(f & _ & Hf & E)]); [done|].
  rewrite Hn in Hf. injection Hf as <-.
  assert (H3' : forall p, p <> name -> files w3 !! p = files w2 !! p)
    by (destruct H3 as [-> |H3]; [done|by intros p; apply H3]).
  split.
  - intros p Hp Hq. rewrite H3', E, lookup_insert_ne, lookup_delete_ne by congruence. by apply Ha.
  - right. exists t. rewrite H3', E by congruence. apply lookup_insert_eq.
Qed.

Lemma write_atomic_replaces path data w w' r :
  write_atomic_file path data w = (w', r) ->
  exists b name, r = Some b /\ temp_of path name /\ replaced path name data w w' b.
Proof.
  unfold write_atomic_file, ibind at 1. destruct (sys_mkstemp path w) as [w1 r1] eqn:E1.
  apply mkstemp_spec in E1 as [[-> Hf]|(s & t & -> & Hnone & Hf)].
  { intros [= <- <-]. exists false, (temp_name path []). split; [done|]. split; [by eexists|].
    apply replaced_not; [apply temp_name_ne|]. intros p _. by rewrite Hf. }
  set (name := temp_name path s) in *. pose proof (temp_name_ne path s : name <> path) as Hne.
  assert (Ht : temp_of path name) by by eexists.
  assert (Ha1 : agree_off name w w1) by (intros p Hp; rewrite Hf; by rewrite lookup_insert_ne by congruence).
  unfold ibind at 1. destruct (fill_temp name data w1) as [w2 r2] eqn:E2.
  apply fill_temp_spec in E2 as (b2 & -> & Ha2 & Hb).
  pose proof (agree_off_trans _ _ _ _ Ha1 Ha2) as Ha.
  assert (Hfail : forall w3 w' r, files w3 = files w2 ->
    ibind (sys_unlink name) (fun _ => iret false) w3 = (w', r) ->
    exists b name, r = Some b /\ temp_of path name /\ replaced path name data w w' b).
  { intros w3 w4 r4 H3 H. unfold ibind, iret in H. destruct (sys_unlink name w3) as [w5 r5] eqn:E5.
    apply unlink_off in E5 as [[e5 ->] H5]. simplify_eq. exists false, name.
    split; [done|]. split; [done|]. apply replaced_not; [done|]. eapply agree_off_trans; [exact Ha|].
    intros p Hp. by rewrite H5, H3. }
  unfold when_ok. unfold ibind at 1. destruct b2; [|cbn [iret]; by apply Hfail].
  destruct (Hb eq_refl) as [t2 Hname]. unfold ibind at 1.
  destruct (sys_rename name path w2) as [w3 r3] eqn:E3. pose proof E3 as E3'.
  apply rename_spec in E3 as (e3 & -> & [[He H3]|(f & -> & _)]).
  { rewrite bool_decide_eq_false_2 by done. cbn [iret]. by apply Hfail. }
  rewrite bool_decide_eq_true_2 by done. cbn [iret]. intros H.
  destruct (quiet_sync_directory (default (lit ".") (parent_dir path)) w3) as (b & w4 & E4 & [H4 _]).
  rewrite E4 in H. simplify_eq. exists b, name. split; [done|]. split; [done|].
  eapply rename_replaces; eauto.
Qed.

Lemma write_atomic_spec path data w w' r :
  write_atomic_file path data w = (w', r) ->
  exists b, r = Some b /\
    (forall p, p <> path -> ~ temp_of path p -> files w' !! p = files w !! p) /\
    (files w' !! path = files w !! path /\ b = false \/
     exists t, files w' !! path = Some (MkFile data t)).
Proof.
  intros H. apply write_atomic_replaces in H as (b & name & -> & Ht & Hoff & Hp).
  exists b. split; [done|]. split; [|done]. intros p Hne Hnt. apply Hoff; [done|]. by intros ->.
Qed.

(** ** Text round trip of a record *)

Lemma mget_map {V W} (f : V -> W) k (m : list (bytes * V)) :
  mget k (map (fun kv => (fst kv, f (snd kv))) m) = f <$> mget k m.
Proof.
  induction m as [|[k' v'] m IH]; cbn [map mget fst snd]; [done|]. by destruct (eqs k k').
Qed.

Lemma jget_jnorm k v : jget k (jnorm v) = jnorm <$> jget k v.
Proof. destruct v as [| |z| | | | |m]; try done; cbn [jnorm]; [by case_if|]. apply mget_map. Qed.

Lemma jat_jnorm k v : jat k (jnorm v) = jnorm (jat k v).
Proof. unfold jat. rewrite jget_jnorm. by destruct (jget k v). Qed.

Lemma jcontains_jnorm k v : jcontains k (jnorm v) = jcontains k v.
Proof. unfold jcontains. rewrite jget_jnorm. by destruct (jget k v). Qed.

Lemma jsize_jnorm v : jsize (jnorm v) = jsize v.
Proof. destruct v; try done; cbn [jnorm]; [by case_if|..]; cbn [jsize]; apply length_map. Qed.

Lemma is_string_jnorm v : is_string (jnorm v) = is_string v.
Proof. destruct v; try done. cbn [jnorm]. by case_if. Qed.

Lemma is_object_jnorm v : is_object (jnorm v) = is_object v.
Proof. destruct v; try done. cbn [jnorm]. by case_if. Qed.

Lemma get_string_jnorm v f : get_string (jnorm v) f = get_string v f.
Proof.
  unfold get_string. rewrite jat_jnorm. destruct (jat f v); try done. cbn [jnorm]. by case_if.
Qed.

Lemma read_field_jnorm max v f m : read_field max (jnorm v) f m = read_field max v f m.
Proof.
  unfold read_field, read_bounded_nonnegative. rewrite jat_jnorm.
  assert (read_nonnegative_u64 (jnorm (jat f v)) = read_nonnegative_u64 (jat f v)) as ->; [|done].
  destruct (jat f v); try done. cbn [jnorm read_nonnegative_u64].
  by destruct (Z.ltb_spec z 0) as [E|E]; cbn [read_nonnegative_u64];
    [rewrite (proj2 (Z.ltb_lt _ _) E)|].
Qed.

Lemma first_refused_ext legacy a b fields :
  (forall f, a f = b f) -> first_refused legacy a fields = first_refused legacy b fields.
Proof.
  intros E. unfold first_refused. induction fields as [|f fields IH]; cbn [List.find]; [done|].
  by rewrite E, IH.
Qed.

Lemma record_from_json_jnorm v :
  session_registry_record_from_json (jnorm v) = session_registry_record_from_json v.
Proof.
  unfold session_registry_record_from_json.
  rewrite is_object_jnorm, jsize_jnorm, jcontains_jnorm, !get_string_jnorm, !read_field_jnorm.
  rewrite (first_refused_ext _ (fun f => jcontains f (jnorm v)) (fun f => jcontains f v))
    by (intros; apply jcontains_jnorm).
  rewrite (first_refused_ext _ (fun f => is_string (jat f (jnorm v))) (fun f => is_string (jat f v)))
    by (intros; by rewrite jat_jnorm, is_string_jnorm).
  done.
Qed.

(** ** Paths *)

Lemma app_slash_inj a b x y :
  "/"%char ∉ a -> "/"%char ∉ b -> a ++ "/"%char :: x = b ++ "/"%char :: y -> a = b /\ x = y.
Proof.
  revert b. induction a as [|c a IH]; intros [|d b] Ha Hb E; cbn in E; simplify_eq; try done.
  - exfalso. apply Hb. left.
  - exfalso. apply Ha. left.
  - destruct (IH b) as [-> ->]; [| |done|done]; intros Hin; [apply Ha|apply Hb]; by right.
Qed.

Section Theory.
Context {JT : JsonText} {HL : JsonTextLaws} (env : Env).

Local Abbreviation state_path := (xdebug_design_session_state_path env).
Local Abbreviation activity_path := (xdebug_design_session_activity_path env).

(** A path below the session directory of [id]. *)
Definition in_session (id rest : bytes) : bytes :=
  xdebug_design_session_dir env id ++ "/"%char :: rest.

Lemma in_session_inj id id' x y :
  in_session id x = in_session id' y -> session_dir_name id = session_dir_name id' /\ x = y.
Proof.
  unfold in_session, xdebug_design_session_dir, tool_session_dir. rewrite <- !app_assoc.
  intros E%app_inv_head%app_inv_head.
  apply app_slash_inj in E; [done|..]; apply name_char_no_slash, session_dir_name_chars.
Qed.

Lemma in_session_ne_registry id x y :
  in_session id x <> xdebug_design_registry_path env ++ y.
Proof.
  unfold in_session, xdebug_design_session_dir, tool_session_dir, tool_sessions_dir,
    xdebug_design_registry_path, registry_path. rewrite <- !app_assoc.
  intros E%app_inv_head. by cbn in E.
Qed.

(** ** Reading *)

(** The record a state file holds for [id]. *)
Definition stored (w : world) (id : bytes) : option SessionInfo :=
  match files w !! state_path id with
  | None => None
  | Some f =>
      match json_parse (contents f) with
      | None => None
      | Some v =>
          match session_registry_record_from_json v with
          | inl _ => None
          | inr s => if eqs (session_id s) id then Some s else None
          end
      end
  end.

Lemma stored_ok w id s : stored w id = Some s -> session_ok s /\ session_id s = id.
Proof.
  unfold stored. destruct (files w !! _) as [f|]; [|done].
  destruct (json_parse (contents f)) as [v|] eqn:Ep; [|done].
  destruct (session_registry_record_from_json v) as [|s'] eqn:Er; [done|].
  case_if; [|done]. intros [= ->]. split; [|by apply eqs_true].
  eapply record_parse_ok; [|done]. by eapply parse_wf.
Qed.

Lemma stored_same w w' id :
  files w' !! state_path id = files w !! state_path id -> stored w' id = stored w id.
Proof. unfold stored. by intros ->. Qed.

Lemma stored_written w id s t tm :
  session_ok s -> session_id s = id -> json_dump (session_registry_record_to_json s) = Some t ->
  files w !! state_path id = Some (MkFile (t ++ newline) tm) -> stored w id = Some s.
Proof.
  intros Hok Hid Hd Hf. unfold stored. rewrite Hf. cbn [contents].
  rewrite (dump_parse _ _ Hd), record_from_json_jnorm, record_roundtrip by done.
  by rewrite Hid, eqs_refl.
Qed.

(** Session files are untouched. *)
Definition keeps_sessions (w w' : world) : Prop :=
  forall id x, files w' !! in_session id x = files w !! in_session id x.

#[local] Instance keeps_sessions_preorder : PreOrder keeps_sessions.
Proof. split; [done|]. intros a b c H1 H2 id x. by rewrite H2. Qed.

Lemma same_keeps w w' : same_files w w' -> keeps_sessions w w'.
Proof. intros [E _] id x. by rewrite E. Qed.

(** Run a quiet computation inside [H]. *)
Ltac run_quiet c w H :=
  let a := fresh "a" in let w1 := fresh "w" in let E := fresh "E" in let K := fresh "K" in
  assert (exists a w1, c w = (w1, Some a) /\ same_files w w1) as (a & w1 & E & K)
    by (apply (ltac:(auto with quiet) : quiet c));
  unfold ibind at 1 in H; rewrite E in H; apply same_keeps in K.

Lemma legacy_spec w w' r :
  check_legacy_registry env w = (w', r) ->
  exists res, r = Some res /\ keeps_sessions w w' /\ status res <> NotFound.
Proof.
  unfold check_legacy_registry. destruct (files w !! _) as [f|]; [|intros [= <- <-]; by eexists].
  intros H. run_quiet syscall w H. destruct a; [injection H as <- <-; by eexists|].
  destruct (json_parse _) as [v|]; [|injection H as <- <-; by eexists].
  destruct (session_registry_document_from_json v) as [|[|]]; [injection H as <- <-; by eexists| |injection H as <- <-; by eexists].
  set (retired := _ ++ lit ".v2.retired") in *. run_quiet (sys_access retired) w0 H.
  assert (K' : keeps_sessions w w1) by by etransitivity.
  destruct a as [[]|]; try (injection H as <- <-; by eexists).
  unfold ibind at 1 in H. destruct (sys_rename _ retired w1) as [w2 r2] eqn:E2.
  apply rename_spec in E2 as (e2 & -> & [[He Hf]|(f2 & -> & _ & Hf)]).
  - assert (K2 : keeps_sessions w w2) by (etransitivity; [done|]; intros id x; by rewrite Hf).
    destruct e2 as [[]|]; try done; try (injection H as <- <-; by eexists).
    run_quiet (sys_access retired) w2 H. injection H as <- <-. eexists. split; [done|].
    split; [by etransitivity|]. by case_decide.
  - assert (K2 : keeps_sessions w w2).
    { etransitivity; [done|]. intros id x. rewrite Hf, lookup_insert_ne, lookup_delete_ne; [done|..].
      - pose proof (in_session_ne_registry id x []) as Hne. rewrite app_nil_r in Hne. congruence.
      - pose proof (in_session_ne_registry id x (lit ".v2.retired")). unfold retired. congruence. }
    run_quiet (sync_directory (default (lit ".") (parent_dir (xdebug_design_registry_path env)))) w2 H.
    injection H as <- <-. eexists. split; [done|]. split; [by etransitivity|]. by destruct a.
Qed.

Lemma parse_file_spec path w w' r :
  parse_record_file path w = (w', r) ->
  exists x, r = Some x /\ keeps_sessions w w' /\
  match x with
  | inl res => status res <> Ok /\ (status res = NotFound -> files w !! path = None)
  | inr s => exists f v, files w !! path = Some f /\ json_parse (contents f) = Some v /\
      session_registry_record_from_json v = inr s
  end.
Proof.
  unfold parse_record_file. destruct (files w !! path) as [f|] eqn:Ef.
  - intros H. run_quiet syscall w H. destruct a; [injection H as <- <-; by eexists|].
    destruct (json_parse _) as [v|] eqn:Ep; [|injection H as <- <-; by eexists].
    destruct (session_registry_record_from_json v) eqn:Er; injection H as <- <-; eexists;
      (split; [done|]); (split; [done|]); [done|by exists f, v].
  - intros [= <- <-]. by eexists.
Qed.

Lemma merge_spec path s w w' r :
  merge_activity path s w = (w', r) ->
  exists t, r = Some (set_last_active t s) /\ keeps_sessions w w' /\
    (t = last_active s \/ exists f, files w !! path = Some f /\ mtime f = t).
Proof.
  unfold merge_activity. assert (Hs : set_last_active (last_active s) s = s) by by destruct s.
  assert (Hnone : forall w', keeps_sessions w w' ->
    exists t, Some s = Some (set_last_active t s) /\ keeps_sessions w w' /\
      (t = last_active s \/ exists f, files w !! path = Some f /\ mtime f = t)).
  { intros w1 K. exists (last_active s). rewrite Hs. split_and!; [done|done|by left]. }
  destruct (files w !! path) as [f|] eqn:Ef; intros H; [|injection H as <- <-; by apply Hnone].
  run_quiet syscall w H. injection H as <- <-. case_decide; [|by apply Hnone].
  case_if; [|by apply Hnone]. exists (mtime f). split_and!; [done|done|right; by exists f].
Qed.

(** What [read_one] returns, for every schedule. *)
Lemma read_one_spec id w w' r :
  read_one env id w = (w', r) ->
  exists x, r = Some x /\ keeps_sessions w w' /\
  match x with
  | inl res => status res <> Ok /\ (status res = NotFound -> files w !! state_path id = None)
  | inr s => exists s0 t, stored w id = Some s0 /\ s = set_last_active t s0 /\
      (t = last_active s0 \/ exists f, files w !! activity_path id = Some f /\ mtime f = t)
  end.
Proof.
  unfold read_one, ibind at 1. destruct (check_legacy_registry env w) as [w1 r1] eqn:E1.
  apply legacy_spec in E1 as (leg & -> & K1 & Hl). unfold ok.
  case_bool_decide as Hok; cbn [negb]; [|intros [= <- <-]; by eexists].
  unfold ibind at 1. destruct (parse_record_file _ w1) as [w2 r2] eqn:E2.
  apply parse_file_spec in E2 as (x & -> & K2 & Hx).
  assert (K : keeps_sessions w w2) by by etransitivity.
  assert (Hst : files w1 !! state_path id = files w !! state_path id) by apply K1.
  destruct x as [res|s0].
  { intros [= <- <-]. eexists. split; [done|]. split; [done|]. by rewrite <- Hst. }
  destruct Hx as (f & v & Hf & Hp & Hr).
  destruct (eqs (session_id s0) id) eqn:Eid; cbn [negb]; [|intros [= <- <-]; by eexists].
  unfold ibind. destruct (merge_activity _ s0 w2) as [w3 r3] eqn:E3.
  apply merge_spec in E3 as (t & -> & K3 & Ht). intros [= <- <-]. eexists. split; [done|].
  split; [by etransitivity|]. exists s0, t. split; [|split; [done|]].
  - unfold stored. rewrite <- Hst, Hf, Hp, Hr. by rewrite Eid.
  - destruct Ht as [Ht|(g & Hg & Ht)]; [by left|]. right. exists g. split; [|done].
    rewrite <- Hg. symmetry. apply (K id (lit "activity")).
Qed.

(** ** Writing *)

Lemma temp_in_session id x s :
  temp_name (in_session id x) s = in_session id (x ++ lit ".tmp." ++ s).
Proof. unfold temp_name, in_session. by rewrite <- !app_assoc. Qed.

Lemma state_in_session id : state_path id = in_session id (lit "state.json").
Proof. done. Qed.
Lemma activity_in_session id : activity_path id = in_session id (lit "activity").
Proof. done. Qed.

(** A write to one session file leaves a differently named one alone. *)
Lemma session_write_frame id id' x y data w w' r :
  write_atomic_file (in_session id x) data w = (w', r) ->
  session_dir_name id <> session_dir_name id' \/ y <> x /\ (forall s, y <> x ++ lit ".tmp." ++ s) ->
  files w' !! in_session id' y = files w !! in_session id' y.
Proof.
  intros E Hd. apply write_atomic_spec in E as (b & -> & Hoff & _). apply Hoff.
  - intros [E1 E2]%in_session_inj. destruct Hd as [Hd|[Hd _]]; congruence.
  - intros [s Hs]. rewrite temp_in_session in Hs. apply in_session_inj in Hs as [E1 E2].
    destruct Hd as [Hd|[_ Hd]]; [congruence|]. by apply (Hd s).
Qed.

(** The state file of [id] is missing or holds a record of [id]. *)
Definition owned (w : world) (id : bytes) : Prop :=
  files w !! state_path id = None \/ is_Some (stored w id).

Lemma owned_other w id id' :
  owned w id -> id' <> id -> state_path id' = state_path id -> stored w id' = None.
Proof.
  intros Ho Hne Hp. unfold owned, stored in *. rewrite Hp. destruct (files w !! _) as [f|]; [|done].
  destruct Ho as [Ho|[s Ho]]; [done|]. destruct (json_parse _) as [v|]; [|done].
  destruct (session_registry_record_from_json v) as [|s']; [done|].
  destruct (eqs (session_id s') id) eqn:E; [|done]. apply eqs_true in E. subst.
  by rewrite (proj2 (eqs_false _ _)) by congruence.
Qed.

(** A computation that changes session state files only at [id]. *)
Lemma stored_frame w w' id id' :
  owned w id -> owned w' id -> id' <> id ->
  (session_dir_name id <> session_dir_name id' ->
   files w' !! state_path id' = files w !! state_path id') ->
  stored w' id' = stored w id'.
Proof.
  intros Ho Ho' Hne Hf. destruct (decide (session_dir_name id = session_dir_name id')) as [E|E].
  - assert (Hp : state_path id' = state_path id).
    { unfold xdebug_design_session_state_path, xdebug_design_session_dir, tool_session_dir.
      by rewrite E. }
    by rewrite (owned_other w id id'), (owned_other w' id id').
  - apply stored_same, Hf, E.
Qed.

Lemma owned_same w w' id :
  files w' !! state_path id = files w !! state_path id -> owned w id -> owned w' id.
Proof. intros E. unfold owned. rewrite E. by rewrite (stored_same w w' id E). Qed.

Lemma write_one_spec s w w' r :
  session_ok s -> owned w (session_id s) -> write_one env s w = (w', r) ->
  owned w' (session_id s) /\
  (forall id, id <> session_id s -> stored w' id = stored w id) /\
  (stored w' (session_id s) = stored w (session_id s) /\ r <> Some true \/
   stored w' (session_id s) = Some s /\ r <> None).
Proof.
  intros Hok Ho H. unfold write_one in H. set (id := session_id s) in *.
  destruct (quiet_session_dir env id w) as (b & w1 & E1 & [Hf _]). unfold ibind at 1 in H. rewrite E1 in H.
  assert (Hsame : forall id', stored w1 id' = stored w id') by (intros; apply stored_same; by rewrite Hf).
  assert (Ho1 : owned w1 id) by (eapply owned_same; [|exact Ho]; by rewrite Hf).
  destruct b; cbn [negb] in H; [|injection H as <- <-; split; [done|]; split; [done|]; by left].
  unfold dump_line in H. destruct (json_dump _) as [t|] eqn:Ed;
    [|injection H as <- <-; split; [done|]; split; [done|]; by left].
  unfold ibind, iret in H. pose proof H as Hfr.
  apply write_atomic_spec in H as (b & -> & _ & Hout).
  assert (Hst : owned w' id /\ (stored w' id = stored w1 id /\ b = false \/ stored w' id = Some s)).
  { destruct Hout as [[E ->]|[tm E]].
    - split; [by eapply owned_same|]. left. split; [by apply stored_same|done].
    - assert (Hs : stored w' id = Some s) by by eapply stored_written.
      split; [right; rewrite Hs; by eexists|by right]. }
  destruct Hst as [Ho' Hst]. split; [done|]. split.
  - intros id' Hne. rewrite <- Hsame. apply (stored_frame w1 w' id id'); [done..|].
    intros Hd. eapply (session_write_frame id id'); [exact Hfr|by left].
  - rewrite <- Hsame. destruct Hst as [[E ->]|E]; [by left|by right].
Qed.

(** ** The life cycle of a generation

    The abstract registry is a partial map from session ids to records.
    An operation either leaves it alone or makes its one transition: a
    reservation fills an empty slot with an [opening] record; an update or a
    finalization replaces an [opening] record of the same generation;
    a cleanup failure and a removal need the generation only. *)

Inductive reg_op :=
| Reserve (s : SessionInfo)
| Update (s : SessionInfo) (expected : bytes)
| Finalize (s : SessionInfo) (expected : bytes)
| MarkCleanup (s : SessionInfo) (expected : bytes)
| Touch (id expected : bytes) (t : Z)
| Remove (id expected : bytes).

Definition op_id (op : reg_op) : bytes :=
  match op with
  | Reserve s | Update s _ | Finalize s _ | MarkCleanup s _ => session_id s
  | Touch id _ _ | Remove id _ => id
  end.

(** The records the operations are given are valid ones. *)
Definition op_valid (op : reg_op) : Prop :=
  match op with
  | Reserve s | Update s _ | Finalize s _ | MarkCleanup s _ => session_ok s
  | _ => True
  end.

Definition run_op (op : reg_op) : io SessionRegistryResult :=
  match op with
  | Reserve s => reserve_opening env s
  | Update s g => update_opening env s g
  | Finalize s g => finalize_opening env s g
  | MarkCleanup s g => mark_cleanup_failed env s g
  | Touch id g t => touch_if_generation env id g t
  | Remove id g => remove_if_generation env id g
  end.

Inductive transition : reg_op -> option SessionInfo -> option SessionInfo -> Prop :=
| t_reserve s : lifecycle_state s = lit "opening" ->
    transition (Reserve s) None (Some s)
| t_update c s : lifecycle_state s = lit "opening" -> lifecycle_state c = lit "opening" ->
    generation s = generation c -> transition (Update s (generation c)) (Some c) (Some s)
| t_finalize c s : lifecycle_state s = lit "active" -> lifecycle_state c = lit "opening" ->
    generation s = generation c -> transition (Finalize s (generation c)) (Some c) (Some s)
| t_cleanup c s : lifecycle_state s = lit "cleanup_failed" ->
    generation s = generation c -> transition (MarkCleanup s (generation c)) (Some c) (Some s)
| t_touch id c t : transition (Touch id (generation c) t) (Some c) (Some c)
| t_remove id c : transition (Remove id (generation c)) (Some c) None.

(** What one run of an operation may do to the stored records. *)
Definition op_effect (op : reg_op) (w w' : world) (r : option SessionRegistryResult) : Prop :=
  (forall id, id <> op_id op -> stored w' id = stored w id) /\
  (transition op (stored w (op_id op)) (stored w' (op_id op)) \/
   stored w' (op_id op) = stored w (op_id op) /\
   forall res, r = Some res -> status res <> Ok).

Lemma effect_none op w w' r :
  keeps_sessions w w' -> (forall res, r = Some res -> status res <> Ok) -> op_effect op w w' r.
Proof.
  intros K Hr. assert (Hs : forall id, stored w' id = stored w id).
  { intros id. apply stored_same, K. }
  split; [by intros|]. right. by split.
Qed.

Lemma effect_fail op w w' s m :
  keeps_sessions w w' -> s <> Ok -> op_effect op w w' (Some (MkResult s m)).
Proof. intros K Hs. apply effect_none; [done|]. by intros res [= <-]. Qed.

Lemma write_result_effect op s m w0 w w' r :
  session_ok s -> op_id op = session_id s -> keeps_sessions w0 w -> owned w0 (session_id s) ->
  transition op (stored w0 (session_id s)) (Some s) ->
  write_result env s m w = (w', r) -> op_effect op w0 w' r.
Proof.
  intros Hok Hid K Ho Ht. unfold write_result, ibind at 1.
  destruct (write_one env s w) as [w1 r1] eqn:E.
  assert (Hsame : forall id, stored w id = stored w0 id) by (intros id; apply stored_same, K).
  apply write_one_spec in E as (_ & Hoff & Hst); [|done|by eapply owned_same; [apply K|]].
  intros H. assert (w' = w1) as -> by (destruct r1; injection H; done).
  unfold op_effect. rewrite Hid. split; [intros id Hne; by rewrite Hoff, Hsame|].
  rewrite Hsame in Hst. destruct Hst as [[E Hr]|[E _]]; [right|left; by rewrite E].
  split; [done|]. intros res ->. destruct r1 as [[]|]; [done|by injection H as <-|done].
Qed.

(** The guarded replacement shared by the three conditional writes. *)
Lemma guarded_write op s m w w1 w' r c :
  keeps_sessions w w1 -> session_ok s -> op_id op = session_id s -> stored w (session_id s) = Some c ->
  transition op (Some c) (Some s) ->
  write_result env s m w1 = (w', r) -> op_effect op w w' r.
Proof.
  intros K Hok Hid Hc Ht. apply write_result_effect; [done|done|done| |by rewrite Hc].
  right. by rewrite Hc.
Qed.

Lemma set_last_active_generation t s : generation (set_last_active t s) = generation s.
Proof. done. Qed.
Lemma set_last_active_lifecycle t s : lifecycle_state (set_last_active t s) = lifecycle_state s.
Proof. done. Qed.

Lemma reserve_effect s w w' r :
  session_ok s -> reserve_opening env s w = (w', r) -> op_effect (Reserve s) w w' r.
Proof.
  intros Hok. unfold reserve_opening.
  destruct (eqs (lifecycle_state s) _) eqn:El; cbn [negb];
    [|intros [= <- <-]; by apply effect_fail]. apply eqs_true in El.
  unfold ibind. destruct (read_one env (session_id s) w) as [w1 r1] eqn:E1.
  apply read_one_spec in E1 as (x & -> & K & Hx). destruct x as [res|c];
    [|intros [= <- <-]; by apply effect_fail].
  case_decide as Hn; [|intros [= <- <-]; apply effect_none; [done|]; intros ? [= <-]; apply Hx].
  destruct Hx as [_ Hx]. specialize (Hx Hn).
  apply write_result_effect; [done|done|done|by left|].
  assert (stored w (session_id s) = None) as -> by (unfold stored; by rewrite Hx). by constructor.
Qed.

(** Run the guards of a conditional write up to the call of [write_one]. *)
Ltac guard_steps id w :=
  let E1 := fresh "E" in
  unfold ibind at 1; destruct (read_one env id w) as [? ?] eqn:E1;
  apply read_one_spec in E1 as (x & -> & K & Hx); destruct x as [res|c];
  [intros [= <- <-]; apply effect_none; [done|]; intros ? [= <-]; apply Hx
  |destruct Hx as (c0 & t0 & Hc & -> & Ht0);
   rewrite ?set_last_active_generation, ?set_last_active_lifecycle].

Lemma update_effect s g w w' r :
  session_ok s -> update_opening env s g w = (w', r) -> op_effect (Update s g) w w' r.
Proof.
  intros Hok. unfold update_opening.
  case_if; [intros [= <- <-]; by apply effect_fail|]. sbool. subst g.
  guard_steps (session_id s) w.
  destruct (eqs (generation c0) _) eqn:Eg; cbn [negb]; [|intros [= <- <-]; by apply effect_fail].
  destruct (eqs (lifecycle_state c0) _) eqn:El; cbn [negb]; [|intros [= <- <-]; by apply effect_fail].
  sbool. eapply guarded_write; [done..|]. rewrite <- Eg. by constructor.
Qed.

Lemma finalize_effect s g w w' r :
  session_ok s -> finalize_opening env s g w = (w', r) -> op_effect (Finalize s g) w w' r.
Proof.
  intros Hok. unfold finalize_opening.
  case_if; [intros [= <- <-]; by apply effect_fail|]. sbool. subst g.
  guard_steps (session_id s) w.
  destruct (eqs (generation c0) _) eqn:Eg; cbn [negb]; [|intros [= <- <-]; by apply effect_fail].
  destruct (eqs (lifecycle_state c0) _) eqn:El; cbn [negb]; [|intros [= <- <-]; by apply effect_fail].
  sbool. eapply guarded_write; [done..|]. rewrite <- Eg. by constructor.
Qed.

Lemma cleanup_effect s g w w' r :
  session_ok s -> mark_cleanup_failed env s g w = (w', r) -> op_effect (MarkCleanup s g) w w' r.
Proof.
  intros Hok. unfold mark_cleanup_failed.
  case_if; [intros [= <- <-]; by apply effect_fail|]. sbool. subst g.
  guard_steps (session_id s) w.
  destruct (eqs (generation c0) _) eqn:Eg; cbn [negb]; [|intros [= <- <-]; by apply effect_fail].
  sbool. eapply guarded_write; [done..|]. rewrite <- Eg. by constructor.
Qed.

(** Opening and stamping a marker touches that file only. *)
Lemma open_create_off path w w' r :
  sys_open_create path w = (w', r) ->
  exists e, r = Some e /\ agree_off path w w' /\ (e = None -> is_Some (files w' !! path)).
Proof.
  unfold sys_open_create, ibind. destruct (syscall_eq w) as (s1 & e1 & ->).
  destruct e1; [intros [= <- <-]; by eexists|]. cbn [files set_schedule clock].
  destruct (files w !! path) eqn:E; intros [= <- <-]; eexists; (split; [done|]).
  - split; [done|]. intros _. cbn. rewrite E. by eexists.
  - split; [|intros _; cbn; rewrite lookup_insert_eq; by eexists].
    intros p Hp. cbn. by rewrite lookup_insert_ne by congruence.
Qed.

Lemma futimens_off path t w w' r :
  sys_futimens path t w = (w', r) ->
  exists e, r = Some e /\ agree_off path w w' /\
    (e = None -> is_Some (files w !! path) -> exists f, files w' !! path = Some f /\ mtime f = t).
Proof.
  unfold sys_futimens, ibind. destruct (syscall_eq w) as (s1 & e1 & ->).
  destruct e1; [intros [= <- <-]; by eexists|]. intros [= <- <-]. eexists. split; [done|].
  split; [intros p Hp; cbn; by rewrite lookup_alter_ne by congruence|].
  intros _ [f Hf]. exists (MkFile (contents f) t). cbn. by rewrite lookup_alter_eq, Hf.
Qed.

Lemma agree_off_stored id w w' :
  agree_off (activity_path id) w w' -> forall id', stored w' id' = stored w id'.
Proof.
  intros Ha id'. apply stored_same, Ha. rewrite state_in_session, activity_in_session.
  by intros [_ E]%in_session_inj.
Qed.

(** The last activity the registry reports for [id]. *)
Definition activity (w : world) (id : bytes) : Z :=
  let recorded := match stored w id with Some s => last_active s | None => 0 end in
  match files w !! activity_path id with
  | Some f => Z.max recorded (mtime f)
  | None => recorded
  end.

Lemma touch_spec id g t w w' r :
  touch_if_generation env id g t w = (w', r) ->
  exists res, r = Some res /\ (forall id', stored w' id' = stored w id') /\
    (status res = Ok -> t <= activity w' id /\ exists c, stored w id = Some c /\ generation c = g).
Proof.
  unfold touch_if_generation, ibind at 1. destruct (read_one env id w) as [w1 r1] eqn:E1.
  apply read_one_spec in E1 as (x & -> & K & Hx).
  assert (Hs : forall id', stored w1 id' = stored w id') by (intros id'; apply stored_same, K).
  destruct x as [res|c]; [intros [= <- <-]; exists res; by destruct Hx|].
  destruct Hx as (c0 & t0 & Hc & -> & Ht0). rewrite set_last_active_generation.
  destruct (eqs (generation c0) g) eqn:Eg; cbn [negb]; [|intros [= <- <-]; by eexists].
  apply eqs_true in Eg. cbn [last_active set_last_active].
  destruct (Z.leb_spec t t0) as [Hle|Hle].
  { intros [= <- <-]. eexists. split; [done|]. split; [done|]. intros _. split; [|by exists c0].
    unfold activity. rewrite Hs, Hc. rewrite activity_in_session, K, <- activity_in_session.
    destruct Ht0 as [->|(f & Hf & <-)]; [case_match; lia|]. rewrite Hf. lia. }
  unfold ibind at 1. destruct (sys_open_create _ w1) as [w2 r2] eqn:E2.
  apply open_create_off in E2 as (e2 & -> & A2 & H2).
  assert (Hs2 : forall id', stored w2 id' = stored w id')
    by (intros id'; rewrite <- Hs; by eapply agree_off_stored).
  destruct e2; [intros [= <- <-]; by eexists|].
  unfold ibind at 1. destruct (sys_futimens _ t w2) as [w3 r3] eqn:E3.
  apply futimens_off in E3 as (e3 & -> & A3 & H3).
  assert (Hs3 : forall id', stored w3 id' = stored w id')
    by (intros id'; rewrite <- Hs2; by eapply agree_off_stored).
  unfold ibind. destruct (quiet_syscall w3) as (e4 & w4 & -> & [Hf4 _]). intros [= <- <-].
  eexists. split; [done|]. split.
  { intros id'. rewrite <- Hs3. apply stored_same. by rewrite Hf4. }
  case_bool_decide; cbn [andb]; [|done]. case_bool_decide; [|done]. intros _.
  split; [|by exists c0]. destruct (H3 ltac:(done) (H2 eq_refl)) as (f & Hf & <-).
  unfold activity. rewrite Hf4, Hf. lia.
Qed.

(** ** Removal *)

Definition history_path (id g : bytes) : bytes := history_dir env id ++ lit "/" ++ g ++ lit ".json".

Lemma history_in_session id g :
  history_path id g = in_session id (lit "history/" ++ g ++ lit ".json").
Proof. unfold history_path, history_dir, in_session. by rewrite <- !app_assoc. Qed.

(** The archive holds the record [c], closed. *)
Definition archived (w : world) (id g : bytes) (c : SessionInfo) : Prop :=
  exists t now text tm, json_dump (closed_record (set_last_active t c) now) = Some text /\
    files w !! history_path id g = Some (MkFile (text ++ newline) tm).

Lemma effect_stored op w w' r :
  (forall id, stored w' id = stored w id) -> (forall res, r = Some res -> status res <> Ok) ->
  op_effect op w w' r.
Proof. intros Hs Hr. split; [by intros|]. right. by split. Qed.

(** Both [unlink] calls and the final sync, from a world that stores [c]. *)
Lemma retire_spec id c w w' r :
  stored w id = Some c ->
  (e1 <-- sys_unlink (state_path id);;
   if unlink_failed e1
   then iret (MkResult IoError (lit "failed to retire closed session state"))
   else
     e2 <-- sys_unlink (activity_path id);;
     if unlink_failed e2
     then iret (MkResult IoError (lit "failed to retire session activity marker"))
     else
       synced <-- sync_directory (xdebug_design_session_dir env id);;
       iret (if (synced : bool) then result_ok
             else MkResult IoError (lit "failed to sync retired session state"))) w = (w', r) ->
  (forall p, p <> state_path id -> p <> activity_path id -> files w' !! p = files w !! p) /\
  ((files w' = files w /\ forall res, r = Some res -> status res <> Ok) \/
   files w' !! state_path id = None).
Proof.
  intros Hc. unfold ibind at 1. destruct (sys_unlink (state_path id) w) as [w1 r1] eqn:E1.
  apply unlink_spec in E1 as (e1 & -> & H1).
  destruct H1 as [[Hf He]|[Hf ->]].
  { destruct (unlink_failed e1) eqn:Eu.
    - intros [= <- <-]. rewrite Hf. split; [done|]. left. split; [done|]. by intros ? [= <-].
    - specialize (He eq_refl). unfold stored in Hc. by rewrite He in Hc. }
  cbn [unlink_failed].
  assert (Hne : state_path id <> activity_path id).
  { rewrite state_in_session, activity_in_session. by intros [_ E]%in_session_inj. }
  assert (Hgen : forall w', (files w' = files w1 \/ files w' = delete (activity_path id) (files w1)) ->
    (forall p, p <> state_path id -> p <> activity_path id -> files w' !! p = files w !! p) /\
    files w' !! state_path id = None).
  { intros w2 H2. split.
    - intros p Hp Hq. destruct H2 as [-> | ->]; [|rewrite lookup_delete_ne by congruence];
        rewrite Hf; by rewrite lookup_delete_ne by congruence.
    - destruct H2 as [-> | ->]; [|rewrite lookup_delete_ne by congruence];
        rewrite Hf; apply lookup_delete_eq. }
  unfold ibind at 1. destruct (sys_unlink (activity_path id) w1) as [w2 r2] eqn:E2.
  apply unlink_spec in E2 as (e2 & -> & H2).
  assert (Hw2 := Hgen w2 ltac:(destruct H2 as [[? _]|[? _]]; auto)).
  case_if; [intros [= <- <-]; split; [apply Hw2|right; apply Hw2]|].
  unfold ibind. destruct (quiet_sync_directory (xdebug_design_session_dir env id) w2)
    as (b & w3 & -> & [Hf3 _]). intros [= <- <-]. rewrite Hf3.
  split; [apply Hw2|right; apply Hw2].
Qed.

Lemma remove_spec id g w w' r :
  remove_if_generation env id g w = (w', r) ->
  op_effect (Remove id g) w w' r /\
  (forall c, stored w id = Some c -> stored w' id = None -> archived w' id g c).
Proof.
  assert (Hnop : forall c, (forall id, stored w' id = stored w id) ->
    stored w id = Some c -> stored w' id = None -> archived w' id g c)
    by (intros c Hs Hc Hn; by rewrite Hs, Hc in Hn).
  unfold remove_if_generation, ibind at 1. destruct (read_one env id w) as [w1 r1] eqn:E1.
  apply read_one_spec in E1 as (x & -> & K & Hx).
  assert (Hs1 : forall id', stored w1 id' = stored w id') by (intros id'; apply stored_same, K).
  destruct x as [res|c].
  { intros [= <- <-]. split; [|auto]. apply effect_stored; [done|]. intros ? [= <-]. apply Hx. }
  destruct Hx as (c0 & t0 & Hc & -> & Ht0). rewrite set_last_active_generation.
  destruct (eqs (generation c0) g) eqn:Eg; cbn [negb];
    [|intros [= <- <-]; split; [by apply effect_stored; [|intros ? [= <-]]|auto]].
  apply eqs_true in Eg. subst g.
  unfold ibind at 1. destruct (quiet_ensure_directory (history_dir env id) w1) as (b & w2 & -> & [Hf2 _]).
  assert (Hs2 : forall id', stored w2 id' = stored w id')
    by (intros id'; rewrite <- Hs1; apply stored_same; by rewrite Hf2).
  destruct b; cbn [negb]; [|intros [= <- <-]; split; [by apply effect_stored; [|intros ? [= <-]]|auto]].
  unfold ibind at 1. cbn [get_clock]. unfold ibind at 1, dump_line.
  destruct (json_dump _) as [text|] eqn:Ed;
    [|intros [= <- <-]; split; [by apply effect_stored|auto]].
  cbn [iret]. unfold ibind at 1. fold (history_path id (generation c0)).
  destruct (write_atomic_file (history_path id (generation c0)) (text ++ newline) w2)
    as [w3 r3] eqn:E3. pose proof E3 as Hfr. rewrite history_in_session in Hfr.
  assert (Hs3 : forall id', stored w3 id' = stored w id').
  { intros id'. rewrite <- Hs2. apply stored_same.
    eapply (session_write_frame id id'); [exact Hfr|]. right. by split. }
  apply write_atomic_spec in E3 as (b & -> & _ & Hout).
  destruct b; cbn [negb]; [|intros [= <- <-]; split; [by apply effect_stored; [|intros ? [= <-]]|auto]].
  destruct Hout as [[_ ?]|[tm Hh]]; [done|]. intros H.
  apply retire_spec with (c := c0) in H as [Hoff Hend]; [|by rewrite Hs3].
  assert (Hoff' : forall id', session_dir_name id <> session_dir_name id' ->
    files w' !! state_path id' = files w3 !! state_path id').
  { intros id' Hd. apply Hoff; rewrite ?state_in_session, ?activity_in_session;
      intros [? ?]%in_session_inj; congruence. }
  destruct Hend as [[Hf Hr]|Hnone].
  { split; [|intros c' Hc' Hn]; [apply effect_stored; [|done]|]; [intros id'; rewrite <- Hs3|];
      [apply stored_same; by rewrite Hf|].
    rewrite (stored_same w3 w') in Hn by (by rewrite Hf). rewrite Hs3 in Hn. congruence. }
  split.
  - split.
    + intros id' Hne. rewrite <- Hs3. apply (stored_frame w3 w' id id'); auto; [right|left; done].
      rewrite Hs3, Hc. by eexists.
    + left. cbn [op_id]. rewrite Hc. assert (stored w' id = None) as -> by (unfold stored; by rewrite Hnone).
      constructor.
  - intros c' Hc' _. rewrite Hc in Hc'. injection Hc' as <-. exists t0, (clock w2), text, tm. split; [done|].
    rewrite Hoff; [done|..]; rewrite history_in_session, ?state_in_session, ?activity_in_session;
      by intros [_ ?]%in_session_inj.
Qed.

(** ** Sequences of operations *)

Lemma run_op_effect op w w' r :
  op_valid op -> run_op op w = (w', r) -> op_effect op w w' r.
Proof.
  destruct op; cbn [op_valid run_op]; intros Hv H.
  - by apply reserve_effect.
  - by apply update_effect.
  - by apply finalize_effect.
  - by apply cleanup_effect.
  - apply touch_spec in H as (res & -> & Hs & Hok). split; [by intros|].
    destruct (decide (status res = Ok)) as [E|E]; [|right; split; [done|]; by intros ? [= <-]].
    destruct (Hok E) as (_ & c & Hc & <-). left. cbn [op_id]. rewrite Hs, Hc. constructor.
  - by apply remove_spec in H as [H _].
Qed.

Definition run_ops (ops : list reg_op) (w : world) : world :=
  foldl (fun w op => fst (run_op op w)) w ops.

Lemma transition_keeps op c o :
  transition op (Some c) o -> op <> Remove (op_id op) (generation c) ->
  exists c', o = Some c' /\ generation c' = generation c /\
    (lifecycle_state c <> lit "opening" -> lifecycle_state c' <> lit "opening").
Proof.
  intros H Hne. inversion H; subst; try (eexists; by split_and!).
  exists s. split_and!; [done|done|]. intros _ E. by rewrite E in *.
Qed.

(** ** Properties *)


(** A stored generation survives any sequence of operations, with any
    failures, that does not remove that very generation: the id keeps a
    record of the same generation, and a record past the opening state never
    returns to it. *)
Theorem registry_generation_stable ops w id c :
  Forall op_valid ops -> stored w id = Some c -> Remove id (generation c) ∉ ops ->
  exists c', stored (run_ops ops w) id = Some c' /\ generation c' = generation c /\
    (lifecycle_state c <> lit "opening" -> lifecycle_state c' <> lit "opening").
Proof.
  unfold run_ops. intros Hv. revert w c. induction Hv as [|op ops Hop Hv IH]; intros w c Hc Hn.
  { cbn [foldl]. by exists c. }
  cbn [foldl]. destruct (run_op op w) as [w1 r1] eqn:E. cbn [fst].
  apply run_op_effect in E as [Hoff Heff]; [|done].
  assert (Hw1 : exists c1, stored w1 id = Some c1 /\ generation c1 = generation c /\
    (lifecycle_state c <> lit "opening" -> lifecycle_state c1 <> lit "opening")).
  { destruct (decide (id = op_id op)) as [->|Hne]; [|exists c; by rewrite Hoff].
    rewrite Hc in Heff. destruct Heff as [Ht|[-> _]]; [|by exists c].
    apply transition_keeps in Ht; [done|]. intros E. apply Hn. rewrite <- E. left. }
  destruct Hw1 as (c1 & Hc1 & Hg & Hl). destruct (IH w1 c1 Hc1) as (c2 & Hc2 & Hg2 & Hl2).
  { rewrite Hg. intros Hin. apply Hn. by right. }
  exists c2. split; [done|]. split; [congruence|auto].
Qed.

(** A session leaves the registry only after its record, closed, is
    complete in the history file of its generation: whenever a removal
    empties the slot, even when it then reports an error, the archive is
    there. *)
Theorem registry_remove_archives id g w c :
  stored w id = Some c -> stored (fst (run_op (Remove id g) w)) id = None ->
  generation c = g /\ archived (fst (run_op (Remove id g) w)) id g c.
Proof.
  intros Hc Hn. destruct (run_op (Remove id g) w) as [w' r] eqn:E. cbn [fst] in *.
  apply remove_spec in E as [[_ Heff] Ha]. split; [|by apply Ha].
  cbn [op_id] in Heff. rewrite Hc, Hn in Heff. destruct Heff as [Ht|[? _]]; [|done].
  by inversion Ht.
Qed.

(** A touch changes no record, and one that succeeds on the expected
    generation leaves the session's reported activity no older than the
    time it was given. *)
Theorem registry_touch_advances id g t w :
  exists res, snd (run_op (Touch id g t) w) = Some res /\
    (forall id', stored (fst (run_op (Touch id g t) w)) id' = stored w id') /\
    (status res = Ok -> t <= activity (fst (run_op (Touch id g t) w)) id /\
       exists c, stored w id = Some c /\ generation c = g).
Proof.
  destruct (run_op (Touch id g t) w) as [w' r] eqn:E. cbn [fst snd].
  by apply touch_spec in E.
Qed.
End Theory.

(** C9: [write_atomic_file] is all or nothing under every schedule of
    failures and short writes: it never throws; the target ends with exactly
    the new data, or as it was (and then the call reports failure); and no
    file other than the target and its own temporary changes. *)
Theorem registry_atomic_write path data w :
  let (w', r) := write_atomic_file path data w in
  exists b, r = Some b /\
    (forall p, p <> path -> ~ temp_of path p -> files w' !! p = files w !! p) /\
    (files w' !! path = files w !! path /\ b = false \/
     exists t, files w' !! path = Some (MkFile data t)).
Proof.
  destruct (write_atomic_file path data w) as [w' r] eqn:E. by apply write_atomic_spec in E.
Qed.

(** ** Instances *)

Definition sample_env : Env := MkEnv (lit "/h") [] 0.
(** A registry that is empty, with one short write scheduled. *)
Definition sample_world : world := MkWorld ∅ ∅ [Done; Done; Done; Done; Done; Done; Done; Partial 3] [lit "AAAAAA"] 9.
Definition sample_gen : bytes := replicate 64 "a"%char.

Lemma sample_ok : session_ok sample_session.
Proof.
  apply (record_parse_ok (session_registry_record_to_json sample_session)); vm_compute; reflexivity.
Qed.

(** The registry after a reservation. *)
Definition reserved_world : world := fst (run_op sample_env (Reserve sample_session) sample_world).

Lemma reserved_stored : stored sample_env reserved_world (lit "s1") = Some sample_session.
Proof. vm_compute. reflexivity. Qed.


(** A stale removal and a removal of another session. *)
Definition sample_ops : list reg_op := [Remove (lit "s1") (lit "stale"); Remove (lit "s2") sample_gen].

Lemma registry_generation_stable_witness :
  exists c', stored sample_env (run_ops sample_env sample_ops reserved_world) (lit "s1") = Some c' /\
    generation c' = sample_gen /\
    (lifecycle_state sample_session <> lit "opening" -> lifecycle_state c' <> lit "opening").
Proof.
  apply (registry_generation_stable sample_env sample_ops reserved_world (lit "s1") sample_session).
  - repeat constructor.
  - exact reserved_stored.
  - intros Hin. apply list_elem_of_In in Hin as [E|[E|[]]]; vm_compute in E; discriminate E.
Defined.

Lemma registry_remove_archives_witness :
  generation sample_session = sample_gen /\
  archived sample_env (fst (run_op sample_env (Remove (lit "s1") sample_gen) reserved_world))
    (lit "s1") sample_gen sample_session.
Proof.
  apply (registry_remove_archives sample_env).
  - exact reserved_stored.
  - vm_compute. reflexivity.
Defined.

Lemma registry_touch_advances_witness :
  exists res, snd (run_op sample_env (Touch (lit "s1") sample_gen 50) reserved_world) = Some res /\
    status res = Ok /\
    50 <= activity sample_env
      (fst (run_op sample_env (Touch (lit "s1") sample_gen 50) reserved_world)) (lit "s1").
Proof.
  destruct (registry_touch_advances sample_env (lit "s1") sample_gen 50 reserved_world)
    as (res & Hres & _ & Hok).
  assert (Hr : snd (run_op sample_env (Touch (lit "s1") sample_gen 50) reserved_world) = Some result_ok)
    by (vm_compute; reflexivity).
  assert (E : status res = Ok) by (rewrite Hr in Hres; by injection Hres as <-).
  exists res. split; [exact Hres|]. split; [exact E|]. exact (proj1 (Hok E)).
Defined.
