(* ===== verification/SessionArtifacts.v ===== *)
(** * SessionArtifacts: the generation marker and artifact removal

    Models the rest of [src/session/session_paths.cpp] over the file system
    of [SessionRegistry]: the marker file that names the last generation a
    session directory belonged to, and the conditional removal of a
    generation's run-time artifacts. The theorems show that the marker is
    replaced atomically and that removal does nothing unless the marker names
    the expected generation and then touches run-time artifacts only. *)

From S2P Require Import Prelude CLib Json SessionTypes SessionContract SessionRegistry SessionRegistryTheory.

Open Scope Z_scope.

(** ** Operations *)

(** [unlink(path) == 0 || errno == ENOENT] *)
Definition remove_file_if_exists (path : bytes) : io bool :=
  e <-- sys_unlink path;;
  iret (negb (unlink_failed e)).

(** The entries [readdir] yields, files and directories. *)
Definition all_entries (w : world) (d : bytes) : list bytes :=
  omap (strip_dir d) (elements (dirs w) ++ map fst (map_to_list (files w))).

(** [rmdir(path)] of a directory the caller emptied. *)
Definition sys_rmdir (path : bytes) : io (option errno) :=
  e <-- syscall;;
  match e with
  | Some e => iret (Some e)
  | None => fun w => (set_dirs (dirs w ∖ {[path]}) w, Some None)
  end.

(** The [readdir] loop of [remove_tree_if_exists]: [remove] is the recursive
    call; the result is [ok] and whether the loop ended with [errno] set. *)
Fixpoint remove_entries (remove : bytes -> io bool) (path : bytes) (entries : list bytes) (ok : bool)
  : io (bool * bool) :=
  e <-- syscall;;
  if decide (e = None) then
    match entries with
    | [] => iret (ok, false)
    | name :: entries' =>
        removed <-- remove (path ++ lit "/" ++ name);;
        remove_entries remove path entries' (ok && removed)
    end
  else iret (ok, true).

(** The nesting depth is bounded by the number of directories. *)
Fixpoint remove_tree (fuel : nat) (path : bytes) : io bool := fun w =>
  match fuel with
  | O => (w, Some false)
  | S f =>
      if decide (path ∈ dirs w) then
        (stat <-- syscall;;
         opened <-- syscall;;
         if negb (bool_decide (stat = None) && bool_decide (opened = None)) then iret false
         else
           r <-- remove_entries (remove_tree f) path (all_entries w path) true;;
           closed <-- syscall;;
           let ok := fst r && negb (snd r) && bool_decide (closed = None) in
           if ok then
             e <-- sys_rmdir path;;
             iret (negb (unlink_failed e))
           else iret false) w
      else
        match files w !! path with
        | None => (w, Some true)
        | Some _ =>
            (stat <-- syscall;;
             if decide (stat = None) then remove_file_if_exists path else iret false) w
        end
  end.

Definition remove_tree_if_exists (path : bytes) : io bool := fun w =>
  remove_tree (S (size (dirs w))) path w.

Section Artifacts.
Context (env : Env).

Definition xdebug_design_generation_marker_path (id : bytes) : bytes :=
  xdebug_design_session_dir env id ++ lit "/generation".
Definition xdebug_design_socket_path (id : bytes) : bytes := socket_path env engine_home_name id.

(** [open(path, O_WRONLY | O_CREAT | O_EXCL)] *)
Definition sys_open_excl (path : bytes) : io (option errno) :=
  e <-- syscall;;
  match e with
  | Some e => iret (Some e)
  | None => fun w =>
      match files w !! path with
      | Some _ => (w, Some (Some EEXIST))
      | None => (set_files (<[path := MkFile [] (clock w)]> (files w)) w, Some None)
      end
  end.

(** Fill the temporary file, rename it over the marker, sync the directory;
    remove it when a step fails. *)
Definition publish_marker (dir temp path payload : bytes) : io bool :=
  ok <-- write_sync_close true temp payload;;
  ok <-- when_ok ok (sys_rename temp path);;
  ok <-- (if (ok : bool) then sync_directory dir else iret false);;
  if (ok : bool) then iret true else (_ <-- remove_file_if_exists temp;; iret false).

Definition xdebug_design_write_generation_marker (id generation_ : bytes) : io bool :=
  if negb (valid_generation generation_) then iret false
  else
    dir <-- xdebug_design_ensure_session_dir env id;;
    if negb dir then iret false
    else
      let path := xdebug_design_generation_marker_path id in
      let temp := temp_name path generation_ in
      fd <-- sys_open_excl temp;;
      match fd with
      | Some _ => iret false
      | None =>
          publish_marker (xdebug_design_session_dir env id) temp path (generation_ ++ newline)
      end.

Definition xdebug_design_read_generation_marker (id : bytes) : io (option bytes) := fun w =>
  match files w !! xdebug_design_generation_marker_path id with
  | None => (w, Some None)
  | Some f =>
      (e <-- syscall;;
       if decide (e = None) then
         let payload := contents f in
         if negb (zlen payload =? 65) || negb (eqs (drop 64 payload) newline) then iret None
         else if forallb lower_hex (take 64 payload) then iret (Some (take 64 payload))
         else iret None
       else iret None) w
  end.

Definition xdebug_design_generation_matches (id generation_ : bytes) : io bool :=
  if str_empty generation_ then iret false
  else
    actual <-- xdebug_design_read_generation_marker id;;
    iret match actual with Some g => eqs g generation_ | None => false end.

(** The five removals, each attempted whatever the others gave, and the sync. *)
Definition remove_artifacts (id : bytes) : io bool :=
  let dir := xdebug_design_session_dir env id in
  ok1 <-- remove_file_if_exists (dir ++ lit "/session.json");;
  ok2 <-- remove_file_if_exists (dir ++ lit "/socket");;
  ok3 <-- remove_file_if_exists (xdebug_design_socket_path id);;
  ok4 <-- remove_file_if_exists (dir ++ lit "/endpoint.json");;
  ok5 <-- remove_tree_if_exists (dir ++ lit "/transport");;
  if ok1 && ok2 && ok3 && ok4 && ok5 then sync_directory dir else iret false.

Definition xdebug_design_remove_session_generation (id expected : bytes) : io bool :=
  matches <-- xdebug_design_generation_matches id expected;;
  if negb matches then iret false else remove_artifacts id.
End Artifacts.

(** ** Frames

    [touches P c]: whatever happens, [c] does not throw, creates no file and
    removes only files whose path satisfies [P]. *)

Definition touches {A} (P : bytes -> Prop) (c : io A) : Prop :=
  forall w, exists a w', c w = (w', Some a) /\ files w' ⊆ files w /\
    forall p, ~ P p -> files w' !! p = files w !! p.

Lemma touches_quiet {A} P (c : io A) : quiet c -> touches P c.
Proof.
  intros Hq w. destruct (Hq w) as (a & w' & E & [Hf _]). exists a, w'. rewrite Hf. done.
Qed.

Lemma touches_bind {A B} P (c : io A) (f : A -> io B) :
  touches P c -> (forall a, touches P (f a)) -> touches P (ibind c f).
Proof.
  intros Hc Hf w. unfold ibind. destruct (Hc w) as (a & w1 & -> & S1 & H1).
  destruct (Hf a w1) as (b & w2 & E & S2 & H2). exists b, w2. split; [done|].
  split; [by etransitivity|]. intros p Hp. by rewrite H2, H1.
Qed.

Lemma touches_if {A} P (b : bool) (c d : io A) :
  touches P c -> touches P d -> touches P (if b then c else d).
Proof. by destruct b. Qed.

Lemma touches_ret {A} P (a : A) : touches P (iret a).
Proof. apply touches_quiet, quiet_ret. Qed.

Lemma touches_unlink (P : bytes -> Prop) path : P path -> touches P (remove_file_if_exists path).
Proof.
  intros HP w. unfold remove_file_if_exists, ibind, iret.
  destruct (sys_unlink path w) as [w1 r1] eqn:E. apply unlink_spec in E as (e & -> & H).
  eexists _, w1. split; [done|]. destruct H as [[-> _]|[-> _]]; [done|].
  split; [apply delete_subseteq|]. intros p Hp. rewrite lookup_delete_ne; [done|]. by intros ->.
Qed.

Create HintDb touches.
#[export] Hint Resolve touches_bind touches_if touches_ret touches_unlink : touches.
#[export] Hint Extern 2 (touches _ syscall) => apply touches_quiet, quiet_syscall : touches.

(** ** Removing a tree touches paths below it only *)

Definition under (root p : bytes) : Prop := p = root \/ exists rest, p = root ++ lit "/" ++ rest.

Lemma under_child root name p : under (root ++ lit "/" ++ name) p -> under root p.
Proof.
  intros [->|[rest ->]]; right; [by eexists|]. exists (name ++ lit "/" ++ rest). by rewrite <- !app_assoc.
Qed.

Lemma touches_weaken {A} (P Q : bytes -> Prop) (c : io A) :
  (forall p, P p -> Q p) -> touches P c -> touches Q c.
Proof.
  intros HPQ Hc w. destruct (Hc w) as (a & w' & E & S & H). exists a, w'. split; [done|].
  split; [done|]. auto.
Qed.

Lemma touches_entries P remove path entries ok :
  (forall name, touches P (remove (path ++ lit "/" ++ name))) ->
  touches P (remove_entries remove path entries ok).
Proof.
  intros Hr. revert ok. induction entries as [|name entries IH]; intros ok; cbn [remove_entries];
    (apply touches_bind; [auto with touches|]); intros e; case_decide; auto with touches.
Qed.

Lemma touches_tree fuel path : touches (under path) (remove_tree fuel path).
Proof.
  revert path. induction fuel as [|f IH]; intros path w; cbn [remove_tree]; [by eexists _, w|].
  case_decide; [|destruct (files w !! path); [|by eexists _, w]].
  - match goal with |- exists a w', ?c w = _ /\ _ => enough (H' : touches (under path) c) by apply H' end.
    apply touches_bind; [auto with touches|]. intros e1. apply touches_bind; [auto with touches|].
    intros e2. apply touches_if; [auto with touches|]. apply touches_bind.
    + apply touches_entries. intros name. eapply touches_weaken; [|apply IH]. intros p. apply under_child.
    + intros r. apply touches_bind; [auto with touches|]. intros e3. apply touches_if; [|auto with touches].
      apply touches_bind; [|auto with touches]. apply touches_bind; [auto with touches|].
      intros [e|]; [auto with touches|]. intros w'. by eexists _, _.
  - match goal with |- exists a w', ?c w = _ /\ _ => enough (H' : touches (under path) c) by apply H' end.
    apply touches_bind; [auto with touches|]. intros e. case_decide; [|auto with touches].
    apply touches_unlink. by left.
Qed.

Lemma touches_tree_if_exists path : touches (under path) (remove_tree_if_exists path).
Proof. intros w. apply touches_tree. Qed.

(** ** Without failures the recursion depth is enough *)

(** A run that succeeds, schedules nothing more and creates no directory. *)
Definition clean_run (c : io bool) (w : world) : Prop :=
  exists w', c w = (w', Some true) /\ schedule w' = [] /\ dirs w' ⊆ dirs w.

Lemma syscall_clean w : schedule w = [] -> syscall w = (w, Some None).
Proof. unfold syscall. by intros ->. Qed.

Lemma unlink_clean path w : schedule w = [] -> clean_run (remove_file_if_exists path) w.
Proof.
  intros Hs. unfold clean_run, remove_file_if_exists, ibind, sys_unlink. rewrite syscall_clean by done.
  destruct (files w !! path); eexists; (split; [done|]); done.
Qed.

Lemma entries_clean (remove : bytes -> io bool) (path : bytes) (D : gset bytes) (entries : list bytes) w :
  (forall name w, schedule w = [] -> dirs w ⊆ D -> clean_run (remove (path ++ lit "/" ++ name)) w) ->
  schedule w = [] -> dirs w ⊆ D ->
  exists w', remove_entries remove path entries true w = (w', Some (true, false)) /\
    schedule w' = [] /\ dirs w' ⊆ dirs w.
Proof.
  intros Hr. revert w. induction entries as [|name entries IH]; intros w Hs Hd;
    cbn [remove_entries]; unfold ibind at 1; rewrite syscall_clean by done; rewrite decide_True by done.
  - by eexists.
  - destruct (Hr name w Hs Hd) as (w1 & E1 & Hs1 & Hd1). unfold ibind. rewrite E1.
    destruct (IH w1 Hs1) as (w2 & E2 & Hs2 & Hd2); [by etransitivity|].
    exists w2. split; [done|]. split; [done|]. by etransitivity.
Qed.

(** The directories that are no shorter than a path. *)
Definition deep (path : bytes) (d : gset bytes) : gset bytes :=
  filter (fun p => (length path <= length p)%nat) d.

Lemma deep_child (path name : bytes) (d : gset bytes) :
  path ∈ d -> (size (deep (path ++ lit "/" ++ name) d) < size (deep path d))%nat.
Proof.
  intros Hin. apply subset_size. unfold deep. split.
  - intros p. rewrite !elem_of_filter, !length_app. cbn. intros [Hl ?]. split; [lia|done].
  - intros Hsub. specialize (Hsub path). rewrite !elem_of_filter, !length_app in Hsub. cbn in Hsub.
    destruct Hsub as [? _]; [done|lia].
Qed.

Lemma deep_mono (path : bytes) (d d' : gset bytes) : d ⊆ d' -> (size (deep path d) <= size (deep path d'))%nat.
Proof. intros H. apply subseteq_size. intros p. unfold deep. rewrite !elem_of_filter. set_solver. Qed.

Lemma tree_clean fuel path w :
  schedule w = [] -> (size (deep path (dirs w)) < fuel)%nat -> clean_run (remove_tree fuel path) w.
Proof.
  revert path w. induction fuel as [|f IH]; intros path w Hs Hf; [lia|]. unfold clean_run. cbn [remove_tree].
  case_decide as Hd.
  - unfold ibind at 1. rewrite syscall_clean by done. unfold ibind at 1. rewrite syscall_clean by done.
    rewrite bool_decide_eq_true_2 by done. cbn [andb negb]. unfold ibind at 1.
    destruct (entries_clean (remove_tree f) path (dirs w) (all_entries w path) w)
      as (w1 & -> & Hs1 & Hd1); [|done|done|].
    { intros name w' Hs' Hsub. apply IH; [done|].
      pose proof (deep_child path name _ Hd). pose proof (deep_mono (path ++ lit "/" ++ name) _ _ Hsub).
      lia. }
    unfold ibind at 1. rewrite syscall_clean by done. rewrite bool_decide_eq_true_2 by done.
    cbn [fst snd andb negb]. unfold ibind, sys_rmdir, ibind. rewrite syscall_clean by done.
    eexists. split; [done|]. split; [done|]. cbn. set_solver.
  - destruct (files w !! path) eqn:Ef; [|by eexists].
    unfold ibind at 1. rewrite syscall_clean by done. rewrite decide_True by done.
    by apply unlink_clean.
Qed.

Lemma tree_if_exists_clean path w :
  schedule w = [] -> clean_run (remove_tree_if_exists path) w.
Proof.
  intros Hs. apply tree_clean; [done|]. apply Nat.lt_succ_r, subseteq_size.
  intros p. unfold deep. rewrite elem_of_filter. tauto.
Qed.

(** ** The marker *)

Lemma last_app_ne {A} (l k : list A) d : k <> [] -> List.last (l ++ k) d = List.last k d.
Proof.
  intros Hk. induction l as [|x l IH]; [done|]. cbn [app List.last]. rewrite IH.
  destruct (l ++ k) eqn:E; [|done]. by apply app_eq_nil in E as [_ ->].
Qed.

Section Marker.
Context (env : Env).

Local Abbreviation marker id := (xdebug_design_generation_marker_path env id).

(** The marker file of [id] names generation [g]. *)
Definition marks (w : world) (id g : bytes) : Prop :=
  exists f, files w !! marker id = Some f /\ contents f = g ++ newline /\ hex64 g.

Lemma read_marker_spec w id :
  exists r w', xdebug_design_read_generation_marker env id w = (w', Some r) /\ same_files w w' /\
    (forall g, r = Some g -> marks w id g) /\
    (forall g, schedule w = [] -> marks w id g -> r = Some g /\ w' = w).
Proof.
  unfold xdebug_design_read_generation_marker.
  destruct (files w !! marker id) as [f|] eqn:Ef.
  2:{ exists None, w. split; [done|]. split; [done|]. split; [done|].
      intros g _ (f & Hf & _). congruence. }
  unfold ibind. destruct (quiet_syscall w) as (e & w1 & E & K). rewrite E.
  assert (Hin : forall g, contents f = g ++ newline -> zlen g = 64 ->
    zlen (contents f) = 65 /\ take 64 (contents f) = g /\ drop 64 (contents f) = newline).
  { intros g -> Hg. unfold zlen in *. rewrite length_app. cbn [newline length].
    assert (Hl : length g = 64%nat) by lia. split; [lia|].
    rewrite <- Hl. by rewrite take_app_length, drop_app_length. }
  assert (Hok : forall g, marks w id g ->
    zlen (contents f) = 65 /\ take 64 (contents f) = g /\ drop 64 (contents f) = newline /\
    forallb lower_hex g = true).
  { intros g (f' & Hf' & Hc & Hl & Hh). rewrite Ef in Hf'. injection Hf' as <-.
    destruct (Hin g Hc Hl) as (? & ? & ?). split_and!; try done. by apply forallb_lower_hex. }
  case_decide as He.
  - destruct (zlen (contents f) =? 65) eqn:E1; cbn [negb orb].
    2:{ exists None, w1. split; [done|]. split; [done|]. split; [done|]. intros g _ Hm.
        destruct (Hok g Hm) as (? & _). apply Z.eqb_neq in E1. done. }
    destruct (eqs (drop 64 (contents f)) newline) eqn:E2; cbn [negb].
    2:{ exists None, w1. split; [done|]. split; [done|]. split; [done|]. intros g _ Hm.
        destruct (Hok g Hm) as (_ & _ & ? & _). apply eqs_false in E2. done. }
    sbool. destruct (forallb lower_hex (take 64 (contents f))) eqn:E3.
    + exists (Some (take 64 (contents f))), w1. split; [done|]. split; [done|]. split.
      * intros g [= <-]. exists f. split; [done|]. split; [by rewrite <- E2, take_drop|].
        split; [|by apply forallb_lower_hex]. unfold zlen in *. rewrite length_take. lia.
      * intros g Hs Hm. destruct (Hok g Hm) as (_ & -> & _). rewrite syscall_clean in E by done.
        injection E as <- _. done.
    + exists None, w1. split; [done|]. split; [done|]. split; [done|]. intros g _ Hm.
      destruct (Hok g Hm) as (_ & Ht & _ & Hh). rewrite Ht, Hh in E3. done.
  - exists None, w1. split; [done|]. split; [done|]. split; [done|]. intros g Hs _.
    rewrite syscall_clean in E by done. by injection E as <- <-.
Qed.

Lemma matches_spec w id g :
  exists b w', xdebug_design_generation_matches env id g w = (w', Some b) /\ same_files w w' /\
    (b = true -> marks w id g) /\ (schedule w = [] -> marks w id g -> b = true /\ w' = w).
Proof.
  unfold xdebug_design_generation_matches. destruct (str_empty g) eqn:Eg.
  { exists false, w. split; [done|]. split; [done|]. split; [done|]. apply str_empty_true in Eg as ->.
    by intros _ (f & _ & _ & ? & _). }
  unfold ibind. destruct (read_marker_spec w id) as (r & w' & -> & K & H1 & H2).
  eexists _, w'. split; [done|]. split; [done|]. split.
  - destruct r as [g'|]; [|done]. intros ->%eqs_true. by apply H1.
  - intros Hs Hm. destruct (H2 g Hs Hm) as [-> ->]. by rewrite eqs_refl.
Qed.

(** ** Removal of a generation's artifacts *)

Definition artifact (id p : bytes) : Prop :=
  let dir := xdebug_design_session_dir env id in
  p = dir ++ lit "/session.json" \/ p = dir ++ lit "/socket" \/ p = xdebug_design_socket_path env id \/
  p = dir ++ lit "/endpoint.json" \/ under (dir ++ lit "/transport") p.

Lemma short_socket_last nominal : List.last (short_socket_path env nominal) " "%char = "k"%char.
Proof.
  unfold short_socket_path. change (lit ".sock") with (lit ".soc" ++ ["k"%char]).
  rewrite !app_assoc. apply List.last_last.
Qed.

(** A file of a session directory that removal must keep. *)
Definition kept_file (x : bytes) : Prop := x ∈ [lit "state.json"; lit "activity"; lit "generation"].

Lemma kept_not_artifact id id' x : kept_file x -> ~ artifact id (in_session env id' x).
Proof.
  intros Hx.
  assert (Hn : forall y, x <> y -> in_session env id' x <> in_session env id y).
  { intros y Hy [_ E]%in_session_inj. done. }
  assert (Hc : x <> lit "session.json" /\ x <> lit "socket" /\ x <> lit "endpoint.json" /\
    x <> lit "transport" /\ (forall r, x <> lit "transport/" ++ r) /\
    List.last ("/"%char :: x) " "%char <> "k"%char).
  { unfold kept_file in Hx. rewrite !elem_of_cons, elem_of_nil in Hx.
    destruct Hx as [->|[->|[->|[]]]]; split_and!; done. }
  destruct Hc as (H1 & H2 & H3 & H4 & H5 & H6). intros [E|[E|[E|[E|[E|[r E]]]]]].
  - exact (Hn _ H1 E).
  - exact (Hn _ H2 E).
  - unfold xdebug_design_socket_path, socket_path in E. case_if_in E; [exact (Hn _ H2 E)|].
    apply (f_equal (fun l => List.last l " "%char)) in E. rewrite short_socket_last in E.
    unfold in_session in E. apply H6. rewrite <- E. symmetry. apply last_app_ne. done.
  - exact (Hn _ H3 E).
  - exact (Hn _ H4 E).
  - rewrite <- !app_assoc in E. exact (Hn _ (H5 r) E).
Qed.


Lemma remove_file_off path w :
  exists b w', remove_file_if_exists path w = (w', Some b) /\ agree_off path w w'.
Proof.
  unfold remove_file_if_exists, ibind, iret. destruct (sys_unlink path w) as [w1 r1] eqn:E.
  apply unlink_off in E as [[e ->] Ha]. by eexists _, w1.
Qed.

Lemma publish_marker_replaces dir temp path payload w0 w w' r :
  temp <> path -> agree_off temp w0 w -> publish_marker dir temp path payload w = (w', r) ->
  exists b, r = Some b /\ replaced path temp payload w0 w' b.
Proof.
  intros Hne H0. unfold publish_marker, ibind at 1.
  destruct (write_sync_close true temp payload w) as [w1 r1] eqn:E1.
  apply write_sync_close_spec in E1 as (b1 & -> & Ha1 & Hb).
  pose proof (agree_off_trans _ _ _ _ H0 Ha1) as Ha.
  assert (Hfail : forall w3 w' r, files w3 = files w1 ->
    ibind (remove_file_if_exists temp) (fun _ => iret false) w3 = (w', r) ->
    exists b, r = Some b /\ replaced path temp payload w0 w' b).
  { intros w3 w4 r4 H3 H. unfold ibind in H. destruct (remove_file_off temp w3) as (x & w5 & E5 & H5).
    rewrite E5 in H. injection H as <- <-. exists false. split; [done|]. apply replaced_not; [done|].
    eapply agree_off_trans; [exact Ha|]. intros p Hp. by rewrite H5, H3. }
  unfold when_ok, ibind at 1. destruct b1;
    [|cbn [iret]; unfold ibind at 1; cbn [iret]; by apply Hfail].
  destruct (Hb eq_refl) as [t Ht]. unfold ibind at 1.
  destruct (sys_rename temp path w1) as [w2 r2] eqn:E2. pose proof E2 as E2'.
  apply rename_spec in E2 as (e2 & -> & [[He H2]|(f & -> & _)]).
  { rewrite bool_decide_eq_false_2 by done. cbn [iret]. unfold ibind at 1. cbn [iret]. by apply Hfail. }
  rewrite bool_decide_eq_true_2 by done. cbn [iret]. unfold ibind at 1.
  destruct (quiet_sync_directory dir w2) as (b3 & w3 & -> & [H3 _]). destruct b3.
  { intros [= <- <-]. exists true. split; [done|]. eapply rename_replaces; eauto. }
  unfold ibind. destruct (remove_file_off temp w3) as (x & w4 & -> & H4). intros [= <- <-].
  exists false. split; [done|]. eapply rename_replaces; [done..| |done].
  right. intros p Hp. by rewrite H4, H3.
Qed.

Lemma marker_write_spec id g w w' r :
  xdebug_design_write_generation_marker env id g w = (w', r) ->
  exists b, r = Some b /\
    (forall p, p <> marker id -> p <> temp_name (marker id) g -> files w' !! p = files w !! p) /\
    (files w' !! marker id = files w !! marker id /\ b = false \/ marks w' id g).
Proof.
  unfold xdebug_design_write_generation_marker. destruct (valid_generation g) eqn:Hg; cbn [negb].
  2:{ intros [= <- <-]. exists false. split; [done|]. split; [done|]. by left. }
  apply valid_generation_iff in Hg.
  unfold ibind at 1. destruct (quiet_session_dir env id w) as (b1 & w1 & -> & [Hf1 _]).
  destruct b1; cbn [negb].
  2:{ intros [= <- <-]. exists false. rewrite Hf1. split; [done|]. split; [done|]. by left. }
  cbv zeta. set (temp := temp_name (marker id) g).
  unfold ibind at 1, sys_open_excl, ibind at 1. destruct (syscall_eq w1) as (s2 & e2 & ->).
  destruct e2; [intros [= <- <-]; exists false; cbn [files set_schedule]; rewrite Hf1; by eauto|].
  cbn [files set_schedule clock]. destruct (files w1 !! temp).
  { intros [= <- <-]. exists false. cbn [files set_schedule]. rewrite Hf1. by eauto. }
  intros H. eapply (publish_marker_replaces _ _ _ _ w) in H as (b & -> & Hoff & Hp);
    [|apply temp_name_ne|].
  2:{ intros p Hp. cbn. rewrite Hf1. by rewrite lookup_insert_ne by congruence. }
  exists b. split; [done|]. split; [done|]. destruct Hp as [?|[t E]]; [by left|]. right.
  by eexists.
Qed.

Lemma marks_unique w id g g' : marks w id g -> marks w id g' -> g = g'.
Proof.
  intros (f & Hf & Hc & _) (f' & Hf' & Hc' & _). rewrite Hf in Hf'. injection Hf' as <-.
  rewrite Hc in Hc'. by apply app_inv_tail in Hc'.
Qed.

(** [remove_file_if_exists] succeeds only when the file is gone. *)
Lemma remove_file_gone path w w' :
  remove_file_if_exists path w = (w', Some true) -> files w' !! path = None.
Proof.
  unfold remove_file_if_exists, ibind, iret. destruct (sys_unlink path w) as [w1 r1] eqn:E.
  apply unlink_spec in E as (e & -> & H). intros [= <- He]. apply negb_true_iff in He.
  destruct H as [[-> Hn]|[-> _]]; [by apply Hn|apply lookup_delete_eq].
Qed.

Lemma touches_artifacts id : touches (artifact id) (remove_artifacts env id).
Proof.
  unfold remove_artifacts. cbv zeta.
  do 4 (apply touches_bind; [apply touches_unlink; unfold artifact; tauto|intros ?]).
  apply touches_bind; [|intros ?].
  - eapply touches_weaken; [|apply touches_tree_if_exists]. unfold artifact. tauto.
  - apply touches_if; [|auto with touches]. apply touches_quiet, quiet_sync_directory.
Qed.

Lemma clean_bind (c : io bool) f w :
  clean_run c w -> (forall w', schedule w' = [] -> clean_run (f true) w') -> clean_run (ibind c f) w.
Proof.
  intros (w1 & E1 & S1 & D1) Hf. destruct (Hf w1 S1) as (w2 & E2 & S2 & D2).
  exists w2. unfold ibind. rewrite E1. split; [done|]. split; [done|]. by etransitivity.
Qed.

Lemma artifacts_clean id w : schedule w = [] -> clean_run (remove_artifacts env id) w.
Proof.
  intros Hs. unfold remove_artifacts. cbv zeta.
  apply clean_bind; [by apply unlink_clean|]. clear w Hs. intros w Hs.
  apply clean_bind; [by apply unlink_clean|]. clear w Hs. intros w Hs.
  apply clean_bind; [by apply unlink_clean|]. clear w Hs. intros w Hs.
  apply clean_bind; [by apply unlink_clean|]. clear w Hs. intros w Hs.
  apply clean_bind; [by apply tree_if_exists_clean|]. clear w Hs. intros w Hs. cbn [andb].
  unfold clean_run, sync_directory, ibind. rewrite syscall_clean by done.
  rewrite decide_True by done. rewrite !syscall_clean by done. by eexists.
Qed.

(** Compose the frames of a sequence of removals. *)
Ltac frame_steps :=
  intros; repeat first [assumption|progress eauto using touches_ret|apply touches_if
                       |apply touches_bind; [eauto|intros]].

(** A removal step inside a longer run: when the run is to report success
    the step did, and the file stays away. *)
Lemma gone_step path {B} (f : bool -> io B) w w' r :
  ibind (remove_file_if_exists path) f w = (w', Some r) ->
  (forall b, touches (fun _ => True) (f b)) ->
  exists b w1, f b w1 = (w', Some r) /\ (b = true -> files w' !! path = None).
Proof.
  intros H Hf. unfold ibind in H.
  destruct (touches_unlink (fun _ => True) path I w) as (b & w1 & E1 & _). rewrite E1 in H.
  exists b, w1. split; [done|]. intros ->. apply remove_file_gone in E1.
  destruct (Hf true w1) as (x & w2 & E2 & S2 & _). rewrite H in E2. injection E2 as -> _.
  by eapply lookup_weaken_None.
Qed.

Lemma artifacts_gone id w w' :
  remove_artifacts env id w = (w', Some true) ->
  Forall (fun p => files w' !! p = None)
    [in_session env id (lit "session.json"); in_session env id (lit "socket");
     xdebug_design_socket_path env id; in_session env id (lit "endpoint.json")].
Proof.
  unfold remove_artifacts. cbv zeta. intros H.
  assert (Ht : forall p, touches (fun _ => True) (remove_file_if_exists p)) by (intros; by apply touches_unlink).
  assert (Hd : forall p, touches (fun _ => True) (remove_tree_if_exists p))
    by (intros p; eapply touches_weaken; [|apply touches_tree_if_exists]; done).
  assert (Hs : forall p, touches (fun _ => True) (sync_directory p))
    by (intros; apply touches_quiet, quiet_sync_directory).
  apply gone_step in H as (b1 & w1 & H & G1);
    [|frame_steps].
  apply gone_step in H as (b2 & w2 & H & G2);
    [|frame_steps].
  apply gone_step in H as (b3 & w3 & H & G3);
    [|frame_steps].
  apply gone_step in H as (b4 & w4 & H & G4);
    [|frame_steps].
  unfold ibind in H. destruct (Hd (xdebug_design_session_dir env id ++ lit "/transport") w4) as (b5 & w5 & E5 & _).
  rewrite E5 in H. destruct (b1 && b2 && b3 && b4 && b5) eqn:E; [|done]. bsplit. subst.
  repeat constructor; auto.
Qed.

(** The generation marker is replaced atomically. Under every schedule
    of failures and short writes, writing it leaves every file but the marker
    and its temporary alone, and the marker names the new generation or is
    what it was, the latter only with a reported failure; after a success a
    read without failures matches that generation and no other. *)
Theorem generation_marker_atomic id g w :
  let (w', r) := xdebug_design_write_generation_marker env id g w in
  exists b, r = Some b /\
    (forall p, p <> marker id -> p <> temp_name (marker id) g -> files w' !! p = files w !! p) /\
    (files w' !! marker id = files w !! marker id /\ b = false \/ marks w' id g) /\
    (b = true -> forall g', snd (xdebug_design_generation_matches env id g' (set_schedule [] w'))
                            = Some (bool_decide (g' = g))).
Proof.
  destruct (xdebug_design_write_generation_marker env id g w) as [w' r] eqn:E.
  apply marker_write_spec in E as (b & -> & Hoff & Hm). exists b. split; [done|]. split; [done|].
  split; [done|]. intros -> g'. destruct Hm as [[_ ?]|Hm]; [done|].
  assert (Hm' : marks (set_schedule [] w') id g) by exact Hm.
  destruct (matches_spec (set_schedule [] w') id g') as (b' & w1 & -> & _ & H1 & H2). cbn [snd]. f_equal.
  destruct b'; symmetry; [apply bool_decide_eq_true; by eapply marks_unique; [apply H1|]|].
  apply bool_decide_eq_false. intros ->. by destruct (H2 eq_refl Hm') as [? _].
Qed.

(** Artifact removal is guarded and contained. Unless the marker names
    the expected generation it changes no file and reports failure; in every
    case it creates nothing and removes at most the run-time artifacts of its
    session, never a state file, activity marker or generation marker of any
    session; a success means the session, socket and endpoint files are gone;
    and without system-call failures on a marked generation it succeeds. *)
Theorem artifact_removal_guarded id g w :
  exists b w', xdebug_design_remove_session_generation env id g w = (w', Some b) /\
    files w' ⊆ files w /\
    (forall p, ~ artifact id p -> files w' !! p = files w !! p) /\
    (forall id' x, kept_file x -> files w' !! in_session env id' x = files w !! in_session env id' x) /\
    (~ marks w id g -> files w' = files w /\ b = false) /\
    (b = true -> Forall (fun p => files w' !! p = None)
       [in_session env id (lit "session.json"); in_session env id (lit "socket");
        xdebug_design_socket_path env id; in_session env id (lit "endpoint.json")]) /\
    (schedule w = [] -> marks w id g -> b = true).
Proof.
  unfold xdebug_design_remove_session_generation, ibind.
  destruct (matches_spec w id g) as (m & w1 & -> & [Hf _] & H1 & H2). destruct m; cbn [negb].
  - destruct (touches_artifacts id w1) as (b & w' & E & S & Hoff). exists b, w'. rewrite Hf in S, Hoff.
    split; [done|]. split; [done|]. split; [done|].
    split; [intros id' x Hx; by apply Hoff, kept_not_artifact|].
    split; [intros Hn; by destruct (Hn (H1 eq_refl))|].
    split; [intros ->; by eapply artifacts_gone|]. intros Hs Hm. destruct (H2 Hs Hm) as [_ ->].
    destruct (artifacts_clean id w Hs) as (w2 & E2 & _). rewrite E in E2. by injection E2.
  - exists false, w1. rewrite Hf. split_and!; try done. intros Hs Hm. by destruct (H2 Hs Hm).
Qed.
End Marker.
