(* ===== verification/Sha256.v ===== *)
(** * Sha256: digests of texts, files and directory trees

    Models [src/core/common/sha256.cpp]. The incremental state ([h], the
    64-byte block buffer with its stale bytes, [used], the 64-bit length
    counter) is kept as the code has it; a buffer of [unsigned char] is a list
    of integers. A regular file is its contents ([None]: it cannot be opened
    or read), a directory the entries [readdir] yields, in any order. The
    theorems show that the incremental computation, however the input is cut
    into chunks, is the hash of the padded message, block by block, and what
    text a directory digest is the hash of. *)

From S2P Require Import Prelude CLib Json.

Open Scope Z_scope.

(** ** The compression function *)

Definition rotr (value : Z) (count : Z) : Z :=
  Z.lor (Z.shiftr value count) (u32 (Z.shiftl value (32 - count))).
Definition choose (x y z : Z) : Z := Z.lxor (Z.land x y) (Z.land (u32 (Z.lnot x)) z).
Definition majority (x y z : Z) : Z := Z.lxor (Z.lxor (Z.land x y) (Z.land x z)) (Z.land y z).

(** The table of the source, a line of eight words each. *)
Definition eight_words (line : Z) : list Z :=
  map (fun i => u32 (Z.shiftr line (32 * (7 - Z.of_nat i)))) (List.seq 0 8).
Definition round_constants : list Z := Eval vm_compute in flat_map eight_words [
  0x428a2f98_71374491_b5c0fbcf_e9b5dba5_3956c25b_59f111f1_923f82a4_ab1c5ed5;
  0xd807aa98_12835b01_243185be_550c7dc3_72be5d74_80deb1fe_9bdc06a7_c19bf174;
  0xe49b69c1_efbe4786_0fc19dc6_240ca1cc_2de92c6f_4a7484aa_5cb0a9dc_76f988da;
  0x983e5152_a831c66d_b00327c8_bf597fc7_c6e00bf3_d5a79147_06ca6351_14292967;
  0x27b70a85_2e1b2138_4d2c6dfc_53380d13_650a7354_766a0abb_81c2c92e_92722c85;
  0xa2bfe8a1_a81a664b_c24b8b70_c76c51a3_d192e819_d6990624_f40e3585_106aa070;
  0x19a4c116_1e376c08_2748774c_34b0bcb5_391c0cb3_4ed8aa4a_5b9cca4f_682e6ff3;
  0x748f82ee_78a5636f_84c87814_8cc70208_90befffa_a4506ceb_bef9a3f7_c67178f2].

Definition nthz (l : list Z) (i : nat) : Z := nth i l 0.

(** The first 16 words of the schedule, big-endian. *)
Definition load_word (block : list Z) (i : nat) : Z :=
  Z.lor (Z.lor (Z.lor (Z.shiftl (nthz block (4 * i)) 24) (Z.shiftl (nthz block (4 * i + 1)) 16))
           (Z.shiftl (nthz block (4 * i + 2)) 8)) (nthz block (4 * i + 3)).

(** [n] more words. *)
Fixpoint extend_words (n : nat) (w : list Z) : list Z :=
  match n with
  | O => w
  | S n' =>
      let i := length w in
      let s0 := Z.lxor (Z.lxor (rotr (nthz w (i - 15)) 7) (rotr (nthz w (i - 15)) 18))
                       (Z.shiftr (nthz w (i - 15)) 3) in
      let s1 := Z.lxor (Z.lxor (rotr (nthz w (i - 2)) 17) (rotr (nthz w (i - 2)) 19))
                       (Z.shiftr (nthz w (i - 2)) 10) in
      extend_words n' (w ++ [u32 (nthz w (i - 16) + s0 + nthz w (i - 7) + s1)])
  end.

Definition message_schedule (block : list Z) : list Z :=
  extend_words 48 (map (load_word block) (List.seq 0 16)).

Record regs := MkRegs { ra : Z; rb : Z; rc : Z; rd_ : Z; re : Z; rf : Z; rg : Z; rh : Z }.

(** One iteration of the main loop. *)
Definition sha_round (w : list Z) (r : regs) (i : nat) : regs :=
  let s1 := Z.lxor (Z.lxor (rotr (re r) 6) (rotr (re r) 11)) (rotr (re r) 25) in
  let t1 := u32 (rh r + s1 + choose (re r) (rf r) (rg r) + nthz round_constants i + nthz w i) in
  let s0 := Z.lxor (Z.lxor (rotr (ra r) 2) (rotr (ra r) 13)) (rotr (ra r) 22) in
  let t2 := u32 (s0 + majority (ra r) (rb r) (rc r)) in
  MkRegs (u32 (t1 + t2)) (ra r) (rb r) (rc r) (u32 (rd_ r + t1)) (re r) (rf r) (rg r).

(** The chaining value after one block. *)
Definition compress_block (h : regs) (block : list Z) : regs :=
  let r := foldl (sha_round (message_schedule block)) h (List.seq 0 64) in
  MkRegs (u32 (ra h + ra r)) (u32 (rb h + rb r)) (u32 (rc h + rc r)) (u32 (rd_ h + rd_ r))
         (u32 (re h + re r)) (u32 (rf h + rf r)) (u32 (rg h + rg r)) (u32 (rh h + rh r)).

(** ** The incremental state *)

Record Sha256 := MkSha { sh : regs; sblock : list Z; used : nat; sbits : Z }.

Definition initial_h : regs :=
  MkRegs 0x6a09e667 0xbb67ae85 0x3c6ef372 0xa54ff53a 0x510e527f 0x9b05688c 0x1f83d9ab 0x5be0cd19.
Definition sha_initial : Sha256 := MkSha initial_h (replicate 64 0) 0 0.

Definition compress (s : Sha256) : Sha256 :=
  MkSha (compress_block (sh s) (sblock s)) (sblock s) (used s) (sbits s).

(** [memcpy(block + at, input, n)] *)
Definition splice (block : list Z) (at_ : nat) (input : list Z) : list Z :=
  take at_ block ++ input ++ drop (at_ + length input) block.

(** The loop of [update]; every iteration copies at least one byte. *)
Fixpoint update_loop (fuel : nat) (s : Sha256) (input : list Z) : Sha256 :=
  match input with
  | [] => s
  | _ =>
      match fuel with
      | O => s
      | S f =>
          let copy := Nat.min (length input) (64 - used s) in
          let s1 := MkSha (sh s) (splice (sblock s) (used s) (take copy input)) (used s + copy) (sbits s) in
          let s2 := if (used s1 =? 64)%nat
                    then let c := compress s1 in MkSha (sh c) (sblock c) 0 (sbits c)
                    else s1 in
          update_loop f s2 (drop copy input)
      end
  end.

Definition update (s : Sha256) (input : list Z) : Sha256 :=
  update_loop (length input)
    (MkSha (sh s) (sblock s) (used s) (u64 (sbits s + u64 (zlen input * 8)))) input.

(** [block[used++] = b] *)
Definition push_byte (s : Sha256) (b : Z) : Sha256 :=
  MkSha (sh s) (splice (sblock s) (used s) [b]) (S (used s)) (sbits s).
(** [while (used < limit) block[used++] = 0;] *)
Fixpoint push_zeros (n : nat) (s : Sha256) : Sha256 :=
  match n with O => s | S n' => push_zeros n' (push_byte s 0) end.
Definition zeros_to (limit : nat) (s : Sha256) : Sha256 := push_zeros (limit - used s) s.

(** The length in eight big-endian bytes. *)
Definition length_bytes (bits : Z) : list Z :=
  map (fun i => Z.land (Z.shiftr bits (8 * i)) 255) [7; 6; 5; 4; 3; 2; 1; 0].

Definition hex_of_regs (r : regs) : bytes :=
  concat (map (fun v => map (fun shift => nth (Z.to_nat (Z.land (Z.shiftr v shift) 15))
                                            (lit "0123456789abcdef") "0"%char)
                          [28; 24; 20; 16; 12; 8; 4; 0])
            [ra r; rb r; rc r; rd_ r; re r; rf r; rg r; rh r]).

Definition finish (s : Sha256) : bytes :=
  let s := push_byte s 0x80 in
  let s := if (56 <? used s)%nat
           then let c := compress (zeros_to 64 s) in MkSha (sh c) (sblock c) 0 (sbits c)
           else s in
  let s := zeros_to 56 s in
  let s := foldl push_byte s (length_bytes (sbits s)) in
  hex_of_regs (sh (compress s)).

(** ** Texts and files *)

Definition sha256_text (text : bytes) : bytes := finish (update sha_initial (map code text)).

(** [fread] in pieces of [N] bytes until a short one. *)
Fixpoint read_chunks (N : nat) (fuel : nat) (s : Sha256) (contents : list Z) : Sha256 :=
  match fuel with
  | O => s
  | S f =>
      let chunk := take N contents in
      let s := if (0 <? zlen chunk) then update s chunk else s in
      if negb (zlen chunk =? Z.of_nat N) then s else read_chunks N f s (drop N contents)
  end.

Definition update_regular_file (s : Sha256) (contents : option bytes) : bytes + Sha256 :=
  match contents with
  | None => inl (lit "cannot open file for SHA-256")
  | Some c => inr (read_chunks (Z.to_nat 32768) (S (length c)) s (map code c))
  end.

Definition sha256_file (contents : option bytes) : bytes + bytes :=
  match update_regular_file sha_initial contents with
  | inl e => inl e
  | inr s => inr (finish s)
  end.

(** ** Directory trees *)

(** What [lstat] and the reads below a path find. *)
Inductive node :=
| Reg (contents : option bytes)
| Dir (entries : option (list (bytes * node)))    (* [None]: [opendir] fails *)
| Other                                           (* a link, socket, device, ... *)
| Unreadable.                                     (* [lstat] fails *)

Fixpoint insert_name {V} (e : bytes * V) (l : list (bytes * V)) : list (bytes * V) :=
  match l with
  | [] => [e]
  | x :: l' => if str_ltb (fst x) (fst e) then x :: insert_name e l' else e :: l
  end.
(** [std::sort] of the names, which are distinct. *)
Definition sort_names {V} (l : list (bytes * V)) : list (bytes * V) := foldr insert_name [] l.

Definition nl : bytes := [chr 10].
Definition entry_marker (kind relative : bytes) : bytes := kind ++ nl ++ relative ++ nl.
Definition child_relative (relative name : bytes) : bytes :=
  match relative with [] => name | _ => relative ++ lit "/" ++ name end.

(** The loop over the members of a directory, each given by its handler. *)
Fixpoint update_members (s : Sha256) (relative : bytes)
    (l : list (bytes * (Sha256 -> bytes -> bytes + Sha256))) : bytes + Sha256 :=
  match l with
  | [] => inr s
  | (name, visit) :: l' =>
      match visit s (child_relative relative name) with
      | inl e => inl e
      | inr s' => update_members s' relative l'
      end
  end.

(** One directory member: its marker, then its contents. *)
Fixpoint update_node (n : node) (s : Sha256) (relative : bytes) : bytes + Sha256 :=
  match n with
  | Reg contents =>
      update_regular_file (update s (map code (entry_marker (lit "F") relative))) contents
  | Dir None => inl (lit "cannot open directory for SHA-256")
  | Dir (Some entries) =>
      update_members (update s (map code (entry_marker (lit "D") relative))) relative
        (sort_names (map (fun e => (fst e, update_node (snd e))) entries))
  | Other => inl (lit "directory tree contains unsupported file type")
  | Unreadable => inl (lit "cannot stat directory member for SHA-256")
  end.

Definition update_directory_tree (s : Sha256) (entries : option (list (bytes * node)))
    (relative : bytes) : bytes + Sha256 :=
  match entries with
  | None => inl (lit "cannot open directory for SHA-256")
  | Some l => update_members s relative (sort_names (map (fun e => (fst e, update_node (snd e))) l))
  end.

Definition sha256_directory_tree (entries : option (list (bytes * node))) : bytes + bytes :=
  match update_directory_tree sha_initial entries [] with
  | inl e => inl e
  | inr s => inr (finish s)
  end.

(** ** Reference *)

(** The chaining value after the first [n] blocks of [m]. *)
Fixpoint hash_blocks (n : nat) (h : regs) (m : list Z) : regs :=
  match n with
  | O => h
  | S n' => hash_blocks n' (compress_block h (take 64 m)) (drop 64 m)
  end.

(** FIPS 180-4 padding: a one bit, zeros up to 56 modulo 64, the length. *)
Definition pad (m : list Z) : list Z :=
  m ++ [0x80] ++ replicate ((119 - length m mod 64) mod 64) 0 ++ length_bytes (u64 (zlen m * 8)).

Definition sha_ref (m : list Z) : bytes :=
  let p := pad m in hex_of_regs (hash_blocks (length p / 64) initial_h p).

Example sha_abc : sha256_text (lit "abc") =
  lit "ba7816bf8f01cfea414140de5dae2223b00361a396177a9cb410ff61f20015ad".
Proof. vm_compute. reflexivity. Qed.

Example sha_empty : sha256_text [] =
  lit "e3b0c44298fc1c149afbf4c8996fb92427ae41e4649b934ca495991b7852b855".
Proof. vm_compute. reflexivity. Qed.

(** ** Blocks *)

Lemma hash_blocks_app n h m k :
  (64 * n <= length m)%nat -> hash_blocks n h (m ++ k) = hash_blocks n h m.
Proof.
  revert h m. induction n as [|n IH]; intros h m Hl; cbn [hash_blocks]; [done|].
  rewrite take_app_le, drop_app_le by lia. apply IH. rewrite length_drop. lia.
Qed.

Lemma hash_blocks_S n h m :
  hash_blocks (S n) h m = compress_block (hash_blocks n h m) (take 64 (drop (64 * n) m)).
Proof.
  revert h m. induction n as [|n IH]; intros h m; [done|].
  change (hash_blocks (S (S n)) h m) with (hash_blocks (S n) (compress_block h (take 64 m)) (drop 64 m)).
  rewrite IH. cbn [hash_blocks]. rewrite drop_drop. do 3 f_equal. lia.
Qed.

Lemma splice_length block at_ input :
  (at_ + length input <= length block)%nat -> length (splice block at_ input) = length block.
Proof. intros H. unfold splice. rewrite !length_app, length_take, length_drop. lia. Qed.

Lemma splice_take block at_ input :
  (at_ + length input <= length block)%nat ->
  take (at_ + length input) (splice block at_ input) = take at_ block ++ input.
Proof.
  intros H. unfold splice. rewrite app_assoc. apply take_app_length'.
  rewrite length_app, length_take. lia.
Qed.

(** The state after [m]: [n] blocks hashed, the rest of [m] in the buffer. *)
Record raw (s : Sha256) (n : nat) (m : list Z) : Prop := {
  raw_h : sh s = hash_blocks n initial_h m;
  raw_used : (64 * n + used s = length m)%nat;
  raw_tail : take (used s) (sblock s) = drop (64 * n) m;
  raw_len : length (sblock s) = 64%nat;
  raw_le : (used s <= 64)%nat;
}.

Lemma raw_splice s n m c b :
  raw s n m -> (used s + length c <= 64)%nat ->
  raw (MkSha (sh s) (splice (sblock s) (used s) c) (used s + length c) b) n (m ++ c).
Proof.
  intros [Hh Hu Ht Hl Hle] Hc. split; cbn [sh sblock used].
  - rewrite Hh. symmetry. apply hash_blocks_app. lia.
  - rewrite length_app. lia.
  - rewrite splice_take by lia. rewrite drop_app_le by lia. by rewrite Ht.
  - rewrite splice_length; lia.
  - done.
Qed.

Lemma raw_compress s n m :
  raw s n m -> used s = 64%nat ->
  raw (MkSha (sh (compress s)) (sblock (compress s)) 0 (sbits (compress s))) (S n) m.
Proof.
  intros [Hh Hu Ht Hl Hle] H64. unfold compress. split; cbn [sh sblock used].
  - rewrite hash_blocks_S, Hh. f_equal. rewrite <- Ht, H64. rewrite !take_ge; [done|lia|].
    rewrite length_take. lia.
  - lia.
  - rewrite drop_ge by lia. done.
  - done.
  - lia.
Qed.

(** ** Updates *)

Definition rep (s : Sha256) (m : list Z) : Prop := exists n, raw s n m /\ (used s < 64)%nat.

Lemma update_loop_rep fuel s m input :
  (length input <= fuel)%nat -> rep s m ->
  rep (update_loop fuel s input) (m ++ input) /\ sbits (update_loop fuel s input) = sbits s.
Proof.
  revert s m input. induction fuel as [|f IH]; intros s m input Hf Hr.
  { destruct input; [|cbn [length] in Hf; lia]. by rewrite app_nil_r. }
  destruct input as [|x input]; [by rewrite app_nil_r|]. cbn [update_loop].
  set (inp := x :: input) in *. set (copy := Nat.min (length inp) (64 - used s)).
  destruct Hr as (n & Hraw & Hu).
  assert (Hc : (0 < copy)%nat) by (unfold copy, inp; cbn [length]; lia).
  assert (Hlen : length (take copy inp) = copy) by (rewrite length_take; unfold copy; lia).
  pose proof (raw_splice s n m (take copy inp) (sbits s) Hraw ltac:(rewrite Hlen; unfold copy; lia)) as H1.
  rewrite Hlen in H1. set (s1 := MkSha _ _ _ _) in *.
  assert (Em : m ++ inp = (m ++ take copy inp) ++ drop copy inp) by (by rewrite <- app_assoc, take_drop).
  rewrite Em.
  assert (Hd : (length (drop copy inp) <= f)%nat) by (rewrite length_drop; lia).
  destruct (Nat.eqb_spec (used s1) 64) as [E|E].
  - pose proof (raw_compress s1 n _ H1 E) as H2. set (s2 := MkSha _ _ 0 _) in *.
    destruct (IH s2 (m ++ take copy inp) (drop copy inp) Hd) as [Hr Hb].
    { exists (S n). split; [done|]. unfold s2. cbn [used]. lia. }
    split; [done|]. by rewrite Hb.
  - destruct (IH s1 (m ++ take copy inp) (drop copy inp) Hd) as [Hr Hb].
    { exists n. split; [done|]. destruct H1. lia. }
    split; [done|]. by rewrite Hb.
Qed.

(** A state that has absorbed [m]. *)
Definition absorbed (s : Sha256) (m : list Z) : Prop := rep s m /\ sbits s = u64 (zlen m * 8).

Lemma absorbed_initial : absorbed sha_initial [].
Proof. split; [|done]. exists 0%nat. split; [|cbn; lia]. split; cbn [sha_initial sh sblock used]; done || (cbn; lia). Qed.

Lemma u64_add_mul a b : u64 (u64 (a * 8) + u64 (b * 8)) = u64 ((a + b) * 8).
Proof. unfold u64. rewrite <- Zplus_mod. f_equal. lia. Qed.

Lemma update_absorbed s m input : absorbed s m -> absorbed (update s input) (m ++ input).
Proof.
  intros [(n & Hraw & Hu) Hb]. unfold update.
  destruct (update_loop_rep (length input)
    (MkSha (sh s) (sblock s) (used s) (u64 (sbits s + u64 (zlen input * 8)))) m input) as [Hr Hs].
  - lia.
  - exists n. split; [|done]. by destruct Hraw.
  - split; [done|]. rewrite Hs. cbn [sbits]. rewrite Hb, u64_add_mul. f_equal.
    unfold zlen. rewrite length_app. lia.
Qed.

(** ** Finishing *)

Lemma push_byte_raw s n m b :
  raw s n m -> (used s < 64)%nat -> raw (push_byte s b) n (m ++ [b]).
Proof.
  intros Hr Hu. pose proof (raw_splice s n m [b] (sbits s) Hr) as H. cbn [length] in H.
  unfold push_byte. rewrite Nat.add_1_r in H. apply H. lia.
Qed.

Lemma push_bytes_raw l s n m :
  raw s n m -> (used s + length l <= 64)%nat ->
  raw (foldl push_byte s l) n (m ++ l) /\ used (foldl push_byte s l) = (used s + length l)%nat /\
  sbits (foldl push_byte s l) = sbits s.
Proof.
  revert s m. induction l as [|b l IH]; intros s m Hr Hu; cbn [foldl length] in *.
  { rewrite app_nil_r. split; [done|]. split; [lia|done]. }
  destruct (IH (push_byte s b) (m ++ [b])) as (H1 & H2 & H3).
  - apply push_byte_raw; [done|lia].
  - cbn [push_byte used]. lia.
  - rewrite <- app_assoc in H1. split; [done|]. split; [rewrite H2; cbn [push_byte used]; lia|done].
Qed.

Lemma push_zeros_foldl n s : push_zeros n s = foldl push_byte s (replicate n 0).
Proof. revert s. induction n as [|n IH]; intros s; [done|]. apply IH. Qed.

Lemma zeros_to_raw limit s n m :
  raw s n m -> (used s <= limit <= 64)%nat ->
  raw (zeros_to limit s) n (m ++ replicate (limit - used s) 0) /\ used (zeros_to limit s) = limit /\
  sbits (zeros_to limit s) = sbits s.
Proof.
  intros Hr Hu. unfold zeros_to. rewrite push_zeros_foldl.
  destruct (push_bytes_raw (replicate (limit - used s) 0) s n m Hr) as (H1 & H2 & H3);
    rewrite length_replicate in *; [lia|]. split; [done|]. split; [lia|done].
Qed.

(** The padding phase up to the length bytes. *)
Lemma finish_zeros s n m :
  raw s n m -> (used s < 64)%nat ->
  let s1 := push_byte s 0x80 in
  let s2 := if (56 <? used s1)%nat
            then let c := compress (zeros_to 64 s1) in MkSha (sh c) (sblock c) 0 (sbits c)
            else s1 in
  exists n', raw (zeros_to 56 s2) n' (m ++ [0x80] ++ replicate ((119 - length m mod 64) mod 64) 0) /\
    used (zeros_to 56 s2) = 56%nat /\ sbits (zeros_to 56 s2) = sbits s.
Proof.
  intros Hr Hu. cbv zeta. pose proof (push_byte_raw s n m 0x80 Hr Hu) as H1.
  assert (Hm : (length m mod 64 = used s)%nat).
  { destruct Hr. rewrite <- raw_used0. rewrite Nat.add_comm, Nat.mul_comm, Nat.Div0.mod_add.
    by apply Nat.mod_small. }
  assert (Hu1 : used (push_byte s 0x80) = S (used s)) by done.
  assert (Hb1 : sbits (push_byte s 0x80) = sbits s) by done.
  set (s1 := push_byte s 0x80) in *. clearbody s1. rewrite Hm.
  destruct (Nat.ltb_spec 56 (used s1)) as [Hlt|Hge].
  - destruct (zeros_to_raw 64 s1 n (m ++ [0x80]) H1) as (H2 & H3 & H4); [lia|].
    apply raw_compress in H2; [|done].
    destruct (zeros_to_raw 56 _ (S n) _ H2) as (H5 & H6 & H7); [cbn [used]; lia|].
    exists (S n). split; [|split; [done|]].
    + cbn [used] in H5. rewrite <- !app_assoc in H5. rewrite <- replicate_add in H5.
      replace (64 - used s1 + (56 - 0))%nat with ((119 - used s) mod 64)%nat in H5; [done|].
      rewrite Nat.mod_small; lia.
    + rewrite H7. cbn [sbits compress]. by rewrite H4.
  - destruct (zeros_to_raw 56 s1 n (m ++ [0x80]) H1) as (H5 & H6 & H7); [lia|].
    exists n. split; [|split; [done|by rewrite H7]].
    rewrite <- !app_assoc in H5.
    replace (56 - used s1)%nat with ((119 - used s) mod 64)%nat in H5; [done|].
    replace (119 - used s)%nat with (55 - used s + 1 * 64)%nat by lia.
    rewrite Nat.Div0.mod_add, Nat.mod_small; lia.
Qed.

Lemma finish_ref s m : absorbed s m -> finish s = sha_ref m.
Proof.
  intros [(n & Hr & Hu) Hb]. unfold finish, sha_ref. cbv zeta.
  destruct (finish_zeros s n m Hr Hu) as (n' & H1 & H2 & H3). cbv zeta in H1, H2, H3.
  set (s3 := zeros_to 56 _) in *. clearbody s3. rewrite H3, Hb.
  destruct (push_bytes_raw (length_bytes (u64 (zlen m * 8))) s3 n' _ H1) as (H4 & H5 & _);
    [rewrite H2; cbn; lia|].
  apply raw_compress in H4; [|rewrite H5, H2; done]. set (s4 := foldl push_byte s3 _) in *.
  rewrite <- !app_assoc in H4. fold (pad m) in H4. destruct H4 as [Hh Hlen _ _ _].
  cbn [sh used] in Hh, Hlen. f_equal.
  change (sh (compress s4)) with (sh (MkSha (sh (compress s4)) (sblock (compress s4)) 0 (sbits (compress s4)))).
  cbn [sh]. rewrite Hh. f_equal. rewrite <- Hlen, Nat.add_0_r, Nat.mul_comm. by rewrite Nat.div_mul.
Qed.

(** ** Files *)

Lemma read_chunks_absorbed N fuel s m c : (0 < N)%nat ->
  (length c < fuel)%nat -> absorbed s m -> absorbed (read_chunks N fuel s c) (m ++ c).
Proof.
  intros HN. revert s m c. induction fuel as [|f IH]; intros s m c Hf Ha; [lia|]. cbn [read_chunks].
  set (chunk := take N c).
  assert (Hu : absorbed (if 0 <? zlen chunk then update s chunk else s) (m ++ chunk)).
  { destruct (Z.ltb_spec 0 (zlen chunk)) as [H|H]; [by apply update_absorbed|].
    assert (chunk = []) as -> by (destruct chunk; [done|unfold zlen in H; cbn [length] in H; lia]).
    by rewrite app_nil_r. }
  destruct (Z.eqb_spec (zlen chunk) (Z.of_nat N)) as [E|E]; cbn [negb].
  - replace (m ++ c) with ((m ++ chunk) ++ drop N c) by (unfold chunk; by rewrite <- app_assoc, take_drop).
    apply IH; [|done].
    unfold chunk, zlen in E. rewrite length_take in E. rewrite length_drop. lia.
  - unfold chunk, zlen in E. rewrite length_take in E.
    assert (Ec : chunk = c) by (apply take_ge; lia). by rewrite Ec in *.
Qed.

(** ** Trees *)

(** The text a directory member contributes; [None] where the code reports
    an error. *)
Fixpoint members_text (relative : bytes) (l : list (bytes * (bytes -> option bytes))) : option bytes :=
  match l with
  | [] => Some []
  | (name, text) :: l' =>
      match text (child_relative relative name), members_text relative l' with
      | Some a, Some b => Some (a ++ b)
      | _, _ => None
      end
  end.
Fixpoint node_text (n : node) (relative : bytes) : option bytes :=
  match n with
  | Reg (Some c) => Some (entry_marker (lit "F") relative ++ c)
  | Dir (Some l) =>
      match members_text relative (sort_names (map (fun e => (fst e, node_text (snd e))) l)) with
      | Some t => Some (entry_marker (lit "D") relative ++ t)
      | None => None
      end
  | _ => None
  end.
Definition tree_text (l : list (bytes * node)) : option bytes :=
  members_text [] (sort_names (map (fun e => (fst e, node_text (snd e))) l)).

Fixpoint node_nested_ind (P : node -> Prop) (Hreg : forall c, P (Reg c)) (Hnone : P (Dir None))
    (Hdir : forall l, Forall (fun e => P (snd e)) l -> P (Dir (Some l)))
    (Hother : P Other) (Hunr : P Unreadable) (n : node) : P n :=
  match n with
  | Reg c => Hreg c
  | Dir None => Hnone
  | Dir (Some l) =>
      Hdir l ((fix go l : Forall (fun e => P (snd e)) l :=
                 match l with
                 | [] => @List.Forall_nil _ _
                 | (k, v) :: l' =>
                     @List.Forall_cons _ _ (k, v) _ (node_nested_ind P Hreg Hnone Hdir Hother Hunr v) (go l')
                 end) l)
  | Other => Hother
  | Unreadable => Hunr
  end.

Lemma sort_names_map {V W} (f : V -> W) (l : list (bytes * V)) :
  sort_names (map (fun e => (fst e, f (snd e))) l) = map (fun e => (fst e, f (snd e))) (sort_names l).
Proof.
  unfold sort_names. induction l as [|e l IH]; cbn [map foldr]; [done|]. rewrite IH. clear IH.
  induction (foldr insert_name [] l) as [|x k IH]; cbn [map insert_name fst]; [done|].
  case_if; cbn [map]; [by rewrite IH|done].
Qed.

Lemma insert_name_elem {V} (e x : bytes * V) l : x ∈ insert_name e l -> x = e \/ x ∈ l.
Proof.
  induction l as [|y l IH]; cbn [insert_name]; [intros ->%list_elem_of_singleton; by left|].
  case_if; rewrite !elem_of_cons; [|tauto]. intros [->|H]; [tauto|]. destruct (IH H); tauto.
Qed.

Lemma sort_names_elem {V} (x : bytes * V) l : x ∈ sort_names l -> x ∈ l.
Proof.
  unfold sort_names. induction l as [|e l IH]; cbn [foldr]; [done|].
  intros [->|H]%insert_name_elem; [left|right; auto].
Qed.

(** What a handler does to a state that has absorbed [m], given the text it
    stands for. *)
Definition handles (visit : Sha256 -> bytes -> bytes + Sha256) (text : bytes -> option bytes) : Prop :=
  forall s m relative, absorbed s m ->
    match text relative with
    | Some t => exists s', visit s relative = inr s' /\ absorbed s' (m ++ map code t)
    | None => exists e, visit s relative = inl e
    end.

Lemma members_absorbed {V} (visit : V -> Sha256 -> bytes -> bytes + Sha256)
    (text : V -> bytes -> option bytes) (l : list (bytes * V)) :
  Forall (fun e => handles (visit (snd e)) (text (snd e))) l ->
  handles (fun s relative => update_members s relative (map (fun e => (fst e, visit (snd e))) l))
          (fun relative => members_text relative (map (fun e => (fst e, text (snd e))) l)).
Proof.
  induction 1 as [|[k v] l Hv Hl IH]; intros s m relative Ha; cbn [map update_members members_text fst snd].
  { exists s. by rewrite app_nil_r. }
  specialize (Hv s m (child_relative relative k) Ha). cbn [snd] in Hv.
  destruct (text v (child_relative relative k)) as [a|].
  - destruct Hv as (s1 & -> & H1). specialize (IH s1 _ relative H1). cbv beta in IH.
    destruct (members_text relative _) as [b|]; [|done].
    destruct IH as (s2 & -> & H2). exists s2. split; [done|].
    by rewrite List.map_app, app_assoc.
  - destruct Hv as [e ->]. by exists e.
Qed.

Lemma sorted_members_absorbed {V} (visit : V -> Sha256 -> bytes -> bytes + Sha256)
    (text : V -> bytes -> option bytes) (l : list (bytes * V)) :
  Forall (fun e => handles (visit (snd e)) (text (snd e))) l ->
  handles (fun s relative => update_members s relative (sort_names (map (fun e => (fst e, visit (snd e))) l)))
          (fun relative => members_text relative (sort_names (map (fun e => (fst e, text (snd e))) l))).
Proof.
  intros Hl. rewrite !sort_names_map. apply members_absorbed. rewrite list.Forall_forall in Hl |- *.
  intros x Hx. by apply Hl, sort_names_elem.
Qed.

Lemma node_absorbed n : handles (update_node n) (node_text n).
Proof.
  induction n as [c| |l Hl| |] using node_nested_ind; intros s m relative Ha; cbn [update_node node_text];
    try (by eexists).
  - destruct c as [c|]; [|by eexists]. unfold update_regular_file. eexists. split; [done|].
    rewrite List.map_app, app_assoc. apply read_chunks_absorbed; [lia|rewrite length_map; lia|].
    by apply update_absorbed.
  - pose proof (sorted_members_absorbed update_node node_text l Hl
      (update s (map code (entry_marker (lit "D") relative))) _ relative (update_absorbed _ _ _ Ha)) as H.
    cbv beta in H. destruct (members_text relative _) as [t|]; [|done].
    destruct H as (s' & E & H). exists s'. split; [done|]. by rewrite List.map_app, app_assoc.
Qed.

(** ** Properties *)

(** The incremental digest is SHA-256 of the whole input. However the
    input is cut into chunks, feeding them one after the other and finishing
    gives the hash of the concatenation, padded and compressed block by
    block; so a text and a file of the same bytes (read in 32 KiB pieces)
    have the same digest. *)
Theorem sha256_incremental (chunks : list (list Z)) (text : bytes) :
  finish (foldl update sha_initial chunks) = sha_ref (concat chunks) /\
  sha256_text text = sha_ref (map code text) /\
  sha256_file (Some text) = inr (sha256_text text).
Proof.
  assert (Hc : forall s m, absorbed s m -> absorbed (foldl update s chunks) (m ++ concat chunks)).
  { induction chunks as [|c l IH]; intros s m Ha; cbn [foldl concat]; [by rewrite app_nil_r|].
    rewrite app_assoc. by apply IH, update_absorbed. }
  assert (Ht : sha256_text text = sha_ref (map code text)).
  { apply finish_ref, (update_absorbed sha_initial []), absorbed_initial. }
  split; [apply finish_ref, (Hc sha_initial []), absorbed_initial|]. split; [done|].
  rewrite Ht. unfold sha256_file, update_regular_file. f_equal. apply finish_ref.
  apply (read_chunks_absorbed _ _ _ []); [lia|rewrite length_map; lia|apply absorbed_initial].
Qed.

(** A directory digest is the hash of the listing [tree_text]: members in
    name order, each announced by its kind and relative path, files followed
    by their contents; it is an error exactly when some member is unreadable
    or neither a file nor a directory. *)
Theorem sha256_tree_listing (l : list (bytes * node)) :
  match tree_text l with
  | Some t => sha256_directory_tree (Some l) = inr (sha256_text t)
  | None => exists e, sha256_directory_tree (Some l) = inl e
  end.
Proof.
  assert (Hl : Forall (fun e => handles (update_node (snd e)) (node_text (snd e))) l)
    by (apply list.Forall_forall; intros; apply node_absorbed).
  pose proof (sorted_members_absorbed update_node node_text l Hl sha_initial [] [] absorbed_initial) as H.
  unfold tree_text, sha256_directory_tree, update_directory_tree. cbv beta in H.
  destruct (members_text [] _) as [t|].
  - destruct H as (s' & -> & H). f_equal. rewrite (finish_ref _ _ H). symmetry.
    apply finish_ref, (update_absorbed sha_initial []), absorbed_initial.
  - destruct H as [e ->]. by exists e.
Qed.

(** The listing does not delimit file contents, so it is not injective: a
    file whose contents imitate the next marker hides a second file. *)
Lemma tree_listing_ambiguous :
  let one := [(lit "a", Reg (Some (lit "x" ++ entry_marker (lit "F") (lit "b") ++ lit "y")))] in
  let two := [(lit "a", Reg (Some (lit "x"))); (lit "b", Reg (Some (lit "y")))] in
  sha256_directory_tree (Some one) = sha256_directory_tree (Some two).
Proof. vm_compute. reflexivity. Qed.
