(* ===== verification/EnvConfig.v ===== *)
(** * EnvConfig: settings from the environment

    Models [src/core/common/env_config.cpp]: strict parsing of integer and
    boolean variables with ranges and defaults, and the settings read through
    it. The environment is an argument, [getenv]. The theorems show that an
    integer setting is its default or a number of its range, that every number
    of the range can be given, and which texts are booleans; the claim timeout
    is the one setting whose default leaves the range of [int]. *)

From S2P Require Import Prelude CLib.

Open Scope Z_scope.

(** [strcasecmp(a, b) == 0] *)
Definition strcase_eq (a b : bytes) : bool := eqs (lowercase a) (lowercase b).

(** [raw == nullptr || raw[0] == '\0'] *)
Definition empty_env (raw : option bytes) : bool :=
  match raw with None | Some [] => true | _ => false end.

Definition range_error (name type : bytes) (min_value max_value : Z) : bytes :=
  name ++ lit " must be a " ++ type ++ lit " in range [" ++ to_string min_value ++ lit ", "
    ++ to_string max_value ++ lit "]".

(** [end == raw] when nothing was converted; [*end != '\0'] when a rest is left. *)
Definition parse_ll_value (raw : bytes) : option Z :=
  let '(parsed, rest, erange) := strtoll 10 raw in
  if erange || (length rest =? length raw)%nat || negb (eqs rest []) then None else Some parsed.

Section Settings.
Context (getenv : bytes -> option bytes).

Definition env_raw_string (name : bytes) : bytes := default [] (getenv name).
Definition env_string (name default_value : bytes) : bytes :=
  let value := env_raw_string name in if eqs value [] then default_value else value.

(** The error text or the value. *)
Definition env_bool (name : bytes) (default_value : bool) : bytes + bool :=
  match getenv name with
  | None | Some [] => inr default_value
  | Some raw =>
      if eqs raw (lit "1") || strcase_eq raw (lit "true") || strcase_eq raw (lit "yes")
         || strcase_eq raw (lit "on")
      then inr true
      else if eqs raw (lit "0") || strcase_eq raw (lit "false") || strcase_eq raw (lit "no")
              || strcase_eq raw (lit "off")
      then inr false
      else inl (name ++ lit " must be a boolean value")
  end.

Definition env_ll (name : bytes) (default_value min_value max_value : Z) : bytes + Z :=
  match getenv name with
  | None | Some [] => inr default_value
  | Some raw =>
      match parse_ll_value raw with
      | Some parsed =>
          if (parsed <? min_value) || (max_value <? parsed)
          then inl (range_error name (lit "integer") min_value max_value)
          else inr parsed
      | None => inl (range_error name (lit "integer") min_value max_value)
      end
  end.

(** [static_cast<int>] of the parsed [long long]. *)
Definition env_int (name : bytes) (default_value min_value max_value : Z) : bytes + Z :=
  match env_ll name default_value min_value max_value with
  | inl e => inl e
  | inr parsed => inr (i32 parsed)
  end.

Definition or_default {A} (d : A) (r : bytes + A) : A := match r with inr v => v | inl _ => d end.

Definition env_bool_or_default (name : bytes) (d : bool) : bool := or_default d (env_bool name d).
Definition env_int_or_default (name : bytes) (d min_value max_value : Z) : Z :=
  or_default d (env_int name d min_value max_value).
Definition env_ll_or_default (name : bytes) (d min_value max_value : Z) : Z :=
  or_default d (env_ll name d min_value max_value).

(** ** The settings *)

Definition llong_max : Z := i64_max.

Definition xdebug_transport : bytes := env_string (lit "XDEBUG_TRANSPORT") (lit "uds").
Definition xdebug_debug_enabled : bool := env_bool_or_default (lit "XDEBUG_DEBUG") false.

(** The value and the error text; [-1] with an error. *)
Definition timeout_or_error (r : bytes + Z) : Z * bytes :=
  match r with inr v => (v, []) | inl e => (-1, e) end.
Definition xdebug_session_start_timeout_sec : Z * bytes :=
  timeout_or_error (env_int (lit "XDEBUG_SESSION_START_TIMEOUT_SEC") 300 1 int_max).
Definition xdebug_session_idle_timeout_sec : Z * bytes :=
  timeout_or_error (env_int (lit "XDEBUG_SESSION_IDLE_TIMEOUT_SEC") 86400 1 int_max).

Definition xdebug_file_transport_timeout_ms : Z :=
  env_int_or_default (lit "XDEBUG_FILE_TRANSPORT_TIMEOUT_MS") 300000 1 int_max.
Definition xdebug_file_transport_ping_timeout_ms : Z :=
  env_int_or_default (lit "XDEBUG_FILE_TRANSPORT_PING_TIMEOUT_MS") 2000 1 int_max.
Definition xdebug_file_poll_interval_ms : Z :=
  env_int_or_default (lit "XDEBUG_FILE_POLL_INTERVAL_MS") 20 1 10000.
Definition xdebug_file_max_json_bytes : Z :=
  env_int_or_default (lit "XDEBUG_FILE_MAX_JSON_BYTES") 67108864 1 (1024 * 1024 * 1024).

Definition xdebug_file_claim_timeout_ms (request_timeout_ms : Z) : Z :=
  let request := if request_timeout_ms <=? 0 then xdebug_file_transport_timeout_ms else request_timeout_ms in
  let fallback := if 300000 <? request then 2 * request else 600000 in
  i32 (env_ll_or_default (lit "XDEBUG_FILE_CLAIM_TIMEOUT_MS") fallback 1 (24 * 60 * 60 * 1000)).

Definition xdebug_file_keep_history : bool := env_bool_or_default (lit "XDEBUG_FILE_KEEP_HISTORY") true.
Definition xdebug_file_done_ttl_sec : Z :=
  env_ll_or_default (lit "XDEBUG_FILE_DONE_TTL_SEC") (7 * 24 * 60 * 60) 0 llong_max.
Definition xdebug_file_failed_ttl_sec : Z :=
  env_ll_or_default (lit "XDEBUG_FILE_FAILED_TTL_SEC") (30 * 24 * 60 * 60) 0 llong_max.
Definition xdebug_common_blocks_path : bytes := env_string (lit "XDEBUG_COMMON_BLOCKS") [].
Definition xdebug_log_max_bytes : Z := env_ll_or_default (lit "XDEBUG_LOG_MAX_BYTES") 0 0 llong_max.
Definition xdebug_log_max_files : Z := env_ll_or_default (lit "XDEBUG_LOG_MAX_FILES") 3 1 llong_max.
Definition xdebug_log_path_mode : bytes := env_string (lit "XDEBUG_LOG_PATH_MODE") [].
Definition xdebug_log_redact_enabled : bool := env_bool_or_default (lit "XDEBUG_LOG_REDACT") false.
Definition xdebug_engine_test_crash_marker_enabled : bool :=
  env_bool_or_default (lit "XDEBUG_ENGINE_TEST_CRASH_MARKER") false.
Definition xdebug_engine_test_crash_action : bytes := env_string (lit "XDEBUG_ENGINE_TEST_CRASH_ACTION") [].
Definition xdebug_engine_test_crash_request_id : bytes :=
  env_string (lit "XDEBUG_ENGINE_TEST_CRASH_REQUEST_ID") [].
Definition xdebug_engine_test_npi_init_fail_enabled : bool :=
  env_bool_or_default (lit "XDEBUG_ENGINE_TEST_NPI_INIT_FAIL") false.
Definition xdebug_engine_test_npi_load_design_fail_enabled : bool :=
  env_bool_or_default (lit "XDEBUG_ENGINE_TEST_NPI_LOAD_DESIGN_FAIL") false.
Definition xdebug_engine_test_npi_fsdb_open_fail_enabled : bool :=
  env_bool_or_default (lit "XDEBUG_ENGINE_TEST_NPI_FSDB_OPEN_FAIL") false.
Definition xdebug_trace_source_context_lines : Z :=
  env_int_or_default (lit "XDEBUG_TRACE_SOURCE_CONTEXT_LINES") 3 0 1000.
Definition xdebug_trace_source_merge_threshold_lines : Z :=
  env_int_or_default (lit "XDEBUG_TRACE_SOURCE_MERGE_THRESHOLD_LINES") 10 1 1000000.

(** ** Lemmas *)

Lemma parse_ll_to_string z : i64_min <= z <= i64_max -> parse_ll_value (to_string z) = Some z.
Proof.
  intros Hz. unfold parse_ll_value, strtoll, to_string. destruct (Z.ltb_spec z 0) as [Hn|Hp].
  - assert (forall s, forallb isdigit s = true -> s <> [] ->
      strto 10 ("-"%char :: s) = Some (true, base_val 10 0 s, [])) as Hs.
    { intros s Hd Hne. pose proof (strto_digits s [] Hd Hne I) as E. rewrite app_nil_r in E.
      destruct s as [|c s]; [done|]. unfold strto in *. change (skip_space ("-"%char :: c :: s)) with ("-"%char :: c :: s).
      cbn [strip_sign]. assert (skip_space (c :: s) = c :: s /\ strip_sign (c :: s) = (false, c :: s)) as [H1 H2].
      { assert (isdigit c = true) as Hc by (simpl in Hd; by bsplit).
        revert Hc. clear. destruct c as [[] [] [] [] [] [] [] []]; try done. }
      rewrite H1, H2 in E. destruct (span _ _) as [ds rest]. destruct ds; [done|]. congruence. }
    rewrite Hs, udec_val by (first [apply udec_digits|apply udec_nonempty; lia|lia]).
    rewrite Z.opp_involutive, (proj2 (Z.ltb_ge z i64_min)), (proj2 (Z.ltb_ge i64_max z)) by lia. done.
  - pose proof (strto_digits (udec z) [] (udec_digits z)) as E. rewrite app_nil_r in E.
    rewrite E, udec_val by (done || apply udec_nonempty; lia).
    rewrite (proj2 (Z.ltb_ge z i64_min)), (proj2 (Z.ltb_ge i64_max z)) by lia. cbn [orb eqs].
    destruct (udec z) eqn:Eu; [by apply udec_nonempty in Eu|done].
Qed.

Lemma env_ll_cases name d lo hi :
  (getenv name = None \/ getenv name = Some []) /\ env_ll name d lo hi = inr d \/
  (exists raw z, getenv name = Some raw /\ parse_ll_value raw = Some z /\ lo <= z <= hi /\
     env_ll name d lo hi = inr z) \/
  env_ll name d lo hi = inl (range_error name (lit "integer") lo hi).
Proof.
  unfold env_ll. destruct (getenv name) as [[|c raw]|]; auto.
  destruct (parse_ll_value (c :: raw)) as [z|] eqn:E; auto. case_match eqn:B; auto.
  right. left. exists (c :: raw), z. apply orb_false_iff in B as [B1%Z.ltb_ge B2%Z.ltb_ge]. auto.
Qed.

Lemma env_ll_range name d lo hi : lo <= d <= hi ->
  lo <= env_ll_or_default name d lo hi <= hi.
Proof.
  intros Hd. unfold env_ll_or_default.
  destruct (env_ll_cases name d lo hi) as [[_ ->]|[(raw & z & _ & _ & Hz & ->)| ->]]; cbn; lia.
Qed.

Lemma env_int_range name d lo hi : int_min <= lo -> hi <= int_max -> lo <= d <= hi ->
  lo <= env_int_or_default name d lo hi <= hi.
Proof.
  intros Hlo Hhi Hd. unfold env_int_or_default, env_int.
  destruct (env_ll_cases name d lo hi) as [[_ ->]|[(raw & z & _ & _ & Hz & ->)| ->]]; cbn; [| |lia];
    rewrite i32_small; lia.
Qed.
End Settings.

(** ** Theorems *)

(** Integer settings are bounded and exact. Whatever the environment
    holds, every integer setting stays in its documented range (the start and
    idle timeouts otherwise report [-1] with an error), and the claim timeout
    is a positive [int] as long as the request timeout it doubles is below
    [2^30]. A variable set to the decimal text of a 64-bit integer is accepted
    with exactly that value when it lies in the range, and refused with the
    range in the error text when it does not. *)
Theorem env_settings_bounded (getenv : bytes -> option bytes) :
  let timeout_ok (r : Z * bytes) := 1 <= r.1 <= int_max /\ r.2 = [] \/ r.1 = -1 /\ r.2 <> [] in
  timeout_ok (xdebug_session_start_timeout_sec getenv) /\
  timeout_ok (xdebug_session_idle_timeout_sec getenv) /\
  1 <= xdebug_file_transport_timeout_ms getenv <= int_max /\
  1 <= xdebug_file_transport_ping_timeout_ms getenv <= int_max /\
  1 <= xdebug_file_poll_interval_ms getenv <= 10000 /\
  1 <= xdebug_file_max_json_bytes getenv <= 2 ^ 30 /\
  0 <= xdebug_file_done_ttl_sec getenv <= i64_max /\
  0 <= xdebug_file_failed_ttl_sec getenv <= i64_max /\
  0 <= xdebug_log_max_bytes getenv <= i64_max /\
  1 <= xdebug_log_max_files getenv <= i64_max /\
  0 <= xdebug_trace_source_context_lines getenv <= 1000 /\
  1 <= xdebug_trace_source_merge_threshold_lines getenv <= 1000000 /\
  (forall request, request < 2 ^ 30 -> xdebug_file_transport_timeout_ms getenv < 2 ^ 30 ->
     1 <= xdebug_file_claim_timeout_ms getenv request <= int_max) /\
  (forall name d lo hi z, getenv name = Some (to_string z) -> i64_min <= z <= i64_max ->
     env_ll getenv name d lo hi =
       if (lo <=? z) && (z <=? hi) then inr z else inl (range_error name (lit "integer") lo hi)).
Proof.
  assert (forall name d, 1 <= d <= int_max ->
    let r := timeout_or_error (env_int getenv name d 1 int_max) in
    1 <= r.1 <= int_max /\ r.2 = [] \/ r.1 = -1 /\ r.2 <> []) as Ht.
  { intros name d Hd. unfold env_int.
    destruct (env_ll_cases getenv name d 1 int_max) as [[_ ->]|[(raw & z & _ & _ & Hz & ->)| ->]]; cbn.
    - left. rewrite i32_small; [done|]. unfold int_min. lia.
    - left. rewrite i32_small; [done|]. unfold int_min. lia.
    - right. split; [done|]. unfold range_error. by destruct name. }
  split_and!; try (apply Ht; unfold int_max; lia);
    try (apply env_int_range; unfold int_min, int_max; lia);
    try (apply env_ll_range; unfold llong_max, i64_max; lia).
  - intros request Hr Htr. unfold xdebug_file_claim_timeout_ms. cbv zeta.
    pose proof (env_int_range getenv (lit "XDEBUG_FILE_TRANSPORT_TIMEOUT_MS") 300000 1 int_max) as Hm.
    fold (xdebug_file_transport_timeout_ms getenv) in Hm. unfold int_min, int_max in *.
    set (req := if request <=? 0 then xdebug_file_transport_timeout_ms getenv else request). assert (req < 2 ^ 30) as Hq by (subst req; case_match; lia).
    set (fb := if 300000 <? req then 2 * req else 600000). assert (1 <= fb < 2 ^ 31) as Hf by (subst fb; case_match eqn:E; lia).
    clearbody fb. unfold env_ll_or_default.
    destruct (env_ll_cases getenv (lit "XDEBUG_FILE_CLAIM_TIMEOUT_MS") fb 1 (24 * 60 * 60 * 1000))
      as [[_ ->]|[(raw & z & _ & _ & Hz & ->)| ->]]; cbn [or_default]; rewrite i32_small; unfold int_min, int_max; lia.
  - intros name d lo hi z Hg Hz. unfold env_ll. rewrite Hg, parse_ll_to_string by done.
    destruct (to_string z) as [|c s] eqn:E.
    { exfalso. unfold to_string in E. case_match; [done|]. apply udec_nonempty in E; [done|lia]. }
    rewrite !Z.ltb_antisym, <- negb_andb. by destruct ((lo <=? z) && (z <=? hi)).
Qed.

(** With a request timeout of [2^30] milliseconds or more the default claim
    timeout, twice the request timeout, does not fit [int] and comes out
    negative. *)
Lemma claim_timeout_negative :
  xdebug_file_claim_timeout_ms (fun _ => None) int_max = -2 /\
  forall request, 2 ^ 30 <= request <= int_max ->
    xdebug_file_claim_timeout_ms (fun _ => None) request < 0.
Proof.
  split; [reflexivity|]. intros request Hr. unfold xdebug_file_claim_timeout_ms, env_ll_or_default, env_ll.
  unfold int_max in *. rewrite (proj2 (Z.leb_gt request 0)), (proj2 (Z.ltb_lt 300000 request)) by lia.
  cbn [or_default]. unfold i32. replace (2 * request + 2 ^ 31) with (2 * request - 2 ^ 31 + 1 * 2 ^ 32) by lia.
  rewrite Z_mod_plus_full, Z.mod_small by lia. lia.
Qed.

(** Booleans: exactly eight words, in any case, and the default when unset. *)
Lemma env_bool_words getenv name d raw : getenv name = Some raw ->
  env_bool getenv name d =
    if eqs raw [] then inr d
    else if bool_decide (lowercase raw ∈ [lit "1"; lit "true"; lit "yes"; lit "on"]) then inr true
    else if bool_decide (lowercase raw ∈ [lit "0"; lit "false"; lit "no"; lit "off"]) then inr false
    else inl (name ++ lit " must be a boolean value").
Proof.
  intros Hg. unfold env_bool. rewrite Hg. destruct raw as [|c raw]; [done|]. set (s := c :: raw).
  assert (forall x : ascii, isdigit x = true -> eqs s [x] = eqs (lowercase s) [x]) as Hd.
  { intros x Hx. apply Bool.eq_iff_eq_true. rewrite !eqs_true. split; [intros ->; cbn; by rewrite tolower_digit|].
    subst s. destruct raw; [|done]. cbn. intros [= E]. f_equal.
    revert x Hx E. clear. intros x Hx E. destruct (isupper c) eqn:U.
    - exfalso. subst x. assert (negb (isdigit (tolower c)) = true) as Hn; [|by rewrite Hx in Hn].
      revert c U Hx. intros c U _. revert c U.
      apply (ascii_forall_impl isupper (fun c => negb (isdigit (tolower c)))). ascii_dec_solve.
    - unfold tolower in E. by rewrite U in E. }
  change (eqs s []) with false. cbv iota. change (lit "1") with ["1"%char]. change (lit "0") with ["0"%char].
  unfold strcase_eq. rewrite !Hd by done.
  assert (forall a b c' e : bytes, eqs (lowercase s) a || eqs (lowercase s) b || eqs (lowercase s) c' || eqs (lowercase s) e
    = bool_decide (lowercase s ∈ [a; b; c'; e])) as Hor.
  { intros a b c' e. apply Bool.eq_iff_eq_true. rewrite !orb_true_iff, !eqs_true, bool_decide_eq_true, !elem_of_cons, elem_of_nil.
    tauto. }
  rewrite <- !Hor. reflexivity.
Qed.
