(* ===== verification/Diagnostics.v ===== *)
(** * Diagnostics: error objects and the redaction of secrets

    Models [src/core/diagnostic_error.h] over [nlohmann::ordered_json], whose
    objects keep insertion order. The theorems show that a rendered error
    contains no ownership token under any key, that an error whose
    [invalid_arg] is such a field carries neither the received value nor a
    message quoting it, that one whose [path] is such a field carries no such
    message, that two errors differing only in hidden values are rendered the
    same, and that an error with nothing to hide is rendered as it is. *)

From S2P Require Import Prelude CLib Json.

Open Scope Z_scope.

(** ** Ordered objects *)

Section Ordered.
Context {V : Type}.

(** [object[key] = value] of an [ordered_json]: in place, or at the end. *)
Fixpoint oset (k : bytes) (v : V) (m : list (bytes * V)) : list (bytes * V) :=
  match m with
  | [] => [(k, v)]
  | (k', v') :: m' => if eqs k k' then (k', v) :: m' else (k', v') :: oset k v m'
  end.

Lemma mget_oset_eq k v m : mget k (oset k v m) = Some v.
Proof.
  induction m as [|[k' v'] m IH]; cbn [oset mget]; [by rewrite eqs_refl|].
  destruct (eqs k k') eqn:E; cbn [mget]; by rewrite E.
Qed.

Lemma mget_oset_ne k k' v m : k <> k' -> mget k' (oset k v m) = mget k' m.
Proof.
  intros Hne. induction m as [|[k1 v1] m IH]; cbn [oset mget].
  - by rewrite (proj2 (eqs_false k' k)) by congruence.
  - destruct (eqs k k1) eqn:E; cbn [mget].
    + apply eqs_true in E as <-. by rewrite (proj2 (eqs_false k' k)) by congruence.
    + by rewrite IH.
Qed.

Lemma oset_elem k v m k' v' : (k', v') ∈ oset k v m -> (k', v') = (k, v) \/ (k', v') ∈ m.
Proof.
  induction m as [|[k1 v1] m IH]; cbn [oset]; [intros ->%list_elem_of_singleton; by left|].
  destruct (eqs k k1) eqn:E.
  - apply eqs_true in E as <-. intros [E|Hin]%elem_of_cons; [by left|]. right. by right.
  - intros [->|Hin]%elem_of_cons; [right; left|]. destruct (IH Hin); [by left|]. right. by right.
Qed.
End Ordered.

(** Assignment to a member of an object value (a null becomes an object). *)
Definition jset (k : bytes) (v : json) (j : json) : json := JObject (oset k v (members j)).

Lemma jget_jset_eq k v j : jget k (jset k v j) = Some v.
Proof. apply mget_oset_eq. Qed.
Lemma jget_jset_ne k k' v j : k <> k' -> jget k' (jset k v j) = jget k' j.
Proof. apply mget_oset_ne. Qed.

(** Induction through arrays and objects. *)
Section JsonInd.
Context (P : json -> Prop).
Context (Hnull : P JNull) (Hbool : forall b, P (JBool b)) (Hint : forall z, P (JInt z))
  (Huint : forall z, P (JUint z)) (Hfloat : forall r, P (JFloat r)) (Hstr : forall s, P (JString s))
  (Harr : forall l, Forall P l -> P (JArray l))
  (Hobj : forall m, Forall (fun kv => P (snd kv)) m -> P (JObject m)).

Fixpoint json_nested_ind (j : json) : P j :=
  match j with
  | JNull => Hnull
  | JBool b => Hbool b
  | JInt z => Hint z
  | JUint z => Huint z
  | JFloat r => Hfloat r
  | JString s => Hstr s
  | JArray l =>
      Harr l ((fix go (l : list json) : Forall P l :=
        match l with
        | [] => Forall_nil_2 P
        | x :: l' => Forall_cons_2 P x l' (json_nested_ind x) (go l')
        end) l)
  | JObject m =>
      Hobj m ((fix go (m : list (bytes * json)) : Forall (fun kv => P (snd kv)) m :=
        match m with
        | [] => Forall_nil_2 _
        | kv :: m' => Forall_cons_2 (fun kv => P (snd kv)) kv m' (json_nested_ind (snd kv)) (go m')
        end) m)
  end.
End JsonInd.

(** ** Redaction *)

Definition sensitive_diagnostic_key (key : bytes) : bool :=
  eqs key (lit "ownership_token") || eqs key (lit "ownership_token_hash").

(** The loop of [sensitive_diagnostic_path]; the end of the path is the
    terminating character. *)
Fixpoint path_scan (path segment : bytes) : bool :=
  match path with
  | [] => sensitive_diagnostic_key segment
  | c :: path' =>
      if isalnum c || eqc c "_" then path_scan path' (segment ++ [c])
      else if sensitive_diagnostic_key segment then true
      else path_scan path' []
  end.
Definition sensitive_diagnostic_path (path : bytes) : bool := path_scan path [].

Definition hidden_text : bytes := lit "sensitive request field failed validation".

(** [value.contains(key) && value[key].is_string() && sensitive_diagnostic_path(...)] *)
Definition names_sensitive (key : bytes) (m : list (bytes * json)) : bool :=
  match mget key m with Some (JString s) => sensitive_diagnostic_path s | _ => false end.

(** One member of an object: what is assigned to [out], if anything, and
    whether something was redacted. *)
Definition redact_member (arg path : bool) (k : bytes) (v : json * bool)
    (st : list (bytes * json) * bool) : list (bytes * json) * bool :=
  let '(out, redacted) := st in
  if sensitive_diagnostic_key k then (out, true)
  else if arg && eqs k (lit "received") then (out, true)
  else if (arg || path) && eqs k (lit "message") then (oset k (JString hidden_text) out, true)
  else (oset k (fst v) out, redacted || snd v).

(** The value and the updated [redacted] flag. *)
Fixpoint redact_sensitive_diagnostic_value (value : json) : json * bool :=
  match value with
  | JArray items =>
      let out := map redact_sensitive_diagnostic_value items in
      (JArray (map fst out), existsb snd out)
  | JObject m =>
      let arg := names_sensitive (lit "invalid_arg") m in
      let path := names_sensitive (lit "path") m in
      let '(out, redacted) :=
        foldl (fun st kv => redact_member arg path (fst kv) (snd kv) st) ([], false)
          (map (fun kv => (fst kv, redact_sensitive_diagnostic_value (snd kv))) m) in
      if arg then (JObject (oset (lit "received_redacted") (JBool true) out), true)
      else (JObject out, redacted)
  | v => (v, false)
  end.
Definition redact_sensitive_diagnostic (value : json) : json :=
  fst (redact_sensitive_diagnostic_value value).

(** ** The builder *)

Definition DiagnosticErrorBuilder (code message layer : bytes) : json :=
  jset (lit "error_layer") (JString layer)
    (jset (lit "recoverable") (JBool true)
       (jset (lit "message") (JString message)
          (jset (lit "code") (JString code) (JObject [])))).

Definition schema_error (code message : bytes) : json := DiagnosticErrorBuilder code message (lit "schema").
Definition handler_error (code message : bytes) : json := DiagnosticErrorBuilder code message (lit "handler").
Definition wrapper_error (code message : bytes) : json := DiagnosticErrorBuilder code message (lit "wrapper").
Definition session_manager_error (code message : bytes) : json :=
  DiagnosticErrorBuilder code message (lit "session_manager").
Definition transport_error (code message : bytes) : json := DiagnosticErrorBuilder code message (lit "transport").

Definition with_recoverable (value : bool) (e : json) : json := jset (lit "recoverable") (JBool value) e.
Definition internal_error (code message : bytes) : json :=
  with_recoverable false (DiagnosticErrorBuilder code message (lit "internal")).
Definition with_invalid_arg (value : bytes) (e : json) : json := jset (lit "invalid_arg") (JString value) e.
Definition with_expected (value : bytes) (e : json) : json := jset (lit "expected") (JString value) e.
Definition with_received (value : json) (e : json) : json := jset (lit "received") value e.
Definition with_received_type (value : bytes) (e : json) : json := jset (lit "received_type") (JString value) e.
Definition with_schema_path (value : bytes) (e : json) : json :=
  if eqs value [] then e else jset (lit "schema_path") (JString value) e.
Definition is_null (j : json) : bool := match j with JNull => true | _ => false end.
Definition with_required_any_of (value : json) (e : json) : json :=
  if is_null value then e else jset (lit "required_any_of") value e.
Definition with_missing_name (value : bytes) (e : json) : json := jset (lit "missing_name") (JString value) e.
Definition with_missing_resource (value : bytes) (e : json) : json :=
  jset (lit "missing_resource") (JString value) e.
Definition with_available_values (value : json) (e : json) : json := jset (lit "available_values") value e.
Definition with_next_actions (value : json) (e : json) : json := jset (lit "next_actions") value e.
Definition with_example_note (value : bytes) (e : json) : json :=
  if eqs value [] then e else jset (lit "example_note") (JString value) e.
Definition with_correct_example (value : json) (e : json) : json :=
  if is_null value then e else jset (lit "correct_example") value e.
Definition with_cause_code (value : bytes) (e : json) : json :=
  if eqs value [] then e else jset (lit "cause_code") (JString value) e.
Definition to_json (e : json) : json := redact_sensitive_diagnostic e.

Definition set_if_absent (k : bytes) (v : json) (j : json) : json :=
  if jcontains k j then j else jset k v j.
Definition normalize_diagnostic_error (error : json) (default_layer : bytes) : json :=
  let error := if is_object error then error else JObject [] in
  let error := set_if_absent (lit "code") (JString (lit "ACTION_FAILED")) error in
  let error := set_if_absent (lit "message") (JString (lit "action failed")) error in
  let error := set_if_absent (lit "error_layer") (JString default_layer) error in
  let error := set_if_absent (lit "recoverable") (JBool true) error in
  redact_sensitive_diagnostic error.

Definition request_consumption_violation (unconsumed_paths : list bytes) : json :=
  to_json
    (with_received (JArray (map JString unconsumed_paths))
       (with_expected (lit "every provided request field must be consumed exactly once")
          (with_invalid_arg (lit "request")
             (internal_error (lit "INTERNAL_REQUEST_CONSUMPTION_VIOLATION")
                (lit "action left provided request fields unconsumed"))))).

(** ** Correctness *)

(** Every object has distinct keys, as an [ordered_json] object has. *)
Fixpoint keys_ok (j : json) : Prop :=
  match j with
  | JArray l => (fix go l := match l with [] => True | x :: l' => keys_ok x /\ go l' end) l
  | JObject m =>
      NoDup (map fst m) /\
      (fix go m := match m with [] => True | kv :: m' => keys_ok (snd kv) /\ go m' end) m
  | _ => True
  end.

Definition message_hidden (m : list (bytes * json)) : Prop :=
  forall v, mget (lit "message") m = Some v -> v = JString hidden_text.

(** Nothing secret is left: no sensitive key at any depth; an object whose
    [invalid_arg] names a sensitive field holds neither the received value nor
    a message other than the fixed one, and is marked; an object whose [path]
    names one holds no other message. *)
Inductive clean : json -> Prop :=
| clean_scalar j : is_array j = false -> is_object j = false -> clean j
| clean_array l : Forall clean l -> clean (JArray l)
| clean_object m :
    Forall (fun kv => sensitive_diagnostic_key (fst kv) = false /\ clean (snd kv)) m ->
    (names_sensitive (lit "invalid_arg") m = true ->
       mget (lit "received") m = None /\ mget (lit "received_redacted") m = Some (JBool true) /\
       message_hidden m) ->
    (names_sensitive (lit "path") m = true -> message_hidden m) ->
    clean (JObject m).

(** The members of [m] whose value the redaction drops. *)
Definition hidden_member (m : list (bytes * json)) (k : bytes) : bool :=
  let arg := names_sensitive (lit "invalid_arg") m in
  sensitive_diagnostic_key k || (arg && eqs k (lit "received"))
  || ((arg || names_sensitive (lit "path") m) && eqs k (lit "message")).

(** Equal up to the values of hidden members. *)
Inductive public_eq : json -> json -> Prop :=
| pe_refl j : public_eq j j
| pe_array l l' : Forall2 public_eq l l' -> public_eq (JArray l) (JArray l')
| pe_object m m' :
    Forall2 (fun kv kv' => fst kv = fst kv' /\
      (hidden_member m (fst kv) = true \/ public_eq (snd kv) (snd kv'))) m m' ->
    public_eq (JObject m) (JObject m').

Lemma names_sensitive_public m0 m m' key : hidden_member m0 key = false ->
  Forall2 (fun kv kv' => fst kv = fst kv' /\
    (hidden_member m0 (fst kv) = true \/ public_eq (snd kv) (snd kv'))) m m' ->
  names_sensitive key m = names_sensitive key m'.
Proof.
  intros Hk. unfold names_sensitive. induction 1 as [|[k v] [k' v'] m m' [E Hv] _ IH]; [done|].
  cbn [fst snd mget] in *. subst k'. destruct (eqs key k) eqn:Ek; [|done].
  apply eqs_true in Ek as <-. rewrite Hk in Hv. destruct Hv as [|Hv]; [done|].
  inversion Hv; subst; done.
Qed.

Lemma redact_fold_public m0 arg path m m' :
  arg = names_sensitive (lit "invalid_arg") m0 -> path = names_sensitive (lit "path") m0 ->
  Forall (fun kv => forall v', public_eq (snd kv) v' ->
    redact_sensitive_diagnostic_value (snd kv) = redact_sensitive_diagnostic_value v') m ->
  Forall2 (fun kv kv' => fst kv = fst kv' /\
    (hidden_member m0 (fst kv) = true \/ public_eq (snd kv) (snd kv'))) m m' ->
  forall st,
    foldl (fun st kv => redact_member arg path (fst kv) (snd kv) st) st
      (map (fun kv => (fst kv, redact_sensitive_diagnostic_value (snd kv))) m) =
    foldl (fun st kv => redact_member arg path (fst kv) (snd kv) st) st
      (map (fun kv => (fst kv, redact_sensitive_diagnostic_value (snd kv))) m').
Proof.
  intros -> -> IHv Hm. induction Hm as [|[k v] [k' v'] m m' [E Hv] _ IH]; [done|].
  intros st. cbn [map foldl fst snd] in *. subst k'. apply list.Forall_cons in IHv as [IHv1 IHv2]. cbn [snd] in IHv1.
  rewrite (IH IHv2). f_equal. destruct Hv as [Hh|Hv]; [|by rewrite (IHv1 _ Hv)].
  unfold hidden_member in Hh. unfold redact_member. destruct st as [out r].
  destruct (sensitive_diagnostic_key k); [done|].
  destruct (names_sensitive _ m0 && eqs k (lit "received")); [done|]. cbn [orb] in Hh. by rewrite Hh.
Qed.

Lemma redact_public v : forall v', public_eq v v' ->
  redact_sensitive_diagnostic_value v = redact_sensitive_diagnostic_value v'.
Proof.
  induction v as [| | | | | |l IH|m IH] using json_nested_ind; intros v' Hp; inversion Hp as [|? l' Hl|? m' Hm]; subst; try done.
  - assert (map redact_sensitive_diagnostic_value l = map redact_sensitive_diagnostic_value l') as E.
    { clear Hp. revert IH. induction Hl as [|x y l l' Hx _ IHl]; [done|]. intros [H1 H2]%list.Forall_cons.
      cbn [map]. f_equal; auto. }
    cbn [redact_sensitive_diagnostic_value]. by rewrite E.
  - cbn [redact_sensitive_diagnostic_value].
    assert (forall k, eqs k (lit "invalid_arg") || eqs k (lit "path") = true -> hidden_member m k = false) as Hnh.
    { intros k [->%eqs_true| ->%eqs_true]%orb_true_iff; unfold hidden_member; cbn; by rewrite !andb_false_r. }
    rewrite <- !(names_sensitive_public m m m') by (done || by apply Hnh).
    by rewrite (redact_fold_public m _ _ m m' eq_refl eq_refl IH Hm ([], false)).
Qed.

(** What the fold leaves in [out]. *)
Lemma redact_fold_members arg path (l : list (bytes * (json * bool))) st :
  let out := (foldl (fun st kv => redact_member arg path (fst kv) (snd kv) st) st l).1 in
  forall k v, (k, v) ∈ out ->
    (k, v) ∈ st.1 \/
    (sensitive_diagnostic_key k = false /\ (arg = true -> k <> lit "received") /\
     (arg || path = true -> k = lit "message" -> v = JString hidden_text) /\
     (v = JString hidden_text \/ exists r, (k, r) ∈ l /\ v = r.1)).
Proof.
  revert st. induction l as [|[k1 [v1 b1]] l IH]; intros st out k v Hin; [by left|].
  subst out. cbn [foldl fst snd] in Hin. apply IH in Hin as [Hin|(H1 & H2 & H3 & H4)].
  2: { right. split_and!; try done. destruct H4 as [?|(r & Hr & ?)]; [by left|]. right. exists r. split; [by right|done]. }
  unfold redact_member in Hin. destruct st as [out red]. cbn [fst snd] in *.
  destruct (sensitive_diagnostic_key k1) eqn:E1; [by left|].
  destruct (arg && eqs k1 (lit "received")) eqn:E2; [by left|].
  destruct ((arg || path) && eqs k1 (lit "message")) eqn:E3; apply oset_elem in Hin as [E|Hin]; auto;
    injection E as -> ->; right; split_and!; try done.
  - intros -> ->. by rewrite eqs_refl in E2.
  - by left.
  - intros -> ->. by rewrite eqs_refl in E2.
  - intros Ha ->. by rewrite Ha, eqs_refl in E3.
  - right. exists (v1, b1). split; [left|done].
Qed.

(** A member that is neither dropped nor replaced is kept. *)
Lemma redact_fold_get arg path k (l : list (bytes * (json * bool))) st :
  sensitive_diagnostic_key k = false -> eqs k (lit "received") = false -> eqs k (lit "message") = false ->
  NoDup (map fst l) ->
  mget k (foldl (fun st kv => redact_member arg path (fst kv) (snd kv) st) st l).1 =
    match mget k l with Some r => Some (r.1) | None => mget k (st.1) end.
Proof.
  intros H1 H2 H3. revert st. induction l as [|[k1 [v1 b1]] l IH]; intros st Hn; [done|].
  apply list.NoDup_cons in Hn as [Hk1 Hn]. cbn [foldl fst snd mget]. rewrite (IH _ Hn).
  destruct (eqs k k1) eqn:E.
  - apply eqs_true in E as <-. assert (mget k l = None) as ->.
    { destruct (mget k l) as [r|] eqn:Er; [|done]. apply mget_elem in Er. exfalso. apply Hk1.
      apply list_elem_of_In, List.in_map_iff. exists (k, r). split; [done|]. by apply list_elem_of_In. }
    unfold redact_member. destruct st as [out red]. rewrite H1, H2, H3, !andb_false_r. apply mget_oset_eq.
  - destruct (mget k l); [done|]. apply eqs_false in E.
    unfold redact_member. destruct st as [out red]. repeat case_match; cbn [fst]; rewrite ?mget_oset_ne by congruence; done.
Qed.

Lemma names_sensitive_redact arg path key m :
  sensitive_diagnostic_key key = false -> eqs key (lit "received") = false -> eqs key (lit "message") = false ->
  NoDup (map fst m) ->
  names_sensitive key
    (foldl (fun st kv => redact_member arg path (fst kv) (snd kv) st) ([], false)
       (map (fun kv => (fst kv, redact_sensitive_diagnostic_value (snd kv))) m)).1 = names_sensitive key m.
Proof.
  intros H1 H2 H3 Hn. unfold names_sensitive. rewrite redact_fold_get by (done || by rewrite List.map_map).
  assert (mget key (map (fun kv => (fst kv, redact_sensitive_diagnostic_value (snd kv))) m) =
    redact_sensitive_diagnostic_value <$> mget key m) as ->.
  { clear. induction m as [|[k v] m IH]; [done|]. cbn [map mget fst snd]. by case_match. }
  destruct (mget key m) as [v|]; [|done]. cbn. destruct v; try done. cbn.
  destruct (foldl _ _ _) as [out r]. by destruct (names_sensitive _ _).
Qed.

Lemma clean_hidden : clean (JString hidden_text).
Proof. by apply clean_scalar. Qed.

Lemma redact_clean v : keys_ok v -> clean (redact_sensitive_diagnostic v).
Proof.
  unfold redact_sensitive_diagnostic.
  induction v as [| | | | | |l IH|m IH] using json_nested_ind; intros Hk; try by apply clean_scalar.
  - cbn [redact_sensitive_diagnostic_value fst]. apply clean_array. cbn [keys_ok] in Hk.
    induction l as [|x l IHl]; [constructor|]. apply list.Forall_cons in IH as [H1 H2]. destruct Hk as [Hx Hk].
    constructor; auto.
  - cbn [keys_ok] in Hk. destruct Hk as [Hn Hk].
    assert (forall k v, (k, v) ∈ m -> clean (redact_sensitive_diagnostic_value v).1) as Hc.
    { clear Hn. intros k v. induction m as [|[k1 v1] m IHm]; [by intros ?%elem_of_nil|].
      apply list.Forall_cons in IH as [H1 H2]. destruct Hk as [Hx Hk].
      intros [E|Hin]%elem_of_cons; [injection E as -> ->; auto|auto]. }
    clear IH Hk. cbn [redact_sensitive_diagnostic_value].
    set (arg := names_sensitive (lit "invalid_arg") m). set (path := names_sensitive (lit "path") m).
    set (l := map _ m).
    pose proof (redact_fold_members arg path l ([], false)) as Hm.
    pose proof (names_sensitive_redact arg path (lit "invalid_arg") m eq_refl eq_refl eq_refl Hn) as Ha.
    pose proof (names_sensitive_redact arg path (lit "path") m eq_refl eq_refl eq_refl Hn) as Hp.
    fold l in Ha, Hp. destruct (foldl _ _ l) as [out red]. cbn [fst] in *.
    assert (Forall (fun kv => sensitive_diagnostic_key (fst kv) = false /\ clean (snd kv)) out) as Hall.
    { apply list.Forall_forall. intros [k v] Hin. destruct (Hm k v Hin) as [[]%elem_of_nil|(H1 & _ & _ & H4)].
      split; [done|]. cbn [snd]. destruct H4 as [->|(r & Hr & ->)]; [apply clean_hidden|].
      apply list_elem_of_In, List.in_map_iff in Hr as ([k' v'] & E & Hr). injection E as <- <-.
      by apply (Hc k'), list_elem_of_In. }
    assert (forall k, arg || path = true -> k = lit "message" -> forall v, mget k out = Some v -> v = JString hidden_text) as Hmsg.
    { intros k Hap -> v Hv%mget_elem. destruct (Hm _ v Hv) as [[]%elem_of_nil|(_ & _ & H3 & _)]. auto. }
    destruct arg eqn:Earg; cbn [fst]; apply clean_object.
    + apply list.Forall_forall. intros [k v] [E|Hin]%oset_elem.
      * injection E as -> ->. split; [done|]. by apply clean_scalar.
      * rewrite list.Forall_forall in Hall. by apply (Hall (k, v)).
    + intros _. split_and!.
      * rewrite mget_oset_ne by done. destruct (mget _ out) as [v|] eqn:Ev; [|done].
        apply mget_elem, Hm in Ev as [[]%elem_of_nil|(_ & H2 & _)]. by destruct (H2 eq_refl).
      * apply mget_oset_eq.
      * intros v. rewrite mget_oset_ne by done. by apply Hmsg.
    + intros _ v. rewrite mget_oset_ne by done. by apply Hmsg.
    + done.
    + intros Hx. rewrite Ha in Hx. subst arg. congruence.
    + intros Hx v. apply Hmsg; [|done]. rewrite Hp in Hx. by unfold path.
Qed.

(** Nothing to hide: no sensitive key at any depth, no object whose
    [invalid_arg] names a sensitive field and none whose [path] does while it
    has a message. *)
Inductive innocent : json -> Prop :=
| innocent_scalar j : is_array j = false -> is_object j = false -> innocent j
| innocent_array l : Forall innocent l -> innocent (JArray l)
| innocent_object m :
    Forall (fun kv => sensitive_diagnostic_key (fst kv) = false /\ innocent (snd kv)) m ->
    names_sensitive (lit "invalid_arg") m = false ->
    names_sensitive (lit "path") m = false \/ mget (lit "message") m = None ->
    innocent (JObject m).

Lemma oset_fresh {V} k (v : V) m : mget k m = None -> oset k v m = m ++ [(k, v)].
Proof. induction m as [|[k' v'] m IH]; cbn [mget oset app]; [done|]. destruct (eqs k k'); [done|]. intros E. by rewrite IH. Qed.
Lemma mget_app_none {V} k (m1 m2 : list (bytes * V)) : mget k m1 = None -> mget k (m1 ++ m2) = mget k m2.
Proof. induction m1 as [|[k' v'] m1 IH]; cbn [mget app]; [done|]. by destruct (eqs k k'). Qed.
Lemma mget_unset {V} k (m : list (bytes * V)) : k ∉ map fst m -> mget k m = None.
Proof.
  induction m as [|[k' v'] m IH]; cbn [mget map fst]; [done|]. intros [Hk Hm]%not_elem_of_cons.
  rewrite (proj2 (eqs_false k k')) by done. auto.
Qed.

(** The fold over members that are all kept. *)
Lemma redact_fold_kept path (m : list (bytes * json)) out :
  NoDup (map fst (out ++ m)) -> Forall (fun kv => sensitive_diagnostic_key (fst kv) = false /\ redact_sensitive_diagnostic_value (snd kv) = (snd kv, false)) m ->
  path = false \/ mget (lit "message") m = None ->
  foldl (fun st kv => redact_member false path (fst kv) (snd kv) st) (out, false)
    (map (fun kv => (fst kv, redact_sensitive_diagnostic_value (snd kv))) m) = (out ++ m, false).
Proof.
  revert out. induction m as [|[k v] m IH]; intros out Hn Hm Hp; [by rewrite app_nil_r|]. apply list.Forall_cons in Hm as [[Hk Hv] Hm].
  cbn [map foldl fst snd redact_member] in *. rewrite Hk, Hv. cbn [andb orb fst snd].
  assert (path && eqs k (lit "message") = false) as ->.
  { destruct Hp as [->|Hp]; [done|]. cbn [mget] in Hp. destruct (eqs k (lit "message")) eqn:E; [|by rewrite andb_false_r].
    apply eqs_true in E as ->. by rewrite eqs_refl in Hp. }
  assert (mget k out = None) as Hko.
  { apply mget_unset. rewrite map_app in Hn. cbn [map fst] in Hn. apply list.NoDup_app in Hn as (_ & Hd & _). intros Hin. apply (Hd k Hin). by left. }
  rewrite (oset_fresh k v out Hko), IH.
  - by rewrite <- app_assoc.
  - by rewrite <- app_assoc.
  - done.
  - destruct Hp as [Hp|Hp]; [by left|right]. cbn [mget] in Hp. by destruct (eqs (lit "message") k).
Qed.

Lemma redact_innocent v : keys_ok v -> innocent v -> redact_sensitive_diagnostic_value v = (v, false).
Proof.
  induction v as [| | | | | |l IH|m IH] using json_nested_ind; intros Hk Hi; try done.
  - cbn [redact_sensitive_diagnostic_value]. inversion Hi as [| ? Hl|]; subst; [done|]. cbn [keys_ok] in Hk.
    assert (map redact_sensitive_diagnostic_value l = map (fun v => (v, false)) l) as ->.
    { clear Hi. induction l as [|x l IHl]; [done|]. apply list.Forall_cons in IH as [H1 H2]. apply list.Forall_cons in Hl as [Hx Hl]. destruct Hk as [Kx Kl].
      cbn [map]. f_equal; auto. }
    rewrite List.map_map. cbn [fst]. rewrite map_id. f_equal. clear. by induction l.
  - cbn [redact_sensitive_diagnostic_value]. inversion Hi as [| |? Hm Ha Hp]; subst; [done|]. destruct Hk as [Hn Hk].
    rewrite Ha, redact_fold_kept; [done|done| |done].
    clear Hi Ha Hp Hn. induction m as [|[k v] m IHm]; [constructor|]. apply list.Forall_cons in IH as [H1 H2]. apply list.Forall_cons in Hm as [[Hs Hv] Hm].
    destruct Hk as [Kv Km]. constructor; [|auto]. split; [done|]. by apply H1.
Qed.

(** C39: rendered diagnostics leak no ownership token. The redacted form of an
    error object holds, at any depth, no member with a sensitive key; an object
    in it whose [invalid_arg] names a sensitive field has no received value, is
    marked as redacted and can only carry the fixed message; an object whose
    [path] names one can only carry the fixed message, its other members stay.
    It does not depend on what was hidden: two errors that differ only in the
    values of such members are rendered identically. And nothing else is
    touched: an error with no sensitive key, no sensitive [invalid_arg] and no
    message beside a sensitive [path], at any depth, is rendered as it is. *)
Theorem redaction_hides_secrets (v v' : json) :
  keys_ok v -> public_eq v v' ->
  clean (redact_sensitive_diagnostic v) /\
  redact_sensitive_diagnostic v = redact_sensitive_diagnostic v' /\
  (innocent v -> redact_sensitive_diagnostic v = v).
Proof.
  intros Hk Hp. unfold redact_sensitive_diagnostic. split; [by apply redact_clean|]. split; [by rewrite (redact_public v v' Hp)|].
  intros Hi. by rewrite redact_innocent.
Qed.

Definition demo_error (token message : bytes) : json :=
  with_received (JString token) (with_invalid_arg (lit "args.ownership_token")
    (schema_error (lit "INVALID_REQUEST") message)).

(** An object about a sensitive [path] loses its message only. *)
Example path_keeps_received :
  redact_sensitive_diagnostic (JObject [(lit "path", JString (lit "args.ownership_token")); (lit "message", JString (lit "bad s3cret")); (lit "received", JUint 1)]) =
    JObject [(lit "path", JString (lit "args.ownership_token")); (lit "message", JString hidden_text); (lit "received", JUint 1)].
Proof. reflexivity. Qed.

Lemma redaction_hides_secrets_witness :
  to_json (demo_error (lit "s3cret") (lit "bad s3cret")) = to_json (demo_error (lit "0") (lit "x")) /\
  clean (to_json (demo_error (lit "s3cret") (lit "bad s3cret"))).
Proof.
  assert (public_eq (demo_error (lit "s3cret") (lit "bad s3cret")) (demo_error (lit "0") (lit "x"))) as Hp.
  { apply pe_object. repeat (apply Forall2_cons; [split; [reflexivity|]|]); try apply Forall2_nil;
      first [right; apply pe_refl|left; vm_compute; reflexivity]. }
  assert (keys_ok (demo_error (lit "s3cret") (lit "bad s3cret"))) as Hk.
  { split; [|vm_compute; tauto]. apply (bool_decide_unpack _). vm_compute. exact I. }
  destruct (redaction_hides_secrets _ _ Hk Hp) as (H1 & H2 & _). split; [exact H2|exact H1].
Defined.

(** Defaults of a normalized error. *)
Example normalize_empty :
  normalize_diagnostic_error JNull (lit "handler") =
    JObject [(lit "code", JString (lit "ACTION_FAILED")); (lit "message", JString (lit "action failed"));
             (lit "error_layer", JString (lit "handler")); (lit "recoverable", JBool true)].
Proof. vm_compute. reflexivity. Qed.
