(* ===== verification/InternalRequest.v ===== *)
(** * InternalRequest: the private frontend-to-engine envelope

    Models [src/core/schema/internal_request_contract.cpp]. The functions
    throw [std::invalid_argument] with a text, or let a type error of the JSON
    library escape; both are values of [exc] here. The theorems show that the
    envelope built from a public request is closed (fixed fields, non-empty
    string members in its routing and observability), carries the request
    unchanged, and that routing derived from a target is always accepted. *)

From S2P Require Import Prelude CLib Json Diagnostics.

Open Scope Z_scope.

Inductive exc : Type :=
| invalid_argument (what : bytes)
| type_error (id : Z).

Abbreviation result A := (exc + A)%type.

#[export] Instance result_bind : MBind (sum exc) := fun A B f c =>
  match c with inr a => f a | inl e => inl e end.

Definition guard_arg (b : bool) (what : bytes) : result unit :=
  if b then inr tt else inl (invalid_argument what).

Definition kInternalApiVersion : bytes := lit "xdebug.internal.v1".
Definition kInternalRequestSchema : bytes := lit "schemas/v1/internal/engine.request.schema.json".
Definition kInternalRequestManifest : bytes := lit "schemas/v1/internal/engine.request.manifest.json".

Definition public_envelope_fields : list bytes :=
  [lit "api_version"; lit "request_id"; lit "action"; lit "target"; lit "args"; lit "limits"].
Definition routing_fields : list bytes :=
  [lit "session_id"; lit "daidir"; lit "fsdb"; lit "mode"; lit "transport_auth_token"].
Definition observability_fields : list bytes :=
  [lit "request_id"; lit "trace_id"; lit "span_id"; lit "parent_span_id"].

(** [set.count(key) != 0] *)
Definition one_of (key : bytes) (fields : list bytes) : bool := existsb (eqs key) fields.

(** [value.is_string() && !value.get<std::string>().empty()] *)
Definition nonempty_string (v : json) : bool :=
  match v with JString s => negb (eqs s []) | _ => false end.

Fixpoint closed_members (m : list (bytes * json)) (allowed : list bytes) (path : bytes) : result unit :=
  match m with
  | [] => inr tt
  | (k, v) :: m' =>
      _ ← guard_arg (one_of k allowed) (path ++ lit " contains unknown field: " ++ k);
      _ ← guard_arg (nonempty_string v) (path ++ lit "." ++ k ++ lit " must be a non-empty string");
      closed_members m' allowed path
  end.
Definition require_closed_string_object (value : json) (allowed : list bytes) (path : bytes) : result unit :=
  _ ← guard_arg (is_object value) (path ++ lit " must be an object");
  closed_members (members value) allowed path.

(** [target.contains(key) && target[key].is_string() && !...empty()] *)
Definition has_resource (key : bytes) (target : json) : bool :=
  match jget key target with Some v => nonempty_string v | None => false end.
Definition derived_resource_mode (target : json) : bytes :=
  match has_resource (lit "daidir") target, has_resource (lit "fsdb") target with
  | true, true => lit "combined"
  | true, false => lit "design"
  | false, true => lit "waveform"
  | false, false => []
  end.

Definition copy_non_empty_string (source : json) (key : bytes) (destination : json) : result json :=
  match jget key source with
  | None => inr destination
  | Some v =>
      _ ← guard_arg (nonempty_string v) (lit "resolved target." ++ key ++ lit " must be a non-empty string");
      inr (jset key v destination)
  end.

Definition internal_routing_from_target (resolved_target : json) : result json :=
  _ ← guard_arg (is_object resolved_target) (lit "resolved target must be an object");
  routing ← copy_non_empty_string resolved_target (lit "session_id") (JObject []);
  routing ← copy_non_empty_string resolved_target (lit "daidir") routing;
  routing ← copy_non_empty_string resolved_target (lit "fsdb") routing;
  let derived_mode := derived_resource_mode resolved_target in
  match jget (lit "mode") resolved_target with
  | Some (JString declared) =>
      _ ← guard_arg (one_of declared [lit "design"; lit "waveform"; lit "combined"])
            (lit "resolved target.mode must be design, waveform, or combined");
      _ ← guard_arg (eqs derived_mode [] || eqs declared derived_mode)
            (lit "resolved target.mode does not match daidir/fsdb resources");
      inr (jset (lit "mode") (JString declared) routing)
  | Some _ => inl (invalid_argument (lit "resolved target.mode must be a string"))
  | None => inr (if eqs derived_mode [] then routing else jset (lit "mode") (JString derived_mode) routing)
  end.

(** The first field outside the public envelope is reported. *)
Fixpoint contract_fields (m : list (bytes * json)) : result unit :=
  match m with
  | [] => inr tt
  | (k, _) :: m' =>
      _ ← guard_arg (one_of k public_envelope_fields) (lit "public request contains non-contract field: " ++ k);
      contract_fields m'
  end.

(** [value(key, std::string())]: a member of another type throws. *)
Definition string_value (key : bytes) (j : json) : result bytes :=
  match jget key j with
  | None => inr []
  | Some (JString s) => inr s
  | Some _ => inl (type_error 302)
  end.

Definition copy_field (source : json) (dest : json) (field : bytes) : json :=
  match jget field source with Some v => jset field v dest | None => dest end.

Definition jdel (k : bytes) (j : json) : json := JObject (mdel k (members j)).
Definition jempty (j : json) : bool := (jsize j =? 0)%nat.

(** [session.open] forwards its target without the run manifest. *)
Definition drop_run_manifest (action : json) (internal : json) : json :=
  match action, jget (lit "target") internal with
  | JString a, Some (JObject t) =>
      if eqs a (lit "session.open")
      then jset (lit "target") (jdel (lit "run_manifest") (JObject t)) internal else internal
  | _, _ => internal
  end.

Definition add_request_id (public_request observability : json) : result json :=
  match jget (lit "request_id") public_request with
  | None => inr observability
  | Some (JString id) =>
      _ ← guard_arg (negb (eqs id [])) (lit "public request.request_id must be a non-empty string");
      _ ← match jget (lit "request_id") observability with
          | None => inr tt
          | Some (JString own) =>
              guard_arg (eqs own id) (lit "observability.request_id conflicts with public request_id")
          | Some _ => inl (type_error 302)
          end;
      inr (jset (lit "request_id") (JString id) observability)
  | Some _ => inl (invalid_argument (lit "public request.request_id must be a non-empty string"))
  end.

Definition set_unless_empty (k : bytes) (v j : json) : json := if jempty v then j else jset k v j.

Definition make_internal_request (public_request routing explicit_observability : json) : result json :=
  _ ← guard_arg (is_object public_request) (lit "public request must be an object");
  _ ← contract_fields (members public_request);
  version ← string_value (lit "api_version") public_request;
  _ ← guard_arg (eqs version (lit "xdebug.v1")) (lit "public request api_version must be xdebug.v1");
  match jget (lit "action") public_request with
  | Some action =>
      _ ← guard_arg (nonempty_string action) (lit "public request action must be a non-empty string");
      _ ← require_closed_string_object routing routing_fields (lit "routing");
      _ ← require_closed_string_object explicit_observability observability_fields (lit "observability");
      let internal := jset (lit "action") action
        (jset (lit "api_version") (JString kInternalApiVersion) (JObject [])) in
      let internal := foldl (copy_field public_request) internal [lit "target"; lit "args"; lit "limits"] in
      let internal := drop_run_manifest action internal in
      observability ← add_request_id public_request explicit_observability;
      inr (set_unless_empty (lit "routing") routing
             (set_unless_empty (lit "observability") observability internal))
  | None => inl (invalid_argument (lit "public request action must be a non-empty string"))
  end.

(** [request.value(key, object())] on a value of any kind. *)
Definition object_value (key : bytes) (j : json) : result json :=
  if is_object j then inr (default (JObject []) (jget key j)) else inl (type_error 306).

Definition with_internal_transport_auth (internal_request : json) (token : bytes) : result json :=
  _ ← guard_arg (negb (eqs token [])) (lit "routing.transport_auth_token must be a non-empty string");
  routing ← object_value (lit "routing") internal_request;
  _ ← require_closed_string_object routing routing_fields (lit "routing");
  inr (jset (lit "routing") (jset (lit "transport_auth_token") (JString token) routing) internal_request).

Definition make_internal_control_request (action : bytes) : result json :=
  _ ← guard_arg (one_of action [lit "server.ping"; lit "server.version"; lit "server.quit"])
        (lit "unknown internal control action: " ++ action);
  inr (JObject [(lit "api_version", JString kInternalApiVersion); (lit "action", JString action);
                (lit "args", JObject [])]).

Definition internal_observability (internal_request : json) : result json :=
  observability ← object_value (lit "observability") internal_request;
  _ ← require_closed_string_object observability observability_fields (lit "observability");
  inr observability.

Definition internal_observability_value (internal_request : json) (key : bytes) : result bytes :=
  _ ← guard_arg (one_of key observability_fields) (lit "unknown observability field: " ++ key);
  observability ← internal_observability internal_request;
  string_value key observability.

(** ** Closed objects *)

Definition closed (allowed : list bytes) (v : json) : Prop :=
  is_object v = true /\
  Forall (fun kv => one_of (fst kv) allowed = true /\ nonempty_string (snd kv) = true) (members v).

Lemma bind_inr {A B} (c : result A) (f : A -> result B) b :
  c ≫= f = inr b -> exists a, c = inr a /\ f a = inr b.
Proof. destruct c; cbn; [done|eauto]. Qed.

Lemma guard_inr b what u : guard_arg b what = inr u <-> b = true.
Proof. unfold guard_arg. destruct b, u; done. Qed.

(** Splits a chain of binds that succeeded. *)
Ltac inv_ok :=
  repeat match goal with
  | H : guard_arg _ _ = inr _ |- _ => apply guard_inr in H
  | H : (_ ≫= _) = inr _ |- _ => apply bind_inr in H as (? & ? & H)
  | H : inr _ = inr _ |- _ => injection H as H
  end.

Lemma require_closed_spec v allowed path u :
  require_closed_string_object v allowed path = inr u <-> closed allowed v.
Proof.
  unfold require_closed_string_object, closed. destruct u.
  assert (closed_members (members v) allowed path = inr tt <->
    Forall (fun kv => one_of (fst kv) allowed = true /\ nonempty_string (snd kv) = true) (members v)) as Hm.
  { induction (members v) as [|[k w] m IH]; [done|]. cbn [closed_members]. rewrite list.Forall_cons, <- IH. cbn [fst snd].
    destruct (one_of k allowed), (nonempty_string w); cbn; intuition congruence. }
  rewrite <- Hm. destruct (is_object v); cbn; intuition congruence.
Qed.

Lemma closed_set allowed k s v : closed allowed v -> one_of k allowed = true -> s <> [] ->
  closed allowed (jset k (JString s) v).
Proof.
  intros [Ho Hf] Hk Hs. split; [done|]. cbn [jset members].
  apply list.Forall_forall. intros [k' w] [E|Hin]%oset_elem.
  - injection E as -> ->. split; [done|]. cbn. by rewrite (proj2 (eqs_false s [])).
  - rewrite list.Forall_forall in Hf. by apply (Hf (k', w)).
Qed.

Lemma closed_empty allowed : closed allowed (JObject []).
Proof. split; [done|constructor]. Qed.

Lemma closed_get allowed v k w : closed allowed v -> jget k v = Some w ->
  one_of k allowed = true /\ exists s, w = JString s /\ s <> [].
Proof.
  intros [_ Hf] Hg%mget_elem. rewrite list.Forall_forall in Hf. destruct (Hf _ Hg) as [Hk Hn]. split; [done|].
  cbn [snd] in Hn. destruct w as [| | | | |s| |]; try done. exists s. split; [done|]. intros ->. done.
Qed.

(** ** Routing *)

Lemma copy_non_empty_spec source key dest r :
  copy_non_empty_string source key dest = inr r ->
  r = copy_field source dest key /\ (forall v, jget key source = Some v -> nonempty_string v = true).
Proof.
  unfold copy_non_empty_string, copy_field. destruct (jget key source) as [v|]; intros H; inv_ok; [|by subst].
  subst. split; [done|]. by intros ? [= <-].
Qed.

Lemma copy_field_get source dest field k :
  jget k (copy_field source dest field) =
    if eqs k field then match jget field source with Some v => Some v | None => jget k dest end else jget k dest.
Proof.
  unfold copy_field. destruct (eqs k field) eqn:E.
  - apply eqs_true in E as <-. destruct (jget k source); [apply jget_jset_eq|done].
  - apply eqs_false in E. destruct (jget field source); [by apply jget_jset_ne|done].
Qed.

Lemma closed_copy allowed source dest field : closed allowed dest -> one_of field allowed = true ->
  (forall v, jget field source = Some v -> nonempty_string v = true) ->
  closed allowed (copy_field source dest field).
Proof.
  intros Hc Hf Hv. unfold copy_field. destruct (jget field source) as [v|]; [|done]. specialize (Hv v eq_refl).
  destruct v as [| | | | |s| |]; try done. apply closed_set; [done..|]. intros ->. done.
Qed.

Definition resource_ok (t : json) (k : bytes) : Prop := forall v, jget k t = Some v -> nonempty_string v = true.
Definition mode_ok (t : json) : Prop :=
  match jget (lit "mode") t with
  | None => True
  | Some v => exists d, v = JString d /\ one_of d [lit "design"; lit "waveform"; lit "combined"] = true /\
      (derived_resource_mode t = [] \/ d = derived_resource_mode t)
  end.

Lemma copy_non_empty_ok source key dest : resource_ok source key ->
  copy_non_empty_string source key dest = inr (copy_field source dest key).
Proof.
  intros Hr. unfold copy_non_empty_string, copy_field. destruct (jget key source) as [v|] eqn:E; [|done].
  by rewrite (Hr v E).
Qed.

Lemma copy_non_empty_err source key dest : ~ resource_ok source key ->
  copy_non_empty_string source key dest =
    inl (invalid_argument (lit "resolved target." ++ key ++ lit " must be a non-empty string")).
Proof.
  intros Hr. unfold copy_non_empty_string. destruct (jget key source) as [v|] eqn:E.
  - destruct (nonempty_string v) eqn:En; [|done]. exfalso. apply Hr. by intros w [= <-]%(eq_trans (eq_sym E)).
  - exfalso. apply Hr. unfold resource_ok. rewrite E. done.
Qed.

#[export] Instance resource_ok_dec t k : Decision (resource_ok t k).
Proof.
  unfold resource_ok. destruct (jget k t) as [v|] eqn:E.
  - destruct (nonempty_string v) eqn:En; [left; congruence|right; intros H; specialize (H v eq_refl); congruence].
  - left. congruence.
Defined.

Definition target_ok (t : json) : Prop :=
  is_object t = true /\ resource_ok t (lit "session_id") /\ resource_ok t (lit "daidir") /\
  resource_ok t (lit "fsdb") /\ mode_ok t.

Definition copied_resources (t : json) : json :=
  foldl (copy_field t) (JObject []) [lit "session_id"; lit "daidir"; lit "fsdb"].

Lemma copied_resources_get t k :
  jget k (copied_resources t) =
    if one_of k [lit "session_id"; lit "daidir"; lit "fsdb"] then jget k t else None.
Proof.
  unfold copied_resources. cbn [foldl]. rewrite !copy_field_get. unfold one_of. cbn [existsb].
  destruct (eqs k (lit "fsdb")) eqn:E1; [|destruct (eqs k (lit "daidir")) eqn:E2; [|destruct (eqs k (lit "session_id")) eqn:E3]];
    rewrite ?orb_true_r; cbn [orb]; try done;
    match goal with E : eqs k _ = true |- _ => apply eqs_true in E as -> end; by destruct (jget _ t).
Qed.

Lemma copied_resources_closed t : resource_ok t (lit "session_id") -> resource_ok t (lit "daidir") ->
  resource_ok t (lit "fsdb") -> closed routing_fields (copied_resources t).
Proof. intros H1 H2 H3. unfold copied_resources. cbn [foldl]. repeat apply closed_copy; (done || apply closed_empty). Qed.

Lemma derived_mode_words t :
  derived_resource_mode t = [] \/ derived_resource_mode t ∈ [lit "design"; lit "waveform"; lit "combined"].
Proof. unfold derived_resource_mode. repeat case_match; set_solver. Qed.

Lemma mode_set_closed t d : closed routing_fields (copied_resources t) ->
  d ∈ [lit "design"; lit "waveform"; lit "combined"] ->
  closed routing_fields (jset (lit "mode") (JString d) (copied_resources t)).
Proof. intros Hc Hd. apply closed_set; [done..|]. intros ->. set_solver. Qed.

Lemma routing_ok_result t : target_ok t ->
  internal_routing_from_target t =
    inr (match derived_resource_mode t, jget (lit "mode") t with
         | [], None => copied_resources t
         | [], Some m => jset (lit "mode") m (copied_resources t)
         | d, _ => jset (lit "mode") (JString d) (copied_resources t)
         end).
Proof.
  intros (Ho & H1 & H2 & H3 & Hm). unfold internal_routing_from_target. rewrite Ho. cbn [guard_arg mbind result_bind].
  do 3 (rewrite copy_non_empty_ok by done; cbn [mbind result_bind]).
  change (copy_field t (copy_field t (copy_field t (JObject []) (lit "session_id")) (lit "daidir")) (lit "fsdb"))
    with (copied_resources t).
  unfold mode_ok in Hm. destruct (jget (lit "mode") t) as [m|].
  - destruct Hm as (d & -> & Hd & Hde). rewrite Hd. cbn [guard_arg mbind result_bind].
    destruct (derived_resource_mode t) as [|c s] ; [done|]. destruct Hde as [|<-]; [done|]. by rewrite eqs_refl, orb_true_r.
  - by destruct (derived_resource_mode t).
Qed.

Lemma routing_refused t : ~ target_ok t -> exists w, internal_routing_from_target t = inl (invalid_argument w).
Proof.
  intros Hn. unfold internal_routing_from_target. destruct (is_object t) eqn:Ho; cbn [guard_arg mbind result_bind]; [|eauto].
  destruct (decide (resource_ok t (lit "session_id"))) as [H1|H1];
    [rewrite copy_non_empty_ok by done|rewrite copy_non_empty_err by done; eauto]. cbn [mbind result_bind].
  destruct (decide (resource_ok t (lit "daidir"))) as [H2|H2];
    [rewrite copy_non_empty_ok by done|rewrite copy_non_empty_err by done; eauto]. cbn [mbind result_bind].
  destruct (decide (resource_ok t (lit "fsdb"))) as [H3|H3];
    [rewrite copy_non_empty_ok by done|rewrite copy_non_empty_err by done; eauto]. cbn [mbind result_bind].
  assert (~ mode_ok t) as Hm by (intros Hm; apply Hn; by split_and!). unfold mode_ok in Hm.
  destruct (jget (lit "mode") t) as [m|]; [|done]. destruct m as [| | | | |d| |]; eauto.
  destruct (one_of d _) eqn:Ed; cbn [guard_arg mbind result_bind]; [|eauto].
  destruct (eqs (derived_resource_mode t) [] || eqs d (derived_resource_mode t)) eqn:E; cbn; [|eauto].
  exfalso. apply Hm. exists d. split_and!; [done..|]. apply orb_true_iff in E as [E|E]; apply eqs_true in E; auto.
Qed.

(** Routing from a target. The derivation succeeds exactly when the target
    is an object whose session and resource members are non-empty strings and
    whose declared mode, if any, is a known mode that agrees with its
    resources; otherwise it throws [invalid_argument]. On success the routing
    is closed, repeats the target's members, carries no transport token, and
    its mode is the one the resources determine, else the declared one. *)
Theorem routing_from_target_exact (t : json) :
  match internal_routing_from_target t with
  | inr r =>
      target_ok t /\ closed routing_fields r /\
      (forall k, k ∈ [lit "session_id"; lit "daidir"; lit "fsdb"] -> jget k r = jget k t) /\
      jget (lit "transport_auth_token") r = None /\
      jget (lit "mode") r =
        match derived_resource_mode t with [] => jget (lit "mode") t | d => Some (JString d) end
  | inl e => ~ target_ok t /\ exists w, e = invalid_argument w
  end.
Proof.
  assert (Decision (target_ok t)) as Hdec.
  { unfold target_ok, mode_ok. destruct (jget (lit "mode") t) as [m|]; [|apply _].
    assert (Decision (exists d, m = JString d /\ one_of d [lit "design"; lit "waveform"; lit "combined"] = true /\
      (derived_resource_mode t = [] \/ d = derived_resource_mode t))) as Hd.
    { destruct m as [| | | | |d| |]; try (right; by intros (? & ? & _)).
      destruct (decide (one_of d [lit "design"; lit "waveform"; lit "combined"] = true /\
        (derived_resource_mode t = [] \/ d = derived_resource_mode t))) as [H|H]; [left; eauto|right].
      intros (? & [= <-] & ?). done. }
    apply _. }
  destruct (decide (target_ok t)) as [Hok|Hn].
  2: { destruct (routing_refused t Hn) as [w ->]. eauto. }
  rewrite (routing_ok_result t Hok). pose proof Hok as (Ho & H1 & H2 & H3 & Hm).
  pose proof (copied_resources_closed t H1 H2 H3) as Hc.
  assert (forall v k, k ∈ [lit "session_id"; lit "daidir"; lit "fsdb"] ->
    jget k (jset (lit "mode") v (copied_resources t)) = jget k t) as Hk.
  { intros v k Hk. rewrite jget_jset_ne, copied_resources_get by (intros <-; set_solver).
    by repeat (apply elem_of_cons in Hk as [->|Hk]; [done|]); apply elem_of_nil in Hk. }
  assert (jget (lit "transport_auth_token") (copied_resources t) = None) as Ht by by rewrite copied_resources_get.
  unfold mode_ok in Hm. destruct (derived_mode_words t) as [E|E].
  - rewrite E. destruct (jget (lit "mode") t) as [m|] eqn:Em.
    + destruct Hm as (d & -> & Hd & _). split_and!; [done| |auto|by rewrite jget_jset_ne|by rewrite jget_jset_eq].
      apply mode_set_closed; [done|]. unfold one_of in Hd. cbn [existsb] in Hd.
      rewrite !orb_true_iff, !eqs_true in Hd. set_solver.
    + split_and!; [done..| |done|by rewrite copied_resources_get]. intros k Hk'. rewrite copied_resources_get.
      by repeat (apply elem_of_cons in Hk' as [->|Hk']; [done|]); apply elem_of_nil in Hk'.
  - destruct (derived_resource_mode t) as [|c s] eqn:Ed; [set_solver|].
    split_and!; [done|by apply mode_set_closed|auto|by rewrite jget_jset_ne|by rewrite jget_jset_eq].
Qed.

(** ** The envelope *)

Definition internal_fields : list bytes :=
  [lit "api_version"; lit "action"; lit "target"; lit "args"; lit "limits"; lit "observability"; lit "routing"].

Definition keys_in (allowed : list bytes) (v : json) : Prop :=
  Forall (fun kv => one_of (fst kv) allowed = true) (members v).

Lemma keys_in_set allowed k w v : keys_in allowed v -> one_of k allowed = true -> keys_in allowed (jset k w v).
Proof.
  intros Hv Hk. apply list.Forall_forall. intros [k' w'] [E|Hin]%oset_elem; [by injection E as -> ->|].
  unfold keys_in in Hv. rewrite list.Forall_forall in Hv. by apply (Hv (k', w')).
Qed.

Lemma keys_in_copy allowed source dest field : keys_in allowed dest -> one_of field allowed = true ->
  keys_in allowed (copy_field source dest field).
Proof. intros. unfold copy_field. destruct (jget field source); [by apply keys_in_set|done]. Qed.

Lemma keys_in_unless_empty allowed k w v : keys_in allowed v -> one_of k allowed = true ->
  keys_in allowed (set_unless_empty k w v).
Proof. intros. unfold set_unless_empty. destruct (jempty w); [done|by apply keys_in_set]. Qed.

Lemma unless_empty_get k w v k' :
  jget k' (set_unless_empty k w v) = if eqs k' k then (if jempty w then jget k v else Some w) else jget k' v.
Proof.
  unfold set_unless_empty. destruct (eqs k' k) eqn:E.
  - apply eqs_true in E as ->. destruct (jempty w); [done|apply jget_jset_eq].
  - apply eqs_false in E. destruct (jempty w); [done|by apply jget_jset_ne].
Qed.

Lemma empty_object v : is_object v = true -> jempty v = true -> v = JObject [].
Proof. destruct v as [| | | | | | |[|]]; done. Qed.

(** The target as forwarded. *)
Definition forwarded_target (p : json) : option json :=
  match jget (lit "action") p, jget (lit "target") p with
  | Some (JString a), Some (JObject t) =>
      Some (if eqs a (lit "session.open") then jdel (lit "run_manifest") (JObject t) else JObject t)
  | _, t => t
  end.

Definition base_envelope (p action : json) : json :=
  drop_run_manifest action
    (foldl (copy_field p)
       (jset (lit "action") action (jset (lit "api_version") (JString kInternalApiVersion) (JObject [])))
       [lit "target"; lit "args"; lit "limits"]).

Lemma base_envelope_get p action k : jget (lit "action") p = Some action ->
  jget k (base_envelope p action) =
    if eqs k (lit "target") then forwarded_target p
    else if one_of k [lit "args"; lit "limits"] then jget k p
    else if eqs k (lit "action") then Some action
    else if eqs k (lit "api_version") then Some (JString kInternalApiVersion)
    else None.
Proof.
  intros Ha. unfold base_envelope. cbn [foldl].
  set (i := copy_field p _ (lit "limits")).
  assert (forall k, jget k i =
    if one_of k [lit "target"; lit "args"; lit "limits"] then jget k p
    else if eqs k (lit "action") then Some action
    else if eqs k (lit "api_version") then Some (JString kInternalApiVersion)
    else None) as Hi.
  { intros k'. subst i. rewrite !copy_field_get. unfold one_of. cbn [existsb].
    destruct (eqs k' (lit "limits")) eqn:E1; [|destruct (eqs k' (lit "args")) eqn:E2; [|destruct (eqs k' (lit "target")) eqn:E3]];
      rewrite ?orb_true_r; cbn [orb];
      try (match goal with E : eqs k' _ = true |- _ => apply eqs_true in E as -> end;
           match goal with |- _ = ?x => destruct x eqn:Ex end; rewrite ?Ex; [done|];
           by rewrite !jget_jset_ne by done).
    destruct (eqs k' (lit "action")) eqn:E4; [apply eqs_true in E4 as ->; apply jget_jset_eq|].
    apply eqs_false in E4. rewrite jget_jset_ne by congruence.
    destruct (eqs k' (lit "api_version")) eqn:E5; [apply eqs_true in E5 as ->; apply jget_jset_eq|].
    apply eqs_false in E5. by rewrite jget_jset_ne by congruence. }
  clearbody i. assert (jget k (drop_run_manifest action i) =
    if eqs k (lit "target") then forwarded_target p else jget k i) as ->.
  2: { rewrite Hi. destruct (eqs k (lit "target")) eqn:E; [done|]. unfold one_of. cbn [existsb]. by rewrite E. }
  unfold drop_run_manifest, forwarded_target. rewrite Ha.
  assert (jget (lit "target") i = jget (lit "target") p) as -> by apply Hi.
  destruct (eqs k (lit "target")) eqn:E.
  - apply eqs_true in E as ->.
    assert (jget (lit "target") i = jget (lit "target") p) as Ht by apply Hi.
    destruct action; try done. destruct (jget (lit "target") p) as [[]|]; try done.
    case_match; [apply jget_jset_eq|done].
  - apply eqs_false in E. destruct action; try done. destruct (jget (lit "target") p) as [[]|]; try done.
    case_match; [|done]. by apply jget_jset_ne.
Qed.

Lemma base_envelope_keys p action : keys_in internal_fields (base_envelope p action).
Proof.
  unfold base_envelope. cbn [foldl].
  assert (keys_in internal_fields (copy_field p (copy_field p (copy_field p
    (jset (lit "action") action (jset (lit "api_version") (JString kInternalApiVersion) (JObject [])))
    (lit "target")) (lit "args")) (lit "limits"))) as Hk.
  { repeat apply keys_in_copy; try done. repeat apply keys_in_set; try done. apply Forall_nil_2. }
  unfold drop_run_manifest. repeat case_match; try done. by apply keys_in_set.
Qed.

Lemma add_request_id_spec p o ob : closed observability_fields o -> add_request_id p o = inr ob ->
  closed observability_fields ob /\
  forall k, jget k ob = match eqs k (lit "request_id"), jget (lit "request_id") p with
                        | true, Some id => Some id
                        | _, _ => jget k o
                        end.
Proof.
  intros Hc. unfold add_request_id. destruct (jget (lit "request_id") p) as [v|].
  - destruct v as [| | | | |id| |]; try done. intros H. inv_ok. subst ob.
    assert (id <> []) as Hid by (intros ->; done). split; [by apply closed_set|].
    intros k. destruct (eqs k (lit "request_id")) eqn:E.
    + apply eqs_true in E as ->. apply jget_jset_eq.
    + apply eqs_false in E. by apply jget_jset_ne.
  - intros [= <-]. split; [done|]. intros k. by destruct (eqs k _).
Qed.

Lemma make_internal_inv p r o i : make_internal_request p r o = inr i ->
  exists action ob, jget (lit "action") p = Some action /\ nonempty_string action = true /\
    closed routing_fields r /\ closed observability_fields o /\ add_request_id p o = inr ob /\
    i = set_unless_empty (lit "routing") r (set_unless_empty (lit "observability") ob (base_envelope p action)).
Proof.
  unfold make_internal_request. intros H. inv_ok. destruct (jget (lit "action") p) as [action|] eqn:Ea; [|done].
  inv_ok. repeat match goal with H : require_closed_string_object _ _ _ = inr _ |- _ => apply require_closed_spec in H end.
  eexists action, _. split_and!; try done.
Qed.

(** The value an observability field has in the internal request. *)
Definition observed (p o : json) (k : bytes) : bytes :=
  match (match eqs k (lit "request_id"), jget (lit "request_id") p with
         | true, Some id => Some id
         | _, _ => jget k o
         end) with
  | Some (JString s) => s
  | _ => []
  end.

Lemma observability_value_of i ob k : is_object i = true -> closed observability_fields ob ->
  one_of k observability_fields = true ->
  jget (lit "observability") i = (if jempty ob then None else Some ob) ->
  internal_observability_value i k = inr (match jget k ob with Some (JString s) => s | _ => [] end).
Proof.
  intros Hi Hc Hk Hg. unfold internal_observability_value, internal_observability, object_value.
  rewrite Hk, Hi, Hg. cbn [guard_arg mbind result_bind].
  assert (default (JObject []) (if jempty ob then None else Some ob) = ob) as ->.
  { destruct (jempty ob) eqn:E; [|done]. symmetry. apply empty_object; [apply Hc|done]. }
  rewrite (proj2 (require_closed_spec ob observability_fields (lit "observability") tt) Hc). cbn [mbind result_bind].
  unfold string_value. destruct (jget k ob) as [v|] eqn:E; [|done].
  by destruct (closed_get _ _ _ _ Hc E) as (_ & s & -> & _).
Qed.

(** The internal envelope. A request accepted with a routing and forwarded
    with a transport token has only the fields of the internal contract and
    its version; action, arguments and limits are those of the public
    request, the target too except that opening a session drops the run
    manifest; its routing is closed and is the given one with the token added;
    and every observability field reads back as given, the request id being
    the public one when there is one. Adding the token cannot fail. *)
Theorem internal_envelope_faithful (p r o i : json) (token : bytes) :
  make_internal_request p r o = inr i -> token <> [] ->
  exists i', with_internal_transport_auth i token = inr i' /\
    keys_in internal_fields i' /\
    jget (lit "api_version") i' = Some (JString kInternalApiVersion) /\
    (forall k, k ∈ [lit "action"; lit "args"; lit "limits"] -> jget k i' = jget k p) /\
    jget (lit "target") i' = forwarded_target p /\
    (exists r', jget (lit "routing") i' = Some r' /\ closed routing_fields r' /\
       jget (lit "transport_auth_token") r' = Some (JString token) /\
       forall k, k <> lit "transport_auth_token" -> jget k r' = jget k r) /\
    (forall k, one_of k observability_fields = true ->
       internal_observability_value i' k = inr (observed p o k)).
Proof.
  intros (action & ob & Ha & Hn & Hr & Ho & Hob & ->)%make_internal_inv Htok.
  destruct (add_request_id_spec p o ob Ho Hob) as [Hcob Hget].
  set (b := base_envelope p action). set (i := set_unless_empty _ r _).
  assert (is_object i = true) as Hi.
  { subst i b. unfold set_unless_empty, base_envelope, drop_run_manifest. repeat case_match; try done; cbn [foldl];
      unfold copy_field; repeat case_match; done. }
  assert (keys_in internal_fields i) as Hk by (repeat apply keys_in_unless_empty; try done; apply base_envelope_keys).
  assert (forall k, eqs k (lit "routing") = false -> eqs k (lit "observability") = false -> jget k i = jget k b) as Hb.
  { intros k H1 H2. subst i. by rewrite !unless_empty_get, H1, H2. }
  assert (jget (lit "routing") i = if jempty r then None else Some r) as Hir.
  { subst i. rewrite !unless_empty_get, eqs_refl. change (eqs (lit "routing") (lit "observability")) with false.
    cbv iota. rewrite (base_envelope_get p action) by done. by destruct (jempty r). }
  assert (jget (lit "observability") i = if jempty ob then None else Some ob) as Hio.
  { subst i. rewrite !unless_empty_get, eqs_refl. change (eqs (lit "observability") (lit "routing")) with false.
    cbv iota. rewrite (base_envelope_get p action) by done. by destruct (jempty ob). }
  assert (default (JObject []) (if jempty r then None else Some r) = r) as Hdr.
  { destruct (jempty r) eqn:E; [|done]. symmetry. apply empty_object; [apply Hr|done]. }
  clearbody i. unfold with_internal_transport_auth, object_value. rewrite (proj2 (eqs_false token [])), Hi, Hir, Hdr by done.
  cbn [negb guard_arg mbind result_bind].
  rewrite (proj2 (require_closed_spec r routing_fields (lit "routing") tt) Hr). cbn [mbind result_bind].
  eexists. split; [done|]. split_and!.
  - by apply keys_in_set.
  - rewrite jget_jset_ne, Hb, (base_envelope_get p action) by done. done.
  - intros k Hk'. repeat (apply elem_of_cons in Hk' as [->|Hk'];
      [rewrite jget_jset_ne, Hb, (base_envelope_get p action) by done; done|]). by apply elem_of_nil in Hk'.
  - rewrite jget_jset_ne, Hb, (base_envelope_get p action) by done. done.
  - eexists. split; [apply jget_jset_eq|]. split_and!; [by apply closed_set|apply jget_jset_eq|].
    intros k Hk'. by apply jget_jset_ne.
  - intros k Hk'. rewrite (observability_value_of _ ob) by (done || by rewrite jget_jset_ne).
    unfold observed. by rewrite Hget.
Qed.

Definition demo_request : json :=
  JObject [(lit "api_version", JString (lit "xdebug.v1")); (lit "request_id", JString (lit "r1"));
           (lit "action", JString (lit "session.open"));
           (lit "target", JObject [(lit "fsdb", JString (lit "w.fst")); (lit "run_manifest", JString (lit "m"))])].
Definition demo_routing : json := JObject [(lit "session_id", JString (lit "s"))].

Lemma internal_envelope_faithful_witness :
  exists i i', make_internal_request demo_request demo_routing (JObject []) = inr i /\
    with_internal_transport_auth i (lit "t") = inr i' /\
    jget (lit "target") i' = Some (JObject [(lit "fsdb", JString (lit "w.fst"))]) /\
    internal_observability_value i' (lit "request_id") = inr (lit "r1").
Proof.
  destruct (make_internal_request demo_request demo_routing (JObject [])) as [e|i] eqn:E;
    [exfalso; vm_compute in E; discriminate|]. exists i.
  destruct (internal_envelope_faithful _ _ _ i (lit "t") E) as (i' & H1 & _ & _ & _ & H2 & _ & H3); [discriminate|].
  exists i'. split; [reflexivity|]. split; [exact H1|]. split; [rewrite H2; vm_compute; reflexivity|].
  rewrite (H3 (lit "request_id") eq_refl). vm_compute. reflexivity.
Defined.
