(* ===== verification/SchemaProjection.v ===== *)
(** * SchemaProjection: response schemas cut down to one variant

    Models the projection part of
    [src/core/schema/runtime_schema_validator.cpp]: the closure of the local
    definitions a schema refers to, the selection of the one response variant
    a response can match, and the merge of that variant into the schema. The
    JSON text writer ([dump]) and the equality of JSON values are arguments.
    The closure is shown to terminate with exactly the reachable definitions;
    [SchemaProjectionTheory] shows that the projection accepts the same
    responses as the complete schema. *)

From S2P Require Import Prelude CLib Json Diagnostics.

Open Scope Z_scope.

(** [schema["$schema"] = ...] *)
Definition runtime_schema_copy (schema : json) : json :=
  JObject (mset (lit "$schema") (JString (lit "http://json-schema.org/draft-07/schema#")) (members schema)).

(** ** Local definitions *)

Definition defs_prefix : bytes := lit "#/$defs/".

(** [reference.compare(0, prefix.size(), prefix) != 0] gives the empty name. *)
Definition local_definition_name (reference : bytes) : bytes :=
  if eqs (take (length defs_prefix) reference) defs_prefix then drop (length defs_prefix) reference else [].

(** [std::set<std::string>]: ordered, without repetition. *)
Abbreviation name_set := (list (bytes * unit)).
Definition ns_insert (name : bytes) (s : name_set) : name_set := mset name tt s.
Definition ns_union (nested s : name_set) : name_set := foldl (fun s kv => ns_insert (fst kv) s) s nested.

(** The reference of an object itself. *)
Definition own_ref (m : list (bytes * json)) : bytes :=
  match mget (lit "$ref") m with Some (JString r) => local_definition_name r | _ => [] end.

Fixpoint collect_local_definition_refs (value : json) (refs : name_set) : name_set :=
  match value with
  | JObject m =>
      let refs := if eqs (own_ref m) [] then refs else ns_insert (own_ref m) refs in
      foldl (fun refs kv => collect_local_definition_refs (snd kv) refs) refs m
  | JArray items => foldl (fun refs v => collect_local_definition_refs v refs) refs items
  | _ => refs
  end.

(** The worklist loop; [None] is an exhausted fuel, [inl name] a definition
    that is referred to and missing. *)
Fixpoint closure_loop (fuel : nat) (definitions : list (bytes * json)) (pending : name_set)
    (selected : list (bytes * json)) : option (bytes + list (bytes * json)) :=
  match fuel with
  | O => None
  | S f =>
      match pending with
      | [] => Some (inr selected)
      | (name, _) :: pending =>
          match mget name selected with
          | Some _ => closure_loop f definitions pending selected
          | None =>
              match mget name definitions with
              | None => Some (inl name)
              | Some d =>
                  closure_loop f definitions (ns_union (collect_local_definition_refs d []) pending)
                    (mset name d selected)
              end
          end
      end
  end.

(** One pop per name that is ever inserted, and one to see the end. *)
Definition closure_fuel (pending : name_set) (definitions : list (bytes * json)) : nat :=
  S (length pending + foldr Nat.add 0%nat (map (fun kv => length (collect_local_definition_refs (snd kv) [])) definitions)).

(** [inl name] for a missing definition; the error object is built by the caller. *)
Definition attach_definition_closure (projected definitions : json) : option (bytes + json) :=
  let pending := collect_local_definition_refs projected [] in
  let defs := members definitions in
  match closure_loop (closure_fuel pending defs) defs pending [] with
  | Some (inr selected) => Some (inr (JObject (mset (lit "$defs") (JObject selected) (members projected))))
  | Some (inl name) => Some (inl name)
  | None => None
  end.

(** [nullptr] is [None]. *)
Definition resolve_local_schema (schema : json) (definitions : json) : option json :=
  match jget (lit "$ref") schema with
  | Some (JString r) =>
      let name := local_definition_name r in
      if eqs name [] then None else jget name definitions
  | _ => Some schema
  end.

(** ** Selecting the variant *)

Section Projection.
Context (dump : json -> bytes) (json_equal : json -> json -> bool).

Definition discriminator_allows_value (schema value : json) : bool :=
  if negb (is_object schema) then true
  else
    let encoded := dump value in
    let by_const := match jget (lit "const") schema with
                    | Some c => eqs (dump c) encoded
                    | None => true
                    end in
    let by_enum := match jget (lit "enum") schema with
                   | Some (JArray values) => existsb (fun c => eqs (dump c) encoded) values
                   | _ => true
                   end in
    by_const && by_enum.

Definition property_schema (key : bytes) (schema : json) : option json :=
  match jget (lit "properties") schema with
  | Some (JObject ps) => mget key ps
  | _ => None
  end.

Definition top_response_branch_possible (branch response : json) : bool :=
  match property_schema (lit "ok") branch with
  | None => true
  | Some s => discriminator_allows_value s (jat (lit "ok") response)
  end.

Definition summary_field_possible (summary_schema summary : json) (field : bytes) : bool :=
  match property_schema field summary_schema, jget field summary with
  | Some s, Some v => discriminator_allows_value s v
  | _, _ => true
  end.

Definition summary_variant_possible (variant definitions summary : json) : bool :=
  match property_schema (lit "summary") variant with
  | None => true
  | Some s =>
      match resolve_local_schema s definitions with
      | None => true
      | Some summary_schema =>
          summary_field_possible summary_schema summary (lit "query_mode") &&
          summary_field_possible summary_schema summary (lit "found")
      end
  end.

(** The indices of the branches that pass a test, in order. *)
Fixpoint candidates (possible : json -> bool) (branches : list json) (index : nat) : list nat :=
  match branches with
  | [] => []
  | b :: bs => if possible b then index :: candidates possible bs (S index) else candidates possible bs (S index)
  end.

(** The top index and, when the branch has variants of its own, theirs. *)
Definition select_unique_response_branch (source response : json) : option (nat * option nat) :=
  match response, jget (lit "ok") response, jget (lit "oneOf") source, jget (lit "$defs") source with
  | JObject _, Some (JBool _), Some (JArray branches), Some (JObject definitions) =>
      match candidates (fun b => top_response_branch_possible b response) branches 0 with
      | [top_index] =>
          let top := nth top_index branches JNull in
          match jget (lit "oneOf") top with
          | None => Some (top_index, None)
          | Some (JArray variants) =>
              match jget (lit "summary") response with
              | Some (JObject summary) =>
                  match candidates (fun v => summary_variant_possible v (JObject definitions) (JObject summary))
                          variants 0 with
                  | [nested_index] => Some (top_index, Some nested_index)
                  | _ => None
                  end
              | _ => None
              end
          | Some _ => None
          end
      | _ => None
      end
  | _, _, _, _ => None
  end.

(** ** Merging the variant *)

(** [depth > 32] is fuel 0; the search starts with fuel 33. *)
Fixpoint schema_contains_alternative (fuel : nat) (general_schema selected_schema definitions : json) : bool :=
  match fuel with
  | O => false
  | S f =>
      match resolve_local_schema general_schema definitions, resolve_local_schema selected_schema definitions with
      | Some general, Some selected =>
          if json_equal general selected then true
          else
            match jget (lit "anyOf") general with
            | Some (JArray alternatives) =>
                existsb (fun a => schema_contains_alternative f a selected_schema definitions) alternatives
            | _ => false
            end
      | _, _ => false
      end
  end.
Definition schema_is_same_or_alternative (general_schema selected_schema definitions : json) : bool :=
  schema_contains_alternative 33 general_schema selected_schema definitions.

Definition add_required (existing : list json) (field : json) : list json :=
  if existsb (fun e => json_equal e field) existing then existing else existing ++ [field].

Definition merge_required_fields (projected selected : json) : json :=
  match jget (lit "required") selected with
  | Some (JArray fields) =>
      let existing := match jget (lit "required") projected with Some (JArray l) => l | _ => [] end in
      JObject (mset (lit "required") (JArray (foldl add_required existing fields)) (members projected))
  | _ => projected
  end.

(** One property of the selected branch merged into the general ones. *)
Definition merge_property (definitions : json) (general : list (bytes * json)) (kv : bytes * json)
  : list (bytes * json) :=
  let '(key, selected) := kv in
  match mget key general with
  | None => mset key selected general
  | Some original =>
      mset key (if schema_is_same_or_alternative original selected definitions then selected
                else JObject [(lit "allOf", JArray [original; selected])]) general
  end.

Definition merge_properties (projected selected definitions : json) : json :=
  match jget (lit "properties") selected with
  | Some (JObject ps) =>
      let general := match jget (lit "properties") projected with Some (JObject g) => g | _ => [] end in
      JObject (mset (lit "properties") (JObject (foldl (merge_property definitions) general ps)) (members projected))
  | _ => projected
  end.

Definition residual_of (selected : json) : list (bytes * json) :=
  mdel (lit "oneOf") (mdel (lit "required") (mdel (lit "properties") (members selected))).

Definition add_residual (projected : json) (residual : list (bytes * json)) : json :=
  match residual with
  | [] => projected
  | _ =>
      let all := match jget (lit "allOf") projected with Some (JArray l) => l | _ => [] end in
      JObject (mset (lit "allOf") (JArray (all ++ [JObject residual])) (members projected))
  end.

(** Erasing a member of a value that is not an object throws. *)
Definition apply_selected_response_branch (projected selected definitions : json) : res json :=
  if is_object selected
  then Ret (add_residual (merge_required_fields (merge_properties projected selected definitions) selected)
              (residual_of selected))
  else Throw "type_error.307".

(** The projection of [source] for a selected variant, before its closure. *)
Definition project_variant (source : json) (top_index : nat) (nested_index : option nat) : res json :=
  let definitions := jat (lit "$defs") source in
  let projected := JObject (mdel (lit "oneOf") (mdel (lit "$defs") (members source))) in
  let item i j := match j with JArray l => nth i l JNull | _ => JNull end in
  let top := item top_index (jat (lit "oneOf") source) in
  projected ← apply_selected_response_branch projected top definitions;
  match nested_index with
  | None => Ret projected
  | Some n => apply_selected_response_branch projected (item n (jat (lit "oneOf") top)) definitions
  end.
End Projection.

(** ** The closure *)

(** A local reference to [name] occurs somewhere in a value. *)
Inductive has_ref (name : bytes) : json -> Prop :=
| hr_own m : own_ref m = name -> name <> [] -> has_ref name (JObject m)
| hr_member m k v : (k, v) ∈ m -> has_ref name v -> has_ref name (JObject m)
| hr_item l v : v ∈ l -> has_ref name v -> has_ref name (JArray l).

(** The definitions a schema needs. *)
Inductive reachable (definitions : list (bytes * json)) (projected : json) : bytes -> Prop :=
| reach_root n : has_ref n projected -> reachable definitions projected n
| reach_step n d n' : reachable definitions projected n -> mget n definitions = Some d ->
    has_ref n' d -> reachable definitions projected n'.

Definition names (s : name_set) : list bytes := map fst s.

Lemma mset_length {V} k (v : V) m : (length (mset k v m) <= S (length m))%nat.
Proof. induction m as [|[k1 v1] m IH]; cbn [mset]; [done|]. destruct (str_compare k k1); cbn [length]; lia. Qed.

Lemma ns_union_names nested s n : n ∈ names (ns_union nested s) <-> n ∈ names nested \/ n ∈ names s.
Proof.
  unfold ns_union. revert s. induction nested as [|[k []] nested IH]; intros s; cbn [foldl names map fst]; [set_solver|].
  rewrite IH. unfold ns_insert, names. rewrite mset_keys. set_solver.
Qed.

Lemma ns_union_length nested s : (length (ns_union nested s) <= length nested + length s)%nat.
Proof.
  unfold ns_union. revert s. induction nested as [|[k []] nested IH]; intros s; cbn [foldl length]; [lia|].
  specialize (IH (ns_insert k s)). assert (length (ns_insert k s) <= S (length s))%nat by apply mset_length. cbn [fst]. lia.
Qed.

Lemma collect_names v : forall refs n,
  n ∈ names (collect_local_definition_refs v refs) <-> n ∈ names refs \/ has_ref n v.
Proof.
  induction v as [| | | | | |l IH|m IH] using json_nested_ind; intros refs n; cbn [collect_local_definition_refs];
    try (split; [by left|by intros [?|Hr]; [|inversion Hr]]).
  - assert (n ∈ names (foldl (fun refs v => collect_local_definition_refs v refs) refs l) <->
      n ∈ names refs \/ exists v, v ∈ l /\ has_ref n v) as ->.
    { revert refs. induction l as [|x l IHl]; intros refs; cbn [foldl]; [set_solver|].
      apply list.Forall_cons in IH as [Hx IH]. rewrite (IHl IH), Hx. set_solver. }
    split; intros [?|Hr]; auto.
    + destruct Hr as (v & Hv & Hr). right. by apply (hr_item n l v).
    + inversion Hr as [| |? v Hv Hr']; subst. right. eauto.
  - set (refs' := if eqs (own_ref m) [] then refs else _).
    assert (n ∈ names refs' <-> n ∈ names refs \/ (own_ref m = n /\ n <> [])) as Hown.
    { subst refs'. destruct (eqs (own_ref m) []) eqn:E.
      - apply eqs_true in E. rewrite E. split; [by left|]. intros [?|[<- ?]]; done.
      - apply eqs_false in E. unfold ns_insert, names. rewrite mset_keys. split; [intros [->|?]; auto|].
        intros [?|[<- ?]]; auto. }
    assert (forall refs, n ∈ names (foldl (fun refs kv => collect_local_definition_refs (snd kv) refs) refs m) <->
      n ∈ names refs \/ exists k v, (k, v) ∈ m /\ has_ref n v) as ->.
    { clear Hown refs'. induction m as [|[k x] m IHm]; intros r; cbn [foldl].
      - split; [by left|]. by intros [?|(? & ? & []%elem_of_nil & _)].
      - apply list.Forall_cons in IH as [Hx IH]. cbn [snd] in *. rewrite (IHm IH), Hx. split.
        + intros [[?|?]|(k' & v & Hin & ?)]; [by left|right; exists k, x; split; [left|done]|].
          right. exists k', v. split; [by right|done].
        + intros [?|(k' & v & Hin & ?)]; [by left; left|].
          apply elem_of_cons in Hin as [E|Hin]; [injection E as -> ->; by left; right|]. right. eauto. }
    rewrite Hown. split.
    + intros [[?|[? ?]]|(k & v & Hin & Hr)]; [by left|right; by constructor|right; by eapply hr_member].
    + intros [?|Hr]; [by left; left|]. inversion Hr as [? Ho Hne|? k v Hin Hr'|]; subst; eauto.
Qed.

Lemma refs_of_spec v n : n ∈ names (collect_local_definition_refs v []) <-> has_ref n v.
Proof. rewrite collect_names. cbn. set_solver. Qed.

(** What is still to be inserted. *)
Definition unseen (selected : list (bytes * json)) (definitions : list (bytes * json)) : nat :=
  foldr Nat.add 0%nat (map (fun kv => match mget (fst kv) selected with
                           | Some _ => 0%nat
                           | None => length (collect_local_definition_refs (snd kv) [])
                           end) definitions).

Lemma unseen_select selected definitions name d :
  mget name selected = None -> mget name definitions = Some d ->
  (unseen (mset name d selected) definitions + length (collect_local_definition_refs d []) <= unseen selected definitions)%nat.
Proof.
  intros Hs. unfold unseen. 
  assert (forall l, (foldr Nat.add 0%nat (map (fun kv : bytes * json => match mget (fst kv) (mset name d selected) with
            | Some _ => 0%nat | None => length (collect_local_definition_refs (snd kv) []) end) l) <=
    foldr Nat.add 0%nat (map (fun kv => match mget (fst kv) selected with
            | Some _ => 0%nat | None => length (collect_local_definition_refs (snd kv) []) end) l))%nat) as Hmono.
  { induction l as [|[k v] l IH]; [done|]. cbn [map foldr fst snd].
    destruct (decide (k = name)) as [->|Hne]; [rewrite mget_mset_eq; cbv iota; lia|rewrite mget_mset_ne by congruence; lia]. }
  induction definitions as [|[k v] defs IH]; [done|]. cbn [mget map foldr fst snd]. destruct (eqs name k) eqn:E.
  - apply eqs_true in E as <-. intros [= ->]. rewrite mget_mset_eq, Hs. cbv iota. specialize (Hmono defs). lia.
  - apply eqs_false in E. intros Hd. specialize (IH Hd). rewrite mget_mset_ne by done. lia.
Qed.

Record closing (definitions : list (bytes * json)) (projected : json) (pending : name_set)
    (selected : list (bytes * json)) : Prop := {
  cl_pending : forall n, n ∈ names pending -> reachable definitions projected n;
  cl_selected : forall n d, mget n selected = Some d -> reachable definitions projected n /\ mget n definitions = Some d;
  cl_roots : forall n, has_ref n projected -> is_Some (mget n selected) \/ n ∈ names pending;
  cl_nested : forall n d n', mget n selected = Some d -> has_ref n' d ->
    is_Some (mget n' selected) \/ n' ∈ names pending;
}.

Lemma closing_select definitions projected name u pending selected d :
  closing definitions projected ((name, u) :: pending) selected -> mget name definitions = Some d ->
  closing definitions projected (ns_union (collect_local_definition_refs d []) pending) (mset name d selected).
Proof.
  intros [H1 H2 H3 H4] Hd.
  assert (reachable definitions projected name) as Hr by (apply H1; left).
  assert (forall n, is_Some (mget n selected) \/ n ∈ names ((name, u) :: pending) ->
    is_Some (mget n (mset name d selected)) \/ n ∈ names (ns_union (collect_local_definition_refs d []) pending)) as Hmove.
  { intros n Hn. destruct (decide (n = name)) as [->|Hne]; [left; rewrite mget_mset_eq; by eexists|].
    rewrite mget_mset_ne, ns_union_names by congruence. destruct Hn as [?|Hn]; [by left|]. right. right.
    cbn in Hn. by apply elem_of_cons in Hn as [->|]. }
  split.
  - intros n [Hn|Hn]%ns_union_names; [|apply H1; by right]. apply refs_of_spec in Hn. by eapply reach_step.
  - intros n d'. destruct (decide (n = name)) as [->|Hne].
    + rewrite mget_mset_eq. by intros [= <-].
    + rewrite mget_mset_ne by congruence. apply H2.
  - intros n Hn. by apply Hmove, H3.
  - intros n d' n'. destruct (decide (n = name)) as [->|Hne].
    + rewrite mget_mset_eq. intros [= <-] Hn'. right. apply ns_union_names. left. by apply refs_of_spec.
    + rewrite mget_mset_ne by congruence. intros Hg Hn'. apply Hmove. by eapply H4.
Qed.

Lemma closing_skip definitions projected name u pending selected d :
  closing definitions projected ((name, u) :: pending) selected -> mget name selected = Some d ->
  closing definitions projected pending selected.
Proof.
  intros [H1 H2 H3 H4] Hd. split; [intros n Hn; apply H1; by right|done| |].
  - intros n [?|Hn]%H3; [by left|]. cbn in Hn. apply elem_of_cons in Hn as [->|]; [left; by eexists|by right].
  - intros n d' n' Hg [?|Hn]%(H4 n d' n' Hg); [by left|].
    cbn in Hn. apply elem_of_cons in Hn as [->|]; [left; by eexists|by right].
Qed.

(** What the closure promises. *)
Definition closure_result (definitions : list (bytes * json)) (projected : json) (r : bytes + list (bytes * json)) : Prop :=
  match r with
  | inl name => reachable definitions projected name /\ mget name definitions = None
  | inr selected =>
      (forall n, reachable definitions projected n -> is_Some (mget n selected)) /\
      (forall n d, mget n selected = Some d -> reachable definitions projected n /\ mget n definitions = Some d)
  end.

Lemma closure_loop_spec definitions projected : forall fuel pending selected,
  (length pending + unseen selected definitions < fuel)%nat -> closing definitions projected pending selected ->
  exists r, closure_loop fuel definitions pending selected = Some r /\ closure_result definitions projected r.
Proof.
  induction fuel as [|f IH]; intros pending selected Hf Hc; [lia|]. cbn [closure_loop].
  destruct pending as [|[name u] pending].
  - eexists. split; [done|]. destruct Hc as [_ H2 H3 H4]. split; [|done].
    assert (forall n, n ∉ names []) as Hno by (intros n []%elem_of_nil).
    induction 1 as [n Hn|n d n' _ IHn Hd Hn']; [destruct (H3 n Hn) as [?|[]%Hno]; done|].
    destruct IHn as [d' Hd']. destruct (H2 n d' Hd') as [_ Hdef]. rewrite Hdef in Hd. injection Hd as ->.
    destruct (H4 n d n' Hd' Hn') as [?|[]%Hno]; done.
  - destruct (mget name selected) as [d|] eqn:Es.
    + apply IH; [cbn [length] in Hf; lia|]. by eapply closing_skip.
    + destruct (mget name definitions) as [d|] eqn:Ed.
      * apply IH; [|by eapply closing_select]. pose proof (unseen_select selected definitions name d Es Ed).
        pose proof (ns_union_length (collect_local_definition_refs d []) pending). cbn [length] in Hf. lia.
      * eexists. split; [done|]. split; [|done]. destruct Hc as [H1 _ _ _]. apply H1. left.
Qed.

Lemma closing_initial definitions projected : closing definitions projected (collect_local_definition_refs projected []) [].
Proof.
  split; try done.
  - intros n Hn%refs_of_spec. by constructor.
  - intros n Hn. right. by apply refs_of_spec.
Qed.

Lemma unseen_initial definitions :
  unseen [] definitions = foldr Nat.add 0%nat (map (fun kv => length (collect_local_definition_refs (snd kv) [])) definitions).
Proof. done. Qed.

(** The definition closure terminates and is exact. Attaching the
    definitions a schema needs always finishes: it keeps the schema and adds
    precisely the definitions reachable from it through local references,
    each as defined, or it names a definition that is reachable and missing. *)
Theorem definition_closure_exact (projected definitions : json) :
  exists r, attach_definition_closure projected definitions = Some r /\
    match r with
    | inl name => reachable (members definitions) projected name /\ jget name definitions = None
    | inr attached =>
        exists selected, jget (lit "$defs") attached = Some (JObject selected) /\
          (forall k, k <> lit "$defs" -> jget k attached = jget k projected) /\
          forall n d, mget n selected = Some d <->
            reachable (members definitions) projected n /\ jget n definitions = Some d
    end.
Proof.
  destruct (closure_loop_spec (members definitions) projected
    (closure_fuel (collect_local_definition_refs projected []) (members definitions))
    (collect_local_definition_refs projected []) []) as (r & Hr & Hs).
  { rewrite unseen_initial. unfold closure_fuel. lia. }
  { apply closing_initial. }
  unfold attach_definition_closure. rewrite Hr. destruct r as [name|selected]; eexists; (split; [done|]); [done|].
  destruct Hs as [H1 H2]. exists selected. split_and!.
  - apply mget_mset_eq.
  - intros k Hk. by apply mget_mset_ne.
  - intros n d. split; [apply H2|]. intros [Hn Hd]. destruct (H1 n Hn) as [d' Hd'].
    destruct (H2 n d' Hd') as [_ E]. unfold jget in Hd. congruence.
Qed.
