(* ===== verification/SchemaProjectionTheory.v ===== *)
(** * SchemaProjectionTheory: the projected schema accepts the same responses

    The validator is a library; what the projection relies on is the meaning
    of a few draft-07 keywords, stated as the laws [draft07] about the
    library's verdict [valid]. Under them, on the schemas the projection is
    meant for ([projectable]), a response that selects a variant is accepted
    by the projection of the schema exactly when the complete schema accepts
    it. [mini_valid] is a small validator that satisfies the laws. *)

From S2P Require Import Prelude CLib Json Diagnostics SchemaProjection.

Open Scope Z_scope.

Abbreviation defs := (list (bytes * json)).
Abbreviation obj := (list (bytes * json)).

(** Keywords the projection rewrites. *)
Definition structural : list bytes :=
  [lit "properties"; lit "required"; lit "allOf"; lit "oneOf"; lit "$defs"].

(** Membership in a list of literal keywords, by evaluation or by cases. *)
Ltac key_dec := apply (bool_decide_unpack _); vm_compute; exact I.
Ltac key_cases := unfold structural in *; rewrite ?not_elem_of_cons, ?elem_of_cons, ?elem_of_nil in *; tauto.

Definition property_names (m : obj) : list bytes :=
  match mget (lit "properties") m with Some (JObject ps) => map fst ps | _ => [] end.

(** Booleans and strings, which JSON equality compares literally. *)
Definition is_word (x : json) : bool := match x with JBool _ | JString _ => true | _ => false end.

Section Laws.
Context (json_equal : json -> json -> bool).
(** [valid D s v]: schema [s] accepts [v] when local references mean the
    definitions [D]; [keyword D m k s v]: so does the keyword [k] with value
    [s] in a schema with members [m]. *)
Context (valid : defs -> json -> json -> Prop) (keyword : defs -> obj -> bytes -> json -> json -> Prop).

Record draft07 (D : defs) : Prop := {
  d7_object : forall m v, mget (lit "$ref") m = None ->
    valid D (JObject m) v <-> Forall (fun kv => keyword D m (fst kv) (snd kv) v) m;
  d7_properties : forall m ps o, keyword D m (lit "properties") (JObject ps) (JObject o) <->
    forall k s x, mget k ps = Some s -> mget k o = Some x -> valid D s x;
  d7_required : forall m fs o, keyword D m (lit "required") (JArray fs) (JObject o) <->
    forall f, JString f ∈ fs -> is_Some (mget f o);
  d7_allOf : forall m ss v, keyword D m (lit "allOf") (JArray ss) v <-> forall s, s ∈ ss -> valid D s v;
  d7_anyOf : forall m ss v, keyword D m (lit "anyOf") (JArray ss) v <-> exists s, s ∈ ss /\ valid D s v;
  d7_oneOf : forall m ss v, keyword D m (lit "oneOf") (JArray ss) v <->
    exists i s, ss !! i = Some s /\ valid D s v /\ forall j s', ss !! j = Some s' -> valid D s' v -> j = i;
  d7_const : forall m c x, is_word x = true -> keyword D m (lit "const") c x -> c = x;
  d7_enum : forall m cs x, is_word x = true -> keyword D m (lit "enum") (JArray cs) x -> x ∈ cs;
  d7_defs : forall m s v, keyword D m (lit "$defs") s v;
  (** Any other keyword looks at its siblings outside [structural] at most,
      except [additionalProperties], which also depends on the names of the
      properties. *)
  d7_siblings : forall m m' k s v, k ∉ structural ->
    (forall k', k' ∉ structural -> mget k' m = mget k' m') ->
    (k = lit "additionalProperties" -> forall p, p ∈ property_names m <-> p ∈ property_names m') ->
    keyword D m k s v <-> keyword D m' k s v;
  d7_ref : forall m r d v, mget (lit "$ref") m = Some (JString r) -> local_definition_name r <> [] ->
    mget (local_definition_name r) D = Some d -> valid D (JObject m) v <-> valid D d v;
  d7_equal : forall a b v, json_equal a b = true -> valid D a v <-> valid D b v;
}.

Context (Hequal : forall a s, json_equal a (JString s) = true -> a = JString s).
Context (D : defs) (HD : draft07 D).

(** ** A schema object, keyword by keyword *)

Definition other (m : obj) (v : json) : Prop :=
  forall k s, k ∉ structural -> mget k m = Some s -> keyword D m k s v.
Definition props (m o : obj) : Prop :=
  forall ps, mget (lit "properties") m = Some (JObject ps) ->
  forall k s x, mget k ps = Some s -> mget k o = Some x -> valid D s x.
Definition reqs (m o : obj) : Prop :=
  forall fs, mget (lit "required") m = Some (JArray fs) -> forall f, JString f ∈ fs -> is_Some (mget f o).
Definition alls (m : obj) (v : json) : Prop :=
  forall ss, mget (lit "allOf") m = Some (JArray ss) -> forall s, s ∈ ss -> valid D s v.
Definition ones (m : obj) (v : json) : Prop :=
  forall ss, mget (lit "oneOf") m = Some (JArray ss) ->
  exists i s, ss !! i = Some s /\ valid D s v /\ forall j s', ss !! j = Some s' -> valid D s' v -> j = i.

(** The keywords the projection rewrites have the type the draft gives them. *)
Record shaped (m : obj) : Prop := {
  sh_sorted : msorted m = true;
  sh_ref : mget (lit "$ref") m = None;
  sh_properties : forall s, mget (lit "properties") m = Some s -> is_object s = true;
  sh_required : forall s, mget (lit "required") m = Some s -> is_array s = true;
  sh_allOf : forall s, mget (lit "allOf") m = Some s -> is_array s = true;
  sh_oneOf : forall s, mget (lit "oneOf") m = Some s -> is_array s = true;
}.

Lemma valid_keywords m v : msorted m = true -> mget (lit "$ref") m = None ->
  valid D (JObject m) v <-> forall k s, mget k m = Some s -> keyword D m k s v.
Proof.
  intros Hs Hr. rewrite (d7_object D HD m v Hr), list.Forall_forall. split.
  - intros Hf k s Hg%mget_elem. by apply (Hf (k, s)).
  - intros Hf [k s] Hin. apply Hf. by apply elem_mget.
Qed.

Lemma valid_parts m o : shaped m ->
  valid D (JObject m) (JObject o) <->
    other m (JObject o) /\ props m o /\ reqs m o /\ alls m (JObject o) /\ ones m (JObject o).
Proof.
  intros []. rewrite valid_keywords by done. split.
  - intros Hk. split_and!.
    + intros k s _ Hg. by apply Hk.
    + intros ps Hg. by apply (d7_properties D HD m), Hk.
    + intros fs Hg. by apply (d7_required D HD m), Hk.
    + intros ss Hg. by apply (d7_allOf D HD m), Hk.
    + intros ss Hg. by apply (d7_oneOf D HD m), Hk.
  - intros (H1 & H2 & H3 & H4 & H5) k s Hg. destruct (decide (k ∈ structural)) as [Hk|Hk]; [|by apply H1].
    unfold structural in Hk. rewrite !elem_of_cons in Hk. destruct Hk as [->|[->|[->|[->|[->|Hk]]]]].
    + specialize (sh_properties0 s Hg). destruct s; try done. by apply (d7_properties D HD m), H2.
    + specialize (sh_required0 s Hg). destruct s; try done. by apply (d7_required D HD m), H3.
    + specialize (sh_allOf0 s Hg). destruct s; try done. by apply (d7_allOf D HD m), H4.
    + specialize (sh_oneOf0 s Hg). destruct s; try done. by apply (d7_oneOf D HD m), H5.
    + apply (d7_defs D HD).
    + by apply elem_of_nil in Hk.
Qed.

(** Rewriting structural keywords, keeping the property names where they
    matter, keeps the verdict of the others. *)
Lemma other_agree m m' v :
  (forall k, k ∉ structural -> mget k m = mget k m') ->
  (is_Some (mget (lit "additionalProperties") m) -> forall p, p ∈ property_names m <-> p ∈ property_names m') ->
  other m v <-> other m' v.
Proof.
  intros Hag Hn. assert (forall k s, k ∉ structural -> mget k m = Some s -> keyword D m k s v <-> keyword D m' k s v) as Hk.
  { intros k s Hk Hg. apply (d7_siblings D HD); [done..|]. intros ->. apply Hn. eauto. }
  split; intros Ho k s Hs Hg.
  - rewrite <- Hag in Hg by done. apply Hk; [done..|]. by apply Ho.
  - apply Hk; [done..|]. apply Ho; [done|]. by rewrite <- Hag.
Qed.

(** ** Alternatives *)

(** Where a property schema offers alternatives, it does nothing else. *)
Fixpoint plain_alternatives (fuel : nat) (schema : json) : bool :=
  match fuel with
  | O => true
  | S f =>
      match resolve_local_schema schema (JObject D) with
      | Some g =>
          match jget (lit "anyOf") g with
          | Some (JArray alternatives) =>
              (length (members g) =? 1)%nat && forallb (plain_alternatives f) alternatives
          | _ => true
          end
      | None => true
      end
  end.

Lemma resolve_valid s g v : resolve_local_schema s (JObject D) = Some g -> valid D s v <-> valid D g v.
Proof.
  unfold resolve_local_schema, jget. destruct (mget (lit "$ref") (members s)) as [[| | | | |r| |]|] eqn:Er; try by intros [= <-].
  destruct (eqs (local_definition_name r) []) eqn:En; [done|]. apply eqs_false in En. cbn [members]. intros Hg.
  destruct s; try done. by eapply (d7_ref D HD).
Qed.

Lemma single_member (m : obj) k s : length m = 1%nat -> mget k m = Some s -> m = [(k, s)].
Proof.
  destruct m as [|[k' s'] [|]]; try done. cbn. case_match; [|done]. intros _ [= ->]. by apply eqs_true in H as ->.
Qed.

Lemma alternative_sound fuel : forall general selected v,
  plain_alternatives fuel general = true ->
  schema_contains_alternative json_equal fuel general selected (JObject D) = true ->
  valid D selected v -> valid D general v.
Proof.
  induction fuel as [|f IH]; intros general selected v Hp Hc Hv; [done|].
  cbn [schema_contains_alternative plain_alternatives] in *.
  destruct (resolve_local_schema general (JObject D)) as [g|] eqn:Eg; [|done].
  destruct (resolve_local_schema selected (JObject D)) as [s|] eqn:Es; [|done].
  apply (resolve_valid _ _ _ Eg). destruct (json_equal g s) eqn:Eq.
  { apply (d7_equal D HD _ _ _ Eq). by apply (resolve_valid _ _ _ Es). }
  destruct (jget (lit "anyOf") g) as [[| | | | | |alts|]|] eqn:Ea; try done.
  apply andb_true_iff in Hp as [Hl Hp]. apply Nat.eqb_eq in Hl.
  apply List.existsb_exists in Hc as (a & Ha & Hc). rewrite List.forallb_forall in Hp.
  destruct g as [| | | | | | |m]; try done. cbn [members] in *.
  unfold jget in Ea. cbn [members] in Ea. rewrite (single_member m _ _ Hl Ea) in *.
  rewrite (d7_object D HD) by done. constructor; [|constructor]. cbn [fst snd].
  apply (d7_anyOf D HD). exists a. split; [by apply list_elem_of_In|]. by apply (IH a selected); auto.
Qed.

Lemma all_of_both a b v : valid D (JObject [(lit "allOf", JArray [a; b])]) v <-> valid D a v /\ valid D b v.
Proof.
  rewrite (d7_object D HD) by done. rewrite list.Forall_singleton. cbn [fst snd]. rewrite (d7_allOf D HD).
  split; [intros H; split; apply H; set_solver|]. intros [H1 H2] s Hs. set_solver.
Qed.

(** ** Merging properties and required fields *)

Definition holds_all (ps o : obj) : Prop :=
  forall k s x, mget k ps = Some s -> mget k o = Some x -> valid D s x.
Definition all_plain (ps : obj) : Prop :=
  forall k s, mget k ps = Some s -> plain_alternatives 33 s = true.

Lemma holds_all_set k s g o : (forall x, mget k o = Some x -> valid D s x) ->
  (forall k' s' x, k' <> k -> mget k' g = Some s' -> mget k' o = Some x -> valid D s' x) ->
  holds_all (mset k s g) o.
Proof.
  intros H1 H2 k' s' x Hg Hx. destruct (decide (k' = k)) as [->|Hne].
  - rewrite mget_mset_eq in Hg. injection Hg as <-. by apply H1.
  - rewrite mget_mset_ne in Hg by congruence. by eapply H2.
Qed.

Lemma merge_property_spec g key sel o : all_plain g ->
  holds_all (merge_property json_equal (JObject D) g (key, sel)) o <->
    holds_all g o /\ (forall x, mget key o = Some x -> valid D sel x).
Proof.
  intros Hp. unfold merge_property. destruct (mget key g) as [orig|] eqn:Eg.
  - set (new := if schema_is_same_or_alternative json_equal orig sel (JObject D) then sel
                else JObject [(lit "allOf", JArray [orig; sel])]).
    assert (forall x, valid D new x <-> valid D orig x /\ valid D sel x) as Hnew.
    { intros x. subst new. destruct (schema_is_same_or_alternative json_equal orig sel (JObject D)) eqn:Ea.
      - split; [|tauto]. intros Hs. split; [|done]. eapply alternative_sound; [by eapply Hp|exact Ea|done].
      - apply all_of_both. }
    clearbody new. split.
    + intros Hh. assert (forall x, mget key o = Some x -> valid D new x) as Hk.
      { intros x Hx. apply (Hh key); [apply mget_mset_eq|done]. }
      split; [|intros x Hx; by apply Hnew, Hk]. intros k s x Hs Hx. destruct (decide (k = key)) as [->|Hne].
      * rewrite Eg in Hs. injection Hs as <-. by apply Hnew, Hk.
      * apply (Hh k); [by rewrite mget_mset_ne by congruence|done].
    + intros [Hg Hs]. apply holds_all_set; [|intros; by eapply Hg]. intros x Hx. apply Hnew. split; [by eapply Hg|by apply Hs].
  - split.
    + intros Hh. split; [|intros x Hx; apply (Hh key); [apply mget_mset_eq|done]].
      intros k s x Hs Hx. apply (Hh k); [|done]. rewrite mget_mset_ne; [done|]. congruence.
    + intros [Hg Hs]. apply holds_all_set; [done|]. intros; by eapply Hg.
Qed.

Lemma merge_property_keeps g key sel : msorted g = true -> all_plain g -> plain_alternatives 33 sel = true ->
  msorted (merge_property json_equal (JObject D) g (key, sel)) = true /\
  all_plain (merge_property json_equal (JObject D) g (key, sel)) /\
  forall k, k ∈ map fst (merge_property json_equal (JObject D) g (key, sel)) <-> k = key \/ k ∈ map fst g.
Proof.
  intros Hs Hg Hp. unfold merge_property. destruct (mget key g) as [orig|]; split_and!; try (by apply mset_sorted); try apply mset_keys.
  - intros k s. destruct (decide (k = key)) as [->|].
    + rewrite mget_mset_eq. intros [= <-]. case_match; done.
    + rewrite mget_mset_ne by congruence. apply Hg.
  - intros k s. destruct (decide (k = key)) as [->|].
    + rewrite mget_mset_eq. by intros [= <-].
    + rewrite mget_mset_ne by congruence. apply Hg.
Qed.

Lemma merge_fold ps : forall g, msorted g = true -> all_plain g ->
  (forall k s, (k, s) ∈ ps -> plain_alternatives 33 s = true) -> NoDup (map fst ps) ->
  let g' := foldl (merge_property json_equal (JObject D)) g ps in
  msorted g' = true /\ all_plain g' /\ (forall k, k ∈ map fst g' <-> k ∈ map fst ps \/ k ∈ map fst g) /\
  forall o, holds_all g' o <-> holds_all g o /\ forall k s x, (k, s) ∈ ps -> mget k o = Some x -> valid D s x.
Proof.
  induction ps as [|[k s] ps IH]; intros g Hs Hg Hp Hn g'.
  { split_and!; [done..|set_solver|]. intros o. split; [intros; split; [done|]; intros ??? []%elem_of_nil|tauto]. }
  apply list.NoDup_cons in Hn as [_ Hn]. subst g'. cbn [foldl].
  destruct (merge_property_keeps g k s Hs Hg) as (H1 & H2 & H3); [apply (Hp k); left|].
  destruct (IH _ H1 H2 (fun k' s' Hin => Hp k' s' (list_elem_of_further _ _ _ Hin)) Hn) as (I1 & I2 & I3 & I4).
  split_and!; [done..| |].
  - intros k'. rewrite I3, H3. cbn [map fst]. rewrite elem_of_cons. tauto.
  - intros o. rewrite I4, merge_property_spec by done. split.
    + intros [[Ha Hb] Hc]. split; [done|]. intros k' s' x [E|Hin]%elem_of_cons Hx; [injection E as -> ->; auto|eauto].
    + intros [Ha Hb]. split; [split; [done|]|].
      * intros x Hx. apply (Hb k); [left|done].
      * intros k' s' x Hin. apply Hb. by right.
Qed.

Lemma add_required_spec existing fields f :
  JString f ∈ foldl (add_required json_equal) existing fields <-> JString f ∈ existing \/ JString f ∈ fields.
Proof.
  revert existing. induction fields as [|g fields IH]; intros existing; cbn [foldl]; [set_solver|].
  rewrite IH, elem_of_cons. unfold add_required. destruct (existsb _ existing) eqn:E; [|set_solver].
  split; [tauto|]. intros [?|[<-|?]]; [by left| |by right]. left.
  apply List.existsb_exists in E as (e & He & Heq). apply Hequal in Heq as ->. by apply list_elem_of_In.
Qed.

(** ** Applying a branch *)

Definition parts (b o : obj) : Prop := other b (JObject o) /\ props b o /\ reqs b o /\ alls b (JObject o).

(** The properties of a schema are plain. *)
Definition plain_properties (m : obj) : Prop :=
  forall ps, mget (lit "properties") m = Some (JObject ps) -> msorted ps = true /\ all_plain ps.

Record projecting (m : obj) : Prop := {
  pj_shaped : shaped m;
  pj_oneOf : mget (lit "oneOf") m = None;
  pj_plain : plain_properties m;
}.

(** A branch of the kind the projection merges: no [additionalProperties] of
    its own, and no new property name where the schema it is merged into is
    closed. *)
Record branch_ok (root b : obj) : Prop := {
  br_shaped : shaped b;
  br_additional : mget (lit "additionalProperties") b = None;
  br_plain : plain_properties b;
  br_names : is_Some (mget (lit "additionalProperties") root) ->
    forall p, p ∈ property_names b -> p ∈ property_names root;
}.

Lemma shaped_set m key v : shaped m -> key <> lit "$ref" ->
  (key = lit "properties" -> is_object v = true) ->
  (key ∈ [lit "required"; lit "allOf"; lit "oneOf"] -> is_array v = true) -> shaped (mset key v m).
Proof.
  intros [] Hr Hp Ha. assert (forall k s, mget k (mset key v m) = Some s -> k = key /\ s = v \/ mget k m = Some s) as Hg.
  { intros k s. destruct (decide (k = key)) as [->|Hne]; [rewrite mget_mset_eq; intros [= ->]; by left|].
    rewrite mget_mset_ne by congruence. by right. }
  split; [by apply mset_sorted|by rewrite mget_mset_ne| | | |];
    intros s Hs; apply Hg in Hs as [[<- ->]|Hs]; auto; apply Ha; key_dec.
Qed.

Lemma shaped_properties m ps : shaped m -> shaped (mset (lit "properties") (JObject ps) m).
Proof. intros Hm. apply shaped_set; [done..|]. intros Hk. exfalso. revert Hk. key_dec. Qed.

Lemma shaped_array m key l : shaped m -> key ∈ [lit "required"; lit "allOf"] -> shaped (mset key (JArray l) m).
Proof.
  intros Hm Hk. apply shaped_set; [done| | |done]; rewrite !elem_of_cons, elem_of_nil in Hk;
    destruct Hk as [->|[->|[]]]; done.
Qed.

Lemma mget_residual b k : msorted b = true ->
  mget k (residual_of (JObject b)) =
    if bool_decide (k ∈ [lit "properties"; lit "required"; lit "oneOf"]) then None else mget k b.
Proof.
  intros Hs. unfold residual_of. cbn [members].
  assert (forall k' (m : obj), msorted m = true -> mget k (mdel k' m) = if bool_decide (k = k') then None else mget k m) as Hd.
  { intros k' m Hm. case_bool_decide as E; [subst; by apply mget_mdel_eq|]. apply mget_mdel_ne. congruence. }
  rewrite !Hd by (repeat apply mdel_sorted; done). repeat case_bool_decide; try done; key_cases.
Qed.

Lemma residual_sorted b : msorted b = true -> msorted (residual_of (JObject b)) = true.
Proof. intros Hs. unfold residual_of. repeat apply mdel_sorted. done. Qed.

Lemma residual_valid root b o : branch_ok root b ->
  valid D (JObject (residual_of (JObject b))) (JObject o) <-> other b (JObject o) /\ alls b (JObject o).
Proof.
  intros [Hsh Hadd _ _]. pose proof (sh_sorted b Hsh) as Hs.
  assert (forall k, k ∉ [lit "properties"; lit "required"; lit "oneOf"] ->
    mget k (residual_of (JObject b)) = mget k b) as Hg.
  { intros k Hk. rewrite mget_residual by done. by rewrite bool_decide_false. }
  assert (forall k, k ∈ [lit "properties"; lit "required"; lit "oneOf"] ->
    mget k (residual_of (JObject b)) = None) as Hn.
  { intros k Hk. rewrite mget_residual by done. by rewrite bool_decide_true. }
  assert (shaped (residual_of (JObject b))) as Hsh'.
  { destruct Hsh. split; [by apply residual_sorted|rewrite Hg; [done|key_dec]| | | |];
      intros s; [rewrite Hn by key_dec; done|rewrite Hn by key_dec; done| |rewrite Hn by key_dec; done].
    rewrite Hg by key_dec. apply sh_allOf0. }
  rewrite valid_parts by done. unfold props, reqs, ones, alls. rewrite (Hn (lit "properties")), (Hn (lit "required")), (Hn (lit "oneOf")), (Hg (lit "allOf")) by key_dec.
  rewrite (other_agree (residual_of (JObject b)) b).
  - split; [intros (H1 & _ & _ & H2 & _); auto|]. intros [H1 H2]. split_and!; (done || by intros).
  - intros k Hk. apply Hg. key_cases.
  - rewrite Hg by key_dec. rewrite Hadd. by intros [? ?].
Qed.

(** The members of the merged schema. *)
Definition merged_properties (m b : obj) : option json :=
  match mget (lit "properties") b with
  | Some (JObject ps) =>
      Some (JObject (foldl (merge_property json_equal (JObject D))
        (match mget (lit "properties") m with Some (JObject g) => g | _ => [] end) ps))
  | _ => mget (lit "properties") m
  end.
Definition merged_required (m b : obj) : option json :=
  match mget (lit "required") b with
  | Some (JArray fields) =>
      Some (JArray (foldl (add_required json_equal)
        (match mget (lit "required") m with Some (JArray l) => l | _ => [] end) fields))
  | _ => mget (lit "required") m
  end.
Definition merged_allOf (m b : obj) : option json :=
  match residual_of (JObject b) with
  | [] => mget (lit "allOf") m
  | r => Some (JArray ((match mget (lit "allOf") m with Some (JArray l) => l | _ => [] end) ++ [JObject r]))
  end.

Lemma apply_members m b : shaped m ->
  exists m', apply_selected_response_branch json_equal (JObject m) (JObject b) (JObject D) = Ret (JObject m') /\
    shaped m' /\
    mget (lit "properties") m' = merged_properties m b /\ mget (lit "required") m' = merged_required m b /\
    mget (lit "allOf") m' = merged_allOf m b /\
    (forall k, k ∉ [lit "properties"; lit "required"; lit "allOf"] -> mget k m' = mget k m).
Proof.
  intros Hm. unfold apply_selected_response_branch. cbn [is_object].
  assert (exists m1, merge_properties json_equal (JObject m) (JObject b) (JObject D) = JObject m1 /\ shaped m1 /\
    mget (lit "properties") m1 = merged_properties m b /\
    forall k, k <> lit "properties" -> mget k m1 = mget k m) as (m1 & E1 & S1 & P1 & O1).
  { unfold merge_properties, merged_properties, jget. cbn [members].
    destruct (mget (lit "properties") b) as [[| | | | | | |ps]|]; eauto 10.
    eexists. split; [done|]. split_and!; [by apply shaped_properties|apply mget_mset_eq|]. intros k Hk. by apply mget_mset_ne. }
  rewrite E1.
  assert (exists m2, merge_required_fields json_equal (JObject m1) (JObject b) = JObject m2 /\ shaped m2 /\
    mget (lit "required") m2 = merged_required m b /\
    forall k, k <> lit "required" -> mget k m2 = mget k m1) as (m2 & E2 & S2 & P2 & O2).
  { unfold merge_required_fields, merged_required, jget. cbn [members]. rewrite <- (O1 (lit "required")) by done.
    destruct (mget (lit "required") b) as [[| | | | | |fs|]|]; eauto 10.
    eexists. split; [done|]. split_and!; [apply shaped_array; [done|key_dec]|apply mget_mset_eq|]. intros k Hk. by apply mget_mset_ne. }
  rewrite E2.
  assert (exists m3, add_residual (JObject m2) (residual_of (JObject b)) = JObject m3 /\ shaped m3 /\
    mget (lit "allOf") m3 = merged_allOf m b /\
    forall k, k <> lit "allOf" -> mget k m3 = mget k m2) as (m3 & E3 & S3 & P3 & O3).
  { unfold add_residual, merged_allOf, jget. cbn [members]. rewrite <- (O1 (lit "allOf")), <- (O2 (lit "allOf")) by done.
    destruct (residual_of (JObject b)) as [|r rs]; eauto 10.
    eexists. split; [done|]. split_and!; [apply shaped_array; [done|key_dec]|apply mget_mset_eq|]. intros k Hk. by apply mget_mset_ne. }
  rewrite E3. exists m3. split_and!; [done..| | | |].
  - rewrite O3, O2 by done. done.
  - rewrite O3 by done. done.
  - done.
  - intros k Hk. rewrite !not_elem_of_cons in Hk. destruct Hk as (? & ? & ? & _). by rewrite O3, O2, O1.
Qed.

Lemma elem_mget_iff (m : obj) k s : msorted m = true -> (k, s) ∈ m <-> mget k m = Some s.
Proof. intros Hm. split; [by apply elem_mget|apply mget_elem]. Qed.

Definition general_of (m : obj) : obj :=
  match mget (lit "properties") m with Some (JObject g) => g | _ => [] end.

Lemma general_plain m : plain_properties m -> msorted (general_of m) = true /\ all_plain (general_of m).
Proof.
  intros Hp. unfold general_of, plain_properties in *. destruct (mget (lit "properties") m) as [[| | | | | | |g]|];
    first [by apply Hp|split; [done|intros ? ? [=]]].
Qed.

Lemma props_general m o : props m o <-> holds_all (general_of m) o.
Proof.
  unfold props, holds_all, general_of. destruct (mget (lit "properties") m) as [[| | | | | | |g]|];
    split; intros H; try (intros; discriminate); try (intros k s x; apply H; done); by intros ps [= <-].
Qed.

Lemma merged_props m b m' : plain_properties m -> plain_properties b ->
  mget (lit "properties") m' = merged_properties m b ->
  plain_properties m' /\ (forall p, p ∈ property_names m' <-> p ∈ property_names b \/ p ∈ property_names m) /\
  forall o, props m' o <-> props m o /\ props b o.
Proof.
  intros Hm Hb E. unfold merged_properties in E. destruct (general_plain m Hm) as [Hg1 Hg2].
  destruct (mget (lit "properties") b) as [[| | | | | | |ps]|] eqn:Eb.
  8: { destruct (Hb ps Eb) as [Hs Hp]. fold (general_of m) in E.
       destruct (merge_fold ps (general_of m) Hg1 Hg2) as (I1 & I2 & I3 & I4).
       { intros k s Hin. apply (Hp k). by apply elem_mget. }
       { by apply msorted_NoDup. }
       split_and!.
       - intros g' Hg'. rewrite E in Hg'. injection Hg' as <-. done.
       - intros p. unfold property_names. rewrite E, Eb, I3. unfold general_of.
         destruct (mget (lit "properties") m) as [[| | | | | | |g]|]; done.
       - intros o. rewrite (props_general m'), (props_general m), (props_general b). unfold general_of at 1 3. rewrite E, Eb, I4.
         unfold holds_all at 3. setoid_rewrite (elem_mget_iff ps) ; done. }
  all: assert (property_names b = []) as Hnb by (unfold property_names; by rewrite Eb);
    assert (property_names m' = property_names m) as Hnm by (unfold property_names; by rewrite E);
    (split_and!; [unfold plain_properties; rewrite E; done|intros p; rewrite Hnb, Hnm, elem_of_nil; tauto|];
     intros o; unfold props; rewrite E, Eb; split; [intros H; split; [done|by intros]|by intros [H _]]).
Qed.

Lemma merged_reqs m b m' o : shaped m -> mget (lit "required") m' = merged_required m b ->
  reqs m' o <-> reqs m o /\ reqs b o.
Proof.
  intros Hm E. unfold reqs, merged_required in *. rewrite E.
  destruct (mget (lit "required") b) as [[| | | | | |fs|]|]; try (split; [intros H; split; [done|by intros]|by intros [H _]]).
  assert ((forall f, JString f ∈ (match mget (lit "required") m with Some (JArray l) => l | _ => [] end) -> is_Some (mget f o)) <->
    forall l, mget (lit "required") m = Some (JArray l) -> forall f, JString f ∈ l -> is_Some (mget f o)) as <-.
  { pose proof (sh_required m Hm) as Hs. destruct (mget (lit "required") m) as [r|].
    - specialize (Hs r eq_refl). destruct r; try done. split; [by intros H ? [= <-]|]. intros H. by apply H.
    - split; [by intros|]. by intros _ f ?%elem_of_nil. }
  split.
  - intros H. specialize (H _ eq_refl). split; [intros f Hf|intros fs' [= <-] f Hf]; apply H, add_required_spec; auto.
  - intros [H1 H2] l [= <-] f [Hf|Hf]%add_required_spec; [by apply H1|by eapply H2].
Qed.

Lemma merged_alls root m b m' o : shaped m -> branch_ok root b -> mget (lit "allOf") m' = merged_allOf m b ->
  alls m' (JObject o) <-> alls m (JObject o) /\ other b (JObject o) /\ alls b (JObject o).
Proof.
  intros Hm Hb E. rewrite <- (residual_valid root b o Hb). unfold alls, merged_allOf in *. rewrite E.
  destruct (residual_of (JObject b)) as [|r rs].
  { rewrite (d7_object D HD) by done. split; [intros H; split; [done|constructor]|by intros [H _]]. }
  set (R := JObject (r :: rs)).
  pose proof (sh_allOf m Hm) as Hs. destruct (mget (lit "allOf") m) as [a|].
  - specialize (Hs a eq_refl). destruct a as [| | | | | |l|]; try done. split.
    + intros H. specialize (H _ eq_refl). split; [intros ss [= <-] s Hin|]; apply H; apply elem_of_app; [by left|right; left].
    + intros [H1 H2] ss [= <-] s [Hin|Hin]%elem_of_app; [by eapply H1|]. apply list_elem_of_singleton in Hin as ->. done.
  - split.
    + intros H. split; [by intros|]. apply (H _ eq_refl). left.
    + intros [_ H2] ss [= <-] s Hin. apply list_elem_of_singleton in Hin as ->. done.
Qed.

Lemma apply_step m b : projecting m -> branch_ok m b ->
  exists m', apply_selected_response_branch json_equal (JObject m) (JObject b) (JObject D) = Ret (JObject m') /\
    projecting m' /\ (forall p, p ∈ property_names m -> p ∈ property_names m') /\
    (forall k, k ∉ [lit "properties"; lit "required"; lit "allOf"] -> mget k m' = mget k m) /\
    forall o, valid D (JObject m') (JObject o) <-> valid D (JObject m) (JObject o) /\ parts b o.
Proof.
  intros [Hsh H1 Hpl] Hb. destruct (apply_members m b Hsh) as (m' & E & Hsh' & Ep & Er & Ea & Ho).
  destruct (merged_props m b m' Hpl (br_plain m b Hb) Ep) as (Hpl' & Hn & Hprops).
  exists m'. split; [done|]. split_and!.
  - split; [done| |done]. rewrite Ho by key_dec. done.
  - intros p Hp. apply Hn. by right.
  - done.
  - intros o. rewrite !valid_parts by done. unfold parts. rewrite Hprops, (merged_reqs m b m'), (merged_alls m m b m') by done.
    rewrite (other_agree m' m).
    + unfold ones. rewrite Ho, H1 by key_dec.
      assert (forall P : Prop, (forall ss, None = Some (JArray ss) -> P) <-> True) as Ht by (intros P; split; [done|by intros _ ?]).
      split; [intros (?&[? ?]&[? ?]&(?&?&?)&?)|intros ((?&?&?&?&?)&(?&?&?&?))]; split_and!; try done; by intros.
    + intros k Hk. apply Ho. key_cases.
    + rewrite Ho by key_dec. intros Hadd p. rewrite Hn. split; [|tauto]. intros [Hp|Hp]; [|done]. by apply (br_names m b Hb).
Qed.

(** ** Selecting a branch *)

Context (dump : json -> bytes).

(** A schema read keyword by keyword. *)
Definition readable (s : json) : Prop :=
  forall m, s = JObject m -> msorted m = true /\ mget (lit "$ref") m = None.

Lemma discriminator_excludes s x : readable s -> is_word x = true ->
  discriminator_allows_value dump s x = false -> ~ valid D s x.
Proof.
  unfold discriminator_allows_value. intros Hr Hx Hd Hv. destruct s as [| | | | | | |m]; try done. cbn [is_object negb] in Hd.
  destruct (Hr m eq_refl) as [Hs Href]. rewrite valid_keywords in Hv by done.
  apply andb_false_iff in Hd as [Hd|Hd]; unfold jget in Hd; cbn [members] in Hd.
  - destruct (mget (lit "const") m) as [c|] eqn:Ec; [|done]. apply eqs_false in Hd. apply Hd.
    f_equal. by apply (d7_const D HD m c x Hx), Hv.
  - destruct (mget (lit "enum") m) as [[| | | | | |cs|]|] eqn:Ec; try done.
    apply Hv, (d7_enum D HD m cs x Hx) in Ec. assert (existsb (fun c => eqs (dump c) (dump x)) cs = true); [|congruence].
    apply List.existsb_exists. exists x. split; [by apply list_elem_of_In|apply eqs_refl].
Qed.

Lemma property_valid k s m o x : msorted m = true -> mget (lit "$ref") m = None ->
  property_schema k (JObject m) = Some s -> mget k o = Some x -> valid D (JObject m) (JObject o) -> valid D s x.
Proof.
  unfold property_schema, jget. cbn [members]. intros Hs Hr Hp Hx Hv.
  destruct (mget (lit "properties") m) as [[| | | | | | |ps]|] eqn:Ep; try done.
  rewrite valid_keywords in Hv by done. apply Hv in Ep. rewrite (d7_properties D HD) in Ep. by eapply Ep.
Qed.

Lemma top_excludes b o ok : readable b -> is_object b = true ->
  (forall s, property_schema (lit "ok") b = Some s -> readable s) -> mget (lit "ok") o = Some (JBool ok) ->
  top_response_branch_possible dump b (JObject o) = false -> ~ valid D b (JObject o).
Proof.
  intros Hr Hb Hs Hok Hp Hv. destruct b as [| | | | | | |m]; try done. destruct (Hr m eq_refl) as [H1 H2].
  unfold top_response_branch_possible in Hp. destruct (property_schema (lit "ok") (JObject m)) as [s|] eqn:Es; [|done].
  unfold jat, jget in Hp. cbn [members] in Hp. rewrite Hok in Hp. cbn [default] in Hp.
  by apply (discriminator_excludes s (JBool ok) (Hs s eq_refl) eq_refl Hp), (property_valid _ _ m o _ H1 H2 Es Hok).
Qed.

(** The discriminating fields of a variant can be read off its summary schema. *)
Definition summary_readable (v : json) : Prop :=
  forall s S, property_schema (lit "summary") v = Some s -> resolve_local_schema s (JObject D) = Some S ->
  readable S /\ (forall f s', property_schema f S = Some s' -> readable s').

Lemma summary_excludes v o summary : readable v -> is_object v = true -> summary_readable v ->
  mget (lit "summary") o = Some (JObject summary) ->
  (forall f x, f ∈ [lit "query_mode"; lit "found"] -> mget f summary = Some x -> is_word x = true) ->
  summary_variant_possible dump v (JObject D) (JObject summary) = false -> ~ valid D v (JObject o).
Proof.
  intros Hr Hv Hs Ho Hw Hp Hval. destruct v as [| | | | | | |m]; try done. destruct (Hr m eq_refl) as [H1 H2].
  unfold summary_variant_possible in Hp. destruct (property_schema (lit "summary") (JObject m)) as [s|] eqn:Es; [|done].
  destruct (resolve_local_schema s (JObject D)) as [S|] eqn:ER; [|done]. destruct (Hs s S Es ER) as [HS1 HS2].
  assert (valid D S (JObject summary)) as HvS.
  { apply (resolve_valid _ _ _ ER). by apply (property_valid _ _ m o _ H1 H2 Es Ho). }
  assert (forall f, f ∈ [lit "query_mode"; lit "found"] -> summary_field_possible dump S (JObject summary) f = true) as Hf.
  { intros f Hf. unfold summary_field_possible. destruct (property_schema f S) as [s'|] eqn:Es'; [|done].
    unfold jget. cbn [members]. destruct (mget f summary) as [x|] eqn:Ex; [|done].
    destruct (discriminator_allows_value dump s' x) eqn:Ed; [done|]. exfalso.
    assert (exists Sm, S = JObject Sm) as [Sm ->].
    { unfold property_schema, jget in Es'. destruct S; try done. eauto. }
    destruct (HS1 Sm eq_refl) as [HS3 HS4].
    by apply (discriminator_excludes s' x (HS2 f s' Es') (Hw f x Hf Ex) Ed), (property_valid f s' Sm summary x HS3 HS4 Es' Ex). }
  rewrite (Hf (lit "query_mode")), (Hf (lit "found")) in Hp by key_dec. done.
Qed.

Lemma candidates_elem possible bs : forall i t,
  t ∈ candidates possible bs i <-> exists j b, t = (i + j)%nat /\ bs !! j = Some b /\ possible b = true.
Proof.
  induction bs as [|b bs IH]; intros i t; cbn [candidates].
  - split; [by intros ?%elem_of_nil|]. intros (j & b & _ & Hj & _). by rewrite lookup_nil in Hj.
  - assert (t ∈ candidates possible bs (S i) <->
      exists j b', t = (i + S j)%nat /\ bs !! j = Some b' /\ possible b' = true) as Hs.
    { rewrite IH. split; intros (j & b' & -> & H); exists j, b'; (split; [lia|done]). }
    split.
    + intros Ht. assert (possible b = true /\ t = i \/ t ∈ candidates possible bs (S i)) as [[Hb ->]|Ht'].
      { destruct (possible b); [apply elem_of_cons in Ht as [->|?]|]; auto. }
      * exists 0%nat, b. split; [lia|done].
      * apply Hs in Ht' as (j & b' & -> & H). by exists (S j), b'.
    + intros ([|j] & b' & -> & Hj & Hb').
      * injection Hj as ->. rewrite Hb', Nat.add_0_r. left.
      * assert ((i + S j)%nat ∈ candidates possible bs (S i)) as Hin by (apply Hs; eauto).
        destruct (possible b); [by right|done].
Qed.

Lemma candidates_unique possible bs t : candidates possible bs 0 = [t] ->
  exists b, bs !! t = Some b /\ nth t bs JNull = b /\
    forall j b', bs !! j = Some b' -> possible b' = true -> j = t.
Proof.
  intros E. assert (t ∈ candidates possible bs 0) as Hin by (rewrite E; left).
  apply candidates_elem in Hin as (j & b & -> & Hj & Hb). exists b. split_and!; [done| |].
  - by apply nth_lookup_Some.
  - intros j' b' Hj' Hb'. assert ((0 + j')%nat ∈ candidates possible bs 0) as Hin by (apply candidates_elem; eauto).
    rewrite E in Hin. by apply list_elem_of_singleton in Hin.
Qed.

(** With one possible branch, exactly-one means that branch. *)
Lemma ones_unique m v branches t b possible :
  mget (lit "oneOf") m = Some (JArray branches) -> branches !! t = Some b ->
  (forall j b', branches !! j = Some b' -> possible b' = true -> j = t) ->
  (forall b', b' ∈ branches -> possible b' = false -> ~ valid D b' v) ->
  ones m v <-> valid D b v.
Proof.
  intros Hm Ht Hu Hx. assert (forall j b', branches !! j = Some b' -> valid D b' v -> j = t) as Hj.
  { intros j b' Hj Hv. destruct (possible b') eqn:Ep; [by eapply Hu|]. exfalso. eapply Hx; [by eapply list_elem_of_lookup_2|done..]. }
  unfold ones. rewrite Hm. split.
  - intros H. destruct (H _ eq_refl) as (i & s & Hi & Hv & _). rewrite (Hj i s Hi Hv) in Hi. congruence.
  - intros Hv ss [= <-]. exists t, b. split_and!; [done..|]. exact Hj.
Qed.

(** ** The schemas the projection is meant for *)

Record variant_ok (m v : obj) : Prop := {
  va_branch : branch_ok m v;
  va_oneOf : mget (lit "oneOf") v = None;
  va_summary : summary_readable (JObject v);
}.

Record top_ok (m b : obj) : Prop := {
  to_branch : branch_ok m b;
  to_ok : forall s, property_schema (lit "ok") (JObject b) = Some s -> readable s;
  to_variants : forall vs, mget (lit "oneOf") b = Some (JArray vs) ->
    forall v, v ∈ vs -> exists vm, v = JObject vm /\ variant_ok m vm;
}.

Record projectable (m : obj) : Prop := {
  pr_shaped : shaped m;
  pr_plain : plain_properties m;
  pr_defs : mget (lit "$defs") m = Some (JObject D);
  pr_branches : forall bs, mget (lit "oneOf") m = Some (JArray bs) ->
    forall b, b ∈ bs -> exists bm, b = JObject bm /\ top_ok m bm;
}.

(** The summary fields that discriminate are booleans or strings. *)
Definition words_ok (o : obj) : Prop :=
  forall summary f x, mget (lit "summary") o = Some (JObject summary) ->
    f ∈ [lit "query_mode"; lit "found"] -> mget f summary = Some x -> is_word x = true.

Lemma branch_readable m b : branch_ok m b -> readable (JObject b).
Proof. intros [[] _ _ _] m' [= <-]. done. Qed.

Definition stripped (m : obj) : obj := mdel (lit "oneOf") (mdel (lit "$defs") m).

Lemma stripped_get m k : msorted m = true ->
  mget k (stripped m) = if bool_decide (k ∈ [lit "oneOf"; lit "$defs"]) then None else mget k m.
Proof.
  intros Hs. unfold stripped.
  assert (forall k' (m : obj), msorted m = true -> mget k (mdel k' m) = if bool_decide (k = k') then None else mget k m) as Hd.
  { intros k' m' Hm. case_bool_decide as E; [subst; by apply mget_mdel_eq|]. apply mget_mdel_ne. congruence. }
  rewrite !Hd by (repeat apply mdel_sorted; done). repeat case_bool_decide; try done; key_cases.
Qed.

Lemma stripped_projecting m : shaped m -> plain_properties m ->
  projecting (stripped m) /\ property_names (stripped m) = property_names m /\
  (forall k, k ∉ [lit "oneOf"; lit "$defs"] -> mget k (stripped m) = mget k m) /\
  forall o, valid D (JObject m) (JObject o) <-> valid D (JObject (stripped m)) (JObject o) /\ ones m (JObject o).
Proof.
  intros Hm Hp. pose proof (sh_sorted m Hm) as Hs.
  assert (forall k, k ∉ [lit "oneOf"; lit "$defs"] -> mget k (stripped m) = mget k m) as Hg.
  { intros k Hk. rewrite stripped_get by done. by rewrite bool_decide_false. }
  assert (forall k, k ∈ [lit "oneOf"; lit "$defs"] -> mget k (stripped m) = None) as Hn.
  { intros k Hk. rewrite stripped_get by done. by rewrite bool_decide_true. }
  assert (shaped (stripped m)) as Hsh.
  { destruct Hm. split; [unfold stripped; by repeat apply mdel_sorted| | | | |]; rewrite ?Hg by key_dec; try done.
    rewrite Hn by key_dec. done. }
  assert (property_names (stripped m) = property_names m) as Hnames by (unfold property_names; by rewrite Hg by key_dec).
  split_and!; [split; [done|apply Hn; key_dec|unfold plain_properties; by rewrite Hg by key_dec]|done|done|].
  intros o. rewrite !valid_parts by done. unfold props, reqs, alls.
  rewrite (Hg (lit "properties")), (Hg (lit "required")), (Hg (lit "allOf")) by key_dec.
  rewrite (other_agree (stripped m) m).
  - unfold ones at 2. rewrite (Hn (lit "oneOf")) by key_dec. split; [|tauto].
    intros (H1 & H2 & H3 & H4 & H5). split_and!; (done || by intros).
  - intros k Hk. apply Hg. key_cases.
  - intros _ p. by rewrite Hnames.
Qed.

Lemma branch_ok_names m m' b : branch_ok m b ->
  mget (lit "additionalProperties") m' = mget (lit "additionalProperties") m ->
  (forall p, p ∈ property_names m -> p ∈ property_names m') -> branch_ok m' b.
Proof.
  intros [H1 H2 H3 H4] E Hn. split; [done..|]. rewrite E. intros Ha p Hp. auto.
Qed.

Lemma branch_parts m b o : branch_ok m b ->
  valid D (JObject b) (JObject o) <-> parts b o /\ ones b (JObject o).
Proof. intros [Hs _ _ _]. rewrite valid_parts by done. unfold parts. tauto. Qed.

(** The projection for the selected variant accepts what the schema accepts. *)
Lemma projection_verdict m o top nested : projectable m -> words_ok o ->
  select_unique_response_branch dump (JObject m) (JObject o) = Some (top, nested) ->
  exists p, project_variant json_equal (JObject m) top nested = Ret (JObject p) /\ projecting p /\
    (forall k, k ∈ [lit "$defs"; lit "oneOf"] -> mget k p = None) /\
    (valid D (JObject p) (JObject o) <-> valid D (JObject m) (JObject o)).
Proof.
  intros [Hsh Hpl Hdefs Hbr] Hw. unfold select_unique_response_branch, jget. cbn [members]. rewrite Hdefs.
  destruct (mget (lit "ok") o) as [[|ok| | | | | |]|] eqn:Eok; try done.
  destruct (mget (lit "oneOf") m) as [[| | | | | |bs|]|] eqn:E1; try done.
  destruct (candidates _ bs 0) as [|t [|]] eqn:Ec; try done.
  destruct (candidates_unique _ _ _ Ec) as (b & Hb & Hnth & Hu). rewrite Hnth.
  destruct (Hbr bs eq_refl b) as (bm & -> & Hto); [by eapply list_elem_of_lookup_2|]. cbn [members].
  destruct (stripped_projecting m Hsh Hpl) as (Hp0 & Hn0 & Hg0 & Hv0).
  assert (ones m (JObject o) <-> valid D (JObject bm) (JObject o)) as Hones.
  { apply (ones_unique m _ bs t _ (fun b => top_response_branch_possible dump b (JObject o))); [done..|].
    intros b' Hin Hpo. destruct (Hbr bs eq_refl b' Hin) as (bm' & -> & [Hb1 Hb2 _]).
    eapply top_excludes; [by eapply branch_readable|done|done|done|done]. }
  destruct (apply_step (stripped m) bm Hp0) as (p1 & E & Hp1 & Hn1 & Hg1 & Hv1).
  { apply (branch_ok_names m); [apply Hto|by rewrite Hg0 by key_dec|by rewrite Hn0]. }
  assert (forall k, k ∈ [lit "$defs"; lit "oneOf"] -> mget k p1 = None) as Hno1.
  { intros k Hk. rewrite Hg1 by (rewrite !elem_of_cons, elem_of_nil in Hk; destruct Hk as [->|[->|[]]]; key_dec).
    rewrite stripped_get by apply Hsh. rewrite bool_decide_true; [done|key_cases]. }
  assert (forall n, project_variant json_equal (JObject m) t n =
    match n with
    | None => Ret (JObject p1)
    | Some n => apply_selected_response_branch json_equal (JObject p1)
        (match jat (lit "oneOf") (JObject bm) with JArray l => nth n l JNull | _ => JNull end) (JObject D)
    end) as Hpv.
  { intros n. unfold project_variant, jat, jget. cbn [members]. rewrite Hdefs, E1. cbn [default]. unfold id. cbv beta zeta iota.
    rewrite Hnth. fold (stripped m). rewrite E. done. }
  destruct (mget (lit "oneOf") bm) as [[| | | | | |vs|]|] eqn:E2; try done.
  2: { intros [= <- <-]. exists p1. split_and!; [apply Hpv|done..|]. rewrite Hv1, Hv0, Hones, (branch_parts m bm o (to_branch m bm Hto)).
       assert (ones bm (JObject o)) as Hob by (unfold ones; rewrite E2; by intros). tauto. }
  destruct (mget (lit "summary") o) as [[| | | | | | |summary]|] eqn:Esum; try done.
  destruct (candidates _ vs 0) as [|n [|]] eqn:Ec2; try done. intros [= <- <-].
  destruct (candidates_unique _ _ _ Ec2) as (v & Hv & Hnth2 & Hu2).   destruct (to_variants m bm Hto vs E2 v) as (vm & -> & Hva); [by eapply list_elem_of_lookup_2|].
  assert (ones bm (JObject o) <-> valid D (JObject vm) (JObject o)) as Hones2.
  { apply (ones_unique bm _ vs n _ (fun v => summary_variant_possible dump v (JObject D) (JObject summary))); [done..|].
    intros v' Hin Hpo. destruct (to_variants m bm Hto vs E2 v' Hin) as (vm' & -> & [Hb1 _ Hb2]).
    eapply summary_excludes; [by eapply branch_readable|done|done|done| |done]. intros f x Hf Hx. by eapply Hw. }
  destruct (apply_step p1 vm Hp1) as (p2 & E' & Hp2 & _ & Hg2 & Hv2).
  { apply (branch_ok_names m); [apply Hva| |intros p Hp; apply Hn1; by rewrite Hn0].
    rewrite Hg1, Hg0 by key_dec. done. }
  exists p2. split_and!; [|done| |].
  - rewrite Hpv. unfold jat, jget. cbn [members]. rewrite E2. cbn [default]. unfold id. by rewrite Hnth2.
  - intros k Hk. rewrite Hg2 by (rewrite !elem_of_cons, elem_of_nil in Hk; destruct Hk as [->|[->|[]]]; key_dec).
    by apply Hno1.
  - rewrite Hv2, Hv1, Hv0, Hones, (branch_parts m bm o (to_branch m bm Hto)), Hones2,
      (branch_parts m vm o (va_branch m vm Hva)).
    assert (ones vm (JObject o)) as Hov by (unfold ones; rewrite (va_oneOf m vm Hva); by intros). tauto.
Qed.

(** Definitions added next to the other keywords change nothing. *)
Lemma add_defs_verdict p selected o : shaped p -> mget (lit "$defs") p = None ->
  valid D (JObject (mset (lit "$defs") (JObject selected) p)) (JObject o) <-> valid D (JObject p) (JObject o).
Proof.
  intros Hs Hd. set (p' := mset _ _ p).
  assert (forall k, k <> lit "$defs" -> mget k p' = mget k p) as Hg by (intros k Hk; by apply mget_mset_ne).
  assert (shaped p') as Hs'.
  { apply shaped_set; [done..|]. intros Hk. exfalso. revert Hk. key_dec. }
  rewrite !valid_parts by done. unfold props, reqs, alls, ones. rewrite !Hg by done.
  rewrite (other_agree p' p); [done| |].
  - intros k Hk. apply Hg. key_cases.
  - intros _ x. unfold property_names. by rewrite Hg.
Qed.
End Laws.

(** References mean the definitions reachable through them, whatever else is
    defined. *)
Definition refs_local (valid : defs -> json -> json -> Prop) (D D' : defs) : Prop :=
  forall s v, (forall n, reachable D s n -> mget n D = mget n D') -> valid D s v <-> valid D' s v.

(** C18: the projection is equivalent to the complete schema. For a validator
    that follows the draft-07 meaning of the keywords involved, a response
    schema of the generated kind and a response whose discriminators select
    one variant, the projection for that variant exists, and once its
    definitions are attached it accepts the response exactly when the complete
    schema does. *)
Theorem projection_equivalent (json_equal : json -> json -> bool)
    (valid : defs -> json -> json -> Prop) (keyword : defs -> obj -> bytes -> json -> json -> Prop)
    (dump : json -> bytes) (m o : obj) (D : defs) (top : nat) (nested : option nat) :
  (forall a s, json_equal a (JString s) = true -> a = JString s) ->
  draft07 json_equal valid keyword D ->
  projectable D m -> words_ok o ->
  select_unique_response_branch dump (JObject m) (JObject o) = Some (top, nested) ->
  exists p, project_variant json_equal (JObject m) top nested = Ret p /\
    forall attached, attach_definition_closure p (JObject D) = Some (inr attached) ->
    let D' := members (jat (lit "$defs") attached) in
    draft07 json_equal valid keyword D' -> refs_local valid D D' ->
    valid D' attached (JObject o) <-> valid D (JObject m) (JObject o).
Proof.
  intros Heq HD Hm Hw Hsel.
  destruct (projection_verdict json_equal valid keyword Heq D HD dump m o top nested Hm Hw Hsel)
    as (p & Hp & Hpr & Hno & Hv).
  exists (JObject p). split; [done|]. intros attached Hat D' HD' Hloc. rewrite <- Hv.
  destruct (closure_loop_spec D (JObject p) (closure_fuel (collect_local_definition_refs (JObject p) []) D)
    (collect_local_definition_refs (JObject p) []) []) as (r & Hr & Hspec).
  { rewrite unseen_initial. unfold closure_fuel. lia. }
  { apply closing_initial. }
  unfold attach_definition_closure in Hat. cbn [members] in Hat. rewrite Hr in Hat.
  destruct r as [name|selected]; [done|]. injection Hat as <-.
  assert (D' = selected) as E.
  { unfold D', jat, jget. cbn [members]. by rewrite mget_mset_eq. }
  clearbody D'. subst D'. destruct Hspec as [H1 H2].
  rewrite (add_defs_verdict json_equal valid keyword selected HD' p selected o) by
    (first [exact (pj_shaped D p Hpr)|apply Hno; key_dec]).
  symmetry. apply Hloc. intros n Hn. destruct (H1 n Hn) as [d Hd]. destruct (H2 n d Hd) as [_ E]. congruence.
Qed.

(** ** A small validator

    The keywords above, without definitions: a reference is never satisfied. *)

Definition word_eqb (a b : json) : bool :=
  match a, b with
  | JBool x, JBool y => Bool.eqb x y
  | JString x, JString y => eqs x y
  | _, _ => false
  end.

Definition count_true (l : list bool) : nat := length (List.filter id l).

Fixpoint mini (s v : json) : bool :=
  match s with
  | JBool b => b
  | JObject m =>
      match mget (lit "$ref") m with
      | Some _ => false
      | None =>
          forallb (fun kv : bytes * json =>
            let '(k, value) := kv in
            match value with
            | JObject ps =>
                if eqs k (lit "properties") then
                  match v with
                  | JObject o =>
                      (fix go (seen : list bytes) (ps : obj) : bool :=
                         match ps with
                         | [] => true
                         | (p, sub) :: ps' =>
                             (if existsb (eqs p) seen then true
                              else match mget p o with Some x => mini sub x | None => true end)
                             && go (p :: seen) ps'
                         end) [] ps
                  | _ => true
                  end
                else negb (eqs k (lit "const") && is_word v)
            | JArray l =>
                if eqs k (lit "allOf") then forallb (fun sub => mini sub v) l
                else if eqs k (lit "anyOf") then existsb (fun sub => mini sub v) l
                else if eqs k (lit "oneOf") then (count_true (map (fun sub => mini sub v) l) =? 1)%nat
                else if eqs k (lit "required") then
                  match v with
                  | JObject o => forallb (fun f => match f with JString n => bool_decide (is_Some (mget n o)) | _ => true end) l
                  | _ => true
                  end
                else if eqs k (lit "enum") && is_word v then existsb (fun c => word_eqb c v) l
                else negb (eqs k (lit "const") && is_word v)
            | c =>
                if eqs k (lit "const") && is_word v then word_eqb c v
                else if eqs k (lit "additionalProperties") && word_eqb c (JBool false) then
                  match v with
                  | JObject o => forallb (fun kx => existsb (eqs (fst kx)) (property_names m)) o
                  | _ => true
                  end
                else true
            end) m
      end
  | _ => true
  end.

(** What one keyword asserts. *)
Definition mini_keyword (m : obj) (k : bytes) (value v : json) : bool :=
  match value with
  | JObject ps =>
      if eqs k (lit "properties") then
        match v with
        | JObject o =>
            (fix go (seen : list bytes) (ps : obj) : bool :=
               match ps with
               | [] => true
               | (p, sub) :: ps' =>
                   (if existsb (eqs p) seen then true
                    else match mget p o with Some x => mini sub x | None => true end)
                   && go (p :: seen) ps'
               end) [] ps
        | _ => true
        end
      else negb (eqs k (lit "const") && is_word v)
  | JArray l =>
      if eqs k (lit "allOf") then forallb (fun sub => mini sub v) l
      else if eqs k (lit "anyOf") then existsb (fun sub => mini sub v) l
      else if eqs k (lit "oneOf") then (count_true (map (fun sub => mini sub v) l) =? 1)%nat
      else if eqs k (lit "required") then
        match v with
        | JObject o => forallb (fun f => match f with JString n => bool_decide (is_Some (mget n o)) | _ => true end) l
        | _ => true
        end
      else if eqs k (lit "enum") && is_word v then existsb (fun c => word_eqb c v) l
      else negb (eqs k (lit "const") && is_word v)
  | c =>
      if eqs k (lit "const") && is_word v then word_eqb c v
      else if eqs k (lit "additionalProperties") && word_eqb c (JBool false) then
        match v with
        | JObject o => forallb (fun kx => existsb (eqs (fst kx)) (property_names m)) o
        | _ => true
        end
      else true
  end.

Lemma count_true_one l : (count_true l =? 1)%nat = true <->
  exists i, l !! i = Some true /\ forall j, l !! j = Some true -> j = i.
Proof.
  rewrite Nat.eqb_eq. unfold count_true. induction l as [|[] l IH]; cbn [List.filter id].
  - split; [done|]. intros (i & Hi & _). by rewrite lookup_nil in Hi.
  - cbn [length]. split.
    + intros [= E]. exists 0%nat. split; [done|]. intros [|j] Hj; [done|]. exfalso.
      apply nil_length_inv in E. assert (In true (List.filter id l)) as Hin; [|by rewrite E in Hin].
      apply List.filter_In. split; [|done]. apply list_elem_of_In. by eapply list_elem_of_lookup_2.
    + intros (i & Hi & Hu). assert (i = 0%nat) as -> by (symmetry; by apply Hu). f_equal.
      destruct (List.filter id l) as [|b f] eqn:E; [done|]. exfalso.
      assert (In b (List.filter id l)) as Hin by (rewrite E; by left). apply List.filter_In in Hin as [Hin Hb].
      destruct b; [|done]. apply list_elem_of_In, list_elem_of_lookup in Hin as [j Hj]. by specialize (Hu (S j) Hj).
  - rewrite IH. split; intros (i & Hi & Hu).
    + exists (S i). split; [done|]. intros [|j] Hj; [done|]. f_equal. by apply Hu.
    + destruct i as [|i]; [done|]. exists i. split; [done|]. intros j Hj. by specialize (Hu (S j) Hj) as [= ->].
Qed.

Lemma mini_properties_spec o ps : forall seen,
  (fix go (seen : list bytes) (ps : obj) : bool :=
     match ps with
     | [] => true
     | (p, sub) :: ps' =>
         (if existsb (eqs p) seen then true
          else match mget p o with Some x => mini sub x | None => true end)
         && go (p :: seen) ps'
     end) seen ps = true <->
  forall k s x, k ∉ seen -> mget k ps = Some s -> mget k o = Some x -> mini s x = true.
Proof.
  induction ps as [|[p sub] ps IH]; intros seen; [done|]. rewrite andb_true_iff, IH. split.
  - intros [H1 H2] k s x Hk Hs Hx. cbn [mget] in Hs. destruct (eqs k p) eqn:E.
    + apply eqs_true in E as ->. injection Hs as <-. rewrite Hx in H1.
      destruct (existsb (eqs p) seen) eqn:Es; [|done]. exfalso. apply Hk.
      apply List.existsb_exists in Es as (q & Hq & ->%eqs_true). by apply list_elem_of_In.
    + apply eqs_false in E. apply (H2 k); [|done..]. rewrite elem_of_cons. tauto.
  - intros H. split.
    + destruct (existsb (eqs p) seen) eqn:Es; [done|]. destruct (mget p o) as [x|] eqn:Ex; [|done].
      apply (H p); [|cbn [mget]; by rewrite eqs_refl|done]. intros Hin.
      assert (existsb (eqs p) seen = true); [|congruence]. apply List.existsb_exists. exists p.
      split; [by apply list_elem_of_In|apply eqs_refl].
    + intros k s x Hk Hs Hx. apply not_elem_of_cons in Hk as [Hne Hk]. apply (H k); [done| |done].
      cbn [mget]. by rewrite (proj2 (eqs_false k p)).
Qed.

Definition mini_valid (_ : defs) (s v : json) : Prop := mini s v = true.
Definition mini_kw (_ : defs) (m : obj) (k : bytes) (s v : json) : Prop := mini_keyword m k s v = true.

(** Evaluates the comparisons of literal keywords. *)
Ltac mini_eval :=
  unfold mini_keyword;
  repeat match goal with
  | |- context [eqs (String.list_ascii_of_string ?a) (String.list_ascii_of_string ?b)] =>
      let r := eval vm_compute in (eqs (String.list_ascii_of_string a) (String.list_ascii_of_string b)) in
      change (eqs (String.list_ascii_of_string a) (String.list_ascii_of_string b)) with r
  end; cbv iota; cbn [andb negb].

Lemma word_eqb_eq a b : word_eqb a b = true -> a = b.
Proof.
  destruct a, b; try done; cbn.
  - intros ->%Bool.eqb_prop. done.
  - intros ->%eqs_true. done.
Qed.

Lemma mini_draft07 : draft07 word_eqb mini_valid mini_kw [].
Proof.
  split; unfold mini_valid, mini_kw.
  - intros m v Hr. cbn [mini]. rewrite Hr, List.forallb_forall, list.Forall_forall.
    split; intros H [k s] Hin; apply list_elem_of_In, H in Hin; exact Hin.
  - intros m ps o. mini_eval. rewrite mini_properties_spec. split; intros H k s x; [|intros _]; apply H. by intros ?%elem_of_nil.
  - intros m fs o. mini_eval. rewrite List.forallb_forall. split.
    + intros H f Hf%list_elem_of_In%H. by apply bool_decide_eq_true in Hf.
    + intros H [] Hf; try done. apply bool_decide_eq_true, H. by apply list_elem_of_In.
  - intros m ss v. mini_eval. rewrite List.forallb_forall. setoid_rewrite list_elem_of_In. done.
  - intros m ss v. mini_eval. rewrite List.existsb_exists. setoid_rewrite list_elem_of_In. done.
  - intros m ss v. mini_eval. rewrite count_true_one.
    change (map (fun sub => mini sub v) ss) with ((fun sub => mini sub v) <$> ss). split.
    + intros (i & Hi & Hu). apply list_lookup_fmap_Some in Hi as (s & E & Hs). exists i, s. split_and!; [done|done|].
      intros j s' Hj Hv. apply Hu. apply list_lookup_fmap_Some. exists s'. auto.
    + intros (i & s & Hi & Hv & Hu). exists i. split; [apply list_lookup_fmap_Some; exists s; auto|].
      intros j (s' & E & Hs')%list_lookup_fmap_Some. by eapply Hu.
  - intros m c x Hx. mini_eval. rewrite Hx. destruct c; try done; apply word_eqb_eq.
  - intros m cs x Hx. mini_eval. rewrite Hx. intros (c & Hc & ->%word_eqb_eq)%List.existsb_exists. by apply list_elem_of_In.
  - intros m s v. mini_eval. by destruct s.
  - intros m m' k s v Hk Hg Hn. unfold mini_keyword.
    assert (property_names m = property_names m' \/ eqs k (lit "additionalProperties") = false \/
      forall o : obj, forallb (fun kx => existsb (eqs (fst kx)) (property_names m)) o =
        forallb (fun kx => existsb (eqs (fst kx)) (property_names m')) o) as Hp.
    { destruct (eqs k (lit "additionalProperties")) eqn:E; [|auto]. right. right. intros o.
      apply forallb_ext. intros kx. apply Bool.eq_iff_eq_true. rewrite !List.existsb_exists.
      setoid_rewrite <- list_elem_of_In. setoid_rewrite (Hn (proj1 (eqs_true _ _) E)). done. }
    destruct Hp as [->|[->|Hp]]; [done|cbn [andb]; by destruct s|]. destruct s; try done; by destruct v; rewrite ?Hp.
  - done.
  - intros a b v ->%word_eqb_eq. done.
Qed.

(** ** Checking a schema *)

Definition absent (k : bytes) (m : obj) : bool := match mget k m with None => true | Some _ => false end.
Definition if_present (k : bytes) (test : json -> bool) (m : obj) : bool :=
  match mget k m with Some s => test s | None => true end.
Definition properties_of (s : json) : obj :=
  match jget (lit "properties") s with Some (JObject ps) => ps | _ => [] end.

Definition shaped_b (m : obj) : bool :=
  msorted m && absent (lit "$ref") m && if_present (lit "properties") is_object m
  && if_present (lit "required") is_array m && if_present (lit "allOf") is_array m
  && if_present (lit "oneOf") is_array m.

Definition readable_b (s : json) : bool :=
  match s with JObject m => msorted m && absent (lit "$ref") m | _ => true end.

Section Check.
Context (D : defs).

Definition plain_b (m : obj) : bool :=
  let ps := properties_of (JObject m) in
  msorted ps && forallb (fun kv => plain_alternatives D 33 (snd kv)) ps.
Definition branch_b (root b : obj) : bool :=
  shaped_b b && absent (lit "additionalProperties") b && plain_b b
  && (absent (lit "additionalProperties") root
      || forallb (fun p => existsb (eqs p) (property_names root)) (property_names b)).
Definition summary_b (v : json) : bool :=
  match property_schema (lit "summary") v with
  | Some s =>
      match resolve_local_schema s (JObject D) with
      | Some r => readable_b r && forallb (fun kv => readable_b (snd kv)) (properties_of r)
      | None => true
      end
  | None => true
  end.
Definition variant_b (m : obj) (v : json) : bool :=
  match v with
  | JObject vm => branch_b m vm && absent (lit "oneOf") vm && summary_b v
  | _ => false
  end.
Definition items_of (k : bytes) (m : obj) : list json := match mget k m with Some (JArray l) => l | _ => [] end.
Definition top_b (m : obj) (b : json) : bool :=
  match b with
  | JObject bm =>
      branch_b m bm && (match property_schema (lit "ok") b with Some s => readable_b s | None => true end)
      && forallb (variant_b m) (items_of (lit "oneOf") bm)
  | _ => false
  end.
Definition projectable_b (m : obj) : bool :=
  shaped_b m && plain_b m && forallb (top_b m) (items_of (lit "oneOf") m).

Lemma absent_spec k m : absent k m = true <-> mget k m = None.
Proof. unfold absent. by destruct (mget k m). Qed.

Lemma shaped_b_sound m : shaped_b m = true -> shaped m.
Proof.
  unfold shaped_b, if_present. intros H. repeat (apply andb_true_iff in H as [H ?]).
  split; [done|by apply absent_spec|..]; intros s Hs; by rewrite Hs in *.
Qed.

Lemma readable_b_sound s : readable_b s = true -> readable s.
Proof. intros H m ->. cbn in H. apply andb_true_iff in H as [H1 H2%absent_spec]. done. Qed.

Lemma plain_b_sound m : plain_b m = true -> plain_properties D m.
Proof.
  unfold plain_b, properties_of, jget. cbn [members]. intros H ps Hp. rewrite Hp in H.
  apply andb_true_iff in H as [H1 H2]. split; [done|]. intros k s Hk%mget_elem.
  rewrite List.forallb_forall in H2. apply (H2 (k, s)). by apply list_elem_of_In.
Qed.

Lemma branch_b_sound root b : branch_b root b = true -> branch_ok D root b.
Proof.
  unfold branch_b. intros [[[H1 H2]%andb_true_iff H3]%andb_true_iff H0]%andb_true_iff.
  split; [by apply shaped_b_sound|by apply absent_spec|by apply plain_b_sound|].
  intros [s Hs] p Hp. unfold absent in *. rewrite Hs in *. cbn [orb] in *.
  rewrite List.forallb_forall in H0. apply list_elem_of_In, H0, List.existsb_exists in Hp as (q & Hq & ->%eqs_true).
  by apply list_elem_of_In.
Qed.

Lemma summary_b_sound v : summary_b v = true -> summary_readable D v.
Proof.
  unfold summary_b. intros H s S Hs HR. rewrite Hs, HR in H. apply andb_true_iff in H as [H1 H2].
  split; [by apply readable_b_sound|]. intros f s' Hf. apply readable_b_sound. rewrite List.forallb_forall in H2.
  unfold property_schema, properties_of in *. destruct (jget (lit "properties") S) as [[]|]; try done.
  apply mget_elem in Hf. apply (H2 (f, s')). by apply list_elem_of_In.
Qed.

Lemma variant_b_sound m v : variant_b m v = true -> exists vm, v = JObject vm /\ variant_ok D m vm.
Proof.
  destruct v as [| | | | | | |vm]; try done. cbn [variant_b]. intros [[H1 H2]%andb_true_iff H3]%andb_true_iff.
  exists vm. split; [done|]. split; [by apply branch_b_sound|by apply absent_spec|by apply summary_b_sound].
Qed.

Lemma top_b_sound m b : top_b m b = true -> exists bm, b = JObject bm /\ top_ok D m bm.
Proof.
  destruct b as [| | | | | | |bm]; try done. cbn [top_b]. intros [[H1 H2]%andb_true_iff H0]%andb_true_iff.
  exists bm. split; [done|]. split; [by apply branch_b_sound| |].
  - intros s Hs. rewrite Hs in *. by apply readable_b_sound.
  - intros vs Hvs v Hv. apply variant_b_sound. unfold items_of in *. rewrite Hvs in *. rewrite List.forallb_forall in H0.
    by apply H0, list_elem_of_In.
Qed.

Lemma projectable_b_sound m : projectable_b m = true -> mget (lit "$defs") m = Some (JObject D) -> projectable D m.
Proof.
  unfold projectable_b. intros [[H1 H2]%andb_true_iff H0]%andb_true_iff Hd.
  split; [by apply shaped_b_sound|by apply plain_b_sound|done|].
  intros bs Hbs b Hb. apply top_b_sound. unfold items_of in *. rewrite Hbs in *. rewrite List.forallb_forall in H0.
  by apply H0, list_elem_of_In.
Qed.
End Check.

(** A response schema of the generated kind, with two variants of success. *)
Definition demo_const (v : json) : json := JObject [(lit "const", v)].
Definition demo_variant (mode : bytes) (field : bytes) : json :=
  JObject [(lit "properties", JObject [(lit "summary",
              JObject [(lit "properties", JObject [(lit "query_mode", demo_const (JString mode))])])]);
           (lit "required", JArray [JString field])].
Definition demo_schema : obj :=
  [(lit "$defs", JObject []);
   (lit "additionalProperties", JBool false);
   (lit "oneOf", JArray
      [JObject [(lit "oneOf", JArray [demo_variant (lit "list") (lit "data"); demo_variant (lit "count") (lit "total")]);
                (lit "properties", JObject [(lit "ok", demo_const (JBool true))])];
       JObject [(lit "properties", JObject [(lit "ok", demo_const (JBool false))]);
                (lit "required", JArray [JString (lit "error")])]]);
   (lit "properties", JObject [(lit "data", JObject []); (lit "error", JObject []); (lit "ok", JObject []);
                               (lit "summary", JObject []); (lit "total", JObject [])]);
   (lit "required", JArray [JString (lit "ok")])].
Definition demo_response : obj :=
  [(lit "data", JNull); (lit "ok", JBool true); (lit "summary", JObject [(lit "query_mode", JString (lit "list"))])].

(** [dump] of the words that discriminate. *)
Definition demo_dump (j : json) : bytes :=
  match j with JString s => [chr 34] ++ s | JBool true => lit "true" | JBool false => lit "false" | _ => [] end.

Lemma projection_equivalent_witness :
  select_unique_response_branch demo_dump (JObject demo_schema) (JObject demo_response) = Some (0%nat, Some 0%nat) /\
  exists p attached, project_variant word_eqb (JObject demo_schema) 0 (Some 0%nat) = Ret p /\
    attach_definition_closure p (JObject []) = Some (inr attached) /\
    (mini_valid [] attached (JObject demo_response) <-> mini_valid [] (JObject demo_schema) (JObject demo_response)) /\
    mini_valid [] attached (JObject demo_response).
Proof.
  assert (select_unique_response_branch demo_dump (JObject demo_schema) (JObject demo_response) = Some (0%nat, Some 0%nat))
    as Hsel by (vm_compute; reflexivity).
  split; [exact Hsel|].
  assert (projectable [] demo_schema) as Hp by (apply projectable_b_sound; vm_compute; reflexivity).
  assert (words_ok demo_response) as Hw.
  { intros summary f x Hs Hf Hx. vm_compute in Hs. injection Hs as <-. cbn [mget] in Hx.
    match type of Hx with (if ?c then _ else _) = _ => destruct c end; [injection Hx as <-; reflexivity|discriminate]. }
  destruct (projection_equivalent word_eqb mini_valid mini_kw demo_dump demo_schema demo_response [] 0%nat (Some 0%nat)
    (fun a s => word_eqb_eq a (JString s)) mini_draft07 Hp Hw Hsel) as (p & Ep & Heq).
  exists p. destruct (attach_definition_closure p (JObject [])) as [[name|attached]|] eqn:Ea;
    vm_compute in Ep; injection Ep as <-; vm_compute in Ea; try discriminate. injection Ea as <-.
  eexists. split; [reflexivity|]. split; [reflexivity|]. split; [|vm_compute; reflexivity].
  apply (Heq _ eq_refl mini_draft07). intros s v _. done.
Defined.

(** Outside the generated kind the projection can be weaker than the schema:
    a branch that names a property the closed schema does not declare lets
    the projection accept that property. *)
Definition open_schema : obj :=
  [(lit "$defs", JObject []);
   (lit "additionalProperties", JBool false);
   (lit "oneOf", JArray [JObject [(lit "properties", JObject [(lit "extra", JObject []); (lit "ok", demo_const (JBool true))])]]);
   (lit "properties", JObject [(lit "ok", JObject [])])].
Lemma projection_opens_closed_schema :
  let response := JObject [(lit "extra", JNull); (lit "ok", JBool true)] in
  select_unique_response_branch demo_dump (JObject open_schema) response = Some (0%nat, None) /\
  mini (JObject open_schema) response = false /\
  exists p, project_variant word_eqb (JObject open_schema) 0 None = Ret p /\ mini p response = true.
Proof. vm_compute. split; [reflexivity|]. split; [reflexivity|]. eexists. split; reflexivity. Qed.
