(* ===== verification/SchemaValidator.v ===== *)
(** * SchemaValidator: validating requests and responses against schema files

    Models the rest of [src/core/schema/runtime_schema_validator.cpp]: the
    four caches of compiled schemas, the manifest of internal actions, the
    construction of validation errors and the entry points. The schema files,
    the JSON text functions and the validator library are arguments; the
    caches are the state. A thrown exception ([Throw]) leaves the caches as
    they were before the call; the code may have added one parsed source. *)

From S2P Require Import Prelude CLib Json Diagnostics InternalRequest SchemaProjection.

Open Scope Z_scope.

Record RuntimeSchemaValidationResult := MkRSV {
  rs_ok : bool;
  rs_code : bytes;
  rs_message : bytes;
  rs_error : json;
}.
Definition rs_default : RuntimeSchemaValidationResult := MkRSV true [] [] (JObject []).

Record ValidationIssue := MkIssue { pointer : bytes; issue_message : bytes }.

Definition config_code : bytes := lit "SCHEMA_VALIDATION_CONFIG_ERROR".
Definition config_error (schema_ref message : bytes) : RuntimeSchemaValidationResult :=
  MkRSV false config_code message (to_json (with_schema_path schema_ref (internal_error config_code message))).

Definition request_schema_ref_for_action (action schema_ref : bytes) : bytes :=
  if negb (eqs schema_ref []) then schema_ref
  else lit "schemas/v1/actions/" ++ action ++ lit ".request.schema.json".
Definition response_schema_ref_for_action (action schema_ref : bytes) : bytes :=
  if negb (eqs schema_ref []) then schema_ref
  else lit "schemas/v1/actions/" ++ action ++ lit ".response.schema.json".

(** ** Pointers and messages *)

Fixpoint is_prefix (p s : bytes) : bool :=
  match p, s with
  | [], _ => true
  | _, [] => false
  | a :: p', b :: s' => eqc a b && is_prefix p' s'
  end.
(** [s.find(p) != npos] *)
Fixpoint contains_text (p s : bytes) : bool :=
  is_prefix p s || match s with [] => false | _ :: s' => contains_text p s' end.
(** The rest of [s] after the first [c]; [None] is [npos]. *)
Fixpoint split_at (c : ascii) (s : bytes) : bytes * option bytes :=
  match s with
  | [] => ([], None)
  | x :: s' => if eqc x c then ([], Some s') else let '(a, r) := split_at c s' in (x :: a, r)
  end.

(** [~0] and [~1] of a JSON pointer token. *)
Fixpoint decode_token (token : bytes) : bytes :=
  match token with
  | [] => []
  | c :: rest =>
      match eqc c "~"%char, rest with
      | true, d :: rest' =>
          if eqc d "0"%char then "~"%char :: decode_token rest'
          else if eqc d "1"%char then "/"%char :: decode_token rest'
          else c :: decode_token rest
      | _, _ => c :: decode_token rest
      end
  end.

Definition numeric_token (decoded : bytes) : bool := negb (eqs decoded []) && forallb isdigit decoded.

(** The loops over a pointer: the decoded tokens. [i < size] holds at the
    start of each round; a round skips one leading slash and reads to the
    next. *)
Fixpoint pointer_tokens (fuel : nat) (pointer : bytes) : list bytes :=
  match fuel with
  | O => []
  | S f =>
      match pointer with
      | [] => []
      | c :: rest =>
          let '(token, next) := split_at "/"%char (if eqc c "/"%char then rest else pointer) in
          decode_token token :: match next with Some p => pointer_tokens f p | None => [] end
      end
  end.
Definition tokens (pointer : bytes) : list bytes := pointer_tokens (S (length pointer)) pointer.

Definition add_arg (out token : bytes) : bytes :=
  if numeric_token token then out ++ lit "[" ++ token ++ lit "]"
  else (if eqs out [] then out else out ++ lit ".") ++ token.
Definition pointer_to_arg_path (pointer : bytes) : bytes :=
  if eqs pointer [] then lit "$"
  else let out := foldl add_arg [] (tokens pointer) in if eqs out [] then lit "$" else out.

Definition encode_char (c : ascii) : bytes :=
  if eqc c "~"%char then lit "~0" else if eqc c "/"%char then lit "~1" else [c].
Definition child_pointer (parent child : bytes) : bytes :=
  if eqs child [] then parent else parent ++ lit "/" ++ flat_map encode_char child.

Definition parse_quoted_property (message : bytes) : bytes :=
  let find_quote (q : ascii) :=
    match split_at q message with
    | (_, None) => None
    | (_, Some rest) => Some (match split_at q rest with (name, Some _) => name | (_, None) => [] end)
    end in
  match find_quote "'"%char with
  | Some name => name
  | None => default [] (find_quote (chr 34))
  end.

Definition is_required_error (message : bytes) : bool :=
  contains_text (lit "required") message
  && (contains_text (lit "not found") message || contains_text (lit "missing") message).
Definition is_additional_property_error (message : bytes) : bool :=
  contains_text (lit "additional property") message.
Definition is_legacy_clock_sampling_field (field : bytes) : bool :=
  one_of field [lit "clk"; lit "sampling"; lit "clock_edge"; lit "posedge"].

Definition plain_type_name (value : json) : bytes :=
  match value with
  | JNull => lit "null"
  | JBool _ => lit "boolean"
  | JInt _ | JUint _ => lit "integer"
  | JFloat _ => lit "number"
  | JString _ => lit "string"
  | JArray _ => lit "array"
  | JObject _ => lit "object"
  end.

(** One step down a schema; [None] is [nullptr]. *)
Definition schema_step (node : json) (token : bytes) : option json :=
  if numeric_token token then
    match jget (lit "items") node with Some (JObject m) => Some (JObject m) | _ => None end
  else property_schema token node.
Definition schema_for_pointer (schema : json) (pointer : bytes) : option json :=
  foldl (fun node token => node ≫= fun n => schema_step n token) (Some schema) (tokens pointer).

Definition enum_values_from_schema (schema : option json) : json :=
  match schema with
  | Some s => match jget (lit "enum") s with Some (JArray l) => JArray l | _ => JNull end
  | None => JNull
  end.

Definition compact_correct_example (example : json) : json :=
  if negb (is_object example) then JNull
  else foldl (copy_field example) (JObject [])
         [lit "api_version"; lit "action"; lit "target"; lit "args"; lit "limits"; lit "output"].

Definition required_any_of_for (action invalid_arg : bytes) : json :=
  if negb (one_of invalid_arg [lit "args"; lit "$"]) then JNull
  else if one_of action [lit "event.find"; lit "event.export"]
  then JArray [JString (lit "args.name"); JString (lit "args.clock + args.signals")]
  else if one_of action [lit "apb.config.load"; lit "axi.config.load"; lit "stream.config.load"]
  then JArray [JString (lit "args.config"); JString (lit "args.config_path")]
  else if eqs action (lit "axi.export") then JArray [JString (lit "args.time_range")]
  else if eqs action (lit "list.delete") then JArray [JString (lit "args.signal"); JString (lit "args.index")]
  else JNull.

(** ** The manifest of internal actions *)

Definition lower_alnum (ch : ascii) : bool := islower ch || isdigit ch.
(** Every separator stands between two alphanumeric characters. *)
Fixpoint safe_tail (first : bool) (s : bytes) : bool :=
  match s with
  | [] => true
  | ch :: rest =>
      if lower_alnum ch then safe_tail false rest
      else if negb (eqc ch "."%char || eqc ch "_"%char) || first then false
      else match rest with
           | [] => false
           | next :: _ => if lower_alnum next then safe_tail false rest else false
           end
  end.
Definition safe_internal_action_name (action : bytes) : bool :=
  negb (eqs action []) && safe_tail true action.

(** [has_discriminator] and whether it names the action. *)
Definition internal_action_discriminator_matches (branch : json) (action : bytes) : bool * bool :=
  match property_schema (lit "action") branch with
  | Some (JObject d) =>
      match mget (lit "const") d with
      | Some (JString s) => (true, eqs s action)
      | Some _ => (true, false)
      | None =>
          match mget (lit "enum") d with
          | Some (JArray values) =>
              (true, existsb (fun v => match v with JString s => eqs s action | _ => false end) values)
          | _ => (false, false)
          end
      end
  | _ => (false, false)
  end.

(** [manifest.value(key, std::string()) == text] on an object; [None] is a
    thrown type error. *)
Definition value_is (manifest : json) (key text : bytes) : option bool :=
  match jget key manifest with
  | None => Some (eqs [] text)
  | Some (JString s) => Some (eqs s text)
  | Some _ => None
  end.

Definition manifest_fields : list bytes :=
  [lit "schema_version"; lit "api_version"; lit "aggregate_schema_ref"; lit "action_count"; lit "actions";
   lit "helper_dispatch_kinds"; lit "helper_envelope_schemas"].
Definition dispatch_kinds : list bytes :=
  [lit "server_forward"; lit "session_local"; lit "server_control"; lit "hybrid_local_forward"].

(** The catalog of a manifest; the compiled schemas are cached beside it. *)
Record Catalog := MkCatalog {
  schema_refs : list (bytes * bytes);
  helper_dispatch_kinds : list (bytes * bytes);
  helper_schema_refs : list (bytes * bytes);
}.

Definition action_ref (action : bytes) : bytes :=
  lit "schemas/v1/internal/actions/" ++ action ++ lit ".request.schema.json".
Definition helper_ref (action : bytes) : bytes :=
  lit "schemas/v1/internal/helper-actions/" ++ action ++ lit ".request.schema.json".

(** [set.insert(ref).second] *)
Definition fresh_ref (ref : bytes) (seen : list bytes) : bool := negb (one_of ref seen).

Fixpoint read_actions (entries : list (bytes * json)) (seen : list bytes) (refs : list (bytes * bytes))
    : option (list (bytes * bytes)) :=
  match entries with
  | [] => Some refs
  | (action, value) :: entries' =>
      let expected := action_ref action in
      match value with
      | JString s =>
          if safe_internal_action_name action && eqs s expected && fresh_ref expected seen
          then read_actions entries' (expected :: seen) (mset action expected refs) else None
      | _ => None
      end
  end.

Fixpoint read_kinds (entries : list (bytes * json)) (refs kinds : list (bytes * bytes))
    : option (list (bytes * bytes)) :=
  match entries with
  | [] => Some kinds
  | (action, value) :: entries' =>
      match mget action refs, value with
      | Some _, JString s =>
          if one_of s dispatch_kinds then read_kinds entries' refs (mset action s kinds) else None
      | _, _ => None
      end
  end.

Fixpoint read_helpers (entries : list (bytes * json)) (refs kinds : list (bytes * bytes)) (seen : list bytes)
    (helpers : list (bytes * bytes)) : option (list (bytes * bytes)) :=
  match entries with
  | [] => Some helpers
  | (action, value) :: entries' =>
      let expected := helper_ref action in
      match mget action refs, mget action kinds, value with
      | Some _, Some kind, JString s =>
          if eqs kind (lit "server_forward") && eqs s expected && fresh_ref expected seen
          then read_helpers entries' refs kinds (expected :: seen) (mset action expected helpers) else None
      | _, _, _ => None
      end
  end.

(** The catalog, or the error text; [None] is a thrown type error. *)
Definition manifest_header_ok (manifest : json) : option bool :=
  if negb (is_object manifest && forallb (fun kv => one_of (fst kv) manifest_fields) (members manifest)
           && (jsize manifest =? length manifest_fields)%nat) then Some false
  else
    match value_is manifest (lit "schema_version") (lit "xdebug.internal-request-manifest.v1") with
    | None => None
    | Some false => Some false
    | Some true =>
        match value_is manifest (lit "api_version") kInternalApiVersion with
        | None => None
        | Some false => Some false
        | Some true =>
            match value_is manifest (lit "aggregate_schema_ref") kInternalRequestSchema with
            | None => None
            | Some false => Some false
            | Some true =>
                Some (match jget (lit "action_count") manifest with Some (JUint _) => true | _ => false end
                      && is_object (jat (lit "actions") manifest)
                      && is_object (jat (lit "helper_dispatch_kinds") manifest)
                      && is_object (jat (lit "helper_envelope_schemas") manifest))
            end
        end
    end.

Definition manifest_counts_ok (manifest : json) : bool :=
  match jat (lit "action_count") manifest with
  | JUint n => (n =? Z.of_nat (jsize (jat (lit "actions") manifest)))
  | _ => false
  end
  && (jsize (jat (lit "helper_dispatch_kinds") manifest) =? jsize (jat (lit "actions") manifest))%nat.

Definition read_manifest (manifest : json) : option (bytes + Catalog) :=
  match manifest_header_ok manifest with
  | None => None
  | Some header =>
      if negb (header && manifest_counts_ok manifest)
      then Some (inl (lit "internal request manifest is missing or inconsistent"))
      else
        match read_actions (members (jat (lit "actions") manifest)) [] [] with
        | None => Some (inl (lit "internal request manifest contains an invalid or duplicate action mapping"))
        | Some refs =>
            match read_kinds (members (jat (lit "helper_dispatch_kinds") manifest)) refs [] with
            | None => Some (inl (lit "internal request manifest contains an invalid helper dispatch kind"))
            | Some kinds =>
                match read_helpers (members (jat (lit "helper_envelope_schemas") manifest)) refs kinds [] [] with
                | None =>
                    Some (inl (lit "internal request manifest contains an invalid or duplicate helper envelope mapping"))
                | Some helpers =>
                    if forallb (fun kv => Bool.eqb (eqs (snd kv) (lit "server_forward"))
                                            (match mget (fst kv) helpers with Some _ => true | None => false end)) kinds
                    then Some (inr (MkCatalog refs kinds helpers))
                    else Some (inl (lit "helper dispatch catalog and envelope schemas differ"))
                end
            end
        end
  end.

(** ** The validator *)

Section Validator.
Context (dump : json -> bytes) (json_equal : json -> json -> bool).
(** [PlainJson::parse(value.dump())]: the exception text, or the value. *)
Context (reparse : json -> bytes + json).
(** [stream >> value] on the contents of a file. *)
Context (parse : bytes -> bytes + json).
(** The data files, by the path [installed_data_path] gives them. *)
Context (repo_file_path : bytes -> bytes) (file : bytes -> option bytes).
(** [set_root_schema] and [validate] of the validator library. *)
Context {V : Type} (compile : json -> bytes + V) (run : V -> json -> bytes + list ValidationIssue).

Record CachedValidator := MkCached {
  schema_path : bytes;
  validator : V;
  cached_schema : json;
  example : json;
}.

Definition join_json_array (values : json) : bytes :=
  match values with
  | JArray l =>
      let text v := match v with JString s => s | _ => dump v end in
      match l with
      | [] => []
      | v :: l' => foldl (fun acc x => acc ++ lit " or " ++ text x) (text v) l'
      end
  | _ => []
  end.

Definition nonempty_array (j : json) : bool := match j with JArray (_ :: _) => true | _ => false end.

Definition friendly_validation_message (raw invalid_arg expected : bytes) (available required_any_of : json) : bytes :=
  lit "invalid parameter " ++ invalid_arg ++ lit ": " ++ raw
  ++ (if nonempty_array required_any_of then lit "; provide one of: " ++ join_json_array required_any_of
      else if negb (eqs expected []) then lit "; expected " ++ expected else [])
  ++ (if nonempty_array available then lit "; available values: " ++ dump available else []).

Definition expected_from_schema (schema : option json) (fallback : bytes) : bytes :=
  match schema with
  | Some (JObject m) =>
      match mget (lit "type") m, mget (lit "enum") m with
      | Some t, _ => lit "type " ++ dump t
      | None, Some e => lit "one of " ++ dump e
      | None, None =>
          if jcontains (lit "oneOf") (JObject m) then lit "oneOf schema"
          else if jcontains (lit "anyOf") (JObject m) then lit "anyOf schema"
          else if jcontains (lit "allOf") (JObject m) then lit "allOf schema"
          else fallback
      end
  | _ => fallback
  end.

(** [root.at(json_pointer(pointer))]; array indices are decimal numbers
    without leading zeros. A value that cannot be reached is [None]. *)
Definition array_index (token : bytes) : option nat :=
  if numeric_token token && (eqs token (lit "0") || negb (eqs (take 1 token) (lit "0")))
  then Some (Z.to_nat (base_val 10 0 token)) else None.
Definition pointer_step (node : json) (token : bytes) : option json :=
  match node with
  | JObject m => mget token m
  | JArray l => array_index token ≫= fun i => l !! i
  | _ => None
  end.
(** The reference tokens of a pointer; one that does not start with a slash,
    or has a bare tilde, throws. *)
Fixpoint split_all (fuel : nat) (s : bytes) : list bytes :=
  match fuel with
  | O => []
  | S f => match split_at "/"%char s with
           | (t, Some rest) => t :: split_all f rest
           | (t, None) => [t]
           end
  end.
Fixpoint tilde_ok (s : bytes) : bool :=
  match s with
  | [] => true
  | c :: rest =>
      if eqc c "~"%char
      then match rest with d :: _ => (eqc d "0"%char || eqc d "1"%char) && tilde_ok rest | [] => false end
      else tilde_ok rest
  end.
Definition plain_pointer_get (root : json) (pointer : bytes) : option json :=
  match pointer with
  | [] => Some root
  | c :: rest =>
      if eqc c "/"%char && tilde_ok rest
      then foldl (fun node token => node ≫= fun n => pointer_step n token) (Some root)
             (map decode_token (split_all (S (length rest)) rest))
      else None
  end.

(** The first issue of a request as a diagnostic. *)
Definition make_validation_error (cached : CachedValidator) (instance : json) (action : bytes)
    (issue : ValidationIssue) : RuntimeSchemaValidationResult :=
  let code := lit "INVALID_REQUEST" in
  let message := issue_message issue in
  let required := is_required_error message in
  let additional := negb required && is_additional_property_error message in
  let missing_property := if required then parse_quoted_property message else [] in
  let extra_property := if additional then parse_quoted_property message else [] in
  let ptr := child_pointer (child_pointer (pointer issue) missing_property) extra_property in
  let schema_node := schema_for_pointer (cached_schema cached) ptr in
  let stream_name := eqs missing_property (lit "stream") && eqs (take 7 action) (lit "stream.")
    && match jget (lit "args") instance with Some (JObject a) => jcontains (lit "name") (JObject a) | _ => false end in
  let invalid_arg := if stream_name then lit "args.name" else pointer_to_arg_path ptr in
  let received := plain_pointer_get instance (if stream_name then lit "/args/name" else ptr) in
  let expected :=
    if additional && is_legacy_clock_sampling_field extra_property then lit "use clock, edge, and sample_point"
    else if additional then lit "no additional properties allowed"
    else expected_from_schema schema_node message in
  let builder := with_schema_path (schema_path cached)
    (with_expected expected (with_invalid_arg invalid_arg (schema_error code message))) in
  let builder := match received with
    | Some r => with_received_type (plain_type_name r) builder
    | None => if negb (eqs missing_property []) then with_received_type (lit "missing") builder else builder
    end in
  let available := enum_values_from_schema schema_node in
  let builder := if negb (is_null available) then with_available_values available builder else builder in
  let builder := with_correct_example (compact_correct_example (example cached)) builder in
  let required_any_of := required_any_of_for action invalid_arg in
  let builder := with_required_any_of required_any_of builder in
  let message := if sensitive_diagnostic_path invalid_arg then hidden_text
                 else friendly_validation_message (issue_message issue) invalid_arg expected available required_any_of in
  MkRSV false code message (jset (lit "message") (JString message) (to_json builder)).

Definition issue_json (hide : bool) (issue : ValidationIssue) : json :=
  let path := pointer_to_arg_path (pointer issue) in
  JObject [(lit "path", JString path);
           (lit "message", JString (if hide && sensitive_diagnostic_path path then hidden_text
                                    else issue_message issue))].

Definition validate_with_cached_schema (cached : CachedValidator) (action : bytes) (request : json)
    : RuntimeSchemaValidationResult :=
  let code := lit "INVALID_REQUEST" in
  match reparse request with
  | inl what =>
      let message := lit "request must be a JSON object: " ++ what in
      MkRSV false code message
        (to_json (with_schema_path (schema_path cached) (with_invalid_arg (lit "$") (schema_error code message))))
  | inr instance =>
      match run (validator cached) instance with
      | inl what =>
          MkRSV false code what
            (to_json (with_correct_example (compact_correct_example (example cached))
               (with_schema_path (schema_path cached) (with_invalid_arg (lit "$") (schema_error code what)))))
      | inr [] => rs_default
      | inr (issue :: issues) =>
          let failure := make_validation_error cached instance action issue in
          if (1 <? length (issue :: issues))%nat
          then MkRSV (rs_ok failure) (rs_code failure) (rs_message failure)
                 (jset (lit "validation_issues") (JArray (map (issue_json true) (issue :: issues))) (rs_error failure))
          else failure
      end
  end.

Definition violation_code : bytes := lit "INTERNAL_RESPONSE_SCHEMA_VIOLATION".
Definition violation (cached : CachedValidator) (message : bytes) : RuntimeSchemaValidationResult :=
  MkRSV false violation_code message
    (to_json (with_schema_path (schema_path cached) (internal_error violation_code message))).

Definition validate_response_with_cached_schema (cached : CachedValidator) (response : json)
    : RuntimeSchemaValidationResult :=
  match reparse response with
  | inl what => violation cached (lit "public response is not valid JSON: " ++ what)
  | inr instance =>
      match run (validator cached) instance with
      | inl what => violation cached (lit "public response validation failed: " ++ what)
      | inr [] => rs_default
      | inr issues =>
          let r := violation cached (lit "handler response violated its action-specific response schema") in
          MkRSV (rs_ok r) (rs_code r) (rs_message r)
            (jset (lit "validation") (JObject [(lit "issues", JArray (map (issue_json false) issues))]) (rs_error r))
      end
  end.

(** ** Building validators *)

Definition read_plain_json (path : bytes) : bytes + json :=
  match file path with
  | None => inl (lit "schema file not found: " ++ path)
  | Some contents =>
      match parse contents with
      | inl what => inl (lit "failed to parse schema file " ++ path ++ lit ": " ++ what)
      | inr j => inr j
      end
  end.
Definition read_ordered_json_or_null (path : bytes) : json :=
  match file path with
  | None => JNull
  | Some contents => match parse contents with inl _ => JNull | inr j => j end
  end.
Definition example_path_for_action (action : bytes) : bytes :=
  repo_file_path (lit "examples/requests/" ++ action ++ lit ".basic.json").

(** A compiled schema, or the error of its caller. *)
Definition compile_validator (schema : json) (schema_ref : bytes) (ex : json)
    : RuntimeSchemaValidationResult + CachedValidator :=
  let copy := runtime_schema_copy schema in
  match compile copy with
  | inl what => inl (config_error schema_ref (lit "failed to compile runtime schema " ++ schema_ref ++ lit ": " ++ what))
  | inr v => inr (MkCached schema_ref v copy ex)
  end.
Definition compile_projected_validator (schema : json) (schema_ref : bytes)
    : RuntimeSchemaValidationResult + CachedValidator := compile_validator schema schema_ref JNull.

Definition build_validator (action rel : bytes) : RuntimeSchemaValidationResult + CachedValidator :=
  match read_plain_json (repo_file_path rel) with
  | inl e => inl (config_error rel e)
  | inr schema =>
      compile_validator schema rel
        (if eqs rel kInternalRequestSchema || contains_text (lit ".response.schema.json") rel then JNull
         else read_ordered_json_or_null (example_path_for_action action))
  end.

Definition missing_definition (schema_ref name : bytes) : RuntimeSchemaValidationResult :=
  config_error schema_ref (lit "response projection references missing definition: " ++ name).

(** The closure of [SchemaProjection] always returns ([definition_closure_exact]). *)
Definition attach (projected definitions : json) (schema_ref : bytes) : res (RuntimeSchemaValidationResult + json) :=
  match attach_definition_closure projected definitions with
  | Some (inr attached) => Ret (inr attached)
  | Some (inl name) => Ret (inl (missing_definition schema_ref name))
  | None => UB
  end.

Definition build_variant (source : json) (schema_ref : bytes) (top_index : nat) (nested_index : option nat)
    : res (RuntimeSchemaValidationResult + CachedValidator) :=
  projected ← project_variant json_equal source top_index nested_index;
  attached ← attach projected (jat (lit "$defs") source) schema_ref;
  Ret (match attached with
       | inl e => inl e
       | inr schema => compile_projected_validator schema schema_ref
       end).

Definition build_action (catalog : Catalog) (action : bytes) (helper_envelope : bool)
    : RuntimeSchemaValidationResult + CachedValidator :=
  let refs := if helper_envelope then helper_schema_refs catalog else schema_refs catalog in
  match mget action refs with
  | None =>
      inl (config_error kInternalRequestManifest
             (if helper_envelope then lit "server-forward action is missing its helper envelope schema"
              else lit "known internal action is missing its runtime schema mapping"))
  | Some ref =>
      match read_plain_json (repo_file_path ref) with
      | inl e => inl (config_error ref e)
      | inr schema =>
          let '(has, exact) :=
            if helper_envelope then internal_action_discriminator_matches schema action
            else match jget (lit "allOf") schema with
                 | Some (JArray [branch]) => internal_action_discriminator_matches branch action
                 | _ => (false, false)
                 end in
          if has && exact then compile_projected_validator schema ref
          else inl (config_error ref (lit "internal request runtime schema discriminator does not match its manifest action"))
      end
  end.

Record CachedBatchValidators := MkBatch {
  envelope : CachedValidator;
  unknown_child : CachedValidator;
  known_actions : list bytes;
}.

(** [definitions[name]["properties"]["results"]["items"] = object()]: a null
    on the way becomes an object; any other value that is not one throws. *)
Definition set_in (k : bytes) (f : json -> option json) (j : json) : option json :=
  match j with
  | JObject m => v ← f (jat k j); Some (JObject (mset k v m))
  | JNull => v ← f JNull; Some (JObject [(k, v)])
  | _ => None
  end.
Definition open_items (name : bytes) (definitions : json) : option json :=
  set_in name (set_in (lit "properties") (set_in (lit "results") (set_in (lit "items") (fun _ => Some (JObject [])))))
    definitions.

Definition string_items (j : json) : list bytes :=
  match j with
  | JArray l => omap (fun v => match v with JString s => Some s | _ => None end) l
  | _ => []
  end.

(** Nested [operator[]]: a missing member is a new null; a value that is
    neither an object nor null throws. *)
Definition at_path (j : json) (ks : list bytes) : res json :=
  foldl (fun c k => j ← c; match j with
                          | JObject _ => Ret (jat k j)
                          | JNull => Ret JNull
                          | _ => Throw "type_error.305"
                          end) (Ret j) ks.

(** The texts of the exceptions [open_items] can throw. *)
Context (projection_what : json -> bytes).

Definition build_batch (schema_ref : bytes) : res (RuntimeSchemaValidationResult + CachedBatchValidators) :=
  match read_plain_json (repo_file_path schema_ref) with
  | inl e => Ret (inl (config_error schema_ref e))
  | inr source =>
      let defs := jat (lit "$defs") source in
      let unknown := lit "batchChild__unknown_child_error" in
      if negb (is_object defs && jcontains (lit "successData") defs && jcontains (lit "successData0") defs
               && jcontains unknown defs)
      then Ret (inl (config_error schema_ref (lit "batch response schema is missing projection definitions")))
      else
        match (open_items (lit "successData") defs ≫= open_items (lit "successData0")) with
        | None =>
            Ret (inl (config_error schema_ref (lit "batch response projection failed: " ++ projection_what defs)))
        | Some definitions =>
            env ← attach (JObject (mdel (lit "$defs") (members source))) definitions schema_ref;
            match env with
            | inl e => Ret (inl e)
            | inr env =>
                child ← attach (jat unknown definitions) definitions schema_ref;
                match child with
                | inl e => Ret (inl e)
                | inr child =>
                    action_schema ← at_path definitions [unknown; lit "properties"; lit "action"];
                    let known := string_items (jat (lit "enum") (jat (lit "not") action_schema)) in
                    match known with
                    | [] => Ret (inl (config_error schema_ref
                                        (lit "batch unknown-child schema has no known-action exclusion set")))
                    | _ =>
                        Ret (match compile_projected_validator env schema_ref with
                             | inl e => inl e
                             | inr cenv =>
                                 match compile_projected_validator child schema_ref with
                                 | inl e => inl e
                                 | inr cchild => inr (MkBatch cenv cchild known)
                                 end
                             end)
                    end
                end
            end
        end
  end.

(** ** The caches *)

Record Caches := MkCaches {
  validator_cache : list (bytes * CachedValidator);
  batch_validator_cache : list (bytes * CachedBatchValidators);
  response_variant_cache : list (bytes * (json * list (bytes * CachedValidator)));
  (** The catalog with its compiled actions and helper envelopes. *)
  internal_request_cache : option (Catalog * list (bytes * CachedValidator) * list (bytes * CachedValidator));
}.
Definition no_caches : Caches := MkCaches [] [] [] None.

Abbreviation outcome A := (RuntimeSchemaValidationResult + A)%type.

Definition get_cached_validator (action rel : bytes) (st : Caches) : outcome CachedValidator * Caches :=
  match mget rel (validator_cache st) with
  | Some c => (inr c, st)
  | None =>
      match build_validator action rel with
      | inl e => (inl e, st)
      | inr c => (inr c, MkCaches (mset rel c (validator_cache st)) (batch_validator_cache st)
                           (response_variant_cache st) (internal_request_cache st))
      end
  end.

Definition set_variants (ref : bytes) (entry : json * list (bytes * CachedValidator)) (st : Caches) : Caches :=
  MkCaches (validator_cache st) (batch_validator_cache st) (mset ref entry (response_variant_cache st))
    (internal_request_cache st).

Definition variant_key (top_index : nat) (nested_index : option nat) : bytes :=
  lit "top:" ++ udec (Z.of_nat top_index)
  ++ match nested_index with Some n => lit "/nested:" ++ udec (Z.of_nat n) | None => [] end.

(** [inr None] is a response without a unique variant. *)
Definition get_cached_response_variant_validator (schema_ref : bytes) (response : json) (st : Caches)
    : res (outcome (option CachedValidator) * Caches) :=
  let loaded :=
    match mget schema_ref (response_variant_cache st) with
    | Some entry => inr (entry, st)
    | None =>
        match read_plain_json (repo_file_path schema_ref) with
        | inl e => inl (config_error schema_ref e)
        | inr source => inr ((source, []), set_variants schema_ref (source, []) st)
        end
    end in
  match loaded with
  | inl e => Ret (inl e, st)
  | inr ((source, variants), st) =>
      match select_unique_response_branch dump source response with
      | None => Ret (inr None, st)
      | Some (top_index, nested_index) =>
          let key := variant_key top_index nested_index in
          match mget key variants with
          | Some c => Ret (inr (Some c), st)
          | None =>
              built ← build_variant source schema_ref top_index nested_index;
              match built with
              | inl e => Ret (inl e, st)
              | inr c => Ret (inr (Some c), set_variants schema_ref (source, mset key c variants) st)
              end
          end
      end
  end.

Definition set_internal entry (st : Caches) : Caches :=
  MkCaches (validator_cache st) (batch_validator_cache st) (response_variant_cache st) (Some entry).

(** [manifest.value] of a member of another type throws. *)
Definition get_cached_internal_request_manifest (st : Caches) : res (outcome Catalog * Caches) :=
  match internal_request_cache st with
  | Some (catalog, _, _) => Ret (inr catalog, st)
  | None =>
      match read_plain_json (repo_file_path kInternalRequestManifest) with
      | inl e => Ret (inl (config_error kInternalRequestManifest e), st)
      | inr manifest =>
          match read_manifest manifest with
          | None => Throw "type_error.302"
          | Some (inl e) => Ret (inl (config_error kInternalRequestManifest e), st)
          | Some (inr catalog) => Ret (inr catalog, set_internal (catalog, [], []) st)
          end
      end
  end.

Definition get_cached_internal_request_validator (action : bytes) (helper_envelope : bool) (st : Caches)
    : outcome CachedValidator * Caches :=
  match internal_request_cache st with
  | None => (inl (config_error kInternalRequestManifest (lit "internal request manifest was not loaded")), st)
  | Some (catalog, actions, helpers) =>
      match mget action (if helper_envelope then helpers else actions) with
      | Some c => (inr c, st)
      | None =>
          match build_action catalog action helper_envelope with
          | inl e => (inl e, st)
          | inr c => (inr c, set_internal (if helper_envelope then (catalog, actions, mset action c helpers)
                                           else (catalog, mset action c actions, helpers)) st)
          end
      end
  end.

Definition get_cached_batch_validators (schema_ref : bytes) (st : Caches)
    : res (outcome CachedBatchValidators * Caches) :=
  match mget schema_ref (batch_validator_cache st) with
  | Some c => Ret (inr c, st)
  | None =>
      built ← build_batch schema_ref;
      match built with
      | inl e => Ret (inl e, st)
      | inr c => Ret (inr c, MkCaches (validator_cache st) (mset schema_ref c (batch_validator_cache st))
                               (response_variant_cache st) (internal_request_cache st))
      end
  end.

(** ** Entry points *)

Definition with_cached (c : outcome CachedValidator) (k : CachedValidator -> RuntimeSchemaValidationResult)
    : RuntimeSchemaValidationResult :=
  match c with inl e => e | inr v => k v end.

Definition validate_request (action : bytes) (request : json) (schema_ref : bytes) (st : Caches)
    : RuntimeSchemaValidationResult * Caches :=
  let '(c, st) := get_cached_validator action (request_schema_ref_for_action action schema_ref) st in
  (with_cached c (fun v => validate_with_cached_schema v action request), st).

Definition validate_response (action : bytes) (response : json) (schema_ref : bytes) (st : Caches)
    : res (RuntimeSchemaValidationResult * Caches) :=
  let ref := response_schema_ref_for_action action schema_ref in
  r ← get_cached_response_variant_validator ref response st;
  let '(c, st) := r in
  match c with
  | inl e => Ret (e, st)
  | inr (Some v) => Ret (validate_response_with_cached_schema v response, st)
  | inr None =>
      let '(c, st) := get_cached_validator action ref st in
      Ret (with_cached c (fun v => validate_response_with_cached_schema v response), st)
  end.

(** The issue paths of a child, put under its position. *)
Definition rebase_issue (prefix : bytes) (issue : json) : json :=
  match issue with
  | JObject m =>
      match mget (lit "path") m with
      | Some (JString path) =>
          JObject (oset (lit "path") (JString (if eqs path (lit "$") then prefix else prefix ++ lit "." ++ path)) m)
      | _ => issue
      end
  | _ => issue
  end.
Definition rebase_error (index : nat) (error : json) : json :=
  let prefix := lit "data.results[" ++ udec (Z.of_nat index) ++ lit "]" in
  match jget (lit "validation") error with
  | Some (JObject v) =>
      match mget (lit "issues") v with
      | Some (JArray issues) =>
          jset (lit "validation") (JObject (oset (lit "issues") (JArray (map (rebase_issue prefix) issues)) v)) error
      | _ => error
      end
  | _ => error
  end.

Definition known_child (known : list bytes) (child : json) : bool :=
  match jget (lit "action") child with Some (JString a) => one_of a known | _ => false end.

Fixpoint validate_children (cached : CachedBatchValidators) (children : list json) (index : nat)
    : RuntimeSchemaValidationResult :=
  match children with
  | [] => rs_default
  | child :: rest =>
      if known_child (known_actions cached) child then validate_children cached rest (S index)
      else
        let r := validate_response_with_cached_schema (unknown_child cached) child in
        if rs_ok r then validate_children cached rest (S index)
        else MkRSV (rs_ok r) (rs_code r) (rs_message r) (rebase_error index (rs_error r))
  end.

Definition batch_children (response : json) : option (list json) :=
  match jget (lit "data") response with
  | Some (JObject d) => match mget (lit "results") d with Some (JArray l) => Some l | _ => None end
  | _ => None
  end.

Definition validate_batch_response (response : json) (schema_ref : bytes) (st : Caches)
    : res (RuntimeSchemaValidationResult * Caches) :=
  r ← get_cached_batch_validators (response_schema_ref_for_action (lit "batch") schema_ref) st;
  let '(c, st) := r in
  match c with
  | inl e => Ret (e, st)
  | inr cached =>
      let r := validate_response_with_cached_schema (envelope cached) response in
      if negb (rs_ok r) then Ret (r, st)
      else match batch_children response with
           | None => Ret (r, st)
           | Some children => Ret (validate_children cached children 0, st)
           end
  end.

Definition string_member (k : bytes) (j : json) : option bytes :=
  match jget k j with Some (JString s) => Some s | _ => None end.

Definition validate_complete (action : bytes) (request : json) (st : Caches) : RuntimeSchemaValidationResult * Caches :=
  let '(c, st) := get_cached_validator action kInternalRequestSchema st in
  (with_cached c (fun v => validate_with_cached_schema v action request), st).

Definition version_error : RuntimeSchemaValidationResult :=
  let code := lit "UNSUPPORTED_API_VERSION" in
  let message := lit "expected xdebug.internal.v1" in
  MkRSV false code message
    (to_json (with_schema_path kInternalRequestSchema (with_expected kInternalApiVersion
       (with_invalid_arg (lit "api_version") (schema_error code message))))).
Definition unknown_action (action : bytes) : RuntimeSchemaValidationResult :=
  let code := lit "UNKNOWN_ACTION" in
  let message := lit "unknown internal engine action: " ++ action in
  MkRSV false code message
    (to_json (with_schema_path kInternalRequestSchema (with_received (JString action)
       (with_invalid_arg (lit "action") (schema_error code message))))).

Definition validate_internal_request (request : json) (st : Caches) : res (RuntimeSchemaValidationResult * Caches) :=
  let action := default [] (string_member (lit "action") request) in
  if negb (is_object request) then Ret (validate_complete action request st)
  else if negb (bool_decide (string_member (lit "api_version") request = Some kInternalApiVersion))
  then Ret (version_error, st)
  else if eqs action [] then Ret (validate_complete action request st)
  else
    r ← get_cached_internal_request_manifest st;
    let '(m, st) := r in
    match m with
    | inl e => Ret (e, st)
    | inr catalog =>
        match mget action (schema_refs catalog) with
        | None => Ret (unknown_action action, st)
        | Some _ =>
            let '(c, st) := get_cached_internal_request_validator action false st in
            Ret (with_cached c (fun v => validate_with_cached_schema v action request), st)
        end
    end.

Definition session_forward (request : json) : bool :=
  match jget (lit "routing") request with
  | Some (JObject r) => match mget (lit "session_id") r with Some (JString s) => negb (eqs s []) | _ => false end
  | _ => false
  end.

(** The flag is [used_forward_envelope]. *)
Definition validate_internal_request_for_helper (request : json) (st : Caches)
    : res (RuntimeSchemaValidationResult * bool * Caches) :=
  let direct st := r ← validate_internal_request request st; let '(v, st) := r in Ret (v, false, st) in
  match string_member (lit "action") request with
  | Some action =>
      if negb (is_object request
               && bool_decide (string_member (lit "api_version") request = Some kInternalApiVersion)
               && session_forward request)
      then direct st
      else
        r ← get_cached_internal_request_manifest st;
        let '(m, st) := r in
        match m with
        | inl e => Ret (e, false, st)
        | inr catalog =>
            if negb (bool_decide (mget action (helper_dispatch_kinds catalog) = Some (lit "server_forward")))
            then direct st
            else
              let '(c, st) := get_cached_internal_request_validator action true st in
              match c with
              | inl e => Ret (e, false, st)
              | inr v => Ret (validate_with_cached_schema v action request, true, st)
              end
        end
  | None => direct st
  end.

Definition valid_request_example (action : bytes) : json :=
  compact_correct_example (read_ordered_json_or_null (example_path_for_action action)).
End Validator.
