(* ===== verification/SchemaValidatorTheory.v ===== *)
(** * SchemaValidatorTheory: the catalog, the caches and accepted requests

    An accepted manifest yields a consistent catalog; the caches never change
    a verdict; and an internal request is accepted only by the strict schema
    of its own action. *)

From S2P Require Import Prelude CLib Json Diagnostics InternalRequest SchemaProjection SchemaValidator.

Open Scope Z_scope.

(** ** The catalog *)

(** What a catalog promises to the dispatcher: every action has a safe name,
    its own schema reference and one of the dispatch kinds, and exactly the
    forwarded actions have a helper envelope. *)
Record catalog_ok (c : Catalog) : Prop := {
  ca_refs : forall a r, mget a (schema_refs c) = Some r -> r = action_ref a /\ safe_internal_action_name a = true;
  ca_kinds : forall a, is_Some (mget a (helper_dispatch_kinds c)) <-> is_Some (mget a (schema_refs c));
  ca_kind : forall a k, mget a (helper_dispatch_kinds c) = Some k -> one_of k dispatch_kinds = true;
  ca_helpers : forall a, mget a (helper_schema_refs c) =
    if bool_decide (mget a (helper_dispatch_kinds c) = Some (lit "server_forward")) then Some (helper_ref a) else None;
}.

Lemma mget_mset {A} k (v : A) m k' : mget k' (mset k v m) = if decide (k' = k) then Some v else mget k' m.
Proof. case_decide as E; [subst; apply mget_mset_eq|]. apply mget_mset_ne. congruence. Qed.

Lemma is_Some_mget {A} k (m : list (bytes * A)) : is_Some (mget k m) <-> k ∈ map fst m.
Proof.
  induction m as [|[k' v] m IH]; cbn [mget map fst]; [split; [by intros [? ?]|by intros ?%elem_of_nil]|].
  rewrite elem_of_cons. destruct (eqs k k') eqn:E.
  - apply eqs_true in E as ->. split; [by left|eauto].
  - apply eqs_false in E. rewrite IH. tauto.
Qed.

Lemma read_actions_spec entries : forall seen refs out,
  read_actions entries seen refs = Some out ->
  (forall a r, mget a refs = Some r -> r = action_ref a /\ safe_internal_action_name a = true) ->
  (forall a r, mget a out = Some r -> r = action_ref a /\ safe_internal_action_name a = true) /\
  (forall a, is_Some (mget a out) <-> a ∈ map fst entries \/ is_Some (mget a refs)).
Proof.
  induction entries as [|[a v] entries IH]; intros seen refs out Hr Hok; cbn [read_actions] in Hr.
  { injection Hr as <-. split; [done|]. intros a. rewrite elem_of_nil. tauto. }
  destruct v as [| | | | |s| |]; try done. case_match eqn:E; [|done]. apply andb_true_iff in E as [[Hsafe _]%andb_true_iff _].
  destruct (IH _ _ _ Hr) as [H1 H2].
  { intros a' r. rewrite mget_mset. case_decide; [intros [= <-]; by subst|apply Hok]. }
  split; [done|]. intros a'. rewrite H2, mget_mset. cbn [map fst]. rewrite elem_of_cons. case_decide as E'; [subst|].
  - split; [intros _; by left; left|]. intros _. right. eauto.
  - tauto.
Qed.

Lemma read_kinds_spec entries refs : forall kinds out,
  read_kinds entries refs kinds = Some out ->
  (forall a k, mget a kinds = Some k -> one_of k dispatch_kinds = true) ->
  (forall a k, mget a out = Some k -> one_of k dispatch_kinds = true) /\
  (forall a, is_Some (mget a out) <-> a ∈ map fst entries \/ is_Some (mget a kinds)) /\
  (forall a, a ∈ map fst entries -> is_Some (mget a refs)).
Proof.
  induction entries as [|[a v] entries IH]; intros kinds out Hr Hok; cbn [read_kinds] in Hr.
  { injection Hr as <-. split_and!; [done| |by intros a ?%elem_of_nil]. intros a. rewrite elem_of_nil. tauto. }
  destruct (mget a refs) as [r|] eqn:Er; [|done]. destruct v as [| | | | |s| |]; try done. case_match eqn:E; [|done].
  destruct (IH _ _ Hr) as (H1 & H2 & H3).
  { intros a' k. rewrite mget_mset. case_decide; [by intros [= <-]|apply Hok]. }
  split_and!; [done| |].
  - intros a'. rewrite H2, mget_mset. cbn [map fst]. rewrite elem_of_cons. case_decide as E'; [subst|tauto].
    split; [intros _; by left; left|]. intros _. right. eauto.
  - cbn [map fst]. intros a' [->|Hin]%elem_of_cons; [eauto|auto].
Qed.

Lemma read_helpers_spec entries refs kinds : forall seen helpers out,
  read_helpers entries refs kinds seen helpers = Some out ->
  (forall a r, mget a helpers = Some r -> r = helper_ref a /\ mget a kinds = Some (lit "server_forward")) ->
  forall a r, mget a out = Some r -> r = helper_ref a /\ mget a kinds = Some (lit "server_forward").
Proof.
  induction entries as [|[a v] entries IH]; intros seen helpers out Hr Hok; cbn [read_helpers] in Hr.
  { by injection Hr as <-. }
  destruct (mget a refs); [|done]. destruct (mget a kinds) as [kind|] eqn:Ek; [|done].
  destruct v as [| | | | |s| |]; try done. case_match eqn:E; [|done]. apply andb_true_iff in E as [[Hk _]%andb_true_iff _]. apply (IH _ _ _ Hr).
  intros a' r. rewrite mget_mset. case_decide as Ea; [subst a'; intros [= <-]|apply Hok]. split; [done|].
  rewrite Ek. f_equal. by apply eqs_true.
Qed.

(** Distinct names inside a list of the same length fill it. *)
Lemma same_length_subset (l k : list bytes) : NoDup l -> (forall a, a ∈ l -> a ∈ k) -> length l = length k ->
  forall a, a ∈ k -> a ∈ l.
Proof.
  intros Hn Hs Hl a Ha. assert (submseteq l k) as Hsub by (apply NoDup_submseteq; auto).
  assert (Permutation l k) as Hp by (apply submseteq_length_Permutation; [done|lia]). by rewrite Hp.
Qed.

Lemma manifest_counts j : manifest_counts_ok j = true ->
  jsize (jat (lit "helper_dispatch_kinds") j) = jsize (jat (lit "actions") j).
Proof. unfold manifest_counts_ok. intros [_ H%Nat.eqb_eq]%andb_true_iff. done. Qed.

Lemma manifest_objects j : manifest_header_ok j = Some true ->
  is_object (jat (lit "helper_dispatch_kinds") j) = true /\ is_object (jat (lit "actions") j) = true.
Proof.
  unfold manifest_header_ok. repeat case_match; try done; intros [= Hb];
    apply andb_true_iff in Hb as [Hb _]; apply andb_true_iff in Hb as [Ha Hk]; done.
Qed.

(** The parts of the contract that hold of any manifest value, one with
    repeated members included. *)
Record catalog_refs_ok (c : Catalog) : Prop := {
  cr_refs : forall a r, mget a (schema_refs c) = Some r -> r = action_ref a /\ safe_internal_action_name a = true;
  cr_helpers : forall a, mget a (helper_schema_refs c) =
    if bool_decide (mget a (helper_dispatch_kinds c) = Some (lit "server_forward")) then Some (helper_ref a) else None;
}.

Lemma helper_refs_exact kinds helpers :
  (forall a r, mget a helpers = Some r -> r = helper_ref a /\ mget a kinds = Some (lit "server_forward")) ->
  forallb (fun kv => Bool.eqb (eqs (snd kv) (lit "server_forward"))
                       (match mget (fst kv) helpers with Some _ => true | None => false end)) kinds = true ->
  forall a, mget a helpers = if bool_decide (mget a kinds = Some (lit "server_forward")) then Some (helper_ref a) else None.
Proof.
  intros H3 E4 a. rewrite List.forallb_forall in E4. case_bool_decide as Ek.
  - apply mget_elem, list_elem_of_In, E4 in Ek. cbn [fst snd] in Ek. apply Bool.eqb_prop in Ek.
    rewrite eqs_refl in Ek. destruct (mget a helpers) as [r|] eqn:Er; [|done]. by destruct (H3 a r Er) as [-> _].
  - destruct (mget a helpers) as [r|] eqn:Er; [|done]. by destruct (H3 a r Er) as [_ ?].
Qed.

Lemma read_manifest_spec j c : read_manifest j = Some (inr c) ->
  catalog_refs_ok c /\
  (forall a k, mget a (helper_dispatch_kinds c) = Some k -> one_of k dispatch_kinds = true) /\
  (forall a, is_Some (mget a (helper_dispatch_kinds c)) -> is_Some (mget a (schema_refs c))) /\
  (json_wf j = true -> forall a, is_Some (mget a (schema_refs c)) -> is_Some (mget a (helper_dispatch_kinds c))).
Proof.
  unfold read_manifest. destruct (manifest_header_ok j) as [header|] eqn:Eh; [|done].
  destruct (header && manifest_counts_ok j) eqn:E; cbn [negb]; [|done]. apply andb_true_iff in E as [-> Hc].
  destruct (manifest_objects j Eh) as [Hk Ha]. apply manifest_counts in Hc.
  destruct (read_actions _ [] []) as [refs|] eqn:E1; [|done].
  destruct (read_kinds _ refs []) as [kinds|] eqn:E2; [|done].
  destruct (read_helpers _ refs kinds [] []) as [helpers|] eqn:E3; [|done].
  destruct (forallb _ kinds) eqn:E4; [|done]. intros [= <-].
  destruct (read_actions_spec _ _ _ _ E1) as [R1 R2]; [done|].
  destruct (read_kinds_spec _ _ _ _ E2) as (K1 & K2 & K3); [done|].
  pose proof (read_helpers_spec _ _ _ _ _ _ E3) as H3. specialize (H3 ltac:(done)).
  cbn [schema_refs helper_dispatch_kinds]. split_and!; [|done| |].
  - split; [done|]. by apply helper_refs_exact.
  - intros a. rewrite K2. intros [Hin|[? ?]]; [auto|done].
  - intros Hwf a. rewrite K2, R2. intros [Hin|[? ?]]; [left|done].
    pose proof (json_wf_at (lit "helper_dispatch_kinds") j Hwf) as Hw.
    destruct (jat (lit "helper_dispatch_kinds") j) as [| | | | | | |mk]; try done.
    destruct (jat (lit "actions") j) as [| | | | | | |ma]; try done. cbn [members] in *.
    cbn [json_wf] in Hw. apply andb_true_iff in Hw as [Hs _].
    eapply (same_length_subset (map fst mk) (map fst ma)); [by apply msorted_NoDup| | |done].
    + intros b Hb. destruct (proj1 (R2 b) (K3 b Hb)) as [?|[? ?]]; done.
    + rewrite !length_map. done.
Qed.

(** An accepted manifest is a consistent catalog. Whenever the internal
    request manifest is accepted, every action it lists has a safe name and
    the schema reference derived from that name, exactly these actions have a
    dispatch kind, one of the four, and an action has a helper envelope schema,
    its own, exactly when it is forwarded to the server. *)
Theorem manifest_catalog_consistent (manifest : json) (c : Catalog) :
  json_wf manifest = true -> read_manifest manifest = Some (inr c) -> catalog_ok c.
Proof.
  intros Hwf Hr. destruct (read_manifest_spec _ _ Hr) as ([H1 H2] & H3 & H4 & H5). split; [done| |done|done].
  intros a. split; auto.
Qed.

Definition demo_manifest : json :=
  JObject [(lit "action_count", JUint 2);
    (lit "actions", JObject [(lit "apb.query", JString (action_ref (lit "apb.query")));
                             (lit "server.ping", JString (action_ref (lit "server.ping")))]);
    (lit "aggregate_schema_ref", JString kInternalRequestSchema);
    (lit "api_version", JString kInternalApiVersion);
    (lit "helper_dispatch_kinds", JObject [(lit "apb.query", JString (lit "server_forward"));
                                           (lit "server.ping", JString (lit "server_control"))]);
    (lit "helper_envelope_schemas", JObject [(lit "apb.query", JString (helper_ref (lit "apb.query")))]);
    (lit "schema_version", JString (lit "xdebug.internal-request-manifest.v1"))].

Lemma manifest_catalog_consistent_witness :
  exists c, read_manifest demo_manifest = Some (inr c) /\ catalog_ok c.
Proof.
  destruct (read_manifest demo_manifest) as [[e|c]|] eqn:E; [vm_compute in E; discriminate| |vm_compute in E; discriminate].
  exists c. split; [reflexivity|]. apply (manifest_catalog_consistent demo_manifest c); [vm_compute; reflexivity|exact E].
Defined.

(** ** Coherent caches *)

Section Coherent.
Context (dump : json -> bytes) (json_equal : json -> json -> bool) (reparse : json -> bytes + json)
  (parse : bytes -> bytes + json) (repo_file_path : bytes -> bytes) (file : bytes -> option bytes).
Context {V : Type} (compile : json -> bytes + V) (run : V -> json -> bytes + list ValidationIssue).
Context (projection_what : json -> bytes).

Local Notation read_file := (fun ref => read_plain_json parse file (repo_file_path ref)).
Local Notation build_validator := (build_validator parse repo_file_path file compile).
Local Notation build_batch := (build_batch parse repo_file_path file compile projection_what).
Local Notation build_variant := (build_variant json_equal compile).
Local Notation build_action := (build_action parse repo_file_path file compile).
Abbreviation Cached := (@CachedValidator V).

(** Each entry is what building it from the files gives. *)
Record coherent (st : @Caches V) : Prop := {
  co_validators : forall rel c, mget rel (validator_cache st) = Some c -> exists action, build_validator action rel = inr c;
  co_batch : forall ref c, mget ref (batch_validator_cache st) = Some c -> build_batch ref = Ret (inr c);
  co_variants : forall ref source vs, mget ref (response_variant_cache st) = Some (source, vs) ->
    read_file ref = inr source /\
    forall key c, mget key vs = Some c ->
      exists t n, key = variant_key t n /\ build_variant source ref t n = Ret (inr c);
  co_internal : forall catalog actions helpers, internal_request_cache st = Some (catalog, actions, helpers) ->
    (exists manifest, read_file kInternalRequestManifest = inr manifest /\ read_manifest manifest = Some (inr catalog)) /\
    (forall a c, mget a actions = Some c -> build_action catalog a false = inr c) /\
    (forall a c, mget a helpers = Some c -> build_action catalog a true = inr c);
}.

Lemma coherent_empty : coherent no_caches.
Proof. by split. Qed.

(** Validators of one schema file differ in the example at most. *)
Definition same_but_example (c c' : Cached) : Prop :=
  schema_path c = schema_path c' /\ validator c = validator c' /\ cached_schema c = cached_schema c'.

Lemma build_validator_example a a' rel :
  match build_validator a rel, build_validator a' rel with
  | inl e, inl e' => e = e'
  | inr c, inr c' => same_but_example c c'
  | _, _ => False
  end.
Proof.
  unfold SchemaValidator.build_validator, compile_validator.
  destruct (read_plain_json _ _ _) as [e|schema]; [done|]. by destruct (compile _).
Qed.

Lemma get_validator_spec action rel st : coherent st ->
  let '(c, st') := get_cached_validator parse repo_file_path file compile action rel st in
  coherent st' /\
  match c, build_validator action rel with
  | inl e, inl e' => e = e'
  | inr c, inr c' => same_but_example c c'
  | _, _ => False
  end.
Proof.
  intros Hc. unfold get_cached_validator. destruct (mget rel (validator_cache st)) as [c|] eqn:E.
  - split; [done|]. destruct (co_validators st Hc rel c E) as [a Ha].
    pose proof (build_validator_example a action rel) as Hx. rewrite Ha in Hx. done.
  - destruct (build_validator action rel) as [e|c] eqn:Eb; [done|]. split; [|done].
    destruct Hc as [H1 H2 H3 H4]. split; [|done..]. intros rel' c'. cbn [validator_cache].
    rewrite mget_mset. case_decide as Er; [subst; intros [= <-]; eauto|apply H1].
Qed.

(** ** Keys of variants *)

Lemma udec_prefix_inj a b x y : 0 <= a -> 0 <= b ->
  match x with [] => True | c :: _ => isdigit c = false end ->
  match y with [] => True | c :: _ => isdigit c = false end ->
  udec a ++ x = udec b ++ y -> a = b /\ x = y.
Proof.
  intros Ha Hb Hx Hy E.
  pose proof (span_stop isdigit (udec a) x (udec_digits a)) as S1. specialize (S1 ltac:(destruct x; done)).
  pose proof (span_stop isdigit (udec b) y (udec_digits b)) as S2. specialize (S2 ltac:(destruct y; done)).
  rewrite E, S2 in S1. injection S1 as E1 E2. split; [by apply udec_inj|done].
Qed.

Lemma variant_key_inj t n t' n' : variant_key t n = variant_key t' n' -> t = t' /\ n = n'.
Proof.
  unfold variant_key. intros E. apply app_inv_head in E.
  apply udec_prefix_inj in E as [E1 E2]; [|lia..|by destruct n|by destruct n'].
  apply Nat2Z.inj in E1. split; [done|]. destruct n as [n|], n' as [n'|]; try done.
  apply app_inv_head in E2. rewrite <- (app_nil_r (udec (Z.of_nat n))), <- (app_nil_r (udec (Z.of_nat n'))) in E2.
  apply udec_prefix_inj in E2 as [E2 _]; [|lia..|done|done]. f_equal. lia.
Qed.


(** ** What each lookup answers *)

(** A call from coherent caches answers [x] and leaves them coherent. *)
Definition answers {A} (x : res A) (r : res (A * @Caches V)) : Prop :=
  match r with
  | Ret (a, st') => x = Ret a /\ coherent st'
  | Throw w => x = Throw w
  | UB => x = UB
  end.

Definition variant_of (ref : bytes) (response : json) : res (RuntimeSchemaValidationResult + option Cached) :=
  match read_file ref with
  | inl e => Ret (inl (config_error ref e))
  | inr source =>
      match select_unique_response_branch dump source response with
      | None => Ret (inr None)
      | Some (t, n) => b ← build_variant source ref t n; Ret (match b with inl e => inl e | inr c => inr (Some c) end)
      end
  end.

Lemma coherent_variants st ref source vs : coherent st -> read_file ref = inr source ->
  (forall key c, mget key vs = Some c -> exists t n, key = variant_key t n /\ build_variant source ref t n = Ret (inr c)) ->
  coherent (set_variants ref (source, vs) st).
Proof.
  intros [H1 H2 H3 H4] Hr Hv. split; [done|done| |done]. intros ref' source' vs'. cbn [set_variants response_variant_cache].
  rewrite mget_mset. case_decide as E; [subst; by intros [= <- <-]|apply H3].
Qed.

Lemma get_variant_spec ref response st : coherent st ->
  answers (variant_of ref response)
    (get_cached_response_variant_validator dump json_equal parse repo_file_path file compile ref response st).
Proof.
  intros Hc. unfold variant_of, get_cached_response_variant_validator.
  assert (forall source vs st', coherent st' -> read_file ref = inr source ->
    (forall key c, mget key vs = Some c -> exists t n, key = variant_key t n /\ build_variant source ref t n = Ret (inr c)) ->
    answers (variant_of ref response)
      (match select_unique_response_branch dump source response with
       | None => Ret (inr None, st')
       | Some (t, n) =>
           match mget (variant_key t n) vs with
           | Some c => Ret (inr (Some c), st')
           | None => built ← build_variant source ref t n;
               match built with
               | inl e => Ret (inl e, st')
               | inr c => Ret (inr (Some c), set_variants ref (source, mset (variant_key t n) c vs) st')
               end
           end
       end)) as Hgo.
  { intros source vs st' Hc' Hr Hv. unfold variant_of. rewrite Hr.
    destruct (select_unique_response_branch dump source response) as [[t n]|]; [|done].
    destruct (mget (variant_key t n) vs) as [c|] eqn:Ek.
    - destruct (Hv _ _ Ek) as (t' & n' & Hk & Hb). apply variant_key_inj in Hk as [<- <-]. rewrite Hb. done.
    - destruct (build_variant source ref t n) as [[e|c]| |w] eqn:Eb; cbn; [done| |done|done]. split; [done|].
      apply coherent_variants; [done..|]. intros key c'. rewrite mget_mset.
      case_decide as E; [intros [= <-]; subst key; eauto|apply Hv]. }
  unfold variant_of in Hgo. destruct (mget ref (response_variant_cache st)) as [[source vs]|] eqn:E.
  - destruct (co_variants st Hc ref source vs E) as [Hr Hv]. exact (Hgo source vs st Hc Hr Hv).
  - destruct (read_file ref) as [e|source] eqn:Er; [done|].
    apply (Hgo source [] (set_variants ref (source, []) st)); [by apply coherent_variants|done|done].
Qed.

Definition manifest_of : res (RuntimeSchemaValidationResult + Catalog) :=
  match read_file kInternalRequestManifest with
  | inl e => Ret (inl (config_error kInternalRequestManifest e))
  | inr manifest =>
      match read_manifest manifest with
      | None => Throw "type_error.302"
      | Some (inl e) => Ret (inl (config_error kInternalRequestManifest e))
      | Some (inr catalog) => Ret (inr catalog)
      end
  end.

Lemma coherent_internal st catalog actions helpers : coherent st ->
  (exists manifest, read_file kInternalRequestManifest = inr manifest /\ read_manifest manifest = Some (inr catalog)) ->
  (forall a c, mget a actions = Some c -> build_action catalog a false = inr c) ->
  (forall a c, mget a helpers = Some c -> build_action catalog a true = inr c) ->
  coherent (set_internal (catalog, actions, helpers) st).
Proof. intros [H1 H2 H3 H4] Hm Ha Hh. split; [done..|]. intros ? ? ? [= <- <- <-]. done. Qed.

(** A loaded manifest is in the cache. *)
Lemma get_manifest_spec st : coherent st ->
  answers manifest_of (get_cached_internal_request_manifest parse repo_file_path file st) /\
  forall catalog st', get_cached_internal_request_manifest parse repo_file_path file st = Ret (inr catalog, st') ->
    exists actions helpers, internal_request_cache st' = Some (catalog, actions, helpers).
Proof.
  intros Hc. unfold get_cached_internal_request_manifest, manifest_of.
  destruct (internal_request_cache st) as [[[catalog actions] helpers]|] eqn:E.
  - destruct (co_internal st Hc _ _ _ E) as [(manifest & -> & ->) _]. split; [done|]. intros ? ? [= <- <-]. eauto.
  - destruct (read_file kInternalRequestManifest) as [e|manifest] eqn:Er; [done|].
    destruct (read_manifest manifest) as [[e|catalog]|] eqn:Em; [done| |done]. split.
    + split; [done|]. apply coherent_internal; [done|eauto|done|done].
    + intros ? ? [= <- <-]. eauto.
Qed.

Lemma get_action_spec action helper st catalog actions helpers : coherent st ->
  internal_request_cache st = Some (catalog, actions, helpers) ->
  let '(c, st') := get_cached_internal_request_validator parse repo_file_path file compile action helper st in
  c = build_action catalog action helper /\ coherent st'.
Proof.
  intros Hc E. unfold get_cached_internal_request_validator. rewrite E.
  destruct (co_internal st Hc _ _ _ E) as (Hm & Ha & Hh).
  destruct (mget action (if helper then helpers else actions)) as [c|] eqn:Eg.
  - split; [|done]. destruct helper; symmetry; auto.
  - destruct (build_action catalog action helper) as [e|c] eqn:Eb; [done|]. split; [done|].
    destruct helper; apply coherent_internal; try done; intros a c'; rewrite mget_mset;
      (case_decide as Ea; [intros [= <-]; by subst|by auto]).
Qed.

Lemma get_batch_spec ref st : coherent st ->
  answers (build_batch ref) (get_cached_batch_validators parse repo_file_path file compile projection_what ref st).
Proof.
  intros Hc. unfold get_cached_batch_validators. destruct (mget ref (batch_validator_cache st)) as [c|] eqn:E.
  - by rewrite (co_batch st Hc _ _ E).
  - destruct (build_batch ref) as [[e|c]| |w] eqn:Eb; cbn; [done| |done|done]. split; [done|].
    destruct Hc as [H1 H2 H3 H4]. split; [done| |done|done]. intros ref' c'. cbn [batch_validator_cache].
    rewrite mget_mset. case_decide as Er; [intros [= <-]; by subst|apply H2].
Qed.

(** ** Histories of calls *)

Inductive Call :=
| CallRequest (action : bytes) (request : json) (schema_ref : bytes)
| CallResponse (action : bytes) (response : json) (schema_ref : bytes)
| CallBatch (response : json) (schema_ref : bytes)
| CallInternal (request : json)
| CallHelper (request : json).

(** The answer of a call and whether it used the helper envelope. The example
    quoted in the error of a request belongs to the action that compiled the
    schema, so that one member of the error is left out. *)
Definition not_example (kv : bytes * json) : bool := negb (eqs (fst kv) (lit "correct_example")).
Definition without_example (j : json) : json :=
  match j with JObject m => JObject (List.filter not_example m) | _ => j end.
Definition verdict (r : RuntimeSchemaValidationResult) : RuntimeSchemaValidationResult :=
  MkRSV (rs_ok r) (rs_code r) (rs_message r) (without_example (rs_error r)).

Definition perform (c : Call) (st : @Caches V) : res (RuntimeSchemaValidationResult * bool * @Caches V) :=
  match c with
  | CallRequest action request ref =>
      let '(r, st) := validate_request dump reparse parse repo_file_path file compile run action request ref st in
      Ret (verdict r, false, st)
  | CallResponse action response ref =>
      x ← validate_response dump json_equal reparse parse repo_file_path file compile run action response ref st;
      let '(r, st) := x in Ret (r, false, st)
  | CallBatch response ref =>
      x ← validate_batch_response reparse parse repo_file_path file compile run projection_what response ref st;
      let '(r, st) := x in Ret (r, false, st)
  | CallInternal request =>
      x ← validate_internal_request dump reparse parse repo_file_path file compile run request st;
      let '(r, st) := x in Ret (r, false, st)
  | CallHelper request =>
      validate_internal_request_for_helper dump reparse parse repo_file_path file compile run request st
  end.

Definition after (calls : list Call) : @Caches V :=
  foldl (fun st c => match perform c st with Ret (_, st') => st' | _ => st end) no_caches calls.

Lemma oset_without k v m : k <> lit "correct_example" -> List.filter not_example (oset k v m) = oset k v (List.filter not_example m).
Proof.
  intros Hk. induction m as [|[k' v'] m IH]; cbn [oset List.filter].
  - unfold not_example. cbn [fst]. by rewrite (proj2 (eqs_false k _)).
  - destruct (eqs k k') eqn:E.
    + apply eqs_true in E as <-. assert (forall w, not_example (k, w) = true) as Hn by (intros w; unfold not_example; cbn [fst]; by rewrite (proj2 (eqs_false k _))).
      cbn [List.filter]. rewrite !Hn. cbn [oset]. by rewrite eqs_refl.
    + cbn [List.filter]. destruct (not_example (k', v')) eqn:En; [|done]. cbn [oset]. by rewrite E, IH.
Qed.
Lemma oset_example v m : List.filter not_example (oset (lit "correct_example") v m) = List.filter not_example m.
Proof.
  induction m as [|[k' v'] m IH]; cbn [oset List.filter]; [done|]. destruct (eqs (lit "correct_example") k') eqn:E; cbn [List.filter].
  - apply eqs_true in E as <-. done.
  - destruct (not_example (k', v')); [|done]. by rewrite IH.
Qed.

Lemma mget_without key m : key <> lit "correct_example" -> mget key (List.filter not_example m) = mget key m.
Proof.
  intros Hk. induction m as [|[k v] m IH]; [done|]. cbn [List.filter mget]. unfold not_example at 1. cbn [fst].
  destruct (eqs k (lit "correct_example")) eqn:E; cbn [negb mget]; [|by rewrite IH].
  apply eqs_true in E as ->. by rewrite (proj2 (eqs_false key _)).
Qed.

(** Redaction treats each member by itself, so the example can go first. *)
Lemma redact_fold_without arg path m out r1 r2 :
  List.filter not_example (foldl (fun st kv => redact_member arg path (fst kv) (snd kv) st) (out, r1)
    (map (fun kv => (fst kv, redact_sensitive_diagnostic_value (snd kv))) m)).1 =
  (foldl (fun st kv => redact_member arg path (fst kv) (snd kv) st) (List.filter not_example out, r2)
    (map (fun kv => (fst kv, redact_sensitive_diagnostic_value (snd kv))) (List.filter not_example m))).1.
Proof.
  revert out r1 r2. induction m as [|[k v] m IH]; intros out r1 r2; [done|]. cbn [List.filter].
  replace (not_example (k, v)) with (negb (eqs k (lit "correct_example"))) by done.
  destruct (eqs k (lit "correct_example")) eqn:E; cbn [negb map foldl fst snd redact_member].
  - apply eqs_true in E as ->. rewrite !andb_false_r. change (sensitive_diagnostic_key (lit "correct_example")) with false. cbv iota.
    rewrite (IH _ _ r2). by rewrite oset_example.
  - apply eqs_false in E. destruct (sensitive_diagnostic_key k); [apply IH|]. destruct (arg && eqs k (lit "received")); [apply IH|].
    destruct ((arg || path) && eqs k (lit "message")); rewrite <- oset_without by done; apply IH.
Qed.
Lemma redact_without m : without_example (redact_sensitive_diagnostic (JObject m)) = redact_sensitive_diagnostic (JObject (List.filter not_example m)).
Proof.
  unfold redact_sensitive_diagnostic. cbn [redact_sensitive_diagnostic_value]. unfold names_sensitive. rewrite !mget_without by done. fold (names_sensitive (lit "invalid_arg") m) (names_sensitive (lit "path") m).
  pose proof (redact_fold_without (names_sensitive (lit "invalid_arg") m) (names_sensitive (lit "path") m) m [] false false) as E.
  destruct (foldl _ _ (map _ m)) as [out r]. destruct (foldl _ _ _) as [out' r']. cbn [fst List.filter] in E. subst out'.
  destruct (names_sensitive (lit "invalid_arg") m); cbn [fst without_example]; [|done]. by rewrite oset_without.
Qed.

Lemma jset_without k v j : k <> lit "correct_example" -> is_object j = true -> without_example (jset k v j) = jset k v (without_example j).
Proof. destruct j; try done. intros Hk _. unfold jset. cbn [without_example Json.members]. by rewrite oset_without. Qed.
Lemma redact_object m : is_object (redact_sensitive_diagnostic (JObject m)) = true.
Proof. unfold redact_sensitive_diagnostic. cbn [redact_sensitive_diagnostic_value]. destruct (foldl _ _ _). by destruct (names_sensitive _ _). Qed.

(** The example of a diagnostic shows in its own member only. *)
Lemma example_without ro x b : is_object b = true ->
  without_example (to_json (with_required_any_of ro (with_correct_example x b))) = to_json (with_required_any_of ro (without_example b)).
Proof.
  destruct b as [| | | | | | |m]; try done. intros _. unfold to_json, with_required_any_of, with_correct_example, jset.
  destruct (is_null ro), (is_null x); cbn [Json.members without_example]; rewrite redact_without; rewrite ?oset_without by done; by rewrite ?oset_example.
Qed.

Lemma validate_same_example c c' action request : same_but_example c c' ->
  verdict (validate_with_cached_schema dump reparse run c action request) =
  verdict (validate_with_cached_schema dump reparse run c' action request).
Proof.
  intros (Hp & Hv & Hs). unfold validate_with_cached_schema. rewrite Hp. destruct (reparse request) as [w|inst]; [done|].
  rewrite Hv. destruct (run (validator c') inst) as [w|[|i il]]; [|done|].
  { unfold verdict. cbn [rs_ok rs_code rs_message rs_error]. f_equal.
    assert (forall x b, is_object b = true -> without_example (to_json (with_correct_example x b)) = to_json (without_example b)) as Hw
      by (intros x b Hb; apply (example_without JNull x b Hb)).
    rewrite !Hw; [done|..]; unfold with_schema_path; by case_match. }
  assert (forall c : Cached, exists ok_ code_ message_ ro b, is_object b = true /\
    make_validation_error dump c inst action i = MkRSV ok_ code_ message_ (jset (lit "message") (JString message_) (to_json (with_required_any_of ro (with_correct_example (compact_correct_example (example c)) b)))) /\
    (schema_path c = schema_path c' -> cached_schema c = cached_schema c' ->
     exists x, make_validation_error dump c' inst action i = MkRSV ok_ code_ message_ (jset (lit "message") (JString message_) (to_json (with_required_any_of ro (with_correct_example x b)))))) as Hm.
  { intros c0. unfold make_validation_error. cbv zeta. eexists _, _, _, _, _. split; [|split; [reflexivity|]].
    - unfold with_available_values, with_received_type, with_schema_path, with_expected, with_invalid_arg. by repeat case_match.
    - intros -> ->. by eexists. }
  destruct (Hm c) as (ok_ & code_ & message_ & ro & b & Hb & E1 & E2). destruct (E2 Hp Hs) as [x E3]. rewrite E1, E3.
  assert (forall y, is_object (to_json (with_required_any_of ro (with_correct_example y b))) = true) as Ho.
  { intros y. unfold to_json, with_required_any_of, with_correct_example, jset. destruct b; try done. repeat case_match; apply redact_object. }
  assert (forall y, without_example (jset (lit "message") (JString message_) (to_json (with_required_any_of ro (with_correct_example y b)))) =
    jset (lit "message") (JString message_) (to_json (with_required_any_of ro (without_example b)))) as Hw.
  { intros y. rewrite jset_without by auto. by rewrite example_without. }
  destruct (1 <? _)%nat; unfold verdict; cbn [rs_ok rs_code rs_message rs_error]; f_equal; [|by rewrite !Hw].
  rewrite !(jset_without (lit "validation_issues")) by done. by rewrite !Hw.
Qed.

Lemma validate_response_same c c' response : same_but_example c c' ->
  validate_response_with_cached_schema reparse run c response = validate_response_with_cached_schema reparse run c' response.
Proof.
  intros (Hp & Hv & Hs). unfold validate_response_with_cached_schema, violation. by rewrite Hv, Hp.
Qed.

(** The aggregate schema is compiled without an example. *)
Lemma get_aggregate_spec action st : coherent st ->
  let '(c, st') := get_cached_validator parse repo_file_path file compile action kInternalRequestSchema st in
  c = build_validator action kInternalRequestSchema /\ coherent st'.
Proof.
  intros Hc. pose proof (get_validator_spec action kInternalRequestSchema st Hc) as Hs.
  unfold get_cached_validator in *. destruct (mget kInternalRequestSchema (validator_cache st)) as [c|] eqn:E.
  - split; [|done]. destruct (co_validators st Hc _ c E) as [a <-]. unfold SchemaValidator.build_validator.
    by rewrite eqs_refl.
  - destruct (build_validator action kInternalRequestSchema); [done|]. by destruct Hs.
Qed.

(** ** The entry points without caches *)

Definition request_answer (action : bytes) (request : json) (ref : bytes) : RuntimeSchemaValidationResult :=
  with_cached (build_validator action (request_schema_ref_for_action action ref))
    (fun v => validate_with_cached_schema dump reparse run v action request).

Definition complete_answer (action : bytes) (request : json) : RuntimeSchemaValidationResult :=
  with_cached (build_validator action kInternalRequestSchema)
    (fun v => validate_with_cached_schema dump reparse run v action request).

Definition response_answer (action : bytes) (response : json) (schema_ref : bytes) : res RuntimeSchemaValidationResult :=
  let ref := response_schema_ref_for_action action schema_ref in
  x ← variant_of ref response;
  Ret (match x with
       | inl e => e
       | inr (Some v) => validate_response_with_cached_schema reparse run v response
       | inr None => with_cached (build_validator action ref)
                       (fun v => validate_response_with_cached_schema reparse run v response)
       end).

Definition batch_answer (response : json) (schema_ref : bytes) : res RuntimeSchemaValidationResult :=
  x ← build_batch (response_schema_ref_for_action (lit "batch") schema_ref);
  Ret (match x with
       | inl e => e
       | inr cached =>
           let r := validate_response_with_cached_schema reparse run (envelope cached) response in
           if negb (rs_ok r) then r
           else match batch_children response with
                | None => r
                | Some children => validate_children reparse run cached children 0
                end
       end).

Definition action_answer (catalog : Catalog) (action : bytes) (helper : bool) (request : json)
    : RuntimeSchemaValidationResult :=
  with_cached (build_action catalog action helper) (fun v => validate_with_cached_schema dump reparse run v action request).

Definition internal_answer (request : json) : res RuntimeSchemaValidationResult :=
  let action := default [] (string_member (lit "action") request) in
  if negb (is_object request) then Ret (complete_answer action request)
  else if negb (bool_decide (string_member (lit "api_version") request = Some kInternalApiVersion)) then Ret version_error
  else if eqs action [] then Ret (complete_answer action request)
  else
    m ← manifest_of;
    Ret (match m with
         | inl e => e
         | inr catalog =>
             match mget action (schema_refs catalog) with
             | None => unknown_action action
             | Some _ => action_answer catalog action false request
             end
         end).

Definition helper_answer (request : json) : res (RuntimeSchemaValidationResult * bool) :=
  let direct := r ← internal_answer request; Ret (r, false) in
  match string_member (lit "action") request with
  | Some action =>
      if negb (is_object request
               && bool_decide (string_member (lit "api_version") request = Some kInternalApiVersion)
               && session_forward request) then direct
      else
        m ← manifest_of;
        match m with
        | inl e => Ret (e, false)
        | inr catalog =>
            if negb (bool_decide (mget action (helper_dispatch_kinds catalog) = Some (lit "server_forward"))) then direct
            else Ret (match build_action catalog action true with
                      | inl e => (e, false)
                      | inr v => (validate_with_cached_schema dump reparse run v action request, true)
                      end)
        end
  | None => direct
  end.

Lemma response_spec action response ref st : coherent st ->
  answers (response_answer action response ref)
    (validate_response dump json_equal reparse parse repo_file_path file compile run action response ref st).
Proof.
  intros Hc. unfold response_answer, validate_response.
  pose proof (get_variant_spec (response_schema_ref_for_action action ref) response st Hc) as Hv.
  destruct (get_cached_response_variant_validator _ _ _ _ _ _ _ _ _) as [[c st']| |w]; cbn in Hv |- *;
    [destruct Hv as [-> Hc']|by rewrite Hv..].
  destruct c as [e|[v|]]; [done|done|]. cbn.
  pose proof (get_validator_spec action (response_schema_ref_for_action action ref) st' Hc') as Hg.
  destruct (get_cached_validator _ _ _ _ _ _ st') as [[e|c] st'']; cbn; destruct Hg as [Hg1 Hg2];
    destruct (build_validator action _) as [e'|c']; try done; split; try done; cbn.
  - by subst.
  - f_equal. symmetry. by apply validate_response_same.
Qed.

Lemma batch_spec response ref st : coherent st ->
  answers (batch_answer response ref)
    (validate_batch_response reparse parse repo_file_path file compile run projection_what response ref st).
Proof.
  intros Hc. unfold batch_answer, validate_batch_response.
  pose proof (get_batch_spec (response_schema_ref_for_action (lit "batch") ref) st Hc) as Hv.
  destruct (get_cached_batch_validators _ _ _ _ _ _ _) as [[[e|c] st']| |w]; cbn in Hv |- *;
    [destruct Hv as [-> Hc']..|by rewrite Hv|by rewrite Hv]; [done|]. cbn.
  destruct (negb _); [done|]. by destruct (batch_children response).
Qed.

Lemma complete_spec action request st : coherent st ->
  answers (Ret (complete_answer action request)) (Ret (validate_complete dump reparse parse repo_file_path file compile run action request st)).
Proof.
  intros Hc. unfold validate_complete, complete_answer. pose proof (get_aggregate_spec action st Hc) as Hg.
  destruct (get_cached_validator _ _ _ _ _ _ _) as [c st']. destruct Hg as [-> Hc']. done.
Qed.

Lemma internal_spec request st : coherent st ->
  answers (internal_answer request) (validate_internal_request dump reparse parse repo_file_path file compile run request st).
Proof.
  intros Hc. unfold internal_answer, validate_internal_request. destruct (negb _); [by apply complete_spec|].
  destruct (negb _); [done|]. destruct (eqs _ []); [by apply complete_spec|].
  destruct (get_manifest_spec st Hc) as [Hm Hi].
  destruct (get_cached_internal_request_manifest _ _ _ st) as [[[e|catalog] st']| |w]; cbn in Hm |- *;
    [destruct Hm as [-> Hc']..|by rewrite Hm|by rewrite Hm]; [done|]. cbn.
  destruct (mget _ (schema_refs catalog)); [|done]. destruct (Hi _ _ eq_refl) as (actions & helpers & Ei).
  pose proof (get_action_spec (default [] (string_member (lit "action") request)) false st' _ _ _ Hc' Ei) as Hg.
  destruct (get_cached_internal_request_validator _ _ _ _ _ _ _) as [c st'']. destruct Hg as [-> Hc'']. done.
Qed.

Lemma helper_spec request st : coherent st ->
  answers (helper_answer request)
    (validate_internal_request_for_helper dump reparse parse repo_file_path file compile run request st).
Proof.
  intros Hc. unfold helper_answer, validate_internal_request_for_helper.
  assert (forall st', coherent st' -> answers (r ← internal_answer request; Ret (r, false))
    (r ← validate_internal_request dump reparse parse repo_file_path file compile run request st';
     let '(v, st) := r in Ret (v, false, st))) as Hd.
  { intros st' Hc'. pose proof (internal_spec request st' Hc') as Hi.
    destruct (validate_internal_request _ _ _ _ _ _ _ _ _) as [[r st'']| |w]; cbn in Hi |- *;
      [by destruct Hi as [-> ?]|by rewrite Hi..]. }
  destruct (string_member (lit "action") request) as [action|]; [|by apply Hd]. destruct (negb _); [by apply Hd|].
  destruct (get_manifest_spec st Hc) as [Hm Hi].
  destruct (get_cached_internal_request_manifest _ _ _ st) as [[[e|catalog] st']| |w]; cbn in Hm |- *;
    [destruct Hm as [-> Hc']..|by rewrite Hm|by rewrite Hm]; [done|]. cbn.
  destruct (negb _); [by apply Hd|]. destruct (Hi _ _ eq_refl) as (actions & helpers & Ei).
  pose proof (get_action_spec action true st' _ _ _ Hc' Ei) as Hg.
  destruct (get_cached_internal_request_validator _ _ _ _ _ _ _) as [c st'']. destruct Hg as [-> Hc''].
  by destruct (build_action catalog action true).
Qed.

(** What a call answers when every schema is read and compiled for it. *)
Definition answer_of (c : Call) : res (RuntimeSchemaValidationResult * bool) :=
  match c with
  | CallRequest action request ref => Ret (verdict (request_answer action request ref), false)
  | CallResponse action response ref => r ← response_answer action response ref; Ret (r, false)
  | CallBatch response ref => r ← batch_answer response ref; Ret (r, false)
  | CallInternal request => r ← internal_answer request; Ret (r, false)
  | CallHelper request => helper_answer request
  end.

Lemma answers_flag (x : res RuntimeSchemaValidationResult) r : answers x r ->
  answers (v ← x; Ret (v, false)) (y ← r; let '(v, st) := y in Ret (v, false, st)).
Proof. destruct r as [[v st]| |w]; cbn; [by intros [-> ?]|by intros ->..]. Qed.

Lemma perform_spec c st : coherent st -> answers (answer_of c) (perform c st).
Proof.
  intros Hc. destruct c as [action request ref|action response ref|response ref|request|request]; cbn [perform answer_of];
    [|apply answers_flag; auto using response_spec, batch_spec, internal_spec..|by apply helper_spec].
  unfold validate_request, request_answer.
  pose proof (get_validator_spec action (request_schema_ref_for_action action ref) st Hc) as Hg.
  destruct (get_cached_validator _ _ _ _ _ _ st) as [[e|v] st']; cbn; destruct Hg as [Hg1 Hg2];
    destruct (build_validator action _) as [e'|v']; try done; split; try done; cbn; [by subst|].
  do 2 f_equal. symmetry. by apply validate_same_example.
Qed.

Lemma after_coherent calls : coherent (after calls).
Proof.
  unfold after. generalize coherent_empty. generalize (@no_caches V). induction calls as [|c calls IH]; intros st Hc; [done|].
  cbn [foldl]. apply IH. pose proof (perform_spec c st Hc) as Hp.
  destruct (perform c st) as [[a st']| |w]; [by destruct Hp|done..].
Qed.

Lemma answers_fst {A} (x : res A) r : answers x r -> fst <$> r = x.
Proof. destruct r as [[a st]| |w]; cbn; [by intros [-> _]|done..]. Qed.

(** C17: the schema caches are transparent. After any history of request,
    response, batch, internal and helper validations, a validation gives the
    answer, or throws the exception, that reading and compiling the schemas
    anew gives. Which schema was compiled first, and for which action, decides
    nothing but the member [correct_example] of the error of a rejected public
    request: the verdict, the code, the message and every other member of the
    error are the same. *)
Theorem schema_caches_transparent (calls : list Call) (c : Call) :
  fst <$> perform c (after calls) = answer_of c.
Proof. apply answers_fst, perform_spec, after_coherent. Qed.

(** What accepting a request under an action's own schema means: the manifest
    lists the action, the schema of that name restricts its action to it, and
    the compiled schema finds no issue in the request. *)
Definition strictly_valid (action : bytes) (helper : bool) (request : json) : Prop :=
  exists catalog schema v instance,
    (exists manifest, read_file kInternalRequestManifest = inr manifest /\ read_manifest manifest = Some (inr catalog)) /\
    read_file (if helper then helper_ref action else action_ref action) = inr schema /\
    (if helper then internal_action_discriminator_matches schema action = (true, true)
     else exists branch, jget (lit "allOf") schema = Some (JArray [branch]) /\
          internal_action_discriminator_matches branch action = (true, true)) /\
    compile (runtime_schema_copy schema) = inr v /\ reparse request = inr instance /\ run v instance = inr [].

Lemma validate_accepts c action request : rs_ok (validate_with_cached_schema dump reparse run c action request) = true ->
  exists instance, reparse request = inr instance /\ run (validator c) instance = inr [].
Proof.
  unfold validate_with_cached_schema. destruct (reparse request) as [w|inst]; [done|].
  destruct (run (validator c) inst) as [w|[|i il]] eqn:E; [done|intros _; by eauto|]. by destruct (_ <? _)%nat.
Qed.

Lemma build_action_spec catalog action helper c : catalog_refs_ok catalog -> build_action catalog action helper = inr c ->
  exists schema, read_file (if helper then helper_ref action else action_ref action) = inr schema /\
    (if helper then internal_action_discriminator_matches schema action = (true, true)
     else exists branch, jget (lit "allOf") schema = Some (JArray [branch]) /\
          internal_action_discriminator_matches branch action = (true, true)) /\
    compile (runtime_schema_copy schema) = inr (validator c).
Proof.
  intros Hok. unfold SchemaValidator.build_action. destruct (mget action _) as [ref|] eqn:Er; [|done].
  assert (ref = if helper then helper_ref action else action_ref action) as ->.
  { destruct helper; [rewrite (cr_helpers _ Hok) in Er; case_bool_decide; by simplify_eq|].
    by destruct (cr_refs _ Hok action ref Er). }
  destruct (read_plain_json _ _ _) as [e|schema] eqn:Es; [done|]. intros Hb. exists schema. split; [done|].
  assert (forall d, (let '(has, exact) := d in if has && exact then compile_projected_validator compile schema
      (if helper then helper_ref action else action_ref action)
    else inl (config_error (if helper then helper_ref action else action_ref action)
      (lit "internal request runtime schema discriminator does not match its manifest action"))) = inr c ->
    d = (true, true) /\ compile (runtime_schema_copy schema) = inr (validator c)) as Hd.
  { intros [[] []]; cbn; try done. unfold compile_projected_validator, compile_validator.
    destruct (compile _) as [w|v]; [done|]. by intros [= <-]. }
  apply Hd in Hb as [Hb Hv]. split; [|done]. destruct helper; [done|].
  destruct (jget (lit "allOf") schema) as [[| | | | | |[|b [|b' l]]|]|]; try done. eauto.
Qed.

Lemma build_action_error catalog action helper e : build_action catalog action helper = inl e -> rs_ok e = false.
Proof.
  unfold SchemaValidator.build_action, compile_projected_validator, compile_validator. intros He.
  repeat (case_match; simplify_eq; try done).
Qed.

Lemma manifest_of_error e : manifest_of = Ret (inl e) -> rs_ok e = false.
Proof. unfold manifest_of. intros He. repeat (case_match; simplify_eq; try done). Qed.

Lemma manifest_of_ok catalog : manifest_of = Ret (inr catalog) ->
  exists manifest, read_file kInternalRequestManifest = inr manifest /\ read_manifest manifest = Some (inr catalog).
Proof. unfold manifest_of. intros He. repeat (case_match; simplify_eq; try done). eauto. Qed.

(** Accepting under the schema of an action is accepting strictly. *)
Lemma action_answer_strict catalog action helper request : manifest_of = Ret (inr catalog) ->
  rs_ok (action_answer catalog action helper request) = true -> strictly_valid action helper request.
Proof.
  intros Hm. unfold action_answer. destruct (build_action catalog action helper) as [e|c] eqn:Eb; cbn [with_cached].
  { by rewrite (build_action_error _ _ _ _ Eb). }
  intros (instance & Hi & Hr)%validate_accepts. destruct (manifest_of_ok _ Hm) as (manifest & Hf & Hc).
  destruct (read_manifest_spec _ _ Hc) as (Hok & _).
  destruct (build_action_spec _ _ _ _ Hok Eb) as (schema & Hs & Hd & Hv).
  exists catalog, schema, (validator c), instance. split_and!; eauto.
Qed.

Lemma internal_answer_strict request action r : string_member (lit "action") request = Some action -> action <> [] ->
  internal_answer request = Ret r -> rs_ok r = true -> strictly_valid action false request.
Proof.
  intros Ha Hne. unfold internal_answer. rewrite Ha. cbn [default]. unfold id.
  assert (is_object request = true) as -> by (by destruct request). cbn [negb].
  destruct (negb _); [by intros [= <-]|]. rewrite (proj2 (eqs_false action []) Hne).
  destruct manifest_of as [[e|catalog]| |w] eqn:Em; cbn; try done.
  - intros [= <-]. by rewrite (manifest_of_error _ Em).
  - destruct (mget action _); intros [= <-]; [|done]. by apply action_answer_strict.
Qed.

(** An internal request is accepted only by the strict schema of its own
    action. Whatever was validated before, when a request that names an action
    is accepted, directly or on its way to a session, the manifest lists the
    action, the schema file derived from its name (the envelope schema when
    the answer says so) restricts the action to this one, and that schema,
    compiled, finds no issue in the request. *)
Theorem internal_request_strict (calls : list Call) (forwarded : bool) (request : json) (action : bytes)
    (r : RuntimeSchemaValidationResult) (used : bool) (st : @Caches V) :
  string_member (lit "action") request = Some action -> action <> [] ->
  perform (if forwarded then CallHelper request else CallInternal request) (after calls) = Ret (r, used, st) ->
  rs_ok r = true -> strictly_valid action used request.
Proof.
  intros Ha Hne Hp Hr. assert (answer_of (if forwarded then CallHelper request else CallInternal request) = Ret (r, used)) as Hw.
  { rewrite <- (answers_fst _ _ (perform_spec _ _ (after_coherent calls))), Hp. done. }
  clear Hp. assert (forall x, x ≫= (fun r => Ret (r, false)) = Ret (r, used) -> x = internal_answer request ->
    strictly_valid action used request) as Hd.
  { intros x Hx ->. destruct (internal_answer request) as [r'| |w] eqn:Ei; try done. injection Hx as <- <-.
    by apply (internal_answer_strict request action r'). }
  destruct forwarded; [|by apply (Hd (internal_answer request))]. cbn [answer_of] in Hw. unfold helper_answer in Hw.
  rewrite Ha in Hw. destruct (negb _); [by eapply Hd|]. destruct manifest_of as [[e|catalog]| |w] eqn:Em; try done; cbn in Hw.
  - injection Hw as <- <-. by rewrite (manifest_of_error _ Em) in Hr.
  - destruct (negb _); [by eapply Hd|]. pose proof (action_answer_strict catalog action true request Em) as Hs.
    unfold action_answer in Hs. destruct (build_action catalog action true) as [e|v] eqn:Eb; injection Hw as <- <-.
    + by rewrite (build_action_error _ _ _ _ Eb) in Hr.
    + by apply Hs.
Qed.
End Coherent.

(** ** A concrete installation *)

Definition demo_schema : json :=
  JObject [(lit "allOf", JArray [JObject [(lit "properties",
    JObject [(lit "action", JObject [(lit "const", JString (lit "server.ping"))])])]])].
Definition demo_file (path : bytes) : option bytes :=
  if eqs path kInternalRequestManifest then Some (lit "manifest")
  else if eqs path (action_ref (lit "server.ping")) then Some (lit "schema") else None.
Definition demo_parse (text : bytes) : bytes + json :=
  if eqs text (lit "manifest") then inr demo_manifest
  else if eqs text (lit "schema") then inr demo_schema else inl (lit "parse error").
Definition demo_run (schema instance : json) : bytes + list ValidationIssue :=
  inr (if jcontains (lit "args") instance then [] else [MkIssue [] (lit "required property 'args' not found")]).
Definition demo_perform := perform (fun _ => []) (fun _ _ => false) inr demo_parse (fun p => p) demo_file inr demo_run (fun _ => []).
Definition demo_after := after (fun _ => []) (fun _ _ => false) inr demo_parse (fun p => p) demo_file inr demo_run (fun _ => []).
Definition ping (members : list (bytes * json)) : json :=
  JObject ((lit "action", JString (lit "server.ping")) :: (lit "api_version", JString kInternalApiVersion) :: members).

Lemma internal_request_strict_witness :
  let history := [CallInternal (ping []); CallRequest (lit "apb.query") JNull []] in
  (fst <$> demo_perform (CallHelper (ping [])) (demo_after history)) <> Ret (rs_default, false) /\
  strictly_valid inr demo_parse (fun p => p) demo_file inr demo_run (lit "server.ping") false (ping [(lit "args", JObject [])]).
Proof.
  split; [vm_compute; discriminate|].
  eapply (internal_request_strict (fun _ => []) (fun _ _ => false) inr demo_parse (fun p => p) demo_file inr demo_run (fun _ => [])
    [CallInternal (ping []); CallRequest (lit "apb.query") JNull []] true (ping [(lit "args", JObject [])]));
    [vm_compute; reflexivity|discriminate|vm_compute; reflexivity|reflexivity].
Defined.
