(* ===== verification/Engine.v ===== *)
(** * Engine: what the action handlers share

    The handlers of [src/engine/actions] run over the waveform interface
    ([backend/waveform_backend.h]), read their arguments from a JSON value and
    answer with one. [EngineWave] is the part of the interface they use,
    [attempt] a step on the backend that may end in an error response, [act] a
    step of a handler on its own state that may throw. The accessors are those
    of [nlohmann::json]; what they throw is kept. *)

From S2P Require Import Prelude CLib Json Waveform ClockSampling.

Open Scope Z_scope.

(** ** The waveform interface *)

(** [enum class TimeRenderUnit] of [waveform/time_contract.h]. *)
Inductive TimeRenderUnit := UnitNs | UnitPs | UnitUs | UnitAuto.

Definition parse_time_render_unit (text : bytes) : option TimeRenderUnit :=
  if eqs text (lit "ns") then Some UnitNs
  else if eqs text (lit "ps") then Some UnitPs
  else if eqs text (lit "us") then Some UnitUs
  else if eqs text (lit "auto") then Some UnitAuto
  else None.
Definition time_unit_error : bytes :=
  lit "TIME_UNIT_INVALID: args.render_time_unit must be ns, ps, us, or auto".

Class EngineWave (W : Type) := {
  ew_sampled :: SampledBackend W;
  ew_find_signal : W -> bytes -> Z * W;
  ew_is_loaded : W -> Z -> bool;
  ew_load_signals : W -> list Z -> Z * W;
  ew_signal_info : W -> Z -> option SignalInfo;
  ew_min_time : W -> Z;
  ew_max_time : W -> Z;
  (** The error text, or the ticks; the flag is [allow_max]. *)
  ew_parse_time : W -> bytes -> bool -> bytes + Z;
  ew_format_time : W -> Z -> TimeRenderUnit -> bytes;
  ew_time_idx_of : W -> Z -> Z;
  ew_signal_offset_at : W -> Z -> Z -> option SignalOffset;
  ew_signal_value_str : W -> Z -> Z -> Z -> bytes;
}.

(** The part of the interface that expressions are evaluated over. *)
#[export] Instance engine_waveform {W} `{EngineWave W} : WaveformBackend W := {|
  find_signal := ew_find_signal;
  sampled_value_at := sb_sampled_value_at;
  signal_info := ew_signal_info;
|}.

(** What the handlers rely on. [ew_names w r p]: in state [w] the handle [r]
    stands for the path [p]; [ew_later w w']: [w'] comes from [w] by looking
    paths up and loading signals. A signal whose metadata is available reads
    the same ever after, through any handle of its path. [ew_ok n] leaves room
    for [n] more lookups. *)
Class EngineLaws (W : Type) `{EngineWave W} := {
  ew_ok : nat -> W -> Prop;
  ew_names : W -> Z -> bytes -> Prop;
  ew_later : W -> W -> Prop;
  ew_ok_le : forall n m w, (m <= n)%nat -> ew_ok n w -> ew_ok m w;
  ew_later_refl : forall w, ew_later w w;
  ew_later_trans : forall w1 w2 w3, ew_later w1 w2 -> ew_later w2 w3 -> ew_later w1 w3;
  ew_later_names : forall w w' r p, ew_later w w' -> ew_names w r p -> ew_names w' r p;
  ew_later_time : forall w w' ti, ew_later w w' -> sb_time_at w' ti = sb_time_at w ti;
  ew_find : forall n w p, ew_ok (S n) w ->
    ew_ok n (snd (ew_find_signal w p)) /\ ew_later w (snd (ew_find_signal w p)) /\
    (fst (ew_find_signal w p) <> 0 -> ew_names (snd (ew_find_signal w p)) (fst (ew_find_signal w p)) p);
  ew_load : forall n w r p, ew_ok n w -> ew_names w r p ->
    ew_ok n (snd (ew_load_signals w [r])) /\ ew_later w (snd (ew_load_signals w [r]));
  ew_stable : forall w w' r r' p i, ew_ok 0 w -> ew_ok 0 w' -> ew_later w w' ->
    ew_names w r p -> ew_names w' r' p -> ew_signal_info w r = Some i ->
    ew_signal_info w' r' = Some i /\
    sb_time_indices_of w' r' = sb_time_indices_of w r /\
    forall ti point, sb_sampled_value_at w' r' ti point = sb_sampled_value_at w r ti point;
}.

(** ** Steps *)

Definition attempt (W A : Type) : Type := W -> (json + A) * W.
#[export] Instance attempt_ret W : MRet (attempt W) := fun A a w => (inr a, w).
#[export] Instance attempt_bind W : MBind (attempt W) := fun A B f m w =>
  match m w with
  | (inl e, w') => (inl e, w')
  | (inr a, w') => f a w'
  end.

Definition act (St A : Type) : Type := St -> res A * St.
#[export] Instance act_ret St : MRet (act St) := fun A a s => (Ret a, s).
#[export] Instance act_bind St : MBind (act St) := fun A B f m s =>
  match m s with
  | (Ret a, s') => f a s'
  | (UB, s') => (UB, s')
  | (Throw w, s') => (Throw w, s')
  end.
Definition lift {St A} (r : res A) : act St A := fun s => (r, s).
Definition get_state {St} : act St St := fun s => (Ret s, s).
Definition put_state {St} (s : St) : act St unit := fun _ => (Ret tt, s).

(** A step that may also end early with a value of type [E]. *)
Definition trial (E St A : Type) : Type := St -> res (E + A) * St.
#[export] Instance trial_ret E St : MRet (trial E St) := fun A a s => (Ret (inr a), s).
#[export] Instance trial_bind E St : MBind (trial E St) := fun A B f m s =>
  match m s with
  | (Ret (inr a), s') => f a s'
  | (Ret (inl e), s') => (Ret (inl e), s')
  | (UB, s') => (UB, s')
  | (Throw w, s') => (Throw w, s')
  end.
Definition merge_sum {A} (x : A + A) : A := match x with inl a | inr a => a end.
Definition stop {E St A} (e : E) : trial E St A := fun s => (Ret (inl e), s).
Definition pure_step {E St A} (r : res A) : trial E St A := fun s => (inr <$> r, s).
Definition run_step {E St A} (m : act St A) : trial E St A := fun s => (inr <$> (m s).1, (m s).2).
Definition answered {St A} (m : trial A St A) : act St A := fun s =>
  (merge_sum <$> (m s).1, (m s).2).

(** ** JSON *)

(** An object written as an initializer list. *)
Definition jobj (l : list (bytes * json)) : json := JObject (mfrom l).

(** [j.at(key)] *)
Definition at_key (k : bytes) (j : json) : res json :=
  match j with
  | JObject m => match mget k m with Some v => Ret v | None => Throw "out_of_range.403" end
  | _ => Throw "type_error.304"
  end.

(** Conversion to [std::string] and to [bool]. *)
Definition as_string (j : json) : res bytes :=
  match j with JString s => Ret s | _ => Throw "type_error.302" end.
Definition as_bool (j : json) : res bool :=
  match j with JBool b => Ret b | _ => Throw "type_error.302" end.

(** [j.value(key, fallback)] with the conversion of its type. *)
Definition value_or {A} (convert : json -> res A) (k : bytes) (fallback : A) (j : json) : res A :=
  match j with
  | JObject m => match mget k m with Some v => convert v | None => Ret fallback end
  | _ => Throw "type_error.306"
  end.

(** [get<int>] and [get<unsigned>]; [trunc] is the integer part of a float. *)
Definition as_number (trunc : bytes -> Z) (wrap : Z -> Z) (j : json) : res Z :=
  match j with
  | JInt z | JUint z => Ret (wrap z)
  | JBool b => Ret (if b then 1 else 0)
  | JFloat f => Ret (wrap (trunc f))
  | _ => Throw "type_error.302"
  end.

(** [j.empty()] *)
Definition json_empty (j : json) : bool :=
  match j with
  | JNull | JArray [] | JObject [] => true
  | _ => false
  end.
Definition json_null (j : json) : bool := match j with JNull => true | _ => false end.

(** The values a range [for] visits. *)
Definition json_items (j : json) : list json :=
  match j with
  | JArray l => l
  | JObject m => map snd m
  | JNull => []
  | _ => [j]
  end.

(** [merge(target, source)]: each member of an object [source] is assigned. *)
Definition merge (target source : json) : json :=
  match target, source with
  | JObject t, JObject s => JObject (foldl (fun m kv => mset (fst kv) (snd kv) m) t s)
  | _, _ => target
  end.
Definition set_key (k : bytes) (v j : json) : json :=
  match j with JObject m => JObject (mset k v m) | _ => j end.

(** ** Responses *)

Definition error_response (err_code message : bytes) : json :=
  jobj [(lit "ok", JBool false);
        (lit "error", jobj [(lit "code", JString err_code); (lit "message", JString message)])].

Definition rich_error_response (err_code message : bytes) (details : json) : json :=
  let error := jobj [(lit "code", JString err_code); (lit "message", JString message);
                     (lit "recoverable", JBool true); (lit "error_layer", JString (lit "handler"))] in
  jobj [(lit "ok", JBool false); (lit "error", merge error details)].

Definition ok_response (summary data : json) : json :=
  jobj [(lit "ok", JBool true); (lit "summary", summary); (lit "data", data)].
