(* ===== verification/StepLogic.v ===== *)
(** * StepLogic: what a handler does to its state

    A handler is a chain of steps of Engine.v that may end early, throw or be
    undefined. [moves R m] says that, however a step ends, it takes the state
    along the relation [R]; [move_step] derives it for a whole handler from the
    steps it is made of, which the hints of the database [moving] know. *)

From S2P Require Import Prelude CLib Json Engine.

Section Moves.
Context {St : Type}.

Definition moves (R : relation St) {A} (m : St -> A * St) : Prop := forall s, R s (snd (m s)).

Lemma moves_weaken (R R' : relation St) {A} (m : St -> A * St) : (forall s s', R s s' -> R' s s') -> moves R m -> moves R' m.
Proof. intros HR Hm s. apply HR, Hm. Qed.

(** Two steps along different relations; the first may be the last. *)
Lemma moves_compose (R1 R2 R : relation St) {E A B} (m : trial E St A) (f : A -> trial E St B) :
  (forall s s', R1 s s' -> R s s') -> (forall s s1 s2, R1 s s1 -> R2 s1 s2 -> R s s2) ->
  moves R1 m -> (forall a, moves R2 (f a)) -> moves R (m ≫= f).
Proof.
  intros H1 H12 Hm Hf s. unfold mbind, trial_bind. specialize (Hm s). destruct (m s) as [[[e|a]| |w] s']; cbn in *; try by apply H1.
  exact (H12 s s' _ Hm (Hf a s')).
Qed.

Context (R : relation St) `{!PreOrder R}.

Lemma moves_bind {E A B} (m : trial E St A) (f : A -> trial E St B) : moves R m -> (forall a, moves R (f a)) -> moves R (m ≫= f).
Proof. apply moves_compose; [done|]. intros s s1 s2. by etransitivity. Qed.
Lemma moves_same {A} (m : St -> A * St) : (forall s, snd (m s) = s) -> moves R m.
Proof. intros Hm s. by rewrite Hm. Qed.
Lemma moves_ret {E A} (a : A) : moves R (mret (M := trial E St) a).
Proof. by apply moves_same. Qed.
Lemma moves_pure {E A} (r : res A) : moves R (pure_step (E := E) r).
Proof. by apply moves_same. Qed.
Lemma moves_stop {E A} (e : E) : moves R (stop (A := A) e).
Proof. by apply moves_same. Qed.
Lemma moves_get {E} : moves R (run_step (E := E) get_state).
Proof. by apply moves_same. Qed.
Lemma moves_run {E A} (m : act St A) : moves R m -> moves R (run_step (E := E) m).
Proof. intros Hm s. apply Hm. Qed.
Lemma moves_answered {A} (m : trial A St A) : moves R m -> moves R (answered m).
Proof. intros Hm s. apply Hm. Qed.
Lemma moves_if {A} (b : bool) (m n : St -> A * St) : moves R m -> moves R n -> moves R (if b then m else n).
Proof. by destruct b. Qed.
End Moves.

(** ** Values *)

(** What holds of the value of a step that ends normally. *)
Definition yields {E St A} (P : A -> Prop) (m : trial E St A) : Prop := forall s a s', m s = (Ret (inr a), s') -> P a.
Lemma yields_bind {E St A B} (P : A -> Prop) (Q : B -> Prop) (m : trial E St A) (f : A -> trial E St B) :
  yields P m -> (forall a, P a -> yields Q (f a)) -> yields Q (m ≫= f).
Proof.
  intros Hm Hf s b s' E1. unfold mbind, trial_bind in E1. specialize (Hm s). destruct (m s) as [[[e|a]| |w] s1]; try done.
  eapply Hf; [by eapply Hm|done].
Qed.
Lemma yields_any {E St A} (m : trial E St A) : yields (fun _ => True) m.
Proof. done. Qed.
Lemma yields_ret {E St A} (P : A -> Prop) (a : A) : P a -> yields P (mret (M := trial E St) a).
Proof. by intros Ha s b s' [= <- <-]. Qed.
Lemma yields_stop {E St A} (P : A -> Prop) (e : E) : yields P (stop (St := St) (A := A) e).
Proof. done. Qed.
Lemma moves_bind_yields {St} (R : relation St) `{!PreOrder R} {E A B} (P : A -> Prop) (m : trial E St A) (f : A -> trial E St B) :
  moves R m -> yields P m -> (forall a, P a -> moves R (f a)) -> moves R (m ≫= f).
Proof.
  intros Hm Hy Hf s. unfold mbind, trial_bind. specialize (Hm s). specialize (Hy s). destruct (m s) as [[[e|a]| |w] s']; cbn in *; try done.
  etransitivity; [exact Hm|]. by apply Hf, (Hy _ _ eq_refl).
Qed.

Create HintDb moving.
#[export] Hint Resolve moves_ret moves_pure moves_stop moves_get : moving.

(** One step of a handler. *)
Ltac move_step :=
  match goal with
  | |- moves _ (answered _) => apply moves_answered
  | |- moves _ (mbind _ _) => apply moves_bind; [try apply _| |intros]
  | |- moves _ (if _ then _ else _) => apply moves_if
  | |- moves _ (match ?x with _ => _ end) => destruct x
  | |- moves _ (let _ := _ in _) => cbv zeta
  | |- moves _ _ => solve [eauto with moving typeclass_instances]
  | |- moves _ (run_step _) => apply moves_run
  end.
