(* ===== verification/TableWave.v ===== *)
(** * TableWave: a waveform given by a table

    A small waveform for examples: the values of each signal cycle by cycle. It
    is an instance of the interface of Engine.v on which the handlers run. *)

From S2P Require Import Prelude CLib Json LogicValue Waveform ClockSampling SessionTypes Engine.

Open Scope Z_scope.

(** Signal [name] has the [k]-th value of its row during cycle [k]. The clock
    [clk] rises at the indices [2k + 1]; index [i] is at time [10 i]. A cycle
    begins with the fall of the clock, or in phase 1 with its rise. *)
Record Table := MkTable { tb_rows : list (bytes * list bytes); tb_cycles : Z; tb_phase : Z }.
Definition row_index (name : bytes) (t : Table) : Z :=
  match List.find (fun k => eqs (fst (nth k (tb_rows t) ([], []))) name) (List.seq 0 (length (tb_rows t))) with
  | Some k => Z.of_nat k + 1
  | None => 0
  end.
Definition table_value (t : Table) (ref index : Z) : bytes :=
  let row := nth (Z.to_nat (ref - 1)) (tb_rows t) ([], []) in
  if eqs (fst row) (lit "clk") then (if Z.even index then lit "0" else lit "1")
  else nth (Z.to_nat ((index + tb_phase t) / 2)) (snd row) (lit "x").
Definition table_sample (t : Table) (ref ti : Z) (point : ObservationPoint) : option SampledValue :=
  let index := match point with Before => ti - 1 | _ => ti end in
  if (index <? 0) || (2 * tb_cycles t <=? index) then None
  else Some (MkSV (MkWV BitVector (table_value t ref index) 0) ti 0 1 true).
Definition table_changes (t : Table) (ref : Z) : list Z :=
  List.filter (fun i => (i =? 0) || negb (eqs (table_value t ref (i - 1)) (table_value t ref i))) (seqZ 0 (2 * tb_cycles t)).
Definition table_wave : EngineWave Table := {|
  ew_sampled := {| sb_time_indices_of := table_changes; sb_time_at _ ti := 10 * ti; sb_sampled_value_at := table_sample |};
  ew_find_signal t name := (row_index name t, t);
  ew_is_loaded _ _ := true;
  ew_load_signals t refs := (zlen refs, t);
  ew_signal_info t ref := Some (MkSI BitVector 0 2 (zlen (table_value t ref 0)) 0 false);
  ew_min_time _ := 0;
  ew_max_time t := 10 * (2 * tb_cycles t - 1);
  ew_parse_time _ _ _ := inl [];
  ew_format_time _ time _ := to_string time;
  ew_time_idx_of _ time := time / 10;
  ew_signal_offset_at _ _ ti := Some (MkSO ti 1 true 0 false);
  ew_signal_value_str t ref start _ := table_value t ref start;
|}.

(** A row of single bits. *)
Definition bits_row (name : bytes) (bits : bytes) : bytes * list bytes := (name, map (fun b => [b]) bits).
