(* ===== verification/EngineFst.v ===== *)
(** * EngineFst: the FST backend as the waveform of the engine

    [WellenFstBackend] provides the interface the action handlers use and
    keeps its promise: once a signal is loaded it reads the same through every
    handle of its path, whatever is looked up and loaded later. Parsing and
    printing of times are arguments. *)

From S2P Require Import Prelude CLib Waveform WellenApi WellenBackend WellenTheory ClockSampling Engine.

Open Scope Z_scope.

Section Fst.
Context {D X : Type} `{WellenDoc D X}.
Abbreviation W := (WellenFstBackend D X).
Context (parse_time : W -> bytes -> bool -> bytes + Z) (format_time : W -> Z -> TimeRenderUnit -> bytes).
Implicit Types (w : W).

#[local] Instance fst_engine : EngineWave W := {|
  ew_sampled := wellen_sampled;
  ew_find_signal := find_signal;
  ew_is_loaded := is_loaded;
  ew_load_signals := load_signals;
  ew_signal_info w r := (signal_info w r).1;
  ew_min_time := min_time;
  ew_max_time := max_time;
  ew_parse_time := parse_time;
  ew_format_time := format_time;
  ew_time_idx_of := time_idx_of;
  ew_signal_offset_at w r ti := (signal_offset_at w r ti).1;
  ew_signal_value_str w r start element := (signal_value_str w r start element).1;
|}.

(** The data of a loaded native signal in two pairs of reader handles. *)
Definition same_data (d : D) (x : X) (d' : D) (x' : X) (ref : Z) : Prop :=
  wellen_signal_info d' ref = wellen_signal_info d ref /\
  (forall n, stored d' ref n = stored d ref n) /\
  wellenx_signal_time_indices x' ref = wellenx_signal_time_indices x ref.

Definition names w (r : Z) (p : bytes) : Prop := r <> 0 /\ denotes w r (resolve (db w) p).

Record later w w' : Prop := {
  la_times : time_table w' = time_table w;
  la_handles : forall h sel, packed_selection w h = Some sel -> packed_selection w' h = Some sel;
  la_paths : forall p, resolve (db w') p = resolve (db w) p;
  la_data : forall d x ref i, db w = Some d -> xdb w = Some x -> wellen_signal_info d ref = Some i ->
    exists d' x', db w' = Some d' /\ xdb w' = Some x' /\ same_data d x d' x' ref;
}.

Lemma extends_later w w' : extends w w' -> later w w'.
Proof.
  intros (Ed & Ex & Et & Hh). split; [done|done|by rewrite Ed|]. intros d x ref i Hd Hx Hi.
  exists d, x. by rewrite Ed, Ex.
Qed.

Lemma later_trans w1 w2 w3 : later w1 w2 -> later w2 w3 -> later w1 w3.
Proof.
  intros [T1 H1 P1 D1] [T2 H2 P2 D2]. split; [congruence|auto|intros p; by rewrite P2|].
  intros d x ref i Hd Hx Hi. destruct (D1 d x ref i Hd Hx Hi) as (d2 & x2 & Hd2 & Hx2 & E1 & E2 & E3).
  destruct (D2 d2 x2 ref i Hd2 Hx2 ltac:(congruence)) as (d3 & x3 & Hd3 & Hx3 & F1 & F2 & F3).
  exists d3, x3. split_and!; [done|done|]. split_and!; [congruence|intros n; by rewrite F2|congruence].
Qed.

Lemma later_names w w' r p : later w w' -> names w r p -> names w' r p.
Proof.
  intros Hl [Hr Hd]. split; [done|]. rewrite (la_paths _ _ Hl). revert Hd.
  destruct (resolve (db w) p); cbn; [done|done|]. intros (Hs & Hrest). split; [by apply (la_handles _ _ Hl)|done].
Qed.

Lemma load_later w refs : wf w -> later w (load_signals w refs).2.
Proof.
  intros Hw. unfold load_signals. destruct refs as [|r refs]; [apply extends_later, extends_refl|].
  generalize (map (native_signal_ref w) (r :: refs)). intros refs'.
  case_if; [apply extends_later, extends_refl|]. destruct (db w) as [d|] eqn:Hd; [|apply extends_later, extends_refl].
  destruct (wf_open_handles w d Hw Hd) as (x & Hx & Hp).
  pose proof (same_file_load d refs') as Hf. pose proof (fun ref i => load_keeps d x refs' ref i Hp) as Hk.
  destruct (wellen_load_signals d refs') as [n d']. cbn [snd] in *. rewrite Hx. cbn [fmap option_fmap option_map].
  split; [done|done| |].
  - intros p. cbn [db set_handles]. unfold resolve. by rewrite Hd, (index_of_same d d' Hf).
  - intros d0 x0 ref i Hd0 Hx0 Hi. simplify_eq. destruct (Hk ref i Hi) as (E1 & E2 & E3).
    eexists d', _. split_and!; [done|done|]. split_and!; [congruence|done|done].
Qed.

Lemma same_native d x d' x' ref : same_data d x d' x' ref -> native_changes d' x' ref = native_changes d x ref.
Proof.
  intros (E1 & E2 & E3). unfold native_changes. rewrite E1, E3. destruct (wellen_signal_info d ref); [|done].
  apply imap_ext. intros i t _. cbn. by rewrite E2.
Qed.

Lemma same_selection d x d' x' sel : same_data d x d' x' (base_ref sel) ->
  selection_changes (Some d') (Some x') sel = selection_changes (Some d) (Some x) sel.
Proof.
  intros (E1 & E2 & E3). unfold selection_changes. cbn [mbind option_bind]. rewrite E1.
  destruct (wellen_signal_info d (base_ref sel)) as [i|] eqn:Ei; [|done]. f_equal.
  assert (native_time_indices_of (at_handles (Some d') (Some x')) (base_ref sel) =
          native_time_indices_of (at_handles (Some d) (Some x)) (base_ref sel)) as ->.
  { unfold native_time_indices_of, at_handles. cbn [db xdb set_handles mbind option_bind]. rewrite E1, Ei, E3. done. }
  apply select_changes_ext. intros m Hm.
  by rewrite (native_typed_value_stored _ d'), (native_typed_value_stored _ d), E2 by done.
Qed.

(** A loaded target keeps its metadata and its changes. *)
Lemma target_stable w w' t i : wf w -> later w w' -> info_of (db w) (xdb w) t = Some i ->
  info_of (db w') (xdb w') t = Some i /\
  target_changes (db w') (xdb w') t = target_changes (db w) (xdb w) t.
Proof.
  intros Hw Hl Hi. destruct (db w) as [d|] eqn:Hd; [|done]. destruct (wf_open_handles w d Hw Hd) as (x & Hx & _).
  unfold info_of in Hi. cbn [mbind option_bind] in Hi.
  destruct (wellen_signal_info d (target_ref t)) as [info|] eqn:Ei; [|done]. cbn [mbind option_bind] in Hi.
  destruct (la_data _ _ Hl d x (target_ref t) info Hd Hx Ei) as (d' & x' & Hd' & Hx' & Hs).
  rewrite Hd', Hx', Hx in *. unfold info_of. cbn [mbind option_bind]. rewrite (proj1 Hs), Ei. cbn [mbind option_bind].
  destruct t as [|r|sel]; cbn [target_ref target_changes] in *.
  - by rewrite invalid_ref in Ei.
  - by rewrite (same_native d x d' x' r Hs).
  - by rewrite (same_selection d x d' x' sel Hs).
Qed.

#[local, refine] Instance fst_laws : EngineLaws W := {|
  ew_ok := roomy;
  ew_names := names;
  ew_later := later;
|}.
Proof.
  - intros n m w Hle [Hw Hr]. split; [done|lia].
  - intros w. apply extends_later, extends_refl.
  - exact later_trans.
  - exact later_names.
  - intros w w' ti Hl. cbn. unfold time_at. by rewrite (la_times _ _ Hl).
  - intros n w p [Hw Hr]. pose proof (find_signal_refines w p Hw ltac:(lia)) as Hf. cbn.
    destruct (find_signal w p) as [h w']. destruct Hf as (Hw' & He & Hden & Hz). cbn [fst snd] in *.
    split_and!; [split; [done|lia]|by apply extends_later|]. intros Hh. split; [done|].
    destruct He as (-> & _). done.
  - intros n w r p [Hw Hr] _. cbn [ew_load_signals fst_engine]. split; [|by apply load_later].
    split; [by apply load_wf|]. unfold load_signals. repeat (case_match; try done).
  - intros w w' r r' p i [Hw _] [Hw' _] Hl [Hr Hden] [Hr' Hden'] Hi. cbn in Hi |- *.
    rewrite (la_paths _ _ Hl) in Hden'. rewrite (proj1 (info_reads w r _ Hw Hden)) in Hi.
    destruct (target_stable w w' _ i Hw Hl Hi) as [Hi' Hc].
    rewrite (proj1 (info_reads w' r' _ Hw' Hden')), (proj1 (indices_reads w' r' _ Hw' Hden')),
      (proj1 (indices_reads w r _ Hw Hden)), Hi', Hc. split_and!; [done|done|]. intros ti point.
    by rewrite (proj1 (sampled_reads w' r' _ ti point Hw' Hden')), (proj1 (sampled_reads w r _ ti point Hw Hden)), Hc.
Defined.
End Fst.
