(* ===== verification/Apb.v ===== *)
(** * Apb: APB transactions of a waveform and the actions over them

    Models [src/engine/actions/protocol/apb_actions.cpp] except the text
    renderers: the configurations and cursors the engine keeps, the scan that
    reconstructs completed transfers from the clock edges, the address and
    direction filters and the six actions. The environment, the file a
    configuration is read from and the JSON parser are arguments. *)

From S2P Require Import Prelude CLib Json LogicValue Waveform ClockSampling SessionTypes Engine.

Open Scope Z_scope.

Record ApbConfig := MkApbConfig {
  ac_name : bytes;
  ac_clock : bytes;
  ac_edge : bytes;
  ac_sample_point : bytes;
  ac_reset : bytes;
  ac_reset_polarity : bytes;
  ac_paddr : bytes;
  ac_psel : bytes;
  ac_penable : bytes;
  ac_pwrite : bytes;
  ac_pwdata : bytes;
  ac_prdata : bytes;
  ac_pready : bytes;
  ac_pslverr : bytes;
}.

Record ApbTransaction := MkApbTransaction {
  at_time : Z;
  at_is_write : bool;
  at_has_error : bool;
  at_addr : bytes;
  at_data : bytes;
  at_addr_width : Z;
  at_data_width : Z;
}.

Record ApbScan := MkApbScan {
  transactions : list ApbTransaction;
  complete : bool;
  unresolved : Z;
}.

(** ** Examples and errors *)

Definition action_example (action : bytes) (args : json) : json :=
  jobj [(lit "api_version", JString (lit "xdebug.v1")); (lit "action", JString action);
        (lit "target", jobj [(lit "session_id", JString (lit "case_a"))]); (lit "args", args)].

Definition apb_query_example : json :=
  action_example (lit "apb.query")
    (jobj [(lit "name", JString (lit "apb0")); (lit "direction", JString (lit "all"));
           (lit "query", jobj [(lit "line_limit", JInt 8)])]).

Definition apb_config_load_example : json :=
  action_example (lit "apb.config.load")
    (jobj [(lit "name", JString (lit "apb0"));
           (lit "config", jobj [(lit "clock", JString (lit "top.u.clk"));
              (lit "reset", jobj [(lit "signal", JString (lit "top.u.rst_n"));
                                  (lit "polarity", JString (lit "active_low"))]);
              (lit "paddr", JString (lit "top.u.paddr")); (lit "psel", JString (lit "top.u.psel"));
              (lit "penable", JString (lit "top.u.penable")); (lit "pready", JString (lit "top.u.pready"));
              (lit "pslverr", JString (lit "top.u.pslverr")); (lit "pwrite", JString (lit "top.u.pwrite"));
              (lit "pwdata", JString (lit "top.u.pwdata")); (lit "prdata", JString (lit "top.u.prdata"))])]).

Definition apb_window_example : json :=
  action_example (lit "apb.transfer_window")
    (jobj [(lit "name", JString (lit "if0"));
           (lit "time_range", jobj [(lit "begin", JString (lit "0ns")); (lit "end", JString (lit "100ns"))])]).

Definition config_not_found_response (action name : bytes) : json :=
  let example := if eqs action (lit "apb.query") then apb_query_example
                 else action_example action (jobj [(lit "name", JString (lit "apb0"))]) in
  rich_error_response (lit "CONFIG_NOT_FOUND") (lit "apb config not found: " ++ name)
    (jobj [(lit "invalid_arg", JString (lit "args.name"));
           (lit "expected", JString (lit "name of a previously loaded apb config"));
           (lit "missing_name", JString name); (lit "missing_resource", JString (lit "apb config"));
           (lit "correct_example", example);
           (lit "example_note", JString (lit "Example only; choose an existing config name or load this config before using it."));
           (lit "next_actions", JArray [JString (lit "Call apb.config.list to inspect loaded configs.");
                                        JString (lit "Call apb.config.load before this action.")])]).

Definition set_value_width_complete (summary : json) : json :=
  set_key (lit "width_diagnostics") (JArray []) (set_key (lit "value_width_complete") (JBool true) summary).

(** ** The memory budget *)

(** The digits of a budget; [inl] is the message. *)
Fixpoint budget_digits (name raw : bytes) (parsed : Z) : bytes + Z :=
  match raw with
  | [] => inr parsed
  | c :: raw' =>
      if negb (isdigit c) then inl (name ++ lit " must contain only unsigned decimal digits")
      else
        let digit := code c - 48 in
        if (u64_max - digit) / 10 <? parsed then inl (name ++ lit " exceeds uint64 range")
        else budget_digits name raw' (u64 (parsed * 10 + digit))
  end.

Definition parse_analysis_cache_budget (getenv : bytes -> option bytes) (name : bytes) (default_value : Z)
    (allow_zero : bool) : bytes + Z :=
  match getenv name with
  | None => inr default_value
  | Some [] => inl (name ++ lit " must be a non-empty unsigned integer")
  | Some raw =>
      match budget_digits name raw 0 with
      | inl e => inl e
      | inr parsed =>
          if negb allow_zero && (parsed =? 0) then inl (name ++ lit " must be positive") else inr parsed
      end
  end.

Definition newline : ascii := chr 10.
Definition apb_cache_key_summary (c : ApbConfig) : bytes :=
  let material :=
    ac_name c ++ newline :: ac_clock c ++ newline :: ac_edge c ++ newline :: ac_sample_point c ++ newline ::
    ac_reset c ++ newline :: ac_paddr c ++ newline :: ac_psel c ++ newline :: ac_penable c ++ newline ::
    ac_pwrite c ++ newline :: ac_pwdata c ++ newline :: ac_prdata c ++ newline :: ac_pready c ++ newline ::
    ac_pslverr c in
  setw_zero 16 (hex_print (stable_path_hash material)).

(** [sizeof(ApbTransaction)] with 32-byte strings and 8-byte alignment. *)
Definition transaction_size : Z := 88.

Definition invalid_environment (message : bytes) : json :=
  rich_error_response (lit "INVALID_ENVIRONMENT") message (jobj [(lit "recoverable", JBool false)]).

(** The empty object is no error. *)
Definition apb_analysis_budget_error (getenv : bytes -> option bytes) (c : ApbConfig) : json :=
  match parse_analysis_cache_budget getenv (lit "XDEBUG_ANALYSIS_CACHE_MAX_BYTES") 1073741824 true with
  | inl message => invalid_environment message
  | inr soft_max_bytes =>
      match parse_analysis_cache_budget getenv (lit "XDEBUG_ANALYSIS_CACHE_HARD_MAX_BYTES") 2147483648 false with
      | inl message => invalid_environment message
      | inr hard_max_bytes =>
          if hard_max_bytes <? soft_max_bytes
          then invalid_environment
                 (lit "XDEBUG_ANALYSIS_CACHE_MAX_BYTES must not exceed XDEBUG_ANALYSIS_CACHE_HARD_MAX_BYTES")
          else if transaction_size <=? hard_max_bytes then JObject []
          else
            rich_error_response (lit "ANALYSIS_MEMORY_LIMIT_EXCEEDED")
              (lit "analysis cache build exceeds the configured hard memory limit")
              (jobj [(lit "current_estimated_bytes", JInt 0); (lit "hard_max_bytes", JUint hard_max_bytes);
                     (lit "protocol", JString (lit "apb")); (lit "key_summary", JString (apb_cache_key_summary c));
                     (lit "next_actions", JArray [
                        JString (lit "For stream analysis, explicitly retry with cache_scope=range or a smaller time_range.");
                        JString (lit "If range analysis still exceeds the limit, use x-npi for one-off offline analysis.")])])
      end
  end.

(** ** Configurations *)

Definition set_nonempty (k v : bytes) (j : json) : json :=
  if eqs v [] then j else set_key k (JString v) j.

Definition config_json (c : ApbConfig) : json :=
  set_nonempty (lit "pslverr") (ac_pslverr c)
  (set_nonempty (lit "pready") (ac_pready c)
  (set_nonempty (lit "sample_point") (ac_sample_point c)
    (jobj [(lit "name", JString (ac_name c)); (lit "sampling_mode", JString (lit "clock_edge"));
           (lit "clock", JString (ac_clock c)); (lit "edge", JString (ac_edge c));
           (lit "reset", jobj [(lit "signal", JString (ac_reset c)); (lit "polarity", JString (ac_reset_polarity c))]);
           (lit "paddr", JString (ac_paddr c)); (lit "psel", JString (ac_psel c));
           (lit "penable", JString (ac_penable c)); (lit "pwrite", JString (ac_pwrite c));
           (lit "pwdata", JString (ac_pwdata c)); (lit "prdata", JString (ac_prdata c))]))).

Definition string_at_key (k : bytes) (j : json) : res bytes := v ← at_key k j; as_string v.

(** [inl] is the message. *)
Definition parse_config (name : bytes) (source : json) : res (bytes + ApbConfig) :=
  clock ← string_at_key (lit "clock") source;
  edge ← value_or as_string (lit "edge") (lit "negedge") source;
  sample_point ← value_or as_string (lit "sample_point") [] source;
  paddr ← string_at_key (lit "paddr") source;
  psel ← string_at_key (lit "psel") source;
  penable ← string_at_key (lit "penable") source;
  pwrite ← string_at_key (lit "pwrite") source;
  pwdata ← string_at_key (lit "pwdata") source;
  prdata ← string_at_key (lit "prdata") source;
  pready ← value_or as_string (lit "pready") [] source;
  pslverr ← value_or as_string (lit "pslverr") [] source;
  reset_source ← at_key (lit "reset") source;
  reset ← string_at_key (lit "signal") reset_source;
  reset_source ← at_key (lit "reset") source;
  polarity ← string_at_key (lit "polarity") reset_source;
  if eqs edge (lit "negedge") && negb (eqs sample_point [])
  then Ret (inl (lit "APB config sample_point is only valid with edge:posedge or edge:dual"))
  else
    let sample_point := if negb (eqs edge (lit "negedge")) && eqs sample_point [] then lit "before" else sample_point in
    Ret (inr (MkApbConfig name clock edge sample_point reset polarity paddr psel penable pwrite pwdata prdata pready pslverr)).

Definition config_point (c : ApbConfig) : ObservationPoint :=
  if eqs (ac_edge c) (lit "negedge") then Raw
  else if eqs (ac_sample_point c) (lit "after") then After else Before.

(** ** Sampled logic *)

Inductive Tri := TriFalse | TriTrue | TriUnknown.
#[export] Instance Tri_eq_dec : EqDecision Tri.
Proof. solve_decision. Defined.

Fixpoint truth_bits (bits : bytes) (one : bool) : Tri :=
  match bits with
  | [] => if one then TriTrue else TriFalse
  | b :: bits' =>
      if eqc b "x"%char || eqc b "X"%char || eqc b "z"%char || eqc b "Z"%char then TriUnknown
      else truth_bits bits' (if eqc b "1"%char then true else one)
  end.
Definition truth (v : WaveformValue) : Tri :=
  if negb (bool_decide (kind v = BitVector)) || eqs (text v) [] then TriUnknown
  else truth_bits (text v) false.

Definition selected_edge (edge : bytes) (rising falling : bool) : bool :=
  if eqs edge (lit "dual") then rising || falling
  else if eqs edge (lit "posedge") then rising else falling.

(** ** The scan *)

Record ApbRefs := MkApbRefs {
  r_clock : Z; r_reset : Z; r_paddr : Z; r_psel : Z; r_penable : Z; r_pwrite : Z; r_pwdata : Z; r_prdata : Z;
  r_pready : Z; r_pslverr : Z;
  r_addr_width : Z; r_write_width : Z; r_read_width : Z;
}.

(** What one selected edge contributes: nothing, an unresolved sample, or an
    access. *)
Inductive Access := NoAccess | UnresolvedAccess | Completed (txn : ApbTransaction).

Record ScanState := MkScanState {
  previous_ti : Z;
  selected_edge_ordinal : Z;
  last_accept_edge_ordinal : Z;
  scan_result : ApbScan;
}.

Definition mark_unresolved (r : ApbScan) : ApbScan := MkApbScan (transactions r) false (u64 (unresolved r + 1)).
Definition push_transaction (t : ApbTransaction) (r : ApbScan) : ApbScan :=
  MkApbScan (transactions r ++ [t]) (complete r) (unresolved r).

(** The last four conjuncts of [duplicate_access_tail]. *)
Definition same_access (a b : ApbTransaction) : bool :=
  Bool.eqb (at_is_write a) (at_is_write b) && Bool.eqb (at_has_error a) (at_has_error b)
  && eqs (at_addr a) (at_addr b) && eqs (at_data a) (at_data b).

(** The end of the loop body for the edge numbered [current]. *)
Definition record_access (current : Z) (a : Access) (st : ScanState) : ScanState :=
  match a with
  | NoAccess => st
  | UnresolvedAccess =>
      MkScanState (previous_ti st) (selected_edge_ordinal st) (last_accept_edge_ordinal st)
        (mark_unresolved (scan_result st))
  | Completed txn =>
      let duplicate_access_tail :=
        negb (last_accept_edge_ordinal st =? u64_max)
        && (u64 (last_accept_edge_ordinal st + 1) =? current)
        && match list.last (transactions (scan_result st)) with
           | Some back => same_access back txn
           | None => false
           end in
      MkScanState (previous_ti st) (selected_edge_ordinal st) current
        (if duplicate_access_tail then scan_result st else push_transaction txn (scan_result st))
  end.

Section Wave.
Context {W : Type} `{EngineWave W}.

Definition load_ref (path role : bytes) : attempt W (Z * SignalInfo) := fun w =>
  let '(ref, w) := ew_find_signal w path in
  if ref =? 0
  then (inl (error_response (lit "CONFIG_SIGNAL_NOT_FOUND") (lit "APB " ++ role ++ lit " signal not found: " ++ path)), w)
  else
    let '(loaded, w) :=
      if ew_is_loaded w ref then (true, w)
      else let '(count, w) := ew_load_signals w [ref] in (count =? 1, w) in
    if negb loaded
    then (inl (error_response (lit "VALUE_NOT_AVAILABLE") (lit "failed to load APB " ++ role ++ lit ": " ++ path)), w)
    else match ew_signal_info w ref with
         | None =>
             (inl (error_response (lit "VALUE_NOT_AVAILABLE") (lit "APB " ++ role ++ lit " metadata unavailable: " ++ path)), w)
         | Some info => (inr (ref, info), w)
         end.

Definition load_optional_ref (path role : bytes) : attempt W Z :=
  if eqs path [] then mret 0 else r ← load_ref path role; mret (fst r).

Definition load_refs (c : ApbConfig) : attempt W ApbRefs :=
  clock ← load_ref (ac_clock c) (lit "clock");
  reset ← load_ref (ac_reset c) (lit "reset");
  paddr ← load_ref (ac_paddr c) (lit "paddr");
  psel ← load_ref (ac_psel c) (lit "psel");
  penable ← load_ref (ac_penable c) (lit "penable");
  pwrite ← load_ref (ac_pwrite c) (lit "pwrite");
  pwdata ← load_ref (ac_pwdata c) (lit "pwdata");
  prdata ← load_ref (ac_prdata c) (lit "prdata");
  pready ← load_optional_ref (ac_pready c) (lit "pready");
  pslverr ← load_optional_ref (ac_pslverr c) (lit "pslverr");
  mret (MkApbRefs (fst clock) (fst reset) (fst paddr) (fst psel) (fst penable) (fst pwrite) (fst pwdata) (fst prdata)
          pready pslverr (si_width (snd paddr)) (si_width (snd pwdata)) (si_width (snd prdata))).

Definition sample (w : W) (ref time_idx : Z) (point : ObservationPoint) : option WaveformValue :=
  sv_value <$> sb_sampled_value_at w ref time_idx point.

(** The samples of an accepted access and the transaction they make. *)
Definition completed_access (w : W) (refs : ApbRefs) (ti : Z) (point : ObservationPoint) (pwrite : WaveformValue) : Access :=
  match sample w (r_paddr refs) ti point, sample w (r_pwdata refs) ti point, sample w (r_prdata refs) ti point with
  | Some paddr, Some pwdata, Some prdata =>
      if bool_decide (truth pwrite = TriUnknown) then UnresolvedAccess
      else
        match (if r_pslverr refs =? 0 then Some false
               else (fun v => negb (bool_decide (truth v = TriFalse))) <$> sample w (r_pslverr refs) ti point) with
        | None => UnresolvedAccess
        | Some has_error =>
            let is_write := bool_decide (truth pwrite = TriTrue) in
            Completed (MkApbTransaction (sb_time_at w ti) is_write has_error (text paddr)
              (if is_write then text pwdata else text prdata) (r_addr_width refs)
              (if is_write then r_write_width refs else r_read_width refs))
        end
  | _, _, _ => UnresolvedAccess
  end.

(** The loop body from the first sample of a selected edge on. *)
Definition access_at (w : W) (c : ApbConfig) (refs : ApbRefs) (ti : Z) : Access :=
  let point := config_point c in
  match sample w (r_reset refs) ti point, sample w (r_psel refs) ti point,
        sample w (r_penable refs) ti point, sample w (r_pwrite refs) ti point with
  | Some reset, Some psel, Some penable, Some pwrite =>
      let reset_asserted :=
        if eqs (ac_reset_polarity c) (lit "active_low") then negb (bool_decide (truth reset = TriTrue))
        else negb (bool_decide (truth reset = TriFalse)) in
      if reset_asserted then NoAccess
      else if bool_decide (truth psel = TriUnknown) || bool_decide (truth penable = TriUnknown) then UnresolvedAccess
      else if negb (bool_decide (truth psel = TriTrue)) || negb (bool_decide (truth penable = TriTrue)) then NoAccess
      else if r_pready refs =? 0 then completed_access w refs ti point pwrite
      else
        match truth <$> sample w (r_pready refs) ti point with
        | None | Some TriUnknown => UnresolvedAccess
        | Some TriFalse => NoAccess
        | Some TriTrue => completed_access w refs ti point pwrite
        end
  | _, _, _, _ => UnresolvedAccess
  end.

(** Whether a change of the clock is a selected edge. *)
Definition edge_selected (w : W) (c : ApbConfig) (refs : ApbRefs) (ti : Z) : bool :=
  match sb_sampled_value_at w (r_clock refs) ti Before, sb_sampled_value_at w (r_clock refs) ti Raw with
  | Some before_clock, Some raw_clock =>
      let before := text (sv_value before_clock) in
      let raw := text (sv_value raw_clock) in
      selected_edge (ac_edge c) (is_rising_edge before raw) (is_falling_edge before raw)
  | _, _ => false
  end.

Definition scan_step (w : W) (c : ApbConfig) (refs : ApbRefs) (st : ScanState) (ti : Z) : ScanState :=
  if ti =? previous_ti st then st
  else
    let st := MkScanState ti (selected_edge_ordinal st) (last_accept_edge_ordinal st) (scan_result st) in
    if negb (edge_selected w c refs ti) then st
    else
      let current := selected_edge_ordinal st in
      let st := MkScanState (previous_ti st) (u64 (current + 1)) (last_accept_edge_ordinal st) (scan_result st) in
      record_access current (access_at w c refs ti) st.

Definition scan_start : ScanState := MkScanState u32_max 0 u64_max (MkApbScan [] true 0).
Definition scan_with_refs (w : W) (c : ApbConfig) (refs : ApbRefs) : ApbScan :=
  scan_result (foldl (scan_step w c refs) scan_start (sb_time_indices_of w (r_clock refs))).

Definition scan_transactions (c : ApbConfig) : attempt W ApbScan := fun w =>
  match load_refs c w with
  | (inl e, w) => (inl e, w)
  | (inr refs, w) => (inr (scan_with_refs w c refs), w)
  end.

(** ** Rendering and filtering *)

Definition transaction_json (t : ApbTransaction) (w : W) (unit : TimeRenderUnit) (format : ValueRenderFormat)
    (window : bool) : json :=
  let addr := logic_value_from_bits (at_addr t) (at_addr_width t) in
  let data := logic_value_from_bits (at_data t) (at_data_width t) in
  let result := jobj [(lit "time", JString (ew_format_time w (at_time t) unit));
                      (lit "addr", JString (render_logic_value addr format));
                      (lit "data", JString (render_logic_value data format));
                      (lit "has_error", JBool (at_has_error t))] in
  if window then set_key (lit "type") (JString (if at_is_write t then lit "WR" else lit "RD")) result
  else set_key (lit "is_write") (JBool (at_is_write t)) result.
End Wave.

(** [None] is a refused literal. *)
Definition logic_u64 (literal : bytes) : res (option Z) :=
  parsed ← parse_sv_literal literal;
  Ret (match parsed with
       | Some v =>
           if known v && (zlen (bits v) <=? 64)
           then Some (foldl (fun value bit => let value := u64 (Z.shiftl value 1) in
                                              if eqc bit "1"%char then u64 (value + 1) else value) 0 (bits v))
           else None
       | None => None
       end).

Fixpoint address_bits (value : Z) (bits : bytes) : option Z :=
  match bits with
  | [] => Some value
  | bit :: bits' =>
      let value := u64 (Z.shiftl value 1) in
      if eqc bit "1"%char then address_bits (u64 (value + 1)) bits'
      else if negb (eqc bit "0"%char) then None else address_bits value bits'
  end.
Definition transaction_address (t : ApbTransaction) : option Z :=
  if 64 <? zlen (at_addr t) then None else address_bits 0 (at_addr t).

Inductive FilterResult := FilterNo | FilterYes | FilterUnresolved.
#[export] Instance FilterResult_eq_dec : EqDecision FilterResult.
Proof. solve_decision. Defined.

Definition filter_of (b : bool) : FilterResult := if b then FilterYes else FilterNo.

Fixpoint matches_exact (actual : Z) (candidates : list json) : res FilterResult :=
  match candidates with
  | [] => Ret FilterNo
  | candidate :: candidates' =>
      literal ← as_string candidate;
      expected ← logic_u64 literal;
      if bool_decide (expected = Some actual) then Ret FilterYes else matches_exact actual candidates'
  end.

(** The literals of two members; the second is read only when the first
    parses. *)
Definition two_literals (k1 k2 : bytes) (address : json) : res (option (Z * Z)) :=
  first_text ← string_at_key k1 address;
  first ← logic_u64 first_text;
  match first with
  | None => Ret None
  | Some a =>
      second_text ← string_at_key k2 address;
      second ← logic_u64 second_text;
      Ret (match second with Some b => Some (a, b) | None => None end)
  end.

Definition address_matches (t : ApbTransaction) (address : json) : res FilterResult :=
  if json_null address || json_empty address then Ret FilterYes
  else
    match transaction_address t with
    | None => Ret FilterUnresolved
    | Some actual =>
        mode ← string_at_key (lit "mode") address;
        if eqs mode (lit "exact") then
          values ← at_key (lit "values") address;
          matches_exact actual (json_items values)
        else if eqs mode (lit "range") then
          range ← two_literals (lit "begin") (lit "end") address;
          Ret (match range with
               | None => FilterUnresolved
               | Some (range_begin, range_end) => filter_of ((range_begin <=? actual) && (actual <=? range_end))
               end)
        else
          masked ← two_literals (lit "value") (lit "mask") address;
          Ret (match masked with
               | None => FilterUnresolved
               | Some (expected, mask) => filter_of (Z.land actual mask =? Z.land expected mask)
               end)
    end.

Definition direction_matches (t : ApbTransaction) (direction : bytes) : bool :=
  eqs direction (lit "all") || (eqs direction (lit "write") && at_is_write t)
  || (eqs direction (lit "read") && negb (at_is_write t)).

Definition completeness_summary (scanned truncated : bool) (total returned : Z) : json :=
  let scopes := (if scanned then [] else [JString (lit "analysis_transactions")])
                ++ (if truncated then [JString (lit "response_transactions")] else []) in
  jobj [(lit "scan_complete", JBool scanned); (lit "analysis_complete", JBool scanned);
        (lit "response_truncated", JBool truncated); (lit "total_count", JUint total);
        (lit "returned_count", JUint returned); (lit "truncation_scopes", JArray scopes)].

(** [inl] is the error response. *)
Definition parse_render (args : json) : res (json + (TimeRenderUnit * ValueRenderFormat)) :=
  unit_text ← value_or as_string (lit "render_time_unit") (lit "ns") args;
  match parse_time_render_unit unit_text with
  | None => Ret (inl (error_response (lit "INVALID_TIME_UNIT") time_unit_error))
  | Some unit =>
      format_text ← value_or as_string (lit "value_format") (lit "hex") args;
      Ret (match parse_value_render_format format_text with
           | None => inl (error_response (lit "INVALID_FIELD") (lit "invalid value_format"))
           | Some format => inr (unit, format)
           end)
  end.

(** ** The engine's APB state and its actions *)

Record ApbState (W : Type) := MkApbState {
  as_wave : W;
  apb_configs : list (bytes * ApbConfig);
  apb_cursors : list (bytes * Z);
}.
Arguments MkApbState {W}.
Arguments as_wave {W}.
Arguments apb_configs {W}.
Arguments apb_cursors {W}.

Definition recommended_actions : json :=
  JArray [
    jobj [(lit "action", JString (lit "value.at"));
          (lit "purpose", JString (lit "按一个或多个指定时间读取单信号、命名信号列表或接口配置维护的值。"))];
    jobj [(lit "action", JString (lit "apb.query"));
          (lit "purpose", JString (lit "按方向以及 exact、range 或 mask 地址条件查询已完成 APB transfer。"))];
    jobj [(lit "action", JString (lit "apb.transaction.cursor"));
          (lit "purpose", JString (lit "在 APB transfer 间移动游标。"))];
    jobj [(lit "action", JString (lit "apb.statistics"));
          (lit "purpose", JString (lit "按方向和地址过滤统计已完成 APB 事务。"))];
    jobj [(lit "action", JString (lit "apb.transfer_window"));
          (lit "purpose", JString (lit "实验性 APB 窗口分析。"))]].

Section Actions.
Context {W : Type} `{EngineWave W}.
(** The environment, the readable files, [stream >> json] and the integer
    part of a float. *)
Context (getenv : bytes -> option bytes) (file : bytes -> option bytes) (parse : bytes -> bytes + json)
  (trunc : bytes -> Z).
Abbreviation St := (ApbState W).

Definition find_config (name : bytes) (s : St) : option ApbConfig := mget name (apb_configs s).

(** A step of the backend inside a handler. *)
Definition on_wave {A} (m : attempt W A) : act St (json + A) := fun s =>
  let '(r, w) := m (as_wave s) in (Ret r, MkApbState w (apb_configs s) (apb_cursors s)).

Definition require_config_and_scan (name action : bytes) : act St (json + ApbScan) :=
  s ← get_state;
  match find_config name s with
  | None => mret (inl (config_not_found_response action name))
  | Some config =>
      let budget_error := apb_analysis_budget_error getenv config in
      if negb (json_empty budget_error) then mret (inl budget_error) else on_wave (scan_transactions config)
  end.

Definition apb_value_source_entries (name : bytes) (s : St) : option (list (bytes * bytes)) :=
  match find_config name s with
  | None => None
  | Some c =>
      Some ([(lit "clock", ac_clock c); (lit "reset", ac_reset c); (lit "paddr", ac_paddr c); (lit "psel", ac_psel c);
             (lit "penable", ac_penable c); (lit "pwrite", ac_pwrite c); (lit "pwdata", ac_pwdata c);
             (lit "prdata", ac_prdata c)]
            ++ (if eqs (ac_pready c) [] then [] else [(lit "pready", ac_pready c)])
            ++ (if eqs (ac_pslverr c) [] then [] else [(lit "pslverr", ac_pslverr c)]))
  end.

Definition apb_config_list (req : json) : act St json :=
  args ← lift (at_key (lit "args") req);
  s ← get_state;
  if jcontains (lit "name") args then
    name ← lift (string_at_key (lit "name") args);
    match find_config name s with
    | None => mret (config_not_found_response (lit "apb.config.list") name)
    | Some config =>
        mret (ok_response (jobj [(lit "name", JString name); (lit "status", JString (lit "found"))])
                (jobj [(lit "config", config_json config)]))
    end
  else
    let configs := map (fun item => config_json (snd item)) (apb_configs s) in
    mret (ok_response (jobj [(lit "count", JUint (zlen configs))]) (jobj [(lit "configs", JArray configs)])).

(** The configuration of a load request: the error, or the source. *)
Definition config_source (args : json) : res (json + json) :=
  if jcontains (lit "config") args then source ← at_key (lit "config") args; Ret (inr source)
  else
    path ← string_at_key (lit "config_path") args;
    Ret (match file path with
         | None => inl (error_response (lit "INVALID_FIELD") (lit "cannot read APB config_path"))
         | Some contents =>
             match parse contents with
             | inl what => inl (error_response (lit "INVALID_FIELD") (lit "invalid APB config JSON: " ++ what))
             | inr source => inr source
             end
         end).

Definition config_refused (message : bytes) : json :=
  rich_error_response (lit "INVALID_ARGUMENT") message
    (jobj [(lit "invalid_arg", JString (lit "args.config"));
           (lit "expected", JString (lit "strict APB config with only canonical fields and non-empty signal paths"));
           (lit "correct_example", apb_config_load_example);
           (lit "example_note", JString (lit "Example only; replace placeholders with active signal paths, names, and time values."))]).

(** The three cursors of a configuration are forgotten with its old
    definition. *)
Definition store_config (c : ApbConfig) (s : St) : St :=
  MkApbState (as_wave s) (mset (ac_name c) c (apb_configs s))
    (mdel (ac_name c ++ lit ":write") (mdel (ac_name c ++ lit ":read") (mdel (ac_name c ++ lit ":all") (apb_cursors s)))).

Definition apb_config_load (req : json) : act St json :=
  args ← lift (at_key (lit "args") req);
  source ← lift (config_source args);
  match source with
  | inl error => mret error
  | inr source =>
      name ← lift (string_at_key (lit "name") args);
      parsed ← lift (parse_config name source);
      match parsed with
      | inl message => mret (config_refused message)
      | inr config =>
          reset ← on_wave (load_ref (ac_reset config) (lit "reset"));
          match reset with
          | inl error => mret error
          | inr (_, reset_info) =>
              if negb (si_width reset_info =? 1)
              then mret (error_response (lit "INVALID_FIELD") (lit "APB reset signal must resolve to one bit"))
              else
                s ← get_state;
                _ ← put_state (store_config config s);
                mret (ok_response (jobj [(lit "name", JString (ac_name config)); (lit "status", JString (lit "loaded"))])
                        (jobj [(lit "config", config_json config); (lit "recommended_actions", recommended_actions)]))
          end
      end
  end.

(** Whether a query selects a transaction; the address is looked at only in
    the right direction. *)
Definition selects (direction : bytes) (address : json) (t : ApbTransaction) : res bool :=
  if direction_matches t direction
  then matched ← address_matches t address; Ret (bool_decide (matched = FilterYes))
  else Ret false.

Fixpoint select_matches (direction : bytes) (address : json) (txns : list ApbTransaction) : res (list ApbTransaction) :=
  match txns with
  | [] => Ret []
  | t :: txns' =>
      keep ← selects direction address t;
      rest ← select_matches direction address txns';
      Ret (match keep with true => t :: rest | false => rest end)
  end.

Definition filter_json (direction : bytes) (address : json) : json :=
  let filter := jobj [(lit "direction", JString direction)] in
  if json_null address then filter else set_key (lit "address") address filter.

Definition when (b : bool) (f : json -> json) (j : json) : json := if b then f j else j.

(** The summary and data of a query over its matches. *)
Definition query_answer (w : W) (unit : TimeRenderUnit) (format : ValueRenderFormat) (scanned : bool)
    (matches : list ApbTransaction) (address summary data : json) (index line_limit : Z) (last : bool) : json :=
  if last || ((0 <? index) && (line_limit <? 0)) then
    let offset := if last then (match matches with [] => 0 | _ => zlen matches - 1 end) else index - 1 in
    let found := matches !! Z.to_nat offset in
    let is_found := bool_decide (is_Some found) in
    let summary := set_key (lit "found") (JBool is_found)
      (set_key (lit "query_mode") (JString (if last then lit "last" else lit "index")) summary) in
    let data := match found with
                | Some t => set_key (lit "transaction") (transaction_json t w unit format false) data
                | None => data
                end in
    let summary := merge summary (completeness_summary scanned false (zlen matches) (if is_found then 1 else 0)) in
    ok_response (when (is_found || negb (json_null address)) set_value_width_complete summary) data
  else if 0 <? line_limit then
    let begin := if 0 <? index then index - 1 else 0 in
    let rows := map (fun t => transaction_json t w unit format false)
                  (take (Z.to_nat line_limit) (drop (Z.to_nat begin) matches)) in
    let summary := set_key (lit "query_mode") (JString (lit "list")) summary in
    let truncated := u64 (begin + zlen rows) <? zlen matches in
    let summary := merge summary (completeness_summary scanned truncated (zlen matches) (zlen rows)) in
    ok_response (when (negb (json_empty (JArray rows)) || negb (json_null address)) set_value_width_complete summary)
      (set_key (lit "transactions") (JArray rows) data)
  else
    ok_response (merge (set_key (lit "query_mode") (JString (lit "count")) summary)
                   (completeness_summary scanned false (zlen matches) 0)) data.

Definition apb_query (req : json) : act St json :=
  args ← lift (at_key (lit "args") req);
  name ← lift (string_at_key (lit "name") args);
  scanned ← require_config_and_scan name (lit "apb.query");
  match scanned with
  | inl error => mret error
  | inr scan =>
      render ← lift (parse_render args);
      match render with
      | inl error => mret error
      | inr (unit, format) =>
          direction ← lift (value_or as_string (lit "direction") (lit "all") args);
          address ← lift (value_or Ret (lit "address") JNull args);
          matches ← lift (select_matches direction address (transactions scan));
          query ← lift (value_or Ret (lit "query") (JObject []) args);
          index ← lift (value_or (as_number trunc i32) (lit "index") (-1) query);
          line_limit ← lift (value_or (as_number trunc i32) (lit "line_limit") (-1) query);
          last ← lift (value_or as_bool (lit "last") false args);
          s ← get_state;
          mret (query_answer (as_wave s) unit format (complete scan) matches address
                  (jobj [(lit "name", JString name); (lit "direction", JString direction)])
                  (jobj [(lit "filter", filter_json direction address)]) index line_limit last)
      end
  end.

(** Reads, writes and unresolved transactions of the statistics loop. *)
Fixpoint count_matches (direction : bytes) (address : json) (txns : list ApbTransaction) (reads writes unres : Z)
    : res (Z * Z * Z) :=
  match txns with
  | [] => Ret (reads, writes, unres)
  | t :: txns' =>
      if negb (direction_matches t direction) then count_matches direction address txns' reads writes unres
      else
        matched ← address_matches t address;
        match matched with
        | FilterUnresolved => count_matches direction address txns' reads writes (u64 (unres + 1))
        | FilterYes =>
            if at_is_write t then count_matches direction address txns' reads (u64 (writes + 1)) unres
            else count_matches direction address txns' (u64 (reads + 1)) writes unres
        | FilterNo => count_matches direction address txns' reads writes unres
        end
  end.

Definition unresolved_note : bytes :=
  lit "因被引用的 address/ID 含 X/Z 或不可解析，导致无法判断是否匹配过滤条件的已完成事务数。".

Definition statistics_answer (name direction : bytes) (address : json) (filter_applied : bool) (scan : ApbScan)
    (reads writes unres : Z) : json :=
  let matched := u64 (reads + writes) in
  let all_resolved := complete scan && (unres =? 0) in
  let summary := jobj [(lit "name", JString name);
    (lit "scanned_transaction_count", JUint (zlen (transactions scan)));
    (lit "matched_transaction_count", JUint matched);
    (lit "matched_read_count", JUint reads); (lit "matched_write_count", JUint writes);
    (lit "unresolved_transaction_count", JUint unres); (lit "filter_applied", JBool filter_applied);
    (lit "analysis_quality", JString (if all_resolved then lit "complete" else lit "ambiguous"));
    (lit "full_scan_count", JInt 1)] in
  let summary := merge summary (completeness_summary (complete scan) false matched matched) in
  ok_response (when (negb (json_null address)) set_value_width_complete summary)
    (jobj [(lit "filter", filter_json direction address);
           (lit "notes", jobj [(lit "unresolved_transaction_count", JString unresolved_note)])]).

Definition apb_statistics (req : json) : act St json :=
  args ← lift (at_key (lit "args") req);
  name ← lift (string_at_key (lit "name") args);
  scanned ← require_config_and_scan name (lit "apb.statistics");
  match scanned with
  | inl error => mret error
  | inr scan =>
      input_filter ← lift (value_or Ret (lit "filter") (JObject []) args);
      direction ← lift (value_or as_string (lit "direction") (lit "all") input_filter);
      address ← lift (value_or Ret (lit "address") JNull input_filter);
      counts ← lift (count_matches direction address (transactions scan) 0 0 (unresolved scan));
      let '(reads, writes, unres) := counts in
      mret (statistics_answer name direction address (negb (json_empty input_filter)) scan reads writes unres)
  end.

(** The move of a cursor over [size] matches: whether it lands, and where. *)
Definition move_cursor (op : bytes) (size position : Z) : bool * Z :=
  if size =? 0 then (false, position)
  else if eqs op (lit "begin") then (true, 0)
  else if eqs op (lit "last") then (true, size - 1)
  else if eqs op (lit "next") then
    if u64 (position + 1) <? size then (true, u64 (position + 1)) else (false, position)
  else if 0 <? position then (true, position - 1) else (false, position).

Definition cursor_summary (name op direction : bytes) (found scanned : bool) (position size : Z) : json :=
  merge (jobj [(lit "name", JString name); (lit "op", JString op); (lit "direction", JString direction);
               (lit "found", JBool found); (lit "index", if found then JUint (u64 (position + 1)) else JNull);
               (lit "index_base", JInt 1); (lit "at_begin", JBool (found && (position =? 0)));
               (lit "at_end", JBool (found && (u64 (position + 1) =? size)))])
    (completeness_summary scanned false size (if found then 1 else 0)).

Definition cursor_key (name direction : bytes) : bytes := name ++ lit ":" ++ direction.
Definition set_cursor (key : bytes) (position : Z) : act St unit := fun s =>
  (Ret tt, MkApbState (as_wave s) (apb_configs s) (mset key position (apb_cursors s))).

(** [*matches[position]]: undefined past the end. *)
Definition transaction_at (matches : list ApbTransaction) (position : Z) : res ApbTransaction :=
  match matches !! Z.to_nat position with Some t => Ret t | None => UB end.

Definition apb_transaction_cursor (req : json) : act St json :=
  args ← lift (at_key (lit "args") req);
  name ← lift (string_at_key (lit "name") args);
  scanned ← require_config_and_scan name (lit "apb.transaction.cursor");
  match scanned with
  | inl error => mret error
  | inr scan =>
      render ← lift (parse_render args);
      match render with
      | inl error => mret error
      | inr (unit, format) =>
          direction ← lift (value_or as_string (lit "direction") (lit "all") args);
          let matches := List.filter (fun t => direction_matches t direction) (transactions scan) in
          let key := cursor_key name direction in
          s ← get_state;
          let position := default 0 (mget key (apb_cursors s)) in
          _ ← set_cursor key position;
          op ← lift (string_at_key (lit "op") args);
          let '(found, position) := move_cursor op (zlen matches) position in
          _ ← set_cursor key position;
          let summary := cursor_summary name op direction found (complete scan) position (zlen matches) in
          if negb found then mret (ok_response summary (JObject []))
          else
            t ← lift (transaction_at matches position);
            mret (ok_response (set_value_width_complete summary)
                    (set_key (lit "transaction") (transaction_json t (as_wave s) unit format false) (JObject [])))
      end
  end.

(** A bound of the window: the default, or the parsed text. *)
Definition window_bound (w : W) (range : json) (k : bytes) (allow_max : bool) (fallback : Z) : res (bytes + Z) :=
  if jcontains k range then
    bound_text ← string_at_key k range;
    Ret (ew_parse_time w bound_text allow_max)
  else Ret (inr fallback).

Definition in_window (begin end_ : Z) (t : ApbTransaction) : bool := negb ((at_time t <? begin) || (end_ <? at_time t)).

Definition window_range_error : json :=
  rich_error_response (lit "TIME_RANGE_INVALID") (lit "args.time_range.end is before args.time_range.begin")
    (jobj [(lit "invalid_arg", JString (lit "args.time_range.end"));
           (lit "expected", JString (lit "time_range.end must be greater than or equal to time_range.begin"));
           (lit "correct_example", apb_window_example)]).

Definition window_answer (name : bytes) (w : W) (unit : TimeRenderUnit) (format : ValueRenderFormat) (scan : ApbScan)
    (begin end_ limit : Z) : json :=
  let inside := List.filter (in_window begin end_) (transactions scan) in
  let rows := map (fun t => transaction_json t w unit format true) (take (Z.to_nat limit) inside) in
  let summary := jobj [(lit "name", JString name); (lit "begin", JString (ew_format_time w begin unit));
                       (lit "end", JString (ew_format_time w end_ unit))] in
  let summary := merge summary
    (completeness_summary (complete scan) (zlen rows <? zlen inside) (zlen inside) (zlen rows)) in
  ok_response (when (negb (json_empty (JArray rows))) set_value_width_complete summary)
    (jobj [(lit "transactions", JArray rows)]).

Definition apb_transfer_window (req : json) : act St json :=
  args ← lift (at_key (lit "args") req);
  name ← lift (string_at_key (lit "name") args);
  scanned ← require_config_and_scan name (lit "apb.transfer_window");
  match scanned with
  | inl error => mret error
  | inr scan =>
      render ← lift (parse_render args);
      match render with
      | inl error => mret error
      | inr (unit, format) =>
          s ← get_state;
          let w := as_wave s in
          range ← lift (value_or Ret (lit "time_range") (JObject []) args);
          lower ← lift (window_bound w range (lit "begin") false (ew_min_time w));
          match lower with
          | inl message => mret (error_response (lit "INVALID_TIME") message)
          | inr begin =>
              upper ← lift (window_bound w range (lit "end") true (ew_max_time w));
              match upper with
              | inl message => mret (error_response (lit "INVALID_TIME") message)
              | inr end_ =>
                  if end_ <? begin then mret window_range_error
                  else
                    limit ← lift (value_or (as_number trunc u32) (lit "line_limit") 1000 args);
                    mret (window_answer name w unit format scan begin end_ limit)
              end
          end
      end
  end.

(** The table of handlers. *)
Inductive ApbAction := ConfigList | ConfigLoad | Query | Statistics | TransactionCursor | TransferWindow.
Definition run_apb (action : ApbAction) (req : json) : act St json :=
  match action with
  | ConfigList => apb_config_list req
  | ConfigLoad => apb_config_load req
  | Query => apb_query req
  | Statistics => apb_statistics req
  | TransactionCursor => apb_transaction_cursor req
  | TransferWindow => apb_transfer_window req
  end.
End Actions.
