(* ===== verification/ApbTheory.v ===== *)
(** * ApbTheory: what the APB scan reports and that cursors stay inside

    The scan is compared with a declarative reading of the protocol: a
    transfer completes at a selected clock edge where reset is inactive,
    select, enable and ready are one. The loop, its edge counter and its
    duplicate test amount to collapsing runs of equal transfers at
    consecutive edges. Cursors are shown to stay inside the matches of their
    configuration through every history of actions. *)

From S2P Require Import Prelude CLib Json LogicValue Waveform WellenApi WellenBackend WellenTheory ClockSampling SessionTypes Engine EngineFst Apb.

Open Scope Z_scope.

(** ** The reference scan *)

Definition repeats (previous : option Access) (t : ApbTransaction) : bool :=
  match previous with Some (Completed p) => same_access p t | _ => false end.

(** The transfers of a sequence of edges: one for each run of equal transfers
    at consecutive edges. *)
Fixpoint collapse (previous : option Access) (l : list Access) : list ApbTransaction :=
  match l with
  | [] => []
  | a :: l' =>
      match a with
      | Completed t => if repeats previous t then [] else [t]
      | _ => []
      end ++ collapse (Some a) l'
  end.

Definition is_unresolved (a : Access) : bool := match a with UnresolvedAccess => true | _ => false end.
Definition unresolved_count (l : list Access) : Z := zlen (List.filter is_unresolved l).

Definition reference_scan (l : list Access) : ApbScan :=
  MkApbScan (collapse None l) (unresolved_count l =? 0) (unresolved_count l).

Lemma same_access_refl t : same_access t t = true.
Proof. unfold same_access. by rewrite !Bool.eqb_reflx, !eqs_refl. Qed.

Lemma same_access_spec a b : same_access a b = true <->
  at_is_write a = at_is_write b /\ at_has_error a = at_has_error b /\ at_addr a = at_addr b /\ at_data a = at_data b.
Proof. unfold same_access. rewrite !andb_true_iff, !eqb_true_iff, !eqs_true. tauto. Qed.

Lemma same_access_left a b c : same_access a b = true -> same_access a c = same_access b c.
Proof. intros (E1 & E2 & E3 & E4)%same_access_spec. unfold same_access. by rewrite E1, E2, E3, E4. Qed.

Lemma collapse_snoc l a : forall previous, collapse previous (l ++ [a]) = collapse previous l ++
  match a with
  | Completed t => if repeats (match list.last l with Some p => Some p | None => previous end) t then [] else [t]
  | _ => []
  end.
Proof.
  induction l as [|b l IH]; intros previous; cbn [collapse app].
  - cbn [list.last]. by rewrite app_nil_r.
  - rewrite IH, app_assoc. do 2 f_equal. destruct l as [|b' l]; [done|]. cbn [list.last].
    destruct (list.last (b' :: l)) as [p|] eqn:E; [done|]. by apply last_None in E.
Qed.


(** The loop body for the next selected edge. *)
Definition step_access (st : ScanState) (a : Access) : ScanState :=
  record_access (selected_edge_ordinal st) a
    (MkScanState (previous_ti st) (u64 (selected_edge_ordinal st + 1)) (last_accept_edge_ordinal st) (scan_result st)).

(** The state after the edges [done]. *)
Record scanned (done : list Access) (st : ScanState) : Prop := {
  sc_ordinal : selected_edge_ordinal st = zlen done;
  sc_result : scan_result st = reference_scan done;
  sc_last : match list.last done with
            | Some (Completed t) =>
                last_accept_edge_ordinal st = zlen done - 1 /\
                exists b, list.last (collapse None done) = Some b /\ same_access b t = true
            | _ => last_accept_edge_ordinal st = u64_max \/ 0 <= last_accept_edge_ordinal st < zlen done - 1
            end;
}.

Lemma unresolved_snoc l a : unresolved_count (l ++ [a]) = unresolved_count l + if is_unresolved a then 1 else 0.
Proof. unfold unresolved_count. rewrite List.filter_app. cbn. destruct (is_unresolved a); unfold zlen; rewrite length_app; cbn; lia. Qed.

Lemma unresolved_range l : 0 <= unresolved_count l <= zlen l.
Proof. unfold unresolved_count, zlen. pose proof (List.filter_length_le is_unresolved l). lia. Qed.

Lemma last_zlen {A} (l : list A) x : list.last l = Some x -> 0 < zlen l.
Proof. destruct l; [done|]. unfold zlen. cbn. lia. Qed.

(** Whether the next transfer continues the run of the last edge. *)
Lemma duplicate_tail done st t : scanned done st -> zlen done < u64_max ->
  negb (last_accept_edge_ordinal st =? u64_max) && (u64 (last_accept_edge_ordinal st + 1) =? zlen done)
  && match list.last (collapse None done) with Some back => same_access back t | None => false end
  = repeats (list.last done) t.
Proof.
  intros [_ _ Hl] Hsz. unfold u64_max in *.
  destruct (list.last done) as [[| |p]|] eqn:E; cbn [repeats].
  1, 2, 4: destruct Hl as [->|Hl]; [done|]; rewrite u64_small by lia;
    rewrite (proj2 (Z.eqb_neq (_ + 1) _)) by lia; by rewrite andb_false_r.
  destruct Hl as (-> & b & -> & Hb). pose proof (zlen_nonneg done).
  apply last_zlen in E.
  rewrite u64_small by lia. rewrite (proj2 (Z.eqb_neq _ _)), (proj2 (Z.eqb_eq _ _)) by lia. cbn.
  by apply same_access_left.
Qed.

Lemma step_scanned done st a : scanned done st -> zlen done < u64_max -> scanned (done ++ [a]) (step_access st a).
Proof.
  intros Hs Hsz. pose proof Hs as [Ho Hr Hl]. pose proof (zlen_nonneg done) as H0.
  assert (zlen (done ++ [a]) = zlen done + 1) as Hz by (unfold zlen; rewrite length_app; cbn; lia).
  assert (u64 (zlen done + 1) = zlen done + 1) as Hu by (apply u64_small; unfold u64_max in *; lia).
  pose proof (unresolved_range done) as Hur.
  unfold step_access, record_access. destruct a as [| |t]; cbn [selected_edge_ordinal last_accept_edge_ordinal scan_result previous_ti].
  - split; cbn [selected_edge_ordinal last_accept_edge_ordinal scan_result]; [by rewrite Ho, Hu, Hz| |].
    + rewrite Hr. unfold reference_scan. rewrite collapse_snoc, app_nil_r, unresolved_snoc. cbn. by rewrite Z.add_0_r.
    + rewrite last_snoc, Hz. destruct (list.last done) as [a|] eqn:El; [|intuition lia].
      apply last_zlen in El. destruct a; intuition lia.
  - split; cbn [selected_edge_ordinal last_accept_edge_ordinal scan_result]; [by rewrite Ho, Hu, Hz| |].
    + rewrite Hr. unfold reference_scan, mark_unresolved. cbn [transactions unresolved].
      rewrite collapse_snoc, app_nil_r, unresolved_snoc. cbn [is_unresolved].
      rewrite u64_small by (unfold u64_max in *; lia). f_equal. symmetry. apply Z.eqb_neq. lia.
    + rewrite last_snoc, Hz. destruct (list.last done) as [a|] eqn:El; [|intuition lia].
      apply last_zlen in El. destruct a; intuition lia.
  - rewrite Ho, Hr. cbn [reference_scan transactions]. rewrite (duplicate_tail done st t Hs Hsz).
    pose proof (collapse_snoc done (Completed t) None) as Hc. cbn beta iota in Hc.
    replace (match list.last done with Some p => Some p | None => None end) with (list.last done) in Hc
      by (by destruct (list.last done)).
    split; cbn [selected_edge_ordinal last_accept_edge_ordinal scan_result]; [by rewrite Hu, Hz| |].
    + unfold reference_scan. rewrite Hc, unresolved_snoc. cbn [is_unresolved]. rewrite Z.add_0_r.
      destruct (repeats _ t); [by rewrite app_nil_r|done].
    + rewrite last_snoc, Hz. split; [lia|]. rewrite Hc. destruct (repeats (list.last done) t) eqn:Er.
      * rewrite app_nil_r. destruct (list.last done) as [[| |p]|]; cbn [repeats] in Er; try done.
        destruct Hl as (_ & b & Hb & Hs'). exists b. split; [done|]. by rewrite (same_access_left b p t).
      * exists t. split; [apply last_snoc|apply same_access_refl].
Qed.

Lemma fold_scanned l : forall done st, scanned done st -> zlen (done ++ l) <= u64_max ->
  scanned (done ++ l) (foldl step_access st l).
Proof.
  induction l as [|a l IH]; intros done st Hs Hsz; [by rewrite app_nil_r|]. cbn [foldl].
  replace (done ++ a :: l) with ((done ++ [a]) ++ l) in * by (by rewrite <- app_assoc).
  apply IH; [|done]. apply step_scanned; [done|]. unfold zlen in *. rewrite !length_app in Hsz. cbn in Hsz. lia.
Qed.

Definition at_previous (p : Z) (st : ScanState) : ScanState :=
  MkScanState p (selected_edge_ordinal st) (last_accept_edge_ordinal st) (scan_result st).

Lemma step_access_previous p st a : step_access (at_previous p st) a = at_previous p (step_access st a).
Proof. by destruct a. Qed.

Lemma fold_access_previous p l : forall st, foldl step_access (at_previous p st) l = at_previous p (foldl step_access st l).
Proof. induction l as [|a l IH]; intros st; [done|]. cbn [foldl]. by rewrite step_access_previous, IH. Qed.

Section Scan.
Context {W : Type} `{EngineWave W}.
Implicit Types (w : W) (c : ApbConfig) (refs : ApbRefs).

(** The selected edges of the clock, in order. *)
Definition edges_of w c refs : list Z :=
  List.filter (edge_selected w c refs) (distinct_from u32_max (sb_time_indices_of w (r_clock refs))).

Lemma scan_fold w c refs idxs : forall st, exists p,
  foldl (scan_step w c refs) st idxs =
  at_previous p (foldl step_access st
    (map (access_at w c refs) (List.filter (edge_selected w c refs) (distinct_from (previous_ti st) idxs)))).
Proof.
  induction idxs as [|ti idxs IH]; intros st; cbn [foldl distinct_from].
  { exists (previous_ti st). by destruct st. }
  unfold scan_step at 2. destruct (ti =? previous_ti st) eqn:E; [apply IH|]. cbn [List.filter].
  set (st1 := MkScanState ti _ _ _). change st1 with (at_previous ti st).
  destruct (edge_selected w c refs ti); cbn [negb map foldl].
  - destruct (IH (step_access (at_previous ti st) (access_at w c refs ti))) as [p Hp]. exists p.
    change (record_access _ _ _) with (step_access (at_previous ti st) (access_at w c refs ti)).
    rewrite Hp. rewrite step_access_previous. cbn [at_previous previous_ti].
    by rewrite fold_access_previous.
  - destruct (IH (at_previous ti st)) as [p Hp]. exists p. rewrite Hp. cbn [at_previous previous_ti].
    by rewrite fold_access_previous.
Qed.

Lemma distinct_from_length l : forall p, (length (distinct_from p l) <= length l)%nat.
Proof. induction l as [|x l IH]; intros p; cbn; [lia|]. destruct (x =? p); cbn; [specialize (IH p)|specialize (IH x)]; lia. Qed.

Lemma edges_length w c refs : zlen (edges_of w c refs) <= zlen (sb_time_indices_of w (r_clock refs)).
Proof.
  unfold edges_of, zlen. pose proof (distinct_from_length (sb_time_indices_of w (r_clock refs)) u32_max).
  pose proof (List.filter_length_le (edge_selected w c refs) (distinct_from u32_max (sb_time_indices_of w (r_clock refs)))). lia.
Qed.

Lemma scan_reference w c refs : zlen (sb_time_indices_of w (r_clock refs)) <= u64_max ->
  scan_with_refs w c refs = reference_scan (map (access_at w c refs) (edges_of w c refs)).
Proof.
  intros Hsz. unfold scan_with_refs. destruct (scan_fold w c refs (sb_time_indices_of w (r_clock refs)) scan_start) as [p ->].
  cbn [at_previous scan_result scan_start previous_ti]. fold (edges_of w c refs).
  apply (sc_result _ _ (fold_scanned (map (access_at w c refs) (edges_of w c refs)) [] scan_start
    ltac:(split; [done|done|by left]) ltac:(cbn [app]; pose proof (edges_length w c refs); unfold zlen in *; rewrite length_map; lia))).
Qed.

(** ** Transfers *)

Definition reads w (ref ti : Z) (point : ObservationPoint) (v : WaveformValue) : Prop :=
  sample w ref ti point = Some v.

(** A transfer completes at a time index: reset is inactive, select, enable
    and, where there is one, ready are one, the direction is known and every
    signal of the record has a value. *)
Record transfer w c refs (ti : Z) (t : ApbTransaction) : Prop := {
  tr_reset : exists v, reads w (r_reset refs) ti (config_point c) v /\
    truth v = (if eqs (ac_reset_polarity c) (lit "active_low") then TriTrue else TriFalse);
  tr_psel : exists v, reads w (r_psel refs) ti (config_point c) v /\ truth v = TriTrue;
  tr_penable : exists v, reads w (r_penable refs) ti (config_point c) v /\ truth v = TriTrue;
  tr_pready : r_pready refs = 0 \/ exists v, reads w (r_pready refs) ti (config_point c) v /\ truth v = TriTrue;
  tr_direction : exists v, reads w (r_pwrite refs) ti (config_point c) v /\
    truth v = (if at_is_write t then TriTrue else TriFalse);
  tr_addr : exists v, reads w (r_paddr refs) ti (config_point c) v /\ text v = at_addr t;
  tr_data : exists wv rv, reads w (r_pwdata refs) ti (config_point c) wv /\
    reads w (r_prdata refs) ti (config_point c) rv /\ at_data t = text (if at_is_write t then wv else rv);
  tr_error : if r_pslverr refs =? 0 then at_has_error t = false
    else exists v, reads w (r_pslverr refs) ti (config_point c) v /\
      at_has_error t = negb (bool_decide (truth v = TriFalse));
  tr_time : at_time t = sb_time_at w ti;
  tr_widths : at_addr_width t = r_addr_width refs /\
    at_data_width t = (if at_is_write t then r_write_width refs else r_read_width refs);
}.

Lemma completed_access_spec w refs ti point pwrite t : completed_access w refs ti point pwrite = Completed t <->
  truth pwrite = (if at_is_write t then TriTrue else TriFalse) /\
  (exists v, reads w (r_paddr refs) ti point v /\ text v = at_addr t) /\
  (exists wv rv, reads w (r_pwdata refs) ti point wv /\ reads w (r_prdata refs) ti point rv /\
     at_data t = text (if at_is_write t then wv else rv)) /\
  (if r_pslverr refs =? 0 then at_has_error t = false
   else exists v, reads w (r_pslverr refs) ti point v /\ at_has_error t = negb (bool_decide (truth v = TriFalse))) /\
  at_time t = sb_time_at w ti /\ at_addr_width t = r_addr_width refs /\
  at_data_width t = (if at_is_write t then r_write_width refs else r_read_width refs).
Proof.
  unfold completed_access, reads. split.
  - destruct (sample w (r_paddr refs) ti point) as [a|]; [|done].
    destruct (sample w (r_pwdata refs) ti point) as [wv|]; [|done].
    destruct (sample w (r_prdata refs) ti point) as [rv|]; [|done].
    case_bool_decide as Eu; [done|].
    destruct (r_pslverr refs =? 0); [|destruct (sample w (r_pslverr refs) ti point) as [ev|]; [|done]]; cbn;
      intros [= <-]; cbn; destruct (truth pwrite) eqn:Et; try done; cbn; split_and!; eauto 10.
  - intros (Ew & (a & Ha & Hat) & (wv & rv & Hw & Hr & Hd) & He & Ht & Haw & Hdw). rewrite Ha, Hw, Hr.
    destruct t as [ttime tw te ta td taw tdw]; cbn in *. subst.
    assert (truth pwrite <> TriUnknown) as Hu by (rewrite Ew; by destruct tw). rewrite (bool_decide_eq_false_2 _ Hu).
    assert (bool_decide (truth pwrite = TriTrue) = tw) as Hb by (rewrite Ew; by destruct tw).
    destruct (r_pslverr refs =? 0); [subst te|destruct He as (v & -> & ->)]; cbn; rewrite Hb; by destruct tw.
Qed.

Lemma access_at_spec w c refs ti t : access_at w c refs ti = Completed t <-> transfer w c refs ti t.
Proof.
  unfold access_at. split.
  - destruct (sample w (r_reset refs) ti _) as [rst|] eqn:E1; [|done].
    destruct (sample w (r_psel refs) ti _) as [sel|] eqn:E2; [|done].
    destruct (sample w (r_penable refs) ti _) as [en|] eqn:E3; [|done].
    destruct (sample w (r_pwrite refs) ti _) as [wr|] eqn:E4; [|done]. cbn zeta.
    destruct (if eqs _ _ then _ else _) eqn:Er; [done|].
    destruct (bool_decide (truth sel = TriUnknown) || _); [done|].
    destruct (negb (bool_decide (truth sel = TriTrue)) || _) eqn:En; [done|].
    apply orb_false_iff in En as [Es%negb_false_iff%bool_decide_eq_true_1 Ee%negb_false_iff%bool_decide_eq_true_1].
    intros Hc. assert (completed_access w refs ti (config_point c) wr = Completed t /\
      (r_pready refs = 0 \/ exists v, reads w (r_pready refs) ti (config_point c) v /\ truth v = TriTrue)) as [Hd Hy].
    { destruct (r_pready refs =? 0) eqn:E0; [split; [done|left; by apply Z.eqb_eq]|]. unfold reads.
      destruct (sample w (r_pready refs) ti _) as [y|]; [|done]. cbn in Hc.
      destruct (truth y) eqn:Ey; try done. split; [done|]. right. eauto. }
    apply completed_access_spec in Hd as (H1 & H2 & H3 & H4 & H5 & H6 & H7).
    split; eauto; unfold reads; exists rst; split; [done|]; destruct (eqs _ _);
      apply negb_false_iff, bool_decide_eq_true in Er; done.
  - intros [(rst & E1 & Hr) (sel & E2 & Hs) (en & E3 & He) Hy (wr & E4 & Hw) Ha Hd Hp Ht [Hw1 Hw2]]. unfold reads in *.
    rewrite E1, E2, E3, E4, Hs, He. cbn zeta.
    assert ((if eqs (ac_reset_polarity c) (lit "active_low") then negb (bool_decide (truth rst = TriTrue))
             else negb (bool_decide (truth rst = TriFalse))) = false) as -> by (by destruct (eqs _ _); rewrite Hr).
    assert (completed_access w refs ti (config_point c) wr = Completed t) as Hd'.
    { apply completed_access_spec. unfold reads. eauto 10. }
    destruct Hy as [->|(y & Ey & Hy)]; [done|]. rewrite Ey. cbn. rewrite Hy. by destruct (r_pready refs =? 0).
Qed.

(** The transfers reported: each is one of the sequence, and each of the
    sequence is reported or repeats the one at the edge before it. *)
Lemma collapse_sound l t : forall previous, t ∈ collapse previous l -> Completed t ∈ l.
Proof.
  induction l as [|a l IH]; intros previous; cbn [collapse]; [by intros ?%elem_of_nil|].
  intros [Hin|Hin]%elem_of_app; [|right; by eapply IH]. destruct a as [| |t']; [by apply elem_of_nil in Hin..|].
  destruct (repeats previous t'); [by apply elem_of_nil in Hin|]. apply list_elem_of_singleton in Hin as ->. left.
Qed.

Lemma collapse_complete l t : forall previous i, l !! i = Some (Completed t) ->
  t ∈ collapse previous l \/
  repeats (match i with O => previous | S j => l !! j end) t = true.
Proof.
  induction l as [|a l IH]; intros previous i Hi; [by rewrite lookup_nil in Hi|]. destruct i as [|i]; cbn in Hi.
  - injection Hi as ->. cbn [collapse]. destruct (repeats previous t); [by right|]. left. apply elem_of_app. left. left.
  - destruct (IH (Some a) i Hi) as [Hin|Hr]; [left; cbn [collapse]; apply elem_of_app; by right|]. right. by destruct i.
Qed.

Definition undecided w c refs (ti : Z) : Prop := access_at w c refs ti = UnresolvedAccess.

Lemma unresolved_none l : (unresolved_count l =? 0) = true <-> forall a, a ∈ l -> is_unresolved a = false.
Proof.
  unfold unresolved_count. rewrite Z.eqb_eq. induction l as [|a l IH]; cbn [List.filter].
  { split; [by intros _ a ?%elem_of_nil|done]. }
  destruct (is_unresolved a) eqn:E.
  - split; [unfold zlen; cbn; lia|]. intros Hn. specialize (Hn a ltac:(left)). congruence.
  - rewrite IH. split; [|intros Hn b Hb; apply Hn; by right]. intros Hn b [->|Hb]%elem_of_cons; auto.
Qed.

(** C21: the APB scan reports the transfers of the waveform. The transactions
    of a scan are, in the order of the clock, the transfers that complete at
    selected edges, one for each run of transfers with equal direction,
    error, address and data at consecutive selected edges: every reported
    transaction is such a transfer, and every transfer is reported or repeats
    the one at the selected edge just before it. The scan is complete exactly
    when no selected edge is undecided, and counts the undecided ones. *)
Theorem apb_scan_exact w c refs :
  zlen (sb_time_indices_of w (r_clock refs)) <= u64_max ->
  let s := scan_with_refs w c refs in
  let es := edges_of w c refs in
  transactions s = collapse None (map (access_at w c refs) es) /\
  (forall t, t ∈ transactions s -> exists ti, ti ∈ es /\ transfer w c refs ti t) /\
  (forall i ti t, es !! i = Some ti -> transfer w c refs ti t ->
     t ∈ transactions s \/
     exists j ti' t', i = S j /\ es !! j = Some ti' /\ transfer w c refs ti' t' /\ same_access t' t = true) /\
  (complete s = true <-> forall ti, ti ∈ es -> ~ undecided w c refs ti) /\
  unresolved s = zlen (List.filter (fun ti => is_unresolved (access_at w c refs ti)) es).
Proof.
  intros Hsz s es. subst s es. rewrite (scan_reference w c refs Hsz). unfold reference_scan.
  cbn [transactions complete unresolved]. split_and!; [done| | | |].
  - intros t Ht%collapse_sound. apply list_elem_of_fmap in Ht as (ti & E & Hti). exists ti. split; [done|].
    by apply access_at_spec.
  - intros i ti t Hi Ht%access_at_spec.
    assert (map (access_at w c refs) (edges_of w c refs) !! i = Some (Completed t)) as Hl.
    { rewrite list_lookup_fmap, Hi. cbn. by rewrite Ht. }
    destruct (collapse_complete _ _ None i Hl) as [?|Hr]; [by left|]. right. destruct i as [|j]; [done|].
    rewrite list_lookup_fmap in Hr. destruct (edges_of w c refs !! j) as [ti'|] eqn:Ej; [|done]. cbn in Hr.
    destruct (access_at w c refs ti') as [| |t'] eqn:Ea; try done. exists j, ti', t'. by rewrite <- access_at_spec.
  - rewrite unresolved_none. unfold undecided. split.
    + intros Hn ti Hti E. specialize (Hn (access_at w c refs ti) (list_elem_of_fmap_2 _ _ _ Hti)). by rewrite E in Hn.
    + intros Hn a (ti & -> & Hti)%list_elem_of_fmap. specialize (Hn ti Hti). by destruct (access_at w c refs ti).
  - unfold unresolved_count, zlen. f_equal. induction (edges_of w c refs) as [|ti es IH]; [done|]. cbn.
    destruct (is_unresolved _); cbn; by rewrite IH.
Qed.
End Scan.

(** ** Scans of one configuration agree *)

Section Stable.
Context {W : Type} `{EngineLaws W}.
Implicit Types (w : W) (c : ApbConfig) (refs : ApbRefs).

(** A loaded handle of a path. *)
Definition held w (r : Z) (p : bytes) (i : SignalInfo) : Prop := ew_names w r p /\ ew_signal_info w r = Some i.

Definition held_optional w (r : Z) (p : bytes) : Prop :=
  if eqs p [] then r = 0 else r <> 0 /\ exists i, held w r p i.

(** The handles [load_refs] leaves for a configuration. *)
Record held_refs w c refs : Prop := {
  hr_clock : exists i, held w (r_clock refs) (ac_clock c) i;
  hr_reset : exists i, held w (r_reset refs) (ac_reset c) i;
  hr_paddr : exists i, held w (r_paddr refs) (ac_paddr c) i /\ r_addr_width refs = si_width i;
  hr_psel : exists i, held w (r_psel refs) (ac_psel c) i;
  hr_penable : exists i, held w (r_penable refs) (ac_penable c) i;
  hr_pwrite : exists i, held w (r_pwrite refs) (ac_pwrite c) i;
  hr_pwdata : exists i, held w (r_pwdata refs) (ac_pwdata c) i /\ r_write_width refs = si_width i;
  hr_prdata : exists i, held w (r_prdata refs) (ac_prdata c) i /\ r_read_width refs = si_width i;
  hr_pready : held_optional w (r_pready refs) (ac_pready c);
  hr_pslverr : held_optional w (r_pslverr refs) (ac_pslverr c);
}.

Lemma held_later w w' r p i : ew_ok 0 w -> ew_ok 0 w' -> ew_later w w' -> held w r p i -> held w' r p i.
Proof.
  intros Ho Ho' Hl [Hn Hi]. assert (ew_names w' r p) as Hn' by (by eapply ew_later_names).
  split; [done|]. by destruct (ew_stable w w' r r p i Ho Ho' Hl Hn Hn' Hi).
Qed.

Lemma load_ref_spec n w p role x w' : ew_ok (S n) w -> load_ref p role w = (x, w') ->
  ew_ok n w' /\ ew_later w w' /\ forall r i, x = inr (r, i) -> r <> 0 /\ held w' r p i.
Proof.
  intros Hok. unfold load_ref. pose proof (ew_find n w p Hok) as (Hok1 & Hl1 & Hn).
  destruct (ew_find_signal w p) as [r w1]; cbn [fst snd] in *. destruct (r =? 0) eqn:E0; [intros [= <- <-]; split_and!; [done|done|intros ? ? ?; discriminate]|].
  apply Z.eqb_neq in E0. specialize (Hn E0).
  assert (forall w2, ew_ok n w2 -> ew_later w w2 -> ew_names w2 r p ->
    (match ew_signal_info w2 r with
     | None => (inl (error_response (lit "VALUE_NOT_AVAILABLE") (lit "APB " ++ role ++ lit " metadata unavailable: " ++ p)), w2)
     | Some info => (inr (r, info), w2)
     end) = (x, w') -> ew_ok n w' /\ ew_later w w' /\ forall r' i, x = inr (r', i) -> r' <> 0 /\ held w' r' p i) as Hend.
  { intros w2 Hok2 Hl2 Hn2. destruct (ew_signal_info w2 r) as [i|] eqn:Ei; intros [= <- <-]; [|by split_and!].
    split_and!; [done|done|]. intros r' i' [= <- <-]. done. }
  destruct (ew_is_loaded w1 r); cbn [negb]; [by apply Hend|].
  pose proof (ew_load n w1 r p Hok1 Hn) as [Hok2 Hl2]. destruct (ew_load_signals w1 [r]) as [k w2]; cbn [snd] in *.
  assert (ew_later w w2) by (by eapply ew_later_trans).
  destruct (k =? 1); cbn beta iota delta [negb]; [|intros [= <- <-]; split_and!; [done|done|intros ? ? ?; discriminate]]. apply Hend; [done..|]. by apply (ew_later_names w1).
Qed.

Lemma load_optional_spec n w p role x w' : ew_ok (S n) w -> load_optional_ref p role w = (x, w') ->
  ew_ok n w' /\ ew_later w w' /\ forall r, x = inr r -> held_optional w' r p.
Proof.
  intros Hok. unfold load_optional_ref, held_optional. destruct (eqs p []).
  { intros [= <- <-]. split_and!; [by eapply ew_ok_le; [|done]; lia|apply ew_later_refl|by intros r [= <-]]. }
  unfold mbind, attempt_bind. destruct (load_ref p role w) as [y w1] eqn:E.
  destruct (load_ref_spec n w p role y w1 Hok E) as (H1 & H2 & H3).
  destruct y as [e|[r i]]; intros [= <- <-]; [by split_and!|]. split_and!; [done..|]. intros r' [= <-]. cbn [fst].
  destruct (H3 r i eq_refl). eauto.
Qed.

Lemma held_optional_later w w' r p : ew_ok 0 w -> ew_ok 0 w' -> ew_later w w' -> held_optional w r p -> held_optional w' r p.
Proof.
  intros Ho Ho' Hl. unfold held_optional. destruct (eqs p []); [done|]. intros [Hr [i Hi]]. split; [done|].
  exists i. by apply (held_later w).
Qed.

Lemma ok_zero n w : ew_ok n w -> ew_ok 0 w.
Proof. apply ew_ok_le. lia. Qed.

(** What a step that makes at most [k] lookups establishes. *)
Definition triple {A} (k : nat) (m : attempt W A) (Q : A -> W -> Prop) : Prop := forall n w x w',
  ew_ok (k + n) w -> m w = (x, w') -> ew_ok n w' /\ ew_later w w' /\ forall a, x = inr a -> Q a w'.
Definition steady (Q : W -> Prop) : Prop := forall w w', ew_ok 0 w -> ew_ok 0 w' -> ew_later w w' -> Q w -> Q w'.

Lemma triple_bind {A B} k j (m : attempt W A) (f : A -> attempt W B) Q R :
  triple k m Q -> (forall a, steady (Q a)) -> (forall a, triple j (f a) (R a)) ->
  triple (k + j) (m ≫= f) (fun b w => exists a, Q a w /\ R a b w).
Proof.
  intros Hm Hs Hf n w x w' Hok. unfold mbind, attempt_bind. destruct (m w) as [y w1] eqn:E.
  replace (k + j + n)%nat with (k + (j + n))%nat in Hok by lia.
  destruct (Hm (j + n)%nat w y w1 Hok E) as (Hok1 & Hl1 & HQ). destruct y as [e|a].
  { intros [= <- <-]. split_and!; [by eapply ew_ok_le; [|exact Hok1]; lia|done|intros ? ?; discriminate]. }
  intros E2. destruct (Hf a n w1 x w' Hok1 E2) as (Hok2 & Hl2 & HR). split_and!; [done|by eapply ew_later_trans|].
  intros b Hb. exists a. split; [|by apply HR].
  apply (Hs a w1 w'); [by eapply ok_zero|by eapply ok_zero|done|by apply HQ].
Qed.

Lemma triple_ret {A} (v : A) : triple 0 (mret v) (fun a _ => a = v).
Proof. intros n w x w' Hok [= <- <-]. split_and!; [done|apply ew_later_refl|by intros a [= <-]]. Qed.

Lemma triple_weaken {A} k (m : attempt W A) (Q R : A -> W -> Prop) :
  (forall a w, Q a w -> R a w) -> triple k m Q -> triple k m R.
Proof. intros Hi Hm n w x w' Hok E. destruct (Hm n w x w' Hok E) as (? & ? & HQ). split_and!; [done..|]. eauto. Qed.

Lemma triple_ref p role : triple 1 (load_ref p role) (fun ri w => held w (fst ri) p (snd ri)).
Proof.
  intros n w x w' Hok E. destruct (load_ref_spec n w p role x w' Hok E) as (? & ? & HQ). split_and!; [done..|].
  intros [r i] Hx. by apply HQ.
Qed.

Lemma triple_optional p role : triple 1 (load_optional_ref p role) (fun r w => held_optional w r p).
Proof. intros n w x w' Hok E. exact (load_optional_spec n w p role x w' Hok E). Qed.

Lemma steady_held (ri : Z * SignalInfo) p : steady (fun w => held w (fst ri) p (snd ri)).
Proof. intros w w' Ho Ho' Hl. by apply held_later. Qed.

Lemma steady_optional r p : steady (fun w => held_optional w r p).
Proof. intros w w' Ho Ho' Hl. by apply held_optional_later. Qed.

Lemma load_refs_spec c : triple 10 (load_refs c) (fun refs w => held_refs w c refs).
Proof.
  eapply triple_weaken; cycle 1.
  { unfold load_refs. do 8 (eapply (triple_bind 1); [apply triple_ref|intros; apply steady_held|intros ?]).
    do 2 (eapply (triple_bind 1); [apply triple_optional|intros; apply steady_optional|intros ?]). apply triple_ret. }
  intros refs w Hx. cbn beta in Hx. destruct Hx as (ck & ? & rs & ? & ad & ? & sl & ? & en & ? & wr & ? & wd & ? & rd & ? & ry & ? & er & ? & ->).
  split; cbn; eauto.
Qed.

Lemma held_refs_steady c refs : steady (fun w => held_refs w c refs).
Proof.
  intros w w' Ho Ho' Hl [[i1 A1] [i2 A2] (i3 & A3 & ?) [i4 A4] [i5 A5] [i6 A6] (i7 & A7 & ?) (i8 & A8 & ?) A9 A10].
  assert (forall r p i, held w r p i -> held w' r p i) as Hk by (intros; by apply (held_later w)).
  split; try (by eauto); by apply (held_optional_later w).
Qed.

(** Two handles of one signal read alike. *)
Definition reads_alike w r w' r' : Prop :=
  sb_time_indices_of w' r' = sb_time_indices_of w r /\
  (forall ti point, sb_sampled_value_at w' r' ti point = sb_sampled_value_at w r ti point).

Lemma held_alike w w' r r' p i i' : ew_ok 0 w -> ew_ok 0 w' -> ew_later w w' -> held w r p i -> held w' r' p i' ->
  reads_alike w r w' r' /\ i' = i.
Proof.
  intros Ho Ho' Hl [Hn Hi] [Hn' Hi']. destruct (ew_stable w w' r r' p i Ho Ho' Hl Hn Hn' Hi) as (E1 & E2 & E3).
  split; [done|congruence].
Qed.

Definition optional_alike w r w' r' : Prop := (r = 0 /\ r' = 0) \/ (r <> 0 /\ r' <> 0 /\ reads_alike w r w' r').

Lemma held_optional_alike w w' r r' p : ew_ok 0 w -> ew_ok 0 w' -> ew_later w w' -> held_optional w r p -> held_optional w' r' p ->
  optional_alike w r w' r'.
Proof.
  intros Ho Ho' Hl. unfold held_optional, optional_alike. destruct (eqs p []); [by left|].
  intros [Hr [i Hi]] [Hr' [i' Hi']]. right. split_and!; [done..|]. by destruct (held_alike w w' r r' p i i').
Qed.

Lemma alike_sample w r w' r' ti point : reads_alike w r w' r' -> sample w' r' ti point = sample w r ti point.
Proof. intros [_ E]. unfold sample. by rewrite E. Qed.

Record alike_refs w refs w' refs' : Prop := {
  al_clock : reads_alike w (r_clock refs) w' (r_clock refs');
  al_reset : reads_alike w (r_reset refs) w' (r_reset refs');
  al_paddr : reads_alike w (r_paddr refs) w' (r_paddr refs');
  al_psel : reads_alike w (r_psel refs) w' (r_psel refs');
  al_penable : reads_alike w (r_penable refs) w' (r_penable refs');
  al_pwrite : reads_alike w (r_pwrite refs) w' (r_pwrite refs');
  al_pwdata : reads_alike w (r_pwdata refs) w' (r_pwdata refs');
  al_prdata : reads_alike w (r_prdata refs) w' (r_prdata refs');
  al_pready : optional_alike w (r_pready refs) w' (r_pready refs');
  al_pslverr : optional_alike w (r_pslverr refs) w' (r_pslverr refs');
  al_widths : r_addr_width refs' = r_addr_width refs /\ r_write_width refs' = r_write_width refs /\
    r_read_width refs' = r_read_width refs;
  al_time : forall ti, sb_time_at w' ti = sb_time_at w ti;
}.

Lemma held_refs_alike w w' c refs refs' : ew_ok 0 w -> ew_ok 0 w' -> ew_later w w' ->
  held_refs w c refs -> held_refs w' c refs' -> alike_refs w refs w' refs'.
Proof.
  intros Ho Ho' Hl [[i1 A1] [i2 A2] (i3 & A3 & X3) [i4 A4] [i5 A5] [i6 A6] (i7 & A7 & X7) (i8 & A8 & X8) A9 A10]
    [[j1 B1] [j2 B2] (j3 & B3 & Y3) [j4 B4] [j5 B5] [j6 B6] (j7 & B7 & Y7) (j8 & B8 & Y8) B9 B10].
  assert (forall r r' p i i', held w r p i -> held w' r' p i' -> reads_alike w r w' r' /\ i' = i) as Hh
    by (intros; by eapply held_alike).
  split; try (by eapply (held_optional_alike w w')); try (by eapply Hh); [|intros; by apply ew_later_time].
  destruct (Hh _ _ _ _ _ A3 B3) as [_ ->], (Hh _ _ _ _ _ A7 B7) as [_ ->], (Hh _ _ _ _ _ A8 B8) as [_ ->]. by rewrite X3, X7, X8.
Qed.

Lemma alike_completed w w' refs refs' ti point pwrite : alike_refs w refs w' refs' ->
  completed_access w' refs' ti point pwrite = completed_access w refs ti point pwrite.
Proof.
  intros [_ _ Ha _ _ _ Hw Hr _ He (E1 & E2 & E3) Ht]. unfold completed_access.
  rewrite (alike_sample w (r_paddr refs) w' (r_paddr refs')), (alike_sample w (r_pwdata refs) w' (r_pwdata refs')),
    (alike_sample w (r_prdata refs) w' (r_prdata refs')), E1, E2, E3, Ht by done.
  destruct He as [[-> ->]|(N & N' & He)]; [done|].
  by rewrite (proj2 (Z.eqb_neq _ _) N), (proj2 (Z.eqb_neq _ _) N'), (alike_sample w (r_pslverr refs) w' (r_pslverr refs')) by done.
Qed.

Lemma alike_access w w' c refs refs' ti : alike_refs w refs w' refs' -> access_at w' c refs' ti = access_at w c refs ti.
Proof.
  intros Hal. pose proof Hal as [_ Hr _ Hs He Hw _ _ Hy _ _ _]. unfold access_at.
  rewrite (alike_sample w (r_reset refs) w' (r_reset refs')), (alike_sample w (r_psel refs) w' (r_psel refs')),
    (alike_sample w (r_penable refs) w' (r_penable refs')), (alike_sample w (r_pwrite refs) w' (r_pwrite refs')) by done.
  destruct (sample w (r_reset refs) ti _) as [?|]; [|done]. destruct (sample w (r_psel refs) ti _) as [?|]; [|done].
  destruct (sample w (r_penable refs) ti _) as [?|]; [|done]. destruct (sample w (r_pwrite refs) ti _) as [wr|]; [|done].
  rewrite (alike_completed w w' refs refs' ti _ wr Hal).
  destruct Hy as [[-> ->]|(N & N' & Hy)]; [done|].
  by rewrite (proj2 (Z.eqb_neq _ _) N), (proj2 (Z.eqb_neq _ _) N'), (alike_sample w (r_pready refs) w' (r_pready refs')) by done.
Qed.

Lemma scan_alike w w' c refs refs' : alike_refs w refs w' refs' -> scan_with_refs w' c refs' = scan_with_refs w c refs.
Proof.
  intros Hal. unfold scan_with_refs. rewrite (proj1 (al_clock _ _ _ _ Hal)). f_equal.
  assert (forall st ti, scan_step w' c refs' st ti = scan_step w c refs st ti) as Hs.
  { intros st ti. unfold scan_step, edge_selected. by rewrite !(proj2 (al_clock _ _ _ _ Hal)), (alike_access w w' c refs refs' ti Hal). }
  generalize scan_start. induction (sb_time_indices_of w (r_clock refs)) as [|ti l IH]; intros st; [done|].
  cbn [foldl]. by rewrite Hs.
Qed.

(** The scan of a configuration never changes once it has succeeded. *)
Lemma scan_stable w w' c refs refs' : ew_ok 0 w -> ew_ok 0 w' -> ew_later w w' ->
  held_refs w c refs -> held_refs w' c refs' -> scan_with_refs w' c refs' = scan_with_refs w c refs.
Proof. intros. by apply scan_alike, (held_refs_alike w w' c). Qed.
End Stable.

(** ** Cursors *)

Definition matches_of (direction : bytes) (s : ApbScan) : list ApbTransaction :=
  List.filter (fun t => direction_matches t direction) (transactions s).
Definition directions : list bytes := [lit "all"; lit "read"; lit "write"].

Lemma direction_none t d : d ∉ directions -> direction_matches t d = false.
Proof.
  intros Hd. unfold direction_matches. unfold directions in Hd. rewrite !not_elem_of_cons in Hd. destruct Hd as (H1 & H2 & H3 & _).
  by rewrite (proj2 (eqs_false _ _) H1), (proj2 (eqs_false _ _) H2), (proj2 (eqs_false _ _) H3).
Qed.

Lemma matches_none d s : d ∉ directions -> matches_of d s = [].
Proof.
  intros Hd. unfold matches_of. induction (transactions s) as [|t l IH]; [done|]. cbn. by rewrite direction_none.
Qed.

Lemma find_colon (d : bytes) : d ∈ directions -> ":"%char ∉ d.
Proof.
  intros Hd. apply (bool_decide_unpack _). unfold directions in Hd. rewrite !elem_of_cons, elem_of_nil in Hd.
  by destruct Hd as [->|[->|[->|[]]]].
Qed.

Lemma split_last_colon (a b x y : bytes) : ":"%char ∉ x -> ":"%char ∉ y ->
  a ++ ":"%char :: x = b ++ ":"%char :: y -> a = b /\ x = y.
Proof.
  revert b. induction a as [|c a IH]; intros [|c' b] Hx Hy E; cbn in E.
  - by injection E as ->.
  - injection E as _ E. subst x. destruct Hx. apply elem_of_app. right. left.
  - injection E as _ E. subst y. destruct Hy. apply elem_of_app. right. left.
  - injection E as -> E. destruct (IH b Hx Hy E) as [-> ->]. done.
Qed.

Lemma cursor_key_inj n d n' d' : d ∈ directions -> d' ∈ directions -> cursor_key n d = cursor_key n' d' -> n = n' /\ d = d'.
Proof.
  intros Hd%find_colon Hd'%find_colon E. unfold cursor_key in E. by apply split_last_colon in E.
Qed.

Lemma mget_mdel_some {A} k k' (m : list (bytes * A)) v : msorted m = true -> mget k (mdel k' m) = Some v -> mget k m = Some v.
Proof. intros Hs Hg. apply elem_mget; [done|]. by eapply mdel_elem, mget_elem. Qed.

(** Where a move can land, whatever the width of the numbers. *)
Lemma move_cursor_range op size position found position' : 0 <= position -> 0 <= size ->
  position = 0 \/ position < size -> move_cursor op size position = (found, position') ->
  (position' = 0 \/ 0 <= position' < size) /\ (found = true -> 0 <= position' < size).
Proof.
  intros Hp Hz Hr. unfold move_cursor. pose proof (u64_range (position + 1)).
  repeat case_match; intros [= <- <-]; split; try intros ?; try done; lia.
Qed.

Section Histories.
Context {W : Type} `{EngineLaws W}.
Context (getenv : bytes -> option bytes) (file : bytes -> option bytes) (parse : bytes -> bytes + json)
  (trunc : bytes -> Z).
Abbreviation St := (ApbState W).
Implicit Types (s : St) (w : W).

(** A cursor of a known configuration is at the start or inside the matches
    of a scan of that configuration. *)
Record cursors_ok s : Prop := {
  cu_sorted : msorted (apb_cursors s) = true;
  cu_position : forall name c d position, d ∈ directions -> mget name (apb_configs s) = Some c ->
    mget (cursor_key name d) (apb_cursors s) = Some position ->
    position = 0 \/
    exists w refs, ew_ok 0 w /\ ew_later w (as_wave s) /\ held_refs w c refs /\
      0 <= position < zlen (matches_of d (scan_with_refs w c refs));
}.

Lemma cursors_later s w : cursors_ok s -> ew_later (as_wave s) w ->
  cursors_ok (MkApbState w (apb_configs s) (apb_cursors s)).
Proof.
  intros [Hs Hp] Hl. split; [done|]. cbn. intros name c d position Hd Hc Hg.
  destruct (Hp name c d position Hd Hc Hg) as [->|(w0 & refs & Ho & Hl0 & Hr)]; [by left|]. right.
  exists w0, refs. split_and!; [done|by eapply ew_later_trans|apply Hr..].
Qed.

(** A step that only looks signals up. *)
Definition keeps {A} (k : nat) (m : act St A) : Prop := forall n s, ew_ok (k + n) (as_wave s) ->
  let s' := snd (m s) in
  ew_ok n (as_wave s') /\ ew_later (as_wave s) (as_wave s') /\
  apb_configs s' = apb_configs s /\ apb_cursors s' = apb_cursors s.

Lemma keeps_bind {A B} k j (m : act St A) (f : A -> act St B) : keeps k m -> (forall a, keeps j (f a)) ->
  keeps (k + j) (m ≫= f).
Proof.
  intros Hm Hf n s Hok. unfold mbind, act_bind. replace (k + j + n)%nat with (k + (j + n))%nat in Hok by lia.
  destruct (Hm (j + n)%nat s Hok) as (Hok1 & Hl1 & Hc1 & Hp1). destruct (m s) as [[a| |e] s1]; cbn [snd] in *.
  - destruct (Hf a n s1 Hok1) as (Hok2 & Hl2 & Hc2 & Hp2). split_and!; [done|by eapply ew_later_trans|congruence..].
  - split_and!; try done. eapply ew_ok_le; [|exact Hok1]. lia.
  - split_and!; try done. eapply ew_ok_le; [|exact Hok1]. lia.
Qed.

Lemma keeps_same {A} (m : act St A) : (forall s, snd (m s) = s) -> keeps 0 m.
Proof. intros Hm n s Hok. cbn zeta. rewrite Hm. split_and!; [done|apply ew_later_refl|done..]. Qed.

Lemma keeps_ret {A} k (a : A) : keeps k (mret a).
Proof.
  intros n s Hok. cbn. split_and!; [|apply ew_later_refl|done..]. eapply ew_ok_le; [|exact Hok]. lia.
Qed.

Lemma keeps_lift {A} (r : res A) : keeps 0 (lift r).
Proof. by apply keeps_same. Qed.

Lemma keeps_get : keeps 0 get_state.
Proof. by apply keeps_same. Qed.

Lemma keeps_wave {A} k (m : attempt W A) Q : triple k m Q -> keeps k (on_wave m).
Proof.
  intros Hm n s Hok. unfold on_wave. destruct (m (as_wave s)) as [x w] eqn:E. cbn.
  by destruct (Hm n _ x w Hok E) as (? & ? & _).
Qed.

Lemma scan_spec c : triple 10 (scan_transactions c)
  (fun sc w => exists refs, held_refs w c refs /\ sc = scan_with_refs w c refs).
Proof.
  intros n w x w' Hok. unfold scan_transactions. destruct (load_refs c w) as [y w1] eqn:E.
  destruct (load_refs_spec c n w y w1 Hok E) as (Ho & Hl & Hh).
  destruct y as [e|refs]; intros [= <- <-]; split_and!; try done; intros sc ?; simplify_eq. eauto.
Qed.

Lemma keeps_require name action : keeps 10 (require_config_and_scan getenv name action).
Proof.
  unfold require_config_and_scan. apply (keeps_bind 0 10); [apply keeps_get|]. intros s.
  destruct (find_config name s); [|apply keeps_ret]. destruct (negb _); [apply keeps_ret|].
  eapply keeps_wave, scan_spec.
Qed.

(** The handlers that only read. *)
Ltac keep :=
  repeat first
    [ apply keeps_ret
    | apply (keeps_bind 0); [first [apply keeps_lift | apply keeps_get]|intros ?]
    | apply (keeps_bind 10 0); [apply keeps_require|intros ?]
    | match goal with |- keeps _ (match ?x with _ => _ end) => destruct x end
    | match goal with |- keeps _ (let '_ := ?x in _) => destruct x end ].

Lemma keeps_list req : keeps 10 (apb_config_list req).
Proof. unfold apb_config_list. keep. Qed.
Lemma keeps_query req : keeps 10 (apb_query getenv trunc req).
Proof. unfold apb_query. keep. Qed.
Lemma keeps_statistics req : keeps 10 (apb_statistics getenv req).
Proof. unfold apb_statistics. keep. Qed.
Lemma keeps_window req : keeps 10 (apb_transfer_window getenv trunc req).
Proof. unfold apb_transfer_window. keep. Qed.

(** ** Every action keeps the cursors inside *)

(** The state after a step with room for [n] more lookups. *)
Definition good (n : nat) s s' : Prop := ew_ok n (as_wave s') /\ ew_later (as_wave s) (as_wave s') /\ cursors_ok s'.

Lemma keeps_good {A} k n (m : act St A) s : keeps k m -> ew_ok (k + n) (as_wave s) -> cursors_ok s -> good n s (snd (m s)).
Proof.
  intros Hm Hok Hc. destruct (Hm n s Hok) as (Ho & Hl & Ec & Ep). split_and!; [done..|].
  pose proof (cursors_later s (as_wave (snd (m s))) Hc Hl) as Hr. rewrite <- Ec, <- Ep in Hr.
  by destruct (snd (m s)).
Qed.

Lemma good_trans n m s1 s2 s3 : good n s1 s2 -> good m s2 s3 -> good m s1 s3.
Proof. intros (_ & Hl1 & _) (Ho & Hl2 & Hc). split_and!; [done|by eapply ew_later_trans|done]. Qed.

Lemma good_refl n s : ew_ok n (as_wave s) -> cursors_ok s -> good n s s.
Proof. intros Ho Hc. split_and!; [done|apply ew_later_refl|done]. Qed.

Lemma good_le n m s s' : (m <= n)%nat -> good n s s' -> good m s s'.
Proof. intros Hle (Ho & Hl & Hc). split_and!; [by eapply ew_ok_le|done..]. Qed.

Lemma erased_cursor name d (m : list (bytes * Z)) : msorted m = true -> d ∈ directions ->
  mget (cursor_key name d) (mdel (name ++ lit ":write") (mdel (name ++ lit ":read") (mdel (name ++ lit ":all") m))) = None.
Proof.
  intros Hs Hd. pose proof (mdel_sorted (name ++ lit ":all") m Hs) as Hs1.
  pose proof (mdel_sorted (name ++ lit ":read") _ Hs1) as Hs2.
  assert (forall k k' (l : list (bytes * Z)), msorted l = true -> mget k l = None -> mget k (mdel k' l) = None) as Hn.
  { intros k k' l Hl Hk. destruct (mget k (mdel k' l)) as [v|] eqn:E; [|done]. apply mget_mdel_some in E; [congruence|done]. }
  unfold directions in Hd. rewrite !elem_of_cons, elem_of_nil in Hd. destruct Hd as [->|[->|[->|[]]]].
  - do 2 (apply Hn; [done|]). exact (mget_mdel_eq (name ++ lit ":all") m Hs).
  - apply Hn; [done|]. exact (mget_mdel_eq (name ++ lit ":read") _ Hs1).
  - exact (mget_mdel_eq (name ++ lit ":write") _ Hs2).
Qed.

Lemma store_config_ok c s : cursors_ok s -> cursors_ok (store_config c s).
Proof.
  intros [Hs Hp]. unfold store_config. split; cbn [apb_cursors apb_configs as_wave]; [by repeat apply mdel_sorted|].
  intros name c' d position Hd Hc Hg. destruct (decide (name = ac_name c)) as [->|Hne].
  { by rewrite erased_cursor in Hg. }
  rewrite mget_mset_ne in Hc by done. apply (Hp name c' d); [done..|].
  apply mget_mdel_some in Hg; [|by repeat apply mdel_sorted]. apply mget_mdel_some in Hg; [|by repeat apply mdel_sorted].
  by apply mget_mdel_some in Hg.
Qed.

Lemma load_good n req s : ew_ok (10 + n) (as_wave s) -> cursors_ok s -> good n s (snd (apb_config_load file parse req s)).
Proof.
  intros Hok Hc. assert (good n s s) as Hsame by (apply good_refl; [by eapply ew_ok_le; [|exact Hok]; lia|done]).
  unfold apb_config_load, mbind, act_bind, lift. destruct (at_key _ req) as [args| |e]; [|done..].
  destruct (config_source file parse args) as [[err|source]| |e]; [done| |done..].
  destruct (string_at_key _ args) as [name| |e]; [|done..]. destruct (parse_config name source) as [[msg|c]| |e]; [done| |done..].
  assert (good n s (snd (on_wave (load_ref (ac_reset c) (lit "reset")) s))) as Hg.
  { apply (keeps_good 1); [eapply keeps_wave, triple_ref|by eapply ew_ok_le; [|exact Hok]; lia|done]. }
  destruct (on_wave (load_ref (ac_reset c) (lit "reset")) s) as [r s1] eqn:E.
  destruct r as [[err|[ref info]]| |e]; [done| |done..]. destruct (negb _); [done|]. cbn in Hg |- *.
  destruct Hg as (Ho & Hl & Hc1). split_and!; [done..|]. by apply store_config_ok.
Qed.

(** [position] may be stored for a key when it is harmless there. *)
Lemma set_cursor_ok key position s : cursors_ok s ->
  (forall name c d, d ∈ directions -> mget name (apb_configs s) = Some c -> cursor_key name d = key ->
    position = 0 \/ exists w refs, ew_ok 0 w /\ ew_later w (as_wave s) /\ held_refs w c refs /\
      0 <= position < zlen (matches_of d (scan_with_refs w c refs))) ->
  cursors_ok (snd (set_cursor key position s)).
Proof.
  intros [Hs Hp] Hk. cbn. split; cbn [apb_cursors apb_configs as_wave]; [by apply mset_sorted|].
  intros name c d p Hd Hc. destruct (decide (cursor_key name d = key)) as [E|Hne].
  - rewrite E, mget_mset_eq. intros [= <-]. by eapply Hk.
  - rewrite mget_mset_ne by done. by apply Hp.
Qed.

Lemma require_spec n name action s r s1 : ew_ok (10 + n) (as_wave s) ->
  require_config_and_scan getenv name action s = (r, s1) ->
  r <> UB /\ forall sc, r = Ret (inr sc) ->
    exists c refs, mget name (apb_configs s1) = Some c /\ held_refs (as_wave s1) c refs /\
      sc = scan_with_refs (as_wave s1) c refs.
Proof.
  intros Hok. unfold require_config_and_scan, mbind, act_bind, get_state, find_config.
  destruct (mget name (apb_configs s)) as [c|] eqn:Ec; [|by intros [= <- <-]]. destruct (negb _); [by intros [= <- <-]|].
  unfold on_wave. destruct (scan_transactions c (as_wave s)) as [x w] eqn:Es. intros [= <- <-]. split; [done|].
  intros sc [= ->]. destruct (scan_spec c n _ _ _ Hok Es) as (_ & _ & Hq). destruct (Hq sc eq_refl) as (refs & Hh & ->).
  by exists c, refs.
Qed.

(** Reading arguments never has undefined behaviour. *)
Lemma string_at_key_defined k j : string_at_key k j <> UB.
Proof.
  unfold string_at_key, at_key, as_string. destruct j as [| | | | | | |m]; try done. destruct (mget k m) as [[]|]; done.
Qed.
Lemma value_string_defined k d j : value_or as_string k d j <> UB.
Proof. unfold value_or, as_string. destruct j as [| | | | | | |m]; try done. destruct (mget k m) as [[]|]; done. Qed.
Lemma parse_render_defined args : parse_render args <> UB.
Proof.
  unfold parse_render. destruct (value_or as_string (lit "render_time_unit") _ args) eqn:E; cbn [mbind res_bind];
    [|by apply value_string_defined in E|done].
  case_match; [|done]. destruct (value_or as_string (lit "value_format") _ args) eqn:E2; cbn [mbind res_bind];
    [done|by apply value_string_defined in E2|done].
Qed.

(** A cursor over the matches of its own configuration is harmless when it
    is inside them. *)
Lemma cursor_own name direction c refs s position : ew_ok 0 (as_wave s) ->
  mget name (apb_configs s) = Some c -> held_refs (as_wave s) c refs ->
  0 <= position < zlen (matches_of direction (scan_with_refs (as_wave s) c refs)) ->
  forall name' c' d, d ∈ directions -> mget name' (apb_configs s) = Some c' ->
    cursor_key name' d = cursor_key name direction ->
    position = 0 \/ exists w refs, ew_ok 0 w /\ ew_later w (as_wave s) /\ held_refs w c' refs /\
      0 <= position < zlen (matches_of d (scan_with_refs w c' refs)).
Proof.
  intros Ho Hc Hh Hp name' c' d Hd Hc' Hk. right.
  destruct (decide (direction ∈ directions)) as [Hdir|Hdir].
  - apply cursor_key_inj in Hk as [-> ->]; [|done..]. simplify_eq. exists (as_wave s), refs.
    split_and!; [done|apply ew_later_refl|done|lia..].
  - rewrite matches_none in Hp by done. unfold zlen in Hp. cbn in Hp. lia.
Qed.

(** The position a cursor has is at the start or inside the present scan. *)
Lemma cursor_inside name direction c refs s : cursors_ok s -> ew_ok 0 (as_wave s) ->
  mget name (apb_configs s) = Some c -> held_refs (as_wave s) c refs ->
  let position := default 0 (mget (cursor_key name direction) (apb_cursors s)) in
  matches_of direction (scan_with_refs (as_wave s) c refs) = [] \/
  position = 0 \/ 0 <= position < zlen (matches_of direction (scan_with_refs (as_wave s) c refs)).
Proof.
  intros Hok Ho Hc Hh. cbn zeta. destruct (decide (direction ∈ directions)) as [Hd|Hd]; [right|left; by apply matches_none].
  destruct (mget (cursor_key name direction) (apb_cursors s)) as [p|] eqn:E; [|by left]. cbn [default]. unfold id.
  destruct (cu_position s Hok name c direction p Hd Hc E) as [->|(w & refs' & Ho' & Hl & Hh' & Hp)]; [by left|]. right.
  by rewrite (scan_stable w (as_wave s) c refs' refs).
Qed.

(** The end of the cursor action, from the key on. *)
Definition cursor_tail (args : json) (name direction : bytes) (unit : TimeRenderUnit) (format : ValueRenderFormat)
    (scan : ApbScan) : act St json :=
  let matches := matches_of direction scan in
  let key := cursor_key name direction in
  s ← get_state;
  let position := default 0 (mget key (apb_cursors s)) in
  _ ← set_cursor key position;
  op ← lift (string_at_key (lit "op") args);
  let '(found, position) := move_cursor op (zlen matches) position in
  _ ← set_cursor key position;
  let summary := cursor_summary name op direction found (complete scan) position (zlen matches) in
  if negb found then mret (ok_response summary (JObject []))
  else
    t ← lift (transaction_at matches position);
    mret (ok_response (set_value_width_complete summary)
            (set_key (lit "transaction") (transaction_json t (as_wave s) unit format false) (JObject []))).

Lemma transaction_at_defined matches position : 0 <= position < zlen matches -> transaction_at matches position <> UB.
Proof.
  intros Hp. unfold transaction_at. destruct (matches !! Z.to_nat position) as [t|] eqn:E; [done|].
  apply lookup_ge_None in E. unfold zlen in Hp. lia.
Qed.

Lemma cursor_tail_good args name direction unit format c refs n s : cursors_ok s -> ew_ok n (as_wave s) ->
  mget name (apb_configs s) = Some c -> held_refs (as_wave s) c refs ->
  let r := cursor_tail args name direction unit format (scan_with_refs (as_wave s) c refs) s in
  fst r <> UB /\ good n s (snd r).
Proof.
  intros Hok Ho Hc Hh. pose proof (ok_zero n _ Ho) as Ho0. set (sc := scan_with_refs (as_wave s) c refs).
  pose proof (cursor_inside name direction c refs s Hok Ho0 Hc Hh) as Hin. cbn zeta in Hin. fold sc in Hin.
  set (key := cursor_key name direction) in *. set (position := default 0 (mget key (apb_cursors s))) in *.
  assert (cursors_ok (snd (set_cursor key position s))) as Hok1.
  { apply set_cursor_ok; [done|]. intros name' c' d Hd Hc' Hk. destruct (mget key (apb_cursors s)) as [p|] eqn:E; [|by left].
    subst position. cbn [default]. unfold id. rewrite <- Hk in E. by apply (cu_position s Hok name'). }
  unfold cursor_tail, mbind, act_bind, get_state, lift. fold key position. cbn [set_cursor] in Hok1 |- *.
  set (s1 := MkApbState _ _ _) in *. assert (good n s s1) as Hg1 by (split_and!; [done|apply ew_later_refl|done]).
  destruct (string_at_key (lit "op") args) as [op| |e] eqn:Eop; [|by apply string_at_key_defined in Eop|done].
  destruct (move_cursor op (zlen (matches_of direction sc)) position) as [found p'] eqn:Em.
  assert ((p' = position \/ p' = 0 \/ 0 <= p' < zlen (matches_of direction sc)) /\
          (found = true -> 0 <= p' < zlen (matches_of direction sc))) as [Hp' Hf].
  { destruct Hin as [He|Hin].
    - rewrite He in Em. unfold move_cursor in Em. cbn in Em. injection Em as <- <-. split; [by left|done].
    - apply move_cursor_range in Em as [H1 H2]; [split; [by right|done]|lia|apply zlen_nonneg|lia]. }
  assert (good n s (snd (set_cursor key p' s1))) as Hg2.
  { split_and!; [done|apply ew_later_refl|]. apply set_cursor_ok; [done|]. intros name' c' d Hd Hc' Hk.
    destruct Hp' as [->|[->|Hp']]; [|by left|].
    - apply (cu_position s1 Hok1 name' c' d position Hd Hc'). rewrite Hk. apply mget_mset_eq.
    - by apply (cursor_own name direction c refs s p' Ho0 Hc Hh Hp' name' c' d). }
  destruct found; cbn [negb]; [|done]. specialize (Hf eq_refl).
  destruct (transaction_at (matches_of direction sc) p') as [t| |e] eqn:Et; [done| |done].
  by apply transaction_at_defined in Et.
Qed.

Definition safe {A} (n : nat) s (x : res A * St) : Prop := fst x <> UB /\ good n s (snd x).

Lemma cursor_good n req s : cursors_ok s -> ew_ok (10 + n) (as_wave s) ->
  safe n s (apb_transaction_cursor getenv req s).
Proof.
  intros Hok Ho. assert (good n s s) as Hsame by (apply good_refl; [by eapply ew_ok_le; [|exact Ho]; lia|done]).
  unfold apb_transaction_cursor, mbind at 1, act_bind at 1, lift at 1.
  destruct (at_key (lit "args") req) as [args| |e] eqn:Ea; [| |done].
  2: { unfold at_key in Ea. destruct req as [| | | | | | |m]; try done. by destruct (mget _ m). }
  unfold mbind at 1, act_bind at 1, lift at 1. destruct (string_at_key (lit "name") args) as [name| |e] eqn:En;
    [|by apply string_at_key_defined in En|done].
  unfold mbind at 1, act_bind at 1.
  pose proof (keeps_good 10 n (require_config_and_scan getenv name (lit "apb.transaction.cursor")) s
    (keeps_require name _) Ho Hok) as Hg.
  destruct (require_config_and_scan getenv name _ s) as [r s1] eqn:Er. cbn [snd] in Hg.
  destruct (require_spec n name _ s r s1 Ho Er) as [Hu Hsc]. destruct r as [[err|sc]| |e]; [done| |done|done].
  destruct (Hsc sc eq_refl) as (c & refs & Hc & Hh & ->). pose proof Hg as (Ho1 & _ & Hok1).
  unfold mbind at 1, act_bind at 1, lift at 1. destruct (parse_render args) as [[err|[unit format]]| |e] eqn:Ep;
    [done| |by apply parse_render_defined in Ep|done].
  unfold mbind at 1, act_bind at 1, lift at 1.
  destruct (value_or as_string (lit "direction") (lit "all") args) as [direction| |e] eqn:Ed;
    [|by apply value_string_defined in Ed|done].
  destruct (cursor_tail_good args name direction unit format c refs n s1 Hok1 Ho1 Hc Hh) as [Hn Hg2].
  split; [exact Hn|]. eapply good_trans; [exact Hg|exact Hg2].
Qed.

(** The states of the engine: actions run one after the other, and between
    them other actions may look up and load signals. *)
Inductive reaches : nat -> St -> Prop :=
| reach_start n w : ew_ok n w -> reaches n (MkApbState w [] [])
| reach_action n s action req : reaches (10 + n) s ->
    reaches n (snd (run_apb getenv file parse trunc action req s))
| reach_other n s w : reaches n s -> ew_ok n w -> ew_later (as_wave s) w ->
    reaches n (MkApbState w (apb_configs s) (apb_cursors s)).

Lemma action_good n action req s : cursors_ok s -> ew_ok (10 + n) (as_wave s) ->
  good n s (snd (run_apb getenv file parse trunc action req s)).
Proof.
  intros Hok Ho. destruct action; cbn [run_apb];
    [apply (keeps_good 10); auto using keeps_list|by apply load_good|apply (keeps_good 10); auto using keeps_query
    |apply (keeps_good 10); auto using keeps_statistics|by apply cursor_good|apply (keeps_good 10); auto using keeps_window].
Qed.

Lemma reaches_ok n s : reaches n s -> ew_ok n (as_wave s) /\ cursors_ok s.
Proof.
  induction 1 as [n w Hw|n s action req _ [Ho Hok]|n s w _ [Ho Hok] Hw Hl].
  - split; [done|]. split; [done|]. intros; done.
  - by destruct (action_good n action req s Hok Ho) as (? & _ & ?).
  - split; [done|]. by apply cursors_later.
Qed.

(** Cursors never leave the transactions of their configuration. After
    every history of APB actions and of lookups and loads by other actions,
    each stored cursor position is zero or inside the matches of a scan of
    its present configuration, and the cursor action, which indexes the
    matches with that position without a test, has no undefined behaviour. *)
Theorem apb_cursor_in_range (n : nat) (s : St) (req : json) :
  reaches (10 + n) s -> cursors_ok s /\ fst (apb_transaction_cursor getenv req s) <> UB.
Proof. intros [Ho Hok]%reaches_ok. split; [done|]. by apply (cursor_good n). Qed.
End Histories.

(** ** A small waveform

    The demo file of the reader: a clock that rises at index 1 and 3 and a bus
    whose bits play the APB signals; a read completes at index 3. *)

#[local] Instance demo_engine : EngineWave demo_state := fst_engine (fun _ _ _ => inl []) (fun _ _ _ => []).
#[local] Instance demo_laws : EngineLaws demo_state := fst_laws (fun _ _ _ => inl []) (fun _ _ _ => []).

Definition demo_apb : ApbConfig :=
  MkApbConfig (lit "apb0") (lit "top.clk") (lit "posedge") (lit "before") (lit "top.Bus[3]") (lit "active_high")
    (lit "top.Bus") (lit "top.Bus[2]") (lit "top.Bus[2]") (lit "top.Bus[0]") (lit "top.Bus") (lit "top.Bus") [] [].
Definition no_refs : ApbRefs := MkApbRefs 0 0 0 0 0 0 0 0 0 0 0 0 0.
Definition demo_apb_refs : ApbRefs := match fst (load_refs demo_apb demo_open) with inr refs => refs | inl _ => no_refs end.
Definition demo_apb_wave : demo_state := snd (load_refs demo_apb demo_open).

Lemma apb_scan_exact_witness :
  transactions (scan_with_refs demo_apb_wave demo_apb demo_apb_refs) =
    [MkApbTransaction 15 false false (lit "0100") (lit "0100") 4 4] /\
  exists ti, ti ∈ edges_of demo_apb_wave demo_apb demo_apb_refs /\
    transfer demo_apb_wave demo_apb demo_apb_refs ti (MkApbTransaction 15 false false (lit "0100") (lit "0100") 4 4).
Proof.
  split; [vm_compute; reflexivity|].
  apply (apb_scan_exact demo_apb_wave demo_apb demo_apb_refs); [vm_compute; discriminate|].
  assert (transactions (scan_with_refs demo_apb_wave demo_apb demo_apb_refs) =
    [MkApbTransaction 15 false false (lit "0100") (lit "0100") 4 4]) as -> by (vm_compute; reflexivity). left.
Defined.

Definition apb_args (l : list (bytes * json)) : json := jobj [(lit "args", jobj ((lit "name", JString (lit "apb0")) :: l))].
Definition demo_load : json :=
  apb_args [(lit "config", jobj [(lit "clock", JString (lit "top.clk")); (lit "edge", JString (lit "posedge"));
     (lit "reset", jobj [(lit "signal", JString (lit "top.Bus[3]")); (lit "polarity", JString (lit "active_high"))]);
     (lit "paddr", JString (lit "top.Bus")); (lit "psel", JString (lit "top.Bus[2]"));
     (lit "penable", JString (lit "top.Bus[2]")); (lit "pwrite", JString (lit "top.Bus[0]"));
     (lit "pwdata", JString (lit "top.Bus")); (lit "prdata", JString (lit "top.Bus"))])].
Definition demo_begin : json := apb_args [(lit "op", JString (lit "begin"))].
Definition demo_run_apb (action : ApbAction) (req : json) : act (ApbState demo_state) json :=
  run_apb (fun _ => None) (fun _ => None) (fun _ => inl []) (fun _ => 0) action req.
Definition demo_history : ApbState demo_state :=
  snd (demo_run_apb TransactionCursor demo_begin (snd (demo_run_apb ConfigLoad demo_load (MkApbState demo_open [] [])))).

Lemma apb_cursor_in_range_witness :
  apb_cursors demo_history = [(lit "apb0:all", 0)] /\ cursors_ok demo_history /\
  fst (apb_transaction_cursor (fun _ => None) demo_begin demo_history) <> UB.
Proof.
  split; [vm_compute; reflexivity|].
  apply (apb_cursor_in_range (fun _ => None) (fun _ => None) (fun _ => inl []) (fun _ => 0) 0 demo_history demo_begin).
  unfold demo_history, demo_run_apb. do 2 apply (reach_action _ _ _ _ (10 + _)). apply reach_start.
  split; [apply demo_open_wf|vm_compute; reflexivity].
Defined.

(** ** Statistics and queries agree *)

Definition reads_among (l : list ApbTransaction) : Z := zlen (List.filter (fun t => negb (at_is_write t)) l).
Definition writes_among (l : list ApbTransaction) : Z := zlen (List.filter at_is_write l).

Definition is_undecided (r : res FilterResult) : bool := match r with Ret FilterUnresolved => true | _ => false end.

(** How many transactions of the direction the address filter cannot decide. *)
Definition undecidable (direction : bytes) (address : json) (l : list ApbTransaction) : Z :=
  zlen (List.filter (fun t => direction_matches t direction && is_undecided (address_matches t address)) l).

(** One transaction of the three counts. *)
Lemma reads_among_cons t l : reads_among (t :: l) = reads_among l + if at_is_write t then 0 else 1.
Proof. unfold reads_among. cbn. destruct (at_is_write t); cbn; rewrite ?zlen_cons; lia. Qed.
Lemma writes_among_cons t l : writes_among (t :: l) = writes_among l + if at_is_write t then 1 else 0.
Proof. unfold writes_among. cbn. destruct (at_is_write t); cbn; rewrite ?zlen_cons; lia. Qed.
Lemma undecidable_cons d a t l : undecidable d a (t :: l) = undecidable d a l +
  if direction_matches t d && is_undecided (address_matches t a) then 1 else 0.
Proof. unfold undecidable. cbn. destruct (_ && _); cbn; rewrite ?zlen_cons; lia. Qed.

Lemma ret3 (a b c a' b' c' : Z) : a = a' -> b = b' -> c = c' -> Ret (a, b, c) = Ret (a', b', c').
Proof. by intros -> -> ->. Qed.

Lemma count_select d a txns : forall r w u, 0 <= r -> 0 <= w -> 0 <= u -> r + w + u + zlen txns <= u64_max ->
  count_matches d a txns r w u =
  (ms ← select_matches d a txns; Ret (r + reads_among ms, w + writes_among ms, u + undecidable d a txns)).
Proof.
  induction txns as [|t txns IH]; intros r w u Hr Hw Hu Hb; cbn [count_matches select_matches].
  { cbn. by rewrite !Z.add_0_r. }
  rewrite zlen_cons in Hb. pose proof (zlen_nonneg txns). unfold u64_max in *. rewrite undecidable_cons. unfold selects.
  destruct (direction_matches t d); cbn [negb andb]; cycle 1.
  { rewrite IH by lia. cbn [mbind res_bind]. destruct (select_matches d a txns); cbn [mbind res_bind is_undecided]; [|done|done]. by rewrite Z.add_0_r. }
  destruct (address_matches t a) as [[| |]| |e]; cbn [mbind res_bind]; try done.
  - rewrite IH by lia. destruct (select_matches d a txns); cbn [mbind res_bind is_undecided]; [|done|done]. by rewrite Z.add_0_r.
  - change (bool_decide (FilterYes = FilterYes)) with true. cbn [mbind res_bind]. destruct (at_is_write t) eqn:Et; rewrite u64_small, IH by lia; destruct (select_matches d a txns); cbn [mbind res_bind is_undecided]; try done;
      rewrite reads_among_cons, writes_among_cons, Et; apply ret3; lia.
  - change (bool_decide (FilterUnresolved = FilterYes)) with false. cbn [mbind res_bind].
    rewrite u64_small, IH by lia. destruct (select_matches d a txns); cbn [mbind res_bind is_undecided]; [|done|done]. apply ret3; lia.
Qed.

(** The statistics of a filter count what the query with that filter
    returns. Over any scan, counting throws or is undefined exactly when
    selecting is; otherwise the read and write counts are those of the
    selected transactions, and the unresolved count grows by the transactions
    of the direction whose address the filter cannot decide. *)
Theorem apb_statistics_match_query (direction : bytes) (address : json) (scan : ApbScan) :
  0 <= unresolved scan -> unresolved scan + zlen (transactions scan) <= u64_max ->
  count_matches direction address (transactions scan) 0 0 (unresolved scan) =
  (selected ← select_matches direction address (transactions scan);
   Ret (reads_among selected, writes_among selected,
        unresolved scan + undecidable direction address (transactions scan))).
Proof. intros Hu Hb. by rewrite count_select by lia. Qed.

Definition demo_txns : list ApbTransaction :=
  [MkApbTransaction 5 true false (lit "0100") (lit "1") 4 1; MkApbTransaction 10 false false (lit "01x0") (lit "0") 4 1;
   MkApbTransaction 15 false false (lit "0101") (lit "0") 4 1].
Definition demo_range : json :=
  jobj [(lit "mode", JString (lit "range")); (lit "begin", JString (lit "4")); (lit "end", JString (lit "'h5"))].

Lemma apb_statistics_match_query_witness :
  count_matches (lit "all") demo_range demo_txns 0 0 2 = Ret (1, 1, 3).
Proof.
  etransitivity; [apply (apb_statistics_match_query (lit "all") demo_range (MkApbScan demo_txns true 2)); vm_compute; discriminate|].
  vm_compute. reflexivity.
Defined.

(** A sized decimal literal of more than 64 bits, which the request schema
    accepts, shifts a 64-bit integer by 64 or more. *)
Lemma wide_address_literal_undefined :
  address_matches (MkApbTransaction 5 true false (lit "0100") (lit "1") 4 1)
    (jobj [(lit "mode", JString (lit "exact")); (lit "values", JArray [JString (lit "100'd5")])]) = UB.
Proof. vm_compute. reflexivity. Qed.

