(* ===== verification/Xout.v ===== *)
(** * Xout: the text responses

    Models [src/protocol/text_response_builder.{h,cpp}]: the sanitising of
    keys and values, the one-line form of a JSON value and the builder with
    its pending section and pending block of key-value lines. [dump] is the
    JSON printer. A step that converts a member of the wrong type throws. *)

From S2P Require Import Prelude CLib Json Engine.

Open Scope Z_scope.

Definition kMaxValueLength : Z := 4096.
Definition newline : ascii := chr 10.
Definition carriage : ascii := chr 13.
Definition tab : ascii := chr 9.
Definition backslash : ascii := chr 92.

(** ** Keys and values *)

Definition key_char (c : ascii) : bool := isalnum c || eqc c "_"%char || eqc c "-"%char || eqc c "."%char.
Definition sanitize_xout_key (key : bytes) : bytes :=
  match map (fun c => if key_char c then c else "_"%char) key with
  | [] => lit "field"
  | out => out
  end.

Definition escape_char (c : ascii) : bytes :=
  if eqc c newline then [backslash; "n"%char]
  else if eqc c carriage then [backslash; "r"%char]
  else if eqc c tab then [" "%char]
  else [c].
Fixpoint sanitize_loop (out value : bytes) : bytes :=
  match value with
  | [] => out
  | c :: value' =>
      let out := out ++ escape_char c in
      if kMaxValueLength <=? zlen out then out ++ lit "..." else sanitize_loop out value'
  end.
Definition sanitize_xout_value (value : bytes) : bytes := sanitize_loop [] value.

Fixpoint collapse_loop (out : bytes) (in_space : bool) (input : bytes) : bytes :=
  match input with
  | [] => out
  | c :: input' =>
      if isspace c then collapse_loop (if negb in_space && negb (eqs out []) then out ++ [" "%char] else out) true input'
      else collapse_loop (out ++ [c]) false input'
  end.
Definition pop_space (s : bytes) : bytes :=
  match list.last s with Some c => if eqc c " "%char then removelast s else s | None => s end.
Definition collapse_row_column (input : bytes) : bytes := pop_space (collapse_loop [] false input).

(** ** Logic values *)

(** The width, the radix and the body of a sized literal. *)
Definition split_logic_literal (literal : bytes) : option (bytes * ascii * bytes) :=
  match span (fun c => negb (eqc c "'"%char)) literal with
  | (width, _ :: radix :: body) =>
      let radix := tolower radix in
      if forallb isdigit width && (eqc radix "h"%char || eqc radix "b"%char || eqc radix "d"%char)
         && negb (eqs body [])
      then Some (width, radix, body) else None
  | _ => None
  end.

Definition is_value_object (value : json) : bool :=
  match jget (lit "value") value with
  | Some (JString literal) =>
      (jcontains (lit "known") value || jcontains (lit "bits") value || jcontains (lit "width") value)
      && bool_decide (is_Some (split_logic_literal literal))
  | _ => false
  end.

Definition without_underscores (s : bytes) : bytes := List.filter (fun c => negb (eqc c "_"%char)) s.

Fixpoint drop_zeros (s : bytes) : bytes :=
  match s with c :: s' => if eqc c "0"%char then drop_zeros s' else s | [] => [] end.
Definition compact_hex_body (body : bytes) : bytes :=
  let body := without_underscores body in
  if eqs body [] then lit "0"
  else if forallb (fun c => eqc c "x"%char || eqc c "X"%char) body then lit "x"
  else if forallb (fun c => eqc c "z"%char || eqc c "Z"%char) body then lit "z"
  else match drop_zeros body with [] => lit "0" | rest => rest end.

Fixpoint bit_groups (fuel : nat) (bits : bytes) : bytes :=
  match fuel with
  | O => []
  | S f => match bits with [] => [] | _ => "_"%char :: take 4 bits ++ bit_groups f (drop 4 bits) end
  end.
Definition grouped_bits (bits : bytes) : bytes :=
  let bits := without_underscores bits in
  if (length bits <=? 4)%nat then bits
  else
    let first := if (length bits mod 4 =? 0)%nat then 4%nat else (length bits mod 4)%nat in
    take first bits ++ bit_groups (length bits) (drop first bits).

(** Of an object that [is_value_object]. *)
Definition logic_value_xout (value : json) : res bytes :=
  literal ← value_or as_string (lit "value") [] value;
  let '(width, radix, body) := default ([], chr 0, []) (split_logic_literal literal) in
  let out := width ++ "'"%char :: radix :: (if eqc radix "h"%char then compact_hex_body body else body) in
  known ← value_or as_bool (lit "known") true value;
  let out := match jget (lit "bits") value with
             | Some (JString bits) =>
                 match known with
                 | false => if eqc radix "h"%char then out ++ lit " bits=" ++ grouped_bits bits else out
                 | true => out
                 end
             | _ => out
             end in
  requested ← (match known with
               | true => Ret []
               | false => value_or as_string (lit "requested_value_format") [] value
               end);
  let out := if eqs requested (lit "dec") then out ++ lit " requested=dec reason=X/Z" else out in
  let reliable_width := match jget (lit "width") value with
                        | Some (JInt n) | Some (JUint n) => 0 <? i32 n
                        | _ => false
                        end in
  Ret (if eqs width [] && negb reliable_width then out ++ lit " width_unknown" else out).

Definition is_field_map (value : json) : bool :=
  match value with
  | JObject (m :: ms) => negb (is_value_object value) && forallb (fun kv => is_value_object (snd kv)) (m :: ms)
  | _ => false
  end.

Fixpoint compact_fields (out : bytes) (members : list (bytes * json)) : res bytes :=
  match members with
  | [] => Ret out
  | (k, v) :: members' =>
      text ← logic_value_xout v;
      compact_fields ((match out with [] => [] | _ => out ++ [" "%char] end) ++ sanitize_xout_key k ++ lit "=" ++ text) members'
  end.
Definition compact_field_map (value : json) : res bytes :=
  match value with JObject m => compact_fields [] m | _ => Ret [] end.

Definition is_xout_scalar_json (value : json) : bool :=
  match value with
  | JString _ | JInt _ | JUint _ | JFloat _ | JBool _ => true
  | _ => is_value_object value || is_field_map value
  end.
Definition is_xout_field_map_json (value : json) : bool := is_field_map value.

Section Builder.
Context (dump : json -> bytes).

(** [is_number_integer] holds of unsigned numbers too, so these are printed
    through [long long] as well. *)
Definition json_to_xout_value (value : json) : res bytes :=
  if json_null value then Ret []
  else if is_value_object value then text ← logic_value_xout value; Ret (sanitize_xout_value text)
  else if is_field_map value then text ← compact_field_map value; Ret (sanitize_xout_value text)
  else Ret (match value with
            | JString s => sanitize_xout_value s
            | JBool b => if b then lit "true" else lit "false"
            | JInt n | JUint n => to_string (i64 n)
            | _ => sanitize_xout_value (dump value)
            end).

(** ** The builder *)

Record PendingKv := MkKv { kv_indent : bytes; kv_key : bytes; kv_value : bytes }.

Record TextResponseBuilder := MkBuilder {
  tool_ : bytes;
  out_ : bytes;
  pending_section_ : bytes;
  pending_kv_ : list PendingKv;
  wrote_header_ : bool;
  wrote_content_ : bool;
  in_section_ : bool;
}.
Definition new_builder (tool : bytes) : TextResponseBuilder := MkBuilder tool [] [] [] false false false.

Definition append (text : bytes) (b : TextResponseBuilder) : TextResponseBuilder :=
  MkBuilder (tool_ b) (out_ b ++ text) (pending_section_ b) (pending_kv_ b) (wrote_header_ b) (wrote_content_ b) (in_section_ b).

Definition write_line (text : bytes) (b : TextResponseBuilder) : TextResponseBuilder :=
  let b :=
    if negb (wrote_content_ b) && eqs (pending_section_ b) [] then
      let b := if wrote_header_ b then append [newline] b else b in
      MkBuilder (tool_ b) (out_ b) (pending_section_ b) (pending_kv_ b) (wrote_header_ b) true false
    else b in
  append (text ++ [newline]) b.

Definition ensure_section (b : TextResponseBuilder) : TextResponseBuilder :=
  if eqs (pending_section_ b) [] then b
  else
    let b := if wrote_content_ b then append [newline] b else b in
    let b := append (pending_section_ b ++ ":"%char :: [newline]) b in
    MkBuilder (tool_ b) (out_ b) [] (pending_kv_ b) (wrote_header_ b) true true.

Definition max_key_width (kvs : list PendingKv) : nat := foldl (fun w kv => Nat.max w (length (kv_key kv))) 0%nat kvs.
Definition kv_line (width : nat) (kv : PendingKv) : bytes :=
  kv_indent kv ++ kv_key kv ++ replicate (width - length (kv_key kv)) " "%char ++ lit ": " ++ kv_value kv.
Definition flush_kv_block (b : TextResponseBuilder) : TextResponseBuilder :=
  let kvs := pending_kv_ b in
  match kvs with
  | [] => b
  | _ =>
      let b := foldl (fun b kv => write_line (kv_line (max_key_width kvs) kv) b) b kvs in
      MkBuilder (tool_ b) (out_ b) (pending_section_ b) [] (wrote_header_ b) (wrote_content_ b) (in_section_ b)
  end.

Definition emit_header (action : bytes) (b : TextResponseBuilder) : TextResponseBuilder :=
  if wrote_header_ b then b
  else
    let b := append ("@"%char :: tool_ b ++ lit "." ++ action ++ lit ".v1" ++ [newline]) b in
    MkBuilder (tool_ b) (out_ b) (pending_section_ b) (pending_kv_ b) true (wrote_content_ b) (in_section_ b).

Definition emit_section (name : bytes) (b : TextResponseBuilder) : TextResponseBuilder :=
  let b := flush_kv_block b in
  MkBuilder (tool_ b) (out_ b) (sanitize_xout_key name) (pending_kv_ b) (wrote_header_ b) (wrote_content_ b) (in_section_ b).

(** The indentation of the next line. *)
Definition nested (b : TextResponseBuilder) : bytes :=
  if in_section_ b || negb (eqs (pending_section_ b) []) then lit "  " else [].

Definition push_kv (key text : bytes) (b : TextResponseBuilder) : TextResponseBuilder :=
  let indent := nested b in
  let b := ensure_section b in
  MkBuilder (tool_ b) (out_ b) (pending_section_ b) (pending_kv_ b ++ [MkKv indent (sanitize_xout_key key) text])
    (wrote_header_ b) (wrote_content_ b) (in_section_ b).

Definition is_empty_json (value : json) : bool :=
  match value with JNull | JArray [] | JObject [] => true | _ => false end.

(** [emit_kv(key, Json)] and [emit_kv(key, std::string)] *)
Definition emit_kv (key : bytes) (value : json) (b : TextResponseBuilder) : res TextResponseBuilder :=
  if is_empty_json value then Ret b
  else
    text ← json_to_xout_value value;
    Ret (match text with [] => b | _ => push_kv key text b end).
Definition emit_kv_text (key value : bytes) (b : TextResponseBuilder) : TextResponseBuilder :=
  match value with [] => b | _ => push_kv key (sanitize_xout_value value) b end.
Definition emit_kv_bool (key : bytes) (value : bool) : TextResponseBuilder -> TextResponseBuilder :=
  emit_kv_text key (if value then lit "true" else lit "false").
Definition emit_kv_int (key : bytes) (value : Z) : TextResponseBuilder -> TextResponseBuilder :=
  emit_kv_text key (to_string value).

Fixpoint row_text (row : bytes) (columns : list bytes) : bytes :=
  match columns with
  | [] => row
  | col :: columns' =>
      let text := collapse_row_column (sanitize_xout_value col) in
      row_text (match text, row with
                | [], _ => row
                | _, [] => text
                | _, _ => row ++ " "%char :: text
                end) columns'
  end.
Definition emit_row (columns : list bytes) (b : TextResponseBuilder) : TextResponseBuilder :=
  let b := flush_kv_block b in
  match row_text [] columns with
  | [] => b
  | row => let indent := nested b in write_line (indent ++ row) (ensure_section b)
  end.

(** One line of a table. *)
Fixpoint table_cells (widths : list nat) (cells : list bytes) : bytes :=
  match widths with
  | [] => []
  | w :: widths' =>
      let cell := default [] (list.head cells) in
      match widths' with
      | [] => cell
      | _ => cell ++ replicate (w - length cell) " "%char ++ lit "  " ++ table_cells widths' (drop 1 cells)
      end
  end.
Fixpoint trim_right (s : bytes) : bytes :=
  match s with
  | [] => []
  | c :: s' => match trim_right s' with [] => if eqc c " "%char then [] else [c] | t => c :: t end
  end.
Definition emit_cells (widths : list nat) (b : TextResponseBuilder) (cells : list bytes) : TextResponseBuilder :=
  let line := trim_right (table_cells widths cells) in
  let indent := nested b in
  write_line (indent ++ line) (ensure_section b).

(** The cells of the first [n] columns, missing ones empty. *)
Definition safe_row (n : nat) (row : list bytes) : list bytes :=
  map (fun i => match row !! i with Some c => collapse_row_column (sanitize_xout_value c) | None => [] end) (List.seq 0 n).
Definition widen (widths : list nat) (row : list bytes) : list nat := zip_with (fun w c => Nat.max w (length c)) widths row.

Definition emit_table (columns : list bytes) (rows : list (list bytes)) (b : TextResponseBuilder) : TextResponseBuilder :=
  let b := flush_kv_block b in
  match columns with
  | [] => b
  | _ =>
      let safe_columns := map (fun c => collapse_row_column (sanitize_xout_key c)) columns in
      let safe_rows := map (safe_row (length columns)) rows in
      let widths := foldl widen (map (@length ascii) safe_columns) safe_rows in
      foldl (emit_cells widths) (emit_cells widths b safe_columns) safe_rows
  end.

(** ** Tables of JSON objects *)

Record TableColumn := MkColumn { label : bytes; parent : bytes; column_key : bytes }.

(** [seen.insert(label).second] *)
Definition add_column (c : TableColumn) (columns : list TableColumn) : list TableColumn :=
  if existsb (fun d => eqs (label d) (label c)) columns then columns else columns ++ [c].

Definition child_label (k child : bytes) : bytes :=
  if eqs k (lit "signals") then sanitize_xout_key child else sanitize_xout_key (k ++ lit "." ++ child).
Definition collect_member (columns : list TableColumn) (member : bytes * json) : list TableColumn :=
  let '(k, v) := member in
  if is_xout_scalar_json v then add_column (MkColumn (sanitize_xout_key k) [] k) columns
  else match v with
       | JObject children =>
           foldl (fun columns child =>
                    if is_xout_scalar_json (snd child)
                    then add_column (MkColumn (child_label k (fst child)) k (fst child)) columns else columns)
             columns children
       | _ => columns
       end.
Definition collect_table_columns_from_item (columns : list TableColumn) (item : json) : list TableColumn :=
  match item with JObject m => foldl collect_member columns m | _ => columns end.

Definition table_cell_value (item : json) (c : TableColumn) : res bytes :=
  match item with
  | JObject m =>
      match parent c with
      | [] => match mget (column_key c) m with Some v => json_to_xout_value v | None => Ret [] end
      | p =>
          match mget p m with
          | Some (JObject children) =>
              match mget (column_key c) children with Some v => json_to_xout_value v | None => Ret [] end
          | _ => Ret []
          end
      end
  | _ => Ret []
  end.


Definition emit_json_table (items : json) (max_rows : Z) (b : TextResponseBuilder) : res TextResponseBuilder :=
  let b := flush_kv_block b in
  match items with
  | JArray (i :: is') =>
      let count := Z.min max_rows (i32 (zlen (i :: is'))) in
      let shown := take (Z.to_nat count) (i :: is') in
      match foldl collect_table_columns_from_item [] shown with
      | [] => Ret b
      | columns =>
          rows ← map_res (fun item => map_res (table_cell_value item) columns) shown;
          Ret (emit_table (map label columns) rows b)
      end
  | _ => Ret b
  end.

Definition emit_warning (err_code message : bytes) (b : TextResponseBuilder) : TextResponseBuilder :=
  emit_table [lit "code"; lit "message"] [[err_code; message]] (emit_section (lit "warnings") b).

Definition emit_raw (text : bytes) (b : TextResponseBuilder) : TextResponseBuilder :=
  let b := flush_kv_block b in
  let b := MkBuilder (tool_ b) (out_ b) (pending_section_ b) (pending_kv_ b) (wrote_header_ b) true (in_section_ b) in
  append text b.

Definition error_fields : list bytes :=
  [lit "code"; lit "message"; lit "recoverable"; lit "error_layer"; lit "invalid_arg"; lit "expected"; lit "received";
   lit "received_type"; lit "allowed_values"; lit "available_values"; lit "missing_name"; lit "missing_resource";
   lit "required_any_of"; lit "did_you_mean"; lit "cause_code"; lit "failure_kind"; lit "failure_phase";
   lit "startup_reason"; lit "diagnostic_log"; lit "native_error_summary"; lit "example_note"].

Fixpoint emit_members (keys : list bytes) (source : json) (b : TextResponseBuilder) : res TextResponseBuilder :=
  match keys with
  | [] => Ret b
  | k :: keys' =>
      b ← (match jget k source with Some v => emit_kv k v b | None => Ret b end);
      emit_members keys' source b
  end.
Fixpoint emit_value_rows (values : list json) (b : TextResponseBuilder) : res TextResponseBuilder :=
  match values with
  | [] => Ret b
  | v :: values' => text ← json_to_xout_value v; emit_value_rows values' (emit_row [text] b)
  end.
Definition emit_list_section (k : bytes) (error : json) (b : TextResponseBuilder) : res TextResponseBuilder :=
  match jget k error with
  | Some (JArray l) => emit_value_rows l (emit_section k b)
  | _ => Ret b
  end.
Definition emit_error (error : json) (b : TextResponseBuilder) : res TextResponseBuilder :=
  if negb (is_object error) then Ret b
  else
    b ← emit_members error_fields error b;
    b ← (match jget (lit "correct_example") error with
         | Some example => emit_kv (lit "json") example (emit_section (lit "correct_example") b)
         | None => Ret b
         end);
    b ← emit_list_section (lit "next_actions") error b;
    emit_list_section (lit "advisories") error b.

(** [str()]: the text with exactly one newline at its end. *)
Fixpoint drop_newlines (reversed : bytes) : bytes :=
  match reversed with c :: r => if eqc c newline then drop_newlines r else reversed | [] => [] end.
Definition str (b : TextResponseBuilder) : bytes :=
  rev (drop_newlines (rev (out_ (flush_kv_block b)))) ++ [newline].
End Builder.
