(* ===== verification/XoutTheory.v ===== *)
(** * XoutTheory: the exact text of the builder

    What an action asks of the text builder is a list of items: headings,
    key-value pairs and lines. [layout] arranges items into the lines of a
    response without any state; the builder, which interleaves its pending
    heading and its pending block with what it has written, is shown to write
    exactly these lines, one line of text for each. *)

From S2P Require Import Prelude CLib Json Engine Xout.

Open Scope Z_scope.

(** ** Sanitised text *)

(** Text that stays on its line. *)
Definition one_line (s : bytes) : Prop := newline ∉ s.

Lemma one_line_app a b : one_line (a ++ b) <-> one_line a /\ one_line b.
Proof. unfold one_line. rewrite elem_of_app. tauto. Qed.
Lemma one_line_cons c s : one_line (c :: s) <-> c <> newline /\ one_line s.
Proof.
  unfold one_line. rewrite elem_of_cons. split.
  - intros Hn. split; [|tauto]. intros E. apply Hn. by left.
  - intros [Hc Hs] [E|Hin]; [by apply Hc|done].
Qed.
Lemma one_line_nil : one_line [].
Proof. by intros ?%elem_of_nil. Qed.
Lemma one_line_repeat n c : c <> newline -> one_line (replicate n c).
Proof. intros Hc Hin. apply elem_of_replicate in Hin as [E _]. by apply Hc. Qed.
Lemma one_line_forallb f s : (forall c, f c = true -> c <> newline) -> forallb f s = true -> one_line s.
Proof. intros Hf Hs Hin. rewrite List.forallb_forall in Hs. apply (Hf newline); [|done]. by apply Hs, list_elem_of_In. Qed.
Lemma one_line_lit s : bool_decide (newline ∉ lit s) = true -> one_line (lit s).
Proof. by intros ?%bool_decide_eq_true. Qed.

#[local] Hint Resolve one_line_nil : core.
Ltac one_line := repeat (rewrite one_line_app || rewrite one_line_cons || split); auto; try done;
  try (by apply one_line_lit; vm_compute).

Lemma digit_not_newline c : isdigit c = true -> c <> newline.
Proof. by intros Hc ->. Qed.
Lemma key_not_newline c : key_char c = true -> c <> newline.
Proof. by intros Hc ->. Qed.

Lemma to_string_line z : one_line (to_string z).
Proof.
  unfold to_string. assert (forall n, one_line (udec n)) as Hu
    by (intros n; eapply one_line_forallb; [exact digit_not_newline|apply udec_digits]).
  case_match; one_line.
Qed.

Lemma sanitize_key_chars k : forallb key_char (sanitize_xout_key k) = true /\ sanitize_xout_key k <> [].
Proof.
  unfold sanitize_xout_key. destruct (map _ k) as [|c s] eqn:E; [done|]. split; [|done]. rewrite <- E. clear E.
  induction k as [|a k IH]; [done|]. cbn. rewrite IH. destruct (key_char a) eqn:Ea; [by rewrite Ea|done].
Qed.

Lemma sanitize_key_line k : one_line (sanitize_xout_key k).
Proof. eapply one_line_forallb; [exact key_not_newline|apply sanitize_key_chars]. Qed.

Lemma escape_line c : one_line (escape_char c) /\ (length (escape_char c) <= 2)%nat.
Proof.
  unfold escape_char. destruct (eqc c newline) eqn:E1; [split; [one_line|cbn; lia]|].
  destruct (eqc c carriage); [split; [one_line|cbn; lia]|]. destruct (eqc c tab); [split; [one_line|cbn; lia]|].
  split; [|cbn; lia]. apply eqc_false in E1. one_line.
Qed.

(** Sanitising leaves one line of bounded length. *)
Lemma sanitize_loop_spec value : forall out, one_line out -> zlen out < kMaxValueLength ->
  one_line (sanitize_loop out value) /\ zlen (sanitize_loop out value) <= kMaxValueLength + 4.
Proof.
  unfold kMaxValueLength. induction value as [|c value IH]; intros out Ho Hl; cbn [sanitize_loop]; [split; [done|lia]|].
  destruct (escape_line c) as [He Hn].
  assert (zlen (out ++ escape_char c) <= zlen out + 2) as Hz by (unfold zlen; rewrite length_app; lia).
  unfold kMaxValueLength. destruct (4096 <=? zlen (out ++ escape_char c)) eqn:E.
  - split; [one_line|]. unfold zlen in *. rewrite length_app. cbn. lia.
  - apply IH; [one_line|lia].
Qed.
Lemma sanitize_value_spec v : one_line (sanitize_xout_value v) /\ zlen (sanitize_xout_value v) <= kMaxValueLength + 4.
Proof. apply sanitize_loop_spec; [auto|done]. Qed.

Lemma collapse_loop_line input : forall out in_space, one_line out -> one_line (collapse_loop out in_space input).
Proof.
  induction input as [|c input IH]; intros out sp Ho; cbn [collapse_loop]; [done|]. destruct (isspace c) eqn:E.
  - apply IH. case_match; one_line.
  - apply IH. one_line. by intros ->.
Qed.
Lemma pop_space_line s : one_line s -> one_line (pop_space s).
Proof.
  unfold pop_space. intros Hs. destruct (list.last s) as [c|]; [|done]. destruct (eqc c _); [|done]. intros Hin. apply Hs.
  destruct s as [|a s]; [done|]. rewrite (app_removelast_last a (l := a :: s)) by done. apply elem_of_app. by left.
Qed.
Lemma collapse_line s : one_line (collapse_row_column s).
Proof. apply pop_space_line, collapse_loop_line; auto. Qed.

Lemma trim_right_line s : one_line s -> one_line (trim_right s).
Proof.
  induction s as [|c s IH]; [done|]. rewrite one_line_cons. intros [Hc Hs]. cbn [trim_right].
  specialize (IH Hs). destruct (trim_right s) as [|d t]; [destruct (eqc c _); [auto|by apply one_line_cons]|by apply one_line_cons].
Qed.

Section Text.
Context (dump : json -> bytes).

(** Every value is written as one line. *)
Lemma value_line v text : json_to_xout_value dump v = Ret text -> one_line text.
Proof.
  unfold json_to_xout_value. destruct (json_null v); [by intros [= <-]|]. destruct (is_value_object v).
  { destruct (logic_value_xout v) as [t| |e]; [|done..]. intros [= <-]. apply sanitize_value_spec. }
  destruct (is_field_map v).
  { destruct (compact_field_map v) as [t| |e]; [|done..]. intros [= <-]. apply sanitize_value_spec. }
  intros [= <-]. destruct v as [|[]| | | | | |]; try apply sanitize_value_spec; try apply to_string_line; one_line.
Qed.
End Text.

(** ** One line each *)

Lemma row_text_line columns : forall row, one_line row -> one_line (row_text row columns).
Proof.
  induction columns as [|c columns IH]; intros row Hr; cbn [row_text]; [done|]. apply IH.
  pose proof (collapse_line (sanitize_xout_value c)) as Hc.
  destruct (collapse_row_column (sanitize_xout_value c)); [done|]. destruct row; [done|].
  apply one_line_app. split; [done|]. by apply one_line_cons.
Qed.

Lemma table_cells_line widths : forall cells, Forall one_line cells -> one_line (table_cells widths cells).
Proof.
  induction widths as [|w widths IH]; intros cells Hc; cbn [table_cells]; [auto|].
  assert (one_line (default [] (list.head cells))) as Hh by (destruct Hc; cbn; auto).
  destruct widths; [done|]. one_line; [by apply one_line_repeat|]. apply IH. by destruct Hc.
Qed.


(** ** Operations *)

(** What an action's renderer asks of the builder; [emit_raw] apart, which
    copies text that is already rendered. *)
Inductive BuilderOp :=
| OpHeader (action : bytes)
| OpSection (name : bytes)
| OpKv (key : bytes) (value : json)
| OpKvText (key value : bytes)
| OpRow (columns : list bytes)
| OpTable (columns : list bytes) (rows : list (list bytes))
| OpJsonTable (items : json) (max_rows : Z)
| OpWarning (err_code message : bytes)
| OpError (error : json).

(** ** Items and their layout *)

(** What a renderer wants to see in the text: a section starts, a key-value
    pair, lines that end the block of pairs before them. *)
Inductive Item :=
| ISection (name : bytes)
| IPair (key text : bytes)
| ILines (lines : list bytes).

Definition indent (b : bool) : bytes := if b then lit "  " else [].

(** Pairs with their colons in one column. *)
Definition aligned (run : list (bytes * bytes)) : list bytes :=
  let width := max_list (map (fun kv => length (fst kv)) run) in
  map (fun kv => fst kv ++ replicate (width - length (fst kv)) " "%char ++ lit ": " ++ snd kv) run.

(** The lines of items without headings, after the pairs [run]: neighbouring
    pairs are aligned. *)
Fixpoint body_lines (run : list (bytes * bytes)) (items : list Item) : list bytes :=
  match items with
  | IPair key text :: items' => body_lines (run ++ [(key, text)]) items'
  | ILines lines :: items' => aligned run ++ lines ++ body_lines [] items'
  | _ => aligned run
  end.

(** The items before the first heading, and those of each section. *)
Fixpoint split_sections (items : list Item) : list Item * list (bytes * list Item) :=
  match items with
  | [] => ([], [])
  | ISection name :: items' => let '(body, rest) := split_sections items' in ([], (name, body) :: rest)
  | item :: items' => let '(body, rest) := split_sections items' in (item :: body, rest)
  end.

(** The sections that have lines: a blank line unless the section comes
    right below the header, the heading, the lines indented by two spaces. *)
Fixpoint section_layout (below_header : bool) (sections : list (bytes * list Item)) : list bytes :=
  match sections with
  | [] => []
  | (name, body) :: rest =>
      match body_lines [] body with
      | [] => section_layout below_header rest
      | lines => (if below_header then [] else [[]]) ++ (name ++ lit ":") :: map (fun l => lit "  " ++ l) lines ++ section_layout false rest
      end
  end.

Definition header_line (tool action : bytes) : bytes := "@"%char :: tool ++ lit "." ++ action ++ lit ".v1".

(** The lines of a response: its header, the lines before the first heading
    below a blank line, the sections. *)
Definition layout (tool action : bytes) (items : list Item) : list bytes :=
  let '(top, sections) := split_sections items in
  header_line tool action ::
  match body_lines [] top with
  | [] => section_layout true sections
  | lines => [] :: lines ++ section_layout false sections
  end.

(** The lines of a text, and lines less the blank ones at the end. *)
Fixpoint text_lines (s : bytes) : list bytes :=
  match s with
  | [] => []
  | c :: s' =>
      if eqc c newline then [] :: text_lines s'
      else match text_lines s' with [] => [[c]] | l :: ls => (c :: l) :: ls end
  end.
Fixpoint trim_blank (lines : list bytes) : list bytes :=
  match lines with
  | [] => []
  | l :: lines' => match trim_blank lines' with [] => if eqs l [] then [] else [l] | t => l :: t end
  end.

(** ** The builder on items *)

Definition set_kv (kvs : list PendingKv) (b : TextResponseBuilder) : TextResponseBuilder :=
  MkBuilder (tool_ b) (out_ b) (pending_section_ b) kvs (wrote_header_ b) (wrote_content_ b) (in_section_ b).
Definition set_pending (name : bytes) (b : TextResponseBuilder) : TextResponseBuilder :=
  MkBuilder (tool_ b) (out_ b) name (pending_kv_ b) (wrote_header_ b) (wrote_content_ b) (in_section_ b).
Definition put_line (b : TextResponseBuilder) (line : bytes) : TextResponseBuilder :=
  write_line (nested b ++ line) (ensure_section b).
Definition put_item (b : TextResponseBuilder) (item : Item) : TextResponseBuilder :=
  match item with
  | ISection name => set_pending name (flush_kv_block b)
  | IPair key text => set_kv (pending_kv_ (ensure_section b) ++ [MkKv (nested b) key text]) (ensure_section b)
  | ILines lines => foldl put_line (flush_kv_block b) lines
  end.
Definition put_items (b : TextResponseBuilder) (items : list Item) : TextResponseBuilder := foldl put_item b items.

Definition join_lines (lines : list bytes) : bytes := List.concat (map (fun l => l ++ [newline]) lines).

(** What the builder writes before the next line. *)
Definition lead (b : TextResponseBuilder) : bytes :=
  match pending_section_ b with
  | [] => if wrote_content_ b then [] else [newline]
  | name => (if wrote_content_ b then [newline] else []) ++ name ++ ":"%char :: [newline]
  end.
Definition in_nested (b : TextResponseBuilder) : bool := in_section_ b || negb (eqs (pending_section_ b) []).

(** The builder after lines at the present level. *)
Definition add_lines (lines : list bytes) (b : TextResponseBuilder) : TextResponseBuilder :=
  match lines with
  | [] => b
  | _ => MkBuilder (tool_ b) (out_ b ++ lead b ++ join_lines (map (app (nested b)) lines)) [] [] true true (in_nested b)
  end.

(** A builder below its header, with no pairs pending. *)
Record settled (b : TextResponseBuilder) : Prop := {
  st_header : wrote_header_ b = true;
  st_kv : pending_kv_ b = [];
  st_section : wrote_content_ b = false -> in_section_ b = false;
}.

Lemma join_lines_app a b : join_lines (a ++ b) = join_lines a ++ join_lines b.
Proof. unfold join_lines. by rewrite map_app, concat_app. Qed.

Lemma nested_eq b : nested b = indent (in_nested b).
Proof. done. Qed.

Lemma add_settled lines b : settled b -> settled (add_lines lines b).
Proof. intros Hb. by destruct lines. Qed.

Lemma add_lines_app l1 l2 b : settled b -> add_lines (l1 ++ l2) b = add_lines l2 (add_lines l1 b).
Proof.
  intros Hb. destruct l1 as [|x l1]; [done|]. destruct l2 as [|y l2]; [by rewrite app_nil_r|].
  set (b1 := add_lines (x :: l1) b). assert (in_nested b1 = in_nested b) as Hi by (subst b1; unfold in_nested; cbn; by rewrite eqs_refl, orb_false_r).
  assert (lead b1 = []) as Hl by done. cbn [app add_lines]. rewrite Hl, (nested_eq b1), Hi, <- nested_eq. subst b1. cbn [add_lines tool_ out_].
  change (x :: l1 ++ y :: l2) with ((x :: l1) ++ y :: l2). by rewrite map_app, join_lines_app, <- !app_assoc.
Qed.

Lemma put_line_add b line : settled b -> put_line b line = add_lines [line] b.
Proof.
  intros [H1 H2 H3]. unfold put_line, ensure_section, add_lines, lead. cbn [map]. unfold join_lines. cbn [map List.concat].
  rewrite nested_eq, app_nil_r. unfold in_nested. destruct b as [tool out pending kv header content sec]; cbn in *. subst.
  destruct pending as [|c s].
  - cbn. rewrite eqs_refl, orb_false_r. unfold write_line. cbn. destruct content; [done|].
    rewrite H3 by done. unfold append. cbn. rewrite eqs_refl. cbn. by rewrite <- app_assoc.
  - rewrite (proj2 (eqs_false (c :: s) [])) by done. cbn [negb]. rewrite orb_true_r. unfold write_line.
    destruct content; cbn; unfold append; cbn; by rewrite <- ?app_assoc, <- ?app_comm_cons, <- ?app_assoc.
Qed.

Lemma put_lines_add lines : forall b, settled b -> foldl put_line b lines = add_lines lines b.
Proof.
  induction lines as [|l lines IH]; intros b Hb; cbn [foldl]; [done|].
  rewrite put_line_add, IH by (try apply add_settled; done). by rewrite <- (add_lines_app [l] lines b Hb).
Qed.

(** The builder with the pairs [run] pending. *)
Definition pend (run : list (bytes * bytes)) (b : TextResponseBuilder) : TextResponseBuilder :=
  match run with
  | [] => b
  | _ => set_kv (map (fun kv => MkKv (nested b) (fst kv) (snd kv)) run) (ensure_section b)
  end.

Lemma ensure_section_spec b : pending_section_ (ensure_section b) = [] /\ nested (ensure_section b) = nested b /\
  pending_kv_ (ensure_section b) = pending_kv_ b.
Proof.
  unfold ensure_section, nested. destruct (eqs (pending_section_ b) []) eqn:E.
  - apply eqs_true in E. by rewrite E, eqs_refl.
  - cbn [negb]. rewrite orb_true_r. by destruct (wrote_content_ b).
Qed.
Lemma ensure_done b : pending_section_ b = [] -> ensure_section b = b.
Proof. unfold ensure_section. intros ->. by rewrite eqs_refl. Qed.

Lemma put_pair run key text b : settled b -> put_item (pend run b) (IPair key text) = pend (run ++ [(key, text)]) b.
Proof.
  intros Hb. destruct (ensure_section_spec b) as (Hp & Hn & Hk). destruct run as [|kv run]; cbn [pend put_item app].
  - by rewrite Hk, (st_kv _ Hb).
  - rewrite ensure_done by done. assert (forall kvs, nested (set_kv kvs (ensure_section b)) = nested b) as -> by (intros; exact Hn).
    cbn [set_kv pending_kv_ map]. by rewrite map_app.
Qed.

Lemma max_key_width_eq indent run : max_key_width (map (fun kv => MkKv indent (fst kv) (snd kv)) run) = max_list (map (fun kv => length (fst kv)) run).
Proof.
  unfold max_key_width. assert (forall n, foldl (fun w kv => Nat.max w (length (kv_key kv))) n (map (fun kv => MkKv indent (fst kv) (snd kv)) run) =
    Nat.max n (max_list (map (fun kv => length (fst kv)) run))) as H; [|by rewrite H].
  induction run as [|kv run IH]; intros n; cbn [map foldl max_list foldr]; [cbn; lia|]. rewrite IH. cbn. lia.
Qed.

(** The lines of a block, as lines of the builder without the block. *)
Lemma block_lines width run : forall b, pending_section_ b = [] -> settled (set_kv [] b) ->
  set_kv [] (foldl (fun b kv => write_line (kv_line width kv) b) b (map (fun kv => MkKv (nested b) (fst kv) (snd kv)) run)) =
  foldl put_line (set_kv [] b) (map (fun kv => fst kv ++ replicate (width - length (fst kv)) " "%char ++ lit ": " ++ snd kv) run).
Proof.
  induction run as [|kv run IH]; intros b Hp Hs; cbn [map foldl]; [done|].
  set (line := fst kv ++ _). assert (kv_line width (MkKv (nested b) (fst kv) (snd kv)) = nested b ++ line) as -> by done.
  set (b1 := write_line (nested b ++ line) b).
  assert (put_line (set_kv [] b) line = set_kv [] b1) as E.
  { unfold put_line. rewrite ensure_done by done. unfold b1, write_line, nested, append. cbn.
    destruct (negb (wrote_content_ b) && eqs (pending_section_ b) []); [|done]. by destruct (wrote_header_ b). }
  assert (settled (set_kv [] b1)) as Hs1 by (rewrite <- E, put_line_add by done; by apply add_settled).
  rewrite E. assert (pending_section_ b1 = []) as Hp1.
  { change (pending_section_ (set_kv [] b1) = []). by rewrite <- E, put_line_add by done. }
  assert (nested b1 = nested b) as Hn.
  { change (nested (set_kv [] b1) = nested (set_kv [] b)). rewrite <- E, put_line_add by done. rewrite !nested_eq. f_equal.
    unfold in_nested. cbn. unfold in_nested. cbn. by rewrite Hp, !eqs_refl, !orb_false_r. }
  rewrite <- (IH b1 Hp1 Hs1), Hn. done.
Qed.

Lemma add_ensured l lines b : settled b -> add_lines (l :: lines) (set_kv [] (ensure_section b)) = add_lines (l :: lines) b.
Proof.
  intros Hb. destruct (ensure_section_spec b) as (Hp & Hn & Hk). unfold add_lines.
  assert (in_nested (set_kv [] (ensure_section b)) = in_nested b) as ->.
  { unfold in_nested, ensure_section. destruct (eqs (pending_section_ b) []) eqn:E; [by cbn; rewrite E|]. cbn. rewrite orb_true_r.
    by destruct (wrote_content_ b). }
  assert (nested (set_kv [] (ensure_section b)) = nested b) as -> by exact Hn. f_equal.
  - unfold ensure_section. destruct (eqs _ []); [done|]. by destruct (wrote_content_ b).
  - rewrite !app_assoc. f_equal. unfold lead, ensure_section. destruct b as [tool out [|c s] kv header content sec]; cbn; [by destruct content|].
    destruct content; cbn; rewrite <- ?app_assoc; by rewrite ?app_nil_r.
Qed.

Lemma settled_ensure b : settled b -> settled (set_kv [] (ensure_section b)).
Proof. intros [H1 H2 H3]. unfold ensure_section. destruct (eqs _ []); [by split|]. destruct (wrote_content_ b); by split. Qed.

Lemma flush_pend run b : settled b -> flush_kv_block (pend run b) = add_lines (aligned run) b.
Proof.
  intros Hb. unfold flush_kv_block. destruct run as [|kv run]; [cbn [pend aligned map add_lines]; by rewrite (st_kv _ Hb)|].
  destruct (ensure_section_spec b) as (Hp & Hn & Hk). unfold pend. set (r := kv :: run). cbn [set_kv pending_kv_].
  set (kvs := map (fun kv => MkKv (nested b) (fst kv) (snd kv)) r). change kvs with (MkKv (nested b) (fst kv) (snd kv) :: map (fun kv => MkKv (nested b) (fst kv) (snd kv)) run) at 1.
  cbv iota. change (set_kv [] (foldl (fun b kv => write_line (kv_line (max_key_width kvs) kv) b) (set_kv kvs (ensure_section b)) kvs) = add_lines (aligned r) b).
  assert (kvs = map (fun kv => MkKv (nested (set_kv kvs (ensure_section b))) (fst kv) (snd kv)) r) as E.
  { unfold kvs at 1. by change (nested (set_kv kvs (ensure_section b))) with (nested (ensure_section b)); rewrite Hn. }
  pose proof (block_lines (max_key_width kvs) r (set_kv kvs (ensure_section b)) Hp (settled_ensure b Hb)) as Hl. rewrite <- E in Hl. rewrite Hl.
  unfold kvs at 2. rewrite max_key_width_eq. fold (aligned r). change (set_kv [] (set_kv kvs ?x)) with (set_kv [] x).
  rewrite put_lines_add by (by apply settled_ensure). by apply add_ensured.
Qed.

(** Items without headings add their lines. *)
Definition add_sections (b : TextResponseBuilder) (sections : list (bytes * list Item)) : TextResponseBuilder :=
  foldl (fun b s => add_lines (body_lines [] (snd s)) (set_pending (fst s) b)) b sections.

Lemma set_pending_settled name b : settled b -> settled (set_pending name b).
Proof. by intros []. Qed.

(** The items of the text, in any order, are its sections one after the other. *)
Lemma put_items_sections items : forall run b, settled b ->
  flush_kv_block (put_items (pend run b) items) =
  add_sections (add_lines (body_lines run (fst (split_sections items))) b) (snd (split_sections items)).
Proof.
  unfold put_items. induction items as [|[name|key text|lines] items IH]; intros run b Hb; cbn [foldl split_sections].
  - by apply flush_pend.
  - cbn [put_item]. rewrite flush_pend by done. pose proof (set_pending_settled name _ (add_settled (aligned run) b Hb)) as Hs.
    pose proof (IH [] _ Hs) as E. cbn [pend] in E. rewrite E. by destruct (split_sections items).
  - rewrite put_pair, IH by done. by destruct (split_sections items).
  - cbn [put_item]. rewrite flush_pend by done. pose proof (add_settled (aligned run) b Hb) as Hs. rewrite put_lines_add by done.
    pose proof (IH [] _ (add_settled lines _ Hs)) as E. cbn [pend] in E. rewrite E. destruct (split_sections items) as [body rest]. cbn [fst snd body_lines].
    by rewrite !add_lines_app by auto using add_settled.
Qed.

Lemma add_sections_text sections : Forall (fun s => fst s <> []) sections -> forall b,
  out_ (add_sections b sections) = out_ b ++ join_lines (section_layout (negb (wrote_content_ b)) sections).
Proof.
  unfold add_sections. induction 1 as [|[name body] sections Hn _ IH]; intros b; cbn [foldl section_layout fst snd].
  { by rewrite app_nil_r. }
  destruct (body_lines [] body) as [|l lines].
  - cbn [add_lines]. by rewrite IH.
  - rewrite IH. cbn [add_lines out_ wrote_content_ negb]. unfold lead, nested, in_nested. cbn [set_pending pending_section_ wrote_content_ in_section_ out_].
    destruct name as [|c name]; [done|]. rewrite (proj2 (eqs_false (c :: name) [])) by done. cbn [negb]. rewrite orb_true_r.
    unfold join_lines. destruct (wrote_content_ b); cbn; rewrite !map_app, !concat_app; do 3 (rewrite <- ?app_assoc; cbn); done.
Qed.

(** Section names are never empty. *)
Definition named (item : Item) : Prop := match item with ISection name => name <> [] | _ => True end.
Lemma split_named items : Forall named items -> Forall (fun s => fst s <> []) (snd (split_sections items)).
Proof.
  induction 1 as [|[name|key text|lines] items Hi _ IH]; cbn [split_sections]; [done|..]; destruct (split_sections items) as [body rest]; cbn in *; auto.
Qed.

Lemma layout_text tool action items : Forall named items ->
  out_ (flush_kv_block (put_items (emit_header action (new_builder tool)) items)) = join_lines (layout tool action items).
Proof.
  intros Hn. set (b := emit_header action (new_builder tool)). assert (settled b) as Hb by done.
  change b with (pend [] b) at 1. rewrite put_items_sections by done. unfold layout. pose proof (split_named items Hn) as Hs.
  destruct (split_sections items) as [top sections]. cbn [fst snd] in *. rewrite add_sections_text by done.
  assert (out_ b = header_line tool action ++ [newline]) as Ho.
  { unfold b, emit_header, header_line. cbn. by do 3 (rewrite <- ?app_assoc; cbn). }
  destruct (body_lines [] top) as [|l lines].
  - cbn [add_lines]. rewrite Ho. done.
  - cbn [add_lines out_ wrote_content_ negb]. rewrite Ho. assert (lead b = [newline]) as -> by done. assert (nested b = []) as -> by done.
    assert (map (app []) (l :: lines) = l :: lines) as -> by apply map_id.
    unfold join_lines. cbn [map List.concat app]. rewrite map_app, concat_app, <- !app_assoc. cbn. by rewrite <- !app_assoc.
Qed.

(** ** Reading the lines back *)

Lemma text_lines_line l s : one_line l -> text_lines (l ++ newline :: s) = l :: text_lines s.
Proof.
  induction l as [|c l IH]; cbn [app text_lines]; [by rewrite eqc_refl|]. intros [Hc Hl]%one_line_cons.
  rewrite (proj2 (eqc_false c newline)) by done. by rewrite IH.
Qed.
Lemma text_lines_join ls : Forall one_line ls -> text_lines (join_lines ls) = ls.
Proof.
  unfold join_lines. induction 1 as [|l ls Hl _ IH]; [done|]. cbn [map List.concat]. rewrite <- app_assoc. cbn [app].
  by rewrite text_lines_line, IH.
Qed.

Lemma drop_newlines_app n s : drop_newlines (replicate n newline ++ s) = drop_newlines s.
Proof. induction n as [|n IH]; [done|]. cbn [replicate app drop_newlines]. by rewrite eqc_refl. Qed.

Lemma trim_blank_spec ls : exists n, ls = trim_blank ls ++ replicate n [].
Proof.
  induction ls as [|l ls [n IH]]; [by exists 0%nat|]. cbn [trim_blank]. destruct (trim_blank ls) as [|t ts].
  - destruct (eqs l []) eqn:E; [apply eqs_true in E as ->; exists (S n); cbn; by f_equal|exists n; cbn; by f_equal].
  - exists n. cbn in *. by rewrite IH at 1.
Qed.
Lemma trim_blank_last ls : trim_blank ls = [] \/ exists init l, trim_blank ls = init ++ [l] /\ l <> [].
Proof.
  induction ls as [|l ls IH]; [by left|]. cbn [trim_blank]. destruct IH as [->|(init & x & -> & Hx)].
  - destruct (eqs l []) eqn:E; [by left|]. right. exists [], l. split; [done|by apply eqs_false].
  - right. exists (l :: init), x. split; [|done]. by destruct init.
Qed.

(** The text ends with one newline, whatever blank lines the builder wrote at
    its end. *)
Lemma text_lines_trimmed ls : Forall one_line ls -> trim_blank ls <> [] ->
  text_lines (rev (drop_newlines (rev (join_lines ls))) ++ [newline]) = trim_blank ls.
Proof.
  intros Ho Hne. destruct (trim_blank_spec ls) as [n E]. destruct (trim_blank_last ls) as [H|(init & l & Et & Hl)]; [done|].
  rewrite Et in *. rewrite E in Ho |- *. apply list.Forall_app in Ho as [Ho _].
  rewrite join_lines_app. assert (join_lines (replicate n []) = replicate n newline) as ->.
  { clear. unfold join_lines. induction n as [|n IH]; [done|]. cbn. by f_equal. }
  rewrite rev_app_distr. assert (rev (replicate n newline) = replicate n newline) as -> by (rewrite rev_alt; apply reverse_replicate).
  rewrite drop_newlines_app, join_lines_app.
  assert (join_lines [l] = l ++ [newline]) as -> by (unfold join_lines; cbn; by rewrite app_nil_r).
  rewrite app_assoc, rev_app_distr. cbn [rev app drop_newlines]. rewrite eqc_refl.
  assert (drop_newlines (rev (join_lines init ++ l)) = rev (join_lines init ++ l)) as ->.
  { apply list.Forall_app in Ho as [_ Ho]. apply (proj1 (list.Forall_singleton _ _)) in Ho. destruct l as [|c l _] using rev_ind; [done|].
    rewrite app_assoc, rev_app_distr. cbn [rev app drop_newlines]. apply one_line_app in Ho as [_ [Hc _]%one_line_cons].
    by rewrite (proj2 (eqc_false c newline)). }
  rewrite rev_involutive, <- app_assoc. rewrite <- (text_lines_join (init ++ [l])) by done. rewrite join_lines_app.
  unfold join_lines at 3. cbn. by rewrite app_nil_r.
Qed.

Definition item_ok (item : Item) : Prop :=
  match item with
  | ISection name => one_line name /\ name <> []
  | IPair key text => one_line key /\ one_line text
  | ILines lines => Forall one_line lines
  end.
Definition pair_ok (kv : bytes * bytes) : Prop := one_line (fst kv) /\ one_line (snd kv).

Lemma aligned_lines run : Forall pair_ok run -> Forall one_line (aligned run).
Proof.
  unfold aligned. generalize (max_list (map (fun kv => length (fst kv)) run)). intros w. induction 1 as [|kv run [Hk Ht] _ IH]; cbn; [done|].
  constructor; [|done]. one_line. by apply one_line_repeat.
Qed.
Lemma body_lines_ok items : Forall item_ok items -> forall run, Forall pair_ok run -> Forall one_line (body_lines run items).
Proof.
  induction 1 as [|[name|key text|lines] items Hi _ IH]; intros run Hr; cbn [body_lines]; auto using aligned_lines.
  - apply IH. apply list.Forall_app. split; [done|by constructor].
  - rewrite !list.Forall_app. auto using aligned_lines.
Qed.
Lemma split_ok items : Forall item_ok items ->
  Forall item_ok (fst (split_sections items)) /\
  Forall (fun s => one_line (fst s) /\ Forall item_ok (snd s)) (snd (split_sections items)).
Proof.
  induction 1 as [|item items Hi _ [IH1 IH2]]; cbn [split_sections]; [done|]. destruct (split_sections items) as [body rest]. cbn in *.
  destruct item as [name|key text|lines]; cbn; split; auto. constructor; [|done]. by destruct Hi.
Qed.
Lemma section_layout_ok sections : Forall (fun s => one_line (fst s) /\ Forall item_ok (snd s)) sections ->
  forall below, Forall one_line (section_layout below sections).
Proof.
  induction 1 as [|[name body] sections [Hn Hb] _ IH]; intros below; cbn [section_layout]; [done|].
  pose proof (body_lines_ok body Hb [] (list.Forall_nil_2 _)) as Hl. destruct (body_lines [] body) as [|l lines]; [done|].
  apply list.Forall_app. split; [destruct below; auto|]. constructor; [cbn in Hn; one_line|]. apply list.Forall_app. split; [|done].
  apply Forall_fmap. eapply list.Forall_impl; [exact Hl|]. intros x Hx. unfold compose. one_line.
Qed.
Lemma layout_ok tool action items : one_line tool -> one_line action -> Forall item_ok items -> Forall one_line (layout tool action items).
Proof.
  intros Ht Ha [H1 H2]%split_ok. unfold layout. destruct (split_sections items) as [top sections]. cbn [fst snd] in *.
  constructor; [unfold header_line; one_line|]. pose proof (body_lines_ok top H1 [] (list.Forall_nil_2 _)) as Hl.
  destruct (body_lines [] top) as [|l lines]; [by apply section_layout_ok|]. constructor; [auto|]. apply list.Forall_app.
  split; [done|by apply section_layout_ok].
Qed.

(** A text response as its lines. *)
Lemma layout_exact tool action items : one_line tool -> one_line action -> Forall item_ok items ->
  text_lines (str (put_items (emit_header action (new_builder tool)) items)) = trim_blank (layout tool action items).
Proof.
  intros Ht Ha Hi. unfold str. rewrite layout_text.
  - apply text_lines_trimmed; [by apply layout_ok|]. unfold layout. destruct (split_sections items) as [top sections].
    cbn [trim_blank]. destruct (trim_blank _); [|done]. unfold header_line. by rewrite (proj2 (eqs_false _ [])).
  - eapply list.Forall_impl; [exact Hi|]. intros [name|key text|lines]; [by intros []|done..].
Qed.

(** ** The items of an operation *)

Definition section_items (name : bytes) : list Item := [ISection (sanitize_xout_key name)].
Definition text_items (key value : bytes) : list Item :=
  match value with [] => [] | _ => [IPair (sanitize_xout_key key) (sanitize_xout_value value)] end.

(** The cells that are not empty, one space between them. *)
Fixpoint spaced (cells : list bytes) : bytes :=
  match cells with
  | [] => []
  | [c] => c
  | c :: rest => c ++ " "%char :: spaced rest
  end.
Definition cell_text (c : bytes) : bytes := collapse_row_column (sanitize_xout_value c).
Definition row_line (columns : list bytes) : bytes := spaced (List.filter (fun c => negb (eqs c [])) (map cell_text columns)).
Definition row_items (columns : list bytes) : list Item :=
  [ILines (match row_line columns with [] => [] | line => [line] end)].

(** The lines of a table: its columns as wide as their widest cells, two
    spaces between them. *)
Definition column_width (rows : list (list bytes)) (j : nat) : nat :=
  max_list (map (fun row => length (default [] (row !! j))) rows).
Definition table_lines (columns : list bytes) (rows : list (list bytes)) : list bytes :=
  match columns with
  | [] => []
  | _ =>
      let n := length columns in
      let all := map (fun c => collapse_row_column (sanitize_xout_key c)) columns ::
                 map (fun row => map (fun j => default [] (cell_text <$> row !! j)) (List.seq 0 n)) rows in
      map (fun row => trim_right (table_cells (map (column_width all) (List.seq 0 n)) row)) all
  end.
Definition table_items (columns : list bytes) (rows : list (list bytes)) : list Item := [ILines (table_lines columns rows)].

Section Items.
Context (dump : json -> bytes).

Definition value_items (key : bytes) (v : json) : res (list Item) :=
  if is_empty_json v then Ret []
  else
    text ← json_to_xout_value dump v;
    Ret (match text with [] => [] | _ => [IPair (sanitize_xout_key key) text] end).
(** The members of [source] with these names, in that order. *)
Definition member_items (keys : list bytes) (source : json) : res (list Item) :=
  items ← map_res (fun k => match jget k source with Some v => value_items k v | None => Ret [] end) keys;
  Ret (List.concat items).
Definition value_rows (values : list json) : res (list Item) :=
  texts ← map_res (json_to_xout_value dump) values; Ret (List.concat (map (fun t => row_items [t]) texts)).
Definition list_items (name k : bytes) (error : json) : res (list Item) :=
  match jget k error with
  | Some (JArray l) => rows ← value_rows l; Ret (section_items name ++ rows)
  | _ => Ret []
  end.

(** The columns are the labels of the first rows that are shown. *)
Definition json_table_items (items : json) (max_rows : Z) : res (list Item) :=
  match items with
  | JArray (i :: l) =>
      let shown := take (Z.to_nat (Z.min max_rows (i32 (zlen (i :: l))))) (i :: l) in
      let columns := foldl collect_table_columns_from_item [] shown in
      rows ← map_res (fun item => map_res (table_cell_value dump item) columns) shown;
      Ret (table_items (map label columns) rows)
  | _ => Ret [ILines []]
  end.

Definition error_items (error : json) : res (list Item) :=
  if negb (is_object error) then Ret []
  else
    fields ← member_items error_fields error;
    example ← (match jget (lit "correct_example") error with
               | Some v => pair ← value_items (lit "json") v; Ret (section_items (lit "correct_example") ++ pair)
               | None => Ret []
               end);
    next ← list_items (lit "next_actions") (lit "next_actions") error;
    advisories ← list_items (lit "advisories") (lit "advisories") error;
    Ret (fields ++ example ++ next ++ advisories).

(** A second header is not written. *)
Definition op_items (op : BuilderOp) : res (list Item) :=
  match op with
  | OpHeader _ => Ret []
  | OpSection name => Ret (section_items name)
  | OpKv key value => value_items key value
  | OpKvText key value => Ret (text_items key value)
  | OpRow columns => Ret (row_items columns)
  | OpTable columns rows => Ret (table_items columns rows)
  | OpJsonTable items n => json_table_items items n
  | OpWarning err_code message => Ret (section_items (lit "warnings") ++ table_items [lit "code"; lit "message"] [[err_code; message]])
  | OpError error => error_items error
  end.
Definition ops_items (ops : list BuilderOp) : res (list Item) :=
  items ← map_res op_items ops; Ret (List.concat items).

Definition run_op (op : BuilderOp) (b : TextResponseBuilder) : res TextResponseBuilder :=
  match op with
  | OpHeader action => Ret (emit_header action b)
  | OpSection name => Ret (emit_section name b)
  | OpKv key value => emit_kv dump key value b
  | OpKvText key value => Ret (emit_kv_text key value b)
  | OpRow columns => Ret (emit_row columns b)
  | OpTable columns rows => Ret (emit_table columns rows b)
  | OpJsonTable items n => emit_json_table dump items n b
  | OpWarning err_code message => Ret (emit_warning err_code message b)
  | OpError error => emit_error dump error b
  end.
Fixpoint run_ops (ops : list BuilderOp) (b : TextResponseBuilder) : res TextResponseBuilder :=
  match ops with
  | [] => Ret b
  | op :: ops' => b ← run_op op b; run_ops ops' b
  end.

End Items.

(** ** Nothing asked for is lost *)

Definition shown (line : bytes) (b : TextResponseBuilder) : Prop :=
  exists before after, out_ b = before ++ line ++ newline :: after.
(** A key-value pair is waiting for its block to end, or written. *)
Definition kept (kv : PendingKv) (b : TextResponseBuilder) : Prop :=
  kv ∈ pending_kv_ b \/ exists width, shown (kv_line width kv) b.
Definition keeps (b b' : TextResponseBuilder) : Prop :=
  (forall line, shown line b -> shown line b') /\ (forall kv, kept kv b -> kept kv b').

#[export] Instance keeps_preorder : PreOrder keeps.
Proof.
  split; [done|]. intros b1 b2 b3 [H1 H2] [H3 H4]. split; auto.
Qed.

(** More text, and no fewer pending pairs. *)
Lemma keeps_grow b b' text : out_ b' = out_ b ++ text -> pending_kv_ b ⊆ pending_kv_ b' -> keeps b b'.
Proof.
  intros Ho Hp. assert (forall line, shown line b -> shown line b') as Hs.
  { intros line (x & y & E). exists x, (y ++ text). rewrite Ho, E. by rewrite <- !app_assoc, <- app_comm_cons. }
  split; [done|]. intros kv [Hk|[w Hk]]; [left; set_solver|right; eauto].
Qed.

Lemma write_line_out text b : exists before, out_ (write_line text b) = out_ b ++ before ++ text ++ [newline].
Proof.
  unfold write_line. destruct (negb (wrote_content_ b) && eqs (pending_section_ b) []); [|by exists []].
  destruct (wrote_header_ b); [|by exists []]. exists [newline]. cbn. by rewrite <- !app_assoc.
Qed.
Lemma write_line_pending text b : pending_kv_ (write_line text b) = pending_kv_ b.
Proof. unfold write_line. destruct (_ && _); [|done]. by destruct (wrote_header_ b). Qed.

Lemma write_line_keeps text b : keeps b (write_line text b) /\ shown text (write_line text b).
Proof.
  destruct (write_line_out text b) as [x E]. split.
  - eapply keeps_grow; [exact E|by rewrite write_line_pending].
  - exists (out_ b ++ x), []. by rewrite E, <- !app_assoc.
Qed.

Lemma ensure_keeps b : keeps b (ensure_section b).
Proof.
  unfold ensure_section. destruct (eqs (pending_section_ b) []); [done|].
  destruct (wrote_content_ b); eapply keeps_grow; cbn; rewrite <- ?app_assoc; done.
Qed.

Lemma write_lines_keep kvs width : forall b, let b' := foldl (fun b kv => write_line (kv_line width kv) b) b kvs in
  keeps b b' /\ Forall (fun kv => shown (kv_line width kv) b') kvs.
Proof.
  induction kvs as [|kv kvs IH]; intros b; cbn [foldl]; [done|]. destruct (write_line_keeps (kv_line width kv) b) as [H1 H2].
  destruct (IH (write_line (kv_line width kv) b)) as [H3 H4]. split; [by etransitivity|]. constructor; [by apply H3|done].
Qed.

Lemma flush_keeps b : keeps b (flush_kv_block b) /\ pending_kv_ (flush_kv_block b) = [].
Proof.
  unfold flush_kv_block. destruct (pending_kv_ b) as [|kv kvs] eqn:E; [done|]. split; [|done].
  destruct (write_lines_keep (kv :: kvs) (max_key_width (kv :: kvs)) b) as [[H1 _] H2].
  set (b' := foldl _ b (kv :: kvs)) in *. clearbody b'. rewrite list.Forall_forall in H2.
  split; [exact H1|]. intros kv' [Hk|[w Hk]]; right; [|exists w; by apply H1].
  exists (max_key_width (kv :: kvs)). apply H2. by rewrite E in Hk.
Qed.

Lemma push_keeps key text b : keeps b (push_kv key text b) /\
  kept (MkKv (nested b) (sanitize_xout_key key) text) (push_kv key text b).
Proof.
  unfold push_kv. split.
  - etransitivity; [apply ensure_keeps|]. eapply (keeps_grow _ _ []); cbn; [by rewrite app_nil_r|]. set_solver.
  - left. cbn. set_solver.
Qed.

Lemma content_keeps text b : keeps b (write_line (nested b ++ text) (ensure_section b)) /\
  shown (nested b ++ text) (write_line (nested b ++ text) (ensure_section b)).
Proof.
  destruct (write_line_keeps (nested b ++ text) (ensure_section b)) as [H1 H2].
  split; [|done]. etransitivity; [apply ensure_keeps|done].
Qed.

Lemma nested_indent b : exists i, nested b = indent i.
Proof. unfold nested. eexists. reflexivity. Qed.

Lemma header_keeps action b : keeps b (emit_header action b).
Proof. unfold emit_header. destruct (wrote_header_ b); [done|]. by eapply keeps_grow. Qed.

Lemma section_keeps name b : keeps b (emit_section name b).
Proof.
  unfold emit_section. etransitivity; [apply flush_keeps|]. eapply (keeps_grow _ _ []); cbn; [by rewrite app_nil_r|done].
Qed.

Lemma kv_text_keeps key v b : keeps b (emit_kv_text key v b).
Proof. unfold emit_kv_text. destruct v; [done|]. apply push_keeps. Qed.

Lemma kv_keeps dump key v b b' : emit_kv dump key v b = Ret b' -> keeps b b'.
Proof.
  unfold emit_kv. destruct (is_empty_json v); [by intros <-%Ret_inj|].
  destruct (json_to_xout_value dump v) as [text| |e]; [|done..]. intros <-%Ret_inj. destruct text; [done|]. apply push_keeps.
Qed.

Lemma row_keeps columns b : keeps b (emit_row columns b).
Proof.
  unfold emit_row. destruct (flush_keeps b) as [H1 _]. destruct (row_text [] columns) as [|c row]; [done|].
  etransitivity; [exact H1|]. apply content_keeps.
Qed.

Lemma cells_keep widths cells b : keeps b (emit_cells widths b cells) /\
  exists i, shown (indent i ++ trim_right (table_cells widths cells)) (emit_cells widths b cells).
Proof.
  unfold emit_cells. destruct (content_keeps (trim_right (table_cells widths cells)) b) as [H1 H2].
  split; [done|]. destruct (nested_indent b) as [i E]. exists i. by rewrite <- E.
Qed.

Lemma rows_keep widths rows : forall b, let b' := foldl (emit_cells widths) b rows in keeps b b' /\
  Forall (fun row => exists i, shown (indent i ++ trim_right (table_cells widths row)) b') rows.
Proof.
  induction rows as [|row rows IH]; intros b; cbn [foldl]; [done|]. destruct (cells_keep widths row b) as [H1 [i H2]].
  destruct (IH (emit_cells widths b row)) as [H3 H4]. split; [by etransitivity|]. constructor; [exists i; by apply H3|done].
Qed.

Lemma table_keeps columns rows b : keeps b (emit_table columns rows b) /\
  (columns <> [] -> exists widths, Forall (fun row => exists i, shown (indent i ++ trim_right (table_cells widths row))
     (emit_table columns rows b)) (map (safe_row (length columns)) rows)).
Proof.
  unfold emit_table. destruct (flush_keeps b) as [H1 _]. destruct columns as [|c columns]; [done|].
  set (widths := foldl widen _ _). set (cols := map _ (c :: columns)). destruct (cells_keep widths cols (flush_kv_block b)) as [H2 _].
  destruct (rows_keep widths (map (safe_row (length (c :: columns))) rows) (emit_cells widths (flush_kv_block b) cols)) as [H3 H4].
  split; [|intros _; by exists widths]. etransitivity; [exact H1|]. by etransitivity.
Qed.

Section Complete.
Context (dump : json -> bytes).

Lemma json_table_keeps items n b b' : emit_json_table dump items n b = Ret b' -> keeps b b'.
Proof.
  unfold emit_json_table. destruct (flush_keeps b) as [H1 _]. destruct items as [| | | | | |[|i items]|]; try (by intros <-%Ret_inj).
  destruct (foldl collect_table_columns_from_item [] _); [by intros <-%Ret_inj|].
  destruct (map_res _ _) as [rows| |e]; [|done..]. cbn [mbind res_bind]. intros <-%Ret_inj.
  etransitivity; [exact H1|]. apply table_keeps.
Qed.

Lemma members_keep keys source : forall b b', emit_members dump keys source b = Ret b' -> keeps b b'.
Proof.
  induction keys as [|k keys IH]; intros b b'; cbn [emit_members]; [by intros <-%Ret_inj|].
  destruct (jget k source) as [v|]; [|apply IH]. destruct (emit_kv dump k v b) as [b1| |e] eqn:E; [|done..].
  cbn [mbind res_bind]. intros Hr. etransitivity; [by eapply kv_keeps|by apply IH].
Qed.

Lemma value_rows_keep values : forall b b', emit_value_rows dump values b = Ret b' -> keeps b b'.
Proof.
  induction values as [|v values IH]; intros b b'; cbn [emit_value_rows]; [by intros <-%Ret_inj|].
  destruct (json_to_xout_value dump v) as [text| |e]; [|done..]. cbn [mbind res_bind]. intros Hr.
  etransitivity; [apply row_keeps|by apply IH].
Qed.

Lemma list_section_keeps k error b b' : emit_list_section dump k error b = Ret b' -> keeps b b'.
Proof.
  unfold emit_list_section. destruct (jget k error) as [[]|]; try (by intros <-%Ret_inj). intros Hr.
  etransitivity; [apply section_keeps|by eapply value_rows_keep].
Qed.

Lemma error_keeps error b b' : emit_error dump error b = Ret b' -> keeps b b'.
Proof.
  unfold emit_error. destruct (negb _); [by intros <-%Ret_inj|].
  destruct (emit_members _ _ _ _) as [b1| |e] eqn:E1; [|done..]. cbn [mbind res_bind].
  destruct (match jget (lit "correct_example") error with Some _ => _ | None => _ end) as [b2| |e] eqn:E2; [|done..].
  cbn [mbind res_bind]. destruct (emit_list_section _ (lit "next_actions") error b2) as [b3| |e] eqn:E3; [|done..].
  cbn [mbind res_bind]. intros E4. etransitivity; [by eapply members_keep|].
  transitivity b2; [|etransitivity; by eapply list_section_keeps].
  destruct (jget _ error); [|by apply Ret_inj in E2 as <-]. etransitivity; [apply section_keeps|by eapply kv_keeps].
Qed.

Lemma op_keeps op b b' : run_op dump op b = Ret b' -> keeps b b'.
Proof.
  destruct op; cbn [run_op]; try intros <-%Ret_inj;
    eauto using header_keeps, section_keeps, kv_keeps, kv_text_keeps, row_keeps, json_table_keeps, error_keeps.
  - apply table_keeps.
  - etransitivity; [apply section_keeps|]. apply table_keeps.
Qed.

Lemma ops_keep ops : forall b b', run_ops dump ops b = Ret b' -> keeps b b'.
Proof.
  induction ops as [|op ops IH]; intros b b'; cbn [run_ops]; [by intros <-%Ret_inj|].
  destruct (run_op dump op b) as [b1| |e] eqn:E; [|done..]. cbn [mbind res_bind]. intros Hr.
  etransitivity; [by eapply op_keeps|by apply IH].
Qed.

(** The operation's own pair or lines are in the text. *)
Definition op_shown (op : BuilderOp) (b : TextResponseBuilder) : Prop :=
  match op with
  | OpKv key value => forall text, is_empty_json value = false -> json_to_xout_value dump value = Ret text -> text <> [] ->
      exists i width, shown (kv_line width (MkKv (indent i) (sanitize_xout_key key) text)) b
  | OpKvText key value => value <> [] ->
      exists i width, shown (kv_line width (MkKv (indent i) (sanitize_xout_key key) (sanitize_xout_value value))) b
  | OpRow columns => row_text [] columns <> [] -> exists i, shown (indent i ++ row_text [] columns) b
  | OpTable columns rows => columns <> [] -> exists widths, forall row, row ∈ rows ->
      exists i, shown (indent i ++ trim_right (table_cells widths (safe_row (length columns) row))) b
  | _ => True
  end.

(** The pair is written when its block ends. *)
Lemma pushed_shown key text b b' : keeps (push_kv key text b) b' ->
  exists i width, shown (kv_line width (MkKv (indent i) (sanitize_xout_key key) text)) (flush_kv_block b').
Proof.
  intros [_ Hk]. destruct (nested_indent b) as [i E]. exists i. rewrite <- E. destruct (push_keeps key text b) as [_ Hp].
  destruct (flush_keeps b') as [[_ Hf] Hn]. apply Hk, Hf in Hp as [Hp|[w Hp]]; [|by exists w]. rewrite Hn in Hp. by apply not_elem_of_nil in Hp.
Qed.

Lemma op_done op b b1 b' : run_op dump op b = Ret b1 -> keeps b1 b' -> op_shown op (flush_kv_block b').
Proof.
  intros Hr Hk. assert (keeps b1 (flush_kv_block b')) as [Hl _] by (etransitivity; [exact Hk|apply flush_keeps]).
  destruct op as [| |key v|key v|columns|columns rows| | |]; cbn [op_shown run_op] in *; try done.
  - intros text He Ht Hn. unfold emit_kv in Hr. rewrite He, Ht in Hr. cbn [mbind res_bind] in Hr.
    destruct text; [done|]. apply Ret_inj in Hr as <-. by eapply pushed_shown.
  - intros Hn. destruct v; [done|]. apply Ret_inj in Hr as <-. by eapply pushed_shown.
  - intros Hn. apply Ret_inj in Hr as <-. unfold emit_row in Hl. destruct (row_text [] columns) as [|c row]; [done|].
    destruct (nested_indent (flush_kv_block b)) as [i E]. exists i. rewrite <- E. apply Hl. apply content_keeps.
  - intros Hn. apply Ret_inj in Hr as <-. destruct (table_keeps columns rows b) as [_ Ht]. destruct (Ht Hn) as [widths Hw].
    exists widths. intros row Hin. rewrite list.Forall_forall in Hw. destruct (Hw (safe_row (length columns) row)) as [i Hi].
    { by apply (list_elem_of_fmap_2 (safe_row (length columns))). }
    exists i. by apply Hl.
Qed.

Lemma ops_done ops op : op ∈ ops -> forall b b', run_ops dump ops b = Ret b' -> op_shown op (flush_kv_block b').
Proof.
  induction 1 as [op ops|op op' ops _ IH]; intros b b'; cbn [run_ops];
    (destruct (run_op dump _ b) as [b1| |e] eqn:E; [|done..]); cbn [mbind res_bind]; intros Hr.
  - eapply op_done; [exact E|by eapply ops_keep].
  - by eapply IH.
Qed.
(** The text builder loses nothing it is asked to write: of any sequence
    of operations that returns, every key-value pair whose text is not empty,
    every row that is not empty and every row of every table is a line of the
    final text, however many operations follow and wherever the pending
    section and the pending block are written. *)
Theorem xout_complete ops op b b' : op ∈ ops -> run_ops dump ops b = Ret b' -> op_shown op (flush_kv_block b').
Proof. intros Hin. by apply ops_done. Qed.
End Complete.


(** ** Operations write their items *)

Definition says (f : TextResponseBuilder -> res TextResponseBuilder) (r : res (list Item)) : Prop :=
  (forall b, f b = (items ← r; Ret (put_items b items))) /\ (forall items, r = Ret items -> Forall item_ok items).

Lemma says_ret f items : (forall b, f b = Ret (put_items b items)) -> Forall item_ok items -> says f (Ret items).
Proof. intros Hf Hi. split; [done|]. by intros ? <-%Ret_inj. Qed.
Lemma put_items_app b i j : put_items b (i ++ j) = put_items (put_items b i) j.
Proof. apply foldl_app. Qed.

(** One step after the other. *)
Lemma says_seq f g rf rg : says f rf -> says g rg ->
  says (fun b => b1 ← f b; g b1) (i ← rf; j ← rg; Ret (i ++ j)).
Proof.
  intros [Hf Ff] [Hg Fg]. split.
  - intros b. rewrite Hf. destruct rf as [i| |e]; [|done..]. cbn [mbind res_bind]. rewrite Hg. destruct rg as [j| |e]; [|done..].
    cbn [mbind res_bind]. by rewrite put_items_app.
  - intros items. destruct rf as [i| |e]; [|done..]. destruct rg as [j| |e]; [|done..]. cbn [mbind res_bind].
    intros <-%Ret_inj. apply list.Forall_app. auto.
Qed.
Lemma says_eq f g r r' : (forall b, f b = g b) -> r = r' -> says g r' -> says f r.
Proof. intros Hf -> [H1 H2]. split; [|done]. intros b. by rewrite Hf. Qed.

Lemma section_says name : says (fun b => Ret (emit_section name b)) (Ret (section_items name)).
Proof.
  apply says_ret; [done|]. apply list.Forall_singleton. split; [apply sanitize_key_line|apply sanitize_key_chars].
Qed.

Lemma text_says key v : says (fun b => Ret (emit_kv_text key v b)) (Ret (text_items key v)).
Proof.
  apply says_ret; destruct v; try done. apply list.Forall_singleton. split; [apply sanitize_key_line|apply sanitize_value_spec].
Qed.

Lemma value_says dump key v : says (emit_kv dump key v) (value_items dump key v).
Proof.
  unfold value_items, emit_kv. destruct (is_empty_json v); [by apply says_ret|]. pose proof (value_line dump v) as Hv.
  destruct (json_to_xout_value dump v) as [text| |e]; [|by split..]. specialize (Hv text eq_refl). cbn [mbind res_bind].
  apply says_ret; destruct text; try done. apply list.Forall_singleton. split; [apply sanitize_key_line|done].
Qed.

Lemma row_text_spaced columns : forall row,
  row_text row columns = spaced ((match row with [] => [] | _ => [row] end) ++ List.filter (fun c => negb (eqs c [])) (map cell_text columns)).
Proof.
  induction columns as [|c columns IH]; intros row; cbn [row_text map List.filter]; [by destruct row|]. fold (cell_text c). rewrite IH.
  destruct (cell_text c) as [|a text]; [by rewrite eqs_refl|]. rewrite (proj2 (eqs_false (a :: text) [])) by done. cbn [negb].
  destruct row as [|x row]; [done|]. destruct (List.filter _ _); cbn; [done|]. by rewrite <- app_assoc.
Qed.
Lemma row_text_line_eq columns : row_text [] columns = row_line columns.
Proof. by rewrite row_text_spaced. Qed.

Lemma row_says columns : says (fun b => Ret (emit_row columns b)) (Ret (row_items columns)).
Proof.
  pose proof (row_text_line columns [] one_line_nil) as Hr. unfold row_items, emit_row. rewrite row_text_line_eq in Hr.
  apply says_ret; [intros b; rewrite row_text_line_eq; by destruct (row_line columns)|]. apply list.Forall_singleton. cbn.
  destruct (row_line columns); auto.
Qed.

(** The widths of the columns. *)
Lemma widen_spec rows : forall widths, Forall (fun r => length r = length widths) rows ->
  length (foldl widen widths rows) = length widths /\
  forall j w, widths !! j = Some w -> foldl widen widths rows !! j = Some (Nat.max w (column_width rows j)).
Proof.
  induction rows as [|r rows IH]; intros widths Hr; cbn [foldl]. { split; [done|]. intros j w ->. f_equal. cbn. lia. }
  apply list.Forall_cons in Hr as [Hr Hrs].
  assert (length (widen widths r) = length widths) as Hl by (unfold widen; rewrite length_zip_with; lia).
  destruct (IH (widen widths r)) as [H1 H2]; [by rewrite Hl|]. split; [congruence|]. intros j w Hj.
  destruct (lookup_lt_is_Some_2 r j) as [c Hc]; [rewrite Hr; by eapply lookup_lt_Some|].
  rewrite (H2 j (Nat.max w (length c))) by (unfold widen; by rewrite lookup_zip_with, Hj, Hc). f_equal. unfold column_width. cbn.
  rewrite Hc. cbn. lia.
Qed.
Lemma widths_eq head rows : Forall (fun r => length r = length head) rows ->
  foldl widen (map (@length ascii) head) rows = map (column_width (head :: rows)) (List.seq 0 (length head)).
Proof.
  intros Hr. destruct (widen_spec rows (map (@length ascii) head)) as [H1 H2]; [by rewrite length_map|].
  rewrite length_map in H1. apply list_eq_same_length with (length head); [by rewrite length_map, length_seq|done|].
  intros j x y Hj Hx Hy. destruct (lookup_lt_is_Some_2 head j Hj) as [c Hc].
  rewrite (H2 j (length c)) in Hx by (by rewrite list_lookup_fmap, Hc). injection Hx as <-.
  rewrite list_lookup_fmap, lookup_seq_lt in Hy by done. injection Hy as <-. unfold column_width. cbn. by rewrite Hc.
Qed.

Lemma cells_line widths cells : Forall one_line cells -> one_line (trim_right (table_cells widths cells)).
Proof. intros Hc. by apply trim_right_line, table_cells_line. Qed.

Lemma table_says columns rows : says (fun b => Ret (emit_table columns rows b)) (Ret (table_items columns rows)).
Proof.
  unfold table_items, table_lines, emit_table. destruct columns as [|c columns]; [by apply says_ret; [|repeat constructor]|].
  set (cols := c :: columns). set (head := map (fun c => collapse_row_column (sanitize_xout_key c)) cols).
  set (body := map (fun row => map (fun j => default [] (cell_text <$> row !! j)) (List.seq 0 (length cols))) rows).
  assert (map (safe_row (length cols)) rows = body) as ->.
  { apply map_ext. intros row. apply map_ext. intros j. by destruct (row !! j). }
  assert (foldl widen (map (@length ascii) head) body = map (column_width (head :: body)) (List.seq 0 (length cols))) as Hw.
  { rewrite widths_eq; [by unfold head; rewrite length_map|]. apply Forall_fmap, Forall_true. intros row. unfold compose.
    by rewrite length_map, length_seq; unfold head; rewrite length_map. }
  rewrite Hw. set (widths := map (column_width (head :: body)) _). apply says_ret.
  - intros b. change (put_items b ?l) with (put_items b l). unfold put_items. cbn [foldl put_item]. f_equal. cbn [map foldl].
    change (emit_cells widths (flush_kv_block b) head) with (put_line (flush_kv_block b) (trim_right (table_cells widths head))).
    generalize (put_line (flush_kv_block b) (trim_right (table_cells widths head))). clearbody widths body. clear.
    induction body as [|r body IH]; intros b; [done|]. cbn [foldl map]. by rewrite IH.
  - apply list.Forall_singleton. cbn [item_ok]. apply Forall_fmap. constructor.
    + apply cells_line. apply Forall_fmap, Forall_true. intros k. apply collapse_line.
    + apply Forall_fmap, Forall_true. intros row. unfold compose. apply cells_line. apply Forall_fmap, Forall_true. intros j.
      unfold compose. destruct (row !! j); [apply collapse_line|auto].
Qed.

(** A step for each element. *)
Lemma says_all {A} (f : A -> TextResponseBuilder -> res TextResponseBuilder) g (go : list A -> TextResponseBuilder -> res TextResponseBuilder) l :
  (forall b, go [] b = Ret b) -> (forall a l b, go (a :: l) b = (b1 ← f a b; go l b1)) ->
  (forall a, a ∈ l -> says (f a) (g a)) -> says (go l) (items ← map_res g l; Ret (List.concat items)).
Proof.
  intros H0 H1. induction l as [|a l IH]; intros Hf; [by apply says_ret|]. cbn [map_res].
  eapply says_eq; [apply H1| |apply says_seq; [apply Hf; left|apply IH; intros; apply Hf; by right]].
  destruct (g a) as [i| |e]; [|done..]. by destruct (map_res g l).
Qed.

Lemma members_says dump keys source : says (emit_members dump keys source) (member_items dump keys source).
Proof.
  apply (says_all (fun k b => match jget k source with Some v => emit_kv dump k v b | None => Ret b end) _ (fun keys b => emit_members dump keys source b)); [done..|].
  intros k _. destruct (jget k source); [apply value_says|by apply says_ret].
Qed.

Lemma value_rows_says dump values : says (emit_value_rows dump values) (value_rows dump values).
Proof.
  eapply says_eq; [done| |apply (says_all (fun v b => text ← json_to_xout_value dump v; Ret (emit_row [text] b))
    (fun v => text ← json_to_xout_value dump v; Ret (row_items [text])) (fun values b => emit_value_rows dump values b))].
  - unfold value_rows. induction values as [|v values IH]; [done|]. cbn [map_res].
    destruct (json_to_xout_value dump v) as [t| |e]; [|done..]. cbn [mbind res_bind] in *.
    destruct (map_res _ values) as [ts| |e], (map_res (fun v => _) values) as [rest| |e']; try done; cbn [mbind res_bind map List.concat] in *.
    apply Ret_inj in IH. by rewrite IH.
  - done.
  - intros v l b. cbn [emit_value_rows]. by destruct (json_to_xout_value dump v).
  - intros v _. destruct (json_to_xout_value dump v) as [t| |e]; [apply row_says|by split..].
Qed.

Lemma list_says dump name k error f : (forall b, f b = match jget k error with Some (JArray l) => emit_value_rows dump l (emit_section name b) | _ => Ret b end) ->
  says f (list_items dump name k error).
Proof.
  intros Hf. eapply says_eq; [exact Hf|done|]. unfold list_items. destruct (jget k error) as [[| | | | | |l|]|]; try (by apply says_ret).
  eapply says_eq; [| |apply says_seq; [apply (section_says name)|apply value_rows_says]]; [done|].
  cbn [mbind res_bind]. by destruct (value_rows dump l).
Qed.

Lemma json_table_says dump items n : says (emit_json_table dump items n) (json_table_items dump items n).
Proof.
  unfold json_table_items, emit_json_table.
  assert (says (fun b => Ret (flush_kv_block b)) (Ret [ILines []])) as Hflush by (apply says_ret; [done|repeat constructor]).
  destruct items as [| | | | | |[|i items]|]; try exact Hflush.
  cbv zeta. set (shown := take _ (i :: items)). destruct (foldl collect_table_columns_from_item [] shown) as [|c columns].
  { assert (forall l, map_res (fun item => map_res (table_cell_value dump item) []) l = Ret (map (fun _ => []) l)) as E
      by (induction l as [|x l IH]; [done|]; cbn in *; by rewrite IH). rewrite E. exact Hflush. }
  set (cs := c :: columns). destruct (map_res _ shown) as [rows| |e]; [|by split..]. cbn [mbind res_bind].
  eapply says_eq; [|done|apply table_says]. intros b. unfold emit_table.
  assert (flush_kv_block (flush_kv_block b) = flush_kv_block b) as ->; [|done].
  unfold flush_kv_block at 1. by rewrite (proj2 (flush_keeps b)).
Qed.

Lemma error_says dump error : says (emit_error dump error) (error_items dump error).
Proof.
  unfold error_items, emit_error. destruct (negb (is_object error)); [by apply says_ret|].
  eapply says_eq; [reflexivity| |apply says_seq; [apply members_says|apply says_seq; [|apply says_seq;
    [by apply (list_says dump (lit "next_actions"))|by apply (list_says dump (lit "advisories"))]]]].
  2: { instantiate (1 := match jget (lit "correct_example") error with
               | Some v => pair ← value_items dump (lit "json") v; Ret (section_items (lit "correct_example") ++ pair)
               | None => Ret []
               end). destruct (jget _ error) as [v|]; [|by apply says_ret].
       eapply says_eq; [| |apply says_seq; [apply (section_says (lit "correct_example"))|apply value_says]]; [done|].
       cbn [mbind res_bind]. by destruct (value_items dump (lit "json") v). }
  destruct (member_items _ _ _); [|done..]. cbn [mbind res_bind]. destruct (match jget (lit "correct_example") error with Some _ => _ | None => _ end); [|done..].
  cbn [mbind res_bind]. destruct (list_items _ _ (lit "next_actions") _); [|done..]. cbn [mbind res_bind]. by destruct (list_items _ _ _ _).
Qed.
Lemma warning_says err_code message : says (fun b => Ret (emit_warning err_code message b))
  (Ret (section_items (lit "warnings") ++ table_items [lit "code"; lit "message"] [[err_code; message]])).
Proof.
  eapply says_eq; [| |apply says_seq; [apply (section_says (lit "warnings"))|apply (table_says [lit "code"; lit "message"] [[err_code; message]])]]; done.
Qed.

(** The header stays written. *)
Lemma write_line_header text b : wrote_header_ (write_line text b) = wrote_header_ b.
Proof. unfold write_line. destruct (_ && _); [|done]. by destruct (wrote_header_ b) eqn:E. Qed.
Lemma ensure_header b : wrote_header_ (ensure_section b) = wrote_header_ b.
Proof. unfold ensure_section. destruct (eqs _ []); [done|]. by destruct (wrote_content_ b). Qed.
Lemma flush_header b : wrote_header_ (flush_kv_block b) = wrote_header_ b.
Proof.
  unfold flush_kv_block. generalize (max_key_width (pending_kv_ b)). intros w. destruct (pending_kv_ b) as [|kv kvs]; [done|]. cbn [wrote_header_].
  generalize (kv :: kvs). intros l. revert b. induction l as [|x l IH]; intros b; [done|]. cbn [foldl]. by rewrite IH, write_line_header.
Qed.
Lemma put_header items : forall b, wrote_header_ (put_items b items) = wrote_header_ b.
Proof.
  unfold put_items. induction items as [|item items IH]; intros b; [done|]. cbn [foldl]. rewrite IH. destruct item as [name|key text|lines]; cbn.
  - apply flush_header.
  - apply ensure_header.
  - rewrite <- (flush_header b). generalize (flush_kv_block b). induction lines as [|l lines IHl]; intros b1; [done|]. cbn [foldl].
    rewrite IHl. unfold put_line. by rewrite write_line_header, ensure_header.
Qed.

Section Exact.
Context (dump : json -> bytes).

Lemma op_says op : (forall action, op <> OpHeader action) -> says (run_op dump op) (op_items dump op).
Proof.
  intros Hh. destruct op; [by destruct (Hh action)|exact (section_says _)|exact (value_says dump _ _)|exact (text_says _ _)|exact (row_says _)|
    exact (table_says _ _)|exact (json_table_says dump _ _)|exact (warning_says _ _)|exact (error_says dump _)].
Qed.
Lemma run_op_items op b : wrote_header_ b = true -> run_op dump op b = (items ← op_items dump op; Ret (put_items b items)).
Proof.
  intros Hb. destruct op; try (by apply op_says). cbn [run_op op_items mbind res_bind]. unfold emit_header. by rewrite Hb.
Qed.
Lemma op_items_ok op items : op_items dump op = Ret items -> Forall item_ok items.
Proof. destruct op; [by intros <-%Ret_inj|by apply op_says..]. Qed.
Lemma run_ops_items ops : forall b, wrote_header_ b = true ->
  run_ops dump ops b = (items ← ops_items dump ops; Ret (put_items b items)).
Proof.
  unfold ops_items. induction ops as [|op ops IH]; intros b Hb; [done|]. cbn [run_ops map_res]. rewrite run_op_items by done.
  destruct (op_items dump op) as [i| |e]; [|done..]. cbn [mbind res_bind]. rewrite IH by (by rewrite put_header).
  destruct (map_res _ ops) as [rest| |e]; [|done..]. cbn [mbind res_bind List.concat]. by rewrite put_items_app.
Qed.
Lemma ops_items_ok ops : forall items, ops_items dump ops = Ret items -> Forall item_ok items.
Proof.
  unfold ops_items. induction ops as [|op ops IH]; intros items; cbn [map_res]; [by intros <-%Ret_inj|].
  pose proof (op_items_ok op) as Ho. destruct (op_items dump op) as [i| |e]; [|done..]. cbn [mbind res_bind].
  destruct (map_res _ ops) as [rest| |e]; [|done..]. intros <-%Ret_inj. cbn [List.concat]. apply list.Forall_app. auto.
Qed.

End Exact.

Definition sample_ops : list BuilderOp :=
  [OpHeader (lit "apb.stat"); OpKvText (lit "a b") ("x"%char :: newline :: lit "forged:");
   OpKvText (lit "count") (lit "2"); OpSection (lit "empty");
   OpSection (lit "rows"); OpTable [lit "n"; lit "value"] [[lit "1"; lit "a"]]; OpWarning (lit "W") (lit "m")].


(** An unsigned number past the signed range is printed as a negative one:
    [is_number_integer] is true of unsigned numbers, so their own branch is
    never reached. *)
Lemma unsigned_printed_negative dump n : 2 ^ 63 <= n < 2 ^ 64 ->
  json_to_xout_value dump (JUint n) = Ret (to_string (n - 2 ^ 64)) /\ n - 2 ^ 64 < 0.
Proof.
  intros Hn. split; [|lia]. unfold json_to_xout_value. cbn [json_null is_value_object is_field_map jget].
  do 2 f_equal. unfold i64. rewrite <- (Z.mod_unique (n + 2 ^ 63) (2 ^ 64) 1 (n - 2 ^ 63)); lia.
Qed.

Lemma xout_complete_witness : exists b, run_ops (fun _ => []) sample_ops (new_builder (lit "xdebug")) = Ret b /\
  exists i width, shown (kv_line width (MkKv (indent i) (sanitize_xout_key (lit "a b"))
    (sanitize_xout_value ("x"%char :: newline :: lit "forged:")))) (flush_kv_block b).
Proof.
  destruct (run_ops (fun _ => []) sample_ops (new_builder (lit "xdebug"))) as [b| |e] eqn:E; [|by vm_compute in E..].
  exists b. split; [done|].
  refine (xout_complete (fun _ => []) sample_ops (OpKvText (lit "a b") ("x"%char :: newline :: lit "forged:")) _ b _ E _); [|done].
  apply list_elem_of_In. right. by left.
Defined.
