(* ===== verification/XoutRender.v ===== *)
(** * XoutRender: rendering a response as text

    Models [src/protocol/xout_renderer.cpp] and the text renderers of
    [src/engine/actions/protocol/apb_actions.cpp] over the builder of Xout.v.
    A renderer is a step of the builder that may throw; [dump] is the JSON
    printer and [json_equal] the equality of JSON values. *)

From S2P Require Import Prelude CLib Json Engine InternalRequest SchemaValidator Xout.

Open Scope Z_scope.

(** ** Steps *)

Definition rend : Type := TextResponseBuilder -> res TextResponseBuilder.
Definition emit (f : TextResponseBuilder -> TextResponseBuilder) : rend := fun b => Ret (f b).
Definition skip : rend := emit id.
Definition seq (f g : rend) : rend := fun b => b1 ← f b; g b1.
Definition need {A} (r : res A) (k : A -> rend) : rend := fun b => a ← r; k a b.
Definition when (c : bool) (f : rend) : rend := if c then f else skip.
Definition iter {A} (f : A -> rend) : list A -> rend :=
  fix go l := match l with [] => skip | a :: l' => seq (f a) (go l') end.

Declare Scope rend_scope.
Delimit Scope rend_scope with rend.
Notation "f >>> g" := (seq f g) (at level 62, right associativity) : rend_scope.
Notation "x <~ r ; k" := (need r (fun x => k)) (at level 62, r at level 61, right associativity) : rend_scope.
Local Open Scope rend_scope.

Definition section (name : bytes) : rend := emit (emit_section name).
Definition text (k v : bytes) : rend := emit (emit_kv_text k v).
Definition row (columns : list bytes) : rend := emit (emit_row columns).
Definition table (columns : list bytes) (rows : list (list bytes)) : rend := emit (emit_table columns rows).

(** [j.value(key, std::string())] and [j.value(key, Json())]. *)
Definition str_of (k : bytes) (j : json) : res bytes := value_or as_string k [] j.
Definition json_of (k : bytes) (j : json) : res json := value_or Ret k JNull j.
Definition object_of (k : bytes) (j : json) : res json := value_or Ret k (JObject []) j.
Definition array_of (k : bytes) (j : json) : res json := value_or Ret k (JArray []) j.

Section Render.
Context (dump : json -> bytes) (json_equal : json -> json -> bool).
Local Notation cell := (json_to_xout_value dump).
Local Notation kv k v := (emit_kv dump k v).
Local Notation fields keys source := (emit_members dump keys source).

Definition has_scalar (object : json) (k : bytes) : bool :=
  match jget k object with Some v => is_xout_scalar_json v | None => false end.
Definition should_emit_scalar_key (k : bytes) (v : json) : bool :=
  match v with
  | JBool true => negb (eqs k (lit "known"))
  | _ => is_xout_scalar_json v
  end.
Definition is_flat_xout_object (v : json) : bool :=
  match v with JObject m => forallb (fun kv => is_xout_scalar_json (snd kv)) m | _ => false end.
Definition empty_array (v : json) : bool := match v with JArray [] => true | _ => false end.

(** ** Schemas *)

(** The strings of an array joined by bars. *)
Definition join_bars (items : list json) : bytes :=
  foldl (fun out item => match item with
                         | JString s => (match out with [] => [] | _ => out ++ lit "|" end) ++ s
                         | _ => out
                         end) [] items.
Definition schema_type_text (property : json) : bytes :=
  match jget (lit "type") property with
  | Some (JString s) => s
  | Some (JArray l) => match join_bars l with [] => lit "any" | out => out end
  | _ => lit "any"
  end.

(** [if (!notes.empty()) notes += " "; notes += more] *)
Definition add_note (notes more : bytes) : bytes := (match notes with [] => [] | _ => notes ++ lit " " end) ++ more.
Definition is_primitive (v : json) : bool := match v with JArray _ | JObject _ => false | _ => true end.
Definition schema_property_notes (property : json) : res bytes :=
  if negb (is_object property) then Ret []
  else
    notes ← str_of (lit "description") property;
    let notes := match jget (lit "enum") property with
                 | Some (JArray l) => match join_bars l with [] => notes | values => add_note notes (lit "values=" ++ values) end
                 | _ => notes
                 end in
    match jget (lit "default") property with
    | Some v => if is_primitive v then shown ← cell v; Ret (add_note notes (lit "default=" ++ shown)) else Ret notes
    | None => Ret notes
    end.

Definition property_row (required : list bytes) (field : bytes * json) : res (list bytes) :=
  notes ← schema_property_notes (snd field);
  Ret [fst field; schema_type_text (snd field); (if one_of (fst field) required then lit "yes" else lit "no"); notes].
Definition emit_schema_properties (name : bytes) (object_schema : json) : rend :=
  if negb (is_object object_schema) then skip
  else
    properties <~ object_of (lit "properties") object_schema;
    required <~ array_of (lit "required") object_schema;
    match properties with
    | JObject (m :: ms) =>
        rows <~ map_res (property_row (match required with JArray l => string_items (JArray l) | _ => [] end)) (m :: ms);
        section name >>> table [lit "name"; lit "type"; lit "required"; lit "description"] rows
    | _ => skip
    end.

Definition emit_string_items (name : bytes) (items : json) (pick : json -> option bytes) : rend :=
  match items with
  | JArray (i :: l) => section name >>> iter (fun item => match pick item with Some s => row [s] | None => skip end) (i :: l)
  | _ => skip
  end.
Definition schema_texts : list bytes := [lit "x-purpose"; lit "x-how_it_works"; lit "x-when_to_use"].
Definition string_of (v : json) : option bytes := match v with JString s => Some s | _ => None end.
Definition path_of (v : json) : option bytes := match jget (lit "path") v with Some (JString s) => Some s | _ => None end.

Definition render_schema_response (response : json) : rend :=
  emit (emit_header (lit "schema")) >>>
  summary <~ object_of (lit "summary") response;
  data <~ object_of (lit "data") response;
  schema <~ object_of (lit "schema") data;
  section (lit "summary") >>>
  fields [lit "action"; lit "kind"] summary >>>
  fields [lit "schema_path"] data >>>
  iter (fun k => match jget k schema with Some (JString s) => kv k (JString s) | _ => skip end) schema_texts >>>
  top <~ object_of (lit "properties") schema;
  (match jget (lit "args") top with
   | Some args => emit_schema_properties (lit "arguments") args
   | None => emit_schema_properties (lit "fields") schema
   end) >>>
  (match jget (lit "limits") top with
   | Some limits => emit_schema_properties (lit "limits") limits
   | None => skip
   end) >>>
  constraints <~ array_of (lit "constraints") data;
  emit_string_items (lit "constraints") constraints string_of >>>
  examples <~ array_of (lit "examples") data;
  emit_string_items (lit "examples") examples path_of.

(** ** The list of actions *)

Definition action_cells (action : json) : res (list (list bytes)) :=
  match action with
  | JObject _ => cells ← map_res (fun k => str_of k action) [lit "name"; lit "category"; lit "requires"; lit "description_zh"]; Ret [cells]
  | _ => Ret []
  end.
Definition render_actions_response (response : json) : rend :=
  emit (emit_header (lit "actions")) >>>
  summary <~ object_of (lit "summary") response;
  data <~ object_of (lit "data") response;
  section (lit "summary") >>>
  fields [lit "action_count"; lit "total_action_count"; lit "verbose"; lit "filtered"] summary >>>
  verbose <~ value_or as_bool (lit "verbose") false summary;
  actions <~ array_of (lit "actions") data;
  if verbose && is_array actions then
    rows <~ map_res action_cells (json_items actions);
    section (lit "actions") >>>
    table [lit "name"; lit "category"; lit "requires"; lit "description"] (List.concat rows)
  else
    modes <~ object_of (lit "modes") data;
    iter (fun category => match jget category modes with
                          | Some l => emit_string_items category l string_of
                          | None => skip
                          end)
      [lit "builtin"; lit "session"; lit "design"; lit "waveform"; lit "combined"].

(** ** The common blocks of a response *)

Definition scalar_text (object : json) (k : bytes) : res bytes :=
  if has_scalar object k then cell (jat k object) else Ret [].

Definition emit_summary_member (member : bytes * json) : rend :=
  let '(k, v) := member in
  if should_emit_scalar_key k v then kv k v
  else match v with
       | JObject m =>
           iter (fun f => when (should_emit_scalar_key (fst f) (snd f)) (kv (k ++ lit "." ++ fst f) (snd f))) m
       | JArray (i :: l) => when (forallb is_xout_scalar_json (i :: l)) (kv k v)
       | _ => skip
       end.
Definition emit_summary (response : json) : rend :=
  match jget (lit "summary") response with
  | Some (JObject m) => section (lit "summary") >>> iter emit_summary_member m
  | _ => skip
  end.

Definition warning_row (warning : json) : res (list (list bytes)) :=
  match warning with
  | JString s => Ret [[lit "warning"; s]]
  | JObject _ =>
      code ← scalar_text warning (lit "code");
      message ← scalar_text warning (lit "message");
      Ret [[match code with [] => lit "warning" | _ => code end; match message with [] => dump warning | _ => message end]]
  | _ => Ret []
  end.
Definition emit_warnings (response : json) : rend :=
  match jget (lit "warnings") response with
  | Some (JArray l) =>
      rows <~ map_res warning_row l;
      match List.concat rows with
      | [] => skip
      | rows => section (lit "warnings") >>> table [lit "code"; lit "message"] rows
      end
  | _ => skip
  end.

Definition emit_suggestion (item : json) : rend :=
  match item with
  | JString s => row [s]
  | JObject _ =>
      action <~ scalar_text item (lit "action");
      reason <~ scalar_text item (lit "reason");
      row [match action with [] => dump item | _ => action end; reason]
  | _ => skip
  end.
Definition emit_suggestions (response : json) : rend :=
  match jget (lit "suggested_next_actions") response with
  | Some (JArray l) => section (lit "next") >>> iter emit_suggestion l
  | _ => skip
  end.

Definition emit_common_block (item : json) : rend :=
  match item with
  | JObject _ =>
      message <~ scalar_text item (lit "message");
      file <~ scalar_text item (lit "file");
      card <~ scalar_text item (lit "card");
      when (negb (eqs message [])) (row [message]) >>> text (lit "file") file >>> text (lit "card") card
  | _ => skip
  end.
Definition emit_common_blocks (response : json) : rend :=
  data <~ object_of (lit "data") response;
  match jget (lit "common_blocks") data with
  | Some (JArray (i :: l)) => section (lit "common_blocks") >>> iter emit_common_block (i :: l)
  | _ => skip
  end.

(** ** Data *)

Definition direct_field (f : bytes * json) : bool := should_emit_scalar_key (fst f) (snd f) || empty_array (snd f).
Definition emit_direct (f : bytes * json) : rend :=
  if should_emit_scalar_key (fst f) (snd f) then kv (fst f) (snd f) else text (fst f) (lit "[empty]").
(** The direct fields of an object, in a section that is opened if there is one. *)
Definition emit_direct_fields (k : bytes) (m : list (bytes * json)) : rend :=
  match List.filter direct_field m with
  | [] => skip
  | direct => section k >>> iter emit_direct direct
  end.

(** What the table of an array of objects already shows of a member. *)
Definition in_table (f : bytes * json) : bool :=
  should_emit_scalar_key (fst f) (snd f) || is_xout_field_map_json (snd f) || is_flat_xout_object (snd f) || empty_array (snd f).
Definition item_key (k : bytes) (index : Z) (child : bytes) : bytes :=
  k ++ lit "[" ++ to_string index ++ lit "]." ++ child.

Definition emit_scalar_rows (k : bytes) (l : list json) : rend :=
  let n := Z.min 20 (i32 (zlen l)) in
  section k >>>
  iter (fun item => shown <~ cell item; row [shown]) (take (Z.to_nat n) l) >>>
  when (n <? i32 (zlen l)) (text (lit "(+ " ++ to_string (zlen l - n) ++ lit " more)") []).

(** The members of each item that the table does not show. *)
Definition nested_items (render : bytes -> json -> rend) (k : bytes) (count : Z) : Z -> list json -> rend :=
  fix items index l :=
    match l with
    | [] => skip
    | item :: l' =>
        if index <? count then
          (match item with
           | JObject m => iter (fun f => if in_table f then skip else render (item_key k index (fst f)) (snd f)) m
           | _ => skip
           end) >>> items (index + 1) l'
        else skip
    end.

Fixpoint render_data_value (k : bytes) (v : json) {struct v} : rend :=
  if should_emit_scalar_key k v then kv k v
  else match v with
  | JArray l =>
      match l with
      | [] => text k (lit "[empty]")
      | first :: _ =>
          if is_xout_scalar_json first then emit_scalar_rows k l
          else if is_object first then
            let count := i32 (zlen l) in
            section k >>> emit_json_table dump v count >>>
            nested_items render_data_value k count 0 l
          else skip
      end
  | JObject m =>
      emit_direct_fields k m >>>
      iter (fun f => if direct_field f then skip else render_data_value (k ++ lit "." ++ fst f) (snd f)) m
  | _ => skip
  end.

(** The member of [other] of that name has that value. *)
Definition repeated (other : json) (f : bytes * json) : bool :=
  match jget (fst f) other with Some v => json_equal v (snd f) | None => false end.
Definition project (summary v : json) : json :=
  match v, summary with
  | JObject m, JObject _ => JObject (List.filter (fun f => negb (repeated summary f)) m)
  | _, _ => v
  end.

Definition emit_data_member (summary : json) (f : bytes * json) : rend :=
  if eqs (fst f) (lit "common_blocks") || repeated summary f then skip
  else when (negb (json_empty (project summary (snd f)))) (render_data_value (fst f) (project summary (snd f))).
Definition render_generic (response : json) : rend :=
  emit_summary response >>>
  data <~ object_of (lit "data") response;
  summary <~ object_of (lit "summary") response;
  (match data with
   | JObject (m :: ms) => section (lit "data") >>> iter (emit_data_member summary) (m :: ms)
   | _ => skip
   end) >>>
  match jget (lit "findings") response with
  | Some (JArray (i :: l)) => render_data_value (lit "findings") (JArray (i :: l))
  | _ => skip
  end.

(** ** Sessions *)

Definition session_row (session : json) : res (list bytes) :=
  id ← str_of (lit "session_id") session;
  mode ← str_of (lit "mode") session;
  transport ← str_of (lit "transport") session;
  state ← str_of (lit "lifecycle_state") session;
  expired ← json_of (lit "expired") session;
  expired ← cell expired;
  recommended ← str_of (lit "recommended_action") session;
  Ret [id; mode; transport; state; expired; recommended].
Definition emit_session_rows (name : bytes) (sessions : json) : rend :=
  match sessions with
  | JArray (s :: l) =>
      rows <~ map_res session_row (s :: l);
      section name >>>
      table [lit "session_id"; lit "mode"; lit "transport"; lit "lifecycle_state"; lit "expired"; lit "recommended_action"] rows
  | _ => skip
  end.
Definition render_session_action (response : json) : rend :=
  emit_summary response >>>
  session <~ json_of (lit "session") response;
  when (is_object session) (section (lit "session") >>> fields [lit "session_id"; lit "mode"; lit "transport"] session) >>>
  data <~ object_of (lit "data") response;
  when (is_object data)
    (iter (fun k => sessions <~ array_of k data; emit_session_rows k sessions)
       [lit "sessions"; lit "kept_sessions"; lit "removed_sessions"] >>>
     (match jget (lit "removed_session") data with
      | Some (JObject m) => emit_session_rows (lit "removed_session") (JArray [JObject m])
      | _ => skip
      end) >>>
     match jget (lit "message") data with
     | Some message => section (lit "diagnostic") >>> kv (lit "message") message
     | None => skip
     end).

(** ** Responses *)

Definition failure_details (summary error data : json) : list (bytes * json) :=
  List.filter (fun f => negb (one_of (fst f) [lit "status"; lit "error_code"] || repeated error f || repeated data f)) (members summary).
Definition emit_failure_summary (response : json) : rend :=
  match jget (lit "summary") response with
  | Some (JObject (m :: ms)) =>
      error <~ object_of (lit "error") response;
      data <~ object_of (lit "data") response;
      match failure_details (JObject (m :: ms)) error data with
      | [] => skip
      | details => section (lit "failure_summary") >>> iter (fun f => render_data_value (fst f) (snd f)) details
      end
  | _ => skip
  end.
Definition emit_error_list (name k : bytes) (error : json) : rend :=
  match jget k error with
  | Some (JArray l) => section name >>> emit_value_rows dump l
  | _ => skip
  end.

Definition render_failure (response : json) : rend :=
  fields [lit "action"] response >>>
  (match jget (lit "error") response with Some error => emit_error dump error | None => skip end) >>>
  emit_failure_summary response >>>
  match jget (lit "error") response with
  | Some error =>
      emit_error_list (lit "candidates") (lit "candidates") error >>>
      emit_error_list (lit "next") (lit "suggested_actions") error
  | None => skip
  end.

Definition render_success (action : bytes) (response : json) : rend :=
  (if is_prefix (lit "session.") action then render_session_action response else render_generic response) >>>
  emit_warnings response >>> emit_suggestions response >>> emit_common_blocks response.

(** The text of a new builder that has run [f]. *)
Definition rendered (f : rend) : res bytes := b ← f (new_builder (lit "xdebug")); Ret (str b).
(** The text with exactly one newline at its end. *)
Definition one_newline (s : bytes) : bytes := rev (drop_newlines (rev s)) ++ [newline].

(** The text a handler rendered itself, or put into the response. *)
Definition ready_text (response : json) (handler_xout : bytes) : option bytes :=
  match handler_xout with
  | [] => match jget (lit "text") response with Some (JString s) => Some s | _ => None end
  | _ => Some handler_xout
  end.

Definition render_xout_response (response : json) (handler_xout : bytes) : res bytes :=
  ok ← value_or as_bool (lit "ok") false response;
  match ok with
  | false => rendered (emit (emit_header (lit "error")) >>> render_failure response)
  | true =>
      match ready_text response handler_xout with
      | Some s => Ret (one_newline s)
      | None =>
          action ← str_of (lit "action") response;
          if eqs action (lit "actions") then rendered (render_actions_response response)
          else if eqs action (lit "schema") then rendered (render_schema_response response)
          else
            name ← value_or as_string (lit "action") (lit "unknown") response;
            rendered (emit (emit_header name) >>> render_success name response)
      end
  end.

Definition render_xout_transport_payload (response : json) (handler_xout : bytes) : res bytes :=
  render_xout_response response handler_xout.

(** ** APB responses *)

Definition tabular_direct (f : bytes * json) : bool := is_xout_scalar_json (snd f) || empty_array (snd f).
Definition emit_tabular_direct (f : bytes * json) : rend :=
  if is_xout_scalar_json (snd f) then kv (fst f) (snd f) else text (fst f) (lit "[empty]").
Fixpoint render_tabular_value (k : bytes) (v : json) {struct v} : rend :=
  if is_xout_scalar_json v then kv k v
  else match v with
  | JArray l =>
      match l with
      | [] => text k (lit "[empty]")
      | first :: _ =>
          section k >>>
          (if is_object first then emit_json_table dump v (i32 (zlen l)) else emit_value_rows dump l)
      end
  | JObject m =>
      (match List.filter tabular_direct m with
       | [] => skip
       | direct => section k >>> iter emit_tabular_direct direct
       end) >>>
      iter (fun f => if tabular_direct f then skip else render_tabular_value (k ++ lit "." ++ fst f) (snd f)) m
  | _ => skip
  end.
Definition tabular (k : bytes) (source : json) : rend :=
  match jget k source with Some v => render_tabular_value k v | None => skip end.

(** A row of string members and one of displayed members. *)
Definition transaction_row (strings cells : list bytes) (transaction : json) : res (list bytes) :=
  a ← map_res (fun k => str_of k transaction) strings;
  b ← map_res (fun k => v ← json_of k transaction; cell v) cells;
  Ret (a ++ b).
Definition transaction_table (strings cells : list bytes) (transactions : list json) : rend :=
  rows <~ map_res (transaction_row strings cells) transactions;
  section (lit "transactions") >>> table (strings ++ cells) rows.

Definition render_apb_query_xout (response : json) : rend :=
  emit (emit_header (lit "apb.query")) >>>
  summary <~ object_of (lit "summary") response;
  when (negb (json_empty summary))
    (section (lit "summary") >>>
     fields [lit "name"; lit "direction"; lit "query_mode"; lit "found"; lit "scan_complete"; lit "analysis_complete";
             lit "response_truncated"; lit "total_count"; lit "returned_count"] summary >>>
     iter (fun k => tabular k summary) [lit "truncation_scopes"; lit "value_width_complete"; lit "width_diagnostics"]) >>>
  data <~ object_of (lit "data") response;
  tabular (lit "filter") data >>> tabular (lit "transaction") data >>>
  match jget (lit "transactions") data with
  | Some (JArray (t :: l)) =>
      transaction_table [lit "time"; lit "addr"; lit "data"] [lit "is_write"; lit "has_error"] (t :: l)
  | _ => skip
  end.

(** [address.at("values")] joined, with its brackets. *)
Definition address_values (values : json) : res bytes :=
  items ← (match values with
           | JArray l => map_res as_string l
           | JNull | JObject [] => Ret []
           | _ => Throw "type_error.304"
           end);
  Ret (lit "[" ++ match items with
                  | [] => []
                  | s :: rest => foldl (fun out s => out ++ lit ", " ++ s) s rest
                  end ++ lit "]").
Definition render_address (address : json) : rend :=
  mode <~ str_of (lit "mode") address;
  text (lit "address_mode") mode >>>
  if eqs mode (lit "exact") then
    values <~ at_key (lit "values") address;
    shown <~ address_values values;
    text (lit "address_values") shown
  else if eqs mode (lit "range") then
    begin <~ str_of (lit "begin") address;
    finish <~ str_of (lit "end") address;
    text (lit "address_begin") begin >>> text (lit "address_end") finish
  else if eqs mode (lit "mask") then
    value <~ str_of (lit "value") address;
    mask <~ str_of (lit "mask") address;
    text (lit "address_value") value >>> text (lit "address_mask") mask
  else skip.
Definition unresolved_note : bytes :=
  lit "因被引用的 address/ID 含 X/Z 或不可解析，导致无法判断是否匹配过滤条件的已完成事务数。".
Definition render_apb_statistics_xout (response : json) : rend :=
  emit (emit_header (lit "apb.statistics")) >>>
  summary <~ object_of (lit "summary") response;
  section (lit "summary") >>>
  fields [lit "name"; lit "scanned_transaction_count"; lit "matched_transaction_count"; lit "matched_read_count";
          lit "matched_write_count"; lit "unresolved_transaction_count"; lit "filter_applied"; lit "analysis_quality";
          lit "full_scan_count"; lit "scan_complete"; lit "analysis_complete"; lit "response_truncated";
          lit "total_count"; lit "returned_count"; lit "truncation_scopes"; lit "value_width_complete";
          lit "width_diagnostics"] summary >>>
  data <~ object_of (lit "data") response;
  filter <~ object_of (lit "filter") data;
  section (lit "filter") >>>
  direction <~ value_or as_string (lit "direction") (lit "all") filter;
  text (lit "direction") direction >>>
  (match jget (lit "address") filter with Some address => render_address address | None => skip end) >>>
  section (lit "notes") >>> text (lit "unresolved_transaction_count") unresolved_note.

Definition render_apb_window_xout (response : json) : rend :=
  emit (emit_header (lit "apb.transfer_window")) >>>
  summary <~ object_of (lit "summary") response;
  section (lit "summary") >>>
  fields [lit "name"; lit "begin"; lit "end"; lit "scan_complete"; lit "analysis_complete"; lit "response_truncated";
          lit "total_count"; lit "returned_count"; lit "value_width_complete"] summary >>>
  data <~ object_of (lit "data") response;
  transactions <~ array_of (lit "transactions") data;
  when (negb (json_empty transactions))
    (transaction_table [lit "time"; lit "type"; lit "addr"; lit "data"] [lit "has_error"] (json_items transactions)).

Definition render_apb_cursor_xout (response : json) : rend :=
  emit (emit_header (lit "apb.transaction.cursor")) >>>
  summary <~ object_of (lit "summary") response;
  section (lit "summary") >>>
  fields [lit "name"; lit "op"; lit "direction"; lit "found"; lit "index"; lit "index_base"; lit "at_begin"; lit "at_end";
          lit "scan_complete"; lit "analysis_complete"; lit "response_truncated"; lit "total_count"; lit "returned_count";
          lit "value_width_complete"] summary >>>
  data <~ object_of (lit "data") response;
  match jget (lit "transaction") data with
  | Some transaction =>
      section (lit "transaction") >>> fields [lit "time"; lit "addr"; lit "data"; lit "is_write"; lit "has_error"] transaction
  | None => skip
  end.
End Render.
