(* ===== verification/XoutRenderTheory.v ===== *)
(** * XoutRenderTheory: rendered responses are exact and complete

    The items of a response, as its format describes them, and the proof that
    every renderer writes exactly these: the steps compose, so the lines of a
    whole response follow from those of its steps. Every renderer only adds to
    what the builder has written, and an error response shows its code and
    message. *)

From S2P Require Import Prelude CLib Json Engine Diagnostics InternalRequest SchemaValidator Xout XoutTheory XoutRender.

Open Scope Z_scope.

(** ** Steps that only add *)

Definition good (f : rend) : Prop := forall b b', f b = Ret b' -> keeps b b'.

Create HintDb rend discriminated.

Lemma good_emit f : (forall b, keeps b (f b)) -> good (emit f).
Proof. intros Hf b b' <-%Ret_inj. apply Hf. Qed.
Lemma good_skip : good skip.
Proof. by apply good_emit. Qed.
Lemma good_seq f g : good f -> good g -> good (seq f g).
Proof.
  intros Hf Hg b b'. unfold seq. destruct (f b) as [b1| |e] eqn:E; [|done..]. cbn [mbind res_bind]. intros Hr.
  etransitivity; [by apply Hf|by apply Hg].
Qed.
Lemma good_need {A} (r : res A) k : (forall a, good (k a)) -> good (need r k).
Proof. intros Hk b b'. unfold need. destruct r as [a| |e]; [|done..]. apply Hk. Qed.
Lemma good_when c f : good f -> good (when c f).
Proof. intros Hf. destruct c; [done|apply good_skip]. Qed.
Lemma good_iter {A} (f : A -> rend) l : (forall a, a ∈ l -> good (f a)) -> good (iter f l).
Proof.
  induction l as [|a l IH]; intros Hf; [apply good_skip|]. apply good_seq; [apply Hf; left|].
  apply IH. intros x Hx. apply Hf. by right.
Qed.

(** The operations of the builder. *)
Lemma good_op dump op : good (run_op dump op).
Proof. intros b b' Hr. by eapply op_keeps. Qed.
Lemma good_header action : good (emit (emit_header action)).
Proof. apply (good_op (fun _ => []) (OpHeader action)). Qed.
Lemma good_section name : good (section name).
Proof. apply (good_op (fun _ => []) (OpSection name)). Qed.
Lemma good_text k v : good (text k v).
Proof. apply (good_op (fun _ => []) (OpKvText k v)). Qed.
Lemma good_row columns : good (row columns).
Proof. apply (good_op (fun _ => []) (OpRow columns)). Qed.
Lemma good_table columns rows : good (table columns rows).
Proof. apply (good_op (fun _ => []) (OpTable columns rows)). Qed.
Lemma good_kv dump k v : good (emit_kv dump k v).
Proof. apply (good_op dump (OpKv k v)). Qed.
Lemma good_json_table dump items n : good (emit_json_table dump items n).
Proof. apply (good_op dump (OpJsonTable items n)). Qed.
Lemma good_error dump e : good (emit_error dump e).
Proof. apply (good_op dump (OpError e)). Qed.
Lemma good_members dump keys source : good (emit_members dump keys source).
Proof. intros b b' Hr. by eapply members_keep. Qed.
Lemma good_value_rows dump values : good (emit_value_rows dump values).
Proof. intros b b' Hr. by eapply value_rows_keep. Qed.

#[export] Hint Resolve good_skip good_header good_section good_text good_row good_table good_kv good_json_table good_error
  good_members good_value_rows : rend.

(** Decompose a renderer into its steps. *)
Ltac good :=
  solve [repeat lazymatch goal with
    | |- forall _, _ => intro
    | |- good (seq _ _) => apply good_seq
    | |- good (need _ _) => apply good_need
    | |- good (when _ _) => apply good_when
    | |- good (iter _ _) => apply good_iter
    | |- good (match ?x with _ => _ end) => destruct x
    | |- good _ => solve [auto with rend nocore]
    end].

Section Render.
Context (dump : json -> bytes) (json_equal : json -> json -> bool).

Lemma good_direct k m : good (emit_direct_fields dump k m).
Proof. unfold emit_direct_fields, emit_direct. good. Qed.
Lemma good_scalar_rows k l : good (emit_scalar_rows dump k l).
Proof. unfold emit_scalar_rows. good. Qed.
#[local] Hint Resolve good_direct good_scalar_rows : rend.

(** Of a value and of the members of an object. *)
Definition good_all (v : json) : Prop := (forall k, good (render_data_value dump k v)) /\
  forall f, f ∈ members v -> forall k, good (render_data_value dump k (snd f)).

Lemma good_items k count l : Forall good_all l -> forall index, good (nested_items (render_data_value dump) k count index l).
Proof.
  induction 1 as [|item l [_ Hi] _ IHl]; intros index; cbn [nested_items]; [good|]. destruct (index <? count); [|good].
  apply good_seq; [|apply IHl]. good.
Qed.

Lemma good_data_all v : good_all v.
Proof.
  induction v as [| | | | | |l IH|m IH] using json_nested_ind; split; try (by intros f ?%elem_of_nil); try (intros k; solve [cbn [render_data_value]; good]).
  - intros k. cbn [render_data_value]. destruct (should_emit_scalar_key k (JArray l)); [good|].
    destruct l as [|first rest]; [good|].
    destruct (is_xout_scalar_json first); [good|]. destruct (is_object first); [|good].
    apply good_seq; [good|]. apply good_seq; [good|]. by apply good_items.
  - intros k. cbn [render_data_value]. destruct (should_emit_scalar_key k (JObject m)); [good|]. apply good_seq; [good|].
    apply good_iter. intros f Hf. destruct (direct_field f); [good|]. rewrite list.Forall_forall in IH. by apply IH.
  - intros f Hf k. cbn [members] in Hf. rewrite list.Forall_forall in IH. by apply IH.
Qed.
Lemma good_data k v : good (render_data_value dump k v).
Proof. apply good_data_all. Qed.
#[local] Hint Resolve good_data : rend.

Lemma good_failure_summary response : good (emit_failure_summary dump json_equal response).
Proof. unfold emit_failure_summary. good. Qed.
Lemma good_error_list name k error : good (emit_error_list dump name k error).
Proof. unfold emit_error_list. good. Qed.
#[local] Hint Resolve good_failure_summary good_error_list : rend.

End Render.

(** ** The items of a response *)

Declare Scope items_scope.
Delimit Scope items_scope with items.
(** Items, then more. *)
Definition also (r1 r2 : res (list Item)) : res (list Item) := i ← r1; j ← r2; Ret (i ++ j).
Notation "r1 +++ r2" := (also r1 r2) (at level 60, right associativity) : items_scope.
Definition each {A} (g : A -> res (list Item)) (l : list A) : res (list Item) := items ← map_res g l; Ret (List.concat items).
Definition none : res (list Item) := Ret [].
Definition head_of (name : bytes) : res (list Item) := Ret (section_items name).
Definition pair_of (k v : bytes) : res (list Item) := Ret (text_items k v).
Definition row_of (columns : list bytes) : res (list Item) := Ret (row_items columns).
Definition table_of (columns : list bytes) (rows : list (list bytes)) : res (list Item) := Ret (table_items columns rows).
Definition only (c : bool) (r : res (list Item)) : res (list Item) := if c then r else none.
Local Open Scope items_scope.

Section ResponseItems.
Context (dump : json -> bytes) (json_equal : json -> json -> bool).
Local Notation value := (value_items dump).
Local Notation cell := (json_to_xout_value dump).

(** A section with the scalar members of the summary; the scalar members of a
    member object have dotted names. *)
Definition summary_member_items (member : bytes * json) : res (list Item) :=
  let '(k, v) := member in
  if should_emit_scalar_key k v then value k v
  else match v with
       | JObject m => each (fun f => only (should_emit_scalar_key (fst f) (snd f)) (value (k ++ lit "." ++ fst f) (snd f))) m
       | JArray (i :: l) => only (forallb is_xout_scalar_json (i :: l)) (value k v)
       | _ => none
       end.
Definition summary_items (response : json) : res (list Item) :=
  match jget (lit "summary") response with
  | Some (JObject m) => head_of (lit "summary") +++ each summary_member_items m
  | _ => none
  end.

Definition warnings_items (response : json) : res (list Item) :=
  match jget (lit "warnings") response with
  | Some (JArray l) =>
      rows ← map_res (warning_row dump) l;
      match List.concat rows with
      | [] => none
      | rows => head_of (lit "warnings") +++ table_of [lit "code"; lit "message"] rows
      end
  | _ => none
  end.

Definition suggestion_items (item : json) : res (list Item) :=
  match item with
  | JString s => row_of [s]
  | JObject _ =>
      action ← scalar_text dump item (lit "action");
      reason ← scalar_text dump item (lit "reason");
      row_of [match action with [] => dump item | _ => action end; reason]
  | _ => none
  end.
Definition suggestions_items (response : json) : res (list Item) :=
  match jget (lit "suggested_next_actions") response with
  | Some (JArray l) => head_of (lit "next") +++ each suggestion_items l
  | _ => none
  end.

Definition common_block_items (item : json) : res (list Item) :=
  match item with
  | JObject _ =>
      message ← scalar_text dump item (lit "message");
      file ← scalar_text dump item (lit "file");
      card ← scalar_text dump item (lit "card");
      only (negb (eqs message [])) (row_of [message]) +++ pair_of (lit "file") file +++ pair_of (lit "card") card
  | _ => none
  end.
Definition common_blocks_items (response : json) : res (list Item) :=
  data ← object_of (lit "data") response;
  match jget (lit "common_blocks") data with
  | Some (JArray (i :: l)) => head_of (lit "common_blocks") +++ each common_block_items (i :: l)
  | _ => none
  end.

(** The members of a flattened object are shown with it, those of the objects
    of an array in its table; what is left has a section of its own under its
    dotted path. *)
Definition direct_items (k : bytes) (m : list (bytes * json)) : res (list Item) :=
  match List.filter direct_field m with
  | [] => none
  | direct => head_of k +++
      each (fun f => if should_emit_scalar_key (fst f) (snd f) then value (fst f) (snd f) else pair_of (fst f) (lit "[empty]")) direct
  end.
Definition scalar_rows_items (k : bytes) (l : list json) : res (list Item) :=
  head_of k +++ each (fun item => shown ← cell item; row_of [shown]) (take (Z.to_nat (Z.min 20 (i32 (zlen l)))) l).
Definition rest_items (item_of : bytes -> json -> res (list Item)) (k : bytes) (count : Z) : Z -> list json -> res (list Item) :=
  fix items index l :=
    match l with
    | [] => none
    | item :: l' =>
        if index <? count then
          (match item with
           | JObject m => each (fun f => if in_table f then none else item_of (item_key k index (fst f)) (snd f)) m
           | _ => none
           end) +++ items (index + 1) l'
        else none
    end.
Fixpoint data_items (k : bytes) (v : json) {struct v} : res (list Item) :=
  if should_emit_scalar_key k v then value k v
  else match v with
  | JArray l =>
      match l with
      | [] => pair_of k (lit "[empty]")
      | first :: _ =>
          if is_xout_scalar_json first then scalar_rows_items k l
          else if is_object first then
            let count := i32 (zlen l) in
            head_of k +++ json_table_items dump v count +++ rest_items data_items k count 0 l
          else none
      end
  | JObject m =>
      direct_items k m +++
      each (fun f => if direct_field f then none else data_items (k ++ lit "." ++ fst f) (snd f)) m
  | _ => none
  end.

(** What the summary shows is not shown again. *)
Definition data_member_items (summary : json) (f : bytes * json) : res (list Item) :=
  if eqs (fst f) (lit "common_blocks") || repeated json_equal summary f then none
  else only (negb (json_empty (project json_equal summary (snd f)))) (data_items (fst f) (project json_equal summary (snd f))).
Definition generic_items (response : json) : res (list Item) :=
  summary_items response +++
  (data ← object_of (lit "data") response;
   summary ← object_of (lit "summary") response;
   (match data with
    | JObject (m :: ms) => head_of (lit "data") +++ each (data_member_items summary) (m :: ms)
    | _ => none
    end) +++
   match jget (lit "findings") response with
   | Some (JArray (i :: l)) => data_items (lit "findings") (JArray (i :: l))
   | _ => none
   end).

Definition session_rows_items (name : bytes) (sessions : json) : res (list Item) :=
  match sessions with
  | JArray (s :: l) =>
      rows ← map_res (session_row dump) (s :: l);
      head_of name +++
      table_of [lit "session_id"; lit "mode"; lit "transport"; lit "lifecycle_state"; lit "expired"; lit "recommended_action"] rows
  | _ => none
  end.
Definition session_items (response : json) : res (list Item) :=
  summary_items response +++
  (session ← json_of (lit "session") response;
   only (is_object session) (head_of (lit "session") +++ member_items dump [lit "session_id"; lit "mode"; lit "transport"] session) +++
   (data ← object_of (lit "data") response;
    only (is_object data)
      (each (fun k => sessions ← array_of k data; session_rows_items k sessions)
         [lit "sessions"; lit "kept_sessions"; lit "removed_sessions"] +++
       (match jget (lit "removed_session") data with
        | Some (JObject m) => session_rows_items (lit "removed_session") (JArray [JObject m])
        | _ => none
        end) +++
       match jget (lit "message") data with
       | Some message => head_of (lit "diagnostic") +++ value (lit "message") message
       | None => none
       end))).

(** A failed response: the action and the fields of the error that are there,
    in the order of [error_fields], then the example, the lists and what the
    summary adds to them. *)
Definition failure_summary_items (response : json) : res (list Item) :=
  match jget (lit "summary") response with
  | Some (JObject (m :: ms)) =>
      error ← object_of (lit "error") response;
      data ← object_of (lit "data") response;
      match failure_details json_equal (JObject (m :: ms)) error data with
      | [] => none
      | details => head_of (lit "failure_summary") +++ each (fun f => data_items (fst f) (snd f)) details
      end
  | _ => none
  end.
Definition failure_items (response : json) : res (list Item) :=
  member_items dump [lit "action"] response +++
  (match jget (lit "error") response with Some error => error_items dump error | None => none end) +++
  failure_summary_items response +++
  match jget (lit "error") response with
  | Some error =>
      list_items dump (lit "candidates") (lit "candidates") error +++ list_items dump (lit "next") (lit "suggested_actions") error
  | None => none
  end.
Definition success_items (action : bytes) (response : json) : res (list Item) :=
  (if is_prefix (lit "session.") action then session_items response else generic_items response) +++
  warnings_items response +++ suggestions_items response +++ common_blocks_items response.

(** The reply of [schema]: the properties of the arguments and of the limits
    as tables. *)
Definition properties_items (name : bytes) (object_schema : json) : res (list Item) :=
  if negb (is_object object_schema) then none
  else
    properties ← object_of (lit "properties") object_schema;
    required ← array_of (lit "required") object_schema;
    match properties with
    | JObject (m :: ms) =>
        rows ← map_res (property_row dump (match required with JArray l => string_items (JArray l) | _ => [] end)) (m :: ms);
        head_of name +++ table_of [lit "name"; lit "type"; lit "required"; lit "description"] rows
    | _ => none
    end.
Definition strings_items (name : bytes) (items : json) (pick : json -> option bytes) : res (list Item) :=
  match items with
  | JArray (i :: l) => head_of name +++ each (fun item => match pick item with Some s => row_of [s] | None => none end) (i :: l)
  | _ => none
  end.
Definition schema_items (response : json) : res (list Item) :=
  summary ← object_of (lit "summary") response;
  data ← object_of (lit "data") response;
  schema ← object_of (lit "schema") data;
  head_of (lit "summary") +++ member_items dump [lit "action"; lit "kind"] summary +++ member_items dump [lit "schema_path"] data +++
  each (fun k => match jget k schema with Some (JString s) => value k (JString s) | _ => none end) schema_texts +++
  (top ← object_of (lit "properties") schema;
   (match jget (lit "args") top with
    | Some args => properties_items (lit "arguments") args
    | None => properties_items (lit "fields") schema
    end) +++
   (match jget (lit "limits") top with Some limits => properties_items (lit "limits") limits | None => none end) +++
   (constraints ← array_of (lit "constraints") data;
    strings_items (lit "constraints") constraints string_of +++
    (examples ← array_of (lit "examples") data;
     strings_items (lit "examples") examples path_of))).

(** The reply of [actions]: a table, or the names by category. *)
Definition actions_items (response : json) : res (list Item) :=
  summary ← object_of (lit "summary") response;
  data ← object_of (lit "data") response;
  head_of (lit "summary") +++
  member_items dump [lit "action_count"; lit "total_action_count"; lit "verbose"; lit "filtered"] summary +++
  (verbose ← value_or as_bool (lit "verbose") false summary;
   actions ← array_of (lit "actions") data;
   if verbose && is_array actions then
     rows ← map_res action_cells (json_items actions);
     head_of (lit "actions") +++ table_of [lit "name"; lit "category"; lit "requires"; lit "description"] (List.concat rows)
   else
     modes ← object_of (lit "modes") data;
     each (fun category => match jget category modes with Some l => strings_items category l string_of | None => none end)
       [lit "builtin"; lit "session"; lit "design"; lit "waveform"; lit "combined"]).

(** The lines of a text that a handler rendered, one at least. *)
Definition ready_lines (s : bytes) : list bytes := match trim_blank (text_lines s) with [] => [[]] | lines => lines end.

Definition tool : bytes := lit "xdebug".
(** The lines of a response. *)
Definition response_lines (response : json) (handler_xout : bytes) : res (list bytes) :=
  let lines (action : bytes) (r : res (list Item)) := items ← r; Ret (trim_blank (layout tool action items)) in
  ok ← value_or as_bool (lit "ok") false response;
  match ok with
  | false => lines (lit "error") (failure_items response)
  | true =>
      match ready_text response handler_xout with
      | Some s => Ret (ready_lines s)
      | None =>
          action ← value_or as_string (lit "action") [] response;
          if eqs action (lit "actions") then lines action (actions_items response)
          else if eqs action (lit "schema") then lines action (schema_items response)
          else
            name ← value_or as_string (lit "action") (lit "unknown") response;
            lines name (success_items name response)
      end
  end.

(** ** The renderers write these items *)

Lemma says_also f g rf rg : says f rf -> says g rg -> says (seq f g) (rf +++ rg).
Proof. apply says_seq. Qed.
Lemma says_need {A} (r : res A) (k : A -> rend) g : (forall a, says (k a) (g a)) -> says (need r k) (a ← r; g a).
Proof. intros Hk. unfold need. destruct r as [a| |e]; [apply Hk|by split..]. Qed.
Lemma says_skip : says skip none.
Proof. by apply says_ret. Qed.
Lemma says_only c f r : says f r -> says (when c f) (only c r).
Proof. destruct c; [done|]. intros _. apply says_skip. Qed.
Lemma says_each {A} (f : A -> rend) g l : (forall a, a ∈ l -> says (f a) (g a)) -> says (iter f l) (each g l).
Proof. by apply (says_all f g (iter f)). Qed.
Lemma section_head name : says (section name) (head_of name).
Proof. apply section_says. Qed.
Lemma text_pair k v : says (text k v) (pair_of k v).
Proof. apply text_says. Qed.
Lemma row_row columns : says (row columns) (row_of columns).
Proof. apply row_says. Qed.
Lemma table_table columns rows : says (table columns rows) (table_of columns rows).
Proof. apply table_says. Qed.
Lemma error_list_says name k error : says (emit_error_list dump name k error) (list_items dump name k error).
Proof. apply list_says. intros b. unfold emit_error_list. by destruct (jget k error) as [[]|]. Qed.

#[local] Hint Resolve says_skip section_head text_pair row_row table_table value_says members_says json_table_says error_says
  error_list_says : rend.

(** A renderer and its items, step by step. *)
Ltac says :=
  solve [repeat lazymatch goal with
    | |- forall _, _ => intro
    | |- says (seq _ _) (also _ _) => apply says_also
    | |- says (need _ _) _ => apply says_need
    | |- says (when _ _) _ => apply says_only
    | |- says (iter _ _) _ => apply says_each
    | |- says (match ?x with _ => _ end) _ => destruct x
    | |- says _ _ => solve [auto with rend nocore]
    end].
Lemma summary_says response : says (emit_summary dump response) (summary_items response).
Proof. unfold emit_summary, summary_items, emit_summary_member, summary_member_items. says. Qed.
Lemma warnings_says response : says (emit_warnings dump response) (warnings_items response).
Proof. unfold emit_warnings, warnings_items. says. Qed.
Lemma suggestions_says response : says (emit_suggestions dump response) (suggestions_items response).
Proof. unfold emit_suggestions, suggestions_items, emit_suggestion, suggestion_items. says. Qed.
Lemma common_blocks_says response : says (emit_common_blocks dump response) (common_blocks_items response).
Proof. unfold emit_common_blocks, common_blocks_items, emit_common_block, common_block_items. says. Qed.
Lemma direct_says k m : says (emit_direct_fields dump k m) (direct_items k m).
Proof. unfold emit_direct_fields, direct_items, emit_direct. says. Qed.
Lemma also_none r : (r +++ none) = r.
Proof. unfold also, none. destruct r; [|done..]. cbn. by rewrite app_nil_r. Qed.
Lemma scalar_rows_says k l : says (emit_scalar_rows dump k l) (scalar_rows_items k l).
Proof.
  unfold emit_scalar_rows, scalar_rows_items. apply says_also; [says|]. rewrite <- (also_none (each _ _)). apply says_also; [says|].
  unfold when. destruct (_ <? _); [|says]. apply (text_pair _ []).
Qed.
#[local] Hint Resolve summary_says warnings_says suggestions_says common_blocks_says direct_says scalar_rows_says : rend.

(** Of a value and of the members of an object. *)
Definition says_data (v : json) : Prop := (forall k, says (render_data_value dump k v) (data_items k v)) /\
  forall f, f ∈ members v -> forall k, says (render_data_value dump k (snd f)) (data_items k (snd f)).

Lemma rest_says k count l : Forall says_data l -> forall index,
  says (nested_items (render_data_value dump) k count index l) (rest_items data_items k count index l).
Proof.
  induction 1 as [|item l [_ Hi] _ IHl]; intros index; cbn [nested_items rest_items]; [says|]. destruct (index <? count); [|says].
  apply says_also; [|apply IHl]. says.
Qed.

Lemma data_says_all v : says_data v.
Proof.
  induction v as [| | | | | |l IH|m IH] using json_nested_ind; split; try (by intros f ?%elem_of_nil);
    try (intros k; solve [cbn [render_data_value data_items]; says]).
  - intros k. cbn [render_data_value data_items]. destruct (should_emit_scalar_key k (JArray l)); [says|].
    destruct l as [|first rest]; [says|].
    destruct (is_xout_scalar_json first); [says|]. destruct (is_object first); [|says].
    apply says_also; [says|]. apply says_also; [says|]. by apply rest_says.
  - intros k. cbn [render_data_value data_items]. destruct (should_emit_scalar_key k (JObject m)); [says|]. apply says_also; [says|].
    apply says_each. intros f Hf. destruct (direct_field f); [says|]. rewrite list.Forall_forall in IH. by apply IH.
  - intros f Hf k. cbn [members] in Hf. rewrite list.Forall_forall in IH. by apply IH.
Qed.
Lemma data_says k v : says (render_data_value dump k v) (data_items k v).
Proof. apply data_says_all. Qed.
#[local] Hint Resolve data_says : rend.

Lemma generic_says response : says (render_generic dump json_equal response) (generic_items response).
Proof. unfold render_generic, generic_items, emit_data_member, data_member_items. says. Qed.
Lemma session_rows_says name sessions : says (emit_session_rows dump name sessions) (session_rows_items name sessions).
Proof. unfold emit_session_rows, session_rows_items. says. Qed.
#[local] Hint Resolve generic_says session_rows_says : rend.
Lemma session_says response : says (render_session_action dump response) (session_items response).
Proof. unfold render_session_action, session_items. says. Qed.
Lemma failure_summary_says response : says (emit_failure_summary dump json_equal response) (failure_summary_items response).
Proof. unfold emit_failure_summary, failure_summary_items. says. Qed.
#[local] Hint Resolve session_says failure_summary_says : rend.
Lemma failure_says response : says (render_failure dump json_equal response) (failure_items response).
Proof. unfold render_failure, failure_items. says. Qed.
Lemma success_says action response : says (render_success dump json_equal action response) (success_items action response).
Proof. unfold render_success, success_items. says. Qed.
Lemma properties_says name schema : says (emit_schema_properties dump name schema) (properties_items name schema).
Proof. unfold emit_schema_properties, properties_items. says. Qed.
Lemma strings_says name items pick : says (emit_string_items name items pick) (strings_items name items pick).
Proof. unfold emit_string_items, strings_items. says. Qed.
#[local] Hint Resolve properties_says strings_says : rend.

(** A renderer below its header. *)
Lemma rendered_lines action f r : one_line action -> says f r ->
  (out ← rendered (emit (emit_header action) >>> f)%rend; Ret (text_lines out)) =
  (items ← r; Ret (trim_blank (layout tool action items))).
Proof.
  intros Ha [Hf Ho]. unfold rendered, seq, emit. cbn [mbind res_bind]. rewrite Hf. destruct r as [items| |e]; [|done..]. cbn [mbind res_bind].
  f_equal. apply layout_exact; [by apply one_line_lit; vm_compute|done|by apply Ho].
Qed.
Lemma actions_lines response :
  (out ← rendered (render_actions_response dump response); Ret (text_lines out)) =
  (items ← actions_items response; Ret (trim_blank (layout tool (lit "actions") items))).
Proof. apply (rendered_lines (lit "actions")); [by apply one_line_lit; vm_compute|]. unfold actions_items. says. Qed.
Lemma schema_lines response :
  (out ← rendered (render_schema_response dump response); Ret (text_lines out)) =
  (items ← schema_items response; Ret (trim_blank (layout tool (lit "schema") items))).
Proof. apply (rendered_lines (lit "schema")); [by apply one_line_lit; vm_compute|]. unfold schema_items. says. Qed.

Lemma text_lines_ok s : Forall one_line (text_lines s).
Proof.
  induction s as [|c s IH]; cbn [text_lines]; [done|]. destruct (eqc c newline) eqn:E; [constructor; [apply one_line_nil|done]|].
  apply eqc_false in E. destruct IH as [|l ls Hl Hls]; constructor; try done; apply one_line_cons; auto using one_line_nil.
Qed.
Lemma join_lines_cons l ls : join_lines (l :: ls) = l ++ newline :: join_lines ls.
Proof. unfold join_lines. cbn [map List.concat]. by rewrite <- app_assoc. Qed.
Lemma text_lines_text s : join_lines (text_lines s) = s \/ join_lines (text_lines s) = s ++ [newline].
Proof.
  induction s as [|c s IH]; cbn [text_lines]; [by left|]. destruct (eqc c newline) eqn:E.
  - apply eqc_true in E as ->. rewrite join_lines_cons. destruct IH as [-> | ->]; auto.
  - destruct (text_lines s) as [|l ls].
    + right. destruct IH as [<-|IH]; [done|]. by destruct s.
    + rewrite join_lines_cons in *. cbn [app]. destruct IH as [-> | ->]; auto.
Qed.
Lemma one_newline_lines s : text_lines (one_newline s) = ready_lines s.
Proof.
  unfold one_newline, ready_lines. pose proof (text_lines_ok s) as Ho. set (ls := text_lines s) in *.
  assert (drop_newlines (rev s) = drop_newlines (rev (join_lines ls))) as ->.
  { destruct (text_lines_text s) as [E|E]; fold ls in E; rewrite E; [done|]. rewrite rev_app_distr. cbn [rev app drop_newlines]. by rewrite eqc_refl. }
  destruct (trim_blank ls) as [|l t] eqn:Et; [|rewrite <- Et; apply text_lines_trimmed; [done|by rewrite Et]].
  destruct (trim_blank_spec ls) as [n E]. rewrite Et in E. cbn in E. rewrite E. clear.
  assert (join_lines (replicate n []) = replicate n newline) as ->.
  { unfold join_lines. induction n as [|n IH]; [done|]. cbn. by f_equal. }
  assert (rev (replicate n newline) = replicate n newline) as -> by (rewrite rev_alt; apply reverse_replicate).
  by rewrite <- (app_nil_r (replicate n newline)), drop_newlines_app.
Qed.

End ResponseItems.

(** ** What a failure reports *)

Section Responses.
Context (dump : json -> bytes) (json_equal : json -> json -> bool).

(** A member that [emit_members] writes. *)
Lemma members_show keys source k v text : k ∈ keys -> jget k source = Some v -> is_empty_json v = false ->
  json_to_xout_value dump v = Ret text -> text <> [] -> forall b b', emit_members dump keys source b = Ret b' ->
  exists i, kept (MkKv (indent i) (sanitize_xout_key k) text) b'.
Proof.
  intros Hk Hg He Ht Hn. induction keys as [|k' keys IH]; intros b b'; [by apply not_elem_of_nil in Hk|]. cbn [emit_members].
  apply elem_of_cons in Hk as [<-|Hk].
  - rewrite Hg. unfold emit_kv at 1. rewrite He, Ht. cbn [mbind res_bind]. destruct text as [|c s]; [done|]. intros Hr%members_keep.
    destruct (nested_indent b) as [i E]. exists i. rewrite <- E. apply Hr, push_keeps.
  - destruct (jget k' source) as [v'|]; [|by apply IH]. destruct (emit_kv dump k' v' b) as [b1| |e]; [|done..]. cbn [mbind res_bind]. by apply IH.
Qed.

Lemma error_shows error b b' k s : k ∈ error_fields -> jget k error = Some (JString s) -> sanitize_xout_value s <> [] ->
  emit_error dump error b = Ret b' -> exists i, kept (MkKv (indent i) (sanitize_xout_key k) (sanitize_xout_value s)) b'.
Proof.
  intros Hk Hg Hs. unfold emit_error. destruct error as [| | | | | | |m]; try done. cbn [is_object negb].
  destruct (emit_members _ _ _ _) as [b1| |e] eqn:E1; [|done..]. cbn [mbind res_bind].
  destruct (members_show error_fields (JObject m) k (JString s) (sanitize_xout_value s) Hk Hg eq_refl eq_refl Hs _ _ E1) as [i Hi].
  destruct (match jget (lit "correct_example") (JObject m) with Some _ => _ | None => _ end) as [b2| |e] eqn:E2; [|done..].
  cbn [mbind res_bind]. destruct (emit_list_section _ (lit "next_actions") (JObject m) b2) as [b3| |e] eqn:E3; [|done..].
  cbn [mbind res_bind]. intros E4. exists i. eapply list_section_keeps; [exact E4|]. eapply list_section_keeps; [exact E3|].
  destruct (jget (lit "correct_example") (JObject m)).
  - eapply kv_keeps; [exact E2|]. by apply section_keeps.
  - by apply Ret_inj in E2 as <-.
Qed.

(** The text of a builder with a line for the key and the string. *)
Definition reported (out k s : bytes) : Prop := exists b i width,
  out = str b /\ shown (kv_line width (MkKv (indent i) (sanitize_xout_key k) (sanitize_xout_value s))) (flush_kv_block b).

(** The text of a failed response reports the failure: each field of its
    error that the format knows and that is a string with something to show,
    its code and its message among them, is a line of the text. *)
Theorem failure_reported response handler_xout out m k s :
  value_or as_bool (lit "ok") false response = Ret false -> jget (lit "error") response = Some (JObject m) ->
  k ∈ error_fields -> mget k m = Some (JString s) -> sanitize_xout_value s <> [] ->
  render_xout_response dump json_equal response handler_xout = Ret out ->
  reported out k s.
Proof.
  intros Ho He Hk Hg Hs. unfold render_xout_response. rewrite Ho. cbn [mbind res_bind]. unfold rendered, render_failure, seq, emit.
  rewrite He. cbn [mbind res_bind]. set (b0 := emit_header _ _). clearbody b0.
  destruct (emit_members _ _ _ b0) as [b1| |e]; [|done..]. cbn [mbind res_bind].
  destruct (emit_error dump (JObject m) b1) as [b2| |e] eqn:E2; [|done..]. cbn [mbind res_bind].
  destruct (error_shows (JObject m) b1 b2 k s Hk Hg Hs E2) as [i Hi].
  destruct (emit_failure_summary _ _ _ b2) as [b3| |e] eqn:E3; [|done..]. apply good_failure_summary in E3 as [_ H3]. cbn [mbind res_bind].
  destruct (emit_error_list _ (lit "candidates") _ _ b3) as [b4| |e] eqn:E4; [|done..]. apply good_error_list in E4 as [_ H4].
  cbn [mbind res_bind]. destruct (emit_error_list _ _ _ _ b4) as [b5| |e] eqn:E5; [|done..]. apply good_error_list in E5 as [_ H5].
  cbn [mbind res_bind]. intros <-%Ret_inj. destruct (flush_keeps b5) as [[_ Hf] Hp].
  apply H3, H4, H5, Hf in Hi as [Hi|[w Hi]]; [rewrite Hp in Hi; by apply not_elem_of_nil in Hi|]. by exists b5, i, w.
Qed.
End Responses.

Definition sample_failure : json :=
  jobj [(lit "ok", JBool false); (lit "action", JString (lit "apb.query"));
        (lit "error", jobj [(lit "code", JString (lit "CONFIG_NOT_FOUND")); (lit "message", JString ("a"%char :: newline :: lit "data:"))]);
        (lit "summary", jobj [(lit "status", JString (lit "error")); (lit "name", JString (lit "bus"))])].


Lemma failure_reported_witness : exists out b i width,
  render_xout_response (fun _ => []) (fun _ _ => false) sample_failure [] = Ret out /\ out = str b /\
  shown (kv_line width (MkKv (indent i) (lit "code") (lit "CONFIG_NOT_FOUND"))) (flush_kv_block b).
Proof.
  destruct (render_xout_response (fun _ => []) (fun _ _ => false) sample_failure []) as [out| |e] eqn:E; [|by vm_compute in E..].
  exists out.
  destruct (failure_reported (fun _ => []) (fun _ _ => false) sample_failure [] out (members (jat (lit "error") sample_failure)) (lit "code") (lit "CONFIG_NOT_FOUND"))
    as (b & i & w & H1 & H2).
  1-2: reflexivity.
  - left.
  - reflexivity.
  - done.
  - exact E.
  - by exists b, i, w.
Defined.

(** ** What an array of scalars loses *)

(** Only the first twenty items of an array of scalars are shown, and nothing
    tells that there are more: the note about the rest is an entry with an
    empty value, which the builder leaves out. *)
Lemma scalar_tail_dropped dump k l l' b : zlen l < 2 ^ 31 -> zlen l' < 2 ^ 31 -> take 20 l = take 20 l' ->
  emit_scalar_rows dump k l b = emit_scalar_rows dump k l' b.
Proof.
  assert (forall l : list json, zlen l < 2 ^ 31 -> emit_scalar_rows dump k l b =
    (section k >>> iter (fun item => shown <~ json_to_xout_value dump item; row [shown]) (take 20 l) >>> skip)%rend b) as Hs.
  { clear. intros l Hl. unfold emit_scalar_rows. assert (i32 (zlen l) = zlen l) as ->.
    { unfold i32. rewrite Z.mod_small; unfold zlen in *; lia. }
    assert (take (Z.to_nat (Z.min 20 (zlen l))) l = take 20 l) as ->.
    { destruct (decide (length l <= 20)%nat).
      - rewrite !take_ge; [done|lia|unfold zlen; lia].
      - f_equal. unfold zlen. lia. }
    unfold when, text, skip. by destruct (_ <? _). }
  intros H1 H2 Ht. by rewrite !Hs, Ht.
Qed.
