(* ===== verification/Protocol.v ===== *)
(** * Protocol: the public protocol

    Models [src/protocol/action_spec.{h,cpp}], [public_action_registry.{h,cpp}],
    [contract.{h,cpp}], [response.cpp] and [public_catalog.{h,cpp}]: the table
    of actions, the checks of a public request and response, the canonical
    envelope and the catalogue of actions and schemas. The entries of the
    table are generated from metadata and are a parameter, as are the release
    numbers of the build; schema validation is the one of SchemaValidator.v
    with its caches. *)

From stdpp Require Import sorting.
From S2P Require Import Prelude CLib Json Engine Diagnostics InternalRequest SchemaValidator.

Open Scope Z_scope.

(** ** Action specifications *)

Inductive ActionStatus := Experimental | Stable.
Inductive ResourceRequirement := RNone | RDesign | RWaveform | RCombined | RAny | RSession.

Record ArgSpec := MkArgs { required : list bytes; allowed_values : list (bytes * list bytes) }.
Record ResourceVariant := MkVariant {
  variant_name : bytes;
  variant_resource : ResourceRequirement;
  required_args : list bytes;
  forbidden_args : list bytes;
}.
Record ActionRecommendation := MkRecommendation { rec_action : bytes; rec_purpose : bytes }.

Record ActionSpec := MkSpec {
  spec_name : bytes;
  spec_category : bytes;
  spec_status : ActionStatus;
  spec_resource : ResourceRequirement;
  resource_variants : list ResourceVariant;
  handler_kind : bytes;
  spec_args : ArgSpec;
  request_schema : bytes;
  response_schema : bytes;
  request_examples : list bytes;
  response_examples : list bytes;
  description_en : bytes;
  description_zh : bytes;
  purposes : list bytes;
  use_when : list bytes;
  do_not_use_when : list bytes;
  alternatives : json;
  spec_recommended : list ActionRecommendation;
}.

Definition status_string (s : ActionStatus) : bytes :=
  match s with Experimental => lit "experimental" | Stable => lit "stable" end.
Definition resource_string (r : ResourceRequirement) : bytes :=
  match r with
  | RNone => lit "none"
  | RDesign => lit "design"
  | RWaveform => lit "waveform"
  | RCombined => lit "combined"
  | RAny => lit "any"
  | RSession => lit "session"
  end.
Definition action_status_from_string (value : bytes) : res ActionStatus :=
  if eqs value (lit "stable") then Ret Stable
  else if eqs value (lit "experimental") then Ret Experimental
  else Throw "unknown action status".
Definition resource_requirement_from_string (value : bytes) : res ResourceRequirement :=
  if eqs value (lit "design") then Ret RDesign
  else if eqs value (lit "waveform") then Ret RWaveform
  else if eqs value (lit "combined") then Ret RCombined
  else if eqs value (lit "any") then Ret RAny
  else if eqs value (lit "session") then Ret RSession
  else if eqs value (lit "none") then Ret RNone
  else Throw "unknown resource requirement".

(** A [std::vector<std::string>] as JSON. *)
Definition jstrings (l : list bytes) : json := JArray (map JString l).

Definition variant_descriptor (v : ResourceVariant) : json :=
  jobj [(lit "name", JString (variant_name v)); (lit "requires", JString (resource_string (variant_resource v)));
        (lit "required_args", jstrings (required_args v)); (lit "forbidden_args", jstrings (forbidden_args v))].
Definition action_spec_descriptor (s : ActionSpec) : json :=
  jobj [(lit "name", JString (spec_name s)); (lit "category", JString (spec_category s));
        (lit "status", JString (status_string (spec_status s))); (lit "requires", JString (resource_string (spec_resource s)));
        (lit "request_schema", JString (request_schema s)); (lit "response_schema", JString (response_schema s));
        (lit "handler_kind", JString (handler_kind s)); (lit "request_examples", jstrings (request_examples s));
        (lit "response_examples", jstrings (response_examples s)); (lit "required_args", jstrings (required (spec_args s)));
        (lit "description_en", JString (description_en s)); (lit "description_zh", JString (description_zh s));
        (lit "purposes", jstrings (purposes s)); (lit "use_when", jstrings (use_when s));
        (lit "do_not_use_when", jstrings (do_not_use_when s)); (lit "alternatives", alternatives s);
        (lit "resource_variants", JArray (map variant_descriptor (resource_variants s)));
        (lit "allowed_values", jobj (map (fun kv => (fst kv, jstrings (snd kv))) (allowed_values (spec_args s))))].

(** ** The registry *)

(** [specs_], a map by name. *)
Definition PublicActionRegistry : Type := list (bytes * ActionSpec).

Definition register_spec (spec : ActionSpec) (r : PublicActionRegistry) : bool * PublicActionRegistry :=
  if eqs (spec_name spec) [] then (false, r)
  else match mget (spec_name spec) r with
       | Some _ => (false, r)
       | None => (true, mset (spec_name spec) spec r)
       end.
Definition find_spec (name : bytes) (r : PublicActionRegistry) : option ActionSpec := mget name r.
Definition list_specs (r : PublicActionRegistry) : list ActionSpec := map snd r.
(** [instance()]: the generated entries registered one after the other. *)
Definition registry_of (metadata : list ActionSpec) : PublicActionRegistry :=
  foldl (fun r spec => snd (register_spec spec r)) [] metadata.

(** ** Suggestions *)

(** [current] past its first column, where [left] is the cell before. *)
Fixpoint fill_row (a : ascii) (left : nat) (rhs : bytes) (previous : list nat) : list nat :=
  match rhs, previous with
  | b :: rhs', diagonal :: (up :: _) as previous' =>
      let substitution := (diagonal + if eqc a b then 0 else 1)%nat in
      let cell := Nat.min (Nat.min (up + 1) (left + 1)) substitution in
      cell :: fill_row a cell rhs' previous'
  | _, _ => []
  end.
Fixpoint distance_rows (row : nat) (lhs rhs : bytes) (previous : list nat) : list nat :=
  match lhs with
  | [] => previous
  | a :: lhs' => distance_rows (S row) lhs' rhs (row :: fill_row a row rhs previous)
  end.
Definition edit_distance (lhs rhs : bytes) : nat :=
  default 0%nat (distance_rows 1 lhs rhs (List.seq 0 (S (length rhs))) !! length rhs).

(** [action.find('.')]; the name starts with [action] up to the dot. *)
Definition same_domain (action name : bytes) : bool :=
  match split_at "."%char action with
  | (domain, Some _) => is_prefix (domain ++ lit ".") name
  | (_, None) => false
  end.
Definition suggestion_score (action name : bytes) : nat :=
  let score := edit_distance action name in
  if same_domain action name then if (2 <? score)%nat then (score - 2)%nat else 0%nat else score.

(** The order of [std::pair<size_t, std::string>]. *)
Definition rank_le (p q : nat * bytes) : Prop :=
  (fst p < fst q)%nat \/ (fst p = fst q /\ str_compare (snd p) (snd q) <> Gt).
#[export] Instance rank_le_dec : RelDecision rank_le.
Proof. intros p q. unfold rank_le. apply _. Defined.

Definition ranked (action : bytes) (r : PublicActionRegistry) : list (nat * bytes) :=
  merge_sort rank_le (map (fun s => (suggestion_score action (spec_name s), spec_name s)) (list_specs r)).
Definition action_suggestions (action : bytes) (r : PublicActionRegistry) : json :=
  JArray (map (fun p => JString (snd p)) (take 3 (ranked action r))).

(** ** Conversions between the two JSON types *)

(** An [ordered_json] as a [json]: the members of every object by key. The
    other direction keeps the order and is the identity here. *)
Fixpoint to_plain (j : json) : json :=
  match j with
  | JArray l => JArray (map to_plain l)
  | JObject m => JObject (mfrom (map (fun kv => (fst kv, to_plain (snd kv))) m))
  | v => v
  end.

(** ** The contract of requests and responses *)

Record ContractResult := MkContract { cr_ok : bool; cr_error : json }.
Definition contract_ok : ContractResult := MkContract true JNull.
Definition contract_error (e : json) : ContractResult := MkContract false (to_plain (to_json e)).

Definition public_type_name (value : json) : bytes :=
  match value with
  | JInt _ | JUint _ | JFloat _ => lit "number"
  | v => plain_type_name v
  end.

Definition allowed_fields : list bytes :=
  [lit "api_version"; lit "request_id"; lit "action"; lit "target"; lit "args"; lit "limits"].
Definition unknown_field (request : json) : option (bytes * json) :=
  List.find (fun kv => negb (one_of (fst kv) allowed_fields)) (members request).

(** A member that is a string with at least one character. *)
Definition nonempty_member (k : bytes) (j : json) : option bytes :=
  match jget k j with Some (JString (c :: s)) => Some (c :: s) | _ => None end.

Section Contract.
Context (dump : json -> bytes) (json_equal : json -> json -> bool) (reparse : json -> bytes + json)
  (parse : bytes -> bytes + json) (repo_file_path : bytes -> bytes) (file : bytes -> option bytes).
Context {V : Type} (compile : json -> bytes + V) (run : V -> json -> bytes + list ValidationIssue).
Context (projection_what : json -> bytes).
Context (registry : PublicActionRegistry).

Definition of_validation (r : RuntimeSchemaValidationResult) : ContractResult :=
  if rs_ok r then contract_ok else MkContract false (to_plain (rs_error r)).

Definition validate_public_request (request : json) (st : @Caches V) : ContractResult * @Caches V :=
  if negb (is_object request)
  then (contract_error (internal_error (lit "INVALID_REQUEST") (lit "request must be a JSON object")), st)
  else match nonempty_member (lit "action") request with
  | None => (contract_error (internal_error (lit "INVALID_REQUEST") (lit "action is required")), st)
  | Some action =>
      if negb (match jget (lit "api_version") request with Some (JString v) => eqs v (lit "xdebug.v1") | _ => false end)
      then (contract_error (internal_error (lit "UNSUPPORTED_API_VERSION") (lit "expected xdebug.v1")), st)
      else match find_spec action registry with
      | None =>
          (contract_error (with_available_values (action_suggestions action registry)
             (with_received (JString action) (with_invalid_arg (lit "action")
                (handler_error (lit "UNKNOWN_ACTION") (lit "unknown action: " ++ action))))), st)
      | Some _ =>
          match unknown_field request with
          | Some (k, v) =>
              (contract_error (with_received_type (public_type_name v) (with_received v
                 (with_expected (lit "one of api_version, request_id, action, target, args, limits")
                    (with_invalid_arg k
                       (schema_error (lit "INVALID_REQUEST") (lit "public request contains unknown field: " ++ k)))))), st)
          | None =>
              let '(r, st) := validate_request dump reparse parse repo_file_path file compile run action request [] st in
              (of_validation r, st)
          end
      end
  end.

Definition validate_public_response (action : bytes) (response : json) (st : @Caches V) : res (ContractResult * @Caches V) :=
  r ← (if eqs action (lit "batch")
       then validate_batch_response reparse parse repo_file_path file compile run projection_what response [] st
       else validate_response dump json_equal reparse parse repo_file_path file compile run action response [] st);
  let '(v, st) := r in
  Ret (of_validation v, st).
End Contract.

(** ** The response envelope *)

Record BuildVersion := MkBuild { release_version : bytes; git_revision : bytes; schema_revision : bytes }.
Definition tool_metadata (v : BuildVersion) : json :=
  jobj [(lit "name", JString (lit "xdebug-fst")); (lit "version", JString (release_version v));
        (lit "build_id", JString (release_version v ++ lit "-" ++ git_revision v));
        (lit "git_revision", JString (git_revision v)); (lit "schema_revision", JString (schema_revision v))].

(** The members set first, in both envelopes. *)
Definition envelope_head (request : json) : list (bytes * json) :=
  (lit "api_version", JString (lit "xdebug.v1")) ::
  match nonempty_member (lit "request_id") request with
  | Some id => [(lit "request_id", JString id)]
  | None => []
  end.

Definition canonical_error (v : BuildVersion) (request : json) (action : bytes) (error : json) : res json :=
  let normalized := to_plain (normalize_diagnostic_error error (lit "handler")) in
  err_code ← value_or as_string (lit "code") (lit "ACTION_FAILED") normalized;
  Ret (jobj (envelope_head request ++
    [(lit "ok", JBool false); (lit "action", JString (match action with [] => lit "error" | _ => action end));
     (lit "tool", tool_metadata v); (lit "session", JNull);
     (lit "summary", jobj [(lit "status", JString (lit "error")); (lit "error_code", JString err_code)]);
     (lit "data", JNull); (lit "error", normalized)])).

Definition optional_fields : list bytes :=
  [lit "findings"; lit "warnings"; lit "suggested_next_actions"; lit "advisories"].
Definition copied (source : json) : list (bytes * json) :=
  List.concat (map (fun k => match jget k source with Some v => [(k, v)] | None => [] end) optional_fields).

Definition canonical_response (v : BuildVersion) (request : json) (action : bytes) (handler_response : json) : res json :=
  ok ← value_or as_bool (lit "ok") false handler_response;
  match ok with
  | false =>
      error ← value_or Ret (lit "error") (JObject []) handler_response;
      canonical_error v request action error
  | true =>
      session ← value_or Ret (lit "session") JNull handler_response;
      summary ← value_or Ret (lit "summary") (JObject []) handler_response;
      data ← value_or Ret (lit "data") (JObject []) handler_response;
      Ret (jobj (envelope_head request ++
        [(lit "ok", JBool true); (lit "action", JString action); (lit "tool", tool_metadata v);
         (lit "session", session); (lit "summary", summary); (lit "data", data)] ++
        copied handler_response ++ [(lit "error", JNull)]))
  end.

(** ** The catalogue *)

Record CatalogResult := MkCatalogResult { ca_ok : bool; ca_summary : json; ca_data : json; ca_error : json }.
Definition catalog_error (error : json) : CatalogResult := MkCatalogResult false (JObject []) (JObject []) error.

Definition lower_ascii (value : bytes) : bytes :=
  map (fun c => if code c <? 128 then tolower c else c) value.

Definition string_array_contains (values : json) (candidate : bytes) : bool :=
  match values with
  | JArray l => existsb (fun v => match v with JString s => eqs s candidate | _ => false end) l
  | _ => true
  end.
Definition purpose_matches (requested : json) (actual : list bytes) : bool :=
  match requested with
  | JArray l => existsb (fun v => match v with JString s => one_of s actual | _ => false end) l
  | _ => true
  end.

(** A criterion that is absent from the filter holds. *)
Definition criterion (k : bytes) (filter : json) (test : json -> bool) : bool :=
  match jget k filter with Some v => test v | None => true end.
Definition matches (spec : ActionSpec) (filter : json) : res bool :=
  if negb (is_object filter) || json_empty filter then Ret true
  else if negb (criterion (lit "category") filter (fun v => string_array_contains v (spec_category spec))
                && criterion (lit "requires") filter (fun v => string_array_contains v (resource_string (spec_resource spec)))
                && criterion (lit "purposes") filter (fun v => purpose_matches v (purposes spec)))
  then Ret false
  else if negb (jcontains (lit "keyword") filter) then Ret true
  else
    text ← value_or as_string (lit "keyword") [] filter;
    let keyword := lower_ascii text in
    Ret (contains_text keyword (lower_ascii (spec_name spec)) ||
         contains_text keyword (lower_ascii (description_en spec)) ||
         contains_text keyword (lower_ascii (description_zh spec))).

(** [modes[category].push_back(name)] *)
Definition push_mode (spec : ActionSpec) (modes : list (bytes * json)) : res (list (bytes * json)) :=
  match mget (spec_category spec) modes with
  | Some (JArray l) => Ret (mset (spec_category spec) (JArray (l ++ [JString (spec_name spec)])) modes)
  | None => Ret (mset (spec_category spec) (JArray [JString (spec_name spec)]) modes)
  | Some _ => Throw "type_error.308"
  end.
Definition empty_modes : list (bytes * json) :=
  mfrom (map (fun k => (k, JArray [])) [lit "design"; lit "waveform"; lit "combined"; lit "builtin"; lit "session"]).

Fixpoint collect_actions (verbose : bool) (filter : json) (specs : list ActionSpec) (actions : list json)
    (modes : list (bytes * json)) : res (list json * list (bytes * json)) :=
  match specs with
  | [] => Ret (actions, modes)
  | spec :: specs' =>
      found ← matches spec filter;
      match found with
      | false => collect_actions verbose filter specs' actions modes
      | true =>
          modes ← push_mode spec modes;
          collect_actions verbose filter specs'
            (actions ++ [if verbose then action_spec_descriptor spec else JString (spec_name spec)]) modes
      end
  end.

Definition build_actions_catalog (registry : PublicActionRegistry) (args : json) : res CatalogResult :=
  filter ← value_or Ret (lit "filter") (JObject []) args;
  output ← value_or Ret (lit "output") (JObject []) args;
  verbose ← value_or as_bool (lit "verbose") false output;
  r ← collect_actions verbose filter (list_specs registry) [] empty_modes;
  let '(actions, modes) := r in
  Ret (MkCatalogResult true
    (jobj [(lit "action_count", JUint (zlen actions)); (lit "total_action_count", JUint (zlen (list_specs registry)));
           (lit "verbose", JBool verbose); (lit "filtered", JBool (negb (json_empty filter)))])
    (jobj [(lit "actions", JArray actions); (lit "modes", JObject modes); (lit "filters", filter)])
    JNull).

Section SchemaCatalog.
(** [read_json]: a data file that exists and parses. *)
Context (read_json : bytes -> option json).

Definition example_entries (paths : list bytes) : list json :=
  List.concat (map (fun path => match read_json path with
                                | Some v => [jobj [(lit "path", JString path); (lit "value", v)]]
                                | None => []
                                end) paths).

Definition build_schema_catalog (registry : PublicActionRegistry) (args : json) : res CatalogResult :=
  action ← value_or as_string (lit "action") [] args;
  kind ← value_or as_string (lit "kind") (lit "request") args;
  match find_spec action registry with
  | None =>
      Ret (catalog_error (jobj [(lit "code", JString (lit "UNKNOWN_ACTION"));
        (lit "message", JString (lit "unknown action: " ++ action)); (lit "recoverable", JBool true);
        (lit "error_layer", JString (lit "handler")); (lit "invalid_arg", JString (lit "args.action"));
        (lit "received", JString action)]))
  | Some spec =>
      if negb (eqs kind (lit "request")) && negb (eqs kind (lit "response")) then
        Ret (catalog_error (jobj [(lit "code", JString (lit "INVALID_ENUM"));
          (lit "message", JString (lit "schema args.kind must be request or response")); (lit "recoverable", JBool true);
          (lit "error_layer", JString (lit "handler")); (lit "invalid_arg", JString (lit "args.kind"));
          (lit "expected", JString (lit "one of request, response")); (lit "received", JString kind);
          (lit "available_values", jstrings [lit "request"; lit "response"])]))
      else
        let is_request := eqs kind (lit "request") in
        let path := if is_request then request_schema spec else response_schema spec in
        match read_json path with
        | None =>
            Ret (catalog_error (jobj [(lit "code", JString (lit "ACTION_SCHEMA_NOT_FOUND"));
              (lit "message", JString (lit "schema not found for " ++ action ++ lit " " ++ kind));
              (lit "recoverable", JBool true); (lit "error_layer", JString (lit "handler"))]))
        | Some schema =>
            agent ← value_or Ret (lit "x-agent") (JObject []) schema;
            constraints ← value_or Ret (lit "constraints") (JArray []) agent;
            Ret (MkCatalogResult true
              (jobj [(lit "action", JString action); (lit "kind", JString kind)])
              (jobj [(lit "schema", schema); (lit "schema_path", JString path);
                     (lit "examples", JArray (example_entries (if is_request then request_examples spec else response_examples spec)));
                     (lit "constraints", constraints)])
              JNull)
        end
  end.
End SchemaCatalog.
