(* ===== verification/ProtocolTheory.v ===== *)
(** * ProtocolTheory: the public protocol does what it promises

    The table-driven edit distance is the least number of one-character edits;
    the suggestions are the best-ranked registered actions; the first
    registration of a name wins; a public request is accepted exactly when all
    its checks pass and is otherwise refused with the code of the first one
    that fails; every response has the canonical envelope. *)

From stdpp Require Import sorting.
From S2P Require Import Prelude CLib Json Engine Diagnostics InternalRequest SchemaValidator Protocol.

Open Scope Z_scope.

(** ** Edits *)

(** One insertion, deletion or substitution of a character. *)
Inductive edit : bytes -> bytes -> Prop :=
| edit_insert x c y : edit (x ++ y) (x ++ c :: y)
| edit_delete x c y : edit (x ++ c :: y) (x ++ y)
| edit_replace x c d y : edit (x ++ c :: y) (x ++ d :: y).

(** Two texts written under each other, [n] of the columns differing. *)
Inductive align : nat -> bytes -> bytes -> Prop :=
| align_nil : align 0 [] []
| align_keep n c s t : align n s t -> align n (c :: s) (c :: t)
| align_replace n c d s t : align n s t -> align (S n) (c :: s) (d :: t)
| align_delete n c s t : align n s t -> align (S n) (c :: s) t
| align_insert n c s t : align n s t -> align (S n) s (c :: t).
#[local] Hint Constructors align : core.

Lemma align_refl s : align 0 s s.
Proof. induction s; auto. Qed.

Lemma align_edit s t : edit s t -> align 1 s t.
Proof.
  intros He. destruct He as [x c y|x c y|x c d y]; (induction x as [|e x IH]; cbn [app]; [|by apply align_keep]);
    auto using align_refl.
Qed.

(** At most [n] differing columns. *)
Definition within (n : nat) (s t : bytes) : Prop := exists k, (k <= n)%nat /\ align k s t.

Lemma within_keep n c s t : within n s t -> within n (c :: s) (c :: t).
Proof. intros (k & Hk & Ha). exists k. auto. Qed.
Lemma within_step n s t s' t' : (forall k, align k s t -> align (S k) s' t') -> within n s t -> within (S n) s' t'.
Proof. intros Hs (k & Hk & Ha). exists (S k). split; [lia|auto]. Qed.
Lemma within_le n m s t : (n <= m)%nat -> within n s t -> within m s t.
Proof. intros Hle (k & Hk & Ha). exists k. split; [lia|done]. Qed.

Lemma within_trans n s t : align n s t -> forall m u, align m t u -> within (n + m) s u.
Proof.
  induction 1 as [|n c s t Ha IH|n c d s t Ha IH|n c s t Ha IH|n c s t Ha IH]; intros m u Hb.
  - by exists m.
  - remember (c :: t) as ct eqn:E. revert E. induction Hb as [|m b t' u Hb _|m b e t' u Hb _|m b t' u Hb _|m b t' u Hb IHb];
      intros E; simplify_eq.
    + apply within_keep. auto.
    + rewrite Nat.add_succ_r. apply (within_step _ s u); auto.
    + rewrite Nat.add_succ_r. apply (within_step _ s u); auto.
    + rewrite Nat.add_succ_r. apply (within_step _ (c :: s) u); auto.
  - remember (d :: t) as ct eqn:E. revert E. induction Hb as [|m b t' u Hb _|m b e t' u Hb _|m b t' u Hb _|m b t' u Hb IHb];
      intros E; simplify_eq; cbn [Nat.add].
    + apply (within_step _ s u); auto.
    + apply (within_le (S (n + m))); [lia|]. apply (within_step _ s u); auto.
    + apply (within_le (S (n + m))); [lia|]. apply (within_step _ s u); auto.
    + rewrite Nat.add_succ_r. apply (within_step _ (c :: s) u); [auto|]. by apply IHb.
  - cbn [Nat.add]. apply (within_step _ s u); auto.
  - remember (c :: t) as ct eqn:E. revert E. induction Hb as [|m b t' u Hb _|m b e t' u Hb _|m b t' u Hb _|m b t' u Hb IHb];
      intros E; simplify_eq; cbn [Nat.add].
    + apply (within_step _ s u); auto.
    + apply (within_le (S (n + m))); [lia|]. apply (within_step _ s u); auto.
    + apply (within_le (n + m)); [lia|]. auto.
    + rewrite Nat.add_succ_r. apply (within_step _ s u); [auto|]. by apply IHb.
Qed.

(** Alignments and sequences of edits are the same thing. *)
Lemma edit_cons c s t : edit s t -> edit (c :: s) (c :: t).
Proof.
  intros [x d y|x d y|x d e y]; rewrite ?app_comm_cons; constructor.
Qed.
Lemma edits_cons n c s t : nsteps edit n s t -> nsteps edit n (c :: s) (c :: t).
Proof. induction 1; econstructor; [by apply edit_cons|done]. Qed.

Lemma align_edits n s t : align n s t -> nsteps edit n s t.
Proof.
  induction 1 as [|n c s t _ IH|n c d s t _ IH|n c s t _ IH|n c s t _ IH].
  - constructor.
  - by apply edits_cons.
  - econstructor; [apply (edit_replace [] c d s)|]. by apply edits_cons.
  - econstructor; [apply (edit_delete [] c s)|done].
  - eapply nsteps_r; [done|]. apply (edit_insert [] c t).
Qed.

Lemma edits_within n s t : nsteps edit n s t -> within n s t.
Proof.
  induction 1 as [s|n s t u He _ IH]; [exists 0%nat; split; [done|apply align_refl]|].
  destruct IH as (k & Hk & Ha). destruct (within_trans _ _ _ (align_edit _ _ He) _ _ Ha) as (j & Hj & Hb).
  exists j. split; [lia|done].
Qed.

(** Edits of the reversed texts. *)
Lemma edit_rev s t : edit s t -> edit (rev s) (rev t).
Proof.
  intros [x c y|x c y|x c d y]; rewrite !rev_app_distr; cbn [rev]; rewrite <- ?app_assoc; constructor.
Qed.
Lemma edits_rev n s t : nsteps edit n s t -> nsteps edit n (rev s) (rev t).
Proof. induction 1; econstructor; [by apply edit_rev|done]. Qed.

(** ** The distance *)

(** The recursive definition of the distance. *)
Fixpoint lev (s t : bytes) : nat :=
  match s with
  | [] => length t
  | a :: s' =>
      (fix go (t : bytes) : nat :=
         match t with
         | [] => length s
         | b :: t' => Nat.min (Nat.min (lev s' t + 1) (go t' + 1)) (lev s' t' + if eqc a b then 0 else 1)
         end) t
  end%nat.

Lemma lev_cons a s b t : lev (a :: s) (b :: t) =
  Nat.min (Nat.min (lev s (b :: t) + 1) (lev (a :: s) t + 1)) (lev s t + if eqc a b then 0 else 1)%nat.
Proof. done. Qed.
Lemma lev_nil_r s : lev s [] = length s.
Proof. by destruct s. Qed.

Lemma lev_align s : forall t, align (lev s t) s t.
Proof.
  induction s as [|a s IH]; intros t.
  - induction t as [|b t IHt]; [constructor|]. cbn. by constructor.
  - induction t as [|b t IHt]; [cbn; constructor; specialize (IH []); by rewrite lev_nil_r in IH|].
    rewrite lev_cons. destruct (Nat.min_dec (Nat.min (lev s (b :: t) + 1) (lev (a :: s) t + 1))
      (lev s t + if eqc a b then 0 else 1)) as [->| ->].
    + destruct (Nat.min_dec (lev s (b :: t) + 1) (lev (a :: s) t + 1)) as [->| ->]; rewrite Nat.add_1_r; auto.
    + destruct (eqc a b) eqn:E; [|rewrite Nat.add_1_r; auto]. apply eqc_true in E as ->. rewrite Nat.add_0_r. auto.
Qed.

Lemma lev_least n s t : align n s t -> (lev s t <= n)%nat.
Proof.
  induction 1 as [|n c s t _ IH|n c d s t _ IH|n c s t _ IH|n c s t _ IH]; [done| | | |].
  - rewrite lev_cons. rewrite (proj2 (eqc_true c c)) by done. lia.
  - rewrite lev_cons. destruct (eqc c d); lia.
  - destruct t as [|d t]; [rewrite lev_nil_r in *; cbn; lia|]. rewrite lev_cons. lia.
  - destruct s as [|d s]; [cbn in *; lia|]. rewrite lev_cons. lia.
Qed.

(** ** The table *)

(** The row of [s] from the column of [p] on; both texts reversed. *)
Fixpoint row_from (s p rhs : bytes) : list nat :=
  lev s p :: match rhs with [] => [] | b :: rhs' => row_from s (b :: p) rhs' end.

Lemma row_first rhs : forall p, row_from [] p rhs = List.seq (length p) (S (length rhs)).
Proof. induction rhs as [|b rhs IH]; intros p; cbn [row_from]; [done|]. by rewrite IH. Qed.

Lemma row_next a s rhs : forall p,
  lev (a :: s) p :: fill_row a (lev (a :: s) p) rhs (row_from s p rhs) = row_from (a :: s) p rhs.
Proof.
  induction rhs as [|b rhs IH]; intros p; cbn [row_from fill_row]; [done|]. f_equal.
  rewrite <- IH. rewrite lev_cons. destruct rhs; reflexivity.
Qed.

Lemma row_last s rhs : forall p, row_from s p rhs !! length rhs = Some (lev s (rev rhs ++ p)).
Proof.
  induction rhs as [|b rhs IH]; intros p; [done|]. cbn [row_from length rev]. rewrite <- app_assoc. apply IH.
Qed.

Lemma rows_exact lhs rhs : forall s,
  distance_rows (S (length s)) lhs rhs (row_from s [] rhs) = row_from (rev lhs ++ s) [] rhs.
Proof.
  induction lhs as [|a lhs IH]; intros s; cbn [distance_rows]; [done|].
  assert (S (length s) = lev (a :: s) []) as E by done. rewrite E at 2 3. rewrite row_next.
  cbn [rev]. rewrite <- app_assoc. apply (IH (a :: s)).
Qed.

Lemma edit_distance_lev lhs rhs : edit_distance lhs rhs = lev (rev lhs) (rev rhs).
Proof.
  unfold edit_distance. pose proof (rows_exact lhs rhs []) as Hr. rewrite row_first in Hr. cbn [length] in Hr.
  rewrite Hr, row_last. by rewrite !app_nil_r.
Qed.

(** C37: [edit_distance] is the edit distance: there is a sequence of that many
    one-character insertions, deletions and substitutions from one text to the
    other, and none is shorter. *)
Theorem edit_distance_exact lhs rhs :
  nsteps edit (edit_distance lhs rhs) lhs rhs /\ forall n, nsteps edit n lhs rhs -> (edit_distance lhs rhs <= n)%nat.
Proof.
  rewrite edit_distance_lev. split.
  - rewrite <- (rev_involutive lhs) at 2. rewrite <- (rev_involutive rhs) at 2. apply edits_rev, align_edits, lev_align.
  - intros n (k & Hk & Ha)%edits_rev%edits_within. apply lev_least in Ha. lia.
Qed.

(** ** The registry *)

Definition registry_ok (r : PublicActionRegistry) : Prop :=
  msorted r = true /\ Forall (fun kv => spec_name (snd kv) = fst kv /\ fst kv <> []) r.

Lemma register_ok spec r : registry_ok r -> registry_ok (snd (register_spec spec r)).
Proof.
  intros [Hs Hf]. unfold register_spec. destruct (eqs (spec_name spec) []) eqn:E; [done|].
  destruct (mget (spec_name spec) r); [done|]. split; [by apply mset_sorted|].
  apply list.Forall_forall. intros [k v] [[= -> ->]|Hin]%mset_elem.
  - split; [done|]. by apply eqs_false in E.
  - rewrite list.Forall_forall in Hf. by apply (Hf (k, v)).
Qed.

Lemma register_find spec r name : find_spec name (snd (register_spec spec r)) =
  match find_spec name r with
  | Some s => Some s
  | None => if eqs name (spec_name spec) && negb (eqs name []) then Some spec else None
  end.
Proof.
  unfold register_spec, find_spec. destruct (eqs (spec_name spec) []) eqn:E; cbn [snd].
  - apply eqs_true in E. rewrite E. destruct (mget name r); [done|]. by destruct (eqs name []).
  - destruct (mget (spec_name spec) r) eqn:Eg; cbn [snd].
    + destruct (mget name r) eqn:En; [done|]. destruct (eqs name (spec_name spec)) eqn:Ee; [|done]. apply eqs_true in Ee. congruence.
    + destruct (eqs name (spec_name spec)) eqn:Ee; cbn [andb].
      * apply eqs_true in Ee as ->. rewrite mget_mset_eq, Eg, E. done.
      * apply eqs_false in Ee. rewrite mget_mset_ne by congruence. by destruct (mget name r).
Qed.

(** The first entry of that name. *)
Definition first_named (name : bytes) (metadata : list ActionSpec) : option ActionSpec :=
  List.find (fun s => eqs name (spec_name s) && negb (eqs name [])) metadata.

Lemma registry_fold metadata : forall r, registry_ok r ->
  let r' := foldl (fun r spec => snd (register_spec spec r)) r metadata in
  registry_ok r' /\ forall name, find_spec name r' = match find_spec name r with Some s => Some s | None => first_named name metadata end.
Proof.
  induction metadata as [|spec metadata IH]; intros r Hr; cbn [foldl]; [split; [done|]; intros name; by destruct (find_spec name r)|].
  destruct (IH _ (register_ok spec r Hr)) as [Hok Hf]. split; [done|]. intros name. rewrite Hf, register_find.
  unfold first_named. cbn [List.find]. destruct (find_spec name r); [done|]. by destruct (_ && _).
Qed.

(** The registry built from any metadata finds an action exactly when some
    entry has its name, finds the first such entry, never finds an empty name,
    and lists each action once, in the order of names. *)
Theorem registry_exact metadata name :
  find_spec name (registry_of metadata) = first_named name metadata /\
  msorted (registry_of metadata) = true /\
  forall s, s ∈ list_specs (registry_of metadata) <-> first_named (spec_name s) metadata = Some s.
Proof.
  destruct (registry_fold metadata []) as [[Hs Hf] Hg]; [done|]. split; [apply Hg|]. split; [done|].
  intros s. rewrite <- (Hg (spec_name s) : find_spec (spec_name s) (registry_of metadata) = _). unfold list_specs. split.
  - intros ([k v] & -> & Hin)%list_elem_of_fmap. rewrite list.Forall_forall in Hf. destruct (Hf _ Hin) as [E _].
    cbn in E |- *. rewrite E. by apply elem_mget.
  - intros Hm%mget_elem. by apply (list_elem_of_fmap_2 snd _ (spec_name s, s)).
Qed.

(** ** Suggestions *)

#[local] Instance rank_le_total : Total rank_le.
Proof.
  intros [n a] [m b]. unfold rank_le. cbn. destruct (Nat.lt_trichotomy n m) as [H1|[H1|H1]]; auto.
  rewrite (str_compare_antisym a b). destruct (str_compare a b); cbn; auto.
Qed.
#[local] Instance rank_le_trans : Transitive rank_le.
Proof.
  intros [n a] [m b] [k c]. unfold rank_le. cbn. intros [H1|[-> H1]] [H2|[-> H2]]; auto; [left; lia|].
  right. split; [done|]. destruct (str_compare a b) eqn:E1; [|clear H1|done].
  - by apply str_compare_eq in E1 as ->.
  - destruct (str_compare b c) eqn:E2; [apply str_compare_eq in E2 as <-; by rewrite E1| |done].
    by rewrite (str_compare_lt_trans a b c).
Qed.

Definition rank (action : bytes) (s : ActionSpec) : nat * bytes := (suggestion_score action (spec_name s), spec_name s).

Lemma ranked_sorted action r : StronglySorted rank_le (ranked action r).
Proof. apply (StronglySorted_merge_sort rank_le). Qed.

(** The actions suggested for an unknown one are registered actions, three
    of them or all when there are fewer, best first, and none that is left out
    ranks before one that is suggested (the rank is the edit distance, two
    less in the same domain, and then the name). *)
Theorem suggestions_best action r : exists best rest,
  action_suggestions action r = JArray (map (fun s => JString (spec_name s)) best) /\
  best ++ rest ≡ₚ list_specs r /\ length best = Nat.min 3 (length r) /\
  StronglySorted (fun s t => rank_le (rank action s) (rank action t)) best /\
  forall s t, s ∈ best -> t ∈ rest -> rank_le (rank action s) (rank action t).
Proof.
  assert (ranked action r ≡ₚ map (rank action) (list_specs r)) as Hp by apply merge_sort_Permutation.
  apply Permutation_map_inv in Hp as (l & El & Hp). pose proof (ranked_sorted action r) as Hs.
  unfold action_suggestions. rewrite El in Hs |- *.
  assert (StronglySorted (fun s t => rank_le (rank action s) (rank action t)) l) as Hl.
  { clear -Hs. induction l as [|s l IH]; [constructor|]. cbn [map] in Hs. apply StronglySorted_inv in Hs as [Hs Ha].
    constructor; [auto|]. rewrite List.Forall_map in Ha. exact Ha. }
  exists (take 3 l), (drop 3 l). rewrite take_drop. split; [|split; [done|split]].
  - change (map (rank action) l) with (rank action <$> l). rewrite <- fmap_take. unfold fmap. by rewrite map_map.
  - rewrite length_take, <- Hp. unfold list_specs. by rewrite length_map.
  - rewrite <- (take_drop 3 l) in Hl. split; [by eapply StronglySorted_app_1_l|].
    intros s t Hs1 Ht. by eapply (StronglySorted_app_1_elem_of _ _ _ s t Hl).
Qed.

(** ** Lookups in built objects *)

Lemma mget_app {A} k (a b : list (bytes * A)) : mget k (a ++ b) = match mget k a with Some v => Some v | None => mget k b end.
Proof. induction a as [|[k' v'] a IH]; cbn [app mget]; [done|]. by destruct (eqs k k'). Qed.

Lemma mget_fresh {A} k (m : list (bytes * A)) : k ∉ map fst m -> mget k m = None.
Proof.
  intros Hk. destruct (mget k m) as [v|] eqn:E; [|done]. apply mget_elem in E. exfalso. apply Hk.
  by apply (list_elem_of_fmap_2 fst _ (k, v)).
Qed.

Lemma mfrom_fold {A} k (l m : list (bytes * A)) : NoDup (map fst l) ->
  mget k (foldl (fun m kv => mset (fst kv) (snd kv) m) m l) = match mget k l with Some v => Some v | None => mget k m end.
Proof.
  revert m. induction l as [|[k1 v1] l IH]; intros m Hn; cbn [foldl mget fst snd]; [done|].
  apply list.NoDup_cons in Hn as [Hk Hn]. rewrite (IH _ Hn). destruct (eqs k k1) eqn:E.
  - apply eqs_true in E as ->. by rewrite mget_fresh, mget_mset_eq.
  - apply eqs_false in E. by rewrite mget_mset_ne by congruence.
Qed.
Lemma mfrom_get {A} k (l : list (bytes * A)) : NoDup (map fst l) -> mget k (mfrom l) = mget k l.
Proof. intros Hn. unfold mfrom. rewrite mfrom_fold by done. by destruct (mget k l). Qed.

Lemma mfrom_keys {A} (l m : list (bytes * A)) k v :
  (k, v) ∈ foldl (fun m kv => mset (fst kv) (snd kv) m) m l -> (k, v) ∈ m \/ (k, v) ∈ l.
Proof.
  revert m. induction l as [|[k1 v1] l IH]; intros m; cbn [foldl]; [by left|].
  intros [Hin|Hin]%IH; [|right; by right]. apply mset_elem in Hin as [->|Hin]; [right; left|by left].
Qed.

Lemma oset_keys {A} k (v : A) m : map fst (oset k v m) = map fst m \/ (map fst (oset k v m) = map fst m ++ [k] /\ k ∉ map fst m).
Proof.
  induction m as [|[k1 v1] m IH]; cbn [oset map fst app].
  - right. split; [done|]. by intros ?%elem_of_nil.
  - destruct (eqs k k1) eqn:E; [by left|]. apply eqs_false in E. cbn [map fst].
    destruct IH as [->|[-> Hn]]; [by left|]. right. split; [done|]. rewrite not_elem_of_cons. done.
Qed.
Lemma oset_nodup {A} k (v : A) m : NoDup (map fst m) -> NoDup (map fst (oset k v m)).
Proof.
  intros Hn. destruct (oset_keys k v m) as [->|[-> Hk]]; [done|]. apply list.NoDup_app. split; [done|].
  split; [|apply NoDup_singleton]. intros x Hx ->%list_elem_of_singleton. done.
Qed.

Lemma redact_fold_nodup arg path (l : list (bytes * (json * bool))) : forall st, NoDup (map fst st.1) ->
  NoDup (map fst (foldl (fun st kv => redact_member arg path (fst kv) (snd kv) st) st l).1).
Proof.
  induction l as [|[k v] l IH]; intros st Hn; cbn [foldl]; [done|]. apply IH. unfold redact_member. destruct st as [out r].
  cbn [fst snd] in *. repeat case_match; cbn [fst]; auto using oset_nodup.
Qed.

(** A member that redaction neither drops nor replaces. *)
Definition benign (k : bytes) : bool :=
  negb (sensitive_diagnostic_key k) && negb (one_of k [lit "received"; lit "message"; lit "received_redacted"]).

Lemma plain_redact_get k m : benign k = true -> NoDup (map fst m) ->
  jget k (to_plain (redact_sensitive_diagnostic (JObject m))) =
  (fun v => to_plain (redact_sensitive_diagnostic v)) <$> mget k m.
Proof.
  intros Hb Hn. unfold benign, one_of in Hb. cbn [existsb] in Hb. rewrite orb_false_r, !negb_orb in Hb.
  apply andb_true_iff in Hb as [H1 Hb]. apply andb_true_iff in Hb as [H2 Hb]. apply andb_true_iff in Hb as [H3 H4].
  rewrite negb_true_iff in *. unfold redact_sensitive_diagnostic. cbn [redact_sensitive_diagnostic_value].
  set (arg := names_sensitive (lit "invalid_arg") m). set (path := names_sensitive (lit "path") m). set (l := map _ m).
  assert (NoDup (map fst l)) as Hl by (subst l; by rewrite List.map_map).
  pose proof (redact_fold_get arg path k l ([], false) H1 H2 H3 Hl) as Hg.
  pose proof (redact_fold_nodup arg path l ([], false) ltac:(constructor)) as Hd.
  destruct (foldl _ _ l) as [out r]. cbn [fst] in *.
  assert (mget k l = redact_sensitive_diagnostic_value <$> mget k m) as El.
  { subst l. clear. induction m as [|[k' v'] m IH]; [done|]. cbn [map mget fst snd]. by destruct (eqs k k'). }
  assert (forall o, NoDup (map fst o) -> mget k o = mget k out ->
    jget k (to_plain (JObject o)) = (fun v => to_plain (redact_sensitive_diagnostic_value v).1) <$> mget k m) as Ho.
  { intros o Hno Eo. unfold jget. cbn [to_plain members]. rewrite mfrom_get by (by rewrite List.map_map).
    assert (mget k (map (fun kv => (fst kv, to_plain (snd kv))) o) = to_plain <$> mget k o) as ->
      by (clear; induction o as [|[k' v'] o IH]; [done|]; cbn [map mget fst snd]; by destruct (eqs k k')).
    rewrite Eo, Hg, El. by destruct (mget k m). }
  destruct arg; cbn [fst]; apply Ho; try done; [by apply oset_nodup|]. rewrite mget_oset_ne; [done|].
  apply eqs_false in H4. congruence.
Qed.

(** ** Errors of the contract *)

Definition distinct_keys (e : json) : Prop := NoDup (map fst (members e)).
Lemma jset_distinct k v e : distinct_keys e -> distinct_keys (jset k v e).
Proof. apply oset_nodup. Qed.

Lemma contract_error_get k v e : benign k = true -> distinct_keys e -> jget k e = Some (JString v) ->
  jget k (cr_error (contract_error e)) = Some (JString v).
Proof.
  intros Hb Hd Hg. destruct e as [| | | | | | |m]; try done. cbn [contract_error cr_error].
  unfold to_json. rewrite plain_redact_get by done. unfold jget in Hg. cbn [members] in Hg. by rewrite Hg.
Qed.

(** The builder's members keep distinct keys. *)
Ltac distinct := repeat (apply jset_distinct); try (unfold distinct_keys; cbn [members map]; constructor).
Ltac code_of := apply contract_error_get; [done|distinct|]; rewrite ?jget_jset_eq; repeat (rewrite jget_jset_ne by done);
  rewrite ?jget_jset_eq; done.

Lemma strings_unchanged l : to_plain (redact_sensitive_diagnostic (JArray (map JString l))) = JArray (map JString l).
Proof.
  unfold redact_sensitive_diagnostic. cbn [redact_sensitive_diagnostic_value fst to_plain]. f_equal.
  rewrite !List.map_map. apply List.map_ext. done.
Qed.

Lemma nonempty_member_Some k j s : nonempty_member k j = Some s <-> jget k j = Some (JString s) /\ s <> [].
Proof.
  unfold nonempty_member. destruct (jget k j) as [[| | | | |[|c t]| |]|]; split; try done; try (by intros [[= <-] ?]).
  by intros [= <-].
Qed.

Lemma one_of_elem k l : one_of k l = true <-> k ∈ l.
Proof.
  unfold one_of. rewrite existsb_exists. split.
  - intros (x & Hx & ->%eqs_true). by apply list_elem_of_In.
  - intros Hk. exists k. split; [by apply list_elem_of_In|apply eqs_refl].
Qed.

Section Contract.
Context (dump : json -> bytes) (reparse : json -> bytes + json)
  (parse : bytes -> bytes + json) (repo_file_path : bytes -> bytes) (file : bytes -> option bytes).
Context {V : Type} (compile : json -> bytes + V) (run : V -> json -> bytes + list ValidationIssue).
Context (registry : PublicActionRegistry).
Local Notation check := (validate_public_request dump reparse parse repo_file_path file compile run registry).
Local Notation verdict action request st :=
  (validate_request dump reparse parse repo_file_path file compile run action request [] st).

Definition has_action (request : json) (action : bytes) : Prop :=
  is_object request = true /\ jget (lit "action") request = Some (JString action) /\ action <> [].
Definition has_version (request : json) : Prop :=
  jget (lit "api_version") request = Some (JString (lit "xdebug.v1")).
Definition known_fields (request : json) : Prop := forall k v, (k, v) ∈ members request -> k ∈ allowed_fields.
Definition error_code (r : ContractResult) (c : bytes) : Prop := jget (lit "code") (cr_error r) = Some (JString c).

(** The answer for each way a request can fail. *)
Inductive refused (request : json) (st : @Caches V) (r : ContractResult) : Prop :=
| refused_action : ~ (exists action, has_action request action) -> error_code r (lit "INVALID_REQUEST") -> refused request st r
| refused_version action : has_action request action -> ~ has_version request ->
    error_code r (lit "UNSUPPORTED_API_VERSION") -> refused request st r
| refused_unknown action : has_action request action -> has_version request -> find_spec action registry = None ->
    error_code r (lit "UNKNOWN_ACTION") -> jget (lit "available_values") (cr_error r) = Some (action_suggestions action registry) ->
    refused request st r
| refused_field action k v : has_action request action -> has_version request -> find_spec action registry <> None ->
    (k, v) ∈ members request -> k ∉ allowed_fields ->
    error_code r (lit "INVALID_REQUEST") -> jget (lit "invalid_arg") (cr_error r) = Some (JString k) -> refused request st r
| refused_schema action : has_action request action -> has_version request -> find_spec action registry <> None ->
    known_fields request -> rs_ok (fst (verdict action request st)) = false ->
    cr_error r = to_plain (rs_error (fst (verdict action request st))) -> refused request st r.

Definition accepted (request : json) (st : @Caches V) : Prop := exists action,
  has_action request action /\ has_version request /\ find_spec action registry <> None /\ known_fields request /\
  rs_ok (fst (verdict action request st)) = true.

Lemma refused_not_accepted request st r : refused request st r -> ~ accepted request st.
Proof.
  intros Hr (a & Ha & Hv & Hf & Hk & Hs).
  assert (forall b, has_action request b -> b = a) as Hu by (intros b (_ & H1 & _); destruct Ha as (_ & H2 & _); congruence).
  destruct Hr as [Hn _|b _ Hn _|b Hb _ Hn _ _|b k v _ _ _ Hin Hn _ _|b Hb _ _ _ Hn _]; try (rewrite (Hu b Hb) in *; congruence); try done.
  - apply Hn. eauto.
  - apply Hn. eauto.
Qed.

Lemma unknown_field_spec request : match unknown_field request with
  | Some (k, v) => (k, v) ∈ members request /\ k ∉ allowed_fields
  | None => known_fields request
  end.
Proof.
  unfold unknown_field. destruct (List.find _ _) as [[k v]|] eqn:E.
  - apply List.find_some in E as [Hin Hk]. split; [by apply list_elem_of_In|]. cbn [fst] in Hk.
    rewrite negb_true_iff in Hk. intros Hx%one_of_elem. congruence.
  - intros k v Hin. pose proof (List.find_none _ _ E (k, v)) as Hn. cbn [fst] in Hn. apply one_of_elem.
    apply negb_false_iff, Hn. by apply list_elem_of_In.
Qed.

Lemma check_cases request st : let r := fst (check request st) in
  (cr_ok r = true /\ accepted request st) \/ (cr_ok r = false /\ refused request st r).
Proof.
  unfold validate_public_request. destruct (is_object request) eqn:Eo; cbn [negb].
  2: { right. split; [done|]. apply refused_action; [|code_of]. intros (a & Ha & _). congruence. }
  destruct (nonempty_member (lit "action") request) as [action|] eqn:Ea.
  2: { right. split; [done|]. apply refused_action; [|code_of].
       intros (a & _ & Ha). apply nonempty_member_Some in Ha. congruence. }
  apply nonempty_member_Some in Ea. assert (has_action request action) as Ha by done.
  match goal with |- context [negb ?b] => destruct b eqn:Ev end; cbn [negb].
  2: { right. split; [done|]. apply (refused_version _ _ _ action); [done| |code_of].
       unfold has_version. intros Hv. rewrite Hv in Ev. done. }
  assert (has_version request) as Hv.
  { unfold has_version. revert Ev. destruct (jget (lit "api_version") request) as [[]|]; try done. by intros ->%eqs_true. }
  destruct (find_spec action registry) as [spec|] eqn:Ef.
  2: { right. split; [done|]. apply (refused_unknown _ _ _ action); [done..|code_of|].
       unfold with_available_values, jset. cbn [cr_error contract_error fst]. unfold to_json.
       rewrite plain_redact_get by (done || apply (jset_distinct _ _ (JObject _)); distinct).
       rewrite mget_oset_eq. cbn [fmap option_fmap option_map]. unfold action_suggestions.
       by rewrite <- List.map_map, strings_unchanged. }
  pose proof (unknown_field_spec request) as Hu. destruct (unknown_field request) as [[k v]|].
  { right. split; [done|]. destruct Hu as [Hin Hk].
    apply (refused_field _ _ _ action k v); [done..| |done|done|code_of|code_of]. congruence. }
  destruct (verdict action request st) as [r st'] eqn:Er. cbn [fst]. unfold of_validation.
  destruct (rs_ok r) eqn:Ek; [left|right]; (split; [done|]).
  - exists action. rewrite Er, Ef. done.
  - apply (refused_schema _ _ _ action); try done; rewrite ?Ef, ?Er; done.
Qed.

(** C38: a public request is accepted exactly when it is an object with an
    action, the supported version, a registered action and only the six known
    fields, and its action's schema accepts it. Otherwise it is refused with
    the code of the first of these checks that fails, with the suggestions for
    an unknown action and the name of an unknown field. *)
Theorem public_request_checked request st : let r := fst (check request st) in
  (cr_ok r = true -> accepted request st) /\ (accepted request st -> cr_ok r = true) /\
  (cr_ok r = false -> refused request st r).
Proof.
  cbn zeta. destruct (check_cases request st) as [[H1 H2]|[H1 H2]]; rewrite H1; split_and!; try done.
  intros Ha. by destruct (refused_not_accepted _ _ _ H2).
Qed.
End Contract.

(** ** The envelope *)

Definition envelope_keys : list bytes :=
  [lit "api_version"; lit "request_id"; lit "ok"; lit "action"; lit "tool"; lit "session"; lit "summary"; lit "data"] ++
  optional_fields ++ [lit "error"].

Lemma copied_keys source : map fst (copied source) `sublist_of` optional_fields.
Proof.
  unfold copied. induction optional_fields as [|k l IH]; [constructor|]. cbn [map List.concat].
  destruct (jget k source); cbn [app map fst]; by constructor.
Qed.
Lemma copied_get k source : mget k (copied source) = if one_of k optional_fields then jget k source else None.
Proof.
  unfold copied. induction optional_fields as [|k' l IH]; [done|]. cbn [map List.concat]. unfold one_of in *. cbn [existsb].
  rewrite mget_app, IH. destruct (eqs k k') eqn:E; cbn [orb].
  - apply eqs_true in E as <-. destruct (jget k source) eqn:Es; cbn [mget]; [by rewrite eqs_refl|]. by destruct (existsb _ l).
  - destruct (jget k' source); cbn [mget]; [by rewrite E|done].
Qed.

Lemma head_keys request : map fst (envelope_head request) `sublist_of` [lit "api_version"; lit "request_id"].
Proof.
  unfold envelope_head. cbn [map fst]. constructor. destruct (nonempty_member _ request); cbn; repeat constructor.
Qed.
Lemma head_get k request : mget k (envelope_head request) =
  if eqs k (lit "api_version") then Some (JString (lit "xdebug.v1"))
  else if eqs k (lit "request_id") then JString <$> nonempty_member (lit "request_id") request else None.
Proof.
  unfold envelope_head. cbn [mget]. destruct (eqs k _); [done|]. destruct (nonempty_member _ request); cbn [mget]; [done|].
  by destruct (eqs k _).
Qed.

Lemma envelope_distinct (l : list (bytes * json)) : map fst l `sublist_of` envelope_keys -> NoDup (map fst l).
Proof.
  intros Hs. eapply sublist_NoDup; [|exact Hs]. by apply (bool_decide_unpack (NoDup envelope_keys)).
Qed.

Record envelope (v : BuildVersion) (request : json) (ok : bool) (r : json) : Prop := {
  en_sorted : msorted (members r) = true;
  en_keys : forall k j, (k, j) ∈ members r -> k ∈ envelope_keys;
  en_version : jget (lit "api_version") r = Some (JString (lit "xdebug.v1"));
  en_request : jget (lit "request_id") r = JString <$> nonempty_member (lit "request_id") request;
  en_tool : jget (lit "tool") r = Some (tool_metadata v);
  en_ok : jget (lit "ok") r = Some (JBool ok);
}.

Lemma mfrom_sorted {A} (l m : list (bytes * A)) : msorted m = true ->
  msorted (foldl (fun m kv => mset (fst kv) (snd kv) m) m l) = true.
Proof. revert m. induction l as [|kv l IH]; intros m Hm; cbn [foldl]; [done|]. by apply IH, mset_sorted. Qed.

Lemma envelope_intro v request ok rest : 
  map fst rest `sublist_of` drop 2 envelope_keys ->
  mget (lit "tool") rest = Some (tool_metadata v) -> mget (lit "ok") rest = Some (JBool ok) ->
  envelope v request ok (jobj (envelope_head request ++ rest)) /\
  forall k, k ∈ drop 2 envelope_keys -> jget k (jobj (envelope_head request ++ rest)) = mget k rest.
Proof.
  intros Hk Ht Ho.
  assert (map fst (envelope_head request ++ rest) `sublist_of` envelope_keys) as Hs.
  { rewrite map_app. apply (sublist_app _ [lit "api_version"; lit "request_id"] _ (drop 2 envelope_keys)); [apply head_keys|done]. }
  pose proof (envelope_distinct _ Hs) as Hn.
  assert (forall k, k ∈ drop 2 envelope_keys -> jget k (jobj (envelope_head request ++ rest)) = mget k rest) as Hg.
  { intros k Hin. unfold jget, jobj. cbn [members]. rewrite mfrom_get, mget_app, head_get by done.
    assert (forallb (fun k => negb (eqs k (lit "api_version")) && negb (eqs k (lit "request_id"))) (drop 2 envelope_keys) = true) as Hf
      by (vm_compute; reflexivity).
    rewrite List.forallb_forall in Hf. apply list_elem_of_In, Hf in Hin. apply andb_true_iff in Hin as [H1 H2].
    rewrite negb_true_iff in H1, H2. by rewrite H1, H2. }
  split; [|done]. split; try (rewrite Hg by (apply one_of_elem; done); done).
  - by apply mfrom_sorted.
  - intros k j Hin. unfold jobj in Hin. cbn [members] in Hin. apply mfrom_keys in Hin as [[]%elem_of_nil|Hin].
    eapply elem_of_submseteq; [|by apply sublist_submseteq]. by apply (list_elem_of_fmap_2 fst _ (k, j)).
  - unfold jget, jobj. cbn [members]. by rewrite mfrom_get, mget_app, head_get by done.
  - unfold jget, jobj. cbn [members]. rewrite mfrom_get, mget_app, head_get by done.
    change (eqs (lit "request_id") (lit "api_version")) with false. change (eqs (lit "request_id") (lit "request_id")) with true.
    cbn match. rewrite (mget_fresh _ rest); [by destruct (nonempty_member _ request)|]. intros Hin.
    eapply elem_of_submseteq in Hin; [|by apply sublist_submseteq]. by apply one_of_elem in Hin.
Qed.

(** [j.value(key, fallback)] without a conversion. *)
Definition member_or (k : bytes) (fallback : json) (j : json) : json := default fallback (jget k j).
Lemma value_or_Ret k fallback j v : value_or Ret k fallback j = Ret v -> v = member_or k fallback j.
Proof. unfold member_or, jget. destruct j; try done. cbn. destruct (mget k members); by intros [= <-]. Qed.

Lemma as_string_Ret k d j s : value_or as_string k d j = Ret s -> jcontains k j = true -> jget k j = Some (JString s).
Proof.
  unfold jcontains, jget. destruct j; try done. cbn. destruct (mget k members) as [[]|]; try done. by intros [= <-].
Qed.

Lemma canonical_error_envelope v request action error r : canonical_error v request action error = Ret r ->
  envelope v request false r /\ jget (lit "session") r = Some JNull /\ jget (lit "data") r = Some JNull /\
  jget (lit "action") r = Some (JString (match action with [] => lit "error" | _ => action end)) /\
  exists e c, jget (lit "error") r = Some e /\ e = to_plain (normalize_diagnostic_error error (lit "handler")) /\
    value_or as_string (lit "code") (lit "ACTION_FAILED") e = Ret c /\
    jget (lit "summary") r = Some (jobj [(lit "status", JString (lit "error")); (lit "error_code", JString c)]).
Proof.
  unfold canonical_error. set (e := to_plain _). destruct (value_or as_string _ _ e) as [c| |w] eqn:Ec; [|done..].
  cbn [mbind res_bind]. intros <-%Ret_inj. clearbody e.
  match goal with |- envelope _ _ _ (jobj (_ ++ ?l)) /\ _ => destruct (envelope_intro v request false l) as [He Hg] end; [|done|done|].
  { cbn [map fst]. repeat first [apply sublist_skip | apply sublist_cons | apply sublist_nil]. }
  split; [done|]. rewrite !Hg by (apply one_of_elem; done). split_and!; try done. exists e, c. done.
Qed.

(** What a successful response carries over from the handler. *)
Record carries (handler_response r : json) : Prop := {
  ca_session : jget (lit "session") r = Some (member_or (lit "session") JNull handler_response);
  ca_summaries : jget (lit "summary") r = Some (member_or (lit "summary") (JObject []) handler_response);
  ca_payload : jget (lit "data") r = Some (member_or (lit "data") (JObject []) handler_response);
  ca_no_error : jget (lit "error") r = Some JNull;
  ca_optional : forall k, k ∈ optional_fields -> jget k r = jget k handler_response;
}.

(** Every response has the canonical envelope: only its known members, the
    protocol version, the tool, the identifier of the request when that is a
    string that is not empty, and the handler's verdict. A success carries the
    handler's session, summary, data and optional members unchanged and a null
    error; a failure carries the normalized error, its code in the summary and
    no data. *)
Theorem canonical_envelope v request action handler_response r :
  canonical_response v request action handler_response = Ret r ->
  exists ok, value_or as_bool (lit "ok") false handler_response = Ret ok /\ envelope v request ok r /\
    match ok with
    | true => jget (lit "action") r = Some (JString action) /\ carries handler_response r
    | false => jget (lit "data") r = Some JNull /\ exists e c, jget (lit "error") r = Some e /\
        e = to_plain (normalize_diagnostic_error (member_or (lit "error") (JObject []) handler_response) (lit "handler")) /\
        value_or as_string (lit "code") (lit "ACTION_FAILED") e = Ret c /\
        jget (lit "summary") r = Some (jobj [(lit "status", JString (lit "error")); (lit "error_code", JString c)])
    end.
Proof.
  unfold canonical_response. destruct (value_or as_bool _ _ _) as [[]| |w]; [| |done..]; cbn [mbind res_bind]; intros Hr.
  - exists true. split; [done|].
    destruct (value_or Ret (lit "session") _ _) as [s| |w] eqn:Es; [|done..]. cbn [mbind res_bind] in Hr.
    destruct (value_or Ret (lit "summary") _ _) as [sum| |w] eqn:Eu; [|done..]. cbn [mbind res_bind] in Hr.
    destruct (value_or Ret (lit "data") _ _) as [d| |w] eqn:Ed; [|done..]. cbn [mbind res_bind] in Hr. apply Ret_inj in Hr as <-.
    apply value_or_Ret in Es as ->, Eu as ->, Ed as ->.
    match goal with |- envelope _ _ _ (jobj (_ ++ ?l)) /\ _ => destruct (envelope_intro v request true l) as [He Hg] end; [|done|done|].
    { cbn [map app fst]. do 6 apply sublist_skip. rewrite map_app. apply sublist_app; [apply copied_keys|done]. }
    split; [done|]. split; [rewrite Hg by (by apply one_of_elem); done|].
    split; [rewrite Hg by (by apply one_of_elem); done..| |].
    + rewrite Hg by (by apply one_of_elem). rewrite !mget_app, copied_get. done.
    + intros k Hk. unfold optional_fields in Hk. rewrite !elem_of_cons, elem_of_nil in Hk.
      destruct Hk as [->|[->|[->|[->|[]]]]]; (rewrite Hg by (by apply one_of_elem); rewrite !mget_app, copied_get;
        match goal with |- context [one_of ?a ?b] => change (one_of a b) with true end; cbn match; by destruct (jget _ _)).
  - exists false. split; [done|]. destruct (value_or Ret _ _ _) as [e| |w] eqn:Ee; [|done..]. cbn [mbind res_bind] in Hr.
    apply value_or_Ret in Ee as ->. apply canonical_error_envelope in Hr as (H1 & _ & H2 & _ & H3). done.
Qed.

Definition sample_build : BuildVersion := MkBuild (lit "1.0") (lit "abc") (lit "s").
Definition sample_reply : json := jobj [(lit "ok", JBool true); (lit "data", jobj [(lit "n", JUint 1)])].

Lemma canonical_envelope_witness : exists r, canonical_response sample_build (jobj [(lit "request_id", JString (lit "r1"))])
    (lit "actions") sample_reply = Ret r /\ envelope sample_build (jobj [(lit "request_id", JString (lit "r1"))]) true r /\
  carries sample_reply r.
Proof.
  eexists. split; [reflexivity|].
  match goal with |- envelope ?v ?q _ ?r /\ _ =>
    destruct (canonical_envelope v q (lit "actions") sample_reply r eq_refl) as (ok & Hok & He & Hc) end.
  injection Hok as <-. split; [exact He|]. apply Hc.
Defined.

(** ** The catalogue *)

Definition kept_spec (filter : json) (s : ActionSpec) : bool :=
  match matches s filter with Ret b => b | _ => false end.
Definition mode_names (category : bytes) (modes : list (bytes * json)) : list json :=
  match mget category modes with Some (JArray l) => l | _ => [] end.
Definition in_category (category : bytes) (s : ActionSpec) : bool := eqs category (spec_category s).
Definition name_json (s : ActionSpec) : json := JString (spec_name s).

Lemma push_mode_names spec modes modes' category : push_mode spec modes = Ret modes' ->
  mode_names category modes' = mode_names category modes ++ (if in_category category spec then [name_json spec] else []).
Proof.
  unfold push_mode, mode_names, in_category.
  assert (forall l, mget category (mset (spec_category spec) l modes) =
    if eqs category (spec_category spec) then Some l else mget category modes) as Hs.
  { intros l. destruct (eqs category (spec_category spec)) eqn:E.
    - apply eqs_true in E as ->. apply mget_mset_eq.
    - apply eqs_false in E. rewrite mget_mset_ne by congruence. done. }
  destruct (eqs category (spec_category spec)) eqn:E.
  - apply eqs_true in E as ->. destruct (mget _ modes) as [[]|]; try done; intros <-%Ret_inj; by rewrite Hs.
  - rewrite app_nil_r. destruct (mget (spec_category spec) modes) as [[]|]; try done; intros <-%Ret_inj; by rewrite Hs.
Qed.

Lemma collect_exact verbose filter specs : forall actions modes actions' modes',
  collect_actions verbose filter specs actions modes = Ret (actions', modes') ->
  let kept := List.filter (kept_spec filter) specs in
  actions' = actions ++ map (fun s => if verbose then action_spec_descriptor s else name_json s) kept /\
  forall category, mode_names category modes' = mode_names category modes ++ map name_json (List.filter (in_category category) kept).
Proof.
  induction specs as [|spec specs IH]; intros actions modes actions' modes'; cbn [collect_actions List.filter].
  { intros [= <- <-]. rewrite app_nil_r. split; [done|]. intros category. by rewrite app_nil_r. }
  assert (kept_spec filter spec = match matches spec filter with Ret b => b | _ => false end) as -> by done.
  destruct (matches spec filter) as [[]| |w]; [| |done..]; cbn [mbind res_bind].
  - destruct (push_mode spec modes) as [modes1| |w] eqn:Ep; [|done..]. cbn [mbind res_bind]. intros Hr.
    apply IH in Hr as [-> Hm]. rewrite <- app_assoc. split; [done|]. intros category.
    rewrite Hm, (push_mode_names _ _ _ category Ep). cbn [List.filter].
    destruct (in_category category spec); cbn [map app]; [by rewrite <- app_assoc|by rewrite app_nil_r].
  - apply IH.
Qed.

Lemma empty_mode category : mode_names category empty_modes = [].
Proof.
  unfold mode_names, empty_modes. rewrite mfrom_get by (by apply (bool_decide_unpack (NoDup _))).
  generalize [lit "design"; lit "waveform"; lit "combined"; lit "builtin"; lit "session"]. intros l.
  induction l as [|k l IH]; [done|]. cbn [map mget]. by destruct (eqs category k).
Qed.

(** The catalogue of actions lists exactly the registered actions that
    match the filter, in the order of names, each once in the list and once
    under its category, and counts them. *)
Theorem catalog_exact registry args c : build_actions_catalog registry args = Ret c ->
  exists (verbose : bool) (actions : list json) (modes : list (bytes * json)), ca_ok c = true /\
    let kept := List.filter (kept_spec (member_or (lit "filter") (JObject []) args)) (list_specs registry) in
    jget (lit "actions") (ca_data c) = Some (JArray actions) /\ jget (lit "modes") (ca_data c) = Some (JObject modes) /\
    actions = map (fun s => if verbose then action_spec_descriptor s else name_json s) kept /\
    jget (lit "action_count") (ca_summary c) = Some (JUint (zlen kept)) /\
    jget (lit "total_action_count") (ca_summary c) = Some (JUint (zlen (list_specs registry))) /\
    forall category, mode_names category modes = map name_json (List.filter (in_category category) kept).
Proof.
  unfold build_actions_catalog. destruct (value_or Ret (lit "filter") _ _) as [filter| |w] eqn:Ef; [|done..]. cbn [mbind res_bind].
  destruct (value_or Ret (lit "output") _ _) as [output| |w]; [|done..]. cbn [mbind res_bind].
  destruct (value_or as_bool _ _ output) as [verbose| |w]; [|done..]. cbn [mbind res_bind].
  destruct (collect_actions _ _ _ _ _) as [[actions modes]| |w] eqn:Ec; [|done..]. cbn [mbind res_bind]. intros <-%Ret_inj.
  apply value_or_Ret in Ef as ->. apply collect_exact in Ec as [-> Hm].
  eexists verbose, _, modes. split; [done|]. cbn zeta. cbn [ca_data ca_summary]. split_and!; try done.
  - unfold jget, jobj. cbn [members]. rewrite mfrom_get by (by apply (bool_decide_unpack (NoDup _))). cbn [mget].
    rewrite eqs_refl. do 2 f_equal. unfold zlen. cbn [app]. f_equal. apply List.length_map.
  - intros category. by rewrite Hm, empty_mode.
Qed.

Definition sample_spec (name category : bytes) : ActionSpec :=
  MkSpec name category Stable RWaveform [] (lit "engine_forward") (MkArgs [] []) [] [] [] [] [] [] [] [] [] (JArray []) [].
Definition sample_registry : PublicActionRegistry :=
  registry_of [sample_spec (lit "wave.b") (lit "waveform"); sample_spec (lit "actions") (lit "builtin");
               sample_spec (lit "wave.a") (lit "waveform")].

Lemma catalog_exact_witness : exists c modes, build_actions_catalog sample_registry (jobj [(lit "filter",
    jobj [(lit "keyword", JString (lit "WAVE"))])]) = Ret c /\ jget (lit "modes") (ca_data c) = Some (JObject modes) /\
  mode_names (lit "waveform") modes = [JString (lit "wave.a"); JString (lit "wave.b")].
Proof.
  eexists. match goal with |- exists modes, ?f = Ret ?c /\ _ => assert (f = Ret c) as E by (vm_compute; reflexivity) end.
  destruct (catalog_exact _ _ _ E) as (verbose & actions & modes & _ & _ & Hm & _ & _ & _ & Hc).
  exists modes. split; [exact E|]. split; [exact Hm|]. rewrite (Hc (lit "waveform")). vm_compute. reflexivity.
Defined.
