(* ===== verification/Stream.v ===== *)
(** * Stream: valid/ready streams of a waveform

    Models the configurations, the expressions and the sampling of
    [src/engine/actions/stream/stream_actions.cpp]: a stream names a clock,
    a valid and optional flow-control, packet-boundary, data and channel
    expressions; [scan_stream_samples] evaluates them at the selected clock
    edges and decides at each whether a beat is transferred or stalled. The
    actions are in [StreamQuery]. *)

From S2P Require Import Prelude CLib Json LogicValue ExprParser Waveform ExprEval ClockSampling DesignIndex SessionTypes Engine Apb.

Open Scope Z_scope.

(** ** Configurations *)

(** The window and [active_high] of the source are never read. *)
Record StreamConfig := MkStreamConfig {
  stc_name : bytes;
  stc_source : json;
  stc_signals : list (bytes * bytes);
  stc_clock : bytes;
  stc_valid : bytes;
  stc_ready : bytes;
  stc_backpressure : bytes;
  stc_data : bytes;
  stc_edge : bytes;
  stc_sample_point : bytes;
  stc_reset : bytes;
  stc_reset_polarity : bytes;
  stc_sop : bytes;
  stc_eop : bytes;
  stc_beat_fields : json;
  stc_packet_stable_fields : json;
  stc_channel_id : bytes;
  stc_channel_id_valid : bytes;
  stc_allow_interleaving : bool;
}.

Definition packet_enabled (c : StreamConfig) : bool := negb (eqs (stc_sop c) []) && negb (eqs (stc_eop c) []).

(** ** Levels *)

Definition xz_char (c : ascii) : bool := eqc c "x" || eqc c "X" || eqc c "z" || eqc c "Z".

Definition is_high (bits : bytes) : bool :=
  if eqs bits [] then false
  else if existsb xz_char bits then false
  else existsb (fun c => negb (eqc c "0")) bits.

Definition is_known_binary (bits : bytes) : bool :=
  if eqs bits [] then false else forallb (fun bit => negb (negb (eqc bit "0") && negb (eqc bit "1"))) bits.

(** ** Responses *)

Definition action_error (err_code message : bytes) : json :=
  jobj [(lit "ok", JBool false);
        (lit "error", jobj [(lit "code", JString err_code); (lit "message", JString message)])].

Definition invalid_stream_config_error (message : bytes) : json :=
  jobj [(lit "ok", JBool false); (lit "error", jobj [
    (lit "code", JString (lit "INVALID_ARGUMENT"));
    (lit "message", JString message);
    (lit "invalid_arg", JString (lit "args.config.streams"));
    (lit "expected", JString (lit "stream config with signals map and alias-based clock/vld/data fields"));
    (lit "error_layer", JString (lit "handler"));
    (lit "recoverable", JBool true);
    (lit "example_note", JString (lit "Example only; stream config fields must reference aliases, not raw signal paths."));
    (lit "correct_example", jobj [
      (lit "api_version", JString (lit "xdebug.v1"));
      (lit "action", JString (lit "stream.config.load"));
      (lit "args", jobj [(lit "config", jobj [(lit "streams", JArray [jobj [
         (lit "name", JString (lit "req_stream"));
         (lit "signals", jobj [(lit "clk", JString (lit "top.u.clk")); (lit "req_data", JString (lit "top.u.req_data"));
                               (lit "req_vld", JString (lit "top.u.req_vld"))]);
         (lit "clock", JString (lit "clk"));
         (lit "vld", JString (lit "req_vld"));
         (lit "data", JString (lit "req_data"))]])])]);
      (lit "target", jobj [(lit "session_id", JString (lit "case_a"))])])])].

(** [Json::items()]: an array has its indices as keys, a scalar the empty
    key. *)
Definition json_entries (j : json) : list (bytes * json) :=
  match j with
  | JObject m => m
  | JArray l => imap (fun i v => (udec (Z.of_nat i), v)) l
  | JNull => []
  | _ => [([], j)]
  end.

(** ** Reading a configuration *)

(** Each identifier that is an alias is replaced by its path. *)
Fixpoint resolve_loop (fuel : nat) (signals : list (bytes * bytes)) (s : bytes) : bytes :=
  match fuel, s with
  | S fuel', c :: s' =>
      if id_start c then
        let '(tail, rest) := span id_char s' in
        let token := c :: tail in
        default token (mget token signals) ++ resolve_loop fuel' signals rest
      else c :: resolve_loop fuel' signals s'
  | _, _ => []
  end.
Definition resolve_field_expression (expression : bytes) (signals : list (bytes * bytes)) : bytes :=
  resolve_loop (length expression) signals expression.

(** [get<std::map<std::string, std::string>>()] *)
Fixpoint string_members (m : list (bytes * json)) : res (list (bytes * bytes)) :=
  match m with
  | [] => Ret []
  | (k, v) :: m' => s ← as_string v; rest ← string_members m'; Ret ((k, s) :: rest)
  end.
Definition as_string_map (j : json) : res (list (bytes * bytes)) :=
  match j with JObject m => string_members m | _ => Throw "type_error.302" end.

Definition resolved_expression (input : json) (signals : list (bytes * bytes)) (k : bytes) : res bytes :=
  if jcontains k input then e ← string_at_key k input; Ret (resolve_field_expression e signals) else Ret [].

(** The two checks on packet boundaries; the message when one fails. *)
Definition packet_rules_error (name sop eop channel_id channel_id_valid : bytes) (allow_interleaving : bool) : option bytes :=
  if xorb (eqs sop []) (eqs eop [])
  then Some (lit "stream " ++ name ++ lit " requires sop and eop to be configured together")
  else if negb allow_interleaving then None
  else if eqs sop [] then Some (lit "stream " ++ name ++ lit " allow_interleaving requires sop/eop")
  else if eqs channel_id [] then Some (lit "stream " ++ name ++ lit " allow_interleaving requires channel_id")
  else if negb (eqs channel_id_valid (lit "every_beat"))
  then Some (lit "stream " ++ name ++ lit " allow_interleaving requires channel_id_valid=every_beat")
  else None.

(** The data expression: the configured one, or the alias of the beat field
    named data. *)
Definition data_expression (input : json) (signals : list (bytes * bytes)) (beat_fields : json) : res bytes :=
  if jcontains (lit "data") input then resolved_expression input signals (lit "data")
  else match jget (lit "data") beat_fields with
       | Some (JString alias) => Ret (default [] (mget alias signals))
       | _ => Ret []
       end.

Definition normalized_source (input : json) (edge sample_point channel_id_valid : bytes) (allow_interleaving : bool) : json :=
  let source := set_key (lit "edge") (JString edge) input in
  let source := if negb (eqs edge (lit "negedge")) then set_key (lit "sample_point") (JString sample_point) source else source in
  set_key (lit "allow_interleaving") (JBool allow_interleaving)
    (set_key (lit "channel_id_valid") (JString channel_id_valid) source).

(** [inl] is the message of a refused configuration. *)
Definition parse_stream (input : json) : res (bytes + StreamConfig) :=
  name ← string_at_key (lit "name") input;
  source_signals ← at_key (lit "signals") input;
  signals ← as_string_map source_signals;
  clock ← resolved_expression input signals (lit "clock");
  valid ← resolved_expression input signals (lit "vld");
  ready ← resolved_expression input signals (lit "rdy");
  backpressure ← resolved_expression input signals (lit "bp");
  sop ← resolved_expression input signals (lit "sop");
  eop ← resolved_expression input signals (lit "eop");
  edge ← value_or as_string (lit "edge") (lit "posedge") input;
  sample_point ← value_or as_string (lit "sample_point") (if eqs edge (lit "negedge") then [] else lit "before") input;
  reset ← (if jcontains (lit "reset") input
           then r ← at_key (lit "reset") input; signal ← string_at_key (lit "signal") r;
                polarity ← string_at_key (lit "polarity") r; Ret (signal, polarity)
           else Ret ([], []));
  beat_fields ← value_or Ret (lit "beat_fields") (JObject []) input;
  packet_stable_fields ← value_or Ret (lit "packet_stable_fields") (JObject []) input;
  channel_id ← resolved_expression input signals (lit "channel_id");
  channel_id_valid ← value_or as_string (lit "channel_id_valid") (lit "every_beat") input;
  allow_interleaving ← value_or as_bool (lit "allow_interleaving") false input;
  if eqs clock [] || eqs valid [] || (jcontains (lit "rdy") input && eqs ready [])
     || (jcontains (lit "bp") input && eqs backpressure [])
  then Ret (inl (lit "stream clock/vld/flow-control alias is missing from signals"))
  else
    data ← data_expression input signals beat_fields;
    Ret (match packet_rules_error name sop eop channel_id channel_id_valid allow_interleaving with
         | Some message => inl message
         | None =>
             inr (MkStreamConfig name (normalized_source input edge sample_point channel_id_valid allow_interleaving)
                    signals clock valid ready backpressure data edge sample_point (fst reset) (snd reset) sop eop
                    beat_fields packet_stable_fields channel_id channel_id_valid allow_interleaving)
         end).

Definition stream_handshake (c : StreamConfig) : bytes :=
  if negb (eqs (stc_ready c) []) && negb (eqs (stc_backpressure c) []) then lit "vld/rdy/bp"
  else if negb (eqs (stc_ready c) []) then lit "vld/rdy"
  else if negb (eqs (stc_backpressure c) []) then lit "vld/bp"
  else lit "vld".

Definition stream_recommendations : json :=
  JArray [
    jobj [(lit "action", JString (lit "value.at"));
          (lit "purpose", JString (lit "按一个或多个指定时间读取单信号、命名信号列表或接口配置维护的值。"))];
    jobj [(lit "action", JString (lit "stream.describe")); (lit "purpose", JString (lit "显示 stream 定义和摘要。"))];
    jobj [(lit "action", JString (lit "stream.validate"));
          (lit "purpose", JString (lit "验证 stream 配置；动态验证可显式选择 full 或 range 基础分析缓存范围。"))];
    jobj [(lit "action", JString (lit "stream.query"));
          (lit "purpose", JString (lit "查询通用 valid-ready transfer、stall 或 packet，并对多个自定义字段执行 exact、range 或 mask 过滤。"))];
    jobj [(lit "action", JString (lit "stream.export"));
          (lit "purpose", JString (lit "从显式 full 或 range 基础分析缓存范围导出 stream 查询结果。"))]].

(** ** Samples *)

Record StreamSample := MkStreamSample {
  ssm_cycle : Z;
  ssm_time_idx : Z;
  ssm_time : Z;
  ssm_vld : bool;
  ssm_rdy : bool;
  ssm_bp : bool;
  ssm_sop : bool;
  ssm_eop : bool;
  ssm_transfer : bool;
  ssm_stall : bool;
  ssm_control_known : bool;
  ssm_data_known : bool;
  ssm_ready_bp_conflict : bool;
  ssm_fields : json;
  ssm_packet_stable_fields : json;
  ssm_channel_id : json;
  ssm_packet_index : Z;
  ssm_beat_index : Z;
}.

(** [StreamSample sample;] with the cycle, index and time set. *)
Definition new_sample (cycle time_idx time : Z) : StreamSample :=
  MkStreamSample cycle time_idx time false false false false false false false true true false
    (JObject []) (JObject []) JNull (-1) 0.

Record CompiledStreamExpressions := MkCompiled {
  ce_clock : option ExprNode;
  ce_valid : option ExprNode;
  ce_ready : option ExprNode;
  ce_backpressure : option ExprNode;
  ce_sop : option ExprNode;
  ce_eop : option ExprNode;
  ce_data : option ExprNode;
  ce_channel_id : option ExprNode;
  clock_dependencies : list Z;
}.

Definition configured {A} (e : option A) : bool := match e with Some _ => true | None => false end.

(** The control bits read at one edge, and for an observation after the edge
    the levels of valid and ready before it. *)
Record ControlBits := MkControlBits {
  cb_vld : bytes; cb_rdy : bytes; cb_bp : bytes; cb_sop : bytes; cb_eop : bytes;
  cb_before : option (bool * bool);
}.

(** The sample the control bits decide, before its fields are read. *)
Definition control_sample (e : CompiledStreamExpressions) (b : ControlBits) (s : StreamSample) : StreamSample :=
  let control_known := is_known_binary (cb_vld b) && is_known_binary (cb_rdy b) && is_known_binary (cb_bp b)
                       && is_known_binary (cb_sop b) && is_known_binary (cb_eop b) in
  let conflict := configured (ce_ready e) && configured (ce_backpressure e) && is_high (cb_rdy b) && is_high (cb_bp b) in
  let vld_now := is_high (cb_vld b) in
  let rdy_now := configured (ce_ready e) && is_high (cb_rdy b) in
  let bp := configured (ce_backpressure e) && is_high (cb_bp b) in
  let ready := (negb (configured (ce_ready e)) || rdy_now) && negb bp in
  let transfer := vld_now && ready in
  let rdy := if configured (ce_ready e) then rdy_now else true in
  let '(vld, rdy, transfer) :=
    match cb_before b with
    | None => (vld_now, rdy, transfer)
    | Some (vld_before, rdy_before) =>
        let transfer := transfer || (vld_now && negb vld_before && rdy_before)
                        || (rdy_now && negb rdy_before && vld_before) in
        (transfer || vld_now, transfer || rdy_now, transfer)
    end in
  MkStreamSample (ssm_cycle s) (ssm_time_idx s) (ssm_time s) vld rdy bp
    (transfer && configured (ce_sop e) && is_high (cb_sop b)) (transfer && configured (ce_eop e) && is_high (cb_eop b))
    transfer (vld && negb ready) control_known (ssm_data_known s) conflict (ssm_fields s) (ssm_packet_stable_fields s)
    (ssm_channel_id s) (ssm_packet_index s) (ssm_beat_index s).

Definition with_fields (fields stable channel_id : json) (data_known : bool) (s : StreamSample) : StreamSample :=
  MkStreamSample (ssm_cycle s) (ssm_time_idx s) (ssm_time s) (ssm_vld s) (ssm_rdy s) (ssm_bp s) (ssm_sop s) (ssm_eop s)
    (ssm_transfer s) (ssm_stall s) (ssm_control_known s) data_known (ssm_ready_bp_conflict s) fields stable channel_id
    (ssm_packet_index s) (ssm_beat_index s).

Definition stream_point (c : StreamConfig) : ObservationPoint :=
  if eqs (stc_edge c) (lit "negedge") then Raw
  else if eqs (stc_sample_point c) (lit "after") then After else Before.

(** ** Field expressions *)

Definition blank (c : ascii) : bool := eqc c " " || eqc c (chr 9).
Definition trim_blanks (s : bytes) : bytes := rev (snd (span blank (rev (snd (span blank s))))).

(** The text between the braces, when the text starts with one and ends with
    one. *)
Definition braced (text : bytes) : option bytes :=
  match text with
  | c :: rest =>
      if eqc c "{" && bool_decide (list.last text = Some "}"%char) then Some (take (length text - 2) rest) else None
  | [] => None
  end.

(** The parts between commas outside square brackets. *)
Fixpoint split_parts (square_depth : Z) (part s : bytes) : list bytes :=
  match s with
  | [] => [part]
  | c :: s' =>
      let square_depth := if eqc c "[" then square_depth + 1 else square_depth in
      let square_depth := if eqc c "]" then square_depth - 1 else square_depth in
      if eqc c "," && (square_depth =? 0) then part :: split_parts square_depth [] s'
      else split_parts square_depth (part ++ [c]) s'
  end.

(** ** Operations on the waveform *)

Section Wave.
Context {W : Type} `{EngineWave W}.

(** A throwing evaluation keeps the state it started from: the lookups made
    before it are not recorded. *)
Definition eval_at (e : ExprNode) (time_idx : Z) (point : ObservationPoint) : act W LogicValue := fun w =>
  match eval_expression e w time_idx None point with
  | Ret (v, w', _) => (Ret v, w')
  | UB => (UB, w)
  | Throw what => (Throw what, w)
  end.

Definition sampled_signal_bits_at (w : W) (ref ti : Z) (point : ObservationPoint) : bytes :=
  if ref =? 0 then []
  else match sb_sampled_value_at w ref ti point with Some sampled => text (sv_value sampled) | None => [] end.

Definition load_signal (name : bytes) : act W Z := fun w =>
  let '(ref, w) := ew_find_signal w name in
  if ref =? 0 then (Ret 0, w)
  else (Ret ref, if ew_is_loaded w ref then w else snd (ew_load_signals w [ref])).

(** One entry of a validation, and whether it is fine. *)
Definition validate_signal (item : bytes * bytes) : act W (json * bool) := fun w =>
  let '(ref, w) := ew_find_signal w (snd item) in
  let signal := jobj [(lit "alias", JString (fst item)); (lit "requested_path", JString (snd item))] in
  let missing := set_key (lit "status") (JString (lit "signal_not_found")) signal in
  if ref =? 0 then (Ret (missing, false), w)
  else
    let w := if ew_is_loaded w ref then w else snd (ew_load_signals w [ref]) in
    match ew_signal_info w ref with
    | None => (Ret (missing, false), w)
    | Some info =>
        (Ret (set_key (lit "width") (JUint (si_width info)) (set_key (lit "resolved_path") (JString (snd item))
                (set_key (lit "status") (JString (lit "ok")) signal)), true), w)
    end.

Fixpoint validate_signals (items : list (bytes * bytes)) : act W (list json * bool) :=
  match items with
  | [] => mret ([], true)
  | item :: items' =>
      first ← validate_signal item;
      rest ← validate_signals items';
      mret (fst first :: fst rest, snd first && snd rest)
  end.

(** The report, and its status. *)
Definition validate_stream (c : StreamConfig) (include_stream : bool) : act W (json * bool) :=
  signals ← validate_signals (stc_signals c);
  clock ← lift (at_key (lit "clock") (stc_source c));
  let ok : bool := snd signals in
  let result := jobj [
    (lit "status", JString (if ok then lit "ok" else lit "error")); (lit "signals", JArray (fst signals));
    (lit "sampling", jobj [(lit "clock", clock); (lit "edge", JString (stc_edge c));
       (lit "sample_point", if eqs (stc_edge c) (lit "negedge") then JNull else JString (stc_sample_point c))]);
    (lit "packet_rules", jobj [(lit "packet_enabled", JBool (packet_enabled c));
       (lit "channel_id_valid", JString (stc_channel_id_valid c));
       (lit "allow_interleaving", JBool (stc_allow_interleaving c))])] in
  mret (if include_stream then set_key (lit "stream") (JString (stc_name c)) result else result, ok).

(** *** Compiling *)

Fixpoint load_signals_of (label : bytes) (signals : list bytes) : trial bytes W unit :=
  match signals with
  | [] => mret tt
  | signal :: signals' =>
      ref ← run_step (load_signal signal);
      if ref =? 0 then stop (lit "signal not found for " ++ label ++ lit ": " ++ signal)
      else load_signals_of label signals'
  end.

Definition compile_stream_expression (label expression : bytes) : trial bytes W (option ExprNode) :=
  if eqs expression [] then mret None
  else
    match parse_expression expression with
    | POk (None, message) => stop (label ++ lit " expression parse failed: " ++ message)
    | POk (Some root, _) => _ ← load_signals_of label (expression_signals root); mret (Some root)
    | PUB => pure_step UB
    | PFuel => pure_step (Throw "unreachable")
    end.

Fixpoint load_dependencies (signals : list bytes) : act W (list Z) :=
  match signals with
  | [] => mret []
  | signal :: signals' =>
      ref ← load_signal signal;
      rest ← load_dependencies signals';
      mret (if ref =? 0 then rest else ref :: rest)
  end.

Definition compile_stream_expressions (c : StreamConfig) : trial bytes W CompiledStreamExpressions :=
  clock ← compile_stream_expression (lit "clock") (stc_clock c);
  valid ← compile_stream_expression (lit "vld") (stc_valid c);
  ready ← compile_stream_expression (lit "rdy") (stc_ready c);
  backpressure ← compile_stream_expression (lit "bp") (stc_backpressure c);
  sop ← compile_stream_expression (lit "sop") (stc_sop c);
  eop ← compile_stream_expression (lit "eop") (stc_eop c);
  data ← compile_stream_expression (lit "data") (stc_data c);
  channel_id ← compile_stream_expression (lit "channel_id") (stc_channel_id c);
  match clock, valid with
  | Some clock_root, Some _ =>
      dependencies ← run_step (load_dependencies (expression_signals clock_root));
      match dependencies with
      | [] => stop (lit "clock expression has no waveform dependency")
      | _ => mret (MkCompiled clock valid ready backpressure sop eop data channel_id dependencies)
      end
  | _, _ => stop (lit "stream clock and vld expressions are required")
  end.

(** *** Fields *)

(** The joined bits of the parts; [None] when one fails. *)
Fixpoint parts_bits (evaluate : bytes -> act W (option LogicValue)) (parts : list bytes) : act W (option bytes) :=
  match parts with
  | [] => mret (Some [])
  | item :: parts' =>
      component ← evaluate item;
      match component with
      | None => mret None
      | Some v => rest ← parts_bits evaluate parts'; mret ((fun bs => bits v ++ bs) <$> rest)
      end
  end.

(** [None] is the [false] return. *)
Fixpoint evaluate_field (fuel : nat) (signals : list (bytes * bytes)) (time_idx : Z) (point : ObservationPoint)
    (expression : bytes) : act W (option LogicValue) :=
  match fuel with
  | O => lift (Throw "unreachable")
  | S fuel' =>
      let text := trim_blanks expression in
      if eqs text [] then mret None
      else
        match braced text with
        | Some inner =>
            joined ← parts_bits (evaluate_field fuel' signals time_idx point) (split_parts 0 [] inner);
            mret ((fun bs => logic_value_from_bits bs (i32 (zlen bs))) <$> joined)
        | None =>
            match parse_expression (resolve_field_expression text signals) with
            | POk (None, _) => mret None
            | POk (Some root, _) =>
                value ← eval_at root time_idx point;
                mret (if eqs (bits value) [] then None else Some value)
            | PUB => lift UB
            | PFuel => lift (Throw "unreachable")
            end
        end
  end.
Definition evaluate_field_expression (expression : bytes) (c : StreamConfig) (time_idx : Z) (point : ObservationPoint)
    : act W (option LogicValue) :=
  evaluate_field (S (length expression)) (stc_signals c) time_idx point expression.

Definition expression_bits_at (e : option ExprNode) (time_idx : Z) (point : ObservationPoint) (default_bits : bytes)
    : act W bytes :=
  match e with
  | None => mret default_bits
  | Some root => v ← eval_at root time_idx point; mret (bits v)
  end.

(** The value, and whether [complete] is left alone. *)
Definition expression_json_at (e : option ExprNode) (time_idx : Z) (point : ObservationPoint) (format : ValueRenderFormat)
    : act W (json * bool) :=
  match e with
  | None => mret (JNull, true)
  | Some root =>
      value ← eval_at root time_idx point;
      mret (if eqs (bits value) [] then (JNull, false) else (logic_value_json value format, true))
  end.

(** [fields[key] = value] for each field that evaluates. *)
Fixpoint evaluate_fields (c : StreamConfig) (time_idx : Z) (point : ObservationPoint) (format : ValueRenderFormat)
    (items : list (bytes * json)) (fields : json) (complete : bool) : act W (json * bool) :=
  match items with
  | [] => mret (fields, complete)
  | (key, item) :: items' =>
      value ← match item with
              | JString expression => evaluate_field_expression expression c time_idx point
              | _ => mret None
              end;
      match value with
      | None => evaluate_fields c time_idx point format items' fields false
      | Some v => evaluate_fields c time_idx point format items' (set_key key (logic_value_json v format) fields) complete
      end
  end.

Definition stream_fields_at (c : StreamConfig) (e : CompiledStreamExpressions) (time_idx : Z) (point : ObservationPoint)
    (format : ValueRenderFormat) (complete : bool) : act W (json * bool) :=
  data ← (if jcontains (lit "data") (stc_source c) && configured (ce_data e)
          then expression_json_at (ce_data e) time_idx point format else mret (JNull, true));
  let fields := if json_null (fst data) then JObject [] else set_key (lit "data") (fst data) (JObject []) in
  evaluate_fields c time_idx point format (json_entries (stc_beat_fields c)) fields (complete && snd data).

(** *** The scan *)

Definition read_controls (e : CompiledStreamExpressions) (ti : Z) (point : ObservationPoint) : act W ControlBits :=
  vld_bits ← expression_bits_at (ce_valid e) ti point [];
  rdy_bits ← expression_bits_at (ce_ready e) ti point (lit "1");
  bp_bits ← expression_bits_at (ce_backpressure e) ti point (lit "0");
  sop_bits ← expression_bits_at (ce_sop e) ti point (lit "0");
  eop_bits ← expression_bits_at (ce_eop e) ti point (lit "0");
  if bool_decide (point = After) && configured (ce_ready e) && negb (configured (ce_backpressure e)) then
    vld_before ← expression_bits_at (ce_valid e) ti Before [];
    rdy_before ← expression_bits_at (ce_ready e) ti Before [];
    mret (MkControlBits vld_bits rdy_bits bp_bits sop_bits eop_bits (Some (is_high vld_before, is_high rdy_before)))
  else mret (MkControlBits vld_bits rdy_bits bp_bits sop_bits eop_bits None).

(** [field.value().value("known", false)] of every field. *)
Fixpoint fields_known (fields : list (bytes * json)) (data_known : bool) : res bool :=
  match fields with
  | [] => Ret data_known
  | (_, v) :: fields' =>
      known ← value_or as_bool (lit "known") false v;
      fields_known fields' (match known with true => data_known | false => false end)
  end.

(** The fields, stable fields and channel of a transferred beat. *)
Definition read_fields (c : StreamConfig) (e : CompiledStreamExpressions) (ti : Z) (point : ObservationPoint)
    (format : ValueRenderFormat) (complete : bool) (s : StreamSample) : act W (StreamSample * bool) :=
  fields ← stream_fields_at c e ti point format complete;
  stable ← evaluate_fields c ti point format (json_entries (stc_packet_stable_fields c)) (JObject []) (snd fields);
  channel ← expression_json_at (ce_channel_id e) ti point format;
  known ← lift (fields_known (json_entries (fst fields)) true);
  mret (with_fields (fst fields) (fst stable) (fst channel) known s, snd stable && snd channel).

Definition reset_deasserted (c : StreamConfig) (reset_bits : bytes) : bool :=
  if eqs (stc_reset_polarity c) (lit "active_low") then eqs reset_bits (lit "1") else eqs reset_bits (lit "0").

(** The sample of a selected edge; the flag is [fields_complete]. *)
Definition sample_edge (c : StreamConfig) (e : CompiledStreamExpressions) (reset_ref : Z) (format : ValueRenderFormat)
    (cycle ti : Z) (complete : bool) : act W (StreamSample * bool) :=
  let point := stream_point c in
  w ← get_state;
  let sample := new_sample cycle ti (sb_time_at w ti) in
  if negb (reset_ref =? 0) && negb (reset_deasserted c (sampled_signal_bits_at w reset_ref ti point))
  then mret (sample, complete)
  else
    controls ← read_controls e ti point;
    let sample := control_sample e controls sample in
    if ssm_transfer sample then read_fields c e ti point format complete sample else mret (sample, complete).

Definition clock_selected (c : StreamConfig) (e : CompiledStreamExpressions) (ti : Z) : act W bool :=
  before_clock ← expression_bits_at (ce_clock e) ti Before [];
  raw_clock ← expression_bits_at (ce_clock e) ti Raw [];
  mret (selected_edge (stc_edge c) (is_rising_edge before_clock raw_clock) (is_falling_edge before_clock raw_clock)).

Fixpoint scan_indices (c : StreamConfig) (e : CompiledStreamExpressions) (reset_ref begin_ti end_ti : Z)
    (format : ValueRenderFormat) (indices : list Z) (cycle : Z) (complete : bool) : act W (list StreamSample * bool) :=
  match indices with
  | [] => mret ([], complete)
  | ti :: indices' =>
      selected ← clock_selected c e ti;
      if negb selected || (ti <? begin_ti)
      then scan_indices c e reset_ref begin_ti end_ti format indices' cycle complete
      else if end_ti <? ti then mret ([], complete)
      else
        sampled ← sample_edge c e reset_ref format cycle ti complete;
        rest ← scan_indices c e reset_ref begin_ti end_ti format indices' (u64 (cycle + 1)) (snd sampled);
        mret (fst sampled :: fst rest, snd rest)
  end.

(** The [std::set] of the indices at which a dependency of the clock changes. *)
Definition clock_time_indices (w : W) (e : CompiledStreamExpressions) : list Z :=
  sort_unique (concat (map (sb_time_indices_of w) (clock_dependencies e))).

Definition scan_stream_samples (c : StreamConfig) (e : CompiledStreamExpressions) (begin_ti end_ti : Z)
    (format : ValueRenderFormat) : act W (list StreamSample * bool) :=
  reset_ref ← (if eqs (stc_reset c) [] then mret 0 else load_signal (stc_reset c));
  w ← get_state;
  scan_indices c e reset_ref begin_ti end_ti format (clock_time_indices w e) 0 true.
End Wave.

(** ** The memory budget *)

(** The digits are those of the APB scan: both files have the same reader. *)
Definition stream_cache_budget (getenv : bytes -> option bytes) (name : bytes) (default_value : Z) (allow_zero : bool)
    : bytes + Z :=
  parse_analysis_cache_budget getenv name default_value allow_zero.

(** [sizeof(StreamSample)] with 8-byte alignment and 16-byte JSON values. *)
Definition sample_size : Z := 104.

Section Budget.
Context (getenv : bytes -> option bytes) (dump : json -> bytes).

Definition stream_cache_key_summary (c : StreamConfig) (args : json) : res bytes :=
  scope ← value_or as_string (lit "cache_scope") (lit "full") args;
  range ← value_or Ret (lit "time_range") (JObject []) args;
  let material := stc_name c ++ newline :: dump (stc_source c) ++ newline :: scope ++ newline :: dump range in
  Ret (setw_zero 16 (hex_print (stable_path_hash material))).

Definition stream_environment_error (message : bytes) : json :=
  jobj [(lit "ok", JBool false);
        (lit "error", jobj [(lit "code", JString (lit "INVALID_ENVIRONMENT")); (lit "message", JString message);
                            (lit "error_layer", JString (lit "handler")); (lit "recoverable", JBool false)])].

(** [None] is the empty object: no error. *)
Definition stream_analysis_budget_error (c : StreamConfig) (args : json) : res (option json) :=
  match stream_cache_budget getenv (lit "XDEBUG_ANALYSIS_CACHE_MAX_BYTES") 1073741824 true with
  | inl message => Ret (Some (stream_environment_error message))
  | inr soft_max_bytes =>
      match stream_cache_budget getenv (lit "XDEBUG_ANALYSIS_CACHE_HARD_MAX_BYTES") 2147483648 false with
      | inl message => Ret (Some (stream_environment_error message))
      | inr hard_max_bytes =>
          if hard_max_bytes <? soft_max_bytes
          then Ret (Some (stream_environment_error
                 (lit "XDEBUG_ANALYSIS_CACHE_MAX_BYTES must not exceed XDEBUG_ANALYSIS_CACHE_HARD_MAX_BYTES")))
          else if sample_size <=? hard_max_bytes then Ret None
          else
            key_summary ← stream_cache_key_summary c args;
            Ret (Some (jobj [(lit "ok", JBool false); (lit "error", jobj [
              (lit "code", JString (lit "ANALYSIS_MEMORY_LIMIT_EXCEEDED"));
              (lit "message", JString (lit "analysis cache build exceeds the configured hard memory limit"));
              (lit "recoverable", JBool true); (lit "error_layer", JString (lit "handler"));
              (lit "current_estimated_bytes", JInt 0); (lit "hard_max_bytes", JUint hard_max_bytes);
              (lit "protocol", JString (lit "stream")); (lit "key_summary", JString key_summary);
              (lit "next_actions", JArray [
                 JString (lit "For stream analysis, explicitly retry with cache_scope=range or a smaller time_range.");
                 JString (lit "If range analysis still exceeds the limit, use x-npi for one-off offline analysis.")])])]))
      end
  end.
End Budget.
