(* ===== verification/StreamQuery.v ===== *)
(** * StreamQuery: the stream actions

    Models the seven handlers of
    [src/engine/actions/stream/stream_actions.cpp]: [stream.config.list],
    [.get] and [.load], [stream.describe], [.query], [.export] and
    [.validate], with the field filters, the stall windows and the packet
    assembly of a query. The environment, the readable and writable files,
    the JSON parser and printers and the equality of JSON values are
    arguments. *)

From stdpp Require Import sorting.
From S2P Require Import Prelude CLib Json LogicValue ExprParser Waveform ExprEval ClockSampling SessionTypes Engine Apb Stream.

Open Scope Z_scope.

(** ** Field filters *)

(** [None] is the [false] return. *)
Fixpoint binary_u64 (result : Z) (bs : bytes) : option Z :=
  match bs with
  | [] => Some result
  | bit :: bs' =>
      if negb (eqc bit "0") && negb (eqc bit "1") then None
      else binary_u64 (Z.lor (u64 (Z.shiftl result 1)) (if eqc bit "1" then 1 else 0)) bs'
  end.

Definition known_u64 (value : json) : res (option Z) :=
  is_known ← value_or as_bool (lit "known") false value;
  if negb is_known || negb (jcontains (lit "bits") value) then Ret None
  else
    bs ← string_at_key (lit "bits") value;
    Ret (if 64 <? zlen bs then None else binary_u64 0 bs).

Definition literal_u64 (literal : bytes) : res (option Z) :=
  parsed ← parse_sv_literal literal;
  Ret (match parsed with
       | Some v =>
           if negb (known v) || (64 <? zlen (bits v)) then None
           else Some (foldl (fun result bit => Z.lor (u64 (Z.shiftl result 1)) (if eqc bit "1" then 1 else 0)) 0 (bits v))
       | None => None
       end).

Fixpoint exact_matches (actual : Z) (candidates : list json) : res bool :=
  match candidates with
  | [] => Ret false
  | candidate :: candidates' =>
      literal ← as_string candidate;
      expected ← literal_u64 literal;
      if bool_decide (expected = Some actual) then Ret true else exact_matches actual candidates'
  end.

(** The literals of two members; the second is read when the first is one. *)
Definition literal_pair (k1 k2 : bytes) (rule : json) : res (option (Z * Z)) :=
  first_text ← string_at_key k1 rule;
  first ← literal_u64 first_text;
  match first with
  | None => Ret None
  | Some a =>
      second_text ← string_at_key k2 rule;
      second ← literal_u64 second_text;
      Ret (match second with Some b => Some (a, b) | None => None end)
  end.

Definition stream_field_matches (value rule : json) : res bool :=
  actual ← known_u64 value;
  match actual with
  | None => Ret false
  | Some actual =>
      mode ← string_at_key (lit "mode") rule;
      if eqs mode (lit "exact") then
        values ← at_key (lit "values") rule;
        exact_matches actual (json_items values)
      else if eqs mode (lit "range") then
        range ← literal_pair (lit "begin") (lit "end") rule;
        Ret (match range with Some (first, last) => (first <=? actual) && (actual <=? last) | None => false end)
      else
        masked ← literal_pair (lit "value") (lit "mask") rule;
        Ret (match masked with Some (expected, mask) => Z.land actual mask =? Z.land expected mask | None => false end)
  end.

Inductive StreamFilterResult := Match | NoMatch | Unresolved.
#[export] Instance StreamFilterResult_eq_dec : EqDecision StreamFilterResult.
Proof. solve_decision. Defined.

(** [bits[bits.size() - 1 - offset]], or the fill past the front. *)
Definition lsb_bit (bs : bytes) (offset : nat) (fill : ascii) : ascii :=
  if (offset <? length bs)%nat then default fill (bs !! (length bs - 1 - offset)%nat) else fill.

(** The masked comparison from [offset] on, [n] bits. *)
Fixpoint masked_loop (actual expected mask : bytes) (offset n : nat) : StreamFilterResult :=
  match n with
  | O => Match
  | S n' =>
      if negb (eqc (lsb_bit mask offset "0") "1") then masked_loop actual expected mask (S offset) n'
      else
        let actual_bit := lsb_bit actual offset "0" in
        if negb (eqc actual_bit "0") && negb (eqc actual_bit "1") then Unresolved
        else if negb (eqc actual_bit (lsb_bit expected offset "0")) then NoMatch
        else masked_loop actual expected mask (S offset) n'
  end.
Definition masked_result (actual expected mask : bytes) : StreamFilterResult :=
  masked_loop actual expected mask 0 (length actual `max` length expected `max` length mask).

(** [j == "text"] *)
Definition is_text (s : bytes) (j : json) : bool := match j with JString t => eqs t s | _ => false end.

Definition stream_field_filter_result (value rule : json) : res StreamFilterResult :=
  if negb (is_object value) || negb (jcontains (lit "bits") value) then Ret Unresolved
  else
    is_known ← value_or as_bool (lit "known") false value;
    match is_known with
    | true => matched ← stream_field_matches value rule; Ret (match matched with true => Match | false => NoMatch end)
    | false =>
        mode ← at_key (lit "mode") rule;
        if negb (is_text (lit "mask") mode) then Ret Unresolved
        else
          expected_text ← string_at_key (lit "value") rule;
          expected ← parse_sv_literal expected_text;
          match expected with
          | None => Ret Unresolved
          | Some expected =>
              mask_text ← string_at_key (lit "mask") rule;
              mask ← parse_sv_literal mask_text;
              match mask with
              | None => Ret Unresolved
              | Some mask =>
                  if negb (known expected) || negb (known mask) then Ret Unresolved
                  else
                    actual ← string_at_key (lit "bits") value;
                    Ret (masked_result actual (bits expected) (bits mask))
              end
          end
    end.

(** The loop over the criteria: the first that does not match decides. *)
Fixpoint judge_fields (fields : json) (criteria : list (bytes * json)) (unresolved : bool) : res StreamFilterResult :=
  match criteria with
  | [] => Ret (if unresolved then Unresolved else Match)
  | (key, rule) :: criteria' =>
      result ← match jget key fields with
               | Some value => stream_field_filter_result value rule
               | None => Ret Unresolved
               end;
      match result with
      | NoMatch => Ret NoMatch
      | Unresolved => judge_fields fields criteria' true
      | Match => judge_fields fields criteria' unresolved
      end
  end.

(** ** Stall windows *)

Definition stalled_at (samples : list StreamSample) (pos : nat) : bool :=
  match samples !! pos with Some s => ssm_stall s | None => false end.

(** [while (pos + 1 < size && samples[pos + 1].stall) ++pos] *)
Fixpoint stall_end (fuel : nat) (samples : list StreamSample) (pos : nat) : nat :=
  match fuel with
  | O => pos
  | S fuel' => if stalled_at samples (S pos) then stall_end fuel' samples (S pos) else pos
  end.

(** The first and last position of each window. *)
Fixpoint stall_loop (fuel : nat) (samples : list StreamSample) (pos : nat) : list (nat * nat) :=
  match fuel with
  | O => []
  | S fuel' =>
      if (length samples <=? pos)%nat then []
      else if negb (stalled_at samples pos) then stall_loop fuel' samples (S pos)
      else
        let last := stall_end (length samples) samples pos in
        (pos, last) :: stall_loop fuel' samples (S last)
  end.
Definition stall_windows (samples : list StreamSample) : list (nat * nat) := stall_loop (length samples) samples 0.

(** ** Packets *)

Record PacketState := MkPacketState {
  ps_packet_index : Z;
  ps_partial_begin : bool;
  ps_beats : list nat;
  ps_channel_id : json;
  ps_stable_fields : json;
  ps_stable_mismatches : list json;
}.

(** A completed packet. Its response object reads nothing that changes after
    it is completed, so it is made when the answer is. *)
Record Packet := MkPacket {
  pk_index : Z;
  pk_beats : list nat;
  pk_partial_begin : bool;
  pk_partial_end : bool;
  pk_channel_id : json;
  pk_stable_fields : json;
  pk_stable_mismatches : list json;
}.

(** The beats of a packet are positions in [pr_transfers], which stands for
    the samples the source points to. *)
Record PacketRun := MkPacketRun {
  pr_transfers : list StreamSample;
  pr_active : list (bytes * PacketState);
  pr_completed : list Packet;
  pr_next_packet_index : Z;
  pr_complete_packets : Z;
  pr_partial_packets : Z;
  pr_mismatch_count : Z;
}.

Definition set_position (packet_index beat_index : Z) (s : StreamSample) : StreamSample :=
  MkStreamSample (ssm_cycle s) (ssm_time_idx s) (ssm_time s) (ssm_vld s) (ssm_rdy s) (ssm_bp s) (ssm_sop s) (ssm_eop s)
    (ssm_transfer s) (ssm_stall s) (ssm_control_known s) (ssm_data_known s) (ssm_ready_bp_conflict s) (ssm_fields s)
    (ssm_packet_stable_fields s) (ssm_channel_id s) packet_index beat_index.

(** Each beat learns its packet and its place in it. *)
Fixpoint mark_beats (packet_index : Z) (beats : list nat) (index : Z) (transfers : list StreamSample) : list StreamSample :=
  match beats with
  | [] => transfers
  | b :: beats' => mark_beats packet_index beats' (index + 1) (alter (set_position (i32 packet_index) index) b transfers)
  end.

Definition ends_packet (transfers : list StreamSample) (beats : list nat) : bool :=
  match list.last beats ≫= (fun b => transfers !! b) with Some s => ssm_eop s | None => false end.

Definition append_packet (key : bytes) (r : PacketRun) : PacketRun :=
  match mget key (pr_active r) with
  | None => r
  | Some state =>
      match ps_beats state with
      | [] => r
      | beats =>
          let partial_begin := ps_partial_begin state in
          let partial_end := negb (ends_packet (pr_transfers r) beats) in
          let packet := MkPacket (ps_packet_index state) beats partial_begin partial_end (ps_channel_id state)
                          (ps_stable_fields state) (ps_stable_mismatches state) in
          MkPacketRun (mark_beats (ps_packet_index state) beats 0 (pr_transfers r)) (mdel key (pr_active r))
            (pr_completed r ++ [packet]) (pr_next_packet_index r)
            (if partial_begin || partial_end then pr_complete_packets r else u64 (pr_complete_packets r + 1))
            (if partial_begin || partial_end then u64 (pr_partial_packets r + 1) else pr_partial_packets r)
            (u64 (pr_mismatch_count r + zlen (ps_stable_mismatches state)))
      end
  end.

Definition opens_packet (r : PacketRun) (key : bytes) : bool := match mget key (pr_active r) with Some _ => true | None => false end.

Section Packets.
Context (json_equal : json -> json -> bool) (format_time : Z -> bytes).

(** The stable fields of the packet that a later beat does not repeat. *)
Definition stable_mismatches (stable : json) (transfer : StreamSample) : list json :=
  concat (map (fun item =>
    let actual := jget (fst item) (ssm_packet_stable_fields transfer) in
    if match actual with Some v => json_equal v (snd item) | None => false end then []
    else [jobj [(lit "field", JString (fst item)); (lit "cycle", JUint (ssm_cycle transfer));
                (lit "time", JString (format_time (ssm_time transfer))); (lit "expected", snd item);
                (lit "actual", default JNull actual)]])
    (json_entries stable)).

Definition new_packet (index : Z) (transfer : StreamSample) : PacketState :=
  MkPacketState index (negb (ssm_sop transfer)) [] (ssm_channel_id transfer) (ssm_packet_stable_fields transfer) [].

(** [state.beats.push_back(transfer)] after the check of the stable fields. *)
Definition add_beat (beat : nat) (transfer : StreamSample) (state : PacketState) : PacketState :=
  MkPacketState (ps_packet_index state) (ps_partial_begin state) (ps_beats state ++ [beat]) (ps_channel_id state)
    (ps_stable_fields state)
    (ps_stable_mismatches state ++
     match ps_beats state with [] => [] | _ => stable_mismatches (ps_stable_fields state) transfer end).

Definition set_active (key : bytes) (state : PacketState) (next : Z) (r : PacketRun) : PacketRun :=
  MkPacketRun (pr_transfers r) (mset key state (pr_active r)) (pr_completed r) next (pr_complete_packets r)
    (pr_partial_packets r) (pr_mismatch_count r).

(** The body of the loop over the transfers. *)
Definition packet_step (r : PacketRun) (item : nat * (bytes * StreamSample)) : PacketRun :=
  let '(beat, (key, transfer)) := item in
  let r := if ssm_sop transfer && opens_packet r key then append_packet key r else r in
  let r := match mget key (pr_active r) with
           | Some state => set_active key (add_beat beat transfer state) (pr_next_packet_index r) r
           | None => set_active key (add_beat beat transfer (new_packet (pr_next_packet_index r) transfer))
                       (u64 (pr_next_packet_index r + 1)) r
           end in
  if ssm_eop transfer then append_packet key r else r.

(** The loop, then the packets still open at the end of the range in the
    order of their keys. *)
Definition run_packets (transfers : list (bytes * StreamSample)) : PacketRun :=
  let r := foldl packet_step (MkPacketRun (map snd transfers) [] [] 0 0 0 0) (imap pair transfers) in
  foldl (fun r key => append_packet key r) r (map fst (pr_active r)).
End Packets.

Definition packet_order (a b : Packet) : Prop := pk_index a <= pk_index b.
#[export] Instance packet_order_dec : RelDecision packet_order := fun a b => decide (pk_index a <= pk_index b).
Definition sorted_packets (l : list Packet) : list Packet := merge_sort packet_order l.

(** The packet a beat belongs to. *)
Definition channel_key (c : StreamConfig) (transfer : StreamSample) : res bytes :=
  if stc_allow_interleaving c && is_object (ssm_channel_id transfer)
  then value_or as_string (lit "bits") [] (ssm_channel_id transfer) else Ret [].
Fixpoint keyed_transfers (c : StreamConfig) (transfers : list StreamSample) : res (list (bytes * StreamSample)) :=
  match transfers with
  | [] => Ret []
  | t :: transfers' => key ← channel_key c t; rest ← keyed_transfers c transfers'; Ret ((key, t) :: rest)
  end.

(** ** What a query finds *)

(** The counters of the loop over the samples. *)
Record SampleCounts := MkSampleCounts {
  sn_vld_cycles : Z;
  sn_stall_cycles : Z;
  sn_control_xz : Z;
  sn_data_xz : Z;
  sn_ready_bp_conflicts : Z;
}.
Definition bump (b : bool) (n : Z) : Z := if b then u64 (n + 1) else n.
Definition count_sample (n : SampleCounts) (s : StreamSample) : SampleCounts :=
  MkSampleCounts (bump (ssm_vld s) (sn_vld_cycles n)) (bump (ssm_stall s) (sn_stall_cycles n))
    (bump (negb (ssm_control_known s)) (sn_control_xz n))
    (bump (ssm_transfer s && negb (ssm_data_known s)) (sn_data_xz n))
    (bump (ssm_ready_bp_conflict s) (sn_ready_bp_conflicts n)).
Definition count_samples (samples : list StreamSample) : SampleCounts :=
  foldl count_sample (MkSampleCounts 0 0 0 0 0) samples.
Definition transfers_of (samples : list StreamSample) : list StreamSample := List.filter ssm_transfer samples.

Record Analysis := MkAnalysis {
  an_samples : list StreamSample;
  an_fields_complete : bool;
  an_counts : SampleCounts;
  an_stalls : list (nat * nat);
  an_transfers : list StreamSample;
  an_packets : list Packet;
  an_complete_packets : Z;
  an_partial_packets : Z;
  an_mismatch_count : Z;
}.

Definition analyze (json_equal : json -> json -> bool) (format_time : Z -> bytes) (c : StreamConfig)
    (samples : list StreamSample) (fields_complete : bool) : res Analysis :=
  let transfers := transfers_of samples in
  let counts := count_samples samples in
  let stalls := stall_windows samples in
  if packet_enabled c then
    keyed ← keyed_transfers c transfers;
    let r := run_packets json_equal format_time keyed in
    Ret (MkAnalysis samples fields_complete counts stalls (pr_transfers r) (sorted_packets (pr_completed r))
           (pr_complete_packets r) (pr_partial_packets r) (pr_mismatch_count r))
  else Ret (MkAnalysis samples fields_complete counts stalls transfers [] 0 0 0).

(** *** Selection by channel and by field *)

(** [None]: no channel is requested; [Some None]: the literal is refused. *)
Definition requested_channel (args : json) : res (option (option Z)) :=
  if jcontains (lit "channel") args then
    literal ← string_at_key (lit "channel") args;
    value ← literal_u64 literal;
    Ret (Some value)
  else Ret None.

Definition channel_matches (requested : option (option Z)) (channel_id : json) : res bool :=
  match requested with
  | None => Ret true
  | Some None => Ret false
  | Some (Some channel) => actual ← known_u64 channel_id; Ret (bool_decide (actual = Some channel))
  end.

Fixpoint keep_if {A} (p : A -> res bool) (l : list A) : res (list A) :=
  match l with
  | [] => Ret []
  | a :: l' => keep ← p a; rest ← keep_if p l'; Ret (match keep with true => a :: rest | false => rest end)
  end.

(** The matching entries and the number of unresolved ones. *)
Fixpoint filter_by {A} (judge : A -> res StreamFilterResult) (l : list A) (unresolved : Z) : res (list A * Z) :=
  match l with
  | [] => Ret ([], unresolved)
  | a :: l' =>
      result ← judge a;
      match result with
      | NoMatch => filter_by judge l' unresolved
      | Unresolved => filter_by judge l' (u64 (unresolved + 1))
      | Match => rest ← filter_by judge l' unresolved; Ret (a :: fst rest, snd rest)
      end
  end.

Definition criteria_of (filter : json) : res (list (bytes * json)) :=
  fields ← at_key (lit "fields") filter; Ret (json_entries fields).

Definition judge_transfer (filter : json) (t : StreamSample) : res StreamFilterResult :=
  criteria ← criteria_of filter;
  judge_fields (ssm_fields t) criteria false.

(** The fields of the first or last beat, with the stable fields over them. *)
Definition boundary_fields (transfers : list StreamSample) (at_eop : bool) (p : Packet) : json :=
  let beat := if at_eop then list.last (pk_beats p) else head (pk_beats p) in
  let fields := match beat ≫= (fun b => transfers !! b) with Some s => ssm_fields s | None => JNull end in
  foldl (fun fields item => set_key (fst item) (snd item) fields) fields (json_entries (pk_stable_fields p)).

Definition judge_packet (transfers : list StreamSample) (at_eop : bool) (filter : json) (p : Packet)
    : res StreamFilterResult :=
  if (at_eop && pk_partial_end p) || (negb at_eop && pk_partial_begin p) then Ret Unresolved
  else
    criteria ← criteria_of filter;
    judge_fields (boundary_fields transfers at_eop p) criteria false.

Record Selection := MkSelection {
  sl_filter_applied : bool;
  sl_filter : json;
  sl_transfers : list StreamSample;
  sl_packets : list Packet;
  sl_unresolved : Z;
}.

(** [j[key] = value] on any JSON value. *)
Definition assign_key (k : bytes) (v j : json) : res json :=
  match j with
  | JObject m => Ret (JObject (mset k v m))
  | JNull => Ret (JObject [(k, v)])
  | _ => Throw "type_error.305"
  end.

Definition candidate_packet (requested : option (option Z)) (p : Packet) : res bool :=
  match requested with
  | None => Ret true
  | _ => if json_null (pk_channel_id p) then Ret false else channel_matches requested (pk_channel_id p)
  end.

Definition select (c : StreamConfig) (args : json) (a : Analysis) : res Selection :=
  let filter_applied := jcontains (lit "filter") args in
  requested ← requested_channel args;
  selected ← keep_if (fun t => channel_matches requested (ssm_channel_id t)) (an_transfers a);
  filter ← (if filter_applied then at_key (lit "filter") args else Ret (JObject []));
  filtered ← (if filter_applied && negb (packet_enabled c) then filter_by (judge_transfer filter) selected 0
              else Ret (selected, 0));
  candidates ← keep_if (candidate_packet requested) (an_packets a);
  if filter_applied && packet_enabled c then
    filter ← (if jcontains (lit "position") filter then Ret filter
              else assign_key (lit "position") (JString (lit "sop")) filter);
    position ← at_key (lit "position") filter;
    let at_eop := is_text (lit "eop") position in
    packets ← filter_by (judge_packet (an_transfers a) at_eop filter) candidates (snd filtered);
    Ret (MkSelection filter_applied filter (fst filtered) (fst packets) (snd packets))
  else Ret (MkSelection filter_applied filter (fst filtered) candidates (snd filtered)).

(** *** Response objects *)

Definition row_json (format_time : Z -> bytes) (s : StreamSample) : json :=
  let row := jobj [(lit "cycle", JUint (ssm_cycle s)); (lit "time", JString (format_time (ssm_time s)));
    (lit "vld", JBool (ssm_vld s)); (lit "rdy", JBool (ssm_rdy s)); (lit "bp", JBool (ssm_bp s));
    (lit "sop", JBool (ssm_sop s)); (lit "eop", JBool (ssm_eop s)); (lit "transfer", JBool (ssm_transfer s));
    (lit "stall", JBool (ssm_stall s)); (lit "beat_index", JUint (ssm_beat_index s)); (lit "fields", ssm_fields s)] in
  let row := if json_null (ssm_channel_id s) then row else set_key (lit "channel_id") (ssm_channel_id s) row in
  if 0 <=? ssm_packet_index s then
    let row := set_key (lit "packet_index") (JInt (ssm_packet_index s)) row in
    if json_empty (ssm_packet_stable_fields s) then row
    else set_key (lit "packet_stable_fields") (ssm_packet_stable_fields s) row
  else row.

Definition stall_json (format_time : Z -> bytes) (c : StreamConfig) (samples : list StreamSample) (window : nat * nat) : json :=
  let '(first, last) := window in
  let end_boundary := (S last `min` (length samples - 1))%nat in
  let cycle_at i := match samples !! i with Some s => ssm_cycle s | None => 0 end in
  let time_at i := match samples !! i with Some s => ssm_time s | None => 0 end in
  jobj [(lit "start_cycle", JUint (cycle_at first)); (lit "end_cycle", JUint (cycle_at end_boundary));
        (lit "start_time", JString (format_time (time_at first)));
        (lit "end_time", JString (format_time (time_at end_boundary)));
        (lit "cycles", JUint (Z.of_nat (last - first + 1)));
        (lit "reason", JString (if eqs (stc_backpressure c) [] then lit "rdy_low" else lit "bp_high"))].

Definition beat_json (format_time : Z -> bytes) (index : nat) (s : StreamSample) : json :=
  jobj [(lit "cycle", JUint (ssm_cycle s)); (lit "time", JString (format_time (ssm_time s)));
        (lit "beat_index", JUint (Z.of_nat index)); (lit "fields", ssm_fields s)].

(** The first five beats, and the last five of the others. *)
Definition preview_head (beats : list json) : list json := take 5 beats.
Definition preview_tail (beats : list json) : list json :=
  if (5 <? length beats)%nat
  then drop (5 `max` (if (10 <? length beats)%nat then length beats - 5 else 5)) beats else [].

Definition packet_json (format_time : Z -> bytes) (fields_complete : bool) (transfers : list StreamSample) (p : Packet) : json :=
  let samples := omap (fun b => transfers !! b) (pk_beats p) in
  let beats := imap (beat_json format_time) samples in
  let first := default (new_sample 0 0 0) (head samples) in
  let last := default (new_sample 0 0 0) (list.last samples) in
  let preview := jobj [(lit "head", JArray (preview_head beats)); (lit "tail", JArray (preview_tail beats));
    (lit "scan_complete", JBool true); (lit "analysis_complete", JBool fields_complete);
    (lit "response_truncated", JBool false); (lit "total_count", JUint (zlen samples));
    (lit "returned_count", JUint (zlen (preview_head beats) + zlen (preview_tail beats)));
    (lit "truncation_scopes", JArray [])] in
  let packet := jobj [(lit "packet_index", JUint (pk_index p));
    (lit "start_cycle", JUint (ssm_cycle first)); (lit "end_cycle", JUint (ssm_cycle last));
    (lit "start_time", JString (format_time (ssm_time first))); (lit "end_time", JString (format_time (ssm_time last)));
    (lit "beat_count", JUint (zlen samples)); (lit "partial_begin", JBool (pk_partial_begin p));
    (lit "partial_end", JBool (pk_partial_end p)); (lit "packet_stable_fields", pk_stable_fields p);
    (lit "packet_stable_mismatches", JArray (pk_stable_mismatches p)); (lit "beat_fields_preview", preview);
    (lit "first_fields", ssm_fields first); (lit "last_fields", ssm_fields last)] in
  if json_null (pk_channel_id p) then packet else set_key (lit "channel_id") (pk_channel_id p) packet.

(** ** The answer of a query *)

Record QueryRows := MkQueryRows {
  qr_total : Z;
  qr_returned : Z;
  qr_truncated : bool;
  qr_data : json;
}.

(** [std::min<size_t>(max_rows, n)] *)
Definition limited (max_rows n : Z) : Z := Z.min (u64 max_rows) n.
Definition export_hint : json := JString (lit "use stream.export for large result").

Section Rows.
Context (format_time : Z -> bytes) (c : StreamConfig) (a : Analysis) (s : Selection).

Definition transfer_total : Z := if sl_filter_applied s then zlen (sl_transfers s) else zlen (an_transfers a).
Definition row_list : list json := map (row_json format_time) (sl_transfers s).
Definition stall_list : list json := map (stall_json format_time c (an_samples a)) (an_stalls a).
Definition packet_list : list json :=
  map (packet_json format_time (an_fields_complete a) (an_transfers a)) (sl_packets s).

Definition window_rows (key : bytes) (hint : json) (max_rows total : Z) (items : list json) : QueryRows :=
  let returned := limited max_rows (zlen items) in
  let data := jobj [(key, JArray (take (Z.to_nat returned) items))] in
  let truncated := returned <? total in
  MkQueryRows total returned truncated (if truncated then set_key (lit "hint") hint data else data).

(** One entry, under [key] when there is one. *)
Definition single_row (key : bytes) (total : Z) (item : option json) : QueryRows :=
  match item with
  | Some j => MkQueryRows total 1 false (jobj [(key, j)])
  | None => MkQueryRows total 0 false (JObject [])
  end.

Definition packet_row (query : bytes) (index : Z) : QueryRows :=
  let total := zlen packet_list in
  let found := index <? total in
  let returned := if found then 1 else 0 in
  MkQueryRows (if eqs query (lit "packet_at") then returned else total) returned false
    (jobj [(lit "found", JBool found);
           (lit "packet", if found then default JNull (packet_list !! Z.to_nat index) else JNull)]).

Definition query_rows (trunc : bytes -> Z) (args : json) (query : bytes) (max_rows : Z) : res QueryRows :=
  if eqs query (lit "summary") then
    Ret (MkQueryRows (if packet_enabled c then zlen packet_list else transfer_total) 0 false (JObject []))
  else if eqs query (lit "first_transfer") then Ret (single_row (lit "row") transfer_total (head row_list))
  else if eqs query (lit "last_transfer") then Ret (single_row (lit "row") transfer_total (list.last row_list))
  else if eqs query (lit "transfer_window") then
    Ret (window_rows (lit "rows")
           (if sl_filter_applied s then JString (lit "narrow filter/time_range or increase line_limit") else export_hint)
           max_rows transfer_total row_list)
  else if eqs query (lit "first_stall") then Ret (single_row (lit "stall") (zlen stall_list) (head stall_list))
  else if eqs query (lit "last_stall") then Ret (single_row (lit "stall") (zlen stall_list) (list.last stall_list))
  else if eqs query (lit "stall_window") then
    Ret (window_rows (lit "stalls") export_hint max_rows (zlen stall_list) stall_list)
  else if eqs query (lit "first_packet") then Ret (packet_row query 0)
  else if eqs query (lit "last_packet") then
    Ret (packet_row query (match packet_list with [] => 0 | _ => zlen packet_list - 1 end))
  else if eqs query (lit "packet_at") then
    requested ← at_key (lit "packet_index") args;
    index ← as_number trunc u64 requested;
    Ret (packet_row query index)
  else Ret (window_rows (lit "packets") export_hint max_rows (zlen packet_list) packet_list).

Definition truncation_scopes (query : bytes) (truncated : bool) : json :=
  let n := an_counts a in
  JArray ((if negb (sn_control_xz n =? 0) || negb (sn_data_xz n =? 0) || negb (an_fields_complete a)
           then [JString (lit "analysis_samples")] else [])
          ++ (if truncated then
                [JString (if eqs query (lit "transfer_window") then lit "response_transfers"
                          else if eqs query (lit "stall_window") then lit "response_stalls"
                          else lit "response_packets")] else [])).

Definition range_json (begin end_ : Z) : json :=
  jobj [(lit "begin", JString (format_time begin)); (lit "end", JString (format_time end_))].

Definition base_summary (name query : bytes) (clock : json) (begin_time end_time : Z) (rows : QueryRows) : json :=
  let n := an_counts a in
  let samples := an_samples a in
  let scan_complete := sn_control_xz n =? 0 in
  jobj [(lit "stream", JString name); (lit "query", JString query); (lit "sampling_mode", JString (lit "clock_edge"));
    (lit "clock", clock); (lit "edge", JString (stc_edge c));
    (lit "sample_time_semantics", JString (lit "time is sample_time")); (lit "handshake", JString (stream_handshake c));
    (lit "packet_enabled", JBool (packet_enabled c)); (lit "clock_edges", JUint (zlen samples));
    (lit "vld_cycles", JUint (sn_vld_cycles n)); (lit "transfer_count", JUint (zlen (an_transfers a)));
    (lit "stall_cycles", JUint (sn_stall_cycles n)); (lit "stall_windows", JUint (zlen (an_stalls a)));
    (lit "complete_packet_count", JUint (an_complete_packets a)); (lit "partial_packet_count", JUint (an_partial_packets a));
    (lit "packet_count_status", JString (if packet_enabled c then
       if negb (an_partial_packets a =? 0) then lit "ambiguous" else lit "exact" else lit "not_configured"));
    (lit "control_xz_count", JUint (sn_control_xz n)); (lit "data_xz_count", JUint (sn_data_xz n));
    (lit "ready_bp_conflict_count", JUint (sn_ready_bp_conflicts n));
    (lit "packet_stable_mismatch_count", JUint (an_mismatch_count a));
    (lit "requested_range", range_json begin_time end_time);
    (lit "scanned_range", range_json (match head samples with Some s => ssm_time s | None => begin_time end)
                            (match list.last samples with Some s => ssm_time s | None => end_time end));
    (lit "filter_applied", JBool (sl_filter_applied s));
    (lit "scan_complete", JBool scan_complete);
    (lit "analysis_complete", JBool (scan_complete && (sn_data_xz n =? 0) && an_fields_complete a));
    (lit "response_truncated", JBool (qr_truncated rows)); (lit "total_count", JUint (qr_total rows));
    (lit "returned_count", JUint (qr_returned rows));
    (lit "truncation_scopes", truncation_scopes query (qr_truncated rows))].

(** The members added to the summary after its initializer. *)
Definition filter_summary (summary : json) : json :=
  if sl_filter_applied s then
    let summary := set_key (lit "unresolved_filter_count") (JUint (sl_unresolved s)) summary in
    if packet_enabled c then
      set_key (lit "retained_packet_count") (JUint (zlen (sl_packets s)))
        (set_key (lit "matched_packet_count") (JUint (zlen (sl_packets s))) summary)
    else set_key (lit "matched_transfer_count") (JUint (zlen (sl_transfers s))) summary
  else summary.

Definition transfer_times (query : bytes) (summary : json) : json :=
  match head (sl_transfers s), list.last (sl_transfers s) with
  | Some first, Some last =>
      if negb (sl_filter_applied s && packet_enabled c) then
        when (negb (eqs query (lit "last_transfer")))
          (set_key (lit "last_transfer_time") (JString (format_time (ssm_time last))))
          (when (negb (eqs query (lit "first_transfer")))
             (set_key (lit "first_transfer_time") (JString (format_time (ssm_time first)))) summary)
      else summary
  | _, _ => summary
  end.

Definition stall_times (summary : json) : json :=
  match head stall_list, list.last stall_list with
  | Some first, Some last =>
      set_key (lit "last_stall_time") (jat (lit "start_time") last)
        (set_key (lit "first_stall_time") (jat (lit "start_time") first) summary)
  | _, _ => summary
  end.

Definition reports_widths (query : bytes) (returned : Z) : bool :=
  sl_filter_applied s || ((0 <? returned) && negb (eqs query (lit "summary")) && negb (eqs query (lit "first_stall"))
                          && negb (eqs query (lit "last_stall")) && negb (eqs query (lit "stall_window"))).

Definition filter_note : json :=
  jobj [(lit "unresolved_filter_count", JString (lit "因所选 SOP/EOP 边界未出现在查询窗口内，或被引用字段的有效比较位含 X/Z，导致无法判断是否匹配的 transfer/packet 数；mask 为 0 的位不影响判断。"))].

Definition query_response (name query : bytes) (clock : json) (begin_time end_time : Z) (rows : QueryRows) : json :=
  let data := if sl_filter_applied s
              then set_key (lit "notes") filter_note (set_key (lit "filter") (sl_filter s) (qr_data rows)) else qr_data rows in
  let summary := filter_summary (base_summary name query clock begin_time end_time rows) in
  let summary := when (negb (eqs (stc_edge c) (lit "negedge")))
                   (set_key (lit "sample_point") (JString (stc_sample_point c))) summary in
  let summary := stall_times (transfer_times query summary) in
  ok_response (when (reports_widths query (qr_returned rows)) set_value_width_complete summary) data.
End Rows.

(** ** The engine's stream state and its actions *)

(** [ss_wave] is empty when no waveform is open; [ss_files] are the files
    written so far. *)
Record StreamState (W : Type) := MkStreamState {
  ss_wave : option W;
  stream_configs : list (bytes * StreamConfig);
  ss_files : list (bytes * bytes);
}.
Arguments MkStreamState {W}.
Arguments ss_wave {W}.
Arguments stream_configs {W}.
Arguments ss_files {W}.

Definition clear_stream_configs {W} (s : StreamState W) : StreamState W := MkStreamState (ss_wave s) [] (ss_files s).

Definition stream_value_source_entries {W} (name : bytes) (s : StreamState W) : option (list (bytes * bytes)) :=
  (fun c => [(lit "clock", stc_clock c); (lit "valid", stc_valid c)]
            ++ (if eqs (stc_ready c) [] then [] else [(lit "ready", stc_ready c)])
            ++ (if eqs (stc_backpressure c) [] then [] else [(lit "bp", stc_backpressure c)])
            ++ (if eqs (stc_data c) [] then [] else [(lit "data", stc_data c)]))
  <$> mget name (stream_configs s).

Definition clock_issue (stream : option bytes) : json :=
  let issue := jobj [(lit "code", JString (lit "CLOCK_COMPLEX"));
    (lit "message", JString (lit "clock expression is not a plain signal; edge detection uses expression dependency changes"));
    (lit "severity", JString (lit "WARNING"))] in
  match stream with Some name => set_key (lit "stream") (JString name) issue | None => issue end.

(** The issue of a clock that is not an alias. *)
Definition clock_issues (c : StreamConfig) (clock : bytes) (stream : option bytes) : list json :=
  match mget clock (stc_signals c) with Some _ => [] | None => [clock_issue stream] end.

Definition config_item (c : StreamConfig) (verbose : bool) : res json :=
  clock ← at_key (lit "clock") (stc_source c);
  let field_count := u64 (Z.of_nat (jsize (stc_beat_fields c)) + Z.of_nat (jsize (stc_packet_stable_fields c))
                          + (if jcontains (lit "data") (stc_source c) then 1 else 0)) in
  let item := jobj [(lit "name", JString (stc_name c)); (lit "sampling_mode", JString (lit "clock_edge"));
    (lit "clock", clock); (lit "edge", JString (stc_edge c)); (lit "handshake", JString (stream_handshake c));
    (lit "packet", JString (if packet_enabled c then lit "sop/eop" else lit "none"));
    (lit "field_count", JUint field_count); (lit "channel_id_valid", JString (stc_channel_id_valid c));
    (lit "allow_interleaving", JBool (stc_allow_interleaving c))] in
  let item := when (negb (eqs (stc_edge c) (lit "negedge")))
                (set_key (lit "sample_point") (JString (stc_sample_point c))) item in
  Ret (when verbose (set_key (lit "config") (stc_source c)) item).

Fixpoint config_items (verbose : bool) (l : list (bytes * StreamConfig)) : res (list json) :=
  match l with
  | [] => Ret []
  | (_, c) :: l' => item ← config_item c verbose; rest ← config_items verbose l'; Ret (item :: rest)
  end.

(** Members copied from one object to another. *)
Definition copy_keys (keys : list bytes) (base target : json) : json :=
  foldl (fun t k => match jget k base with Some v => set_key k v t | None => t end) target keys.

Definition analysis_keys : list bytes := map lit [
  "stream"; "sampling_mode"; "clock"; "edge"; "sample_point"; "sample_time_semantics"; "handshake"; "packet_enabled";
  "clock_edges"; "vld_cycles"; "transfer_count"; "stall_cycles"; "stall_windows"; "complete_packet_count";
  "partial_packet_count"; "packet_count_status"; "control_xz_count"; "data_xz_count"; "ready_bp_conflict_count";
  "packet_stable_mismatch_count"; "requested_range"; "scanned_range"; "first_transfer_time"; "last_transfer_time";
  "first_stall_time"; "last_stall_time"]%string.

Section Actions.
Context {W : Type} `{EngineWave W}.
Context (getenv : bytes -> option bytes) (file : bytes -> option bytes) (parse : bytes -> bytes + json)
  (trunc : bytes -> Z) (dump : json -> bytes) (json_equal : json -> json -> bool).
Abbreviation St := (StreamState W).

Definition check_waveform (action : bytes) : trial json St unit := fun s =>
  match ss_wave s with
  | Some _ => (Ret (inr tt), s)
  | None => (Ret (inl (action_error (lit "WAVEFORM_NOT_LOADED") (lit "action requires waveform file: " ++ action))), s)
  end.

Definition get_config (name : bytes) : trial json St StreamConfig := fun s =>
  match mget name (stream_configs s) with
  | None => (Ret (inl (action_error (lit "CONFIG_NOT_FOUND") (lit "stream config not found: " ++ name))), s)
  | Some c => (Ret (inr c), s)
  end.

(** A step of the waveform; there is one once [check_waveform] has passed. *)
Definition wave_step {E A} (m : trial E W A) : trial E St A := fun s =>
  match ss_wave s with
  | None => (UB, s)
  | Some w => let '(r, w) := m w in (r, MkStreamState (Some w) (stream_configs s) (ss_files s))
  end.

Definition request_args (req : json) : res json := value_or Ret (lit "args") (JObject []) req.

Definition stream_config_list (req : json) : act St json := answered (
  _ ← check_waveform (lit "stream.config.list");
  args ← pure_step (request_args req);
  output ← pure_step (value_or Ret (lit "output") (JObject []) args);
  verbose ← pure_step (value_or as_bool (lit "verbose") false output);
  s ← run_step get_state;
  items ← pure_step (config_items verbose (stream_configs s));
  mret (ok_response (jobj [(lit "count", JUint (zlen items))]) (jobj [(lit "streams", JArray items)]))).

Definition stream_config_get (req : json) : act St json := answered (
  _ ← check_waveform (lit "stream.config.get");
  args ← pure_step (request_args req);
  name ← pure_step (string_at_key (lit "name") args);
  c ← get_config name;
  mret (ok_response (jobj [(lit "name", JString name)]) (jobj [(lit "stream", stc_source c)]))).

(** The document of a load request. *)
Definition config_document (args : json) : trial json St json :=
  if jcontains (lit "config") args then pure_step (at_key (lit "config") args)
  else
    path ← pure_step (string_at_key (lit "config_path") args);
    match file path with
    | None => stop (action_error (lit "INVALID_FIELD") (lit "cannot read stream config_path"))
    | Some contents =>
        match parse contents with
        | inl _ => stop (action_error (lit "INVALID_FIELD") (lit "invalid stream config JSON"))
        | inr document => mret document
        end
    end.

Definition put_configs (configs : list (bytes * StreamConfig)) : trial json St unit := fun s =>
  (Ret (inr tt), MkStreamState (ss_wave s) configs (ss_files s)).

(** One stream of the document: its name, its issues and its validation. *)
Definition load_stream (item : json) : trial json St (bytes * list json * json) :=
  parsed ← pure_step (parse_stream item);
  match parsed with
  | inl message => stop (invalid_stream_config_error message)
  | inr c =>
      validation ← wave_step (run_step (validate_stream c true));
      if negb (bool_decide (snd validation = true))
      then stop (action_error (lit "CONFIG_SIGNAL_NOT_FOUND") (lit "stream config signal not found"))
      else
        clock ← pure_step (string_at_key (lit "clock") item);
        s ← run_step get_state;
        _ ← put_configs (mset (stc_name c) c (stream_configs s));
        mret (stc_name c, clock_issues c clock (Some (stc_name c)), fst validation)
  end.

Fixpoint load_streams (items : list json) : trial json St (list bytes * list json * list json) :=
  match items with
  | [] => mret ([], [], [])
  | item :: items' =>
      loaded ← load_stream item;
      rest ← load_streams items';
      let '(name, issues, validation) := loaded in
      let '(names, all_issues, validations) := rest in
      mret (name :: names, issues ++ all_issues, validation :: validations)
  end.

Definition stream_config_load (req : json) : act St json := answered (
  _ ← check_waveform (lit "stream.config.load");
  args ← pure_step (request_args req);
  document ← config_document args;
  mode ← pure_step (value_or as_string (lit "mode") (lit "replace") args);
  s ← run_step get_state;
  _ ← put_configs (if eqs mode (lit "replace") then [] else stream_configs s);
  streams ← pure_step (at_key (lit "streams") document);
  loaded ← load_streams (json_items streams);
  let '(names, issues, validations) := loaded in
  mret (ok_response (jobj [(lit "loaded", JUint (zlen names)); (lit "mode", JString mode)])
          (jobj [(lit "streams", JArray (map JString names)); (lit "issues", JArray issues);
                 (lit "validation", JArray validations); (lit "recommended_actions", stream_recommendations)]))).

Definition stream_describe (req : json) : act St json := answered (
  _ ← check_waveform (lit "stream.describe");
  args ← pure_step (request_args req);
  name ← pure_step (string_at_key (lit "stream") args);
  c ← get_config name;
  validation ← wave_step (run_step (validate_stream c false));
  clock ← pure_step (string_at_key (lit "clock") (stc_source c));
  mret (ok_response
    (jobj [(lit "stream", JString name); (lit "handshake", JString (stream_handshake c));
           (lit "packet_enabled", JBool (packet_enabled c))])
    (jobj [(lit "config", stc_source c); (lit "issues", JArray (clock_issues c clock None));
           (lit "validation", fst validation);
           (lit "semantics", jobj [(lit "transfer", JString (stream_handshake c));
              (lit "stall", JString (if eqs (stc_ready c) [] && eqs (stc_backpressure c) [] then lit "none"
                                     else lit "enabled"))])]))).

(** *** [stream.query] *)

Definition packet_query (query : bytes) : bool :=
  eqs query (lit "first_packet") || eqs query (lit "last_packet") || eqs query (lit "packet_at")
  || eqs query (lit "packet_window").

Definition failing {A} (err_code : bytes) (r : bytes + A) : trial json W A :=
  match r with inl message => stop (action_error err_code message) | inr a => mret a end.

(** The message of a failed step becomes an error response. *)
Definition refuse {A} (err_code : bytes) (m : trial bytes W A) : trial json W A := fun w =>
  match m w with
  | (Ret (inl message), w') => (Ret (inl (action_error err_code message)), w')
  | (Ret (inr a), w') => (Ret (inr a), w')
  | (UB, w') => (UB, w')
  | (Throw what, w') => (Throw what, w')
  end.

Definition run_query (c : StreamConfig) (name : bytes) (args : json) : trial json W json :=
  compiled ← refuse (lit "CONFIG_SIGNAL_NOT_FOUND") (compile_stream_expressions c);
  w ← run_step get_state;
  range ← pure_step (value_or Ret (lit "time_range") (JObject []) args);
  lower ← pure_step (window_bound w range (lit "begin") false (ew_min_time w));
  begin_time ← failing (lit "INVALID_TIME") lower;
  upper ← pure_step (window_bound w range (lit "end") true (ew_max_time w));
  end_time ← failing (lit "INVALID_TIME") upper;
  _ ← (if end_time <? begin_time then stop (action_error (lit "TIME_RANGE_INVALID") (lit "end is before begin"))
       else mret tt);
  max_rows ← pure_step (value_or (as_number trunc i32) (lit "line_limit") 1000 args);
  format_text ← pure_step (value_or as_string (lit "value_format") (lit "hex") args);
  unit_text ← pure_step (value_or as_string (lit "render_time_unit") (lit "ns") args);
  query ← pure_step (string_at_key (lit "query") args);
  _ ← (if negb (packet_enabled c) && packet_query query
       then stop (action_error (lit "PACKET_NOT_CONFIGURED") (lit "stream has no sop/eop packet boundaries"))
       else mret tt);
  budget_error ← pure_step (stream_analysis_budget_error getenv dump c args);
  _ ← match budget_error with Some e => stop e | None => mret tt end;
  scanned ← run_step (scan_stream_samples c compiled (ew_time_idx_of w begin_time) (ew_time_idx_of w end_time)
                        (default Hex (parse_value_render_format format_text)));
  w ← run_step get_state;
  (* a refused text leaves [unit] uninitialized, and the times below read it *)
  unit ← pure_step (match parse_time_render_unit unit_text with Some u => Ret u | None => UB end);
  let format_time t := ew_format_time w t unit in
  analysis ← pure_step (analyze json_equal format_time c (fst scanned) (snd scanned));
  selection ← pure_step (select c args analysis);
  rows ← pure_step (query_rows format_time c analysis selection trunc args query max_rows);
  clock ← pure_step (at_key (lit "clock") (stc_source c));
  mret (query_response format_time c analysis selection name query clock begin_time end_time rows).

Definition stream_query (req : json) : act St json := answered (
  _ ← check_waveform (lit "stream.query");
  args ← pure_step (request_args req);
  name ← pure_step (string_at_key (lit "stream") args);
  c ← get_config name;
  wave_step (run_query c name args)).

(** The query another handler makes: its response ends the handler unless it
    is a success. *)
Definition sub_query (args : json) : trial json St json :=
  analyzed ← run_step (stream_query (jobj [(lit "args", args)]));
  ok ← pure_step (value_or as_bool (lit "ok") false analyzed);
  if bool_decide (ok = true) then mret analyzed else stop analyzed.

(** *** [stream.validate] *)

Definition dynamic_issue (base : json) (counter err_code message : bytes) : res (list json) :=
  n ← value_or (as_number trunc u32) counter 0 base;
  Ret (if 0 <? n then [jobj [(lit "code", JString err_code); (lit "severity", JString (lit "WARNING"));
                             (lit "message", JString message)]] else []).

Definition dynamic_issues (base : json) : res (list json) :=
  control ← dynamic_issue base (lit "control_xz_count") (lit "control_xz")
              (lit "stream control signals contain X/Z at sampled clock edges");
  data ← dynamic_issue base (lit "data_xz_count") (lit "data_xz") (lit "stream transfer data contains X/Z");
  conflict ← dynamic_issue base (lit "ready_bp_conflict_count") (lit "READY_BP_CONFLICT") (lit "observed vld=1,rdy=1,bp=1");
  mismatch ← dynamic_issue base (lit "packet_stable_mismatch_count") (lit "PACKET_STABLE_FIELD_MISMATCH")
               (lit "observed packet_stable_fields changing within packet");
  Ret (control ++ data ++ conflict ++ mismatch).

Definition erase_key (k : bytes) (j : json) : res json :=
  match j with JObject m => Ret (JObject (mdel k m)) | _ => Throw "type_error.307" end.

(** The issues, the dynamic report, [scan_complete] and [analysis_complete]. *)
Definition validate_dynamic (args : json) : trial json St (list json * json * bool * bool) :=
  query_args ← pure_step (erase_key (lit "dynamic") args);
  analyzed ← sub_query (set_key (lit "query") (JString (lit "summary")) query_args);
  base ← pure_step (at_key (lit "summary") analyzed);
  scan_flag ← pure_step (at_key (lit "scan_complete") base);
  scan_complete ← pure_step (as_bool scan_flag);
  analysis_flag ← pure_step (at_key (lit "analysis_complete") base);
  analysis_complete ← pure_step (as_bool analysis_flag);
  issues ← pure_step (dynamic_issues base);
  mret (issues, copy_keys analysis_keys base (JObject []), scan_complete, analysis_complete).

Definition stream_validate (req : json) : act St json := answered (
  _ ← check_waveform (lit "stream.validate");
  args ← pure_step (request_args req);
  name ← pure_step (string_at_key (lit "stream") args);
  c ← get_config name;
  validation ← wave_step (run_step (validate_stream c false));
  let static_ok : bool := snd validation in
  clock ← pure_step (string_at_key (lit "clock") (stc_source c));
  let static_issues :=
    (if static_ok then []
     else [jobj [(lit "code", JString (lit "signal_not_found")); (lit "severity", JString (lit "ERROR"));
                 (lit "message", JString (lit "stream contains unresolved signals"))]])
    ++ clock_issues c clock None in
  dynamic_requested ← pure_step (value_or as_bool (lit "dynamic") true args);
  found ← (if bool_decide (dynamic_requested = true) && static_ok then validate_dynamic args
           else mret ([], JObject [], static_ok, static_ok));
  let '(issues, dynamic, scan_complete, analysis_complete) := found in
  let issues := static_issues ++ issues in
  limit ← pure_step (value_or (as_number trunc u32) (lit "line_limit") 1000 args);
  let returned := take (Z.to_nat limit) issues in
  let response_truncated := zlen returned <? zlen issues in
  let scopes := (if bool_decide (dynamic_requested = true) && (negb scan_complete || negb analysis_complete)
                 then [JString (lit "analysis_samples")] else [])
                ++ (if response_truncated then [JString (lit "response_issues")] else []) in
  mret (ok_response
    (jobj [(lit "stream", JString name); (lit "ok", JBool static_ok); (lit "static_validation_complete", JBool true);
           (lit "dynamic_requested", JBool dynamic_requested); (lit "scan_complete", JBool scan_complete);
           (lit "analysis_complete", JBool analysis_complete); (lit "response_truncated", JBool response_truncated);
           (lit "total_count", JUint (zlen issues)); (lit "returned_count", JUint (zlen returned));
           (lit "truncation_scopes", JArray scopes)])
    (jobj [(lit "issues", JArray returned); (lit "dynamic", dynamic)]))).
End Actions.
