(* ===== verification/StreamExport.v ===== *)
(** * StreamExport: writing the result of a stream query

    Models [StreamExportHandler] of
    [src/engine/actions/stream/stream_actions.cpp]: the query it makes, the
    rows file (comma or tab separated), the metadata file beside it and the
    response. The rows are the ones of the query's response, so they are read
    as JSON. A file that the handler cannot open, the printers and the parser
    of ordered JSON are arguments. *)

From S2P Require Import Prelude CLib Json LogicValue Waveform SessionTypes Engine Apb Stream StreamQuery.

Open Scope Z_scope.

(** ** Rows *)

(** Cells with the separator between them, and the end of the line. *)
Fixpoint join_cells (separator : ascii) (cells : list bytes) : bytes :=
  match cells with
  | [] => []
  | [cell] => cell
  | cell :: cells' => cell ++ separator :: join_cells separator cells'
  end.
Definition cell_line (separator : ascii) (cells : list bytes) : bytes := join_cells separator cells ++ [newline].

Definition separator_of (file_format : bytes) : ascii := if eqs file_format (lit "csv") then ","%char else chr 9.

(** The value of [owner[member][field]], or nothing when there is none. *)
Definition member_text (owner : json) (member field : bytes) : res bytes :=
  match jget member owner with
  | None => Ret []
  | Some inner =>
      match jget field inner with
      | None => Ret []
      | Some v => value_or as_string (lit "value") [] v
      end
  end.

Definition channel_cell (row : json) : res bytes :=
  match jget (lit "channel_id") row with
  | Some v => value_or as_string (lit "value") [] v
  | None => Ret []
  end.

Definition flag_cell (row : json) (k : bytes) : res bytes :=
  v ← at_key k row; b ← as_bool v; Ret (match b with true => lit "1" | false => lit "0" end).

Section Rows.
Context (dump : json -> bytes) (c : StreamConfig) (separator : ascii).

Definition number_cell (row : json) (k : bytes) : res bytes := v ← at_key k row; Ret (dump v).

(** The names of the beat fields, the data first, and of the stable fields. *)
Definition beat_field_names : list bytes :=
  foldl (fun l k => if existsb (eqs k) l then l else l ++ [k])
    (if jcontains (lit "data") (stc_source c) then [lit "data"] else []) (map fst (json_entries (stc_beat_fields c))).
Definition stable_field_names : list bytes := map fst (json_entries (stc_packet_stable_fields c)).

Definition has_channel : bool := negb (eqs (stc_channel_id c) []).

Definition transfer_header : bytes :=
  cell_line separator (map lit ["cycle"; "time"; "transfer"; "stall"; "vld"; "rdy"; "bp"; "sop"; "eop"]%string
    ++ (if has_channel then [lit "channel_id"] else []) ++ beat_field_names).

Definition transfer_line (row : json) : res bytes :=
  cycle ← number_cell row (lit "cycle");
  time ← string_at_key (lit "time") row;
  flags ← mapM (flag_cell row) (map lit ["transfer"; "stall"; "vld"; "rdy"; "bp"; "sop"; "eop"]%string);
  channel ← (if has_channel then cell ← channel_cell row; Ret [cell] else Ret []);
  fields ← mapM (member_text row (lit "fields")) beat_field_names;
  Ret (cell_line separator ([cycle; time] ++ flags ++ channel ++ fields)).

Definition packet_header : bytes :=
  cell_line separator (map lit ["packet_index"; "channel_id"; "start_time"; "end_time"; "start_cycle"; "end_cycle";
                                "beat_count"; "partial"; "packet_stable_mismatch_count"]%string
    ++ map (fun f => lit "packet_stable_" ++ f) stable_field_names
    ++ concat (map (fun f => [lit "first_" ++ f; lit "last_" ++ f]) beat_field_names)).

Definition packet_line (packet : json) : res bytes :=
  partial_begin ← (v ← at_key (lit "partial_begin") packet; as_bool v);
  partial ← (if bool_decide (partial_begin = true) then Ret true else v ← at_key (lit "partial_end") packet; as_bool v);
  index ← number_cell packet (lit "packet_index");
  channel ← channel_cell packet;
  start_time ← string_at_key (lit "start_time") packet;
  end_time ← string_at_key (lit "end_time") packet;
  start_cycle ← number_cell packet (lit "start_cycle");
  end_cycle ← number_cell packet (lit "end_cycle");
  beat_count ← number_cell packet (lit "beat_count");
  mismatches ← at_key (lit "packet_stable_mismatches") packet;
  stable ← mapM (member_text packet (lit "packet_stable_fields")) stable_field_names;
  fields ← mapM (fun f => first ← member_text packet (lit "first_fields") f;
                          last ← member_text packet (lit "last_fields") f; Ret [first; last]) beat_field_names;
  Ret (cell_line separator ([index; channel; start_time; end_time; start_cycle; end_cycle; beat_count;
                             if bool_decide (partial = true) then lit "true" else lit "false";
                             udec (Z.of_nat (jsize mismatches))] ++ stable ++ concat fields)).

Definition beat_header : bytes :=
  cell_line separator (map lit ["packet_index"; "channel_id"; "beat_index"; "cycle"; "time"]%string
    ++ beat_field_names ++ map (fun f => lit "packet_stable_" ++ f) stable_field_names).

Definition beat_line (row : json) : res bytes :=
  index ← number_cell row (lit "packet_index");
  channel ← channel_cell row;
  beat ← number_cell row (lit "beat_index");
  cycle ← number_cell row (lit "cycle");
  time ← string_at_key (lit "time") row;
  fields ← mapM (member_text row (lit "fields")) beat_field_names;
  stable ← mapM (member_text row (lit "packet_stable_fields")) stable_field_names;
  Ret (cell_line separator ([index; channel; beat; cycle; time] ++ fields ++ stable)).

Definition rows_text (kind : bytes) (preview : list json) : res bytes :=
  let '(header, line) :=
    if eqs kind (lit "transfer") then (transfer_header, transfer_line)
    else if eqs kind (lit "packet") then (packet_header, packet_line)
    else (beat_header, beat_line) in
  lines ← mapM line preview;
  Ret (header ++ concat lines).
End Rows.

(** ** Metadata *)

(** An [ordered_json] object keeps its members in the order of insertion. *)
Fixpoint ordered_set (k : bytes) (v : json) (o : list (bytes * json)) : list (bytes * json) :=
  match o with
  | [] => [(k, v)]
  | (k', v') :: o' => if eqs k k' then (k, v) :: o' else (k', v') :: ordered_set k v o'
  end.
Definition ordered_copy (convert : json -> json) (keys : list bytes) (source : json) (o : list (bytes * json))
    : list (bytes * json) :=
  foldl (fun o k => match jget k source with Some v => ordered_set k (convert v) o | None => o end) o keys.

Definition meta_summary_keys : list bytes := map lit [
  "stream"; "sampling_mode"; "clock"; "edge"; "sample_point"; "sample_time_semantics"; "handshake"; "packet_enabled";
  "clock_edges"; "vld_cycles"; "transfer_count"; "stall_cycles"; "stall_windows"; "complete_packet_count";
  "partial_packet_count"; "packet_count_status"; "control_xz_count"; "data_xz_count"; "ready_bp_conflict_count";
  "packet_stable_mismatch_count"; "scan_complete"; "analysis_complete"; "response_truncated"; "total_count";
  "returned_count"; "truncation_scopes"]%string.

Section Meta.
(** [OrderedJson::parse(v.dump())] *)
Context (reordered : json -> json).

Definition ordered_range (source : json) (k : bytes) (o : list (bytes * json)) : res (list (bytes * json)) :=
  match jget k source with
  | None => Ret o
  | Some range =>
      first ← at_key (lit "begin") range;
      last ← at_key (lit "end") range;
      Ret (ordered_set k (JObject [(lit "begin", first); (lit "end", last)]) o)
  end.

Definition ordered_summary (source : json) : res json :=
  let result := ordered_copy reordered meta_summary_keys source [] in
  result ← ordered_range source (lit "requested_range") result;
  result ← ordered_range source (lit "scanned_range") result;
  Ret (JObject (ordered_copy id (map lit ["first_transfer_time"; "last_transfer_time"; "first_stall_time";
                                          "last_stall_time"]%string) source result)).

Definition field_row (scope : bytes) (item : bytes * json) : json :=
  JObject [(lit "name", JString (fst item)); (lit "expr", snd item); (lit "scope", JString scope)].

Definition field_rows (c : StreamConfig) : json :=
  JArray ((match jget (lit "data") (stc_source c) with
           | Some e => [field_row (lit "beat") (lit "data", e)]
           | None => []
           end)
          ++ map (field_row (lit "beat")) (json_entries (stc_beat_fields c))
          ++ map (field_row (lit "packet_stable")) (json_entries (stc_packet_stable_fields c))).

Definition meta_json (c : StreamConfig) (name kind : bytes) (meta_base : json) (row_count : Z) : res json :=
  let meta := ordered_copy id (map lit ["sampling_mode"; "clock"; "edge"; "sample_point"; "sample_time_semantics";
                                        "handshake"; "packet_enabled"]%string) meta_base
                [(lit "stream", JString name); (lit "kind", JString kind)] in
  summary ← ordered_summary meta_base;
  Ret (JObject (ordered_set (lit "fields") (field_rows c) (ordered_set (lit "summary") summary
                  (ordered_set (lit "row_count") (JUint row_count) meta)))).
End Meta.

(** ** The handler *)

Section ExportRun.
Context {W : Type} `{EngineWave W}.
Context (getenv : bytes -> option bytes) (trunc : bytes -> Z) (dump : json -> bytes) (json_equal : json -> json -> bool)
  (reordered : json -> json) (dump_pretty : json -> bytes) (can_open : bytes -> bool).
Abbreviation St := (StreamState W).

(** [std::ofstream file(path)]: an existing file is emptied. *)
Definition open_file (path : bytes) (s : St) : St :=
  if can_open path then MkStreamState (ss_wave s) (stream_configs s) (mset path [] (ss_files s)) else s.
Definition put_file (path contents : bytes) : trial json St unit := fun s =>
  (Ret (inr tt), MkStreamState (ss_wave s) (stream_configs s) (mset path contents (ss_files s))).

(** The two files; the member [output] of the summary. The text of the rows
    is written as a whole. *)
Definition write_files (c : StreamConfig) (name kind : bytes) (output preview meta_base : json) : trial json St json :=
  path ← pure_step (string_at_key (lit "path") output);
  file_format ← pure_step (value_or as_string (lit "file_format") (lit "tsv") output);
  let meta_path := path ++ lit ".meta.json" in
  s ← run_step get_state;
  _ ← run_step (put_state (open_file meta_path (open_file path s)));
  if negb (can_open path && can_open meta_path)
  then stop (action_error (lit "OUTPUT_WRITE_FAILED") (lit "cannot open stream export output"))
  else
    rows ← pure_step (rows_text dump c (separator_of file_format) kind (json_items preview));
    _ ← put_file path rows;
    meta ← pure_step (meta_json reordered c name kind meta_base (Z.of_nat (jsize preview)));
    _ ← put_file meta_path (dump_pretty meta ++ [newline]);
    mret (jobj [(lit "path", JString path); (lit "meta_path", JString meta_path); (lit "file_format", JString file_format)]).

Definition export_summary (base : json) (written : bool) (output_summary : json) (row_count returned_count line_limit : Z)
    (kind : bytes) : json :=
  let response_truncated := negb written && (returned_count <? row_count) in
  let summary := copy_keys (analysis_keys ++ [lit "scan_complete"; lit "analysis_complete"]) base (JObject []) in
  let summary := foldl (fun t kv => set_key (fst kv) (snd kv) t) summary [
    (lit "response_truncated", JBool response_truncated); (lit "total_count", JUint row_count);
    (lit "returned_count", JUint returned_count);
    (lit "truncation_scopes", JArray (if response_truncated then [JString (lit "response_preview")] else []));
    (lit "status", JString (if written then lit "written" else lit "preview"));
    (lit "output_written", JBool written); (lit "row_count", JUint row_count); (lit "line_limit", JUint line_limit);
    (lit "kind", JString kind)] in
  if written then set_key (lit "output") output_summary summary
  else copy_keys [lit "value_width_complete"; lit "width_diagnostics"] base summary.

Definition stream_export (req : json) : act St json := answered (
  _ ← check_waveform (lit "stream.export");
  args ← pure_step (request_args req);
  name ← pure_step (string_at_key (lit "stream") args);
  c ← get_config name;
  let written := match jget (lit "output") args with Some output => jcontains (lit "path") output | None => false end in
  kind ← pure_step (value_or as_string (lit "kind") (lit "transfer") args);
  line_limit ← pure_step (value_or (as_number trunc u32) (lit "line_limit") 16 args);
  let query_limit := if written then int_max else line_limit in
  erased ← pure_step (a ← erase_key (lit "kind") args; erase_key (lit "output") a);
  let is_packet := eqs kind (lit "packet") in
  let query_args := set_key (lit "query") (JString (if is_packet then lit "packet_window" else lit "transfer_window"))
                      (set_key (lit "line_limit") (JUint query_limit) erased) in
  analyzed ← sub_query getenv trunc dump json_equal query_args;
  data ← pure_step (at_key (lit "data") analyzed);
  preview ← pure_step (at_key (if is_packet then lit "packets" else lit "rows") data);
  meta_analyzed ← (if written && is_packet
                   then sub_query getenv trunc dump json_equal
                          (set_key (lit "query") (JString (lit "transfer_window")) query_args)
                   else mret analyzed);
  output_summary ← (if written then
                      output ← pure_step (at_key (lit "output") args);
                      meta_base ← pure_step (at_key (lit "summary") meta_analyzed);
                      write_files c name kind output preview meta_base
                    else mret JNull);
  base ← pure_step (at_key (lit "summary") analyzed);
  row_count ← pure_step (v ← at_key (lit "total_count") base; as_number trunc u64 v);
  mret (ok_response (export_summary base written output_summary row_count (Z.of_nat (jsize preview)) line_limit kind)
          (if written then JObject [] else jobj [(lit "preview", preview)]))).
End ExportRun.
