(* ===== verification/StreamPackets.v ===== *)
(** * StreamPackets: packets, stall windows and filters of a stream query

    The loop of a query assembles packets of several channels at once. Each
    channel is shown to be cut exactly at its packet boundaries: after a beat
    with end of packet and before a beat with start of packet. The stall
    windows are the maximal runs of stalled samples, and the three-valued
    field filters decide what every completion of the unknown bits decides. *)

From stdpp Require Import sorting.
From S2P Require Import Prelude CLib Json LogicValue ExprParser Waveform ExprEval SessionTypes Sorting Engine Apb Stream StreamQuery.

Open Scope Z_scope.

(** ** Runs between packet boundaries *)

(** The beats of one channel with their places in the list of transfers. *)
Definition channel_items (key : bytes) (l : list (bytes * StreamSample)) : list (nat * StreamSample) :=
  map (fun x => (fst x, snd (snd x))) (List.filter (fun x => eqs (fst (snd x)) key) (imap pair l)).

(** Whether a packet ends between two successive beats of a channel. *)
Definition cut (t u : StreamSample) : bool := ssm_eop t || ssm_sop u.

Definition prepend (i : nat) (cuts : bool) (rs : list (list nat)) : list (list nat) :=
  match rs with
  | run :: rs' => if cuts then [i] :: rs else (i :: run) :: rs'
  | [] => [[i]]
  end.
Fixpoint runs (items : list (nat * StreamSample)) : list (list nat) :=
  match items with
  | [] => []
  | (i, t) :: items' => prepend i (match items' with (_, u) :: _ => cut t u | [] => true end) (runs items')
  end.

(** The last run grown by one beat. *)
Fixpoint grow (i : nat) (rs : list (list nat)) : list (list nat) :=
  match rs with
  | [] => [[i]]
  | [run] => [run ++ [i]]
  | run :: rs' => run :: grow i rs'
  end.

Lemma grow_snoc i rs run : grow i (rs ++ [run]) = rs ++ [run ++ [i]].
Proof. induction rs as [|r rs IH]; [done|]. cbn [app grow]. rewrite IH. by destruct rs. Qed.

Lemma runs_nil items : runs items = [] -> items = [].
Proof. destruct items as [|[i t] items]; [done|]. cbn [runs]. unfold prepend. repeat case_match; done. Qed.

Lemma prepend_app i cuts rs run : rs <> [] -> prepend i cuts (rs ++ [run]) = prepend i cuts rs ++ [run].
Proof. destruct rs as [|r rs]; [done|]. intros _. cbn. by destruct cuts. Qed.

Lemma prepend_grow i cuts j rs : rs <> [] -> prepend i cuts (grow j rs) = grow j (prepend i cuts rs).
Proof. destruct rs as [|r [|r' rs]]; [done|..]; intros _; cbn; by destruct cuts. Qed.

Lemma runs_snoc items i t : runs (items ++ [(i, t)]) =
  match list.last items with
  | Some (_, u) => if cut u t then runs items ++ [[i]] else grow i (runs items)
  | None => [[i]]
  end.
Proof.
  induction items as [|[j u] items IH]; [done|]. cbn [app runs]. rewrite IH. destruct items as [|[j' u'] items].
  { cbn. by destruct (cut u t). }
  assert (runs ((j', u') :: items) <> []) as Hne by (intros ?%runs_nil; done).
  change (list.last ((j, u) :: (j', u') :: items)) with (list.last ((j', u') :: items)).
  destruct (list.last ((j', u') :: items)) as [[j2 u2]|] eqn:E; [|by apply last_None in E].
  cbn [app]. destruct (cut u2 t); [by apply prepend_app|by apply prepend_grow].
Qed.

Lemma concat_prepend i cuts rs : concat (prepend i cuts rs) = i :: concat rs.
Proof. destruct rs as [|r rs]; [done|]. cbn. by destruct cuts. Qed.

(** The runs are a partition of the beats, in order. *)
Lemma concat_runs items : concat (runs items) = map fst items.
Proof. induction items as [|[i t] items IH]; [done|]. cbn [runs map fst]. by rewrite concat_prepend, IH. Qed.

Lemma prepend_nonempty i cuts rs : Forall (fun run => run <> []) rs -> Forall (fun run => run <> []) (prepend i cuts rs).
Proof. destruct 1 as [|r rs Hr Hrs]; cbn; [by repeat constructor|]. destruct cuts; by repeat constructor. Qed.

Lemma runs_nonempty items : Forall (fun run => run <> []) (runs items).
Proof. induction items as [|[i t] items IH]; [constructor|]. cbn [runs]. by apply prepend_nonempty. Qed.

Lemma channel_items_snoc key l k t : channel_items key (l ++ [(k, t)]) =
  channel_items key l ++ (if eqs k key then [(length l, t)] else []).
Proof.
  unfold channel_items. rewrite imap_app, List.filter_app, map_app. f_equal. cbn. rewrite Nat.add_0_r.
  by destruct (eqs k key).
Qed.

Lemma channel_items_elem key l i t : (i, t) ∈ channel_items key l <-> l !! i = Some (key, t).
Proof.
  unfold channel_items. rewrite list_elem_of_In, in_map_iff. split.
  - intros ([j [k u]] & E & Hin). cbn in E. injection E as -> ->. apply List.filter_In in Hin as [Hin Hk].
    cbn in Hk. apply eqs_true in Hk as ->. apply list_elem_of_In, elem_of_lookup_imap in Hin as (n & x & E & Hx).
    by injection E as -> <-.
  - intros Hl. exists (i, (key, t)). split; [done|]. apply List.filter_In. split; [|apply eqs_refl].
    apply list_elem_of_In, elem_of_lookup_imap. eauto.
Qed.

Lemma channel_items_sorted key l : StronglySorted lt (map fst (channel_items key l)).
Proof.
  induction l as [|[k t] l IH] using rev_ind; [constructor|]. rewrite channel_items_snoc, map_app.
  destruct (eqs k key); cbn [map]; [|by rewrite app_nil_r].
  apply StronglySorted_app. split; [|split; [done|by repeat constructor]].
  intros i j Hi ->%list_elem_of_singleton. cbn. apply list_elem_of_fmap in Hi as ([i' u] & -> & Hi).
  apply channel_items_elem, lookup_lt_Some in Hi. done.
Qed.

(** ** The state of the assembly *)

Section Assembly.
Context (json_equal : json -> json -> bool) (format_time : Z -> bytes).

(** The number, the first beat and the partial flag of every packet. *)
Definition entry : Type := Z * option nat * bool.
Definition packet_entry (p : Packet) : entry := (pk_index p, head (pk_beats p), pk_partial_begin p).
Definition state_entry (kst : bytes * PacketState) : entry :=
  (ps_packet_index (snd kst), head (ps_beats (snd kst)), ps_partial_begin (snd kst)).
Definition entries (r : PacketRun) : list entry := map packet_entry (pr_completed r) ++ map state_entry (pr_active r).

Definition done_runs (key : bytes) (dn : list (bytes * Packet)) : list (list nat) :=
  map (fun kp => pk_beats (snd kp)) (List.filter (fun kp => eqs (fst kp) key) dn).
Definition open_runs (key : bytes) (r : PacketRun) : list (list nat) :=
  match mget key (pr_active r) with Some st => [ps_beats st] | None => [] end.

Definition is_partial (p : Packet) : bool := pk_partial_begin p || pk_partial_end p.
Definition eop_at (l : list (bytes * StreamSample)) (b : nat) : option bool := (fun x => ssm_eop (snd x)) <$> l !! b.

(** After the transfers [l] of [all]; [dn] are the completed packets with
    their channels. *)
Record assembled (all l : list (bytes * StreamSample)) (dn : list (bytes * Packet)) (r : PacketRun) : Prop := {
  as_prefix : exists rest, all = l ++ rest;
  as_sorted : msorted (pr_active r) = true;
  as_done : pr_completed r = map snd dn;
  as_runs : forall key, done_runs key dn ++ open_runs key r = runs (channel_items key l);
  as_ids : map (fun e : entry => fst (fst e)) (entries r) ≡ₚ seqZ 0 (pr_next_packet_index r);
  as_next : 0 <= pr_next_packet_index r <= zlen l;
  as_entry : forall e, e ∈ entries r -> exists b k t, e.1.2 = Some b /\ l !! b = Some (k, t) /\ e.2 = negb (ssm_sop t);
  as_order : forall e1 e2 b1 b2, e1 ∈ entries r -> e2 ∈ entries r -> e1.1.1 < e2.1.1 ->
    e1.1.2 = Some b1 -> e2.1.2 = Some b2 -> (b1 < b2)%nat;
  as_store : map ssm_eop (pr_transfers r) = map (fun x => ssm_eop (snd x)) all;
  as_ends : forall p, p ∈ pr_completed r -> exists b, list.last (pk_beats p) = Some b /\
    eop_at l b = Some (negb (pk_partial_end p));
  as_complete : pr_complete_packets r = zlen (List.filter (fun p => negb (is_partial p)) (pr_completed r));
  as_partial : pr_partial_packets r = zlen (List.filter is_partial (pr_completed r));
}.

Lemma mark_beats_map {B} (f : StreamSample -> B) index beats : (forall i j s, f (set_position i j s) = f s) ->
  forall j ts, map f (mark_beats index beats j ts) = map f ts.
Proof.
  intros Hf. induction beats as [|b beats IH]; intros j ts; cbn [mark_beats]; [done|]. rewrite IH.
  apply list_eq. intros n. change (map f) with (fmap (M := list) f). rewrite !list_lookup_fmap.
  destruct (decide (n = b)) as [->|Hn].
  - rewrite list_lookup_alter_eq. destruct (ts !! b); cbn; [by rewrite Hf|done].
  - by rewrite list_lookup_alter_ne.
Qed.

Lemma eop_at_store all l r b x : (exists rest, all = l ++ rest) ->
  map ssm_eop (pr_transfers r) = map (fun x => ssm_eop (snd x)) all ->
  eop_at l b = Some x -> ssm_eop <$> pr_transfers r !! b = Some x.
Proof.
  intros [rest ->] Hs He. rewrite <- list_lookup_fmap. change (ssm_eop <$> pr_transfers r) with (map ssm_eop (pr_transfers r)).
  rewrite Hs. change (map ?f ?y) with (f <$> y). rewrite list_lookup_fmap. unfold eop_at in He.
  destruct (l !! b) as [y|] eqn:E; [|done]. by rewrite (lookup_app_l_Some _ _ _ _ E).
Qed.

Lemma done_runs_snoc key dn k p : done_runs key (dn ++ [(k, p)]) = done_runs key dn ++ (if eqs k key then [pk_beats p] else []).
Proof. unfold done_runs. rewrite List.filter_app, map_app. cbn. by destruct (eqs k key). Qed.

Lemma filter_snoc_len {A} (f : A -> bool) l x : zlen (List.filter f (l ++ [x])) = zlen (List.filter f l) + if f x then 1 else 0.
Proof. rewrite List.filter_app, zlen_app. cbn. by destruct (f x). Qed.

(** Completing an open packet. *)
Lemma append_assembled all l dn r key st : assembled all l dn r -> zlen l < 2 ^ 64 ->
  mget key (pr_active r) = Some st ->
  exists p, pr_active (append_packet key r) = mdel key (pr_active r) /\
    assembled all l (dn ++ [(key, p)]) (append_packet key r).
Proof.
  intros HA Hlen Hg. pose proof (mdel_perm _ _ _ Hg) as Hperm.
  assert (state_entry (key, st) ∈ entries r) as Hin.
  { apply elem_of_app. right. apply (list_elem_of_fmap_2 state_entry _ (key, st)). rewrite Hperm. left. }
  destruct (as_entry _ _ _ _ HA _ Hin) as (b & k & t & Hb & Hlb & Hpb). cbn in Hb, Hpb.
  destruct (ps_beats st) as [|b' beats] eqn:Ebeats; [done|].
  set (partial_end := negb (ends_packet (pr_transfers r) (ps_beats st))).
  set (p := MkPacket (ps_packet_index st) (ps_beats st) (ps_partial_begin st) partial_end (ps_channel_id st)
              (ps_stable_fields st) (ps_stable_mismatches st)).
  exists p. assert (append_packet key r = MkPacketRun (mark_beats (ps_packet_index st) (ps_beats st) 0 (pr_transfers r))
    (mdel key (pr_active r)) (pr_completed r ++ [p]) (pr_next_packet_index r)
    (if is_partial p then pr_complete_packets r else u64 (pr_complete_packets r + 1))
    (if is_partial p then u64 (pr_partial_packets r + 1) else pr_partial_packets r)
    (u64 (pr_mismatch_count r + zlen (ps_stable_mismatches st)))) as ->.
  { unfold append_packet, p, partial_end. by rewrite Hg, Ebeats. }
  split; [done|].
  assert (map packet_entry (pr_completed r ++ [p]) ++ map state_entry (mdel key (pr_active r)) ≡ₚ entries r) as Hent.
  { unfold entries. rewrite map_app, <- app_assoc. apply Permutation_app_head. cbn [map app].
    change (packet_entry p) with (state_entry (key, st)). symmetry. exact (Permutation_map state_entry Hperm). }
  assert (zlen (pr_completed r) + 1 < 2 ^ 64) as Hcount.
  { pose proof (Permutation_length (as_ids _ _ _ _ HA)) as E. rewrite !length_map, length_seqZ in E. unfold entries in E.
    rewrite length_app, !length_map in E. apply Permutation_length in Hperm. cbn in Hperm. pose proof (as_next _ _ _ _ HA). unfold zlen in *. lia. }
  destruct HA. split; cbn [pr_transfers pr_active pr_completed pr_next_packet_index pr_complete_packets pr_partial_packets].
  - done.
  - by apply mdel_sorted.
  - rewrite as_done0, map_app. done.
  - intros key'. rewrite <- as_runs0, done_runs_snoc. unfold open_runs. cbn [pr_active]. destruct (eqs key key') eqn:E.
    + apply eqs_true in E as <-. rewrite Hg, mget_mdel_eq by done. by rewrite app_nil_r.
    + rewrite app_nil_r, mget_mdel_ne; [done|]. by apply eqs_false.
  - unfold entries. cbn [pr_completed pr_active]. by rewrite Hent.
  - done.
  - intros e He. apply as_entry0. unfold entries in He. cbn [pr_completed pr_active] in He. by rewrite Hent in He.
  - intros e1 e2 b1 b2 He1 He2. apply as_order0; [unfold entries in He1|unfold entries in He2];
      cbn [pr_completed pr_active] in *; [by rewrite Hent in He1|by rewrite Hent in He2].
  - rewrite mark_beats_map; done.
  - intros q Hq. apply elem_of_app in Hq as [Hq|Hq]; [by apply as_ends0|]. apply list_elem_of_singleton in Hq as ->. cbn [pk_beats pk_partial_end p].
    destruct (list.last (ps_beats st)) as [bl|] eqn:El; [|by rewrite Ebeats in El; apply last_None in El].
    exists bl. split; [done|].
    assert (exists x, eop_at l bl = Some x) as [x Hx].
    { assert (bl ∈ concat (runs (channel_items key l))) as Hbl.
      { rewrite <- as_runs0. unfold open_runs. rewrite Hg, concat_app. apply elem_of_app. right. cbn. rewrite app_nil_r.
        by apply last_Some_elem_of. }
      rewrite concat_runs in Hbl. apply list_elem_of_fmap in Hbl as ([bl' u] & -> & Hu). apply channel_items_elem in Hu.
      unfold eop_at. cbn [fst]. rewrite Hu. eauto. }
    rewrite Hx. f_equal. unfold partial_end, ends_packet. rewrite El. cbn [mbind option_bind].
    pose proof (eop_at_store all l r bl x as_prefix0 as_store0 Hx) as Hs.
    destruct (pr_transfers r !! bl); [|done]. cbn in Hs. injection Hs as ->. by rewrite negb_involutive.
  - rewrite filter_snoc_len, as_complete0. pose proof (List.filter_length_le (fun p => negb (is_partial p)) (pr_completed r)).
    cbv beta. destruct (is_partial p); cbn [negb]; [lia|]. apply u64_small. unfold zlen in *. lia.
  - rewrite filter_snoc_len, as_partial0. pose proof (List.filter_length_le is_partial (pr_completed r)).
    destruct (is_partial p); cbn [negb]; [|lia]. apply u64_small. unfold zlen in *. lia.
Qed.

(** The packet of a beat: the open one of its channel, or a new one. *)
Definition place_beat (beat : nat) (key : bytes) (t : StreamSample) (r : PacketRun) : PacketRun :=
  match mget key (pr_active r) with
  | Some state => set_active key (add_beat json_equal format_time beat t state) (pr_next_packet_index r) r
  | None => set_active key (add_beat json_equal format_time beat t (new_packet (pr_next_packet_index r) t))
              (u64 (pr_next_packet_index r + 1)) r
  end.

(** An open packet is continued, and a closed channel starts a new one. *)
Definition continues (l : list (bytes * StreamSample)) (r : PacketRun) (key : bytes) (t : StreamSample) : Prop :=
  match mget key (pr_active r), list.last (channel_items key l) with
  | Some _, Some (_, u) => cut u t = false
  | Some _, None => False
  | None, Some (_, u) => cut u t = true
  | None, None => True
  end.

Lemma last_runs l key : list.last (channel_items key l) = None -> runs (channel_items key l) = [].
Proof. intros ->%last_None. done. Qed.

Lemma eop_at_app l k b x : eop_at l b = Some x -> eop_at (l ++ k) b = Some x.
Proof. unfold eop_at. destruct (l !! b) as [y|] eqn:E; [|done]. by rewrite (lookup_app_l_Some _ _ _ _ E). Qed.

Lemma place_runs all l dn r key t : assembled all l dn r -> continues l r key t -> forall key',
  done_runs key' dn ++ open_runs key' (place_beat (length l) key t r) = runs (channel_items key' (l ++ [(key, t)])).
Proof.
  intros HA Hc key'. pose proof (as_runs _ _ _ _ HA key') as Hr. rewrite channel_items_snoc.
  destruct (eqs key key') eqn:E.
  - apply eqs_true in E as <-. rewrite runs_snoc. unfold continues in Hc. unfold open_runs in *. unfold place_beat.
    destruct (mget key (pr_active r)) as [st|]; cbn [pr_active set_active]; rewrite mget_mset_eq; cbn [ps_beats add_beat new_packet].
    + destruct (list.last (channel_items key l)) as [[j u]|]; [|done]. rewrite Hc, <- Hr. by rewrite grow_snoc.
    + rewrite app_nil_r in Hr. rewrite Hr. destruct (list.last (channel_items key l)) as [[j u]|] eqn:El; [by rewrite Hc|].
      by rewrite (last_runs _ _ El).
  - rewrite app_nil_r, <- Hr. f_equal. unfold open_runs, place_beat. apply eqs_false in E.
    destruct (mget key (pr_active r)); cbn [pr_active set_active]; by rewrite mget_mset_ne.
Qed.

(** The packets of the state after a beat: the same, or one more. *)
Lemma place_entries all l dn r key t : assembled all l dn r -> zlen l + 1 < 2 ^ 64 ->
  (entries (place_beat (length l) key t r) ≡ₚ entries r /\
   pr_next_packet_index (place_beat (length l) key t r) = pr_next_packet_index r) \/
  (entries (place_beat (length l) key t r) ≡ₚ (pr_next_packet_index r, Some (length l), negb (ssm_sop t)) :: entries r /\
   pr_next_packet_index (place_beat (length l) key t r) = pr_next_packet_index r + 1).
Proof.
  intros HA Hlen. unfold place_beat. destruct (mget key (pr_active r)) as [st|] eqn:Hg.
  - left. split; [|done]. unfold entries. cbn [pr_completed pr_active set_active]. apply Permutation_app_head.
    rewrite (mset_del_perm _ _ _ _ (as_sorted _ _ _ _ HA) Hg). rewrite (mdel_perm _ _ _ Hg) at 2. cbn [map].
    assert (state_entry (key, add_beat json_equal format_time (length l) t st) = state_entry (key, st)) as ->; [|done].
    assert (state_entry (key, st) ∈ entries r) as Hin.
    { apply elem_of_app. right. apply (list_elem_of_fmap_2 state_entry _ (key, st)). rewrite (mdel_perm _ _ _ Hg). left. }
    destruct (as_entry _ _ _ _ HA _ Hin) as (b & k & u & Hb & _). cbn in Hb. unfold state_entry. cbn.
    by destruct (ps_beats st).
  - right. pose proof (as_next _ _ _ _ HA). cbn [pr_next_packet_index set_active]. rewrite u64_small by lia. split; [|done].
    unfold entries. cbn [pr_completed pr_active set_active]. rewrite (mset_perm _ _ _ Hg). cbn [map].
    rewrite <- Permutation_middle. done.
Qed.

Lemma place_assembled all l dn r key t rest : assembled all l dn r -> all = l ++ (key, t) :: rest -> zlen l + 1 < 2 ^ 64 ->
  continues l r key t -> assembled all (l ++ [(key, t)]) dn (place_beat (length l) key t r).
Proof.
  intros HA Hall Hlen Hc. pose proof (place_runs _ _ _ _ _ _ HA Hc) as Hruns.
  pose proof (place_entries _ _ _ _ key t HA Hlen) as Hent.
  assert (pr_completed (place_beat (length l) key t r) = pr_completed r /\
    pr_transfers (place_beat (length l) key t r) = pr_transfers r /\
    pr_complete_packets (place_beat (length l) key t r) = pr_complete_packets r /\
    pr_partial_packets (place_beat (length l) key t r) = pr_partial_packets r /\
    msorted (pr_active (place_beat (length l) key t r)) = true) as (E1 & E2 & E3 & E4 & E5).
  { destruct HA. unfold place_beat. destruct (mget key (pr_active r)); cbn; split_and!; try done; by apply mset_sorted. }
  destruct HA. assert (forall e, e ∈ entries r -> 0 <= e.1.1 < pr_next_packet_index r) as Hrange.
  { intros e He. apply (elem_of_seqZ 0). rewrite <- as_ids0. by apply (list_elem_of_fmap_2 (fun e : entry => e.1.1)). }
  split; rewrite ?E1, ?E2, ?E3, ?E4; try done.
  - exists rest. by rewrite <- app_assoc.
  - destruct Hent as [[-> ->]|[-> ->]]; [done|]. cbn [map fst]. rewrite as_ids0.
    rewrite (seqZ_app 0 (pr_next_packet_index r) 1) by lia. cbn. by rewrite Permutation_app_comm.
  - rewrite zlen_app. change (zlen [(key, t)]) with 1. destruct Hent as [[_ ->]|[_ ->]]; lia.
  - assert (forall e, e ∈ entries r -> exists b k u, e.1.2 = Some b /\ (l ++ [(key, t)]) !! b = Some (k, u) /\ e.2 = negb (ssm_sop u)) as Hold.
    { intros e He. destruct (as_entry0 e He) as (b & k & u & Hb & Hl & Hs). exists b, k, u. split_and!; [done| |done].
      by apply lookup_app_l_Some. }
    intros e He. destruct Hent as [[Hp _]|[Hp _]]; rewrite Hp in He; [by apply Hold|].
    apply elem_of_cons in He as [->|He]; [|by apply Hold]. exists (length l), key, t. split_and!; [done| |done].
    apply list_lookup_middle. done.
  - assert (forall e b, e ∈ entries r -> e.1.2 = Some b -> (b < length l)%nat) as Hhead.
    { intros e b He Hb. destruct (as_entry0 e He) as (b' & k & u & Hb' & Hl & _). rewrite Hb in Hb'. injection Hb' as <-.
      by apply lookup_lt_Some in Hl. }
    intros e1 e2 b1 b2 He1 He2 Hlt Hb1 Hb2. destruct Hent as [[Hp _]|[Hp _]]; rewrite Hp in He1, He2.
    { exact (as_order0 e1 e2 b1 b2 He1 He2 Hlt Hb1 Hb2). }
    apply elem_of_cons in He1 as [->|He1], He2 as [->|He2].
    + cbn in Hlt. lia.
    + apply Hrange in He2. cbn in Hlt. lia.
    + cbn in Hb2. injection Hb2 as <-. exact (Hhead e1 b1 He1 Hb1).
    + exact (as_order0 e1 e2 b1 b2 He1 He2 Hlt Hb1 Hb2).
  - intros p Hp. destruct (as_ends0 p Hp) as (b & Hb & He). exists b. split; [done|]. by apply eop_at_app.
Qed.

(** *** The place every row reports *)

Lemma set_position_twice i j i' j' s : set_position i j (set_position i' j' s) = set_position i j s.
Proof. done. Qed.

Lemma mark_lookup_out index beats b : b ∉ beats -> forall j ts, mark_beats index beats j ts !! b = ts !! b.
Proof.
  induction beats as [|c beats IH]; intros Hb j ts; cbn [mark_beats]; [done|]. apply not_elem_of_cons in Hb as [Hc Hb].
  rewrite IH by done. by apply list_lookup_alter_ne.
Qed.

Lemma mark_lookup index beats : NoDup beats -> forall j ts n b s, beats !! n = Some b -> ts !! b = Some s ->
  mark_beats index beats j ts !! b = Some (set_position (i32 index) (j + Z.of_nat n) s).
Proof.
  induction beats as [|c beats IH]; intros Hnd j ts n b s; [by rewrite lookup_nil|]. apply list.NoDup_cons in Hnd as [Hc Hnd].
  cbn [mark_beats]. destruct n as [|n]; cbn [lookup list_lookup].
  - intros [= ->] Hs. rewrite mark_lookup_out by done. rewrite list_lookup_alter_eq, Hs. cbn. by rewrite Z.add_0_r.
  - intros Hb Hs. rewrite (IH Hnd (j + 1) _ n b s Hb).
    + do 2 f_equal. lia.
    + rewrite list_lookup_alter_ne; [done|]. intros ->. apply Hc. by eapply list_elem_of_lookup_2.
Qed.

(** Every transfer keeps its sample, and a beat of a completed packet has its
    place. *)
Definition marked (all : list (bytes * StreamSample)) (r : PacketRun) : Prop :=
  (forall b x, all !! b = Some x -> exists i j, pr_transfers r !! b = Some (set_position i j (snd x))) /\
  (forall p n b x, p ∈ pr_completed r -> pk_beats p !! n = Some b -> all !! b = Some x ->
     pr_transfers r !! b = Some (set_position (i32 (pk_index p)) (Z.of_nat n) (snd x))).

Lemma open_distinct all l dn r key st : assembled all l dn r -> mget key (pr_active r) = Some st ->
  NoDup (ps_beats st) /\ forall p b, p ∈ pr_completed r -> b ∈ pk_beats p -> b ∉ ps_beats st.
Proof.
  intros HA Hg. assert (forall k, concat (done_runs k dn ++ open_runs k r) = map fst (channel_items k l)) as Hc.
  { intros k. by rewrite (as_runs _ _ _ _ HA), concat_runs. }
  assert (forall k, NoDup (concat (done_runs k dn ++ open_runs k r))) as Hnd.
  { intros k. rewrite Hc. pose proof (channel_items_sorted k l) as Hs. revert Hs. generalize (map fst (channel_items k l)).
    intros ns. induction 1 as [|x ns Hs IH Hx]; constructor; [|done]. intros Hin.
    apply (proj1 (list.Forall_forall _ _) Hx) in Hin. lia. }
  pose proof (Hnd key) as Hk. unfold open_runs in Hk. rewrite Hg, concat_app in Hk. cbn in Hk. rewrite app_nil_r in Hk.
  apply list.NoDup_app in Hk as (_ & Hdis & Hst). split; [done|]. intros p b Hp Hb Hin.
  rewrite (as_done _ _ _ _ HA) in Hp. apply list_elem_of_fmap in Hp as ([k p'] & -> & Hp). cbn [snd] in Hb.
  assert (b ∈ concat (done_runs k dn)) as Hbk.
  { apply list_elem_of_In, in_concat. exists (pk_beats p'). rewrite <- !list_elem_of_In. split; [|done].
    apply (list_elem_of_fmap_2 (fun kp => pk_beats (snd kp)) _ (k, p')). apply list_elem_of_In, List.filter_In. cbn.
    rewrite eqs_refl. by rewrite <- list_elem_of_In. }
  destruct (decide (k = key)) as [->|Hne]; [by apply (Hdis b)|].
  assert (forall k', b ∈ concat (done_runs k' dn ++ open_runs k' r) -> exists t, l !! b = Some (k', t)) as Hkey.
  { intros k'. rewrite Hc. intros Hi. apply list_elem_of_fmap in Hi as ([b' t] & -> & Ht). exists t. by apply channel_items_elem. }
  destruct (Hkey k) as [t Ht]; [rewrite concat_app; apply elem_of_app; by left|].
  destruct (Hkey key) as [t' Ht']; [unfold open_runs; rewrite Hg, concat_app; apply elem_of_app; right; cbn; by rewrite app_nil_r|].
  congruence.
Qed.

Lemma append_marked all l dn r key : assembled all l dn r -> marked all r -> marked all (append_packet key r).
Proof.
  intros HA [M1 M2]. unfold append_packet. destruct (mget key (pr_active r)) as [st|] eqn:Hg; [|done].
  destruct (open_distinct _ _ _ _ _ _ HA Hg) as [Hnd Hdis].
  destruct (ps_beats st) as [|b0 beats0] eqn:Eb; [done|]. rewrite <- Eb in *. split; cbn [pr_transfers pr_completed].
  - intros b x Hx. destruct (M1 b x Hx) as (i & j & Hb). destruct (decide (b ∈ ps_beats st)) as [Hin|Hout].
    + apply list_elem_of_lookup_1 in Hin as [n Hn]. do 2 eexists. rewrite (mark_lookup _ _ Hnd 0 _ n b _ Hn Hb).
      by rewrite set_position_twice.
    + rewrite mark_lookup_out by done. eauto.
  - intros p n b x Hp Hn Hx. apply elem_of_app in Hp as [Hp|Hp].
    + rewrite mark_lookup_out; [by apply M2|]. apply (Hdis p); [done|]. by eapply list_elem_of_lookup_2.
    + apply list_elem_of_singleton in Hp as ->. cbn [pk_beats pk_index] in *. destruct (M1 b x Hx) as (i & j & Hb).
      rewrite (mark_lookup _ _ Hnd 0 _ n b _ Hn Hb). by rewrite set_position_twice.
Qed.

Lemma place_marked all beat key t r : marked all r -> marked all (place_beat beat key t r).
Proof. intros HM. unfold place_beat. destruct (mget key (pr_active r)); exact HM. Qed.

(** Between two transfers a channel has an open packet exactly when its last
    beat does not end one. *)
Definition settled (l : list (bytes * StreamSample)) (r : PacketRun) : Prop := forall key,
  match mget key (pr_active r), list.last (channel_items key l) with
  | Some _, Some (_, u) => ssm_eop u = false
  | Some _, None => False
  | None, Some (_, u) => ssm_eop u = true
  | None, None => True
  end.

Lemma last_items_same key l t : list.last (channel_items key (l ++ [(key, t)])) = Some (length l, t).
Proof. rewrite channel_items_snoc, eqs_refl. apply last_snoc. Qed.

Lemma last_items_other key key' l t : key <> key' -> channel_items key' (l ++ [(key, t)]) = channel_items key' l.
Proof. intros Hk. rewrite channel_items_snoc. rewrite (proj2 (eqs_false key key') Hk). apply app_nil_r. Qed.

Lemma place_active beat key t r : exists st, pr_active (place_beat beat key t r) = mset key st (pr_active r).
Proof. unfold place_beat. destruct (mget key (pr_active r)); eexists; done. Qed.

Lemma packet_step_place r beat key t : packet_step json_equal format_time r (beat, (key, t)) =
  let r1 := if ssm_sop t && opens_packet r key then append_packet key r else r in
  let r2 := place_beat beat key t r1 in
  if ssm_eop t then append_packet key r2 else r2.
Proof. done. Qed.

(** The beat is placed after the packet it interrupts is completed. *)
Lemma interrupt_assembled all l dn r key t : assembled all l dn r -> settled l r -> zlen l < 2 ^ 64 ->
  let r1 := if ssm_sop t && opens_packet r key then append_packet key r else r in
  exists dn1, assembled all l dn1 r1 /\ continues l r1 key t /\ (marked all r -> marked all r1) /\
    forall key', key' <> key -> mget key' (pr_active r1) = mget key' (pr_active r).
Proof.
  intros HA Hs Hlen. cbv zeta. specialize (Hs key). unfold continues, opens_packet.
  destruct (mget key (pr_active r)) as [st|] eqn:Hg; [destruct (ssm_sop t) eqn:Hsop|]; cbn [andb].
  - destruct (append_assembled _ _ _ _ _ _ HA Hlen Hg) as (p & Ha & HA'). exists (dn ++ [(key, p)]).
    rewrite Ha, mget_mdel_eq by apply HA. split_and!; [done| |by eapply append_marked|].
    + unfold cut. rewrite Hsop. destruct (list.last (channel_items key l)) as [[? ?]|]; [by rewrite orb_true_r|done].
    + intros key' Hk. apply mget_mdel_ne. congruence.
  - exists dn. rewrite Hg. split_and!; [done| |done|done]. unfold cut. rewrite Hsop.
    destruct (list.last (channel_items key l)) as [[? ?]|]; [by rewrite Hs|done].
  - exists dn. rewrite andb_false_r, Hg. split_and!; [done| |done|done]. unfold cut.
    destruct (list.last (channel_items key l)) as [[? ?]|]; [by rewrite Hs|done].
Qed.

Lemma step_assembled all l dn r key t rest : assembled all l dn r -> settled l r ->
  all = l ++ (key, t) :: rest -> zlen l + 1 < 2 ^ 64 ->
  exists dn', assembled all (l ++ [(key, t)]) dn' (packet_step json_equal format_time r (length l, (key, t))) /\
    settled (l ++ [(key, t)]) (packet_step json_equal format_time r (length l, (key, t))) /\
    (marked all r -> marked all (packet_step json_equal format_time r (length l, (key, t)))).
Proof.
  intros HA Hs Hall Hlen. rewrite packet_step_place. cbv zeta.
  destruct (interrupt_assembled _ _ _ _ key t HA Hs ltac:(lia)) as (dn1 & HA1 & Hc & HM & Hother).
  set (r1 := if ssm_sop t && opens_packet r key then append_packet key r else r) in *. clearbody r1.
  pose proof (place_assembled _ _ _ _ _ _ _ HA1 Hall Hlen Hc) as HA2.
  assert (marked all r -> marked all (place_beat (length l) key t r1)) as HM2 by (intros; by apply place_marked, HM).
  destruct (place_active (length l) key t r1) as [st Hact]. set (r2 := place_beat (length l) key t r1) in *. clearbody r2.
  assert (forall key', key' <> key -> mget key' (pr_active r2) = mget key' (pr_active r)) as Hother2.
  { intros key' Hk. rewrite Hact, mget_mset_ne by congruence. by apply Hother. }
  assert (mget key (pr_active r2) = Some st) as Hg by (rewrite Hact; apply mget_mset_eq).
  destruct (ssm_eop t) eqn:He.
  - destruct (append_assembled _ _ _ _ _ _ HA2 ltac:(rewrite zlen_app; change (zlen [(key, t)]) with 1; lia) Hg) as (p & Ha & HA3).
    eexists. split; [exact HA3|]. split; [|intros; eapply append_marked; [exact HA2|auto]]. intros key'. rewrite Ha. destruct (decide (key' = key)) as [->|Hk].
    + rewrite mget_mdel_eq by apply HA2. by rewrite last_items_same.
    + rewrite mget_mdel_ne, Hother2, last_items_other by congruence. apply Hs.
  - eexists. split; [exact HA2|]. split; [|done]. intros key'. destruct (decide (key' = key)) as [->|Hk].
    + by rewrite Hg, last_items_same.
    + rewrite Hother2, last_items_other by congruence. apply Hs.
Qed.

(** The loop over the remaining transfers. *)
Lemma loop_assembled rest : forall all l dn r, assembled all l dn r -> settled l r -> marked all r ->
  all = l ++ rest -> zlen all < 2 ^ 64 ->
  let r' := foldl (packet_step json_equal format_time) r (imap (fun i x => ((length l + i)%nat, x)) rest) in
  exists dn', assembled all all dn' r' /\ marked all r'.
Proof.
  induction rest as [|[key t] rest IH]; intros all l dn r HA Hs HM Hall Hlen; cbv zeta.
  { exists dn. rewrite app_nil_r in Hall. by subst. }
  cbn [imap foldl]. rewrite Nat.add_0_r.
  destruct (step_assembled _ _ _ _ _ _ _ HA Hs Hall) as (dn1 & HA1 & Hs1 & HM1).
  { subst all. rewrite zlen_app, zlen_cons in Hlen. pose proof (zlen_nonneg rest). lia. }
  destruct (IH all (l ++ [(key, t)]) dn1 _ HA1 Hs1 (HM1 HM) ltac:(by rewrite <- app_assoc) Hlen) as [dn' HA'].
  exists dn'. erewrite (imap_ext _ _ rest); [exact HA'|]. intros i x _. cbn. rewrite length_app. cbn. f_equal. lia.
Qed.

(** The packets still open at the end. *)
Lemma close_assembled m : forall all l dn r, assembled all l dn r -> marked all r -> zlen l < 2 ^ 64 -> pr_active r = m ->
  let r' := foldl (fun r key => append_packet key r) r (map fst m) in
  exists dn', assembled all l dn' r' /\ marked all r' /\ pr_active r' = [].
Proof.
  induction m as [|[k st] m IH]; intros all l dn r HA HM Hlen Hm; cbn [map foldl fst]; [eauto|].
  destruct (append_assembled _ _ _ _ k st HA Hlen) as (p & Ha & HA'); [rewrite Hm; cbn [mget]; by rewrite eqs_refl|].
  apply (IH _ _ _ _ HA' (append_marked _ _ _ _ k HA HM) Hlen). rewrite Ha, Hm. cbn [mdel]. by rewrite eqs_refl.
Qed.

Lemma run_assembled l : zlen l < 2 ^ 64 ->
  let r := run_packets json_equal format_time l in
  exists dn, assembled l l dn r /\ marked l r /\ pr_active r = [].
Proof.
  intros Hlen. unfold run_packets.
  destruct (loop_assembled l l [] [] (MkPacketRun (map snd l) [] [] 0 0 0 0)) as (dn & HA & HM); [| | | |done|].
  - split; cbn; try done; [by exists l|set_solver|set_solver|by rewrite List.map_map|set_solver].
  - by intros key.
  - split; cbn.
    + intros b [k t] Hx. exists (ssm_packet_index t), (ssm_beat_index t). change (map snd l) with (snd <$> l).
      rewrite list_lookup_fmap, Hx. cbn. by destruct t.
    + by intros p n b x ?%elem_of_nil.
  - done.
  - exact (close_assembled _ _ _ _ _ HA HM Hlen eq_refl).
Qed.
End Assembly.

(** *** Sorted lists *)

Lemma heads_sorted rs : Forall (fun run : list nat => run <> []) rs -> StronglySorted lt (concat rs) ->
  StronglySorted (fun a b => exists x y, head a = Some x /\ head b = Some y /\ (x < y)%nat) rs.
Proof.
  induction 1 as [|run rs Hrun Hrs IH]; cbn [concat]; intros Hs; [constructor|]. apply StronglySorted_app in Hs as (Hlt & _ & Hs).
  constructor; [by apply IH|]. rewrite list.Forall_forall. intros run' Hin. rewrite list.Forall_forall in Hrs.
  specialize (Hrs run' Hin). destruct run as [|x run]; [done|]. destruct run' as [|y run']; [done|]. exists x, y.
  split_and!; [done..|]. apply Hlt; [left|]. apply list_elem_of_In, in_concat. exists (y :: run').
  rewrite <- !list_elem_of_In. split; [done|left].
Qed.

#[local] Instance packet_order_trans : Transitive packet_order.
Proof. unfold packet_order. intros x y z. lia. Qed.
#[local] Instance packet_order_total : Total packet_order.
Proof. intros x y. unfold packet_order. lia. Qed.

(** *** The packets of a query *)

Definition on_channel (l : list (bytes * StreamSample)) (key : bytes) (p : Packet) : bool :=
  match head (pk_beats p) ≫= (fun b => l !! b) with Some (k, _) => eqs k key | None => false end.

Section Result.
Context (json_equal : json -> json -> bool) (format_time : Z -> bytes).
Context (l : list (bytes * StreamSample)) (dn : list (bytes * Packet)) (r : PacketRun).
Context (HA : assembled l l dn r) (Hactive : pr_active r = []).

Lemma finished_ids : map pk_index (pr_completed r) ≡ₚ seqZ 0 (zlen (pr_completed r)).
Proof.
  pose proof (as_ids _ _ _ _ HA) as Hp. unfold entries in Hp. rewrite Hactive, app_nil_r, List.map_map in Hp. cbn in Hp.
  assert (zlen (pr_completed r) = pr_next_packet_index r) as ->; [|done].
  apply Permutation_length in Hp. rewrite length_map, length_seqZ in Hp. pose proof (as_next _ _ _ _ HA). unfold zlen. lia.
Qed.

Lemma finished_entry p : p ∈ pr_completed r -> packet_entry p ∈ entries r.
Proof. intros Hp. apply elem_of_app. left. by apply (list_elem_of_fmap_2 packet_entry). Qed.

Lemma finished_runs key : done_runs key dn = runs (channel_items key l).
Proof. rewrite <- (as_runs _ _ _ _ HA). unfold open_runs. by rewrite Hactive, app_nil_r. Qed.

(** The channel of a completed packet is that of its first beat. *)
Lemma finished_channel k p key : (k, p) ∈ dn -> on_channel l key p = eqs k key.
Proof.
  intros Hin. unfold on_channel.
  assert (pk_beats p ∈ runs (channel_items k l)) as Hr.
  { rewrite <- finished_runs. unfold done_runs. apply (list_elem_of_fmap_2 (fun kp => pk_beats (snd kp)) _ (k, p)).
    apply list_elem_of_In, List.filter_In. cbn. rewrite eqs_refl. by rewrite <- list_elem_of_In. }
  pose proof (runs_nonempty (channel_items k l)) as Hne. rewrite list.Forall_forall in Hne. specialize (Hne _ Hr).
  destruct (pk_beats p) as [|b beats] eqn:E; [done|]. cbn [head mbind option_bind].
  assert (b ∈ map fst (channel_items k l)) as Hb.
  { rewrite <- concat_runs. apply list_elem_of_In, in_concat. exists (b :: beats). rewrite <- !list_elem_of_In.
    split; [done|left]. }
  apply list_elem_of_fmap in Hb as ([b' t] & -> & Ht). apply channel_items_elem in Ht. cbn [fst]. by rewrite Ht.
Qed.

Lemma finished_filter key : List.filter (on_channel l key) (pr_completed r) = map snd (List.filter (fun kp => eqs (fst kp) key) dn).
Proof.
  rewrite (as_done _ _ _ _ HA). pose proof (finished_channel) as Hc. revert Hc. generalize dn. clear HA. intros d.
  induction d as [|[k p] d IH]; intros Hc; [done|]. cbn [map snd List.filter fst].
  rewrite (Hc k p key) by left. rewrite IH by (intros; apply Hc; by right). by destruct (eqs k key).
Qed.

Lemma finished_order p q bp bq : p ∈ pr_completed r -> q ∈ pr_completed r ->
  head (pk_beats p) = Some bp -> head (pk_beats q) = Some bq -> (bp < bq)%nat -> pk_index p <= pk_index q.
Proof.
  intros Hp Hq Hbp Hbq Hlt. destruct (Z.le_gt_cases (pk_index p) (pk_index q)) as [?|Hgt]; [done|].
  pose proof (as_order _ _ _ _ HA _ _ _ _ (finished_entry q Hq) (finished_entry p Hp) Hgt Hbq Hbp). lia.
Qed.

Lemma finished_distinct p q : p ∈ pr_completed r -> q ∈ pr_completed r -> pk_index p = pk_index q -> p = q.
Proof.
  assert (NoDup (map pk_index (pr_completed r))) as Hnd by (rewrite finished_ids; apply NoDup_seqZ).
  revert Hnd. generalize (pr_completed r). clear. intros ps. induction ps as [|x ps IH]; [by intros _ ?%elem_of_nil|].
  cbn [map]. intros [Hx Hnd]%list.NoDup_cons Hp Hq E.
  apply elem_of_cons in Hp as [->|Hp], Hq as [->|Hq]; [done| | |by apply IH].
  - destruct Hx. rewrite E. by apply (list_elem_of_fmap_2 pk_index).
  - destruct Hx. rewrite <- E. by apply (list_elem_of_fmap_2 pk_index).
Qed.

Lemma finished_sorted : StronglySorted packet_order (sorted_packets (pr_completed r)).
Proof. apply StronglySorted_merge_sort; apply _. Qed.

Lemma finished_perm : sorted_packets (pr_completed r) ≡ₚ pr_completed r.
Proof. apply merge_sort_Permutation. Qed.

Lemma sorted_channel key : List.filter (on_channel l key) (sorted_packets (pr_completed r)) =
  List.filter (on_channel l key) (pr_completed r).
Proof.
  assert (forall p, p ∈ List.filter (on_channel l key) (pr_completed r) -> p ∈ pr_completed r) as Hsub.
  { intros p. rewrite !list_elem_of_In, List.filter_In. tauto. }
  apply (StronglySorted_unique_strong packet_order).
  - intros p q Hp Hq. rewrite (Permutation_filter_bool _ _ _ finished_perm) in Hp. unfold packet_order. intros.
    apply finished_distinct; [by apply Hsub..|lia].
  - apply StronglySorted_filter, finished_sorted.
  - pose proof (heads_sorted _ (runs_nonempty (channel_items key l))) as Hh. rewrite concat_runs in Hh.
    specialize (Hh (channel_items_sorted key l)). rewrite <- finished_runs in Hh. unfold done_runs in Hh.
    rewrite <- (List.map_map snd pk_beats), <- finished_filter, StronglySorted_map in Hh.
    eapply StronglySorted_weaken; [|exact Hh]. intros p q Hp Hq (x & y & Hx & Hy & Hlt). cbn in Hx, Hy.
    eapply finished_order; [by apply Hsub|by apply Hsub|done..].
  - apply Permutation_filter_bool, finished_perm.
Qed.

Lemma sorted_indices : map pk_index (sorted_packets (pr_completed r)) = seqZ 0 (zlen (pr_completed r)).
Proof.
  apply (StronglySorted_unique Z.le).
  - apply StronglySorted_map. exact finished_sorted.
  - apply (StronglySorted_weaken Z.lt); [intros; lia|]. unfold zlen. apply seqZ_sorted.
  - rewrite <- finished_ids. apply Permutation_map, finished_perm.
Qed.
End Result.

(** C19: the packets a stream query reports are, channel by channel, exactly the
    runs of its transfers between packet boundaries: a packet ends after a
    beat with end of packet or before a beat with start of packet, and
    nowhere else, however the channels interleave. No packet is left open,
    the packets are numbered from 0 in the order of their first beats, the
    partial flags say whether the first beat has no start and the last no
    end of packet, and the two counters split the packets. *)
Theorem packets_are_channel_runs (json_equal : json -> json -> bool) (format_time : Z -> bytes) l :
  zlen l < 2 ^ 64 ->
  let r := run_packets json_equal format_time l in
  let packets := sorted_packets (pr_completed r) in
  pr_active r = [] /\
  (forall key, map pk_beats (List.filter (on_channel l key) packets) = runs (channel_items key l)) /\
  map pk_index packets = seqZ 0 (zlen packets) /\
  StronglySorted (fun p q => exists b c, head (pk_beats p) = Some b /\ head (pk_beats q) = Some c /\ (b < c)%nat) packets /\
  (forall p, p ∈ packets -> exists first last s e, head (pk_beats p) = Some first /\ list.last (pk_beats p) = Some last /\
     l !! first = Some s /\ l !! last = Some e /\
     pk_partial_begin p = negb (ssm_sop (snd s)) /\ pk_partial_end p = negb (ssm_eop (snd e))) /\
  pr_complete_packets r = zlen (List.filter (fun p => negb (is_partial p)) packets) /\
  pr_partial_packets r = zlen (List.filter is_partial packets).
Proof.
  intros Hlen r packets. destruct (run_assembled json_equal format_time l Hlen) as (dn & HA & _ & Hact). fold r in HA, Hact.
  pose proof (finished_perm r) as Hperm. fold packets in Hperm.
  assert (forall p, p ∈ packets -> p ∈ pr_completed r) as Hsub by (intros p Hp; by rewrite Hperm in Hp).
  assert (zlen packets = zlen (pr_completed r)) as Hz by (unfold zlen; by rewrite Hperm).
  assert (forall f, zlen (List.filter f packets) = zlen (List.filter f (pr_completed r))) as Hf.
  { intros f. unfold zlen. by rewrite (Permutation_filter_bool f _ _ Hperm). }
  split_and!.
  - exact Hact.
  - intros key. unfold packets. rewrite (sorted_channel l dn r HA Hact), (finished_filter l dn r HA Hact), List.map_map.
    exact (finished_runs l dn r HA Hact key).
  - rewrite Hz. apply (sorted_indices l dn r HA Hact).
  - pose proof (sorted_indices l dn r HA Hact) as Hi. fold packets in Hi.
    assert (StronglySorted Z.lt (map pk_index packets)) as Hs by (rewrite Hi; apply seqZ_sorted).
    apply (StronglySorted_map Z.lt pk_index) in Hs. eapply StronglySorted_weaken; [|exact Hs]. intros p q Hp%Hsub Hq%Hsub Hlt.
    destruct (as_entry _ _ _ _ HA _ (finished_entry r p Hp)) as (b & _ & _ & Hb & _).
    destruct (as_entry _ _ _ _ HA _ (finished_entry r q Hq)) as (c & _ & _ & Hc & _).
    exists b, c. split_and!; [done..|]. exact (as_order _ _ _ _ HA _ _ _ _ (finished_entry r p Hp) (finished_entry r q Hq) Hlt Hb Hc).
  - intros p Hp%Hsub. destruct (as_entry _ _ _ _ HA _ (finished_entry r p Hp)) as (b & k & t & Hb & Hl & Hpb).
    destruct (as_ends _ _ _ _ HA p Hp) as (c & Hc & He). unfold eop_at in He. destruct (l !! c) as [e|] eqn:Ee; [|done].
    cbn in He. injection He as He. exists b, c, (k, t), e. split_and!; [done..|]. by rewrite He, negb_involutive.
  - rewrite Hf. apply HA.
  - rewrite Hf. apply HA.
Qed.

(** The [b]-th transfer [t] is the [n]-th beat of packet [p], and its row says so. *)
Definition located (r : PacketRun) (p : Packet) (n b : nat) (t : StreamSample) : Prop :=
  pk_beats p !! n = Some b /\ pr_transfers r !! b = Some (set_position (pk_index p) (Z.of_nat n) t).

(** After the packets are assembled every transfer knows its place: the
    row of a transfer reports the number of the packet it belongs to and its
    position there, and is otherwise the sample that was scanned. *)
Theorem packet_rows_located (json_equal : json -> json -> bool) (format_time : Z -> bytes) l b key t :
  zlen l <= int_max -> l !! b = Some (key, t) ->
  let r := run_packets json_equal format_time l in
  exists p n, p ∈ sorted_packets (pr_completed r) /\ located r p n b t.
Proof.
  intros Hlen Hb r. unfold int_max in Hlen. destruct (run_assembled json_equal format_time l ltac:(lia)) as (dn & HA & [_ HM] & Hact).
  fold r in HA, HM, Hact.
  assert (b ∈ concat (runs (channel_items key l))) as Hin.
  { rewrite concat_runs. apply (list_elem_of_fmap_2 fst _ (b, t)). by apply channel_items_elem. }
  rewrite <- (finished_runs l dn r HA Hact) in Hin. apply list_elem_of_In, in_concat in Hin as (run & Hrun & Hbr).
  apply list_elem_of_In in Hrun, Hbr. apply list_elem_of_fmap in Hrun as ([k p] & -> & Hp). cbn [snd] in Hbr.
  apply list_elem_of_In, List.filter_In in Hp as [Hp _]. apply list_elem_of_In in Hp.
  assert (p ∈ pr_completed r) as Hpc by (rewrite (as_done _ _ _ _ HA); by apply (list_elem_of_fmap_2 snd _ (k, p))).
  apply list_elem_of_lookup_1 in Hbr as [n Hn]. exists p, n. split; [by rewrite (finished_perm r)|]. split; [done|].
  rewrite (HM p n b _ Hpc Hn Hb). cbn [snd]. do 2 f_equal. apply i32_small.
  assert (pk_index p ∈ map pk_index (pr_completed r)) as Hi by (by apply (list_elem_of_fmap_2 pk_index)).
  rewrite (finished_ids l dn r HA Hact) in Hi. apply elem_of_seqZ in Hi.
  pose proof (Permutation_length (as_ids _ _ _ _ HA)) as E. rewrite length_map, length_seqZ in E. unfold entries in E.
  rewrite length_app, !length_map in E. pose proof (as_next _ _ _ _ HA). unfold int_min, int_max, zlen in *. lia.
Qed.

(** ** Stall windows *)

Definition window_positions (w : nat * nat) : list nat := List.seq (fst w) (snd w - fst w + 1).

(** A maximal run of stalled samples. *)
Record maximal_stall (samples : list StreamSample) (w : nat * nat) : Prop := {
  mx_order : (fst w <= snd w < length samples)%nat;
  mx_inside : forall i, (fst w <= i <= snd w)%nat -> stalled_at samples i = true;
  mx_before : fst w = 0%nat \/ stalled_at samples (fst w - 1) = false;
  mx_after : stalled_at samples (S (snd w)) = false;
}.

Lemma stalled_lt samples i : stalled_at samples i = true -> (i < length samples)%nat.
Proof. unfold stalled_at. destruct (samples !! i) eqn:E; [|done]. intros _. by apply lookup_lt_Some in E. Qed.

Lemma stall_end_spec samples fuel : forall pos, stalled_at samples pos = true -> (length samples <= pos + fuel)%nat ->
  let last := stall_end fuel samples pos in
  (pos <= last)%nat /\ (forall i, (pos <= i <= last)%nat -> stalled_at samples i = true) /\
  stalled_at samples (S last) = false.
Proof.
  induction fuel as [|fuel IH]; intros pos Hp Hlen; cbn [stall_end].
  - apply stalled_lt in Hp. lia.
  - destruct (stalled_at samples (S pos)) eqn:Hs.
    + destruct (IH (S pos) Hs ltac:(lia)) as (H1 & H2 & H3). split_and!; [lia| |done]. intros i Hi.
      destruct (decide (i = pos)) as [->|]; [done|]. apply H2. lia.
    + split_and!; [lia| |done]. intros i Hi. by assert (i = pos) as -> by lia.
Qed.

Lemma filter_seq_run p a n : (forall i, (a <= i < a + n)%nat -> p i = true) -> List.filter p (List.seq a n) = List.seq a n.
Proof.
  revert a. induction n as [|n IH]; intros a Hp; [done|]. cbn [List.seq List.filter]. rewrite Hp by lia. f_equal. apply IH.
  intros i Hi. apply Hp. lia.
Qed.

Lemma stall_loop_spec samples fuel : forall pos, (length samples <= pos + fuel)%nat ->
  (pos = 0%nat \/ stalled_at samples (pos - 1) = false \/ stalled_at samples pos = false) ->
  Forall (maximal_stall samples) (stall_loop fuel samples pos) /\
  concat (map window_positions (stall_loop fuel samples pos)) =
    List.filter (stalled_at samples) (List.seq pos (length samples - pos)).
Proof.
  induction fuel as [|fuel IH]; intros pos Hlen Hb; cbn [stall_loop].
  { replace (length samples - pos)%nat with 0%nat by lia. by split; [constructor|]. }
  destruct (Nat.leb_spec (length samples) pos) as [Hle|Hlt].
  { replace (length samples - pos)%nat with 0%nat by lia. by split; [constructor|]. }
  destruct (stalled_at samples pos) eqn:Hs; cbn [negb].
  - destruct (stall_end_spec samples (length samples) pos Hs ltac:(lia)) as (H1 & H2 & H3).
    set (last := stall_end (length samples) samples pos) in *. clearbody last.
    pose proof (stalled_lt _ _ (H2 last ltac:(lia))) as Hll.
    assert (forall rest, Forall (maximal_stall samples) rest -> Forall (maximal_stall samples) ((pos, last) :: rest)) as Hcons.
    { intros rest Hr. constructor; [|done]. split; cbn [fst snd]; [lia|done| |done]. destruct Hb as [?|[?|?]]; [by left|by right|congruence]. }
    replace (length samples - pos)%nat with ((last - pos + 1) + (length samples - S last))%nat by lia.
    rewrite List.seq_app, List.filter_app, filter_seq_run by (intros i Hi; apply H2; lia). cbn [map concat].
    replace (pos + (last - pos + 1))%nat with (S last) by lia.
    destruct (IH (S last)) as [F1 F2]; [lia|by right; right|]. split; [by apply Hcons|]. by rewrite F2.
  - destruct (IH (S pos)) as [F1 F2]; [lia|right; left; cbn; by rewrite Nat.sub_0_r|]. split; [done|]. rewrite F2.
    replace (length samples - pos)%nat with (S (length samples - S pos)) by lia. cbn [List.seq List.filter]. by rewrite Hs.
Qed.

Definition window_cycles (w : nat * nat) : nat := snd w - fst w + 1.

Lemma bump_count (b : bool) n k : 0 <= n -> n + k < 2 ^ 64 -> (if b then 1 else 0) <= k -> bump b n = n + if b then 1 else 0.
Proof. intros. unfold bump. destruct b; [rewrite u64_small; lia|lia]. Qed.

Lemma count_stalls samples : forall n, 0 <= sn_stall_cycles n -> sn_stall_cycles n + zlen samples < 2 ^ 64 ->
  sn_stall_cycles (foldl count_sample n samples) = sn_stall_cycles n + zlen (List.filter ssm_stall samples).
Proof.
  induction samples as [|s samples IH]; intros n H0 Hn; cbn [foldl List.filter]; [unfold zlen; cbn; lia|].
  rewrite zlen_cons in Hn. pose proof (zlen_nonneg samples).
  assert (sn_stall_cycles (count_sample n s) = sn_stall_cycles n + if ssm_stall s then 1 else 0) as E.
  { cbn. apply (bump_count _ _ 1); [lia|lia|by case_match]. }
  rewrite IH; rewrite E; destruct (ssm_stall s); rewrite ?zlen_cons; lia.
Qed.

Lemma filter_positions samples : length (List.filter (stalled_at samples) (List.seq 0 (length samples))) =
  length (List.filter ssm_stall samples).
Proof.
  induction samples as [|s samples IH] using rev_ind; [done|].
  rewrite length_app, List.seq_app, !List.filter_app, !length_app. cbn [List.filter length].
  rewrite <- IH. f_equal.
  - f_equal. apply List.filter_ext_in. intros i Hi%List.in_seq. unfold stalled_at. by rewrite lookup_app_l by lia.
  - cbn [List.seq List.filter]. unfold stalled_at. rewrite list_lookup_middle by done. by destruct (ssm_stall s).
Qed.

(** The stall windows of a query are the maximal runs of stalled samples, in
    order and without overlap: together they list every stalled sample once,
    so their lengths add up to the reported number of stall cycles. *)
Theorem stall_windows_exact samples : zlen samples < 2 ^ 64 ->
  Forall (maximal_stall samples) (stall_windows samples) /\
  concat (map window_positions (stall_windows samples)) =
    List.filter (stalled_at samples) (List.seq 0 (length samples)) /\
  Z.of_nat (list_sum (map window_cycles (stall_windows samples))) = sn_stall_cycles (count_samples samples).
Proof.
  intros Hlen. destruct (stall_loop_spec samples (length samples) 0 ltac:(lia) ltac:(by left)) as [H1 H2].
  rewrite Nat.sub_0_r in H2. split_and!; [done|done|].
  unfold count_samples. rewrite count_stalls by (cbn; lia). cbn [sn_stall_cycles]. unfold zlen at 1.
  rewrite <- filter_positions, <- H2. fold (stall_windows samples). generalize (stall_windows samples). intros ws.
  rewrite Z.add_0_l. f_equal. induction ws as [|w ws IH]; [done|]. cbn [map concat list_sum foldr]. rewrite length_app, <- IH.
  unfold window_positions at 1. by rewrite length_seq.
Qed.

(** ** Witnesses *)

(** Two channels interleaved: [a] has a packet of two beats, [b] one that was
    already running and one that does not end. *)
Definition demo_beat (sop eop : bool) : StreamSample :=
  MkStreamSample 0 0 0 true true false sop eop true false true true false (JObject []) (JObject []) JNull (-1) 0.
Definition demo_transfers : list (bytes * StreamSample) :=
  [(lit "a", demo_beat true false); (lit "b", demo_beat false false); (lit "a", demo_beat false true);
   (lit "b", demo_beat false false); (lit "b", demo_beat true false)].
Definition no_equal (_ _ : json) : bool := false.
Definition no_time (_ : Z) : bytes := [].
Definition demo_packets : list Packet := sorted_packets (pr_completed (run_packets no_equal no_time demo_transfers)).

Lemma packets_are_channel_runs_witness :
  map pk_beats demo_packets = [[0; 2]; [1; 3]; [4]]%nat /\
  map is_partial demo_packets = [false; true; true] /\
  forall key, map pk_beats (List.filter (on_channel demo_transfers key) demo_packets) = runs (channel_items key demo_transfers).
Proof.
  split; [vm_compute; reflexivity|]. split; [vm_compute; reflexivity|].
  apply (packets_are_channel_runs no_equal no_time demo_transfers). vm_compute. reflexivity.
Defined.

Lemma packet_rows_located_witness :
  exists p n, p ∈ demo_packets /\
    located (run_packets no_equal no_time demo_transfers) p n 3 (demo_beat false false).
Proof.
  apply (packet_rows_located no_equal no_time demo_transfers 3 (lit "b") (demo_beat false false));
    [vm_compute; discriminate|reflexivity].
Defined.

Definition demo_stall (stall : bool) : StreamSample :=
  MkStreamSample 0 0 0 stall false false false false false stall true true false (JObject []) (JObject []) JNull (-1) 0.
Definition demo_stalls : list StreamSample := map demo_stall [true; true; false; true; false].

Lemma stall_windows_exact_witness :
  stall_windows demo_stalls = [(0, 1); (3, 3)]%nat /\
  Z.of_nat (list_sum (map window_cycles (stall_windows demo_stalls))) = sn_stall_cycles (count_samples demo_stalls).
Proof.
  split; [vm_compute; reflexivity|]. apply (stall_windows_exact demo_stalls). vm_compute. reflexivity.
Defined.
