(* ===== verification/StreamFilter.v ===== *)
(** * StreamFilter: what the field filters of a stream query decide

    A field may have unknown bits. The filter answers [Match] or [NoMatch]
    only when every way to fill them in agrees, and [Unresolved] when a bit
    it has to compare is unknown. A query keeps the entries whose criteria
    all match and counts those it cannot decide. *)

From S2P Require Import Prelude CLib Json LogicValue ExprParser Waveform ExprEval SessionTypes Engine Apb Stream StreamQuery.

Open Scope Z_scope.

(** ** Bits *)

Lemma bits_val_snoc bs c : bits_val (bs ++ [c]) = 2 * bits_val bs + bit_of c.
Proof. unfold bits_val. by rewrite foldl_app. Qed.

Lemma lsb_snoc bs c i fill : lsb_bit (bs ++ [c]) i fill = match i with O => c | S i' => lsb_bit bs i' fill end.
Proof.
  unfold lsb_bit. rewrite length_app. cbn [length]. destruct i as [|i].
  - rewrite (proj2 (Nat.ltb_lt _ _)) by lia. replace (length bs + 1 - 1 - 0)%nat with (length bs) by lia.
    by rewrite list_lookup_middle.
  - destruct (Nat.ltb_spec i (length bs)) as [Hi|Hi]; [rewrite (proj2 (Nat.ltb_lt _ _)) by lia|by rewrite (proj2 (Nat.ltb_ge _ _)) by lia].
    replace (length bs + 1 - 1 - S i)%nat with (length bs - 1 - i)%nat by lia. by rewrite lookup_app_l by lia.
Qed.

(** The bits of a value are the characters counted from the end. *)
Lemma testbit_bits bs : forall i, Z.testbit (bits_val bs) (Z.of_nat i) = eqc (lsb_bit bs i "0") "1".
Proof.
  induction bs as [|c bs IH] using rev_ind; intros i; [by rewrite Z.testbit_0_l|].
  rewrite bits_val_snoc, lsb_snoc. destruct i as [|i].
  - unfold bit_of. destruct (eqc c "1").
    + by rewrite Z.testbit_odd_0.
    + by rewrite Z.add_0_r, Z.testbit_even_0.
  - rewrite Nat2Z.inj_succ. unfold bit_of. destruct (eqc c "1").
    + rewrite Z.testbit_odd_succ by lia. apply IH.
    + rewrite Z.add_0_r, Z.testbit_even_succ by lia. apply IH.
Qed.

Lemma lsb_out bs i : (length bs <= i)%nat -> lsb_bit bs i "0" = "0"%char.
Proof. intros Hi. unfold lsb_bit. by rewrite (proj2 (Nat.ltb_ge _ _)). Qed.

(** Agreement of two values under a mask, bit by bit. *)
Lemma masked_equal a b m n : (length a <= n)%nat -> (length b <= n)%nat ->
  Z.land (bits_val a) (bits_val m) = Z.land (bits_val b) (bits_val m) <->
  forall i, (i < n)%nat -> eqc (lsb_bit m i "0") "1" = true -> eqc (lsb_bit a i "0") "1" = eqc (lsb_bit b i "0") "1".
Proof.
  intros Ha Hb. split.
  - intros E i _ Hm. apply (f_equal (fun z => Z.testbit z (Z.of_nat i))) in E.
    rewrite !Z.land_spec, !testbit_bits, Hm, !andb_true_r in E. done.
  - intros Hi. apply Z.bits_inj'. intros k Hk. rewrite <- (Z2Nat.id k) by done. rewrite !Z.land_spec, !testbit_bits.
    destruct (eqc (lsb_bit m (Z.to_nat k) "0") "1") eqn:Em; [|by rewrite !andb_false_r]. rewrite !andb_true_r.
    destruct (decide (Z.to_nat k < n)%nat) as [Hlt|Hge]; [by apply Hi|]. by rewrite !lsb_out by lia.
Qed.

(** ** Completions *)

(** [full] fills in the unknown bits of [actual]. *)
Definition completes (actual full : bytes) : Prop :=
  Forall2 (fun a b => is_bit b = true /\ (is_bit a = true -> b = a)) actual full.

Lemma completes_length a f : completes a f -> length f = length a.
Proof. intros H. symmetry. by eapply Forall2_length. Qed.

Lemma completes_lsb a f i : completes a f -> (i < length a)%nat ->
  is_bit (lsb_bit f i "0") = true /\ (is_bit (lsb_bit a i "0") = true -> lsb_bit f i "0" = lsb_bit a i "0").
Proof.
  intros Hc Hi. pose proof (completes_length _ _ Hc) as Hl. unfold lsb_bit. rewrite Hl, (proj2 (Nat.ltb_lt _ _)) by done.
  destruct (lookup_lt_is_Some_2 a (length a - 1 - i)%nat) as [x Hx]; [lia|].
  destruct (Forall2_lookup_l _ _ _ _ _ Hc Hx) as (y & Hy & Hb). by rewrite Hx, Hy.
Qed.

Lemma is_bit_eqc a b : is_bit a = true -> is_bit b = true -> eqc a "1" = eqc b "1" -> a = b.
Proof. unfold is_bit. rewrite !orb_true_iff, !eqc_true. intros [->| ->] [->| ->]; done. Qed.

Lemma bits_lsb bs i : forallb is_bit bs = true -> is_bit (lsb_bit bs i "0") = true.
Proof.
  intros Hb. unfold lsb_bit. destruct (Nat.ltb_spec i (length bs)) as [Hi|Hi]; [|done].
  destruct (lookup_lt_is_Some_2 bs (length bs - 1 - i)%nat) as [x Hx]; [lia|]. rewrite Hx. cbn.
  rewrite List.forallb_forall in Hb. apply Hb, list_elem_of_In. by eapply list_elem_of_lookup_2.
Qed.

Lemma not_unknown c : negb (eqc c "0") && negb (eqc c "1") = negb (is_bit c).
Proof. unfold is_bit. by destruct (eqc c "0"), (eqc c "1"). Qed.

(** What the masked comparison has established. *)
Lemma masked_loop_sound actual expected mask full : completes actual full -> forallb is_bit expected = true -> forall n k,
  (forall i, (i < k)%nat -> eqc (lsb_bit mask i "0") "1" = true -> lsb_bit full i "0" = lsb_bit expected i "0") ->
  match masked_loop actual expected mask k n with
  | Match => forall i, (i < k + n)%nat -> eqc (lsb_bit mask i "0") "1" = true -> lsb_bit full i "0" = lsb_bit expected i "0"
  | NoMatch => exists i, (i < k + n)%nat /\ eqc (lsb_bit mask i "0") "1" = true /\
                 is_bit (lsb_bit full i "0") = true /\ lsb_bit full i "0" <> lsb_bit expected i "0"
  | Unresolved => exists i, eqc (lsb_bit mask i "0") "1" = true /\ is_bit (lsb_bit actual i "0") = false
  end.
Proof.
  intros Hc He. induction n as [|n IH]; intros k Hk; cbn [masked_loop].
  { intros i Hi. apply Hk. lia. }
  rewrite Nat.add_succ_r. rewrite <- Nat.add_succ_l.
  assert (is_bit (lsb_bit actual k "0") = true -> lsb_bit full k "0" = lsb_bit actual k "0") as Hfull.
  { destruct (decide (k < length actual)%nat) as [Hlt|Hge]; [by apply completes_lsb|].
    intros _. by rewrite !lsb_out by (rewrite ?(completes_length _ _ Hc); lia). }
  destruct (eqc (lsb_bit mask k "0") "1") eqn:Em; cbn [negb].
  - rewrite not_unknown. destruct (is_bit (lsb_bit actual k "0")) eqn:Ea; cbn [negb]; [|by exists k].
    specialize (Hfull eq_refl). destruct (eqc (lsb_bit actual k "0") (lsb_bit expected k "0")) eqn:Ee; cbn [negb].
    + apply IH. intros i Hi. destruct (decide (i = k)) as [->|]; [|apply Hk; lia]. intros _. apply eqc_true in Ee. congruence.
    + exists k. split_and!; [lia|done|congruence|]. rewrite Hfull. by apply eqc_false.
  - apply IH. intros i Hi Hmi. destruct (decide (i = k)) as [->|]; [congruence|]. apply Hk; [lia|done].
Qed.

Lemma masked_result_sound actual expected mask full : completes actual full -> forallb is_bit expected = true ->
  match masked_result actual expected mask with
  | Match => Z.land (bits_val full) (bits_val mask) = Z.land (bits_val expected) (bits_val mask)
  | NoMatch => Z.land (bits_val full) (bits_val mask) <> Z.land (bits_val expected) (bits_val mask)
  | Unresolved => exists i, Z.testbit (bits_val mask) (Z.of_nat i) = true /\ is_bit (lsb_bit actual i "0") = false
  end.
Proof.
  intros Hc He. unfold masked_result. set (n := (length actual `max` length expected `max` length mask)%nat).
  pose proof (completes_length _ _ Hc) as Hl.
  pose proof (masked_loop_sound actual expected mask full Hc He n 0 ltac:(lia)) as Hloop.
  destruct (masked_loop actual expected mask 0 n).
  - apply (masked_equal _ _ _ n); [lia|lia|]. intros i Hi Hm. by rewrite Hloop.
  - destruct Hloop as (i & Hi & Hm & Hb & Hne). rewrite (masked_equal _ _ _ n) by lia. intros Hall. apply Hne.
    apply is_bit_eqc; [done|by apply bits_lsb|by apply Hall].
  - destruct Hloop as (i & Hm & Hu). exists i. by rewrite testbit_bits.
Qed.

(** ** The JSON of a value *)

Lemma json_value_known v fmt : jget (lit "known") (logic_value_json v fmt) = Some (JBool (known v)).
Proof.
  unfold logic_value_json, jget. cbn [Json.members].
  destruct (negb (known v)), (negb (bool_decide (bits v = []))), (0 <? width v);
    cbn [negb]; rewrite ?mget_mset_ne by done; by rewrite mget_mset_eq.
Qed.

Lemma json_value_bits v fmt : bits v <> [] -> jget (lit "bits") (logic_value_json v fmt) = Some (JString (bits v)).
Proof.
  intros Hb. unfold logic_value_json, jget. cbn [Json.members]. rewrite (bool_decide_false _ Hb). cbn [negb].
  destruct (negb (known v)); rewrite ?mget_mset_ne by done; by rewrite mget_mset_eq.
Qed.

Lemma json_value_object v fmt : exists m, logic_value_json v fmt = JObject m.
Proof. unfold logic_value_json. eauto. Qed.

Lemma value_or_get {A} (f : json -> res A) k d j x : is_object j = true -> jget k j = Some x -> value_or f k d j = f x.
Proof. destruct j; try done. intros _. cbn. unfold jget. cbn [Json.members]. by intros ->. Qed.

Lemma at_key_get k j x : jget k j = Some x -> at_key k j = Ret x.
Proof. destruct j; try done. unfold jget. cbn. by intros ->. Qed.

Lemma string_at_get k j s : jget k j = Some (JString s) -> string_at_key k j = Ret s.
Proof. intros Hg. unfold string_at_key. by rewrite (at_key_get _ _ _ Hg). Qed.

Lemma binary_u64_val bs : forall a, forallb is_bit bs = true ->
  binary_u64 (u64 a) bs = Some (u64 (foldl (fun a c => 2 * a + bit_of c) a bs)).
Proof.
  induction bs as [|c bs IH]; intros a Hb; cbn [binary_u64 foldl]; [done|]. cbn in Hb. apply andb_true_iff in Hb as [Hc Hb].
  rewrite not_unknown, Hc. cbn [negb]. fold (bit_of c). rewrite u64_shift_in by apply bit_of_range. rewrite u64_add_l. by apply IH.
Qed.

Lemma bits_val_u64 bs : zlen bs <= 64 -> u64 (bits_val bs) = bits_val bs.
Proof.
  intros Hl. apply u64_small. pose proof (bits_val_range bs).
  assert (2 ^ zlen bs <= 2 ^ 64) by (apply Z.pow_le_mono_r; lia). lia.
Qed.

Lemma known_value v fmt : bits v <> [] -> known v = true -> forallb is_bit (bits v) = true -> zlen (bits v) <= 64 ->
  known_u64 (logic_value_json v fmt) = Ret (Some (bits_val (bits v))).
Proof.
  intros Hne Hk Hb Hl. unfold known_u64. destruct (json_value_object v fmt) as [m Hm].
  assert (is_object (logic_value_json v fmt) = true) as Ho by (by rewrite Hm).
  rewrite (value_or_get as_bool _ _ _ _ Ho (json_value_known v fmt)), Hk. cbn [as_bool mbind res_bind negb orb].
  unfold jcontains. rewrite (json_value_bits v fmt Hne). cbn [negb].
  rewrite (string_at_get _ _ _ (json_value_bits v fmt Hne)). cbn [mbind res_bind]. rewrite (proj2 (Z.ltb_ge _ _)) by lia.
  change 0 with (u64 0). rewrite binary_u64_val by done. fold (bits_val (bits v)). by rewrite bits_val_u64.
Qed.

Lemma literal_value s v : parse_sv_literal s = Ret (Some v) -> known v = true -> zlen (bits v) <= 64 ->
  literal_u64 s = Ret (Some (bits_val (bits v))).
Proof.
  intros Hp Hk Hl. unfold literal_u64. rewrite Hp. cbn [mbind res_bind]. rewrite Hk. cbn [negb orb].
  rewrite (proj2 (Z.ltb_ge _ _)) by lia. fold (to_u64 v). by rewrite to_u64_exact.
Qed.

(** A mask rule and its two literals. *)
Record mask_rule (rule : json) (expected mask : LogicValue) : Prop := {
  mr_mode : jget (lit "mode") rule = Some (JString (lit "mask"));
  mr_value : exists s, jget (lit "value") rule = Some (JString s) /\ parse_sv_literal s = Ret (Some expected);
  mr_mask : exists s, jget (lit "mask") rule = Some (JString s) /\ parse_sv_literal s = Ret (Some mask);
  mr_known : known expected = true /\ known mask = true;
  mr_bits : forallb is_bit (bits expected) = true;
  mr_width : zlen (bits expected) <= 64 /\ zlen (bits mask) <= 64;
}.

Lemma completes_known a f : forallb is_bit a = true -> completes a f -> f = a.
Proof.
  intros Ha Hc. induction Hc as [|x y a f [Hy Hxy] Hc IH]; [done|]. cbn in Ha. apply andb_true_iff in Ha as [Hx Ha].
  by rewrite (Hxy Hx), IH.
Qed.

Lemma completes_refl a : forallb is_bit a = true -> completes a a.
Proof.
  induction a as [|x a IH]; intros Ha; [constructor|]. cbn in Ha. apply andb_true_iff in Ha as [Hx Ha].
  constructor; [done|by apply IH].
Qed.

(** A mask filter on a field with unknown bits is three-valued and sound: it
    reports a match only when the field agrees with the value under the mask
    however the X and Z bits are filled in, no match only when it disagrees
    for every filling, and leaves the field unresolved only when a bit the
    mask selects is unknown. It never throws. *)
Theorem mask_filter_sound v fmt rule expected mask full : mask_rule rule expected mask ->
  bits v <> [] -> known v = forallb is_bit (bits v) -> zlen (bits v) <= 64 -> completes (bits v) full ->
  match stream_field_filter_result (logic_value_json v fmt) rule with
  | Ret Match => Z.land (bits_val full) (bits_val (bits mask)) = Z.land (bits_val (bits expected)) (bits_val (bits mask))
  | Ret NoMatch => Z.land (bits_val full) (bits_val (bits mask)) <> Z.land (bits_val (bits expected)) (bits_val (bits mask))
  | Ret Unresolved => exists i, Z.testbit (bits_val (bits mask)) (Z.of_nat i) = true /\
                                is_bit (lsb_bit (bits v) i "0") = false
  | _ => False
  end.
Proof.
  intros [Hmode (es & Hev & Hep) (ms & Hmv & Hmp) [Hke Hkm] Heb [Hew Hmw]] Hne Hk Hl Hc.
  unfold stream_field_filter_result. destruct (json_value_object v fmt) as [m Hm].
  assert (is_object (logic_value_json v fmt) = true) as Ho by (by rewrite Hm). rewrite Ho. unfold jcontains.
  rewrite (json_value_bits v fmt Hne). cbn [negb orb].
  rewrite (value_or_get as_bool _ _ _ _ Ho (json_value_known v fmt)). cbn [as_bool mbind res_bind].
  destruct (known v) eqn:Ev.
  - rewrite (completes_known _ _ (eq_sym Hk) Hc). unfold stream_field_matches.
    rewrite (known_value v fmt Hne Ev (eq_sym Hk) Hl). cbn [mbind res_bind].
    rewrite (string_at_get _ _ _ Hmode). cbn [mbind res_bind]. unfold literal_pair.
    change (eqs (lit "mask") (lit "exact")) with false. change (eqs (lit "mask") (lit "range")) with false. cbv iota.
    rewrite (string_at_get _ _ _ Hev). cbn [mbind res_bind]. rewrite (literal_value _ _ Hep Hke Hew). cbn [mbind res_bind].
    rewrite (string_at_get _ _ _ Hmv). cbn [mbind res_bind]. rewrite (literal_value _ _ Hmp Hkm Hmw). cbn [mbind res_bind].
    by destruct (Z.eqb_spec (Z.land (bits_val (bits v)) (bits_val (bits mask)))
      (Z.land (bits_val (bits expected)) (bits_val (bits mask)))).
  - rewrite (at_key_get _ _ _ Hmode). cbn [mbind res_bind]. cbn [is_text]. rewrite eqs_refl. cbn [negb].
    rewrite (string_at_get _ _ _ Hev). cbn [mbind res_bind]. rewrite Hep. cbn [mbind res_bind].
    rewrite (string_at_get _ _ _ Hmv). cbn [mbind res_bind]. rewrite Hmp. cbn [mbind res_bind]. rewrite Hke, Hkm. cbn [negb orb].
    rewrite (string_at_get _ _ _ (json_value_bits v fmt Hne)). cbn [mbind res_bind].
    exact (masked_result_sound _ _ (bits mask) _ Hc Heb).
Qed.

(** ** Conjunction of criteria *)

Definition criterion_result (fields : json) (criterion : bytes * json) : res StreamFilterResult :=
  match jget (fst criterion) fields with
  | Some value => stream_field_filter_result value (snd criterion)
  | None => Ret Unresolved
  end.

(** Kleene's conjunction of a list of verdicts. *)
Definition conjunction (rs : list StreamFilterResult) : StreamFilterResult :=
  if existsb (fun r => bool_decide (r = NoMatch)) rs then NoMatch
  else if existsb (fun r => bool_decide (r = Unresolved)) rs then Unresolved else Match.

Lemma judge_conjunction fields criteria : forall unresolved rs,
  Forall2 (fun c r => criterion_result fields c = Ret r) criteria rs ->
  judge_fields fields criteria unresolved = Ret (conjunction (if unresolved then Unresolved :: rs else rs)).
Proof.
  induction criteria as [|[k rule] criteria IH]; intros unresolved rs Hrs; inversion Hrs as [|? r ? rs' Hr Hrs']; subst.
  { by destruct unresolved. }
  cbn [judge_fields]. unfold criterion_result in Hr. cbn [fst snd] in Hr. rewrite Hr. cbn [mbind res_bind].
  destruct r.
  - rewrite (IH unresolved rs' Hrs'). by destruct unresolved.
  - by destruct unresolved.
  - rewrite (IH true rs' Hrs'). f_equal. unfold conjunction. destruct unresolved; cbn; done.
Qed.

(** The entries a filter keeps and the number it cannot decide. *)
Lemma filter_by_spec {A} (judge : A -> res StreamFilterResult) (verdict : A -> StreamFilterResult) l :
  (forall a, a ∈ l -> judge a = Ret (verdict a)) -> forall n, 0 <= n -> n + zlen l < 2 ^ 64 ->
  filter_by judge l n = Ret (List.filter (fun a => bool_decide (verdict a = Match)) l,
                             n + zlen (List.filter (fun a => bool_decide (verdict a = Unresolved)) l)).
Proof.
  induction l as [|a l IH]; intros Hj n H0 Hn; cbn [filter_by List.filter]; [do 2 f_equal; unfold zlen; cbn; lia|].
  rewrite zlen_cons in Hn. pose proof (zlen_nonneg l). rewrite Hj by left. cbn [mbind res_bind].
  assert (forall a, a ∈ l -> judge a = Ret (verdict a)) as Hj' by (intros; apply Hj; by right).
  destruct (verdict a).
  - rewrite IH by (done || lia). done.
  - rewrite IH by (done || lia). done.
  - rewrite u64_small by lia. rewrite IH by (done || lia).
    rewrite (bool_decide_false (Unresolved = Match)), (bool_decide_true (Unresolved = Unresolved)) by done.
    rewrite zlen_cons. do 2 f_equal. lia.
Qed.

(** With a filter and no packets, a query keeps exactly the transfers all of
    whose criteria match, in order, and counts as unresolved those that no
    criterion excludes and some criterion cannot decide: Kleene's
    conjunction of the criteria. *)
Theorem transfer_filter_exact filter criteria transfers (verdict : StreamSample -> bytes * json -> StreamFilterResult) :
  criteria_of filter = Ret criteria ->
  (forall t c, t ∈ transfers -> c ∈ criteria -> criterion_result (ssm_fields t) c = Ret (verdict t c)) ->
  zlen transfers < 2 ^ 64 ->
  filter_by (judge_transfer filter) transfers 0 =
    Ret (List.filter (fun t => bool_decide (conjunction (map (verdict t) criteria) = Match)) transfers,
         zlen (List.filter (fun t => bool_decide (conjunction (map (verdict t) criteria) = Unresolved)) transfers)).
Proof.
  intros Hc Hv Hlen. rewrite (filter_by_spec _ (fun t => conjunction (map (verdict t) criteria))); [done| |lia|lia].
  intros t Ht. unfold judge_transfer. rewrite Hc. cbn [mbind res_bind].
  rewrite (judge_conjunction _ _ false (map (verdict t) criteria)); [done|]. specialize (Hv t).
  assert (forall c, c ∈ criteria -> criterion_result (ssm_fields t) c = Ret (verdict t c)) as Hv' by auto.
  clear - Hv'. induction criteria as [|c criteria IH]; constructor; [apply Hv'; left|]. apply IH. intros; apply Hv'; by right.
Qed.

(** A known field wider than 64 bits is never matched, whatever the rule. *)
Theorem wide_field_never_matches v fmt rule : bits v <> [] -> known v = true -> 64 < zlen (bits v) ->
  stream_field_filter_result (logic_value_json v fmt) rule = Ret NoMatch.
Proof.
  intros Hne Hk Hl. unfold stream_field_filter_result. destruct (json_value_object v fmt) as [m Hm].
  assert (is_object (logic_value_json v fmt) = true) as Ho by (by rewrite Hm). rewrite Ho. unfold jcontains.
  rewrite (json_value_bits v fmt Hne). cbn [negb orb].
  rewrite (value_or_get as_bool _ _ _ _ Ho (json_value_known v fmt)). cbn [as_bool mbind res_bind]. rewrite Hk.
  unfold stream_field_matches, known_u64.
  rewrite (value_or_get as_bool _ _ _ _ Ho (json_value_known v fmt)), Hk. cbn [as_bool mbind res_bind negb orb].
  unfold jcontains. rewrite (json_value_bits v fmt Hne). cbn [negb].
  rewrite (string_at_get _ _ _ (json_value_bits v fmt Hne)). cbn [mbind res_bind]. by rewrite (proj2 (Z.ltb_lt _ _)).
Qed.

(** ** Witnesses *)

Definition demo_rule : json :=
  jobj [(lit "mode", JString (lit "mask")); (lit "value", JString (lit "4'b0100")); (lit "mask", JString (lit "4'b0110"))].
(** The unknown bit is not selected by the mask. *)
Definition demo_field : LogicValue := logic_value_from_bits (lit "010x") 4.

Lemma demo_rule_ok : mask_rule demo_rule (logic_value_from_bits (lit "0100") 4) (logic_value_from_bits (lit "0110") 4).
Proof.
  split; [reflexivity|eexists; split; reflexivity|eexists; split; reflexivity|split; reflexivity|reflexivity|].
  split; vm_compute; discriminate.
Qed.

Lemma mask_filter_sound_witness :
  stream_field_filter_result (logic_value_json demo_field Hex) demo_rule = Ret Match /\
  match stream_field_filter_result (logic_value_json demo_field Hex) demo_rule with
  | Ret Match => Z.land (bits_val (lit "0101")) 6 = Z.land 4 6
  | Ret NoMatch => Z.land (bits_val (lit "0101")) 6 <> Z.land 4 6
  | Ret Unresolved => exists i, Z.testbit 6 (Z.of_nat i) = true /\ is_bit (lsb_bit (bits demo_field) i "0") = false
  | _ => False
  end.
Proof.
  split; [vm_compute; reflexivity|].
  apply (mask_filter_sound demo_field Hex demo_rule _ _ (lit "0101") demo_rule_ok); [discriminate|reflexivity|vm_compute; discriminate|].
  repeat constructor; try done; vm_compute; discriminate.
Defined.

Definition demo_row (bs : bytes) : StreamSample :=
  MkStreamSample 0 0 0 true true false false false true false true true false
    (jobj [(lit "f", logic_value_json (logic_value_from_bits bs 4) Hex)]) (JObject []) JNull (-1) 0.
Definition demo_rows : list StreamSample := [demo_row (lit "0100"); demo_row (lit "0x00"); demo_row (lit "0000")].
Definition demo_filter : json := jobj [(lit "fields", jobj [(lit "f", demo_rule)])].
Definition demo_verdict (t : StreamSample) (c : bytes * json) : StreamFilterResult :=
  match criterion_result (ssm_fields t) c with Ret v => v | _ => Unresolved end.

Lemma transfer_filter_exact_witness :
  filter_by (judge_transfer demo_filter) demo_rows 0 = Ret ([demo_row (lit "0100")], 1) /\
  filter_by (judge_transfer demo_filter) demo_rows 0 =
    Ret (List.filter (fun t => bool_decide (conjunction (map (demo_verdict t) [(lit "f", demo_rule)]) = Match)) demo_rows,
         zlen (List.filter (fun t => bool_decide (conjunction (map (demo_verdict t) [(lit "f", demo_rule)]) = Unresolved)) demo_rows)).
Proof.
  split; [vm_compute; reflexivity|].
  apply (transfer_filter_exact demo_filter [(lit "f", demo_rule)] demo_rows demo_verdict); [reflexivity| |vm_compute; reflexivity].
  intros t c Ht Hc. apply list_elem_of_singleton in Hc as ->.
  repeat (apply elem_of_cons in Ht as [->|Ht]; [vm_compute; reflexivity|]). apply elem_of_nil in Ht as [].
Defined.

Definition wide_field : LogicValue := logic_value_from_bits (replicate 65 "1"%char) 65.
Lemma wide_field_never_matches_witness :
  stream_field_filter_result (logic_value_json wide_field Hex)
    (jobj [(lit "mode", JString (lit "mask")); (lit "value", JString (lit "1")); (lit "mask", JString (lit "1"))]) = Ret NoMatch.
Proof. apply wide_field_never_matches; [discriminate|reflexivity|vm_compute; reflexivity]. Defined.
