(* ===== verification/StreamTheory.v ===== *)
(** * StreamTheory: what the stream actions report

    The scan reads the waveform through lookups that allocate handles; it is
    shown to report what each selected edge reads in the state the scan
    starts from. The packets of a query are the runs of each channel between
    packet boundaries, the stall windows are the maximal runs of stalled
    samples, and a field filter decides what every completion of the unknown
    bits decides. *)

From stdpp Require Import sorting.
From S2P Require Import Prelude CLib Json LogicValue ExprParser Waveform ExprEval WellenApi WellenBackend WellenTheory ClockSampling DesignIndex SessionTypes Sorting Engine EngineFst Apb Stream StreamQuery StreamPackets.

Open Scope Z_scope.

(** ** Reading does not disturb reading *)

(** What a lookup leaves alone: the reads of every path, and the samples of
    a handle that is already known. *)
Class ReadLaws (W : Type) `{EngineLaws W} := {
  rl_find_read : forall w p q ti point, ew_ok 2 w ->
    read (snd (ew_find_signal w p)) q ti point = read w q ti point;
  rl_find_ref : forall w p r q ti point, ew_ok 1 w -> ew_names w r q ->
    sb_sampled_value_at (snd (ew_find_signal w p)) r ti point = sb_sampled_value_at w r ti point;
}.

Section Steady.
Context {W : Type} `{ReadLaws W}.
(** The handle of the reset, 0 when there is none. *)
Variable (r : Z).
Implicit Types w : W.

Definition held w : Prop := r = 0 \/ exists p, ew_names w r p.

Record alike w w' : Prop := {
  ak_read : forall p ti pt, read w' p ti pt = read w p ti pt;
  ak_ref : r <> 0 -> forall ti pt, sb_sampled_value_at w' r ti pt = sb_sampled_value_at w r ti pt;
  ak_time : forall ti, sb_time_at w' ti = sb_time_at w ti;
}.

Lemma alike_refl w : alike w w.
Proof. by split. Qed.

Lemma alike_trans w1 w2 w3 : alike w1 w2 -> alike w2 w3 -> alike w1 w3.
Proof. intros [A1 A2 A3] [B1 B2 B3]. split; intros; [rewrite B1; auto|rewrite B2; auto|rewrite B3; auto]. Qed.

Lemma alike_sym w1 w2 : alike w1 w2 -> alike w2 w1.
Proof. intros [A1 A2 A3]. split; intros; symmetry; auto. Qed.

(** A state with a reserve of [S n] lookups that reads like [w]. *)
Record kept (n : nat) w w' : Prop := {
  kp_ok : ew_ok (S n) w';
  kp_held : held w';
  kp_alike : alike w w';
}.

Lemma find_kept n w p : ew_ok (S (S n)) w -> held w -> kept n w (snd (ew_find_signal w p)).
Proof.
  intros Hok Hh. destruct (ew_find (S n) w p Hok) as (Hok' & Hl & _). split; [done| |split].
  - destruct Hh as [?|[q Hq]]; [by left|right]. exists q. by eapply ew_later_names.
  - intros q ti pt. apply rl_find_read. by apply (ew_ok_le (S (S n))); [lia|].
  - intros Hr ti pt. destruct Hh as [?|[q Hq]]; [done|]. apply (rl_find_ref _ _ _ q); [|done].
    by apply (ew_ok_le (S (S n))); [lia|].
  - intros ti. by apply ew_later_time.
Qed.

Lemma ok_le n m w : ew_ok n w -> (m <= n)%nat -> ew_ok m w.
Proof. intros. by eapply ew_ok_le. Qed.

(** A step that makes at most [k] lookups and whose result depends only on
    what the waveform reads. *)
Definition steady (k : nat) {A} (m : act W A) : Prop := forall n w, ew_ok (S (k + n)) w -> held w ->
  kept n w (snd (m w)) /\
  forall w', ew_ok (S k) w' -> held w' -> alike w w' -> fst (m w') = fst (m w).

Lemma kept_refl n w : ew_ok (S n) w -> held w -> kept n w w.
Proof. intros. split; [done..|apply alike_refl]. Qed.

Lemma steady_pure {A} (res : res A) : steady 0 (lift res).
Proof. intros n w Hok Hh. split; [by apply kept_refl|done]. Qed.

Lemma steady_ret {A} (a : A) : steady 0 (mret a).
Proof. apply (steady_pure (Ret a)). Qed.

Lemma steady_weaken {A} k k' (m : act W A) : (k <= k')%nat -> steady k m -> steady k' m.
Proof.
  intros Hk Hm n w Hok Hh. destruct (Hm (k' - k + n)%nat w) as [[A1 A2 A3] B]; [|done|].
  - apply (ok_le _ _ _ Hok). lia.
  - split; [split; [|done..]|].
    + apply (ok_le _ _ _ A1). lia.
    + intros w' Hok'. apply B. apply (ok_le _ _ _ Hok'). lia.
Qed.

Lemma steady_bind {A B} k1 k2 (m : act W A) (f : A -> act W B) :
  steady k1 m -> (forall a, steady k2 (f a)) -> steady (k1 + k2) (m ≫= f).
Proof.
  intros Hm Hf n w Hok Hh. cbn [mbind act_bind].
  destruct (Hm (k2 + n)%nat w) as [Hk Hs]; [apply (ok_le _ _ _ Hok); lia|done|].
  unfold mbind, act_bind. destruct (m w) as [[a| |what] w1] eqn:E; cbn [fst snd] in *.
  - destruct Hk as [K1 K2 K3]. destruct (Hf a n w1 K1 K2) as [[L1 L2 L3] Hs2]. split.
    + split; [done..|by eapply alike_trans].
    + intros w' Hok' Hh' Ha'. assert (ew_ok (S k1) w') as O1 by (apply (ok_le _ _ _ Hok'); lia).
      specialize (Hs w' O1 Hh' Ha') as Hv.
      destruct (Hm k2 w' ltac:(apply (ok_le _ _ _ Hok'); lia) Hh') as [[M1 M2 M3] _].
      destruct (m w') as [v w1']; cbn [fst snd] in *. subst v. apply Hs2; [done..|].
      eapply alike_trans; [|done]. eapply alike_trans; [|done]. by apply alike_sym.
  - split; [split; try apply Hk|].
    + destruct Hk as [K1 _ _]. apply (ok_le _ _ _ K1). lia.
    + intros w' Hok' Hh' Ha'. assert (ew_ok (S k1) w') as O1 by (apply (ok_le _ _ _ Hok'); lia).
      specialize (Hs w' O1 Hh' Ha') as Hv.
      destruct (m w') as [v w1']; cbn [fst snd] in *. by subst v.
  - split; [split; try apply Hk|].
    + destruct Hk as [K1 _ _]. apply (ok_le _ _ _ K1). lia.
    + intros w' Hok' Hh' Ha'. assert (ew_ok (S k1) w') as O1 by (apply (ok_le _ _ _ Hok'); lia).
      specialize (Hs w' O1 Hh' Ha') as Hv.
      destruct (m w') as [v w1']; cbn [fst snd] in *. by subst v.
Qed.

Lemma steady_get {B} k (f : W -> act W B) : (forall w, steady k (f w)) ->
  (forall w w', alike w w' -> f w' = f w) -> steady k (get_state ≫= f).
Proof.
  intros Hf He n w Hok Hh. cbn. destruct (Hf w n w Hok Hh) as [Hk Hs]. split; [done|].
  intros w' Hok' Hh' Ha. pose proof (He w w' Ha) as E. unfold mbind, act_bind, get_state. cbn beta iota.
  rewrite E. by apply Hs.
Qed.

(** *** Expressions *)

Lemma eval_ref_ext env env' e : (forall p, env' p = env p) -> eval_ref env' e = eval_ref env e.
Proof. intros He. induction e as [s|s m l|v|op a IH|op a IHa b IHb]; cbn [eval_ref]; by rewrite ?He, ?IH, ?IHa, ?IHb. Qed.

Lemma eval_kept e ti pt : forall n w, ew_ok (S (leaves e + n)) w -> held w ->
  match eval_expression e w ti None pt with
  | Ret (v, w', samples) => samples = None /\ eval_ref (fun p => read w p ti pt) e = Ret v /\ kept n w w'
  | UB => eval_ref (fun p => read w p ti pt) e = UB
  | Throw what => eval_ref (fun p => read w p ti pt) e = Throw what
  end.
Proof.
  assert (forall s sel n w, ew_ok (S (1 + n)) w -> held w ->
    match eval_memo_leaf s sel w ti None pt with
    | Ret (v, w', samples) => samples = None /\ leaf_of sel (read w s ti pt) = Ret v /\ kept n w w'
    | UB => leaf_of sel (read w s ti pt) = UB
    | Throw what => leaf_of sel (read w s ti pt) = Throw what
    end) as Hleaf.
  { intros s sel n w Hok Hh. unfold eval_memo_leaf. cbn [mbind option_bind]. rewrite eval_leaf_read.
    destruct (leaf_of sel (read w s ti pt)); cbn [mbind res_bind]; [|done..]. split_and!; [done|done|].
    by apply find_kept. }
  induction e as [s|s m l|v|op a IH|op a IHa b IHb]; intros n w Hok Hh; cbn [eval_expression eval_ref leaves] in *.
  - by apply Hleaf.
  - by apply Hleaf.
  - split_and!; [done..|by apply kept_refl].
  - specialize (IH n w Hok Hh). destruct (eval_expression a w ti None pt) as [[[v w'] s']| |what];
      cbn [mbind res_bind]; [|by rewrite IH|by rewrite IH]. destruct IH as (-> & -> & Hk). cbn [mbind res_bind].
    by destruct (eval_unary op v); cbn [mbind res_bind].
  - specialize (IHa (leaves b + n)%nat w ltac:(apply (ok_le _ _ _ Hok); lia) Hh).
    destruct (eval_expression a w ti None pt) as [[[v w'] s']| |what]; cbn [mbind res_bind];
      [|by rewrite IHa|by rewrite IHa]. destruct IHa as (-> & -> & [K1 K2 K3]). cbn [mbind res_bind].
    specialize (IHb n w' K1 K2).
    rewrite (eval_ref_ext (fun p => read w p ti pt) (fun p => read w' p ti pt) b) in IHb by (intros; apply K3).
    destruct (eval_expression b w' ti None pt) as [[[v2 w2] s2]| |what]; cbn [mbind res_bind];
      [|by rewrite IHb|by rewrite IHb]. destruct IHb as (-> & -> & [L1 L2 L3]). cbn [mbind res_bind].
    destruct (eval_binary op v v2); cbn [mbind res_bind]; [|done..]. split_and!; [done..|].
    split; [done..|by eapply alike_trans].
Qed.

Lemma steady_eval e ti pt : steady (leaves e) (eval_at e ti pt).
Proof.
  intros n w Hok Hh. unfold eval_at. pose proof (eval_kept e ti pt n w Hok Hh) as Hw.
  assert (ew_ok (S n) w) as Hn by (apply (ok_le _ _ _ Hok); lia). split.
  - destruct (eval_expression e w ti None pt) as [[[v w1] s1]| |what]; [by destruct Hw as (_ & _ & ?)|by apply kept_refl..].
  - intros w' Hok' Hh' Ha. pose proof (eval_kept e ti pt 0 w' ltac:(apply (ok_le _ _ _ Hok'); lia) Hh') as Hw'.
    rewrite (eval_ref_ext (fun p => read w p ti pt) (fun p => read w' p ti pt) e) in Hw' by (intros; apply Ha).
    destruct (eval_expression e w ti None pt) as [[[v w1] s1]| |what], (eval_expression e w' ti None pt) as [[[v' w1'] s1']| |what'];
      cbn [fst]; try (destruct Hw as (_ & Hw & _)); try (destruct Hw' as (_ & Hw' & _)); congruence.
Qed.
End Steady.

(** *** Lookups of one edge *)

Definition expr_cost (e : option ExprNode) : nat := match e with Some root => leaves root | None => 0 end.

Fixpoint field_cost (fuel : nat) (signals : list (bytes * bytes)) (expression : bytes) : nat :=
  match fuel with
  | O => 0
  | S fuel' =>
      match braced (trim_blanks expression) with
      | Some inner => list_sum (map (field_cost fuel' signals) (split_parts 0 [] inner))
      | None =>
          match parse_expression (resolve_field_expression (trim_blanks expression) signals) with
          | POk (Some root, _) => leaves root
          | _ => 0
          end
      end
  end.

Definition item_cost (c : StreamConfig) (item : bytes * json) : nat :=
  match snd item with
  | JString expression => field_cost (S (length expression)) (stc_signals c) expression
  | _ => 0
  end.
Definition items_cost (c : StreamConfig) (items : list (bytes * json)) : nat := list_sum (map (item_cost c) items).

Definition clock_cost (e : CompiledStreamExpressions) : nat := expr_cost (ce_clock e) + expr_cost (ce_clock e).
Definition control_cost (e : CompiledStreamExpressions) : nat :=
  2 * expr_cost (ce_valid e) + 2 * expr_cost (ce_ready e) + expr_cost (ce_backpressure e) + expr_cost (ce_sop e)
  + expr_cost (ce_eop e).
Definition fields_cost (c : StreamConfig) (e : CompiledStreamExpressions) : nat :=
  expr_cost (ce_data e) + items_cost c (json_entries (stc_beat_fields c))
  + items_cost c (json_entries (stc_packet_stable_fields c)) + expr_cost (ce_channel_id e).

(** The lookups made for one change of the clock. *)
Definition edge_cost (c : StreamConfig) (e : CompiledStreamExpressions) : nat :=
  clock_cost e + control_cost e + fields_cost c e.

Section SteadyScan.
Context {W : Type} `{ReadLaws W}.
Variable (r : Z).
Implicit Types w : W.

Lemma steady_bits e ti pt d : steady r (expr_cost e) (expression_bits_at (W := W) e ti pt d).
Proof.
  destruct e as [root|]; cbn [expression_bits_at expr_cost]; [|apply steady_ret].
  rewrite <- (Nat.add_0_r (leaves root)). apply steady_bind; [apply steady_eval|intros; apply steady_ret].
Qed.

Lemma steady_json e ti pt fmt : steady r (expr_cost e) (expression_json_at (W := W) e ti pt fmt).
Proof.
  destruct e as [root|]; cbn [expression_json_at expr_cost]; [|apply steady_ret].
  rewrite <- (Nat.add_0_r (leaves root)). apply steady_bind; [apply steady_eval|intros; apply steady_ret].
Qed.

Lemma steady_parts cost evaluate parts : (forall p, steady r (cost p) (evaluate p)) ->
  steady r (list_sum (map cost parts)) (parts_bits (W := W) evaluate parts).
Proof.
  intros Hev. induction parts as [|p parts IH]; cbn [parts_bits map list_sum foldr]; [apply steady_ret|].
  apply steady_bind; [done|]. intros [v|].
  - rewrite <- (Nat.add_0_r (foldr _ _ _)). apply steady_bind; [apply IH|intros; apply steady_ret].
  - apply (steady_weaken _ 0); [lia|apply steady_ret].
Qed.

Lemma steady_field fuel signals ti pt : forall expression,
  steady r (field_cost fuel signals expression) (evaluate_field (W := W) fuel signals ti pt expression).
Proof.
  induction fuel as [|fuel IH]; intros expression; cbn [evaluate_field field_cost]; [apply steady_pure|].
  destruct (eqs (trim_blanks expression) []); [apply (steady_weaken _ 0); [lia|apply steady_ret]|].
  destruct (braced (trim_blanks expression)) as [inner|].
  - rewrite <- (Nat.add_0_r (list_sum _)). apply steady_bind; [by apply steady_parts|intros; apply steady_ret].
  - destruct (parse_expression _) as [[[root|] ?]| |]; try (apply steady_ret || apply steady_pure).
    rewrite <- (Nat.add_0_r (leaves root)). apply steady_bind; [apply steady_eval|intros; apply steady_ret].
Qed.

Lemma steady_items c ti pt fmt items : forall fields complete,
  steady r (items_cost c items) (evaluate_fields (W := W) c ti pt fmt items fields complete).
Proof.
  unfold items_cost. induction items as [|[k j] items IH]; intros fields complete; cbn [evaluate_fields map list_sum foldr];
    [apply steady_ret|].
  apply steady_bind; [|intros [v|]; apply IH].
  destruct j; cbn [item_cost snd]; try apply steady_ret. apply steady_field.
Qed.

Lemma steady_fields_at c e ti pt fmt complete :
  steady r (expr_cost (ce_data e) + items_cost c (json_entries (stc_beat_fields c)))
    (stream_fields_at (W := W) c e ti pt fmt complete).
Proof.
  apply steady_bind; [|intros; apply steady_items].
  destruct (_ && _); [apply steady_json|apply (steady_weaken _ 0); [lia|apply steady_ret]].
Qed.

Lemma steady_read_fields c e ti pt fmt complete s :
  steady r (fields_cost c e) (read_fields (W := W) c e ti pt fmt complete s).
Proof.
  unfold read_fields, fields_cost. rewrite <- !Nat.add_assoc. rewrite (Nat.add_assoc (expr_cost (ce_data e))).
  apply steady_bind; [apply steady_fields_at|intros fields]. apply steady_bind; [apply steady_items|intros stable].
  rewrite <- (Nat.add_0_r (expr_cost _)). apply steady_bind; [apply steady_json|intros channel].
  apply (steady_bind r 0 0); [apply steady_pure|intros; apply steady_ret].
Qed.

Lemma steady_controls e ti pt : steady r (control_cost e) (read_controls (W := W) e ti pt).
Proof.
  apply (steady_weaken _ (expr_cost (ce_valid e) + (expr_cost (ce_ready e) + (expr_cost (ce_backpressure e)
    + (expr_cost (ce_sop e) + (expr_cost (ce_eop e) + (expr_cost (ce_valid e) + (expr_cost (ce_ready e) + 0)))))))).
  { unfold control_cost. lia. }
  unfold read_controls. do 5 (apply steady_bind; [apply steady_bits|intros ?]). case_if.
  - do 2 (apply steady_bind; [apply steady_bits|intros ?]). apply steady_ret.
  - apply (steady_weaken _ 0); [lia|apply steady_ret].
Qed.

Lemma steady_edge c e fmt cycle ti complete :
  steady r (control_cost e + fields_cost c e) (sample_edge (W := W) c e r fmt cycle ti complete).
Proof.
  apply steady_get.
  - intros w. destruct (negb (r =? 0) && _); [apply (steady_weaken _ 0); [lia|apply steady_ret]|].
    apply steady_bind; [apply steady_controls|intros controls]. cbv beta zeta. case_match; [apply steady_read_fields|].
    apply (steady_weaken _ 0); [lia|apply steady_ret].
  - intros w w' Ha. unfold sampled_signal_bits_at. rewrite (ak_time _ _ _ Ha). destruct (Z.eqb_spec r 0); [done|].
    by rewrite (ak_ref _ _ _ Ha).
Qed.

Lemma steady_clock c e ti : steady r (clock_cost e) (clock_selected (W := W) c e ti).
Proof.
  unfold clock_selected, clock_cost. rewrite <- (Nat.add_0_r (expr_cost _ + _)), <- Nat.add_assoc.
  do 2 (apply steady_bind; [apply steady_bits|intros ?]). apply steady_ret.
Qed.

(** *** The scan as a list of edges *)

(** The samples of the given edges, each read in the state [w]. *)
Fixpoint sample_edges (w : W) (c : StreamConfig) (e : CompiledStreamExpressions) (fmt : ValueRenderFormat)
    (edges : list Z) (cycle : Z) (complete : bool) : res (list StreamSample * bool) :=
  match edges with
  | [] => Ret ([], complete)
  | ti :: edges' =>
      sampled ← fst (sample_edge c e r fmt cycle ti complete w);
      rest ← sample_edges w c e fmt edges' (u64 (cycle + 1)) (snd sampled);
      Ret (fst sampled :: fst rest, snd rest)
  end.

Definition in_range (begin_ti end_ti : Z) (sel : Z -> bool) (ti : Z) : bool :=
  sel ti && (begin_ti <=? ti) && (ti <=? end_ti).

Lemma range_past begin_ti end_ti sel l : Forall (fun ti => end_ti < ti) l ->
  List.filter (in_range begin_ti end_ti sel) l = [].
Proof.
  induction 1 as [|ti l Hti Hl IH]; [done|]. cbn [List.filter]. unfold in_range at 1.
  rewrite (proj2 (Z.leb_gt ti end_ti)) by lia. by rewrite andb_false_r.
Qed.

Lemma scan_indices_edges c e begin_ti end_ti fmt sel w0 indices : StronglySorted Z.lt indices ->
  (forall ti, ti ∈ indices -> fst (clock_selected c e ti w0) = Ret (sel ti)) ->
  ew_ok (S (length indices * edge_cost c e)) w0 -> held r w0 ->
  forall w cycle complete, ew_ok (S (length indices * edge_cost c e)) w -> held r w -> alike r w0 w ->
  fst (scan_indices c e r begin_ti end_ti fmt indices cycle complete w) =
  sample_edges w0 c e fmt (List.filter (in_range begin_ti end_ti sel) indices) cycle complete.
Proof.
  intros Hs Hsel Hok0 Hh0. induction Hs as [|ti l Hs IH Hlt]; intros w cycle complete Hok Hh Ha; [done|].
  cbn [scan_indices List.filter length Nat.mul] in *. rewrite Nat.add_comm in Hok, Hok0.
  assert (ew_ok (S (length l * edge_cost c e)) w0) as Hok0' by (apply (ok_le _ _ _ Hok0); lia).
  specialize (IH ltac:(intros; apply Hsel; by right) Hok0').
  set (rest := (length l * edge_cost c e)%nat) in *.
  destruct (steady_clock c e ti (rest + (control_cost e + fields_cost c e))%nat w) as [[K1 K2 K3] _];
    [apply (ok_le _ _ _ Hok); unfold edge_cost; lia|done|].
  destruct (steady_clock c e ti 0%nat w0) as [_ Hv]; [apply (ok_le _ _ _ Hok0); unfold edge_cost; lia|done|].
  specialize (Hv w ltac:(apply (ok_le _ _ _ Hok); unfold edge_cost; lia) Hh Ha).
  rewrite Hsel in Hv by left. unfold mbind at 1, act_bind at 1.
  destruct (clock_selected c e ti w) as [b w1]. cbn [fst snd] in *. subst b.
  assert (alike r w0 w1) as Ha1 by (by eapply alike_trans).
  unfold in_range at 1. destruct (sel ti); cbn [negb orb andb].
  2: { apply IH; [apply (ok_le _ _ _ K1); lia|done|done]. }
  destruct (Z.ltb_spec ti begin_ti) as [Hb|Hb].
  { rewrite (proj2 (Z.leb_gt _ _)) by lia. apply IH; [apply (ok_le _ _ _ K1); lia|done|done]. }
  rewrite (proj2 (Z.leb_le _ _)) by lia. cbn [andb]. destruct (Z.ltb_spec end_ti ti) as [He|He].
  { rewrite (proj2 (Z.leb_gt _ _)) by lia. rewrite range_past; [done|].
    eapply list.Forall_impl; [exact Hlt|]. intros x Hx. cbn in Hx. lia. }
  rewrite (proj2 (Z.leb_le _ _)) by lia. cbn [sample_edges].
  destruct (steady_edge c e fmt cycle ti complete rest w1) as [[L1 L2 L3] _]; [apply (ok_le _ _ _ K1); lia|done|].
  destruct (steady_edge c e fmt cycle ti complete 0%nat w0) as [_ Hv2];
    [apply (ok_le _ _ _ Hok0); unfold edge_cost; lia|done|].
  specialize (Hv2 w1 ltac:(apply (ok_le _ _ _ K1); lia) K2 Ha1).
  unfold mbind at 1, act_bind at 1. destruct (sample_edge c e r fmt cycle ti complete w1) as [s w2]. cbn [fst snd] in *.
  rewrite <- Hv2. destruct s as [[s b]| |what]; [|done..]. cbn [mbind res_bind fst snd].
  unfold mbind at 1, act_bind at 1.
  rewrite <- (IH w2 (u64 (cycle + 1)) b); [|done|done|by eapply alike_trans].
  by destruct (scan_indices c e r begin_ti end_ti fmt l (u64 (cycle + 1)) b w2) as [[rest'| |what] w3].
Qed.
End SteadyScan.

Section ScanExact.
Context {W : Type} `{ReadLaws W}.
Implicit Types w : W.

(** The load of the reset that starts a scan. *)
Definition load_reset (c : StreamConfig) : act W Z := if eqs (stc_reset c) [] then mret 0 else load_signal (stc_reset c).
Definition reset_ref_of (c : StreamConfig) w : Z := match fst (load_reset c w) with Ret ref => ref | _ => 0 end.

Lemma load_reset_ready n c w : ew_ok (S n) w ->
  fst (load_reset c w) = Ret (reset_ref_of c w) /\ ew_ok n (snd (load_reset c w)) /\
  held (reset_ref_of c w) (snd (load_reset c w)).
Proof.
  intros Hok. unfold reset_ref_of, load_reset. destruct (eqs (stc_reset c) []).
  { cbn. split_and!; [done|apply (ok_le _ _ _ Hok); lia|by left]. }
  unfold load_signal. destruct (ew_find n w (stc_reset c) Hok) as (Hok' & Hl & Hn).
  destruct (ew_find_signal w (stc_reset c)) as [ref w1]. cbn [fst snd] in *.
  destruct (Z.eqb_spec ref 0) as [->|Hr]; cbn [fst snd]; [split_and!; [done..|by left]|].
  specialize (Hn Hr). destruct (ew_is_loaded w1 ref); cbn [fst snd].
  - split_and!; [done..|right; eauto].
  - destruct (ew_load n w1 ref _ Hok' Hn) as [Hok2 Hl2]. split_and!; [done..|right].
    eexists. by eapply ew_later_names.
Qed.

Lemma sample_edge_place c e ref fmt cycle ti complete w s b :
  fst (sample_edge c e ref fmt cycle ti complete w) = Ret (s, b) -> ssm_cycle s = cycle /\ ssm_time_idx s = ti.
Proof.
  unfold sample_edge. cbn [mbind act_bind get_state]. unfold mbind at 1, act_bind at 1. cbn [get_state].
  destruct (negb (ref =? 0) && _); [by intros [= <- _]|].
  unfold mbind at 1, act_bind at 1. destruct (read_controls e ti (stream_point c) w) as [[b0| |] w1]; [|done..].
  set (s0 := control_sample e b0 _). assert (ssm_cycle s0 = cycle /\ ssm_time_idx s0 = ti) as Hs0.
  { subst s0. unfold control_sample. cbv zeta. by destruct (match cb_before b0 with Some _ => _ | None => _ end) as [[? ?] ?]. }
  destruct (ssm_transfer s0); [|by intros [= <- _]]. unfold read_fields.
  repeat (unfold mbind at 1, act_bind at 1; match goal with |- context [match ?m with (_, _) => _ end] => destruct m as [[?| |] ?] end; [|done..]).
  by intros [= <- _].
Qed.

Lemma sample_edges_places ref w c e fmt edges : forall cycle complete samples b,
  0 <= cycle -> cycle + zlen edges <= 2 ^ 64 ->
  sample_edges ref w c e fmt edges cycle complete = Ret (samples, b) ->
  map ssm_time_idx samples = edges /\ map ssm_cycle samples = seqZ cycle (zlen edges).
Proof.
  induction edges as [|ti edges IH]; intros cycle complete samples b H0' Hb; cbn [sample_edges].
  { by intros [= <- _]. }
  rewrite zlen_cons in Hb. intros ([s b1] & Hs & Hr)%res_bind_Ret. apply res_bind_Ret in Hr as ([rest b2] & Hr & E).
  apply Ret_inj in E. injection E as <- _. cbn [fst snd] in *.
  apply sample_edge_place in Hs as [<- <-]. pose proof (zlen_nonneg edges).
  destruct edges as [|ti' edges].
  { cbn in Hr. injection Hr as <- _. done. }
  rewrite zlen_cons in Hb. pose proof (zlen_nonneg edges).
  rewrite u64_small in Hr by lia. apply IH in Hr as [E1 E2]; [|lia|rewrite zlen_cons; lia]. cbn [map].
  rewrite E1, E2. split; [done|]. rewrite (zlen_cons (ssm_time_idx s)), (seqZ_cons (ssm_cycle s)) by (rewrite zlen_cons; lia).
  f_equal. f_equal; lia.
Qed.

(** C20: the scan of a stream samples every selected clock edge of the range once, in
    order, numbering them from 0, and each sample is what the waveform reads
    in the state the scan starts from: the handles allocated on the way do
    not disturb a later edge. The edges are the changes of a dependency of
    the clock at which the clock expression has the configured edge. *)
Theorem stream_scan_exact c e begin_ti end_ti fmt (sel : Z -> bool) w :
  let w0 := snd (load_reset c w) in
  let indices := clock_time_indices w0 e in
  ew_ok (S (S (length indices * edge_cost c e))) w ->
  (forall ti, ti ∈ indices -> fst (clock_selected c e ti w0) = Ret (sel ti)) ->
  zlen indices <= 2 ^ 64 ->
  exists edges, StronglySorted Z.lt edges /\
    (forall ti, ti ∈ edges <-> (exists ref, ref ∈ clock_dependencies e /\ ti ∈ sb_time_indices_of w0 ref) /\
                               sel ti = true /\ begin_ti <= ti <= end_ti) /\
    fst (scan_stream_samples c e begin_ti end_ti fmt w) =
      sample_edges (reset_ref_of c w) w0 c e fmt edges 0 true /\
    forall samples complete, fst (scan_stream_samples c e begin_ti end_ti fmt w) = Ret (samples, complete) ->
      map ssm_time_idx samples = edges /\ map ssm_cycle samples = seqZ 0 (zlen edges).
Proof.
  intros w0 indices Hok Hsel Hlen. destruct (load_reset_ready _ c w Hok) as (Hr & Hok0 & Hh0). fold w0 in Hok0, Hh0.
  destruct (sort_unique_spec (concat (map (sb_time_indices_of w0) (clock_dependencies e)))) as [Hsorted Hmem].
  exists (List.filter (in_range begin_ti end_ti sel) indices).
  assert (fst (scan_stream_samples c e begin_ti end_ti fmt w) =
    sample_edges (reset_ref_of c w) w0 c e fmt (List.filter (in_range begin_ti end_ti sel) indices) 0 true) as Hscan.
  { unfold scan_stream_samples. fold (load_reset c). unfold mbind at 1, act_bind at 1.
    subst w0 indices. destruct (load_reset c w) as [rr w0] eqn:E. cbn [fst snd] in *. subst rr.
    unfold mbind at 1, act_bind at 1. cbn [get_state].
    apply scan_indices_edges; [done|done|done|done|done|done|apply alike_refl]. }
  split_and!.
  - by apply StronglySorted_filter.
  - intros ti. rewrite list_elem_of_In, List.filter_In, <- list_elem_of_In. unfold indices, clock_time_indices. rewrite Hmem.
    unfold in_range. rewrite !andb_true_iff, !Z.leb_le. rewrite list_elem_of_In, in_concat.
    split.
    + intros [(l & Hl & Hti) ?]. apply in_map_iff in Hl as (ref & <- & Href). rewrite <- !list_elem_of_In in *. naive_solver.
    + intros [(ref & Href & Hti) ?]. split; [|tauto]. exists (sb_time_indices_of w0 ref). rewrite <- !list_elem_of_In.
      split; [by apply list_elem_of_fmap_2|done].
  - exact Hscan.
  - intros samples complete Hs. rewrite Hscan in Hs. eapply sample_edges_places in Hs; [done|lia|].
    unfold zlen in *. pose proof (List.filter_length_le (in_range begin_ti end_ti sel) indices). lia.
Qed.
End ScanExact.

(** The FST backend keeps these laws. *)
Section FstReads.
Context {D X : Type} `{WellenDoc D X}.
Abbreviation Wv := (WellenFstBackend D X).
Context (parse_time : Wv -> bytes -> bool -> bytes + Z) (format_time : Wv -> Z -> TimeRenderUnit -> bytes).

Lemma fst_reads : @ReadLaws Wv (fst_engine parse_time format_time) (fst_laws parse_time format_time).
Proof.
  split.
  - intros w p q ti point Hok. exact (@read_stable Wv _ wave_laws w p q ti point Hok).
  - intros w p r q ti point [Hw Hr] [Hne Hden]. cbn.
    pose proof (find_signal_refines w p Hw ltac:(lia)) as Hf. destruct (find_signal w p) as [h w'].
    destruct Hf as (Hw' & He & _ & _). cbn [fst snd].
    rewrite (proj1 (sampled_reads w' r _ ti point Hw' (denotes_extends _ _ _ _ He Hden))),
      (proj1 (sampled_reads w r _ ti point Hw Hden)). destruct He as (-> & -> & _). done.
Qed.
End FstReads.

(** ** Transfers and stalls *)

(** Whether the scan joins the levels after the edge with those before it. *)
Definition joins_levels (c : StreamConfig) (e : CompiledStreamExpressions) : bool :=
  bool_decide (stream_point c = After) && configured (ce_ready e) && negb (configured (ce_backpressure e)).

(** A valid sample is either a transfer or a stall, and no other sample is. *)
Definition split_valid (s : StreamSample) : bool :=
  Bool.eqb (ssm_vld s) (ssm_transfer s || ssm_stall s) && negb (ssm_transfer s && ssm_stall s).

Lemma control_split e b s : cb_before b = None -> split_valid (control_sample e b s) = true.
Proof.
  intros Hb. unfold control_sample. rewrite Hb. unfold split_valid. cbn.
  by destruct (is_high (cb_vld b)), (configured (ce_ready e)), (is_high (cb_rdy b)), (configured (ce_backpressure e)), (is_high (cb_bp b)).
Qed.

Section Split.
Context {W : Type} `{EngineWave W}.

Ltac act_step := unfold mbind at 1, act_bind at 1;
  match goal with |- context [match ?m with (_, _) => _ end] => destruct m as [[?| |] ?] end; [|done..].

Lemma controls_before e ti point (w : W) b w' : read_controls e ti point w = (Ret b, w') ->
  bool_decide (point = After) && configured (ce_ready e) && negb (configured (ce_backpressure e)) = false ->
  cb_before b = None.
Proof.
  unfold read_controls. intros Hr Hj. revert Hr. do 5 act_step. rewrite Hj. by intros [= <- _].
Qed.

Lemma with_fields_split f st ch k s : split_valid (with_fields f st ch k s) = split_valid s.
Proof. done. Qed.

Lemma sample_edge_split c e ref fmt cycle ti complete (w : W) s b : joins_levels c e = false ->
  fst (sample_edge c e ref fmt cycle ti complete w) = Ret (s, b) -> split_valid s = true.
Proof.
  intros Hj. unfold sample_edge. unfold mbind at 1, act_bind at 1. cbn [get_state].
  destruct (negb (ref =? 0) && _); [by intros [= <- _]|].
  unfold mbind at 1, act_bind at 1. destruct (read_controls e ti (stream_point c) w) as [[b0| |] w1] eqn:Hc; [|done..].
  set (s0 := control_sample e b0 _). assert (split_valid s0 = true) as Hs0.
  { apply control_split. by eapply controls_before. }
  destruct (ssm_transfer s0); [|by intros [= <- _]]. unfold read_fields. do 4 act_step.
  intros [= <- _]. by rewrite with_fields_split.
Qed.

Lemma scan_indices_split c e ref begin_ti end_ti fmt indices : joins_levels c e = false -> forall cycle complete (w : W) samples b,
  fst (scan_indices c e ref begin_ti end_ti fmt indices cycle complete w) = Ret (samples, b) ->
  Forall (fun s => split_valid s = true) samples.
Proof.
  intros Hj. induction indices as [|ti indices IH]; intros cycle complete w samples b; cbn [scan_indices].
  { by intros [= <- _]. }
  unfold mbind at 1, act_bind at 1. destruct (clock_selected c e ti w) as [[sel| |] w1]; [|done..].
  destruct (negb sel || _); [apply IH|]. destruct (end_ti <? ti); [by intros [= <- _]|].
  unfold mbind at 1, act_bind at 1.
  destruct (sample_edge c e ref fmt cycle ti complete w1) as [[[s b1]| |] w2] eqn:Hs; [|done..].
  unfold mbind at 1, act_bind at 1.
  destruct (scan_indices c e ref begin_ti end_ti fmt indices (u64 (cycle + 1)) (snd (s, b1)) w2) as [[[rest b2]| |] w3] eqn:Hr; [|done..].
  intros [= <- _]. constructor.
  - eapply sample_edge_split; [done|]. by rewrite Hs.
  - eapply IH. by rewrite Hr.
Qed.
End Split.

Lemma count_valid samples : Forall (fun s => split_valid s = true) samples -> forall n,
  0 <= sn_vld_cycles n -> 0 <= sn_stall_cycles n ->
  sn_vld_cycles n + zlen samples < 2 ^ 64 -> sn_stall_cycles n + zlen samples < 2 ^ 64 ->
  sn_vld_cycles (foldl count_sample n samples) - sn_vld_cycles n =
  zlen (transfers_of samples) + (sn_stall_cycles (foldl count_sample n samples) - sn_stall_cycles n).
Proof.
  induction 1 as [|s samples Hs Hss IH]; intros n H1 H2 H3 H4; cbn [foldl transfers_of List.filter]; [unfold zlen; cbn; lia|].
  rewrite zlen_cons in H3, H4. pose proof (zlen_nonneg samples).
  assert (sn_vld_cycles (count_sample n s) = sn_vld_cycles n + if ssm_vld s then 1 else 0) as E1.
  { cbn. apply (bump_count _ _ 1); [lia|lia|by destruct (ssm_vld s)]. }
  assert (sn_stall_cycles (count_sample n s) = sn_stall_cycles n + if ssm_stall s then 1 else 0) as E2.
  { cbn. apply (bump_count _ _ 1); [lia|lia|by destruct (ssm_stall s)]. }
  specialize (IH (count_sample n s)). rewrite E1, E2 in IH. unfold transfers_of in *.
  unfold split_valid in Hs. destruct (ssm_vld s), (ssm_transfer s), (ssm_stall s); try done; rewrite ?zlen_cons; lia.
Qed.

(** In the counts of a query every valid cycle is either a transfer or a
    stall: the reported number of valid cycles is the number of transfers
    plus the number of stall cycles, for every stream that is not observed
    after the edge with a ready and no back-pressure signal. *)
Theorem valid_cycles_split {W} `{EngineWave W} c e begin_ti end_ti fmt (w : W) samples complete :
  joins_levels c e = false -> zlen samples < 2 ^ 64 ->
  fst (scan_stream_samples c e begin_ti end_ti fmt w) = Ret (samples, complete) ->
  sn_vld_cycles (count_samples samples) = zlen (transfers_of samples) + sn_stall_cycles (count_samples samples).
Proof.
  intros Hj Hlen Hs. assert (Forall (fun s => split_valid s = true) samples) as Hf.
  { revert Hs. unfold scan_stream_samples. unfold mbind at 1, act_bind at 1.
    destruct ((if eqs (stc_reset c) [] then mret 0 else load_signal (stc_reset c)) w) as [[ref| |] w1]; [|done..].
    unfold mbind at 1, act_bind at 1. cbn [get_state]. by apply scan_indices_split. }
  pose proof (count_valid samples Hf (MkSampleCounts 0 0 0 0 0)) as Hc. cbn [sn_vld_cycles sn_stall_cycles] in Hc.
  unfold count_samples. lia.
Qed.

(** After the edge a beat accepted while ready falls is a transfer and a
    stall at once. *)
Theorem joined_transfer_stalls :
  let e := MkCompiled None None (Some (ESignal (lit "rdy"))) None None None None None [] in
  let b := MkControlBits (lit "1") (lit "0") (lit "0") (lit "0") (lit "0") (Some (false, true)) in
  let s := control_sample e b (new_sample 0 0 0) in
  ssm_transfer s = true /\ ssm_stall s = true.
Proof. done. Qed.

(** ** Field expressions *)

Section Fields.
Context {W : Type} `{EngineWave W}.
Implicit Types w : W.

Lemma trim_shorter s : (length (trim_blanks s) <= length s)%nat.
Proof.
  unfold trim_blanks. rewrite length_rev.
  assert (forall l, (length (snd (span blank l)) <= length l)%nat) as Hs.
  { intros l. induction l as [|x l IH]; cbn [span]; [done|]. destruct (blank x); [|done].
    destruct (span blank l) as [a b]. cbn in *. lia. }
  etransitivity; [apply Hs|]. rewrite length_rev. apply Hs.
Qed.

Lemma split_shorter s : forall depth part p, p ∈ split_parts depth part s -> (length p <= length part + length s)%nat.
Proof.
  induction s as [|x s IH]; intros depth part p; cbn [split_parts length].
  { intros ->%list_elem_of_singleton. lia. }
  set (d := if eqc x "]" then _ else _). destruct (eqc x "," && _).
  - intros [->|Hp]%elem_of_cons; [lia|]. apply IH in Hp. cbn in Hp. lia.
  - intros Hp. apply IH in Hp. rewrite length_app in Hp. cbn in Hp. lia.
Qed.

Lemma braced_shorter s inner : braced s = Some inner -> (length inner < length s)%nat.
Proof.
  unfold braced. destruct s as [|x s]; [done|]. case_match; [|done]. intros [= <-]. rewrite length_take. cbn. lia.
Qed.

Lemma parts_ext (f g : bytes -> act W (option LogicValue)) parts : (forall p w, p ∈ parts -> f p w = g p w) ->
  forall w, parts_bits f parts w = parts_bits g parts w.
Proof.
  induction parts as [|p parts IH]; intros He w; cbn [parts_bits]; [done|]. unfold mbind, act_bind. rewrite He by left.
  destruct (g p w) as [[[v|]| |] w1]; try done. by rewrite IH by (intros; apply He; by right).
Qed.

(** The evaluation of a field expression terminates: braces nest less deeply
    than the text is long, so the bound the model runs with is never reached
    and any larger one gives the same result. *)
Theorem field_expression_terminates signals ti point fuel : forall expression w, (length expression < fuel)%nat ->
  evaluate_field fuel signals ti point expression w =
  evaluate_field (S (length expression)) signals ti point expression w.
Proof.
  assert (forall n fuel fuel' expression w, (length expression < n)%nat -> (length expression < fuel)%nat ->
    (length expression < fuel')%nat ->
    evaluate_field fuel signals ti point expression w = evaluate_field fuel' signals ti point expression w) as Hind.
  { induction n as [|n IH]; intros f1 f2 expression w Hn H1 H2; [lia|]. destruct f1 as [|f1], f2 as [|f2]; [lia..|].
    cbn [evaluate_field]. destruct (eqs (trim_blanks expression) []); [done|].
    destruct (braced (trim_blanks expression)) as [inner|] eqn:Eb; [|done].
    pose proof (braced_shorter _ _ Eb) as Hb. pose proof (trim_shorter expression) as Ht.
    unfold mbind, act_bind. erewrite parts_ext; [done|]. intros p w' Hp. apply split_shorter in Hp. cbn in Hp.
    apply IH; lia. }
  intros expression w Hf. apply (Hind (S (length expression))); lia.
Qed.
End Fields.

(** ** Truncation *)

(** A channel without a filter: the rows of other channels count as cut off,
    even when every row of the channel is returned. *)
Theorem channel_rows_reported_truncated format_time c a s trunc args max_rows :
  sl_filter_applied s = false -> zlen (sl_transfers s) < zlen (an_transfers a) ->
  exists rows, query_rows format_time c a s trunc args (lit "transfer_window") max_rows = Ret rows /\
    qr_truncated rows = true.
Proof.
  intros Hf Hlt. eexists. split; [reflexivity|]. cbn [qr_truncated]. unfold window_rows. cbn [qr_truncated].
  unfold transfer_total, limited. rewrite Hf. apply Z.ltb_lt. unfold row_list, zlen at 1. rewrite length_map.
  fold (zlen (sl_transfers s)). lia.
Qed.

(** ** A small waveform *)

#[local] Instance stream_engine : EngineWave demo_state := fst_engine (fun _ _ _ => inl []) (fun _ _ _ => []).
#[local] Instance stream_laws : EngineLaws demo_state := fst_laws (fun _ _ _ => inl []) (fun _ _ _ => []).
#[local] Instance stream_reads : ReadLaws demo_state := fst_reads (fun _ _ _ => inl []) (fun _ _ _ => []).

Definition demo_source : json :=
  jobj [(lit "name", JString (lit "s0"));
        (lit "signals", jobj [(lit "clk", JString (lit "top.clk")); (lit "bus", JString (lit "top.Bus"));
                              (lit "v", JString (lit "top.Bus[2]")); (lit "r", JString (lit "top.Bus[3]"))]);
        (lit "clock", JString (lit "clk")); (lit "vld", JString (lit "v")); (lit "data", JString (lit "bus"));
        (lit "reset", jobj [(lit "signal", JString (lit "top.Bus[3]")); (lit "polarity", JString (lit "active_high"))]);
        (lit "beat_fields", jobj [(lit "pair", JString (lit "{bus, v}"))])].
Definition no_config : StreamConfig := MkStreamConfig [] JNull [] [] [] [] [] [] [] [] [] [] [] [] JNull JNull [] [] false.
Definition demo_stream : StreamConfig := match parse_stream demo_source with Ret (inr c) => c | _ => no_config end.
Definition demo_compiled : CompiledStreamExpressions :=
  match fst (compile_stream_expressions demo_stream demo_open) with
  | Ret (inr e) => e
  | _ => MkCompiled None None None None None None None None []
  end.
Definition demo_read (path : bytes) (w : demo_state) : demo_state :=
  snd (load_signals (snd (find_signal w path)) [fst (find_signal w path)]).
Definition demo_wave : demo_state := demo_read (lit "top.Bus") (demo_read (lit "top.clk") demo_open).
Lemma demo_wave_wf : wf demo_wave.
Proof. apply load_wf, find_wf, load_wf, find_wf, demo_open_wf. Qed.

Definition demo_rising (ti : Z) : bool := (ti =? 1) || (ti =? 3).

Lemma stream_scan_exact_witness : exists edges, StronglySorted Z.lt edges /\
  (forall ti, ti ∈ edges <->
     (exists ref, ref ∈ clock_dependencies demo_compiled /\
        ti ∈ sb_time_indices_of (snd (load_reset demo_stream demo_wave)) ref) /\ demo_rising ti = true /\ 0 <= ti <= 5) /\
  fst (scan_stream_samples demo_stream demo_compiled 0 5 Hex demo_wave) =
    sample_edges (reset_ref_of demo_stream demo_wave) (snd (load_reset demo_stream demo_wave)) demo_stream demo_compiled Hex
      edges 0 true /\
  forall samples complete, fst (scan_stream_samples demo_stream demo_compiled 0 5 Hex demo_wave) = Ret (samples, complete) ->
    map ssm_time_idx samples = edges /\ map ssm_cycle samples = seqZ 0 (zlen edges).
Proof.
  apply (stream_scan_exact demo_stream demo_compiled 0 5 Hex demo_rising demo_wave).
  - split; [apply demo_wave_wf|vm_compute; reflexivity].
  - intros ti Hti. assert (clock_time_indices (snd (load_reset demo_stream demo_wave)) demo_compiled = [0; 1; 2; 3]) as E
      by (vm_compute; reflexivity). rewrite E in Hti.
    repeat (apply elem_of_cons in Hti as [->|Hti]; [vm_compute; reflexivity|]). apply elem_of_nil in Hti as [].
  - vm_compute. discriminate.
Defined.

Lemma valid_cycles_split_witness :
  match fst (scan_stream_samples demo_stream demo_compiled 0 5 Hex demo_wave) with
  | Ret (samples, _) =>
      sn_vld_cycles (count_samples samples) = 1 /\
      sn_vld_cycles (count_samples samples) = zlen (transfers_of samples) + sn_stall_cycles (count_samples samples)
  | _ => False
  end.
Proof.
  destruct (fst (scan_stream_samples demo_stream demo_compiled 0 5 Hex demo_wave)) as [[samples b]| |] eqn:E.
  - split.
    + assert (fst (scan_stream_samples demo_stream demo_compiled 0 5 Hex demo_wave) = Ret (samples, b)) as E' by exact E.
      vm_compute in E'. injection E' as <- _. vm_compute. reflexivity.
    + apply (valid_cycles_split demo_stream demo_compiled 0 5 Hex demo_wave samples b); [reflexivity| |exact E].
      vm_compute in E. injection E as <- _. vm_compute. reflexivity.
  - vm_compute in E. discriminate.
  - vm_compute in E. discriminate.
Defined.

Lemma field_expression_terminates_witness :
  fst (evaluate_field 9 (stc_signals demo_stream) 3 Before (lit "{bus, v}") demo_wave) =
    Ret (Some (logic_value_from_bits (lit "01001") 5)) /\
  evaluate_field 100 (stc_signals demo_stream) 3 Before (lit "{bus, v}") demo_wave =
  evaluate_field 9 (stc_signals demo_stream) 3 Before (lit "{bus, v}") demo_wave.
Proof.
  split; [vm_compute; reflexivity|].
  apply (field_expression_terminates (stc_signals demo_stream) 3 Before 100 (lit "{bus, v}") demo_wave). vm_compute. lia.
Defined.
