(* ===== verification/StreamActions.v ===== *)
(** * StreamActions: the stream configurations through every history of actions

    The table of the seven stream handlers and what they do to the stored
    configurations: only [stream.config.load] changes them, every stored
    configuration passed the checks of [parse_stream] and is stored under its
    name, and a refused replacement has already dropped the old ones. *)

From S2P Require Import Prelude CLib Json LogicValue Waveform SessionTypes Engine StepLogic Apb Stream StreamQuery StreamExport.

Open Scope Z_scope.

Section Table.
Context {W : Type} `{EngineWave W}.
Context (getenv : bytes -> option bytes) (file : bytes -> option bytes) (parse : bytes -> bytes + json)
  (trunc : bytes -> Z) (dump : json -> bytes) (json_equal : json -> json -> bool)
  (reordered : json -> json) (dump_pretty : json -> bytes) (can_open : bytes -> bool).
Abbreviation St := (StreamState W).

(** The factories of the handlers. *)
Inductive StreamAction :=
  StreamConfigList | StreamConfigGet | StreamConfigLoad | StreamDescribe | StreamQuery | StreamExport | StreamValidate.
Definition run_stream (action : StreamAction) (req : json) : act St json :=
  match action with
  | StreamConfigList => stream_config_list req
  | StreamConfigGet => stream_config_get req
  | StreamConfigLoad => stream_config_load file parse req
  | StreamDescribe => stream_describe req
  | StreamQuery => stream_query getenv trunc dump json_equal req
  | StreamExport => stream_export getenv trunc dump json_equal reordered dump_pretty can_open req
  | StreamValidate => stream_validate getenv trunc dump json_equal req
  end.

(** ** Steps that leave the configurations alone *)

Definition same_configs : relation St := fun s s' => stream_configs s' = stream_configs s.
#[export] Instance same_configs_preorder : PreOrder same_configs.
Proof. split; [by intros s|intros s1 s2 s3; unfold same_configs; congruence]. Qed.
Abbreviation keeps := (moves same_configs).

Lemma leaves_check a : keeps (check_waveform a).
Proof. intros s. unfold check_waveform. by destruct (ss_wave s). Qed.
Lemma leaves_config n : keeps (get_config n).
Proof. intros s. unfold get_config. by destruct (mget n (stream_configs s)). Qed.
Lemma leaves_wave {E A} (m : trial E W A) : keeps (wave_step m).
Proof. intros s. unfold wave_step. destruct (ss_wave s) as [w|]; [|done]. by destruct (m w). Qed.
Lemma leaves_file p t : keeps (put_file p t).
Proof. by intros s. Qed.
End Table.

#[export] Hint Resolve leaves_check leaves_config leaves_wave leaves_file : moving.

Section Histories.
Context {W : Type} `{EngineWave W}.
Context (getenv : bytes -> option bytes) (file : bytes -> option bytes) (parse : bytes -> bytes + json)
  (trunc : bytes -> Z) (dump : json -> bytes) (json_equal : json -> json -> bool)
  (reordered : json -> json) (dump_pretty : json -> bytes) (can_open : bytes -> bool).
Abbreviation St := (StreamState W).
Abbreviation keeps := (moves (same_configs (W := W))).
Local Notation run := (run_stream getenv file parse trunc dump json_equal reordered dump_pretty can_open).

Lemma leaves_query req : keeps (stream_query getenv trunc dump json_equal req).
Proof. unfold stream_query. repeat move_step. Qed.

Lemma leaves_sub args : keeps (sub_query getenv trunc dump json_equal args).
Proof. unfold sub_query. repeat move_step. apply leaves_query. Qed.

Lemma leaves_validate req : keeps (stream_validate getenv trunc dump json_equal req).
Proof. unfold stream_validate, validate_dynamic. repeat first [apply leaves_sub | move_step]. Qed.

Lemma open_keeps path (s : St) : stream_configs (open_file can_open path s) = stream_configs s.
Proof. unfold open_file. by destruct (can_open path). Qed.

Lemma leaves_write c name kind output preview base :
  keeps (write_files dump reordered dump_pretty can_open c name kind output preview base).
Proof.
  unfold write_files. do 2 (apply moves_bind; [apply _|apply moves_pure, _|intros]). cbv zeta. intros s. unfold mbind at 1, trial_bind at 1.
  cbn [run_step get_state fst snd fmap res_fmap]. unfold mbind at 1, trial_bind at 1.
  cbn [run_step put_state fst snd fmap res_fmap].
  unfold same_configs. match goal with |- stream_configs (snd (?m ?s')) = _ => assert (keeps m) as Hk; [|rewrite (Hk s')] end.
  { repeat move_step. }
  by rewrite !open_keeps.
Qed.

Lemma leaves_export req : keeps (stream_export getenv trunc dump json_equal reordered dump_pretty can_open req).
Proof. unfold stream_export. repeat first [apply leaves_sub | apply leaves_write | move_step]. Qed.

(** ** Stored configurations *)

(** What [parse_stream] accepts. *)
Record stream_config_ok (name : bytes) (c : StreamConfig) : Prop := {
  sco_name : stc_name c = name;
  sco_clock : stc_clock c <> [];
  sco_valid : stc_valid c <> [];
  sco_boundaries : stc_sop c = [] <-> stc_eop c = [];
  sco_interleaving : stc_allow_interleaving c = true ->
    packet_enabled c = true /\ stc_channel_id c <> [] /\ stc_channel_id_valid c = lit "every_beat";
  sco_clock_text : exists s, jget (lit "clock") (stc_source c) = Some (JString s);
}.
Definition configs_ok (s : St) : Prop :=
  msorted (stream_configs s) = true /\ Forall (fun nc => stream_config_ok (fst nc) (snd nc)) (stream_configs s).

Lemma rules_accept name sop eop channel valid interleaving :
  packet_rules_error name sop eop channel valid interleaving = None ->
  (sop = [] <-> eop = []) /\
  (interleaving = true -> sop <> [] /\ channel <> [] /\ valid = lit "every_beat").
Proof.
  unfold packet_rules_error. destruct (eqs sop []) eqn:Es, (eqs eop []) eqn:Ee; cbn [xorb]; try done;
    (destruct interleaving; cbn [negb]; [|intros _; split; [|done]]); rewrite ?eqs_true, ?eqs_false in *; try done; try (by split).
  destruct (eqs channel []) eqn:Ec; [done|]. destruct (eqs valid (lit "every_beat")) eqn:Ev; cbn [negb]; [|done].
  rewrite eqs_true, eqs_false in *. intros _. by split.
Qed.

Ltac bind_steps H := repeat (apply res_bind_Ret in H as (? & ? & H)).

Lemma set_key_other k k' v j : k <> k' -> jget k' (set_key k v j) = jget k' j.
Proof. intros Hk. destruct j; try done. unfold jget. cbn. by apply mget_mset_ne. Qed.

Lemma resolved_text input signals k e : resolved_expression input signals k = Ret e -> e <> [] ->
  exists s, jget k input = Some (JString s).
Proof.
  unfold resolved_expression, jcontains. destruct (jget k input) as [v|] eqn:Hg; [|by intros [= <-]].
  intros Hr _. apply res_bind_Ret in Hr as (s & Hs & _). unfold string_at_key in Hs.
  apply res_bind_Ret in Hs as (v' & Hv & Hs). destruct input; try done. unfold jget in Hg. cbn in Hg, Hv.
  rewrite Hg in Hv. injection Hv as <-. destruct v; try done. eauto.
Qed.

Lemma parse_stream_accepts input c : parse_stream input = Ret (inr c) -> stream_config_ok (stc_name c) c.
Proof.
  intros Hp. unfold parse_stream in Hp. do 3 (apply res_bind_Ret in Hp as (? & ? & Hp)).
  apply res_bind_Ret in Hp as (clock & Hclock & Hp). bind_steps Hp.
  match type of Hp with context [if ?b then _ else _] => destruct b eqn:Hreq; [done|] end. bind_steps Hp. apply Ret_inj in Hp.
  match type of Hp with context [packet_rules_error ?a ?b ?c ?d ?e ?f] => destruct (packet_rules_error a b c d e f) eqn:Hrules; [done|] end.
  injection Hp as <-. apply rules_accept in Hrules as [Hb Hi].
  apply orb_false_iff in Hreq as [Hreq _]. apply orb_false_iff in Hreq as [Hreq _]. apply orb_false_iff in Hreq as [Hc Hv].
  rewrite eqs_false in Hc, Hv. split; cbn [stc_name stc_clock stc_valid stc_sop stc_eop stc_allow_interleaving stc_channel_id
    stc_channel_id_valid stc_source]; try done.
  - intros Ha. destruct (Hi Ha) as (Hs & Hch & Hval). split_and!; [|done|done]. unfold packet_enabled. cbn [stc_sop stc_eop].
    rewrite (proj2 (eqs_false _ _) Hs), (proj2 (eqs_false _ [])); [done|]. naive_solver.
  - destruct (resolved_text _ _ _ _ Hclock Hc) as [text Htext]. exists text. unfold normalized_source.
    rewrite !set_key_other by done. destruct (negb (eqs _ (lit "negedge"))); by rewrite !set_key_other by done.
Qed.

Lemma store_ok (s : St) c : configs_ok s -> stream_config_ok (stc_name c) c ->
  configs_ok (MkStreamState (ss_wave s) (mset (stc_name c) c (stream_configs s)) (ss_files s)).
Proof.
  intros [Hs Hf] Hc. split; cbn [stream_configs]; [by apply mset_sorted|]. apply list.Forall_forall. intros [n c'] Hin.
  apply mset_elem in Hin as [[= -> ->]|Hin]; [done|]. exact (proj1 (list.Forall_forall _ _) Hf _ Hin).
Qed.

Lemma leaves_ok {A} (m : St -> A * St) s : keeps m -> configs_ok s -> configs_ok (snd (m s)).
Proof. intros Hm Hs. unfold configs_ok. by rewrite Hm. Qed.

(** Steps that keep the configurations valid. *)
Definition safe {A} (m : St -> A * St) : Prop := forall s, configs_ok s -> configs_ok (snd (m s)).

Lemma leaves_safe {A} (m : St -> A * St) : keeps m -> safe m.
Proof. intros Hm s. by apply leaves_ok. Qed.

Lemma safe_bind {E A B} (m : trial E St A) (f : A -> trial E St B) : safe m -> (forall a, safe (f a)) -> safe (m ≫= f).
Proof.
  intros Hm Hf s Hs. unfold mbind, trial_bind. specialize (Hm s Hs). destruct (m s) as [[[e|a]| |w] s']; cbn in *; try done.
  by apply Hf.
Qed.

Lemma safe_load_stream item : safe (load_stream item).
Proof.
  intros s Hs. unfold load_stream. unfold mbind at 1, trial_bind at 1. cbn [pure_step fmap res_fmap].
  destruct (parse_stream item) as [[message|c]| |] eqn:Hp; try done. cbn [fmap res_fmap].
  apply parse_stream_accepts in Hp. revert s Hs. apply safe_bind; [apply leaves_safe, leaves_wave|intros validation].
  destruct (negb _); [apply leaves_safe, moves_stop, _|]. apply safe_bind; [apply leaves_safe, moves_pure, _|intros clock].
  intros s Hs. cbn. by apply store_ok.
Qed.

Lemma safe_load_streams items : safe (load_streams items).
Proof.
  induction items as [|item items IH]; cbn [load_streams]; [apply leaves_safe, moves_ret, _|].
  apply safe_bind; [apply safe_load_stream|intros [[name issues] v]]. apply safe_bind; [apply IH|intros [[a b] d]].
  apply leaves_safe, moves_ret, _.
Qed.

Lemma leaves_document args : keeps (config_document file parse args).
Proof. unfold config_document. repeat move_step. Qed.

Lemma safe_load req : safe (stream_config_load file parse req).
Proof.
  unfold stream_config_load. intros s. apply safe_bind; [apply leaves_safe, leaves_check|intros _].
  apply safe_bind; [apply leaves_safe, moves_pure, _|intros args].
  apply safe_bind; [apply leaves_safe, leaves_document|intros document].
  apply safe_bind; [apply leaves_safe, moves_pure, _|intros mode].
  clear s. intros s Hs. unfold mbind at 1, trial_bind at 1. cbn [run_step get_state fst snd fmap res_fmap].
  unfold mbind at 1, trial_bind at 1. cbn [put_configs].
  match goal with |- configs_ok (snd (?m ?s')) => assert (safe m) as Hm end.
  { apply safe_bind; [apply leaves_safe, moves_pure, _|intros streams].
    apply safe_bind; [apply safe_load_streams|intros [[names issues] vs]]. apply leaves_safe, moves_ret, _. }
  apply Hm. destruct (eqs mode (lit "replace")); [|by destruct s]. split; [done|constructor].
Qed.

Lemma safe_run action req : safe (run action req).
Proof.
  destruct action; cbn [run_stream]; try apply safe_load; apply leaves_safe;
    [unfold stream_config_list|unfold stream_config_get|unfold stream_describe|apply leaves_query|apply leaves_export|apply leaves_validate];
    repeat move_step.
Qed.

(** A history of requests; [None] is the opening of a session, which forgets
    the configurations. *)
Definition history_step (s : St) (item : option (StreamAction * json)) : St :=
  match item with
  | Some (action, req) => snd (run action req s)
  | None => clear_stream_configs s
  end.

(** After any history of stream actions and session openings, whatever the
    requests, every stored stream configuration is stored under its own name
    and is one [parse_stream] accepts: it has a clock and a valid expression,
    start and end of packet come together, and channels interleave only with
    packet boundaries and a channel on every beat. Failed and throwing
    requests are no exception. *)
Theorem stream_configs_valid (w : option W) files history :
  configs_ok (foldl history_step (MkStreamState w [] files) history).
Proof.
  assert (forall s, configs_ok s -> configs_ok (foldl history_step s history)) as Hh.
  { induction history as [|[[action req]|] history IH]; intros s Hs; cbn [foldl history_step]; [done| |].
    - by apply IH, safe_run.
    - apply IH. split; [done|constructor]. }
  apply Hh. split; [done|constructor].
Qed.

(** A load that replaces the configurations forgets them before it looks at
    the new ones: when the first is refused nothing is left. *)
Theorem refused_replacement_drops s (w : W) req args item items message :
  ss_wave s = Some w -> request_args req = Ret args -> is_object args = true ->
  jget (lit "config") args = Some (jobj [(lit "streams", JArray (item :: items))]) ->
  jget (lit "mode") args = None -> parse_stream item = Ret (inl message) ->
  stream_config_load file parse req s = (Ret (invalid_stream_config_error message), clear_stream_configs s).
Proof.
  intros Hw Ha Ho Hc Hm Hp. unfold stream_config_load, answered.
  match goal with |- context [fst (?m s)] =>
    assert (m s = (Ret (inl (invalid_stream_config_error message)), clear_stream_configs s)) as ->; [|done] end.
  unfold mbind at 1, trial_bind at 1, check_waveform. rewrite Hw.
  unfold mbind at 1, trial_bind at 1, pure_step at 1. rewrite Ha. cbn [fmap res_fmap].
  unfold mbind at 1, trial_bind at 1, config_document, jcontains. rewrite Hc.
  assert (at_key (lit "config") args = Ret (jobj [(lit "streams", JArray (item :: items))])) as ->.
  { destruct args; try done. unfold jget in Hc. cbn in Hc |- *. by rewrite Hc. }
  cbn [pure_step fmap res_fmap]. unfold mbind at 1, trial_bind at 1, pure_step at 1.
  assert (value_or as_string (lit "mode") (lit "replace") args = Ret (lit "replace")) as ->.
  { destruct args; try done. unfold jget in Hm. cbn in Hm |- *. by rewrite Hm. }
  cbn [fmap res_fmap]. unfold mbind at 1, trial_bind at 1. cbn [run_step get_state fst snd fmap res_fmap].
  unfold mbind at 1, trial_bind at 1. cbn [put_configs]. rewrite eqs_refl.
  unfold mbind at 1, trial_bind at 1, pure_step at 1. cbn [at_key jobj mfrom foldl mset fst snd].
  change (mget (lit "streams") [(lit "streams", JArray (item :: items))]) with (Some (JArray (item :: items))).
  cbn [fmap res_fmap json_items load_streams]. unfold mbind at 1, trial_bind at 1. unfold mbind at 1, trial_bind at 1.
  unfold load_stream. unfold mbind at 1, trial_bind at 1, pure_step at 1. rewrite Hp. done.
Qed.
End Histories.
