(* ===== verification/SourceContext.v ===== *)
(** * SourceContext: the lines of the design around a statement

    Models [src/engine/trace_source_context.cpp]: where a reported source file
    is looked for and which of its lines are shown. The file system is a
    record of what the code asks of it; paths are POSIX paths with the
    operations of [std::filesystem::path] the code uses. The theorems show
    that the first usable candidate is taken and that the rows are exactly the
    lines of the file around the requested range. *)

From S2P Require Import Prelude CLib Json EnvConfig SignalList InternalRequest Engine.

Open Scope Z_scope.

(** ** Paths *)

Definition slash : ascii := "/"%char.

(** The file names of a path, without the empty ones. *)
Fixpoint names_from (name s : bytes) : list bytes :=
  let flush := match name with [] => [] | _ => [name] end in
  match s with
  | [] => flush
  | c :: s' => if eqc c slash then flush ++ names_from [] s' else names_from (name ++ [c]) s'
  end.
Definition is_absolute (p : bytes) : bool := match p with c :: _ => eqc c slash | [] => false end.
Definition ends_slash (p : bytes) : bool := match list.last p with Some c => eqc c slash | None => false end.

(** [p / q] *)
Definition join_paths (p q : bytes) : bytes :=
  if is_absolute q then q
  else match p with
       | [] => q
       | _ => if ends_slash p then p ++ q else p ++ slash :: q
       end.

Fixpoint drop_slashes (reversed : bytes) : bytes :=
  match reversed with c :: r => if eqc c slash then drop_slashes r else reversed | [] => [] end.
(** [p.parent_path()] *)
Definition parent_path (p : bytes) : bytes :=
  match names_from [] p with
  | [] => p
  | _ =>
      match drop_slashes (snd (span (fun c => negb (eqc c slash)) (rev p))) with
      | [] => if is_absolute p then [slash] else []
      | r => rev r
      end
  end.

(** The names that stay, the last first, and whether a separator follows. *)
Definition normal_step (root : bool) (st : list bytes * bool) (name : bytes) : list bytes * bool :=
  let '(stack, trailing) := st in
  if eqs name (lit ".") then (stack, true)
  else if eqs name (lit "..") then
    match stack with
    | top :: rest => if eqs top (lit "..") then (name :: stack, false) else (rest, true)
    | [] => if root then ([], trailing) else ([name], false)
    end
  else (name :: stack, false).
Fixpoint join_names (names : list bytes) : bytes :=
  match names with
  | [] => []
  | [n] => n
  | n :: rest => n ++ slash :: join_names rest
  end.
(** [p.lexically_normal()] *)
Definition lexically_normal (p : bytes) : bytes :=
  match p with
  | [] => []
  | _ =>
      let root := is_absolute p in
      let '(stack, trailing) := foldl (normal_step root) ([], false) (names_from [] p) in
      let head := if root then [slash] else [] in
      match stack with
      | [] => if root then head else lit "."
      | top :: _ =>
          head ++ join_names (rev stack) ++
          (if (trailing || ends_slash p) && negb (eqs top (lit "..")) then [slash] else [])
      end
  end.

(** ** The candidates *)

Record FileSystem := MkFs {
  fs_regular : bytes -> bool;
  fs_directory : bytes -> bool;
  fs_current_path : bytes;
  fs_read : bytes -> option bytes;
}.

Section Context.
Context (getenv : bytes -> option bytes) (fs : FileSystem).

Definition usable_file (path : bytes) : bool := fs_regular fs path.

Definition session_candidates (session_path reported : bytes) : list bytes :=
  match session_path with
  | [] => []
  | _ =>
      let base := if fs_directory fs session_path then session_path else parent_path session_path in
      match base with
      | [] => []
      | _ =>
          join_paths base reported ::
          match parent_path base with [] => [] | up => [join_paths up reported] end
      end
  end.

(** The paths the engine was started with, [engine_globals()]. *)
Context (design_path waveform_path : bytes).

Definition source_candidates (file : bytes) : list bytes :=
  if is_absolute file then [file]
  else join_paths (fs_current_path fs) file ::
       session_candidates design_path file ++ session_candidates waveform_path file.

Fixpoint first_usable (visited : list bytes) (candidates : list bytes) : option bytes :=
  match candidates with
  | [] => None
  | c :: rest =>
      let key := lexically_normal c in
      if one_of key visited then first_usable visited rest
      else if usable_file c then Some c
      else first_usable (key :: visited) rest
  end.
Definition resolve_source_file (file : bytes) : option bytes :=
  if eqs file [] || eqs file (lit "<unknown>") then None else first_usable [] (source_candidates file).

(** ** The rows *)

Definition context_row (lines : list bytes) (first_line last_line line : Z) : json :=
  jobj [(lit "line", JInt line); (lit "text", JString (default [] (lines !! Z.to_nat (line - 1))));
        (lit "active", JBool ((first_line <=? line) && (line <=? last_line)))].

(** Of the lines of the file, with the range in order. *)
Definition context_rows (lines : list bytes) (first_line last_line : Z) : res json :=
  let total := i32 (zlen lines) in
  if bool_decide (lines = []) || (total <? first_line) then Ret (JArray [])
  else
    let context := xdebug_trace_source_context_lines getenv in
    low ← int_op (first_line - context);
    high ← int_op (last_line + context);
    let begin := Z.max 1 low in
    let end_ := Z.min total high in
    Ret (JArray (map (context_row lines first_line last_line) (seqZ begin (end_ - begin + 1)))).

Definition read_source_context (file : bytes) (first_line last_line : Z) : res json :=
  if (first_line <=? 0) || (last_line <=? 0) then Ret (JArray [])
  else
    match resolve_source_file file with
    | None => Ret (JArray [])
    | Some resolved =>
        match fs_read fs resolved with
        | None => Ret (JArray [])
        | Some content => context_rows (lines_from [] content) (Z.min first_line last_line) (Z.max first_line last_line)
        end
    end.

Definition trace_source_context (file : bytes) (first_line last_line : Z) : res json :=
  read_source_context file first_line last_line.
End Context.

(** ** What is resolved and shown *)

Section Theory.
Context (getenv : bytes -> option bytes) (fs : FileSystem) (design_path waveform_path : bytes).

(** Whether a path names a regular file depends on its normal form only, as
    it does where no directory is a symbolic link. *)
Definition lexical : Prop := forall p q, lexically_normal p = lexically_normal q -> fs_regular fs p = fs_regular fs q.

Lemma first_usable_find : lexical -> forall candidates visited,
  (forall c, one_of (lexically_normal c) visited = true -> fs_regular fs c = false) ->
  first_usable fs visited candidates = List.find (fs_regular fs) candidates.
Proof.
  intros Hl. induction candidates as [|c rest IH]; intros visited Hv; cbn [first_usable List.find]; [done|]. unfold usable_file.
  destruct (one_of (lexically_normal c) visited) eqn:Eo; [rewrite (Hv c Eo); by apply IH|].
  destruct (fs_regular fs c) eqn:Er; [done|]. apply IH. intros d. unfold one_of. cbn [existsb].
  intros [Hd|Hd]%orb_true_iff; [|by apply Hv]. apply eqs_true in Hd. by rewrite (Hl d c Hd).
Qed.

(** The file read is the first candidate that is a regular file: not trying a
    spelling twice loses nothing. *)
Lemma resolve_first file : lexical -> file <> [] -> file <> lit "<unknown>" ->
  resolve_source_file fs design_path waveform_path file =
    List.find (fs_regular fs) (source_candidates fs design_path waveform_path file).
Proof.
  intros Hl H1%eqs_false H2%eqs_false. unfold resolve_source_file. rewrite H1, H2. by apply first_usable_find.
Qed.

(** The rows of a range: the lines of the file from [context] before to
    [context] after it, each once and in order, with its text. *)
Theorem source_context_exact file resolved content first last :
  0 < first <= last -> last <= int_max - 1000 ->
  resolve_source_file fs design_path waveform_path file = Some resolved -> fs_read fs resolved = Some content ->
  let lines := lines_from [] content in
  first <= zlen lines <= int_max ->
  let context := xdebug_trace_source_context_lines getenv in
  let begin := Z.max 1 (first - context) in
  let finish := Z.min (zlen lines) (last + context) in
  trace_source_context getenv fs design_path waveform_path file first last =
    Ret (JArray (map (context_row lines first last) (seqZ begin (finish - begin + 1)))) /\
  begin <= first /\ first <= finish /\ (last <= zlen lines -> last <= finish) /\
  forall l, l ∈ seqZ begin (finish - begin + 1) -> exists text, lines !! Z.to_nat (l - 1) = Some text /\
    jget (lit "text") (context_row lines first last l) = Some (JString text).
Proof.
  intros Hf Hl Hr Hc lines Hn context begin finish. assert (0 <= context <= 1000) as Hx.
  { subst context. unfold xdebug_trace_source_context_lines. apply env_int_range; unfold int_min, int_max; lia. }
  unfold int_max in *. split_and!; [|subst begin; lia|subst finish; lia|subst finish; lia|].
  - unfold trace_source_context, read_source_context. rewrite (proj2 (Z.leb_gt first 0)), (proj2 (Z.leb_gt last 0)) by lia.
    cbn [orb]. rewrite Hr, Hc. rewrite (Z.min_l first last), (Z.max_r first last) by lia. fold lines. unfold context_rows.
    rewrite bool_decide_false by (intros E; assert (zlen lines = 0) by (by rewrite E); lia). rewrite i32_small by (unfold int_min, int_max; lia).
    rewrite (proj2 (Z.ltb_ge _ _)) by lia. cbn [orb]. fold context. unfold int_op, in_int, int_min, int_max.
    by rewrite !(proj2 (andb_true_iff _ _)) by (split; apply Z.leb_le; lia).
  - intros l Hl'%elem_of_seqZ. destruct (lookup_lt_is_Some_2 lines (Z.to_nat (l - 1))) as [t Ht].
    { unfold zlen in *. subst begin finish. lia. }
    exists t. split; [done|]. unfold context_row. by rewrite Ht.
Qed.
End Theory.
