(* ===== verification/DomainRender.v ===== *)
(** * DomainRender: the text of traces, streams and scopes

    Models [src/protocol/domain_xout_renderer.cpp] over the builder of Xout.v:
    the source evidence of a trace, grouped into windows of the source file,
    the hops and the ambiguity of a chain of drivers, the records of a stream
    and the roots of the scopes. [source_context] reads the window of a source
    file (SourceContext.v), [trunc] is the integer part of a float. *)

From stdpp Require Import gmap.
From S2P Require Import Prelude CLib Json EnvConfig InternalRequest SchemaValidator Engine Xout XoutRender.

Open Scope Z_scope.
Local Open Scope rend_scope.

Section Domain.
Context (dump : json -> bytes) (trunc : bytes -> Z) (getenv : bytes -> option bytes)
  (source_context : bytes -> Z -> Z -> res json).
Local Notation cell := (json_to_xout_value dump).
Local Notation kv k v := (emit_kv dump k v).

(** [j.value(key, Json())] as one line. *)
Definition cell_of (k : bytes) (j : json) : res bytes := v ← json_of k j; cell v.
Definition int_of (k : bytes) (j : json) : res Z := value_or (as_number trunc i32) k 0 j.

(** The elements [j[index]] for [index < j.size()]. *)
Definition indexed (j : json) : res (list json) :=
  match j with
  | JArray l => Ret l
  | JNull | JObject [] => Ret []
  | _ => Throw "type_error.305"
  end.

Definition emit_domain_member (member : bytes * json) : rend :=
  let '(k, v) := member in
  if is_xout_scalar_json v then kv k v
  else match v with
       | JObject m => iter (fun f => when (is_xout_scalar_json (snd f)) (kv (k ++ lit "." ++ fst f) (snd f))) m
       | JArray (_ :: _) => shown <~ cell v; text k shown
       | _ => skip
       end.
Definition emit_domain_summary (response : json) : rend :=
  summary <~ object_of (lit "summary") response;
  match summary with
  | JObject (m :: ms) => section (lit "summary") >>> iter emit_domain_member (m :: ms)
  | _ => skip
  end.

Fixpoint join_arrows (parts : list bytes) : bytes :=
  match parts with
  | [] => []
  | [p] => p
  | p :: rest => p ++ lit " -> " ++ join_arrows rest
  end.
Definition joined_path (path : json) : res bytes :=
  match path with
  | JArray l => parts ← map_res cell l; Ret (join_arrows parts)
  | _ => cell path
  end.
(** [joined_path(item.value("signal_path", Json::array()))] *)
Definition signal_path (item : json) : res bytes := path ← array_of (lit "signal_path") item; joined_path path.

Definition sample_value (sample : json) : res bytes :=
  match sample with
  | JObject _ =>
      match jget (lit "value") sample with
      | Some JNull | None => value_or as_string (lit "status") (lit "unavailable") sample
      | Some v => cell v
      end
  | _ => cell sample
  end.

(** A row of the results of its cells. *)
Definition cells (l : list (res bytes)) : res (list bytes) := map_res id l.

Definition hop_row (hop : json) : res (list bytes) :=
  cells [cell_of (lit "index") hop; str_of (lit "chain_id") hop; str_of (lit "relation") hop; str_of (lit "signal") hop;
         str_of (lit "active_time") hop; str_of (lit "x_onset_time") hop; cell_of (lit "value") hop; str_of (lit "x_mask") hop;
         str_of (lit "file") hop; cell_of (lit "line") hop; signal_path hop].
Definition hop_columns : list bytes :=
  [lit "index"; lit "chain_id"; lit "relation"; lit "signal"; lit "active_time"; lit "x_onset_time"; lit "value"; lit "x_mask";
   lit "file"; lit "line"; lit "signal_path"].
Definition emit_hops (hops : json) : rend :=
  match hops with
  | JArray (h :: l) =>
      rows <~ map_res hop_row (h :: l);
      section (lit "hops") >>> table hop_columns rows
  | _ => skip
  end.

(** ** Source evidence *)

Inductive SourceEvidenceKind := EvPath | EvActiveChain | EvXOrigin.

Record SourceEvidenceGroup := MkEvidence {
  group_file : bytes;
  group_first_line : Z;
  group_last_line : Z;
  last_seen_line : Z;
  active_lines : gset Z;
  group_items : list json;
}.

(** An item that names a place in a file. *)
Definition evidence_place (item : json) : res (option (bytes * Z)) :=
  file ← str_of (lit "file") item;
  line ← int_of (lit "line") item;
  Ret (if eqs file [] || eqs file (lit "<unknown>") || (line <=? 0) then None else Some (file, line)).

Definition new_group (file : bytes) (line : Z) (item : json) : SourceEvidenceGroup :=
  MkEvidence file line line line {[line]} [item].
Definition merge_threshold : Z := xdebug_trace_source_merge_threshold_lines getenv.
(** Whether the place belongs to the window of the group. *)
Definition merges (g : SourceEvidenceGroup) (file : bytes) (line : Z) : bool :=
  eqs (group_file g) file && (Z.abs (line - last_seen_line g) <? merge_threshold).
Definition extend_group (line : Z) (item : json) (g : SourceEvidenceGroup) : SourceEvidenceGroup :=
  MkEvidence (group_file g) (Z.min (group_first_line g) line) (Z.max (group_last_line g) line) line
    ({[line]} ∪ active_lines g) (group_items g ++ [item]).

(** The groups so far, the last one first. *)
Definition place_item (groups : list SourceEvidenceGroup) (file : bytes) (line : Z) (item : json) : list SourceEvidenceGroup :=
  match groups with
  | g :: rest => if merges g file line then extend_group line item g :: rest else new_group file line item :: groups
  | [] => [new_group file line item]
  end.
Fixpoint group_loop (groups : list SourceEvidenceGroup) (items : list json) : res (list SourceEvidenceGroup) :=
  match items with
  | [] => Ret (rev groups)
  | item :: items' =>
      place ← evidence_place item;
      group_loop (match place with Some (file, line) => place_item groups file line item | None => groups end) items'
  end.
Definition source_evidence_groups (items : json) : res (list SourceEvidenceGroup) := group_loop [] (json_items items).

Definition source_evidence_row (kind : SourceEvidenceKind) (item : json) : res (list bytes) :=
  path ← signal_path item;
  let line := cell_of (lit "line") item in
  match kind with
  | EvPath => cells [line; Ret path]
  | EvActiveChain =>
      cells [str_of (lit "chain_id") item; cell_of (lit "index") item; str_of (lit "time") item;
             str_of (lit "active_time") item; str_of (lit "relation") item; line; Ret path]
  | EvXOrigin =>
      cells [str_of (lit "chain_id") item; cell_of (lit "index") item; str_of (lit "x_onset_time") item;
             str_of (lit "active_time") item; str_of (lit "relation") item; line; Ret path]
  end.
Definition evidence_columns (kind : SourceEvidenceKind) : list bytes :=
  match kind with
  | EvPath => [lit "line"; lit "signal_path"]
  | EvActiveChain =>
      [lit "chain"; lit "hop"; lit "time"; lit "active_time"; lit "relation"; lit "line"; lit "signal_path"]
  | EvXOrigin =>
      [lit "chain"; lit "hop"; lit "x_onset_time"; lit "active_time"; lit "relation"; lit "line"; lit "signal_path"]
  end.

(** [std::setw(5)] *)
Definition padded (n : Z) : bytes := let s := to_string n in replicate (5 - length s) " "%char ++ s.
Definition source_line (active : gset Z) (row : json) : res bytes :=
  line ← int_of (lit "line") row;
  shown ← str_of (lit "text") row;
  Ret ((if bool_decide (line ∈ active) then lit ">" else lit " ") ++ padded line ++ lit " | " ++ shown ++ [newline]).
(** The text of the window, [context] not empty. *)
Definition source_text (g : SourceEvidenceGroup) (first : json) (rest : list json) : res bytes :=
  begin ← value_or (as_number trunc i32) (lit "line") (group_first_line g) first;
  finish ← value_or (as_number trunc i32) (lit "line") (group_last_line g) (default first (list.last rest));
  lines ← map_res (source_line (active_lines g)) (first :: rest);
  Ret (newline :: lit "source: " ++ group_file g ++ lit ":" ++ to_string begin ++ lit "-" ++ to_string finish ++
       newline :: List.concat lines).

Definition emit_group (kind : SourceEvidenceKind) (g : SourceEvidenceGroup) (first : json) (rest : list json) : rend :=
  source <~ source_text g first rest;
  emit (emit_raw source) >>>
  rows <~ map_res (source_evidence_row kind) (group_items g);
  section (lit "active_signals") >>> table (evidence_columns kind) rows.
(** The number of items shown is passed on. *)
Fixpoint emit_groups (kind : SourceEvidenceKind) (groups : list SourceEvidenceGroup) (rendered_count : nat)
    (next : nat -> rend) : rend :=
  match groups with
  | [] => next rendered_count
  | g :: groups' =>
      context <~ source_context (group_file g) (group_first_line g) (group_last_line g);
      match json_items context with
      | [] => emit_groups kind groups' rendered_count next
      | first :: rest =>
          emit_group kind g first rest >>>
          emit_groups kind groups' (rendered_count + length (group_items g)) next
      end
  end.
Definition emit_source_evidence (kind : SourceEvidenceKind) (items : json) (next : nat -> rend) : rend :=
  groups <~ source_evidence_groups items;
  emit_groups kind groups 0 next.

(** ** Ambiguity *)

Definition statement_row (index : nat) (statement : json) : res (list bytes) :=
  cells [Ret (to_string (Z.of_nat index)); str_of (lit "kind") statement; str_of (lit "driver") statement;
         str_of (lit "file") statement; cell_of (lit "line") statement; cell_of (lit "complete") statement;
         cell_of (lit "rhs_signal_count") statement; cell_of (lit "returned_rhs_signal_count") statement].
Definition sample_row (index : nat) (sample : json) : res (list bytes) :=
  cells [Ret (to_string (Z.of_nat index)); str_of (lit "signal") sample;
         (before ← object_of (lit "before") sample; sample_value before);
         (after ← object_of (lit "after") sample; sample_value after); cell_of (lit "changed") sample].
Fixpoint statement_rows (index : nat) (statements : list json) : res (list (list bytes) * list (list bytes)) :=
  match statements with
  | [] => Ret ([], [])
  | s :: statements' =>
      r ← statement_row index s;
      rhs ← array_of (lit "rhs_samples") s;
      samples ← map_res (sample_row index) (json_items rhs);
      more ← statement_rows (S index) statements';
      Ret (r :: more.1, samples ++ more.2)
  end.
Definition emit_ambiguity (ambiguity : json) : rend :=
  if negb (is_object ambiguity) then skip
  else
    section (lit "ambiguity") >>>
    iter (fun f => when (is_xout_scalar_json (snd f)) (kv (fst f) (snd f))) (members ambiguity) >>>
    statements <~ array_of (lit "statements") ambiguity;
    if json_empty statements then skip
    else
      l <~ indexed statements;
      rows <~ statement_rows 0 l;
      section (lit "statements") >>>
      table [lit "statement"; lit "kind"; lit "driver"; lit "file"; lit "line"; lit "complete"; lit "rhs_total"; lit "rhs_returned"]
        rows.1 >>>
      match rows.2 with
      | [] => skip
      | samples =>
          section (lit "rhs_samples") >>>
          table [lit "statement"; lit "signal"; lit "before"; lit "after"; lit "changed"] samples
      end.

(** ** Streams *)

(** A [std::set<std::string>]. *)
Definition add_names (names : list (bytes * unit)) (m : list (bytes * json)) : list (bytes * unit) :=
  foldl (fun names f => mset (fst f) tt names) names m.
Fixpoint collect_names (member : bytes) (names : list (bytes * unit)) (rows : list json) : res (list (bytes * unit)) :=
  match rows with
  | [] => Ret names
  | r :: rows' =>
      fields ← object_of member r;
      collect_names member (add_names names (members fields)) rows'
  end.
(** Of an array of records. *)
Definition field_names (rows : list json) (member : bytes) : res (list bytes) :=
  names ← collect_names member [] rows; Ret (map fst names).
Definition field_value (object : json) (member field : bytes) : res bytes :=
  values ← object_of member object;
  match jget field values with Some v => cell v | None => Ret [] end.

Definition any_contains (k : bytes) (records : list json) : bool := existsb (jcontains k) records.
Definition optional {A} (c : bool) (a : A) : list A := if c then [a] else [].

Definition sample_keys : list bytes :=
  [lit "cycle"; lit "time"; lit "transfer"; lit "stall"; lit "vld"; lit "rdy"; lit "bp"; lit "sop"; lit "eop"; lit "beat_index"].
Definition sample_cells (has_packet_index has_channel_id : bool) (fields stable : list bytes) (record : json) : res (list bytes) :=
  cells (map (fun k => cell_of k record)
           (sample_keys ++ optional has_packet_index (lit "packet_index") ++ optional has_channel_id (lit "channel_id"))
         ++ map (field_value record (lit "fields")) fields
         ++ map (field_value record (lit "packet_stable_fields")) stable).
Definition emit_samples (name : bytes) (records : list json) : rend :=
  fields <~ field_names records (lit "fields");
  stable <~ field_names records (lit "packet_stable_fields");
  let has_packet_index := any_contains (lit "packet_index") records in
  let has_channel_id := any_contains (lit "channel_id") records in
  rows <~ map_res (sample_cells has_packet_index has_channel_id fields stable) records;
  section name >>>
  table (sample_keys ++ optional has_packet_index (lit "packet_index") ++ optional has_channel_id (lit "channel_id")
         ++ fields ++ map (app (lit "packet_stable.")) stable) rows.

Definition packet_keys : list bytes :=
  [lit "packet_index"; lit "start_cycle"; lit "end_cycle"; lit "start_time"; lit "end_time"; lit "beat_count";
   lit "partial_begin"; lit "partial_end"].
Definition preview_keys : list bytes := [lit "total_count"; lit "returned_count"; lit "response_truncated"].
Definition packet_cells (has_channel_id : bool) (stable first last : list bytes) (packet preview : json) : res (list bytes) :=
  cells (map (fun k => cell_of k packet) packet_keys ++ map (fun k => cell_of k preview) preview_keys
         ++ map (fun k => cell_of k packet) (optional has_channel_id (lit "channel_id"))
         ++ map (field_value packet (lit "packet_stable_fields")) stable
         ++ map (field_value packet (lit "first_fields")) first
         ++ map (field_value packet (lit "last_fields")) last).

(** The five leading cells of a beat of the preview, with the beat; the cell
    of all its fields is made and dropped. *)
Definition beat_row (packet : json) (role : bytes) (beat : json) : res (list bytes * json) :=
  fields ← object_of (lit "fields") beat;
  row ← cells [cell_of (lit "packet_index") packet; Ret role; cell_of (lit "beat_index") beat; cell_of (lit "cycle") beat;
               str_of (lit "time") beat; cell fields];
  Ret (take 5 row, beat).
Definition role_rows (packet preview : json) (role : bytes) : res (list (list bytes * json)) :=
  beats ← array_of role preview;
  map_res (beat_row packet role) (json_items beats).
Definition packet_beat_rows (packet preview : json) : res (list (list bytes * json)) :=
  count ← value_or (as_number trunc u32) (lit "beat_count") 0 packet;
  if count <=? 1 then Ret []
  else
    head ← role_rows packet preview (lit "head");
    tail ← role_rows packet preview (lit "tail");
    Ret (head ++ tail).
Definition packet_rows (has_channel_id : bool) (stable first last : list bytes) (packet : json) :
    res (list bytes * list (list bytes * json)) :=
  preview ← object_of (lit "beat_fields_preview") packet;
  row ← packet_cells has_channel_id stable first last packet preview;
  beats ← packet_beat_rows packet preview;
  Ret (row, beats).

Definition beat_cells (fields : list bytes) (beat : list bytes * json) : res (list bytes) :=
  values ← cells (map (field_value (snd beat) (lit "fields")) fields);
  Ret (fst beat ++ values).
Definition emit_beats (beats : list (list bytes * json)) : rend :=
  match beats with
  | [] => skip
  | _ =>
      fields <~ field_names (map snd beats) (lit "fields");
      rows <~ map_res (beat_cells fields) beats;
      section (lit "packet_beats") >>>
      table ([lit "packet_index"; lit "preview_role"; lit "beat_index"; lit "cycle"; lit "time"] ++ fields) rows
  end.

Definition emit_packets (name : bytes) (records : list json) : rend :=
  first <~ field_names records (lit "first_fields");
  last <~ field_names records (lit "last_fields");
  stable <~ field_names records (lit "packet_stable_fields");
  let has_channel_id := any_contains (lit "channel_id") records in
  rows <~ map_res (packet_rows has_channel_id stable first last) records;
  section name >>>
  table (packet_keys ++ [lit "preview_total"; lit "preview_returned"; lit "preview_truncated"]
         ++ optional has_channel_id (lit "channel_id") ++ map (app (lit "packet_stable.")) stable
         ++ map (app (lit "first.")) first ++ map (app (lit "last.")) last) (map fst rows) >>>
  emit_beats (List.concat (map snd rows)).

Definition is_packet (record : json) : bool :=
  jcontains (lit "packet_index") record && jcontains (lit "start_cycle") record && jcontains (lit "beat_count") record.
Definition emit_stream_records (name : bytes) (records : json) : rend :=
  match records with
  | JArray (r :: l) => if is_packet r then emit_packets name (r :: l) else emit_samples name (r :: l)
  | _ => skip
  end.

(** ** The renderers *)

Definition path_row (path : json) : res (list bytes) :=
  cells [signal_path path; str_of (lit "file") path; cell_of (lit "line") path].
Definition render_source_paths_xout (action : bytes) (response : json) : rend :=
  emit (emit_header action) >>>
  emit_domain_summary response >>>
  data <~ object_of (lit "data") response;
  paths <~ array_of (lit "paths") data;
  if json_empty paths then skip
  else
    emit_source_evidence EvPath paths (fun count =>
      if (count <? jsize paths)%nat then
        rows <~ map_res path_row (json_items paths);
        section (lit "paths") >>> table [lit "signal_path"; lit "file"; lit "line"] rows
      else skip).

Definition render_active_driver_chain_xout (response : json) : rend :=
  emit (emit_header (lit "trace.active_driver_chain")) >>>
  emit_domain_summary response >>>
  data <~ object_of (lit "data") response;
  hops <~ array_of (lit "hops") data;
  emit_source_evidence EvActiveChain hops (fun count =>
    when (count <? jsize hops)%nat (emit_hops hops) >>>
    ambiguity <~ json_of (lit "ambiguity_evidence") data;
    emit_ambiguity ambiguity).

Definition chain_row (chain : json) : res (list bytes) :=
  current ← object_of (lit "current") chain;
  cells [str_of (lit "chain_id") chain; str_of (lit "status") chain; str_of (lit "termination_detail") chain;
         cell_of (lit "complete") chain; str_of (lit "signal") current; cell_of (lit "value") current;
         str_of (lit "x_mask") current; str_of (lit "x_onset_time") current].
Definition origin_row (chain origin : json) : res (list bytes) :=
  cells [str_of (lit "chain_id") chain; str_of (lit "signal") origin; str_of (lit "kind") origin; str_of (lit "reason") origin;
         str_of (lit "evidence_status") origin; str_of (lit "x_onset_time") origin; str_of (lit "file") origin;
         cell_of (lit "line") origin].
(** The row, the hops and the row of the origin, if any. *)
Definition chain_rows (chain : json) : res (list bytes * list json * list (list bytes)) :=
  row ← chain_row chain;
  hops ← array_of (lit "hops") chain;
  origin ← json_of (lit "origin") chain;
  origins ← (if is_object origin then r ← origin_row chain origin; Ret [r] else Ret []);
  Ret (row, json_items hops, origins).
Definition emit_limitations (data : json) (next : rend) : rend :=
  limitations <~ array_of (lit "limitations") data;
  if json_empty limitations then next
  else section (lit "limitations") >>> iter (fun l => shown <~ cell l; row [shown]) (json_items limitations) >>> next.

Definition emit_query_evidence (query : json) : rend :=
  if json_empty query then skip
  else section (lit "query_evidence") >>>
       match query with
       | JObject m => iter (fun f => when (negb (one_of (fst f) [lit "signal"; lit "query_time"])) (kv (fst f) (snd f))) m
       | _ => need (Throw (A := unit) "invalid_iterator.207") (fun _ => skip)
       end.
Definition emit_chains (chains : json) (next : rend) : rend :=
  if json_empty chains then next
  else
    rows <~ map_res chain_rows (json_items chains);
    let all_hops := JArray (List.concat (map (fun r => snd (fst r)) rows)) in
    section (lit "chains") >>>
    table [lit "chain_id"; lit "status"; lit "termination"; lit "complete"; lit "current_signal"; lit "current_value";
           lit "current_x_mask"; lit "current_x_onset"] (map (fun r => fst (fst r)) rows) >>>
    emit_source_evidence EvXOrigin all_hops (fun count =>
      when (count <? jsize all_hops)%nat (emit_hops all_hops) >>>
      (match List.concat (map snd rows) with
       | [] => skip
       | origins =>
           section (lit "origins") >>>
           table [lit "chain_id"; lit "signal"; lit "kind"; lit "reason"; lit "evidence"; lit "x_onset_time"; lit "file"; lit "line"]
             origins
       end) >>> next).
Definition render_x_origin_xout (response : json) : rend :=
  emit (emit_header (lit "trace.x_origin")) >>>
  emit_domain_summary response >>>
  data <~ object_of (lit "data") response;
  query <~ object_of (lit "query") data;
  emit_query_evidence query >>>
  chains <~ array_of (lit "chains") data;
  emit_chains chains (emit_limitations data skip).

Definition render_stream_xout (action : bytes) (response : json) : rend :=
  emit (emit_header action) >>>
  emit_domain_summary response >>>
  data <~ object_of (lit "data") response;
  iter (fun k => records <~ array_of k data; when (negb (json_empty records)) (emit_stream_records k records))
    [lit "rows"; lit "transfers"; lit "stalls"; lit "packets"; lit "preview"] >>>
  iter (fun k => record <~ json_of k data; when (is_object record) (emit_stream_records k (JArray [record])))
    [lit "row"; lit "transfer"; lit "stall"; lit "packet"].

(** A scope of a root, ["" ] when there is none. *)
Definition full_name_of (scope : json) : res bytes := if is_object scope then str_of (lit "full_name") scope else Ret [].
Fixpoint join_commas (parts : list bytes) : bytes :=
  match parts with
  | [] => []
  | [p] => p
  | p :: rest => p ++ lit "," ++ join_commas rest
  end.
Definition root_row (root : json) : res (list bytes) :=
  source_list ← array_of (lit "sources") root;
  items ← indexed source_list;
  sources ← map_res as_string items;
  wave ← json_of (lit "wave") root;
  design ← json_of (lit "design") root;
  cells [str_of (lit "path") root; str_of (lit "status") root; Ret (join_commas sources); full_name_of wave; full_name_of design].
Definition recommended_text (summary : json) : res bytes :=
  recommended ← json_of (lit "recommended_root") summary;
  if json_null recommended then
    reason ← value_or as_string (lit "recommended_reason") (lit "unknown") summary;
    Ret (lit "none (" ++ reason ++ lit ")")
  else as_string recommended.
Definition render_scope_roots_xout (response : json) : rend :=
  emit (emit_header (lit "scope.roots")) >>>
  summary <~ object_of (lit "summary") response;
  section (lit "summary") >>>
  recommended <~ recommended_text summary;
  text (lit "recommended") recommended >>>
  source <~ value_or as_string (lit "source") (lit "auto") summary;
  text (lit "source") source >>>
  iter (fun f => n <~ int_of (snd f) summary; emit (emit_kv_int (fst f) n))
    [(lit "roots", lit "root_count"); (lit "matched", lit "matched_count"); (lit "wave", lit "wave_count");
     (lit "design", lit "design_count")] >>>
  data <~ object_of (lit "data") response;
  roots <~ array_of (lit "roots") data;
  rows <~ map_res root_row (json_items roots);
  section (lit "roots") >>>
  table [lit "path"; lit "status"; lit "sources"; lit "wave"; lit "design"]
    (match rows with [] => [[lit "[empty]"; []; []; []; []]] | _ => rows end) >>>
  emit_limitations data skip.
End Domain.
