(* ===== verification/DomainRenderTheory.v ===== *)
(** * DomainRenderTheory: the evidence of a trace and the fields of a stream

    The windows of the source evidence are the maximal runs of near places,
    every item of a trace is a row of some table, whatever source files can be
    read, and every field of every record of a stream has its column and its
    cell. *)

From stdpp Require Import gmap.
From S2P Require Import Prelude CLib Json EnvConfig InternalRequest SchemaValidator Engine Xout XoutTheory XoutRender XoutRenderTheory DomainRender.

Open Scope Z_scope.

(** ** Windows *)

Section Windows.
Context (trunc : bytes -> Z) (getenv : bytes -> option bytes).

Definition Place : Type := bytes * Z * json.
Definition place_file (p : Place) : bytes := fst (fst p).
Definition place_line (p : Place) : Z := snd (fst p).
Definition near (p q : Place) : bool :=
  eqs (place_file p) (place_file q) && (Z.abs (place_line q - place_line p) <? merge_threshold getenv).

(** The maximal runs of places each near the one before it. *)
Fixpoint near_runs (l : list Place) : list (list Place) :=
  match l with
  | [] => []
  | p :: l' =>
      match near_runs l' with
      | (q :: r) :: rest => if near p q then (p :: q :: r) :: rest else [p] :: (q :: r) :: rest
      | rest => [p] :: rest
      end
  end.

(** The window of a run, [p] first. *)
Definition window (p : Place) (l : list Place) : SourceEvidenceGroup :=
  MkEvidence (place_file p) (foldl Z.min (place_line p) (map place_line l)) (foldl Z.max (place_line p) (map place_line l))
    (place_line (default p (list.last l))) (list_to_set (map place_line (p :: l))) (map snd (p :: l)).
Definition run_window (run : list Place) : list SourceEvidenceGroup :=
  match run with p :: l => [window p l] | [] => [] end.

(** The place of an item, if it names one. *)
Definition item_place (item : json) : res (list Place) :=
  place ← evidence_place trunc item;
  Ret (match place with Some (file, line) => [(file, line, item)] | None => [] end).

(** The loop on places. *)
Fixpoint place_loop (groups : list SourceEvidenceGroup) (l : list Place) : list SourceEvidenceGroup :=
  match l with
  | [] => rev groups
  | p :: l' => place_loop (place_item getenv groups (place_file p) (place_line p) (snd p)) l'
  end.

Lemma group_loop_places items : forall groups,
  group_loop trunc getenv groups items = (places ← map_res item_place items; Ret (place_loop groups (List.concat places))).
Proof.
  induction items as [|i items IH]; intros groups; cbn [group_loop map_res]; [done|].
  assert (item_place i = place ← evidence_place trunc i; Ret (match place with Some (file, line) => [(file, line, i)] | None => [] end)) as -> by done.
  destruct (evidence_place trunc i) as [[[f n]|]| |e]; cbn [mbind res_bind]; [| |done..]; rewrite IH;
    by destruct (map_res item_place items).
Qed.

Lemma window_snoc p l q : extend_group (place_line q) (snd q) (window p l) = window p (l ++ [q]).
Proof.
  unfold extend_group, window. cbn. rewrite !map_app, !foldl_app. cbn. f_equal.
  - by rewrite last_snoc.
  - rewrite list_to_set_app_L. cbn. set_solver.
Qed.

Lemma new_window q : new_group (place_file q) (place_line q) (snd q) = window q [].
Proof. unfold new_group, window. cbn. f_equal. set_solver. Qed.

(** A run followed by more places. *)
Definition continue_run (run : list Place) (p : Place) (l : list Place) : list (list Place) :=
  match near_runs l with
  | (q :: r) :: rest => if near p q then (run ++ q :: r) :: rest else run :: (q :: r) :: rest
  | rest => run :: rest
  end.

Lemma near_runs_cons p l : near_runs (p :: l) = continue_run [p] p l.
Proof. done. Qed.
Lemma continue_snoc run p q l : near p q = true -> continue_run run p (q :: l) = continue_run (run ++ [q]) q l.
Proof.
  intros Hn. unfold continue_run at 1. rewrite near_runs_cons. unfold continue_run.
  destruct (near_runs l) as [|[|x r] rest]; [by rewrite Hn..|]. destruct (near q x); cbn [app]; rewrite Hn; [|done].
  by rewrite <- app_assoc.
Qed.
Lemma continue_split run p q l : near p q = false -> continue_run run p (q :: l) = run :: continue_run [q] q l.
Proof.
  intros Hn. unfold continue_run at 1. rewrite near_runs_cons. unfold continue_run.
  destruct (near_runs l) as [|[|x r] rest]; [by rewrite Hn..|]. by destruct (near q x); cbn [app]; rewrite Hn.
Qed.

Definition windows (runs : list (list Place)) : list SourceEvidenceGroup := List.concat (map run_window runs).

Lemma place_loop_runs l : forall p r groups, place_file (default p (list.last r)) = place_file p ->
  place_loop (window p r :: groups) l = rev groups ++ windows (continue_run (p :: r) (default p (list.last r)) l).
Proof.
  induction l as [|q l IH]; intros p r groups Hf; [done|]. cbn [place_loop place_item].
  assert (merges getenv (window p r) (place_file q) (place_line q) = near (default p (list.last r)) q) as ->.
  { unfold near. by rewrite Hf. }
  destruct (near (default p (list.last r)) q) eqn:En.
  - rewrite window_snoc, IH, last_snoc, continue_snoc by (try done; rewrite last_snoc; cbn; apply andb_true_iff in En as [E%eqs_true _]; congruence).
    done.
  - rewrite new_window, continue_split by done. cbn [windows map concat run_window]. rewrite (IH q [] (window p r :: groups)) by done.
    cbn [rev]. by rewrite <- app_assoc.
Qed.

(** The windows of the source evidence are the maximal runs, in the order
    of the items, of places that lie in one file and less than the threshold
    away from the place before: each window spans the lines of its run, marks
    exactly these and holds exactly its items, and an item that names no
    place is in none. *)
Theorem evidence_windows_exact items :
  source_evidence_groups trunc getenv items =
    (places ← map_res item_place (json_items items); Ret (windows (near_runs (List.concat places)))).
Proof.
  unfold source_evidence_groups. rewrite group_loop_places. destruct (map_res item_place (json_items items)) as [places| |e]; [|done..].
  cbn [mbind res_bind]. f_equal. destruct (List.concat places) as [|p l]; [done|]. cbn [place_loop place_item].
  rewrite new_window. exact (place_loop_runs l p [] [] eq_refl).
Qed.
End Windows.

(** ** Every item is shown *)

(** A step that only adds. *)
Definition keeping (f : rend) : Prop := forall b b', f b = Ret b' -> keeps b b'.
Lemma keeping_good f : good f -> keeping f.
Proof. done. Qed.

Lemma seq_Ret f g b b' : seq f g b = Ret b' -> exists b1, f b = Ret b1 /\ g b1 = Ret b'.
Proof. unfold seq. destruct (f b) as [b1| |e]; [|done..]. cbn [mbind res_bind]. eauto. Qed.
Lemma need_Ret {A} (r : res A) k b b' : need r k b = Ret b' -> exists a, r = Ret a /\ k a b = Ret b'.
Proof. unfold need. destruct r as [a| |e]; [|done..]. eauto. Qed.
Lemma keeping_seq f g : keeping f -> keeping g -> keeping (seq f g).
Proof. intros Hf Hg b b' (b1 & H1 & H2)%seq_Ret. etransitivity; [by apply Hf|by apply Hg]. Qed.
Lemma raw_keeps source b : keeps b (emit_raw source b).
Proof.
  etransitivity; [apply flush_keeps|]. unfold emit_raw. cbv zeta. eapply keeps_grow; [reflexivity|]. done.
Qed.

(** A table of [n] columns shows the cells as one of its rows. *)
Definition row_shown (n : nat) (row : list bytes) (b : TextResponseBuilder) : Prop := exists widths i,
  shown (indent i ++ trim_right (table_cells widths (safe_row n row))) b.
Lemma row_shown_keeps n row b b' : keeps b b' -> row_shown n row b -> row_shown n row b'.
Proof. intros [Hk _] (w & i & H). exists w, i. by apply Hk. Qed.

Lemma table_shows columns rows b b' row : columns <> [] -> row ∈ rows -> table columns rows b = Ret b' ->
  row_shown (length columns) row b'.
Proof.
  intros Hc Hr <-%Ret_inj. destruct (table_keeps columns rows b) as [_ [w Hw]]; [done|].
  apply (proj1 (list.Forall_forall _ _)) with (x := safe_row (length columns) row) in Hw as [i Hi]; [by exists w, i|].
  by apply (list_elem_of_fmap_2 (safe_row (length columns))).
Qed.

Lemma map_res_Forall2 {A B} (f : A -> res B) l rows : map_res f l = Ret rows -> Forall2 (fun a r => f a = Ret r) l rows.
Proof.
  revert rows. induction l as [|x l IH]; intros rows; cbn [map_res]; [by intros <-%Ret_inj|].
  destruct (f x) as [r| |e] eqn:Ef; [|done..]. cbn [mbind res_bind]. destruct (map_res f l) as [rs| |e]; [|done..].
  intros <-%Ret_inj. constructor; auto.
Qed.
Lemma map_res_elem {A B} (f : A -> res B) l rows : map_res f l = Ret rows -> forall a, a ∈ l -> exists r, f a = Ret r /\ r ∈ rows.
Proof.
  intros H%map_res_Forall2 a [n Hn]%list_elem_of_lookup_1. destruct (Forall2_lookup_l _ _ _ _ _ H Hn) as (r & Hr & Hf).
  exists r. split; [done|by eapply list_elem_of_lookup_2].
Qed.

(** A table with a row for each of the items. *)
Lemma rows_table name columns (f : json -> res (list bytes)) items b b' : columns <> [] ->
  (need (map_res f items) (fun rows => seq (section name) (table columns rows))) b = Ret b' ->
  forall item, item ∈ items -> exists row, f item = Ret row /\ row_shown (length columns) row b'.
Proof.
  intros Hc (rows & Hr & (b1 & H1 & H2)%seq_Ret)%need_Ret item Hi.
  destruct (map_res_elem f items rows Hr item Hi) as (row & Hf & He). exists row. split; [done|]. by eapply table_shows.
Qed.

Section Evidence.
Context (dump : json -> bytes) (trunc : bytes -> Z) (getenv : bytes -> option bytes)
  (source_context : bytes -> Z -> Z -> res json).

(** The item has a row in a table of source evidence. *)
Definition evidenced (kind : SourceEvidenceKind) (b : TextResponseBuilder) (item : json) : Prop :=
  exists row, source_evidence_row dump kind item = Ret row /\ row_shown (length (evidence_columns kind)) row b.

Lemma evidenced_keeps kind b b' item : keeps b b' -> evidenced kind b item -> evidenced kind b' item.
Proof. intros Hk (row & H1 & H2). exists row. split; [done|]. by eapply row_shown_keeps. Qed.

Lemma group_shows kind g first rest b b' : emit_group dump trunc kind g first rest b = Ret b' ->
  keeps b b' /\ Forall (evidenced kind b') (group_items g).
Proof.
  intros (source & _ & (b1 & H1 & H2)%seq_Ret)%need_Ret. apply Ret_inj in H1 as <-. split.
  - etransitivity; [apply raw_keeps|]. eapply keeping_good; [|exact H2]. good.
  - apply list.Forall_forall. intros item Hi. eapply rows_table in H2; [|by destruct kind|exact Hi]. done.
Qed.

(** The number passed on counts the items of the groups that were shown. *)
Lemma groups_show kind next groups : forall count b b', emit_groups dump trunc source_context kind groups count next b = Ret b' ->
  exists done b1, done `sublist_of` groups /\ keeps b b1 /\
    next (count + length (List.concat (map group_items done)))%nat b1 = Ret b' /\
    Forall (fun g => Forall (evidenced kind b1) (group_items g)) done.
Proof.
  induction groups as [|g groups IH]; intros count b b'; cbn [emit_groups].
  { intros Hr. exists [], b. cbn. rewrite Nat.add_0_r. done. }
  intros (context & _ & Hr)%need_Ret. destruct (json_items context) as [|first rest].
  { destruct (IH count b b' Hr) as (dn & b1 & H1 & H2). exists dn, b1. split; [by apply sublist_cons|done]. }
  apply seq_Ret in Hr as (b0 & H0 & Hr). destruct (group_shows kind g first rest b b0 H0) as [Hk Hg].
  destruct (IH _ b0 b' Hr) as (dn & b1 & H1 & H2 & H3 & H4). exists (g :: dn), b1. split_and!.
  - by apply sublist_skip.
  - by etransitivity.
  - cbn [map concat]. by rewrite length_app, Nat.add_assoc.
  - constructor; [|done]. eapply list.Forall_impl; [exact Hg|]. intros item. by apply evidenced_keeps.
Qed.
Lemma sublist_full {A} (l1 l2 : list A) : l1 `sublist_of` l2 -> (length l2 <= length l1)%nat -> l1 = l2.
Proof.
  induction 1 as [|x l1 l2 _ IH|x l1 l2 H _]; intros Hl; [done|f_equal; apply IH; cbn in Hl; lia|].
  apply sublist_length in H. cbn in Hl. lia.
Qed.

Lemma place_item_items groups file line item :
  List.concat (map group_items (rev (place_item getenv groups file line item))) =
  List.concat (map group_items (rev groups)) ++ [item].
Proof.
  destruct groups as [|g groups]; [done|]. cbn [place_item].
  destruct (merges getenv g file line); cbn [rev]; rewrite !map_app, !concat_app; cbn; by rewrite ?app_nil_r, <- ?app_assoc.
Qed.
Lemma group_loop_items items : forall groups out, group_loop trunc getenv groups items = Ret out ->
  exists kept, List.concat (map group_items out) = List.concat (map group_items (rev groups)) ++ kept /\ kept `sublist_of` items.
Proof.
  induction items as [|i items IH]; intros groups out; cbn [group_loop].
  { intros <-%Ret_inj. exists []. by rewrite app_nil_r. }
  destruct (evidence_place trunc i) as [[[f n]|]| |e]; [| |done..]; cbn [mbind res_bind]; intros (kept & H1 & H2)%IH.
  - exists (i :: kept). split; [|by apply sublist_skip]. by rewrite H1, place_item_items, <- app_assoc.
  - exists kept. split; [done|by apply sublist_cons].
Qed.
Lemma json_size items : length (json_items items) = jsize items.
Proof. destruct items; try done. apply length_map. Qed.

(** The evidence, then the rest that is told how many items it showed: when
    that is all of them each has its row. *)
Lemma evidence_shows kind items next b b' : emit_source_evidence dump trunc getenv source_context kind items next b = Ret b' ->
  exists count b1, keeps b b1 /\ next count b1 = Ret b' /\
    ((count <? jsize items)%nat = false -> Forall (evidenced kind b1) (json_items items)).
Proof.
  intros (groups & Hg & Hr)%need_Ret. destruct (groups_show kind next groups 0 b b' Hr) as (dn & b1 & H1 & H2 & H3 & H4).
  eexists _, b1. split_and!; [done|exact H3|]. intros Hc%Nat.ltb_ge. rewrite <- json_size in Hc. cbn in Hc.
  destruct (group_loop_items _ [] groups Hg) as (kept & E & Hk). cbn in E. subst kept.
  assert (List.concat (map group_items dn) `sublist_of` json_items items) as Hs.
  { etransitivity; [|exact Hk]. clear -H1. induction H1; cbn; [done|by apply sublist_app|by apply sublist_inserts_l]. }
  assert (List.concat (map group_items dn) = json_items items) as <-.
  { apply sublist_full; [done|]. apply sublist_length in Hs. lia. }
  clear -H4. induction H4 as [|g dn Hg _ IH]; cbn; [done|]. by apply Forall_app.
Qed.

(** The item is a row of the evidence, or of the table that lists the items. *)
Definition listed (kind : SourceEvidenceKind) (n : nat) (plain : json -> res (list bytes)) (out : bytes) (item : json) : Prop :=
  exists b, out = str b /\
    (evidenced kind (flush_kv_block b) item \/ exists row, plain item = Ret row /\ row_shown n row (flush_kv_block b)).

Lemma listed_intro kind n plain b b' item : keeps b b' ->
  evidenced kind b item \/ (exists row, plain item = Ret row /\ row_shown n row b) ->
  listed kind n plain (str b') item.
Proof.
  intros Hk H. exists b'. split; [done|]. assert (keeps b (flush_kv_block b')) as Hf by (etransitivity; [done|apply flush_keeps]).
  destruct H as [H|(row & H1 & H2)]; [left; by eapply evidenced_keeps|right]. exists row. split; [done|]. by eapply row_shown_keeps.
Qed.

Lemma rendered_Ret f out : rendered f = Ret out -> exists b, f (new_builder (lit "xdebug")) = Ret b /\ out = str b.
Proof. unfold rendered. destruct (f _) as [b| |e]; [|done..]. intros <-%Ret_inj. eauto. Qed.
Lemma value_or_Some k (d : json) j v : jget k j = Some v -> value_or Ret k d j = Ret v.
Proof. unfold value_or, jget. destruct j; try done. cbn [Json.members]. by intros ->. Qed.

(** Evidence followed by a table of all items when some had none. *)
Lemma evidence_or_table kind columns name (plain : json -> res (list bytes)) items next b b' : columns <> [] ->
  (forall count b b', next count b = Ret b' -> exists b1, keeps b1 b' /\
    (if (count <? jsize items)%nat
     then need (map_res plain (json_items items)) (fun rows => seq (section name) (table columns rows)) else skip) b = Ret b1) ->
  emit_source_evidence dump trunc getenv source_context kind items next b = Ret b' ->
  forall item, item ∈ json_items items -> listed kind (length columns) plain (str b') item.
Proof.
  intros Hc Hn (count & b1 & H1 & (b2 & H3 & H2)%Hn & H4)%evidence_shows item Hi.
  destruct (count <? jsize items)%nat.
  - eapply listed_intro; [exact H3|]. right. by eapply rows_table.
  - apply Ret_inj in H2 as <-. eapply listed_intro; [exact H3|]. left. by apply (proj1 (list.Forall_forall _ _) (H4 eq_refl)).
Qed.
Lemma hops_table hops : is_array hops = true ->
  emit_hops dump hops = match json_items hops with
                        | [] => skip
                        | l => need (map_res (hop_row dump) l) (fun rows => seq (section (lit "hops")) (table hop_columns rows))
                        end.
Proof. destruct hops as [| | | | | |[]|]; done. Qed.

Lemma good_ambiguity a : good (emit_ambiguity dump a).
Proof. unfold emit_ambiguity. good. Qed.
Lemma good_limitations data next : good next -> good (emit_limitations dump data next).
Proof. intros Hn. unfold emit_limitations. apply good_need. intros l. destruct (json_empty l); [done|]. apply good_seq; [good|]. apply good_seq; [good|done]. Qed.

Lemma hops_or_skip hops c : is_array hops = true ->
  (when (c <? jsize hops)%nat (emit_hops dump hops)) =
  (if (c <? jsize hops)%nat
   then need (map_res (hop_row dump) (json_items hops)) (fun rows => seq (section (lit "hops")) (table hop_columns rows)) else skip).
Proof.
  intros Ha. rewrite (hops_table _ Ha). unfold when. destruct (_ <? _)%nat eqn:E; [|done]. apply Nat.ltb_lt in E.
  rewrite <- json_size in E. destruct (json_items hops); [cbn in E; lia|done].
Qed.

(** The chains to the origins of an X, and what follows. *)
Lemma chains_listed chains next b b' chain hops hop : good next ->
  emit_chains dump trunc getenv source_context chains next b = Ret b' -> chain ∈ json_items chains ->
  jget (lit "hops") chain = Some hops -> hop ∈ json_items hops -> listed EvXOrigin (length hop_columns) (hop_row dump) (str b') hop.
Proof.
  intros Hn. unfold emit_chains. destruct (json_empty chains) eqn:Ee.
  { intros _ Hc. destruct chains as [| | | | | |[]|[]]; try done; by apply elem_of_nil in Hc. }
  intros (rows & Hr & H)%need_Ret Hc Hh Hi. cbv zeta in H. set (all := JArray _) in H.
  apply seq_Ret in H as (b1 & _ & (b2 & _ & H)%seq_Ret).
  eapply (evidence_or_table EvXOrigin hop_columns); [done| |exact H|].
  - intros count b3 b4 (b5 & H5 & H6)%seq_Ret. rewrite hops_or_skip in H5 by done. exists b5. split; [|exact H5].
    eapply keeping_good; [|exact H6]. apply good_seq; [good|done].
  - destruct (map_res_elem _ _ _ Hr chain Hc) as (r & Hf & He). subst all. cbn [json_items]. apply list_elem_of_In, in_concat.
    exists (snd (fst r)). split; apply list_elem_of_In; [by apply (list_elem_of_fmap_2 (fun r => snd (fst r)))|].
    unfold chain_rows in Hf. destruct (chain_row dump chain); [|done..]. cbn [mbind res_bind] in Hf.
    unfold array_of in Hf. rewrite (value_or_Some _ _ _ _ Hh) in Hf. cbn [mbind res_bind] in Hf.
    destruct (json_of _ chain) as [o| |e]; [|done..]. cbn [mbind res_bind] in Hf.
    destruct (if is_object o then _ else _); [|done..]. apply Ret_inj in Hf as <-. done.
Qed.

(** Nothing a trace found is lost in its text. Every path of a response,
    every hop of a chain of drivers and every hop of a chain to the origin of
    an X is a row of the evidence below its source window or of the plain
    table, which is left out only when the windows showed every item;
    whatever source files can be read. *)
Theorem trace_evidence_shown response out :
  (forall action data paths path,
     rendered (render_source_paths_xout dump trunc getenv source_context action response) = Ret out ->
     jget (lit "data") response = Some data -> jget (lit "paths") data = Some paths -> path ∈ json_items paths ->
     listed EvPath 3 (path_row dump) out path) /\
  (forall data hops hop,
     rendered (render_active_driver_chain_xout dump trunc getenv source_context response) = Ret out ->
     jget (lit "data") response = Some data -> jget (lit "hops") data = Some hops -> is_array hops = true -> hop ∈ json_items hops ->
     listed EvActiveChain 11 (hop_row dump) out hop) /\
  (forall data chains chain hops hop,
     rendered (render_x_origin_xout dump trunc getenv source_context response) = Ret out ->
     jget (lit "data") response = Some data -> jget (lit "chains") data = Some chains -> chain ∈ json_items chains ->
     jget (lit "hops") chain = Some hops -> hop ∈ json_items hops ->
     listed EvXOrigin 11 (hop_row dump) out hop).
Proof.
  split_and!.
  - intros action data paths path (b & Hr & ->)%rendered_Ret Hd Hp Hi.
    apply seq_Ret in Hr as (b1 & _ & (b2 & _ & Hr)%seq_Ret). unfold object_of in Hr. rewrite (value_or_Some _ _ _ _ Hd) in Hr.
    apply need_Ret in Hr as (? & <-%Ret_inj & Hr). unfold array_of in Hr. rewrite (value_or_Some _ _ _ _ Hp) in Hr.
    apply need_Ret in Hr as (? & <-%Ret_inj & Hr). destruct (json_empty paths) eqn:Ee.
    { exfalso. destruct paths as [| | | | | |[]|[]]; try done; by apply elem_of_nil in Hi. }
    revert Hi. eapply (evidence_or_table EvPath [lit "signal_path"; lit "file"; lit "line"]); [done| |exact Hr].
    intros count b3 b4 H. exists b4. split; [reflexivity|exact H].
  - intros data hops hop (b & Hr & ->)%rendered_Ret Hd Hp Ha Hi.
    apply seq_Ret in Hr as (b1 & _ & (b2 & _ & Hr)%seq_Ret). unfold object_of in Hr. rewrite (value_or_Some _ _ _ _ Hd) in Hr.
    apply need_Ret in Hr as (? & <-%Ret_inj & Hr). unfold array_of in Hr. rewrite (value_or_Some _ _ _ _ Hp) in Hr.
    apply need_Ret in Hr as (? & <-%Ret_inj & Hr).
    revert Hi. eapply (evidence_or_table EvActiveChain hop_columns); [done| |exact Hr].
    intros count b3 b4 (b5 & H5 & H6)%seq_Ret. rewrite hops_or_skip in H5 by done. exists b5. split; [|exact H5].
    apply need_Ret in H6 as (? & _ & H6). by apply good_ambiguity in H6.
  - intros data chains chain hops hop (b & Hr & ->)%rendered_Ret Hd Hp Hc Hh Hi.
    apply seq_Ret in Hr as (b1 & _ & (b2 & _ & Hr)%seq_Ret). unfold object_of in Hr. rewrite (value_or_Some _ _ _ _ Hd) in Hr.
    apply need_Ret in Hr as (? & <-%Ret_inj & Hr). apply need_Ret in Hr as (? & _ & (b3 & _ & Hr)%seq_Ret).
    unfold array_of in Hr. rewrite (value_or_Some _ _ _ _ Hp) in Hr. apply need_Ret in Hr as (? & <-%Ret_inj & Hr).
    eapply chains_listed; [|exact Hr|exact Hc|exact Hh|exact Hi]. apply good_limitations, good_skip.
Qed.
End Evidence.

(** ** The fields of a stream *)

Section Fields.
Context (dump : json -> bytes) (trunc : bytes -> Z).

Lemma add_names_spec m : forall names k, is_Some (mget k names) \/ is_Some (mget k m) -> is_Some (mget k (add_names names m)).
Proof.
  induction m as [|[x v] m IH]; intros names k Hk; [by destruct Hk as [H|[? [=]]]|]. cbn [add_names foldl]. apply IH.
  destruct (decide (k = x)) as [->|Hne]; [left; by rewrite mget_mset_eq|]. rewrite mget_mset_ne by done.
  destruct Hk as [H|H]; [by left|right]. cbn [mget fst snd] in H. by rewrite (proj2 (eqs_false k x)) in H || by rewrite (proj2 (eqs_false x k)) in H.
Qed.
Lemma collect_names_spec member rows : forall names out, collect_names member names rows = Ret out -> forall k,
  is_Some (mget k names) \/ (exists r fs, r ∈ rows /\ jget member r = Some fs /\ is_Some (jget k fs)) -> is_Some (mget k out).
Proof.
  induction rows as [|r rows IH]; intros names out; cbn [collect_names].
  { intros <-%Ret_inj k [H|(r & fs & H%elem_of_nil & _)]; done. }
  destruct (object_of member r) as [fs| |e] eqn:Ef; [|done..]. cbn [mbind res_bind]. intros Hr k Hk. apply (IH _ _ Hr).
  destruct Hk as [H|(r' & fs' & Hin & Hg & Hs)]; [left; apply add_names_spec; by left|].
  apply elem_of_cons in Hin as [->|Hin]; [left|right; by exists r', fs']. apply add_names_spec. right.
  unfold object_of in Ef. rewrite (value_or_Some _ _ _ _ Hg) in Ef. by apply Ret_inj in Ef as <-.
Qed.
(** Every field of every record is among the names. *)
Lemma field_names_spec rows member names record fs k : field_names rows member = Ret names -> record ∈ rows ->
  jget member record = Some fs -> is_Some (jget k fs) -> k ∈ names.
Proof.
  unfold field_names. destruct (collect_names member [] rows) as [m| |e] eqn:E; [|done..]. intros <-%Ret_inj Hr Hg Hk.
  destruct (collect_names_spec member rows [] m E k) as [u Hu]; [right; by exists record, fs|].
  apply mget_elem in Hu. by apply (list_elem_of_fmap_2 fst) in Hu.
Qed.

Lemma cells_lookup l row : cells l = Ret row -> length row = length l /\ forall i c, l !! i = Some c -> exists v, c = Ret v /\ row !! i = Some v.
Proof.
  revert row. induction l as [|c l IH]; intros row; unfold cells; cbn [map_res]; [by intros <-%Ret_inj|].
  destruct c as [v| |e]; cbn [id mbind res_bind]; [|done..]. fold (cells l). destruct (cells l) as [vs| |e]; [|done..].
  intros <-%Ret_inj. destruct (IH vs eq_refl) as [H1 H2]. split; [cbn; by rewrite H1|]. intros [|i] c; [|apply H2].
  intros [= <-]. by exists v.
Qed.

(** The text of the cycles, transfers or stalls of a stream is one table
    that has a row for each record with a cell for each column, and every
    field of every record has a column of its name whose cell shows it. *)
Theorem stream_fields_shown name r records b b' :
  is_packet r = false -> emit_stream_records dump trunc name (JArray (r :: records)) b = Ret b' ->
  exists columns rows b1, table columns rows b1 = Ret b' /\ length rows = length (r :: records) /\
    Forall (fun row => length row = length columns) rows /\
    forall n record fs k v, (r :: records) !! n = Some record -> jget (lit "fields") record = Some fs -> jget k fs = Some v ->
      exists row i shown, rows !! n = Some row /\ columns !! i = Some k /\ json_to_xout_value dump v = Ret shown /\ row !! i = Some shown.
Proof.
  intros Hp. cbn [emit_stream_records]. rewrite Hp. unfold emit_samples.
  intros (fields & Hf & (stable & Hs & H)%need_Ret)%need_Ret. cbv zeta in H. apply need_Ret in H as (rows & Hr & (b1 & _ & H)%seq_Ret).
  pose proof (map_res_Forall2 _ _ _ Hr) as Hall. eexists _, rows, b1. split_and!; [exact H|by symmetry; eapply Forall2_length| |].
  - apply list.Forall_forall. intros row Hin. apply list_elem_of_lookup_1 in Hin as [n Hn].
    destruct (Forall2_lookup_r _ _ _ _ _ Hall Hn) as (record & _ & Hc). apply cells_lookup in Hc as [-> _].
    rewrite !length_app, !length_map, !length_app. lia.
  - intros n record fs k v Hn Hg Hk. destruct (Forall2_lookup_l _ _ _ _ _ Hall Hn) as (row & Hrow & Hc).
    assert (k ∈ fields) as Hin.
    { eapply (field_names_spec (r :: records)); [exact Hf|by eapply list_elem_of_lookup_2|exact Hg|by rewrite Hk]. }
    apply list_elem_of_lookup_1 in Hin as [j Hj]. apply cells_lookup in Hc as [_ Hc].
    set (keys := sample_keys ++ optional (any_contains (lit "packet_index") (r :: records)) (lit "packet_index") ++
      optional (any_contains (lit "channel_id") (r :: records)) (lit "channel_id")) in *.
    destruct (Hc (length keys + j)%nat (field_value dump record (lit "fields") k)) as (shown & Hv & Hi).
    { rewrite lookup_app_r by (rewrite length_map; lia). rewrite length_map, Nat.add_comm, Nat.add_sub.
      rewrite lookup_app_l by (rewrite length_map; by eapply lookup_lt_Some). by rewrite list_lookup_fmap, Hj. }
    exists row, (length keys + j)%nat, shown. split_and!; [done| | |done].
    + rewrite (app_assoc sample_keys), (app_assoc (sample_keys ++ _)), <- (app_assoc sample_keys). fold keys. rewrite lookup_app_r by lia. rewrite Nat.add_comm, Nat.add_sub.
      by rewrite lookup_app_l by (by eapply lookup_lt_Some).
    + unfold field_value, object_of in Hv. rewrite (value_or_Some _ _ _ _ Hg) in Hv. cbn [mbind res_bind] in Hv. by rewrite Hk in Hv.
Qed.
End Fields.

(** ** Examples *)

Definition demo_item (file : bytes) (line : Z) : json :=
  jobj [(lit "file", JString file); (lit "line", JInt line); (lit "signal_path", JArray [JString (lit "top.a"); JString (lit "top.b")])].
Definition demo_paths : json :=
  JArray [demo_item (lit "a.v") 3; demo_item (lit "a.v") 5; demo_item (lit "b.v") 5; demo_item (lit "<unknown>") 1].
(** Only [a.v] can be read. *)
Definition demo_context (file : bytes) (first last : Z) : res json :=
  Ret (if eqs file (lit "a.v") then JArray [jobj [(lit "line", JInt first); (lit "text", JString (lit "assign a = b;"))]] else JArray []).

Lemma demo_windows :
  source_evidence_groups (fun _ => 0) (fun _ => None) demo_paths =
    Ret [MkEvidence (lit "a.v") 3 5 5 {[5; 3]} [demo_item (lit "a.v") 3; demo_item (lit "a.v") 5];
         MkEvidence (lit "b.v") 5 5 5 {[5]} [demo_item (lit "b.v") 5]].
Proof. vm_compute. reflexivity. Qed.

Definition demo_trace : json := jobj [(lit "data", jobj [(lit "paths", demo_paths)])].
Lemma trace_evidence_shown_witness : exists out,
  rendered (render_source_paths_xout (fun _ => []) (fun _ => 0) (fun _ => None) demo_context (lit "trace.driver") demo_trace) = Ret out /\
  listed (fun _ => []) EvPath 3 (path_row (fun _ => [])) out (demo_item (lit "b.v") 5).
Proof.
  destruct (rendered (render_source_paths_xout (fun _ => []) (fun _ => 0) (fun _ => None) demo_context (lit "trace.driver") demo_trace))
    as [out| |e] eqn:E; [|by vm_compute in E..].
  exists out. split; [done|].
  apply (proj1 (trace_evidence_shown (fun _ => []) (fun _ => 0) (fun _ => None) demo_context demo_trace out) _ _ _ _ E eq_refl eq_refl).
  right. right. left.
Defined.

Definition demo_record (cycle : Z) (field : bytes) : json :=
  jobj [(lit "cycle", JInt cycle); (lit "time", JString (lit "1ns")); (lit "fields", jobj [(field, JString (lit "'h1"))])].
Lemma stream_fields_shown_witness : exists b' columns rows b1 row i shown,
  emit_stream_records (fun _ => []) (fun _ => 0) (lit "rows") (JArray [demo_record 1 (lit "id"); demo_record 2 (lit "len")])
    (new_builder (lit "xdebug")) = Ret b' /\ table columns rows b1 = Ret b' /\
  rows !! 1%nat = Some row /\ columns !! i = Some (lit "len") /\ row !! i = Some shown.
Proof.
  destruct (emit_stream_records (fun _ => []) (fun _ => 0) (lit "rows") (JArray [demo_record 1 (lit "id"); demo_record 2 (lit "len")])
    (new_builder (lit "xdebug"))) as [b'| |e] eqn:E; [|by vm_compute in E..].
  destruct (stream_fields_shown (fun _ => []) (fun _ => 0) (lit "rows") (demo_record 1 (lit "id")) [demo_record 2 (lit "len")]
    (new_builder (lit "xdebug")) b' eq_refl E) as (columns & rows & b1 & H1 & _ & _ & H2).
  destruct (H2 1%nat (demo_record 2 (lit "len")) _ (lit "len") _ eq_refl eq_refl eq_refl) as (row & i & shown & H3 & H4 & _ & H5).
  by exists b', columns, rows, b1, row, i, shown.
Defined.
