(* ===== verification/Axi.v ===== *)
(** * Axi: AXI transactions of a waveform

    Models the first part of [src/engine/actions/protocol/axi_actions.cpp]: the
    configuration of a bus, the handshakes of its five channels at the clock
    edges, and the transactions they make. The environment is an argument,
    [std::sort] the interface of Sorting.v. *)

From S2P Require Import Prelude CLib Json LogicValue Waveform ClockSampling SessionTypes Sorting Engine Apb.

Open Scope Z_scope.

(** ** Configurations *)

Record AxiSignalMap := MkAxiSignalMap {
  sm_name : bytes; aclk : bytes; aresetn : bytes; sm_reset_polarity : bytes;
  sm_edge : bytes; sm_sample_point : bytes;
  awid : bytes; awaddr : bytes; awlen : bytes; awsize : bytes; awburst : bytes; awvalid : bytes; awready : bytes;
  wdata : bytes; wstrb : bytes; wlast : bytes; wvalid : bytes; wready : bytes;
  bid : bytes; bresp : bytes; bvalid : bytes; bready : bytes;
  arid : bytes; araddr : bytes; arlen : bytes; arsize : bytes; arburst : bytes; arvalid : bytes; arready : bytes;
  rid : bytes; rdata : bytes; rresp : bytes; rlast : bytes; rvalid : bytes; rready : bytes;
}.

Definition strings (l : list (bytes * bytes)) : json := jobj (map (fun kv => (fst kv, JString (snd kv))) l).

Definition axi_signal_map_json (m : AxiSignalMap) : json :=
  set_nonempty (lit "sample_point") (sm_sample_point m)
    (jobj [(lit "name", JString (sm_name m)); (lit "sampling_mode", JString (lit "clock_edge"));
           (lit "clock", JString (aclk m));
           (lit "reset", strings [(lit "signal", aresetn m); (lit "polarity", sm_reset_polarity m)]);
           (lit "edge", JString (sm_edge m));
           (lit "channels", jobj [
              (lit "aw", strings [(lit "addr", awaddr m); (lit "id", awid m); (lit "len", awlen m); (lit "size", awsize m);
                                  (lit "burst", awburst m); (lit "valid", awvalid m); (lit "ready", awready m)]);
              (lit "w", strings [(lit "data", wdata m); (lit "strb", wstrb m); (lit "last", wlast m);
                                 (lit "valid", wvalid m); (lit "ready", wready m)]);
              (lit "b", strings [(lit "id", bid m); (lit "resp", bresp m); (lit "valid", bvalid m); (lit "ready", bready m)]);
              (lit "ar", strings [(lit "addr", araddr m); (lit "id", arid m); (lit "len", arlen m); (lit "size", arsize m);
                                  (lit "burst", arburst m); (lit "valid", arvalid m); (lit "ready", arready m)]);
              (lit "r", strings [(lit "id", rid m); (lit "data", rdata m); (lit "resp", rresp m); (lit "last", rlast m);
                                 (lit "valid", rvalid m); (lit "ready", rready m)])])]).

(** [inl] is the message. *)
Definition parse_axi_signal_map (name : bytes) (j : json) : res (bytes + AxiSignalMap) :=
  let set k := string_at_key k j in
  aclk ← set (lit "clock");
  reset ← at_key (lit "reset") j;
  aresetn ← string_at_key (lit "signal") reset;
  polarity ← string_at_key (lit "polarity") reset;
  edge ← value_or as_string (lit "edge") (lit "negedge") j;
  sample_point ← value_or as_string (lit "sample_point") [] j;
  awid ← set (lit "awid"); awaddr ← set (lit "awaddr"); awlen ← set (lit "awlen");
  awsize ← set (lit "awsize"); awburst ← set (lit "awburst");
  awvalid ← set (lit "awvalid"); awready ← set (lit "awready");
  wdata ← set (lit "wdata"); wstrb ← set (lit "wstrb"); wlast ← set (lit "wlast");
  wvalid ← set (lit "wvalid"); wready ← set (lit "wready");
  bid ← set (lit "bid"); bresp ← set (lit "bresp");
  bvalid ← set (lit "bvalid"); bready ← set (lit "bready");
  arid ← set (lit "arid"); araddr ← set (lit "araddr"); arlen ← set (lit "arlen");
  arsize ← set (lit "arsize"); arburst ← set (lit "arburst");
  arvalid ← set (lit "arvalid"); arready ← set (lit "arready");
  rid ← set (lit "rid"); rdata ← set (lit "rdata"); rresp ← set (lit "rresp");
  rlast ← set (lit "rlast"); rvalid ← set (lit "rvalid"); rready ← set (lit "rready");
  if eqs edge (lit "negedge") && negb (eqs sample_point [])
  then Ret (inl (lit "negedge AXI config must omit sample_point"))
  else
    let sample_point := if negb (eqs edge (lit "negedge")) && eqs sample_point [] then lit "before" else sample_point in
    Ret (inr (MkAxiSignalMap name aclk aresetn polarity edge sample_point
      awid awaddr awlen awsize awburst awvalid awready wdata wstrb wlast wvalid wready bid bresp bvalid bready
      arid araddr arlen arsize arburst arvalid arready rid rdata rresp rlast rvalid rready)).

Definition axi_config_entries (s : AxiSignalMap) : list (bytes * bytes) :=
  [(lit "clock", aclk s); (lit "reset", aresetn s);
   (lit "awid", awid s); (lit "awaddr", awaddr s); (lit "awlen", awlen s); (lit "awsize", awsize s); (lit "awburst", awburst s);
   (lit "awvalid", awvalid s); (lit "awready", awready s);
   (lit "wdata", wdata s); (lit "wstrb", wstrb s); (lit "wlast", wlast s); (lit "wvalid", wvalid s); (lit "wready", wready s);
   (lit "bid", bid s); (lit "bresp", bresp s); (lit "bvalid", bvalid s); (lit "bready", bready s);
   (lit "arid", arid s); (lit "araddr", araddr s); (lit "arlen", arlen s); (lit "arsize", arsize s); (lit "arburst", arburst s);
   (lit "arvalid", arvalid s); (lit "arready", arready s);
   (lit "rid", rid s); (lit "rdata", rdata s); (lit "rresp", rresp s); (lit "rlast", rlast s);
   (lit "rvalid", rvalid s); (lit "rready", rready s)].

Definition axi_point (c : AxiSignalMap) : ObservationPoint :=
  if eqs (sm_edge c) (lit "negedge") then Raw
  else if eqs (sm_sample_point c) (lit "after") then After else Before.

(** ** Handshakes and transactions *)

Record AxiHandshakeEvent := MkEvent {
  ev_channel : bytes;
  ev_time : Z;
  ev_time_idx : Z;
  ev_valid_begin_time : Z;
  ev_kind : bytes;
  ev_id : bytes;
  ev_addr : bytes;
  ev_len : bytes;
  ev_size : bytes;
  ev_burst : bytes;
  ev_data : bytes;
  ev_strb : bytes;
  ev_resp : bytes;
  ev_last : bool;
}.
Definition new_event (channel : bytes) (time ti valid_begin : Z) : AxiHandshakeEvent :=
  MkEvent channel time ti valid_begin (lit "handshake") [] [] [] [] [] [] [] [] false.

Record AxiTransaction := MkAxiTransaction {
  tx_index : Z;
  tx_is_write : bool;
  tx_id : bytes;
  tx_address : bytes;
  tx_length : bytes;
  tx_size : bytes;
  tx_burst : bytes;
  tx_start_time : Z;
  tx_start_time_idx : Z;
  tx_address_valid_begin_time : Z;
  tx_end_time : Z;
  tx_end_time_idx : Z;
  tx_complete : bool;
  tx_data_beats : list bytes;
  tx_data_events : list AxiHandshakeEvent;
  tx_resp : bytes;
}.
Definition set_index (index : Z) (t : AxiTransaction) : AxiTransaction :=
  MkAxiTransaction index (tx_is_write t) (tx_id t) (tx_address t) (tx_length t) (tx_size t) (tx_burst t) (tx_start_time t)
    (tx_start_time_idx t) (tx_address_valid_begin_time t) (tx_end_time t) (tx_end_time_idx t) (tx_complete t)
    (tx_data_beats t) (tx_data_events t) (tx_resp t).
Definition numbered (l : list AxiTransaction) : list AxiTransaction := imap (fun i => set_index (Z.of_nat i)) l.

(** ** Bits *)

Definition unknown_bit (b : ascii) : bool := eqc b "x"%char || eqc b "X"%char || eqc b "z"%char || eqc b "Z"%char.
Fixpoint high_bits (one : bool) (bits : bytes) : bool :=
  match bits with
  | [] => one
  | b :: bits' => if unknown_bit b then false else high_bits (if eqc b "1"%char then true else one) bits'
  end.
Definition known_high (bits : bytes) : bool := match bits with [] => false | _ => high_bits false bits end.
Definition known_binary (bits : bytes) : bool :=
  match bits with [] => false | _ => forallb (fun b => eqc b "0"%char || eqc b "1"%char) bits end.
(** [!lv.empty() && lv.back() == '1'] *)
Definition back_one (bits : bytes) : bool := match list.last bits with Some b => eqc b "1"%char | None => false end.

Section Scan.
Context {W : Type} `{EngineWave W}.

(** The settled value with its delta changes left out. *)
Definition read_raw_at (w : W) (ref ti : Z) : bytes :=
  if ref =? 0 then lit "0"
  else match ew_signal_offset_at w ref ti with
       | None => lit "0"
       | Some off => ew_signal_value_str w ref (so_start off) 0
       end.
Definition read_signal_at (w : W) (ref ti : Z) (point : ObservationPoint) : bytes :=
  if ref =? 0 then lit "x"
  else match sb_sampled_value_at w ref ti point with
       | Some sampled => if bool_decide (kind (sv_value sampled) = BitVector) then text (sv_value sampled) else lit "x"
       | None => lit "x"
       end.

Definition axi_edge (edge : bytes) (rising falling : bool) : bool :=
  (eqs edge (lit "dual") && (rising || falling)) || (eqs edge (lit "posedge") && rising)
  || (eqs edge (lit "negedge") && falling).
Definition clock_edge_at (w : W) (c : AxiSignalMap) (ref begin end_ ti : Z) : bool :=
  let time := sb_time_at w ti in
  if (time <? begin) || (end_ <? time) then false
  else
    let before := read_signal_at w ref ti Before in
    let raw := read_signal_at w ref ti Raw in
    axi_edge (sm_edge c) (is_rising_edge before raw) (is_falling_edge before raw).
Fixpoint edge_indices (w : W) (c : AxiSignalMap) (ref begin end_ previous : Z) (indices : list Z) : list Z :=
  match indices with
  | [] => []
  | ti :: indices' =>
      if ti =? previous then edge_indices w c ref begin end_ previous indices'
      else
        let rest := edge_indices w c ref begin end_ ti indices' in
        if clock_edge_at w c ref begin end_ ti then ti :: rest else rest
  end.
Definition selected_clock_edges (c : AxiSignalMap) (begin end_ : Z) (w : W) : list Z * W :=
  let '(ref, w) := ew_find_signal w (aclk c) in
  if ref =? 0 then ([], w)
  else
    let w := if ew_is_loaded w ref then w else snd (ew_load_signals w [ref]) in
    (edge_indices w c ref begin end_ u32_max (sb_time_indices_of w ref), w).

(** The events of a channel, and whether every sample was known. *)
Fixpoint channel_events (w : W) (ref_valid ref_ready : Z) (channel : bytes) (point : ObservationPoint)
    (valid_active : bool) (valid_begin : Z) (edges : list Z) : list AxiHandshakeEvent * bool :=
  match edges with
  | [] => ([], true)
  | ti :: edges' =>
      let time := sb_time_at w ti in
      let valid := read_signal_at w ref_valid ti point in
      let ready := read_signal_at w ref_ready ti point in
      if negb (known_binary valid) || negb (known_binary ready)
      then (fst (channel_events w ref_valid ref_ready channel point valid_active valid_begin edges'), false)
      else
        let begin := if known_high valid && negb valid_active then time else valid_begin in
        if known_high valid && known_high ready then
          let '(events, known) := channel_events w ref_valid ref_ready channel point false begin edges' in
          (new_event channel time ti begin :: events, known)
        else channel_events w ref_valid ref_ready channel point (known_high valid) begin edges'
  end.
Definition scan_channel_handshakes (w : W) (refs : Z * Z) (channel : bytes) (c : AxiSignalMap) (active_edges : list Z) :
    list AxiHandshakeEvent * bool :=
  if (fst refs =? 0) || (snd refs =? 0) then ([], true)
  else channel_events w (fst refs) (snd refs) channel (axi_point c) false 0 active_edges.

(** *** Payloads *)

(** [find_signal] of each name. *)
Fixpoint find_all (names : list bytes) (w : W) : list Z * W :=
  match names with
  | [] => ([], w)
  | name :: names' =>
      let '(ref, w) := ew_find_signal w name in
      let '(refs, w) := find_all names' w in (ref :: refs, w)
  end.
(** Look the signals up; unless the first is missing load them and complete
    every event. *)
Definition augment (names : list bytes) (complete : (nat -> Z -> bytes) -> (nat -> Z) -> AxiHandshakeEvent -> AxiHandshakeEvent)
    (c : AxiSignalMap) (events : list AxiHandshakeEvent) (w : W) : list AxiHandshakeEvent * W :=
  let '(refs, w) := find_all names w in
  let ref i := nth i refs 0 in
  if ref 0%nat =? 0 then (events, w)
  else
    let w := snd (ew_load_signals w refs) in
    (map (complete (fun i ti => read_signal_at w (ref i) ti (axi_point c)) ref) events, w).

Definition address_event (read : nat -> Z -> bytes) (ref : nat -> Z) (ev : AxiHandshakeEvent) : AxiHandshakeEvent :=
  let ti := ev_time_idx ev in
  MkEvent (ev_channel ev) (ev_time ev) ti (ev_valid_begin_time ev) (ev_kind ev) (read 0%nat ti) (read 1%nat ti) (read 2%nat ti)
    (read 3%nat ti) (read 4%nat ti) (ev_data ev) (ev_strb ev) (ev_resp ev) (ev_last ev).
Definition augment_aw_events (c : AxiSignalMap) : list AxiHandshakeEvent -> W -> list AxiHandshakeEvent * W :=
  augment [awid c; awaddr c; awlen c; awsize c; awburst c] address_event c.
Definition augment_ar_events (c : AxiSignalMap) : list AxiHandshakeEvent -> W -> list AxiHandshakeEvent * W :=
  augment [arid c; araddr c; arlen c; arsize c; arburst c] address_event c.

Definition write_event (read : nat -> Z -> bytes) (ref : nat -> Z) (ev : AxiHandshakeEvent) : AxiHandshakeEvent :=
  let ti := ev_time_idx ev in
  MkEvent (ev_channel ev) (ev_time ev) ti (ev_valid_begin_time ev) (ev_kind ev) (ev_id ev) (ev_addr ev) (ev_len ev)
    (ev_size ev) (ev_burst ev) (read 0%nat ti) (read 2%nat ti) (ev_resp ev)
    (if ref 1%nat =? 0 then ev_last ev else back_one (read 1%nat ti)).
Definition augment_w_events (c : AxiSignalMap) : list AxiHandshakeEvent -> W -> list AxiHandshakeEvent * W :=
  augment [wdata c; wlast c; wstrb c] write_event c.

Definition response_event (read : nat -> Z -> bytes) (ref : nat -> Z) (ev : AxiHandshakeEvent) : AxiHandshakeEvent :=
  let ti := ev_time_idx ev in
  MkEvent (ev_channel ev) (ev_time ev) ti (ev_valid_begin_time ev) (ev_kind ev) (read 0%nat ti) (ev_addr ev) (ev_len ev)
    (ev_size ev) (ev_burst ev) (ev_data ev) (ev_strb ev) (read 1%nat ti) (ev_last ev).
Definition augment_b_events (c : AxiSignalMap) : list AxiHandshakeEvent -> W -> list AxiHandshakeEvent * W :=
  augment [bid c; bresp c] response_event c.

Definition read_event (read : nat -> Z -> bytes) (ref : nat -> Z) (ev : AxiHandshakeEvent) : AxiHandshakeEvent :=
  let ti := ev_time_idx ev in
  MkEvent (ev_channel ev) (ev_time ev) ti (ev_valid_begin_time ev) (ev_kind ev) (read 0%nat ti) (ev_addr ev) (ev_len ev)
    (ev_size ev) (ev_burst ev) (read 1%nat ti) (ev_strb ev) (read 3%nat ti)
    (if ref 2%nat =? 0 then ev_last ev else back_one (read 2%nat ti)).
Definition augment_r_events (c : AxiSignalMap) : list AxiHandshakeEvent -> W -> list AxiHandshakeEvent * W :=
  augment [rid c; rdata c; rlast c; rresp c] read_event c.
End Scan.

(** ** Assembling transactions *)

Section Assemble.
Context `{StdSort}.
Implicit Types (events : list AxiHandshakeEvent).

Record PendingWrite := MkPendingWrite {
  pw_aw_idx : nat;
  pw_data_beats : list bytes;
  pw_data_events : list AxiHandshakeEvent;
}.
(** A write with the data of a burst. *)
Definition write_of (index : nat) events : PendingWrite := MkPendingWrite index (map ev_data events) events.

(** [events[index]], the index always one of the list. *)
Definition event_at events (index : nat) : AxiHandshakeEvent := default (new_event [] 0 0 0) (events !! index).

(** The bursts that end with WLAST, and the beats of the one that does not. *)
Fixpoint split_bursts (current : list AxiHandshakeEvent) events : list (list AxiHandshakeEvent) * list AxiHandshakeEvent :=
  match events with
  | [] => ([], current)
  | e :: events' =>
      if ev_last e then
        let '(bursts, rest) := split_bursts [] events' in ((current ++ [e]) :: bursts, rest)
      else split_bursts (current ++ [e]) events'
  end.

(** Queues by ID. *)
Definition push_queue {A} (id : bytes) (x : A) (queues : list (bytes * list A)) : list (bytes * list A) :=
  mset id (default [] (mget id queues) ++ [x]) queues.
Fixpoint pair_bursts (aw_events : list AxiHandshakeEvent) (index : nat) (bursts : list (list AxiHandshakeEvent))
    (queues : list (bytes * list PendingWrite)) : list (bytes * list PendingWrite) :=
  match bursts with
  | [] => queues
  | burst :: bursts' =>
      if (index <? length aw_events)%nat
      then pair_bursts aw_events (S index) bursts' (push_queue (ev_id (event_at aw_events index)) (write_of index burst) queues)
      else queues
  end.

(** The writes without a whole burst; the first gets the beats that are left. *)
Definition pending_writes (aw_count paired : nat) (rest : list AxiHandshakeEvent) : list PendingWrite :=
  match List.seq paired (aw_count - paired) with
  | [] => []
  | first :: others =>
      (match rest with [] => MkPendingWrite first [] [] | _ => write_of first rest end)
      :: map (fun i => MkPendingWrite i [] []) others
  end.

Definition write_transaction (aw_events : list AxiHandshakeEvent) (pw : PendingWrite) (response : option AxiHandshakeEvent) :
    AxiTransaction :=
  let aw := event_at aw_events (pw_aw_idx pw) in
  match response with
  | Some b =>
      MkAxiTransaction 0 true (ev_id b) (ev_addr aw) (ev_len aw) (ev_size aw) (ev_burst aw) (ev_time aw) (ev_time_idx aw)
        (ev_valid_begin_time aw) (ev_time b) (ev_time_idx b) true (pw_data_beats pw) (pw_data_events pw) (ev_resp b)
  | None =>
      MkAxiTransaction 0 true (ev_id aw) (ev_addr aw) (ev_len aw) (ev_size aw) (ev_burst aw) (ev_time aw) (ev_time_idx aw)
        (ev_valid_begin_time aw) 0 0 false (pw_data_beats pw) (pw_data_events pw) []
  end.
Definition orphan_response (b : AxiHandshakeEvent) : AxiTransaction :=
  MkAxiTransaction 0 true (ev_id b) [] [] [] [] (ev_time b) (ev_time_idx b) 0 (ev_time b) (ev_time_idx b) false [] [] [].

(** The completed writes, the queues that are left and the orphan responses. *)
Fixpoint match_responses (aw_events b_events : list AxiHandshakeEvent) (queues : list (bytes * list PendingWrite)) :
    list AxiTransaction * list (bytes * list PendingWrite) * list AxiHandshakeEvent :=
  match b_events with
  | [] => ([], queues, [])
  | b :: b_events' =>
      match mget (ev_id b) queues with
      | Some (pw :: more) =>
          let '(done, queued, orphans) := match_responses aw_events b_events' (mset (ev_id b) more queues) in
          (write_transaction aw_events pw (Some b) :: done, queued, orphans)
      | _ =>
          let '(done, queued, orphans) := match_responses aw_events b_events' queues in
          (done, queued, b :: orphans)
      end
  end.

Definition assemble_writes (aw_events w_events b_events : list AxiHandshakeEvent) : list AxiTransaction :=
  let '(bursts, rest) := split_bursts [] w_events in
  let paired := Nat.min (length aw_events) (length bursts) in
  let queues := pair_bursts aw_events 0 bursts [] in
  let '(done, queued, orphans) := match_responses aw_events b_events queues in
  done
  ++ map (fun pw => write_transaction aw_events pw None) (List.concat (map snd queued))
  ++ map (fun pw => write_transaction aw_events pw None) (pending_writes (length aw_events) paired rest)
  ++ map orphan_response orphans.

(** *** Reads *)

Inductive REKind := REAR | RER.
Record REvent := MkREvent { re_time : Z; re_kind : REKind; re_idx : nat }.

Record PendingRead := MkPendingRead {
  pr_ar_idx : nat;
  pr_data_beats : list bytes;
  pr_data_events : list AxiHandshakeEvent;
}.
Definition add_read_beat (r : AxiHandshakeEvent) (pr : PendingRead) : PendingRead :=
  MkPendingRead (pr_ar_idx pr) (pr_data_beats pr ++ [ev_data r]) (pr_data_events pr ++ [r]).

(** The beat with RLAST completes the read. *)
Definition read_transaction (ar_events : list AxiHandshakeEvent) (pr : PendingRead) (last : option AxiHandshakeEvent) :
    AxiTransaction :=
  let ar := event_at ar_events (pr_ar_idx pr) in
  match last with
  | Some r =>
      MkAxiTransaction 0 false (ev_id ar) (ev_addr ar) (ev_len ar) (ev_size ar) (ev_burst ar) (ev_time ar) (ev_time_idx ar)
        (ev_valid_begin_time ar) (ev_time r) (ev_time_idx r) true (pr_data_beats pr) (pr_data_events pr) (ev_resp r)
  | None =>
      MkAxiTransaction 0 false (ev_id ar) (ev_addr ar) (ev_len ar) (ev_size ar) (ev_burst ar) (ev_time ar) (ev_time_idx ar)
        (ev_valid_begin_time ar) 0 0 false (pr_data_beats pr) (pr_data_events pr) []
  end.

(** The queues by ID and the completed reads. *)
Definition ReadState : Type := list (bytes * list PendingRead) * list AxiTransaction.
Definition read_step (ar_events r_events : list AxiHandshakeEvent) (st : ReadState) (re : REvent) : ReadState :=
  let '(queues, done) := st in
  match re_kind re with
  | REAR => (push_queue (ev_id (event_at ar_events (re_idx re))) (MkPendingRead (re_idx re) [] []) queues, done)
  | RER =>
      let r := event_at r_events (re_idx re) in
      match mget (ev_id r) queues with
      | Some (pr :: more) =>
          let pr := add_read_beat r pr in
          if ev_last r
          then (mset (ev_id r) more queues, done ++ [read_transaction ar_events pr (Some r)])
          else (mset (ev_id r) (pr :: more) queues, done)
      | _ => st
      end
  end.

Definition read_events (ar_events r_events : list AxiHandshakeEvent) : list REvent :=
  imap (fun i e => MkREvent (ev_time e) REAR i) ar_events ++ imap (fun i e => MkREvent (ev_time e) RER i) r_events.
Definition assemble_reads (ar_events r_events : list AxiHandshakeEvent) : list AxiTransaction :=
  let '(queues, done) := foldl (read_step ar_events r_events) ([], []) (std_sort re_time (read_events ar_events r_events)) in
  done ++ map (fun pr => read_transaction ar_events pr None) (List.concat (map snd queues)).

Definition assemble_axi_transactions (aw_events w_events b_events ar_events r_events : list AxiHandshakeEvent) :
    list AxiTransaction :=
  numbered (assemble_writes aw_events w_events b_events ++ assemble_reads ar_events r_events).
End Assemble.

(** ** The scan *)

Record AxiScanResult := MkAxiScanResult {
  aw_events : list AxiHandshakeEvent;
  w_events : list AxiHandshakeEvent;
  b_events : list AxiHandshakeEvent;
  ar_events : list AxiHandshakeEvent;
  r_events : list AxiHandshakeEvent;
  axi_transactions : list AxiTransaction;
  (** The valid and ready signals of the channels aw, w, b, ar and r. *)
  channel_refs : list (Z * Z);
  scan_complete : bool;
}.

(** [std::stoull], 0 when it throws. *)
Definition stoull_or_zero (raw : bytes) : Z :=
  let '(value, rest, erange) := strtoull 10 raw in
  if erange || (length rest =? length raw)%nat then 0 else value.
(** The error of a memory limit under 1024 bytes. *)
Definition axi_budget_error (getenv : bytes -> option bytes) (c : AxiSignalMap) : option json :=
  match getenv (lit "XDEBUG_ANALYSIS_CACHE_HARD_MAX_BYTES") with
  | None => None
  | Some raw =>
      let hard_limit := stoull_or_zero raw in
      if (0 <? hard_limit) && (hard_limit <? 1024) then
        let material := sm_name c ++ newline :: aclk c ++ newline :: awaddr c ++ newline :: araddr c in
        Some (jobj [(lit "ok", JBool false); (lit "error", jobj [
          (lit "code", JString (lit "ANALYSIS_MEMORY_LIMIT_EXCEEDED"));
          (lit "message", JString (lit "analysis cache build exceeds the configured hard memory limit"));
          (lit "recoverable", JBool true); (lit "error_layer", JString (lit "handler"));
          (lit "protocol", JString (lit "axi")); (lit "hard_max_bytes", JUint hard_limit);
          (lit "current_estimated_bytes", JInt 0);
          (lit "key_summary", JString (setw_zero 16 (hex_print (stable_path_hash material))));
          (lit "next_actions", JArray [
             JString (lit "For stream analysis, explicitly retry with cache_scope=range or a smaller time_range.");
             JString (lit "If range analysis still exceeds the limit, use x-npi for one-off offline analysis.")])])])
      else None
  end.

Section ScanAll.
Context {W : Type} `{EngineWave W} `{StdSort} (getenv : bytes -> option bytes).

Definition missing_signal (role name : bytes) : json :=
  error_response (lit "CONFIG_SIGNAL_NOT_FOUND") (lit "AXI " ++ role ++ lit " signal not found: " ++ name).
(** Every signal is looked up; the error of the last missing one stands. *)
Fixpoint find_sigs (roles : list (bytes * bytes)) (error : option json) (w : W) : list Z * option json * W :=
  match roles with
  | [] => ([], error, w)
  | (name, role) :: roles' =>
      let '(ref, w) := ew_find_signal w name in
      let error := if ref =? 0 then Some (missing_signal role name) else error in
      let '(refs, error, w) := find_sigs roles' error w in (ref :: refs, error, w)
  end.
Definition control_roles (c : AxiSignalMap) : list (bytes * bytes) :=
  [(awvalid c, lit "awvalid"); (awready c, lit "awready"); (wvalid c, lit "wvalid"); (wready c, lit "wready");
   (bvalid c, lit "bvalid"); (bready c, lit "bready"); (arvalid c, lit "arvalid"); (arready c, lit "arready");
   (rvalid c, lit "rvalid"); (rready c, lit "rready")].

Definition reset_asserted (c : AxiSignalMap) (reset : bytes) : bool :=
  if eqs (sm_reset_polarity c) (lit "active_low") then negb (known_high reset) else known_high reset.
(** The edges out of reset, and whether every sample of it was known. *)
Fixpoint reset_released (w : W) (c : AxiSignalMap) (ref_reset : Z) (edges : list Z) : list Z * bool :=
  match edges with
  | [] => ([], true)
  | ti :: edges' =>
      let reset := read_signal_at w ref_reset ti (axi_point c) in
      let '(active, known) := reset_released w c ref_reset edges' in
      if negb (known_binary reset) then (active, false)
      else (if reset_asserted c reset then active else ti :: active, known)
  end.

(** The handshakes of the five channels with their payloads, and the
    transactions ordered by their start. *)
Definition scan_channels (c : AxiSignalMap) (refs : list (Z * Z)) (active_edges : list Z) (known : bool) (w : W) :
    AxiScanResult * W :=
  let scan i channel := scan_channel_handshakes w (nth i refs (0, 0)) channel c active_edges in
  let '(aw, k1) := scan 0%nat (lit "aw") in
  let '(wr, k2) := scan 1%nat (lit "w") in
  let '(b, k3) := scan 2%nat (lit "b") in
  let '(ar, k4) := scan 3%nat (lit "ar") in
  let '(r, k5) := scan 4%nat (lit "r") in
  let '(aw, w) := augment_aw_events c aw w in
  let '(wr, w) := augment_w_events c wr w in
  let '(b, w) := augment_b_events c b w in
  let '(ar, w) := augment_ar_events c ar w in
  let '(r, w) := augment_r_events c r w in
  let transactions := numbered (stable_sort_by tx_start_time (assemble_axi_transactions aw wr b ar r)) in
  (MkAxiScanResult aw wr b ar r transactions refs (known && k1 && k2 && k3 && k4 && k5), w).

Fixpoint pairs {A} (l : list A) : list (A * A) :=
  match l with a :: b :: l' => (a, b) :: pairs l' | _ => [] end.
Definition scan_axi (c : AxiSignalMap) (t_begin t_end : Z) : attempt W AxiScanResult := fun w =>
  match axi_budget_error getenv c with
  | Some error => (inl error, w)
  | None =>
      let '(refs, error, w) := find_sigs (control_roles c) None w in
      match error with
      | Some error => (inl error, w)
      | None =>
          let w := snd (ew_load_signals w refs) in
          let '(clocked, error, w) := find_sigs [(aclk c, lit "clock"); (aresetn c, lit "reset")] None w in
          match error with
          | Some error => (inl error, w)
          | None =>
              let w := snd (ew_load_signals w clocked) in
              let '(edges, w) := selected_clock_edges c t_begin t_end w in
              let '(active_edges, known) := reset_released w c (nth 1 clocked 0) edges in
              let '(result, w) := scan_channels c (pairs refs) active_edges known w in
              (inr result, w)
          end
      end
  end.
End ScanAll.
