(* ===== verification/AxiActions.v ===== *)
(** * AxiActions: the AXI actions

    Models the eleven handlers of
    [src/engine/actions/protocol/axi_actions.cpp] over the scan of Axi.v. The
    environment, the files that can be read and written, the JSON parser and
    printers, the printed quotient of two numbers as [double] and [std::sort]
    are arguments. The totals of [axi.statistics] that the code computes and
    discards are left out. *)

From S2P Require Import Prelude CLib Json LogicValue Waveform ClockSampling SessionTypes Sorting Engine Apb Axi.

Open Scope Z_scope.

(** ** Transactions as JSON *)

Definition render_bits (bits : bytes) (format : ValueRenderFormat) : bytes :=
  match bits with
  | [] => lit "'h0"
  | _ => render_logic_value (logic_value_from_bits bits (zlen bits)) format
  end.
Definition render_unwidth_hex (bits : bytes) : bytes :=
  let rendered := render_bits bits Hex in
  match span (fun c => negb (eqc c "'"%char)) rendered with
  | (_, []) => rendered
  | (_, rest) => rest
  end.

(** The value of the ones in a string of bits. *)
Definition ones_value (bits : bytes) : Z :=
  foldl (fun value bit => let value := u64 (Z.shiftl value 1) in if eqc bit "1"%char then u64 (value + 1) else value) 0 bits.
Definition binary_bits (bits : bytes) : bool := forallb (fun b => eqc b "0"%char || eqc b "1"%char) bits.
Definition axi_expected_beat_count (t : AxiTransaction) : Z := u64 (ones_value (tx_length t) + 1).
Definition expected_beats (known : bool) (t : AxiTransaction) : json :=
  if known && binary_bits (tx_length t) then JUint (u64 (ones_value (tx_length t) + 1)) else JNull.

Definition axi_write_phase_order (t : AxiTransaction) : bytes :=
  match tx_data_events t with
  | first :: _ =>
      if negb (tx_is_write t) then lit "unknown"
      else if ev_time first <? tx_start_time t then lit "w_before_aw"
      else if ev_time first =? tx_start_time t then lit "same_cycle"
      else lit "aw_before_w"
  | [] => lit "unknown"
  end.
Definition tx_latency (t : AxiTransaction) : Z :=
  if tx_start_time t <=? tx_end_time t then tx_end_time t - tx_start_time t else 0.

(** ** Filters *)

Definition field_matches (bits : bytes) (filter : json) : res FilterResult :=
  if json_null filter || json_empty filter then Ret FilterYes
  else if 64 <? zlen bits then Ret FilterUnresolved
  else
    match address_bits 0 bits with
    | None => Ret FilterUnresolved
    | Some actual =>
        mode ← string_at_key (lit "mode") filter;
        if eqs mode (lit "exact") then
          values ← at_key (lit "values") filter;
          matches_exact actual (json_items values)
        else if eqs mode (lit "range") then
          range ← two_literals (lit "begin") (lit "end") filter;
          Ret (match range with
               | None => FilterUnresolved
               | Some (low, high) => filter_of ((low <=? actual) && (actual <=? high))
               end)
        else
          masked ← two_literals (lit "value") (lit "mask") filter;
          Ret (match masked with
               | None => FilterUnresolved
               | Some (expected, mask) => filter_of (Z.land actual mask =? Z.land expected mask)
               end)
    end.

(** [direction == "all" || (direction == "write") == txn.is_write] *)
Definition in_direction (direction : bytes) (t : AxiTransaction) : bool :=
  eqs direction (lit "all") || Bool.eqb (eqs direction (lit "write")) (tx_is_write t).
(** The same with the two directions spelled out. *)
Definition named_direction (direction : bytes) (t : AxiTransaction) : bool :=
  eqs direction (lit "all") || (eqs direction (lit "write") && tx_is_write t)
  || (eqs direction (lit "read") && negb (tx_is_write t)).

(** ** The state *)

Record AxiState (W : Type) := MkAxiState {
  xs_wave : option W;
  axi_configs : list (bytes * AxiSignalMap);
  axi_cursors : list (bytes * Z);
  xs_files : list (bytes * bytes);
}.
Arguments MkAxiState {W}.
Arguments xs_wave {W}.
Arguments axi_configs {W}.
Arguments axi_cursors {W}.
Arguments xs_files {W}.

Definition axi_value_source_entries {W} (name : bytes) (s : AxiState W) : option (list (bytes * bytes)) :=
  axi_config_entries <$> mget name (axi_configs s).

Definition axi_config_missing (action name : bytes) : json :=
  let example_args := jobj [(lit "name", JString (lit "axi0"))] in
  let example_args :=
    if eqs action (lit "axi.query")
    then set_key (lit "query") (jobj [(lit "line_limit", JInt 8)])
           (set_key (lit "direction") (JString (lit "write")) example_args)
    else example_args in
  jobj [(lit "ok", JBool false); (lit "error", jobj [
    (lit "code", JString (lit "CONFIG_NOT_FOUND")); (lit "message", JString (lit "axi config not found: " ++ name));
    (lit "recoverable", JBool true); (lit "error_layer", JString (lit "handler"));
    (lit "invalid_arg", JString (lit "args.name"));
    (lit "expected", JString (lit "name of a previously loaded axi config"));
    (lit "missing_name", JString name); (lit "missing_resource", JString (lit "axi config"));
    (lit "correct_example", action_example action example_args);
    (lit "example_note", JString (lit "Example only; choose an existing config name or load this config before using it."));
    (lit "next_actions", JArray [JString (lit "Call axi.config.list to inspect loaded configs.");
                                 JString (lit "Call axi.config.load before this action.")])])].

Definition axi_signal_fields (m : AxiSignalMap) : list (bytes * bytes) :=
  [(lit "clock", aclk m); (lit "reset", aresetn m); (lit "awvalid", awvalid m); (lit "awready", awready m);
   (lit "awaddr", awaddr m); (lit "awid", awid m); (lit "awlen", awlen m); (lit "awsize", awsize m); (lit "awburst", awburst m);
   (lit "wvalid", wvalid m); (lit "wready", wready m); (lit "wdata", wdata m); (lit "wstrb", wstrb m); (lit "wlast", wlast m);
   (lit "bvalid", bvalid m); (lit "bready", bready m); (lit "bid", bid m); (lit "bresp", bresp m);
   (lit "arvalid", arvalid m); (lit "arready", arready m); (lit "araddr", araddr m); (lit "arid", arid m);
   (lit "arlen", arlen m); (lit "arsize", arsize m); (lit "arburst", arburst m); (lit "rvalid", rvalid m);
   (lit "rready", rready m); (lit "rdata", rdata m); (lit "rid", rid m); (lit "rresp", rresp m); (lit "rlast", rlast m)].
Definition control_fields : list bytes :=
  [lit "clock"; lit "reset"; lit "awvalid"; lit "awready"; lit "wvalid"; lit "wready"; lit "wlast"; lit "bvalid"; lit "bready";
   lit "arvalid"; lit "arready"; lit "rvalid"; lit "rready"; lit "rlast"].

Definition axi_recommended_actions : json :=
  let item action purpose := jobj [(lit "action", JString action); (lit "purpose", JString purpose)] in
  JArray [
    item (lit "value.at") (lit "按一个或多个指定时间读取单信号、命名信号列表或接口配置维护的值。");
    item (lit "axi.query") (lit "按通道握手，或按方向、地址、ID 与地址握手时间查询重建后的 AXI transaction。");
    item (lit "axi.transaction.cursor") (lit "在 AXI transfer 间移动游标。");
    item (lit "axi.analysis") (lit "汇总 AXI 行为。");
    item (lit "axi.statistics") (lit "按方向、ID 和地址过滤统计已完成 AXI 事务。");
    item (lit "axi.export") (lit "导出 AXI 数据。");
    item (lit "axi.channel_stall") (lit "实验性 AXI stall 分析。");
    item (lit "axi.latency_outlier") (lit "实验性 AXI latency 异常。");
    item (lit "axi.outstanding_timeline") (lit "实验性 AXI outstanding 时间线。");
    item (lit "axi.request_response_pair") (lit "实验性 AXI 请求响应配对。")].

Section Actions.
Context {W : Type} `{EngineWave W} `{StdSort}.
Context (getenv : bytes -> option bytes) (file : bytes -> option bytes) (parse : bytes -> bytes + json)
  (trunc : bytes -> Z) (quotient : Z -> Z -> bytes) (dump_pretty : json -> bytes) (can_open : bytes -> bool).
Abbreviation St := (AxiState W).

Definition axi_beat_json (w : W) (unit : TimeRenderUnit) (format : ValueRenderFormat) (is_write : bool) (index : nat)
    (event : AxiHandshakeEvent) : json :=
  let beat := jobj [(lit "index", JUint (Z.of_nat index + 1)); (lit "handshake_time", JString (ew_format_time w (ev_time event) unit));
                    (lit "data", JString (render_bits (ev_data event) format)); (lit "last", JBool (ev_last event))] in
  if is_write then set_key (lit "wstrb") (JString (render_bits (ev_strb event) format)) beat
  else set_key (lit "resp") (JString (render_bits (ev_resp event) format)) beat.

Definition axi_data_json (w : W) (unit : TimeRenderUnit) (format : ValueRenderFormat) (include_data : bool) (t : AxiTransaction) :
    json :=
  let known_length := negb (eqs (tx_length t) []) && (zlen (tx_length t) <=? 64) in
  let data := jobj [(lit "channel", JString (if tx_is_write t then lit "w" else lit "r"));
                    (lit "beat_count", JUint (zlen (tx_data_events t)));
                    (lit "expected_beat_count", expected_beats known_length t)] in
  let data :=
    match tx_data_events t with
    | [] => data
    | first :: rest =>
        set_key (lit "last_handshake_time") (JString (ew_format_time w (ev_time (default first (list.last rest))) unit))
        (set_key (lit "first_handshake_time") (JString (ew_format_time w (ev_time first) unit))
        (set_key (lit "valid_begin_time") (JString (ew_format_time w (ev_valid_begin_time first) unit)) data))
    end in
  if include_data
  then set_key (lit "beats") (JArray (imap (axi_beat_json w unit format (tx_is_write t)) (tx_data_events t))) data
  else data.

Definition axi_txn_json (t : AxiTransaction) (w : W) (unit : TimeRenderUnit) (format : ValueRenderFormat)
    (matched include_data : bool) : json :=
  let time z := JString (ew_format_time w z unit) in
  let bits b := JString (render_bits b format) in
  let j := jobj [
    (lit "direction", JString (if tx_is_write t then lit "write" else lit "read"));
    (lit "latency", time (tx_latency t)); (lit "response_dependency_violation", JBool false);
    (lit "address", jobj [(lit "channel", JString (if tx_is_write t then lit "aw" else lit "ar"));
       (lit "handshake_time", time (tx_start_time t)); (lit "valid_begin_time", time (tx_address_valid_begin_time t));
       (lit "addr", bits (tx_address t)); (lit "id", bits (tx_id t)); (lit "len", bits (tx_length t));
       (lit "size", bits (tx_size t)); (lit "burst", bits (tx_burst t))]);
    (lit "response", jobj [(lit "channel", JString (if tx_is_write t then lit "b" else lit "r"));
       (lit "handshake_time", time (tx_end_time t)); (lit "resp", bits (tx_resp t))])] in
  let j := when (tx_is_write t) (set_key (lit "phase_order") (JString (axi_write_phase_order t))) j in
  let j := set_key (lit "data") (axi_data_json w unit format include_data t) j in
  when matched (set_key (lit "match_time") (time (tx_start_time t))) j.

(** ** What the handlers start with *)

Definition require_waveform (action : bytes) : trial json St unit := fun s =>
  match xs_wave s with
  | Some _ => (Ret (inr tt), s)
  | None => (Ret (inl (error_response (lit "WAVEFORM_NOT_LOADED") (lit "action requires waveform file: " ++ action))), s)
  end.
(** There is a waveform once [require_waveform] has passed. *)
Definition on_waveform {A} (m : trial json W A) : trial json St A := fun s =>
  match xs_wave s with
  | None => (UB, s)
  | Some w => let '(r, w) := m w in (r, MkAxiState (Some w) (axi_configs s) (axi_cursors s) (xs_files s))
  end.
Definition current_wave : trial json St W := on_waveform (fun w => (Ret (inr w), w)).
Definition clock_edges (c : AxiSignalMap) (t_begin t_end : Z) : trial json St (list Z) :=
  on_waveform (fun w => let '(edges, w) := selected_clock_edges c t_begin t_end w in (Ret (inr edges), w)).
Definition find_ref (name : bytes) : trial json St Z :=
  on_waveform (fun w => let '(ref, w) := ew_find_signal w name in (Ret (inr ref), w)).
Definition of_sum {A} (r : res (json + A)) : trial json St A := fun s => (r, s).

Definition resolve_axi_config (args : json) (action : bytes) : trial json St AxiSignalMap :=
  name ← pure_step (string_at_key (lit "name") args);
  s ← run_step get_state;
  match mget name (axi_configs s) with
  | None => stop (axi_config_missing action name)
  | Some c => mret c
  end.

Definition time_bound (w : W) (range : json) (k : bytes) (allow_max : bool) (fallback : Z) : res (json + Z) :=
  bound ← window_bound w range k allow_max fallback;
  Ret (match bound with inl message => inl (error_response (lit "INVALID_TIME") message) | inr t => inr t end).
Definition parse_time_range (args : json) : trial json St (Z * Z) :=
  w ← current_wave;
  range ← pure_step (value_or Ret (lit "time_range") (JObject []) args);
  t_begin ← of_sum (time_bound w range (lit "begin") false (ew_min_time w));
  t_end ← of_sum (time_bound w range (lit "end") true (ew_max_time w));
  if t_end <? t_begin then stop (error_response (lit "TIME_RANGE_INVALID") (lit "end is before begin"))
  else mret (t_begin, t_end).

Record AxiRequest := MkAxiRequest {
  rq_args : json;
  rq_config : AxiSignalMap;
  rq_begin : Z;
  rq_end : Z;
  rq_result : AxiScanResult;
}.
Definition axi_request (action : bytes) (req : json) : trial json St AxiRequest :=
  _ ← require_waveform action;
  args ← pure_step (value_or Ret (lit "args") (JObject []) req);
  c ← resolve_axi_config args action;
  range ← parse_time_range args;
  result ← on_waveform (fun w => let '(r, w) := scan_axi getenv c (fst range) (snd range) w in (Ret r, w));
  mret (MkAxiRequest args c (fst range) (snd range) result).
Definition render_args (args : json) : trial json St (TimeRenderUnit * ValueRenderFormat) := of_sum (parse_render args).

Definition u32_arg (k : bytes) (fallback : Z) (args : json) : trial json St Z :=
  pure_step (value_or (as_number trunc u32) k fallback args).
Definition string_arg (k fallback : bytes) (args : json) : trial json St bytes :=
  pure_step (value_or as_string k fallback args).
Definition arg (k : bytes) (args : json) : trial json St json := pure_step (at_key k args).

(** A bound of the range as it was asked for. *)
Definition asked_bound (w : W) (unit : TimeRenderUnit) (range : json) (k : bytes) (t : Z) (fallback : bytes) : bytes :=
  if jcontains k range then ew_format_time w t unit else fallback.

(** ** Configurations *)

Definition axi_config_list (req : json) : act St json := answered (
  _ ← require_waveform (lit "axi.config.list");
  args ← pure_step (value_or Ret (lit "args") (JObject []) req);
  s ← run_step get_state;
  if jcontains (lit "name") args then
    name ← pure_step (string_at_key (lit "name") args);
    match mget name (axi_configs s) with
    | None => stop (error_response (lit "CONFIG_NOT_FOUND") (lit "AXI config not found: " ++ name))
    | Some c =>
        mret (ok_response (jobj [(lit "name", JString name); (lit "status", JString (lit "found"))])
                (jobj [(lit "config", axi_signal_map_json c)]))
    end
  else
    let configs := map (fun item => axi_signal_map_json (snd item)) (axi_configs s) in
    mret (ok_response (jobj [(lit "count", JUint (zlen configs))]) (jobj [(lit "configs", JArray configs)]))).

Definition axi_config_source (args : json) : res (json + json) :=
  if jcontains (lit "config") args then source ← at_key (lit "config") args; Ret (inr source)
  else
    path ← string_at_key (lit "config_path") args;
    Ret (match file path with
         | None => inl (error_response (lit "INVALID_FIELD") (lit "cannot read AXI config_path"))
         | Some contents =>
             match parse contents with
             | inl what => inl (error_response (lit "INVALID_FIELD") (lit "invalid AXI config JSON: " ++ what))
             | inr source => inr source
             end
         end).

(** The time of the first change of a clock that is not its initial value. *)
Definition first_edge_time (w : W) (ref : Z) : option Z :=
  match sb_time_indices_of w ref with
  | [] => None
  | [first] => Some (sb_time_at w first)
  | first :: second :: _ => Some (sb_time_at w (if sb_time_at w first =? ew_min_time w then second else first))
  end.
(** The entry of a field, and the time of the first edge if it is the clock. *)
Definition check_field (field : bytes * bytes) : trial json W (json * option Z) := fun w =>
  let '(role, path) := field in
  let '(ref, w) := ew_find_signal w path in
  if ref =? 0 then (Ret (inl (missing_signal role path)), w)
  else
    let '(loaded, w) :=
      if ew_is_loaded w ref then (true, w)
      else let '(count, w) := ew_load_signals w [ref] in (count =? 1, w) in
    if negb loaded then (Ret (inl (error_response (lit "VALUE_NOT_AVAILABLE") (lit "failed to load AXI signal"))), w)
    else
      match ew_signal_info w ref with
      | None => (Ret (inl (error_response (lit "VALUE_NOT_AVAILABLE") (lit "AXI signal metadata unavailable"))), w)
      | Some info =>
          if existsb (eqs role) control_fields && negb (si_width info =? 1)
          then (Ret (inl (error_response (lit "INVALID_FIELD") (lit "AXI control signal must resolve to one bit"))), w)
          else
            let entry := jobj [(lit "field", JString role); (lit "requested_path", JString path);
              (lit "resolved_path", JString path); (lit "width", JUint (si_width info)); (lit "status", JString (lit "ok"))] in
            if eqs role (lit "clock") then
              let w := if ew_is_loaded w ref then w else snd (ew_load_signals w [ref]) in
              (Ret (inr (entry, first_edge_time w ref)), w)
            else (Ret (inr (entry, None)), w)
      end.
(** The entries; the last first edge stands. *)
Fixpoint check_fields (fields : list (bytes * bytes)) : trial json W (list json * option Z) :=
  match fields with
  | [] => mret ([], None)
  | field :: fields' =>
      entry ← check_field field;
      rest ← check_fields fields';
      mret (fst entry :: fst rest, match snd rest with Some t => Some t | None => snd entry end)
  end.

Definition store_axi_config (c : AxiSignalMap) : trial json St unit := fun s =>
  (Ret (inr tt), MkAxiState (xs_wave s) (mset (sm_name c) c (axi_configs s))
    (mdel (cursor_key (sm_name c) (lit "write")) (mdel (cursor_key (sm_name c) (lit "read"))
      (mdel (cursor_key (sm_name c) (lit "all")) (axi_cursors s)))) (xs_files s)).
Definition axi_config_load (req : json) : act St json := answered (
  _ ← require_waveform (lit "axi.config.load");
  args ← arg (lit "args") req;
  source ← of_sum (axi_config_source args);
  name ← pure_step (string_at_key (lit "name") args);
  parsed ← pure_step (parse_axi_signal_map name source);
  match parsed with
  | inl message => stop (error_response (lit "INVALID_FIELD") message)
  | inr config =>
      checked ← on_waveform (check_fields (axi_signal_fields config));
      match snd checked with
      | None => stop (error_response (lit "VALUE_NOT_AVAILABLE") (lit "AXI clock has no edges"))
      | Some first_edge =>
          _ ← store_axi_config config;
          mret (ok_response (jobj [(lit "name", JString (sm_name config)); (lit "status", JString (lit "loaded"))])
            (jobj [(lit "config", axi_signal_map_json config);
                   (lit "validation", jobj [(lit "status", JString (lit "ok"));
                      (lit "clock", jobj [(lit "status", JString (lit "ok")); (lit "edge", JString (sm_edge config));
                                          (lit "first_edge", JUint first_edge)]);
                      (lit "signals", JArray (fst checked))]);
                   (lit "recommended_actions", axi_recommended_actions)]))
      end
  end).
End Actions.
