(* ===== verification/AxiQuery.v ===== *)
(** * AxiQuery: queries over AXI transactions

    Models [axi.query], [axi.statistics], [axi.transaction.cursor],
    [axi.request_response_pair], [axi.latency_outlier],
    [axi.outstanding_timeline] and [axi.channel_stall] of
    [src/engine/actions/protocol/axi_actions.cpp]. *)

From S2P Require Import Prelude CLib Json LogicValue Waveform ClockSampling SessionTypes Sorting Engine Apb Axi AxiActions.

Open Scope Z_scope.


Definition query_selects (direction : bytes) (address id : json) (t : AxiTransaction) : res bool :=
  if tx_complete t && Bool.eqb (eqs direction (lit "write")) (tx_is_write t) then
    address_match ← field_matches (tx_address t) address;
    if bool_decide (address_match = FilterYes) then
      id_match ← field_matches (tx_id t) id; Ret (bool_decide (id_match = FilterYes))
    else Ret false
  else Ret false.

(** Reads, writes and unresolved transactions. *)
Fixpoint count_filtered (direction : bytes) (address id : json) (txns : list AxiTransaction) (reads writes unres : Z) :
    res (Z * Z * Z) :=
  match txns with
  | [] => Ret (reads, writes, unres)
  | t :: txns' =>
      if negb (tx_complete t) || negb (named_direction direction t)
      then count_filtered direction address id txns' reads writes unres
      else
        address_match ← field_matches (tx_address t) address;
        id_match ← field_matches (tx_id t) id;
        if bool_decide (address_match = FilterUnresolved) || bool_decide (id_match = FilterUnresolved)
        then count_filtered direction address id txns' reads writes (u64 (unres + 1))
        else if bool_decide (address_match = FilterYes) && bool_decide (id_match = FilterYes)
        then if tx_is_write t then count_filtered direction address id txns' reads (u64 (writes + 1)) unres
             else count_filtered direction address id txns' (u64 (reads + 1)) writes unres
        else count_filtered direction address id txns' reads writes unres
  end.

(** ** Outstanding transactions over time *)

Record Delta := MkDelta { d_read : Z; d_write : Z }.
(** [deltas[time]] with a change of the direction of the transaction. *)
Fixpoint add_delta (time : Z) (is_write : bool) (by_ : Z) (deltas : list (Z * Delta)) : list (Z * Delta) :=
  let change d := if is_write then MkDelta (d_read d) (d_write d + by_) else MkDelta (d_read d + by_) (d_write d) in
  match deltas with
  | [] => [(time, change (MkDelta 0 0))]
  | (t, d) :: deltas' =>
      if time <? t then (time, change (MkDelta 0 0)) :: deltas
      else if time =? t then (t, change d) :: deltas'
      else (t, d) :: add_delta time is_write by_ deltas'
  end.
Definition transaction_deltas (direction : bytes) (deltas : list (Z * Delta)) (t : AxiTransaction) : list (Z * Delta) :=
  if negb (in_direction direction t) then deltas
  else
    let deltas := add_delta (tx_start_time t) (tx_is_write t) 1 deltas in
    if tx_complete t then add_delta (tx_end_time t) (tx_is_write t) (-1) deltas else deltas.
Definition nonzero_delta (item : Z * Delta) : bool := negb ((d_read (snd item) =? 0) && (d_write (snd item) =? 0)).
Definition outstanding_deltas (direction : bytes) (txns : list AxiTransaction) : list (Z * Delta) :=
  List.filter nonzero_delta (foldl (transaction_deltas direction) [] txns).

(** The counts after each change. *)
Fixpoint running (read write : Z) (deltas : list (Z * Delta)) : list (Z * Z * Z * Delta) :=
  match deltas with
  | [] => []
  | (t, d) :: deltas' =>
      let read := read + d_read d in
      let write := write + d_write d in
      (t, read, write, d) :: running read write deltas'
  end.
(** The peak of a count and when it was first reached. *)
Definition peak (t_begin : Z) (counts : list (Z * Z)) : Z * Z :=
  foldl (fun best item => if fst best <? snd item then (snd item, fst item) else best) (0, t_begin) counts.

(** ** Stalls *)

Record Stall := MkStall { stall_start : Z; stall_end : Z; stall_duration : Z }.
Definition new_stall (begin end_ : Z) : Stall := MkStall begin end_ (if begin <? end_ then end_ - begin else 0).

(** A [std::set<uint32_t>]. *)
Fixpoint insert_index (ti : Z) (l : list Z) : list Z :=
  match l with
  | [] => [ti]
  | x :: l' => if ti <? x then ti :: l else if ti =? x then l else x :: insert_index ti l'
  end.

Section Queries.
Context {W : Type} `{EngineWave W} `{StdSort}.
Context (getenv : bytes -> option bytes) (trunc : bytes -> Z).
Abbreviation St := (AxiState W).

(** *** axi.query *)

Definition query_filter (w : W) (unit : TimeRenderUnit) (rq : AxiRequest) (direction : bytes) : res json :=
  let args := rq_args rq in
  let filter := jobj [(lit "direction", JString direction)] in
  filter ← (if jcontains (lit "address") args then v ← at_key (lit "address") args; Ret (set_key (lit "address") v filter) else Ret filter);
  filter ← (if jcontains (lit "id") args then v ← at_key (lit "id") args; Ret (set_key (lit "id") v filter) else Ret filter);
  Ret (when (jcontains (lit "time_range") args)
         (set_key (lit "time_range") (jobj [(lit "begin", JString (ew_format_time w (rq_begin rq) unit));
                                            (lit "end", JString (ew_format_time w (rq_end rq) unit))])) filter).

Definition axi_query_answer (w : W) (unit : TimeRenderUnit) (format : ValueRenderFormat) (scanned : bool)
    (matches : list AxiTransaction) (summary data : json) (index limit : Z) (last include_data : bool) : json :=
  if last || ((0 <? index) && (limit <? 0)) then
    let offset := if last then (match matches with [] => 0 | _ => zlen matches - 1 end) else index - 1 in
    let found := matches !! Z.to_nat offset in
    let is_found := bool_decide (is_Some found) in
    let summary := set_key (lit "found") (JBool is_found)
      (set_key (lit "data_scope") (JString (lit "all_returned_transactions_full"))
      (set_key (lit "query_mode") (JString (if last then lit "last" else lit "index")) summary)) in
    let data := match found with
                | Some t => set_key (lit "transaction") (axi_txn_json t w unit format false include_data) data
                | None => data
                end in
    ok_response (set_value_width_complete
      (merge summary (completeness_summary scanned false (zlen matches) (if is_found then 1 else 0)))) data
  else if 0 <? limit then
    let begin := if 0 <? index then index - 1 else 0 in
    let rows := map (fun t => axi_txn_json t w unit format false false)
                  (take (Z.to_nat limit) (drop (Z.to_nat begin) matches)) in
    let truncated := u64 (begin + zlen rows) <? zlen matches in
    let summary := set_key (lit "query_mode") (JString (lit "list")) summary in
    ok_response (set_value_width_complete (merge summary (completeness_summary scanned truncated (zlen matches) (zlen rows))))
      (set_key (lit "transactions") (JArray rows) data)
  else
    ok_response (merge (set_key (lit "data_scope") (JString (lit "none")) (set_key (lit "query_mode") (JString (lit "count")) summary))
                   (completeness_summary scanned false (zlen matches) 0)) data.

Definition axi_query (req : json) : act St json := answered (
  rq ← axi_request getenv (lit "axi.query") req;
  let args := rq_args rq in
  render ← render_args args;
  direction ← string_arg (lit "direction") (lit "write") args;
  address ← pure_step (value_or Ret (lit "address") JNull args);
  id ← pure_step (value_or Ret (lit "id") JNull args);
  matches ← pure_step (filter_res (query_selects direction address id) (axi_transactions (rq_result rq)));
  query ← pure_step (value_or Ret (lit "query") (JObject []) args);
  output ← pure_step (value_or Ret (lit "output") (JObject []) args);
  include_data ← pure_step (value_or as_bool (lit "include_data") false output);
  last ← pure_step (value_or as_bool (lit "last") false args);
  index ← pure_step (value_or (as_number trunc i32) (lit "index") (-1) query);
  limit ← pure_step (value_or (as_number trunc i32) (lit "line_limit") (-1) query);
  w ← current_wave;
  filter ← pure_step (query_filter w (fst render) rq direction);
  name ← arg (lit "name") args;
  mret (axi_query_answer w (fst render) (snd render) (scan_complete (rq_result rq)) matches
          (jobj [(lit "name", name); (lit "direction", JString direction);
                 (lit "data_scope", JString (lit "first_beat_each_with_first_transaction_full"))])
          (jobj [(lit "filter", filter)]) index limit last include_data)).

(** *** axi.statistics *)

Definition axi_statistics (req : json) : act St json := answered (
  rq ← axi_request getenv (lit "axi.statistics") req;
  let args := rq_args rq in
  let txns := axi_transactions (rq_result rq) in
  input_filter ← pure_step (value_or Ret (lit "filter") (JObject []) args);
  direction ← string_arg (lit "direction") (lit "all") input_filter;
  address ← pure_step (value_or Ret (lit "address") JNull input_filter);
  let id_filter := match jget (lit "ids") input_filter with
                   | Some ids => jobj [(lit "mode", JString (lit "exact")); (lit "values", ids)]
                   | None => JNull
                   end in
  counts ← pure_step (count_filtered direction address id_filter txns 0 0 0);
  let '(reads, writes, unres) := counts in
  let filter := jobj [(lit "direction", JString direction)] in
  let filter := match jget (lit "address") input_filter with Some v => set_key (lit "address") v filter | None => filter end in
  let filter := match jget (lit "ids") input_filter with Some v => set_key (lit "ids") v filter | None => filter end in
  name ← arg (lit "name") args;
  let matched := u64 (reads + writes) in
  let complete := scan_complete (rq_result rq) in
  let summary := jobj [(lit "name", name); (lit "scanned_transaction_count", JUint (zlen txns));
    (lit "matched_transaction_count", JUint matched); (lit "matched_read_count", JUint reads);
    (lit "matched_write_count", JUint writes); (lit "unresolved_transaction_count", JUint unres);
    (lit "filter_applied", JBool (negb (json_empty input_filter)));
    (lit "analysis_quality", JString (if negb (unres =? 0) || negb complete then lit "ambiguous" else lit "complete"));
    (lit "full_scan_count", JInt 1)] in
  mret (ok_response (merge summary (completeness_summary (complete && (unres =? 0)) false matched matched))
          (jobj [(lit "filter", filter); (lit "notes", jobj [(lit "unresolved_transaction_count", JString unresolved_note)])]))).

(** *** axi.transaction.cursor *)

Definition set_axi_cursor (key : bytes) (position : Z) : trial json St unit := fun s =>
  (Ret (inr tt), MkAxiState (xs_wave s) (axi_configs s) (mset key position (axi_cursors s)) (xs_files s)).
(** [*matches[position]]: undefined past the end. *)
Definition axi_transaction_at (matches : list AxiTransaction) (position : Z) : res AxiTransaction :=
  match matches !! Z.to_nat position with Some t => Ret t | None => UB end.

Definition axi_transaction_cursor (req : json) : act St json := answered (
  rq ← axi_request getenv (lit "axi.transaction.cursor") req;
  let args := rq_args rq in
  render ← render_args args;
  direction ← string_arg (lit "direction") (lit "all") args;
  let matches := List.filter (fun t => tx_complete t && named_direction direction t) (axi_transactions (rq_result rq)) in
  name ← pure_step (string_at_key (lit "name") args);
  let key := cursor_key name direction in
  s ← run_step get_state;
  let position := default 0 (mget key (axi_cursors s)) in
  _ ← set_axi_cursor key position;
  op ← pure_step (string_at_key (lit "op") args);
  let '(found, position) := move_cursor op (zlen matches) position in
  _ ← set_axi_cursor key position;
  let summary := set_value_width_complete
    (cursor_summary name op direction found (scan_complete (rq_result rq)) position (zlen matches)) in
  if negb found then mret (ok_response summary (JObject []))
  else
    w ← current_wave;
    t ← pure_step (axi_transaction_at matches position);
    mret (ok_response summary
            (set_key (lit "transaction") (axi_txn_json t w (fst render) (snd render) false false) (JObject [])))).

(** *** axi.request_response_pair *)

Definition zero_diagnostics : list (bytes * json) :=
  map (fun k => (k, JInt 0))
    [lit "buffered_w_beat_count"; lit "buffered_w_burst_count"; lit "orphan_w_beat_count"; lit "orphan_b_count";
     lit "orphan_r_beat_count"; lit "response_dependency_violation_count"].
Definition count_if {A} (p : A -> bool) (l : list A) : Z := zlen (List.filter p l).
Definition range_summary (w : W) (unit : TimeRenderUnit) (rq : AxiRequest) (range : json) : list (bytes * json) :=
  [(lit "begin", JString (asked_bound w unit range (lit "begin") (rq_begin rq) (lit "0ns")));
   (lit "end", JString (asked_bound w unit range (lit "end") (rq_end rq) (lit "max")))].

Definition axi_request_response_pair (req : json) : act St json := answered (
  rq ← axi_request getenv (lit "axi.request_response_pair") req;
  let args := rq_args rq in
  render ← render_args args;
  direction ← string_arg (lit "direction") (lit "all") args;
  limit ← u32_arg trunc (lit "line_limit") 1000 args;
  let ordered := List.filter (in_direction direction) (std_sort tx_start_time (axi_transactions (rq_result rq))) in
  let completed := List.filter tx_complete ordered in
  w ← current_wave;
  let rows := map (fun t => axi_txn_json t w (fst render) (snd render) true false) (take (Z.to_nat limit) completed) in
  range ← pure_step (value_or Ret (lit "time_range") (JObject []) args);
  name ← arg (lit "name") args;
  let summary := merge (jobj ((lit "name", name) :: range_summary w (fst render) rq range))
    (completeness_summary (scan_complete (rq_result rq)) (zlen rows <? zlen completed) (zlen completed) (zlen rows)) in
  let diagnostics := jobj ([(lit "full_scan_count", JInt 1);
    (lit "incomplete_write_count", JUint (count_if (fun t => negb (tx_complete t) && tx_is_write t) ordered));
    (lit "incomplete_read_count", JUint (count_if (fun t => negb (tx_complete t) && negb (tx_is_write t)) ordered))]
    ++ zero_diagnostics) in
  let pairing := jobj [(lit "write_data", JString (lit "AXI4 W bursts bind in AW acceptance order"));
    (lit "write_response", JString (lit "BID binds to the oldest data-complete AW with the same ID"));
    (lit "read_response", JString (lit "RID binds to the oldest AR with the same ID"))] in
  mret (ok_response (set_value_width_complete summary)
          (jobj [(lit "pairing_rule", pairing); (lit "diagnostics", diagnostics); (lit "transactions", JArray rows)]))).

(** *** axi.latency_outlier *)

(** Slower first, then earlier first. *)
Definition slower (a b : AxiTransaction * Z) : bool :=
  if negb (snd a =? snd b) then snd b <? snd a else tx_start_time (fst a) <? tx_start_time (fst b).
Fixpoint select_outliers (method : bytes) (threshold top_n selected : Z) (l : list (AxiTransaction * Z)) : list AxiTransaction :=
  match l with
  | [] => []
  | (t, latency) :: l' =>
      if eqs method (lit "threshold") && (latency <=? threshold) then select_outliers method threshold top_n selected l'
      else if eqs method (lit "top_n") && (top_n <=? selected) then []
      else t :: select_outliers method threshold top_n (u64 (selected + 1)) l'
  end.

Definition parse_threshold (method : bytes) (args : json) : trial json St Z :=
  if eqs method (lit "threshold") then
    threshold ← pure_step (string_at_key (lit "threshold") args);
    w ← current_wave;
    match ew_parse_time w threshold false with
    | inl message => stop (error_response (lit "INVALID_TIME") message)
    | inr ticks => mret ticks
    end
  else mret 0.

Definition axi_latency_outlier (req : json) : act St json := answered (
  rq ← axi_request getenv (lit "axi.latency_outlier") req;
  let args := rq_args rq in
  render ← render_args args;
  direction ← string_arg (lit "direction") (lit "all") args;
  method ← string_arg (lit "method") (lit "top_n") args;
  let candidates := List.filter (fun t => tx_complete t && in_direction direction t) (axi_transactions (rq_result rq)) in
  let latencies := stable_sort slower (map (fun t => (t, tx_latency t)) candidates) in
  threshold ← parse_threshold method args;
  top_n ← u32_arg trunc (lit "top_n") 10 args;
  limit ← u32_arg trunc (lit "line_limit") 1000 args;
  w ← current_wave;
  let selected := select_outliers method threshold top_n 0 latencies in
  let outliers := map (fun t => axi_txn_json t w (fst render) (snd render) true false) (take (Z.to_nat limit) selected) in
  range ← pure_step (value_or Ret (lit "time_range") (JObject []) args);
  name ← arg (lit "name") args;
  let summary := merge
    (jobj ((lit "name", name) :: range_summary w (fst render) rq range ++ [(lit "candidate_count", JUint (zlen latencies))]))
    (completeness_summary (scan_complete (rq_result rq)) (zlen outliers <? zlen selected) (zlen selected) (zlen outliers)) in
  let is_top := eqs method (lit "top_n") in
  let data := jobj [(lit "method", JString method);
    (lit "classification", JString (if is_top then lit "slowest_ranking" else lit "threshold_exceeded"));
    (lit "outliers", JArray outliers)] in
  data ← (if is_top then mret (set_key (lit "top_n") (JUint top_n) data)
          else v ← arg (lit "threshold") args; mret (set_key (lit "threshold") v data));
  mret (ok_response (set_value_width_complete summary) data)).

(** *** axi.outstanding_timeline *)

Definition event_name (n : Z) (up down : bytes) : bytes := if 0 <? n then up else if n <? 0 then down else lit "none".
Definition change_point (w : W) (unit : TimeRenderUnit) (item : Z * Z * Z * Delta) : json :=
  let '(t, read, write, d) := item in
  jobj [(lit "time", JString (ew_format_time w t unit)); (lit "read", JInt read); (lit "write", JInt write);
        (lit "read_delta", JInt (d_read d)); (lit "write_delta", JInt (d_write d));
        (lit "read_event", JString (event_name (d_read d) (lit "ar_handshake") (lit "rlast_handshake")));
        (lit "write_event", JString (event_name (d_write d) (lit "aw_handshake") (lit "b_handshake")))].
(** The edges at which the reset is known to be released. *)
Definition released (w : W) (c : AxiSignalMap) (reset_ref ti : Z) : bool :=
  let reset := read_signal_at w reset_ref ti (axi_point c) in known_binary reset && negb (reset_asserted c reset).

Definition axi_outstanding_timeline (req : json) : act St json := answered (
  rq ← axi_request getenv (lit "axi.outstanding_timeline") req;
  let args := rq_args rq in
  let c := rq_config rq in
  render ← render_args args;
  let unit := fst render in
  direction ← string_arg (lit "direction") (lit "all") args;
  let deltas := outstanding_deltas direction (axi_transactions (rq_result rq)) in
  limit ← u32_arg trunc (lit "line_limit") 1000 args;
  edges ← clock_edges c (rq_begin rq) (rq_end rq);
  reset_ref ← find_ref (aresetn c);
  w ← current_wave;
  let active := List.filter (released w c reset_ref) edges in
  let first_active := match active with [] => rq_begin rq | ti :: _ => sb_time_at w ti end in
  let initial := eqs (sm_sample_point c) (lit "before") && negb (bool_decide (deltas = [])) in
  let counts := running 0 0 deltas in
  let points := (if initial then [(first_active, 0, 0, MkDelta 0 0)] else []) ++ counts in
  let shown := map (change_point w unit) (take (Z.to_nat limit) points) in
  let '(peak_read, peak_read_time) := peak (rq_begin rq) (map (fun p => (fst (fst (fst p)), snd (fst (fst p)))) counts) in
  let '(peak_write, peak_write_time) := peak (rq_begin rq) (map (fun p => (fst (fst (fst p)), snd (fst p))) counts) in
  let first_nonzero := match List.find (fun p => negb ((snd (fst (fst p)) =? 0) && (snd (fst p) =? 0))) counts with
                       | Some p => fst (fst (fst p))
                       | None => rq_begin rq
                       end in
  let '(final_read, final_write) := match list.last counts with Some p => (snd (fst (fst p)), snd (fst p)) | None => (0, 0) end in
  let truncated := zlen shown <? zlen points in
  range ← pure_step (value_or Ret (lit "time_range") (JObject []) args);
  name ← arg (lit "name") args;
  let time t := JString (ew_format_time w t unit) in
  let summary := jobj [(lit "name", name); (lit "sampling_mode", JString (lit "clock_edge")); (lit "clock", JString (aclk c));
    (lit "edge", JString (sm_edge c)); (lit "sample_time_semantics", JString (lit "time is sample_time"));
    (lit "sample_count", JUint (zlen active)); (lit "peak_read", JInt peak_read); (lit "peak_write", JInt peak_write);
    (lit "peak_read_time", time peak_read_time); (lit "peak_write_time", time peak_write_time);
    (lit "first_nonzero_time", time first_nonzero); (lit "final_read", JInt final_read); (lit "final_write", JInt final_write);
    (lit "requested_range", jobj (range_summary w unit rq range))] in
  let summary := merge (set_nonempty (lit "sample_point") (sm_sample_point c) summary)
    (completeness_summary (scan_complete (rq_result rq)) truncated (zlen points) (zlen shown)) in
  mret (ok_response
    (when truncated (set_key (lit "truncation_scopes")
       (JArray [JString (if eqs (sm_sample_point c) (lit "before") then lit "response_change_points" else lit "response_transactions")]))
       summary)
    (jobj [(lit "change_points", JArray shown)]))).

(** *** axi.channel_stall *)

Definition stall_signals (c : AxiSignalMap) (channel : bytes) : option (bytes * bytes) :=
  if eqs channel (lit "aw") then Some (awvalid c, awready c)
  else if eqs channel (lit "w") then Some (wvalid c, wready c)
  else if eqs channel (lit "b") then Some (bvalid c, bready c)
  else if eqs channel (lit "ar") then Some (arvalid c, arready c)
  else if eqs channel (lit "r") then Some (rvalid c, rready c)
  else None.
(** The valid and ready signals, loaded, if both are found. *)
Definition stall_channel (signals : option (bytes * bytes)) : trial json W (option (Z * Z)) := fun w =>
  match signals with
  | None => (Ret (inr None), w)
  | Some (valid, ready) =>
      let '(rv, w) := ew_find_signal w valid in
      let '(rr, w) := ew_find_signal w ready in
      if (rv =? 0) || (rr =? 0) then (Ret (inr None), w) else (Ret (inr (Some (rv, rr))), snd (ew_load_signals w [rv; rr]))
  end.

Definition time_in_range (w : W) (t_begin t_end ti : Z) : bool := (t_begin <=? sb_time_at w ti) && (sb_time_at w ti <=? t_end).
Definition stall_indices (w : W) (refs : Z * Z) (t_begin t_end : Z) : list Z :=
  let set := foldl (fun set ti => if time_in_range w t_begin t_end ti then insert_index ti set else set) []
               (sb_time_indices_of w (fst refs) ++ sb_time_indices_of w (snd refs)) in
  let ti_begin := ew_time_idx_of w t_begin in
  if 0 <? ti_begin then insert_index ti_begin set else set.
(** The stalls, and whether every sample was known; [open] is the begin of
    the stall the loop is in. *)
Fixpoint find_stalls (w : W) (refs : Z * Z) (t_end : Z) (open : option Z) (indices : list Z) : list Stall * bool :=
  match indices with
  | [] => (match open with Some begin => [new_stall begin t_end] | None => [] end, true)
  | ti :: indices' =>
      let valid := read_raw_at w (fst refs) ti in
      let ready := read_raw_at w (snd refs) ti in
      if negb (known_binary valid) || negb (known_binary ready)
      then (fst (find_stalls w refs t_end open indices'), false)
      else if known_high valid && negb (known_high ready) then
        find_stalls w refs t_end (match open with Some begin => Some begin | None => Some (sb_time_at w ti) end) indices'
      else
        match open with
        | None => find_stalls w refs t_end None indices'
        | Some begin =>
            let '(stalls, known) := find_stalls w refs t_end None indices' in
            (new_stall begin (sb_time_at w ti) :: stalls, known)
        end
  end.

Definition channel_values (w : W) (point : ObservationPoint) (refs : list (Z * Z)) (ti : Z) : list (bytes * bytes) :=
  map (fun r => (read_signal_at w (fst r) ti point, read_signal_at w (snd r) ti point)) refs.
(** The time of the first edge at which some valid or ready differs from the
    edge before. *)
Fixpoint first_activity (w : W) (point : ObservationPoint) (refs : list (Z * Z)) (previous : list (bytes * bytes))
    (edges : list Z) : option Z :=
  match edges with
  | [] => None
  | ti :: edges' =>
      let current := channel_values w point refs ti in
      if bool_decide (current = previous) then first_activity w point refs current edges' else Some (sb_time_at w ti)
  end.
Definition activity_time (w : W) (point : ObservationPoint) (refs : list (Z * Z)) (t_end : Z) (edges : list Z) : Z :=
  match edges with
  | [] => t_end
  | ti :: edges' => default t_end (first_activity w point refs (channel_values w point refs ti) edges')
  end.
Definition ready_without_valid (w : W) (point : ObservationPoint) (refs : Z * Z) (ti : Z) : bool :=
  let valid := read_signal_at w (fst refs) ti point in
  let ready := read_signal_at w (snd refs) ti point in
  known_binary valid && known_binary ready && negb (known_high valid) && known_high ready.
Definition channel_transfers (channel : bytes) (r : AxiScanResult) : Z :=
  if eqs channel (lit "aw") then zlen (aw_events r)
  else if eqs channel (lit "w") then zlen (w_events r)
  else if eqs channel (lit "b") then zlen (b_events r)
  else if eqs channel (lit "ar") then zlen (ar_events r)
  else if eqs channel (lit "r") then zlen (r_events r)
  else 0.

(** The cycles of a stall: a tenth of its ticks. *)
Definition stall_cycles (s : Stall) : Z := stall_duration s / 10.
Definition stall_finding (w : W) (unit : TimeRenderUnit) (s : Stall) : json :=
  jobj [(lit "type", JString (lit "long_stall")); (lit "severity", JString (lit "warning"));
        (lit "begin", JString (ew_format_time w (stall_start s) unit)); (lit "end", JString (ew_format_time w (stall_end s) unit));
        (lit "cycles", JUint (stall_cycles s))].

Definition axi_channel_stall (req : json) : act St json := answered (
  rq ← axi_request getenv (lit "axi.channel_stall") req;
  let args := rq_args rq in
  let c := rq_config rq in
  let t_begin := rq_begin rq in
  let t_end := rq_end rq in
  channel ← string_arg (lit "channel") (lit "aw") args;
  refs ← on_waveform (stall_channel (stall_signals c channel));
  w ← current_wave;
  let '(stalls, known) := match refs with
                          | Some refs => find_stalls w refs t_end None (stall_indices w refs t_begin t_end)
                          | None => ([], true)
                          end in
  render ← render_args args;
  let unit := fst render in
  edges ← clock_edges c t_begin t_end;
  w ← current_wave;
  let active := activity_time w (axi_point c) (channel_refs (rq_result rq)) t_end edges in
  let idle := match refs with
              | Some refs => count_if (fun ti => (active <=? sb_time_at w ti) && ready_without_valid w (axi_point c) refs ti) edges
              | None => 0
              end in
  limit ← u32_arg trunc (lit "line_limit") 1000 args;
  let findings := map (stall_finding w unit) (take (Z.to_nat limit) stalls) in
  name ← arg (lit "name") args;
  range ← pure_step (value_or Ret (lit "time_range") (JObject []) args);
  let summary := jobj [(lit "name", name); (lit "channel", JString channel); (lit "sampling_mode", JString (lit "clock_edge"));
    (lit "clock", JString (aclk c)); (lit "edge", JString (sm_edge c));
    (lit "sample_time_semantics", JString (lit "time is sample_time")); (lit "sample_count", JUint (zlen edges));
    (lit "transfer_count", JUint (channel_transfers channel (rq_result rq)));
    (lit "max_stall_cycles", JUint (foldl Z.max 0 (map stall_cycles stalls)));
    (lit "ready_without_valid_cycles", JUint idle); (lit "first_activity_time", JString (ew_format_time w active unit));
    (lit "scanned_range", jobj (range_summary w unit rq range))] in
  mret (ok_response
    (merge (set_nonempty (lit "sample_point") (sm_sample_point c) summary)
       (completeness_summary known (zlen findings <? zlen stalls) (zlen stalls) (zlen findings)))
    (jobj [(lit "findings", JArray findings)]))).
End Queries.
