(* ===== verification/AxiAnalysis.v ===== *)
(** * AxiAnalysis: latencies, outstanding depths and the export

    Models [axi.analysis] and [axi.export] of
    [src/engine/actions/protocol/axi_actions.cpp]. *)

From S2P Require Import Prelude CLib Json LogicValue Waveform ClockSampling SessionTypes Sorting Engine Apb Axi AxiActions AxiQuery.

Open Scope Z_scope.

(** ** Outstanding depth *)

Record DepthEvent := MkDepth { de_time : Z; de_read : Z; de_write : Z }.
Definition depth_events (direction : bytes) (t : AxiTransaction) : list DepthEvent :=
  if negb (in_direction direction t) || (tx_complete t && (tx_end_time t <=? tx_start_time t)) then []
  else
    let change time by_ := if tx_is_write t then MkDepth time 0 by_ else MkDepth time by_ 0 in
    change (tx_start_time t) 1 :: (if tx_complete t then [change (tx_end_time t) (-1)] else []).

(** The depths at the times of the edges, the events not seen yet in order. *)
Fixpoint sweep (read write : Z) (events : list DepthEvent) (times : list Z) : list (Z * Z) :=
  match times with
  | [] => []
  | time :: times' =>
      let '(seen, events) := span (fun e => de_time e <=? time) events in
      let read := foldl (fun n e => n + de_read e) read seen in
      let write := foldl (fun n e => n + de_write e) write seen in
      (u64 read, u64 write) :: sweep read write events times'
  end.

Definition sum_u64 (values : list Z) : Z := foldl (fun sum v => u64 (sum + v)) 0 values.
Definition min_value (values : list Z) : Z := match values with [] => 0 | v :: l => foldl Z.min v l end.
Definition max_value (values : list Z) : Z := match values with [] => 0 | v :: l => foldl Z.max v l end.

(** ** Latencies *)

(** The value at the nearest rank of sorted values. *)
Definition percentile (numerator : Z) (sorted : list Z) : Z :=
  match sorted with
  | [] => 0
  | _ => default 0 (sorted !! Z.to_nat (Z.min (zlen sorted - 1) ((zlen sorted * numerator + 99) / 100 - 1)))
  end.

Definition slowest (txns : list AxiTransaction) : option AxiTransaction :=
  foldl (fun best t => match best with
                       | None => Some t
                       | Some b => if tx_latency b <? tx_latency t then Some t else best
                       end) None txns.
Definition phase_count (phase : bytes) (txns : list AxiTransaction) : bytes * json :=
  (phase, JUint (count_if (fun t => tx_is_write t && eqs (axi_write_phase_order t) phase) txns)).

(** ** Counters by ID *)

Definition bump_id (id : bytes) (counts : list (bytes * Z)) : list (bytes * Z) := mset id (default 0 (mget id counts) + 1) counts.
Definition counts_json (counts : list (bytes * Z)) : json := JObject (map (fun item => (fst item, JInt (snd item))) counts).
Definition ids_json (counts : list (bytes * Z)) : json := JArray (map (fun item => JString (fst item)) counts).

Record OutstandingEvent := MkOutstanding { oe_time : Z; oe_start : bool; oe_write : bool; oe_id : bytes }.
(** By time, starts first. *)
Definition event_before (a b : OutstandingEvent) : bool :=
  if negb (oe_time a =? oe_time b) then oe_time a <? oe_time b else oe_start a && negb (oe_start b).
Definition outstanding_events (t : AxiTransaction) : list OutstandingEvent :=
  let id := render_unwidth_hex (tx_id t) in
  [MkOutstanding (tx_start_time t) true (tx_is_write t) id; MkOutstanding (tx_end_time t) false (tx_is_write t) id].

(** The counters of one direction. *)
Record Occupancy := MkOccupancy {
  oc_current : Z;
  oc_maximum : Z;
  oc_current_by_id : list (bytes * Z);
  oc_maximum_by_id : list (bytes * Z);
}.
Definition occupancy_step (write : bool) (oc : Occupancy) (e : OutstandingEvent) : Occupancy :=
  if negb (Bool.eqb (oe_write e) write) then oc
  else
    let by_id := default 0 (mget (oe_id e) (oc_current_by_id oc)) in
    if oe_start e then
      MkOccupancy (oc_current oc + 1) (Z.max (oc_maximum oc) (oc_current oc + 1)) (mset (oe_id e) (by_id + 1) (oc_current_by_id oc))
        (mset (oe_id e) (Z.max (default 0 (mget (oe_id e) (oc_maximum_by_id oc))) (by_id + 1)) (oc_maximum_by_id oc))
    else
      MkOccupancy (if 0 <? oc_current oc then oc_current oc - 1 else oc_current oc) (oc_maximum oc)
        (mset (oe_id e) (if 0 <? by_id then by_id - 1 else by_id) (oc_current_by_id oc)) (oc_maximum_by_id oc).
Definition occupancy (write : bool) (events : list OutstandingEvent) : Occupancy :=
  foldl (occupancy_step write) (MkOccupancy 0 0 [] []) events.

Section Analysis.
Context {W : Type} `{EngineWave W} `{StdSort}.
Context (getenv : bytes -> option bytes) (trunc : bytes -> Z) (quotient : Z -> Z -> bytes) (dump_pretty : json -> bytes)
  (can_open : bytes -> bool).
Abbreviation St := (AxiState W).

(** ** axi.analysis *)

Definition axi_range_json (w : W) (unit : TimeRenderUnit) (begin end_ : Z) : json :=
  jobj [(lit "begin", JString (ew_format_time w begin unit)); (lit "end", JString (ew_format_time w end_ unit))].
Definition common_summary (w : W) (unit : TimeRenderUnit) (rq : AxiRequest) (name : json) (analysis direction : bytes)
    (edges : list Z) (txns : list AxiTransaction) : list (bytes * json) :=
  let r := rq_result rq in
  let completed write := count_if (fun t => tx_complete t && Bool.eqb (tx_is_write t) write) txns in
  let incomplete write := count_if (fun t => negb (tx_complete t) && Bool.eqb (tx_is_write t) write) txns in
  [(lit "name", name); (lit "analysis", JString analysis); (lit "direction", JString direction);
   (lit "sample_count", JUint (zlen edges)); (lit "full_scan_count", JInt 1);
   (lit "scanned_range", axi_range_json w unit (rq_begin rq) (rq_end rq));
   (lit "completed_read_count", JUint (completed false)); (lit "completed_write_count", JUint (completed true));
   (lit "incomplete_read_count", JUint (incomplete false)); (lit "incomplete_write_count", JUint (incomplete true));
   (lit "channel_handshakes", jobj [(lit "aw", JUint (zlen (aw_events r))); (lit "w", JUint (zlen (w_events r)));
      (lit "b", JUint (zlen (b_events r))); (lit "ar", JUint (zlen (ar_events r))); (lit "r", JUint (zlen (r_events r)))])]
  ++ zero_diagnostics.

Definition pending_json (w : W) (unit : TimeRenderUnit) (format : ValueRenderFormat) (t_end : Z) (t : AxiTransaction) : json :=
  let item := jobj [(lit "direction", JString (if tx_is_write t then lit "write" else lit "read"));
    (lit "request_time", JString (ew_format_time w (tx_start_time t) unit));
    (lit "age", JString (ew_format_time w (if tx_start_time t <=? t_end then t_end - tx_start_time t else 0) unit));
    (lit "addr", JString (render_bits (tx_address t) format)); (lit "id", JString (render_bits (tx_id t) format));
    (lit "len", JString (render_bits (tx_length t) format));
    (lit "expected_beat_count", expected_beats (zlen (tx_length t) <=? 64) t);
    (lit "observed_beat_count", JUint (zlen (tx_data_beats t))); (lit "data_complete", JBool false)] in
  when (tx_is_write t) (set_key (lit "phase_order") (JString (axi_write_phase_order t))) item.
Definition pending_answer (w : W) (unit : TimeRenderUnit) (format : ValueRenderFormat) (rq : AxiRequest) (limit : Z)
    (common : list (bytes * json)) (txns : list AxiTransaction) : json :=
  let incomplete := List.filter (fun t => negb (tx_complete t)) txns in
  let pending := map (pending_json w unit format (rq_end rq)) (take (Z.to_nat limit) incomplete) in
  ok_response
    (merge (jobj common) (completeness_summary (scan_complete (rq_result rq)) (zlen pending <? zlen incomplete)
                            (zlen incomplete) (zlen pending)))
    (jobj [(lit "pending_transactions", JArray pending)]).

Definition depth_stats (values : list Z) : json :=
  let average := match values with [] => lit "0.0" | _ => quotient (sum_u64 values) (zlen values) end in
  let stats := jobj [(lit "samples", JUint (zlen values)); (lit "min", JUint (min_value values));
                     (lit "max", JUint (max_value values)); (lit "avg", JFloat average)] in
  match values with [] => set_key (lit "status") (JString (lit "empty")) stats | _ => stats end.
Definition osd_depths (w : W) (c : AxiSignalMap) (reset_ref : Z) (direction : bytes) (txns : list AxiTransaction)
    (edges : list Z) : list (Z * Z) :=
  sweep 0 0 (std_sort de_time (List.concat (map (depth_events direction) txns)))
    (map (sb_time_at w) (List.filter (released w c reset_ref) edges)).
Definition osd_answer (rq : AxiRequest) (common : list (bytes * json)) (depths : list (Z * Z)) : json :=
  let combined := map (fun d => u64 (fst d + snd d)) depths in
  let final pick := match list.last depths with Some d => JUint (pick d) | None => JUint 0 end in
  let total := depth_stats combined in
  let summary := foldl (fun j k => set_key k (jat k total) j) (jobj common) [lit "samples"; lit "min"; lit "max"; lit "avg"] in
  ok_response
    (merge summary (completeness_summary (scan_complete (rq_result rq)) false (zlen combined) (zlen combined)))
    (jobj [(lit "osd", jobj [(lit "read", depth_stats (map fst depths)); (lit "write", depth_stats (map snd depths));
       (lit "final_read", final fst); (lit "final_write", final snd);
       (lit "definitions", jobj [
          (lit "read", JString (lit "increment on AR handshake, decrement on RLAST handshake"));
          (lit "write", JString (lit "increment on AW handshake, decrement on B handshake"))])])]).

Definition latency_stats (w : W) (unit : TimeRenderUnit) (values : list Z) : json :=
  let sorted := std_sort (fun v => v) values in
  let time t := JString (ew_format_time w t unit) in
  jobj [(lit "samples", JUint (zlen sorted)); (lit "min", time (default 0 (list.head sorted)));
        (lit "max", time (default 0 (list.last sorted)));
        (lit "avg", time (match sorted with [] => 0 | _ => sum_u64 sorted / zlen sorted end));
        (lit "p50", time (percentile 50 sorted)); (lit "p95", time (percentile 95 sorted)); (lit "p99", time (percentile 99 sorted))].
Definition latency_answer (w : W) (unit : TimeRenderUnit) (format : ValueRenderFormat) (rq : AxiRequest)
    (common : list (bytes * json)) (txns : list AxiTransaction) : json :=
  let completed := List.filter tx_complete txns in
  let latencies write := map tx_latency (List.filter (fun t => Bool.eqb (tx_is_write t) write) completed) in
  let all := latencies false ++ latencies true in
  let total := latency_stats w unit all in
  let summary := foldl (fun j k => set_key k (jat k total) j) (set_key (lit "samples") (JUint (zlen all)) (jobj common))
                   [lit "min"; lit "avg"; lit "max"; lit "p50"; lit "p95"; lit "p99"] in
  let summary := set_value_width_complete
    (merge summary (completeness_summary (scan_complete (rq_result rq)) false (zlen all) (zlen all))) in
  let latency := jobj [(lit "read", latency_stats w unit (latencies false)); (lit "write", latency_stats w unit (latencies true));
    (lit "definitions", jobj [(lit "read", JString (lit "AR handshake to RLAST handshake"));
                              (lit "write", JString (lit "AW handshake to B handshake"))]);
    (lit "write_phase_order_counts",
       jobj (map (fun phase => phase_count phase completed) [lit "aw_before_w"; lit "same_cycle"; lit "w_before_aw"; lit "unknown"]))] in
  let data := jobj [(lit "latency", latency)] in
  ok_response summary
    (match slowest completed with
     | Some t => set_key (lit "slowest") (axi_txn_json t w unit format false false) data
     | None => data
     end).

Definition axi_analysis (req : json) : act St json := answered (
  rq ← axi_request getenv (lit "axi.analysis") req;
  let args := rq_args rq in
  let c := rq_config rq in
  render ← render_args args;
  let '(unit, format) := render in
  analysis ← string_arg (lit "analysis") (lit "latency") args;
  direction ← string_arg (lit "direction") (lit "all") args;
  let txns := List.filter (in_direction direction) (axi_transactions (rq_result rq)) in
  edges ← clock_edges c (rq_begin rq) (rq_end rq);
  if eqs analysis (lit "pending") then
    limit ← u32_arg trunc (lit "line_limit") 1000 args;
    name ← arg (lit "name") args;
    w ← current_wave;
    mret (pending_answer w unit format rq limit (common_summary w unit rq name analysis direction edges txns) txns)
  else if eqs analysis (lit "osd") then
    reset_ref ← find_ref (aresetn c);
    name ← arg (lit "name") args;
    w ← current_wave;
    mret (osd_answer rq (common_summary w unit rq name analysis direction edges txns)
            (osd_depths w c reset_ref direction (axi_transactions (rq_result rq)) edges))
  else
    name ← arg (lit "name") args;
    w ← current_wave;
    mret (latency_answer w unit format rq (common_summary w unit rq name analysis direction edges txns) txns)).

(** ** axi.export *)

Definition axi_separator (file_format : bytes) : bytes := if eqs file_format (lit "csv") then lit "," else [chr 9].
(** The columns with the separator between them, and a newline. *)
Fixpoint export_line (separator : bytes) (columns : list bytes) : bytes :=
  match columns with
  | [] => [newline]
  | [column] => column ++ [newline]
  | column :: columns' => column ++ separator ++ export_line separator columns'
  end.
Definition export_columns : list bytes :=
  [lit "seq"; lit "completion_time"; lit "addr_time"; lit "first_data_time"; lit "last_data_time"; lit "latency";
   lit "phase_order"; lit "response_dependency_violation"; lit "id"; lit "addr"; lit "len"; lit "size"; lit "burst"; lit "resp";
   lit "beat_count"; lit "expected_beat_count"].
Definition export_row (w : W) (unit : TimeRenderUnit) (t : AxiTransaction) : list bytes :=
  let time z := ew_format_time w z unit in
  let first_data := match tx_data_events t with [] => tx_start_time t | e :: _ => ev_time e end in
  let last_data := match list.last (tx_data_events t) with None => tx_start_time t | Some e => ev_time e end in
  [to_string (tx_index t + 1); time (tx_end_time t); time (tx_start_time t); time first_data; time last_data;
   time (u64 (tx_end_time t - tx_start_time t)); (if tx_is_write t then axi_write_phase_order t else []); lit "false";
   render_unwidth_hex (tx_id t); render_unwidth_hex (tx_address t); render_unwidth_hex (tx_length t);
   render_unwidth_hex (tx_size t); render_unwidth_hex (tx_burst t); render_unwidth_hex (tx_resp t);
   to_string (zlen (tx_data_events t)); to_string (axi_expected_beat_count t)].
Definition export_text (w : W) (unit : TimeRenderUnit) (separator : bytes) (txns : list AxiTransaction) : bytes :=
  export_line separator export_columns ++ List.concat (map (fun t => export_line separator (export_row w unit t)) txns).

Definition open_output (path : bytes) (s : St) : St :=
  if can_open path then MkAxiState (xs_wave s) (axi_configs s) (axi_cursors s) (mset path [] (xs_files s)) else s.
Definition write_output (path contents : bytes) (s : St) : St :=
  MkAxiState (xs_wave s) (axi_configs s) (axi_cursors s) (mset path contents (xs_files s)).

Definition of_direction (write : bool) (txns : list AxiTransaction) : list AxiTransaction :=
  List.filter (fun t => tx_complete t && Bool.eqb (tx_is_write t) write) txns.
Definition count_by (key : AxiTransaction -> bytes) (txns : list AxiTransaction) : list (bytes * Z) :=
  foldl (fun counts t => bump_id (render_unwidth_hex (key t)) counts) [] txns.

Definition export_meta (w : W) (unit : TimeRenderUnit) (rq : AxiRequest) (name : json)
    (file_format write_path read_path meta_path : bytes) (sample_count : Z) : json :=
  let txns := axi_transactions (rq_result rq) in
  let writes := of_direction true txns in
  let reads := of_direction false txns in
  let incomplete write := count_if (fun t => negb (tx_complete t) && Bool.eqb (tx_is_write t) write) txns in
  let events := stable_sort event_before (List.concat (map outstanding_events (List.filter tx_complete txns))) in
  let time t := JString (ew_format_time w t unit) in
  jobj ([(lit "name", name); (lit "format", JString file_format);
    (lit "begin", time (rq_begin rq)); (lit "end", time (rq_end rq)); (lit "scan_begin", time (rq_begin rq));
    (lit "scan_end", time (Z.min (rq_end rq) (ew_max_time w)));
    (lit "sample_count", JUint sample_count); (lit "full_scan_count", JInt 1);
    (lit "analysis_complete", JBool (scan_complete (rq_result rq)));
    (lit "write_file", JString write_path); (lit "read_file", JString read_path); (lit "meta_file", JString meta_path);
    (lit "write_count", JUint (zlen writes)); (lit "read_count", JUint (zlen reads));
    (lit "total_count", JUint (zlen writes + zlen reads));
    (lit "unique_write_ids", ids_json (count_by tx_id writes)); (lit "unique_read_ids", ids_json (count_by tx_id reads));
    (lit "write_count_by_id", counts_json (count_by tx_id writes)); (lit "read_count_by_id", counts_json (count_by tx_id reads));
    (lit "max_write_outstanding_by_id", counts_json (oc_maximum_by_id (occupancy true events)));
    (lit "max_read_outstanding_by_id", counts_json (oc_maximum_by_id (occupancy false events)));
    (lit "max_total_write_outstanding", JInt (oc_maximum (occupancy true events)));
    (lit "max_total_read_outstanding", JInt (oc_maximum (occupancy false events)));
    (lit "burst_histogram", counts_json (count_by tx_burst (List.filter tx_complete txns)));
    (lit "beat_count_mismatch_count", JInt 0);
    (lit "incomplete_write_count", JUint (incomplete true)); (lit "incomplete_read_count", JUint (incomplete false));
    (lit "reset_cleared_write_count", JInt 0); (lit "reset_cleared_read_count", JInt 0)] ++ zero_diagnostics).

Definition axi_export (req : json) : act St json := answered (
  rq ← axi_request getenv (lit "axi.export") req;
  let args := rq_args rq in
  let c := rq_config rq in
  render ← render_args args;
  let unit := fst render in
  if negb (match jget (lit "output") args with Some output => jcontains (lit "path") output | None => false end)
  then stop (error_response (lit "INVALID_FIELD") (lit "axi.export requires output.path"))
  else
    output ← arg (lit "output") args;
    prefix ← pure_step (string_at_key (lit "path") output);
    file_format ← string_arg (lit "file_format") (lit "tsv") output;
    let write_path := prefix ++ lit ".write." ++ file_format in
    let read_path := prefix ++ lit ".read." ++ file_format in
    let meta_path := prefix ++ lit ".meta.json" in
    s ← run_step get_state;
    _ ← run_step (put_state (open_output meta_path (open_output read_path (open_output write_path s))));
    if negb (can_open write_path && can_open read_path && can_open meta_path)
    then stop (error_response (lit "OUTPUT_WRITE_FAILED") (lit "cannot open AXI export output"))
    else
      let separator := axi_separator file_format in
      let txns := axi_transactions (rq_result rq) in
      let writes := of_direction true txns in
      let reads := of_direction false txns in
      w ← current_wave;
      s ← run_step get_state;
      _ ← run_step (put_state (write_output read_path (export_text w unit separator reads)
                                 (write_output write_path (export_text w unit separator writes) s)));
      edges ← clock_edges c (rq_begin rq) (rq_end rq);
      name ← arg (lit "name") args;
      w ← current_wave;
      s ← run_step get_state;
      _ ← run_step (put_state (write_output meta_path
            (dump_pretty (export_meta w unit rq name file_format write_path read_path meta_path (zlen edges)) ++ [newline]) s));
      edges ← clock_edges c (rq_begin rq) (rq_end rq);
      w ← current_wave;
      let total := zlen writes + zlen reads in
      let summary := jobj ([(lit "name", name); (lit "write_count", JUint (zlen writes)); (lit "read_count", JUint (zlen reads));
        (lit "row_count", JUint total); (lit "format", JString file_format); (lit "status", JString (lit "written"));
        (lit "output_written", JBool true); (lit "sample_count", JUint (zlen edges)); (lit "full_scan_count", JInt 1);
        (lit "incomplete_write_count", JUint (count_if (fun t => negb (tx_complete t) && tx_is_write t) txns));
        (lit "incomplete_read_count", JUint (count_if (fun t => negb (tx_complete t) && negb (tx_is_write t)) txns));
        (lit "requested_range", axi_range_json w unit (rq_begin rq) (rq_end rq));
        (lit "scanned_range", axi_range_json w unit (rq_begin rq) (Z.min (rq_end rq) (ew_max_time w)));
        (lit "output", strings [(lit "path", prefix); (lit "write_path", write_path); (lit "read_path", read_path);
                                (lit "meta_path", meta_path); (lit "file_format", file_format)])] ++ zero_diagnostics) in
      mret (ok_response (merge summary (completeness_summary (scan_complete (rq_result rq)) false total total)) (JObject []))).
End Analysis.
