(* ===== verification/AxiTheory.v ===== *)
(** * AxiTheory: what the AXI reconstruction gets right

    Bursts bind to addresses in their order, responses to the oldest write
    with a whole burst of their ID and read beats to the oldest read of their
    ID, however equal times are sorted; the handshakes of a channel are exactly
    the edges at which both sides are known to be high; and the one pass that
    measures outstanding depths gives what a rescan of every transaction at
    every edge would. *)

From stdpp Require Import sorting.
From S2P Require Import Prelude CLib Json LogicValue Waveform ClockSampling SessionTypes Sorting Engine Apb Axi AxiActions AxiQuery AxiAnalysis.

Open Scope Z_scope.

(** ** Bursts *)

Definition has_id (id : bytes) (e : AxiHandshakeEvent) : bool := eqs (ev_id e) id.

(** A burst: its last beat, and no other, has [last]. *)
Definition burst_ok (burst : list AxiHandshakeEvent) : Prop := exists body e,
  burst = body ++ [e] /\ ev_last e = true /\ Forall (fun x => ev_last x = false) body.

Lemma split_bursts_spec events : forall current, Forall (fun x => ev_last x = false) current ->
  let '(bursts, rest) := split_bursts current events in
  List.concat bursts ++ rest = current ++ events /\ Forall burst_ok bursts /\ Forall (fun x => ev_last x = false) rest.
Proof.
  induction events as [|e events IH]; intros current Hc; cbn [split_bursts]; [by rewrite app_nil_r|].
  destruct (ev_last e) eqn:El.
  - specialize (IH [] ltac:(constructor)). destruct (split_bursts [] events) as [bursts rest]. destruct IH as (H1 & H2 & H3).
    cbn [List.concat]. split_and!; [|constructor; [by exists current, e|done]|done].
    rewrite <- !app_assoc, H1. done.
  - specialize (IH (current ++ [e])). destruct (split_bursts (current ++ [e]) events) as [bursts rest].
    destruct IH as (H1 & H2 & H3); [apply Forall_app; split; [done|by repeat constructor]|]. split_and!; [|done..].
    by rewrite H1, <- app_assoc.
Qed.

(** ** Queues by ID *)

Definition queue_of {A} (id : bytes) (queues : list (bytes * list A)) : list A := default [] (mget id queues).

Lemma queue_set {A} id id' (q : list A) queues : queue_of id (mset id' q queues) = if eqs id' id then q else queue_of id queues.
Proof.
  unfold queue_of. destruct (eqs id' id) eqn:E; [apply eqs_true in E as ->; by rewrite mget_mset_eq|].
  apply eqs_false in E. by rewrite mget_mset_ne.
Qed.
Lemma queue_push {A} id id' (x : A) queues :
  queue_of id (push_queue id' x queues) = queue_of id queues ++ (if eqs id' id then [x] else []).
Proof.
  unfold push_queue. rewrite queue_set. destruct (eqs id' id) eqn:E; [|by rewrite app_nil_r]. apply eqs_true in E as ->. done.
Qed.

(** The elements of all the queues. *)
Definition queued_all {A} (queues : list (bytes * list A)) : list A := List.concat (map snd queues).

#[export] Instance queued_all_perm {A} : Proper ((≡ₚ) ==> (≡ₚ)) (@queued_all A).
Proof. intros q q' Hq. unfold queued_all. induction Hq; cbn; [done|by f_equiv|by rewrite !app_assoc, (Permutation_app_comm (snd x))|by etransitivity]. Qed.

Lemma queued_set {A} id (q : list A) queues : msorted queues = true ->
  queue_of id queues ++ queued_all (mset id q queues) ≡ₚ q ++ queued_all queues.
Proof.
  intros Hs. unfold queue_of. destruct (mget id queues) as [q0|] eqn:E; cbn.
  - pose proof (queued_all_perm _ _ (mdel_perm id queues q0 E)) as Hd. cbn in Hd.
    rewrite (mset_del_perm id queues q q0 Hs E). fold (queued_all (mdel id queues)) in Hd. rewrite Hd. cbn.
    rewrite !app_assoc. apply Permutation_app; [apply Permutation_app_comm|done].
  - by rewrite (mset_perm id queues q E).
Qed.
Lemma queued_push {A} id (x : A) queues : msorted queues = true ->
  queued_all (push_queue id x queues) ≡ₚ queued_all queues ++ [x].
Proof.
  intros Hs. apply (Permutation_app_inv_l (queue_of id queues)). unfold push_queue. rewrite queued_set by done.
  fold (queue_of id queues). rewrite <- app_assoc. f_equiv. apply Permutation_app_comm.
Qed.
Lemma push_sorted {A} id (x : A) queues : msorted queues = true -> msorted (push_queue id x queues) = true.
Proof. apply mset_sorted. Qed.

(** ** Writes *)

Section Writes.
Context (aw_events : list AxiHandshakeEvent).

(** The writes with a whole burst, in the order of their addresses. *)
Definition paired_writes (bursts : list (list AxiHandshakeEvent)) : list PendingWrite :=
  zip_with write_of (List.seq 0 (length aw_events)) bursts.
Definition write_id (pw : PendingWrite) : bytes := ev_id (event_at aw_events (pw_aw_idx pw)).
Definition writes_of_id (id : bytes) (bursts : list (list AxiHandshakeEvent)) : list PendingWrite :=
  List.filter (fun pw => eqs (write_id pw) id) (paired_writes bursts).

Lemma pair_bursts_queue id bursts : forall index queues,
  queue_of id (pair_bursts aw_events index bursts queues) =
  queue_of id queues ++ List.filter (fun pw => eqs (write_id pw) id)
    (zip_with write_of (List.seq index (length aw_events - index)) bursts).
Proof.
  induction bursts as [|burst bursts IH]; intros index queues; cbn [pair_bursts].
  { destruct (List.seq index _); cbn; by rewrite app_nil_r. }
  destruct (index <? length aw_events)%nat eqn:E.
  - apply Nat.ltb_lt in E. rewrite IH, queue_push. replace (length aw_events - index)%nat with (S (length aw_events - S index)) by lia.
    cbn [List.seq zip_with List.filter]. unfold write_id at 2. cbn [pw_aw_idx write_of].
    destruct (eqs _ id); by rewrite <- app_assoc.
  - apply Nat.ltb_ge in E. replace (length aw_events - index)%nat with 0%nat by lia. cbn. by rewrite app_nil_r.
Qed.

Definition completed_write (pw : PendingWrite) (b : AxiHandshakeEvent) : AxiTransaction := write_transaction aw_events pw (Some b).
Definition tx_has_id (id : bytes) (t : AxiTransaction) : bool := eqs (tx_id t) id.

(** Responses take the writes of their ID from the front. *)
Lemma match_responses_id id b_events : forall queues,
  let '(done, queued, orphans) := match_responses aw_events b_events queues in
  let bs := List.filter (has_id id) b_events in
  List.filter (tx_has_id id) done = zip_with completed_write (queue_of id queues) bs /\
  queue_of id queued = drop (length bs) (queue_of id queues) /\
  List.filter (has_id id) orphans = drop (length (queue_of id queues)) bs.
Proof.
  induction b_events as [|b b_events IH]; intros queues; cbn [match_responses].
  { cbn. by destruct (queue_of id queues). }
  cbn [List.filter]. change (has_id id b) with (eqs (ev_id b) id).
  destruct (queue_of (ev_id b) queues) as [|pw more] eqn:Eq.
  - assert (match mget (ev_id b) queues with Some (_ :: _) => False | _ => True end) as Hm.
    { unfold queue_of in Eq. destruct (mget (ev_id b) queues); [|done]. cbn in Eq. by subst. }
    specialize (IH queues). destruct (match_responses aw_events b_events queues) as [[fin queued] orphans].
    destruct (mget (ev_id b) queues) as [[|pw more]|]; [|by destruct Hm|]; cbn [List.filter];
      change (has_id id b) with (eqs (ev_id b) id); (destruct (eqs (ev_id b) id) eqn:E; [|exact IH]);
      apply eqs_true in E; subst id; rewrite Eq in *; destruct IH as (H1 & H2 & H3); cbn in *; rewrite ?drop_nil in *;
      (split_and!; [done|done|by rewrite H3]).
  - assert (mget (ev_id b) queues = Some (pw :: more)) as -> .
    { unfold queue_of in Eq. destruct (mget (ev_id b) queues); cbn in Eq; congruence. }
    specialize (IH (mset (ev_id b) more queues)). destruct (match_responses aw_events b_events _) as [[fin queued] orphans].
    rewrite queue_set in IH. cbn [List.filter]. change (tx_has_id id (write_transaction aw_events pw (Some b))) with (eqs (ev_id b) id).
    destruct (eqs (ev_id b) id) eqn:E; [|exact IH]. apply eqs_true in E. subst id. rewrite Eq. cbn. destruct IH as (H1 & H2 & H3).
    by rewrite H1, H2, H3.
Qed.

Lemma pair_bursts_all bursts : forall index queues, msorted queues = true ->
  msorted (pair_bursts aw_events index bursts queues) = true /\
  queued_all (pair_bursts aw_events index bursts queues) ≡ₚ
    queued_all queues ++ zip_with write_of (List.seq index (length aw_events - index)) bursts.
Proof.
  induction bursts as [|burst bursts IH]; intros index queues Hs; cbn [pair_bursts].
  { split; [done|]. destruct (List.seq index _); by rewrite app_nil_r. }
  destruct (index <? length aw_events)%nat eqn:E.
  - apply Nat.ltb_lt in E. destruct (IH (S index) _ (push_sorted (ev_id (event_at aw_events index)) (write_of index burst) queues Hs)) as [H1 H2].
    split; [done|]. rewrite H2, queued_push by done. replace (length aw_events - index)%nat with (S (length aw_events - S index)) by lia.
    by rewrite <- app_assoc.
  - apply Nat.ltb_ge in E. split; [done|]. replace (length aw_events - index)%nat with 0%nat by lia. by rewrite app_nil_r.
Qed.

(** Every queued write is completed by one response or stays queued. *)
Lemma match_responses_all b_events : forall queues, msorted queues = true ->
  let '(fin, queued, orphans) := match_responses aw_events b_events queues in
  exists pws bs, fin = zip_with completed_write pws bs /\ length pws = length bs /\
    pws ++ queued_all queued ≡ₚ queued_all queues /\ orphans `sublist_of` b_events.
Proof.
  induction b_events as [|b b_events IH]; intros queues Hs; cbn [match_responses]; [by exists [], []|].
  destruct (mget (ev_id b) queues) as [[|pw more]|] eqn:Eq.
  1,3: specialize (IH queues Hs); destruct (match_responses aw_events b_events queues) as [[fin queued] orphans];
    destruct IH as (pws & bs & H1 & H2 & H3 & H4); exists pws, bs; by repeat (split; [done|]); constructor.
  specialize (IH _ (mset_sorted (ev_id b) more queues Hs)). destruct (match_responses aw_events b_events _) as [[fin queued] orphans].
  destruct IH as (pws & bs & -> & H2 & H3 & H4). exists (pw :: pws), (b :: bs). split_and!; [done|cbn; by rewrite H2| |by constructor].
  cbn [app]. rewrite H3. pose proof (queued_set (ev_id b) more queues Hs) as Hq. unfold queue_of in Hq. rewrite Eq in Hq. cbn in Hq.
  apply (Permutation_app_inv_l more). rewrite <- Hq. by rewrite Permutation_middle.
Qed.

(** What a transaction says of its address handshake. *)
Definition ev_request (e : AxiHandshakeEvent) : Z * Z * Z * bytes * bytes * bytes * bytes :=
  (ev_time e, ev_time_idx e, ev_valid_begin_time e, ev_addr e, ev_len e, ev_size e, ev_burst e).
Definition tx_request (t : AxiTransaction) : Z * Z * Z * bytes * bytes * bytes * bytes :=
  (tx_start_time t, tx_start_time_idx t, tx_address_valid_begin_time t, tx_address t, tx_length t, tx_size t, tx_burst t).

Lemma write_request pw r : tx_request (write_transaction aw_events pw r) = ev_request (event_at aw_events (pw_aw_idx pw)).
Proof. by destruct r. Qed.
Lemma paired_indices bursts : map pw_aw_idx (paired_writes bursts) = List.seq 0 (Nat.min (length aw_events) (length bursts)).
Proof.
  unfold paired_writes. generalize 0%nat as k. revert bursts. induction (length aw_events) as [|n IH]; intros [|b bursts] k; [done..|].
  cbn. f_equal. apply IH.
Qed.
Lemma pending_indices n paired rest : map pw_aw_idx (pending_writes n paired rest) = List.seq paired (n - paired).
Proof.
  unfold pending_writes. destruct (List.seq paired (n - paired)) as [|i l]; [done|]. cbn. rewrite map_map, map_id. by destruct rest.
Qed.
Lemma requests_all : map (fun i => ev_request (event_at aw_events i)) (List.seq 0 (length aw_events)) = map ev_request aw_events.
Proof.
  apply list_eq. intros i. rewrite !list_lookup_fmap. destruct (aw_events !! i) as [e|] eqn:E.
  - rewrite lookup_seq_lt by (by eapply lookup_lt_Some). cbn. unfold event_at. by rewrite E.
  - rewrite lookup_seq_ge by (by apply lookup_ge_None). done.
Qed.
End Writes.


Lemma filter_incomplete {A} (f : A -> AxiTransaction) p l : (forall a, tx_complete (f a) = false) ->
  List.filter (fun t => tx_complete t && p t) (map f l) = [].
Proof. intros Hf. induction l as [|a l IH]; [done|]. cbn [map List.filter]. by rewrite Hf. Qed.
Lemma filter_completed {A B} (f : A -> B -> AxiTransaction) p l l' : (forall a b, tx_complete (f a b) = true) ->
  List.filter (fun t => tx_complete t && p t) (zip_with f l l') = List.filter p (zip_with f l l').
Proof.
  intros Hf. revert l'. induction l as [|a l IH]; intros [|b l']; [done..|]. cbn [zip_with List.filter]. rewrite Hf. cbn [andb]. by rewrite IH.
Qed.

(** The bursts the beats of the write channel make, and the beats after the
    last of them. *)
Definition write_bursts (w_events : list AxiHandshakeEvent) : list (list AxiHandshakeEvent) := fst (split_bursts [] w_events).
Definition open_burst (w_events : list AxiHandshakeEvent) : list AxiHandshakeEvent := snd (split_bursts [] w_events).

Lemma assemble_writes_split aw w b : exists pws bs queued orphans,
  assemble_writes aw w b = zip_with (completed_write aw) pws bs
    ++ map (fun pw => write_transaction aw pw None)
         (queued_all queued ++ pending_writes (length aw) (Nat.min (length aw) (length (write_bursts w))) (open_burst w))
    ++ map orphan_response orphans /\
  length pws = length bs /\ pws ++ queued_all queued ≡ₚ paired_writes aw (write_bursts w) /\ orphans `sublist_of` b /\
  forall id, List.filter (tx_has_id id) (zip_with (completed_write aw) pws bs) =
      zip_with (completed_write aw) (writes_of_id aw id (write_bursts w)) (List.filter (has_id id) b) /\
    List.filter (has_id id) orphans = drop (length (writes_of_id aw id (write_bursts w))) (List.filter (has_id id) b).
Proof.
  unfold assemble_writes, write_bursts, open_burst. destruct (split_bursts [] w) as [bursts rest]. cbn [fst snd].
  destruct (pair_bursts_all aw bursts 0 []) as [Hs Hq]; [done|].
  pose proof (match_responses_all aw b _ Hs) as Hall. pose proof (fun id => match_responses_id aw id b (pair_bursts aw 0 bursts [])) as Hid.
  destruct (match_responses aw b (pair_bursts aw 0 bursts [])) as [[fin queued] orphans].
  destruct Hall as (pws & bs & -> & H2 & H3 & H4). exists pws, bs, queued, orphans. split_and!; [|done| |done|].
  - unfold queued_all. by rewrite map_app, <- app_assoc.
  - rewrite H3, Hq, Nat.sub_0_r. done.
  - intros id. destruct (Hid id) as (E1 & _ & E3). rewrite pair_bursts_queue, Nat.sub_0_r in E1, E3. done.
Qed.

(** C22: the writes of an AXI bus are paired by the rules of the protocol. The
    beats are cut into bursts at WLAST; the n-th burst belongs to the n-th
    address; and of each ID the n-th response completes the n-th write of that
    ID that has a whole burst, whatever happens on the other IDs. *)
Theorem axi_writes_fifo aw w b id :
  List.filter (fun t => tx_complete t && tx_has_id id t) (assemble_writes aw w b) =
    zip_with (completed_write aw) (writes_of_id aw id (write_bursts w)) (List.filter (has_id id) b) /\
  List.concat (write_bursts w) ++ open_burst w = w /\ Forall burst_ok (write_bursts w).
Proof.
  destruct (assemble_writes_split aw w b) as (pws & bs & queued & orphans & -> & _ & _ & _ & Hid). split.
  - rewrite !filter_app, filter_completed, !filter_incomplete by done. rewrite app_nil_r. apply Hid.
  - unfold write_bursts, open_burst. pose proof (split_bursts_spec w [] ltac:(constructor)) as H.
    destruct (split_bursts [] w) as [bursts rest]. destruct H as (H1 & H2 & _). done.
Qed.

(** No write and no response is lost or counted twice: the write
    transactions are one for each address handshake, completed or not, and one
    for each response that no write was waiting for. *)
Theorem axi_writes_accounted aw w b : exists orphans,
  map tx_request (assemble_writes aw w b) ≡ₚ map ev_request aw ++ map tx_request (map orphan_response orphans) /\
  orphans `sublist_of` b /\
  forall id, List.filter (has_id id) orphans = drop (length (writes_of_id aw id (write_bursts w))) (List.filter (has_id id) b).
Proof.
  destruct (assemble_writes_split aw w b) as (pws & bs & queued & orphans & -> & Hl & Hp & Ho & Hid). exists orphans.
  split_and!; [|done|intros id; apply Hid]. rewrite !map_app, app_assoc. apply Permutation_app; [|done].
  assert (map tx_request (zip_with (completed_write aw) pws bs) = map (fun pw => ev_request (event_at aw (pw_aw_idx pw))) pws) as ->.
  { clear -Hl. revert bs Hl. induction pws as [|pw pws IH]; intros [|b bs] Hl; [done..|]. cbn. by rewrite IH by (by injection Hl). }
  assert (forall l, map tx_request (map (fun pw => write_transaction aw pw None) l) = map (fun pw => ev_request (event_at aw (pw_aw_idx pw))) l) as Hn.
  { intros l. rewrite map_map. apply map_ext. intros pw. apply write_request. }
  rewrite !Hn, <- !map_app, app_assoc, Hp, <- (map_map pw_aw_idx (fun i => ev_request (event_at aw i))), map_app, paired_indices, pending_indices, <- seq_app.
  rewrite <- requests_all. by replace (Nat.min _ _ + _)%nat with (length aw) by lia.
Qed.

(** ** Reads *)

Lemma split_bursts_snoc e events : forall current,
  split_bursts current (events ++ [e]) =
    let '(bursts, rest) := split_bursts current events in
    if ev_last e then (bursts ++ [rest ++ [e]], []) else (bursts, rest ++ [e]).
Proof.
  induction events as [|x events IH]; intros current; cbn [split_bursts app]; [done|].
  destruct (ev_last x); rewrite IH; [destruct (split_bursts [] events)|destruct (split_bursts (current ++ [x]) events)]; by destruct (ev_last e).
Qed.
Lemma bursts_snoc l e : write_bursts (l ++ [e]) = write_bursts l ++ (if ev_last e then [open_burst l ++ [e]] else []).
Proof. unfold write_bursts, open_burst. rewrite split_bursts_snoc. destruct (split_bursts [] l). destruct (ev_last e); cbn; by rewrite ?app_nil_r. Qed.
Lemma open_snoc l e : open_burst (l ++ [e]) = if ev_last e then [] else open_burst l ++ [e].
Proof. unfold open_burst. rewrite split_bursts_snoc. destruct (split_bursts [] l). by destruct (ev_last e). Qed.

Section Reads.
Context (ar r : list AxiHandshakeEvent).

Definition is_ar (id : bytes) (re : REvent) : bool :=
  match re_kind re with REAR => has_id id (event_at ar (re_idx re)) | RER => false end.
Definition is_beat (id : bytes) (re : REvent) : bool :=
  match re_kind re with REAR => false | RER => has_id id (event_at r (re_idx re)) end.
Definition ars_of (id : bytes) (l : list REvent) : list nat := map re_idx (List.filter (is_ar id) l).
Definition beats_of (id : bytes) (l : list REvent) : list AxiHandshakeEvent :=
  map (fun re => event_at r (re_idx re)) (List.filter (is_beat id) l).

(** The reads that wait, the first with the beats it has. *)
Definition waiting (ars : list nat) (rest : list AxiHandshakeEvent) : list PendingRead :=
  match ars with
  | [] => []
  | a :: more => MkPendingRead a (map ev_data rest) rest :: map (fun a => MkPendingRead a [] []) more
  end.
Definition completed_read (a : nat) (burst : list AxiHandshakeEvent) : AxiTransaction :=
  read_transaction ar (MkPendingRead a (map ev_data burst) burst) (list.last burst).

(** Every beat of the ID comes while a read of the ID waits. *)
Definition beats_awaited (id : bytes) (l : list REvent) : Prop := forall pre re post, l = pre ++ re :: post -> is_beat id re = true ->
  (length (write_bursts (beats_of id pre)) < length (ars_of id pre))%nat.

Record read_inv (id : bytes) (l : list REvent) (st : ReadState) : Prop := {
  ri_queue : queue_of id (fst st) = waiting (drop (length (write_bursts (beats_of id l))) (ars_of id l)) (open_burst (beats_of id l));
  ri_done : List.filter (tx_has_id id) (snd st) = zip_with completed_read (ars_of id l) (write_bursts (beats_of id l));
  ri_room : (length (write_bursts (beats_of id l)) <= length (ars_of id l))%nat;
  ri_open : open_burst (beats_of id l) <> [] -> (length (write_bursts (beats_of id l)) < length (ars_of id l))%nat;
  ri_ids : forall x pr, pr ∈ queue_of x (fst st) -> ev_id (event_at ar (pr_ar_idx pr)) = x;
}.

Lemma ars_snoc id l re : ars_of id (l ++ [re]) = ars_of id l ++ (if is_ar id re then [re_idx re] else []).
Proof. unfold ars_of. rewrite filter_app, map_app. cbn. by destruct (is_ar id re). Qed.
Lemma beats_snoc id l re : beats_of id (l ++ [re]) = beats_of id l ++ (if is_beat id re then [event_at r (re_idx re)] else []).
Proof. unfold beats_of. rewrite filter_app, map_app. cbn. by destruct (is_beat id re). Qed.
Lemma waiting_snoc n ars rest a : (n <= length ars)%nat -> (rest <> [] -> (n < length ars)%nat) ->
  waiting (drop n (ars ++ [a])) rest = waiting (drop n ars) rest ++ [MkPendingRead a [] []].
Proof.
  intros Hn Hr. rewrite drop_app_le by done. destruct (drop n ars) as [|x more] eqn:E; cbn.
  - assert (n = length ars) as -> by (apply (f_equal length) in E; rewrite length_drop in E; cbn in E; lia).
    destruct rest; [done|]. exfalso. assert (length ars < length ars)%nat by (by apply Hr). lia.
  - by rewrite map_app.
Qed.
Lemma zip_with_more (f : nat -> list AxiHandshakeEvent -> AxiTransaction) l l' x : (length l' <= length l)%nat ->
  zip_with f (l ++ x) l' = zip_with f l l'.
Proof.
  revert l'. induction l as [|a l IH]; intros [|b l'] Hl; cbn in *; [by destruct x|lia|done|]. f_equal. apply IH. lia.
Qed.
Lemma zip_with_snoc (f : nat -> list AxiHandshakeEvent -> AxiTransaction) l l' a more b : drop (length l') l = a :: more ->
  zip_with f l (l' ++ [b]) = zip_with f l l' ++ [f a b].
Proof.
  revert l'. induction l as [|x l IH]; intros [|y l'] Hd; [by rewrite drop_nil in Hd..| |].
  - cbn in *. injection Hd as -> ->. by destruct more.
  - cbn in *. f_equal. by apply IH.
Qed.

(** An address of the ID joins its queue. *)
Lemma read_ar id l queues fin i : read_inv id l (queues, fin) -> read_inv id (l ++ [MkREvent (ev_time (event_at ar i)) REAR i])
  (push_queue (ev_id (event_at ar i)) (MkPendingRead i [] []) queues, fin).
Proof.
  intros [Hq Hd Hr Ho Hi]. cbn [fst snd] in *. assert (forall t, is_beat id (MkREvent t REAR i) = false) as Hb by done.
  split; rewrite ?ars_snoc, ?beats_snoc, ?Hb, ?app_nil_r; cbn [fst snd is_ar re_kind re_idx].
  - rewrite queue_push, Hq. unfold has_id. destruct (eqs (ev_id (event_at ar i)) id); [by rewrite waiting_snoc|by rewrite !app_nil_r].
  - by rewrite Hd, zip_with_more.
  - rewrite length_app. lia.
  - rewrite length_app. intros H%Ho. lia.
  - intros x pr. rewrite queue_push. intros [H|H]%elem_of_app; [by apply Hi|]. destruct (eqs (ev_id (event_at ar i)) x) eqn:E.
    + apply list_elem_of_singleton in H as ->. by apply eqs_true in E.
    + by apply elem_of_nil in H.
Qed.

(** A beat of some ID goes to the oldest read of that ID. *)
Lemma read_beat id l queues fin i re : re_kind re = RER -> re_idx re = i ->
  read_inv id l (queues, fin) ->
  (is_beat id re = true -> (length (write_bursts (beats_of id l)) < length (ars_of id l))%nat) ->
  read_inv id (l ++ [re]) (read_step ar r (queues, fin) re).
Proof.
  intros Hk <- [Hq Hd Hr Ho Hi] Hw. cbn [fst snd] in *. set (e := event_at r (re_idx re)) in *.
  assert (is_ar id re = false) as Ha by (unfold is_ar; by rewrite Hk).
  assert (is_beat id re = eqs (ev_id e) id) as Hb by (unfold is_beat; by rewrite Hk).
  unfold read_step. rewrite Hk. fold e. destruct (eqs (ev_id e) id) eqn:Ei.
  - apply eqs_true in Ei. specialize (Hw Hb). destruct (drop (length (write_bursts (beats_of id l))) (ars_of id l)) as [|a more] eqn:Ed.
    { apply (f_equal length) in Ed. rewrite length_drop in Ed. cbn in Ed. lia. }
    cbn [waiting] in Hq. assert (mget (ev_id e) queues = Some (queue_of id queues)) as Hm.
    { rewrite Ei. unfold queue_of in *. destruct (mget id queues); [done|]. by cbn in Hq. }
    rewrite Hm, Hq. unfold add_read_beat. cbn [pr_ar_idx pr_data_beats pr_data_events].
    assert (ev_id (event_at ar a) = id) as Hai by (apply (Hi id (MkPendingRead a (map ev_data (open_burst (beats_of id l))) (open_burst (beats_of id l)))); rewrite Hq; left).
    assert (drop (S (length (write_bursts (beats_of id l)))) (ars_of id l) = more) as Hm'.
    { rewrite <- Nat.add_1_r, <- drop_drop, Ed. done. }
    destruct (ev_last e) eqn:El; split; rewrite ?ars_snoc, ?beats_snoc, ?Ha, ?Hb, ?app_nil_r; fold e;
      rewrite ?bursts_snoc, ?open_snoc, ?El, ?app_nil_r; cbn [fst snd].
    + rewrite queue_set, Ei, eqs_refl, length_app, Nat.add_1_r, Hm'. by destruct more.
    + rewrite filter_app, Hd. cbn [List.filter]. change (tx_has_id id _) with (eqs (ev_id (event_at ar a)) id). rewrite Hai, eqs_refl.
      rewrite (zip_with_snoc _ _ _ _ _ _ Ed). unfold completed_read at 3. by rewrite map_app, last_snoc.
    + rewrite length_app. cbn. lia.
    + done.
    + intros x pr. rewrite queue_set, Ei. destruct (eqs id x) eqn:Ex; [|apply Hi]. apply eqs_true in Ex as <-. intros H. apply (Hi id).
      rewrite Hq. by right.
    + rewrite queue_set, Ei, eqs_refl, Ed. cbn [waiting]. by rewrite map_app.
    + done.
    + lia.
    + lia.
    + intros x pr. rewrite queue_set, Ei. destruct (eqs id x) eqn:Ex; [|apply Hi]. apply eqs_true in Ex as <-.
      intros [->|H]%elem_of_cons; [done|]. apply (Hi id). rewrite Hq. by right.
  - destruct (mget (ev_id e) queues) as [[|pr more]|] eqn:Em.
    1,3: split; rewrite ?ars_snoc, ?beats_snoc, ?Ha, ?Hb, ?app_nil_r; done.
    assert (forall x, x ∈ pr :: more -> ev_id (event_at ar (pr_ar_idx x)) = ev_id e) as Hx.
    { intros x Hin. apply Hi. unfold queue_of. by rewrite Em. }
    destruct (ev_last e); split; rewrite ?ars_snoc, ?beats_snoc, ?Ha, ?Hb, ?app_nil_r; cbn [fst snd]; try done.
    + by rewrite queue_set, Ei.
    + rewrite filter_app, Hd. cbn [List.filter]. change (tx_has_id id _) with (eqs (ev_id (event_at ar (pr_ar_idx pr))) id).
      by rewrite (Hx pr), Ei, app_nil_r by left.
    + intros x p. rewrite queue_set. destruct (eqs (ev_id e) x) eqn:Ex; [|apply Hi]. apply eqs_true in Ex as <-. intros H. apply Hx. by right.
    + by rewrite queue_set, Ei.
    + intros x p. rewrite queue_set. destruct (eqs (ev_id e) x) eqn:Ex; [|apply Hi]. apply eqs_true in Ex as <-.
      intros [->|H]%elem_of_cons; [apply (Hx pr); left|apply Hx; by right].
Qed.

Definition read_start : ReadState := ([], []).
Lemma read_inv_start id : read_inv id [] read_start.
Proof. split; cbn; try done. intros x pr H. by apply elem_of_nil in H. Qed.

(** The times of the events are those of the handshakes. *)
Definition event_ok (re : REvent) : Prop :=
  re_kind re = REAR -> re_time re = ev_time (event_at ar (re_idx re)).
Lemma read_inv_run id l : Forall event_ok l -> beats_awaited id l -> read_inv id l (foldl (read_step ar r) read_start l).
Proof.
  induction l as [|re l IH] using rev_ind; [intros _ _; apply read_inv_start|]. intros [Hl Hre]%Forall_app Hw. rewrite foldl_app. cbn [foldl].
  assert (read_inv id l (foldl (read_step ar r) read_start l)) as Hi.
  { apply IH; [done|]. intros pre x post -> Hx. apply (Hw pre x (post ++ [re])); [by rewrite <- app_assoc|done]. }
  destruct (foldl (read_step ar r) read_start l) as [queues fin]. destruct (re_kind re) eqn:Ek.
  - apply list.Forall_cons in Hre as [Hre _]. destruct re as [t k i]. cbn in Ek. subst k. specialize (Hre eq_refl). cbn in Hre. subst t.
    by apply read_ar.
  - apply (read_beat id l queues fin (re_idx re)); [done..|]. intros Hb. by apply (Hw l re []).
Qed.
End Reads.

(** *** Whatever the sort does with equal times *)

Section ReadOrder.
Context `{StdSort} (ar r : list AxiHandshakeEvent).
(** One handshake per edge: the times of a channel increase. *)
Definition increasing (l : list AxiHandshakeEvent) : Prop := StronglySorted (fun a b => ev_time a < ev_time b) l.
Context (Har : increasing ar) (Hr : increasing r).

Definition of_kind (k : REKind) (re : REvent) : bool := match re_kind re, k with REAR, REAR | RER, RER => true | _, _ => false end.
Definition kind_events (k : REKind) (l : list AxiHandshakeEvent) : list REvent := imap (fun i e => MkREvent (ev_time e) k i) l.

Lemma kind_events_sorted k l : increasing l -> StronglySorted (fun a b => re_time a < re_time b) (kind_events k l).
Proof.
  intros Hl. unfold kind_events. assert (forall n, StronglySorted (fun a b => re_time a < re_time b)
    (imap (fun i e => MkREvent (ev_time e) k (n + i)) l)) as Hg; [|apply (Hg 0%nat)].
  induction Hl as [|e l Hs IH Hall]; intros n; [constructor|]. rewrite imap_cons. constructor.
  - specialize (IH (S n)). eapply eq_ind; [exact IH|]. apply imap_ext. intros i x _. cbn. f_equal. lia.
  - apply list.Forall_forall. intros x Hx. apply elem_of_lookup_imap in Hx as (i & y & -> & Hy). cbn.
    apply list_elem_of_lookup_2 in Hy. by apply (proj1 (list.Forall_forall _ _) Hall).
Qed.
Lemma kind_filter k k' l : List.filter (of_kind k) (kind_events k' l) = if of_kind k (MkREvent 0 k' 0) then kind_events k' l else [].
Proof.
  unfold kind_events. assert (forall n, List.filter (of_kind k) (imap (fun i e => MkREvent (ev_time e) k' (n + i)) l) =
    if of_kind k (MkREvent 0 k' 0) then imap (fun i e => MkREvent (ev_time e) k' (n + i)) l else []) as Hg; [|apply (Hg 0%nat)].
  induction l as [|e l IH]; intros n; [by destruct (of_kind _ _)|]. rewrite imap_cons. cbn [List.filter].
  assert (imap ((fun i e => MkREvent (ev_time e) k' (n + i)) ∘ S) l = imap (fun i e => MkREvent (ev_time e) k' (S n + i)) l) as ->.
  { apply imap_ext. intros i x _. cbn. f_equal. lia. }
  rewrite IH. by destruct k, k'.
Qed.

Definition ordered : list REvent := std_sort re_time (read_events ar r).
Lemma ordered_kind k : List.filter (of_kind k) ordered = kind_events k (match k with REAR => ar | RER => r end).
Proof using Har Hr.
  apply (sorted_unique re_time).
  - unfold ordered. rewrite (Permutation_filter_bool _ _ _ (std_sort_perm re_time (read_events ar r))).
    change (read_events ar r) with (kind_events REAR ar ++ kind_events RER r). rewrite filter_app, !kind_filter.
    by destruct k; cbn; rewrite ?app_nil_r.
  - apply StronglySorted_filter, std_sort_sorted.
  - apply kind_events_sorted. by destruct k.
Qed.

Lemma filter_kind L p q k l : (forall i e, l !! i = Some e -> L !! i = Some e) ->
  (forall i e, l !! i = Some e -> p (MkREvent (ev_time e) k i) = q e) ->
  map (fun re => event_at L (re_idx re)) (List.filter p (kind_events k l)) = List.filter q l.
Proof using.
  induction l as [|e l IH] using rev_ind; intros HL Hp; [done|]. unfold kind_events. rewrite imap_app, !filter_app, map_app. f_equal.
  - apply IH; intros i x Hx; [apply HL|apply Hp]; by apply lookup_app_l_Some.
  - cbn. rewrite Nat.add_0_r. assert ((l ++ [e]) !! length l = Some e) as He by (by rewrite list_lookup_middle).
    rewrite (Hp _ _ He). destruct (q e); [|done]. cbn. unfold event_at. by rewrite (HL _ _ He).
Qed.
Lemma kind_take k n l : take n (kind_events k l) = kind_events k (take n l).
Proof using.
  apply list_eq. intros i. unfold kind_events. rewrite lookup_take, !list_lookup_imap, lookup_take. by case_decide.
Qed.

(** The positions of the reads of an ID. *)
Definition ids_of (id : bytes) : list nat := List.filter (fun i => has_id id (event_at ar i)) (List.seq 0 (length ar)).
Lemma ordered_ars id : ars_of ar id ordered = ids_of id.
Proof using Har Hr.
  unfold ars_of, ids_of. rewrite (filter_ext _ (fun re => of_kind REAR re && has_id id (event_at ar (re_idx re)))) by (intros [t [] i]; done).
  rewrite filter_and, (ordered_kind REAR).
  assert (forall l, map re_idx (List.filter (fun re => has_id id (event_at ar (re_idx re))) l) =
    List.filter (fun i => has_id id (event_at ar i)) (map re_idx l)) as ->.
  { induction l as [|re l IH]; [done|]. cbn. destruct (has_id id _); cbn; by rewrite IH. }
  f_equal. apply list_eq. intros i. unfold kind_events. rewrite list_lookup_fmap, list_lookup_imap.
  destruct (ar !! i) as [e|] eqn:E; cbn.
  - by rewrite lookup_seq_lt by (by eapply lookup_lt_Some).
  - by rewrite lookup_seq_ge by (by apply lookup_ge_None).
Qed.
Lemma prefix_beats id l n : List.filter (of_kind RER) l = take n (kind_events RER r) -> beats_of r id l = List.filter (has_id id) (take n r).
Proof using.
  intros Hl. unfold beats_of. rewrite (filter_ext _ (fun re => of_kind RER re && has_id id (event_at r (re_idx re)))) by (intros [t [] i]; done).
  rewrite filter_and, Hl, kind_take. apply filter_kind.
  - by intros i e [? _]%lookup_take_Some.
  - intros i e [Hi _]%lookup_take_Some. cbn. unfold event_at. by rewrite Hi.
Qed.

(** Of each beat of the ID: fewer bursts of the ID end before it than reads
    of the ID were accepted before its time. *)
Definition beats_in_time (id : bytes) : Prop := forall j e, r !! j = Some e -> has_id id e = true ->
  (length (write_bursts (List.filter (has_id id) (take j r))) <
   length (List.filter (fun a => has_id id a && (ev_time a <? ev_time e)%Z) ar))%nat.

Lemma ars_before id t pre re post : ordered = pre ++ re :: post -> re_time re = t ->
  (length (List.filter (fun a => has_id id a && (ev_time a <? t)%Z) ar) <= length (ars_of ar id pre))%nat.
Proof using Har Hr.
  intros Ho <-. unfold ars_of. rewrite length_map.
  pose proof (filter_kind ar (fun re0 => has_id id (event_at ar (re_idx re0)) && (re_time re0 <? re_time re))
    (fun a => has_id id a && (ev_time a <? re_time re)) REAR ar (fun i e H => H)) as Hf.
  rewrite <- Hf by (intros i e Hi; cbn; unfold event_at; by rewrite Hi). rewrite length_map, <- (ordered_kind REAR), <- filter_and, Ho.
  rewrite filter_app, length_app. assert (List.filter (fun a => of_kind REAR a && (has_id id (event_at ar (re_idx a)) && (re_time a <? re_time re))) (re :: post) = []) as ->.
  { apply filter_false. intros x Hx. pose proof (std_sort_sorted re_time (read_events ar r)) as Hs. fold ordered in Hs. rewrite Ho in Hs.
    assert (re_time re <= re_time x) as Hle.
    { apply StronglySorted_app in Hs as (_ & _ & Hs). apply StronglySorted_inv in Hs as [_ Hs].
      apply elem_of_cons in Hx as [->|Hx]; [lia|]. by apply (proj1 (list.Forall_forall _ _) Hs). }
    rewrite (proj2 (Z.ltb_ge _ _) Hle). by rewrite !andb_false_r. }
  cbn. rewrite Nat.add_0_r. clear. induction pre as [|x pre IH]; [done|]. cbn [List.filter].
  destruct x as [t [] i]; cbn; [|done]. destruct (has_id id (event_at ar i)); cbn; [|done]. destruct (t <? re_time re); cbn; lia.
Qed.

Lemma ordered_awaited id : beats_in_time id -> beats_awaited ar r id ordered.
Proof using Har Hr.
  intros Ht pre re post Ho Hb. pose proof (ordered_kind RER) as Hk. rewrite Ho, filter_app in Hk. cbn [List.filter] in Hk.
  assert (of_kind RER re = true) as Hre by (by destruct re as [t [] i]). rewrite Hre in Hk.
  assert (kind_events RER r !! length (List.filter (of_kind RER) pre) = Some re) as Hl by (rewrite <- Hk; by rewrite list_lookup_middle).
  unfold kind_events in Hl. rewrite list_lookup_imap in Hl. destruct (r !! length _) as [e|] eqn:He; [|done]. cbn in Hl. injection Hl as <-.
  rewrite (prefix_beats id pre (length (List.filter (of_kind RER) pre))).
  2: { rewrite <- Hk. by rewrite take_app_length. }
  eapply Nat.lt_le_trans; [apply (Ht _ e He)|].
  - cbn in Hb. unfold event_at in Hb. by rewrite He in Hb.
  - eapply ars_before; [exact Ho|done].
Qed.

Lemma reads_complete queues fin l : foldl (read_step ar r) ([], []) l = (queues, fin) -> forall t, t ∈ fin -> tx_complete t = true.
Proof using.
  revert queues fin. induction l as [|re l IH] using rev_ind; intros queues fin; [intros [= _ <-] t H'; by apply elem_of_nil in H'|].
  rewrite foldl_app. cbn [foldl]. destruct (foldl (read_step ar r) ([], []) l) as [q d]. specialize (IH q d eq_refl). cbn [read_step].
  destruct (re_kind re); [intros [= _ <-]; exact IH|]. destruct (mget _ q) as [[|pr more]|]; [intros [= _ <-]; exact IH| |intros [= _ <-]; exact IH].
  destruct (ev_last _); intros [= _ <-]; [|exact IH]. intros t [Ht|Ht]%elem_of_app; [by apply IH|]. by apply list_elem_of_singleton in Ht as ->.
Qed.

(** The reads of an AXI bus are paired by the rules of the protocol,
    however [std::sort] orders handshakes of the same time: if every beat of
    an ID comes after a read of that ID that still waits, then the n-th burst
    of beats of the ID, cut at RLAST, completes the n-th read of the ID. *)
Lemma reads_fifo id : beats_in_time id ->
  List.filter (fun t => tx_complete t && tx_has_id id t) (assemble_reads ar r) =
    zip_with (completed_read ar) (ids_of id) (write_bursts (List.filter (has_id id) r)).
Proof using Har Hr.
  intros Ht. unfold assemble_reads. fold ordered.
  assert (Forall (event_ok ar) ordered) as Hok.
  { unfold ordered. rewrite std_sort_perm. unfold read_events. apply Forall_app. split; apply list.Forall_forall; intros x Hx;
      apply elem_of_lookup_imap in Hx as (i & e & -> & He); intros Hk; [|done]. cbn. unfold event_at. by rewrite He. }
  pose proof (read_inv_run ar r id ordered Hok (ordered_awaited id Ht)) as [_ Hd _ _ _]. unfold read_start in Hd.
  destruct (foldl (read_step ar r) ([], []) ordered) as [queues fin] eqn:E. cbn [snd] in Hd.
  rewrite filter_app, filter_incomplete by done. rewrite app_nil_r, filter_and. rewrite ordered_ars, (prefix_beats id ordered (length r)) in Hd.
  2: { rewrite (ordered_kind RER). symmetry. apply take_ge. unfold kind_events. by rewrite length_imap. }
  rewrite take_ge in Hd by done. rewrite <- Hd. f_equal. apply filter_true. intros t Hin.
  eapply reads_complete; [exact E|done].
Qed.
End ReadOrder.

(** ** Handshakes *)

Section Handshakes.
Context {W : Type} `{EngineWave W} (w : W) (rv rr : Z) (channel : bytes) (point : ObservationPoint).
Definition sampled_known (ti : Z) : bool :=
  known_binary (read_signal_at w rv ti point) && known_binary (read_signal_at w rr ti point).
Definition handshake_at (ti : Z) : bool :=
  sampled_known ti && known_high (read_signal_at w rv ti point) && known_high (read_signal_at w rr ti point).

Lemma handshakes_at edges : forall active begin,
  map ev_time_idx (fst (channel_events w rv rr channel point active begin edges)) = List.filter handshake_at edges /\
  Forall (fun e => ev_time e = sb_time_at w (ev_time_idx e)) (fst (channel_events w rv rr channel point active begin edges)) /\
  snd (channel_events w rv rr channel point active begin edges) = forallb sampled_known edges.
Proof.
  induction edges as [|ti edges IH]; intros active begin; [by repeat constructor|]. cbn [channel_events List.filter forallb].
  assert (handshake_at ti = sampled_known ti && known_high (read_signal_at w rv ti point) && known_high (read_signal_at w rr ti point)) as -> by done.
  assert (sampled_known ti = known_binary (read_signal_at w rv ti point) && known_binary (read_signal_at w rr ti point)) as -> by done.
  set (v := read_signal_at w rv ti point). set (r := read_signal_at w rr ti point).
  destruct (known_binary v); cbn [negb orb andb]; [|destruct (IH active begin) as (? & ? & _); by split_and!].
  destruct (known_binary r); cbn [negb orb andb]; [|destruct (IH active begin) as (? & ? & _); by split_and!].
  destruct (known_high v); cbn [andb]; [|by apply IH]. destruct (known_high r); cbn [andb]; [|by apply IH].
  match goal with |- context [channel_events w rv rr channel point false ?b edges] => destruct (IH false b) as (H1 & H2 & H3);
    destruct (channel_events w rv rr channel point false b edges) as [events known] end.
  cbn [fst snd map] in *. split_and!; [by f_equal|by constructor|done].
Qed.
End Handshakes.

(** The handshakes of increasing edges increase. *)
Lemma handshakes_increasing {W} `{EngineWave W} (w : W) refs channel c edges :
  StronglySorted (fun a b => sb_time_at w a < sb_time_at w b) edges ->
  increasing (fst (scan_channel_handshakes w refs channel c edges)).
Proof.
  intros Hs. unfold scan_channel_handshakes. destruct ((fst refs =? 0) || (snd refs =? 0)); [constructor|].
  destruct (handshakes_at w (fst refs) (snd refs) channel (axi_point c) edges false 0) as (H1 & H2 & _).
  apply (StronglySorted_filter _ (handshake_at w (fst refs) (snd refs) (axi_point c))) in Hs. rewrite <- H1 in Hs.
  apply (proj1 (StronglySorted_map _ _ _)) in Hs. unfold increasing. eapply StronglySorted_weaken; [|exact Hs].
  intros x y Hx Hy Hlt. cbn in Hlt. rewrite (proj1 (list.Forall_forall _ _) H2 _ Hx), (proj1 (list.Forall_forall _ _) H2 _ Hy). done.
Qed.

(** ** Outstanding depths *)

Definition outstanding_at (direction : bytes) (write : bool) (time : Z) (t : AxiTransaction) : bool :=
  in_direction direction t && Bool.eqb (tx_is_write t) write && (tx_start_time t <=? time)
  && negb (tx_complete t && (tx_end_time t <=? time)).

Definition changes (field : DepthEvent -> Z) (events : list DepthEvent) : Z := foldr (fun e n => field e + n) 0 events.
Lemma changes_app f l1 l2 : changes f (l1 ++ l2) = changes f l1 + changes f l2.
Proof. induction l1 as [|e l1 IH]; cbn [app changes foldr]; [done|]. fold (changes f (l1 ++ l2)) (changes f l1). lia. Qed.
#[export] Instance changes_perm f : Proper ((≡ₚ) ==> eq) (changes f).
Proof. intros l l' Hl. induction Hl; cbn [changes foldr] in *; fold (changes f) in *; unfold changes in *; lia. Qed.
Lemma foldl_changes f l n : foldl (fun n e => n + f e) n l = n + changes f l.
Proof. revert n. induction l as [|e l IH]; intros n; cbn [foldl changes foldr]; [lia|]. rewrite IH. unfold changes. lia. Qed.

Definition due (time : Z) (e : DepthEvent) : bool := de_time e <=? time.
Lemma span_due time events : StronglySorted (fun a b => de_time a <= de_time b) events ->
  span (due time) events = (List.filter (due time) events, List.filter (fun e => negb (due time e)) events).
Proof.
  induction 1 as [|e events Hs IH Hall]; [done|]. cbn [span List.filter]. destruct (due time e) eqn:E; cbn [negb].
  - by rewrite IH.
  - rewrite filter_false, filter_true; [done| |]; intros x Hx;
      assert (de_time e <= de_time x) by exact (proj1 (list.Forall_forall _ _) Hall _ Hx); unfold due in *; lia.
Qed.

Lemma sweep_spec times : forall read write events,
  StronglySorted (fun a b => de_time a <= de_time b) events -> StronglySorted Z.le times ->
  sweep read write events times = map (fun time =>
    (u64 (read + changes de_read (List.filter (due time) events)), u64 (write + changes de_write (List.filter (due time) events)))) times.
Proof.
  induction times as [|time times IH]; intros read write events He Ht; [done|]. cbn [sweep map].
  fold (due time). rewrite span_due by done. apply StronglySorted_inv in Ht as [Ht Hle].
  rewrite !foldl_changes, IH by (try apply StronglySorted_filter; done). f_equal. apply map_ext_in. intros later Hin.
  rewrite <- list_elem_of_In in Hin. assert (time <= later) by exact (proj1 (list.Forall_forall _ _) Hle _ Hin).
  assert (forall f, changes f (List.filter (due time) events) + changes f (List.filter (due later) (List.filter (fun e => negb (due time e)) events))
    = changes f (List.filter (due later) events)) as Hsplit.
  { clear - H. intros f. induction events as [|e events IH]; [done|]. cbn [List.filter].
    destruct (due time e) eqn:E1; cbn [negb List.filter]; destruct (due later e) eqn:E2; cbn [changes foldr]; fold (changes f) in *;
      unfold changes in *; unfold due in E1, E2; lia. }
  f_equal; f_equal; rewrite <- Hsplit; lia.
Qed.

Lemma depth_changes direction time t :
  changes de_read (List.filter (due time) (depth_events direction t)) = Z.b2z (outstanding_at direction false time t) /\
  changes de_write (List.filter (due time) (depth_events direction t)) = Z.b2z (outstanding_at direction true time t).
Proof.
  unfold depth_events, outstanding_at, due. destruct (in_direction direction t); cbn [negb orb andb]; [|done].
  destruct (tx_complete t); cbn [andb].
  - destruct (Z.leb_spec (tx_end_time t) (tx_start_time t)).
    + destruct (tx_is_write t); cbn; destruct (Z.leb_spec (tx_start_time t) time), (Z.leb_spec (tx_end_time t) time); cbn; try done; lia.
    + destruct (tx_is_write t); cbn; destruct (Z.leb_spec (tx_start_time t) time), (Z.leb_spec (tx_end_time t) time); cbn; try done; lia.
  - destruct (tx_is_write t); cbn; destruct (Z.leb_spec (tx_start_time t) time); done.
Qed.
Lemma depth_counts direction time txns :
  let events := List.filter (due time) (List.concat (map (depth_events direction) txns)) in
  changes de_read events = count_if (outstanding_at direction false time) txns /\
  changes de_write events = count_if (outstanding_at direction true time) txns.
Proof.
  cbv zeta. induction txns as [|t txns [IHr IHw]]; [done|]. cbn [map List.concat]. rewrite filter_app, !changes_app, IHr, IHw.
  destruct (depth_changes direction time t) as [-> ->]. unfold count_if. cbn [List.filter].
  destruct (outstanding_at direction false time t), (outstanding_at direction true time t); unfold zlen; cbn [Z.b2z length]; lia.
Qed.
