(* ===== verification/AxiRender.v ===== *)
(** * AxiRender: the text of the AXI responses

    Models the text renderers of
    [src/engine/actions/protocol/axi_actions.cpp] over the builder of Xout.v. *)

From S2P Require Import Prelude CLib Json Engine InternalRequest SchemaValidator Xout XoutRender.

Open Scope Z_scope.
Local Open Scope rend_scope.

Section Render.
Context (dump : json -> bytes).
Local Notation kv k v := (emit_kv dump k v).
Local Notation fields keys source := (emit_members dump keys source).

Definition axi_xout_scalar (object : json) (k : bytes) : res bytes :=
  match object with
  | JObject m => match mget k m with
                 | Some v => if is_xout_scalar_json v then json_to_xout_value dump v else Ret []
                 | None => Ret []
                 end
  | _ => Ret []
  end.

(** A preferred member that is shown. *)
Definition shown_scalar (object : json) (k : bytes) : bool :=
  match jget k object with Some v => is_xout_scalar_json v | None => false end.
(** The preferred members first, then the other scalars. *)
Definition emit_axi_scalar_section (name : bytes) (object : json) (preferred : list bytes) : rend :=
  match object with
  | JObject (m :: ms) =>
      section name >>>
      iter (fun k => match jget k object with Some v => when (is_xout_scalar_json v) (kv k v) | None => skip end) preferred >>>
      iter (fun f => when (negb (one_of (fst f) (List.filter (shown_scalar object) preferred)) && is_xout_scalar_json (snd f))
                       (kv (fst f) (snd f))) (m :: ms)
  | _ => skip
  end.

Definition address_keys : list bytes :=
  [lit "channel"; lit "valid_begin_time"; lit "handshake_time"; lit "addr"; lit "id"; lit "len"; lit "size"; lit "burst"].
Definition payload_keys : list bytes :=
  [lit "channel"; lit "valid_begin_time"; lit "first_handshake_time"; lit "last_handshake_time"; lit "beat_count";
   lit "expected_beat_count"].
Definition response_keys : list bytes := [lit "channel"; lit "handshake_time"; lit "resp"].
Definition beat_keys : list bytes := [lit "index"; lit "handshake_time"; lit "data"; lit "wstrb"; lit "resp"; lit "last"].

Definition emit_axi_transaction_domains (transaction : json) (prefix : bytes) : rend :=
  address <~ object_of (lit "address") transaction;
  emit_axi_scalar_section (prefix ++ lit "_address") address address_keys >>>
  data <~ object_of (lit "data") transaction;
  emit_axi_scalar_section (prefix ++ lit "_data") data payload_keys >>>
  beats <~ array_of (lit "beats") data;
  (match beats with
   | JArray (b :: l) =>
       rows <~ map_res (fun beat => map_res (axi_xout_scalar beat) beat_keys) (b :: l);
       section (prefix ++ lit "_beats") >>> table beat_keys rows
   | _ => skip
   end) >>>
  response <~ object_of (lit "response") transaction;
  emit_axi_scalar_section (prefix ++ lit "_response") response response_keys.

(** The three parts of a transaction in sections of their own. *)
Definition emit_axi_parts (transaction : json) (prefix : bytes) : rend :=
  address <~ object_of (lit "address") transaction;
  emit_axi_scalar_section (prefix ++ lit ".address") address address_keys >>>
  data <~ object_of (lit "data") transaction;
  emit_axi_scalar_section (prefix ++ lit ".data") data payload_keys >>>
  response <~ object_of (lit "response") transaction;
  emit_axi_scalar_section (prefix ++ lit ".response") response response_keys.

Definition transaction_keys : list bytes := [lit "direction"; lit "phase_order"; lit "latency"; lit "response_dependency_violation"].

(** The header and the summary of a response. *)
Definition axi_head (action : string) (keys : list bytes) (response : json) (rest : json -> rend) : rend :=
  emit (emit_header (lit action)) >>>
  summary <~ object_of (lit "summary") response;
  section (lit "summary") >>> fields keys summary >>> rest summary.
Definition response_data (response : json) (rest : json -> rend) : rend :=
  data <~ object_of (lit "data") response; rest data.
Definition axi_object_section (name : bytes) (source : json) (k : bytes) (preferred : list bytes) : rend :=
  object <~ object_of k source; emit_axi_scalar_section name object preferred.

Definition render_axi_query_xout (response : json) : rend :=
  axi_head "axi.query"
    [lit "name"; lit "direction"; lit "data_scope"; lit "query_mode"; lit "found"; lit "scan_complete"; lit "analysis_complete";
     lit "response_truncated"; lit "total_count"; lit "returned_count"] response (fun summary =>
  iter (fun k => match jget k summary with
                 | Some (JArray []) => text k (lit "[empty]")
                 | Some v => kv k v
                 | None => skip
                 end) [lit "truncation_scopes"; lit "value_width_complete"; lit "width_diagnostics"] >>>
  response_data response (fun data =>
  axi_object_section (lit "filter") data (lit "filter") [lit "direction"] >>>
  transaction <~ json_of (lit "transaction") data;
  when (is_object transaction && negb (json_empty transaction))
    (emit_axi_scalar_section (lit "transaction") transaction (transaction_keys ++ [lit "match_time"]) >>>
     emit_axi_transaction_domains transaction (lit "transaction")))).

Definition render_axi_statistics_xout (response : json) : rend :=
  axi_head "axi.statistics"
    [lit "name"; lit "scanned_transaction_count"; lit "matched_transaction_count"; lit "matched_read_count";
     lit "matched_write_count"; lit "unresolved_transaction_count"; lit "filter_applied"; lit "analysis_quality";
     lit "full_scan_count"; lit "scan_complete"; lit "analysis_complete"; lit "response_truncated"; lit "total_count";
     lit "returned_count"] response (fun _ =>
  response_data response (fun data =>
  axi_object_section (lit "filter") data (lit "filter") [lit "direction"] >>>
  axi_object_section (lit "notes") data (lit "notes") [lit "unresolved_transaction_count"])).

Definition statistic_keys : list bytes := [lit "samples"; lit "min"; lit "max"; lit "avg"; lit "p50"; lit "p95"; lit "p99"].
Definition render_axi_analysis_xout (response : json) : rend :=
  axi_head "axi.analysis"
    ([lit "name"; lit "analysis"; lit "direction"; lit "sample_count"; lit "full_scan_count"; lit "completed_read_count";
      lit "completed_write_count"; lit "incomplete_read_count"; lit "incomplete_write_count"; lit "buffered_w_beat_count";
      lit "buffered_w_burst_count"; lit "orphan_w_beat_count"; lit "orphan_b_count"; lit "orphan_r_beat_count";
      lit "response_dependency_violation_count"] ++ statistic_keys ++
     [lit "scan_complete"; lit "analysis_complete"; lit "response_truncated"; lit "total_count"; lit "returned_count";
      lit "value_width_complete"]) response (fun _ =>
  response_data response (fun data =>
  latency <~ object_of (lit "latency") data;
  axi_object_section (lit "latency.read") latency (lit "read") statistic_keys >>>
  axi_object_section (lit "latency.write") latency (lit "write") statistic_keys >>>
  axi_object_section (lit "latency.definitions") latency (lit "definitions") [lit "read"; lit "write"] >>>
  axi_object_section (lit "latency.write_phase_order_counts") latency (lit "write_phase_order_counts")
    [lit "aw_before_w"; lit "same_cycle"; lit "w_before_aw"; lit "unknown"] >>>
  slowest <~ json_of (lit "slowest") data;
  when (is_object slowest && negb (json_empty slowest))
    (emit_axi_scalar_section (lit "slowest") slowest transaction_keys >>> emit_axi_parts slowest (lit "slowest")))).

(** The columns of an outlier with the object and the member each shows. *)
Definition outlier_row (include_phase_order : bool) (txn : json) : res (list bytes) :=
  address ← object_of (lit "address") txn;
  payload ← object_of (lit "data") txn;
  response ← object_of (lit "response") txn;
  map_res (fun cell => axi_xout_scalar (fst cell) (snd cell))
    ((txn, lit "direction") :: (if include_phase_order then [(txn, lit "phase_order")] else []) ++
     [(txn, lit "latency"); (txn, lit "response_dependency_violation")] ++ map (pair address) address_keys ++
     map (pair payload) payload_keys ++ map (pair response) response_keys ++ [(txn, lit "match_time")]).
Definition outlier_headers (include_phase_order : bool) : list bytes :=
  lit "direction" :: (if include_phase_order then [lit "phase_order"] else []) ++
  [lit "latency"; lit "response_dependency_violation"] ++ map (app (lit "address.")) address_keys ++
  map (app (lit "data.")) payload_keys ++ map (app (lit "response.")) response_keys ++ [lit "match_time"].
Definition render_axi_latency_outlier_xout (response : json) : rend :=
  axi_head "axi.latency_outlier"
    [lit "name"; lit "begin"; lit "end"; lit "candidate_count"; lit "scan_complete"; lit "analysis_complete";
     lit "response_truncated"; lit "total_count"; lit "returned_count"; lit "value_width_complete"] response (fun _ =>
  response_data response (fun data =>
  outliers <~ array_of (lit "outliers") data;
  match outliers with
  | JArray (o :: l) =>
      let include_phase_order := existsb (jcontains (lit "phase_order")) (o :: l) in
      rows <~ map_res (outlier_row include_phase_order) (o :: l);
      section (lit "outliers") >>> table (outlier_headers include_phase_order) rows >>>
      fields [lit "method"; lit "classification"; lit "top_n"; lit "threshold"] data
  | _ => skip
  end)).

Definition point_keys : list bytes :=
  [lit "time"; lit "read"; lit "write"; lit "read_delta"; lit "read_event"; lit "write_delta"; lit "write_event"].
Definition render_axi_outstanding_xout (response : json) : rend :=
  axi_head "axi.outstanding_timeline"
    [lit "name"; lit "sampling_mode"; lit "clock"; lit "edge"; lit "sample_time_semantics"; lit "sample_count"; lit "peak_read";
     lit "peak_write"; lit "peak_read_time"; lit "peak_write_time"; lit "first_nonzero_time"; lit "final_read"; lit "final_write";
     lit "scan_complete"; lit "analysis_complete"; lit "response_truncated"; lit "total_count"; lit "returned_count";
     lit "sample_point"] response (fun _ =>
  response_data response (fun data =>
  points <~ array_of (lit "change_points") data;
  match points with
  | JArray (p :: l) =>
      rows <~ map_res (fun point => map_res (axi_xout_scalar point) point_keys) (p :: l);
      section (lit "change_points") >>> table point_keys rows
  | _ => skip
  end)).

Definition render_axi_stall_xout (response : json) : rend :=
  axi_head "axi.channel_stall"
    [lit "name"; lit "channel"; lit "sampling_mode"; lit "clock"; lit "edge"; lit "sample_time_semantics"; lit "sample_count";
     lit "transfer_count"; lit "max_stall_cycles"; lit "ready_without_valid_cycles"; lit "first_activity_time";
     lit "scan_complete"; lit "analysis_complete"; lit "response_truncated"; lit "total_count"; lit "returned_count";
     lit "sample_point"] response (fun _ =>
  section (lit "data") >>>
  response_data response (fun data =>
  findings <~ array_of (lit "findings") data;
  if json_empty findings then text (lit "findings") (lit "[empty]")
  else emit_json_table dump findings (i32 (Z.of_nat (jsize findings))))).

Definition render_axi_cursor_xout (response : json) : rend :=
  axi_head "axi.transaction.cursor"
    [lit "name"; lit "op"; lit "direction"; lit "found"; lit "index"; lit "index_base"; lit "at_begin"; lit "at_end";
     lit "scan_complete"; lit "analysis_complete"; lit "response_truncated"; lit "total_count"; lit "returned_count";
     lit "value_width_complete"] response (fun _ =>
  response_data response (fun data =>
  txn <~ json_of (lit "transaction") data;
  when (is_object txn && negb (json_empty txn))
    (emit_axi_scalar_section (lit "transaction") txn transaction_keys >>> emit_axi_parts txn (lit "transaction")))).
End Render.
