(* ===== verification/AxiScanTheory.v ===== *)
(** * AxiScanTheory: the transactions of an AXI scan

    The results of Axi.v put together: the handshakes of a scan increase in
    time, so the reads that [scan_axi] returns are those of the protocol, in
    the order of their addresses; and a small bus on which the scan, its
    depths and its export are run. *)

From stdpp Require Import sorting.
From S2P Require Import Prelude CLib Json LogicValue Waveform ClockSampling SessionTypes Sorting Engine Apb Axi AxiActions AxiQuery AxiAnalysis AxiTheory TableWave.

Open Scope Z_scope.

(** ** Numbering *)

Definition unnumbered : list AxiTransaction -> list AxiTransaction := map (set_index 0).
Lemma unnumbered_numbered l : unnumbered (numbered l) = unnumbered l.
Proof.
  apply list_eq. intros i. unfold unnumbered, numbered. rewrite !list_lookup_fmap, list_lookup_imap. by destruct (l !! i).
Qed.
Lemma numbered_index l i t : numbered l !! i = Some t -> tx_index t = Z.of_nat i.
Proof. unfold numbered. rewrite list_lookup_imap. destruct (l !! i); [|done]. by intros [= <-]. Qed.
Lemma filter_unnumbered p l : (forall i t, p (set_index i t) = p t) -> List.filter p (unnumbered l) = unnumbered (List.filter p l).
Proof.
  intros Hp. induction l as [|t l IH]; [done|]. cbn [unnumbered map List.filter]. rewrite Hp. fold (unnumbered l). rewrite IH.
  by destruct (p t).
Qed.
Lemma unnumbered_id l : Forall (fun t => tx_index t = 0) l -> unnumbered l = l.
Proof. induction 1 as [|[] l Ht _ IH]; [done|]. cbn in *. subst. by rewrite IH. Qed.

Lemma assemble_reads_raw `{StdSort} ar r : Forall (fun t => tx_index t = 0 /\ tx_is_write t = false) (assemble_reads ar r).
Proof.
  unfold assemble_reads. assert (forall l queues fin, foldl (read_step ar r) ([], []) l = (queues, fin) ->
    Forall (fun t => tx_index t = 0 /\ tx_is_write t = false) fin) as Hf.
  { induction l as [|re l IH] using rev_ind; intros queues fin; [intros [= _ <-]; constructor|].
    rewrite foldl_app. cbn [foldl]. destruct (foldl (read_step ar r) ([], []) l) as [q d]. specialize (IH q d eq_refl). cbn [read_step].
    destruct (re_kind re); [intros [= _ <-]; exact IH|].
    destruct (mget _ q) as [[|pr more]|]; [intros [= _ <-]; exact IH| |intros [= _ <-]; exact IH].
    destruct (ev_last _); intros [= _ <-]; [|exact IH]. apply Forall_app. split; [exact IH|]. by repeat constructor. }
  destruct (foldl _ _ _) as [queues fin] eqn:E. apply Forall_app. split; [by eapply Hf|].
  apply list.Forall_forall. intros t Ht. apply list_elem_of_fmap in Ht as (pr & -> & _). done.
Qed.
Lemma match_responses_raw aw b : forall queues,
  Forall (fun t => tx_index t = 0 /\ tx_is_write t = true) (fst (fst (match_responses aw b queues))).
Proof.
  induction b as [|e b IH]; intros queues; cbn [match_responses]; [constructor|].
  destruct (mget (ev_id e) queues) as [[|pw more]|].
  1,3: specialize (IH queues); by destruct (match_responses aw b queues) as [[? ?] ?].
  specialize (IH (mset (ev_id e) more queues)). destruct (match_responses aw b (mset (ev_id e) more queues)) as [[? ?] ?].
  constructor; [done|exact IH].
Qed.
Lemma assemble_writes_raw aw w b : Forall (fun t => tx_index t = 0 /\ tx_is_write t = true) (assemble_writes aw w b).
Proof.
  unfold assemble_writes. destruct (split_bursts [] w) as [bursts rest].
  pose proof (match_responses_raw aw b (pair_bursts aw 0 bursts [])) as Hm. destruct (match_responses _ _ _) as [[fin queued] orphans].
  repeat (apply Forall_app; split); [exact Hm|..]; apply list.Forall_forall; intros t Ht; by apply list_elem_of_fmap in Ht as (x & -> & _).
Qed.

(** ** Handshakes keep their times *)

Section Scan.
Context {W : Type} `{EngineWave W} `{StdSort}.

Lemma augment_times names complete c events (w : W) :
  (forall read ref e, ev_time (complete read ref e) = ev_time e) -> increasing events -> increasing (fst (augment names complete c events w)).
Proof.
  intros Hc Hs. unfold augment. destruct (find_all names w) as [refs w']. destruct (nth 0 refs 0 =? 0); [done|]. cbn [fst].
  unfold increasing in *. apply StronglySorted_map. eapply StronglySorted_weaken; [|exact Hs]. intros x y _ _. by rewrite !Hc.
Qed.

Context (w w' : W) (c : AxiSignalMap) (refs : list (Z * Z)) (edges : list Z) (known : bool) (result : AxiScanResult).
Context (Hscan : scan_channels c refs edges known w = (result, w')).

Lemma scan_transactions_of : axi_transactions result =
  numbered (stable_sort_by tx_start_time (assemble_axi_transactions (aw_events result) (w_events result) (b_events result)
    (ar_events result) (r_events result))).
Proof using Hscan.
  revert Hscan. unfold scan_channels. do 5 destruct (scan_channel_handshakes _ _ _ _ _).
  destruct (augment_aw_events _ _ _), (augment_w_events _ _ _), (augment_b_events _ _ _), (augment_ar_events _ _ _), (augment_r_events _ _ _).
  by intros [= <- _].
Qed.

Lemma scan_increasing : StronglySorted (fun a b => sb_time_at w a < sb_time_at w b) edges ->
  increasing (ar_events result) /\ increasing (r_events result).
Proof using Hscan.
  intros Hs. revert Hscan. unfold scan_channels.
  assert (forall i channel, increasing (fst (scan_channel_handshakes w (nth i refs (0, 0)) channel c edges))) as Hh
    by (intros; by apply handshakes_increasing).
  pose proof (Hh 3%nat (lit "ar")) as Har. pose proof (Hh 4%nat (lit "r")) as Hr.
  do 5 destruct (scan_channel_handshakes _ _ _ _ _). cbn [fst] in Har, Hr.
  destruct (augment_aw_events _ _ _) as [? w1], (augment_w_events _ _ _) as [? w2], (augment_b_events _ _ _) as [? w3].
  pose proof (augment_times [arid c; araddr c; arlen c; arsize c; arburst c] address_event c l w3 ltac:(done) Har) as Ha.
  unfold augment_ar_events. destruct (augment _ _ _ l w3) as [ar w4].
  pose proof (augment_times [rid c; rdata c; rlast c; rresp c] read_event c l0 w4 ltac:(done) Hr) as Hb.
  unfold augment_r_events. destruct (augment _ _ _ l0 w4) as [r w5]. by intros [= <- _].
Qed.
End Scan.

(** ** Reads of a scan *)

(** A completed read of an ID. *)
Definition read_of_id (id : bytes) (t : AxiTransaction) : bool := negb (tx_is_write t) && (tx_complete t && tx_has_id id t).

Lemma completed_starts ar l bursts : increasing ar -> StronglySorted lt l -> (forall i, i ∈ l -> (i < length ar)%nat) ->
  Forall burst_ok bursts -> StronglySorted (fun a b => tx_start_time a < tx_start_time b) (zip_with (completed_read ar) l bursts).
Proof.
  intros Har Hl. revert bursts. induction Hl as [|i l Hs IH Hall]; intros [|burst bursts] Hb Hok; [constructor..|].
  apply list.Forall_cons in Hok as [Hok1 Hok]. cbn [zip_with].
  assert (forall j b, burst_ok b -> tx_start_time (completed_read ar j b) = ev_time (event_at ar j)) as Hst.
  { intros j b (body & e & -> & _). unfold completed_read. by rewrite last_snoc. }
  constructor; [apply IH; [intros j Hj; apply Hb; by right|done]|]. apply list.Forall_forall. intros t Ht.
  apply list_elem_of_lookup_1 in Ht as (k & Hk). apply lookup_zip_with_Some in Hk as (j & b & -> & Hj & Hbk).
  apply list_elem_of_lookup_2 in Hj, Hbk. rewrite !Hst by (try done; by apply (proj1 (list.Forall_forall _ _) Hok)).
  assert (i < j)%nat as Hij by exact (proj1 (list.Forall_forall _ _) Hall _ Hj).
  destruct (lookup_lt_is_Some_2 ar i) as [x Hx]; [apply Hb; left|]. destruct (lookup_lt_is_Some_2 ar j) as [y Hy]; [apply Hb; by right|].
  unfold event_at. rewrite Hx, Hy. cbn. exact (StronglySorted_lookup _ ar _ _ _ _ Har Hx Hy Hij).
Qed.

Lemma seq_sorted n : forall start, StronglySorted lt (List.seq start n).
Proof.
  induction n as [|n IH]; intros start; cbn [List.seq]; constructor; [apply IH|]. apply list.Forall_forall. intros i Hi.
  rewrite list_elem_of_In in Hi. apply in_seq in Hi. lia.
Qed.

Lemma filter_reads {A} (p q : A -> bool) l : Forall (fun t => q t = true) l -> List.filter (fun t => q t && p t) l = List.filter p l.
Proof. intros Hl. apply filter_ext_in. intros t Ht. apply list_elem_of_In in Ht. by rewrite (proj1 (list.Forall_forall _ _) Hl _ Ht). Qed.

Lemma numbered_sorted l : StronglySorted (fun a b => tx_start_time a <= tx_start_time b) l ->
  StronglySorted (fun a b => tx_start_time a <= tx_start_time b) (numbered l).
Proof.
  intros Hs. apply (StronglySorted_map Z.le). assert (map tx_start_time (numbered l) = map tx_start_time l) as ->.
  { apply list_eq. intros i. unfold numbered. rewrite !list_lookup_fmap, list_lookup_imap. by destruct (l !! i). }
  by apply StronglySorted_map.
Qed.

(** C23: an AXI scan returns the reads the protocol defines. Sample the bus at
    edges that increase in time, however [std::sort] orders equal times; if
    every beat of an ID comes after a read of that ID that still waits, the
    completed reads of that ID are, in the order of the result, the first read
    of the ID with the first burst of its beats cut at RLAST, the second with
    the second, and so on; and the result is ordered by start time and
    numbered from 0. *)
Theorem axi_scan_reads {W} `{EngineWave W} `{StdSort} (w w' : W) c refs edges known result id :
  scan_channels c refs edges known w = (result, w') ->
  StronglySorted (fun a b => sb_time_at w a < sb_time_at w b) edges ->
  beats_in_time (ar_events result) (r_events result) id ->
  unnumbered (List.filter (read_of_id id) (axi_transactions result)) =
    zip_with (completed_read (ar_events result)) (ids_of (ar_events result) id) (write_bursts (List.filter (has_id id) (r_events result))) /\
  StronglySorted (fun a b => tx_start_time a <= tx_start_time b) (axi_transactions result) /\
  forall i t, axi_transactions result !! i = Some t -> tx_index t = Z.of_nat i.
Proof.
  intros Hscan Hedges Hbeats. destruct (scan_increasing _ _ _ _ _ _ _ Hscan Hedges) as [Har Hr].
  rewrite (scan_transactions_of _ _ _ _ _ _ _ Hscan). set (ar := ar_events result) in *. set (r := r_events result) in *.
  set (raw := assemble_axi_transactions _ _ _ ar r). assert (StronglySorted (fun a b => tx_start_time a <= tx_start_time b)
    (numbered (stable_sort_by tx_start_time raw))) as Hsorted by (by apply numbered_sorted, stable_sort_by_sorted).
  split_and!; [|done|apply numbered_index]. apply (sorted_unique tx_start_time).
  - rewrite <- filter_unnumbered, unnumbered_numbered by done.
    rewrite (Permutation_filter_bool _ _ (unnumbered raw)) by apply Permutation_map, stable_sort_perm. unfold raw, assemble_axi_transactions.
    rewrite unnumbered_numbered, unnumbered_id.
    2: { apply Forall_app. split; (eapply list.Forall_impl; [apply assemble_reads_raw || apply assemble_writes_raw|by intros t [? _]]). }
    rewrite filter_app, (filter_false _ (assemble_writes _ _ _)), app_nil_l.
    + unfold read_of_id. rewrite filter_reads.
      * by rewrite reads_fifo.
      * eapply list.Forall_impl; [apply assemble_reads_raw|]. intros t [_ Ht]. by rewrite Ht.
    + intros t Ht. pose proof (proj1 (list.Forall_forall _ _) (assemble_writes_raw _ _ _) t Ht) as [_ Hw]. unfold read_of_id. by rewrite Hw.
  - apply StronglySorted_map, StronglySorted_filter. exact Hsorted.
  - apply completed_starts; [done|apply StronglySorted_filter, seq_sorted| |].
    + intros i Hi. rewrite list_elem_of_In in Hi. apply List.filter_In in Hi as [Hi _]. apply in_seq in Hi. lia.
    + unfold write_bursts. pose proof (split_bursts_spec (List.filter (has_id id) r) [] ltac:(constructor)) as Hb.
      destruct (split_bursts _ _). apply Hb.
Qed.

(** ** Outstanding depths of a scan *)

(** At each edge out of reset, every transaction is looked at again. *)
Definition rescanned {W} `{EngineWave W} (w : W) (c : AxiSignalMap) (reset_ref : Z) (direction : bytes) (txns : list AxiTransaction)
    (edges : list Z) : list (Z * Z) :=
  map (fun ti => (u64 (count_if (outstanding_at direction false (sb_time_at w ti)) txns),
                  u64 (count_if (outstanding_at direction true (sb_time_at w ti)) txns))) (List.filter (released w c reset_ref) edges).

(** C24: the outstanding depths of [axi.analysis], measured by one pass over
    the sorted starts and ends, are those of a rescan: at each clock edge out
    of reset the number of reads and of writes of the direction that have
    started and not completed by then. *)
Theorem osd_sweep_exact {W} `{EngineWave W} `{StdSort} (w : W) (c : AxiSignalMap) reset_ref direction txns edges :
  StronglySorted (fun a b => sb_time_at w a <= sb_time_at w b) edges ->
  osd_depths w c reset_ref direction txns edges = rescanned w c reset_ref direction txns edges.
Proof.
  intros Hs. unfold osd_depths, rescanned. rewrite sweep_spec.
  - rewrite map_map. apply map_ext. intros ti. destruct (depth_counts direction (sb_time_at w ti) txns) as [<- <-].
    by rewrite (Permutation_filter_bool _ _ _ (std_sort_perm de_time _)).
  - apply std_sort_sorted.
  - apply StronglySorted_map, StronglySorted_filter, Hs.
Qed.

(** ** A small bus *)

#[local] Existing Instance table_wave.
#[local] Existing Instance stable_std_sort.

Definition demo_bus : AxiSignalMap := MkAxiSignalMap (lit "bus") (lit "clk") (lit "rstn") (lit "active_low") (lit "posedge") (lit "before")
  (lit "awid") (lit "awaddr") (lit "awlen") (lit "awsize") (lit "awburst") (lit "awvalid") (lit "awready")
  (lit "wdata") (lit "wstrb") (lit "wlast") (lit "wvalid") (lit "wready") (lit "bid") (lit "bresp") (lit "bvalid") (lit "bready")
  (lit "arid") (lit "araddr") (lit "arlen") (lit "arsize") (lit "arburst") (lit "arvalid") (lit "arready")
  (lit "rid") (lit "rdata") (lit "rresp") (lit "rlast") (lit "rvalid") (lit "rready").
(** Reads of IDs 0, 1 and 0 in cycles 1, 2 and 3; the first takes two beats,
    with the beat of ID 1 between them. One write; its data comes first. *)
Definition demo_table : Table := MkTable
  ([(lit "clk", []); bits_row (lit "rstn") (lit "01111111")]
   ++ map (fun s => bits_row (lit s) (lit "00000000")) ["awid"%string; "awaddr"%string; "awlen"%string; "awsize"%string; "awburst"%string;
        "wdata"%string; "wstrb"%string; "bid"%string; "bresp"%string; "araddr"%string; "arsize"%string; "arburst"%string; "rresp"%string]
   ++ [bits_row (lit "awvalid") (lit "00010000"); bits_row (lit "awready") (lit "11111111");
       bits_row (lit "wvalid") (lit "01100000"); bits_row (lit "wready") (lit "00111111"); bits_row (lit "wlast") (lit "01100000");
       bits_row (lit "bvalid") (lit "00000100"); bits_row (lit "bready") (lit "11111111");
       bits_row (lit "arvalid") (lit "01110000"); bits_row (lit "arready") (lit "11111111");
       bits_row (lit "arid") (lit "00100000"); bits_row (lit "arlen") (lit "01000000");
       bits_row (lit "rvalid") (lit "00011110"); bits_row (lit "rready") (lit "11111111");
       bits_row (lit "rid") (lit "00001000"); bits_row (lit "rdata") (lit "00001010"); bits_row (lit "rlast") (lit "00001110")]) 8 0.
Definition demo_edges : list Z := [3; 5; 7; 9; 11; 13; 15].
Definition demo_scan : attempt Table AxiScanResult := scan_axi (fun _ => None) demo_bus 0 1000.

(** The scan finds the edges out of reset and the handshakes; the reads are
    paired by ID, the write takes its burst and its response. *)
Lemma demo_scan_result :
  match fst (demo_scan demo_table) with
  | inr r => scan_complete r = true /\
      map (fun t => (tx_is_write t, tx_id t, tx_start_time t, tx_end_time t, tx_data_beats t)) (axi_transactions r) =
        [(false, lit "0", 30, 110, [lit "0"; lit "0"]); (false, lit "1", 50, 90, [lit "1"]);
         (true, lit "0", 70, 110, [lit "0"]); (false, lit "0", 70, 130, [lit "1"])]
  | inl _ => False
  end.
Proof. vm_compute. by split. Qed.

(** [beats_in_time] as a check. *)
Definition beats_check (ar r : list AxiHandshakeEvent) (id : bytes) : bool :=
  forallb (fun j => negb (has_id id (event_at r j))
    || (length (write_bursts (List.filter (has_id id) (take j r))) <?
        length (List.filter (fun a => has_id id a && (ev_time a <? ev_time (event_at r j))%Z) ar))%nat) (List.seq 0 (length r)).
Lemma beats_check_sound ar r id : beats_check ar r id = true -> beats_in_time ar r id.
Proof.
  intros Hc j e Hj Hid. unfold beats_check in Hc. rewrite forallb_forall in Hc. specialize (Hc j).
  assert (event_at r j = e) as He by (unfold event_at; by rewrite Hj). rewrite He, Hid in Hc. cbn [negb orb] in Hc.
  apply Nat.ltb_lt, Hc, in_seq. apply lookup_lt_Some in Hj. lia.
Qed.

Definition demo_refs : list (Z * Z) := pairs (fst (fst (find_sigs (control_roles demo_bus) None demo_table))).
Definition demo_result : AxiScanResult := fst (scan_channels demo_bus demo_refs demo_edges true demo_table).

Lemma axi_scan_reads_witness :
  unnumbered (List.filter (read_of_id (lit "0")) (axi_transactions demo_result)) =
    zip_with (completed_read (ar_events demo_result)) (ids_of (ar_events demo_result) (lit "0"))
      (write_bursts (List.filter (has_id (lit "0")) (r_events demo_result))) /\
  StronglySorted (fun a b => tx_start_time a <= tx_start_time b) (axi_transactions demo_result) /\
  forall i t, axi_transactions demo_result !! i = Some t -> tx_index t = Z.of_nat i.
Proof.
  apply (axi_scan_reads demo_table (snd (scan_channels demo_bus demo_refs demo_edges true demo_table)) demo_bus demo_refs demo_edges true).
  - apply surjective_pairing.
  - repeat constructor.
  - apply beats_check_sound. vm_compute. reflexivity.
Defined.

Lemma osd_sweep_exact_witness :
  osd_depths demo_table demo_bus 2 (lit "all") (axi_transactions demo_result) (1 :: demo_edges) =
    [(1, 0); (2, 0); (3, 1); (2, 1); (1, 0); (0, 0); (0, 0)].
Proof.
  rewrite (osd_sweep_exact demo_table demo_bus 2 (lit "all") (axi_transactions demo_result) (1 :: demo_edges));
    [vm_compute; reflexivity|repeat constructor; by vm_compute].
Defined.

(** ** What the reports miss *)

(** A response is paired with a write whose address comes later, and the
    export prints the difference of the times modulo 2^64. *)
Definition late_address : AxiHandshakeEvent := new_event (lit "aw") 90 9 90.
Definition early_beat : AxiHandshakeEvent :=
  MkEvent (lit "w") 10 1 10 (lit "handshake") [] [] [] [] [] [] [] [] true.
Definition early_response : AxiHandshakeEvent := new_event (lit "b") 50 5 50.
Lemma early_response_paired :
  let txns := assemble_writes [late_address] [early_beat] [early_response] in
  map (fun t => (tx_complete t, tx_start_time t, tx_end_time t)) txns = [(true, 90, 50)] /\
  map (fun t => nth 5 (export_row demo_table UnitNs t) []) txns = [lit "18446744073709551576"] /\
  map (fun t => nth 7 (export_row demo_table UnitNs t) []) txns = [lit "false"].
Proof. vm_compute. done. Qed.

(** A response that no write waits for makes a transaction, and the summary
    still counts no orphan. *)
Lemma orphan_not_counted :
  let result := MkAxiScanResult [] [] [early_response] [] [] (assemble_writes [] [] [early_response]) [] true in
  map tx_id (axi_transactions result) = [ev_id early_response] /\
  mget (lit "orphan_b_count") (common_summary demo_table UnitNs (MkAxiRequest JNull demo_bus 0 100 result) JNull (lit "latency") (lit "all") []
    (axi_transactions result)) = Some (JInt 0).
Proof. vm_compute. done. Qed.

(** The depth is said to rise with an address; it rises with such a response
    and never falls again. *)
Lemma orphan_raises_depth :
  map snd (osd_depths demo_table demo_bus 2 (lit "all") (assemble_writes [] [] [early_response]) demo_edges) = [0; 1; 1; 1; 1; 1; 1].
Proof. vm_compute. done. Qed.

(** The write data waits for ready in cycle 1, one clock cycle of 20 ticks: two
    cycles are reported. *)
Lemma stall_cycles_ticks :
  map (fun s => (stall_start s, stall_end s, stall_cycles s))
    (fst (find_stalls demo_table (row_index (lit "wvalid") demo_table, row_index (lit "wready") demo_table) 150 None
       (stall_indices demo_table (row_index (lit "wvalid") demo_table, row_index (lit "wready") demo_table) 0 150))) = [(20, 40, 2)] /\
  List.filter (fun ti => (20 <=? sb_time_at demo_table ti) && (sb_time_at demo_table ti <? 40)) (1 :: demo_edges) = [3].
Proof. vm_compute. done. Qed.
