(* ===== verification/WaveState.v ===== *)
(** * WaveState: the state of the waveform actions

    The waveform handlers of [src/engine/actions/waveform] share the open
    waveform, the cursors, the signal lists and the event configurations of the
    engine; this is that state, with the steps the handlers take on it. *)

From S2P Require Import Prelude CLib Json LogicValue ExprParser Waveform ExprEval ClockSampling Cursor SignalList Engine.

Open Scope Z_scope.

Record WaveState (W : Type) := MkWaveState {
  ws_wave : option W;
  ws_cursors : CursorManager;
  ws_lists : ListManager;
  ws_events : list (bytes * json);
  ws_files : list (bytes * bytes);
}.
Arguments MkWaveState {W}.
Arguments ws_wave {W}.
Arguments ws_cursors {W}.
Arguments ws_lists {W}.
Arguments ws_events {W}.
Arguments ws_files {W}.

(** [std::stoull]; [None] when it throws. *)
Definition stoull (raw : bytes) : option Z :=
  let '(value, rest, erange) := strtoull 10 raw in
  if erange || (length rest =? length raw)%nat then None else Some value.

(** The key and the value an iterator over a JSON value shows; only the
    iterators of an object have keys. *)
Definition json_iterator (j : json) : list (option bytes * json) :=
  match j with
  | JObject m => map (fun kv => (Some (fst kv), snd kv)) m
  | _ => map (fun v => (None, v)) (json_items j)
  end.
Definition iterator_key (k : option bytes) : res bytes := match k with Some k => Ret k | None => Throw "invalid_iterator.207" end.

Definition string_at (k : bytes) (j : json) : res bytes := v ← at_key k j; as_string v.
Definition or_null (s : bytes) : json := match s with [] => JNull | _ => JString s end.

Section Steps.
Context {W : Type} `{EngineWave W}.
Abbreviation St := (WaveState W).

Definition set_wave (w : W) (s : St) : St := MkWaveState (Some w) (ws_cursors s) (ws_lists s) (ws_events s) (ws_files s).

(** A step on the waveform; undefined when there is none. *)
Definition with_wave {A} (m : trial json W A) : trial json St A := fun s =>
  match ws_wave s with
  | None => (UB, s)
  | Some w => let '(r, w) := m w in (r, set_wave w s)
  end.
Definition wave_now : trial json St W := with_wave (fun w => (Ret (inr w), w)).
Definition find_wave_signal (name : bytes) : trial json St Z :=
  with_wave (fun w => let '(ref, w) := ew_find_signal w name in (Ret (inr ref), w)).
Definition load_wave_signal (ref : Z) : trial json St unit :=
  with_wave (fun w => (Ret (inr tt), snd (ew_load_signals w [ref]))).
(** A throwing evaluation keeps the waveform it started from. *)
Definition evaluate (e : ExprNode) (time_idx : Z) (point : ObservationPoint) : trial json St LogicValue :=
  with_wave (fun w => match eval_expression e w time_idx None point with
                      | Ret (v, w', _) => (Ret (inr v), w')
                      | UB => (UB, w)
                      | Throw what => (Throw what, w)
                      end).
(** [inl] ends the handler. *)
Definition or_stop {A} (r : res (json + A)) : trial json St A := fun s => (r, s).

Fixpoint each {A B} (f : A -> trial json St B) (l : list A) : trial json St (list B) :=
  match l with
  | [] => mret []
  | a :: l' => b ← f a; rest ← each f l'; mret (b :: rest)
  end.

Definition wave_required (action : bytes) : trial json St unit := fun s =>
  match ws_wave s with
  | Some _ => (Ret (inr tt), s)
  | None => (Ret (inl (error_response (lit "WAVEFORM_NOT_LOADED") (lit "action requires waveform file: " ++ action))), s)
  end.
End Steps.

(** [std::to_string] of a count. *)
Definition numbered_name (prefix : bytes) (i : nat) : bytes := prefix ++ udec (Z.of_nat i).

(** A response with at most so many rows. *)
Definition limited {A} (limit : Z) (l : list A) : list A := take (Z.to_nat limit) l.
