(* ===== verification/ClockActions.v ===== *)
(** * ClockActions: reads at clock edges

    Models the shared helpers of
    [src/engine/actions/waveform/clock_counter_actions.cpp] and its handlers
    [clock_point_query] and [expr.eval_at]. The printed form of a [double] is
    an argument. [parse_time_arg] is not called. *)

From stdpp Require Import sorting.
From S2P Require Import Prelude Sorting CLib Json LogicValue ExprParser Waveform ExprEval ClockSampling Cursor SignalList Engine WaveState.

Open Scope Z_scope.

(** ** Helpers *)

Definition render_value_json (bits : bytes) (width : Z) (fmt : ValueRenderFormat) : json :=
  logic_value_json (logic_value_from_bits bits (i32 width)) fmt.

(** Whether rising and falling edges count. *)
Definition parse_edge (edge : bytes) : option (bool * bool) :=
  if eqs edge [] || eqs edge (lit "rising") || eqs edge (lit "posedge") then Some (true, false)
  else if eqs edge (lit "falling") || eqs edge (lit "negedge") then Some (false, true)
  else if eqs edge (lit "both") || eqs edge (lit "dual") then Some (true, true)
  else None.

Fixpoint bits_loop (out : Z) (bits : bytes) : option Z :=
  match bits with
  | [] => Some out
  | c :: bits' =>
      let out := u64 (Z.shiftl out 1) in
      if eqc c "1"%char then bits_loop (Z.lor out 1) bits'
      else if eqc c "0"%char then bits_loop out bits'
      else None
  end.
Definition bits_to_u64 (bits : bytes) : option Z := bits_loop 0 bits.

(** The tree with the signals the aliases stand for; [inl] is the message. *)
Definition bind_name (aliases : json) (name : bytes) : res (bytes + bytes) :=
  if jcontains name aliases then signal ← string_at name aliases; Ret (inr signal)
  else Ret (inl (lit "expression references unknown alias: " ++ name)).
Fixpoint bind_expr_aliases (node : ExprNode) (aliases : json) : res (bytes + ExprNode) :=
  match node with
  | ESignal s => name ← bind_name aliases s; Ret (match name with inr signal => inr (ESignal signal) | inl message => inl message end)
  | ESlice s m l => name ← bind_name aliases s; Ret (match name with inr signal => inr (ESlice signal m l) | inl message => inl message end)
  | EConst v => Ret (inr (EConst v))
  | EUnary op r => bound ← bind_expr_aliases r aliases; Ret (match bound with inr r => inr (EUnary op r) | inl message => inl message end)
  | EBinary op l r =>
      bound ← bind_expr_aliases l aliases;
      match bound with
      | inl message => Ret (inl message)
      | inr l => bound ← bind_expr_aliases r aliases; Ret (match bound with inr r => inr (EBinary op l r) | inl message => inl message end)
      end
  end.
(** Parse, then bind; [inl] is the message. *)
Definition bound_expression (expr : bytes) (aliases : json) : res (bytes + ExprNode) :=
  match parse_expression expr with
  | POk (None, message) => Ret (inl message)
  | POk (Some root, _) => bind_expr_aliases root aliases
  | PUB => UB
  | PFuel => Throw "unreachable"
  end.

Definition has_one (bits : bytes) : bool := existsb (eqc "1"%char) bits.
Definition logic_status (value : LogicValue) : bytes :=
  if negb (known value) then lit "unknown" else if has_one (bits value) then lit "true" else lit "false".

Definition analysis_sampling_contract (edge requested_point : bytes) : json :=
  let negedge := eqs edge (lit "negedge") in
  let effective := if negedge then [] else if eqs requested_point [] then lit "before" else requested_point in
  let ignored := negedge && negb (eqs requested_point []) in
  let side point := jobj [(lit "edge", JString edge); (lit "sample_point", or_null point)] in
  let result := jobj [(lit "requested", side requested_point); (lit "effective", side effective);
    (lit "sample_point_applied", JBool (negb negedge)); (lit "sample_point_ignored_for_negedge", JBool ignored)] in
  if ignored then set_key (lit "sample_point_not_applied_reason")
                    (JString (lit "negedge keeps the established current-value sampling semantics")) result
  else result.
Definition analysis_observation_point (edge requested_point : bytes) : ObservationPoint :=
  if eqs edge (lit "negedge") then Raw else if eqs requested_point (lit "after") then After else Before.
Definition analysis_edge_selected (edge : bytes) (rising falling : bool) : bool :=
  if eqs edge (lit "dual") then rising || falling else if eqs edge (lit "posedge") then rising else falling.

Record AnalysisEdge := MkAnalysisEdge { ae_time_idx : Z; ae_time : Z }.

Inductive AnalysisTri := TriFalse | TriTrue | TriUnknown.
#[export] Instance AnalysisTri_eq_dec : EqDecision AnalysisTri.
Proof. solve_decision. Defined.
Fixpoint truth_of (one : bool) (text : bytes) : AnalysisTri :=
  match text with
  | [] => if one then TriTrue else TriFalse
  | c :: text' =>
      if eqc c "x"%char || eqc c "X"%char || eqc c "z"%char || eqc c "Z"%char then TriUnknown
      else truth_of (if eqc c "1"%char then true else one) text'
  end.
Definition analysis_truth (value : WaveformValue) : AnalysisTri :=
  if negb (bool_decide (kind value = BitVector)) || eqs (text value) [] then TriUnknown else truth_of false (text value).

Definition analysis_logic_json (value : WaveformValue) (width : Z) (format : ValueRenderFormat) : json :=
  if bool_decide (kind value = BitVector) then logic_value_json (logic_value_from_bits (text value) (i32 width)) format
  else jobj [(lit "value", JString (text value)); (lit "known", JBool true)].

(** The zeros at the end, and a point before them, are dropped. *)
Fixpoint drop_trailing_zeros (reversed : bytes) : bytes :=
  match reversed with
  | c :: (_ :: _) as rest => if eqc c "0"%char then drop_trailing_zeros rest else reversed
  | _ => reversed
  end.
Definition decimal_average (fixed : bytes) : bytes :=
  let reversed := drop_trailing_zeros (rev fixed) in
  let reversed := match reversed with c :: rest => if eqc c "."%char then rest else reversed | [] => [] end in
  match reversed with [] => lit "0" | _ => rev reversed end.

Section Actions.
Context {W : Type} `{EngineWave W}.
Context (real_to_string : Z -> bytes).
Abbreviation St := (WaveState W).

(** [@name] is the time of a cursor. *)
Definition parse_analysis_time (w : W) (cs : CursorManager) (input : json) (allow_max : bool) : res (bytes + Z) :=
  time_text ← as_string input;
  match time_text with
  | c :: (_ :: _) as name =>
      if eqc c "@"%char then
        Ret (match cm_get cs name with
             | Some cursor => inr (cur_time cursor)
             | None => inl (lit "waveform cursor not found: " ++ name)
             end)
      else Ret (ew_parse_time w time_text allow_max)
  | _ => Ret (ew_parse_time w time_text allow_max)
  end.
Definition analysis_bound (w : W) (cs : CursorManager) (range : json) (k : bytes) (allow_max : bool) (fallback : Z) :
    res (json + Z) :=
  if jcontains k range then
    input ← at_key k range;
    bound ← parse_analysis_time w cs input allow_max;
    Ret (match bound with inr t => inr t | inl message => inl (error_response (lit "INVALID_TIME") message) end)
  else Ret (inr fallback).
Definition parse_analysis_range (args : json) : trial json St (Z * Z) :=
  w ← wave_now;
  s ← run_step get_state;
  range ← pure_step (value_or Ret (lit "time_range") (JObject []) args);
  begin ← or_stop (analysis_bound w (ws_cursors s) range (lit "begin") false (ew_min_time w));
  end_ ← or_stop (analysis_bound w (ws_cursors s) range (lit "end") true (ew_max_time w));
  if end_ <? begin then stop (error_response (lit "TIME_RANGE_INVALID") (lit "end is before begin")) else mret (begin, end_).

Definition parse_analysis_unit (args : json) : trial json St TimeRenderUnit :=
  unit_text ← pure_step (value_or as_string (lit "render_time_unit") (lit "ns") args);
  match parse_time_render_unit unit_text with
  | Some unit => mret unit
  | None => stop (error_response (lit "INVALID_TIME_UNIT") time_unit_error)
  end.
Definition analysis_format (args : json) : trial json St ValueRenderFormat :=
  format_text ← pure_step (value_or as_string (lit "value_format") (lit "hex") args);
  mret (default Hex (parse_value_render_format format_text)).

(** The handle and the metadata of a signal; [inl] is the error. *)
Definition prepare_signal (signal : bytes) (w : W) : (json + (Z * SignalInfo)) * W :=
  let '(ref, w) := ew_find_signal w signal in
  if ref =? 0 then (inl (error_response (lit "SIGNAL_NOT_FOUND") (lit "signal not found in waveform: " ++ signal)), w)
  else
    let '(loaded, w) := if ew_is_loaded w ref then (true, w) else let '(n, w) := ew_load_signals w [ref] in (n =? 1, w) in
    if negb loaded then (inl (error_response (lit "VALUE_NOT_AVAILABLE") (lit "failed to load waveform signal: " ++ signal)), w)
    else
      match ew_signal_info w ref with
      | None => (inl (error_response (lit "VALUE_NOT_AVAILABLE") (lit "signal metadata is unavailable: " ++ signal)), w)
      | Some info => (inr (ref, info), w)
      end.
Definition prepare_analysis_signal (signal : bytes) : trial json St (Z * SignalInfo) :=
  with_wave (fun w => let '(r, w) := prepare_signal signal w in (Ret r, w)).
Definition prepare_clock (clock : bytes) : trial json St Z :=
  with_wave (fun w => match prepare_signal clock w with
                      | (inr (ref, _), w) => (Ret (inr ref), w)
                      | (inl _, w) => (Ret (inl (error_response (lit "CLOCK_NOT_FOUND") (lit "clock signal not found: " ++ clock))), w)
                      end).

Definition analysis_edge_at (w : W) (clock_ref begin end_ : Z) (edge : bytes) (ti : Z) : bool :=
  let time := sb_time_at w ti in
  if (time <? begin) || (end_ <? time) then false
  else
    match sb_sampled_value_at w clock_ref ti Before, sb_sampled_value_at w clock_ref ti Raw with
    | Some before, Some raw =>
        let b := text (sv_value before) in
        let r := text (sv_value raw) in
        analysis_edge_selected edge (is_rising_edge b r) (is_falling_edge b r)
    | _, _ => false
    end.
Fixpoint collect_edges (w : W) (clock_ref begin end_ : Z) (edge : bytes) (previous_ti : Z) (indices : list Z) : list AnalysisEdge :=
  match indices with
  | [] => []
  | ti :: indices' =>
      if ti =? previous_ti then collect_edges w clock_ref begin end_ edge previous_ti indices'
      else
        let rest := collect_edges w clock_ref begin end_ edge ti indices' in
        if analysis_edge_at w clock_ref begin end_ edge ti then MkAnalysisEdge ti (sb_time_at w ti) :: rest else rest
  end.
Definition collect_analysis_edges (w : W) (clock_ref begin end_ : Z) (edge : bytes) : list AnalysisEdge :=
  collect_edges w clock_ref begin end_ edge u32_max (sb_time_indices_of w clock_ref).

(** The edge and the sample point of a request. *)
Definition analysis_edge (args : json) : trial json St bytes :=
  edge ← pure_step (value_or as_string (lit "edge") (lit "negedge") args);
  if eqs edge (lit "posedge") || eqs edge (lit "negedge") || eqs edge (lit "dual") then mret edge
  else stop (error_response (lit "INVALID_FIELD") (lit "args.edge must be posedge, negedge, or dual")).

(** ** clock_point_query *)

Definition load_signal_or_error (name : bytes) : trial json St Z :=
  with_wave (fun w =>
    let '(ref, w) := ew_find_signal w name in
    if ref =? 0 then (Ret (inl (error_response (lit "SIGNAL_NOT_FOUND") (lit "signal not found in waveform: " ++ name))), w)
    else (Ret (inr ref), if ew_is_loaded w ref then w else snd (ew_load_signals w [ref]))).

(** The last edge at or before the index, or else the first one. *)
Definition nearest_edge (ti : Z) (edges : list Z) : option Z :=
  match list.last (fst (span (fun e => e <=? ti) edges)) with
  | Some e => Some e
  | None => list.head edges
  end.
Definition point_sample (sample_point : bytes) (width : Z) (fmt : ValueRenderFormat) (pv : PointValues) : json :=
  let shown (available : bool) bits := if available then render_value_json bits width fmt else JNull in
  let item k (available : bool) bits := if eqs sample_point (lit "all") || eqs sample_point k then [(k, shown available bits)] else [] in
  jobj (item (lit "middle") (pv_middle_match pv) (pv_middle pv) ++ item (lit "before") (pv_has_before pv) (pv_before pv)
        ++ item (lit "after") (pv_has_after pv) (pv_after pv)).

Definition clock_point_query (req : json) : act St json := answered (
  _ ← wave_required (lit "clock_point_query");
  args ← pure_step (value_or Ret (lit "args") (JObject []) req);
  sig ← pure_step (value_or as_string (lit "signal") [] args);
  ts ← pure_step (value_or as_string (lit "time") [] args);
  clk_name ← pure_step (value_or as_string (lit "clock") [] args);
  if eqs sig [] || eqs ts [] || eqs clk_name []
  then stop (error_response (lit "MISSING_FIELD") (lit "args.signal, args.time, and args.clock are required"))
  else match stoull ts with
  | None => stop (error_response (lit "INVALID_TIME") (lit "time must be an integer"))
  | Some t =>
      sig_ref ← load_signal_or_error sig;
      clk_ref ← load_signal_or_error clk_name;
      w ← wave_now;
      let width := si_width (default si_default (ew_signal_info w sig_ref)) in
      format_text ← pure_step (value_or as_string (lit "render_format") (lit "hex") args);
      let fmt := default Hex (parse_value_render_format format_text) in
      edge_str ← pure_step (value_or as_string (lit "edge") (lit "rising") args);
      match parse_edge edge_str with
      | None => stop (error_response (lit "INVALID_FIELD") (lit "edge must be rising, falling, or both"))
      | Some (rising, falling) =>
          sample_point ← pure_step (value_or as_string (lit "sample_point") (lit "middle") args);
          if negb (existsb (eqs sample_point) [lit "middle"; lit "before"; lit "after"; lit "all"])
          then stop (error_response (lit "INVALID_FIELD") (lit "sample_point must be middle, before, after, or all"))
          else
            match nearest_edge (ew_time_idx_of w t) (edge_indices (new_scanner w clk_ref sig_ref rising falling)) with
            | None => stop (error_response (lit "VALUE_NOT_AVAILABLE") (lit "no clock edge found in waveform"))
            | Some edge_ti =>
                let edge_time := sb_time_at w edge_ti in
                mret (ok_response
                  (jobj [(lit "signal", JString sig); (lit "clock", JString clk_name); (lit "requested_time", JUint t);
                         (lit "edge", JString edge_str); (lit "sample_point", JString sample_point)])
                  (jobj [(lit "signal", JString sig); (lit "clock", JString clk_name); (lit "time", JUint t);
                         (lit "edge_found", JBool true); (lit "edge_time", JUint edge_time); (lit "edge_time_idx", JUint edge_ti);
                         (lit "sample", point_sample sample_point width fmt (read_point_values real_to_string w sig_ref edge_ti));
                         (lit "time_match", JBool (edge_time =? t))]))
            end
      end
  end).

(** ** expr.eval_at *)

Record EdgeContext := MkEdgeContext { ec_previous : option Z; ec_next : option Z; ec_exact : bytes }.
(** The edge at an index: its kind. *)
Definition edge_kind_at (w : W) (clock_ref ti : Z) : option bytes :=
  match sb_sampled_value_at w clock_ref ti Before, sb_sampled_value_at w clock_ref ti Raw with
  | Some before, Some raw =>
      let b := text (sv_value before) in
      let r := text (sv_value raw) in
      if is_rising_edge b r then Some (lit "posedge") else if is_falling_edge b r then Some (lit "negedge") else None
  | _, _ => None
  end.
Definition context_step (w : W) (clock_ref time : Z) (edge : bytes) (c : EdgeContext) (ti : Z) : EdgeContext :=
  match edge_kind_at w clock_ref ti with
  | None => c
  | Some edge_kind =>
      let edge_time := sb_time_at w ti in
      let exact := if edge_time =? time then edge_kind else ec_exact c in
      if negb (eqs edge (lit "dual") || eqs edge edge_kind) then MkEdgeContext (ec_previous c) (ec_next c) exact
      else if edge_time <? time then MkEdgeContext (Some edge_time) (ec_next c) exact
      else if (time <? edge_time) && negb (bool_decide (is_Some (ec_next c))) then MkEdgeContext (ec_previous c) (Some edge_time) exact
      else MkEdgeContext (ec_previous c) (ec_next c) exact
  end.
Definition edge_context (w : W) (clock_ref time : Z) (edge : bytes) : EdgeContext :=
  foldl (context_step w clock_ref time edge) (MkEdgeContext None None []) (sb_time_indices_of w clock_ref).

Definition clock_context_json (w : W) (unit : TimeRenderUnit) (clock edge requested_point effective_point : bytes) (time : Z)
    (c : EdgeContext) : json :=
  let negedge := eqs edge (lit "negedge") in
  let ignored := negedge && negb (eqs requested_point []) in
  let side point := jobj [(lit "edge", JString edge); (lit "sample_point", or_null point)] in
  let time_json t := match t with Some t => JString (ew_format_time w t unit) | None => JNull end in
  let hit := negb (eqs (ec_exact c) []) in
  let context := jobj [(lit "clock", JString clock); (lit "requested_sampling", side requested_point);
    (lit "effective_sampling", side effective_point); (lit "sample_point_applied", JBool (negb negedge));
    (lit "sample_point_ignored_for_negedge", JBool ignored); (lit "requested_time", JString (ew_format_time w time unit));
    (lit "requested_any_edge_hit", JBool hit); (lit "clock_edge_kind", or_null (ec_exact c));
    (lit "requested_target_edge_hit", JBool (hit && (eqs edge (lit "dual") || eqs edge (ec_exact c))));
    (lit "previous_sample_time", time_json (ec_previous c)); (lit "next_sample_time", time_json (ec_next c));
    (lit "bracket_complete", JBool (bool_decide (is_Some (ec_previous c)) && bool_decide (is_Some (ec_next c))))] in
  if ignored then set_key (lit "sample_point_not_applied_reason")
                    (JString (lit "negedge keeps the established current-value sampling semantics")) context
  else context.

Definition load_operand (item : option bytes * json) : trial json St unit :=
  signal ← pure_step (as_string (snd item));
  ref ← find_wave_signal signal;
  if ref =? 0 then stop (error_response (lit "SIGNAL_NOT_FOUND") signal) else load_wave_signal ref.
Definition operand_json (ti : Z) (point : ObservationPoint) (format : ValueRenderFormat) (item : option bytes * json) :
    trial json St json :=
  signal ← pure_step (as_string (snd item));
  ref ← find_wave_signal signal;
  w ← wave_now;
  let width := si_width (default si_default (ew_signal_info w ref)) in
  let sampled := match sb_sampled_value_at w ref ti point with Some s => sv_value s | None => wv_default end in
  alias ← pure_step (iterator_key (fst item));
  mret (jobj [(lit "alias", JString alias); (lit "signal", snd item); (lit "value", render_value_json (text sampled) width format)]).

Definition expr_point (edge requested_point : bytes) : bytes :=
  if eqs edge (lit "negedge") then [] else if eqs requested_point [] then lit "before" else requested_point.
Definition expr_observation (effective_point : bytes) : ObservationPoint :=
  if eqs effective_point (lit "before") then Before else if eqs effective_point (lit "after") then After else Raw.

Definition expr_eval_at_action (req : json) : act St json := answered (
  _ ← wave_required (lit "expr.eval_at");
  args ← pure_step (at_key (lit "args") req);
  expr ← pure_step (string_at (lit "expr") args);
  aliases ← pure_step (at_key (lit "signals") args);
  w ← wave_now;
  time_text ← pure_step (string_at (lit "time") args);
  match ew_parse_time w time_text false with
  | inl message => stop (error_response (lit "INVALID_TIME") message)
  | inr time =>
      unit ← parse_analysis_unit args;
      format ← analysis_format args;
      bound ← pure_step (bound_expression expr aliases);
      match bound with
      | inl message => stop (error_response (lit "PARSE_ERROR") message)
      | inr root =>
          _ ← each load_operand (json_iterator aliases);
          clock ← pure_step (string_at (lit "clock") args);
          clock_ref ← find_wave_signal clock;
          if clock_ref =? 0 then stop (error_response (lit "CLOCK_NOT_FOUND") clock)
          else
            _ ← load_wave_signal clock_ref;
            edge ← pure_step (value_or as_string (lit "edge") (lit "negedge") args);
            requested_point ← pure_step (value_or as_string (lit "sample_point") [] args);
            let effective_point := expr_point edge requested_point in
            let point := expr_observation effective_point in
            w ← wave_now;
            let ti := ew_time_idx_of w time in
            result ← evaluate root ti point;
            operands ← each (operand_json ti point format) (json_iterator aliases);
            w ← wave_now;
            let context := clock_context_json w unit clock edge requested_point effective_point time (edge_context w clock_ref time edge) in
            before_value ← evaluate root ti Before;
            raw_value ← evaluate root ti Raw;
            after_value ← evaluate root ti After;
            w ← wave_now;
            mret (ok_response
              (jobj [(lit "expr", JString expr); (lit "time", JString (ew_format_time w time unit));
                     (lit "status", JString (logic_status result)); (lit "known", JBool (known result));
                     (lit "value_width_complete", JBool true); (lit "width_diagnostics", JArray [])])
              (jobj [(lit "expr_value", if known result then JBool (eqs (logic_status result) (lit "true")) else JNull);
                     (lit "operands", JArray operands); (lit "clock_context", context);
                     (lit "expr_samples", jobj [(lit "before", JString (logic_status before_value));
                        (lit "middle", JString (logic_status raw_value)); (lit "after", JString (logic_status after_value))])]))
      end
  end).
End Actions.

(** ** Edges around a time

    The edge a point query reads at and the bracket of edges around the time of
    an evaluated expression; binding replaces exactly the aliases. *)

(** ** The nearest edge *)

(** The last edge at or before the index if there is one, else the first. *)
Lemma nearest_edge_exact ti edges : StronglySorted Z.lt edges ->
  nearest_edge ti edges = match list.last (List.filter (fun e => e <=? ti) edges) with Some e => Some e | None => list.head edges end.
Proof.
  intros Hs. unfold nearest_edge. replace (fst (span (fun e => e <=? ti) edges)) with (List.filter (fun e => e <=? ti) edges); [done|].
  induction Hs as [|e l Hs IH Hall]; [done|]. cbn [span List.filter]. destruct (Z.leb_spec e ti).
  - rewrite IH. by destruct (span _ l).
  - apply filter_false. intros x Hx. assert (e < x) by exact (proj1 (list.Forall_forall _ _) Hall _ Hx). lia.
Qed.

(** ** The bracket *)

Section Bracket.
Context {W : Type} `{EngineWave W} (w : W) (clock_ref time : Z) (edge : bytes).

(** The times of the edges of the requested kind. *)
Definition wanted (ti : Z) : bool :=
  match edge_kind_at w clock_ref ti with Some k => eqs edge (lit "dual") || eqs edge k | None => false end.
Definition wanted_times (l : list Z) : list Z := map (sb_time_at w) (List.filter wanted l).
Definition exact_kind (l : list Z) : bytes :=
  default [] (list.last (omap (fun ti => if sb_time_at w ti =? time then edge_kind_at w clock_ref ti else None) l)).

Lemma context_run l : foldl (context_step w clock_ref time edge) (MkEdgeContext None None []) l =
  MkEdgeContext (list.last (List.filter (fun t => t <? time) (wanted_times l)))
    (list.head (List.filter (fun t => time <? t) (wanted_times l))) (exact_kind l).
Proof.
  induction l as [|ti l IH] using rev_ind; [done|]. rewrite foldl_app, IH. cbn [foldl]. unfold context_step, wanted_times, exact_kind.
  cbn [ec_previous ec_next ec_exact]. rewrite omap_app, !filter_app, !map_app, !filter_app. cbn [List.filter omap list_omap].
  assert (wanted ti = match edge_kind_at w clock_ref ti with Some k => eqs edge (lit "dual") || eqs edge k | None => false end) as -> by done.
  destruct (edge_kind_at w clock_ref ti) as [k|] eqn:Ek.
  2: { cbn [map List.filter]. rewrite !app_nil_r. replace (if sb_time_at w ti =? time then None else None) with (@None bytes) by (by destruct (_ =? _)).
       by rewrite app_nil_r. }
  assert (default [] (list.last (omap (fun ti => if sb_time_at w ti =? time then edge_kind_at w clock_ref ti else None) l ++
    match (if sb_time_at w ti =? time then Some k else None) with Some y => [y] | None => [] end)) =
    (if sb_time_at w ti =? time then k else default [] (list.last (omap (fun ti => if sb_time_at w ti =? time then edge_kind_at w clock_ref ti else None) l)))) as ->.
  { destruct (sb_time_at w ti =? time); [by rewrite last_snoc|by rewrite app_nil_r]. }
  destruct (eqs edge (lit "dual") || eqs edge k); cbn [negb map List.filter]; [|by rewrite !app_nil_r].
  destruct (Z.ltb_spec (sb_time_at w ti) time), (Z.ltb_spec time (sb_time_at w ti)); try lia; cbn [andb]; rewrite ?app_nil_r, ?last_snoc; try done.
  destruct (List.filter (fun t => time <? t) (map (sb_time_at w) (List.filter wanted l))) as [|x r]; cbn [list.head app];
    [by rewrite (bool_decide_eq_false_2 (is_Some None)) by (by intros [])|by rewrite (bool_decide_eq_true_2 (is_Some (Some x)))].
Qed.
(** The bracket of an evaluation is the last wanted edge before its time and
    the first one after it. *)
Lemma edge_context_exact : edge_context w clock_ref time edge =
  let l := sb_time_indices_of w clock_ref in
  MkEdgeContext (list.last (List.filter (fun t => t <? time) (wanted_times l)))
    (list.head (List.filter (fun t => time <? t) (wanted_times l))) (exact_kind l).
Proof. apply context_run. Qed.
End Bracket.

(** ** Aliases *)

Definition names_of : ExprNode -> list bytes := fix names e :=
  match e with
  | ESignal s | ESlice s _ _ => [s]
  | EConst _ => []
  | EUnary _ r => names r
  | EBinary _ l r => names l ++ names r
  end.
Fixpoint renamed (f : bytes -> bytes) (e : ExprNode) : ExprNode :=
  match e with
  | ESignal s => ESignal (f s)
  | ESlice s m l => ESlice (f s) m l
  | EConst v => EConst v
  | EUnary op r => EUnary op (renamed f r)
  | EBinary op l r => EBinary op (renamed f l) (renamed f r)
  end.
Definition alias_of (aliases : json) (s : bytes) : bytes := match jget s aliases with Some (JString t) => t | _ => [] end.
Definition aliases_strings (aliases : json) : Prop := exists m, aliases = JObject m /\ forall k v, mget k m = Some v -> exists t, v = JString t.

(** With text aliases binding succeeds exactly when every name has one, and
    replaces each name by it. *)
Lemma bind_aliases_exact e aliases : aliases_strings aliases ->
  if forallb (fun s => jcontains s aliases) (names_of e) then bind_expr_aliases e aliases = Ret (inr (renamed (alias_of aliases) e))
  else exists message, bind_expr_aliases e aliases = Ret (inl message).
Proof.
  intros (m & -> & Hm). assert (forall s, if jcontains s (JObject m) then bind_name (JObject m) s = Ret (inr (alias_of (JObject m) s))
    else exists message, bind_name (JObject m) s = Ret (inl message)) as Hn.
  { intros s. unfold bind_name, string_at, alias_of, jcontains, jget. cbn [Json.members at_key]. destruct (mget s m) as [v|] eqn:Em; [|by eexists].
    by destruct (Hm s v Em) as [t ->]. }
  induction e as [s|s a b|v|op r IH|op l IHl r IHr]; cbn [names_of forallb bind_expr_aliases renamed].
  - specialize (Hn s). rewrite andb_true_r. destruct (jcontains s (JObject m)); [by rewrite Hn|destruct Hn as [? ->]; by eexists].
  - specialize (Hn s). rewrite andb_true_r. destruct (jcontains s (JObject m)); [by rewrite Hn|destruct Hn as [? ->]; by eexists].
  - done.
  - fold (names_of r). destruct (forallb _ (names_of r)); [by rewrite IH|destruct IH as [? ->]; by eexists].
  - fold (names_of l) (names_of r). rewrite forallb_app. destruct (forallb _ (names_of l)); cbn [andb].
    + rewrite IHl. cbn. destruct (forallb _ (names_of r)); [by rewrite IHr|destruct IHr as [? ->]; by eexists].
    + destruct IHl as [? ->]. by eexists.
Qed.
