(* ===== verification/PulseInspect.v ===== *)
(** * PulseInspect: pulses the clock does not see

    Models [signal.sampled_pulse.inspect] of
    [src/engine/actions/waveform/clock_counter_actions.cpp]. The findings are
    one list of which the response shows a prefix. *)

From stdpp Require Import sorting.
From S2P Require Import Prelude Sorting CLib Json LogicValue ExprParser Waveform ExprEval ClockSampling Cursor SignalList SessionTypes Engine TableWave WaveState ClockActions.

Open Scope Z_scope.

Record Payload := MkPayload { pl_alias : bytes; pl_signal : bytes; pl_ref : Z; pl_width : Z }.
Record Sample := MkSample { sm_time : Z; sm_valid : WaveformValue; sm_payloads : list WaveformValue }.

(** ** Samples by time *)

(** [std::lower_bound] in samples ordered by time: the samples before it. *)
Definition lower_sample (samples : list Sample) (time : Z) : Z :=
  zlen (fst (span (fun row => sm_time row <? time) samples)).
Definition sample_at (samples : list Sample) (index : Z) : option Sample :=
  if index <? 0 then None else samples !! Z.to_nat index.
Definition time_of (samples : list Sample) (index : Z) : Z := match sample_at samples index with Some s => sm_time s | None => 0 end.
(** -1 when there are no samples. *)
Definition nearest_sample (samples : list Sample) (time : Z) : Z :=
  match samples with
  | [] => -1
  | _ =>
      let next := lower_sample samples time in
      if next <=? 0 then 0
      else if zlen samples <=? next then zlen samples - 1
      else if u64 (time - time_of samples (next - 1)) <=? u64 (time_of samples next - time) then next - 1 else next
  end.
Definition is_high (value : WaveformValue) : bool := bool_decide (analysis_truth value = TriTrue).
Definition sampled_high_between (samples : list Sample) (lo hi : Z) : bool :=
  existsb (fun row => is_high (sm_valid row))
    (fst (span (fun row => sm_time row <? hi) (drop (Z.to_nat (lower_sample samples lo)) samples))).

(** ** Pulses *)

(** The segments of the raw valid signal from the changes after the begin. *)
Record Segment := MkSegment { sg_begin : Z; sg_end : Z; sg_raw : WaveformValue }.

(** A pulse is reported when it is high and no sample in it is. *)
Definition unsampled (samples : list Sample) (s : Segment) : bool :=
  negb (sg_end s <=? sg_begin s) && is_high (sg_raw s) && negb (sampled_high_between samples (sg_begin s) (sg_end s)).

Definition risky (samples : list Sample) (time : Z) : AnalysisTri :=
  let nearest := nearest_sample samples time in
  if nearest <? 0 then TriUnknown
  else match sample_at samples nearest with Some s => analysis_truth (sm_valid s) | None => TriUnknown end.

Section Inspect.
Context {W : Type} `{EngineWave W} (trunc : bytes -> Z).
Abbreviation St := (WaveState W).

Definition load_payload (item : nat * json) : trial json St Payload :=
  signal ← pure_step (as_string (snd item));
  prepared ← prepare_analysis_signal signal;
  mret (MkPayload (numbered_name (lit "payload") (fst item)) signal (fst prepared) (si_width (snd prepared))).

Definition value_at_point (w : W) (ref ti : Z) (point : ObservationPoint) : WaveformValue :=
  match sb_sampled_value_at w ref ti point with Some s => sv_value s | None => wv_default end.
Fixpoint take_samples (w : W) (valid_ref : Z) (payloads : list Payload) (point : ObservationPoint) (edges : list AnalysisEdge) :
    list Sample :=
  match edges with
  | [] => []
  | e :: edges' =>
      let rest := take_samples w valid_ref payloads point edges' in
      match sb_sampled_value_at w valid_ref (ae_time_idx e) point with
      | None => rest
      | Some sampled =>
          MkSample (ae_time e) (sv_value sampled) (map (fun p => value_at_point w (pl_ref p) (ae_time_idx e) point) payloads) :: rest
      end
  end.

Definition in_range (w : W) (begin end_ ti : Z) : bool := (begin <=? sb_time_at w ti) && (sb_time_at w ti <=? end_).
Fixpoint segments (w : W) (valid_ref begin end_ segment_begin : Z) (current : WaveformValue) (changes : list Z) : list Segment :=
  match changes with
  | [] => [MkSegment segment_begin end_ current]
  | ti :: changes' =>
      let time := sb_time_at w ti in
      if time =? begin then segments w valid_ref begin end_ begin current changes'
      else
        let changed := match sb_sampled_value_at w valid_ref ti Raw with Some s => sv_value s | None => current end in
        MkSegment segment_begin time current :: segments w valid_ref begin end_ time changed changes'
  end.

Section Findings.
Context (w : W) (unit : TimeRenderUnit) (format : ValueRenderFormat) (samples : list Sample) (payloads : list Payload) (valid_width : Z).
Definition sample_time_json (index : Z) : json :=
  match sample_at samples index with Some s => JString (ew_format_time w (sm_time s) unit) | None => JNull end.
Definition sampled_valid_json (index : Z) : json :=
  match sample_at samples index with Some s => analysis_logic_json (sm_valid s) valid_width format | None => JNull end.
Definition sampled_payloads_json (index : Z) : json :=
  match sample_at samples index with
  | None => JArray []
  | Some s => JArray (zip_with (fun p v => jobj [(lit "alias", JString (pl_alias p)); (lit "signal", JString (pl_signal p));
                                                 (lit "value", analysis_logic_json v (pl_width p) format)]) payloads (sm_payloads s))
  end.
Definition pulse_finding (s : Segment) : json :=
  let next := lower_sample samples (sg_begin s) in
  let nearest := nearest_sample samples (sg_begin s) in
  jobj [(lit "type", JString (lit "unsampled_valid_pulse")); (lit "severity", JString (lit "warning"));
        (lit "raw_begin", JString (ew_format_time w (sg_begin s) unit)); (lit "raw_end", JString (ew_format_time w (sg_end s) unit));
        (lit "previous_sample_edge", sample_time_json (next - 1)); (lit "next_sample_edge", sample_time_json next);
        (lit "nearest_sample_edge", sample_time_json nearest);
        (lit "raw_valid", analysis_logic_json (sg_raw s) valid_width format);
        (lit "sampled_valid", sampled_valid_json nearest); (lit "sampled_payloads", sampled_payloads_json nearest);
        (lit "reason", JString (lit "valid was high between sample edges but not high at any sampled edge"))].

(** The changes of a payload in the range. *)
Definition payload_changes (begin end_ : Z) (p : Payload) : list (Payload * Z) :=
  map (fun ti => (p, ti)) (List.filter (in_range w begin end_) (sb_time_indices_of w (pl_ref p))).
Definition payload_risk (change : Payload * Z) : bool := negb (bool_decide (risky samples (sb_time_at w (snd change)) = TriTrue)).
Definition payload_finding (change : Payload * Z) : json :=
  let '(p, ti) := change in
  let time := sb_time_at w ti in
  let next := lower_sample samples time in
  let nearest := nearest_sample samples time in
  jobj [(lit "type", JString (lit "payload_changed_without_sampled_valid")); (lit "severity", JString (lit "warning"));
        (lit "raw_time", JString (ew_format_time w time unit)); (lit "previous_sample_edge", sample_time_json (next - 1));
        (lit "next_sample_edge", sample_time_json next); (lit "nearest_sample_edge", sample_time_json nearest);
        (lit "payload", jobj [(lit "alias", JString (pl_alias p)); (lit "signal", JString (pl_signal p));
           (lit "value", analysis_logic_json (value_at_point w (pl_ref p) ti Raw) (pl_width p) format)]);
        (lit "sampled_valid", sampled_valid_json nearest); (lit "sampled_payloads", sampled_payloads_json nearest);
        (lit "reason", JString (if bool_decide (risky samples time = TriUnknown)
           then lit "payload changed but sampled valid was unknown"
           else lit "payload changed but valid was not sampled high by the DUT clock"))].
End Findings.

Definition count_state (state : AnalysisTri) (samples : list Sample) : Z :=
  zlen (List.filter (fun s => bool_decide (analysis_truth (sm_valid s) = state)) samples).

Definition pulse_answer (w : W) (unit : TimeRenderUnit) (format : ValueRenderFormat) (clock valid edge requested_point
    payload_reporting : bytes) (valid_ref valid_width clock_ref begin end_ line_limit : Z) (payloads : list Payload) : json :=
  let point := analysis_observation_point edge requested_point in
  let samples := take_samples w valid_ref payloads point (collect_analysis_edges w clock_ref begin end_ edge) in
  let highs := List.filter (fun s => is_high (sm_valid s)) samples in
  let high_time s := match s with Some s => JString (ew_format_time w (sm_time s) unit) | None => JNull end in
  let valid_changes := List.filter (in_range w begin end_) (sb_time_indices_of w valid_ref) in
  let initial := value_at_point w valid_ref (ew_time_idx_of w begin) Raw in
  let pulses := List.filter (unsampled samples) (segments w valid_ref begin end_ begin initial valid_changes) in
  let changes := if eqs payload_reporting (lit "off") then [] else List.concat (map (payload_changes w begin end_) payloads) in
  let risks := List.filter (payload_risk w samples) changes in
  let all := map (pulse_finding w unit format samples payloads valid_width) pulses
             ++ (if eqs payload_reporting (lit "all") then map (payload_finding w unit format samples payloads valid_width) risks else []) in
  let findings := limited line_limit all in
  let truncated := zlen findings <? zlen all in
  let total := zlen all + (if eqs payload_reporting (lit "summary") then zlen risks else 0) in
  ok_response
    (jobj [(lit "sampling_mode", JString (lit "clock_edge")); (lit "clock", JString clock);
           (lit "sample_time_semantics", JString (lit "time is sample_time")); (lit "sample_count", JUint (zlen samples));
           (lit "sampled_high_cycles", JUint (count_state TriTrue samples));
           (lit "unsampled_valid_pulse_count", JUint (zlen pulses)); (lit "payload_risk_count", JUint (zlen risks));
           (lit "payload_changed_without_sampled_valid_reporting", JString payload_reporting);
           (lit "scan_complete", JBool true); (lit "analysis_complete", JBool true); (lit "response_truncated", JBool truncated);
           (lit "total_count", JUint total); (lit "returned_count", JUint (zlen findings));
           (lit "truncation_scopes", JArray (if truncated then [JString (lit "response_findings")] else []))])
    (jobj [(lit "valid", JString valid);
           (lit "payloads", JArray (map (fun p => jobj [(lit "alias", JString (pl_alias p)); (lit "signal", JString (pl_signal p))]) payloads));
           (lit "begin", JString (ew_format_time w begin unit)); (lit "end", JString (ew_format_time w end_ unit));
           (lit "sampled_low_cycles", JUint (count_state TriFalse samples));
           (lit "sampled_unknown_cycles", JUint (count_state TriUnknown samples));
           (lit "raw_valid_transition_count", JUint (zlen valid_changes));
           (lit "payload_transition_count", JUint (zlen changes));
           (lit "first_sampled_high_time", high_time (list.head highs)); (lit "last_sampled_high_time", high_time (list.last highs));
           (lit "findings", JArray findings); (lit "sampling", analysis_sampling_contract edge requested_point)]).

Definition signal_sampled_pulse_inspect (req : json) : act St json := answered (
  args ← pure_step (at_key (lit "args") req);
  clock ← pure_step (string_at (lit "clock") args);
  valid ← pure_step (string_at (lit "valid") args);
  clock_ref ← prepare_clock clock;
  valid_prepared ← prepare_analysis_signal valid;
  range ← parse_analysis_range args;
  unit ← parse_analysis_unit args;
  format ← analysis_format args;
  edge ← analysis_edge args;
  requested_point ← pure_step (value_or as_string (lit "sample_point") [] args);
  line_limit ← pure_step (value_or (as_number trunc u32) (lit "line_limit") 100 args);
  rules ← pure_step (value_or Ret (lit "rules") (JObject []) args);
  payload_reporting ← pure_step (value_or as_string (lit "payload_changed_without_sampled_valid") (lit "summary") rules);
  payloads ← (if jcontains (lit "payloads") args
              then items ← pure_step (at_key (lit "payloads") args); each load_payload (imap pair (json_items items))
              else mret []);
  if jcontains (lit "payload_changed_without_sampled_valid") rules && negb (0 <? zlen payloads)
  then stop (error_response (lit "INVALID_FIELD") (lit "rules.payload_changed_without_sampled_valid requires args.payloads"))
  else
    w ← wave_now;
    mret (pulse_answer w unit format clock valid edge requested_point payload_reporting (fst valid_prepared)
            (si_width (snd valid_prepared)) clock_ref (fst range) (snd range) line_limit payloads)).
End Inspect.

(** ** What a pulse inspection reports

    The searches of PulseInspect.v in samples ordered by time, the segments of
    the raw signal, and a pulse between two clock edges that is reported although
    the second edge samples it. *)

Definition in_order (samples : list Sample) : Prop := StronglySorted (fun a b => sm_time a < sm_time b) samples.

Lemma span_filter {A} (key : A -> Z) (t : Z) l : StronglySorted (fun a b => key a < key b) l ->
  span (fun a => key a <? t) l = (List.filter (fun a => key a <? t) l, List.filter (fun a => t <=? key a) l).
Proof.
  induction 1 as [|a l Hs IH Hall]; [done|]. cbn [span List.filter]. destruct (Z.ltb_spec (key a) t).
  - rewrite IH. by destruct (Z.leb_spec t (key a)); [lia|].
  - rewrite (proj2 (Z.leb_le t (key a))) by lia. rewrite filter_false, filter_true; [done| |]; intros x Hx;
      assert (key a < key x) by exact (proj1 (list.Forall_forall _ _) Hall _ Hx); lia.
Qed.

Lemma lower_split samples t : in_order samples ->
  samples = List.filter (fun s => sm_time s <? t) samples ++ List.filter (fun s => t <=? sm_time s) samples /\
  lower_sample samples t = zlen (List.filter (fun s => sm_time s <? t) samples).
Proof.
  intros Hs. unfold lower_sample. pose proof (span_filter sm_time t samples Hs) as Hsp. rewrite Hsp. cbn [fst]. split; [|done].
  rewrite <- (span_app (fun s => sm_time s <? t) samples) at 1. by rewrite Hsp.
Qed.

(** Some sample of the half-open window is high. *)
Lemma sampled_high_exact samples lo hi : in_order samples ->
  sampled_high_between samples lo hi = existsb (fun s => (lo <=? sm_time s) && (sm_time s <? hi) && is_high (sm_valid s)) samples.
Proof.
  intros Hs. unfold sampled_high_between. destruct (lower_split samples lo Hs) as [Hsplit ->].
  assert (forall a b, samples = a ++ b -> drop (Z.to_nat (zlen a)) samples = b) as Hd.
  { intros a b ->. unfold zlen. rewrite Nat2Z.id. apply drop_app_length. }
  rewrite (Hd _ _ Hsplit).
  rewrite span_filter by (by apply StronglySorted_filter). cbn [fst]. clear. induction samples as [|s l IH]; [done|]. cbn [List.filter existsb].
  destruct (lo <=? sm_time s); cbn [andb List.filter existsb]; [|done]. destruct (sm_time s <? hi); cbn [andb existsb]; [|done]. by rewrite IH.
Qed.

(** The segments are joined end to end, from the begin of the window to its
    end; each holds from one change of the signal to the next. *)
Fixpoint joined (from to_ : Z) (l : list Segment) : Prop :=
  match l with
  | [] => from = to_
  | s :: l' => sg_begin s = from /\ joined (sg_end s) to_ l'
  end.
Lemma segments_joined {W} `{EngineWave W} (w : W) ref begin end_ changes : forall from current,
  StronglySorted (fun a b => sb_time_at w a < sb_time_at w b) changes ->
  (forall ti, ti ∈ changes -> from <= sb_time_at w ti) -> begin <= from ->
  joined from end_ (segments w ref begin end_ from current changes).
Proof.
  induction changes as [|ti changes IH]; intros from current Hs Hfrom Hb; cbn [segments joined]; [done|].
  apply StronglySorted_inv in Hs as [Hs Hall]. assert (from <= sb_time_at w ti) as Hti by (apply Hfrom; left).
  destruct (Z.eqb_spec (sb_time_at w ti) begin) as [E|E].
  - assert (from = begin) as -> by lia. apply IH; [done| |done]. intros x Hx. apply Hfrom. by right.
  - cbn [joined]. split; [done|]. apply IH; [done| |lia]. intros x Hx.
    assert (sb_time_at w ti < sb_time_at w x) by exact (proj1 (list.Forall_forall _ _) Hall _ Hx). lia.
Qed.

(** ** The nearest sample *)

Definition timed (samples : list Sample) : Prop := Forall (fun s => 0 <= sm_time s < 2 ^ 64) samples.

Lemma sample_time_before samples t i s : in_order samples -> samples !! i = Some s ->
  (Z.of_nat i < lower_sample samples t <-> sm_time s < t).
Proof.
  intros Hs Hi. destruct (lower_split samples t Hs) as [Hsplit ->]. rewrite Hsplit in Hi. unfold zlen.
  split; intros Hlt.
  - rewrite lookup_app_l in Hi by lia. apply list_elem_of_lookup_2, list_elem_of_In, List.filter_In in Hi as [_ Hi]. lia.
  - destruct (Nat.lt_ge_cases i (length (List.filter (fun s => sm_time s <? t) samples))); [lia|].
    rewrite lookup_app_r in Hi by lia. apply list_elem_of_lookup_2, list_elem_of_In, List.filter_In in Hi as [_ Hi]. lia.
Qed.

(** The sample a finding calls the nearest one is: no sample is closer in
    time, and of two that are equally close it is the earlier one. *)
Theorem nearest_sample_exact samples t : in_order samples -> timed samples -> 0 <= t < 2 ^ 64 -> samples <> [] ->
  exists s, sample_at samples (nearest_sample samples t) = Some s /\
    forall i x, samples !! i = Some x -> Z.abs (t - sm_time s) <= Z.abs (t - sm_time x) /\
      (Z.abs (t - sm_time s) = Z.abs (t - sm_time x) -> sm_time s <= sm_time x).
Proof.
  intros Hs Ht Hr Hne. unfold nearest_sample. destruct samples as [|s0 rest] eqn:El; [done|]. rewrite <- El in *. clear Hne.
  assert (0 < length samples)%nat as Hpos by (rewrite El; cbn; lia). clear El s0 rest.
  set (next := lower_sample samples t). assert (0 <= next <= zlen samples) as Hn.
  { unfold next. destruct (lower_split samples t Hs) as [Hsp ->]. apply (f_equal length) in Hsp. rewrite length_app in Hsp. unfold zlen. lia. }
  assert (forall i x, samples !! i = Some x -> 0 <= sm_time x < 2 ^ 64) as Hrange.
  { intros i x Hx%list_elem_of_lookup_2. exact (proj1 (list.Forall_forall _ _) Ht _ Hx). }
  assert (forall i j x y, samples !! i = Some x -> samples !! j = Some y -> (i <= j)%nat -> sm_time x <= sm_time y) as Hmono.
  { intros i j x y Hi Hj Hij. destruct (decide (i = j)) as [->|]; [rewrite Hi in Hj; injection Hj as ->; lia|].
    assert (sm_time x < sm_time y) by (exact (StronglySorted_lookup _ _ _ _ _ _ Hs Hi Hj ltac:(lia))). lia. }
  assert (forall i x, samples !! i = Some x -> (Z.of_nat i < next <-> sm_time x < t)) as Hb by (intros; by apply sample_time_before).
  unfold zlen in *. destruct (Z.leb_spec next 0) as [H0|H0].
  - destruct (lookup_lt_is_Some_2 samples 0 Hpos) as [x Hx]. exists x. split; [by unfold sample_at|]. intros i y Hy.
    pose proof (Hb _ _ Hx). pose proof (Hb _ _ Hy). pose proof (Hmono _ _ _ _ Hx Hy ltac:(lia)). lia.
  - destruct (Z.leb_spec (Z.of_nat (length samples)) next) as [H1|H1].
    + destruct (lookup_lt_is_Some_2 samples (length samples - 1)) as [x Hx]; [lia|]. exists x. split.
      * unfold sample_at. destruct (Z.ltb_spec (Z.of_nat (length samples) - 1) 0); [lia|].
        by replace (Z.to_nat (Z.of_nat (length samples) - 1)) with (length samples - 1)%nat by lia.
      * intros i y Hy. pose proof (lookup_lt_Some _ _ _ Hy). pose proof (Hb _ _ Hx). pose proof (Hb _ _ Hy).
        pose proof (Hmono _ _ _ _ Hy Hx ltac:(lia)). lia.
    + destruct (lookup_lt_is_Some_2 samples (Z.to_nat (next - 1))) as [x Hx]; [lia|].
      destruct (lookup_lt_is_Some_2 samples (Z.to_nat next)) as [y Hy]; [lia|].
      assert (sample_at samples (next - 1) = Some x) as Hsx by (unfold sample_at; by destruct (Z.ltb_spec (next - 1) 0); [lia|]).
      assert (sample_at samples next = Some y) as Hsy by (unfold sample_at; by destruct (Z.ltb_spec next 0); [lia|]).
      unfold time_of. rewrite Hsx, Hsy. pose proof (proj1 (Hb _ _ Hx) ltac:(lia)) as Hxt.
      assert (t <= sm_time y) as Hyt by (destruct (Z.lt_ge_cases (sm_time y) t) as [Hc|]; [apply (Hb _ _ Hy) in Hc; lia|done]).
      pose proof (Hrange _ _ Hx). pose proof (Hrange _ _ Hy). rewrite !u64_small by lia.
      assert (forall i z, samples !! i = Some z -> sm_time z <= sm_time x \/ sm_time y <= sm_time z) as Hcut.
      { intros i z Hz. destruct (decide (i <= Z.to_nat (next - 1))%nat); [left; by eapply Hmono|right; eapply Hmono; [exact Hy|exact Hz|lia]]. }
      destruct (Z.leb_spec (t - sm_time x) (sm_time y - t)); [exists x|exists y]; (split; [done|]); intros i z Hz; destruct (Hcut i z Hz); lia.
Qed.

Lemma nearest_sample_exact_witness :
  let samples := [MkSample 10 wv_default []; MkSample 30 wv_default []] in
  exists s, sample_at samples (nearest_sample samples 20) = Some s /\
    forall i x, samples !! i = Some x -> Z.abs (20 - sm_time s) <= Z.abs (20 - sm_time x) /\
      (Z.abs (20 - sm_time s) = Z.abs (20 - sm_time x) -> sm_time s <= sm_time x).
Proof.
  apply (nearest_sample_exact [MkSample 10 wv_default []; MkSample 30 wv_default []] 20).
  - repeat constructor.
  - repeat constructor; cbn; lia.
  - lia.
  - discriminate.
Defined.

(** ** A pulse of one clock cycle *)

#[local] Existing Instance table_wave.
(** Valid is high from the rising edge at 30 to the one at 50. *)
Definition pulse_table : Table := MkTable [(lit "clk", []); bits_row (lit "valid") (lit "001000")] 5 1.
Definition pulse_request : json :=
  jobj [(lit "args", jobj [(lit "clock", JString (lit "clk")); (lit "valid", JString (lit "valid"));
                           (lit "edge", JString (lit "posedge")); (lit "sample_point", JString (lit "before"))])].
Definition pulse_response : res json :=
  fst (signal_sampled_pulse_inspect (fun _ => 0) pulse_request (MkWaveState (Some pulse_table) cm_initial [] [] [])).
Definition answered_with (r : res json) (section key : string) : option json :=
  match r with Ret j => body ← jget (lit section) j; jget (lit key) body | _ => None end.

(** Sampled before the edges, the pulse is seen at 50 and counted as a high
    cycle; yet it is reported as a pulse no edge samples, since the edge that
    ends it is left out. *)
Lemma sampled_pulse_reported_unsampled :
  answered_with pulse_response "summary" "sampled_high_cycles" = Some (JUint 1) /\
  answered_with pulse_response "data" "first_sampled_high_time" = Some (JString (lit "50")) /\
  answered_with pulse_response "summary" "unsampled_valid_pulse_count" = Some (JUint 1).
Proof. vm_compute. done. Qed.
