(* ===== verification/HandshakeInspect.v ===== *)
(** * HandshakeInspect: the rules of a valid/ready handshake

    Models [protocol.handshake.inspect] of
    [src/engine/actions/waveform/clock_counter_actions.cpp]: three machines that
    watch the sampled edges, one for the hold of valid, one for ready without
    valid and one for stalls. The findings are one list of which the response
    shows a prefix. *)

From S2P Require Import Prelude CLib Json LogicValue ExprParser Waveform ExprEval ClockSampling Cursor SignalList Engine WaveState ClockActions PulseInspect.

Open Scope Z_scope.

(** What is seen at an edge. *)
Record Observation := MkObservation { ob_time : Z; ob_valid_value : WaveformValue; ob_ready : AnalysisTri; ob_data : list (bytes * bytes) }.
Definition ob_valid (o : Observation) : AnalysisTri := analysis_truth (ob_valid_value o).
Definition ob_transfer (o : Observation) : bool := bool_decide (ob_valid o = TriTrue) && bool_decide (ob_ready o = TriTrue).
Definition ob_stall (o : Observation) : bool := bool_decide (ob_valid o = TriTrue) && bool_decide (ob_ready o = TriFalse).
Definition ob_ready_only (o : Observation) : bool := bool_decide (ob_ready o = TriTrue) && bool_decide (ob_valid o = TriFalse).

Inductive Finding :=
| ValidDropped (begin time : Z) (value : WaveformValue) (unknown : bool)
| ReadyOnly (time : Z)
| DataChanged (begin time : Z) (signal : bytes)
| LongStall (begin end_ cycles : Z) (open : bool).

(** ** Valid is held until the handshake *)

Record Hold := MkHold { hd_awaiting : bool; hd_begin : Z; hd_violations : Z }.
Definition hold_step (require_hold : bool) (h : Hold) (o : Observation) : Hold * list Finding :=
  let '(h, found) :=
    if require_hold && hd_awaiting h then
      if ob_transfer o then (MkHold false (hd_begin h) (hd_violations h), [])
      else if negb (bool_decide (ob_valid o = TriTrue)) then
        (MkHold false (hd_begin h) (hd_violations h + 1),
         [ValidDropped (hd_begin h) (ob_time o) (ob_valid_value o) (bool_decide (ob_valid o = TriUnknown))])
      else (h, [])
    else (h, []) in
  if require_hold && ob_stall o && negb (hd_awaiting h) then (MkHold true (ob_time o) (hd_violations h), found) else (h, found).

(** ** Ready without valid *)

Record Interval := MkInterval { iv_begin : Z; iv_end : Z; iv_cycles : Z; iv_open : bool }.
Record ReadyRun := MkReadyRun { rr_in : bool; rr_begin : Z; rr_end : Z; rr_cycles : Z; rr_total : Z; rr_intervals : list Interval }.
Definition finish_ready_interval (open : bool) (r : ReadyRun) : ReadyRun :=
  if rr_in r then
    MkReadyRun false (rr_begin r) (rr_end r) 0 (rr_total r)
      (rr_intervals r ++ [MkInterval (rr_begin r) (rr_end r) (rr_cycles r) open])
  else r.
Definition ready_step (report_all : bool) (r : ReadyRun) (o : Observation) : ReadyRun * list Finding :=
  if ob_ready_only o then
    (MkReadyRun true (if rr_in r then rr_begin r else ob_time o) (ob_time o) (rr_cycles r + 1) (rr_total r + 1) (rr_intervals r),
     if report_all then [ReadyOnly (ob_time o)] else [])
  else (finish_ready_interval false r, []).

(** ** Stalls *)

Record StallRun := MkStallRun { sr_in : bool; sr_begin : Z; sr_cycles : Z; sr_max : Z; sr_data : list (bytes * bytes); sr_violations : Z }.
(** The data signals whose value differs from the one at the begin of the stall. *)
Definition changed_data (at_begin current : list (bytes * bytes)) : list bytes :=
  map fst (List.filter (fun item => negb (eqs (default [] (mget (fst item) at_begin)) (snd item))) current).
Definition long_stall (max_wait end_ : Z) (open : bool) (s : StallRun) : list Finding :=
  if max_wait <? sr_cycles s then [LongStall (sr_begin s) end_ (sr_cycles s) open] else [].
Definition stall_step (check_data : bool) (max_wait : Z) (s : StallRun) (o : Observation) : StallRun * list Finding :=
  if ob_stall o then
    if negb (sr_in s) then (MkStallRun true (ob_time o) (sr_cycles s + 1) (sr_max s) (ob_data o) (sr_violations s), [])
    else
      let changed := if check_data then changed_data (sr_data s) (ob_data o) else [] in
      (MkStallRun true (sr_begin s) (sr_cycles s + 1) (sr_max s) (sr_data s) (sr_violations s + zlen changed),
       map (DataChanged (sr_begin s) (ob_time o)) changed)
  else if sr_in s then
    (MkStallRun false (sr_begin s) 0 (Z.max (sr_max s) (sr_cycles s)) (sr_data s) (sr_violations s), long_stall max_wait (ob_time o) false s)
  else (s, []).

(** ** The scan *)

Record HandshakeRules := MkHandshakeRules { hr_max_wait : Z; hr_check_data : bool; hr_require_hold : bool; hr_report_all : bool }.
Record Handshake := MkHandshake {
  hs_samples : Z;
  hs_transfers : Z;
  hs_hold : Hold;
  hs_ready : ReadyRun;
  hs_stall : StallRun;
  hs_findings : list Finding;
}.
Definition new_handshake : Handshake :=
  MkHandshake 0 0 (MkHold false 0 0) (MkReadyRun false 0 0 0 0 []) (MkStallRun false 0 0 0 [] 0) [].
Definition handshake_step (rules : HandshakeRules) (h : Handshake) (o : Observation) : Handshake :=
  let '(hold, found1) := hold_step (hr_require_hold rules) (hs_hold h) o in
  let '(ready, found2) := ready_step (hr_report_all rules) (hs_ready h) o in
  let '(stall, found3) := stall_step (hr_check_data rules) (hr_max_wait rules) (hs_stall h) o in
  MkHandshake (hs_samples h + 1) (hs_transfers h + (if ob_transfer o then 1 else 0)) hold ready stall
    (hs_findings h ++ found1 ++ found2 ++ found3).
(** What is still open at the end of the window. *)
Definition handshake_end (rules : HandshakeRules) (end_ : Z) (h : Handshake) : Handshake :=
  let s := hs_stall h in
  let '(stall, found) :=
    if sr_in s then (MkStallRun true (sr_begin s) (sr_cycles s) (Z.max (sr_max s) (sr_cycles s)) (sr_data s) (sr_violations s),
                     long_stall (hr_max_wait rules) end_ true s)
    else (s, []) in
  MkHandshake (hs_samples h) (hs_transfers h) (hs_hold h) (finish_ready_interval true (hs_ready h)) stall (hs_findings h ++ found).
Definition inspect_handshake (rules : HandshakeRules) (end_ : Z) (observations : list Observation) : Handshake :=
  handshake_end rules end_ (foldl (handshake_step rules) new_handshake observations).

Section Inspect.
Context {W : Type} `{EngineWave W} (trunc : bytes -> Z).
Abbreviation St := (WaveState W).

Fixpoint observe (w : W) (valid_ref ready_ref : Z) (data : list (bytes * Z)) (point : ObservationPoint) (edges : list AnalysisEdge) :
    list Observation :=
  match edges with
  | [] => []
  | e :: edges' =>
      let rest := observe w valid_ref ready_ref data point edges' in
      match sb_sampled_value_at w valid_ref (ae_time_idx e) point, sb_sampled_value_at w ready_ref (ae_time_idx e) point with
      | Some valid, Some ready =>
          MkObservation (ae_time e) (sv_value valid) (analysis_truth (sv_value ready))
            (foldl (fun m d => mset (fst d) (text (value_at_point w (snd d) (ae_time_idx e) point)) m) [] data) :: rest
      | _, _ => rest
      end
  end.

Definition finding_json (w : W) (unit : TimeRenderUnit) (format : ValueRenderFormat) (valid_width : Z) (f : Finding) : json :=
  let time t := JString (ew_format_time w t unit) in
  match f with
  | ValidDropped begin t value unknown =>
      jobj [(lit "type", JString (lit "valid_dropped_before_handshake")); (lit "severity", JString (lit "error"));
            (lit "begin", time begin); (lit "time", time t); (lit "observed_valid", analysis_logic_json value valid_width format);
            (lit "reason", JString (if unknown then lit "valid became unknown before a handshake" else lit "valid deasserted before a handshake"))]
  | ReadyOnly t => jobj [(lit "type", JString (lit "ready_without_valid")); (lit "severity", JString (lit "info")); (lit "time", time t)]
  | DataChanged begin t signal =>
      jobj [(lit "type", JString (lit "data_changed_while_stalled")); (lit "severity", JString (lit "warning")); (lit "begin", time begin);
            (lit "time", time t); (lit "signal", JString signal)]
  | LongStall begin end_ cycles open =>
      let finding := jobj [(lit "type", JString (lit "long_stall")); (lit "severity", JString (lit "warning")); (lit "begin", time begin);
                           (lit "end", time end_); (lit "cycles", JUint cycles)] in
      if open then set_key (lit "open_at_window_end") (JBool true) finding else finding
  end.
Definition interval_json (w : W) (unit : TimeRenderUnit) (i : Interval) : json :=
  let interval := jobj [(lit "begin", JString (ew_format_time w (iv_begin i) unit)); (lit "end", JString (ew_format_time w (iv_end i) unit));
                        (lit "cycle_count", JUint (iv_cycles i))] in
  if iv_open i then set_key (lit "open_at_window_end") (JBool true) interval else interval.

Definition handshake_answer (w : W) (unit : TimeRenderUnit) (format : ValueRenderFormat) (valid_width line_limit : Z)
    (clock edge requested_point ready_reporting : bytes) (require_hold : bool) (h : Handshake) : json :=
  let findings := limited line_limit (map (finding_json w unit format valid_width) (hs_findings h)) in
  let truncated := zlen findings <? zlen (hs_findings h) in
  let data := jobj [(lit "findings", JArray findings); (lit "sampling", analysis_sampling_contract edge requested_point)] in
  ok_response
    (jobj [(lit "sampling_mode", JString (lit "clock_edge")); (lit "clock", JString clock);
           (lit "sample_time_semantics", JString (lit "time is sample_time")); (lit "sample_count", JUint (hs_samples h));
           (lit "transfer_count", JUint (hs_transfers h)); (lit "max_stall_cycles", JUint (sr_max (hs_stall h)));
           (lit "ready_without_valid_cycles", JUint (rr_total (hs_ready h)));
           (lit "ready_without_valid_reporting", JString ready_reporting);
           (lit "ready_without_valid_interval_count", JUint (zlen (rr_intervals (hs_ready h))));
           (lit "data_stability_violations", JUint (sr_violations (hs_stall h)));
           (lit "require_valid_hold_until_handshake", JBool require_hold);
           (lit "valid_hold_violations", JUint (hd_violations (hs_hold h)));
           (lit "valid_wait_open_at_window_end", JBool (hd_awaiting (hs_hold h)));
           (lit "scan_complete", JBool true); (lit "analysis_complete", JBool true); (lit "response_truncated", JBool truncated);
           (lit "total_count", JUint (zlen (hs_findings h))); (lit "returned_count", JUint (zlen findings));
           (lit "truncation_scopes", JArray (if truncated then [JString (lit "response_findings")] else []))])
    (if eqs ready_reporting (lit "intervals")
     then set_key (lit "ready_without_valid_intervals") (JArray (map (interval_json w unit) (rr_intervals (hs_ready h)))) data
     else data).

Definition data_paths (data : json) : res (list bytes) :=
  match data with
  | JString path => Ret [path]
  | _ => foldr (fun item rest => path ← as_string item; paths ← rest; Ret (path :: paths)) (Ret []) (json_items data)
  end.
Definition load_data (item : nat * bytes) : trial json St (bytes * Z) :=
  prepared ← prepare_analysis_signal (snd item); mret (numbered_name (lit "data") (fst item), fst prepared).

Definition protocol_handshake_inspect (req : json) : act St json := answered (
  args ← pure_step (at_key (lit "args") req);
  clock ← pure_step (string_at (lit "clock") args);
  valid ← pure_step (string_at (lit "valid") args);
  ready ← pure_step (string_at (lit "ready") args);
  clock_ref ← prepare_clock clock;
  valid_prepared ← prepare_analysis_signal valid;
  ready_prepared ← prepare_analysis_signal ready;
  range ← parse_analysis_range args;
  unit ← parse_analysis_unit args;
  format ← analysis_format args;
  edge ← analysis_edge args;
  requested_point ← pure_step (value_or as_string (lit "sample_point") [] args);
  let point := analysis_observation_point edge requested_point in
  data ← (if jcontains (lit "data") args
          then items ← pure_step (at_key (lit "data") args); paths ← pure_step (data_paths items); each load_data (imap pair paths)
          else mret []);
  rules ← pure_step (value_or Ret (lit "rules") (JObject []) args);
  max_wait ← pure_step (value_or (as_number trunc u32) (lit "max_wait_cycles") 100 rules);
  check_data ← pure_step (value_or as_bool (lit "check_data_stable_when_stalled") false rules);
  require_hold ← pure_step (value_or as_bool (lit "require_valid_hold_until_handshake") true rules);
  ready_reporting ← pure_step (value_or as_string (lit "ready_without_valid") (lit "summary") rules);
  if negb (Bool.eqb check_data (0 <? zlen data))
  then stop (error_response (lit "INVALID_FIELD")
         (if 0 <? zlen data then lit "args.data requires rules.check_data_stable_when_stalled=true"
          else lit "rules.check_data_stable_when_stalled=true requires args.data"))
  else
    line_limit ← pure_step (value_or (as_number trunc u32) (lit "line_limit") 100 args);
    w ← wave_now;
    let observations := observe w (fst valid_prepared) (fst ready_prepared) data point
                          (collect_analysis_edges w clock_ref (fst range) (snd range) edge) in
    let h := inspect_handshake (MkHandshakeRules max_wait check_data require_hold (eqs ready_reporting (lit "all"))) (snd range) observations in
    mret (handshake_answer w unit format (si_width (snd valid_prepared)) line_limit clock edge requested_point ready_reporting require_hold h)).
End Inspect.

(** ** What a handshake inspection reports

    The three machines of HandshakeInspect.v against definitions over the whole
    list of observations: maximal runs of stalls and of ready without valid,
    and a look back from every edge for a valid that still waits. *)

(** ** Waiting *)

(** Looking back: valid is high without a transfer down to a stall. *)
Fixpoint waits_back (earlier : list Observation) : bool :=
  match earlier with
  | [] => false
  | o :: earlier' => ob_stall o || (bool_decide (ob_valid o = TriTrue) && negb (ob_transfer o) && waits_back earlier')
  end.
Definition waits (l : list Observation) : bool := waits_back (rev l).
Lemma waits_snoc l o : waits (l ++ [o]) = ob_stall o || (bool_decide (ob_valid o = TriTrue) && negb (ob_transfer o) && waits l).
Proof. unfold waits. by rewrite rev_unit. Qed.

(** The edges at which valid is not high although it waits. *)
Definition dropped (l : list Observation) : list nat :=
  List.filter (fun i => waits (take i l) && negb (bool_decide (ob_valid <$> l !! i = Some TriTrue))) (List.seq 0 (length l)).
Lemma dropped_snoc l o : dropped (l ++ [o]) =
  dropped l ++ (if waits l && negb (bool_decide (ob_valid o = TriTrue)) then [length l] else []).
Proof.
  unfold dropped. rewrite length_app, seq_app, filter_app. f_equal.
  - apply filter_ext_in. intros i Hi. apply in_seq in Hi. rewrite take_app_le, lookup_app_l by lia. done.
  - cbn [List.seq List.filter length plus]. rewrite take_app_length, list_lookup_middle by done. cbn [fmap option_fmap option_map].
    replace (bool_decide (Some (ob_valid o) = Some TriTrue)) with (bool_decide (ob_valid o = TriTrue))
      by (apply bool_decide_ext; split; [by intros ->|by intros [=]]). by destruct (_ && _).
Qed.

(** ** The machines *)

Definition run_time (r : list Observation) : Z := match r with [] => 0 | o :: _ => ob_time o end.
Definition run_end (r : list Observation) : Z := match list.last r with Some o => ob_time o | None => 0 end.
Definition run_interval (open : bool) (r : list Observation) : Interval := MkInterval (run_time r) (run_end r) (zlen r) open.
Definition run_long (max_wait end_ : Z) (open : bool) (r : list Observation) : list Finding :=
  if max_wait <? zlen r then [LongStall (run_time r) end_ (zlen r) open] else [].
Definition is_long (f : Finding) : bool := match f with LongStall _ _ _ _ => true | _ => false end.
Definition is_dropped (f : Finding) : bool := match f with ValidDropped _ _ _ _ => true | _ => false end.

Section Machines.
Context (rules : HandshakeRules).
Abbreviation stalls := (ended_runs ob_stall).
Abbreviation stall_open := (last_run ob_stall).
Abbreviation idles := (ended_runs ob_ready_only).
Abbreviation idle_open := (last_run ob_ready_only).

Record watched (l : list Observation) (h : Handshake) : Prop := {
  wt_samples : hs_samples h = zlen l;
  wt_transfers : hs_transfers h = count_if ob_transfer l;
  wt_awaiting : hr_require_hold rules = true -> hd_awaiting (hs_hold h) = waits l;
  wt_violations : hr_require_hold rules = true -> hd_violations (hs_hold h) = zlen (dropped l);
  wt_no_hold : hr_require_hold rules = false -> hd_awaiting (hs_hold h) = false /\ hd_violations (hs_hold h) = 0;
  wt_dropped : count_if is_dropped (hs_findings h) = hd_violations (hs_hold h);
  wt_intervals : rr_intervals (hs_ready h) = map (fun r => run_interval false (fst r)) (idles l);
  wt_idle : rr_total (hs_ready h) = count_if ob_ready_only l;
  wt_idle_in : rr_in (hs_ready h) = negb (bool_decide (idle_open l = []));
  wt_idle_cycles : rr_cycles (hs_ready h) = zlen (idle_open l);
  wt_idle_open : idle_open l <> [] -> rr_begin (hs_ready h) = run_time (idle_open l) /\ rr_end (hs_ready h) = run_end (idle_open l);
  wt_stall_in : sr_in (hs_stall h) = negb (bool_decide (stall_open l = []));
  wt_stall_cycles : sr_cycles (hs_stall h) = zlen (stall_open l);
  wt_stall_begin : stall_open l <> [] -> sr_begin (hs_stall h) = run_time (stall_open l);
  wt_stall_max : sr_max (hs_stall h) = longest (map fst (stalls l));
  wt_long : List.filter is_long (hs_findings h) =
    List.concat (map (fun r => run_long (hr_max_wait rules) (ob_time (snd r)) false (fst r)) (stalls l));
}.

Lemma watched_start : watched [] new_handshake.
Proof. split; try done; by destruct (hr_require_hold rules). Qed.

(** Of each machine: the findings it adds and its state after an edge. *)
Lemma hold_found l h o : let '(h', found) := hold_step (hr_require_hold rules) h o in
  List.filter is_long found = [] /\ count_if is_dropped found = hd_violations h' - hd_violations h /\
  (hr_require_hold rules = true -> hd_awaiting h = waits l ->
     hd_awaiting h' = waits (l ++ [o]) /\
     hd_violations h' = hd_violations h + (if waits l && negb (bool_decide (ob_valid o = TriTrue)) then 1 else 0)) /\
  (hr_require_hold rules = false -> h' = h).
Proof.
  rewrite waits_snoc. unfold hold_step. destruct (hr_require_hold rules); cbn [andb]; [|split_and!; try done; unfold count_if, zlen; cbn; lia].
  unfold ob_transfer, ob_stall. destruct (hd_awaiting h) eqn:Ea; destruct (bool_decide (ob_valid o = TriTrue)) eqn:Ev; cbn [andb negb];
    destruct (bool_decide (ob_ready o = TriTrue)) eqn:Er; cbn [andb negb orb hd_awaiting hd_violations];
    destruct (bool_decide (ob_ready o = TriFalse)) eqn:Ef; cbn [andb negb orb hd_awaiting hd_violations];
    rewrite ?Ea; cbn [andb negb orb hd_awaiting hd_violations];
    try (apply bool_decide_eq_true in Er; apply bool_decide_eq_true in Ef; congruence);
    split_and!; try done; try (unfold count_if, zlen; cbn; lia); intros _ <-; cbn; split; done || lia.
Qed.

Lemma ready_found r o : let '(r', found) := ready_step (hr_report_all rules) r o in
  List.filter is_long found = [] /\ count_if is_dropped found = 0.
Proof. unfold ready_step. by destruct (ob_ready_only o), (hr_report_all rules). Qed.
Lemma stall_found s o : let '(s', found) := stall_step (hr_check_data rules) (hr_max_wait rules) s o in
  count_if is_dropped found = 0 /\
  List.filter is_long found = if negb (ob_stall o) && sr_in s then long_stall (hr_max_wait rules) (ob_time o) false s else [].
Proof.
  unfold stall_step, long_stall. destruct (ob_stall o), (sr_in s); cbn [negb andb]; try done.
  - split; [unfold count_if; rewrite filter_false; [done|]|apply filter_false]; intros f Hf; by apply list_elem_of_fmap in Hf as (? & -> & _).
  - by destruct (hr_max_wait rules <? sr_cycles s).
Qed.

Lemma run_time_snoc r o : r <> [] -> run_time (r ++ [o]) = run_time r.
Proof. by destruct r. Qed.
Lemma run_end_snoc r o : run_end (r ++ [o]) = ob_time o.
Proof. unfold run_end. by rewrite last_snoc. Qed.

Lemma ready_watched l h o : watched l h -> let r := fst (ready_step (hr_report_all rules) (hs_ready h) o) in
  rr_intervals r = map (fun r => run_interval false (fst r)) (idles (l ++ [o])) /\
  rr_total r = count_if ob_ready_only (l ++ [o]) /\
  rr_in r = negb (bool_decide (idle_open (l ++ [o]) = [])) /\ rr_cycles r = zlen (idle_open (l ++ [o])) /\
  (idle_open (l ++ [o]) <> [] -> rr_begin r = run_time (idle_open (l ++ [o])) /\ rr_end r = run_end (idle_open (l ++ [o]))).
Proof.
  intros [_ _ _ _ _ _ Hi Ht Hin Hc Ho _ _ _ _ _]. rewrite ended_snoc, last_run_snoc, count_snoc. unfold ready_step.
  destruct (ob_ready_only o); cbn [fst rr_intervals rr_total rr_in rr_cycles rr_begin rr_end].
  - rewrite Hi, Ht, Hc, zlen_app, run_end_snoc, Hin. split_and!; [done|done| |done|].
    + by destruct (idle_open l).
    + intros _. split; [|done]. destruct (idle_open l) as [|x r] eqn:E; [done|]. cbn. by destruct Ho as [-> _].
  - unfold finish_ready_interval. rewrite Hin. destruct (idle_open l) as [|x r] eqn:E; cbn [bool_decide negb].
    + rewrite bool_decide_eq_true_2 by done. cbn. rewrite Z.add_0_r. by split_and!.
    + rewrite bool_decide_eq_false_2 by done. cbn. destruct Ho as [Hb He]; [done|].
      rewrite Hi, Ht, map_app, Hb, He, Hc. split_and!; try done. lia.
Qed.

Lemma stall_watched l h o : watched l h -> let s := fst (stall_step (hr_check_data rules) (hr_max_wait rules) (hs_stall h) o) in
  sr_in s = negb (bool_decide (stall_open (l ++ [o]) = [])) /\ sr_cycles s = zlen (stall_open (l ++ [o])) /\
  (stall_open (l ++ [o]) <> [] -> sr_begin s = run_time (stall_open (l ++ [o]))) /\ sr_max s = longest (map fst (stalls (l ++ [o]))) /\
  (if negb (ob_stall o) && sr_in (hs_stall h) then long_stall (hr_max_wait rules) (ob_time o) false (hs_stall h) else []) =
    (if ob_stall o then [] else match stall_open l with [] => [] | r => run_long (hr_max_wait rules) (ob_time o) false r end).
Proof.
  intros [_ _ _ _ _ _ _ _ _ _ _ Hin Hc Hb Hm _]. rewrite ended_snoc, last_run_snoc. unfold stall_step, long_stall, run_long. rewrite Hin.
  destruct (ob_stall o); cbn [negb andb].
  - destruct (stall_open l) as [|x r] eqn:E; cbn [app].
    + rewrite (bool_decide_eq_true_2 ([] = [])) by done. cbn. rewrite Hc. by split_and!.
    + rewrite (bool_decide_eq_false_2 (x :: r = [])) by done. cbn [negb fst sr_in sr_cycles sr_begin sr_max].
      rewrite Hc, Hb by done. split_and!; try done. rewrite app_comm_cons, zlen_app. done.
  - destruct (stall_open l) as [|x r] eqn:E.
    + rewrite (bool_decide_eq_true_2 ([] = [])) by done. cbn. rewrite Hin. by split_and!.
    + rewrite (bool_decide_eq_false_2 (x :: r = [])) by done. cbn [negb fst sr_in sr_cycles sr_begin sr_max].
      rewrite map_app. cbn [map fst]. rewrite longest_snoc, Hm, Hc, Hb by done. by split_and!.
Qed.

Lemma watched_step l h o : watched l h -> watched (l ++ [o]) (handshake_step rules h o).
Proof.
  intros Hw. pose proof (ready_watched l h o Hw) as Hr. pose proof (stall_watched l h o Hw) as Hs.
  pose proof (hold_found l (hs_hold h) o) as Hh. pose proof (ready_found (hs_ready h) o) as Hrf. pose proof (stall_found (hs_stall h) o) as Hsf.
  destruct Hw as [Hn Ht Ha Hv Hno Hd _ _ _ _ _ _ _ _ _ Hl]. unfold handshake_step.
  destruct (hold_step _ _ _) as [hold found1], (ready_step _ _ _) as [ready found2], (stall_step _ _ _ _) as [stall found3].
  cbn [fst] in Hr, Hs. destruct Hh as (Hf1 & Hc1 & Hh1 & Hh2), Hrf as [Hf2 Hc2], Hsf as [Hc3 Hf3], Hr as (? & ? & ? & ? & ?), Hs as (? & ? & ? & ? & Hlong).
  split; cbn [hs_samples hs_transfers hs_hold hs_ready hs_stall hs_findings]; try done.
  - rewrite Hn, zlen_app. done.
  - by rewrite Ht, count_snoc.
  - intros E. apply Hh1; [done|by apply Ha].
  - intros E. rewrite dropped_snoc, zlen_app, (proj2 (Hh1 E (Ha E))), Hv by done. by destruct (waits l), (bool_decide (ob_valid o = TriTrue)).
  - intros E. rewrite (Hh2 E). by apply Hno.
  - unfold count_if in *. rewrite !filter_app, !zlen_app. lia.
  - rewrite !filter_app, Hf1, Hf2, Hf3, Hl, Hlong, ended_snoc. cbn [app]. destruct (ob_stall o); [by rewrite app_nil_r|].
    destruct (stall_open l); [by rewrite app_nil_r|]. rewrite map_app, concat_app. cbn. by rewrite app_nil_r.
Qed.
Lemma watched_run l : watched l (foldl (handshake_step rules) new_handshake l).
Proof.
  induction l as [|o l IH] using rev_ind; [apply watched_start|]. rewrite foldl_app. by apply watched_step.
Qed.
End Machines.

(** ** What the response says *)

(** The inspection of a handshake reports what the sampled edges show.
    Transfers and edges with ready but without valid are counted once each; the
    longest stall is the longest maximal run of stalled edges, and exactly the
    runs longer than the limit are reported, each with its first edge, the edge
    that ended it and its length, or as still open at the end of the window;
    the intervals of ready without valid are the maximal runs of such edges;
    and with the hold rule the violations are exactly the edges where valid is
    not high although, looking back, it was high without a transfer since a
    stall. *)
Theorem handshake_inspected rules end_ l :
  let h := inspect_handshake rules end_ l in
  hs_samples h = zlen l /\ hs_transfers h = count_if ob_transfer l /\
  sr_max (hs_stall h) = longest (all_runs ob_stall l) /\
  List.filter is_long (hs_findings h) =
    List.concat (map (fun r => run_long (hr_max_wait rules) (ob_time (snd r)) false (fst r)) (ended_runs ob_stall l))
    ++ match last_run ob_stall l with [] => [] | r => run_long (hr_max_wait rules) end_ true r end /\
  rr_total (hs_ready h) = count_if ob_ready_only l /\
  rr_intervals (hs_ready h) = map (fun r => run_interval false (fst r)) (ended_runs ob_ready_only l)
    ++ match last_run ob_ready_only l with [] => [] | r => [run_interval true r] end /\
  hd_violations (hs_hold h) = (if hr_require_hold rules then zlen (dropped l) else 0) /\
  hd_awaiting (hs_hold h) = (hr_require_hold rules && waits l) /\
  count_if is_dropped (hs_findings h) = hd_violations (hs_hold h).
Proof.
  cbv zeta. unfold inspect_handshake, handshake_end, all_runs.
  destruct (watched_run rules l) as [Hn Ht Ha Hv Hno Hd Hi Hit Hin Hic Hio Hsi Hsc Hsb Hsm Hl].
  set (h := foldl (handshake_step rules) new_handshake l) in *.
  assert (finish_ready_interval true (hs_ready h) = MkReadyRun false (rr_begin (hs_ready h)) (rr_end (hs_ready h)) 0 (rr_total (hs_ready h))
    (rr_intervals (hs_ready h) ++ match last_run ob_ready_only l with [] => [] | r => [run_interval true r] end)) as ->.
  { unfold finish_ready_interval. rewrite Hin. destruct (last_run ob_ready_only l) as [|x r] eqn:E.
    - rewrite bool_decide_eq_true_2 by done. cbn. rewrite app_nil_r. cbn in Hin, Hic. by destruct (hs_ready h); cbn in *; subst.
    - rewrite bool_decide_eq_false_2 by done. cbn. destruct Hio as [-> ->]; [done|]. by rewrite Hic. }
  rewrite Hsi. destruct (last_run ob_stall l) as [|x r] eqn:E.
  - rewrite (bool_decide_eq_true_2 ([] = [])) by done. cbn. rewrite !app_nil_r. rewrite Hi. split_and!; try done.
    + destruct (hr_require_hold rules) eqn:Er; [by apply Hv|by apply Hno].
    + destruct (hr_require_hold rules) eqn:Er; [by apply Ha|by apply Hno].
  - rewrite (bool_decide_eq_false_2 (x :: r = [])) by done. cbn [negb hs_samples hs_transfers hs_hold hs_ready hs_stall hs_findings sr_max rr_total rr_intervals].
    unfold long_stall, run_long. rewrite Hsc, Hsb, Hi, filter_app, Hl, longest_snoc, Hsm by done. split_and!; try done.
    + f_equal. by destruct (hr_max_wait rules <? zlen (x :: r)).
    + destruct (hr_require_hold rules) eqn:Er; [by apply Hv|by apply Hno].
    + destruct (hr_require_hold rules) eqn:Er; [by apply Ha|by apply Hno].
    + unfold count_if. rewrite filter_app, zlen_app. fold (count_if is_dropped (hs_findings h)). rewrite Hd.
      destruct (hr_max_wait rules <? zlen (x :: r)); unfold zlen; cbn; lia.
Qed.

(** *** A run *)

Definition demo_observation (time : Z) (valid ready : string) : Observation :=
  MkObservation time (MkWV BitVector (lit valid) 0) (analysis_truth (MkWV BitVector (lit ready) 0)) [].
Definition demo_observations : list Observation :=
  [demo_observation 10 "1" "0"; demo_observation 20 "1" "0"; demo_observation 30 "1" "1"; demo_observation 40 "0" "1";
   demo_observation 50 "1" "0"; demo_observation 60 "0" "1"; demo_observation 70 "1" "0"; demo_observation 80 "1" "x"].
Lemma demo_inspected :
  let h := inspect_handshake (MkHandshakeRules 1 false true false) 100 demo_observations in
  hs_findings h = [LongStall 10 30 2 false; ValidDropped 50 60 (MkWV BitVector (lit "0") 0) false] /\
  rr_intervals (hs_ready h) = [MkInterval 40 40 1 false; MkInterval 60 60 1 false] /\ hd_awaiting (hs_hold h) = true.
Proof. vm_compute. done. Qed.
