(* ===== verification/CounterStatistics.v ===== *)
(** * CounterStatistics: a counter at the clock edges

    Models [counter.statistics] of
    [src/engine/actions/waveform/clock_counter_actions.cpp]. The average is
    computed as [long double]; its text with 18 decimals is an argument, a
    function of the values in their order. *)

From S2P Require Import Prelude CLib Json LogicValue ExprParser Waveform ExprEval ClockSampling Cursor SignalList Engine WaveState ClockActions.

Open Scope Z_scope.

(** ** The paths of a counter *)

Definition blank_char (c : ascii) : bool := eqc c " "%char || eqc c (chr 9) || eqc c (chr 13) || eqc c (chr 10).
Definition trim (s : bytes) : bytes := rev (snd (span blank_char (rev (snd (span blank_char s))))).
(** The items between commas. *)
Fixpoint split_commas (part s : bytes) : list bytes :=
  match s with
  | [] => [part]
  | c :: s' => if eqc c ","%char then part :: split_commas [] s' else split_commas (part ++ [c]) s'
  end.
(** [inl] when an item is empty; only the items before it count. *)
Definition counter_paths (counter_text : bytes) : option (list bytes) :=
  match counter_text with
  | c :: (_ :: _) as rest =>
      if eqc c "{"%char && ends_with "}"%char counter_text then
        let paths := map trim (split_commas [] (take (length rest - 1) rest)) in
        if existsb (eqs []) paths then None else Some paths
      else Some [counter_text]
  | _ => Some [counter_text]
  end.

(** ** The statistics *)

(** What an edge contributes. *)
Inductive Reading :=
| ValidFalse
| ValidUnknown
| CounterUnknown
| Counted (bits : bytes) (value : Z).

Inductive EvidenceKind := UnknownValid | UnknownCounter | Initial | ValueChange.
Record Evidence := MkEvidence { ev_time : Z; ev_kind : EvidenceKind; ev_bits : bytes }.

(** A value, how often it was seen and when first. *)
Record Extreme := MkExtreme { ex_value : Z; ex_bits : bytes; ex_count : Z; ex_first : Z }.
Definition new_extreme (time : Z) (bits : bytes) (value : Z) : Extreme := MkExtreme value bits 1 time.
Definition extreme_step (better : Z -> Z -> bool) (time : Z) (bits : bytes) (value : Z) (e : option Extreme) : option Extreme :=
  match e with
  | None => Some (new_extreme time bits value)
  | Some e =>
      if better value (ex_value e) then Some (new_extreme time bits value)
      else if value =? ex_value e then Some (MkExtreme (ex_value e) (ex_bits e) (ex_count e + 1) (ex_first e))
      else Some e
  end.

Record Counter := MkCounter {
  ct_samples : Z;
  ct_valid : Z;
  ct_false : Z;
  ct_unknown : Z;
  ct_previous : option Z;
  ct_min : option Extreme;
  ct_max : option Extreme;
  ct_values : list Z;
  ct_evidence : list Evidence;
}.
Definition new_counter : Counter := MkCounter 0 0 0 0 None None None [] [].
Definition counter_step (c : Counter) (time : Z) (r : Reading) : Counter :=
  let samples := ct_samples c + 1 in
  match r with
  | ValidFalse =>
      MkCounter samples (ct_valid c) (ct_false c + 1) (ct_unknown c) (ct_previous c) (ct_min c) (ct_max c) (ct_values c) (ct_evidence c)
  | ValidUnknown =>
      MkCounter samples (ct_valid c) (ct_false c) (ct_unknown c + 1) (ct_previous c) (ct_min c) (ct_max c) (ct_values c)
        (ct_evidence c ++ [MkEvidence time UnknownValid []])
  | CounterUnknown =>
      MkCounter samples (ct_valid c) (ct_false c) (ct_unknown c + 1) (ct_previous c) (ct_min c) (ct_max c) (ct_values c)
        (ct_evidence c ++ [MkEvidence time UnknownCounter []])
  | Counted bits value =>
      let evidence :=
        match ct_previous c with
        | None => [MkEvidence time Initial bits]
        | Some previous => if value =? previous then [] else [MkEvidence time ValueChange bits]
        end in
      MkCounter samples (ct_valid c + 1) (ct_false c) (ct_unknown c) (Some value)
        (extreme_step Z.ltb time bits value (ct_min c)) (extreme_step Z.gtb time bits value (ct_max c))
        (ct_values c ++ [value]) (ct_evidence c ++ evidence)
  end.

Section Statistics.
Context {W : Type} `{EngineWave W} (trunc : bytes -> Z) (average18 : list Z -> bytes).
Abbreviation St := (WaveState W).

Definition load_counter (path : bytes) : trial json St (Z * Z) :=
  prepared ← prepare_analysis_signal path;
  if bool_decide (si_encoding (snd prepared) = BitVector) then mret (fst prepared, si_width (snd prepared))
  else stop (error_response (lit "INVALID_SIGNAL_TYPE") (lit "counter signal must be a bit vector: " ++ path)).

(** The valid signal or expression. *)
Definition load_valid (vld : json) : trial json St (Z + ExprNode) :=
  match vld with
  | JString signal => prepared ← prepare_analysis_signal signal; mret (inl (fst prepared))
  | _ =>
      expr ← pure_step (string_at (lit "expr") vld);
      bound ← pure_step (match parse_expression expr with
                         | POk (None, message) => Ret (inl message)
                         | POk (Some root, _) => aliases ← at_key (lit "signals") vld; bind_expr_aliases root aliases
                         | PUB => UB
                         | PFuel => Throw "unreachable"
                         end);
      match bound with
      | inl message => stop (error_response (lit "EXPRESSION_INVALID") message)
      | inr root =>
          aliases ← pure_step (at_key (lit "signals") vld);
          _ ← each (fun item => signal ← pure_step (as_string (snd item)); prepare_analysis_signal signal) (json_iterator aliases);
          mret (inr root)
      end
  end.
Definition valid_state (valid : Z + ExprNode) (ti : Z) (point : ObservationPoint) : trial json St AnalysisTri :=
  match valid with
  | inr e =>
      v ← evaluate e ti point;
      mret (if negb (known v) then TriUnknown else if has_one (bits v) then TriTrue else TriFalse)
  | inl ref =>
      w ← wave_now;
      mret (match sb_sampled_value_at w ref ti point with Some s => analysis_truth (sv_value s) | None => TriUnknown end)
  end.
(** The parts of the counter, the first on the left. *)
Fixpoint counter_bits (w : W) (ti : Z) (point : ObservationPoint) (counters : list (Z * Z)) : option bytes :=
  match counters with
  | [] => Some []
  | (ref, _) :: counters' =>
      match sb_sampled_value_at w ref ti point with
      | Some s =>
          if bool_decide (kind (sv_value s) = BitVector)
          then rest ← counter_bits w ti point counters'; Some (text (sv_value s) ++ rest)
          else None
      | None => None
      end
  end.
Definition read_counter (valid : Z + ExprNode) (counters : list (Z * Z)) (ti : Z) (point : ObservationPoint) : trial json St Reading :=
  state ← valid_state valid ti point;
  match state with
  | TriFalse => mret ValidFalse
  | TriUnknown => mret ValidUnknown
  | TriTrue =>
      w ← wave_now;
      mret (match counter_bits w ti point counters with
            | None => CounterUnknown
            | Some bits => match bits_to_u64 bits with Some value => Counted bits value | None => CounterUnknown end
            end)
  end.
(** The statistics, and whether every edge was looked at. *)
Fixpoint count_edges (valid : Z + ExprNode) (counters : list (Z * Z)) (point : ObservationPoint) (max_samples : Z) (c : Counter)
    (edges : list AnalysisEdge) : trial json St (Counter * bool) :=
  match edges with
  | [] => mret (c, true)
  | e :: edges' =>
      if max_samples <=? ct_samples c then mret (c, false)
      else
        r ← read_counter valid counters (ae_time_idx e) point;
        count_edges valid counters point max_samples (counter_step c (ae_time e) r) edges'
  end.

Definition evidence_kind (k : EvidenceKind) : bytes :=
  match k with
  | UnknownValid => lit "unknown_valid"
  | UnknownCounter => lit "unknown_counter"
  | Initial => lit "initial"
  | ValueChange => lit "value_change"
  end.
Definition bits_json (width : Z) (format : ValueRenderFormat) (bits : bytes) : json :=
  analysis_logic_json (MkWV BitVector bits 0) width format.
Definition evidence_json (w : W) (unit : TimeRenderUnit) (format : ValueRenderFormat) (width : Z) (e : Evidence) : json :=
  jobj [(lit "time", JString (ew_format_time w (ev_time e) unit)); (lit "kind", JString (evidence_kind (ev_kind e)));
        (lit "value", match ev_kind e with Initial | ValueChange => bits_json width format (ev_bits e) | _ => JNull end)].

Definition counter_answer (w : W) (unit : TimeRenderUnit) (format : ValueRenderFormat) (begin end_ line_limit width : Z)
    (clock edge requested_point : bytes) (cnt vld : json) (scan_complete : bool) (c : Counter) : json :=
  let evidence := map (evidence_json w unit format width) (limited line_limit (ct_evidence c)) in
  let truncated := zlen evidence <? zlen (ct_evidence c) in
  let scopes := (if scan_complete then [] else [JString (lit "analysis_samples")])
                ++ (if truncated then [JString (lit "response_evidence")] else []) in
  let time t := JString (ew_format_time w t unit) in
  let summary := [(lit "sample_count", JUint (ct_samples c)); (lit "valid_count", JUint (ct_valid c));
    (lit "sampling_mode", JString (lit "clock_edge")); (lit "clock", JString clock);
    (lit "sample_time_semantics", JString (lit "time is sample_time")); (lit "begin", time begin); (lit "end", time end_);
    (lit "valid_false_count", JUint (ct_false c)); (lit "unknown_count", JUint (ct_unknown c));
    (lit "scan_complete", JBool scan_complete); (lit "analysis_complete", JBool scan_complete);
    (lit "response_truncated", JBool truncated); (lit "total_count", JUint (zlen (ct_evidence c)));
    (lit "returned_count", JUint (zlen evidence)); (lit "truncation_scopes", JArray scopes)] in
  let data := [(lit "cnt", cnt); (lit "vld", vld); (lit "evidence", JArray evidence);
               (lit "sampling", analysis_sampling_contract edge requested_point)] in
  match ct_min c, ct_max c with
  | Some low, Some high =>
      ok_response
        (jobj (summary ++ [(lit "min_value", bits_json width format (ex_bits low)); (lit "max_value", bits_json width format (ex_bits high));
                           (lit "average_value", JString (decimal_average (average18 (ct_values c))))]))
        (jobj (data ++ [(lit "min_count", JUint (ex_count low)); (lit "max_count", JUint (ex_count high));
                        (lit "min_first_time", time (ex_first low)); (lit "max_first_time", time (ex_first high))]))
  | _, _ => ok_response (jobj summary) (jobj data)
  end.

Definition counter_statistics (req : json) : act St json := answered (
  args ← pure_step (at_key (lit "args") req);
  clock ← pure_step (string_at (lit "clock") args);
  clock_ref ← prepare_clock clock;
  range ← parse_analysis_range args;
  unit ← parse_analysis_unit args;
  format ← analysis_format args;
  edge ← analysis_edge args;
  requested_point ← pure_step (value_or as_string (lit "sample_point") [] args);
  let point := analysis_observation_point edge requested_point in
  line_limit ← pure_step (value_or (as_number trunc u32) (lit "line_limit") 100 args);
  max_samples ← pure_step (value_or (as_number trunc u64) (lit "max_samples") u64_max args);
  counter_text ← pure_step (string_at (lit "cnt") args);
  match counter_paths counter_text with
  | None => stop (error_response (lit "INVALID_FIELD") (lit "args.cnt has an empty concatenation item"))
  | Some paths =>
      counters ← each load_counter paths;
      let counter_width := foldl (fun sum c => u32 (sum + snd c)) 0 counters in
      if 64 <? counter_width
      then stop (error_response (lit "INVALID_FIELD") (lit "args.cnt combined width exceeds the 64-bit counter contract"))
      else
        vld ← pure_step (at_key (lit "vld") args);
        valid ← load_valid vld;
        w ← wave_now;
        counted ← count_edges valid counters point max_samples new_counter (collect_analysis_edges w clock_ref (fst range) (snd range) edge);
        w ← wave_now;
        cnt ← pure_step (at_key (lit "cnt") args);
        mret (counter_answer w unit format (fst range) (snd range) line_limit counter_width clock edge requested_point cnt vld
                (snd counted) (fst counted))
  end).
End Statistics.

(** ** What the statistics of a counter say

    The minimum and the maximum of [counter.statistics] with their numbers and
    first times, the sums of its counts, and the loop over the edges as a fold
    over what each edge shows. *)

(** ** Readings *)

Record Seen := MkSeen { sn_time : Z; sn_bits : bytes; sn_value : Z }.
Definition counted (rs : list (Z * Reading)) : list Seen :=
  omap (fun r => match snd r with Counted bits value => Some (MkSeen (fst r) bits value) | _ => None end) rs.
Definition counting (rs : list (Z * Reading)) : Counter := foldl (fun c r => counter_step c (fst r) (snd r)) new_counter rs.
Definition is_false (r : Z * Reading) : bool := match snd r with ValidFalse => true | _ => false end.
Definition is_unknown (r : Z * Reading) : bool := match snd r with ValidUnknown | CounterUnknown => true | _ => false end.

(** [e] is the first of the best values of [l] and counts them all. *)
Definition extreme_of (better : Z -> Z -> bool) (l : list Seen) (e : option Extreme) : Prop :=
  match e with
  | None => l = []
  | Some e => exists pre x post, l = pre ++ x :: post /\
      ex_value e = sn_value x /\ ex_bits e = sn_bits x /\ ex_first e = sn_time x /\
      (forall y, y ∈ pre -> better (ex_value e) (sn_value y) = true) /\
      (forall y, y ∈ l -> better (sn_value y) (ex_value e) = false) /\
      ex_count e = zlen (List.filter (fun y => sn_value y =? ex_value e) l)
  end.

Section Extremes.
Context (better : Z -> Z -> bool).
Context (better_irrefl : forall a, better a a = false)
  (better_trans : forall a b c, better a b = true -> better b c = true -> better a c = true)
  (better_total : forall a b, better a b = false -> a <> b -> better b a = true).

Lemma extreme_snoc l e x : extreme_of better l e ->
  extreme_of better (l ++ [x]) (extreme_step better (sn_time x) (sn_bits x) (sn_value x) e).
Proof using better_irrefl better_trans better_total.
  destruct e as [e|]; cbn [extreme_of extreme_step].
  2: { intros ->. exists [], x, []. cbn. rewrite Z.eqb_refl. split_and!; try done; [by intros y H%elem_of_nil|].
       intros y ->%list_elem_of_singleton. apply better_irrefl. }
  intros (pre & y & post & Hl & Hv & Hb & Hf & Hpre & Hall & Hc). destruct (better (sn_value x) (ex_value e)) eqn:E.
  - exists l, x, []. cbn. split_and!; try done.
    + intros z Hz. destruct (decide (ex_value e = sn_value z)) as [<-|Hne]; [done|].
      eapply better_trans; [exact E|]. apply better_total; [by apply Hall|done].
    + intros z [Hz|Hz%list_elem_of_singleton]%elem_of_app; [|subst; apply better_irrefl].
      destruct (better (sn_value z) (sn_value x)) eqn:Ez; [|done]. rewrite <- (Hall z Hz). symmetry. by apply (better_trans _ (sn_value x)).
    + rewrite filter_app, (filter_false _ l); [cbn; by rewrite Z.eqb_refl|]. intros z Hz. apply Z.eqb_neq. intros Heq.
      rewrite <- Heq in E. by rewrite Hall in E.
  - assert (forall e', ex_value e' = ex_value e -> ex_bits e' = ex_bits e -> ex_first e' = ex_first e ->
      ex_count e' = ex_count e + (if sn_value x =? ex_value e then 1 else 0) -> extreme_of better (l ++ [x]) (Some e')) as Hok.
    { intros e' H1 H2 H3 H4. exists pre, y, (post ++ [x]). rewrite H1, H2, H3, H4, Hl, <- app_assoc. split_and!; try done.
      - intros z. rewrite app_assoc. intros [Hz|Hz%list_elem_of_singleton]%elem_of_app; [apply Hall; by rewrite Hl|by subst].
      - rewrite Hc, Hl, app_assoc, (filter_app _ (pre ++ y :: post)), zlen_app. cbn. by destruct (sn_value x =? ex_value e). }
    destruct (sn_value x =? ex_value e) eqn:Ee; apply Hok; cbn; try done. lia.
Qed.
End Extremes.

Lemma counted_snoc rs r : counted (rs ++ [r]) = counted rs ++ counted [r].
Proof. unfold counted. by rewrite omap_app. Qed.

(** The statistics of the edges seen. *)
Record summarized (rs : list (Z * Reading)) (c : Counter) : Prop := {
  su_samples : ct_samples c = zlen rs;
  su_valid : ct_valid c = zlen (counted rs);
  su_false : ct_false c = zlen (List.filter is_false rs);
  su_unknown : ct_unknown c = zlen (List.filter is_unknown rs);
  su_values : ct_values c = map sn_value (counted rs);
  su_min : extreme_of Z.ltb (counted rs) (ct_min c);
  su_max : extreme_of Z.gtb (counted rs) (ct_max c);
}.
Lemma summarized_step rs c r : summarized rs c -> summarized (rs ++ [r]) (counter_step c (fst r) (snd r)).
Proof.
  intros [Hs Hv Hf Hu Hvs Hmin Hmax]. destruct r as [time [| | |bits value]]; split; cbn [fst snd counter_step ct_samples ct_valid ct_false ct_unknown ct_values ct_min ct_max];
    rewrite ?counted_snoc, ?filter_app, ?zlen_app; cbn; rewrite ?app_nil_r; try done; try (unfold zlen in *; cbn; lia).
  - by rewrite Hvs, map_app.
  - apply (extreme_snoc Z.ltb) with (x := MkSeen time bits value); [intros; lia..|done].
  - apply (extreme_snoc Z.gtb) with (x := MkSeen time bits value); [intros; lia..|done].
Qed.
Lemma summarized_all rs : summarized rs (counting rs).
Proof.
  induction rs as [|r rs IH] using rev_ind; [by split|]. unfold counting. rewrite foldl_app. by apply summarized_step.
Qed.

(** ** Values *)

Lemma bits_loop_val bs : forall a, forallb is_bit bs = true ->
  bits_loop (u64 a) bs = Some (u64 (foldl (fun a c => 2 * a + bit_of c) a bs)).
Proof.
  induction bs as [|c bs IH]; intros a Hb; cbn [bits_loop foldl]; [done|]. cbn in Hb. apply andb_true_iff in Hb as [Hc Hb].
  assert (forall b, 0 <= b <= 1 -> Z.lor (u64 (Z.shiftl (u64 a) 1)) b = u64 (2 * a + b)) as Hs.
  { intros b Hr. rewrite u64_shift_in by done. by rewrite u64_add_l. }
  assert (eqc c "1"%char = true \/ eqc c "0"%char = true) as [E|E].
  { unfold is_bit in Hc. apply orb_true_iff in Hc as [H|H]; [right|left]; exact H. }
  - apply eqc_true in E as ->. cbn [eqc]. rewrite (Hs 1) by lia. by apply IH.
  - apply eqc_true in E as ->. rewrite <- (Z.lor_0_r (u64 (Z.shiftl (u64 a) 1))), (Hs 0) by lia. by apply IH.
Qed.
(** Known bits within 64 are the number they spell. *)
Lemma bits_to_u64_exact bs : zlen bs <= 64 -> forallb is_bit bs = true -> bits_to_u64 bs = Some (bits_val bs).
Proof.
  intros Hl Hb. unfold bits_to_u64. change 0 with (u64 0). rewrite bits_loop_val by done. f_equal. fold (bits_val bs).
  apply u64_small. pose proof (bits_val_range bs). assert (2 ^ zlen bs <= 2 ^ 64) by (apply Z.pow_le_mono_r; lia). lia.
Qed.

(** ** The edges *)

Section Edges.
Context {W : Type} `{EngineWave W} (w : W) (valid_ref : Z) (counters : list (Z * Z)) (point : ObservationPoint).

(** What an edge shows. *)
Definition reading_at (ti : Z) : Reading :=
  match match sb_sampled_value_at w valid_ref ti point with Some s => analysis_truth (sv_value s) | None => TriUnknown end with
  | TriFalse => ValidFalse
  | TriUnknown => ValidUnknown
  | TriTrue =>
      match counter_bits w ti point counters with
      | None => CounterUnknown
      | Some bits => match bits_to_u64 bits with Some value => Counted bits value | None => CounterUnknown end
      end
  end.
Definition readings (edges : list AnalysisEdge) : list (Z * Reading) := map (fun e => (ae_time e, reading_at (ae_time_idx e))) edges.

Context (cs : CursorManager) (ls : ListManager) (es : list (bytes * json)) (fs : list (bytes * bytes)).
Abbreviation here := (MkWaveState (Some w) cs ls es fs).

Lemma read_counter_at ti : read_counter (inl valid_ref) counters ti point here = (Ret (inr (reading_at ti)), here).
Proof.
  unfold read_counter, reading_at, valid_state, wave_now, with_wave, mbind, trial_bind, mret, trial_ret, set_wave. cbn.
  destruct (sb_sampled_value_at w valid_ref ti point) as [s|]; [|done]. by destruct (analysis_truth (sv_value s)).
Qed.
Lemma counter_samples c time r : ct_samples (counter_step c time r) = ct_samples c + 1.
Proof. by destruct r. Qed.
Lemma count_edges_run max_samples edges : forall c,
  count_edges (inl valid_ref) counters point max_samples c edges here =
    (Ret (inr (foldl (fun c r => counter_step c (fst r) (snd r)) c (readings (take (Z.to_nat (max_samples - ct_samples c)) edges)),
       (length edges <=? Z.to_nat (max_samples - ct_samples c))%nat)), here).
Proof.
  induction edges as [|e edges IH]; intros c; cbn [count_edges]; [by rewrite take_nil|].
  destruct (Z.leb_spec max_samples (ct_samples c)) as [Hle|Hgt].
  - replace (Z.to_nat (max_samples - ct_samples c)) with 0%nat by lia. done.
  - unfold mbind, trial_bind. rewrite read_counter_at. rewrite IH, counter_samples.
    replace (Z.to_nat (max_samples - ct_samples c)) with (S (Z.to_nat (max_samples - (ct_samples c + 1)))) by lia. done.
Qed.

(** The statistics of a counter are those of the edges. With a valid
    signal, the loop looks at the first [max_samples] edges, reports whether
    that was all of them, and changes nothing else; the edges are the valid
    ones with a known counter, those where valid is low and those with
    something unknown; the values are the counter at the valid edges in their
    order; and the minimum and the maximum are the least and the greatest of
    them, with the bits and the time of the first edge that shows them and the
    number of edges that do. *)
Theorem counter_statistics_exact max_samples edges : exists c,
  count_edges (inl valid_ref) counters point max_samples new_counter edges here =
    (Ret (inr (c, (length edges <=? Z.to_nat max_samples)%nat)), here) /\
  summarized (readings (take (Z.to_nat max_samples) edges)) c /\
  ct_samples c = ct_valid c + ct_false c + ct_unknown c.
Proof.
  exists (counting (readings (take (Z.to_nat max_samples) edges))). rewrite count_edges_run. cbn [new_counter ct_samples]. rewrite Z.sub_0_r.
  pose proof (summarized_all (readings (take (Z.to_nat max_samples) edges))) as Hs. split_and!; [done|done|].
  destruct Hs as [-> -> -> -> _ _ _]. induction (readings _) as [|r rs IH]; [done|]. unfold counted in *. destruct r as [time [| | |bits value]];
    cbn; unfold zlen in *; cbn; lia.
Qed.
End Edges.
