(* ===== verification/SignalAnalysis.v ===== *)
(** * SignalAnalysis: statistics, stability and anomalies of signals

    Models [src/engine/actions/waveform/signal_analysis_actions.cpp]. The
    printed form of a [double], the equality of two of them and the printed
    quotient of two counts are arguments. *)

From S2P Require Import Prelude CLib Json LogicValue ExprParser Waveform ExprEval ClockSampling Cursor SignalList Engine WaveState ClockActions.

Open Scope Z_scope.

(** ** Values *)

Record ChangeRow := MkChangeRow { cr_time : Z; cr_value : WaveformValue }.

Definition contains_xz (bits : bytes) : bool :=
  existsb (eqc "x"%char) (lowercase bits) || existsb (eqc "z"%char) (lowercase bits).
Definition contains_bit (bits : bytes) (expected : ascii) : bool := existsb (eqc expected) (lowercase bits).
Definition all_bits (bits : bytes) (expected : ascii) : bool :=
  match bits with [] => false | _ => forallb (fun bit => eqc bit expected) (lowercase bits) end.
(** [expected[0]], the terminator of an empty text. *)
Definition first_char (s : bytes) : ascii := match s with c :: _ => c | [] => chr 0 end.
Definition row_high (v : WaveformValue) : bool :=
  bool_decide (kind v = BitVector) && negb (contains_xz (text v)) && existsb (eqc "1"%char) (text v).

Definition completeness (scan_complete analysis_complete response_truncated : bool) (total_count returned_count : Z) (scopes : list json) :
    json :=
  jobj [(lit "scan_complete", JBool scan_complete); (lit "analysis_complete", JBool analysis_complete);
        (lit "response_truncated", JBool response_truncated); (lit "total_count", JUint total_count);
        (lit "returned_count", JUint returned_count); (lit "truncation_scopes", JArray scopes)].
Definition scope (b : bool) (name : string) : list json := if b then [JString (lit name)] else [].

(** ** Bursts of the raw signal *)

Record Bursts := MkBursts {
  bu_count : Z;
  bu_high : bool;
  bu_first : option Z;
  bu_last : option Z;
  bu_fall : option Z;
}.
Definition burst_step (b : Bursts) (row : ChangeRow) : Bursts :=
  if row_high (cr_value row) then
    MkBursts (if bu_high b then bu_count b else bu_count b + 1) true
      (match bu_first b with None => Some (cr_time row) | first => first end) (Some (cr_time row)) (bu_fall b)
  else MkBursts (bu_count b) false (bu_first b) (bu_last b) (if bu_high b then Some (cr_time row) else bu_fall b).
Definition bursts_of (rows : list ChangeRow) : Bursts := foldl burst_step (MkBursts 0 false None None None) rows.

(** ** Statistics of the sampled signal *)

Record Range := MkRange { rg_first : bytes; rg_final : bytes; rg_min : bytes; rg_max : bytes }.
Record SignalStats := MkSignalStats {
  st_samples : Z;
  st_known : Z;
  st_unknown : Z;
  st_high : Z;
  st_low : Z;
  st_bursts : Z;
  st_current : Z;
  st_longest : Z;
  st_transitions : Z;
  st_was_high : bool;
  st_range : option Range;
  st_first_change : option Z;
  st_last_change : option Z;
  st_first_high : option Z;
  st_last_high : option Z;
  st_last_fall : option Z;
  st_evidence : list (Z * bytes * WaveformValue);
}.
Definition new_stats : SignalStats := MkSignalStats 0 0 0 0 0 0 0 0 0 false None None None None None None [].

(** A sample: its time and the value read, if there is one. *)
Definition SignalSample : Type := Z * option WaveformValue.
(** The bits of a known sample. *)
Definition known_bits (s : SignalSample) : option bytes :=
  match snd s with
  | Some v => if bool_decide (kind v = BitVector) && negb (contains_xz (text v)) then Some (lowercase (text v)) else None
  | None => None
  end.
Definition single_high (bits : bytes) : bool := existsb (eqc "1"%char) bits && (length bits =? 1)%nat.

Definition unknown_step (width : Z) (st : SignalStats) (s : SignalSample) : SignalStats :=
  let read := match snd s with Some v => text v | None => [] end in
  let shown := match read with [] => replicate (Z.to_nat (Z.max 1 width)) "x"%char | _ => read end in
  let evidence := st_evidence st ++ [(fst s, lit "unknown", MkWV BitVector shown 0)] in
  if st_was_high st then
    MkSignalStats (st_samples st + 1) (st_known st) (st_unknown st + 1) (st_high st) (st_low st) (st_bursts st) 0
      (Z.max (st_longest st) (st_current st)) (st_transitions st) false (st_range st) (st_first_change st) (st_last_change st)
      (st_first_high st) (st_last_high st) (Some (fst s)) evidence
  else
    MkSignalStats (st_samples st + 1) (st_known st) (st_unknown st + 1) (st_high st) (st_low st) (st_bursts st) (st_current st)
      (st_longest st) (st_transitions st) false (st_range st) (st_first_change st) (st_last_change st)
      (st_first_high st) (st_last_high st) (st_last_fall st) evidence.
(** The activity part of a known sample, then its value. *)
Definition activity_step (st : SignalStats) (time : Z) (bits : bytes) : SignalStats :=
  let nonzero := existsb (eqc "1"%char) bits in
  let high := single_high bits in
  let started := high && negb (st_was_high st) in
  let ended := negb high && st_was_high st in
  MkSignalStats (st_samples st + 1) (st_known st + 1) (st_unknown st) (if nonzero && high then st_high st + 1 else st_high st)
    (if nonzero then st_low st else st_low st + 1) (if started then st_bursts st + 1 else st_bursts st)
    (if high then (if st_was_high st then st_current st else 0) + 1 else if st_was_high st then 0 else st_current st)
    (if ended then Z.max (st_longest st) (st_current st) else st_longest st) (st_transitions st) high (st_range st)
    (st_first_change st) (st_last_change st)
    (if started then match st_first_high st with None => Some time | first => first end else st_first_high st)
    (if high then Some time else st_last_high st) (if ended then Some time else st_last_fall st) (st_evidence st).
Definition value_step (st : SignalStats) (time : Z) (bits : bytes) (value : WaveformValue) : SignalStats :=
  let with_range r changed evidence :=
    MkSignalStats (st_samples st) (st_known st) (st_unknown st) (st_high st) (st_low st) (st_bursts st) (st_current st) (st_longest st)
      (if changed : bool then st_transitions st + 1 else st_transitions st) (st_was_high st) (Some r)
      (if changed then match st_first_change st with None => Some time | first => first end else st_first_change st)
      (if changed then Some time else st_last_change st) (st_first_high st) (st_last_high st) (st_last_fall st)
      (st_evidence st ++ evidence) in
  match st_range st with
  | None => with_range (MkRange bits bits bits bits) false []
  | Some r =>
      let changed := negb (eqs bits (rg_final r)) in
      with_range (MkRange (rg_first r) bits (if str_ltb bits (rg_min r) then bits else rg_min r)
                    (if str_ltb (rg_max r) bits then bits else rg_max r))
        changed (if changed then [(time, lit "value_change", value)] else [])
  end.
Definition stats_step (width : Z) (st : SignalStats) (s : SignalSample) : SignalStats :=
  match known_bits s, snd s with
  | Some bits, Some value => value_step (activity_step st (fst s) bits) (fst s) bits value
  | _, _ => unknown_step width st s
  end.
(** At the end a burst may still be open. *)
Definition longest_high (st : SignalStats) : Z := if st_was_high st then Z.max (st_longest st) (st_current st) else st_longest st.

(** ** Anomalies *)

Record Checks := MkChecks { ck_unknown : bool; ck_glitch : bool; ck_stuck : bool; ck_width : Z; ck_duration : Z }.
Inductive Anomaly :=
| UnknownXz (row : ChangeRow)
| Glitch (row : ChangeRow) (duration : Z)
| Stuck (row : ChangeRow) (until duration : Z) (open : bool).
Definition row_unknown (row : ChangeRow) : bool := bool_decide (kind (cr_value row) = BitVector) && contains_xz (text (cr_value row)).
Fixpoint row_anomalies (c : Checks) (end_ : Z) (rows : list ChangeRow) : list Anomaly :=
  match rows with
  | [] => []
  | row :: rest =>
      (if ck_unknown c && row_unknown row then [UnknownXz row] else []) ++
      match rest with
      | [] =>
          if ck_stuck c && (cr_time row <=? end_) && (ck_duration c <=? end_ - cr_time row)
          then [Stuck row end_ (end_ - cr_time row) true] else []
      | next :: _ =>
          let duration := u64 (cr_time next - cr_time row) in
          (if ck_glitch c && (0 <? duration) && (duration <? ck_width c) then [Glitch row duration] else []) ++
          (if ck_stuck c && (ck_duration c <=? duration) then [Stuck row (cr_time next) duration false] else []) ++
          row_anomalies c end_ rest
      end
  end.

Section Analysis.
Context {W : Type} `{EngineWave W}.
Context (trunc : bytes -> Z) (real_to_string : Z -> bytes) (real_eq : Z -> Z -> bool) (quotient : Z -> Z -> bytes).
Abbreviation St := (WaveState W).

Definition typed_logic_value (value : WaveformValue) (width : Z) (format : ValueRenderFormat) : json :=
  match kind value with
  | BitVector => logic_value_json (logic_value_from_bits (text value) (i32 width)) format
  | Real => jobj [(lit "value", JString (real_to_string (real value))); (lit "known", JBool true)]
  | Event => jobj [(lit "value", JString (lit "event")); (lit "known", JBool true)]
  | _ => jobj [(lit "value", JString (text value)); (lit "known", JBool true)]
  end.
Definition value_equal (left right : WaveformValue) : bool :=
  bool_decide (kind left = kind right)
  && (if bool_decide (kind left = Real) then real_eq (real left) (real right) else eqs (text left) (text right)).

(** ** The changes of a signal in a window *)

(** [previous] is the value of the last row. *)
Fixpoint change_rows (w : W) (ref begin end_ : Z) (previous : option WaveformValue) (indices : list Z) : list ChangeRow :=
  match indices with
  | [] => []
  | ti :: indices' =>
      let time := sb_time_at w ti in
      if (time <=? begin) || (end_ <? time) then change_rows w ref begin end_ previous indices'
      else
        match sb_sampled_value_at w ref ti Raw with
        | None => change_rows w ref begin end_ previous indices'
        | Some sampled =>
            if match previous with Some v => value_equal v (sv_value sampled) | None => false end
            then change_rows w ref begin end_ previous indices'
            else MkChangeRow time (sv_value sampled) :: change_rows w ref begin end_ (Some (sv_value sampled)) indices'
        end
  end.
Definition collect_changes (w : W) (ref begin end_ : Z) : list ChangeRow :=
  if (ew_max_time w <? begin) || (end_ <? ew_min_time w) then []
  else
    match sb_sampled_value_at w ref (ew_time_idx_of w begin) Raw with
    | Some initial => MkChangeRow begin (sv_value initial) :: change_rows w ref begin end_ (Some (sv_value initial)) (sb_time_indices_of w ref)
    | None => change_rows w ref begin end_ None (sb_time_indices_of w ref)
    end.

Definition signal_bound (w : W) (range : json) (k : bytes) (allow_max : bool) (fallback : Z) : res (json + Z) :=
  if jcontains k range then
    bound_text ← string_at k range;
    Ret (match ew_parse_time w bound_text allow_max with inr t => inr t | inl message => inl (error_response (lit "INVALID_TIME") message) end)
  else Ret (inr fallback).
Definition parse_range (args : json) : trial json St (Z * Z) :=
  w ← wave_now;
  range ← pure_step (value_or Ret (lit "time_range") (JObject []) args);
  begin ← or_stop (signal_bound w range (lit "begin") false (ew_min_time w));
  end_ ← or_stop (signal_bound w range (lit "end") true (ew_max_time w));
  if end_ <? begin then stop (error_response (lit "TIME_RANGE_INVALID") (lit "end is before begin")) else mret (begin, end_).

Definition shown_time (w : W) (unit : TimeRenderUnit) (t : option Z) : json :=
  match t with Some t => JString (ew_format_time w t unit) | None => JNull end.

(** ** signal.statistics *)

Definition raw_statistics (w : W) (unit : TimeRenderUnit) (format : ValueRenderFormat) (signal : bytes) (begin end_ width limit : Z)
    (rows : list ChangeRow) : json :=
  let returned := Z.min (zlen rows) limit in
  let truncated := returned <? zlen rows in
  let b := bursts_of rows in
  let time := shown_time w unit in
  let value row := typed_logic_value (cr_value row) width format in
  let data := jobj [(lit "includes_initial_value", JBool (negb (0 =? zlen rows)));
    (lit "activity", jobj [(lit "high_burst_count", JInt (bu_count b)); (lit "first_high_time", time (bu_first b));
       (lit "last_high_time", time (bu_last b)); (lit "last_fall_time", time (bu_fall b)); (lit "max_high_cycles", JNull)])] in
  let data := match list.head rows, list.last rows with
              | Some first, Some last =>
                  set_key (lit "last_change_time") (time (Some (cr_time last))) (set_key (lit "first_change_time") (time (Some (cr_time first)))
                  (set_key (lit "final_value") (value last) (set_key (lit "initial_value") (value first) data)))
              | _, _ => data
              end in
  let evidence := imap (fun i row => jobj [(lit "time", time (Some (cr_time row)));
                          (lit "kind", JString (match i with O => lit "initial" | _ => lit "value_change" end)); (lit "value", value row)])
                    (limited returned rows) in
  ok_response
    (merge (jobj [(lit "signal", JString signal); (lit "sampling_mode", JString (lit "raw_value_changes"));
                  (lit "begin", time (Some begin)); (lit "end", time (Some end_));
                  (lit "actual_transition_count", JUint (if 0 =? zlen rows then 0 else zlen rows - 1))])
       (completeness true true truncated (zlen rows) returned (scope truncated "response_evidence")))
    (set_key (lit "evidence") (JArray evidence) data).

Definition edge_samples (w : W) (ref clock_ref begin end_ : Z) (edge : bytes) (point : ObservationPoint) : list SignalSample :=
  map (fun e => (ae_time e, sv_value <$> sb_sampled_value_at w ref (ae_time_idx e) point)) (collect_analysis_edges w clock_ref begin end_ edge).
Definition sampled_statistics (w : W) (unit : TimeRenderUnit) (format : ValueRenderFormat) (signal clock edge requested_point : bytes)
    (begin end_ width evidence_limit sample_limit : Z) (samples : list SignalSample) : json :=
  let st := foldl (stats_step width) new_stats (limited sample_limit samples) in
  let analysis_truncated := sample_limit <? zlen samples in
  let time := shown_time w unit in
  let evidence := map (fun e => jobj [(lit "time", time (Some (fst (fst e)))); (lit "kind", JString (snd (fst e)));
                                      (lit "value", typed_logic_value (snd e) width format)]) (limited evidence_limit (st_evidence st)) in
  let truncated := zlen evidence <? zlen (st_evidence st) in
  let bits_value bits := typed_logic_value (MkWV BitVector bits 0) width format in
  let data := jobj [(lit "evidence", JArray evidence); (lit "transition_count", JUint (st_transitions st));
                    (lit "sampling", analysis_sampling_contract edge requested_point)] in
  let data :=
    match st_range st with
    | None => data
    | Some r =>
        let data := merge data (jobj [(lit "first", bits_value (rg_first r)); (lit "final", bits_value (rg_final r));
          (lit "min", bits_value (rg_min r)); (lit "max", bits_value (rg_max r)); (lit "low_cycles", JUint (st_low st));
          (lit "high_cycles", JUint (st_high st)); (lit "high_ratio", JFloat (if st_known st =? 0 then lit "0.0" else quotient (st_high st) (st_known st)))]) in
        let data := match st_first_change st with Some t => set_key (lit "first_change_time") (time (Some t)) data | None => data end in
        let data := match st_last_change st with Some t => set_key (lit "last_change_time") (time (Some t)) data | None => data end in
        set_key (lit "activity") (jobj [(lit "high_burst_count", JUint (st_bursts st)); (lit "first_high_time", time (st_first_high st));
          (lit "last_high_time", time (st_last_high st)); (lit "last_fall_time", time (st_last_fall st));
          (lit "max_high_cycles", JUint (longest_high st))]) data
    end in
  ok_response
    (merge (jobj [(lit "signal", JString signal); (lit "sampling_mode", JString (lit "clock_edge")); (lit "clock", JString clock);
                  (lit "sample_time_semantics", JString (lit "time is sample_time")); (lit "sample_count", JUint (st_samples st));
                  (lit "known_count", JUint (st_known st)); (lit "unknown_count", JUint (st_unknown st));
                  (lit "begin", time (Some begin)); (lit "end", time (Some end_))])
       (completeness (negb analysis_truncated) (negb analysis_truncated) truncated (zlen (st_evidence st)) (zlen evidence)
          (scope analysis_truncated "analysis_samples" ++ scope truncated "response_evidence")))
    data.

Definition signal_statistics (req : json) : act St json := answered (
  args ← pure_step (at_key (lit "args") req);
  signal ← pure_step (string_at (lit "signal") args);
  prepared ← prepare_analysis_signal signal;
  range ← parse_range args;
  unit ← parse_analysis_unit args;
  format ← analysis_format args;
  let width := si_width (snd prepared) in
  if negb (jcontains (lit "clock") args) then
    if jcontains (lit "edge") args || jcontains (lit "sample_point") args
    then stop (error_response (lit "INVALID_FIELD") (lit "edge and sample_point require args.clock for signal.statistics"))
    else
      w ← wave_now;
      limit ← pure_step (value_or (as_number trunc u32) (lit "line_limit") 100 args);
      mret (raw_statistics w unit format signal (fst range) (snd range) width limit
              (collect_changes w (fst prepared) (fst range) (snd range)))
  else if negb (bool_decide (si_encoding (snd prepared) = BitVector))
  then stop (error_response (lit "INVALID_SIGNAL_TYPE") (lit "clock-sampled statistics requires a bit-vector signal"))
  else
    clock ← pure_step (string_at (lit "clock") args);
    clock_ref ← prepare_clock clock;
    edge ← analysis_edge args;
    requested_point ← pure_step (value_or as_string (lit "sample_point") [] args);
    evidence_limit ← pure_step (value_or (as_number trunc u32) (lit "line_limit") 100 args);
    sample_limit ← pure_step (value_or (as_number trunc u64) (lit "max_samples") u64_max args);
    w ← wave_now;
    mret (sampled_statistics w unit format signal clock edge requested_point (fst range) (snd range) width evidence_limit sample_limit
            (edge_samples w (fst prepared) clock_ref (fst range) (snd range) edge (analysis_observation_point edge requested_point)))).

(** ** signal.stability *)

(** The rows up to the first that differs from the first row; whether none does. *)
Fixpoint stable_rows (first : WaveformValue) (rows : list ChangeRow) : list ChangeRow * bool :=
  match rows with
  | [] => ([], true)
  | row :: rest =>
      if value_equal (cr_value row) first then let '(shown, stable) := stable_rows first rest in (row :: shown, stable)
      else ([row], false)
  end.
Definition stability_of (rows : list ChangeRow) : list ChangeRow * bool :=
  match rows with
  | [] => ([], true)
  | row :: rest => let '(shown, stable) := stable_rows (cr_value row) rest in (row :: shown, stable)
  end.
Definition signal_stability (req : json) : act St json := answered (
  args ← pure_step (at_key (lit "args") req);
  signal ← pure_step (string_at (lit "signal") args);
  prepared ← prepare_analysis_signal signal;
  range ← parse_range args;
  unit ← parse_analysis_unit args;
  format ← analysis_format args;
  w ← wave_now;
  let '(shown, stable) := stability_of (collect_changes w (fst prepared) (fst range) (snd range)) in
  let changes := map (fun row => jobj [(lit "time", JString (ew_format_time w (cr_time row) unit));
                                       (lit "value", typed_logic_value (cr_value row) (si_width (snd prepared)) format)]) shown in
  mret (ok_response
    (merge (jobj [(lit "stable", JBool stable); (lit "change_row_count", JUint (zlen changes));
                  (lit "actual_transition_count", JInt (if stable then 0 else 1));
                  (lit "scan_stopped_on_first_transition", JBool (negb stable))])
       (completeness stable true false (zlen changes) (zlen changes) (scope (negb stable) "scan_after_first_transition")))
    (jobj [(lit "signal", JString signal); (lit "begin", JString (ew_format_time w (fst range) unit));
           (lit "end", JString (ew_format_time w (snd range) unit)); (lit "changes", JArray changes);
           (lit "includes_initial_value", JBool (0 <? zlen changes))]))).

(** ** signal.xz_verify *)

Definition row_matches (mode expected : bytes) (row : ChangeRow) : bool :=
  if eqs mode (lit "exact") then all_bits (text (cr_value row)) (first_char expected) else contains_bit (text (cr_value row)) (first_char expected).
(** The rows checked and the first that does not match. *)
Fixpoint check_rows (mode expected : bytes) (rows : list ChangeRow) : Z * option ChangeRow :=
  match rows with
  | [] => (0, None)
  | row :: rest => if row_matches mode expected row then let '(n, mismatch) := check_rows mode expected rest in (n + 1, mismatch) else (1, Some row)
  end.
Definition signal_xz_verify (req : json) : act St json := answered (
  args ← pure_step (at_key (lit "args") req);
  signal ← pure_step (string_at (lit "signal") args);
  expected ← pure_step (string_at (lit "expected_state") args);
  mode ← pure_step (value_or as_string (lit "match_mode") (lit "exact") args);
  prepared ← prepare_analysis_signal signal;
  if negb (bool_decide (si_encoding (snd prepared) = BitVector))
  then stop (error_response (lit "INVALID_SIGNAL_TYPE") (lit "signal.xz_verify requires a bit-vector signal"))
  else
    range ← parse_range args;
    unit ← parse_analysis_unit args;
    format ← analysis_format args;
    w ← wave_now;
    match collect_changes w (fst prepared) (fst range) (snd range) with
    | [] => stop (error_response (lit "VALUE_NOT_AVAILABLE")
              (lit "no waveform value is available for signal " ++ signal ++ lit " in the requested window"))
    | first :: rest =>
        let '(checked, mismatch) := check_rows mode expected (first :: rest) in
        let matched := match mismatch with None => true | Some _ => false end in
        let time t := JString (ew_format_time w t unit) in
        let value row := typed_logic_value (cr_value row) (si_width (snd prepared)) format in
        mret (ok_response
          (merge (jobj [(lit "signal", JString signal); (lit "expected_state", JString expected); (lit "match_mode", JString mode);
                        (lit "verdict", JString (if matched then lit "pass" else lit "fail")); (lit "always_matched", JBool matched);
                        (lit "checked_value_count", JUint checked);
                        (lit "stop_reason", JString (if matched then lit "window_end" else lit "first_mismatch"))])
             (completeness matched true false checked checked []))
          (jobj [(lit "time_range", jobj [(lit "begin", time (fst range)); (lit "end", time (snd range))]); (lit "initial_value", value first);
                 (lit "first_mismatch", match mismatch with
                    | Some row => jobj [(lit "sample_time", time (cr_time row)); (lit "value", value row)] | None => JNull end);
                 (lit "sample_time_semantics", JString
                    (lit "sample_time is the finalized raw waveform value-change time in the closed interval"))]))
    end).

(** ** signal.anomaly.inspect *)

(** A threshold of a check: the message, or a positive time. *)
Definition threshold (w : W) (check : json) (k : bytes) (zero_message : bytes) : res (json + Z) :=
  threshold_text ← string_at k check;
  Ret (match ew_parse_time w threshold_text false with
       | inl [] => inl (error_response (lit "INVALID_TIME") zero_message)
       | inl message => inl (error_response (lit "INVALID_TIME") message)
       | inr t => if t =? 0 then inl (error_response (lit "INVALID_TIME") zero_message) else inr t
       end).
Fixpoint read_checks (w : W) (c : Checks) (checks : list json) : res (json + Checks) :=
  match checks with
  | [] => Ret (inr c)
  | check :: checks' =>
      type ← string_at (lit "type") check;
      if eqs type (lit "unknown_xz") then read_checks w (MkChecks true (ck_glitch c) (ck_stuck c) (ck_width c) (ck_duration c)) checks'
      else if eqs type (lit "glitch") then
        t ← threshold w check (lit "min_pulse_width") (lit "min_pulse_width must be greater than zero");
        match t with
        | inl error => Ret (inl error)
        | inr t => read_checks w (MkChecks (ck_unknown c) true (ck_stuck c) t (ck_duration c)) checks'
        end
      else if eqs type (lit "stuck") then
        t ← threshold w check (lit "min_duration") (lit "min_duration must be greater than zero");
        match t with
        | inl error => Ret (inl error)
        | inr t => read_checks w (MkChecks (ck_unknown c) (ck_glitch c) true (ck_width c) t) checks'
        end
      else read_checks w c checks'
  end.
Definition anomaly_checks (w : W) (checks : json) : res (json + Checks) :=
  if json_empty checks then
    match ew_parse_time w (lit "1us") false with
    | inl message => Ret (inl (error_response (lit "INVALID_TIME") message))
    | inr t => Ret (inr (MkChecks true false true 0 t))
    end
  else read_checks w (MkChecks false false false 0 0) (json_items checks).

Definition anomaly_json (w : W) (unit : TimeRenderUnit) (format : ValueRenderFormat) (signal : bytes) (width : Z) (a : Anomaly) : json :=
  let time t := JString (ew_format_time w t unit) in
  let value row := typed_logic_value (cr_value row) width format in
  match a with
  | UnknownXz row =>
      jobj [(lit "type", JString (lit "unknown_xz")); (lit "signal", JString signal); (lit "severity", JString (lit "warning"));
            (lit "time", time (cr_time row)); (lit "value", value row)]
  | Glitch row duration =>
      jobj [(lit "type", JString (lit "glitch")); (lit "signal", JString signal); (lit "severity", JString (lit "info"));
            (lit "time", time (cr_time row)); (lit "pulse_width", time duration)]
  | Stuck row until duration open =>
      let finding := jobj [(lit "type", JString (lit "stuck")); (lit "signal", JString signal); (lit "severity", JString (lit "warning"));
        (lit "begin", time (cr_time row)); (lit "end", time until); (lit "duration", time duration); (lit "value", value row)] in
      if open then set_key (lit "open_at_window_end") (JBool true) finding else finding
  end.
(** The findings of a signal, its status and whether it was analysed. *)
Definition inspect_signal (unit : TimeRenderUnit) (format : ValueRenderFormat) (c : Checks) (begin end_ : Z) (item : json) :
    trial json St (list json * json * bool) :=
  signal ← pure_step (as_string item);
  prepared ← with_wave (fun w => let '(r, w) := prepare_signal signal w in (Ret (inr r), w));
  w ← wave_now;
  match prepared with
  | inl error =>
      let message := default JNull (e ← jget (lit "error") error; jget (lit "message") e) in
      mret ([], jobj [(lit "signal", JString signal); (lit "status", JString (lit "error")); (lit "analysis_complete", JBool false);
                      (lit "message", message)], false)
  | inr (ref, info) =>
      let rows := collect_changes w ref begin end_ in
      let found := row_anomalies c end_ rows in
      mret (map (anomaly_json w unit format signal (si_width info)) found,
            jobj [(lit "signal", JString signal); (lit "status", JString (lit "ok")); (lit "analysis_complete", JBool true);
                  (lit "change_row_count", JUint (zlen rows)); (lit "finding_count", JUint (zlen found));
                  (lit "no_finding_reason", match found with
                     | [] => JString (lit "no configured rule matched in the requested window") | _ => JNull end)], true)
  end.

Definition signal_anomaly_inspect (req : json) : act St json := answered (
  args ← pure_step (at_key (lit "args") req);
  range ← parse_range args;
  unit ← parse_analysis_unit args;
  format ← analysis_format args;
  checks ← pure_step (value_or Ret (lit "checks") (JArray []) args);
  w ← wave_now;
  c ← or_stop (anomaly_checks w checks);
  limit ← pure_step (value_or (as_number trunc u32) (lit "line_limit") 50 args);
  signals ← pure_step (at_key (lit "signals") args);
  inspected ← each (inspect_signal unit format c (fst range) (snd range)) (json_items signals);
  let all := List.concat (map (fun r => fst (fst r)) inspected) in
  let findings := limited limit all in
  let complete := forallb snd inspected in
  let truncated := zlen findings <? zlen all in
  w ← wave_now;
  let time_if (b : bool) t := if b then JString (ew_format_time w t unit) else JNull in
  mret (ok_response
    (merge (jobj [(lit "signal_count", JUint (zlen inspected)); (lit "checks", checks);
                  (lit "glitch_threshold", time_if (ck_glitch c) (ck_width c)); (lit "stuck_threshold", time_if (ck_stuck c) (ck_duration c))])
       (completeness complete complete truncated (zlen all) (zlen findings)
          (scope (negb complete) "analysis_signals" ++ scope truncated "response_findings")))
    (jobj [(lit "findings", JArray findings); (lit "scan_status", JArray (map (fun r => snd (fst r)) inspected))]))).
End Analysis.
