(* ===== verification/SignalAnalysisTheory.v ===== *)
(** * SignalAnalysisTheory: what the signal statistics report

    The machines of SignalAnalysis.v against definitions over all the samples
    or all the rows: the statistics of a sampled signal, the rows of a signal's
    changes, and the anomalies between adjacent rows. *)

From stdpp Require Import sorting.
From S2P Require Import Prelude Sorting CLib Json LogicValue ExprParser Waveform ExprEval ClockSampling Cursor SignalList Engine TableWave WaveState ClockActions SignalAnalysis.

Open Scope Z_scope.

(** ** The statistics of a sampled signal *)

Definition sample_known (s : SignalSample) : bool := match known_bits s with Some _ => true | None => false end.
(** A single bit that is one; a known value without a one. *)
Definition sample_high (s : SignalSample) : bool := match known_bits s with Some bits => single_high bits | None => false end.
Definition sample_zero (s : SignalSample) : bool := match known_bits s with Some bits => negb (existsb (eqc "1"%char) bits) | None => false end.

(** The known samples with their bits, in order. *)
Definition known_samples (l : list SignalSample) : list (Z * bytes) :=
  omap (fun s => bits ← known_bits s; Some (fst s, bits)) l.
(** Those that differ from the known sample before them. *)
Definition changed_samples (l : list SignalSample) : list (Z * bytes) :=
  let known := known_samples l in map snd (List.filter (fun ab => negb (eqs (snd (snd ab)) (snd (fst ab)))) (zip known (tail known))).

Definition least (texts : list bytes) : option bytes :=
  foldl (fun m t => Some (match m with None => t | Some m => if str_ltb t m then t else m end)) None texts.
Definition greatest (texts : list bytes) : option bytes :=
  foldl (fun m t => Some (match m with None => t | Some m => if str_ltb m t then t else m end)) None texts.

Lemma known_samples_snoc l s : known_samples (l ++ [s]) =
  known_samples l ++ match known_bits s with Some bits => [(fst s, bits)] | None => [] end.
Proof. unfold known_samples. rewrite omap_app. f_equal. cbn. by destruct (known_bits s). Qed.
Lemma zip_tail_snoc {A} (l : list A) x : zip (l ++ [x]) (tail (l ++ [x])) =
  zip l (tail l) ++ match list.last l with Some y => [(y, x)] | None => [] end.
Proof.
  induction l as [|a l IH]; [done|]. cbn [app tail]. destruct l as [|b l]; [done|]. cbn [app tail] in IH |- *. cbn [zip_with app].
  f_equal. exact IH.
Qed.
Lemma changed_samples_snoc l s : changed_samples (l ++ [s]) = changed_samples l ++
  match known_bits s, list.last (known_samples l) with
  | Some bits, Some before => if negb (eqs bits (snd before)) then [(fst s, bits)] else []
  | _, _ => []
  end.
Proof.
  unfold changed_samples. rewrite known_samples_snoc. destruct (known_bits s) as [bits|]; [|by rewrite !app_nil_r].
  rewrite zip_tail_snoc, filter_app, map_app. f_equal. destruct (list.last (known_samples l)) as [before|]; [|done].
  cbn. by destruct (eqs bits (snd before)).
Qed.
Lemma least_snoc l t : least (l ++ [t]) = Some (match least l with None => t | Some m => if str_ltb t m then t else m end).
Proof. unfold least. by rewrite foldl_app. Qed.
Lemma greatest_snoc l t : greatest (l ++ [t]) = Some (match greatest l with None => t | Some m => if str_ltb m t then t else m end).
Proof. unfold greatest. by rewrite foldl_app. Qed.

(** The range of the known samples. *)
Definition range_of (texts : list bytes) : option Range :=
  match list.head texts, list.last texts, least texts, greatest texts with
  | Some first, Some final, Some lo, Some hi => Some (MkRange first final lo hi)
  | _, _, _, _ => None
  end.
Lemma some_least l : least l = None <-> l = [].
Proof. destruct l as [|t l] using rev_ind; [done|]. rewrite least_snoc. split; [done|]. by destruct l. Qed.
Lemma some_greatest l : greatest l = None <-> l = [].
Proof. destruct l as [|t l] using rev_ind; [done|]. rewrite greatest_snoc. split; [done|]. by destruct l. Qed.
Lemma range_snoc l t : range_of (l ++ [t]) = Some match range_of l with
  | None => MkRange t t t t
  | Some r => MkRange (rg_first r) t (if str_ltb t (rg_min r) then t else rg_min r) (if str_ltb (rg_max r) t then t else rg_max r)
  end.
Proof.
  unfold range_of. rewrite last_snoc, least_snoc, greatest_snoc. destruct l as [|a l]; [done|]. cbn [list.head app].
  destruct (least (a :: l)) eqn:E1; [|by apply some_least in E1]. destruct (greatest (a :: l)) eqn:E2; [|by apply some_greatest in E2].
  destruct (list.last (a :: l)) eqn:E3; [done|]. by apply last_None in E3.
Qed.
Lemma range_none l : range_of l = None <-> l = [].
Proof. destruct l as [|t l] using rev_ind; [done|]. rewrite range_snoc. split; [done|]. by destruct l. Qed.
Lemma range_final l r : range_of l = Some r -> list.last l = Some (rg_final r).
Proof. destruct l as [|t l] using rev_ind; [done|]. rewrite range_snoc, last_snoc. intros [= <-]. by destruct (range_of l). Qed.

(** What the machine has counted, and the values it has seen. *)
Record active (l : list SignalSample) (st : SignalStats) : Prop := {
  ac_samples : st_samples st = zlen l;
  ac_known : st_known st = count_if sample_known l;
  ac_unknown : st_unknown st = count_if (fun s => negb (sample_known s)) l;
  ac_high : st_high st = count_if sample_high l;
  ac_low : st_low st = count_if sample_zero l;
  ac_was_high : st_was_high st = negb (bool_decide (last_run sample_high l = []));
  ac_current : st_current st = zlen (last_run sample_high l);
  ac_bursts : st_bursts st = zlen (all_runs sample_high l);
  ac_longest : st_longest st = longest (map fst (ended_runs sample_high l));
  ac_first_high : st_first_high st = fst <$> list.head (List.filter sample_high l);
  ac_last_high : st_last_high st = fst <$> list.last (List.filter sample_high l);
  ac_last_fall : st_last_fall st = (fun r => fst (snd r)) <$> list.last (ended_runs sample_high l);
}.
Record valued (l : list SignalSample) (st : SignalStats) : Prop := {
  vd_range : st_range st = range_of (map snd (known_samples l));
  vd_transitions : st_transitions st = zlen (changed_samples l);
  vd_first_change : st_first_change st = fst <$> list.head (changed_samples l);
  vd_last_change : st_last_change st = fst <$> list.last (changed_samples l);
}.

Lemma head_snoc {A} (l : list A) x : list.head (l ++ [x]) = match list.head l with None => Some x | h => h end.
Proof. by destruct l. Qed.

(** The lists of the spec after a sample that is, or is not, high. *)
Lemma high_lists l s : sample_high s = true ->
  List.filter sample_high (l ++ [s]) = List.filter sample_high l ++ [s] /\ last_run sample_high (l ++ [s]) = last_run sample_high l ++ [s] /\
  ended_runs sample_high (l ++ [s]) = ended_runs sample_high l.
Proof. intros E. rewrite filter_app, last_run_snoc, ended_snoc. cbn. by rewrite E. Qed.
Lemma low_lists l s : sample_high s = false ->
  List.filter sample_high (l ++ [s]) = List.filter sample_high l /\ last_run sample_high (l ++ [s]) = [] /\
  ended_runs sample_high (l ++ [s]) = match last_run sample_high l with [] => ended_runs sample_high l
    | r => ended_runs sample_high l ++ [(r, s)] end.
Proof. intros E. rewrite filter_app, last_run_snoc, ended_snoc. cbn. by rewrite E, app_nil_r. Qed.

Ltac counted := rewrite ?count_snoc, ?zlen_app, ?all_runs_count, ?last_snoc, ?map_app; cbn [negb andb map fst]; try change (zlen [_]) with 1; try done; try lia.

Lemma unknown_active width l st s : known_bits s = None -> active l st -> active (l ++ [s]) (unknown_step width st s).
Proof.
  intros Hk [Hs Hkn Hu Hh Hl Hw Hc Hb Hlo Hfh Hlh Hlf].
  assert (sample_known s = false /\ sample_high s = false /\ sample_zero s = false) as (E1 & E2 & E3)
    by (unfold sample_known, sample_high, sample_zero; by rewrite Hk).
  destruct (low_lists l s E2) as (Ef & Eo & Ee). unfold unknown_step. rewrite Hw. destruct (last_run sample_high l) as [|x r] eqn:E.
  - rewrite bool_decide_eq_true_2 by done. split; cbn; rewrite ?Ef, ?Eo, ?Ee; counted; rewrite ?E1, ?E2, ?E3; cbn; lia.
  - rewrite bool_decide_eq_false_2 by done. split; cbn; rewrite ?Ef, ?Eo, ?Ee; counted; rewrite ?E1, ?E2, ?E3; cbn; try done; try lia.
    by rewrite longest_snoc, Hlo, Hc.
Qed.
Lemma activity_active l st s bits : known_bits s = Some bits -> active l st -> active (l ++ [s]) (activity_step st (fst s) bits).
Proof.
  intros Hk [Hs Hkn Hu Hh Hl Hw Hc Hb Hlo Hfh Hlh Hlf].
  assert (sample_known s = true) as E1 by (unfold sample_known; by rewrite Hk).
  assert (sample_zero s = negb (existsb (eqc "1"%char) bits)) as E3 by (unfold sample_zero; by rewrite Hk).
  assert (single_high bits = true -> existsb (eqc "1"%char) bits = true) as Hone by (unfold single_high; by intros [? _]%andb_prop).
  pose proof (open_run_some sample_high l) as Hopen.
  destruct (sample_high s) eqn:E2; assert (single_high bits = sample_high s) as Eh by (unfold sample_high; by rewrite Hk);
    rewrite E2 in Eh; unfold activity_step; rewrite Eh, Hw.
  - rewrite Hone in * by done. destruct (high_lists l s E2) as (Ef & Eo & Ee). destruct (last_run sample_high l) as [|x r] eqn:E.
    + rewrite bool_decide_eq_true_2 by done.
      split; cbn; rewrite ?Ef, ?Eo, ?Ee; counted; rewrite ?E1, ?E2, ?E3, ?E; cbn; try done; try lia.
      rewrite head_snoc, Hfh. by destruct (List.filter sample_high l).
    + rewrite bool_decide_eq_false_2 by done.
      split; cbn; rewrite ?Ef, ?Eo, ?Ee; counted; rewrite ?E1, ?E2, ?E3, ?E; cbn; try done; try lia.
      rewrite head_snoc, Hfh. destruct (List.filter sample_high l); [by destruct Hopen|done].
  - destruct (low_lists l s E2) as (Ef & Eo & Ee). rewrite andb_false_r. destruct (last_run sample_high l) as [|x r] eqn:E.
    + rewrite bool_decide_eq_true_2 by done.
      split; cbn; rewrite ?Ef, ?Eo, ?Ee; counted; rewrite ?E1, ?E2, ?E3, ?E; cbn; try done; try lia.
      destruct (existsb _ bits); cbn; lia.
    + rewrite bool_decide_eq_false_2 by done.
      split; cbn; rewrite ?Ef, ?Eo, ?Ee; counted; rewrite ?E1, ?E2, ?E3, ?E; cbn; try done; try lia.
      * destruct (existsb _ bits); cbn; lia.
      * by rewrite longest_snoc, Hlo, Hc.
Qed.
Lemma value_active l st t bits value : active l st -> active l (value_step st t bits value).
Proof. intros []. unfold value_step. destruct (st_range st); by split. Qed.

Lemma activity_valued l st t bits : valued l st -> valued l (activity_step st t bits).
Proof. intros []. by split. Qed.
Lemma unknown_valued width l st s : known_bits s = None -> valued l st -> valued (l ++ [s]) (unknown_step width st s).
Proof.
  intros Hk [Hr Ht Hf Hl]. assert (known_samples (l ++ [s]) = known_samples l) as Ek by (by rewrite known_samples_snoc, Hk, app_nil_r).
  assert (changed_samples (l ++ [s]) = changed_samples l) as Ec by (by rewrite changed_samples_snoc, Hk, app_nil_r).
  unfold unknown_step. destruct (st_was_high st); split; cbn; by rewrite ?Ek, ?Ec.
Qed.
Lemma value_valued l st s bits value : known_bits s = Some bits -> valued l st -> valued (l ++ [s]) (value_step st (fst s) bits value).
Proof.
  intros Hk [Hr Ht Hf Hl].
  assert (map snd (known_samples (l ++ [s])) = map snd (known_samples l) ++ [bits]) as Ek by (by rewrite known_samples_snoc, Hk, map_app).
  pose proof (changed_samples_snoc l s) as Ec. rewrite Hk in Ec. unfold value_step. destruct (st_range st) as [r|] eqn:Er.
  - assert (snd <$> list.last (known_samples l) = Some (rg_final r)) as Hlast.
    { symmetry in Hr. apply range_final in Hr. change (map snd (known_samples l)) with (snd <$> known_samples l) in Hr. by rewrite fmap_last in Hr. }
    destruct (list.last (known_samples l)) as [before|] eqn:El; [|done]. cbn in Hlast. injection Hlast as Hlast. rewrite Hlast in Ec.
    destruct (negb (eqs bits (rg_final r))) eqn:En; split; cbn [st_range st_transitions st_first_change st_last_change];
      rewrite ?Ek, ?Ec, ?range_snoc, <- ?Hr, ?app_nil_r, ?head_snoc, ?last_snoc, ?zlen_app, ?Hf, ?Hl, ?Ht; try done.
    by destruct (changed_samples l).
  - symmetry in Hr. pose proof Hr as Hn. apply range_none in Hn. destruct (known_samples l) as [|k known] eqn:En; [|done].
    assert (list.last (@nil (Z * bytes)) = None) as E0 by done. rewrite E0, app_nil_r in Ec.
    split; cbn [st_range st_transitions st_first_change st_last_change]; rewrite ?Ek, ?Ec; done.
Qed.

Lemma stats_measured width l : let st := foldl (stats_step width) new_stats l in active l st /\ valued l st.
Proof.
  induction l as [|s l [Ha Hv]] using rev_ind; [by split; split|]. cbv zeta in *. rewrite foldl_app. cbn [foldl].
  set (st := foldl (stats_step width) new_stats l) in *. unfold stats_step. destruct (known_bits s) as [bits|] eqn:Hk.
  - destruct (snd s) as [value|] eqn:Es; [|unfold known_bits in Hk; by rewrite Es in Hk].
    split; [by apply value_active, activity_active|by apply value_valued, activity_valued].
  - split; [by apply unknown_active|by apply unknown_valued].
Qed.

(** Texts of ones and zeros of one length compare as the numbers they spell. *)
Lemma str_compare_bits a : forall b, length a = length b -> forallb is_bit a = true -> forallb is_bit b = true ->
  str_compare a b = (bits_val a ?= bits_val b).
Proof.
  induction a as [|x a IH]; intros [|y b]; try done. cbn [length forallb str_compare]. intros [= Hl] [Hx Ha]%andb_prop [Hy Hb]%andb_prop.
  pose proof (bits_val_range a). pose proof (bits_val_range b). assert (zlen b = zlen a) as El by (unfold zlen; lia). rewrite El in *.
  rewrite !bits_val_cons, IH, El by done. unfold is_bit in Hx, Hy.
  apply orb_true_iff in Hx as [->%eqc_true| ->%eqc_true]; apply orb_true_iff in Hy as [->%eqc_true| ->%eqc_true];
    match goal with |- context [code ?c ?= code ?d] => let r := eval vm_compute in (code c ?= code d) in change (code c ?= code d) with r end; cbn iota;
    change (bit_of "0") with 0; change (bit_of "1") with 1; symmetry; rewrite ?Z.compare_lt_iff, ?Z.compare_gt_iff; try lia.
  all: by rewrite Z.add_compare_mono_l.
Qed.
Lemma str_ltb_bits a b : length a = length b -> forallb is_bit a = true -> forallb is_bit b = true -> str_ltb a b = (bits_val a <? bits_val b).
Proof. intros. unfold str_ltb, Z.ltb. by rewrite str_compare_bits. Qed.

(** The least and the greatest known value are so as numbers. *)
Lemma extremes_numeric (n : nat) texts : texts <> [] -> Forall (fun t => length t = n /\ forallb is_bit t = true) texts ->
  exists lo hi, least texts = Some lo /\ greatest texts = Some hi /\ lo ∈ texts /\ hi ∈ texts /\
    Forall (fun t => bits_val lo <= bits_val t <= bits_val hi) texts.
Proof.
  induction texts as [|t l IH] using rev_ind; [done|]. intros _ [Hl Ht]%Forall_app. apply list.Forall_singleton in Ht as [Ht Hb].
  rewrite least_snoc, greatest_snoc. destruct (decide (l = [])) as [-> |Hne].
  { exists t, t. cbn. split_and!; try done; try apply list_elem_of_singleton; try done. constructor; [lia|constructor]. }
  destruct (IH Hne Hl) as (lo & hi & -> & -> & Hlo & Hhi & Hall).
  assert (forall x, x ∈ l -> length x = n /\ forallb is_bit x = true) as Hx by (by apply list.Forall_forall).
  destruct (Hx _ Hlo), (Hx _ Hhi). rewrite !str_ltb_bits by congruence.
  assert (bits_val lo <= bits_val hi) by (pose proof (proj1 (list.Forall_forall _ _) Hall lo Hlo) as Hb1; cbn in Hb1; lia).
  destruct (bits_val t <? bits_val lo) eqn:E1; destruct (bits_val hi <? bits_val t) eqn:E2;
    eexists _, _; (split_and!; [reflexivity|reflexivity| | |]); rewrite ?elem_of_app, ?list_elem_of_singleton; try (by left); try (by right);
    apply Forall_app; (split; [eapply list.Forall_impl; [exact Hall|]; cbn; intros; lia|constructor; [lia|constructor]]).
Qed.

(** The statistics of a signal sampled at clock edges are those of the
    samples. Known and unknown samples are counted apart and add up; a high
    burst is a maximal run of samples with a single one bit, and the longest
    one, the first and last high sample and the last fall are those of the
    runs; the first, last, least and greatest values are those of the known
    samples; and the transitions are the known samples that differ from the
    known sample before, however many unknown ones lie between. *)
Theorem signal_statistics_exact width l : let st := foldl (stats_step width) new_stats l in
  st_samples st = zlen l /\ st_known st + st_unknown st = zlen l /\ st_known st = zlen (known_samples l) /\
  st_high st = count_if sample_high l /\ st_low st = count_if sample_zero l /\
  st_bursts st = zlen (all_runs sample_high l) /\ longest_high st = longest (all_runs sample_high l) /\
  st_first_high st = fst <$> list.head (List.filter sample_high l) /\ st_last_high st = fst <$> list.last (List.filter sample_high l) /\
  st_last_fall st = (fun r => fst (snd r)) <$> list.last (ended_runs sample_high l) /\
  st_range st = range_of (map snd (known_samples l)) /\ st_transitions st = zlen (changed_samples l) /\
  st_first_change st = fst <$> list.head (changed_samples l) /\ st_last_change st = fst <$> list.last (changed_samples l).
Proof.
  cbv zeta. destruct (stats_measured width l) as [[] []]. split_and!; try done.
  - rewrite ac_known0, ac_unknown0. clear. induction l as [|s l IH] using rev_ind; [done|]. rewrite !count_snoc, zlen_app.
    change (zlen [s]) with 1. destruct (sample_known s); cbn [negb]; lia.
  - rewrite ac_known0. clear. induction l as [|s l IH] using rev_ind; [done|]. rewrite count_snoc, known_samples_snoc, zlen_app, IH.
    unfold sample_known. by destruct (known_bits s).
  - unfold longest_high. rewrite ac_was_high0, ac_longest0, ac_current0. unfold all_runs. destruct (last_run sample_high l) as [|x r].
    + rewrite bool_decide_eq_true_2 by done. by rewrite app_nil_r.
    + rewrite bool_decide_eq_false_2 by done. by rewrite longest_snoc.
Qed.

(** ** The rows of a signal's changes *)

Definition in_force (rows : list ChangeRow) (t : Z) : option ChangeRow := list.last (List.filter (fun r => cr_time r <=? t) rows).
Lemma in_force_cons a rows t : in_force (a :: rows) t =
  match in_force rows t with Some r => Some r | None => if cr_time a <=? t then Some a else None end.
Proof. unfold in_force. cbn [List.filter]. destruct (cr_time a <=? t); [apply last_cons|]. by destruct (list.last _). Qed.
Lemma in_force_later rows t : Forall (fun r => t < cr_time r) rows -> in_force rows t = None.
Proof.
  intros H. unfold in_force. rewrite filter_false; [done|]. intros r Hr. assert (t < cr_time r) by exact (proj1 (list.Forall_forall _ _) H r Hr).
  by apply Z.leb_gt.
Qed.

Section Rows.
Context {W : Type} `{EngineWave W} (real_eq : Z -> Z -> bool) (w : W) (ref begin end_ : Z).
Abbreviation time := (sb_time_at w).
Abbreviation rows_of := (change_rows real_eq w ref begin end_).
Abbreviation equal := (value_equal real_eq).

(** Every row is a change index of the signal inside the window. *)
Lemma rows_within indices : forall previous, Forall (fun r => exists ti s, ti ∈ indices /\ time ti = cr_time r /\ begin < cr_time r <= end_ /\
  sb_sampled_value_at w ref ti Raw = Some s /\ cr_value r = sv_value s) (rows_of previous indices).
Proof.
  assert (forall (ti : Z) l r, (exists ti' s, ti' ∈ l /\ time ti' = cr_time r /\ begin < cr_time r <= end_ /\
    sb_sampled_value_at w ref ti' Raw = Some s /\ cr_value r = sv_value s) -> exists ti' s, ti' ∈ ti :: l /\ time ti' = cr_time r /\
    begin < cr_time r <= end_ /\ sb_sampled_value_at w ref ti' Raw = Some s /\ cr_value r = sv_value s) as Hmono.
  { intros ti l r (ti' & s & ? & Hr). exists ti', s. split; [by right|exact Hr]. }
  induction indices as [|ti l IH]; intros previous; cbn [change_rows]; [constructor|].
  destruct ((time ti <=? begin) || (end_ <? time ti)) eqn:E; [eapply list.Forall_impl; [apply IH|apply Hmono]|].
  apply orb_false_iff in E as [E1 E2]. destruct (sb_sampled_value_at w ref ti Raw) as [s|] eqn:Es; [|eapply list.Forall_impl; [apply IH|apply Hmono]].
  destruct (match previous with Some v => equal v (sv_value s) | None => false end); [eapply list.Forall_impl; [apply IH|apply Hmono]|].
  constructor; [|eapply list.Forall_impl; [apply IH|apply Hmono]]. exists ti, s. cbn. split_and!; try done; [by left|lia|lia].
Qed.

Definition adjacent_differ (rows : list ChangeRow) : Prop :=
  forall i a b, rows !! i = Some a -> rows !! S i = Some b -> equal (cr_value a) (cr_value b) = false.
(** The rows tell the value at every change index of the window. *)
Definition rows_show (rows : list ChangeRow) (indices : list Z) : Prop :=
  forall ti s, ti ∈ indices -> begin < time ti <= end_ -> sb_sampled_value_at w ref ti Raw = Some s ->
  exists r, in_force rows (time ti) = Some r /\ (equal (cr_value r) (sv_value s) = true \/ cr_value r = sv_value s).

Lemma adjacent_cons a rows : adjacent_differ rows -> (forall b, list.head rows = Some b -> equal (cr_value a) (cr_value b) = false) ->
  adjacent_differ (a :: rows).
Proof. intros Hr Hh [|i] x y; cbn; [intros [= <-] Hy; apply Hh; by destruct rows|apply Hr]. Qed.
Lemma show_skip rows ti l : (begin < time ti <= end_ -> sb_sampled_value_at w ref ti Raw = None) -> rows_show rows l -> rows_show rows (ti :: l).
Proof. intros Hn Hs ti' s [-> |Hin]%elem_of_cons Hw Hv; [by rewrite Hn in Hv|by eapply Hs]. Qed.

Lemma rows_spec indices : StronglySorted Z.lt (map time indices) -> forall prev : option ChangeRow,
  (forall r, prev = Some r -> Forall (fun ti => time ti <= begin \/ cr_time r < time ti) indices) ->
  let rows := option_list prev ++ rows_of (cr_value <$> prev) indices in
  StronglySorted Z.lt (map cr_time rows) /\ adjacent_differ rows /\ rows_show rows indices.
Proof.
  induction indices as [|ti l IH]; intros Hs prev Hp; cbv zeta.
  { cbn [change_rows]. rewrite app_nil_r. destruct prev as [p|]; cbn; split_and!; try (by repeat constructor); try by intros [|[|?]].
    all: by intros ? ? ?%elem_of_nil. }
  apply StronglySorted_inv in Hs as [Hs Hlt]. specialize (IH Hs). cbn [change_rows].
  assert (forall r, prev = Some r -> Forall (fun ti => time ti <= begin \/ cr_time r < time ti) l) as Hp'.
  { intros r Hr. specialize (Hp r Hr). by apply Forall_inv_tail in Hp. }
  destruct ((time ti <=? begin) || (end_ <? time ti)) eqn:E.
  { destruct (IH prev Hp') as (? & ? & ?). split_and!; try done. apply show_skip; [|done]. apply orb_true_iff in E. lia. }
  apply orb_false_iff in E as [E1 E2]. destruct (sb_sampled_value_at w ref ti Raw) as [s|] eqn:Es.
  2: { destruct (IH prev Hp') as (? & ? & ?). split_and!; try done. by apply show_skip. }
  assert (forall p, Forall (fun r => time ti < cr_time r) (rows_of p l)) as Hafter.
  { intros p. eapply list.Forall_impl; [apply rows_within|]. cbn. intros r (ti' & s' & Hin & <- & _).
    apply (proj1 (list.Forall_forall _ _) Hlt). by apply list_elem_of_fmap_2. }
  destruct (match cr_value <$> prev with Some v => equal v (sv_value s) | None => false end) eqn:Eq.
  - destruct (IH prev Hp') as (? & ? & Hshow). split_and!; try done. intros ti' s' [-> |Hin]%elem_of_cons Hw Hv; [|by apply Hshow].
    rewrite Es in Hv. injection Hv as <-. destruct prev as [p|]; [|done]. cbn in Eq. exists p. split; [|by left].
    change (in_force (p :: rows_of (Some (cr_value p)) l) (time ti) = Some p). rewrite in_force_cons, in_force_later by apply Hafter. destruct (Forall_inv (Hp p eq_refl)) as [?|?]; [lia|].
    by rewrite (proj2 (Z.leb_le _ _)) by lia.
  - set (row := MkChangeRow (time ti) (sv_value s)).
    destruct (IH (Some row)) as (Hsort & Hadj & Hshow).
    { intros r [= <-]. eapply list.Forall_impl; [exact (proj1 (list.Forall_fmap _ _ _) Hlt)|]. cbn. intros; by right. }
    cbn [option_list app fmap option_fmap option_map] in Hsort, Hadj, Hshow. cbn [cr_value row] in *.
    assert (rows_show (row :: rows_of (Some (sv_value s)) l) (ti :: l)) as Hrow.
    { intros ti' s' [-> |Hin]%elem_of_cons Hw Hv; [|by apply Hshow]. rewrite Es in Hv. injection Hv as <-. exists row.
      rewrite in_force_cons, in_force_later by apply Hafter. cbn. rewrite Z.leb_refl. split; [done|by right]. }
    destruct prev as [p|]; cbn [option_list app]; [|by split_and!]. split_and!.
    + cbn [map]. constructor; [done|]. constructor.
      * cbn. destruct (Forall_inv (Hp p eq_refl)) as [?|?]; lia.
      * apply list.Forall_fmap. eapply list.Forall_impl; [apply Hafter|]. cbn. intros r Hr.
        destruct (Forall_inv (Hp p eq_refl)) as [?|?]; lia.
    + apply adjacent_cons; [done|]. by intros b [= <-].
    + intros ti' s' Hin Hw Hv. destruct (Hrow ti' s' Hin Hw Hv) as (r & Hr & Heq). exists r. split; [|done]. etransitivity; [apply in_force_cons|]. cbn [app]. by rewrite Hr.
Qed.
Lemma rows_start initial : begin <= end_ -> Forall (fun r => begin <= cr_time r <= end_)
  (MkChangeRow begin initial :: rows_of (Some initial) (sb_time_indices_of w ref)).
Proof.
  intros Hb. constructor; [cbn; lia|]. eapply list.Forall_impl; [apply rows_within|]. cbn. intros r (ti & s & _ & _ & ? & _). lia.
Qed.
End Rows.

(** ** Anomalies *)

(** [a] is an anomaly of the rows. *)
Definition anomaly_in (c : Checks) (end_ : Z) (rows : list ChangeRow) (a : Anomaly) : Prop :=
  match a with
  | UnknownXz row => ck_unknown c = true /\ row ∈ rows /\ row_unknown row = true
  | Glitch row duration => ck_glitch c = true /\ exists i next, rows !! i = Some row /\ rows !! S i = Some next /\
      duration = cr_time next - cr_time row /\ duration < ck_width c
  | Stuck row until duration open => ck_stuck c = true /\ duration = until - cr_time row /\ ck_duration c <= duration /\
      if open : bool then list.last rows = Some row /\ until = end_
      else exists i next, rows !! i = Some row /\ rows !! S i = Some next /\ until = cr_time next
  end.

Lemma if_elem {A} (b : bool) (x a : A) : a ∈ (if b then [x] else []) <-> b = true /\ a = x.
Proof. destruct b; [rewrite list_elem_of_singleton|rewrite elem_of_nil]; naive_solver. Qed.
Lemma anomalies_exact c end_ rows : StronglySorted Z.lt (map cr_time rows) -> Forall (fun r => 0 <= cr_time r <= end_) rows -> end_ < 2 ^ 64 ->
  forall a, a ∈ row_anomalies c end_ rows <-> anomaly_in c end_ rows a.
Proof.
  induction rows as [|row rows IH]; intros Hs Hw He a.
  { cbn. rewrite elem_of_nil. destruct a as [r|r d|r u d []]; cbn; try (setoid_rewrite elem_of_nil); naive_solver. }
  apply StronglySorted_inv in Hs as [Hs Hlt]. inversion_clear Hw as [|? ? Hr Hw']. specialize (IH Hs Hw' He a).
  cbn [row_anomalies]. destruct rows as [|next rest].
  - rewrite elem_of_app, !if_elem, !andb_true_iff, !Z.leb_le. destruct a as [r|r d|r u d []]; cbn; rewrite ?list_elem_of_singleton.
    + naive_solver.
    + split; [naive_solver|]. by intros (_ & [|i] & ? & ? & ? & _).
    + split; [intros [[? ?]|[((? & ?) & ?) [= -> -> ->]]]|]; [done|by split_and!|]. intros (? & -> & ? & [= ->] & ->). right. split_and!; done || lia.
    + split; [naive_solver|]. by intros (_ & _ & _ & [|i] & ? & ? & ? & _).
  - cbn [map] in Hlt. apply Forall_inv in Hlt. pose proof (Forall_inv Hw') as Hn. cbn in Hn.
    rewrite u64_small by lia. rewrite !elem_of_app, !if_elem, IH, !andb_true_iff, !Z.leb_le, !Z.ltb_lt.
    destruct a as [r|r d|r u d []]; cbn [anomaly_in].
    + rewrite !elem_of_cons. naive_solver.
    + split.
      * intros [[? ?]|[[((? & ?) & ?) [= -> ->]]|[[? ?]|(? & i & n & ? & ? & ?)]]]; [done| |done|split; [done|by exists (S i), n]].
        split; [done|]. by exists 0%nat, next.
      * intros (? & [|i] & n & Hi & Hj & -> & ?); [cbn in *|right; right; right; split; [done|by exists i, n]].
        injection Hi as <-. injection Hj as <-. right. left. split_and!; done || lia.
    + change (list.last (row :: next :: rest)) with (list.last (next :: rest)). naive_solver.
    + split.
      * intros [[? ?]|[[? ?]|[[[? ?] [= -> -> ->]]|(? & ? & ? & i & n & ? & ? & ?)]]]; [done|done| |split_and!; try done; by exists (S i), n].
        split_and!; try done. by exists 0%nat, next.
      * intros (? & -> & ? & [|i] & n & Hi & Hj & ->); [cbn in *|right; right; right; split_and!; try done; by exists i, n].
        injection Hi as <-. injection Hj as <-. right. right. left. split_and!; done || lia.
Qed.

(** For a signal with increasing change times that has a value at the begin
    of the window, the rows collected for the window start there, lie in the
    window, increase in time, never repeat a value, and tell the value at every
    change of the signal; and the anomalies found are exactly those of the rows:
    the rows with an unknown bit, the rows followed by another in less than the
    pulse width, and the rows that last at least the duration, the last row
    until the end of the window. *)
Theorem signal_anomalies_exact {W} `{EngineWave W} real_eq (w : W) ref begin end_ initial c :
  StronglySorted Z.lt (map (sb_time_at w) (sb_time_indices_of w ref)) ->
  0 <= begin <= end_ -> end_ < 2 ^ 64 -> begin <= ew_max_time w -> ew_min_time w <= end_ ->
  sb_sampled_value_at w ref (ew_time_idx_of w begin) Raw = Some initial ->
  let rows := collect_changes real_eq w ref begin end_ in
  list.head rows = Some (MkChangeRow begin (sv_value initial)) /\
  StronglySorted Z.lt (map cr_time rows) /\ Forall (fun r => begin <= cr_time r <= end_) rows /\
  adjacent_differ real_eq rows /\ rows_show real_eq w ref begin end_ rows (sb_time_indices_of w ref) /\
  forall a, a ∈ row_anomalies c end_ rows <-> anomaly_in c end_ rows a.
Proof.
  intros Hs Hb He Hmax Hmin Hi. cbv zeta. unfold collect_changes. rewrite Hi.
  rewrite (proj2 (Z.ltb_ge _ _) Hmax), (proj2 (Z.ltb_ge _ _) Hmin). cbn [orb].
  destruct (rows_spec real_eq w ref begin end_ _ Hs (Some (MkChangeRow begin (sv_value initial)))) as (Hsort & Hadj & Hshow).
  { intros r [= <-]. apply list.Forall_forall. cbn. intros ti _. lia. }
  cbn [option_list app fmap option_fmap option_map cr_value] in Hsort, Hadj, Hshow.
  pose proof (rows_start real_eq w ref begin end_ (sv_value initial) (proj2 Hb)) as Hw. split_and!; try done.
  apply anomalies_exact; [done| |done]. eapply list.Forall_impl; [exact Hw|]. cbn. lia.
Qed.

Definition pulse_table : Table := MkTable [bits_row (lit "s") (lit "000010")] 6 0.
#[local] Existing Instance table_wave.
Definition pulse_checks : Checks := MkChecks true true true 30 60.
Lemma signal_anomalies_exact_witness :
  let rows := collect_changes (fun _ _ => true) pulse_table 1 70 110 in
  list.head rows = Some (MkChangeRow 70 (MkWV BitVector (lit "0") 0)) /\
  StronglySorted Z.lt (map cr_time rows) /\ Forall (fun r => 70 <= cr_time r <= 110) rows /\
  adjacent_differ (fun _ _ => true) rows /\ rows_show (fun _ _ => true) pulse_table 1 70 110 rows (table_changes pulse_table 1) /\
  forall a, a ∈ row_anomalies pulse_checks 110 rows <-> anomaly_in pulse_checks 110 rows a.
Proof.
  refine (signal_anomalies_exact (fun _ _ => true) pulse_table 1 70 110 (MkSV (MkWV BitVector (lit "0") 0) 7 0 1 true) pulse_checks _ _ _ _ _ _);
    try (vm_compute; split; discriminate); try (vm_compute; done).
  replace (map _ _) with [0; 80; 100] by (vm_compute; reflexivity). repeat constructor.
Defined.

(** The first row is dated at the begin of the window, not at the change that
    gave it: a value that holds for 80 time units is reported as a glitch of 10
    when the window begins 10 units before its end. *)
Lemma window_start_glitch :
  collect_changes (fun _ _ => true) pulse_table 1 0 79 = [MkChangeRow 0 (MkWV BitVector (lit "0") 0)] /\
  row_anomalies pulse_checks 110 (collect_changes (fun _ _ => true) pulse_table 1 70 110) =
    [Glitch (MkChangeRow 70 (MkWV BitVector (lit "0") 0)) 10; Glitch (MkChangeRow 80 (MkWV BitVector (lit "1") 0)) 20].
Proof. vm_compute. done. Qed.
