(* ===== verification/ValueAt.v ===== *)
(** * ValueAt: value.at and signal.changes

    Models [src/engine/actions/waveform/value_at.cpp]. The entries of a
    selector come from the signal lists of the state or from the stored APB,
    stream and AXI configurations, which the handler only reads. The printed
    form of a [double] and the JSON printer are arguments. *)

From S2P Require Import Prelude CLib Json LogicValue ExprParser Waveform ExprEval ClockSampling Cursor SignalList Engine InternalRequest SchemaValidator Xout XoutRender Stream StreamQuery Apb Axi AxiActions WaveState ClockActions SignalAnalysis.

Open Scope Z_scope.

Record ValueEntry := MkValueEntry { ve_key : bytes; ve_path : bytes }.
Definition direct_entry (path : bytes) : ValueEntry := MkValueEntry path path.
Definition configured_entry (kp : bytes * bytes) : ValueEntry := MkValueEntry (fst kp) (snd kp).
Record ValueSource := MkValueSource { vs_kind : bytes; vs_name : bytes; vs_entries : list ValueEntry }.

(** The change scan of the backend: the rows and the diagnostics. *)
Class ChangeScan (W : Type) := { cw_scan_changes : W -> Z -> Z -> Z -> Z -> option (list SignalChange * ScanDiagnostics) }.

(** [j[index]] of a value the program does not change. *)
Definition json_index (i : nat) (j : json) : res json :=
  match j with
  | JArray l => match l !! i with Some v => Ret v | None => UB end
  | _ => Throw "type_error.305"
  end.

(** ** Slices *)

(** The slices of [chunk] bits of a value, lowest first, at 32 bits. *)
Fixpoint slice_loop (fuel : nat) (slice chunk width : Z) : list (Z * Z * Z) :=
  match fuel with
  | O => []
  | S fuel' =>
      let lsb := u32 (slice * chunk) in
      if width <=? lsb then []
      else (slice, Z.min (u32 (width - 1)) (u32 (lsb + chunk - 1)), lsb) :: slice_loop fuel' (slice + 1) chunk width
  end.
Definition slice_json (s : Z * Z * Z) : json :=
  let '(slice, msb, lsb) := s in
  jobj [(lit "index", JUint slice); (lit "range", JString (lit "[" ++ udec msb ++ lit ":" ++ udec lsb ++ lit "]"))].
Definition slice_command (raw_value : bytes) (s : Z * Z * Z) : json :=
  let '(slice, msb, lsb) := s in
  JString (lit "tools/xbit slice " ++ [chr 34] ++ raw_value ++ [chr 34] ++ lit " " ++ udec msb ++ lit " " ++ udec lsb ++ lit " --json").

Section Values.
Context {W V : Type} `{EngineWave W} `{ChangeScan W} (trunc : bytes -> Z) (real_to_string : Z -> bytes).
Context (apb : ApbState V) (streams : StreamState V) (axi : AxiState V).
Abbreviation St := (WaveState W).

(** ** Selectors *)

Definition configured (kind_ shown : string) (entries : bytes -> option (list (bytes * bytes))) (name : bytes) : json + ValueSource :=
  match entries name with
  | Some configured => inr (MkValueSource (lit kind_) name (map configured_entry configured))
  | None => inl (error_response (lit "CONFIG_NOT_FOUND") (lit shown ++ lit " config not found: " ++ name))
  end.
Definition source_entries (args : json) (lists : ListManager) : res (json + ValueSource) :=
  if jcontains (lit "signal") args then
    name ← string_at (lit "signal") args;
    Ret (inr (MkValueSource (lit "signal") name [direct_entry name]))
  else if jcontains (lit "list") args then
    name ← string_at (lit "list") args;
    Ret (match lm_get lists name with
         | None => inl (error_response (lit "LIST_NOT_FOUND") (lit "list not found: " ++ name))
         | Some l =>
             match sl_signals l with
             | [] => inl (error_response (lit "EMPTY_VALUE_SOURCE") (lit "list has no entries: " ++ name))
             | signals => inr (MkValueSource (lit "list") name (map direct_entry signals))
             end
         end)
  else if jcontains (lit "apb") args then
    name ← string_at (lit "apb") args; Ret (configured "apb" "APB" (fun n => apb_value_source_entries n apb) name)
  else if jcontains (lit "stream") args then
    name ← string_at (lit "stream") args; Ret (configured "stream" "stream" (fun n => stream_value_source_entries n streams) name)
  else
    name ← string_at (lit "axi") args; Ret (configured "axi" "AXI" (fun n => axi_value_source_entries n axi) name).

(** ** value.at *)

Definition requested_times (args : json) : res (list bytes) :=
  if jcontains (lit "time") args then t ← string_at (lit "time") args; Ret [t]
  else times ← at_key (lit "times") args; map_res as_string (json_items times).
Fixpoint parse_ticks (w : W) (texts : list bytes) : json + list Z :=
  match texts with
  | [] => inr []
  | t :: texts' =>
      match ew_parse_time w t false with
      | inl message => inl (error_response (lit "INVALID_TIME") message)
      | inr tick => match parse_ticks w texts' with inl e => inl e | inr ticks => inr (tick :: ticks) end
      end
  end.

Definition entry_json (e : ValueEntry) : json :=
  jobj [(lit "key", JString (ve_key e)); (lit "kind", JString (lit "signal")); (lit "path", JString (ve_path e))].
Definition load_entry (e : ValueEntry) : trial json St Z :=
  ref ← find_wave_signal (ve_path e);
  if ref =? 0 then mret ref else _ ← load_wave_signal ref; mret ref.

(** An entry without a handle, without metadata or without a width. *)
Definition width_missing (w : W) (ref : Z) : bool :=
  (ref =? 0) || match ew_signal_info w ref with
                | None => true
                | Some info => bool_decide (si_encoding info = BitVector) && (si_width info =? 0)
                end.
Definition width_diagnostics (w : W) (entries : list (ValueEntry * Z)) : list json :=
  map (fun e => jobj [(lit "signal", JString (ve_path (fst e))); (lit "role", JString (ve_key (fst e)));
                      (lit "reason", JString (lit "npi_range_size_unavailable"))])
    (List.filter (fun e => width_missing w (snd e)) entries).

Definition xbit_hints (args : json) (path : bytes) (width : Z) (shown : json) : res json :=
  hint ← at_key (lit "slice_hint") args;
  chunk_json ← at_key (lit "chunk_width") hint;
  chunk ← as_number trunc u32 chunk_json;
  requested_count ← value_or (as_number trunc u32) (lit "count") 1 hint;
  raw_value ← string_at (lit "value") shown;
  let slices := slice_loop (Z.to_nat requested_count) 0 chunk width in
  Ret (jobj [(lit "status", JString (lit "ready")); (lit "signal", JString path); (lit "raw_value", JString raw_value);
             (lit "chunk_width", JUint chunk); (lit "count", JUint (zlen slices)); (lit "slices", JArray (map slice_json slices));
             (lit "commands", JArray (map (slice_command raw_value) slices))]).

(** The cell of an entry: missing at a time without an edge of the clock. *)
Definition value_cell (w : W) (args : json) (fmt : ValueRenderFormat) (ti : Z) (point : ObservationPoint) (no_edge : bool)
    (e : ValueEntry * Z) : res json :=
  let '(entry, ref) := e in
  let cell status := jobj [(lit "key", JString (ve_key entry)); (lit "status", JString (lit status))] in
  if ref =? 0 then Ret (cell "signal_not_found")
  else if no_edge then Ret (cell "missing_value")
  else
    let info := default si_default (ew_signal_info w ref) in
    match sb_sampled_value_at w ref ti point with
    | None => Ret (cell "missing_value")
    | Some sampled =>
        let shown := typed_logic_value real_to_string (sv_value sampled) (si_width info) fmt in
        let cell := set_key (lit "value") shown (cell "ok") in
        if jcontains (lit "slice_hint") args && (0 <? si_width info)
        then hints ← xbit_hints args (ve_path entry) (si_width info) shown; Ret (set_key (lit "xbit_hints") hints cell)
        else Ret cell
    end.

Definition value_sample (w : W) (args : json) (fmt : ValueRenderFormat) (unit : TimeRenderUnit) (clock : option (bytes * Z))
    (entries : list (ValueEntry * Z)) (tick : Z) : res json :=
  let ti := ew_time_idx_of w tick in
  let time := JString (ew_format_time w tick unit) in
  match clock with
  | None =>
      values ← map_res (value_cell w args fmt ti Raw false) entries;
      Ret (jobj [(lit "time", time); (lit "sampling_mode", JString (lit "raw_time")); (lit "values", JArray values)])
  | Some (clock, clock_ref) =>
      edge ← value_or as_string (lit "edge") (lit "negedge") args;
      requested_point ← value_or as_string (lit "sample_point") [] args;
      let effective_point := expr_point edge requested_point in
      let context := edge_context w clock_ref tick edge in
      values ← map_res (value_cell w args fmt ti (expr_observation effective_point) (eqs (ec_exact context) [])) entries;
      Ret (jobj [(lit "time", time); (lit "sampling_mode", JString (lit "clock_sampled")); (lit "values", JArray values);
                 (lit "clock_context", clock_context_json w unit clock edge requested_point effective_point tick context)])
  end.

Definition value_clock (args : json) : trial json St (option (bytes * Z)) :=
  if jcontains (lit "clock") args then
    clock ← pure_step (string_at (lit "clock") args);
    clock_ref ← find_wave_signal clock;
    if clock_ref =? 0 then stop (error_response (lit "CLOCK_NOT_FOUND") (lit "clock signal not found: " ++ clock))
    else _ ← load_wave_signal clock_ref; mret (Some (clock, clock_ref))
  else mret None.

Definition value_at_action (req : json) : act St json := answered (
  args ← pure_step (at_key (lit "args") req);
  s ← run_step get_state;
  source ← or_stop (source_entries args (ws_lists s));
  fmt ← analysis_format args;
  unit ← parse_analysis_unit args;
  texts ← pure_step (requested_times args);
  w ← wave_now;
  ticks ← or_stop (Ret (parse_ticks w texts));
  refs ← each load_entry (vs_entries source);
  if eqs (vs_kind source) (lit "signal") && match refs with [] => true | ref :: _ => ref =? 0 end
  then stop (error_response (lit "SIGNAL_NOT_FOUND") (lit "signal not found in waveform: " ++ vs_name source))
  else
    let entries := zip (vs_entries source) refs in
    w ← wave_now;
    let diagnostics := width_diagnostics w entries in
    clock ← value_clock args;
    w ← wave_now;
    samples ← pure_step (map_res (value_sample w args fmt unit clock entries) ticks);
    mret (ok_response
      (jobj [(lit "source_kind", JString (vs_kind source)); (lit "source_name", JString (vs_name source));
             (lit "sampling_mode", JString (match clock with Some _ => lit "clock_sampled" | None => lit "raw_time" end));
             (lit "time_count", JUint (zlen ticks)); (lit "entry_count", JUint (zlen entries));
             (lit "value_width_complete", JBool (match diagnostics with [] => true | _ => false end));
             (lit "width_diagnostics", JArray diagnostics)])
      (jobj [(lit "entries", JArray (map entry_json (vs_entries source))); (lit "samples", JArray samples)]))).

(** ** signal.changes *)

Definition in_window (begin end_ : Z) (c : SignalChange) : bool := negb ((sc_time c <? begin) || (end_ <? sc_time c)).
(** The rows of the window, the value at its begin first; whether they start
    with the value at the begin. *)
Definition change_timeline (begin end_ : Z) (initial : option WaveformValue) (scanned : list SignalChange) : list ChangeRow * bool :=
  let inside := List.filter (in_window begin end_) scanned in
  let at_begin := existsb (fun c => sc_time c =? begin) inside in
  let rows := map (fun c => MkChangeRow (sc_time c) (sc_value c)) inside in
  match initial with
  | Some v => if at_begin then (rows, true) else (MkChangeRow begin v :: rows, true)
  | None => (rows, at_begin)
  end.

Definition changes_note : bytes :=
  lit "signal.changes returns value-change rows for timeline inspection. " ++
  lit "Do not use row counts as sampled high cycles; use " ++
  lit "signal.statistics.high_cycles for clock-sampled activity.".
Definition changes_answer (w : W) (unit : TimeRenderUnit) (fmt : ValueRenderFormat) (sig mode : bytes) (begin end_ width line_limit : Z)
    (diagnostics : ScanDiagnostics) (final : option WaveformValue) (timeline : list ChangeRow * bool) : json :=
  let '(rows, includes_initial) := timeline in
  let timeline_mode := eqs mode (lit "timeline") in
  let returned_count := if timeline_mode then Z.min (zlen rows) line_limit else 0 in
  let truncated := timeline_mode && (returned_count <? zlen rows) in
  let time t := JString (ew_format_time w t unit) in
  let value v := typed_logic_value real_to_string v width fmt in
  let data := jobj [(lit "begin", time begin); (lit "end", time end_); (lit "includes_initial_value", JBool includes_initial);
                    (lit "semantic_note", JString changes_note); (lit "mode", JString mode)] in
  let data :=
    match includes_initial, final, list.head rows, list.last rows with
    | true, Some final, Some first, Some last =>
        set_key (lit "last_change") (time (cr_time last)) (set_key (lit "first_change") (time (cr_time first))
        (set_key (lit "final_value") (value final) (set_key (lit "initial_value") (value (cr_value first)) data)))
    | _, _, _, _ => data
    end in
  ok_response
    (jobj [(lit "signal", JString sig);
           (lit "actual_transition_count", JUint (zlen rows - (if includes_initial && negb (0 =? zlen rows) then 1 else 0)));
           (lit "scan_complete", JBool (sd_scan_complete diagnostics)); (lit "analysis_complete", JBool (sd_analysis_complete diagnostics));
           (lit "response_truncated", JBool truncated); (lit "total_count", JUint (zlen rows)); (lit "returned_count", JUint returned_count);
           (lit "truncation_scopes", JArray (scope truncated "response_changes"))])
    (if timeline_mode
     then set_key (lit "changes") (JArray (map (fun r => jobj [(lit "time", time (cr_time r)); (lit "value", value (cr_value r))])
                                             (limited returned_count rows))) data
     else data).

Definition signal_changes (req : json) : act St json := answered (
  _ ← wave_required (lit "signal.changes");
  args ← pure_step (value_or Ret (lit "args") (JObject []) req);
  sig ← pure_step (value_or as_string (lit "signal") [] args);
  if eqs sig [] then stop (error_response (lit "MISSING_FIELD") (lit "args.signal is required"))
  else
    ref ← load_signal_or_error sig;
    range ← parse_range args;
    unit ← parse_analysis_unit args;
    fmt ← analysis_format args;
    w ← wave_now;
    let width := si_width (default si_default (ew_signal_info w ref)) in
    let begin_ti := ew_time_idx_of w (fst range) in
    let end_ti := ew_time_idx_of w (snd range) in
    let initial := sv_value <$> sb_sampled_value_at w ref begin_ti Raw in
    let final := sv_value <$> sb_sampled_value_at w ref end_ti Raw in
    match cw_scan_changes w ref begin_ti end_ti 0 with
    | None => stop (error_response (lit "WAVEFORM_READ_FAILED") (lit "failed to scan signal changes: " ++ sig))
    | Some (scanned, diagnostics) =>
        mode ← pure_step (value_or as_string (lit "mode") (lit "timeline") args);
        line_limit ← pure_step (value_or (as_number trunc u32) (lit "line_limit") 1000 args);
        mret (changes_answer w unit fmt sig mode (fst range) (snd range) width line_limit diagnostics final
                (change_timeline (fst range) (snd range) initial scanned))
    end).
End Values.

(** ** The text of value.at *)

Section Render.
Context (dump : json -> bytes).
Local Open Scope rend_scope.

Definition value_text (entry_index : nat) (sample : json) : res bytes :=
  values ← array_of (lit "values") sample;
  if (jsize values <=? entry_index)%nat then Ret (lit "missing_value")
  else
    cell ← json_index entry_index values;
    status ← value_or as_string (lit "status") (lit "missing_value") cell;
    match jget (lit "value") cell with
    | Some v => if eqs status (lit "ok") then json_to_xout_value dump v else Ret status
    | None => Ret status
    end.
Definition value_row (entries : json) (samples : list json) (entry_index : nat) : res (list bytes) :=
  entry ← json_index entry_index entries;
  path ← str_of (lit "path") entry;
  name ← value_or as_string (lit "key") path entry;
  cells ← map_res (value_text entry_index) samples;
  Ret (name :: cells).
Definition sample_context (sample : json) : option json :=
  match jget (lit "clock_context") sample with Some (JObject m) => Some (JObject m) | _ => None end.
Definition dated_context (sample_context : json * json) : res json :=
  time ← str_of (lit "time") (fst sample_context); Ret (set_key (lit "time") (JString time) (snd sample_context)).

Definition render_value_at_xout (response : json) : rend :=
  data <~ object_of (lit "data") response;
  entries <~ array_of (lit "entries") data;
  samples <~ array_of (lit "samples") data;
  emit (emit_header (lit "value.at")) >>>
  times <~ map_res (str_of (lit "time")) (json_items samples);
  rows <~ map_res (value_row entries (json_items samples)) (List.seq 0 (jsize entries));
  section (lit "values") >>> table (lit "name" :: times) rows >>>
  match omap (fun s => pair s <$> sample_context s) (json_items samples) with
  | [] => skip
  | found =>
      contexts <~ map_res dated_context found;
      section (lit "clock_context") >>> emit_json_table dump (JArray contexts) (i32 (zlen contexts))
  end.
End Render.
