(* ===== verification/ListActions.v ===== *)
(** * ListActions: the handlers of signal lists and cursors

    Models the list and cursor handlers of
    [src/engine/actions/waveform/list_event_cursor_actions.cpp] over the
    managers of SignalList.v and Cursor.v. The files a configuration is read
    from, the JSON parser and the printed form of a [double] are arguments. *)

From S2P Require Import Prelude CLib Json LogicValue ExprParser Waveform ExprEval ClockSampling Cursor SignalList Engine InternalRequest SchemaValidator Xout WaveState ClockActions SignalAnalysis.

Open Scope Z_scope.

Definition cursor_metadata (c : WaveformCursor) : json :=
  jobj [(lit "note", JString (cur_note c)); (lit "origin", JString (cur_origin c)); (lit "clock", JString (cur_clock c))].
Definition signal_ok_row (signal : bytes) : json := jobj [(lit "signal", JString signal); (lit "status", JString (lit "ok"))].

(** Conversion to [std::vector<std::string>]. *)
Definition as_strings (j : json) : res (list bytes) :=
  match j with JArray l => map_res as_string l | _ => Throw "type_error.302" end.

Definition list_recommendations : json :=
  JArray (map (fun ap => jobj [(lit "action", JString (lit (fst ap))); (lit "purpose", JString (lit (snd ap)))])
    [("value.at"%string, "读取命名列表在指定时间的值"%string); ("list.show"%string, "显示信号列表内容"%string);
     ("list.validate"%string, "验证列表信号存在性"%string); ("list.first_change"%string, "查找窗口内首次差异"%string);
     ("list.export"%string, "导出列表数据"%string)]).

Section Actions.
Context {W : Type} `{EngineWave W}.
Context (file : bytes -> option bytes) (parse : bytes -> bytes + json) (trunc : bytes -> Z)
  (real_to_string : Z -> bytes) (real_eq : Z -> Z -> bool).
Abbreviation St := (WaveState W).

(** ** The managers *)

Definition set_lists (l : ListManager) (s : St) : St := MkWaveState (ws_wave s) (ws_cursors s) l (ws_events s) (ws_files s).
Definition set_cursors (c : CursorManager) (s : St) : St := MkWaveState (ws_wave s) c (ws_lists s) (ws_events s) (ws_files s).
Definition lists_now : trial json St ListManager := fun s => (Ret (inr (ws_lists s)), s).
Definition cursors_now : trial json St CursorManager := fun s => (Ret (inr (ws_cursors s)), s).
(** A fallible update of the lists: the message, or the new lists. *)
Definition update_lists (f : ListManager -> bytes + ListManager) : trial json St (option bytes) := fun s =>
  match f (ws_lists s) with
  | inl message => (Ret (inr (Some message)), s)
  | inr lists => (Ret (inr None), set_lists lists s)
  end.
Definition update_cursors {A} (f : CursorManager -> A * CursorManager) : trial json St A := fun s =>
  let '(a, c) := f (ws_cursors s) in (Ret (inr a), set_cursors c s).
Definition or_failed (message : option bytes) : trial json St unit :=
  match message with None => mret tt | Some message => stop (error_response (lit "ACTION_FAILED") message) end.

(** The arguments and the name of a request that needs a waveform. *)
Definition named_request (action : bytes) (req : json) : trial json St (json * bytes) :=
  _ ← wave_required action;
  args ← pure_step (value_or Ret (lit "args") (JObject []) req);
  name ← pure_step (value_or as_string (lit "name") [] args);
  if eqs name [] then stop (error_response (lit "MISSING_FIELD") (lit "args.name is required for " ++ action))
  else mret (args, name).
Definition known_list (name : bytes) : trial json St SignalList :=
  lists ← lists_now;
  match lm_get lists name with
  | Some l => mret l
  | None => stop (error_response (lit "LIST_NOT_FOUND") (lit "list not found: " ++ name))
  end.
Definition known_signal (signal : bytes) : trial json St Z :=
  ref ← find_wave_signal signal;
  if ref =? 0 then stop (error_response (lit "SIGNAL_NOT_FOUND") (lit "signal not found in waveform: " ++ signal)) else mret ref.

(** ** list.create, list.add, list.delete *)

Definition list_create (req : json) : act St json := answered (
  '(args, name) ← named_request (lit "list.create") req;
  items ← pure_step (value_or Ret (lit "signals") (JArray []) args);
  signals ← each (fun item => signal ← pure_step (as_string item); _ ← known_signal signal; mret signal) (json_items items);
  created ← update_lists (fun m => lm_create m name);
  match created with
  | Some message =>
      stop (error_response (if contains_text (lit "already exists") message then lit "LIST_EXISTS" else lit "ACTION_FAILED") message)
  | None =>
      _ ← (match signals with [] => mret tt | _ => added ← update_lists (fun m => lm_add m name signals); or_failed added end);
      mret (ok_response
        (jobj [(lit "name", JString name); (lit "status", JString (lit "created")); (lit "created", JBool true);
               (lit "signal_count", JUint (zlen signals))])
        (jobj [(lit "signals", JArray (map JString signals))]))
  end).

Definition list_add (req : json) : act St json := answered (
  '(args, name) ← named_request (lit "list.add") req;
  _ ← known_list name;
  signal ← pure_step (string_at (lit "signal") args);
  _ ← known_signal signal;
  added ← update_lists (fun m => lm_add m name [signal]);
  _ ← or_failed added;
  mret (ok_response
    (jobj [(lit "name", JString name); (lit "signal", JString signal); (lit "status", JString (lit "added")); (lit "added", JBool true)])
    (JObject []))).

Definition removed_signal (args : json) (signals : list bytes) : res (json + bytes) :=
  if jcontains (lit "signal") args then
    removed ← string_at (lit "signal") args;
    Ret (if existsb (fun s => eqs s removed) signals then inr removed
         else inl (error_response (lit "SIGNAL_NOT_FOUND") (lit "signal not found in list: " ++ removed)))
  else
    index_json ← at_key (lit "index") args;
    index ← as_number trunc u64 index_json;
    if (index =? 0) || (zlen signals <? index) then Ret (inl (error_response (lit "INDEX_OUT_OF_RANGE") (lit "list index is out of range")))
    else match signals !! Z.to_nat (index - 1) with Some removed => Ret (inr removed) | None => UB end.
Definition list_delete (req : json) : act St json := answered (
  '(args, name) ← named_request (lit "list.delete") req;
  l ← known_list name;
  removed ← or_stop (removed_signal args (sl_signals l));
  gone ← update_lists (fun m => lm_remove m name [removed]);
  _ ← or_failed gone;
  mret (ok_response (jobj [(lit "name", JString name); (lit "deleted", JBool true); (lit "removed", JString removed)]) (JObject []))).

(** ** list.load *)

Definition read_json (path : bytes) (cannot_open : bytes) : json + json :=
  match file path with
  | None => inl (error_response (lit "CONFIG_READ_FAILED") cannot_open)
  | Some contents => match parse contents with
                     | inl what => inl (error_response (lit "CONFIG_PARSE_FAILED") what)
                     | inr config => inr config
                     end
  end.
Definition list_config (args : json) : res (json + json) :=
  if jcontains (lit "config") args then config ← at_key (lit "config") args; Ret (inr config)
  else path ← string_at (lit "config_path") args; Ret (read_json path (lit "cannot open list config")).

Definition check_list_item (item : json) : trial json St unit :=
  signals ← pure_step (at_key (lit "signals") item);
  _ ← each (fun j => signal ← pure_step (as_string j); known_signal signal) (json_items signals);
  mret tt.
(** The name and the validation of a list that was loaded. *)
Definition load_list_item (mode : bytes) (item : json) : trial json St (bytes * json) :=
  name ← pure_step (string_at (lit "name") item);
  signals ← pure_step (j ← at_key (lit "signals") item; as_strings j);
  lists ← lists_now;
  _ ← (if eqs mode (lit "replace") && lm_exists lists name then update_lists (fun m => inr (snd (lm_erase m name))) else mret None);
  lists ← lists_now;
  created ← (if lm_exists lists name then mret None else update_lists (fun m => lm_create m name));
  _ ← or_failed created;
  added ← update_lists (fun m => lm_add m name signals);
  _ ← or_failed added;
  mret (name, jobj [(lit "name", JString name); (lit "status", JString (lit "ok")); (lit "signals", JArray (map signal_ok_row signals))]).
Definition list_load (req : json) : act St json := answered (
  _ ← wave_required (lit "list.load");
  args ← pure_step (value_or Ret (lit "args") (JObject []) req);
  config ← or_stop (list_config args);
  mode ← pure_step (value_or as_string (lit "mode") (lit "replace") args);
  lists ← pure_step (at_key (lit "lists") config);
  _ ← each check_list_item (json_items lists);
  loaded ← each (load_list_item mode) (json_items lists);
  mret (ok_response (jobj [(lit "loaded", JUint (zlen loaded)); (lit "mode", JString mode)])
          (jobj [(lit "lists", JArray (map (fun l => JString (fst l)) loaded)); (lit "validation", JArray (map snd loaded));
                 (lit "recommended_actions", list_recommendations)]))).

(** ** list.show, list.validate *)

Definition list_show (req : json) : act St json := answered (
  '(_, name) ← named_request (lit "list.show") req;
  l ← known_list name;
  mret (ok_response (jobj [(lit "name", JString (sl_name l)); (lit "signal_count", JUint (zlen (sl_signals l)))])
          (jobj [(lit "signals", JArray (imap (fun i s => jobj [(lit "index", JUint (Z.of_nat i + 1)); (lit "signal", JString s)]) (sl_signals l)))]))).

Definition list_validate (req : json) : act St json := answered (
  '(_, name) ← named_request (lit "list.validate") req;
  l ← known_list name;
  _ ← each known_signal (sl_signals l);
  mret (ok_response (jobj [(lit "name", JString name); (lit "all_found", JBool true)])
          (jobj [(lit "signals", JArray (map signal_ok_row (sl_signals l)))]))).

(** ** list.first_change *)

Record Candidate := MkCandidate {
  ca_signal : bytes;
  ca_time : Z;
  ca_before : WaveformValue;
  ca_after : WaveformValue;
  ca_width : Z;
}.
(** The first change index of the window whose value differs from the baseline. *)
Fixpoint first_difference (w : W) (ref begin end_ : Z) (baseline : WaveformValue) (indices : list Z) : option (Z * WaveformValue) :=
  match indices with
  | [] => None
  | ti :: indices' =>
      let time := sb_time_at w ti in
      if (time <=? begin) || (end_ <? time) then first_difference w ref begin end_ baseline indices'
      else
        match sb_sampled_value_at w ref ti Raw with
        | None => first_difference w ref begin end_ baseline indices'
        | Some after =>
            if value_equal real_eq baseline (sv_value after) then first_difference w ref begin end_ baseline indices'
            else Some (time, sv_value after)
        end
  end.
Definition candidate_of (begin end_ : Z) (signal : bytes) : trial json St (option Candidate) :=
  ref ← known_signal signal;
  _ ← load_wave_signal ref;
  w ← wave_now;
  let width := si_width (default si_default (ew_signal_info w ref)) in
  mret (baseline ← sb_sampled_value_at w ref (ew_time_idx_of w begin) Raw;
        found ← first_difference w ref begin end_ (sv_value baseline) (sb_time_indices_of w ref);
        Some (MkCandidate signal (fst found) (sv_value baseline) (snd found) width)).
Definition first_time (end_ : Z) (candidates : list Candidate) : Z := foldl (fun t c => Z.min t (ca_time c)) end_ candidates.
Definition first_candidates (end_ : Z) (candidates : list Candidate) : list Candidate :=
  List.filter (fun c => ca_time c =? first_time end_ candidates) candidates.

Definition list_first_change (req : json) : act St json := answered (
  '(args, name) ← named_request (lit "list.first_change") req;
  l ← known_list name;
  range ← pure_step (at_key (lit "time_range") args);
  w ← wave_now;
  begin ← or_stop (signal_bound w range (lit "begin") false (ew_min_time w));
  end_ ← or_stop (signal_bound w range (lit "end") true (ew_max_time w));
  if end_ <? begin then stop (error_response (lit "INVALID_TIME_RANGE") (lit "begin exceeds end"))
  else
    unit ← parse_analysis_unit args;
    fmt ← analysis_format args;
    found ← each (candidate_of begin end_) (sl_signals l);
    w ← wave_now;
    let candidates := omap id found in
    let value v width := typed_logic_value real_to_string v width fmt in
    let changed := map (fun c => jobj [(lit "signal", JString (ca_signal c)); (lit "before_time", JString (ew_format_time w begin unit));
                          (lit "change_time", JString (ew_format_time w (ca_time c) unit)); (lit "before", value (ca_before c) (ca_width c));
                          (lit "after", value (ca_after c) (ca_width c))]) (first_candidates end_ candidates) in
    let found_any := match candidates with [] => false | _ => true end in
    mret (ok_response
      (jobj [(lit "name", JString name); (lit "diff_found", JBool found_any);
             (lit "diff_time", if found_any then JString (ew_format_time w (first_time end_ candidates) unit) else JNull);
             (lit "changed_signal_count", JUint (zlen changed)); (lit "value_width_complete", JBool true);
             (lit "width_diagnostics", JArray [])])
      (jobj [(lit "changed_signals", JArray changed)]))).

(** ** Cursors *)

Definition cursor_set (req : json) : act St json := answered (
  '(args, name) ← named_request (lit "waveform.cursor.set") req;
  w ← wave_now;
  time_text ← pure_step (string_at (lit "time") args);
  match ew_parse_time w time_text false with
  | inl message => stop (error_response (lit "INVALID_TIME") message)
  | inr time =>
      unit ← parse_analysis_unit args;
      _ ← update_cursors (fun m => cm_set m name time);
      m ← cursors_now;
      let rendered := JString (ew_format_time w time unit) in
      let cursor := default (MkCursor [] 0 [] [] [] 0 0) (cm_get m name) in
      mret (ok_response
        (jobj [(lit "name", JString name); (lit "time", rendered); (lit "status", JString (lit "set"));
               (lit "active", JBool (eqs (active_name m) name))])
        (jobj [(lit "resolved_time", jobj [(lit "source", JString (lit "explicit")); (lit "time", rendered)]);
               (lit "metadata", cursor_metadata cursor)]))
  end).

Definition cursor_missing (name : bytes) : json := error_response (lit "CURSOR_NOT_FOUND") (lit "cursor not found: " ++ name).
Definition cursor_get (req : json) : act St json := answered (
  '(args, name) ← named_request (lit "waveform.cursor.get") req;
  m ← cursors_now;
  match cm_get m name with
  | None => stop (cursor_missing name)
  | Some c =>
      unit ← parse_analysis_unit args;
      w ← wave_now;
      mret (ok_response (jobj [(lit "name", JString (cur_name c)); (lit "time", JString (ew_format_time w (cur_time c) unit));
                               (lit "status", JString (lit "found"))])
              (jobj [(lit "metadata", cursor_metadata c)]))
  end).

Definition cursor_list (req : json) : act St json := answered (
  _ ← wave_required (lit "waveform.cursor.list");
  args ← pure_step (value_or Ret (lit "args") (JObject []) req);
  unit ← parse_analysis_unit args;
  m ← cursors_now;
  w ← wave_now;
  let row c := jobj [(lit "name", JString (cur_name c)); (lit "time", JString (ew_format_time w (cur_time c) unit));
    (lit "note", JString (cur_note c)); (lit "origin", JString (cur_origin c)); (lit "clock", JString (cur_clock c));
    (lit "created_at", JUint (created_at c)); (lit "updated_at", JUint (updated_at c))] in
  let rows := map row (cm_all m) in
  mret (ok_response (jobj [(lit "cursor_count", JUint (zlen rows)); (lit "active_cursor", or_null (active_name m))])
          (jobj [(lit "cursors", JArray rows)]))).

Definition cursor_delete (req : json) : act St json := answered (
  '(_, name) ← named_request (lit "waveform.cursor.delete") req;
  removed ← update_cursors (fun m => cm_remove m name);
  if negb removed then stop (cursor_missing name)
  else mret (ok_response (jobj [(lit "name", JString name); (lit "deleted", JBool true); (lit "status", JString (lit "deleted"))]) (JObject []))).

Definition cursor_use (req : json) : act St json := answered (
  '(args, name) ← named_request (lit "waveform.cursor.use") req;
  used ← update_cursors (fun m => cm_use m name);
  match used with
  | None => stop (cursor_missing name)
  | Some c =>
      unit ← parse_analysis_unit args;
      w ← wave_now;
      mret (ok_response (jobj [(lit "status", JString (lit "active")); (lit "active_cursor", JString name);
                               (lit "time", JString (ew_format_time w (cur_time c) unit))])
              (jobj [(lit "metadata", cursor_metadata c)]))
  end).
End Actions.
