(* ===== verification/ListExport.v ===== *)
(** * ListExport: list.export and its binary files

    Models [ListExportHandler] of
    [src/engine/actions/waveform/list_event_cursor_actions.cpp] and the row
    format it writes: 64-bit little-endian words, a time, the value words and
    the words of the mask of known bits. Whether a directory can be made, a
    file opened and so many bytes written to it are arguments. *)

From S2P Require Import Prelude CLib Json LogicValue ExprParser Waveform ExprEval ClockSampling Cursor SignalList InternalRequest SchemaValidator Engine Xout SourceContext WaveState ClockActions SignalAnalysis ListActions.

Open Scope Z_scope.

(** ** Rows *)

Definition export_stem (signal : bytes) (index : nat) : bytes :=
  udec (Z.of_nat index) ++ lit "_" ++ map (fun c => if isalnum c then c else "_"%char) signal.

Definition write_u64_le (value : Z) : bytes :=
  map (fun shift => chr (Z.land (Z.shiftr value shift) 255)) [0; 8; 16; 24; 32; 40; 48; 56].

Definition value_one (state : ascii) : bool := existsb (eqc state) (lit "1Hh").
Definition known_state (state : ascii) : bool := existsb (eqc state) (lit "01LlHh").

(** [values] and [known] while the bits are read from the lowest; writing past
    their end is undefined. *)
Definition set_bit (word : nat) (mask : Z) (b : bool) (words : list Z) : list Z :=
  if b then alter (fun w => Z.lor w mask) word words else words.
Fixpoint logic_loop (bit : nat) (reversed : bytes) (values known : list Z) : res (list Z * list Z) :=
  match reversed with
  | [] => Ret (values, known)
  | state :: reversed' =>
      let word := (bit / 64)%nat in
      let mask := Z.shiftl 1 (Z.of_nat (bit mod 64)) in
      if (length values <=? word)%nat && known_state state then UB
      else logic_loop (S bit) reversed' (set_bit word mask (value_one state) values) (set_bit word mask (known_state state) known)
  end.
Definition logic_row (time : Z) (bits : bytes) (word_count : nat) : res bytes :=
  words ← logic_loop 0 (rev bits) (replicate word_count 0) (replicate word_count 0);
  Ret (write_u64_le time ++ concat (map write_u64_le (fst words)) ++ concat (map write_u64_le (snd words))).

(** ** The handler *)

Section ListFiles.
Context {W : Type} `{EngineWave W}.
Context (trunc : bytes -> Z) (dump_pretty : json -> bytes) (make_dirs : bytes -> option bytes) (can_open : bytes -> bool)
  (room : bytes -> nat -> bool).
Abbreviation St := (WaveState W).

Definition put_file (path contents : bytes) : trial json St unit := fun s =>
  (Ret (inr tt), MkWaveState (ws_wave s) (ws_cursors s) (ws_lists s) (ws_events s) (mset path contents (ws_files s))).
(** An output stream: what was written and whether it is still good. *)
Record OutStream := MkOut { os_contents : bytes; os_good : bool }.
Definition out_put (path : bytes) (o : OutStream) (row : bytes) : OutStream :=
  if os_good o && room path (length (os_contents o ++ row)) then MkOut (os_contents o ++ row) true else MkOut (os_contents o) false.

(** The rows after the first: the stream, the rows written, and whether one failed. *)
Fixpoint export_rows (w : W) (path : bytes) (ref begin end_ : Z) (words : nat) (indices : list Z) (o : OutStream) (rows : Z) :
    res (OutStream * Z * bool) :=
  match indices with
  | [] => Ret (o, rows, true)
  | ti :: indices' =>
      let time := sb_time_at w ti in
      if (time <=? begin) || (end_ <? time) then export_rows w path ref begin end_ words indices' o rows
      else
        match sb_sampled_value_at w ref ti Raw with
        | None => export_rows w path ref begin end_ words indices' o rows
        | Some sampled =>
            row ← logic_row time (text (sv_value sampled)) words;
            let o := out_put path o row in
            if os_good o then export_rows w path ref begin end_ words indices' o (rows + 1) else Ret (o, rows, false)
        end
  end.
Definition first_row (w : W) (path : bytes) (ref begin : Z) (words : nat) : res (OutStream * Z) :=
  match sb_sampled_value_at w ref (ew_time_idx_of w begin) Raw with
  | None => Ret (MkOut [] true, 0)
  | Some baseline =>
      row ← logic_row begin (text (sv_value baseline)) words;
      let o := out_put path (MkOut [] true) row in
      Ret (o, if os_good o then 1 else 0)
  end.

Definition word_count (width : Z) : Z := Z.max 1 (u32 (width + 63) / 64).
(** The entry of the manifest and the number of rows. *)
Definition export_signal (output_dir : bytes) (begin end_ : Z) (item : nat * bytes) : trial json St (json * Z) :=
  let '(i, signal) := item in
  ref ← known_signal signal;
  _ ← load_wave_signal ref;
  w ← wave_now;
  let info := default si_default (ew_signal_info w ref) in
  if negb (bool_decide (si_encoding info = BitVector))
  then stop (error_response (lit "UNSUPPORTED_VALUE_TYPE") (lit "u64bin requires a bit-vector signal: " ++ signal))
  else
    let words := word_count (si_width info) in
    let filename := export_stem signal i ++ lit ".u64bin" in
    let path := join_paths output_dir filename in
    if negb (can_open path) then stop (error_response (lit "EXPORT_FAILED") (lit "cannot create export file: " ++ filename))
    else
      '(o, rows) ← pure_step (first_row w path ref begin (Z.to_nat words));
      '(o, rows, ok) ← pure_step (export_rows w path ref begin end_ (Z.to_nat words) (sb_time_indices_of w ref) o rows);
      _ ← put_file path (os_contents o);
      if negb ok then stop (error_response (lit "EXPORT_FAILED") (lit "failed to write: " ++ filename))
      else mret (jobj [(lit "index", JUint (Z.of_nat i)); (lit "signal", JString signal); (lit "file", JString filename);
                       (lit "row_count", JUint rows); (lit "width", JUint (si_width info)); (lit "word_count", JUint words);
                       (lit "columns", JUint (1 + words * 2))], rows).

Definition export_preview (name : bytes) (begin end_ : bytes) (line_limit : Z) (signals : list bytes) : json :=
  let returned := Z.min (zlen signals) (u64 line_limit) in
  let truncated := returned <? zlen signals in
  ok_response
    (jobj [(lit "name", JString name); (lit "row_count", JInt 0); (lit "format", JString (lit "u64bin.v1")); (lit "begin", JString begin);
           (lit "end", JString end_); (lit "status", JString (lit "preview")); (lit "output_written", JBool false);
           (lit "line_limit", JInt line_limit); (lit "scan_complete", JBool true); (lit "analysis_complete", JBool true);
           (lit "response_truncated", JBool truncated); (lit "total_count", JUint (zlen signals)); (lit "returned_count", JUint returned);
           (lit "truncation_scopes", JArray (scope truncated "response_signals"))])
    (jobj [(lit "signals", JArray (imap (fun i s => jobj [(lit "index", JUint (Z.of_nat i)); (lit "signal", JString s)]) (limited returned signals)))]).

Definition export_manifest (name begin end_ : bytes) (entries : list json) (row_count : Z) : json :=
  jobj [(lit "version", JInt 1); (lit "format", JString (lit "u64bin.v1")); (lit "list", JString name); (lit "begin", JString begin);
        (lit "end", JString end_); (lit "time_unit", JString (lit "waveform_tick"));
        (lit "row_layout", JString (lit "uint64_le: time_tick, value_words, known_mask_words")); (lit "signals", JArray entries);
        (lit "signal_count", JUint (zlen entries)); (lit "row_count", JUint row_count)].

Definition has_output_path (args : json) : bool :=
  match jget (lit "output") args with Some output => jcontains (lit "path") output | None => false end.

Definition list_export (req : json) : act St json := answered (
  '(args, name) ← named_request (lit "list.export") req;
  l ← known_list name;
  range ← parse_range args;
  unit ← parse_analysis_unit args;
  w ← wave_now;
  let begin := ew_format_time w (fst range) unit in
  let end_ := ew_format_time w (snd range) unit in
  if negb (has_output_path args) then
    line_limit ← pure_step (value_or (as_number trunc i32) (lit "line_limit") 16 args);
    mret (export_preview name begin end_ line_limit (sl_signals l))
  else
    output_dir ← pure_step (output ← at_key (lit "output") args; string_at (lit "path") output);
    match make_dirs output_dir with
    | Some message => stop (error_response (lit "EXPORT_FAILED") message)
    | None =>
        exported ← each (export_signal output_dir (fst range) (snd range)) (imap pair (sl_signals l));
        let row_count := foldl Z.add 0 (map snd exported) in
        let manifest_path := join_paths output_dir (lit "manifest.json") in
        let o := out_put manifest_path (MkOut [] (can_open manifest_path))
                   (dump_pretty (export_manifest name begin end_ (map fst exported) row_count) ++ [newline]) in
        _ ← (if can_open manifest_path then put_file manifest_path (os_contents o) else mret tt);
        if negb (os_good o) then stop (error_response (lit "EXPORT_FAILED") (lit "cannot write manifest"))
        else
          let total := zlen (sl_signals l) in
          mret (ok_response
            (jobj [(lit "name", JString name); (lit "row_count", JUint row_count); (lit "format", JString (lit "u64bin.v1"));
                   (lit "begin", JString begin); (lit "end", JString end_); (lit "status", JString (lit "written"));
                   (lit "output_written", JBool true);
                   (lit "output", jobj [(lit "path", JString output_dir); (lit "manifest_path", JString manifest_path)]);
                   (lit "scan_complete", JBool true); (lit "analysis_complete", JBool true); (lit "response_truncated", JBool false);
                   (lit "total_count", JUint total); (lit "returned_count", JUint total); (lit "truncation_scopes", JArray [])])
            (JObject []))
    end).
End ListFiles.

(** ** The files of list.export

    A row of a [u64bin] file, read back as 64-bit words, gives the time, the
    bits and the mask of the known bits it was written from. *)

(** A reader of the format: little-endian words. *)
Definition read_u64_le (b : bytes) : Z := foldr (fun c acc => code c + 256 * acc) 0 b.
Fixpoint read_words (n : nat) (row : bytes) : list Z :=
  match n with
  | O => []
  | S n' => read_u64_le (take 8 row) :: read_words n' (drop 8 row)
  end.
(** Bit [i] of a vector of words. *)
Definition word_bit (words : list Z) (i : nat) : bool := Z.testbit (nth (i / 64)%nat words 0) (Z.of_nat (i mod 64)).

Lemma code_chr z : 0 <= z < 256 -> code (chr z) = z.
Proof. intros Hz. unfold code, chr. rewrite N_ascii_embedding by lia. lia. Qed.
Lemma write_u64_length v : length (write_u64_le v) = 8%nat.
Proof. done. Qed.

Lemma read_write_u64 v : 0 <= v < 2 ^ 64 -> read_u64_le (write_u64_le v) = v.
Proof.
  intros Hv. unfold read_u64_le, write_u64_le. cbn [map foldr].
  assert (forall z, code (chr (Z.land z 255)) = z mod 256) as E.
  { intros z. change 255 with (Z.ones 8). rewrite Z.land_ones by lia. apply code_chr. pose proof (Z.mod_pos_bound z 256). change (2 ^ 8) with 256. lia. }
  rewrite !E, !Z.shiftr_div_pow2 by lia.
  change (2 ^ 0) with 1. change (2 ^ 8) with 256. change (2 ^ 16) with 65536. change (2 ^ 24) with 16777216. change (2 ^ 32) with 4294967296.
  change (2 ^ 40) with 1099511627776. change (2 ^ 48) with 281474976710656. change (2 ^ 56) with 72057594037927936. change (2 ^ 64) with 18446744073709551616 in Hv.
  Z.to_euclidean_division_equations. lia.
Qed.

Lemma read_words_write words : Forall (fun v => 0 <= v < 2 ^ 64) words -> forall rest,
  read_words (length words) (concat (map write_u64_le words) ++ rest) = words.
Proof.
  induction 1 as [|v words Hv Hw IH]; intros rest; [done|]. cbn [map concat length read_words].
  rewrite <- app_assoc, take_app_length', drop_app_length', read_write_u64 by done. by rewrite IH.
Qed.
Lemma write_words_length words : length (concat (map write_u64_le words)) = (8 * length words)%nat.
Proof. induction words as [|v words IH]; [done|]. cbn [map concat length]. rewrite length_app, IH, write_u64_length. lia. Qed.

(** The words hold one bit for each state read so far, the lowest first. *)
Record packed (P : ascii -> bool) (n : nat) (states : bytes) (words : list Z) : Prop := {
  pk_length : length words = n;
  pk_range : Forall (fun v => 0 <= v < 2 ^ 64) words;
  pk_bits : forall i, (i < 64 * n)%nat -> word_bit words i = match states !! i with Some c => P c | None => false end;
}.

Lemma packed_zero P n : packed P n [] (replicate n 0).
Proof.
  split; [apply length_replicate|apply Forall_replicate; lia|]. intros i Hi. unfold word_bit. rewrite nth_lookup.
  destruct (replicate n 0 !! (i / 64)%nat) as [v|] eqn:E; [|by rewrite Z.testbit_0_l]. apply lookup_replicate in E as [-> _]. apply Z.testbit_0_l.
Qed.

Lemma lor_range v k : 0 <= v < 2 ^ 64 -> 0 <= k < 64 -> 0 <= Z.lor v (2 ^ k) < 2 ^ 64.
Proof.
  intros Hv Hk. assert (0 <= Z.lor v (2 ^ k)) by (apply Z.lor_nonneg; lia). split; [done|].
  destruct (decide (Z.lor v (2 ^ k) = 0)) as [-> |Hne]; [lia|]. apply Z.log2_lt_pow2; [lia|].
  rewrite Z.log2_lor by lia. rewrite Z.log2_pow2 by lia. apply Z.max_lub_lt; [|lia].
  destruct (decide (v = 0)) as [-> |]; [done|]. apply Z.log2_lt_pow2; lia.
Qed.

Lemma packed_step P n states words c : packed P n states words -> (length states < 64 * n)%nat ->
  packed P n (states ++ [c]) (set_bit (length states / 64) (Z.shiftl 1 (Z.of_nat (length states mod 64))) (P c) words).
Proof.
  intros [Hl Hr Hb] Hn. set (k := length states) in *.
  assert (k / 64 < n)%nat as Hk by (apply Nat.Div0.div_lt_upper_bound; lia).
  pose proof (Nat.mod_upper_bound k 64 ltac:(lia)) as Hm. rewrite Z.shiftl_1_l.
  assert (forall i, i <> k -> (states ++ [c]) !! i = states !! i) as Hout.
  { intros i Hi. destruct (decide (i < k)%nat); [by apply lookup_app_l|]. rewrite !lookup_ge_None_2; [done|lia|rewrite length_app; cbn; lia]. }
  destruct (P c) eqn:Pc; cbn [set_bit].
  - split.
    + by rewrite length_alter.
    + apply Forall_alter; [done|]. intros v _ Hv. apply lor_range; [done|lia].
    + intros i Hi. unfold word_bit. rewrite nth_lookup. destruct (decide (i / 64 = k / 64)%nat) as [E|E].
      * rewrite E, list_lookup_alter_eq. destruct (lookup_lt_is_Some_2 words (k / 64)) as [v Hv]; [lia|]. rewrite Hv. cbn [fmap option_fmap option_map from_option id].
        rewrite Z.lor_spec, Z.pow2_bits_eqb by lia. specialize (Hb i Hi). unfold word_bit in Hb. rewrite nth_lookup, E, Hv in Hb. cbn [from_option id] in Hb. rewrite Hb.
        destruct (decide (i = k)) as [-> |Hik].
        -- rewrite lookup_app_r by lia. fold k. rewrite Nat.sub_diag. cbn. rewrite lookup_ge_None_2 by lia. by rewrite Z.eqb_refl, Pc.
        -- rewrite Hout by done. rewrite (proj2 (Z.eqb_neq _ _)); [by rewrite orb_false_r|].
           intros Ez. apply Hik. rewrite (Nat.div_mod_eq i 64), (Nat.div_mod_eq k 64). lia.
      * rewrite list_lookup_alter_ne by done. rewrite Hout by (intros ->; done). rewrite <- Hb by done. unfold word_bit. by rewrite nth_lookup.
  - split; [done..|]. intros i Hi. rewrite Hb by done. destruct (decide (i = k)) as [-> |Hik]; [|by rewrite Hout].
    rewrite lookup_ge_None_2 by lia. rewrite lookup_app_r by lia. fold k. by rewrite Nat.sub_diag, <- Pc.
Qed.

Lemma value_one_known c : value_one c = true -> known_state c = true.
Proof. revert c. apply ascii_forall_impl. vm_compute. reflexivity. Qed.

Lemma logic_loop_packed n suffix : forall states values known_,
  packed value_one n states values -> packed known_state n states known_ -> (length (states ++ suffix) <= 64 * n)%nat ->
  exists values' known', logic_loop (length states) suffix values known_ = Ret (values', known') /\
    packed value_one n (states ++ suffix) values' /\ packed known_state n (states ++ suffix) known'.
Proof.
  induction suffix as [|c suffix IH]; intros states values known_ Hv Hk Hn.
  - exists values, known_. by rewrite app_nil_r.
  - rewrite length_app in Hn. cbn [length] in Hn. cbn [logic_loop].
    assert ((length values <=? length states / 64)%nat = false) as ->.
    { apply Nat.leb_gt. rewrite (pk_length _ _ _ _ Hv). apply Nat.Div0.div_lt_upper_bound. lia. }
    cbn [andb].
    destruct (IH (states ++ [c]) _ _ (packed_step _ _ _ _ c Hv ltac:(lia)) (packed_step _ _ _ _ c Hk ltac:(lia))) as (v' & k' & E & H1 & H2).
    + rewrite !length_app. cbn. lia.
    + rewrite length_app in E. cbn [length] in E. rewrite Nat.add_1_r in E. exists v', k'. by rewrite <- app_assoc in H1, H2.
Qed.

(** C28: a row of an exported file reads back as what was written: for a time of
    64 bits and a value that fits the words of the row, the row is written, has
    one word for the time and one value and one mask word for each 64 bits, and
    as little-endian words it gives the time, the bits that are one and the
    bits that are known, lowest first, zero beyond the value. *)
Theorem export_row_roundtrip time bits words :
  0 <= time < 2 ^ 64 -> (length bits <= 64 * words)%nat ->
  exists row values known_, logic_row time bits words = Ret row /\ length row = (8 * (1 + 2 * words))%nat /\
    read_words (1 + 2 * words) row = time :: values ++ known_ /\
    packed value_one words (rev bits) values /\ packed known_state words (rev bits) known_.
Proof.
  intros Ht Hb. destruct (logic_loop_packed words (rev bits) [] _ _ (packed_zero value_one words) (packed_zero known_state words)) as (v & k & E & Hv & Hk).
  { cbn. rewrite length_rev. lia. }
  cbn [length app] in *. eexists _, v, k. unfold logic_row. rewrite E. cbn [mbind res_bind fst snd]. split; [reflexivity|].
  pose proof (pk_length _ _ _ _ Hv) as Lv. pose proof (pk_length _ _ _ _ Hk) as Lk. rewrite <- concat_app, <- map_app.
  change (write_u64_le time ++ concat (map write_u64_le (v ++ k))) with (concat (map write_u64_le (time :: v ++ k))). split_and!; [|..|done|done].
  - rewrite write_words_length. cbn [length]. rewrite length_app. lia.
  - rewrite <- (app_nil_r (concat _)). replace (1 + 2 * words)%nat with (length (time :: v ++ k)) by (cbn [length]; rewrite length_app; lia).
    apply read_words_write. constructor; [done|]. apply Forall_app. split; [apply Hv|apply Hk].
Qed.
Lemma export_row_roundtrip_witness : exists row values known_,
  logic_row 300 (lit "1x0") 1 = Ret row /\ length row = 24%nat /\ read_words 3 row = 300 :: values ++ known_ /\
  packed value_one 1 (rev (lit "1x0")) values /\ packed known_state 1 (rev (lit "1x0")) known_ /\ read_words 3 row = [300; 4; 5].
Proof.
  destruct (export_row_roundtrip 300 (lit "1x0") 1) as (row & v & k & E & Hl & Hr & Hv & Hk); [lia|cbn; lia|].
  exists row, v, k. split_and!; try done. vm_compute in E. injection E as <-. vm_compute. reflexivity.
Defined.
