(* ===== verification/EventActions.v ===== *)
(** * EventActions: event configurations, event.find and event.export

    Models the event handlers of
    [src/engine/actions/waveform/list_event_cursor_actions.cpp]. The files, the
    JSON parser and printer, what can be written and the printed form of a
    [double] are arguments. [matches_event] and [find_events_on_signal] of the
    source are not called. *)

From S2P Require Import Prelude CLib Json LogicValue ExprParser Waveform ExprEval WellenBackend ClockSampling Cursor SignalList InternalRequest SchemaValidator Engine Xout SourceContext WaveState ClockActions SignalAnalysis ListActions ListExport.

Open Scope Z_scope.

(** ** Fields *)

(** [std::stoi] that must read the whole text. *)
Definition stoi_all (raw : bytes) : option Z :=
  let '(value, rest, erange) := strtoll 10 raw in
  if erange || negb (length rest =? 0)%nat || (length raw =? 0)%nat || (value <? - 2 ^ 31) || (2 ^ 31 <=? value) then None else Some value.

(** [alias[left:right]]: the message, or the field. *)
Definition keyed {A} (message : bytes) (key : option bytes) : res (bytes + A) := k ← iterator_key key; Ret (inl (message ++ k)).
Definition field_shorthand (key : option bytes) (shorthand : bytes) : res (bytes + json) :=
  match rfind "["%char shorthand, rfind ":"%char shorthand, rfind "]"%char shorthand with
  | Some open, Some colon, Some close =>
      if negb (close =? length shorthand - 1)%nat || (colon <=? open)%nat
      then keyed (lit "event field shorthand must be alias[left:right]: ") key
      else
        let left_text := take (colon - open - 1) (drop (open + 1) shorthand) in
        let right_text := take (close - colon - 1) (drop (colon + 1) shorthand) in
        match stoi_all left_text, stoi_all right_text with
        | Some l, Some r => Ret (inr (jobj [(lit "signal", JString (take open shorthand)); (lit "left", JInt l); (lit "right", JInt r)]))
        | _, _ => keyed (lit "event field shorthand has invalid bounds: ") key
        end
  | _, _, _ => keyed (lit "event field shorthand must be alias[left:right]: ") key
  end.
Definition event_field (key : option bytes) (value : json) : res (bytes + json) :=
  match value with
  | JString shorthand => field_shorthand key shorthand
  | _ =>
      if jcontains (lit "signal") value && jcontains (lit "left") value && jcontains (lit "right") value then Ret (inr value)
      else keyed (lit "event field must contain signal, left, and right: ") key
  end.
Definition add_field (signals : json) (fields : bytes + list (bytes * json)) (item : option bytes * json) : res (bytes + list (bytes * json)) :=
  match fields with
  | inl message => Ret (inl message)
  | inr fields =>
      found ← event_field (fst item) (snd item);
      match found with
      | inl message => Ret (inl message)
      | inr field =>
          alias ← string_at (lit "signal") field;
          if negb (jcontains alias signals) then Ret (inl (lit "field references unknown signal alias: " ++ alias))
          else
            l ← at_key (lit "left") field;
            r ← at_key (lit "right") field;
            key ← iterator_key (fst item);
            Ret (inr (mset key (jobj [(lit "signal", JString alias); (lit "left", l); (lit "right", r)]) fields))
      end
  end.
Definition event_fields (signals input : json) : res (bytes + json) :=
  fields ← foldl (fun acc item => fields ← acc; add_field signals fields item) (Ret (inr [])) (json_iterator input);
  Ret (match fields with inl message => inl message | inr fields => inr (JObject fields) end).

Definition event_config_keys : list bytes := [lit "clock"; lit "edge"; lit "sample_point"; lit "reset"; lit "signals"; lit "fields"].

(** ** Expressions *)

(** A node that names a field stands for the bits of the field. *)
Definition bind_event_name (trunc : bytes -> Z) (signals fields : json) (name : bytes) (keep : bytes -> ExprNode) : res (bytes + ExprNode) :=
  if jcontains name signals then signal ← string_at name signals; Ret (inr (keep signal))
  else if jcontains name fields then
    field ← at_key name fields;
    alias ← string_at (lit "signal") field;
    signal ← string_at alias signals;
    l ← (j ← at_key (lit "left") field; as_number trunc i32 j);
    r ← (j ← at_key (lit "right") field; as_number trunc i32 j);
    Ret (inr (ESlice signal l r))
  else Ret (inl (lit "Unknown alias in expression: " ++ name)).
Fixpoint bind_event_expression (trunc : bytes -> Z) (node : ExprNode) (signals fields : json) : res (bytes + ExprNode) :=
  match node with
  | ESignal s => bind_event_name trunc signals fields s ESignal
  | ESlice s m l => bind_event_name trunc signals fields s (fun signal => ESlice signal m l)
  | EConst v => Ret (inr (EConst v))
  | EUnary op r =>
      bound ← bind_event_expression trunc r signals fields;
      Ret (match bound with inr r => inr (EUnary op r) | inl message => inl message end)
  | EBinary op l r =>
      bound ← bind_event_expression trunc l signals fields;
      match bound with
      | inl message => Ret (inl message)
      | inr l =>
          bound ← bind_event_expression trunc r signals fields;
          Ret (match bound with inr r => inr (EBinary op l r) | inl message => inl message end)
      end
  end.
Definition event_expression (trunc : bytes -> Z) (expr : bytes) (signals fields : json) : res (bytes + ExprNode) :=
  match parse_expression expr with
  | POk (None, message) => Ret (inl message)
  | POk (Some root, _) => bind_event_expression trunc root signals fields
  | PUB => UB
  | PFuel => Throw "unreachable"
  end.

(** The bits [left..right] of a value; a bit outside it is zero. Counting down
    past the least [int] is undefined. *)
Definition field_bits (bits : bytes) (l r : Z) : res bytes :=
  if r <=? - 2 ^ 31 then UB
  else Ret (map (fun bit => let index := zlen bits - 1 - bit in
                            if (0 <=? index) && (index <? zlen bits) then nth (Z.to_nat index) bits "0"%char else "0"%char)
              (rev (seqZ r (l - r + 1)))).

Section Events.
Context {W : Type} `{EngineWave W}.
Context (file : bytes -> option bytes) (parse : bytes -> bytes + json) (trunc : bytes -> Z) (real_to_string : Z -> bytes)
  (dump_pretty : json -> bytes) (make_dirs : bytes -> option bytes) (can_open : bytes -> bool) (room : bytes -> nat -> bool).
Abbreviation St := (WaveState W).

(** ** Configurations *)

Definition set_event (name : bytes) (config : json) (s : St) : St :=
  MkWaveState (ws_wave s) (ws_cursors s) (ws_lists s) (mset name config (ws_events s)) (ws_files s).

(** In these steps [inl] is the message of the refusal. *)
Abbreviation check A := (trial bytes St A).
Definition on_signal (name : bytes) : check Z := fun s =>
  match ws_wave s with
  | None => (UB, s)
  | Some w => let '(ref, w) := ew_find_signal w name in (Ret (inr ref), set_wave w s)
  end.
Fixpoint event_signals (items : list (bytes * json)) : check (list (bytes * json)) :=
  match items with
  | [] => mret []
  | (alias, value) :: items' =>
      match value with
      | JString (c :: path) =>
          if eqs alias [] then stop (lit "event signal aliases and paths must be non-empty strings")
          else
            ref ← on_signal (c :: path);
            if ref =? 0 then stop (lit "signal not found in waveform: " ++ c :: path)
            else rest ← event_signals items'; mret ((alias, value) :: rest)
      | _ => stop (lit "event signal aliases and paths must be non-empty strings")
      end
  end.
Definition event_reset (reset : json) : check unit :=
  match reset with
  | JObject _ =>
      if jcontains (lit "signal") reset && jcontains (lit "polarity") reset then
        signal ← pure_step (string_at (lit "signal") reset);
        ref ← on_signal signal;
        if ref =? 0 then stop (lit "invalid event reset definition") else mret tt
      else stop (lit "invalid event reset definition")
  | _ => stop (lit "invalid event reset definition")
  end.
Definition normalize_event_config (name : bytes) (input : json) : check json :=
  match jget (lit "signals") input with
  | Some (JObject (m :: ms)) =>
      if negb (jcontains (lit "clock") input) then stop (lit "event config requires clock and non-empty signals")
      else
        match List.find (fun k => negb (existsb (eqs k) event_config_keys)) (map fst (members input)) with
        | Some k => stop (lit "unknown event config field: " ++ k)
        | None =>
            clock ← pure_step (string_at (lit "clock") input);
            ref ← on_signal clock;
            if ref =? 0 then stop (lit "clock signal not found: " ++ clock)
            else
              signals ← event_signals (m :: ms);
              let signals := jobj signals in
              field_input ← pure_step (value_or Ret (lit "fields") (JObject []) input);
              fields ← (fun s => (event_fields signals field_input, s) : res (bytes + json) * St);
              edge ← pure_step (value_or as_string (lit "edge") (lit "negedge") input);
              let config := jobj [(lit "name", JString name); (lit "clock", JString clock); (lit "edge", JString edge);
                                  (lit "signals", signals); (lit "fields", fields)] in
              let config := match jget (lit "sample_point") input with Some point => set_key (lit "sample_point") point config | None => config end in
              match jget (lit "reset") input with
              | None => mret config
              | Some reset => _ ← event_reset reset; mret (set_key (lit "reset") reset config)
              end
        end
  | _ => stop (lit "event config requires clock and non-empty signals")
  end.

Definition event_config_list (req : json) : act St json := answered (
  args ← pure_step (value_or Ret (lit "args") (JObject []) req);
  s ← run_step get_state;
  if jcontains (lit "name") args then
    name ← pure_step (string_at (lit "name") args);
    match mget name (ws_events s) with
    | None => stop (error_response (lit "CONFIG_NOT_FOUND") (lit "event config not found: " ++ name))
    | Some config => mret (ok_response (jobj [(lit "status", JString (lit "found"))]) (jobj [(lit "config", config)]))
    end
  else
    limit ← pure_step (value_or (as_number trunc u32) (lit "line_limit") 16 args);
    let total := zlen (ws_events s) in
    let returned := Z.min total limit in
    let truncated := returned <? total in
    mret (ok_response (completeness true true truncated total returned (scope truncated "response_events"))
            (jobj [(lit "events", JArray (map (fun e => JString (fst e)) (limited returned (ws_events s))))]))).

Definition refused {A} (err_code : bytes) (m : check A) : trial json St A := fun s =>
  match m s with
  | (Ret (inr a), s') => (Ret (inr a), s')
  | (Ret (inl message), s') => (Ret (inl (error_response err_code message)), s')
  | (UB, s') => (UB, s')
  | (Throw what, s') => (Throw what, s')
  end.
Definition event_config_load (req : json) : act St json := answered (
  args ← pure_step (value_or Ret (lit "args") (JObject []) req);
  name ← pure_step (value_or as_string (lit "name") [] args);
  if eqs name [] then stop (error_response (lit "MISSING_FIELD") (lit "args.name is required for event.config.load"))
  else
    path ← pure_step (string_at (lit "config_path") args);
    document ← or_stop (Ret (read_json file parse path (lit "cannot open event config")));
    config ← refused (lit "CONFIG_INVALID") (normalize_event_config name document);
    s ← run_step get_state;
    _ ← run_step (put_state (set_event name config s));
    mret (ok_response (jobj [(lit "status", JString (lit "loaded"))]) (jobj [(lit "config", config)]))).

(** ** event.find *)

Definition event_config_of (args : json) (events : list (bytes * json)) : res (json + json) :=
  if jcontains (lit "name") args then
    name ← string_at (lit "name") args;
    Ret (match mget name events with
         | None => inl (error_response (lit "CONFIG_NOT_FOUND") (lit "event config not found"))
         | Some config => inr config
         end)
  else
    clock ← at_key (lit "clock") args;
    edge ← value_or as_string (lit "edge") (lit "negedge") args;
    signals ← at_key (lit "signals") args;
    let config := jobj [(lit "clock", clock); (lit "edge", JString edge); (lit "signals", signals); (lit "fields", JObject [])] in
    let copy k config := match jget k args with Some v => set_key k v config | None => config end in
    Ret (inr (copy (lit "reset") (copy (lit "sample_point") config))).

Definition event_load (signal not_found : bytes) : trial json St Z :=
  ref ← find_wave_signal signal;
  if ref =? 0 then stop (error_response (lit "SIGNAL_NOT_FOUND") not_found)
  else _ ← load_wave_signal ref; mret ref.
(** The reset: its definition and its handle. *)
Definition event_reset_ref (config : json) : trial json St (option (json * Z)) :=
  match jget (lit "reset") config with
  | None => mret None
  | Some reset =>
      signal ← pure_step (string_at (lit "signal") reset);
      ref ← event_load signal (lit "event reset signal not found");
      mret (Some (reset, ref))
  end.
Definition last_char (s : bytes) : option ascii := list.last s.
(** Whether the reset is released at a sample. *)
Definition reset_released (w : W) (reset : option (json * Z)) (ti : Z) (point : ObservationPoint) : res bool :=
  match reset with
  | None => Ret true
  | Some (reset, ref) =>
      match sb_sampled_value_at w ref ti point with
      | None => Ret false
      | Some v =>
          match last_char (text (sv_value v)) with
          | None => Ret false
          | Some c =>
              polarity ← at_key (lit "polarity") reset;
              Ret (eqc c (match polarity with JString p => if eqs p (lit "active_low") then "1"%char else "0"%char | _ => "0"%char end))
          end
      end
  end.

Definition event_value (ti : Z) (point : ObservationPoint) (format : ValueRenderFormat) (item : option bytes * json) :
    trial json St (bytes * json) :=
  signal ← pure_step (as_string (snd item));
  ref ← find_wave_signal signal;
  w ← wave_now;
  let width := si_width (default si_default (ew_signal_info w ref)) in
  let sampled := match sb_sampled_value_at w ref ti point with Some v => sv_value v | None => wv_default end in
  key ← pure_step (iterator_key (fst item));
  mret (key, typed_logic_value real_to_string sampled width format).
(** A field is left out when its signal's printed value is no literal. *)
Definition event_field_value (values : json) (format : ValueRenderFormat) (item : option bytes * json) : res (list (bytes * json)) :=
  alias ← string_at (lit "signal") (snd item);
  value ← at_key alias values;
  value_text ← string_at (lit "value") value;
  literal ← parse_sv_literal value_text;
  match literal with
  | None => Ret []
  | Some logic =>
      l ← (j ← at_key (lit "left") (snd item); as_number trunc i32 j);
      r ← (j ← at_key (lit "right") (snd item); as_number trunc i32 j);
      bits ← field_bits (bits logic) l r;
      key ← iterator_key (fst item);
      Ret [(key, render_value_json bits (zlen bits) format)]
  end.

Record EventScan := MkEventScan { es_samples : Z; es_events : list json; es_complete : bool }.
Record EventQuery := MkEventQuery {
  eq_expression : ExprNode;
  eq_signals : json;
  eq_fields : json;
  eq_reset : option (json * Z);
  eq_point : ObservationPoint;
  eq_format : ValueRenderFormat;
  eq_unit : TimeRenderUnit;
  eq_max_samples : Z;
  eq_first : bool;
}.
(** The event of a sample, if there is one. *)
Definition event_at (q : EventQuery) (ti : Z) : trial json St (option json) :=
  w ← wave_now;
  released ← pure_step (reset_released w (eq_reset q) ti (eq_point q));
  if negb released then mret None
  else
    matched ← evaluate (eq_expression q) ti (eq_point q);
    if negb (known matched) || negb (has_one (bits matched)) then mret None
    else
      values ← each (event_value ti (eq_point q) (eq_format q)) (json_iterator (eq_signals q));
      let values := jobj values in
      fields ← pure_step (map_res (event_field_value values (eq_format q)) (json_iterator (eq_fields q)));
      w ← wave_now;
      mret (Some (jobj [(lit "time", JString (ew_format_time w (sb_time_at w ti) (eq_unit q))); (lit "signals", values);
                        (lit "fields", jobj (concat fields))])).
(** The indices are the selected edges of the clock in the window. *)
Fixpoint scan_events (q : EventQuery) (indices : list Z) (st : EventScan) : trial json St EventScan :=
  match indices with
  | [] => mret st
  | ti :: indices' =>
      if eq_max_samples q <=? es_samples st then mret (MkEventScan (es_samples st) (es_events st) false)
      else
        found ← event_at q ti;
        match found with
        | None => scan_events q indices' (MkEventScan (es_samples st + 1) (es_events st) (es_complete st))
        | Some event =>
            let st := MkEventScan (es_samples st + 1) (es_events st ++ [event]) (es_complete st) in
            if eq_first q then mret st else scan_events q indices' st
        end
  end.

Definition returned_events (mode : bytes) (line_limit : Z) (events : list json) : list json :=
  match list.last events with
  | Some event => if eqs mode (lit "last") then [event] else if eqs mode (lit "first") then events else limited line_limit events
  | None => []
  end.
Definition event_answer (w : W) (unit : TimeRenderUnit) (mode clock edge requested_point : bytes) (named has_end : bool) (begin end_ line_limit : Z)
    (st : EventScan) : res json :=
  let events := es_events st in
  let returned := returned_events mode line_limit events in
  let truncated := eqs mode (lit "all") && (zlen returned <? zlen events) in
  let summary := merge (jobj [(lit "sample_count", JUint (es_samples st)); (lit "mode", JString mode); (lit "inline", JBool (negb named));
      (lit "sampling_mode", JString (lit "clock_edge")); (lit "clock", JString clock);
      (lit "sample_time_semantics", JString (lit "time is sample_time")); (lit "begin", JString (ew_format_time w begin unit));
      (lit "end", JString (if has_end then ew_format_time w end_ unit else lit "max"));
      (lit "value_width_complete", JBool true); (lit "width_diagnostics", JArray [])])
    (completeness (es_complete st) (es_complete st) truncated (zlen events) (zlen returned) (scope truncated "response_events")) in
  summary ← match list.head events, list.last events with
            | Some first, Some last =>
                t ← at_key (lit "time") first;
                t' ← at_key (lit "time") last;
                Ret (set_key (lit "last") t' (set_key (lit "first") t summary))
            | _, _ => Ret summary
            end;
  Ret (ok_response summary (jobj [(lit "events", JArray returned); (lit "sampling", analysis_sampling_contract edge requested_point)])).

Definition event_failed (message : bytes) : json :=
  jobj [(lit "ok", JBool false); (lit "error", jobj [(lit "code", JString (lit "ACTION_FAILED"));
    (lit "cause_code", JString (lit "EVENT_FAILED")); (lit "message", JString message)])].
Definition run_event_find (args : json) : trial json St json :=
  s ← run_step get_state;
  config ← or_stop (event_config_of args (ws_events s));
  clock ← pure_step (string_at (lit "clock") config);
  clock_ref ← find_wave_signal clock;
  if clock_ref =? 0 then stop (error_response (lit "CLOCK_NOT_FOUND") (lit "clock signal not found: " ++ clock))
  else
    _ ← load_wave_signal clock_ref;
    signals ← pure_step (at_key (lit "signals") config);
    fields ← pure_step (value_or Ret (lit "fields") (JObject []) config);
    _ ← each (fun item => signal ← pure_step (as_string (snd item)); event_load signal (lit "event signal not found")) (json_iterator signals);
    reset ← event_reset_ref config;
    expr ← pure_step (string_at (lit "expr") args);
    bound ← pure_step (event_expression trunc expr signals fields);
    match bound with
    | inl message => stop (event_failed message)
    | inr expression =>
        range ← parse_range args;
        range_json ← pure_step (value_or Ret (lit "time_range") (JObject []) args);
        unit ← parse_analysis_unit args;
        format ← analysis_format args;
        edge ← pure_step (value_or as_string (lit "edge") (lit "negedge") config);
        requested_point ← pure_step (value_or as_string (lit "sample_point") [] config);
        mode ← pure_step (value_or as_string (lit "mode") (lit "first") args);
        line_limit ← pure_step (value_or (as_number trunc u32) (lit "line_limit") 16 args);
        max_samples ← pure_step (value_or (as_number trunc u64) (lit "max_samples") u64_max args);
        w ← wave_now;
        let q := MkEventQuery expression signals fields reset (analysis_observation_point edge requested_point) format unit max_samples
                   (eqs mode (lit "first")) in
        st ← scan_events q (List.filter (analysis_edge_at w clock_ref (fst range) (snd range) edge) (sb_time_indices_of w clock_ref))
               (MkEventScan 0 [] true);
        w ← wave_now;
        pure_step (event_answer w unit mode clock edge requested_point (jcontains (lit "name") args) (jcontains (lit "end") range_json)
                     (fst range) (snd range) line_limit st)
    end.
Definition event_find (req : json) : act St json := answered (
  _ ← wave_required (lit "event.find");
  args ← pure_step (at_key (lit "args") req);
  run_event_find args).
End Events.

(** ** Event.export and nwave.rc.generate

    Models [EventExportHandler] and [NwaveRcGenerateHandler] of
    [src/engine/actions/waveform/list_event_cursor_actions.cpp]. *)

(** [j[key] = value] *)
Definition assign_key (k : bytes) (v j : json) : res json :=
  match j with
  | JObject m => Ret (JObject (mset k v m))
  | JNull => Ret (jobj [(k, v)])
  | _ => Throw "type_error.305"
  end.

(** ** Groups of events *)

Definition group_value (event : json) (group : bytes) : res bytes :=
  signals ← at_key (lit "signals") event;
  match jget group signals with
  | Some value => string_at (lit "value") value
  | None =>
      fields ← at_key (lit "fields") event;
      match jget group fields with
      | Some value => string_at (lit "value") value
      | None => Ret (lit "<missing>")
      end
  end.
Fixpoint group_key (event : json) (key : bytes) (groups : list json) : res bytes :=
  match groups with
  | [] => Ret key
  | group_json :: groups' =>
      group ← as_string group_json;
      shown ← group_value event group;
      group_key event ((match key with [] => [] | _ => key ++ lit "|" end) ++ group ++ lit "=" ++ shown) groups'
  end.
Definition count_group (counts : list (bytes * Z)) (key : bytes) : list (bytes * Z) :=
  mset key (u32 (default 0 (mget key counts) + 1)) counts.
Definition group_counts (events : list json) (groups : list json) : res (list (bytes * Z)) :=
  keys ← map_res (fun event => group_key event [] groups) events;
  Ret (foldl count_group [] keys).

Definition event_aggregate (args total_count : json) (events : list json) : res json :=
  let aggregate groups n := jobj [(lit "count", total_count); (lit "groups", groups); (lit "group_count", n)] in
  match jget (lit "aggregate") args with
  | Some requested =>
      match jget (lit "group_by") requested with
      | Some group_by =>
          counts ← group_counts events (json_items group_by);
          Ret (aggregate (JObject (map (fun c => (fst c, JUint (snd c))) counts)) (JUint (zlen counts)))
      | None => Ret (aggregate (JObject []) (JInt 0))
      end
  | None => Ret (aggregate (JObject []) (JInt 0))
  end.

Section Exports.
Context {W : Type} `{EngineWave W}.
Context (file : bytes -> option bytes) (parse : bytes -> bytes + json) (trunc : bytes -> Z) (real_to_string : Z -> bytes)
  (dump_pretty : json -> bytes) (make_dirs : bytes -> option bytes) (can_open : bytes -> bool) (room : bytes -> nat -> bool).
Abbreviation St := (WaveState W).

Definition preview_limit (args : json) (include_events : bool) : res Z :=
  if include_events then value_or (as_number trunc u32) (lit "line_limit") 1000 args else Ret 0.
(** The directory of a file, then the file written as a whole. *)
Definition make_parent (path : bytes) : trial json St unit :=
  match parent_path path with
  | [] => mret tt
  | dir => match make_dirs dir with None => mret tt | Some message => stop (error_response (lit "EXPORT_FAILED") message) end
  end.
Definition write_whole (path contents failure : bytes) : trial json St unit :=
  let o := out_put room path (MkOut [] (can_open path)) contents in
  _ ← (if can_open path then put_file path (os_contents o) else mret tt);
  if os_good o then mret tt else stop (error_response (lit "EXPORT_FAILED") failure).

(** ** event.export *)

Definition includes_events (args : json) : res bool :=
  match jget (lit "aggregate") args with None => Ret true | Some requested => value_or as_bool (lit "events") true requested end.
(** What a preview shows: the events, if they are wanted, up to the limit. *)
Definition preview_summary (limit : Z) (include_events : bool) (events : list json) (summary : json) : json :=
  let set (returned : json) (truncated : bool) : json := set_key (lit "truncation_scopes") (JArray (scope truncated "response_events"))
    (set_key (lit "response_truncated") (JBool truncated) (set_key (lit "returned_count") returned summary)) in
  if include_events then set (JUint (zlen (limited limit events))) (zlen (limited limit events) <? zlen events) else set (JInt 0) false.

Definition event_export (req : json) : act St json := answered (
  _ ← wave_required (lit "event.export");
  args ← pure_step (at_key (lit "args") req);
  query ← pure_step (assign_key (lit "mode") (JString (lit "all")) args);
  max_events ← pure_step (value_or (as_number trunc u32) (lit "max_events") u32_max args);
  query ← pure_step (assign_key (lit "line_limit") (JUint max_events) query);
  result ← run_event_find trunc real_to_string query;
  data ← pure_step (at_key (lit "data") result);
  events_json ← pure_step (at_key (lit "events") data);
  summary ← pure_step (at_key (lit "summary") result);
  total_count ← pure_step (at_key (lit "total_count") summary);
  let events := json_items events_json in
  aggregate ← pure_step (event_aggregate args total_count events);
  sampling ← pure_step (at_key (lit "sampling") data);
  include_events ← pure_step (includes_events args);
  line_limit ← pure_step (value_or (as_number trunc i32) (lit "line_limit") 1000 args);
  let written := has_output_path args in
  let with_aggregate (j : json) : json := if jcontains (lit "aggregate") args then set_key (lit "aggregate") aggregate j else j in
  let summary := set_key (lit "output_written") (JBool written) (set_key (lit "status") (JString (if written then lit "written" else lit "preview"))
    (set_key (lit "line_limit") (JInt line_limit) (set_key (lit "row_count") total_count (set_key (lit "mode") (JString (lit "export")) summary)))) in
  if negb written then
    limit ← pure_step (preview_limit args include_events);
    mret (ok_response (preview_summary limit include_events events summary)
            (with_aggregate (jobj ((lit "sampling", sampling) ::
               if include_events : bool then [(lit "events", JArray (limited limit events))] else []))))
  else
    path ← pure_step (output ← at_key (lit "output") args; string_at (lit "path") output);
    _ ← make_parent path;
    let artifact := with_aggregate (jobj [(lit "events", JArray events); (lit "sampling", sampling); (lit "summary", summary)]) in
    _ ← write_whole path (dump_pretty artifact ++ [newline]) (lit "cannot write event output");
    mret (ok_response
      (set_key (lit "truncation_scopes") (JArray []) (set_key (lit "response_truncated") (JBool false)
        (set_key (lit "returned_count") total_count
        (set_key (lit "output") (jobj [(lit "path", JString path); (lit "file_format", JString (lit "json"))]) summary))))
      (jobj [(lit "sampling", sampling)]))).

(** ** nwave.rc.generate *)

Record RcText := MkRc { rc_lines : list bytes; rc_groups : Z; rc_signals : Z }.
Definition rc_add (line : bytes) (t : RcText) : RcText := MkRc (rc_lines t ++ [line]) (rc_groups t) (rc_signals t).
Definition rc_path (signal : bytes) : bytes := map (fun c => if eqc c "."%char then "/"%char else c) signal.

(** These steps are about the text so far; [None] is a refusal. *)
Definition entry_signal (entry : json) : res bytes :=
  match entry with
  | JString s => Ret s
  | _ => fallback ← value_or as_string (lit "signal") [] entry; value_or as_string (lit "path") fallback entry
  end.
Fixpoint rc_entries (entries : list json) (t : RcText) : trial json St (option RcText) :=
  match entries with
  | [] => mret (Some t)
  | entry :: entries' =>
      signal ← pure_step (entry_signal entry);
      if eqs signal [] then mret None
      else
        ref ← find_wave_signal signal;
        if ref =? 0 then mret None
        else rc_entries entries' (let t := rc_add (lit "addSignal " ++ rc_path signal) t in MkRc (rc_lines t) (rc_groups t) (rc_signals t + 1))
  end.
(** The recursion descends into the subgroups; the fuel is the depth. *)
Fixpoint render_groups (fuel : nat) (groups : list json) (t : RcText) : trial json St (option RcText) :=
  match fuel with
  | O => pure_step (Throw "unreachable")
  | S fuel' =>
      (fix go (groups : list json) (t : RcText) : trial json St (option RcText) :=
        match groups with
        | [] => mret (Some t)
        | group :: rest =>
            match group with
            | JObject _ =>
                if negb (jcontains (lit "name") group) then mret None
                else
                  name ← pure_step (string_at (lit "name") group);
                  let t := rc_add (lit "addGroup " ++ name) (MkRc (rc_lines t) (rc_groups t + 1) (rc_signals t)) in
                  entries ← pure_step (value_or Ret (lit "signals") (JArray []) group);
                  t ← rc_entries (json_items entries) t;
                  match t with
                  | None => mret None
                  | Some t =>
                      t ← (match jget (lit "subgroups") group with
                           | Some subgroups => render_groups fuel' (json_items subgroups) t
                           | None => mret (Some t)
                           end);
                      match t with None => mret None | Some t => go rest t end
                  end
            | _ => mret None
            end
        end) groups t
  end.
Fixpoint json_depth (j : json) : nat :=
  match j with
  | JArray l => S (foldr (fun x n => Nat.max (json_depth x) n) O l)
  | JObject m => S (foldr (fun kv n => Nat.max (json_depth (snd kv)) n) O m)
  | _ => O
  end.

Definition nwave_rc_generate (req : json) : act St json := answered (
  _ ← wave_required (lit "nwave.rc.generate");
  args ← pure_step (value_or Ret (lit "args") (JObject []) req);
  config_path ← pure_step (string_at (lit "config_path") args);
  output_path ← pure_step (output ← at_key (lit "output") args; string_at (lit "path") output);
  config ← or_stop (Ret (read_json file parse config_path (lit "cannot open nWave config")));
  match jget (lit "groups") config with
  | Some (JArray groups) =>
      time_unit ← pure_step (value_or as_string (lit "window_time_unit") (lit "1ns") config);
      time_scale ← pure_step (value_or as_string (lit "file_time_scale") (lit "1ns") config);
      spacing ← pure_step (value_or (as_number trunc i32) (lit "signal_spacing") 5 config);
      let head := [lit "; Generated by xdebug nwave.rc.generate"; lit "; Signal list/view rc only; open the FST separately in nWave.";
                   lit "windowTimeUnit " ++ time_unit; lit "fileTimeScale " ++ time_scale; lit "signalSpacing " ++ to_string spacing] in
      rendered ← render_groups (S (json_depth config)) groups (MkRc head 0 0);
      match rendered with
      | None => stop (error_response (lit "CONFIG_INVALID") (lit "invalid group or signal in nWave config"))
      | Some t =>
          times ← pure_step (value_or Ret (lit "times") (JArray []) config);
          _ ← make_parent output_path;
          _ ← write_whole output_path (concat (map (fun line => line ++ [newline]) (rc_lines t))) (lit "cannot write nWave rc");
          mret (ok_response
            (jobj [(lit "config_path", JString config_path); (lit "output", jobj [(lit "path", JString output_path)]);
                   (lit "group_count", JUint (rc_groups t)); (lit "signal_count", JUint (rc_signals t)); (lit "written", JBool true);
                   (lit "valid", JBool true)])
            (jobj [(lit "validation", jobj [(lit "signals", JUint (rc_signals t)); (lit "times", JUint (Z.of_nat (jsize times)))]);
                   (lit "rc_preview", JArray (map JString (take 5 (rc_lines t))))]))
      end
  | _ => stop (error_response (lit "CONFIG_INVALID") (lit "nWave config requires groups array"))
  end).
End Exports.
