(* ===== verification/WindowVerify.v ===== *)
(** * WindowVerify: verify.conditions and window.verify

    Models [src/engine/actions/combined/window_actions.cpp]: conditions over
    signal aliases, checked at one time or at every sampled edge of a window
    under the modes always, never and eventually. *)

From S2P Require Import Prelude CLib Json LogicValue ExprParser Waveform ExprEval ClockSampling Cursor SignalList InternalRequest SchemaValidator Engine TableWave Xout WaveState ClockActions SignalAnalysis.

Open Scope Z_scope.

Definition truthy (v : LogicValue) : bool := known v && has_one (bits v).

(** ** Conditions *)

Definition bind_alias (aliases : json) (name : bytes) : res (bytes + bytes) :=
  if existsb (eqc "."%char) name
  then Ret (inl (lit "expression operands must be aliases, not direct signal paths: " ++ name ++ lit "; put real signal paths in args.signals"))
  else if negb (jcontains name aliases) then Ret (inl (lit "condition references undeclared signal alias: " ++ name))
  else signal ← string_at name aliases; Ret (inr signal).
Fixpoint bind_aliases (node : ExprNode) (aliases : json) : res (bytes + ExprNode) :=
  match node with
  | ESignal s => name ← bind_alias aliases s; Ret (match name with inr signal => inr (ESignal signal) | inl message => inl message end)
  | ESlice s m l => name ← bind_alias aliases s; Ret (match name with inr signal => inr (ESlice signal m l) | inl message => inl message end)
  | EConst v => Ret (inr (EConst v))
  | EUnary op r => bound ← bind_aliases r aliases; Ret (match bound with inr r => inr (EUnary op r) | inl message => inl message end)
  | EBinary op l r =>
      bound ← bind_aliases l aliases;
      match bound with
      | inl message => Ret (inl message)
      | inr l => bound ← bind_aliases r aliases; Ret (match bound with inr r => inr (EBinary op l r) | inl message => inl message end)
      end
  end.

(** A condition: its JSON, its bound tree and the aliases it names. *)
Record Condition := MkCondition { cd_source : json; cd_root : ExprNode; cd_aliases : list bytes }.
Definition parse_condition (aliases condition : json) : res (json + Condition) :=
  expr ← string_at (lit "expr") condition;
  match parse_expression expr with
  | POk (None, message) => Ret (inl (error_response (lit "PARSE_ERROR") message))
  | POk (Some root, _) =>
      bound ← bind_aliases root aliases;
      Ret (match bound with
           | inl message => inl (error_response (lit "INVALID_FIELD") message)
           | inr bound => inr (MkCondition condition bound (expression_signals root))
           end)
  | PUB => UB
  | PFuel => Throw "unreachable"
  end.

(** ** Verdicts *)

(** A mode that is neither never nor eventually is checked like always. *)
Record CheckState := MkCheckState {
  ck_expr : json;
  ck_mode : bytes;
  ck_root : ExprNode;
  ck_passed : Z;
  ck_failed : Z;
  ck_unknown_samples : Z;
}.
Definition sample_passes (mode : bytes) (v : LogicValue) : bool := if eqs mode (lit "never") then negb (truthy v) else truthy v.
Definition count_sample (c : CheckState) (v : LogicValue) : CheckState :=
  if negb (known v) then MkCheckState (ck_expr c) (ck_mode c) (ck_root c) (ck_passed c) (ck_failed c) (ck_unknown_samples c + 1)
  else if sample_passes (ck_mode c) v then MkCheckState (ck_expr c) (ck_mode c) (ck_root c) (ck_passed c + 1) (ck_failed c) (ck_unknown_samples c)
  else MkCheckState (ck_expr c) (ck_mode c) (ck_root c) (ck_passed c) (ck_failed c + 1) (ck_unknown_samples c).
Definition sample_bad (c : CheckState) (v : LogicValue) : bool := negb (known v) || negb (sample_passes (ck_mode c) v).
Definition is_eventually (c : CheckState) : bool := eqs (ck_mode c) (lit "eventually").

Definition condition_passed (c : CheckState) : bool :=
  if is_eventually c then 0 <? ck_passed c else (ck_failed c =? 0) && (ck_unknown_samples c =? 0).

(** What the loop over the edges keeps; the findings are the bad samples. *)
Record BadSample := MkBadSample { bs_edge : AnalysisEdge; bs_check : CheckState; bs_unknown : bool }.
Record Verify := MkVerify {
  vf_checks : list CheckState;
  vf_samples : Z;
  vf_first : option Z;
  vf_last : option Z;
  vf_findings : list BadSample;
  vf_truncated : bool;
  vf_decisive : bool;
}.

Section Window.
Context {W : Type} `{EngineWave W} (trunc : bytes -> Z).
Abbreviation St := (WaveState W).

(** ** One edge *)

Section Loop.
Context (eval : ExprNode -> Z -> trial json St LogicValue).

(** The conditions at an edge: their new states, the bad samples, and whether
    one that is not eventually was bad, which ends the edge there. *)
Fixpoint check_edge (edge : AnalysisEdge) (checks : list CheckState) : trial json St (list CheckState * list BadSample * bool) :=
  match checks with
  | [] => mret ([], [], false)
  | c :: checks' =>
      v ← eval (ck_root c) (ae_time_idx edge);
      let c' := count_sample c v in
      let bad := if sample_bad c v then [MkBadSample edge c (negb (known v))] else [] in
      if negb (is_eventually c) && sample_bad c v then mret (c' :: checks', bad, true)
      else
        '(rest, found, decisive) ← check_edge edge checks';
        mret (c' :: rest, bad ++ found, decisive)
  end.
Definition all_seen (checks : list CheckState) : bool :=
  existsb is_eventually checks && forallb (fun c => negb (is_eventually c) || (0 <? ck_passed c)) checks.
Fixpoint verify_edges (sample_limit : Z) (edges : list AnalysisEdge) (v : Verify) : trial json St Verify :=
  match edges with
  | [] => mret v
  | edge :: edges' =>
      if sample_limit <=? vf_samples v
      then mret (MkVerify (vf_checks v) (vf_samples v) (vf_first v) (vf_last v) (vf_findings v) true (vf_decisive v))
      else
        '(checks, found, decisive) ← check_edge edge (vf_checks v);
        let v := MkVerify checks (vf_samples v + 1) (match vf_first v with None => Some (ae_time edge) | first => first end) (Some (ae_time edge))
                   (vf_findings v ++ found) false (decisive || all_seen checks) in
        if vf_decisive v then mret v else verify_edges sample_limit edges' v
  end.
Definition new_verify (checks : list CheckState) : Verify := MkVerify checks 0 None None [] false false.
End Loop.

(** ** Inputs *)

Definition window_sampling (args : json) : trial json St (bytes * bytes) :=
  edge ← analysis_edge args;
  requested_point ← pure_step (value_or as_string (lit "sample_point") [] args);
  mret (edge, requested_point).

(** An alias with its handle and its width. *)
Record Operand := MkOperand { op_alias : bytes; op_ref : Z; op_width : Z }.
Definition prepare_operand (path : bytes) (w : W) : (json + (Z * Z)) * W :=
  let '(ref, w) := ew_find_signal w path in
  if ref =? 0 then (inl (error_response (lit "SIGNAL_NOT_FOUND") (lit "signal not found in waveform: " ++ path)), w)
  else
    let '(loaded, w) := if ew_is_loaded w ref then (true, w) else let '(n, w) := ew_load_signals w [ref] in (n =? 1, w) in
    if negb loaded then (inl (error_response (lit "VALUE_NOT_AVAILABLE") (lit "failed to load waveform signal: " ++ path)), w)
    else
      let invalid := inl (error_response (lit "INVALID_SIGNAL_TYPE") (lit "condition operands must resolve to bit-vector signals: " ++ path)) in
      match ew_signal_info w ref with
      | Some info => (if bool_decide (si_encoding info = BitVector) then inr (ref, si_width info) else invalid, w)
      | None => (invalid, w)
      end.
Definition prepare_input (item : option bytes * json) : trial json St Operand :=
  path ← pure_step (as_string (snd item));
  prepared ← with_wave (fun w => let '(r, w) := prepare_operand path w in (Ret r, w));
  alias ← pure_step (iterator_key (fst item));
  mret (MkOperand alias (fst prepared) (snd prepared)).
Definition prepare_inputs (aliases : json) : trial json St (list Operand) := each prepare_input (json_iterator aliases).

Definition window_clock (args : json) : trial json St (bytes * Z) :=
  clock ← pure_step (string_at (lit "clock") args);
  clock_ref ← find_wave_signal clock;
  if clock_ref =? 0 then stop (error_response (lit "CLOCK_NOT_FOUND") (lit "clock signal not found: " ++ clock))
  else _ ← load_wave_signal clock_ref; mret (clock, clock_ref).

(** The conditions and what the handler keeps of each. *)
Fixpoint parse_conditions {A} (keep : Condition -> res A) (aliases : json) (conditions : list json) : res (json + list (Condition * A)) :=
  match conditions with
  | [] => Ret (inr [])
  | condition :: conditions' =>
      parsed ← parse_condition aliases condition;
      match parsed with
      | inl error => Ret (inl error)
      | inr c =>
          a ← keep c;
          rest ← parse_conditions keep aliases conditions';
          Ret (match rest with inl error => inl error | inr cs => inr ((c, a) :: cs) end)
      end
  end.
Definition unused_alias (aliases : json) (conditions : list Condition) : res (option bytes) :=
  keys ← map_res (fun item => iterator_key (fst item)) (json_iterator aliases);
  Ret (List.find (fun k => negb (existsb (eqs k) (concat (map cd_aliases conditions)))) keys).
(** Each alias of the request must be in use. *)
Definition window_conditions {A} (keep : Condition -> res A) (args aliases : json) : trial json St (list A) :=
  conditions_json ← pure_step (at_key (lit "conditions") args);
  conditions ← or_stop (parse_conditions keep aliases (json_items conditions_json));
  unused ← pure_step (unused_alias aliases (map fst conditions));
  match unused with
  | Some k => stop (error_response (lit "INVALID_FIELD") (lit "signal alias is unused by every condition: " ++ k))
  | None => mret (map snd conditions)
  end.

(** ** verify.conditions *)

Inductive CheckStatus := CheckPass | CheckFail | CheckUnknown.
Definition check_status (v : LogicValue) : CheckStatus := if negb (known v) then CheckUnknown else if truthy v then CheckPass else CheckFail.
Definition status_is (a b : CheckStatus) : bool := match a, b with CheckPass, CheckPass | CheckFail, CheckFail | CheckUnknown, CheckUnknown => true | _, _ => false end.
Definition check_json (time : json) (format : ValueRenderFormat) (condition : json) (v : LogicValue) : res json :=
  expr ← at_key (lit "expr") condition;
  let check := jobj [(lit "time", time); (lit "expr", expr); (lit "known", JBool (known v));
    (lit "status", JString (match check_status v with CheckPass => lit "pass" | CheckFail => lit "fail" | CheckUnknown => lit "unknown" end));
    (lit "pass", match check_status v with CheckPass => JBool true | CheckFail => JBool false | CheckUnknown => JNull end);
    (lit "value", logic_value_json v format)] in
  Ret (match jget (lit "name") condition with Some name => set_key (lit "name") name check | None => check end).

Definition verify_conditions (req : json) : act St json := answered (
  args ← pure_step (at_key (lit "args") req);
  aliases ← pure_step (at_key (lit "signals") args);
  '(edge, requested_point) ← window_sampling args;
  w ← wave_now;
  time_text ← pure_step (string_at (lit "time") args);
  match ew_parse_time w time_text false with
  | inl message => stop (error_response (lit "INVALID_TIME") message)
  | inr time =>
      unit ← parse_analysis_unit args;
      format ← analysis_format args;
      _ ← prepare_inputs aliases;
      '(clock, clock_ref) ← window_clock args;
      w ← wave_now;
      let context := edge_context w clock_ref time edge in
      conditions ← window_conditions Ret args aliases;
      let time_json := JString (ew_format_time w time unit) in
      checked ← each (fun c => v ← evaluate (cd_root c) (ew_time_idx_of w time) (analysis_observation_point edge requested_point);
                               check ← pure_step (check_json time_json format (cd_source c) v); mret (check_status v, check)) conditions;
      let count status := zlen (List.filter (fun c => status_is status (fst c)) checked) in
      let all_passed := (count CheckFail =? 0) && (count CheckUnknown =? 0) in
      mret (ok_response
        (jobj [(lit "time", time_json); (lit "execution_ok", JBool true); (lit "verdict", JString (if all_passed then lit "pass" else lit "fail"));
               (lit "condition_count", JUint (zlen checked)); (lit "all_passed", JBool all_passed); (lit "passed", JUint (count CheckPass));
               (lit "failed", JUint (count CheckFail)); (lit "unknown", JUint (count CheckUnknown)); (lit "value_width_complete", JBool true);
               (lit "width_diagnostics", JArray [])])
        (jobj [(lit "checks", JArray (map snd checked));
               (lit "clock_context", clock_context_json w unit clock edge requested_point (expr_point edge requested_point) time context)]))
  end).

(** ** window.verify *)

Definition new_check (c : Condition) : res CheckState :=
  expr ← at_key (lit "expr") (cd_source c);
  mode ← value_or as_string (lit "mode") (lit "always") (cd_source c);
  Ret (MkCheckState expr mode (cd_root c) 0 0 0).
Definition rendered_values (w : W) (operands : list Operand) (ti : Z) (point : ObservationPoint) (format : ValueRenderFormat) : json :=
  jobj (omap (fun o => (fun s => (op_alias o, render_value_json (text (sv_value s)) (op_width o) format)) <$>
                         sb_sampled_value_at w (op_ref o) ti point) operands).
Definition bad_sample_json (w : W) (unit : TimeRenderUnit) (format : ValueRenderFormat) (operands : list Operand) (point : ObservationPoint)
    (b : BadSample) : json :=
  jobj [(lit "time", JString (ew_format_time w (ae_time (bs_edge b)) unit)); (lit "expr", ck_expr (bs_check b));
        (lit "mode", JString (ck_mode (bs_check b))); (lit "status", JString (if bs_unknown b then lit "unknown" else lit "fail"));
        (lit "signals", rendered_values w operands (ae_time_idx (bs_edge b)) point format)].

Definition all_passed (v : Verify) : bool := forallb condition_passed (vf_checks v).
Definition analysis_complete (v : Verify) : bool := vf_decisive v || negb (vf_truncated v).
Definition verdict (v : Verify) : bytes :=
  if negb (analysis_complete v) then lit "inconclusive" else if all_passed v then lit "pass" else lit "fail".
Definition window_answer (w : W) (unit : TimeRenderUnit) (format : ValueRenderFormat) (clock edge requested_point : bytes) (begin end_ line_limit : Z)
    (operands : list Operand) (v : Verify) : json :=
  let point := analysis_observation_point edge requested_point in
  let findings := limited line_limit (vf_findings v) in
  let response_truncated := zlen findings <? zlen (vf_findings v) in
  let time t := match t with Some t => JString (ew_format_time w t unit) | None => JNull end in
  let sum f := foldl Z.add 0 (map f (vf_checks v)) in
  ok_response
    (merge (jobj [(lit "execution_ok", JBool true); (lit "verdict", JString (verdict v));
                  (lit "all_passed", if analysis_complete v then JBool (all_passed v) else JNull); (lit "sample_count", JUint (vf_samples v));
                  (lit "failed_samples", JUint (sum ck_failed)); (lit "unknown_samples", JUint (sum ck_unknown_samples));
                  (lit "proof_begin", time (Some begin)); (lit "proof_end", time (Some end_));
                  (lit "scanned_range", jobj [(lit "begin", time (vf_first v)); (lit "end", time (vf_last v))]);
                  (lit "stop_reason", JString (if vf_decisive v then lit "decisive_result" else if vf_truncated v then lit "max_samples" else lit "window_end"));
                  (lit "sampling_mode", JString (lit "clock_edge")); (lit "clock", JString clock);
                  (lit "sample_time_semantics", JString (lit "time is sample_time"))])
       (completeness (negb (vf_truncated v)) (analysis_complete v) response_truncated (zlen (vf_findings v)) (zlen findings)
          (scope (vf_truncated v) "analysis_samples" ++ scope response_truncated "response_findings")))
    (jobj [(lit "conditions", JArray (map (fun c => jobj [(lit "expr", ck_expr c); (lit "mode", JString (ck_mode c));
              (lit "passed", JBool (condition_passed c)); (lit "pass_samples", JUint (ck_passed c)); (lit "failed_samples", JUint (ck_failed c));
              (lit "unknown_samples", JUint (ck_unknown_samples c))]) (vf_checks v)));
           (lit "findings", JArray (map (bad_sample_json w unit format operands point) findings));
           (lit "sampling", analysis_sampling_contract edge requested_point)]).

Definition window_verify (req : json) : act St json := answered (
  args ← pure_step (at_key (lit "args") req);
  aliases ← pure_step (at_key (lit "signals") args);
  '(edge, requested_point) ← window_sampling args;
  unit ← parse_analysis_unit args;
  format ← analysis_format args;
  range ← parse_range args;
  operands ← prepare_inputs aliases;
  '(clock, clock_ref) ← window_clock args;
  w ← wave_now;
  let edges := collect_analysis_edges w clock_ref (fst range) (snd range) edge in
  checks ← window_conditions new_check args aliases;
  line_limit ← pure_step (value_or (as_number trunc u32) (lit "line_limit") 100 args);
  sample_limit ← pure_step (value_or (as_number trunc u64) (lit "max_samples") u64_max args);
  let point := analysis_observation_point edge requested_point in
  v ← verify_edges (fun e ti => evaluate e ti point) sample_limit edges (new_verify checks);
  w ← wave_now;
  mret (window_answer w unit format clock edge requested_point (fst range) (snd range) line_limit operands v)).
End Window.

(** ** What a window verdict says

    The scan of window.verify against the conditions at all the sampled edges:
    always and never are safety properties of the edges, eventually is a
    liveness property of them. *)

Section Scan.
Context {W : Type} `{EngineWave W}.
Abbreviation St := (WaveState W).
(** Evaluation in states that satisfy [ok] gives [value] and keeps [ok]. *)
Context (eval : ExprNode -> Z -> trial json St LogicValue) (value : ExprNode -> Z -> LogicValue) (ok : St -> Prop)
  (evaluable : ExprNode -> Z -> Prop)
  (eval_ok : forall e ti s, evaluable e ti -> ok s -> exists s', eval e ti s = (Ret (inr (value e ti)), s') /\ ok s').

Definition edge_value (c : CheckState) (edge : AnalysisEdge) : LogicValue := value (ck_root c) (ae_time_idx edge).
(** The condition is met at the edge: known, and true or for never false. *)
Definition met (c : CheckState) (edge : AnalysisEdge) : bool := negb (sample_bad c (edge_value c edge)).

(** ** The scan without the state *)

Fixpoint check_pure (edge : AnalysisEdge) (checks : list CheckState) : list CheckState * list BadSample * bool :=
  match checks with
  | [] => ([], [], false)
  | c :: checks' =>
      let v := edge_value c edge in
      let bad := if sample_bad c v then [MkBadSample edge c (negb (known v))] else [] in
      if negb (is_eventually c) && sample_bad c v then (count_sample c v :: checks', bad, true)
      else let '(rest, found, decisive) := check_pure edge checks' in (count_sample c v :: rest, bad ++ found, decisive)
  end.
Definition verify_step (v : Verify) (edge : AnalysisEdge) : Verify :=
  let '(checks, found, decisive) := check_pure edge (vf_checks v) in
  MkVerify checks (vf_samples v + 1) (match vf_first v with None => Some (ae_time edge) | first => first end) (Some (ae_time edge))
    (vf_findings v ++ found) false (decisive || all_seen checks).
Fixpoint verify_pure (sample_limit : Z) (edges : list AnalysisEdge) (v : Verify) : Verify :=
  match edges with
  | [] => v
  | edge :: edges' =>
      if sample_limit <=? vf_samples v
      then MkVerify (vf_checks v) (vf_samples v) (vf_first v) (vf_last v) (vf_findings v) true (vf_decisive v)
      else if vf_decisive (verify_step v edge) then verify_step v edge else verify_pure sample_limit edges' (verify_step v edge)
  end.

Definition all_evaluable (checks : list CheckState) (edge : AnalysisEdge) : Prop :=
  Forall (fun c => evaluable (ck_root c) (ae_time_idx edge)) checks.
Lemma check_edge_pure edge checks : forall s, all_evaluable checks edge -> ok s ->
  exists s', check_edge eval edge checks s = (Ret (inr (check_pure edge checks)), s') /\ ok s'.
Proof using eval_ok.
  induction checks as [|c checks IH]; intros s He Hs; [by exists s|]. inversion_clear He as [|? ? Hc He'].
  destruct (eval_ok _ _ s Hc Hs) as (s1 & E1 & Hs1). cbn [check_edge check_pure]. unfold mbind, trial_bind. rewrite E1. cbv zeta.
  fold (edge_value c edge). destruct (negb (is_eventually c) && sample_bad c (edge_value c edge)); [by exists s1|].
  destruct (IH s1 He' Hs1) as (s2 & E2 & Hs2). rewrite E2. destruct (check_pure edge checks) as [[rest found] decisive]. by exists s2.
Qed.
Lemma count_sample_root c v : ck_root (count_sample c v) = ck_root c /\ ck_mode (count_sample c v) = ck_mode c.
Proof. unfold count_sample. destruct (known v), (sample_passes (ck_mode c) v); done. Qed.
Lemma check_pure_roots edge checks : map ck_root (check_pure edge checks).1.1 = map ck_root checks /\
  map ck_mode (check_pure edge checks).1.1 = map ck_mode checks.
Proof.
  induction checks as [|c checks [IH1 IH2]]; [done|]. cbn [check_pure]. destruct (count_sample_root c (edge_value c edge)) as [E1 E2].
  destruct (negb (is_eventually c) && _); [cbn; by rewrite E1, E2|].
  destruct (check_pure edge checks) as [[rest found] decisive]. cbn in *. by rewrite E1, E2, IH1, IH2.
Qed.
Lemma evaluable_roots checks checks' edge : map ck_root checks' = map ck_root checks -> all_evaluable checks edge -> all_evaluable checks' edge.
Proof.
  unfold all_evaluable. intros E He. apply (proj1 (list.Forall_fmap ck_root (fun e => evaluable e (ae_time_idx edge)) checks')).
  change (ck_root <$> checks') with (map ck_root checks'). rewrite E. by apply (list.Forall_fmap ck_root (fun e => evaluable e (ae_time_idx edge))).
Qed.
Lemma verify_edges_pure limit edges : forall v s, Forall (all_evaluable (vf_checks v)) edges -> ok s ->
  exists s', verify_edges eval limit edges v s = (Ret (inr (verify_pure limit edges v)), s') /\ ok s'.
Proof using eval_ok.
  induction edges as [|edge edges IH]; intros v s He Hs; [by exists s|]. inversion_clear He as [|? ? Hc He'].
  cbn [verify_edges verify_pure]. destruct (limit <=? vf_samples v); [by exists s|].
  destruct (check_edge_pure edge (vf_checks v) s Hc Hs) as (s1 & E1 & Hs1). unfold mbind, trial_bind. rewrite E1.
  pose proof (proj1 (check_pure_roots edge (vf_checks v))) as Hr. unfold verify_step.
  destruct (check_pure edge (vf_checks v)) as [[checks found] decisive]. cbv zeta. cbn [vf_decisive].
  destruct (decisive || all_seen checks); [by exists s1|]. apply IH; [|done]. cbn [vf_checks].
  eapply list.Forall_impl; [exact He'|]. intros e. by apply evaluable_roots.
Qed.

(** ** Conditions that are counted at every edge *)

Definition counted_at (c : CheckState) (edge : AnalysisEdge) : CheckState := count_sample c (edge_value c edge).
Definition after (edges : list AnalysisEdge) (c : CheckState) : CheckState := foldl counted_at c edges.
Definition fresh (c : CheckState) : Prop := ck_passed c = 0 /\ ck_failed c = 0 /\ ck_unknown_samples c = 0.

Lemma after_same edges : forall c, ck_root (after edges c) = ck_root c /\ ck_mode (after edges c) = ck_mode c.
Proof.
  induction edges as [|e edges IH]; intros c; [done|]. change (after (e :: edges) c) with (after edges (counted_at c e)).
  destruct (IH (counted_at c e)) as [-> ->]. apply count_sample_root.
Qed.
Lemma met_same c c' e : ck_root c' = ck_root c -> ck_mode c' = ck_mode c -> met c' e = met c e.
Proof. unfold met, sample_bad, edge_value. by intros -> ->. Qed.
Lemma eventually_same c c' : ck_mode c' = ck_mode c -> is_eventually c' = is_eventually c.
Proof. unfold is_eventually. by intros ->. Qed.
(** The counts after some edges: those where it is met, and the others. *)
Lemma after_counts edges : forall c, ck_passed (after edges c) = ck_passed c + zlen (List.filter (met c) edges) /\
  ck_failed (after edges c) + ck_unknown_samples (after edges c) =
    ck_failed c + ck_unknown_samples c + zlen (List.filter (fun e => negb (met c e)) edges) /\
  ck_failed c <= ck_failed (after edges c) /\ ck_unknown_samples c <= ck_unknown_samples (after edges c).
Proof.
  induction edges as [|e edges IH]; intros c; [cbn; unfold zlen; cbn; lia|]. change (after (e :: edges) c) with (after edges (counted_at c e)).
  destruct (IH (counted_at c e)) as (IH1 & IH2 & IH3 & IH4). destruct (count_sample_root c (edge_value c e)) as [E1 E2].
  assert (forall x, met (counted_at c e) x = met c x) as Hm by (intros x; by apply met_same).
  rewrite (filter_ext _ _ Hm) in IH1. rewrite (filter_ext _ (fun x => negb (met c x))) in IH2 by (intros x; by rewrite Hm).
  assert (met c e = known (edge_value c e) && sample_passes (ck_mode c) (edge_value c e)) as Em.
  { unfold met, sample_bad. by destruct (known _), (sample_passes _ _). }
  cbn [List.filter]. rewrite Em. set (n := List.filter (met c) edges) in *. set (k := List.filter _ edges) in *.
  unfold counted_at, count_sample in IH1, IH2, IH3, IH4 |- *.
  destruct (known (edge_value c e)), (sample_passes (ck_mode c) (edge_value c e)); cbn in *; rewrite ?zlen_cons; lia.
Qed.
Lemma after_passed edges c : fresh c -> condition_passed (after edges c) =
  if is_eventually c then existsb (met c) edges else forallb (met c) edges.
Proof.
  intros (F1 & F2 & F3). unfold condition_passed. rewrite (eventually_same c) by apply after_same.
  destruct (after_counts edges c) as (H1 & H2 & H3 & H4). rewrite F1 in H1. rewrite F2, F3 in *.
  assert (forall (p : AnalysisEdge -> bool) l, 0 <? zlen (List.filter p l) = existsb p l) as Hex.
  { intros p l. clear. induction l as [|x l IH]; [done|]. cbn. destruct (p x); [|done]. apply Z.ltb_lt. unfold zlen. cbn. lia. }
  destruct (is_eventually c); [rewrite H1; apply (Hex (met c))|].
  assert (forallb (met c) edges = negb (existsb (fun e => negb (met c e)) edges)) as ->.
  { clear. induction edges as [|x l IH]; [done|]. cbn. rewrite IH. by destruct (met c x). }
  rewrite <- Hex. set (n := zlen (List.filter _ edges)) in *. assert (0 <= n) by (unfold n, zlen; lia).
  destruct (0 <? n) eqn:E; cbn [negb]; lia.
Qed.

(** ** Verdicts *)

Definition seen (checks : list CheckState) (edges : list AnalysisEdge) : bool := forallb (fun c => existsb (met c) edges) checks.
Definition clean (checks : list CheckState) (edges : list AnalysisEdge) : bool := forallb (fun c => forallb (met c) edges) checks.
Definition within (limit : Z) (edges : list AnalysisEdge) : list AnalysisEdge := take (Z.to_nat limit) edges.

Lemma after_snoc pre edge c : after (pre ++ [edge]) c = counted_at (after pre c) edge.
Proof. unfold after. by rewrite foldl_app. Qed.
Lemma forallb_map_ext {A B} (f : A -> B) (p : B -> bool) (q : A -> bool) l :
  Forall (fun a => p (f a) = q a) l -> forallb p (map f l) = forallb q l.
Proof. induction 1 as [|a l E _ IH]; [done|]. cbn. by rewrite E, IH. Qed.
Lemma passed_eventually checks pre : Forall fresh checks -> Forall (fun c => is_eventually c = true) checks ->
  forallb condition_passed (map (after pre) checks) = seen checks pre.
Proof.
  intros Hf He. apply forallb_map_ext, Forall_forall. intros c Hc. rewrite after_passed by exact (proj1 (Forall_forall _ _) Hf c Hc).
  by rewrite (proj1 (Forall_forall _ _) He c Hc).
Qed.
Lemma passed_always checks pre : Forall fresh checks -> Forall (fun c => is_eventually c = false) checks ->
  forallb condition_passed (map (after pre) checks) = clean checks pre.
Proof.
  intros Hf He. apply forallb_map_ext, Forall_forall. intros c Hc. rewrite after_passed by exact (proj1 (Forall_forall _ _) Hf c Hc).
  by rewrite (proj1 (Forall_forall _ _) He c Hc).
Qed.
Lemma all_seen_eventually checks pre : checks <> [] -> Forall fresh checks -> Forall (fun c => is_eventually c = true) checks ->
  all_seen (map (after pre) checks) = seen checks pre.
Proof.
  intros Hne Hf He. rewrite <- (passed_eventually checks pre Hf He). unfold all_seen.
  assert (forall c, c ∈ checks -> is_eventually (after pre c) = true) as Hall.
  { intros c Hc. rewrite (eventually_same c) by apply after_same. exact (proj1 (Forall_forall _ _) He c (proj1 (list_elem_of_In _ _) Hc)). }
  assert (existsb is_eventually (map (after pre) checks) = true) as ->.
  { destruct checks as [|c checks]; [done|]. cbn. rewrite Hall by left. done. }
  cbn [andb]. clear Hne Hf He. induction checks as [|c checks IH]; [done|]. cbn. rewrite IH by (intros; apply Hall; by right).
  unfold condition_passed. by rewrite Hall by left.
Qed.

Lemma check_pure_eventually edge checks : Forall (fun c => is_eventually c = true) checks ->
  (check_pure edge checks).1.1 = map (fun c => counted_at c edge) checks /\ (check_pure edge checks).2 = false.
Proof.
  induction 1 as [|c checks Hc _ [IH1 IH2]]; [done|]. cbn [check_pure]. rewrite Hc. cbn [negb andb].
  destruct (check_pure edge checks) as [[rest found] decisive]. cbn in *. by subst.
Qed.
Definition tally_ok (c : CheckState) : Prop := 0 <= ck_failed c /\ 0 <= ck_unknown_samples c.
Lemma check_pure_always edge checks : Forall (fun c => is_eventually c = false) checks -> Forall tally_ok checks ->
  if forallb (fun c => met c edge) checks
  then (check_pure edge checks).1.1 = map (fun c => counted_at c edge) checks /\ (check_pure edge checks).2 = false
  else (check_pure edge checks).2 = true /\ forallb condition_passed (check_pure edge checks).1.1 = false.
Proof.
  induction checks as [|c checks IH]; intros He Hk; [done|]. inversion_clear He as [|? ? Hc He']. inversion_clear Hk as [|? ? [Hk1 Hk2] Hk'].
  specialize (IH He' Hk'). cbn [check_pure forallb]. unfold met at 1. rewrite Hc. cbn [negb andb].
  destruct (sample_bad c (edge_value c edge)) eqn:Eb; cbn [negb andb].
  - split; [done|]. cbn. unfold condition_passed. rewrite (eventually_same c) by apply count_sample_root. rewrite Hc.
    unfold sample_bad in Eb. unfold count_sample. destruct (known (edge_value c edge)); cbn [negb orb] in *.
    + apply negb_true_iff in Eb. rewrite Eb. cbn. rewrite (proj2 (Z.eqb_neq _ 0)) by lia. done.
    + cbn. rewrite (proj2 (Z.eqb_neq (ck_unknown_samples c + 1) 0)) by lia. by rewrite andb_false_r.
  - destruct (check_pure edge checks) as [[rest found] decisive]. cbn in *. destruct (forallb (fun c => met c edge) checks); cbn [fst snd map forallb].
    + destruct IH as [-> ->]. done.
    + destruct IH as [-> E]. split; [done|]. by rewrite E, andb_false_r.
Qed.

Lemma forallb_take {A} (p : A -> bool) n l : forallb p l = true -> forallb p (take n l) = true.
Proof. revert n. induction l as [|x l IH]; intros [|n]; cbn; try done. intros [-> ?]%andb_prop. by apply IH. Qed.
Lemma seen_more checks pre post : seen checks pre = true -> seen checks (pre ++ post) = true.
Proof.
  unfold seen. rewrite !forallb_forall. intros Hs c Hc. rewrite existsb_app. by rewrite (Hs c Hc).
Qed.
Lemma clean_app checks pre post : clean checks (pre ++ post) = clean checks pre && clean checks post.
Proof.
  unfold clean. induction checks as [|c checks IH]; [done|]. cbn. rewrite forallb_app, IH.
  by destruct (forallb (met c) pre), (forallb (met c) post), (forallb (fun c => forallb (met c) pre) checks).
Qed.
Lemma within_past limit pre edges : zlen pre = limit -> within limit (pre ++ edges) = pre.
Proof. intros <-. unfold within, zlen. rewrite Nat2Z.id. apply take_app_length. Qed.
Lemma within_prefix limit pre edges : zlen pre <= limit -> exists post, within limit (pre ++ edges) = pre ++ post.
Proof. intros Hl. unfold within, zlen in *. rewrite take_app. rewrite take_ge by lia. by eexists. Qed.

Definition started (checks : list CheckState) (pre : list AnalysisEdge) (v : Verify) : Prop :=
  vf_checks v = map (after pre) checks /\ vf_samples v = zlen pre /\ vf_decisive v = false /\ vf_truncated v = false.

Lemma eventually_verdict limit checks edges : checks <> [] -> Forall fresh checks -> Forall (fun c => is_eventually c = true) checks ->
  forall pre v, started checks pre v -> zlen pre <= limit -> seen checks pre = false ->
  verdict (verify_pure limit edges v) =
    if seen checks (within limit (pre ++ edges)) then lit "pass" else if zlen (pre ++ edges) <=? limit then lit "fail" else lit "inconclusive".
Proof.
  intros Hne Hf He. induction edges as [|edge edges IH]; intros pre v (Hc & Hn & Hd & Ht) Hl Hs; cbn [verify_pure].
  - rewrite app_nil_r. unfold within. rewrite take_ge by (unfold zlen in Hl; lia). rewrite Hs, (proj2 (Z.leb_le _ _) Hl).
    unfold verdict, analysis_complete, all_passed. by rewrite Hd, Ht, Hc, passed_eventually, Hs.
  - rewrite Hn. destruct (limit <=? zlen pre) eqn:El.
    { rewrite within_past by lia. rewrite Hs. unfold verdict, analysis_complete. cbn [vf_decisive vf_truncated]. rewrite Hd. cbn.
      rewrite (proj2 (Z.leb_gt _ _)); [done|]. rewrite zlen_app, zlen_cons. unfold zlen in *. lia. }
    assert (Forall (fun c => is_eventually c = true) (map (after pre) checks)) as He'.
    { apply Forall_map, Forall_forall. intros c Hin. rewrite (eventually_same c) by apply after_same. exact (proj1 (Forall_forall _ _) He c Hin). }
    destruct (check_pure_eventually edge _ He') as [E1 E2]. unfold verify_step. rewrite Hc.
    destruct (check_pure edge (map (after pre) checks)) as [[cs found] decisive]. cbn [fst snd] in E1, E2. subst decisive.
    rewrite map_map in E1. rewrite (map_ext _ (after (pre ++ [edge]))) in E1 by (intros c; by rewrite after_snoc). subst cs.
    cbn [vf_decisive orb]. rewrite all_seen_eventually by done.
    replace (pre ++ edge :: edges) with ((pre ++ [edge]) ++ edges) by (by rewrite <- app_assoc).
    assert (zlen (pre ++ [edge]) <= limit) as Hl' by (rewrite zlen_app; change (zlen [edge]) with 1; lia).
    destruct (seen checks (pre ++ [edge])) eqn:Es.
    + destruct (within_prefix limit (pre ++ [edge]) edges Hl') as [post ->]. rewrite seen_more by done.
      unfold verdict, analysis_complete, all_passed. cbn [vf_decisive vf_checks orb negb]. by rewrite passed_eventually, Es.
    + apply IH; [|done|done]. split_and!; cbn; try done. by rewrite Hn, zlen_app.
Qed.

Lemma always_verdict limit checks edges : Forall fresh checks -> Forall (fun c => is_eventually c = false) checks ->
  forall pre v, started checks pre v -> zlen pre <= limit -> clean checks pre = true ->
  verdict (verify_pure limit edges v) =
    if clean checks (within limit (pre ++ edges)) then (if zlen (pre ++ edges) <=? limit then lit "pass" else lit "inconclusive") else lit "fail".
Proof.
  intros Hf He. induction edges as [|edge edges IH]; intros pre v (Hc & Hn & Hd & Ht) Hl Hs; cbn [verify_pure].
  - rewrite app_nil_r. unfold within. rewrite take_ge by (unfold zlen in Hl; lia). rewrite Hs, (proj2 (Z.leb_le _ _) Hl).
    unfold verdict, analysis_complete, all_passed. by rewrite Hd, Ht, Hc, passed_always, Hs.
  - rewrite Hn. destruct (limit <=? zlen pre) eqn:El.
    { rewrite within_past by lia. rewrite Hs. unfold verdict, analysis_complete. cbn [vf_decisive vf_truncated]. rewrite Hd. cbn.
      rewrite (proj2 (Z.leb_gt _ _)); [done|]. rewrite zlen_app, zlen_cons. unfold zlen in *. lia. }
    assert (Forall (fun c => is_eventually c = false) (map (after pre) checks)) as He'.
    { apply Forall_map, Forall_forall. intros c Hin. rewrite (eventually_same c) by apply after_same. exact (proj1 (Forall_forall _ _) He c Hin). }
    assert (Forall tally_ok (map (after pre) checks)) as Hk.
    { apply Forall_map, Forall_forall. intros c Hin. destruct (proj1 (Forall_forall _ _) Hf c Hin) as (F1 & F2 & F3).
      destruct (after_counts pre c) as (_ & _ & ? & ?). unfold tally_ok. lia. }
    assert (forallb (fun c => met c edge) (map (after pre) checks) = clean checks [edge]) as Em.
    { apply forallb_map_ext, Forall_forall. intros c _. cbn. rewrite andb_true_r. apply met_same; apply after_same. }
    replace (pre ++ edge :: edges) with ((pre ++ [edge]) ++ edges) by (by rewrite <- app_assoc).
    assert (zlen (pre ++ [edge]) <= limit) as Hl' by (rewrite zlen_app; change (zlen [edge]) with 1; lia).
    pose proof (check_pure_always edge _ He' Hk) as Hcheck. rewrite Em in Hcheck. unfold verify_step. rewrite Hc.
    destruct (check_pure edge (map (after pre) checks)) as [[cs found] decisive] eqn:Ecp. cbn [fst snd] in Hcheck.
    assert (all_seen cs = false) as Eseen.
    { unfold all_seen. assert (map ck_mode cs = map ck_mode (map (after pre) checks)) as Emode.
      { pose proof (proj2 (check_pure_roots edge (map (after pre) checks))) as E. by rewrite Ecp in E. }
      assert (existsb is_eventually cs = false) as ->; [|done]. clear -Emode He'. revert cs Emode.
      induction He' as [|c l Hc _ IH]; intros [|c' cs]; cbn; try done. intros [= E1 E2]. unfold is_eventually at 1. rewrite E1.
      fold (is_eventually c). rewrite Hc. by apply IH. }
    cbn [vf_decisive]. rewrite Eseen, orb_false_r. destruct (clean checks [edge]) eqn:Ecl.
    + destruct Hcheck as [E1 ->]. rewrite map_map in E1. rewrite (map_ext _ (after (pre ++ [edge]))) in E1 by (intros c; by rewrite after_snoc). subst cs.
      apply IH; [|done|by rewrite clean_app, Hs, Ecl]. split_and!; cbn; try done. by rewrite Hn, zlen_app.
    + destruct Hcheck as [-> E]. destruct (within_prefix limit (pre ++ [edge]) edges Hl') as [post ->].
      rewrite !clean_app, Ecl, andb_false_r. cbn [andb]. unfold verdict, analysis_complete, all_passed. cbn. by rewrite E.
Qed.
End Scan.

(** C25: a window.verify request whose conditions are all eventually ends, and
    its verdict is pass exactly when each condition is met, that is known and
    true, at some sampled edge of the window within the sample limit; it is
    fail exactly when every sampled edge of the window was within the limit and
    some condition is met at none of them. *)
Theorem window_eventually_exact {W} `{EngineWave W} eval value (ok : WaveState W -> Prop) evaluable
    (eval_ok : forall e ti s, evaluable e ti -> ok s -> exists s', eval e ti s = (Ret (inr (value e ti)), s') /\ ok s') limit checks edges s :
  checks <> [] -> Forall fresh checks -> Forall (fun c => is_eventually c = true) checks -> Forall (all_evaluable evaluable checks) edges ->
  ok s -> 0 <= limit ->
  exists v s', verify_edges eval limit edges (new_verify checks) s = (Ret (inr v), s') /\
    (verdict v = lit "pass" <-> forall c, c ∈ checks -> exists e, e ∈ within limit edges /\ met value c e = true) /\
    (verdict v = lit "fail" <-> zlen edges <= limit /\ exists c, c ∈ checks /\ forall e, e ∈ edges -> met value c e = false).
Proof.
  intros Hne Hf He Hev Hs Hl. destruct (verify_edges_pure eval value ok evaluable eval_ok limit edges (new_verify checks) s Hev Hs) as (s' & E & _).
  exists (verify_pure value limit edges (new_verify checks)), s'. split; [exact E|].
  assert (seen value checks [] = false) as Hs0 by (destruct checks; done).
  rewrite (eventually_verdict value limit checks edges Hne Hf He [] (new_verify checks)); [|split_and!; cbn; [by rewrite map_id|done..]|done|done]. cbn [app].
  assert (forall l, seen value checks l = true <-> forall c, c ∈ checks -> exists e, e ∈ l /\ met value c e = true) as Hseen.
  { intros l. unfold seen. rewrite forallb_forall. setoid_rewrite existsb_exists. setoid_rewrite <- list_elem_of_In. done. }
  destruct (seen value checks (within limit edges)) eqn:E1.
  - split; [by rewrite <- Hseen|]. split; [done|]. intros (Hz & c & Hc & Hnone). rewrite Hseen in E1. destruct (E1 c Hc) as (e & Hin & Hm).
    rewrite Hnone in Hm; [done|]. unfold within in Hin. rewrite <- (take_drop (Z.to_nat limit) edges). apply elem_of_app. by left.
  - assert (~ forall c, c ∈ checks -> exists e, e ∈ within limit edges /\ met value c e = true) as Hno by (rewrite <- Hseen; congruence).
    destruct (zlen edges <=? limit) eqn:El.
    + assert (within limit edges = edges) as Ew by (unfold within; apply take_ge; unfold zlen in El; lia). rewrite Ew in *. split; [split; [done|intros Hall; by destruct (Hno Hall)]|]. split; [|done]. intros _. split; [lia|].
      unfold seen in E1. apply not_true_iff_false in E1. rewrite forallb_forall in E1.
      destruct (List.find (fun c => negb (existsb (met value c) edges)) checks) as [c|] eqn:Ef.
      * apply find_some in Ef as [Hin Hn]. exists c. split; [by apply list_elem_of_In|]. intros e Hein. apply negb_true_iff in Hn.
        apply not_true_iff_false. intros Hm. apply not_true_iff_false in Hn. apply Hn, existsb_exists. exists e. split; [by apply list_elem_of_In|done].
      * destruct E1. intros c Hc. by apply negb_false_iff, (find_none _ _ Ef).
    + split; [split; [done|intros Hall; by destruct (Hno Hall)]|]. split; [done|]. intros [? _]. lia.
Qed.

(** C26: a window.verify request whose conditions are all always or never ends,
    and its verdict is fail exactly when some condition is not met, that is
    unknown or violated, at some sampled edge of the window within the sample
    limit; it is pass exactly when every sampled edge of the window was within
    the limit and every condition is met at each of them. *)
Theorem window_always_exact {W} `{EngineWave W} eval value (ok : WaveState W -> Prop) evaluable
    (eval_ok : forall e ti s, evaluable e ti -> ok s -> exists s', eval e ti s = (Ret (inr (value e ti)), s') /\ ok s') limit checks edges s :
  Forall fresh checks -> Forall (fun c => is_eventually c = false) checks -> Forall (all_evaluable evaluable checks) edges -> ok s -> 0 <= limit ->
  exists v s', verify_edges eval limit edges (new_verify checks) s = (Ret (inr v), s') /\
    (verdict v = lit "pass" <-> zlen edges <= limit /\ forall c e, c ∈ checks -> e ∈ edges -> met value c e = true) /\
    (verdict v = lit "fail" <-> exists c e, c ∈ checks /\ e ∈ within limit edges /\ met value c e = false).
Proof.
  intros Hf He Hev Hs Hl. destruct (verify_edges_pure eval value ok evaluable eval_ok limit edges (new_verify checks) s Hev Hs) as (s' & E & _).
  exists (verify_pure value limit edges (new_verify checks)), s'. split; [exact E|].
  rewrite (always_verdict value limit checks edges Hf He [] (new_verify checks));
    [|split_and!; cbn; [by rewrite map_id|done..]|done|unfold clean; by apply forallb_forall]. cbn [app].
  assert (forall l, clean value checks l = true <-> forall c e, c ∈ checks -> e ∈ l -> met value c e = true) as Hclean.
  { intros l. unfold clean. rewrite forallb_forall. setoid_rewrite forallb_forall. setoid_rewrite <- list_elem_of_In. naive_solver. }
  destruct (clean value checks (within limit edges)) eqn:E1.
  - rewrite Hclean in E1. split.
    + destruct (zlen edges <=? limit) eqn:El; [|split; [done|]; intros [? _]; lia].
      assert (within limit edges = edges) as Ew by (unfold within; apply take_ge; unfold zlen in El; lia). rewrite Ew in E1.
      split; [|done]. intros _. split; [lia|done].
    + destruct (zlen edges <=? limit); (split; [done|]); intros (c & e & Hc & Hin & Hm); by rewrite E1 in Hm.
  - split.
    + split; [done|]. intros [Hz Hall]. apply not_true_iff_false in E1. destruct E1. apply Hclean. intros c e Hc Hin. apply Hall; [done|].
      unfold within in Hin. rewrite <- (take_drop (Z.to_nat limit) edges). apply elem_of_app. by left.
    + split; [|done]. intros _. unfold clean in E1.
      destruct (List.find (fun c => negb (forallb (met value c) (within limit edges))) checks) as [c|] eqn:Ef.
      * apply find_some in Ef as [Hc Hn]. apply negb_true_iff in Hn.
        destruct (List.find (fun e => negb (met value c e)) (within limit edges)) as [e|] eqn:Ee.
        -- apply find_some in Ee as [Hin Hm]. exists c, e. split_and!; try by apply list_elem_of_In. by apply negb_true_iff.
        -- apply not_true_iff_false in Hn. destruct Hn. apply forallb_forall. intros e Hin. by apply negb_false_iff, (find_none _ _ Ee).
      * apply not_true_iff_false in E1. destruct E1. apply forallb_forall. intros c Hc. by apply negb_false_iff, (find_none _ _ Ef).
Qed.

(** *** A table *)

Definition verify_table : Table := MkTable [bits_row (lit "clk") []; bits_row (lit "a") (lit "110"); bits_row (lit "b") (lit "010")] 3 0.
#[local] Existing Instance table_wave.
Definition verify_state : WaveState Table := MkWaveState (Some verify_table) cm_initial [] [] [].
Definition table_eval (e : ExprNode) (ti : Z) : trial json (WaveState Table) LogicValue := evaluate e ti Raw.
Definition table_check (mode : string) (name : string) : CheckState := MkCheckState (JString (lit name)) (lit mode) (ESignal (lit name)) 0 0 0.
Definition table_reading (e : ExprNode) (ti : Z) : LogicValue := match fst (table_eval e ti verify_state) with Ret (inr v) => v | _ => lv_default end.
Definition table_edges : list AnalysisEdge := collect_analysis_edges verify_table 1 0 50 (lit "posedge").
Lemma table_evaluates e ti s : (e = ESignal (lit "a") \/ e = ESignal (lit "b")) /\ ti ∈ [1; 3; 5] -> s = verify_state ->
  exists s', table_eval e ti s = (Ret (inr (table_reading e ti)), s') /\ s' = verify_state.
Proof.
  intros [He Hti] ->. exists verify_state. split; [|done]. rewrite !elem_of_cons, elem_of_nil in Hti.
  destruct He as [-> | ->]; destruct Hti as [-> |[-> |[-> |[]]]]; vm_compute; reflexivity.
Qed.

Lemma window_eventually_exact_witness : exists v s',
  verify_edges table_eval 10 table_edges (new_verify [table_check "eventually" "b"]) verify_state = (Ret (inr v), s') /\ verdict v = lit "pass".
Proof.
  destruct (window_eventually_exact table_eval table_reading (fun s => s = verify_state)
    (fun e ti => (e = ESignal (lit "a") \/ e = ESignal (lit "b")) /\ ti ∈ [1; 3; 5]) table_evaluates 10 [table_check "eventually" "b"] table_edges
    verify_state) as (v & s' & E & [_ Hp] & _); try done.
  - by repeat constructor.
  - by repeat constructor.
  - change table_edges with [MkAnalysisEdge 1 10; MkAnalysisEdge 3 30; MkAnalysisEdge 5 50].
    repeat constructor; try (by right); cbn; apply list_elem_of_In; cbn; tauto.
  - exists v, s'. split; [exact E|]. apply Hp. intros c Hc. apply list_elem_of_singleton in Hc as ->. exists (MkAnalysisEdge 3 30).
    split; [|vm_compute; reflexivity]. change (within 10 table_edges) with [MkAnalysisEdge 1 10; MkAnalysisEdge 3 30; MkAnalysisEdge 5 50]. apply list_elem_of_In; cbn; tauto.
Defined.
Lemma window_always_exact_witness : exists v s',
  verify_edges table_eval 10 table_edges (new_verify [table_check "always" "a"]) verify_state = (Ret (inr v), s') /\ verdict v = lit "fail".
Proof.
  destruct (window_always_exact table_eval table_reading (fun s => s = verify_state)
    (fun e ti => (e = ESignal (lit "a") \/ e = ESignal (lit "b")) /\ ti ∈ [1; 3; 5]) table_evaluates 10 [table_check "always" "a"] table_edges
    verify_state) as (v & s' & E & _ & [_ Hp]); try done.
  - by repeat constructor.
  - by repeat constructor.
  - change table_edges with [MkAnalysisEdge 1 10; MkAnalysisEdge 3 30; MkAnalysisEdge 5 50].
    repeat constructor; try (by left); cbn; apply list_elem_of_In; cbn; tauto.
  - exists v, s'. split; [exact E|]. apply Hp. exists (table_check "always" "a"), (MkAnalysisEdge 5 50).
    split; [apply list_elem_of_In; cbn; tauto|]. split; [|vm_compute; reflexivity].
    change (within 10 table_edges) with [MkAnalysisEdge 1 10; MkAnalysisEdge 3 30; MkAnalysisEdge 5 50]. apply list_elem_of_In; cbn; tauto.
Defined.

(** With conditions of both kinds the scan ends as soon as the eventually
    conditions have been met: [a] must always hold, falls in the last cycle, and
    the request passes because [b] was high in the cycle before. *)
Definition mixed_request : json :=
  let condition expr mode := jobj [(lit "expr", JString (lit expr)); (lit "mode", JString (lit mode))] in
  jobj [(lit "args", jobj [(lit "signals", jobj [(lit "a", JString (lit "a")); (lit "b", JString (lit "b"))]); (lit "clock", JString (lit "clk"));
    (lit "edge", JString (lit "posedge")); (lit "sample_point", JString (lit "after"));
    (lit "conditions", JArray [condition "a" "always"; condition "b" "eventually"])])].
Definition response_verdict (r : res json) : option json :=
  match r with Ret response => summary ← jget (lit "summary") response; jget (lit "verdict") summary | _ => None end.
Lemma always_unchecked_after_eventually :
  response_verdict (fst (window_verify (fun _ => 0) mixed_request verify_state)) = Some (JString (lit "pass")) /\
  met table_reading (table_check "always" "a") (MkAnalysisEdge 5 50) = false /\ MkAnalysisEdge 5 50 ∈ table_edges.
Proof. split; [vm_compute; reflexivity|]. split; [vm_compute; reflexivity|]. change table_edges with [MkAnalysisEdge 1 10; MkAnalysisEdge 3 30; MkAnalysisEdge 5 50]. apply list_elem_of_In; cbn; tauto. Qed.
