(* ===== verification/WaveRequests.v ===== *)
(** * WaveRequests: the waveform handlers through every history of requests

    The table of the waveform handlers, and what they do to the state they
    share: queries leave the cursors, lists, event configurations and files
    alone, only three handlers touch the cursors, and after any history of
    requests the three registries are well formed. *)

From S2P Require Import Prelude CLib Json LogicValue ExprParser Waveform ExprEval ClockSampling Cursor SignalList InternalRequest SchemaValidator Engine StepLogic TableWave Apb Stream StreamQuery Axi AxiActions WaveState ClockActions PulseInspect HandshakeInspect CounterStatistics SignalAnalysis ValueAt ListActions ListExport EventActions WindowVerify.

Open Scope Z_scope.

(** ** The table *)

Inductive WaveQuery :=
  ValueAtQuery | SignalChangesQuery | ClockPointQuery | ExprEvalAtQuery | PulseInspectQuery | HandshakeInspectQuery
| CounterStatisticsQuery | SignalStatisticsQuery | SignalStabilityQuery | SignalXzVerifyQuery | SignalAnomalyQuery
| ListShowQuery | ListValidateQuery | ListFirstChangeQuery | EventConfigListQuery | EventFindQuery
| CursorGetQuery | CursorListQuery | VerifyConditionsQuery | WindowVerifyQuery.
Inductive WaveExport := ListExportFiles | EventExportFiles | NwaveRcFiles.
Inductive ListEdit := ListCreate | ListAdd | ListDelete | ListLoad.
Inductive CursorEdit := CursorSet | CursorDelete | CursorUse.
Inductive WaveAction :=
  AskWave (q : WaveQuery) | WriteWave (e : WaveExport) | EditList (e : ListEdit) | EditCursor (e : CursorEdit) | LoadEventConfig.

(** How the cursors, the lists and the event configurations may differ. *)
Section States.
Context {W : Type}.
Abbreviation St := (WaveState W).

Definition same_tables : relation St := fun s s' =>
  ws_cursors s' = ws_cursors s /\ ws_lists s' = ws_lists s /\ ws_events s' = ws_events s.
Definition same_state : relation St := fun s s' => same_tables s s' /\ ws_files s' = ws_files s.
#[export] Instance same_tables_preorder : PreOrder same_tables.
Proof. split; [done|]. intros s1 s2 s3 (? & ? & ?) (? & ? & ?). split_and!; congruence. Qed.
#[export] Instance same_state_preorder : PreOrder same_state.
Proof. split; [done|]. intros s1 s2 s3 [? ?] [? ?]. split; [by etransitivity|congruence]. Qed.


(** A relation that does not look at the waveform. *)
Class WaveRelation (R : relation St) : Prop := {
  wave_preorder :: PreOrder R;
  wave_only : forall s s', same_state s s' -> R s s';
}.
#[export] Instance same_state_wave : WaveRelation same_state.
Proof. split; [apply _|done]. Qed.
#[export] Instance same_tables_wave : WaveRelation same_tables.
Proof. split; [apply _|by intros s s' [? _]]. Qed.

Context `{EngineWave W} (R : relation St) `{!WaveRelation R}.

Lemma moves_wave {A} (m : trial json W A) : moves R (with_wave m).
Proof. intros s. apply wave_only. unfold with_wave. destruct (ws_wave s) as [w|]; [|done]. by destruct (m w). Qed.
Lemma moves_or_stop {A} (r : res (json + A)) : moves R (or_stop r).
Proof. apply moves_same; [apply _|done]. Qed.
Lemma moves_required a : moves R (wave_required a).
Proof. apply moves_same; [apply _|]. intros s. unfold wave_required. by destruct (ws_wave s). Qed.
Lemma moves_each {A B} (f : A -> trial json St B) l : (forall a, moves R (f a)) -> moves R (each f l).
Proof. intros Hf. induction l as [|a l IH]; cbn [each]; repeat first [apply Hf|apply IH|move_step]. Qed.
End States.

(** One step of a waveform handler, looking into the helpers it calls. *)
Ltac head_of t := match t with ?f _ => head_of f | _ => t end.
Ltac wave_step :=
  first [ move_step
        | apply moves_or_stop; apply _
        | apply moves_required; apply _
        | match goal with |- moves _ (each _ _) => apply moves_each; [apply _|intros] end
        | match goal with |- moves _ (with_wave _) => apply moves_wave; apply _ end
        | match goal with |- moves _ (fun _ => _) => apply moves_same; [apply _|done] end
        | match goal with |- moves _ ?m => let h := head_of m in unfold h end ].

(** ** Queries *)

Section Queries.
Context {W V : Type} `{EngineWave W} `{ChangeScan W}.
Context (file : bytes -> option bytes) (parse : bytes -> bytes + json) (trunc : bytes -> Z) (real_to_string : Z -> bytes) (real_eq : Z -> Z -> bool)
  (quotient : Z -> Z -> bytes) (average18 : list Z -> bytes) (dump_pretty : json -> bytes) (make_dirs : bytes -> option bytes)
  (can_open : bytes -> bool) (room : bytes -> nat -> bool).
Context (apb : ApbState V) (streams : StreamState V) (axi : AxiState V).
Abbreviation St := (WaveState W).

Lemma moves_check_edge (R : relation St) `{!PreOrder R} eval edge checks :
  (forall e ti, moves R (eval e ti)) -> moves R (check_edge eval edge checks).
Proof. intros He. induction checks as [|c checks IH]; cbn [check_edge]; repeat first [apply He|apply IH|move_step]. Qed.
Lemma moves_verify_edges (R : relation St) `{!PreOrder R} eval limit edges : (forall e ti, moves R (eval e ti)) ->
  forall v, moves R (verify_edges eval limit edges v).
Proof.
  intros He. induction edges as [|edge edges IH]; intros v; cbn [verify_edges]; repeat first [apply moves_check_edge; done|apply IH|move_step].
Qed.
Lemma moves_scan_events q indices : forall st, moves same_state (scan_events (W := W) trunc real_to_string q indices st).
Proof. induction indices as [|ti indices IH]; intros st; cbn [scan_events]; repeat first [apply IH|wave_step]. Qed.

Lemma moves_count_edges valid counters point limit edges : forall c,
  moves same_state (count_edges (W := W) valid counters point limit c edges).
Proof. induction edges as [|e edges IH]; intros c; cbn [count_edges]; repeat first [apply IH|wave_step]. Qed.

Lemma moves_event_find args : moves same_state (run_event_find (W := W) trunc real_to_string args).
Proof. unfold run_event_find. repeat first [apply moves_scan_events|wave_step]. Qed.

Definition run_wave_query (q : WaveQuery) (req : json) : act St json :=
  match q with
  | ValueAtQuery => value_at_action trunc real_to_string apb streams axi req
  | SignalChangesQuery => signal_changes trunc real_to_string req
  | ClockPointQuery => clock_point_query real_to_string req
  | ExprEvalAtQuery => expr_eval_at_action req
  | PulseInspectQuery => signal_sampled_pulse_inspect trunc req
  | HandshakeInspectQuery => protocol_handshake_inspect trunc req
  | CounterStatisticsQuery => counter_statistics trunc average18 req
  | SignalStatisticsQuery => signal_statistics trunc real_to_string real_eq quotient req
  | SignalStabilityQuery => signal_stability real_to_string real_eq req
  | SignalXzVerifyQuery => signal_xz_verify real_to_string real_eq req
  | SignalAnomalyQuery => signal_anomaly_inspect trunc real_to_string real_eq req
  | ListShowQuery => list_show req
  | ListValidateQuery => list_validate req
  | ListFirstChangeQuery => list_first_change real_to_string real_eq req
  | EventConfigListQuery => event_config_list trunc req
  | EventFindQuery => event_find trunc real_to_string req
  | CursorGetQuery => cursor_get req
  | CursorListQuery => cursor_list req
  | VerifyConditionsQuery => verify_conditions req
  | WindowVerifyQuery => window_verify trunc req
  end.

Lemma query_moves q req : moves same_state (run_wave_query q req).
Proof. destruct q; cbn [run_wave_query]; repeat first [apply moves_event_find|apply moves_count_edges|apply moves_verify_edges; [apply _|intros]|wave_step]. Qed.

(** ** Exports *)

Definition run_export (e : WaveExport) (req : json) : act St json :=
  match e with
  | ListExportFiles => list_export trunc dump_pretty make_dirs can_open room req
  | EventExportFiles => event_export trunc real_to_string dump_pretty make_dirs can_open room req
  | NwaveRcFiles => nwave_rc_generate file parse trunc make_dirs can_open room req
  end.

Lemma moves_put_file path contents : moves same_tables (put_file (W := W) path contents).
Proof. done. Qed.
Lemma moves_rc_entries entries : forall t, moves same_tables (rc_entries (W := W) entries t).
Proof. induction entries as [|entry entries IH]; intros t; cbn [rc_entries]; repeat first [apply IH|wave_step]. Qed.

Lemma moves_render_groups fuel : forall groups t, moves same_tables (render_groups (W := W) fuel groups t).
Proof.
  induction fuel as [|fuel IHf]; intros groups; cbn [render_groups]; [intros t; repeat wave_step|].
  induction groups as [|group groups IH]; intros t; repeat first [apply IH|apply IHf|apply moves_rc_entries|wave_step].
Qed.
Lemma export_moves e req : moves same_tables (run_export e req).
Proof.
  destruct e; cbn [run_export];
    repeat first [apply moves_put_file|apply moves_render_groups|apply moves_weaken with (R := same_state), moves_event_find; apply wave_only; apply _|wave_step].
Qed.

(** ** Lists *)

(** Lists that were only edited by requests: the invariant of SignalList.v,
    and besides every list has a name and no signal twice. *)
Definition lists_ok (m : ListManager) : Prop :=
  lm_inv m /\ forall kl, kl ∈ m -> fst kl <> [] /\ sl_created_from (snd kl) = lit "user".
Definition edits_lists : relation St := fun s s' =>
  ws_cursors s' = ws_cursors s /\ ws_events s' = ws_events s /\ (lists_ok (ws_lists s) -> lists_ok (ws_lists s')).
#[local] Instance edits_lists_wave : WaveRelation edits_lists.
Proof.
  split; [split; [done|]|].
  - intros s1 s2 s3 (? & ? & ?) (? & ? & ?). split_and!; [congruence..|by auto].
  - intros s s' [(? & El & ?) _]. split_and!; [done..|by rewrite El].
Qed.

Lemma lists_ok_set m name l : lists_ok m -> lm_inv (mset name l m) -> name <> [] -> sl_created_from l = lit "user" -> lists_ok (mset name l m).
Proof. intros [_ Hm] Hi Hn Hc. split; [done|]. intros [k v] [[= -> ->]|Hin]%mset_elem; [done|]. by apply Hm. Qed.
Lemma lists_ok_get m name l : lists_ok m -> mget name m = Some l -> name <> [] /\ sl_created_from l = lit "user".
Proof. intros [_ Hm] Hg%mget_elem. by apply (Hm _ Hg). Qed.
Lemma create_lists_ok name m m' : lists_ok m -> lm_create m name = inr m' -> lists_ok m'.
Proof.
  intros Hm E. pose proof (lm_step_inv _ _ (proj1 Hm) (lm_step_create _ _ _ E)) as Hi. unfold lm_create in E.
  destruct name as [|c0 name]; [done|]. destruct (mget _ m); [done|]. injection E as <-. by apply lists_ok_set.
Qed.
Lemma add_lists_ok name signals m m' : lists_ok m -> lm_add m name signals = inr m' -> lists_ok m'.
Proof.
  intros Hm E. pose proof (lm_step_inv _ _ (proj1 Hm) (lm_step_add _ _ _ _ E)) as Hi. unfold lm_add in E.
  destruct (mget name m) as [l|] eqn:Hg; [|done]. injection E as <-. destruct (lists_ok_get _ _ _ Hm Hg). by apply lists_ok_set.
Qed.
Lemma remove_lists_ok name signals m m' : lists_ok m -> lm_remove m name signals = inr m' -> lists_ok m'.
Proof.
  intros Hm E. pose proof (lm_step_inv _ _ (proj1 Hm) (lm_step_remove _ _ _ _ E)) as Hi. unfold lm_remove in E.
  destruct (mget name m) as [l|] eqn:Hg; [|done]. injection E as <-. destruct (lists_ok_get _ _ _ Hm Hg). by apply lists_ok_set.
Qed.
Lemma erase_lists_ok name m : lists_ok m -> lists_ok (snd (lm_erase m name)).
Proof.
  intros Hm. split; [apply (lm_step_inv m); [apply Hm|constructor]|]. unfold lm_erase. destruct (mget name m); [|apply Hm].
  intros [k v] Hin%mdel_elem. by apply Hm.
Qed.

Lemma moves_update_lists f : (forall m m', lists_ok m -> f m = inr m' -> lists_ok m') -> moves edits_lists (update_lists (W := W) f).
Proof. intros Hf s. unfold update_lists. destruct (f (ws_lists s)) as [e|m'] eqn:E; [done|]. split_and!; [done..|]. intros Hs. by apply (Hf _ _ Hs). Qed.

Definition run_list_edit (e : ListEdit) (req : json) : act St json :=
  match e with
  | ListCreate => list_create req
  | ListAdd => list_add req
  | ListDelete => list_delete trunc req
  | ListLoad => list_load file parse req
  end.
Lemma list_edit_moves e req : moves edits_lists (run_list_edit e req).
Proof.
  destruct e; cbn [run_list_edit];
    repeat first [ match goal with |- moves _ (update_lists _) => apply moves_update_lists; intros m m' Hm E end | wave_step ];
    try by eauto using create_lists_ok, add_lists_ok, remove_lists_ok.
  all: injection E as <-; by apply erase_lists_ok.
Qed.

(** ** Cursors *)

Definition edits_cursors : relation St := fun s s' =>
  ws_lists s' = ws_lists s /\ ws_events s' = ws_events s /\
  (ws_cursors s' = ws_cursors s \/ cm_step (ws_cursors s) (ws_cursors s')).
Definition run_cursor_edit (e : CursorEdit) (req : json) : act St json :=
  match e with
  | CursorSet => cursor_set req
  | CursorDelete => cursor_delete req
  | CursorUse => cursor_use req
  end.

Lemma cursors_before {A B} (m : trial json St A) (f : A -> trial json St B) :
  moves same_tables m -> (forall a, moves edits_cursors (f a)) -> moves edits_cursors (m ≫= f).
Proof.
  apply moves_compose.
  - intros s s' (? & ? & ?). split_and!; [done..|by left].
  - intros s s1 s2 (Ec & El & Ee) (? & ? & Hc). split_and!; [congruence..|]. rewrite <- Ec. done.
Qed.
Lemma cursors_update {A B} (g : CursorManager -> A * CursorManager) (f : A -> trial json St B) :
  (forall m, cm_step m (snd (g m))) -> (forall a, moves same_tables (f a)) -> moves edits_cursors (update_cursors g ≫= f).
Proof.
  intros Hg. apply (moves_compose (fun s s' => ws_lists s' = ws_lists s /\ ws_events s' = ws_events s /\ cm_step (ws_cursors s) (ws_cursors s'))).
  - intros s s' (? & ? & ?). split_and!; [done..|by right].
  - intros s s1 s2 (? & ? & Hc) (Ec & ? & ?). split_and!; [congruence..|]. right. by rewrite Ec.
  - intros s. unfold update_cursors. specialize (Hg (ws_cursors s)). destruct (g (ws_cursors s)) as [a c]. done.
Qed.
Lemma cursors_none {A} (m : St -> A * St) : moves same_tables m -> moves edits_cursors m.
Proof. apply moves_weaken. intros s s' (? & ? & ?). split_and!; [done..|by left]. Qed.

Lemma cursor_edit_moves e req : moves edits_cursors (run_cursor_edit e req).
Proof.
  destruct e; cbn [run_cursor_edit]; apply moves_answered;
    repeat first [ apply cursors_update; [intros; constructor|intros; repeat wave_step]
                 | match goal with |- moves edits_cursors (mbind _ _) => apply cursors_before; [repeat wave_step|intros] end
                 | match goal with |- moves edits_cursors (match ?x with _ => _ end) => destruct x end
                 | apply cursors_none; repeat wave_step ].
Qed.
End Queries.

(** ** Event configurations *)

Definition event_signal_ok (kv : bytes * json) : Prop := fst kv <> [] /\ exists path, snd kv = JString path /\ path <> [].
Definition event_field_ok (signals : list (bytes * json)) (kv : bytes * json) : Prop := exists alias l r,
  snd kv = jobj [(lit "signal", JString alias); (lit "left", l); (lit "right", r)] /\ alias ∈ map fst signals.
(** A stored configuration is complete: its signals have names and paths, and
    its fields refer to them. *)
Record event_config_ok (name : bytes) (config : json) : Prop := {
  evc_name : name <> [] /\ jget (lit "name") config = Some (JString name);
  evc_clock : exists clock, jget (lit "clock") config = Some (JString clock);
  evc_edge : exists edge, jget (lit "edge") config = Some (JString edge);
  evc_signals : exists signals fields, jget (lit "signals") config = Some (JObject signals) /\ jget (lit "fields") config = Some (JObject fields) /\
    signals <> [] /\ Forall event_signal_ok signals /\ Forall (event_field_ok signals) fields;
}.
Definition events_ok (events : list (bytes * json)) : Prop := msorted events = true /\ Forall (fun kv => event_config_ok (fst kv) (snd kv)) events.

Lemma add_field_ok signals fields item fields' :
  Forall (event_field_ok signals) fields -> add_field (JObject signals) (inr fields) item = Ret (inr fields') -> Forall (event_field_ok signals) fields'.
Proof.
  intros Hf E. unfold add_field in E. destruct (event_field _ _) as [[m|field]| |]; try done. cbn in E.
  destruct (string_at _ field) as [alias| |]; try done. cbn in E. destruct (jcontains alias _) eqn:Ea; [|done]. cbn in E.
  destruct (at_key _ field) as [r| |]; destruct (at_key _ field) as [l| |]; try done. cbn in E.
  destruct (iterator_key _) as [key| |]; try done. injection E as <-. apply list.Forall_forall. intros [k v] [[= -> ->]|Hin]%mset_elem.
  - exists alias, l, r. split; [done|]. by apply jcontains_elem in Ea.
  - exact (proj1 (list.Forall_forall _ _) Hf _ Hin).
Qed.
Lemma event_fields_ok signals input fields : event_fields (JObject signals) input = Ret (inr fields) ->
  exists m, fields = JObject m /\ Forall (event_field_ok signals) m.
Proof.
  unfold event_fields. intros E.
  assert (forall items acc, (forall m, acc = Ret (inr m) -> Forall (event_field_ok signals) m) -> forall m,
    foldl (fun acc item => fields ← acc; add_field (JObject signals) fields item) acc items = Ret (inr m) -> Forall (event_field_ok signals) m) as Hfold.
  { induction items as [|item items IH]; intros acc Hacc m Em; [by apply Hacc|]. cbn [foldl] in Em. refine (IH _ _ m Em). intros m' Em'.
    destruct acc as [[e|m0]| |]; try done. cbn in Em'. apply (add_field_ok signals m0 item m'); [by apply Hacc|done]. }
  destruct (foldl _ _ _) as [[e|m]| |] eqn:Ef; try done. injection E as <-. exists m. split; [done|].
  refine (Hfold _ _ _ m Ef). intros m' [= <-]. constructor.
Qed.
Lemma mfrom_ok (P : bytes * json -> Prop) l : Forall P l -> Forall P (mfrom l).
Proof.
  unfold mfrom. intros Hl. assert (Forall P []) as H0 by constructor. revert H0. generalize (@nil (bytes * json)).
  induction Hl as [|[k v] l Hk Hl IH]; intros m Hm; [done|]. cbn [foldl]. apply IH, list.Forall_forall.
  intros [k' v'] [[= -> ->]|Hin]%mset_elem; [done|]. exact (proj1 (list.Forall_forall _ _) Hm _ Hin).
Qed.
Lemma mset_cons {A} k (v : A) m : mset k v m <> [].
Proof. destruct m as [|[k' v'] m]; cbn [mset]; [done|]. by destruct (str_compare k k'). Qed.
Lemma mfrom_cons {A} (kv : bytes * A) l : mfrom (kv :: l) <> [].
Proof.
  unfold mfrom. cbn [foldl]. pose proof (mset_cons (fst kv) (snd kv) (@nil (bytes * A))) as Hne. revert Hne. generalize (mset (fst kv) (snd kv) (@nil (bytes * A))).
  induction l as [|kv' l IH]; intros m Hm; cbn [foldl]; [done|]. apply IH, mset_cons.
Qed.

Section Events.
Context {W : Type} `{EngineWave W} (file : bytes -> option bytes) (parse : bytes -> bytes + json).
Abbreviation St := (WaveState W).

Lemma event_signals_yield items : yields (fun l => l = items /\ Forall event_signal_ok items) (event_signals (W := W) items).
Proof.
  induction items as [|[alias value] items IH]; cbn [event_signals]; [by apply yields_ret|].
  destruct value as [| | | | | [|c path] | |]; try apply yields_stop. destruct (eqs alias []) eqn:Ea; [apply yields_stop|].
  eapply yields_bind; [apply yields_any|]. intros ref _. destruct (ref =? 0); [apply yields_stop|].
  eapply yields_bind; [apply IH|]. intros rest [-> Hok]. apply yields_ret. split; [done|]. constructor; [|done].
  split; [by apply eqs_false in Ea|]. by exists (c :: path).
Qed.

Lemma normalized_ok name input : name <> [] -> yields (event_config_ok name) (normalize_event_config (W := W) name input).
Proof.
  intros Hn. unfold normalize_event_config. destruct (jget (lit "signals") input) as [[| | | | | | |[|m ms]]|]; try apply yields_stop.
  destruct (negb _); [apply yields_stop|]. destruct (List.find _ _); [apply yields_stop|].
  eapply yields_bind; [apply yields_any|]. intros clock _. eapply yields_bind; [apply yields_any|]. intros ref _.
  destruct (ref =? 0); [apply yields_stop|].
  eapply yields_bind; [apply event_signals_yield|]. intros signals [-> Hsig].
  eapply yields_bind; [apply yields_any|]. intros field_input _.
  eapply (yields_bind (fun fields => exists fm, fields = JObject fm /\ Forall (event_field_ok (mfrom (m :: ms))) fm)).
  { intros s fields s' [= E _]. by apply event_fields_ok in E. }
  intros fields (fm & -> & Hfm). eapply yields_bind; [apply yields_any|]. intros edge _.
  set (point := jget (lit "sample_point") input). set (reset := jget (lit "reset") input).
  assert (forall config, jget (lit "name") config = Some (JString name) -> jget (lit "clock") config = Some (JString clock) ->
    jget (lit "edge") config = Some (JString edge) -> jget (lit "signals") config = Some (JObject (mfrom (m :: ms))) ->
    jget (lit "fields") config = Some (JObject fm) -> event_config_ok name config) as Hok.
  { intros config E1 E2 E3 E4 E5. split; [by split|by eexists|by eexists|]. exists (mfrom (m :: ms)), fm.
    split_and!; [done|done|apply mfrom_cons|by apply mfrom_ok|done]. }
  destruct point, reset; try (eapply yields_bind; [apply yields_any|]; intros _ _); apply yields_ret, Hok; reflexivity.
Qed.
End Events.

(** ** Histories *)

Section Histories.
Context {W V : Type} `{EngineWave W} `{ChangeScan W}.
Context (file : bytes -> option bytes) (parse : bytes -> bytes + json) (trunc : bytes -> Z) (real_to_string : Z -> bytes) (real_eq : Z -> Z -> bool)
  (quotient : Z -> Z -> bytes) (average18 : list Z -> bytes) (dump_pretty : json -> bytes) (make_dirs : bytes -> option bytes)
  (can_open : bytes -> bool) (room : bytes -> nat -> bool).
Context (apb : ApbState V) (streams : StreamState V) (axi : AxiState V).
Abbreviation St := (WaveState W).

Definition run_wave (action : WaveAction) (req : json) : act St json :=
  match action with
  | AskWave q => run_wave_query trunc real_to_string real_eq quotient average18 apb streams axi q req
  | WriteWave e => run_export file parse trunc real_to_string dump_pretty make_dirs can_open room e req
  | EditList e => run_list_edit file parse trunc e req
  | EditCursor e => run_cursor_edit e req
  | LoadEventConfig => event_config_load file parse req
  end.

Definition edits_events : relation St := fun s s' =>
  ws_cursors s' = ws_cursors s /\ ws_lists s' = ws_lists s /\ (events_ok (ws_events s) -> events_ok (ws_events s')).
#[local] Instance edits_events_wave : WaveRelation edits_events.
Proof.
  split; [split; [done|]|].
  - intros s1 s2 s3 (? & ? & ?) (? & ? & ?). split_and!; [congruence..|by auto].
  - intros s s' [(? & ? & Ee) _]. split_and!; [done..|by rewrite Ee].
Qed.

Lemma moves_on_signal name : moves edits_events (on_signal (W := W) name).
Proof. intros s. apply wave_only. unfold on_signal. destruct (ws_wave s) as [w|]; [|done]. by destruct (ew_find_signal w name). Qed.
Lemma moves_event_signals items : moves edits_events (event_signals (W := W) items).
Proof.
  induction items as [|[alias value] items IH]; cbn [event_signals]; repeat first [apply IH|apply moves_on_signal|move_step].
Qed.
Lemma moves_normalize name input : moves edits_events (normalize_event_config (W := W) name input).
Proof. unfold normalize_event_config. repeat first [apply moves_on_signal|apply moves_event_signals|wave_step]. Qed.
Lemma moves_refused {A} err_code (m : trial bytes St A) : moves edits_events m -> moves edits_events (refused err_code m).
Proof. intros Hm s. specialize (Hm s). unfold refused. by destruct (m s) as [[[]| |] s']. Qed.
Lemma yields_refused {A} P err_code (m : trial bytes St A) : yields P m -> yields P (refused err_code m).
Proof. intros Hm s a s'. unfold refused. specialize (Hm s). destruct (m s) as [[[]| |] s1]; try done. intros [= -> ->]. by eapply Hm. Qed.
Lemma set_event_ok name config (s : St) : event_config_ok name config -> edits_events s (set_event name config s).
Proof.
  intros Hc. split_and!; [done..|]. intros [Hs Hf]. split; cbn [set_event ws_events]; [by apply mset_sorted|].
  apply list.Forall_forall. intros [k v] [[= -> ->]|Hin]%mset_elem; [done|]. exact (proj1 (list.Forall_forall _ _) Hf _ Hin).
Qed.
Lemma config_load_moves req : moves edits_events (event_config_load (W := W) file parse req).
Proof.
  unfold event_config_load. apply moves_answered, moves_bind; [apply _|repeat wave_step|intros args].
  apply moves_bind; [apply _|repeat wave_step|intros name]. destruct (eqs name []) eqn:En; [repeat wave_step|].
  do 2 (apply moves_bind; [apply _|repeat wave_step|intros ?]).
  apply (moves_bind_yields _ (event_config_ok name)); [apply moves_refused, moves_normalize|by apply yields_refused, normalized_ok, eqs_false|].
  intros config Hc s. by apply set_event_ok.
Qed.

(** The registries of a state. *)
Record registries_ok (s : St) : Prop := {
  ro_cursors : cm_inv (ws_cursors s);
  ro_lists : lists_ok (ws_lists s);
  ro_events : events_ok (ws_events s);
}.

Definition wave_step_of (s : St) (item : WaveAction * json) : St := snd (run_wave (fst item) (snd item) s).

Lemma run_wave_registries action req s : revision (ws_cursors s) < u64_max -> registries_ok s ->
  registries_ok (snd (run_wave action req s)) /\ revision (ws_cursors (snd (run_wave action req s))) <= revision (ws_cursors s) + 1.
Proof.
  intros Hr [Hc Hl He].
  assert (forall s', ws_cursors s' = ws_cursors s -> lists_ok (ws_lists s') -> events_ok (ws_events s') ->
    registries_ok s' /\ revision (ws_cursors s') <= revision (ws_cursors s) + 1) as Hsame.
  { intros s' Ec ? ?. split; [by constructor; rewrite ?Ec|rewrite Ec; lia]. }
  destruct action as [q|e|e|e|]; cbn [run_wave].
  - destruct (query_moves trunc real_to_string real_eq quotient average18 apb streams axi q req s) as [(Ec & El & Ee) _].
    apply Hsame; [done|by rewrite El|by rewrite Ee].
  - destruct (export_moves file parse trunc real_to_string dump_pretty make_dirs can_open room e req s) as (Ec & El & Ee).
    apply Hsame; [done|by rewrite El|by rewrite Ee].
  - destruct (list_edit_moves file parse trunc e req s) as (Ec & Ee & El). apply Hsame; [done|by apply El|by rewrite Ee].
  - destruct (cursor_edit_moves e req s) as (El & Ee & [Ec|Ec]); [apply Hsame; [done|by rewrite El|by rewrite Ee]|].
    split; [constructor; [by apply (cm_step_inv _ _ Ec)|by rewrite El|by rewrite Ee]|]. apply (cm_step_revision _ _ Ec), Hc.
  - destruct (config_load_moves req s) as (Ec & El & Ee). apply Hsame; [done|by rewrite El|by apply Ee].
Qed.

(** C27: after any history of waveform requests since the start of the engine,
    answered, refused or thrown, the cursors satisfy the invariant of the
    cursor registry, every list has a name and lists non-empty signals without
    repetition, and every stored event configuration is stored under its name
    with a clock, named signals, and fields that refer to them; and a query
    changes none of these nor writes a file. *)
Theorem wave_registries_valid (w : option W) files history : Z.of_nat (length history) <= u64_max ->
  let s := foldl wave_step_of (MkWaveState w cm_initial [] [] files) history in
  registries_ok s /\ forall q req, same_state s (wave_step_of s (AskWave q, req)).
Proof.
  intros Hn s. split; [|intros q req; apply query_moves]. unfold s. clear s.
  assert (forall s0, registries_ok s0 -> revision (ws_cursors s0) + Z.of_nat (length history) <= u64_max ->
    registries_ok (foldl wave_step_of s0 history)) as Hh.
  { clear Hn. induction history as [|[action req] history IH]; intros s0 Hok Hb; [done|]. cbn [foldl length] in *.
    destruct (run_wave_registries action req s0) as [H1 H2]; [lia|done|]. apply IH; [done|]. unfold wave_step_of at 1. cbn [fst snd]. lia. }
  apply Hh; [|cbn; lia]. constructor; cbn; [apply cm_initial_inv| |by split].
  split; [split; [done|]|]; by intros kl Hin%elem_of_nil.
Qed.
End Histories.

(** ** A table *)

Definition small_table : Table := MkTable [bits_row (lit "clk") []; bits_row (lit "a") (lit "110"); bits_row (lit "b") (lit "011")] 3 0.
#[local] Existing Instance table_wave.
#[local] Instance table_scan : ChangeScan Table := {| cw_scan_changes _ _ _ _ _ := None |}.
Definition request_of (args : list (bytes * json)) : json := jobj [(lit "args", jobj args)].
(** The number of events of an artifact stands for its text. *)
Definition event_count_text (j : json) : bytes := match jget (lit "events") j with Some (JArray l) => udec (zlen l) | _ => [] end.
Definition run_table := run_wave (W := Table) (V := Table) (fun _ => None) (fun _ => inl []) (fun _ => 0) (fun _ => []) (fun _ _ => true) (fun _ _ => [])
  (fun _ => []) event_count_text (fun _ => None) (fun _ => true) (fun _ _ => true)
  (MkApbState small_table [] []) (MkStreamState None [] []) (MkAxiState None [] [] []).
Definition table_start : WaveState Table := MkWaveState (Some small_table) cm_initial [] [] [].

Definition list_history : list (WaveAction * json) :=
  [(EditList ListCreate, request_of [(lit "name", JString (lit "l")); (lit "signals", JArray [JString (lit "a"); JString (lit "a")])]);
   (EditList ListAdd, request_of [(lit "name", JString (lit "l")); (lit "signal", JString (lit "b"))]);
   (EditList ListAdd, request_of [(lit "name", JString (lit "l")); (lit "signal", JString (lit "c"))])].
Definition after_table (history : list (WaveAction * json)) : WaveState Table :=
  foldl (fun s item => snd (run_table (fst item) (snd item) s)) table_start history.
Lemma wave_registries_valid_witness :
  lists_ok (ws_lists (after_table list_history)) /\ (sl_signals <$> lm_get (ws_lists (after_table list_history)) (lit "l")) = Some [lit "a"; lit "b"].
Proof.
  split; [|vm_compute; reflexivity]. apply ro_lists, (proj1 (wave_registries_valid (W := Table) (V := Table) (fun _ => None) (fun _ => inl []) (fun _ => 0) (fun _ => [])
    (fun _ _ => true) (fun _ _ => []) (fun _ => []) event_count_text (fun _ => None) (fun _ => true) (fun _ _ => true)
    (MkApbState small_table [] []) (MkStreamState None [] []) (MkAxiState None [] [] []) (Some small_table) [] list_history ltac:(vm_compute; discriminate))).
Defined.

Definition answer_at (path : list bytes) (r : res json) : option json :=
  match r with Ret response => foldl (fun j k => j ≫= jget k) (Some response) path | _ => None end.

(** list.create counts a repeated signal twice; the list holds it once. *)
Lemma create_counts_repetitions :
  let '(r, s) := run_table (EditList ListCreate) (request_of [(lit "name", JString (lit "l")); (lit "signals", JArray [JString (lit "a"); JString (lit "a")])])
                   table_start in
  answer_at [lit "summary"; lit "signal_count"] r = Some (JUint 2) /\ (sl_signals <$> lm_get (ws_lists s) (lit "l")) = Some [lit "a"].
Proof. vm_compute. split; reflexivity. Qed.

(** waveform.cursor.use activates the cursor, then refuses the unit. *)
Definition cursor_start : WaveState Table := set_cursors (snd (cm_set (snd (cm_set cm_initial (lit "x") 10)) (lit "y") 20)) table_start.
Lemma refused_use_activates :
  let '(r, s) := run_table (EditCursor CursorUse) (request_of [(lit "name", JString (lit "x")); (lit "render_time_unit", JString (lit "hours"))]) cursor_start in
  answer_at [lit "error"; lit "code"] r = Some (JString (lit "INVALID_TIME_UNIT")) /\
  active_name (ws_cursors cursor_start) <> lit "x" /\ active_name (ws_cursors s) = lit "x".
Proof. vm_compute. split_and!; [reflexivity|discriminate|reflexivity]. Qed.

(** event.export with a limit on the events writes that many and reports that
    all of them were returned and nothing was cut. *)
Lemma limited_export_reported_whole :
  let '(r, s) := run_table (WriteWave EventExportFiles) (request_of [(lit "clock", JString (lit "clk")); (lit "edge", JString (lit "posedge"));
      (lit "sample_point", JString (lit "after")); (lit "signals", jobj [(lit "a", JString (lit "a"))]); (lit "expr", JString (lit "a"));
      (lit "max_events", JUint 1); (lit "output", jobj [(lit "path", JString (lit "e.json"))])]) table_start in
  answer_at [lit "summary"; lit "returned_count"] r = Some (JUint 2) /\
  answer_at [lit "summary"; lit "response_truncated"] r = Some (JBool false) /\ mget (lit "e.json") (ws_files s) = Some (lit "1" ++ [newline]).
Proof. vm_compute. split_and!; reflexivity. Qed.

(** list.load has replaced the first list when it refuses the second. *)
Lemma refused_load_keeps_part :
  let item name signals := jobj [(lit "name", JString (lit name)); (lit "signals", JArray signals)] in
  let '(r, s) := run_table (EditList ListLoad) (request_of [(lit "config", jobj [(lit "lists", JArray [item "l" [JString (lit "b")]; item "" []])])])
                   (after_table list_history) in
  answer_at [lit "error"; lit "code"] r = Some (JString (lit "ACTION_FAILED")) /\ (sl_signals <$> lm_get (ws_lists s) (lit "l")) = Some [lit "b"].
Proof. vm_compute. split; reflexivity. Qed.

(** A bit of a field stands for the whole field. *)
Lemma field_select_dropped :
  bind_event_expression (fun _ => 0) (ESlice (lit "f") 0 0) (jobj [(lit "a", JString (lit "top.a"))])
    (jobj [(lit "f", jobj [(lit "signal", JString (lit "a")); (lit "left", JInt 7); (lit "right", JInt 4)])]) = Ret (inr (ESlice (lit "top.a") 7 4)).
Proof. reflexivity. Qed.

(** A field with bounds that are no numbers is stored, and using it throws. *)
Lemma field_bounds_unchecked :
  add_field (jobj [(lit "a", JString (lit "top.a"))]) (inr [])
    (Some (lit "f"), jobj [(lit "signal", JString (lit "a")); (lit "left", JString (lit "x")); (lit "right", JInt 0)])
  = Ret (inr [(lit "f", jobj [(lit "signal", JString (lit "a")); (lit "left", JString (lit "x")); (lit "right", JInt 0)])]) /\
  bind_event_expression (fun _ => 0) (ESignal (lit "f")) (jobj [(lit "a", JString (lit "top.a"))])
    (jobj [(lit "f", jobj [(lit "signal", JString (lit "a")); (lit "left", JString (lit "x")); (lit "right", JInt 0)])]) = Throw "type_error.302".
Proof. split; reflexivity. Qed.
