(* ===== verification/ScopeList.v ===== *)
(** * ScopeList: scope.roots and scope.list

    Models [src/engine/actions/waveform/scope_list.cpp]: the roots of the
    waveform and of the design and how they agree, and the rows of the scopes
    at a depth. [fnmatch] is an argument, like the files source lines are read
    from. *)

From S2P Require Import Prelude CLib Json Waveform WellenBackend BinaryDesign DesignIndex SessionContract Engine Xout SourceContext WaveState ClockActions SignalAnalysis.

Open Scope Z_scope.

(** ** The backends *)

Inductive ScopeKind := OtherScope | ModuleScope | InterfaceScope.
(** The scopes of a waveform. [None] is a null name. *)
Class ScopeTree (W : Type) := {
  st_scope_count : W -> Z;
  st_scope_at : W -> Z -> Z;
  st_root_scope_count : W -> Z;
  st_root_scope_at : W -> Z -> Z;
  st_child_count : W -> Z -> Z;
  st_child_at : W -> Z -> Z -> Z;
  st_var_count : W -> Z -> Z;
  st_var_at : W -> Z -> Z -> Z;
  st_scope_name : W -> Z -> option bytes;
  st_scope_full_name : W -> Z -> option bytes;
  st_scope_component : W -> Z -> option bytes;
  st_scope_kind : W -> Z -> ScopeKind;
  st_var_name : W -> Z -> option bytes;
  st_var_full_name : W -> Z -> option bytes;
  st_var_width : W -> Z -> Z;
}.
(** What the action handlers ask of the design besides the interface of DesignIndex.v. *)
Class DesignPlaces (D : Type) := {
  dp_signal_file : D -> Z -> res (option bytes);
  dp_signal_line : D -> Z -> res Z;
  dp_resolve : D -> bytes -> res Z;
  dp_signal_type : D -> Z -> res (option bytes);
  dp_signal_width : D -> Z -> res Z;
  dp_trace_driver : D -> Z -> res (list DriverRecord);
  dp_trace_load : D -> Z -> res (list LoadRecord);
}.
#[export] Instance binary_design_places : DesignPlaces BinaryDesignBackend := {|
  dp_signal_file := BinaryDesign.signal_file;
  dp_signal_line := BinaryDesign.signal_line;
  dp_resolve := resolve_name;
  dp_signal_type := BinaryDesign.signal_type;
  dp_signal_width := BinaryDesign.signal_width;
  dp_trace_driver := trace_driver;
  dp_trace_load := trace_load;
|}.

(** ** Paths *)

Definition not_dot (c : ascii) : bool := negb (eqc c "."%char).
Definition first_component (path : bytes) : bytes := fst (span not_dot path).
Definition local_name (path : bytes) : bytes :=
  match rfind "."%char path with None => path | Some dot => drop (dot + 1) path end.
Definition public_wave_path (path : bytes) : bytes :=
  if eqs path (lit "TOP") then lit "top"
  else if starts_with (lit "TOP.") path then lit "top" ++ drop 3 path
  else path.
Definition matches_scope_path (requested waveform_path : bytes) : bool :=
  if eqs requested waveform_path || eqs requested (public_wave_path waveform_path) then true
  else if starts_with (lit "TOP.") waveform_path || starts_with (lit "top.") waveform_path then eqs requested (drop 4 waveform_path)
  else false.
(** A name that is neither null nor empty. *)
Definition shown_name (name : option bytes) : option bytes := match name with Some (c :: s) => Some (c :: s) | _ => None end.
Definition under (prefix name : bytes) : bytes := match prefix with [] => name | _ => prefix ++ lit "." ++ name end.

Definition wave_root (path : bytes) : json :=
  jobj [(lit "path", JString path); (lit "name", JString (local_name path)); (lit "full_name", JString path);
        (lit "def_name", JString (local_name path)); (lit "type", JInt 0); (lit "queryable", JBool true)].
Definition design_root (path : bytes) : json :=
  jobj [(lit "path", JString path); (lit "name", JString (local_name path)); (lit "full_name", JString path);
        (lit "def_name", JString (local_name path)); (lit "kind", JString (lit "module")); (lit "discovery", JString (lit "npi_top"));
        (lit "traceable", JBool true)].

(** The name after the keyword [module] at the start of a line. *)
Definition module_char (c : ascii) : bool := isalnum c || existsb (eqc c) ["_"%char; "$"%char; chr 92].
Definition source_module_name (text : bytes) : bytes :=
  let rest := snd (span isspace text) in
  if negb (starts_with (lit "module") rest) then []
  else
    match drop 6 rest with
    | c :: _ as rest => if isspace c then fst (span module_char (snd (span isspace rest))) else []
    | [] => []
    end.

Section Scopes.
Context {W D : Type} `{ScopeTree W} `{DesignBackend D} `{DesignPlaces D}.
Context (getenv : bytes -> option bytes) (fs : FileSystem) (design_path waveform_path : bytes) (trunc : bytes -> Z) (fnmatch : bytes -> bytes -> bool).

(** ** scope.roots *)

(** Whether the design has a signal below [prefix] that is no port. *)
Fixpoint has_internal_state (d : D) (prefix : bytes) (signals : list Z) : res bool :=
  match signals with
  | [] => Ret false
  | i :: signals' =>
      name ← db_signal_name d i;
      match name with
      | Some n =>
          if starts_with prefix n then
            direction ← db_signal_direction d i;
            if direction =? 0 then Ret true else has_internal_state d prefix signals'
          else has_internal_state d prefix signals'
      | None => has_internal_state d prefix signals'
      end
  end.
(** The scope that takes the place of the wrapper [top]: its only child, when
    the design has internal state there. *)
Definition root_override (w : W) (d : D) (override : option bytes) (i : Z) : res (option bytes) :=
  let root := st_root_scope_at w i in
  match (if root =? 0 then None else st_scope_full_name w root) with
  | None => Ret override
  | Some root_full =>
      if negb (eqs (public_wave_path root_full) (lit "top")) || negb (st_child_count w root =? 1) then Ret override
      else
        let child := st_child_at w root 0 in
        match (if child =? 0 then None else shown_name (st_scope_name w child)) with
        | None => Ret override
        | Some child_name =>
            internal ← has_internal_state d (lit "top." ++ child_name ++ lit ".") (seqZ 0 (db_signal_count d));
            Ret (if internal : bool then Some child_name else override)
        end
  end.
Definition overridden (override : option bytes) (path : bytes) : bytes :=
  match override with Some child => if eqs path (lit "top") then child else path | None => path end.

(** A [std::set] and the order of the first insertions. *)
Definition insert_once (names : list bytes) (name : bytes) : list bytes := if existsb (eqs name) names then names else names ++ [name].
Definition wave_root_name (w : W) (override : option bytes) (i : Z) : option bytes :=
  let ref := st_root_scope_at w i in
  (fun name => overridden override (public_wave_path name)) <$> (if ref =? 0 then None else shown_name (st_scope_full_name w ref)).
Definition wave_root_names (w : W) (override : option bytes) : list bytes :=
  foldl insert_once [] (omap (wave_root_name w override) (seqZ 0 (st_root_scope_count w))).
Definition design_root_step (d : D) (override : option bytes) (names : list bytes) (i : Z) : res (list bytes) :=
  name ← db_signal_name d i;
  Ret (match shown_name name with
       | None => names
       | Some n => match overridden override (first_component n) with [] => names | root => insert_once names root end
       end).
Definition design_root_names (d : D) (override : option bytes) : res (list bytes) :=
  fold_res (design_root_step d override) (seqZ 0 (db_signal_count d)) [].

Inductive RootStatus := Matched | DesignOnly | WaveOnly.
Definition root_status (wave design : list bytes) (path : bytes) : RootStatus :=
  if existsb (eqs path) wave then if existsb (eqs path) design then Matched else WaveOnly else DesignOnly.
Definition root_json (wave design : list bytes) (path : bytes) : json :=
  let root sources status w d := jobj [(lit "path", JString path); (lit "sources", JArray (map (fun s => JString (lit s)) sources));
    (lit "status", JString (lit status)); (lit "wave", w); (lit "design", d)] in
  match root_status wave design path with
  | Matched => root ["design"%string; "wave"%string] "matched" (wave_root path) (design_root path)
  | DesignOnly => root ["design"%string] "design_only" JNull (design_root path)
  | WaveOnly => root ["wave"%string] "wave_only" (wave_root path) JNull
  end.
Definition is_matched (wave design : list bytes) (path : bytes) : bool := match root_status wave design path with Matched => true | _ => false end.
(** The recommended root, if there is one, and why. *)
Definition recommendation (wave design all : list bytes) : option bytes * bytes :=
  let matched := List.filter (is_matched wave design) all in
  match all with
  | [] => (None, lit "no roots discovered")
  | [path] => (Some path, lit "unique root")
  | _ =>
      match matched with
      | [path] => (Some path, lit "unique matched root")
      | _ :: _ => (None, lit "multiple matched roots")
      | [] => (None, lit "multiple roots or design/wave mismatch")
      end
  end.

Definition is_present {A} (o : option A) : bool := match o with Some _ => true | None => false end.
Definition roots_answer (source : bytes) (select_wave select_design wave_available design_available : bool) (wave design : list bytes) : json :=
  let all := string_set (wave ++ design) in
  let matched_count := zlen (List.filter (is_matched wave design) all) in
  let '(recommended, reason) := recommendation wave design all in
  let sources_complete := (negb select_wave || wave_available) && (negb select_design || design_available) in
  let data := jobj [(lit "roots", JArray (map (root_json wave design) all)); (lit "wave_roots", JArray (map wave_root wave));
                    (lit "design_roots", JArray (map design_root design))] in
  let limitations :=
    (if select_wave && negb wave_available then [JString (lit "wave roots unavailable: waveform not loaded")] else []) ++
    (if select_design && negb design_available then [JString (lit "design roots unavailable: design not loaded")] else []) in
  ok_response
    (jobj [(lit "source", JString source); (lit "wave_available", JBool wave_available); (lit "design_available", JBool design_available);
           (lit "resource_available", JBool (wave_available || design_available)); (lit "root_count", JUint (zlen all));
           (lit "wave_count", JUint (zlen wave)); (lit "design_count", JUint (zlen design)); (lit "matched_count", JUint matched_count);
           (lit "recommended_root", match recommended with Some path => JString path | None => JNull end);
           (lit "recommended_reason", JString reason); (lit "scan_complete", JBool sources_complete); (lit "analysis_complete", JBool sources_complete);
           (lit "response_truncated", JBool false); (lit "total_count", JUint (zlen all)); (lit "returned_count", JUint (zlen all));
           (lit "truncation_scopes", JArray (scope (negb sources_complete) "analysis_sources"))])
    (if sources_complete then data else set_key (lit "limitations") (JArray limitations) data).

Definition scope_roots (wave : option W) (design : option D) (req : json) : res json :=
  args ← value_or Ret (lit "args") (JObject []) req;
  source ← value_or as_string (lit "source") (lit "auto") args;
  let select_wave := eqs source (lit "auto") || eqs source (lit "wave") in
  let select_design := eqs source (lit "auto") || eqs source (lit "design") in
  override ← match wave, design with
             | Some w, Some d => fold_res (root_override w d) (seqZ 0 (st_root_scope_count w)) None
             | _, _ => Ret None
             end;
  let wave_names := match wave with Some w => if select_wave then wave_root_names w override else [] | None => [] end in
  design_names ← match design with Some d => if select_design then design_root_names d override else Ret [] | None => Ret [] end;
  Ret (roots_answer source select_wave select_design (is_present wave) (is_present design) wave_names design_names).

(** ** scope.list *)

(** The module the source names around a signal of the scope. *)
Fixpoint first_module (rows : list json) : res bytes :=
  match rows with
  | [] => Ret []
  | row :: rows' =>
      text ← value_or as_string (lit "text") [] row;
      match source_module_name text with [] => first_module rows' | name => Ret name end
  end.
Fixpoint component_of (d : D) (prefix : bytes) (signals : list Z) : res bytes :=
  match signals with
  | [] => Ret []
  | i :: signals' =>
      name ← db_signal_name d i;
      if negb (match name with Some n => starts_with prefix n | None => false end) then component_of d prefix signals'
      else
        file ← dp_signal_file d i;
        line ← dp_signal_line d i;
        match shown_name file with
        | None => component_of d prefix signals'
        | Some file =>
            if line <=? 0 then component_of d prefix signals'
            else
              rows ← trace_source_context getenv fs design_path waveform_path file line line;
              module_ ← first_module (json_items rows);
              match module_ with [] => component_of d prefix signals' | name => Ret name end
        end
  end.
Definition in_top (scope : bytes) : bytes := if starts_with (lit "top.") scope then scope else lit "top." ++ scope.
Definition design_scope_component (d : D) (waveform_scope : bytes) : res bytes :=
  component_of d (in_top (public_wave_path waveform_scope) ++ lit ".") (seqZ 0 (db_signal_count d)).

Definition matches_any (name : bytes) (patterns : json) : res bool :=
  (fix go (l : list json) : res bool :=
     match l with
     | [] => Ret false
     | p :: l' => pattern ← as_string p; if fnmatch pattern name then Ret true else go l'
     end) (json_items patterns).
Definition included (name : bytes) (includes excludes : json) : res bool :=
  excluded ← matches_any name excludes;
  if excluded : bool then Ret false
  else if (jsize includes =? 0)%nat then Ret true
  else matches_any name includes.

Fixpoint collect_depth (w : W) (depth : nat) (scope : Z) (prefix : bytes) : list (Z * bytes) :=
  match depth with
  | O => [(scope, prefix)]
  | S depth' =>
      concat (map (fun i => let child := st_child_at w scope i in
                            match (if child =? 0 then None else shown_name (st_scope_name w child)) with
                            | Some name => collect_depth w depth' child (under prefix name)
                            | None => []
                            end) (seqZ 0 (st_child_count w scope)))
  end.
(** The named roots. *)
Definition named_roots (w : W) : list (Z * bytes) :=
  omap (fun i => let root := st_root_scope_at w i in
                 (fun name => (root, name)) <$> (if root =? 0 then None else shown_name (st_scope_name w root))) (seqZ 0 (st_root_scope_count w)).
Definition base_scope (w : W) (path : bytes) : Z :=
  match List.find (fun ref => negb (ref =? 0) && match st_scope_full_name w ref with Some full => matches_scope_path path full | None => false end)
          (map (st_scope_at w) (seqZ 0 (st_scope_count w))) with
  | Some ref => ref
  | None => 0
  end.
(** A request has a level of at least 0: its schema says so. *)
Definition selected_scopes (w : W) (path : bytes) (level : nat) : json + list (Z * bytes) :=
  if eqs path [] || eqs path (lit ".") then
    inr (match level with
         | O => named_roots w
         | S depth => concat (map (fun root => collect_depth w depth (fst root) (snd root)) (named_roots w))
         end)
  else
    let base := base_scope w path in
    if base =? 0 then inl (error_response (lit "SCOPE_NOT_FOUND") (lit "scope not found: " ++ path))
    else inr (collect_depth w level base []).

Inductive RowKind := ModuleRow | PortRow | SignalRow.
Record ScopeRow := MkScopeRow { sr_kind : RowKind; sr_name : bytes; sr_json : json }.
Definition width_json (width : Z) : json := if width =? 0 then JNull else JUint width.
Definition port_row (name direction : bytes) (width : json) : ScopeRow :=
  MkScopeRow PortRow name (jobj [(lit "name", JString name); (lit "direction", JString direction); (lit "width", width)]).
Definition signal_row (name : bytes) (width : json) : ScopeRow :=
  MkScopeRow SignalRow name (jobj [(lit "name", JString name); (lit "width", width)]).
(** The direction the design gives a name; 0 without one. *)
Definition direction_of (design : option D) (name : bytes) : res Z :=
  match design with
  | None => Ret 0
  | Some d => index ← dp_resolve d name; if 0 <=? index then db_signal_direction d index else Ret 0
  end.
Definition module_name (w : W) (design : option D) (child : Z) (name : bytes) : res bytes :=
  match shown_name (st_scope_component w child) with
  | Some component => Ret component
  | None =>
      found ← match design, shown_name (st_scope_full_name w child) with
              | Some d, Some full => design_scope_component d full
              | _, _ => Ret []
              end;
      Ret (match found with [] => name | found => found end)
  end.
Definition child_row (w : W) (design : option D) (scope : Z) (prefix : bytes) (i : Z) : res (list ScopeRow) :=
  let child := st_child_at w scope i in
  match (if child =? 0 then None else shown_name (st_scope_name w child)) with
  | None => Ret []
  | Some name =>
      let relative := under prefix name in
      match st_scope_kind w child with
      | InterfaceScope =>
          let design_name := match st_scope_full_name w child with
                             | Some full => match public_wave_path full with [] => [] | path => in_top path end
                             | None => []
                             end in
          direction ← direction_of design design_name;
          Ret [if direction =? 0 then signal_row relative JNull else port_row relative (lit "interface") JNull]
      | _ =>
          module_ ← module_name w design child name;
          Ret [MkScopeRow ModuleRow relative (jobj [(lit "name", JString relative); (lit "module_name", JString module_)])]
      end
  end.
(** The name of a variable with its first component replaced. *)
Definition design_var_name (full : option bytes) : bytes :=
  let name := default [] full in
  match snd (span not_dot name) with [] => name | rest => lit "top" ++ rest end.
Definition direction_name (direction : Z) : bytes := if direction =? 1 then lit "input" else if direction =? 2 then lit "output" else lit "inout".
Definition var_row (w : W) (design : option D) (scope : Z) (prefix : bytes) (i : Z) : res (list ScopeRow) :=
  let var := st_var_at w scope i in
  match (if var =? 0 then None else shown_name (st_var_name w var)) with
  | None => Ret []
  | Some name =>
      let relative := under prefix name in
      let width := width_json (st_var_width w var) in
      direction ← direction_of design (design_var_name (st_var_full_name w var));
      Ret [if direction =? 0 then signal_row relative width else port_row relative (direction_name direction) width]
  end.
Definition scope_rows (w : W) (design : option D) (selected : Z * bytes) : res (list ScopeRow) :=
  children ← map_res (child_row w design (fst selected) (snd selected)) (seqZ 0 (st_child_count w (fst selected)));
  vars ← map_res (var_row w design (fst selected) (snd selected)) (seqZ 0 (st_var_count w (fst selected)));
  Ret (concat children ++ concat vars).

Fixpoint filter_rows (includes excludes : json) (rows : list ScopeRow) : res (list ScopeRow) :=
  match rows with
  | [] => Ret []
  | row :: rows' =>
      keep ← included (sr_name row) includes excludes;
      rest ← filter_rows includes excludes rows';
      Ret (if keep : bool then row :: rest else rest)
  end.
Definition kind_is (k : RowKind) (row : ScopeRow) : bool :=
  match k, sr_kind row with ModuleRow, ModuleRow | PortRow, PortRow | SignalRow, SignalRow => true | _, _ => false end.
Definition of_kind (k : RowKind) (rows : list ScopeRow) : list ScopeRow := List.filter (kind_is k) rows.
Definition eligible_rows (kind_ wanted : bytes) (includes excludes : json) (rows : list ScopeRow) : res (list ScopeRow) :=
  if eqs kind_ (lit "all") || eqs kind_ wanted then filter_rows includes excludes rows else Ret [].
(** The rows of one kind within the rows that remain, and what remains. *)
Definition apply_limit (remaining : Z) (rows : list ScopeRow) : list ScopeRow * Z :=
  let rows := if remaining <? zlen rows then take (Z.to_nat remaining) rows else rows in
  (rows, remaining - Z.min remaining (zlen rows)).
Definition limited_rows (max_rows : Z) (modules ports signals : list ScopeRow) : list ScopeRow * list ScopeRow * list ScopeRow :=
  let '(modules, remaining) := apply_limit max_rows modules in
  let '(ports, remaining) := apply_limit remaining ports in
  let '(signals, _) := apply_limit remaining signals in
  (modules, ports, signals).

Definition scope_list (w : W) (design : option D) (req : json) : res json :=
  args ← value_or Ret (lit "args") (JObject []) req;
  path ← value_or as_string (lit "path") [] args;
  level ← value_or (as_number trunc i32) (lit "level") 0 args;
  kind_ ← value_or as_string (lit "kind") (lit "all") args;
  includes ← value_or Ret (lit "include_patterns") (JArray []) args;
  excludes ← value_or Ret (lit "exclude_patterns") (JArray []) args;
  match selected_scopes w path (Z.to_nat level) with
  | inl error => Ret error
  | inr selected =>
      found ← map_res (scope_rows w design) selected;
      let all_rows := concat found in
      let all_modules := of_kind ModuleRow all_rows in
      let all_ports := of_kind PortRow all_rows in
      let all_signals := of_kind SignalRow all_rows in
      modules ← eligible_rows kind_ (lit "module") includes excludes all_modules;
      ports ← eligible_rows kind_ (lit "port") includes excludes all_ports;
      signals ← eligible_rows kind_ (lit "signal") includes excludes all_signals;
      let scanned := zlen all_modules + zlen all_ports + zlen all_signals in
      let eligible := zlen modules + zlen ports + zlen signals in
      limits ← value_or Ret (lit "limits") (JObject []) req;
      max_rows ← match jget (lit "max_rows") limits with Some n => as_number trunc u64 n | None => Ret eligible end;
      let '(modules, ports, signals) := limited_rows max_rows modules ports signals in
      let returned := zlen modules + zlen ports + zlen signals in
      let truncated := returned <? eligible in
      Ret (ok_response
        (jobj [(lit "path", JString path); (lit "level", JInt level); (lit "kind", JString kind_); (lit "include_patterns", includes);
               (lit "exclude_patterns", excludes); (lit "scanned_row_count", JUint scanned); (lit "returned_module_count", JUint (zlen modules));
               (lit "returned_port_count", JUint (zlen ports)); (lit "returned_signal_count", JUint (zlen signals));
               (lit "total_module_count", JUint (zlen all_modules)); (lit "total_port_count", JUint (zlen all_ports));
               (lit "total_signal_count", JUint (zlen all_signals)); (lit "scan_complete", JBool true); (lit "analysis_complete", JBool true);
               (lit "response_truncated", JBool truncated); (lit "total_count", JUint scanned); (lit "returned_count", JUint returned);
               (lit "truncation_scopes", JArray (scope truncated "response_rows"))])
        (jobj [(lit "modules", JArray (map sr_json modules)); (lit "ports", JArray (map sr_json ports)); (lit "signals", JArray (map sr_json signals))]))
  end.
End Scopes.

(** ** What scope.roots and scope.list show

    The roots of both sources and the one that is recommended, the scopes at a
    depth, and the rows that fit a limit. *)

(** ** Roots *)

Lemma insert_once_elem names name x : x ∈ insert_once names name <-> x ∈ names \/ x = name.
Proof.
  unfold insert_once. destruct (existsb (eqs name) names) eqn:E.
  - apply existsb_exists in E as (y & Hy & Ey). apply eqs_true in Ey as <-. apply list_elem_of_In in Hy. split; [by left|by intros [?| ->]].
  - by rewrite elem_of_app, list_elem_of_singleton.
Qed.
Lemma insert_once_nodup names name : NoDup names -> NoDup (insert_once names name).
Proof.
  intros Hn. unfold insert_once. destruct (existsb (eqs name) names) eqn:E; [done|]. apply list.NoDup_app. split; [done|]. split; [|apply NoDup_singleton].
  intros x Hx ->%list_elem_of_singleton. apply not_true_iff_false in E. apply E, existsb_exists. exists name. split; [by apply list_elem_of_In|apply eqs_refl].
Qed.

Lemma string_set_elem l x : x ∈ string_set l <-> x ∈ l.
Proof.
  unfold string_set, mfrom. assert (forall m, x ∈ map fst (foldl (fun m kv => mset (fst kv) (snd kv) m) m (map (fun k => (k, tt)) l)) <-> x ∈ l \/ x ∈ map fst m) as Hf.
  { induction l as [|k l IH]; intros m; cbn [map foldl]; [rewrite elem_of_nil; tauto|]. rewrite IH, mset_keys, elem_of_cons. cbn [fst]. tauto. }
  rewrite Hf, elem_of_nil. tauto.
Qed.

Section Roots.
Context (wave design : list bytes).

Lemma all_roots_elem path : path ∈ string_set (wave ++ design) <-> path ∈ wave \/ path ∈ design.
Proof. rewrite <- elem_of_app. apply string_set_elem. Qed.

(** A root is recommended exactly when it is the only one, or the only one
    both sources know. *)
Theorem recommended_root_exact all path :
  (recommendation wave design all).1 = Some path <-> all = [path] \/ List.filter (is_matched wave design) all = [path].
Proof.
  unfold recommendation. destruct all as [|a [|b all]].
  - cbn. split; [done|]. by intros [?|?].
  - cbn [fst]. split; [by intros [= ->]; left|]. intros [[= ->]|Hf]; [done|]. cbn in Hf. destruct (is_matched wave design a); [by injection Hf as ->|done].
  - destruct (List.filter _ (a :: b :: all)) as [|p [|q matched]] eqn:E; cbn [fst].
    + split; [done|]. by intros [?|?].
    + split; [intros [= ->]; by right|]. intros [?|[= ->]]; done.
    + split; [done|]. by intros [?|?].
Qed.
End Roots.

(** ** Depth *)

Section Depth.
Context {W : Type} `{ScopeTree W}.

Definition named_child (w : W) (scope child : Z) (name : bytes) : Prop :=
  exists i, 0 <= i < st_child_count w scope /\ child = st_child_at w scope i /\ child <> 0 /\ st_scope_name w child = Some name /\ name <> [].
(** The scopes that many named levels below, with the names on the way. *)
Inductive below (w : W) : nat -> Z -> bytes -> Z -> bytes -> Prop :=
| below_here scope prefix : below w 0 scope prefix scope prefix
| below_child n scope prefix child name s p :
    named_child w scope child name -> below w n child (under prefix name) s p -> below w (S n) scope prefix s p.

Lemma shown_name_some o name : shown_name o = Some name <-> o = Some name /\ name <> [].
Proof. destruct o as [[|c s]|]; cbn; split; try done; [by intros [[= <-] ?]|by intros [= <-]|by intros [? _]|by intros [? _]]. Qed.

Theorem collect_depth_exact (w : W) depth : forall scope prefix s p,
  (s, p) ∈ collect_depth w depth scope prefix <-> below w depth scope prefix s p.
Proof.
  induction depth as [|depth IH]; intros scope prefix s p; cbn [collect_depth].
  - rewrite list_elem_of_singleton. split; [intros [= -> ->]; constructor|]. inversion 1. done.
  - rewrite list_elem_of_In, in_concat. split.
    + intros (l & Hl & Hin). apply in_map_iff in Hl as (i & <- & Hi). apply list_elem_of_In, elem_of_seqZ in Hi.
      destruct (st_child_at w scope i =? 0) eqn:E0; [done|]. destruct (shown_name _) as [name|] eqn:En; [|done].
      apply shown_name_some in En as [En Hne]. apply list_elem_of_In, IH in Hin.
      econstructor; [|exact Hin]. exists i. split_and!; [lia..|done|done].
    + inversion 1 as [|n sc pre child name s' p' (i & Hi & -> & Hc & Hn & Hne) Hb]; subst. eexists. split.
      * apply in_map_iff. exists i. split; [reflexivity|]. apply list_elem_of_In, elem_of_seqZ. lia.
      * rewrite (proj2 (Z.eqb_neq _ _)) by done. rewrite (proj2 (shown_name_some _ name)) by done. by apply list_elem_of_In, IH.
Qed.
End Depth.

(** ** Limits *)

Lemma apply_limit_take remaining rows rows' left_ : 0 <= remaining -> apply_limit remaining rows = (rows', left_) ->
  rows' = take (Z.to_nat remaining) rows /\ left_ = Z.max 0 (remaining - zlen rows).
Proof.
  intros Hr. unfold apply_limit. destruct (remaining <? zlen rows) eqn:E; intros [= <- <-].
  - apply Z.ltb_lt in E. split; [done|]. unfold zlen in *. rewrite length_take. lia.
  - apply Z.ltb_ge in E. split; [symmetry; apply take_ge; unfold zlen in E; lia|lia].
Qed.
(** The rows shown are the first of the modules, the ports and the signals in
    this order, as many as the limit allows. *)
Theorem limited_rows_prefix max_rows modules ports signals m p s : 0 <= max_rows ->
  limited_rows max_rows modules ports signals = (m, p, s) -> m ++ p ++ s = take (Z.to_nat max_rows) (modules ++ ports ++ signals).
Proof.
  intros Hm. unfold limited_rows. destruct (apply_limit max_rows modules) as [m' r1] eqn:E1. apply apply_limit_take in E1 as [-> ->]; [|done].
  destruct (apply_limit _ ports) as [p' r2] eqn:E2. apply apply_limit_take in E2 as [-> ->]; [|lia].
  destruct (apply_limit _ signals) as [s' r3] eqn:E3. apply apply_limit_take in E3 as [-> _]; [|lia]. intros [= <- <- <-].
  rewrite !take_app. f_equal. unfold zlen. f_equal; f_equal; lia.
Qed.
