(* ===== verification/DesignActions.v ===== *)
(** * DesignActions: the actions on the design

    Models [src/engine/actions/design/signal_resolve.cpp] (signal.resolve,
    trace.driver, trace.load) and [src/engine/actions/design/design_actions.cpp]
    (signal.canonicalize, expr.normalize) over the design interface. *)

From S2P Require Import Prelude CLib Json LogicValue ExprParser WellenBackend BinaryDesign DesignIndex Engine SourceContext Xout WaveState ClockActions SignalAnalysis ScopeList.

Open Scope Z_scope.

(** ** Expressions *)

Fixpoint serialize_expr (node : ExprNode) : bytes :=
  match node with
  | ESignal s => s
  | ESlice s msb lsb => s ++ lit "[" ++ to_string msb ++ lit ":" ++ to_string lsb ++ lit "]"
  | EConst v => sv_literal v "h"%char
  | EUnary op r => op ++ serialize_expr r
  | EBinary op l r => lit "(" ++ serialize_expr l ++ lit " " ++ op ++ lit " " ++ serialize_expr r ++ lit ")"
  end.
Definition schema_operators : list (bytes * bytes) :=
  [(lit "||", lit "or"); (lit "&&", lit "and"); (lit "!=", lit "neq"); (lit "==", lit "eq"); (lit ">=", lit "ge"); (lit "<=", lit "le");
   (lit ">", lit "gt"); (lit "<", lit "lt"); (lit "+", lit "add"); (lit "-", lit "sub"); (lit "*", lit "mul")].
Definition schema_operator (op : bytes) : bytes := default [] (mget op schema_operators).
Definition unknown_ast (node : ExprNode) : json := jobj [(lit "type", JString (lit "unknown")); (lit "text", JString (serialize_expr node))].
Fixpoint expr_ast (node : ExprNode) : json :=
  match node with
  | ESignal s => jobj [(lit "type", JString (lit "signal")); (lit "name", JString s)]
  | ESlice _ _ _ => unknown_ast node
  | EConst v => jobj [(lit "type", JString (lit "const")); (lit "value", JString (sv_literal v "h"%char))]
  | EUnary op r =>
      if eqs op (lit "!") || eqs op (lit "~") then jobj [(lit "op", JString (lit "not")); (lit "args", JArray [expr_ast r])]
      else unknown_ast node
  | EBinary op l r =>
      match schema_operator op with
      | [] => unknown_ast node
      | name => jobj [(lit "op", JString name); (lit "args", JArray [expr_ast l; expr_ast r])]
      end
  end.

Definition split_signal (path : bytes) : bytes * bytes :=
  match rfind "."%char path with None => ([], path) | Some dot => (take dot path, drop (dot + 1) path) end.

Definition completeness_summary (signal mode : bytes) (total returned : Z) : json :=
  let truncated := returned <? total in
  jobj [(lit "signal", JString signal); (lit "mode", JString mode); (lit "scan_complete", JBool true); (lit "analysis_complete", JBool true);
        (lit "response_truncated", JBool truncated); (lit "total_count", JUint total); (lit "returned_count", JUint returned);
        (lit "truncation_scopes", JArray (scope truncated "response_paths"))].
Definition not_found (query : bytes) : json := error_response (lit "SIGNAL_NOT_FOUND") (lit "signal not found: " ++ query).

Section Actions.
Context {D : Type} `{DesignBackend D} `{DesignPlaces D}.
Context (getenv : bytes -> option bytes) (fs : FileSystem) (design_path waveform_path : bytes) (trunc : bytes -> Z).

Definition name_of (d : D) (index : Z) : res bytes :=
  if 0 <=? index then name ← db_signal_name d index; Ret (default [] name) else Ret [].
(** The signal of a request: what is asked for and its index. *)
Definition requested_signal (d : D) (req : json) : res (json * bytes * Z) :=
  args ← at_key (lit "args") req;
  query ← string_at (lit "signal") args;
  index ← dp_resolve d query;
  Ret (args, query, index).

(** ** signal.resolve *)

Definition signal_resolve (d : D) (req : json) : res json :=
  '(_, query, index) ← requested_signal d req;
  if index <? 0 then Ret (not_found query)
  else
    resolved ← name_of d index;
    type ← dp_signal_type d index;
    file ← dp_signal_file d index;
    line ← dp_signal_line d index;
    Ret (ok_response
      (jobj [(lit "status", JString (lit "found")); (lit "query", JString query); (lit "scan_complete", JBool true);
             (lit "analysis_complete", JBool true); (lit "response_truncated", JBool false); (lit "total_count", JInt 1);
             (lit "returned_count", JInt 1); (lit "truncation_scopes", JArray [])])
      (jobj [(lit "matches", JArray [jobj [(lit "signal", JString resolved); (lit "type", JString (default [] type));
               (lit "file", JString (default [] file)); (lit "line", JInt line)]])])).

(** ** trace.driver, trace.load *)

Definition trace_path (file : bytes) (line : Z) (signal_path : list bytes) : res json :=
  context ← trace_source_context getenv fs design_path waveform_path file line line;
  Ret (jobj [(lit "file", JString file); (lit "line", JInt line); (lit "source_context", context);
             (lit "signal_path", JArray (map JString signal_path))]).
Definition role_kept (role_filter role : bytes) : bool := eqs role_filter [] || eqs role role_filter.
Definition driver_kept (no_statement_only : bool) (role_filter : bytes) (r : DriverRecord) : bool :=
  negb (no_statement_only && (src_signal r <? 0)) && role_kept role_filter (dependency_role r).
Definition nonempty_name (name : bytes) : list bytes := match name with [] => [] | _ => [name] end.
Definition driver_path (d : D) (index : Z) (r : DriverRecord) : res json :=
  source ← (if 0 <=? src_signal r then name_of d (src_signal r) else Ret []);
  target ← name_of d index;
  trace_path (dr_file r) (dr_line r) (nonempty_name source ++ [target]).
Definition load_path (d : D) (index : Z) (r : LoadRecord) : res json :=
  source ← name_of d index;
  consumer ← name_of d (ld_consumer r);
  trace_path (ld_file r) (ld_line r) (source :: nonempty_name consumer).
Definition limited_paths (req : json) (query mode : bytes) (paths : list json) : res json :=
  limits ← value_or Ret (lit "limits") (JObject []) req;
  max_results ← match jget (lit "max_results") limits with Some n => as_number trunc u64 n | None => Ret (zlen paths) end;
  let returned := limited max_results paths in
  Ret (ok_response (completeness_summary query mode (zlen paths) (zlen returned)) (jobj [(lit "paths", JArray returned)])).

Definition trace_driver_action (d : D) (req : json) : res json :=
  '(args, query, index) ← requested_signal d req;
  if index <? 0 then Ret (not_found query)
  else
    no_statement_only ← value_or as_bool (lit "no_statement_only") false args;
    role_filter ← value_or as_string (lit "role") [] args;
    records ← dp_trace_driver d index;
    paths ← map_res (driver_path d index) (List.filter (driver_kept no_statement_only role_filter) records);
    limited_paths req query (lit "driver") paths.
Definition trace_load_action (d : D) (req : json) : res json :=
  '(args, query, index) ← requested_signal d req;
  if index <? 0 then Ret (not_found query)
  else
    role_filter ← value_or as_string (lit "role") [] args;
    records ← dp_trace_load d index;
    paths ← map_res (load_path d index) (List.filter (fun r => role_kept role_filter (ld_kind r)) records);
    limited_paths req query (lit "load") paths.

(** ** signal.canonicalize *)

Definition connection_json (instance port : bytes) (direction : Z) : json :=
  jobj [(lit "instance", JString instance); (lit "port", JString port);
        (lit "direction", JString (if direction =? 2 then lit "output" else lit "input_or_inout"));
        (lit "evidence", JString (lit "npi_static_port_connection"))].
Definition canonical_data (resolved canonical mapping : bytes) (connected connection : json) : json :=
  let '(scope, leaf) := split_signal resolved in
  jobj [(lit "resolved_path", JString resolved); (lit "connected_path", connected); (lit "canonical_path", JString canonical);
        (lit "mapping_kind", JString mapping); (lit "selection_basis", JString (lit "unique_exact_design_match"));
        (lit "scope", JString scope); (lit "leaf", JString leaf); (lit "connection", connection)].
Definition signal_canonicalize (d : D) (req : json) : res json :=
  '(_, query, index) ← requested_signal d req;
  if index <? 0 then Ret (not_found query)
  else
    name ← db_signal_name d index;
    let resolved := default query name in
    let '(scope, leaf) := split_signal resolved in
    connections ← db_port_connections d index;
    let answer data := Ret (ok_response
      (jobj [(lit "status", JString (lit "found")); (lit "query", JString query); (lit "match_count", JInt 1);
             (lit "canonicalization_scope", JString (lit "static_design_connectivity"))]) data) in
    let identity := canonical_data resolved resolved (lit "identity") JNull JNull in
    match connections with
    | [] => answer identity
    | [connection] =>
        connected ← db_signal_name d (connected_signal connection);
        match shown_name connected with
        | None => answer identity
        | Some connected_name =>
            direction ← db_signal_direction d index;
            answer (canonical_data resolved connected_name (lit "static_port_connection") (JString connected_name) (connection_json scope leaf direction))
        end
    | _ => Ret (error_response (lit "AMBIGUOUS_SIGNAL") (lit "signal has multiple static port connections: " ++ query))
    end.

(** ** expr.normalize *)

Definition normalize_signal (design : option D) (args : json) : res json :=
  signal ← string_at (lit "signal") args;
  match design with
  | None => Ret (error_response (lit "DESIGN_NOT_LOADED") (lit "action requires design database: expr.normalize"))
  | Some d =>
      index ← dp_resolve d signal;
      Ret (if index <? 0 then not_found signal
           else ok_response
             (jobj [(lit "signal", JString signal); (lit "source", JString (lit "npi_trace_assignment")); (lit "confidence", JString (lit "unknown"))])
             (jobj [(lit "expr", JObject []); (lit "assignment", JObject []); (lit "rhs_signals", JArray [])]))
  end.
Definition expr_normalize (design : option D) (req : json) : res json :=
  args ← value_or Ret (lit "args") (JObject []) req;
  if jcontains (lit "signal") args then normalize_signal design args
  else
    expression ← string_at (lit "expr") args;
    match parse_expression expression with
    | POk (None, message) =>
        Ret (error_response (lit "PARSE_ERROR") (match message with [] => lit "failed to parse expression: " ++ expression | _ => message end))
    | POk (Some root, _) =>
        Ret (ok_response
          (jobj [(lit "status", JString (lit "parsed")); (lit "source", JString (lit "deterministic_syntax_parser"));
                 (lit "confidence", JString (lit "syntax_validated"))])
          (jobj [(lit "expr", expr_ast root); (lit "parsed", JBool true);
                 (lit "confidence_reason", JString (lit "expression syntax was validated and parsed without design-resource semantics"))]))
    | PUB => UB
    | PFuel => Throw "unreachable"
    end.
End Actions.

(** ** Notes *)

(** The logical and the bitwise negation have the same normal form. *)
Lemma negations_conflated node : expr_ast (EUnary (lit "!") node) = expr_ast (EUnary (lit "~") node).
Proof. reflexivity. Qed.
