(* ===== verification/DriverFacts.v ===== *)
(** * DriverFacts: the facts a trace reads

    Models the first part of
    [src/engine/actions/combined/combined_actions.cpp]: the samples of a
    signal, the names a trace shows, the keys of X chains, the driver records
    with what the trace adds to them, and their grouping into statements. The
    reads of the design may have the undefined outcome of [res]; a step that
    looks signals up runs on the waveform. *)

From Stdlib Require Import Sorted.
From S2P Require Import Prelude Sorting CLib Json LogicValue Waveform ExprParser ExprEval ClockSampling WellenBackend BinaryDesign DesignIndex Engine Xout SourceContext WaveState ScopeList DesignActions.

Open Scope Z_scope.

(** ** Strings *)

(** [s.find(pattern)] *)
Fixpoint find_text (pattern s : bytes) : option nat :=
  if starts_with pattern s then Some O
  else match s with [] => None | _ :: s' => S <$> find_text pattern s' end.
(** The pieces of [s] between the characters [c]; [piece] is read so far. *)
Fixpoint split_on (c : ascii) (piece s : bytes) : list bytes :=
  match s with
  | [] => [piece]
  | d :: s' => if eqc d c then piece :: split_on c [] s' else split_on c (piece ++ [d]) s'
  end.
Definition any_of_chars (chars s : bytes) : bool := existsb (fun c => existsb (eqc c) chars) s.
Definition leaf_name (signal : bytes) : bytes := match rfind "."%char signal with None => signal | Some dot => drop (dot + 1) signal end.
(** [text.erase(text.find("//"))], when there is one. *)
Definition without_comment (text : bytes) : bytes := match find_text (lit "//") text with None => text | Some n => take n text end.
Definition is_nonempty (s : bytes) : bool := negb (is_nil s).

Definition x_chars : bytes := lit "xXhHuwUW-".
Definition has_x (bits : bytes) : bool := any_of_chars x_chars bits.
Definition x_bit (c : ascii) : bool := existsb (eqc c) (lit "xXhHuUwW-").
Definition x_mask (bits : bytes) : bytes := udec (zlen bits) ++ lit "'b" ++ map (fun c => if x_bit c then "1"%char else "0"%char) bits.
Definition known_bits (bits : bytes) : bool := negb (any_of_chars (lit "xXzZhHlLuUwW-") bits).

(** ** Keys of X chains *)

Definition semantic_token (token : bytes) : bool := is_nonempty token && negb (eqs token (lit "port")).
Definition join_token (semantic token : bytes) : bytes :=
  if semantic_token token then (if is_nil semantic then token else semantic ++ lit "+" ++ token) else semantic.
Definition x_origin_semantic_relation (relation : bytes) : bytes := foldl join_token [] (split_on "+"%char [] relation).

Definition identity_field (value : bytes) : bytes := udec (zlen value) ++ lit ":" ++ value.
Definition append_identity_field (key value : bytes) : bytes := key ++ identity_field value.
Definition hop_string (k : string) (hop : json) : res bytes := value_or as_string (lit k) [] hop.

Definition x_origin_hop_key (key : bytes) (hop : json) : res bytes :=
  raw ← hop_string "relation" hop;
  let relation := x_origin_semantic_relation raw in
  if is_nil relation then Ret key
  else
    signal ← hop_string "signal" hop;
    onset ← hop_string "x_onset_time" hop;
    Ret (foldl append_identity_field key [relation; signal; onset]).
Definition x_origin_tail_key (key : bytes) (chain : json) : res bytes :=
  if jcontains (lit "_semantic_tail_relation") chain then
    raw ← hop_string "_semantic_tail_relation" chain;
    let relation := x_origin_semantic_relation raw in
    if is_nil relation then Ret key
    else
      current ← at_key (lit "current") chain;
      signal ← hop_string "signal" current;
      onset ← hop_string "x_onset_time" current;
      Ret (foldl append_identity_field key [relation; signal; onset])
  else Ret key.
Definition x_origin_semantic_chain_key (chain : json) : res bytes :=
  hops ← value_or Ret (lit "hops") (JArray []) chain;
  key ← fold_res x_origin_hop_key (json_items hops) [];
  key ← x_origin_tail_key key chain;
  status ← hop_string "status" chain;
  let key := append_identity_field key status in
  match jget (lit "current") chain with
  | Some (JObject m) =>
      signal ← hop_string "signal" (JObject m);
      onset ← hop_string "x_onset_time" (JObject m);
      Ret (foldl append_identity_field key [signal; onset])
  | _ => Ret key
  end.
Definition x_origin_semantic_state_key (hops : json) (incoming_relation current_signal : bytes) (current_onset : Z) : res bytes :=
  key ← x_origin_semantic_chain_key (jobj [(lit "hops", hops)]);
  let relation := x_origin_semantic_relation incoming_relation in
  let key := if is_nil relation then key else append_identity_field key relation in
  Ret (foldl append_identity_field key [current_signal; udec current_onset]).

(** ** Samples *)

Record Sample := MkSample {
  sm_ok : bool; sm_ref : Z; sm_time_idx : Z; sm_width : Z; sm_query_time : Z; sm_time : Z; sm_active_time : Z; sm_bits : bytes }.
Definition no_sample : Sample := MkSample false 0 0 0 0 0 0 [].
Definition with_query_time (t : Z) (s : Sample) : Sample :=
  MkSample (sm_ok s) (sm_ref s) (sm_time_idx s) (sm_width s) t (sm_time s) (sm_active_time s) (sm_bits s).
Definition with_active_time (t : Z) (s : Sample) : Sample :=
  MkSample (sm_ok s) (sm_ref s) (sm_time_idx s) (sm_width s) (sm_query_time s) (sm_time s) t (sm_bits s).

Section Samples.
Context {W : Type} `{EngineWave W}.

(** The last index at or before [query_index]. *)
Fixpoint last_change (w : W) (query_index fallback : Z) (reversed : list Z) : Z :=
  match reversed with
  | [] => fallback
  | i :: reversed' => if i <=? query_index then sb_time_at w i else last_change w query_index fallback reversed'
  end.
Definition previous_change_time (w : W) (ref query_index fallback : Z) : Z :=
  last_change w query_index fallback (rev (sb_time_indices_of w ref)).

(** [waveform.find_signal(name)], as a step. *)
Definition look_up (name : bytes) : act W Z := fun w => let '(ref, w) := ew_find_signal w name in (Ret ref, w).
Definition found (name : bytes) : act W bool := ref ← look_up name; mret (negb (ref =? 0)).
Definition load_refs (refs : list Z) : act W Z := fun w => let '(n, w) := ew_load_signals w refs in (Ret n, w).
(** [if (!is_loaded(ref)) load_signals({ref});] *)
Definition ensure_loaded (ref : Z) : act W unit :=
  w ← get_state;
  if ew_is_loaded w ref then mret tt else _ ← load_refs [ref]; mret tt.
(** [!is_loaded(ref) && load_signals({ref}) != 1], negated. *)
Definition try_load (ref : Z) : act W bool :=
  w ← get_state;
  if ew_is_loaded w ref then mret true else n ← load_refs [ref]; mret (n =? 1).

Definition read_sample (w : W) (ref time : Z) : Sample :=
  let time_idx := ew_time_idx_of w time in
  match ew_signal_offset_at w ref time_idx with
  | None => MkSample false ref time_idx 0 time 0 0 []
  | Some offset =>
      let width := match ew_signal_info w ref with Some info => si_width info | None => 0 end in
      let at_ := sb_time_at w time_idx in
      let bits := ew_signal_value_str w ref (so_start offset) 0 in
      MkSample (is_nonempty bits) ref time_idx width time at_ (previous_change_time w ref time_idx at_) bits
  end.
Definition sample_at (signal : bytes) (time : Z) : act W Sample :=
  ref ← look_up signal;
  if ref =? 0 then mret (MkSample false 0 0 0 time 0 0 [])
  else _ ← ensure_loaded ref; w ← get_state; mret (read_sample w ref time).

Fixpoint onset_scan (w : W) (query : Sample) (onset : Z) (reversed : list Z) : Z :=
  match reversed with
  | [] => onset
  | i :: reversed' =>
      if sm_time_idx query <? i then onset_scan w query onset reversed'
      else match ew_signal_offset_at w (sm_ref query) i with
           | None => onset_scan w query onset reversed'
           | Some offset =>
               if has_x (ew_signal_value_str w (sm_ref query) (so_start offset) 0)
               then onset_scan w query (sb_time_at w i) reversed'
               else onset
           end
  end.
Definition x_onset_time (w : W) (query : Sample) : Z :=
  onset_scan w query (sm_time query) (rev (sb_time_indices_of w (sm_ref query))).

Definition first_before (w : W) (time : Z) (reversed : list Z) : option Z :=
  List.find (fun t => t <? time) (map (sb_time_at w) reversed).
Definition sample_before (signal : bytes) (time : Z) : act W Sample :=
  ref ← look_up signal;
  if ref =? 0 then mret no_sample
  else
    _ ← ensure_loaded ref;
    w ← get_state;
    match first_before w time (rev (sb_time_indices_of w ref)) with
    | Some candidate => sample_at signal candidate
    | None => mret no_sample
    end.

(** The last of the leading changes before [transition]. *)
Definition last_before (w : W) (transition : Z) (indices : list Z) : option Z :=
  list.last (fst (span (fun t => t <? transition) (map (sb_time_at w) indices))).
Definition sample_before_transition (signal : bytes) (transition query_time : Z) : act W (option Sample) :=
  ref ← look_up signal;
  if ref =? 0 then mret None
  else
    w ← get_state;
    let before := last_before w transition (sb_time_indices_of w ref) in
    if negb (is_present before) && (transition <=? ew_min_time w) then mret None
    else
      previous ← sample_at signal (default (ew_min_time w) before);
      mret (if sm_ok previous then Some (with_query_time query_time previous) else None).

(** ** Requests *)

Record TraceQuery := MkTraceQuery { tq_signal : bytes; tq_time : Z; tq_unit : TimeRenderUnit; tq_format : ValueRenderFormat }.
Definition parse_common (w : W) (request : json) : res (json + TraceQuery) :=
  args ← value_or Ret (lit "args") (JObject []) request;
  signal ← string_at (lit "signal") args;
  time_text ← string_at (lit "time") args;
  match ew_parse_time w time_text false with
  | inl message => Ret (inl (error_response (lit "INVALID_TIME") message))
  | inr time =>
      unit_text ← value_or as_string (lit "render_time_unit") (lit "ns") args;
      match parse_time_render_unit unit_text with
      | None => Ret (inl (error_response (lit "INVALID_FIELD") time_unit_error))
      | Some unit =>
          format_text ← value_or as_string (lit "value_format") (lit "hex") args;
          match parse_value_render_format format_text with
          | None => Ret (inl (error_response (lit "INVALID_FIELD") (lit "unsupported value_format")))
          | Some format => Ret (inr (MkTraceQuery signal time unit format))
          end
      end
  end.
End Samples.

Definition logic_json (s : Sample) (format : ValueRenderFormat) : json := logic_value_json (logic_value_from_bits (sm_bits s) (sm_width s)) format.
Definition logic_string (s : Sample) (format : ValueRenderFormat) : bytes := render_logic_value (logic_value_from_bits (sm_bits s) (sm_width s)) format.

(** ** Names *)

(** [-]digits, with either sign *)
Definition signed_digits (value : bytes) : bool :=
  let digits := match value with c :: value' => if eqc c "-"%char || eqc c "+"%char then value' else value | [] => [] end in
  is_nonempty digits && forallb isdigit digits.
(** [__bra__N__ket__] becomes [\[N\]]; the fuel is the text left to search. *)
Fixpoint decode_selectors (fuel : nat) (signal : bytes) : bytes :=
  match fuel with
  | O => signal
  | S fuel' =>
      match find_text (lit "__bra__") signal with
      | None => signal
      | Some begin =>
          let after := drop (begin + 7) signal in
          match find_text (lit "__ket__") after with
          | None => signal
          | Some n =>
              let value := take n after in
              let rest := decode_selectors fuel' (drop (n + 7) after) in
              if signed_digits value then take begin signal ++ lit "[" ++ value ++ lit "]" ++ rest
              else take (begin + 7 + n + 7) signal ++ rest
          end
      end
  end.
Definition decode_verilator_scope_selectors (signal : bytes) : bytes := decode_selectors (S (length signal)) signal.

Definition has_explicit_top_root (signal : bytes) : bool :=
  eqs signal (lit "top") || starts_with (lit "top.") signal || eqs signal (lit "TOP") || starts_with (lit "TOP.") signal.
Definition public_signal_name (signal requested_root : bytes) (compatibility_projection : bool) : bytes :=
  if eqs signal requested_root then signal
  else
    let projected :=
      if compatibility_projection && has_explicit_top_root requested_root then
        (if starts_with (lit "top.top.") signal || starts_with (lit "TOP.top.") signal then drop 4 signal else signal)
      else if compatibility_projection && (starts_with (lit "top.") signal || starts_with (lit "TOP.") signal) then drop 4 signal
      else signal in
    if compatibility_projection then decode_verilator_scope_selectors projected else projected.
Definition canonical_top (request : bytes) : bytes := if starts_with (lit "TOP.") request then lit "top." ++ drop 4 request else request.

(** Decimal digits up to [limit], the magnitude of an [int64_t]. *)
Fixpoint decimal_magnitude (limit magnitude : Z) (digits : bytes) : option Z :=
  match digits with
  | [] => Some magnitude
  | c :: digits' =>
      if negb (isdigit c) then None
      else
        let digit := code c - 48 in
        if (limit - digit) / 10 <? magnitude then None else decimal_magnitude limit (u64 (u64 (magnitude * 10) + digit)) digits'
  end.
Definition parse_signed_decimal (token : bytes) : option Z :=
  match token with
  | [] => None
  | c :: token' =>
      let negative := eqc c "-"%char in
      let digits := if negative || eqc c "+"%char then token' else token in
      if is_nil digits then None
      else
        let limit := if negative then u64 (i64_max + 1) else i64_max in
        magnitude ← decimal_magnitude limit 0 digits;
        Some (if negative then (if magnitude =? limit then i64_min else - i64 magnitude) else i64 magnitude)
  end.
(** The base and the value of a final [\[N\]]. *)
Definition final_numeric_selector (signal : bytes) : option (bytes * Z) :=
  if negb (ends_with "]"%char signal) then None
  else
    match rfind "["%char signal with
    | None => None
    | Some open_ =>
        if (open_ =? 0)%nat || (length signal <? open_ + 2)%nat then None
        else
          let selector := take (length signal - open_ - 2) (drop (open_ + 1) signal) in
          if is_nil selector || existsb (eqc ":"%char) selector then None
          else value ← parse_signed_decimal selector; Some (take open_ signal, value)
    end.
Definition selector_base_name (signal : bytes) : bytes := match final_numeric_selector signal with Some (base, _) => base | None => signal end.

Definition hierarchy_depth (signal : bytes) : nat := length (List.filter (eqc "."%char) signal).
Definition signal_scope (signal : bytes) : bytes := scope_of signal.
Definition is_scope_ancestor (ancestor descendant : bytes) : bool :=
  is_nonempty ancestor && starts_with (ancestor ++ lit ".") descendant.
Definition is_verilator_expression_temporary (signal : bytes) : bool := starts_with (lit "__vlemcall_") (leaf_name signal).

(** ** Ordered containers *)

Section Ordered.
Context {K V : Type} (cmp : K -> K -> comparison).
(** [f(map[k])] in a [std::map]: the entry is created when it is missing. *)
Fixpoint omap_alter (f : option V -> V) (k : K) (m : list (K * V)) : list (K * V) :=
  match m with
  | [] => [(k, f None)]
  | (k', v) :: m' =>
      match cmp k k' with
      | Lt => (k, f None) :: m
      | Eq => (k', f (Some v)) :: m'
      | Gt => (k', v) :: omap_alter f k m'
      end
  end.
Fixpoint omap_get (k : K) (m : list (K * V)) : option V :=
  match m with
  | [] => None
  | (k', v) :: m' => match cmp k k' with Eq => Some v | _ => omap_get k m' end
  end.
End Ordered.
Definition omap_set {K V} (cmp : K -> K -> comparison) (k : K) (v : V) : list (K * V) -> list (K * V) := omap_alter cmp (fun _ => v) k.
(** [std::set<int>] as the list of its members, in order. *)
Fixpoint oset_insert (z : Z) (s : list Z) : list Z :=
  match s with
  | [] => [z]
  | y :: s' => match Z.compare z y with Lt => z :: s | Eq => s | Gt => y :: oset_insert z s' end
  end.
Definition oset_of (l : list Z) : list Z := foldl (fun s z => oset_insert z s) [] l.
Definition zmem (z : Z) (s : list Z) : bool := existsb (Z.eqb z) s.
Definition smem (t : bytes) (s : list bytes) : bool := existsb (eqs t) s.
(** The order of [std::tuple]. *)
Definition pair_cmp {A B} (cmp_a : A -> A -> comparison) (cmp_b : B -> B -> comparison) (p q : A * B) : comparison :=
  match cmp_a (fst p) (fst q) with Eq => cmp_b (snd p) (snd q) | c => c end.

(** ** Driver records *)

(** [IDesignBackend::DriverRecord], with the fields only a trace fills. *)
Record Driver := MkFact {
  f_src : Z; f_kind : bytes; f_role : bytes; f_predicate : bytes; f_file : bytes; f_line : Z;
  f_identity : bytes;
  f_target_loop : option (Z * Z);
  f_rhs_selector_signal : Z;
  f_rhs_numeric_selector : option Z;
}.
Definition fact_of (r : DriverRecord) : Driver :=
  MkFact (src_signal r) (dr_kind r) (dependency_role r) (activation_predicate r) (dr_file r) (dr_line r) [] None (-1) None.
Definition with_src (z : Z) (f : Driver) : Driver :=
  MkFact z (f_kind f) (f_role f) (f_predicate f) (f_file f) (f_line f) (f_identity f) (f_target_loop f) (f_rhs_selector_signal f) (f_rhs_numeric_selector f).
Definition with_identity (s : bytes) (f : Driver) : Driver :=
  MkFact (f_src f) (f_kind f) (f_role f) (f_predicate f) (f_file f) (f_line f) s (f_target_loop f) (f_rhs_selector_signal f) (f_rhs_numeric_selector f).
Definition with_target_loop (role : bytes) (range : Z * Z) (f : Driver) : Driver :=
  MkFact (f_src f) (f_kind f) role (f_predicate f) (f_file f) (f_line f) (f_identity f) (Some range) (f_rhs_selector_signal f) (f_rhs_numeric_selector f).
Definition with_selector_signal (z : Z) (f : Driver) : Driver :=
  MkFact (f_src f) (f_kind f) (f_role f) (f_predicate f) (f_file f) (f_line f) (f_identity f) (f_target_loop f) z (f_rhs_numeric_selector f).
Definition with_numeric_selector (z : Z) (f : Driver) : Driver :=
  MkFact (f_src f) (f_kind f) (f_role f) (f_predicate f) (f_file f) (f_line f) (f_identity f) (f_target_loop f) (f_rhs_selector_signal f) (Some z).

Definition role_is (role : string) (f : Driver) : bool := eqs (f_role f) (lit role).
Definition kind_of_is (kind_ : string) (f : Driver) : bool := eqs (f_kind f) (lit kind_).
Definition has_source (f : Driver) : bool := 0 <=? f_src f.
Definition role_rank (f : Driver) : Z := if role_is "rhs" f then 0 else if role_is "control" f then 1 else 2.
Definition is_event_role (f : Driver) : bool := starts_with (lit "event_") (f_role f).
Definition is_assignment_kind (kind_ : bytes) : bool := smem kind_ [lit "nba"; lit "proc_assign"; lit "cont_assign"].

(** The sources of a statement: one per signal and numeric selector. *)
Definition same_rhs (item driver : Driver) : bool :=
  (f_src item =? f_src driver) && bool_decide (f_rhs_numeric_selector item = f_rhs_numeric_selector driver).
Definition add_rhs (rhs : list Driver) (driver : Driver) : list Driver :=
  if existsb (fun item => same_rhs item driver) rhs then rhs else rhs ++ [driver].

(** ** Statements *)

Record StatementGroup := MkGroup {
  g_kind : bytes; g_file : bytes; g_predicate : bytes; g_line : Z;
  g_event_time : option Z;
  g_predicate_unknown : bool;
  g_loop_ranges : list (Z * (Z * Z));
  g_records : list Driver;
  g_rhs : list Driver;
}.
Definition empty_group : StatementGroup := MkGroup [] [] [] 0 None false [] [] [].
Definition with_event (t : option Z) (g : StatementGroup) : StatementGroup :=
  MkGroup (g_kind g) (g_file g) (g_predicate g) (g_line g) t (g_predicate_unknown g) (g_loop_ranges g) (g_records g) (g_rhs g).
Definition with_unknown (g : StatementGroup) : StatementGroup :=
  MkGroup (g_kind g) (g_file g) (g_predicate g) (g_line g) (g_event_time g) true (g_loop_ranges g) (g_records g) (g_rhs g).
Definition with_rhs (rhs : list Driver) (g : StatementGroup) : StatementGroup :=
  MkGroup (g_kind g) (g_file g) (g_predicate g) (g_line g) (g_event_time g) (g_predicate_unknown g) (g_loop_ranges g) (g_records g) rhs.
Definition with_record (driver : Driver) (rhs : list Driver) (g : StatementGroup) : StatementGroup :=
  MkGroup (g_kind g) (g_file g) (g_predicate g) (g_line g) (g_event_time g) (g_predicate_unknown g) (g_loop_ranges g)
    (g_records g ++ [driver]) rhs.

Abbreviation StatementKey := (bytes * Z * bytes * bytes * bytes)%type.
Definition statement_key (f : Driver) : StatementKey := (f_file f, f_line f, f_kind f, f_predicate f, f_identity f).
Definition statement_key_cmp : StatementKey -> StatementKey -> comparison :=
  pair_cmp (pair_cmp (pair_cmp (pair_cmp str_compare Z.compare) str_compare) str_compare) str_compare.
Definition placed (f : Driver) : bool := is_nonempty (f_file f) && (0 <? f_line f).
Definition loop_ranges_with (f : Driver) (ranges : list (Z * (Z * Z))) : list (Z * (Z * Z)) :=
  match f_target_loop f with
  | Some range => if role_is "target_loop_index" f && has_source f then omap_set Z.compare (f_src f) range ranges else ranges
  | None => ranges
  end.
Definition group_with (f : Driver) (g : StatementGroup) : StatementGroup :=
  MkGroup (f_kind f) (f_file f) (if is_nil (g_predicate g) then f_predicate f else g_predicate g) (f_line f)
    (g_event_time g) (g_predicate_unknown g) (loop_ranges_with f (g_loop_ranges g)) (g_records g ++ [f])
    (if role_is "rhs" f && has_source f then add_rhs (g_rhs g) f else g_rhs g).
Definition group_driver (grouped : list (StatementKey * StatementGroup)) (f : Driver) : list (StatementKey * StatementGroup) :=
  if placed f then omap_alter statement_key_cmp (fun g => group_with f (default empty_group g)) (statement_key f) grouped else grouped.

Definition loop_indices (records : list Driver) : list Z :=
  oset_of (map f_src (List.filter (fun r => role_is "target_loop_index" r && has_source r) records)).
Section Groups.
Context `{StdSort}.
Definition finish_group (g : StatementGroup) : StatementGroup :=
  with_rhs (std_sort f_src (List.filter (fun r => negb (zmem (f_src r) (loop_indices (g_records g)))) (g_rhs g))) g.
Definition statement_groups (drivers : list Driver) : list StatementGroup :=
  map (fun kg => finish_group (snd kg)) (foldl group_driver [] drivers).
End Groups.

(** ** Native dependencies *)

Abbreviation LineKey := (bytes * Z * bytes)%type.
Definition native_key (g : StatementGroup) : LineKey := (g_file g, g_line g, g_kind g).
Definition native_group (g : StatementGroup) : StatementGroup :=
  MkGroup (g_kind g) (g_file g) (lit "1") (g_line g) (g_event_time g) false (g_loop_ranges g) [] [].
Definition native_add (merged : list StatementGroup) (g : StatementGroup) : list StatementGroup :=
  if existsb (fun m => bool_decide (native_key m = native_key g)) merged then merged else merged ++ [native_group g].
Definition native_record (driver : Driver) (g : StatementGroup) : StatementGroup :=
  if role_is "rhs" driver && is_present (omap_get Z.compare (f_src driver) (g_loop_ranges g)) then g
  else with_record driver (add_rhs (g_rhs g) driver) g.
Definition native_depend (merged : list StatementGroup) (driver : Driver) : list StatementGroup :=
  if negb (has_source driver) || negb (role_is "rhs" driver || (role_is "control" driver && kind_of_is "cont_assign" driver)) then merged
  else map (fun g => if bool_decide (native_key g = (f_file driver, f_line driver, f_kind driver)) then native_record driver g else g) merged.
Definition native_dependency_groups (active : list StatementGroup) (drivers : list Driver) : list StatementGroup :=
  List.filter (fun g => match g_records g with [] => false | _ => true end) (foldl native_depend (foldl native_add [] active) drivers).

Definition predicate_key (f : Driver) : bytes * Z * bytes * bytes := (f_file f, f_line f, f_kind f, f_predicate f).
(** Some statement has a record of both roles. *)
Definition has_native_loop_selection_boundary (drivers : list Driver) : bool :=
  existsb (fun a => role_is "rhs_loop_selected" a &&
    existsb (fun b => role_is "rhs_loop_index" b && bool_decide (predicate_key a = predicate_key b)) drivers) drivers.

(** The selector of a loop-selected source, when the statement has one. *)
Definition statement_selector (drivers : list Driver) (key : StatementKey) : option Z :=
  let selectors := oset_of (map f_src (List.filter (fun r => has_source r && negb (role_is "rhs_loop_selected" r) && role_is "rhs_loop_index" r
                                                            && bool_decide (statement_key r = key)) drivers)) in
  match selectors with [selector] => Some selector | _ => None end.
Definition loop_selected (drivers : list Driver) (f : Driver) : bool :=
  existsb (fun r => has_source r && role_is "rhs_loop_selected" r && bool_decide (statement_key r = statement_key f) && (f_src r =? f_src f)) drivers.
Definition annotate_loop_selected_rhs (drivers : list Driver) : list Driver :=
  map (fun f => match statement_selector drivers (statement_key f) with
                | Some selector => if role_is "rhs" f && loop_selected drivers f then with_selector_signal selector f else f
                | None => f
                end) drivers.

(** ** The design *)

Record SelectedDesignSignal := MkSelected { sd_index : Z; sd_exact : bool; sd_has_selector : bool; sd_base : bytes; sd_selector : Z }.
(** [std::sort] and [std::unique] on integers *)
Definition sorted_unique (l : list Z) : list Z := oset_of l.
(** The one port of the greatest depth. *)
Definition deepest_port (ports : list (Z * bytes)) : option (Z * bytes) :=
  let deepest := foldl Nat.max O (map (fun pn : Z * bytes => hierarchy_depth (snd pn)) ports) in
  match List.filter (fun pn : Z * bytes => (hierarchy_depth (snd pn) =? deepest)%nat) ports with [port] => Some port | _ => None end.
Definition other_end (c : PortConnection) (index : Z) : Z := if port_signal c =? index then connected_signal c else port_signal c.

Section Design.
Context {D : Type} `{DesignBackend D} `{DesignPlaces D} `{StdSort} (d : D) (x : DesignQueryIndex).

Definition signal_name (index : Z) : res bytes := name_of d index.
Definition drivers_for (index : Z) : res (list Driver) :=
  records ← (if 0 <=? index then dp_trace_driver d index else Ret []);
  Ret (stable_sort_by role_rank (map fact_of records)).

(** The index of a name, without its final selector when the name has none; and the name it was found by. *)
Definition resolve_lookup (signal : bytes) : res (Z * bytes) :=
  index ← dp_resolve d signal;
  if (index <? 0) && ends_with "]"%char signal then
    match rfind "["%char signal with
    | Some selector => let lookup := take selector signal in index ← dp_resolve d lookup; Ret (index, lookup)
    | None => Ret (index, signal)
    end
  else Ret (index, signal).
Definition resolves_below_top (signal : bytes) : res bool :=
  '(index, lookup) ← resolve_lookup signal;
  resolved ← signal_name index;
  Ret (is_nonempty resolved && eqs resolved (lit "top." ++ canonical_top lookup)).
Definition uses_native_visible_root (signal : bytes) : res bool :=
  if has_explicit_top_root signal then resolves_below_top signal else Ret true.
Definition uses_duplicate_hdl_top_projection (signal : bytes) : res bool :=
  if has_explicit_top_root signal then resolves_below_top signal else Ret false.

Definition resolve_selected_design_signal (signal : bytes) : res SelectedDesignSignal :=
  index ← dp_resolve d signal;
  name ← (if 0 <=? index then signal_name index else Ret []);
  let exact := (0 <=? index) && eqs name signal in
  match final_numeric_selector signal with
  | None => Ret (MkSelected index exact false [] 0)
  | Some (base, selector) =>
      index ← (if index <? 0 then dp_resolve d base else Ret index);
      if (0 <=? index) && negb exact then
        resolved ← signal_name index;
        Ret (match final_numeric_selector resolved with
             | Some (resolved_base, resolved_selector) =>
                 if (resolved_selector =? selector) && eqs (public_signal_name resolved (canonical_top signal) true) (canonical_top signal)
                 then MkSelected index true true resolved_base selector
                 else MkSelected index exact true base selector
             | None => MkSelected index exact true base selector
             end)
      else Ret (MkSelected index exact true base selector)
  end.

(** *** Which instance drives an output *)

Definition add_identity (scope : bytes) (source : Z) (m : gmap Z (list bytes)) : gmap Z (list bytes) :=
  <[source := insert_once (default [] (m !! source)) scope]> m.
Definition input_identities (scope : bytes) (m : gmap Z (list bytes)) (input_port : Z) : res (gmap Z (list bytes)) :=
  connections ← db_port_connections d input_port;
  Ret (foldl (fun m c => let source := other_end c input_port in if 0 <=? source then add_identity scope source m else m) m connections).
Definition output_identities (m : gmap Z (list bytes)) (output_port : Z) : res (gmap Z (list bytes)) :=
  name ← signal_name output_port;
  let scope := signal_scope name in
  if is_nil scope then Ret m else fold_res (input_identities scope) (ports_in_scope x scope 1) m.
Definition only_identity (m : gmap Z (list bytes)) (f : Driver) : option bytes :=
  match m !! f_src f with Some [identity] => Some identity | _ => None end.
(** The identities of a statement's sources, when each has exactly one and there are several. *)
Definition told_apart (m : gmap Z (list bytes)) (statement : list Driver) : bool :=
  match mapM (only_identity m) statement with
  | Some identities => (2 <=? length (foldl insert_once [] identities))%nat
  | None => false
  end.
Definition annotate_output_instance_identities (target : Z) (drivers : list Driver) : res (list Driver) :=
  let output_ports := ports_connected_to x target 2 in
  if (length output_ports <? 2)%nat then Ret drivers
  else
    identities ← fold_res output_identities output_ports (∅ : gmap Z (list bytes));
    let statement f := List.filter (fun r => bool_decide (predicate_key r = predicate_key f)) drivers in
    Ret (map (fun f => if told_apart identities (statement f)
                       then match only_identity identities f with Some identity => with_identity identity f | None => f end
                       else f) drivers).

(** *** Flattened leaves *)

Definition encoded_element (base : bytes) (selector : Z) : bytes := base ++ lit "__bra__" ++ to_string selector ++ lit "__ket__".
Definition named_rhs (encoded : bytes) (f : Driver) : res bool :=
  if role_is "rhs" f && has_source f then name ← signal_name (f_src f); Ret (eqs name encoded) else Ret false.
(** The chain of single continuous assignments; the source bounds it by 32. *)
Fixpoint collapse_chain (depth : nat) (visited : list Z) (leaf_target : Z) (leaf_drivers : list Driver) : res (Z * list Driver) :=
  match depth with
  | O => Ret (leaf_target, leaf_drivers)
  | S depth' =>
      if zmem leaf_target visited then Ret (leaf_target, leaf_drivers)
      else
        match statement_groups leaf_drivers with
        | [g] =>
            match g_rhs g with
            | [r] =>
                let next := f_src r in
                if negb (eqs (g_kind g) (lit "cont_assign")) || (next <? 0) || (next =? leaf_target) then Ret (leaf_target, leaf_drivers)
                else next_drivers ← drivers_for next; collapse_chain depth' (leaf_target :: visited) next next_drivers
            | _ => Ret (leaf_target, leaf_drivers)
            end
        | _ => Ret (leaf_target, leaf_drivers)
        end
  end.
(** The alias of the selected bit and its facts; [None] is a [false] return. *)
Definition selected_leaf (selected : SelectedDesignSignal) (drivers : list Driver) : res (option (Z * list Driver)) :=
  if sd_has_selector selected && negb (sd_exact selected) then
    base ← signal_name (sd_index selected);
    named ← filter_res (named_rhs (encoded_element base (sd_selector selected))) drivers;
    match oset_of (map f_src named) with
    | [leaf_target] =>
        leaf_drivers ← drivers_for leaf_target;
        leaf ← collapse_chain 32 [] leaf_target leaf_drivers;
        Ret (Some leaf)
    | _ => Ret None
    end
  else Ret (Some (sd_index selected, drivers)).
Definition with_name (port : Z) : res (Z * bytes) := name ← signal_name port; Ret (port, name).
(** The scope of the one deepest output port. *)
Definition leaf_instance_scope (leaf_target : Z) : res (option bytes) :=
  named ← map_res with_name (List.filter (fun port => negb (port =? leaf_target)) (ports_connected_to x leaf_target 2));
  match deepest_port (List.filter (fun pn : Z * bytes => is_nonempty (snd pn)) named) with
  | Some (_, name) => let scope := signal_scope name in Ret (if is_nil scope then None else Some scope)
  | None => Ret None
  end.
Definition inside_scope (scope : bytes) (port : Z) : res bool :=
  name ← signal_name port;
  let port_scope := signal_scope name in
  Ret (eqs port_scope scope || is_scope_ancestor scope port_scope).
Fixpoint map_sources (scope : bytes) (sources : list Z) (mapped : gmap Z Z) : res (option (gmap Z Z)) :=
  match sources with
  | [] => Ret (Some mapped)
  | source :: sources' =>
      if is_present (mapped !! source) then map_sources scope sources' mapped
      else
        inputs ← filter_res (inside_scope scope) (ports_connected_to x source 1);
        match sorted_unique inputs with
        | [port] => map_sources scope sources' (<[source := port]> mapped)
        | _ => Ret None
        end
  end.
Definition rhs_occurrences (drivers : list Driver) (source : Z) : Z :=
  zlen (List.filter (fun f => role_is "rhs" f && has_source f && (f_src f =? source)) drivers).
Definition map_leaf_driver (leaf_target : Z) (mapped : gmap Z Z) (all : list Driver) (st : list Driver * gmap Z Z) (f : Driver) : res (list Driver * gmap Z Z) :=
  let '(out, next_selector) := st in
  if negb (role_is "rhs" f || role_is "rhs_loop_selected" f) then Ret (out ++ [f], next_selector)
  else
    match mapped !! f_src f with
    | None => Ret (out ++ [f], next_selector)
    | Some port =>
        width ← dp_signal_width d leaf_target;
        full ← (if role_is "rhs" f && (1 <? width) && (rhs_occurrences all (f_src f) =? width)
                then port_width ← dp_signal_width d port; Ret (port_width =? width) else Ret false);
        let next := default 0 (next_selector !! f_src f) in
        Ret (if full : bool then (out ++ [with_numeric_selector next (with_src port f)], <[f_src f := u64 (next + 1)]> next_selector)
             else (out ++ [with_src port f], next_selector))
    end.
(** The new facts and the index they belong to. *)
Definition select_native_flattened_leaf_facts (selected : SelectedDesignSignal) (drivers : list Driver) : res (option (list Driver * Z)) :=
  leaf ← selected_leaf selected drivers;
  match leaf with
  | None => Ret None
  | Some (leaf_target, leaf_drivers) =>
      scope ← leaf_instance_scope leaf_target;
      match scope with
      | None => Ret None
      | Some scope =>
          mapped ← map_sources scope (map f_src (flat_map g_rhs (statement_groups leaf_drivers))) ∅;
          match mapped with
          | None => Ret None
          | Some mapped =>
              if decide (mapped = ∅) then Ret None
              else
                '(out, _) ← fold_res (map_leaf_driver leaf_target mapped leaf_drivers) leaf_drivers ([], ∅);
                Ret (Some (out, leaf_target))
          end
      end
  end.

Definition local_input (target_scope : bytes) (f : Driver) : res Driver :=
  if negb (role_is "rhs" f || role_is "rhs_loop_selected" f) || negb (has_source f) then Ret f
  else
    source ← signal_name (f_src f);
    if is_nil source || eqs (signal_scope source) target_scope || is_scope_ancestor target_scope source then Ret f
    else
      inputs ← filter_res (fun port => name ← signal_name port; Ret (eqs (signal_scope name) target_scope)) (ports_connected_to x (f_src f) 1);
      Ret (match sorted_unique inputs with [port] => with_src port f | _ => f end).
Definition map_native_local_input_ports (target : Z) (drivers : list Driver) : res (list Driver) :=
  name ← signal_name target;
  let target_scope := signal_scope name in
  if is_nil target_scope then Ret drivers else map_res (local_input target_scope) drivers.
End Design.

(** ** Keys decide identity *)

Lemma identity_field_inj v1 v2 s1 s2 : identity_field v1 ++ s1 = identity_field v2 ++ s2 -> v1 = v2 /\ s1 = s2.
Proof.
  unfold identity_field. rewrite <- !app_assoc. intros E.
  assert (udec (zlen v1) = udec (zlen v2) /\ v1 ++ s1 = v2 ++ s2) as [Hn Ev].
  { pose proof (f_equal (span isdigit) E) as Es. rewrite !span_stop in Es by (done || apply udec_digits). by simplify_eq. }
  apply udec_inj in Hn; [|unfold zlen; lia..]. apply app_inj_1 in Ev as [-> ->]; [done|]. unfold zlen in Hn. lia.
Qed.
Definition identity_fields (fields : list bytes) : bytes := concat (map identity_field fields).
Lemma identity_fields_inj l1 l2 : identity_fields l1 = identity_fields l2 -> l1 = l2.
Proof.
  assert (forall v s, identity_field v ++ s <> []) as Hne.
  { intros v s. unfold identity_field. destruct (udec (zlen v)); done. }
  unfold identity_fields. revert l2. induction l1 as [|v1 l1 IH]; intros [|v2 l2]; cbn [map concat]; [done|..].
  - intros E. by apply eq_sym, Hne in E.
  - intros E. by apply Hne in E.
  - intros [-> ->%IH]%identity_field_inj. done.
Qed.

(** What a hop contributes: nothing, when only ports were crossed. *)
Definition hop_identity (hop : json) : res (list bytes) :=
  raw ← hop_string "relation" hop;
  let relation := x_origin_semantic_relation raw in
  if is_nil relation then Ret []
  else signal ← hop_string "signal" hop; onset ← hop_string "x_onset_time" hop; Ret [relation; signal; onset].
Definition hop_identities (hops : json) : res (list (list bytes)) := map_res hop_identity (json_items hops).
Definition semantic_hops (parts : list (list bytes)) : list (list bytes) := List.filter (fun p => match p with [] => false | _ => true end) parts.

Lemma append_fields key fields : foldl append_identity_field key fields = key ++ identity_fields fields.
Proof.
  revert key. induction fields as [|f fields IH]; intros key; cbn [foldl]; [by rewrite app_nil_r|].
  rewrite IH. unfold append_identity_field, identity_fields. cbn [map concat]. by rewrite app_assoc.
Qed.
Lemma identity_fields_app l1 l2 : identity_fields (l1 ++ l2) = identity_fields l1 ++ identity_fields l2.
Proof. unfold identity_fields. by rewrite List.map_app, concat_app. Qed.
Lemma hop_key_identity key hop part : hop_identity hop = Ret part -> x_origin_hop_key key hop = Ret (key ++ identity_fields part).
Proof.
  unfold hop_identity, x_origin_hop_key. destruct (hop_string "relation" hop) as [raw| |]; cbn; [|done..].
  destruct (is_nil _); [intros [= <-]; by rewrite app_nil_r|]. destruct (hop_string "signal" hop) as [s| |]; cbn; [|done..].
  destruct (hop_string "x_onset_time" hop) as [o| |]; cbn; [|done..]. intros [= <-]. by rewrite <- append_fields.
Qed.
Lemma hops_key_identities hops parts key : map_res hop_identity hops = Ret parts ->
  fold_res x_origin_hop_key hops key = Ret (key ++ identity_fields (concat parts)).
Proof.
  unfold fold_res. revert parts key. induction hops as [|hop hops IH]; intros parts key; cbn [map_res foldl].
  - intros [= <-]. by rewrite app_nil_r.
  - destruct (hop_identity hop) as [part| |] eqn:E; cbn [mbind res_bind]; [|done..]. destruct (map_res hop_identity hops) as [ps| |]; cbn; [|done..].
    intros [= <-]. rewrite (hop_key_identity _ _ _ E), (IH ps) by done. cbn [concat]. by rewrite identity_fields_app, app_assoc.
Qed.
Definition optional_field (relation : bytes) : list bytes := if is_nil relation then [] else [relation].
Lemma state_key_fields hops parts relation signal onset : hop_identities hops = Ret parts ->
  x_origin_semantic_state_key hops relation signal onset =
    Ret (identity_fields (concat parts ++ [[]] ++ optional_field (x_origin_semantic_relation relation) ++ [signal; udec onset])).
Proof.
  intros E. unfold x_origin_semantic_state_key, x_origin_semantic_chain_key.
  change (value_or Ret (lit "hops") (JArray []) (jobj [(lit "hops", hops)])) with (Ret hops).
  change (Ret hops ≫= ?f) with (f hops). cbv beta.
  rewrite (hops_key_identities _ _ [] E). change (Ret ?a ≫= ?f) with (f a). cbv beta.
  rewrite (eq_refl : x_origin_tail_key _ (jobj [(lit "hops", hops)]) = Ret _). change (Ret ?a ≫= ?f) with (f a). cbv beta.
  rewrite (eq_refl : hop_string "status" (jobj [(lit "hops", hops)]) = Ret []). change (Ret ?a ≫= ?f) with (f a). cbv beta.
  rewrite (eq_refl : jget (lit "current") (jobj [(lit "hops", hops)]) = None). change (Ret ?a ≫= ?f) with (f a). cbv beta.
  rewrite append_fields. unfold append_identity_field, optional_field.
  destruct (is_nil _); rewrite !identity_fields_app; unfold identity_fields; cbn [map concat]; by rewrite ?app_nil_r, <- ?app_assoc.
Qed.

Lemma concat_triples_length parts : Forall (fun p : list bytes => p = [] \/ length p = 3%nat) parts ->
  (length (concat parts) = 3 * length (semantic_hops parts))%nat.
Proof.
  induction 1 as [|p parts Hp _ IH]; [done|]. unfold semantic_hops in *. cbn [concat List.filter]. rewrite length_app, IH.
  destruct Hp as [->|Hp]; [done|]. destruct p; [done|]. cbn [length] in *. lia.
Qed.
Lemma concat_triples_inj parts1 parts2 : Forall (fun p : list bytes => p = [] \/ length p = 3%nat) parts1 ->
  Forall (fun p : list bytes => p = [] \/ length p = 3%nat) parts2 ->
  concat parts1 = concat parts2 <-> semantic_hops parts1 = semantic_hops parts2.
Proof.
  assert (forall parts, Forall (fun p : list bytes => p = [] \/ length p = 3%nat) parts ->
    concat parts = concat (semantic_hops parts) /\ Forall (fun p => length p = 3%nat) (semantic_hops parts)) as Hs.
  { unfold semantic_hops. induction 1 as [|p parts Hp _ [IHc IHf]]; [by split|]. cbn [concat List.filter]. rewrite IHc.
    destruct Hp as [->|Hp]; [done|]. destruct p; [done|]. split; [done|by constructor]. }
  intros [-> F1]%Hs [-> F2]%Hs. split; [|by intros ->]. revert F1 F2. generalize (semantic_hops parts1) (semantic_hops parts2).
  intros l1 l2 F1. revert l2. induction F1 as [|p l1 Hp _ IH]; intros l2 F2; destruct F2 as [|q l2 Hq F2]; cbn [concat]; [done|..].
  - destruct q; done.
  - destruct p; done.
  - intros [-> E]%app_inj_1; [|by rewrite Hp, Hq]. f_equal. by apply IH.
Qed.
Lemma hop_identities_triples hops parts : hop_identities hops = Ret parts -> Forall (fun p : list bytes => p = [] \/ length p = 3%nat) parts.
Proof.
  unfold hop_identities. generalize (json_items hops). clear hops. intros hops. revert parts.
  induction hops as [|hop hops IH]; intros parts; cbn [map_res]; [intros [= <-]; constructor|].
  intros E.   apply res_bind_Ret in E as (part & Ep & E). apply res_bind_Ret in E as (ps & Eps & [= <-]). constructor; [|by apply IH].
  unfold hop_identity in Ep. apply res_bind_Ret in Ep as (raw & _ & Ep). destruct (is_nil _); [injection Ep as <-; by left|].
  apply res_bind_Ret in Ep as (s & _ & Ep). apply res_bind_Ret in Ep as (o & _ & [= <-]). by right.
Qed.

(** C34: keys of search states: for hops whose relation, signal and onset are
    strings, two states have the same key exactly when they crossed the same
    hops that are not ports, arrived by the same relation apart from ports, and
    stand at the same signal and onset. Length prefixes keep the fields apart,
    whatever characters a name holds. *)
Theorem semantic_state_key_exact hops1 hops2 parts1 parts2 r1 r2 s1 s2 o1 o2 :
  hop_identities hops1 = Ret parts1 -> hop_identities hops2 = Ret parts2 -> 0 <= o1 -> 0 <= o2 ->
  x_origin_semantic_state_key hops1 r1 s1 o1 = x_origin_semantic_state_key hops2 r2 s2 o2 <->
  semantic_hops parts1 = semantic_hops parts2 /\ x_origin_semantic_relation r1 = x_origin_semantic_relation r2 /\ s1 = s2 /\ o1 = o2.
Proof.
  intros E1 E2 H1 H2. rewrite (state_key_fields _ _ _ _ _ E1), (state_key_fields _ _ _ _ _ E2).
  pose proof (hop_identities_triples _ _ E1) as T1. pose proof (hop_identities_triples _ _ E2) as T2.
  pose proof (concat_triples_length _ T1) as L1. pose proof (concat_triples_length _ T2) as L2.
  rewrite <- (concat_triples_inj _ _ T1 T2). split; [|by intros (-> & -> & -> & ->)].
  intros [= E%identity_fields_inj]. assert (length (concat parts1) = length (concat parts2)) as Hl.
  { apply (f_equal length) in E. rewrite !length_app in E. unfold optional_field in E.
    destruct (is_nil (x_origin_semantic_relation r1)), (is_nil (x_origin_semantic_relation r2)); cbn [length app] in E; lia. }
  apply app_inj_1 in E as [-> E]; [|done]. cbn [app] in E. injection E as E.
  assert (s1 = s2 /\ o1 = o2 /\ optional_field (x_origin_semantic_relation r1) = optional_field (x_origin_semantic_relation r2)) as (-> & -> & Eo).
  { apply app_inj_2 in E as [-> E]; [|done]. injection E as -> E. by apply udec_inj in E. }
  split_and!; [done| |done..]. unfold optional_field in Eo.
  destruct (x_origin_semantic_relation r1), (x_origin_semantic_relation r2); cbn in Eo; congruence.
Qed.
Definition example_hop (relation signal onset : string) : json :=
  jobj [(lit "relation", JString (lit relation)); (lit "signal", JString (lit signal)); (lit "x_onset_time", JString (lit onset))].
(** A port hop on the way does not tell two states apart. *)
Lemma semantic_state_key_exact_witness :
  x_origin_semantic_state_key (JArray [example_hop "port" "a" "1"; example_hop "assign" "b" "2"]) (lit "port+control") (lit "c") 3 =
  x_origin_semantic_state_key (JArray [example_hop "port+assign" "b" "2"]) (lit "control") (lit "c") 3.
Proof. apply (semantic_state_key_exact _ _ [[]; [lit "assign"; lit "b"; lit "2"]] [[lit "assign"; lit "b"; lit "2"]]); by vm_compute. Defined.

(** ** Selectors *)

Lemma digit_of_code c : isdigit c = true -> code c - 48 = digit_of c.
Proof. intros Hc. unfold digit_of. by rewrite Hc. Qed.
Lemma digit_of_lt c : isdigit c = true -> 0 <= digit_of c < 10.
Proof. rewrite isdigit_base10. unfold is_base_digit. pose proof (digit_of_nonneg c). lia. Qed.
Lemma base_val_ge acc l : 0 <= acc -> acc <= base_val 10 acc l.
Proof.
  intros H. rewrite base_val_acc. pose proof (base_val_nonneg 10 0 l). pose proof (Z.pow_pos_nonneg 10 (Z.of_nat (length l))). nia.
Qed.
Lemma decimal_magnitude_exact limit digits m v : 0 <= limit < 2 ^ 64 -> 0 <= m <= limit ->
  decimal_magnitude limit m digits = Some v <-> forallb isdigit digits = true /\ v = base_val 10 m digits /\ v <= limit.
Proof.
  intros Hl. revert m. induction digits as [|c digits IH]; intros m Hm; cbn [decimal_magnitude forallb].
  - split; [intros [= <-]; by repeat split; try lia|intros (_ & -> & _); done].
  - destruct (isdigit c) eqn:Ec; cbn [negb andb]; [|split; [done|by intros [? _]]].
    rewrite (digit_of_code c Ec). pose proof (digit_of_lt c Ec) as Hd.
    change (base_val 10 m (c :: digits)) with (base_val 10 (m * 10 + digit_of c) digits).
    assert ((limit - digit_of c) / 10 < m <-> limit < m * 10 + digit_of c) as Hover.
    { pose proof (Z.mul_div_le (limit - digit_of c) 10). pose proof (Z.div_le_lower_bound (limit - digit_of c) 10 m).
      pose proof (Z.mul_succ_div_gt (limit - digit_of c) 10). lia. }
    destruct (Z.ltb_spec ((limit - digit_of c) / 10) m) as [Ho|Ho].
    + apply Hover in Ho. split; [done|]. intros (_ & -> & Hle). pose proof (base_val_ge (m * 10 + digit_of c) digits). lia.
    + assert (m * 10 + digit_of c <= limit) by lia. rewrite (u64_small (m * 10)), u64_small by lia. rewrite IH by lia. done.
Qed.

Definition signed_value (negative : bool) (digits : bytes) : Z := if negative then - base_val 10 0 digits else base_val 10 0 digits.
Lemma parse_digits_exact (negative : bool) digits v :
  (if is_nil digits then None
   else
     let limit := if negative then u64 (i64_max + 1) else i64_max in
     magnitude ← decimal_magnitude limit 0 digits;
     Some (if negative then (if magnitude =? limit then i64_min else - i64 magnitude) else i64 magnitude)) = Some v <->
  digits <> [] /\ forallb isdigit digits = true /\ v = signed_value negative digits /\ i64_min <= v <= i64_max.
Proof.
  destruct digits as [|c digits]; [split; [done|by intros [? _]]|]. cbn [is_nil]. generalize (c :: digits : bytes) (eq_refl : is_nil (c :: digits) = false).
  clear c digits. intros digits Hn. assert (digits <> []) by (by intros ->). unfold signed_value.
  pose proof (base_val_nonneg 10 0 digits ltac:(lia) ltac:(lia)) as Hb.
  set (limit := if negative then u64 (i64_max + 1) else i64_max). cbv zeta.
  assert (limit = if negative then 2 ^ 63 else 2 ^ 63 - 1) as Hlim by (subst limit; by destruct negative).
  assert (forall m, decimal_magnitude limit 0 digits = Some m <-> forallb isdigit digits = true /\ m = base_val 10 0 digits /\ m <= limit) as Hm.
  { intros m. apply decimal_magnitude_exact; rewrite Hlim; by destruct negative; lia. }
  clearbody limit. subst limit. unfold i64_min, i64_max. split.
  - destruct (decimal_magnitude _ _ _) as [m|]; [|done]. destruct (proj1 (Hm m) eq_refl) as (Hd & -> & Hle). cbn. intros [= <-].
    split_and!; try done; destruct negative; try (destruct (Z.eqb_spec (base_val 10 0 digits) (2 ^ 63)); rewrite ?i64_small by (unfold i64_min, i64_max; lia); lia);
      rewrite ?i64_small by (unfold i64_min, i64_max; lia); lia.
  - intros (_ & Hd & -> & Hr). rewrite (proj2 (Hm (base_val 10 0 digits))) by (split_and!; [done..|by destruct negative; lia]). cbn. f_equal.
    destruct negative; [|by apply i64_small]. destruct (Z.eqb_spec (base_val 10 0 digits) (2 ^ 63)) as [->|]; [done|]. rewrite i64_small; [done|]. unfold i64_min, i64_max. lia.
Qed.
Definition sign_of (negative : bool) (sign : bytes) : Prop := if negative then sign = lit "-" else sign = [] \/ sign = lit "+".
Lemma parse_signed_exact token v : parse_signed_decimal token = Some v <->
  exists negative sign digits, token = sign ++ digits /\ sign_of negative sign /\
    digits <> [] /\ forallb isdigit digits = true /\ v = signed_value negative digits /\ i64_min <= v <= i64_max.
Proof.
  split.
  - destruct token as [|c token]; [done|]. unfold parse_signed_decimal. destruct (eqc c "-"%char) eqn:Em; [|destruct (eqc c "+"%char) eqn:Ep]; cbn [orb]; intros E.
    + apply (parse_digits_exact true) in E. apply eqc_true in Em as ->. by exists true, (lit "-"), token.
    + apply (parse_digits_exact false) in E. apply eqc_true in Ep as ->. exists false, (lit "+"), token. split; [done|]. split; [by right|done].
    + apply (parse_digits_exact false (c :: token)) in E. exists false, [], (c :: token). split; [done|]. split; [by left|done].
  - intros (negative & sign & digits & -> & Hs & Hd). destruct negative; [cbn in Hs; subst sign; by apply (parse_digits_exact true)|].
    destruct Hs as [->| ->]; [|by apply (parse_digits_exact false)]. destruct digits as [|c digits]; [by destruct Hd|]. unfold parse_signed_decimal, app.
    assert (isdigit c = true) as Hc by (destruct Hd as (_ & Hd & _); cbn [forallb] in Hd; by bsplit).
    assert (eqc c "-"%char = false) as -> by (apply eqc_false; by intros ->). assert (eqc c "+"%char = false) as -> by (apply eqc_false; by intros ->).
    by apply (parse_digits_exact false (c :: digits)).
Qed.

Lemma rfind_split c s n : rfind c s = Some n -> (n < length s)%nat /\ s = take n s ++ c :: drop (S n) s.
Proof.
  revert n. induction s as [|d s IH]; intros n; cbn [rfind]; [done|]. destruct (rfind c s) as [i|].
  - intros [= <-]. destruct (IH i eq_refl) as [Hl E]. split; [cbn; lia|]. cbn [take drop app]. by f_equal.
  - destruct (eqc d c) eqn:Ed; [|done]. intros [= <-]. apply eqc_true in Ed as ->. split; [cbn; lia|done].
Qed.
Lemma rfind_here c a b : forallb (fun d => negb (eqc d c)) b = true -> rfind c (a ++ c :: b) = Some (length a).
Proof.
  intros Hb. assert (rfind c b = None) as Hn.
  { induction b as [|d b IH]; [done|]. cbn [rfind forallb] in *. bsplit. rewrite IH by done. by destruct (eqc d c). }
  induction a as [|d a IH]; cbn [app rfind length]; [by rewrite Hn, eqc_refl|by rewrite IH].
Qed.
Lemma last_split (c : ascii) s : list.last s = Some c -> s = take (length s - 1) s ++ [c].
Proof.
  intros [l ->]%last_Some. rewrite length_app. cbn [length]. replace (length l + 1 - 1)%nat with (length l) by lia. by rewrite take_app_length.
Qed.
Lemma no_char_digits (c : ascii) negative sign digits : isdigit c = false -> c <> "-"%char -> c <> "+"%char ->
  sign_of negative sign -> forallb isdigit digits = true -> forallb (fun d => negb (eqc d c)) (sign ++ digits) = true.
Proof.
  intros Hc Hm Hp Hs Hd. rewrite forallb_app. apply andb_true_intro. split.
  - destruct negative; cbn in Hs; [subst sign|destruct Hs as [->| ->]]; cbn; rewrite ?andb_true_r; try done; by apply negb_true_iff, eqc_false; intros <-.
  - rewrite forallb_forall in *. intros d Hin. apply negb_true_iff, eqc_false. intros ->. by rewrite (Hd _ Hin) in Hc.
Qed.

(** The trailing selector of a signal name is exact over the whole range
    of a 64-bit integer: [base\[N\]] with a non-empty base and an optional
    sign yields the base and the value of [N], the two extremes included;
    every other name, and every value outside the range, is refused. *)
Theorem final_numeric_selector_exact signal base v : final_numeric_selector signal = Some (base, v) <->
  exists negative sign digits, signal = base ++ lit "[" ++ (sign ++ digits) ++ lit "]" /\ base <> [] /\ sign_of negative sign /\
    digits <> [] /\ forallb isdigit digits = true /\ v = signed_value negative digits /\ i64_min <= v <= i64_max.
Proof.
  split.
  - unfold final_numeric_selector, ends_with. destruct (list.last signal) as [c|] eqn:El; [|done]. destruct (eqc c "]"%char) eqn:Ec; [|done]. cbn [negb].
    apply eqc_true in Ec as ->. destruct (rfind _ _) as [n|] eqn:Er; [|done]. apply rfind_split in Er as [Hn Es]. apply last_split in El.
    destruct (Nat.eqb_spec n 0) as [|H0]; [done|]. destruct (Nat.ltb_spec (length signal) (n + 2)) as [|H2]; [done|]. cbn [orb].
    set (selector := take _ _). destruct (is_nil selector || _); [done|]. destruct (parse_signed_decimal selector) as [z|] eqn:Ep; [|done]. cbn.
    intros [= <- <-]. apply parse_signed_exact in Ep as (negative & sign & digits & Et & Hs & Hd). exists negative, sign, digits. rewrite <- Et. split; [|split].
    + rewrite Es at 1. f_equal. change (lit "[" ++ selector ++ lit "]") with ("["%char :: selector ++ lit "]"). f_equal. subst selector.
      rewrite El at 1. rewrite drop_app_le by (rewrite length_take; lia). f_equal.
      rewrite take_drop_commute. replace (n + 1)%nat with (S n) by lia. by replace (S n + (length signal - n - 2))%nat with (length signal - 1)%nat by lia.
    + intros E0. apply (f_equal length) in E0. rewrite length_take in E0. cbn in E0. lia.
    + done.
  - intros (negative & sign & digits & -> & Hb & Hs & Hd). unfold final_numeric_selector, ends_with.
    assert (list.last (base ++ lit "[" ++ (sign ++ digits) ++ lit "]") = Some "]"%char) as -> by (rewrite !app_assoc; apply last_snoc).
    change (negb (eqc "]" "]")) with false. cbv iota.
    destruct Hd as (Hne & Hd & Hv).
    assert (forallb (fun d => negb (eqc d "["%char)) ((sign ++ digits) ++ lit "]") = true) as Hno
      by (rewrite forallb_app, (no_char_digits _ negative) by done; done).
    assert (existsb (eqc ":"%char) (sign ++ digits) = false) as Hc.
    { pose proof (no_char_digits ":"%char negative sign digits eq_refl ltac:(done) ltac:(done) Hs Hd) as Hc.
      apply not_true_iff_false. intros (d & Hin & E%eqc_true)%existsb_exists. rewrite forallb_forall in Hc. specialize (Hc _ Hin). subst d. by rewrite eqc_refl in Hc. }
    rewrite <- !app_assoc in *. change (lit "[" ++ sign ++ digits ++ lit "]") with ("["%char :: sign ++ digits ++ lit "]").
    rewrite rfind_here by done.
    assert (sign ++ digits <> []) as Hne2 by (intros [_ ->]%app_eq_nil; done).
    rewrite !length_app. cbn [length]. rewrite !length_app. change (length (lit "]")) with 1%nat.
    destruct base as [|b base]; [done|]. cbn [length Nat.eqb orb]. rewrite (proj2 (Nat.ltb_ge _ _)) by lia.
    replace (S (length base) + S (length sign + (length digits + 1)) - S (length base) - 2)%nat with (length (sign ++ digits)) by (rewrite length_app; lia).
    replace (S (length base) + 1)%nat with (length ((b :: base) ++ lit "[")) by (rewrite length_app; done).
    replace ((b :: base) ++ "["%char :: sign ++ digits ++ lit "]") with (((b :: base) ++ lit "[") ++ (sign ++ digits) ++ lit "]") by (rewrite <- !app_assoc; done).
    rewrite drop_app_length, take_app_length, Hc. destruct (is_nil (sign ++ digits)) eqn:En; [by destruct (sign ++ digits)|]. cbn [orb].
    rewrite (proj2 (parse_signed_exact _ v)) by (by exists negative, sign, digits). cbn. f_equal. f_equal. rewrite <- !app_assoc. exact (take_app_length (b :: base) _).
Qed.

(** ** Ordered maps *)

Class KeyOrder {K : Type} (cmp : K -> K -> comparison) := {
  ko_eq : forall a b, cmp a b = Eq <-> a = b;
  ko_antisym : forall a b, cmp b a = CompOpp (cmp a b);
  ko_trans : forall a b c, cmp a b = Lt -> cmp b c = Lt -> cmp a c = Lt;
}.
#[export] Instance str_key_order : KeyOrder str_compare := {|
  ko_eq := str_compare_eq; ko_antisym := str_compare_antisym; ko_trans := str_compare_lt_trans |}.
#[export] Instance Z_key_order : KeyOrder Z.compare.
Proof.
  split; [apply Z.compare_eq_iff|intros a b; apply Z.compare_antisym|]. intros a b c. rewrite !Z.compare_lt_iff. lia.
Qed.
#[export] Instance pair_key_order {A B} (ca : A -> A -> comparison) (cb : B -> B -> comparison) :
  KeyOrder ca -> KeyOrder cb -> KeyOrder (pair_cmp ca cb).
Proof.
  intros Ha Hb. split.
  - intros [a b] [a' b']. unfold pair_cmp. cbn [fst snd]. destruct (ca a a') eqn:E.
    + apply ko_eq in E as ->. rewrite ko_eq. split; congruence.
    + split; [done|]. intros [= -> ->]. by rewrite (proj2 (ko_eq a' a') eq_refl) in E.
    + split; [done|]. intros [= -> ->]. by rewrite (proj2 (ko_eq a' a') eq_refl) in E.
  - intros [a b] [a' b']. unfold pair_cmp. cbn [fst snd]. rewrite (ko_antisym a a'). destruct (ca a a'); cbn [CompOpp]; [apply ko_antisym|done..].
  - intros [a1 b1] [a2 b2] [a3 b3]. unfold pair_cmp. cbn [fst snd]. destruct (ca a1 a2) eqn:E12, (ca a2 a3) eqn:E23; intros; try done.
    + apply ko_eq in E12 as ->. rewrite E23. by eapply ko_trans.
    + apply ko_eq in E12 as ->. by rewrite E23.
    + apply ko_eq in E23 as <-. by rewrite E12.
    + by rewrite (ko_trans _ _ _ E12 E23).
Qed.

Section OrderedMaps.
Context {K V : Type} (cmp : K -> K -> comparison) `{KeyOrder K cmp}.
Abbreviation before := (fun a b : K => cmp a b = Lt).
Definition omap_sorted (m : list (K * V)) : Prop := StronglySorted before (map fst m).

Lemma cmp_refl k : cmp k k = Eq. Proof. by apply ko_eq. Qed.
Lemma omap_alter_keys (f : option V -> V) k m k' : k' ∈ map fst (omap_alter cmp f k m) <-> k' = k \/ k' ∈ map fst m.
Proof.
  induction m as [|[k1 v] m IH]; cbn [omap_alter map fst]; [by rewrite list_elem_of_singleton, elem_of_nil; tauto|].
  destruct (cmp k k1) eqn:E; cbn [map fst]; rewrite !elem_of_cons; [apply ko_eq in E as ->; tauto|tauto|rewrite IH; tauto].
Qed.
Lemma omap_alter_sorted (f : option V -> V) k m : omap_sorted m -> omap_sorted (omap_alter cmp f k m).
Proof.
  unfold omap_sorted. induction m as [|[k1 v] m IH]; cbn [omap_alter map fst]; intros Hs; [by repeat constructor|].
  inversion_clear Hs as [|? ? Hs' Hall]. destruct (cmp k k1) eqn:E; cbn [map fst].
  - by constructor.
  - constructor; [by constructor|]. constructor; [done|]. eapply list.Forall_impl; [exact Hall|]. intros k2 H2. by eapply ko_trans.
  - constructor; [by apply IH|]. apply list.Forall_forall. intros k2 [->|H2]%omap_alter_keys; [by rewrite ko_antisym, E|].
    by eapply list.Forall_forall in Hall.
Qed.
Lemma omap_get_alter_eq (f : option V -> V) k m : omap_sorted m -> omap_get cmp k (omap_alter cmp f k m) = Some (f (omap_get cmp k m)).
Proof.
  unfold omap_sorted. induction m as [|[k1 v] m IH]; cbn [omap_alter map fst omap_get]; intros Hs; [by rewrite cmp_refl|].
  inversion_clear Hs as [|? ? Hs' Hall]. destruct (cmp k k1) eqn:E; cbn [omap_get]; rewrite ?cmp_refl, ?E; [done| |by apply IH].
  f_equal. f_equal. symmetry. assert (forall m : list (K * V), Forall (before k) (map fst m) -> omap_get cmp k m = None) as Hnone.
  { clear. induction m as [|[k2 v2] m IH]; cbn [map fst omap_get]; [done|]. inversion_clear 1. rewrite H0. by apply IH. }
  apply Hnone. eapply list.Forall_impl; [exact Hall|]. intros k2 H2. by eapply ko_trans.
Qed.
Lemma omap_get_alter_ne (f : option V -> V) k k' m : k <> k' -> omap_get cmp k' (omap_alter cmp f k m) = omap_get cmp k' m.
Proof.
  intros Hne. assert (cmp k' k <> Eq) as Hc by (intros E%ko_eq; congruence).
  induction m as [|[k1 v] m IH]; cbn [omap_alter omap_get]; [by destruct (cmp k' k)|].
  destruct (cmp k k1) eqn:E; cbn [omap_get].
  - apply ko_eq in E as <-. by destruct (cmp k' k).
  - by destruct (cmp k' k).
  - by rewrite IH.
Qed.
Lemma omap_get_elem k (v : V) m : omap_sorted m -> (k, v) ∈ m <-> omap_get cmp k m = Some v.
Proof.
  unfold omap_sorted. induction m as [|[k1 v1] m IH]; cbn [map fst omap_get]; intros Hs; [by rewrite elem_of_nil|].
  inversion_clear Hs as [|? ? Hs' Hall]. rewrite elem_of_cons. destruct (cmp k k1) eqn:E.
  - apply ko_eq in E as ->. split; [|intros [= ->]; by left]. intros [[= ->]|Hin]; [done|]. exfalso.
    assert (k1 ∈ map fst m) as Hk by (apply list_elem_of_In, in_map_iff; exists (k1, v); by rewrite <- list_elem_of_In).
    eapply list.Forall_forall in Hall; [|exact Hk]. cbn in Hall. by rewrite cmp_refl in Hall.
  - rewrite <- IH by done. split; [|by right]. intros [[= -> ->]|Hin]; [by rewrite cmp_refl in E|done].
  - rewrite <- IH by done. split; [|by right]. intros [[= -> ->]|Hin]; [by rewrite cmp_refl in E|done].
Qed.
Lemma omap_get_key k (m : list (K * V)) : omap_sorted m -> k ∈ map fst m <-> is_Some (omap_get cmp k m).
Proof.
  intros Hs. split.
  - intros Hk. apply list_elem_of_In, in_map_iff in Hk as ([k1 v] & <- & Hin). exists v. apply omap_get_elem; [done|]. by apply list_elem_of_In.
  - intros [v Hv%omap_get_elem]; [|done]. apply list_elem_of_In, in_map_iff. exists (k, v). by rewrite <- list_elem_of_In.
Qed.
End OrderedMaps.

(** ** What the groups hold *)

Definition rhs_id (f : Driver) : Z * option Z := (f_src f, f_rhs_numeric_selector f).
Definition is_rhs (f : Driver) : bool := role_is "rhs" f && has_source f.
Lemma same_rhs_id a b : same_rhs a b = true <-> rhs_id a = rhs_id b.
Proof.
  unfold same_rhs, rhs_id. rewrite andb_true_iff, Z.eqb_eq, bool_decide_eq_true. split; [by intros [-> ->]|by intros [= -> ->]].
Qed.

(** One record of each source. *)
Definition one_of_each (l out : list Driver) : Prop :=
  (forall r, r ∈ out -> r ∈ l) /\ (forall r, r ∈ l -> exists r', r' ∈ out /\ rhs_id r' = rhs_id r) /\ NoDup (map rhs_id out).
Lemma add_rhs_each l out f : one_of_each l out -> one_of_each (l ++ [f]) (add_rhs out f).
Proof.
  intros (Hsub & Hall & Hnd). unfold add_rhs. destruct (existsb _ out) eqn:E.
  - apply existsb_exists in E as (r' & Hin & Hs). apply list_elem_of_In in Hin. apply same_rhs_id in Hs. split_and!; [|intros r|done].
    + intros r Hr. apply elem_of_app. left. by apply Hsub.
    + intros [Hr| ->%list_elem_of_singleton]%elem_of_app; [by apply Hall|by exists r'].
  - split_and!.
    + intros r [Hr| ->%list_elem_of_singleton]%elem_of_app; apply elem_of_app; [left; by apply Hsub|right; by left].
    + intros r [Hr| ->%list_elem_of_singleton]%elem_of_app; [|exists f; split; [apply elem_of_app; right; by left|done]].
      destruct (Hall r Hr) as (r' & Hin & Hid). exists r'. split; [apply elem_of_app; by left|done].
    + rewrite List.map_app. apply list.NoDup_app. split; [done|]. split; [|apply NoDup_singleton]. intros i Hi ->%list_elem_of_singleton.
      apply list_elem_of_In, in_map_iff in Hi as (r' & Hid & Hin). apply not_true_iff_false in E. apply E, existsb_exists. exists r'. split; [done|by apply same_rhs_id].
Qed.
Lemma fold_rhs_each l l0 out : one_of_each l0 out -> one_of_each (l0 ++ l) (foldl add_rhs out l).
Proof.
  revert l0 out. induction l as [|f l IH]; intros l0 out Ho; cbn [foldl]; [by rewrite app_nil_r|].
  replace (l0 ++ f :: l) with ((l0 ++ [f]) ++ l) by (by rewrite <- app_assoc). apply IH. by apply add_rhs_each.
Qed.
Lemma one_of_each_filter p l out : (forall a b, rhs_id a = rhs_id b -> p a = p b) -> one_of_each l out -> one_of_each (List.filter p l) (List.filter p out).
Proof.
  intros Hp (Hsub & Hall & Hnd). split_and!.
  - intros r Hr. apply list_elem_of_In, filter_In in Hr as [Hr Ep]. apply list_elem_of_In, filter_In. split; [|done]. by apply list_elem_of_In, Hsub, list_elem_of_In.
  - intros r Hr. apply list_elem_of_In, filter_In in Hr as [Hr Ep]. apply list_elem_of_In in Hr. destruct (Hall r Hr) as (r' & Hin & Hid).
    exists r'. split; [|done]. apply list_elem_of_In, filter_In. split; [by apply list_elem_of_In|]. by rewrite (Hp _ _ Hid).
  - clear Hsub Hall. induction out as [|r out IH]; [constructor|]. cbn [map List.filter] in *. apply list.NoDup_cons in Hnd as [Hn Hnd].
    destruct (p r); cbn [map]; [|by apply IH]. apply list.NoDup_cons. split; [|by apply IH]. intros Hin. apply Hn.
    apply list_elem_of_In, in_map_iff in Hin as (r' & Hid & Hin). apply filter_In in Hin as [Hin _]. apply list_elem_of_In, in_map_iff. by exists r'.
Qed.
Lemma one_of_each_perm l out out' : Permutation out' out -> one_of_each l out -> one_of_each l out'.
Proof.
  intros Hp (Hsub & Hall & Hnd). split_and!.
  - intros r. rewrite Hp. apply Hsub.
  - intros r Hr. destruct (Hall r Hr) as (r' & Hin & Hid). exists r'. by rewrite Hp.
  - by rewrite Hp.
Qed.

Definition raw_group (l : list Driver) : StatementGroup := foldl (fun g f => group_with f g) empty_group l.
Definition of_key (k : StatementKey) (drivers : list Driver) : list Driver :=
  List.filter (fun f => placed f && bool_decide (statement_key f = k)) drivers.
Lemma of_key_snoc k drivers f : of_key k (drivers ++ [f]) = of_key k drivers ++ (if placed f && bool_decide (statement_key f = k) then [f] else []).
Proof. unfold of_key. rewrite List.filter_app. cbn [List.filter]. by destruct (_ && _). Qed.
Lemma grouped_exact drivers : omap_sorted statement_key_cmp (foldl group_driver [] drivers) /\
  forall k, omap_get statement_key_cmp k (foldl group_driver [] drivers) = match of_key k drivers with [] => None | l => Some (raw_group l) end.
Proof.
  induction drivers as [|f drivers [IHs IHg]] using rev_ind; [by split; [constructor|]|]. rewrite foldl_app. cbn [foldl]. unfold group_driver at 1 3.
  split; [destruct (placed f); [by apply omap_alter_sorted; [apply _|]|done]|]. intros k. rewrite of_key_snoc. destruct (placed f) eqn:Ep; cbn [andb]; [|by rewrite app_nil_r].
  case_bool_decide as Ek.
  - subst k. rewrite omap_get_alter_eq by (apply _ || done). rewrite IHg. destruct (of_key (statement_key f) drivers) as [|a l] eqn:E; [done|]. cbn [default app].
    unfold raw_group. by rewrite app_comm_cons, foldl_app.
  - rewrite omap_get_alter_ne by (apply _ || done). by rewrite IHg, app_nil_r.
Qed.

Lemma raw_group_records l : g_records (raw_group l) = l /\ g_rhs (raw_group l) = foldl add_rhs [] (List.filter is_rhs l).
Proof.
  induction l as [|f l [IHr IHh]] using rev_ind; [done|]. unfold raw_group in *. rewrite foldl_app, List.filter_app. cbn [foldl List.filter g_records g_rhs group_with]. rewrite IHr, IHh.
  split; [done|]. unfold is_rhs at 4. destruct (role_is "rhs" f && has_source f); rewrite ?foldl_app, ?app_nil_r; done.
Qed.
Lemma raw_group_key k l : l <> [] -> (forall f, f ∈ l -> statement_key f = k) ->
  exists identity, k = (g_file (raw_group l), g_line (raw_group l), g_kind (raw_group l), g_predicate (raw_group l), identity).
Proof.
  destruct k as [[[[file line] kind_] predicate] identity]. intros Hne Hk. exists identity.
  assert (g_predicate (raw_group l) = predicate /\ (l <> [] -> g_file (raw_group l) = file /\ g_line (raw_group l) = line /\ g_kind (raw_group l) = kind_)
    \/ l = []) as [[-> He]|]; [|by destruct (He Hne) as (-> & -> & ->)|done].
  clear Hne. induction l as [|f l IH] using rev_ind; [by right|]. left. unfold raw_group. rewrite foldl_app. cbn [foldl group_with g_predicate g_file g_line g_kind].
  assert (statement_key f = (file, line, kind_, predicate, identity)) as Hf by (apply Hk, elem_of_app; right; by left). unfold statement_key in Hf. injection Hf as -> -> -> -> _.
  split; [|done]. destruct IH as [[IH _]| ->]; [intros f' Hf'; apply Hk, elem_of_app; by left| |done]. unfold raw_group in IH. rewrite IH. by destruct predicate.
Qed.

(** What a group of a key holds. *)
Record group_exact `{StdSort} (drivers : list Driver) (k : StatementKey) (g : StatementGroup) : Prop := {
  ge_records : g_records g = of_key k drivers;
  ge_place : exists identity, k = (g_file g, g_line g, g_kind g, g_predicate g, identity);
  ge_rhs : one_of_each (List.filter (fun r => negb (zmem (f_src r) (loop_indices (g_records g)))) (List.filter is_rhs (g_records g))) (g_rhs g);
  ge_sorted : StronglySorted (fun a b => f_src a <= f_src b) (g_rhs g);
}.

(** C29: the driver records of a signal are split into statements without loss:
    the groups are in the order of their keys (file, line, kind, predicate,
    instance), a key has a group exactly when a record with a place has it, the
    group's records are all of those records in their order, and its sources
    are one record for each distinct signal and selector among the data
    dependencies that are not loop indices, sorted by signal, however
    [std::sort] orders ties. *)
Theorem statement_groups_exact `{StdSort} drivers : exists keyed,
  statement_groups drivers = map snd keyed /\ StronglySorted (fun a b => statement_key_cmp a b = Lt) (map fst keyed) /\
  (forall k, k ∈ map fst keyed <-> exists f, f ∈ drivers /\ placed f = true /\ statement_key f = k) /\
  (forall k g, (k, g) ∈ keyed -> group_exact drivers k g).
Proof.
  destruct (grouped_exact drivers) as [Hs Hg]. set (m := foldl group_driver [] drivers) in *.
  exists (map (fun kg => (fst kg, finish_group (snd kg))) m). split_and!.
  - unfold statement_groups. by rewrite List.map_map.
  - by rewrite List.map_map.
  - intros k. rewrite List.map_map. cbn [fst]. rewrite omap_get_key by (apply _ || done). rewrite Hg. split.
    + destruct (of_key k drivers) as [|f l] eqn:E; [by intros [? ?]|]. intros _. exists f. assert (In f (of_key k drivers)) as Hin by (rewrite E; by left).
      apply filter_In in Hin as [Hin [Hp Hk%bool_decide_eq_true]%andb_prop]. by split; [apply list_elem_of_In|].
    + intros (f & Hin & Hp & <-). assert (In f (of_key (statement_key f) drivers)) as Hf.
      { apply filter_In. split; [by apply list_elem_of_In|]. by rewrite Hp, bool_decide_true. }
      destruct (of_key _ drivers); [done|by eexists].
  - intros k g Hin. apply list_elem_of_In, in_map_iff in Hin as ([k' g'] & [= <- <-] & Hin). apply list_elem_of_In in Hin. cbn [fst snd].
    rewrite (omap_get_elem statement_key_cmp), Hg in Hin by done. destruct (of_key k' drivers) as [|f l] eqn:E; [done|]. injection Hin as <-.
    rewrite <- E. assert (of_key k' drivers <> []) as Hne by (by rewrite E). destruct (raw_group_records (of_key k' drivers)) as [Hr Hh]. split.
    + done.
    + apply raw_group_key; [done|]. intros f' Hf'. apply list_elem_of_In, filter_In in Hf' as [_ [_ Hk]%andb_prop]. by apply bool_decide_eq_true in Hk.
    + cbn [finish_group with_rhs g_records g_rhs]. eapply one_of_each_perm; [apply std_sort_perm|]. apply one_of_each_filter; [unfold rhs_id; intros a b [= -> _]; done|].
      rewrite Hh, Hr. apply (fold_rhs_each _ [] []). split_and!; [done|by intros r ?%elem_of_nil|constructor].
    + apply std_sort_sorted.
Qed.
