(* ===== verification/ActiveStatements.v ===== *)
(** * ActiveStatements: which statement drives a signal at a time

    Models the second part of
    [src/engine/actions/combined/combined_actions.cpp]: the facts a trace
    selects for a boundary, the predicates of statements evaluated on the
    waveform, the statements that are active, and what the source text tells
    about them. A step runs on the waveform, whose lookups allocate handles;
    the files source lines are read from are an argument. *)

From Stdlib Require Import Sorted.
From S2P Require Import Prelude Sorting CLib Json LogicValue Waveform ExprParser ExprEval ClockSampling WellenBackend BinaryDesign DesignIndex Engine TableWave Xout SourceContext WaveState ScopeList DesignActions DriverFacts.

Open Scope Z_scope.

(** ** Loops of steps *)

Section Loops.
Context {St A B : Type}.
Fixpoint fold_act (f : B -> A -> act St B) (l : list A) (b : B) : act St B :=
  match l with [] => mret b | a :: l' => b ← f b a; fold_act f l' b end.
Fixpoint map_act (f : A -> act St B) (l : list A) : act St (list B) :=
  match l with [] => mret [] | a :: l' => b ← f a; bs ← map_act f l'; mret (b :: bs) end.
(** [std::any_of]: the first hit ends the search. *)
Fixpoint exists_act (p : A -> act St bool) (l : list A) : act St bool :=
  match l with [] => mret false | a :: l' => hit ← p a; match hit with true => mret true | false => exists_act p l' end end.
End Loops.

(** ** Source text *)

Definition trim_copy (value : bytes) : bytes := rev (snd (span isspace (rev (snd (span isspace value))))).
(** [text.find("<=")], else the first [=] that is no comparison; what follows it. [before] is the character before. *)
Fixpoint plain_assignment (before : ascii) (text : bytes) : option bytes :=
  match text with
  | [] => None
  | c :: text' =>
      if eqc c "="%char && negb (existsb (eqc before) (lit "=!<>")) && negb (starts_with (lit "=") text') then Some text' else plain_assignment c text'
  end.
Definition assignment_rhs (text : bytes) : option bytes :=
  match find_text (lit "<=") text with
  | Some n => Some (drop (n + 2) text)
  | None => plain_assignment (chr 0) text
  end.

(** [depth] open parentheses so far; they close at the end and not before. *)
Fixpoint closes_at_end (depth : Z) (value : bytes) : bool :=
  match value with
  | [] => depth =? 0
  | c :: value' =>
      let depth := if eqc c "("%char then depth + 1 else if eqc c ")"%char then depth - 1 else depth in
      if (depth =? 0) && is_nonempty value' then false else if depth <? 0 then false else closes_at_end depth value'
  end.
Definition balanced_outer_parentheses (value : bytes) : bool :=
  (2 <=? length value)%nat && starts_with (lit "(") value && ends_with ")"%char value && closes_at_end 0 value.
(** The fuel is the length: each round drops two characters. *)
Fixpoint strip_parentheses (fuel : nat) (value : bytes) : bytes :=
  match fuel with
  | O => value
  | S fuel' => if balanced_outer_parentheses value then strip_parentheses fuel' (trim_copy (take (length value - 2) (drop 1 value))) else value
  end.
Fixpoint signal_chars (bracket_depth : Z) (value : bytes) : bool :=
  match value with
  | [] => bracket_depth =? 0
  | c :: value' =>
      if eqc c "["%char then signal_chars (bracket_depth + 1) value'
      else if eqc c "]"%char then (if bracket_depth =? 0 then false else signal_chars (bracket_depth - 1) value')
      else if 0 <? bracket_depth then (if existsb (eqc c) (lit "?{}|&^!~*/%=,") then false else signal_chars bracket_depth value')
      else if isalnum c || existsb (eqc c) ["_"%char; "$"%char; "."%char; chr 92] then signal_chars bracket_depth value'
      else false
  end.
Definition direct_signal_syntax (expression : bytes) : bool :=
  let value := strip_parentheses (length expression) (trim_copy expression) in
  match value with
  | [] => false
  | first :: _ => (isalpha first || existsb (eqc first) ["_"%char; "$"%char; chr 92]) && signal_chars 0 value
  end.
(** [while (rhs.back() is ; or ,) { pop; trim }], on the reversed text. *)
Fixpoint strip_terminators (fuel : nat) (rhs : bytes) : bytes :=
  match fuel with
  | O => rhs
  | S fuel' => if ends_with ";"%char rhs || ends_with ","%char rhs then strip_terminators fuel' (trim_copy (take (length rhs - 1) rhs)) else rhs
  end.

Definition parse_expr (text : bytes) : res (option ExprNode) :=
  match parse_expression text with
  | POk (root, _) => Ret root
  | PUB => UB
  | PFuel => Throw "unreachable"
  end.

(** The value of [variable] in a [for (variable = first; variable < end; variable++)] on one line. *)
Definition for_header (text : bytes) : option (bytes * bytes * bytes) :=
  let text := List.filter (fun c => negb (isspace c)) (without_comment text) in
  open_ ← find_text (lit "for(") text;
  let rest := drop (open_ + 4) text in
  first_ ← find_text (lit ";") rest;
  let rest2 := drop (first_ + 1) rest in
  second_ ← find_text (lit ";") rest2;
  let rest3 := drop (second_ + 1) rest2 in
  close ← find_text (lit ")") rest3;
  Some (take first_ rest, take second_ rest2, take close rest3).
Definition declares (variable declaration : bytes) : bool :=
  (length variable <=? length declaration)%nat && eqs (drop (length declaration - length variable) declaration) variable &&
  smem (take (length declaration - length variable) declaration) [[]; lit "int"; lit "integer"; lit "logic"; lit "reg"].
Definition for_range (variable text : bytes) : option (Z * Z) :=
  '(initializer, condition, step) ← for_header text;
  equals ← rfind "="%char initializer;
  if negb (declares variable (take equals initializer)) then None
  else if negb (starts_with (variable ++ lit "<") condition) || negb (eqs step (variable ++ lit "++") || eqs step (lit "++" ++ variable)) then None
  else
    begin ← parse_signed_decimal (drop (equals + 1) initializer);
    exclusive_end ← parse_signed_decimal (drop (length variable + 1) condition);
    if exclusive_end <=? begin then None else Some (begin, exclusive_end - 1).

(** ** Expressions *)

Fixpoint replace_expression_signal (from to : bytes) (node : ExprNode) : ExprNode :=
  match node with
  | ESignal s => if eqs s from then ESignal to else node
  | ESlice s m l => if eqs s from then ESlice to m l else node
  | EConst _ => node
  | EUnary op r => EUnary op (replace_expression_signal from to r)
  | EBinary op a b => EBinary op (replace_expression_signal from to a) (replace_expression_signal from to b)
  end.
Definition clamp (low high z : Z) : Z := Z.max low (Z.min high z).
Definition slice_bits (value msb lsb : Z) : res Z :=
  if 64 <=? lsb then Ret 0 else if lsb <? 0 then UB
  else
    let width := clamp 1 64 (msb - lsb + 1) in
    let raw := Z.shiftr (u64 value) lsb in
    Ret (if width <? 64 then Z.land raw (Z.shiftl 1 width - 1) else raw).
Fixpoint bind_expression_signal (signal : bytes) (value width : Z) (node : ExprNode) : res ExprNode :=
  match node with
  | ESignal s => if eqs s signal then v ← logic_value_from_u64 (u64 value) (clamp 1 64 width); Ret (EConst v) else Ret node
  | ESlice s m l =>
      if eqs s signal then raw ← slice_bits value m l; v ← logic_value_from_u64 raw (clamp 1 64 (m - l + 1)); Ret (EConst v) else Ret node
  | EConst _ => Ret node
  | EUnary op r => r ← bind_expression_signal signal value width r; Ret (EUnary op r)
  | EBinary op a b =>
      a ← bind_expression_signal signal value width a;
      b ← bind_expression_signal signal value width b;
      Ret (EBinary op a b)
  end.

Inductive PredicateState := Active | Inactive | WaveformUnknown | Unresolved.

(** ** Edges *)

Definition unknown_bit (bit : ascii) : bool := negb (eqc bit "0"%char) && negb (eqc bit "1"%char).
Definition event_edge_matches (role before after : bytes) : bool :=
  match before, after with
  | [b], [a] =>
      let left_ := tolower b in
      let right_ := tolower a in
      let posedge := (eqc left_ "0"%char && (eqc right_ "1"%char || unknown_bit right_)) || (unknown_bit left_ && eqc right_ "1"%char) in
      let negedge := (eqc left_ "1"%char && (eqc right_ "0"%char || unknown_bit right_)) || (unknown_bit left_ && eqc right_ "0"%char) in
      if eqs role (lit "event_posedge") then posedge
      else if eqs role (lit "event_negedge") then negedge
      else if eqs role (lit "event_bothedge") then posedge || negedge
      else eqs role (lit "event_changed") && negb (eqc left_ right_)
  | _, _ => false
  end.

(** ** Statements *)

Record EvaluatedStatements := MkEvaluated { es_active : list StatementGroup; es_unresolved : list StatementGroup }.
Definition kind_is_of (kind_ : string) (g : StatementGroup) : bool := eqs (g_kind g) (lit kind_).
Definition apply_unique_nba_priority (es : EvaluatedStatements) : EvaluatedStatements :=
  if existsb (kind_is_of "force") (es_active es) || existsb (kind_is_of "force") (es_unresolved es) then es
  else if negb (length (List.filter (kind_is_of "nba") (es_active es)) =? 1)%nat || existsb (kind_is_of "nba") (es_unresolved es) then es
  else MkEvaluated (List.filter (kind_is_of "nba") (es_active es)) [].
Definition statement_only_force (g : StatementGroup) : bool :=
  kind_is_of "force" g && (length (g_rhs g) =? 0)%nat && eqs (g_predicate g) (lit "1").
Definition event_driven (g : StatementGroup) : bool := existsb is_event_role (g_records g).
Definition is_pure_self_hold (target_signal : Z) (g : StatementGroup) : bool :=
  kind_is_of "nba" g && (length (g_rhs g) =? 0)%nat &&
  existsb (fun r => role_is "self_rhs" r && (f_src r =? target_signal)) (g_records g).
Definition representative_driver (g : StatementGroup) : option Driver :=
  match g_rhs g with
  | r :: _ => Some r
  | [] => match List.find (role_is "control") (g_records g) with Some r => Some r | None => head (g_records g) end
  end.
Definition append_unique_signal (path : list json) (signal : bytes) : list json :=
  if is_nil signal || existsb (fun item => match item with JString s => eqs s signal | _ => false end) path then path else path ++ [JString signal].

Section Traces.
Context {D W : Type} `{DesignBackend D} `{DesignPlaces D} `{EngineWave W} `{StdSort}.
Context (getenv : bytes -> option bytes) (fs : FileSystem) (design_path waveform_path : bytes) (d : D) (x : DesignQueryIndex).
Abbreviation step := (act W).
Abbreviation name := (signal_name d).

(** ** The source line of a statement *)

Definition source_rows (file : bytes) (line : Z) : res (list json) :=
  context ← trace_source_context getenv fs design_path waveform_path file line line; Ret (json_items context).
Fixpoint active_row_text (rows : list json) : res bytes :=
  match rows with
  | [] => Ret []
  | row :: rows' =>
      active ← value_or as_bool (lit "active") false row;
      match jget (lit "text") row with
      | Some (JString text) => if active : bool then Ret text else active_row_text rows'
      | _ => active_row_text rows'
      end
  end.
Definition active_source_line (g : StatementGroup) : res bytes := rows ← source_rows (g_file g) (g_line g); active_row_text rows.

Definition names_and_leaves (signals : list bytes) : list bytes := flat_map (fun s => [s; leaf_name s]) signals.
Definition named_in (names : list bytes) (f : Driver) : res bool := source ← name (f_src f); Ret (smem source names || smem (leaf_name source) names).
(** The signals right of the assignment, when it can be parsed. *)
Definition source_rhs_signals (text : bytes) : res (list bytes) :=
  match assignment_rhs (without_comment text) with
  | None => Ret []
  | Some rhs =>
      let rhs := match find_text (lit ";") rhs with Some n => take n rhs | None => rhs end in
      expression ← parse_expr rhs;
      Ret (match expression with Some e => names_and_leaves (expression_signals e) | None => [] end)
  end.
Definition suppress_predicate_rhs_sources (g : StatementGroup) : res StatementGroup :=
  match g_rhs g with
  | [] => Ret g
  | rhs =>
      text ← active_source_line g;
      signals ← source_rhs_signals text;
      named ← (match signals with [] => Ret [] | _ => filter_res (named_in signals) rhs end);
      let g := match named with [] => g | _ => with_rhs named g end in
      if is_nil (g_predicate g) then Ret g
      else
        predicate ← parse_expr (g_predicate g);
        match predicate with
        | None => Ret g
        | Some e =>
            let predicate_set := names_and_leaves (expression_signals e) in
            kept ← filter_res (fun f => source ← name (f_src f);
                                        Ret (is_nil source || negb (smem source predicate_set || smem (leaf_name source) predicate_set))) (g_rhs g);
            Ret (with_rhs kept g)
        end
  end.
Definition suppress_non_source_rhs (es : EvaluatedStatements) : res EvaluatedStatements :=
  active ← map_res suppress_predicate_rhs_sources (es_active es);
  unresolved ← map_res suppress_predicate_rhs_sources (es_unresolved es);
  Ret (MkEvaluated active unresolved).
Definition statement_has_direct_rhs (g : StatementGroup) : res bool :=
  match g_rhs g with
  | [_] =>
      text ← active_source_line g;
      if is_nil text then Ret true
      else Ret (match assignment_rhs (without_comment text) with
                | None => true
                | Some rhs => let rhs := trim_copy rhs in direct_signal_syntax (strip_terminators (length rhs) rhs)
                end)
  | _ => Ret false
  end.

Fixpoint first_for_range (variable : bytes) (rows : list json) : res (option (Z * Z)) :=
  match rows with
  | [] => Ret None
  | row :: rows' =>
      text ← value_or as_string (lit "text") [] row;
      match for_range variable text with Some range => Ret (Some range) | None => first_for_range variable rows' end
  end.
Definition source_for_loop_range (file : bytes) (line : Z) (variable : bytes) : res (option (Z * Z)) :=
  if is_nil file || (line <=? 0) || is_nil variable then Ret None
  else rows ← source_rows file line; first_for_range variable rows.
Definition annotate_loop_range (f : Driver) : res Driver :=
  if negb (kind_of_is "proc_assign" f) || negb (role_is "control" f) || negb (has_source f) then Ret f
  else
    signal ← name (f_src f);
    range ← source_for_loop_range (f_file f) (f_line f) (leaf_name signal);
    Ret (match range with Some range => with_target_loop (lit "target_loop_index") range f | None => f end).
Definition annotate_native_source_loop_ranges (drivers : list Driver) : res (list Driver) := map_res annotate_loop_range drivers.

(** The facts, and whether a loop index was bound. *)
Definition bind_target_loop_indices (selected : SelectedDesignSignal) (drivers : list Driver) : res (list Driver * bool) :=
  if negb (sd_has_selector selected) || (sd_index selected <? 0) then Ret (drivers, false)
  else
    range ← (if sd_exact selected then
               Ret (match last_materialized_selector x (sd_base selected) with Some last => Some (last, last) | None => None end)
             else width ← dp_signal_width d (sd_index selected); Ret (if width <=? 0 then None else Some (0, width - 1)));
    Ret (match range with
         | None => (drivers, false)
         | Some range =>
             let bound f := role_is "target_loop_index" f && has_source f in
             (map (fun f => if bound f then with_target_loop (f_role f) range f else f) drivers, existsb bound drivers)
         end).

(** ** Events *)

Definition edge_at (w : W) (ref : Z) (role : bytes) (i : Z) : bool :=
  match sb_sampled_value_at w ref i Before, sb_sampled_value_at w ref i Raw with
  | Some before, Some after => event_edge_matches role (text (sv_value before)) (text (sv_value after))
  | _, _ => false
  end.
Definition latest_edge (w : W) (ref : Z) (role : bytes) (horizon_index horizon : Z) (indices : list Z) : option Z :=
  sb_time_at w <$> List.find (fun i => (i <=? horizon_index) && (sb_time_at w i <=? horizon) && edge_at w ref role i) (rev indices).
Definition latest_record_event (horizon_index horizon : Z) (best : option Z) (r : Driver) : step (option Z) :=
  if negb (has_source r) || negb (is_event_role r) then mret best
  else
    event_signal ← lift (name (f_src r));
    ref ← look_up event_signal;
    if ref =? 0 then mret best
    else
      loaded ← try_load ref;
      if negb loaded then mret best
      else
        w ← get_state;
        mret (match latest_edge w ref (f_role r) horizon_index horizon (sb_time_indices_of w ref), best with
              | None, _ => best
              | Some candidate, None => Some candidate
              | Some candidate, Some t => Some (if t <? candidate then candidate else t)
              end).
Definition latest_statement_event_time (g : StatementGroup) (horizon : Z) : step (option Z) :=
  w ← get_state;
  fold_act (latest_record_event (ew_time_idx_of w horizon) horizon) (g_records g) None.

(** ** Aliases in the waveform *)

Definition alias_candidate (index width : Z) (candidates : list bytes) (other : Z) : step (list bytes) :=
  if other =? index then mret candidates
  else
    other_width ← lift (dp_signal_width d other);
    if negb (other_width =? width) then mret candidates
    else
      candidate ← lift (name other);
      if is_nil candidate then mret candidates
      else hit ← found candidate; mret (if hit : bool then insert_once candidates candidate else candidates).
(** The empty name is no signal. *)
Definition predicate_waveform_signal (signal : bytes) : step bytes :=
  direct ← found signal;
  if direct : bool then mret signal
  else
    index ← lift (dp_resolve d signal);
    if index <? 0 then mret []
    else
      width ← lift (dp_signal_width d index);
      candidates ← fold_act (alias_candidate index width) (connected_signals x index) [];
      mret (match candidates with [candidate] => candidate | _ => [] end).
Definition map_waveform_alias (f : Driver) : step Driver :=
  if negb (has_source f) then mret f
  else
    source ← lift (name (f_src f));
    if is_nil source then mret f
    else
      waveform_signal ← predicate_waveform_signal source;
      if is_nil waveform_signal || eqs waveform_signal source then mret f
      else index ← lift (dp_resolve d waveform_signal); mret (if 0 <=? index then with_src index f else f).
Definition map_driver_waveform_aliases (drivers : list Driver) : step (list Driver) := map_act map_waveform_alias drivers.

(** ** Facts behind a port *)

Definition select_flattened_output_driver_facts (waveform_index : Z) (allow_sampleable : bool) (drivers : list Driver) : step (option (list Driver * Z)) :=
  direction ← lift (db_signal_direction d waveform_index);
  if negb (direction =? 2) then mret None
  else
    match statement_groups drivers with
    | [boundary] =>
        match g_rhs boundary with
        | [r] =>
            if negb (kind_is_of "cont_assign" boundary) then mret None
            else
              let flattened_index := f_src r in
              flattened ← lift (name flattened_index);
              waveform_signal ← lift (name waveform_index);
              if is_nil flattened || is_nil waveform_signal || (hierarchy_depth waveform_signal <=? hierarchy_depth flattened)%nat then mret None
              else
                blocked ← (if allow_sampleable then mret false
                           else flattened_direction ← lift (db_signal_direction d flattened_index);
                                if negb (flattened_direction =? 2) then mret true else found flattened);
                if (blocked : bool) || negb (zmem waveform_index (ports_connected_to x flattened_index 2)) then mret None
                else
                  facts ← lift (drivers_for d flattened_index);
                  if forallb (kind_of_is "cont_assign") facts then mret None
                  else facts ← map_driver_waveform_aliases facts; mret (Some (facts, flattened_index))
        | _ => mret None
        end
    | _ => mret None
    end.

(** A named signal above [current] at the other end of a connection. *)
Definition parent_end (current : bytes) (index : Z) (c : PortConnection) : res (option Z) :=
  let other := other_end c index in
  candidate ← name other;
  Ret (if (other <? 0) || is_nil candidate || eqs candidate current || (hierarchy_depth current <=? hierarchy_depth candidate)%nat
       then None else Some other).
Definition clocked (f : Driver) : bool := kind_of_is "nba" f || is_event_role f.
Definition clocked_parent (current : bytes) (index : Z) (out : list Z) (c : PortConnection) : res (list Z) :=
  parent ← parent_end current index c;
  match parent with
  | None => Ret out
  | Some other => facts ← drivers_for d other; Ret (if existsb clocked facts then out ++ [other] else out)
  end.
(** What is assigned once one parent is left: facts, index, name. The source returns whether there are facts. *)
Definition select_root_input_parent_driver_facts (waveform_index : Z) : step (option (list Driver * Z * bytes)) :=
  direction ← lift (db_signal_direction d waveform_index);
  waveform_signal ← (if direction =? 1 then lift (name waveform_index) else mret []);
  if is_nil waveform_signal then mret None
  else
    connections ← lift (db_port_connections d waveform_index);
    candidates ← lift (fold_res (clocked_parent waveform_signal waveform_index) connections []);
    match sorted_unique candidates with
    | [parent] =>
        parent_signal ← lift (name parent);
        facts ← lift (drivers_for d parent);
        facts ← map_driver_waveform_aliases facts;
        mret (Some (facts, parent, parent_signal))
    | _ => mret None
    end.

Record NativeInputBoundary := MkBoundary { nb_endpoint : bool; nb_source_less : bool; nb_drivers : list Driver; nb_index : Z }.
(** The parents, or [None] at a modport. *)
Fixpoint input_parents (input : bytes) (index : Z) (parents : list Z) (connections : list PortConnection) : res (option (list Z)) :=
  match connections with
  | [] => Ret (Some parents)
  | c :: connections' =>
      parent ← parent_end input index c;
      match parent with
      | None => input_parents input index parents connections'
      | Some other => if is_present (find_text (lit "modport") (pc_kind c)) then Ret None else input_parents input index (parents ++ [other]) connections'
      end
  end.
Definition select_native_input_parent_driver_facts (input_index : Z) (drivers : list Driver) (driver_index : Z) : step NativeInputBoundary :=
  let unchanged := MkBoundary false false drivers driver_index in
  direction ← lift (db_signal_direction d input_index);
  input ← (if direction =? 1 then lift (name input_index) else mret []);
  if is_nil input then mret unchanged
  else
    connections ← lift (db_port_connections d input_index);
    parents ← lift (input_parents input input_index [] connections);
    match parents with
    | None => mret (MkBoundary true true [] driver_index)
    | Some parents =>
        match sorted_unique parents with
        | [parent] =>
            facts ← lift (drivers_for d parent);
            match facts with
            | [] => mret (MkBoundary true false [] driver_index)
            | _ => facts ← map_driver_waveform_aliases facts; mret (MkBoundary false false facts parent)
            end
        | _ => mret unchanged
        end
    end.

Definition parent_input (current : bytes) (index : Z) (c : PortConnection) : res bool :=
  let other := other_end c index in
  candidate ← name other;
  if other <? 0 then Ret false
  else
    direction ← db_signal_direction d other;
    Ret ((direction =? 1) && is_nonempty candidate && negb (eqs candidate current) && (hierarchy_depth candidate <? hierarchy_depth current)%nat).
Definition is_external_primary_input (index : Z) : res bool :=
  if index <? 0 then Ret false
  else
    direction ← db_signal_direction d index;
    if negb (direction =? 1) then Ret false
    else current ← name index; connections ← db_port_connections d index; exists_res (parent_input current index) connections.

(** ** Expression temporaries *)

Definition combinational (f : Driver) : bool :=
  (kind_of_is "cont_assign" f || kind_of_is "proc_assign" f) && negb (role_is "self_rhs" f) && negb (is_event_role f).
Definition is_transparent_expression_signal (source : Z) : step bool :=
  source_name ← lift (name source);
  if is_verilator_expression_temporary source_name then mret true
  else if is_nil source_name then mret false
  else
    sampled ← found source_name;
    if sampled : bool then mret false
    else facts ← lift (drivers_for d source); mret (forallb combinational facts && existsb (role_is "rhs") facts).
Definition expression_dependency (parent_controls loops : list Z) (f : Driver) : bool :=
  has_source f && (role_is "rhs" f || role_is "control" f) && negb (zmem (f_src f) loops) &&
  negb (role_is "control" f && zmem (f_src f) parent_controls).
(** The visited temporaries and the sources. Each level visits another
    temporary, so the number of signals bounds the depth. *)
Fixpoint collect_expression_sources (fuel : nat) (parent_controls : list Z) (st : list Z * list Z) (source : Z) : step (list Z * list Z) :=
  match fuel with
  | O => lift (Throw "unreachable")
  | S fuel' =>
      let '(visited, sources) := st in
      _ ← lift (name source);
      transparent ← is_transparent_expression_signal source;
      if negb transparent then mret (visited, if 0 <=? source then oset_insert source sources else sources)
      else if zmem source visited then mret (visited, oset_insert source sources)
      else
        facts ← lift (drivers_for d source);
        let dependencies := List.filter (expression_dependency parent_controls (loop_indices facts)) facts in
        '(visited, sources) ← fold_act (collect_expression_sources fuel' parent_controls) (map f_src dependencies) (source :: visited, sources);
        mret (visited, match dependencies with [] => oset_insert source sources | _ => sources end)
  end.
Definition expression_fuel : nat := S (S (Z.to_nat (db_signal_count d))).
Definition expand_driver (parent_controls : list Z) (f : Driver) : step (list Driver) :=
  transparent ← (if role_is "rhs" f then is_transparent_expression_signal (f_src f) else mret false);
  if negb transparent then mret [f]
  else
    '(_, sources) ← collect_expression_sources expression_fuel parent_controls ([], []) (f_src f);
    mret (if bool_decide (sources = [f_src f]) then [f] else map (fun source => with_src source f) sources).
Definition expand_expression_temporaries (drivers : list Driver) : step (list Driver) :=
  let parent_controls := oset_of (map f_src (List.filter (fun f => role_is "control" f && has_source f) drivers)) in
  expanded ← map_act (expand_driver parent_controls) drivers;
  map_driver_waveform_aliases (concat expanded).

(** ** Predicates *)

Definition bind_index (node : ExprNode) (binding : Z * Z) : res (option ExprNode) :=
  let '(index, value) := binding in
  bound_signal ← name index;
  if is_nil bound_signal then Ret None
  else width ← dp_signal_width d index; node ← bind_expression_signal bound_signal value width node; Ret (Some node).
Fixpoint bind_indices (node : ExprNode) (bindings : list (Z * Z)) : res (option ExprNode) :=
  match bindings with
  | [] => Ret (Some node)
  | b :: bindings' => bound ← bind_index node b; match bound with Some node => bind_indices node bindings' | None => Ret None end
  end.
(** The expression over waveform names and the handles, or [None]. *)
Fixpoint resolve_predicate (node : ExprNode) (refs : list Z) (signals : list bytes) : step (option (ExprNode * list Z)) :=
  match signals with
  | [] => mret (Some (node, refs))
  | signal :: signals' =>
      resolved ← predicate_waveform_signal signal;
      if is_nil resolved then mret None
      else
        ref ← look_up resolved;
        if ref =? 0 then mret None
        else resolve_predicate (if eqs resolved signal then node else replace_expression_signal signal resolved node) (refs ++ [ref]) signals'
  end.
Definition evaluate_node (e : ExprNode) (time_idx : Z) : step LogicValue := fun w =>
  match eval_expression e w time_idx None Raw with
  | Ret (v, w', _) => (Ret v, w')
  | UB => (UB, w)
  | Throw what => (Throw what, w)
  end.
Definition predicate_state (v : LogicValue) : PredicateState :=
  match bits v with
  | [] => Unresolved
  | b => if negb (known v) then WaveformUnknown else if existsb (eqc "1"%char) b then Active else Inactive
  end.
Definition evaluate_predicate_once (g : StatementGroup) (bindings : list (Z * Z)) (active_time : Z) : step PredicateState :=
  if is_nil (g_predicate g) then mret Unresolved
  else
    expression ← lift (parse_expr (g_predicate g));
    match expression with
    | None => mret Unresolved
    | Some e =>
        bound ← lift (bind_indices e bindings);
        match bound with
        | None => mret Unresolved
        | Some e =>
            resolved ← resolve_predicate e [] (expression_signals e);
            match resolved with
            | None => mret Unresolved
            | Some (e, refs) =>
                loaded ← (match refs with [] => mret true | _ => n ← load_refs refs; mret (n =? zlen refs) end);
                if negb loaded then mret Unresolved
                else w ← get_state; v ← evaluate_node e (ew_time_idx_of w active_time); mret (predicate_state v)
            end
        end
    end.

Definition kMaxLoopSelectorBindings : Z := 65536.
(** Signed [int64_t] arithmetic: overflow is undefined. *)
Definition range_span (first last : Z) : res Z := if i64_max <? last - first then UB else Ret (u64 (last - first + 1)).
Fixpoint loop_bindings (ranges : list (Z * (Z * Z))) (bindings : list (list (Z * Z))) : res (option (list (list (Z * Z)))) :=
  match ranges with
  | [] => Ret (Some bindings)
  | (index, (first, last)) :: ranges' =>
      if last <? first then Ret None
      else
        span_ ← range_span first last;
        if (kMaxLoopSelectorBindings <? span_) || (kMaxLoopSelectorBindings / span_ <? zlen bindings) then Ret None
        else loop_bindings ranges' (flat_map (fun existing => map (fun value => omap_set Z.compare index value existing) (seqZ first span_)) bindings)
  end.
Fixpoint any_binding (g : StatementGroup) (active_time : Z) (waveform_unknown unresolved : bool) (bindings : list (list (Z * Z))) : step PredicateState :=
  match bindings with
  | [] => mret (if unresolved then Unresolved else if waveform_unknown then WaveformUnknown else Inactive)
  | b :: bindings' =>
      state ← evaluate_predicate_once g b active_time;
      match state with
      | Active => mret Active
      | Inactive => any_binding g active_time waveform_unknown unresolved bindings'
      | WaveformUnknown => any_binding g active_time true unresolved bindings'
      | Unresolved => any_binding g active_time waveform_unknown true bindings'
      end
  end.
Definition evaluate_predicate (g : StatementGroup) (active_time : Z) : step PredicateState :=
  match g_loop_ranges g with
  | [] => evaluate_predicate_once g [] active_time
  | ranges =>
      bindings ← lift (loop_bindings ranges [[]]);
      match bindings with None => mret Unresolved | Some bindings => any_binding g active_time false false bindings end
  end.

(** ** Active statements *)

Definition evaluate_statement (active_time event_horizon : Z) (es : EvaluatedStatements) (g : StatementGroup) : step EvaluatedStatements :=
  g ← (if 0 <? event_horizon then t ← latest_statement_event_time g event_horizon; mret (with_event t g) else mret g);
  state ← evaluate_predicate g (default active_time (g_event_time g));
  mret (match state with
        | Active => MkEvaluated (es_active es ++ [g]) (es_unresolved es)
        | WaveformUnknown => MkEvaluated (es_active es) (es_unresolved es ++ [with_unknown g])
        | Unresolved => MkEvaluated (es_active es) (es_unresolved es ++ [g])
        | Inactive => es
        end).
Definition active_statement_groups (drivers : list Driver) (active_time event_horizon : Z) : step EvaluatedStatements :=
  fold_act (evaluate_statement active_time event_horizon) (statement_groups drivers) (MkEvaluated [] []).

Definition explains_value (target : Sample) (g : StatementGroup) : step bool :=
  match g_rhs g with
  | [r] =>
      if kind_is_of "force" g then mret false
      else
        source ← lift (name (f_src r));
        if is_nil source then mret false
        else s ← sample_at source (sm_active_time target); mret (sm_ok s && eqs (sm_bits s) (sm_bits target))
  | _ => mret false
  end.
Definition suppress_unobserved_statement_only_force (es : EvaluatedStatements) (target : Sample) : step EvaluatedStatements :=
  if negb (existsb statement_only_force (es_active es)) then mret es
  else
    explained ← exists_act (explains_value target) (es_active es);
    mret (if explained : bool then MkEvaluated (List.filter (fun g => negb (statement_only_force g)) (es_active es)) (es_unresolved es) else es).
(** The statements left, and whether some were dropped. *)
Definition suppress_initialization_only_event_evidence (w : W) (es : EvaluatedStatements) (target : Sample) : EvaluatedStatements * bool :=
  if negb (sm_active_time target =? ew_min_time w) || (sm_query_time target <=? sm_active_time target) then (es, false)
  else
    let keep g := negb (event_driven g) in
    let out := MkEvaluated (List.filter keep (es_active es)) (List.filter keep (es_unresolved es)) in
    (out, negb (length (es_active es) + length (es_unresolved es) =? length (es_active out) + length (es_unresolved out))%nat).

(** The latest event of statements that all have one. *)
Definition self_hold_time (active : list StatementGroup) : option Z :=
  times ← mapM g_event_time active;
  match times with [] => None | t :: times' => Some (foldl Z.max t times') end.
Fixpoint skip_self_holds (left : nat) (drivers : list Driver) (target_signal active_time : Z) (original current : EvaluatedStatements) : step (EvaluatedStatements * bool) :=
  if negb (length (es_unresolved current) =? 0)%nat || (length (es_active current) =? 0)%nat ||
     negb (forallb (is_pure_self_hold target_signal) (es_active current)) then mret (current, false)
  else
    match left with
    | O => mret (original, true)
    | S left' =>
        match self_hold_time (es_active current) with
        | None => mret (original, false)
        | Some t =>
            if t =? 0 then mret (original, false)
            else
              next ← active_statement_groups drivers active_time (t - 1);
              skip_self_holds left' drivers target_signal active_time original (apply_unique_nba_priority next)
        end
    end.
(** The statements, and whether the backtracking limit ended the search. *)
Definition active_statement_groups_skipping_self_hold (drivers : list Driver) (target_signal active_time event_horizon max_backtracks : Z) : step (EvaluatedStatements * bool) :=
  first ← active_statement_groups drivers active_time event_horizon;
  let original := apply_unique_nba_priority first in
  skip_self_holds (Z.to_nat max_backtracks) drivers target_signal active_time original original.

Fixpoint causal_event_time_through_unique_chain (remaining : nat) (visited : list bytes) (signal : bytes) (horizon : Z) : step (option Z) :=
  match remaining with
  | O => mret None
  | S remaining' =>
      if smem signal visited then mret None
      else
        index ← lift (dp_resolve d signal);
        if index <? 0 then mret None
        else
          sample ← sample_at signal horizon;
          if negb (sm_ok sample) then mret None
          else
            facts ← lift (drivers_for d index);
            facts ← lift (annotate_output_instance_identities d x index facts);
            '(es, _) ← active_statement_groups_skipping_self_hold facts index (sm_active_time sample) horizon (Z.of_nat remaining);
            match es_unresolved es, es_active es with
            | [], [g] =>
                match kind_is_of "nba" g, g_event_time g with
                | true, Some t => mret (Some t)
                | _, _ =>
                    match g_rhs g with
                    | [r] =>
                        if negb (kind_is_of "cont_assign" g) then mret None
                        else
                          upstream ← lift (name (f_src r));
                          if is_nil upstream || eqs upstream signal then mret None
                          else causal_event_time_through_unique_chain remaining' (signal :: visited) upstream horizon
                    | _ => mret None
                    end
                end
            | _, _ => mret None
            end
  end.

(** ** Races of array propagation *)

Definition same_base_consumer (source_base : bytes) (l : LoadRecord) : res bool :=
  if ld_consumer l <? 0 then Ret false
  else consumer ← name (ld_consumer l); Ret (is_nonempty consumer && eqs (selector_base_name consumer) source_base).
Definition has_collapsed_array_propagation_stage (source : Z) : res bool :=
  if source <? 0 then Ret false
  else
    source_name ← name source;
    if is_nil source_name then Ret false
    else loads ← dp_trace_load d source; exists_res (same_base_consumer (selector_base_name source_name)) loads.
Definition duplicate_top_waveform_name (design_signal requested_root : bytes) : step bytes :=
  direct ← found design_signal;
  if direct : bool then mret design_signal
  else
    let projected := public_signal_name design_signal requested_root true in
    hit ← found projected;
    mret (if hit : bool then projected else []).
Definition changed_at_event (requested_root : bytes) (event_time : Z) (candidate : bytes) : step bool :=
  source ← duplicate_top_waveform_name candidate requested_root;
  if is_nil source then mret false
  else s ← sample_at source event_time; mret (sm_ok s && (sm_active_time s =? event_time)).
Definition races_at (requested_root : bytes) (event_time : Z) (f : Driver) : step bool :=
  stage ← lift (has_collapsed_array_propagation_stage (f_src f));
  if negb stage then mret false
  else
    design_source ← lift (name (f_src f));
    direct ← changed_at_event requested_root event_time design_source;
    if direct : bool then mret true
    else
      let base := selector_base_name design_source in
      match last_materialized_selector x base with
      | None => mret false
      | Some last => exists_act (changed_at_event requested_root event_time) [base ++ lit "[" ++ to_string last ++ lit "]"; encoded_element base last]
      end.
Definition has_same_slot_array_propagation_race_source (g : StatementGroup) (requested_root : bytes) (event_time : Z) : step bool :=
  exists_act (races_at requested_root event_time) (g_rhs g).

(** The first edge after [after], up to the first index past the horizon. *)
Definition next_edge (w : W) (ref : Z) (role : bytes) (horizon_index after horizon : Z) (indices : list Z) : option Z :=
  let near := fst (span (fun i => (i <=? horizon_index) && (sb_time_at w i <=? horizon)) indices) in
  sb_time_at w <$> List.find (fun i => (after <? sb_time_at w i) && edge_at w ref role i) near.
Definition next_record_event (requested_root : bytes) (horizon_index after horizon : Z) (best : option Z) (r : Driver) : step (option Z) :=
  if negb (has_source r) || negb (is_event_role r) then mret best
  else
    design_name ← lift (name (f_src r));
    event_signal ← duplicate_top_waveform_name design_name requested_root;
    ref ← look_up event_signal;
    if ref =? 0 then mret best
    else
      loaded ← try_load ref;
      if negb loaded then mret best
      else
        w ← get_state;
        mret (match next_edge w ref (f_role r) horizon_index after horizon (sb_time_indices_of w ref), best with
              | None, _ => best
              | Some candidate, None => Some candidate
              | Some candidate, Some t => Some (if candidate <? t then candidate else t)
              end).
Definition next_statement_event_time (g : StatementGroup) (requested_root : bytes) (after horizon : Z) : step (option Z) :=
  w ← get_state;
  fold_act (next_record_event requested_root (ew_time_idx_of w horizon) after horizon) (g_records g) None.

Definition race_boundary (requested_root : bytes) (event_time : Z) (out : list StatementGroup) (g : StatementGroup) : step (list StatementGroup) :=
  if kind_is_of "nba" g && bool_decide (g_event_time g = Some event_time) then
    race ← has_same_slot_array_propagation_race_source g requested_root event_time;
    mret (if race : bool then out ++ [g] else out)
  else mret out.
Record RaceSearch := MkRace { rs_remaining : Z; rs_visited : list Z; rs_boundaries : list StatementGroup; rs_complete : bool }.
(** [rs_complete] is the result. Each level takes one from [remaining], which bounds the depth. *)
Fixpoint collect_same_slot_nba_boundaries (fuel : nat) (requested_root : bytes) (event_time : Z) (st : RaceSearch) (signal : Z) : step RaceSearch :=
  if negb (rs_complete st) then mret st
  else if (signal <? 0) || zmem signal (rs_visited st) then mret st
  else if rs_remaining st =? 0 then mret (MkRace 0 (signal :: rs_visited st) (rs_boundaries st) false)
  else
    match fuel with
    | O => lift (Throw "unreachable")
    | S fuel' =>
        facts ← lift (drivers_for d signal);
        es ← active_statement_groups facts event_time event_time;
        boundaries ← fold_act (race_boundary requested_root event_time) (es_active (apply_unique_nba_priority es)) (rs_boundaries st);
        let sources := map f_src (List.filter (fun f => kind_of_is "cont_assign" f && role_is "rhs" f && has_source f) facts) in
        fold_act (collect_same_slot_nba_boundaries fuel' requested_root event_time) sources
          (MkRace (rs_remaining st - 1) (signal :: rs_visited st) boundaries true)
    end.
(** The sample to show instead. *)
Definition project_duplicate_top_same_slot_nba_race (root_index : Z) (root : bytes) (query_time max_nodes : Z) (s : Sample) : step (option Sample) :=
  if negb (sm_ok s) || (query_time <? sm_active_time s) then mret None
  else
    search ← collect_same_slot_nba_boundaries (Z.to_nat max_nodes) root (sm_active_time s) (MkRace max_nodes [] [] true) root_index;
    match rs_complete search, rs_boundaries search with
    | true, [boundary] =>
        next ← next_statement_event_time boundary root (sm_active_time s) query_time;
        match next with
        | Some next_event => mret (Some (with_active_time next_event s))
        | None => sample_before_transition root (sm_active_time s) (sm_query_time s)
        end
    | _, _ => mret None
    end.
End Traces.

(** ** Loop selectors *)

(** Every assignment of a value in its range to each index. *)
Definition extend_bindings (bindings : list (list (Z * Z))) (range : Z * (Z * Z)) : list (list (Z * Z)) :=
  flat_map (fun b => map (fun value => b ++ [(fst range, value)]) (seqZ (fst (snd range)) (snd (snd range) - fst (snd range) + 1))) bindings.
Definition all_bindings (ranges : list (Z * (Z * Z))) : list (list (Z * Z)) := foldl extend_bindings [[]] ranges.
Definition span_of (range : Z * (Z * Z)) : Z := snd (snd range) - fst (snd range) + 1.
Definition span_product (ranges : list (Z * (Z * Z))) : Z := foldr (fun range n => span_of range * n) 1 ranges.
Definition binds (range : Z * (Z * Z)) (binding : Z * Z) : Prop :=
  fst binding = fst range /\ fst (snd range) <= snd binding <= snd (snd range).

Lemma omap_set_last (k v : Z) (m : list (Z * Z)) : Forall (fun b : Z * Z => fst b < k) m -> omap_set Z.compare k v m = m ++ [(k, v)].
Proof.
  unfold omap_set. induction 1 as [|[k' v'] m Hk _ IH]; [done|]. cbn [omap_alter app fst] in *.
  rewrite (proj2 (Z.compare_gt_iff k k')) by lia. by rewrite IH.
Qed.
Lemma extend_members range bindings b : b ∈ extend_bindings bindings range <-> exists b0 binding, b = b0 ++ [binding] /\ b0 ∈ bindings /\ binds range binding.
Proof.
  destruct range as [i [f l]]. unfold extend_bindings, binds. cbn [fst snd]. rewrite list_elem_of_In, in_flat_map. split.
  - intros (b0 & H0 & Hb). apply in_map_iff in Hb as (v & <- & Hv). apply list_elem_of_In, elem_of_seqZ in Hv. exists b0, (i, v). rewrite list_elem_of_In. cbn. split_and!; try done; lia.
  - intros (b0 & [i' v] & -> & H0 & Hi & Hv). cbn in Hi, Hv. subst i'. exists b0. rewrite <- list_elem_of_In. split; [done|]. apply in_map_iff. exists v. split; [done|].
    apply list_elem_of_In, elem_of_seqZ. lia.
Qed.
Lemma extend_length range bindings : fst (snd range) <= snd (snd range) -> zlen (extend_bindings bindings range) = zlen bindings * span_of range.
Proof.
  intros Hr. unfold extend_bindings, zlen, span_of. induction bindings as [|b bindings IH]; cbn [flat_map length]; [lia|].
  rewrite length_app, length_map, length_seqZ. lia.
Qed.
Lemma span_product_pos ranges : Forall (fun r : Z * (Z * Z) => fst (snd r) <= snd (snd r)) ranges -> 1 <= span_product ranges.
Proof. induction 1 as [|r ranges Hr _ IH]; cbn [span_product foldr]; [lia|]. fold (span_product ranges). unfold span_of. nia. Qed.

Definition below (ranges : list (Z * (Z * Z))) (bindings : list (list (Z * Z))) : Prop :=
  Forall (fun b : list (Z * Z) => Forall (fun kv : Z * Z => Forall (fun r : Z * (Z * Z) => fst kv < fst r) ranges) b) bindings.
Lemma loop_bindings_extend ranges bindings : StronglySorted (fun a b : Z * (Z * Z) => fst a < fst b) ranges ->
  Forall (fun r : Z * (Z * Z) => fst (snd r) <= snd (snd r) /\ snd (snd r) - fst (snd r) <= i64_max) ranges -> below ranges bindings -> 1 <= zlen bindings <= 65536 ->
  loop_bindings ranges bindings = Ret (if zlen bindings * span_product ranges <=? 65536 then Some (foldl extend_bindings bindings ranges) else None).
Proof.
  intros Hs Hr. revert bindings. induction Hs as [|[i [f l]] ranges Hs IH Hall]; intros bindings Hb Hn; cbn [loop_bindings foldl span_product foldr].
  { rewrite (proj2 (Z.leb_le _ _)) by lia. done. }
  fold (span_product ranges). inversion_clear Hr as [|? ? [Hfl Hov] Hr']. cbn [fst snd] in Hfl, Hov.
  assert (1 <= span_product ranges) as Hpos by (apply span_product_pos; eapply list.Forall_impl; [exact Hr'|]; intros r [? _]; done).
  destruct (Z.ltb_spec l f) as [|_]; [lia|]. unfold range_span. destruct (Z.ltb_spec i64_max (l - f)) as [|_]; [lia|]. cbn [mbind res_bind].
  unfold i64_max in *. rewrite u64_small by lia. unfold span_of. cbn [fst snd]. unfold kMaxLoopSelectorBindings.
  set (n := l - f + 1) in *. assert (1 <= n) by (subst n; lia).
  assert (65536 / n < zlen bindings <-> 65536 < zlen bindings * n) as Hdiv.
  { pose proof (Z.mul_div_le 65536 n). pose proof (Z.mul_succ_div_gt 65536 n). split; intros; nia. }
  destruct (Z.ltb_spec 65536 n) as [Hbig|Hsmall]; cbn [orb].
  { rewrite (proj2 (Z.leb_gt _ _)) by nia. done. }
  destruct (Z.ltb_spec (65536 / n) (zlen bindings)) as [Hc|Hc].
  { apply Hdiv in Hc. rewrite (proj2 (Z.leb_gt _ _)) by nia. done. }
  assert (zlen bindings * n <= 65536) as Hle by lia.
  assert (flat_map (fun existing => map (fun value => omap_set Z.compare i value existing) (seqZ f n)) bindings = extend_bindings bindings (i, (f, l))) as ->.
  { unfold extend_bindings. cbn [fst snd]. fold n. clear -Hb. induction bindings as [|b bindings IHb]; [done|]. inversion_clear Hb as [|? ? Hb0 Hb']. cbn [flat_map]. f_equal; [|by apply IHb].
    apply List.map_ext. intros v. apply omap_set_last. eapply list.Forall_impl; [exact Hb0|]. intros kv Hkv. inversion_clear Hkv. done. }
  rewrite IH; [|done| |].
  - rewrite extend_length by done. unfold span_of. cbn [fst snd]. fold n. by rewrite Z.mul_assoc.
  - apply list.Forall_forall. intros b (b0 & kv & -> & Hin & Hkv & _)%extend_members. apply list.Forall_app. split.
    + eapply list.Forall_forall in Hb; [|exact Hin]. eapply list.Forall_impl; [exact Hb|]. intros kv' H'. by inversion_clear H'.
    + apply list.Forall_singleton. rewrite Hkv. done.
  - rewrite extend_length by done. unfold span_of. cbn [fst snd]. fold n. nia.
Qed.

(** C30: the selectors a predicate is tried with: for nonempty ranges of
    distinct loop indices whose widths fit in an [int64_t], the bindings are
    exactly the assignments of a value in its range to every index, each once
    and at most 65536 of them; a larger product is refused and no index is
    dropped. *)
Theorem loop_bindings_exact ranges : StronglySorted (fun a b : Z * (Z * Z) => fst a < fst b) ranges ->
  Forall (fun r : Z * (Z * Z) => fst (snd r) <= snd (snd r) /\ snd (snd r) - fst (snd r) <= i64_max) ranges ->
  loop_bindings ranges [[]] = Ret (if span_product ranges <=? 65536 then Some (all_bindings ranges) else None) /\
  zlen (all_bindings ranges) = span_product ranges /\ forall b, b ∈ all_bindings ranges <-> Forall2 binds ranges b.
Proof.
  intros Hs Hr. split_and!.
  - rewrite loop_bindings_extend; [|done..|repeat constructor|done]. change (zlen [[]]) with 1. by rewrite Z.mul_1_l.
  - clear Hs. unfold all_bindings. assert (forall bindings, zlen (foldl extend_bindings bindings ranges) = zlen bindings * span_product ranges) as Hl; [|rewrite Hl; unfold zlen; cbn [length]; lia].
    induction Hr as [|r ranges [Hfl _] _ IH]; intros bindings; cbn [foldl span_product foldr]; [lia|]. rewrite IH, extend_length by done. fold (span_product ranges). lia.
  - clear. intros b. unfold all_bindings. assert (forall bindings b, b ∈ foldl extend_bindings bindings ranges <-> exists b0 b1, b = b0 ++ b1 /\ b0 ∈ bindings /\ Forall2 binds ranges b1) as Hm.
    { clear. induction ranges as [|r ranges IH]; intros bindings b; cbn [foldl].
      - split; [intros Hb; exists b, []; by rewrite app_nil_r|]. intros (b0 & b1 & -> & Hin & Hf). inversion Hf. by rewrite app_nil_r.
      - rewrite IH. split.
        + intros (b0 & b1 & -> & (b00 & kv & -> & Hin & Hkv)%extend_members & Hf). exists b00, (kv :: b1). rewrite <- app_assoc. split; [done|]. split; [done|by constructor].
        + intros (b0 & b1 & -> & Hin & Hf). inversion Hf as [|? kv ? b1' Hkv Hf']; subst. exists (b0 ++ [kv]), b1'. rewrite <- app_assoc. split; [done|]. split; [|done].
          apply extend_members. by exists b0, kv. }
    rewrite Hm. split; [|intros Hf; exists [], b; split; [done|]; split; [by left|done]]. intros (b0 & b1 & -> & ->%list_elem_of_singleton & Hf). done.
Qed.
(** The two loops of a nested selector. *)
Lemma loop_bindings_exact_witness :
  loop_bindings [(3, (0, 1)); (5, (7, 8))] [[]] =
    Ret (Some [[(3, 0); (5, 7)]; [(3, 0); (5, 8)]; [(3, 1); (5, 7)]; [(3, 1); (5, 8)]]) /\
  forall b, b ∈ all_bindings [(3, (0, 1)); (5, (7, 8))] <-> Forall2 binds [(3, (0, 1)); (5, (7, 8))] b.
Proof.
  destruct (loop_bindings_exact [(3, (0, 1)); (5, (7, 8))]) as (H1 & _ & H2).
  - repeat constructor; cbn; lia.
  - repeat constructor; cbn; unfold i64_max; lia.
  - split; [exact H1|exact H2].
Defined.

(** A loop over the whole range of an [int64_t], read from a source line, overflows the width. *)
Lemma full_loop_overflows variable : for_range (lit "i") (lit "for (int i = -9223372036854775808; i < 1; i++)") = Some (i64_min, 0) /\
  loop_bindings [(variable, (i64_min, 0))] [[]] = UB.
Proof. by split; vm_compute. Qed.

(** ** Edges *)

(** A single bit rises, falls or does neither; an edge of either kind is a change. *)
Lemma event_edges_partition b a : let edge role := event_edge_matches (lit role) [b] [a] in
  edge "event_posedge"%string && edge "event_negedge"%string = false /\
  edge "event_bothedge"%string = edge "event_posedge"%string || edge "event_negedge"%string /\
  (edge "event_bothedge"%string = true -> edge "event_changed"%string = true).
Proof.
  unfold event_edge_matches. cbn [eqs lit]. set (l := tolower b). set (r := tolower a).
  rewrite !(eq_refl : eqs _ _ = true) || idtac. clearbody l r. unfold unknown_bit.
  destruct (eqc l "0"%char) eqn:El0, (eqc l "1"%char) eqn:El1, (eqc r "0"%char) eqn:Er0, (eqc r "1"%char) eqn:Er1, (eqc l r) eqn:E;
    try (apply eqc_true in El0); try (apply eqc_true in El1); try (apply eqc_true in Er0); try (apply eqc_true in Er1); try (apply eqc_true in E);
    subst; try discriminate; vm_compute; auto.
Qed.

(** ** Temporaries *)

Lemma act_bind_ret {St A B} (m : act St A) (f : A -> act St B) s a s' : m s = (Ret a, s') -> (m ≫= f) s = f a s'.
Proof. intros E. unfold mbind, act_bind. by rewrite E. Qed.

Section Temporaries.
Context {D W : Type} `{DesignBackend D} `{DesignPlaces D} `{EngineWave W} (d : D).
(** Reads are defined, and only signals of the design have a name. *)
Context (Hnames : forall i, exists n, signal_name d i = Ret n) (Hdrivers : forall i, exists l, drivers_for d i = Ret l)
  (Hrange : forall i n, signal_name d i = Ret n -> n <> [] -> 0 <= i < db_signal_count d).

Definition known_signals (visited : list Z) : Prop := NoDup visited /\ forall i, i ∈ visited -> 0 <= i < db_signal_count d.
Lemma known_signals_length visited : known_signals visited -> (length visited <= Z.to_nat (db_signal_count d))%nat.
Proof.
  intros [Hnd Hr]. rewrite <- (length_seqZ 0 (db_signal_count d)). apply submseteq_length, NoDup_submseteq; [done|].
  intros i Hi. apply elem_of_seqZ. specialize (Hr i Hi). lia.
Qed.
Lemma transparent_total (source : Z) (w : W) : exists b w', is_transparent_expression_signal d source w = (Ret b, w') /\ (b = true -> 0 <= source < db_signal_count d).
Proof using Hnames Hdrivers Hrange.
  destruct (Hnames source) as [n Hn]. unfold is_transparent_expression_signal. rewrite (act_bind_ret _ _ _ n w) by (unfold lift; by rewrite Hn).
  destruct (is_verilator_expression_temporary n) eqn:Ev.
  { eexists true, w. split; [done|]. intros _. apply (Hrange _ n Hn). intros ->. by vm_compute in Ev. }
  destruct n as [|c n]; [by eexists false, w|]. cbn [is_nil]. unfold found, look_up. unfold mbind at 1, act_bind at 1. unfold mbind at 1, act_bind at 1.
  destruct (ew_find_signal w (c :: n)) as [ref w1]. cbn. destruct (negb (ref =? 0)); [by eexists false, w1|]. unfold lift. destruct (Hdrivers source) as [l ->]. cbn.
  eexists _, w1. split; [done|]. intros _. by apply (Hrange _ _ Hn).
Qed.

(** Enough fuel for the temporaries not yet visited. *)
Lemma collect_total fuel pc : forall visited sources source (w : W), known_signals visited ->
  (Z.to_nat (db_signal_count d) - length visited < fuel)%nat ->
  exists visited' sources' w', collect_expression_sources d fuel pc (visited, sources) source w = (Ret (visited', sources'), w') /\
    known_signals visited' /\ (length visited <= length visited')%nat.
Proof using Hnames Hdrivers Hrange.
  induction fuel as [|fuel IH]; intros visited sources source w Hk Hf; [lia|]. cbn [collect_expression_sources].
  destruct (Hnames source) as [n Hn]. rewrite (act_bind_ret _ _ _ n w) by (unfold lift; by rewrite Hn).
  destruct (transparent_total source w) as (b & w1 & Eb & Hb). rewrite (act_bind_ret _ _ _ b w1) by done. destruct b; cbn [negb]; [|by eexists _, _, w1].
  specialize (Hb eq_refl). destruct (zmem source visited) eqn:Ez; [by eexists _, _, w1|].
  destruct (Hdrivers source) as [facts Hfacts]. rewrite (act_bind_ret _ _ _ facts w1) by (unfold lift; by rewrite Hfacts).
  set (dependencies := List.filter _ facts).
  assert (known_signals (source :: visited)) as Hk1.
  { destruct Hk as [Hnd Hr]. split.
    - apply list.NoDup_cons. split; [|done]. intros Hin. apply not_true_iff_false in Ez. apply Ez, existsb_exists. exists source. split; [by apply list_elem_of_In|apply Z.eqb_refl].
    - intros i [->|Hi]%elem_of_cons; [done|by apply Hr]. }
  pose proof (known_signals_length _ Hk1) as Hlen. cbn [length] in Hlen.
  assert (forall l vis src w, known_signals vis -> (S (length visited) <= length vis)%nat ->
    exists vis' src' w', fold_act (collect_expression_sources d fuel pc) l (vis, src) w = (Ret (vis', src'), w') /\ known_signals vis' /\ (length vis <= length vis')%nat) as Hfold.
  { clear -IH Hf Hlen. induction l as [|a l IHl]; intros vis src w Hk Hv; cbn [fold_act]; [by eexists vis, src, w|].
    destruct (IH vis src a w Hk) as (vis1 & src1 & w1 & E1 & Hk1 & Hl1); [lia|]. rewrite (act_bind_ret _ _ _ _ _ E1).
    destruct (IHl vis1 src1 w1 Hk1) as (vis2 & src2 & w2 & E2 & Hk2 & Hl2); [lia|]. exists vis2, src2, w2. split_and!; [done..|lia]. }
  destruct (Hfold (map f_src dependencies) (source :: visited) sources w1 Hk1) as (vis & src & w2 & E2 & Hk2 & Hl2); [cbn; lia|].
  rewrite (act_bind_ret _ _ _ _ _ E2). cbn [length] in Hl2. eexists _, _, w2. split; [done|]. split; [done|lia].
Qed.
End Temporaries.

(** C31: expanding compiler temporaries ends: when the reads of the design are
    defined and only its signals have names, the search for the sources behind
    a temporary returns within its fuel on every waveform, feedback through
    temporaries included, and never visits a signal twice. *)
Theorem expression_sources_total {D W} `{DesignBackend D} `{DesignPlaces D} `{EngineWave W} (d : D) parent_controls source (w : W) :
  (forall i, exists n, signal_name d i = Ret n) -> (forall i, exists l, drivers_for d i = Ret l) ->
  (forall i n, signal_name d i = Ret n -> n <> [] -> 0 <= i < db_signal_count d) ->
  exists visited sources w', collect_expression_sources d (expression_fuel d) parent_controls ([], []) source w = (Ret (visited, sources), w') /\ NoDup visited.
Proof.
  intros Hn Hd Hr. destruct (collect_total (W := W) d Hn Hd Hr (expression_fuel d) parent_controls [] [] source w) as (vis & src & w' & E & [Hnd _] & _).
  - split; [constructor|]. by intros i ?%elem_of_nil.
  - unfold expression_fuel. cbn [length]. lia.
  - by exists vis, src, w'.
Qed.

(** ** A small design *)

(** A design given by its signals: name, direction, width and driver records. *)
Record TableSignal := MkTableSignal { tsg_name : bytes; tsg_direction : Z; tsg_width : Z; tsg_drivers : list DriverRecord }.
Abbreviation TableDesign := (list TableSignal).
Definition design_row (l : TableDesign) (i : Z) : option TableSignal := if 0 <=? i then l !! Z.to_nat i else None.
Definition named_row (l : TableDesign) (signal : bytes) : Z :=
  match list_find (fun r => tsg_name r = signal) l with Some (i, _) => Z.of_nat i | None => -1 end.
#[export] Instance table_design : DesignBackend TableDesign := {|
  db_signal_count l := zlen l;
  db_signal_name l i := Ret (tsg_name <$> design_row l i);
  db_signal_direction l i := Ret (default 0 (tsg_direction <$> design_row l i));
  db_port_connections _ _ := Ret [];
|}.
#[export] Instance table_places : DesignPlaces TableDesign := {|
  dp_signal_file _ _ := Ret None;
  dp_signal_line _ _ := Ret 0;
  dp_resolve l signal := Ret (named_row l signal);
  dp_signal_type _ _ := Ret None;
  dp_signal_width l i := Ret (default 0 (tsg_width <$> design_row l i));
  dp_trace_driver l i := Ret (default [] (tsg_drivers <$> design_row l i));
  dp_trace_load _ _ := Ret [];
|}.
(** [top.y] is driven by a temporary that feeds itself and reads [top.a]. *)
Definition assigned (source : Z) (role : string) : DriverRecord := MkDriver source (lit "cont_assign") (lit role) (lit "1") (lit "t.v") 3.
Definition loop_design : TableDesign :=
  [MkTableSignal (lit "top.y") 0 1 [assigned 1 "rhs"];
   MkTableSignal (lit "top.__vlemcall_0") 0 1 [assigned 1 "rhs"; assigned 2 "rhs"];
   MkTableSignal (lit "top.a") 0 1 []].
Definition loop_wave : Table := MkTable [bits_row (lit "top.y") (lit "01"); bits_row (lit "top.a") (lit "01")] 2 0.
Lemma expression_sources_total_witness :
  exists visited sources w', collect_expression_sources (H1 := table_wave) loop_design (expression_fuel loop_design) [] ([], []) 1 loop_wave
    = (Ret (visited, sources), w') /\ NoDup visited.
Proof.
  apply (expression_sources_total (W := Table) (H1 := table_wave) loop_design [] 1 loop_wave).
  - intros i. unfold signal_name, name_of. cbn. destruct (0 <=? i); eauto.
  - intros i. unfold drivers_for. cbn. destruct (0 <=? i); cbn; eauto.
  - intros i n. unfold signal_name, name_of, db_signal_name, table_design, design_row, db_signal_count. destruct (Z.leb_spec 0 i) as [Hi|]; cbn [mbind res_bind]; [|by intros [= <-]].
    destruct (loop_design !! Z.to_nat i) eqn:E; [|by intros [= <-]]. intros _ _. apply lookup_lt_Some in E. unfold zlen. lia.
Defined.

(** ** The race search *)

Lemma act_bind_inv {St A B} (m : act St A) (f : A -> act St B) s b s' : (m ≫= f) s = (Ret b, s') -> exists a s1, m s = (Ret a, s1) /\ f a s1 = (Ret b, s').
Proof. unfold mbind, act_bind. destruct (m s) as [[a| |e] s1]; [|done..]. intros E. by exists a, s1. Qed.
Lemma act_bind_ext {St A B} (m : act St A) (f g : A -> act St B) s : (forall a s1, m s = (Ret a, s1) -> f a s1 = g a s1) -> (m ≫= f) s = (m ≫= g) s.
Proof. unfold mbind, act_bind. destruct (m s) as [[a| |e] s1]; [|done..]. intros E. by apply E. Qed.

Section Races.
Context {D W : Type} `{DesignBackend D} `{DesignPlaces D} `{EngineWave W} `{StdSort} (d : D) (x : DesignQueryIndex) (root : bytes) (event_time : Z).
Abbreviation search := (collect_same_slot_nba_boundaries (W := W) d x).

Lemma search_fold_remaining fuel sources : (forall st signal w st' w', search fuel root event_time st signal w = (Ret st', w') -> 0 <= rs_remaining st -> 0 <= rs_remaining st' <= rs_remaining st) ->
  forall st w st' w', fold_act (search fuel root event_time) sources st w = (Ret st', w') -> 0 <= rs_remaining st -> 0 <= rs_remaining st' <= rs_remaining st.
Proof.
  intros Hs. induction sources as [|a sources IH]; intros st w st' w'; cbn [fold_act]; [intros [= <- <-]; lia|].
  intros (st1 & w1 & E1 & E2)%act_bind_inv. intros Hn. apply Hs in E1; [|done]. apply IH in E2; lia.
Qed.
Lemma search_remaining fuel st signal w st' w' : search fuel root event_time st signal w = (Ret st', w') -> 0 <= rs_remaining st -> 0 <= rs_remaining st' <= rs_remaining st.
Proof.
  revert st signal w st' w'. induction fuel as [|fuel IH]; intros st signal w st' w'; cbn [collect_same_slot_nba_boundaries].
  all: destruct (rs_complete st); cbn [negb]; [|intros [= <- <-]; lia]; destruct (_ || _); [intros [= <- <-]; lia|]; destruct (Z.eqb_spec (rs_remaining st) 0) as [E0|]; [intros [= <- <-]; cbn; lia|].
  - done.
  - intros (facts & w1 & _ & E)%act_bind_inv. apply act_bind_inv in E as (es & w2 & _ & E). apply act_bind_inv in E as (bs & w3 & _ & E).
    intros Hn. apply search_fold_remaining in E; [cbn [rs_remaining] in E; lia|exact IH|cbn [rs_remaining]; lia].
Qed.
(** Each level takes one node, so any fuel from the nodes left on gives the same search. *)
Lemma race_search_fuel fuel fuel' st signal w : 0 <= rs_remaining st -> rs_remaining st <= Z.of_nat fuel -> rs_remaining st <= Z.of_nat fuel' ->
  search fuel root event_time st signal w = search fuel' root event_time st signal w.
Proof.
  revert fuel' st signal w. induction fuel as [|fuel IH]; intros fuel' st signal w R0 R1 R2; destruct fuel' as [|fuel']; cbn [collect_same_slot_nba_boundaries]; [done| | |].
  1,2: destruct (rs_complete st); cbn [negb]; [|done]; destruct (_ || _); [done|]; destruct (Z.eqb_spec (rs_remaining st) 0); [done|lia].
  destruct (rs_complete st); cbn [negb]; [|done]; destruct (_ || _); [done|]; destruct (Z.eqb_spec (rs_remaining st) 0); [done|].
  apply act_bind_ext. intros facts w1 _. apply act_bind_ext. intros es w2 _. apply act_bind_ext. intros bs w3 _.
  set (sources := map f_src _). set (start := MkRace _ _ _ _). assert (rs_remaining start = rs_remaining st - 1) as Hr by done. clearbody start sources.
  assert (rs_remaining start <= Z.of_nat fuel /\ rs_remaining start <= Z.of_nat fuel' /\ 0 <= rs_remaining start) as (F1 & F2 & F3) by lia. clear -IH F1 F2 F3.
  revert start w3 F1 F2 F3. induction sources as [|a sources IHs]; intros start w F1 F2 F3; cbn [fold_act]; [done|].
  unfold mbind, act_bind. rewrite (IH fuel' start a w) by lia. destruct (search fuel' root event_time start a w) as [[u| |e] w1] eqn:E; [|done..].
  apply search_remaining in E; [|done]. apply IHs; lia.
Qed.
End Races.

(** ** Horizons *)

Section Horizons.
Context {D W : Type} `{DesignBackend D} `{DesignPlaces D} `{EngineWave W} `{StdSort} (d : D) (x : DesignQueryIndex).

Lemma statement_groups_untimed drivers g : g ∈ statement_groups drivers -> g_event_time g = None.
Proof.
  unfold statement_groups. intros Hg. apply list_elem_of_In, in_map_iff in Hg as ([k g'] & <- & Hin). cbn [finish_group with_rhs g_event_time snd].
  destruct (grouped_exact drivers) as [Hs Hget]. rewrite <- list_elem_of_In, (omap_get_elem statement_key_cmp), Hget in Hin by done.
  destruct (of_key k drivers) as [|f l]; [done|]. injection Hin as <-. unfold raw_group. generalize (f :: l). clear. intros l.
  induction l as [|f l IH] using rev_ind; [done|]. by rewrite foldl_app.
Qed.
(** A horizon of zero is read as none: no statement gets an event time. *)
Lemma zero_horizon_untimed drivers active_time (w : W) es w' : active_statement_groups d x drivers active_time 0 w = (Ret es, w') ->
  Forall (fun g => g_event_time g = None) (es_active es ++ es_unresolved es).
Proof.
  unfold active_statement_groups. assert (Forall (fun g => g_event_time g = None) (statement_groups drivers)) as Hg
    by (apply list.Forall_forall; intros g; apply statement_groups_untimed).
  assert (Forall (fun g => g_event_time g = None) (es_active (MkEvaluated [] []) ++ es_unresolved (MkEvaluated [] []))) as He by constructor.
  revert He. generalize (MkEvaluated [] []). revert w. induction Hg as [|g groups Hg _ IH]; intros w es0 He; cbn [fold_act]; [by intros [= <- <-]|].
  intros (es1 & w1 & E1 & E2)%act_bind_inv. apply (IH w1 es1); [|exact E2]. unfold evaluate_statement in E1.
  apply act_bind_inv in E1 as (g1 & w2 & [= <- <-] & E1). apply act_bind_inv in E1 as (state & w3 & _ & [= <- <-]).
  destruct state; [|done|..]; cbn [es_active es_unresolved]; apply list.Forall_app in He as [He1 He2]; rewrite ?list.Forall_app; split_and!; try done; by repeat constructor.
Qed.
(** So after a self-hold at time 1 the search goes on without any horizon. *)
Lemma self_hold_at_one n drivers target active_time original current :
  es_unresolved current = [] -> es_active current <> [] -> forallb (is_pure_self_hold target) (es_active current) = true -> self_hold_time (es_active current) = Some 1 ->
  forall w : W, skip_self_holds d x (S n) drivers target active_time original current w =
    (next ← active_statement_groups d x drivers active_time 0; skip_self_holds d x n drivers target active_time original (apply_unique_nba_priority next)) w.
Proof.
  intros Hu Ha Hp Ht w. cbn [skip_self_holds]. rewrite Hu, Hp, Ht. destruct (es_active current); [done|]. done.
Qed.
End Horizons.
