(* ===== verification/ActiveTrace.v ===== *)
(** * ActiveTrace: trace.active_driver and trace.active_driver_chain

    Models the handlers of
    [src/engine/actions/combined/combined_actions.cpp] that follow the active
    driver of a signal: the evidence they report, one hop of the chain, the
    loop over hops and the two responses. *)

From S2P Require Import Prelude Sorting CLib Json LogicValue Waveform ExprParser ExprEval ClockSampling WellenBackend BinaryDesign DesignIndex Engine TableWave Xout SourceContext WaveState ScopeList DesignActions DriverFacts ActiveStatements.

Open Scope Z_scope.

Definition unknown_file : bytes := lit "<unknown>".
Definition shown_file (file : bytes) : json := JString (if is_nil file then unknown_file else file).
Definition string_value (s : string) : json := JString (lit s).

Record NativeCandidateChange := MkChange { nc_candidates : Z; nc_sampled : Z; nc_changed : Z; nc_last_changed : option Z }.
(** Only a single changed candidate is reported. *)
Definition nc_unique (c : NativeCandidateChange) : option Z := if nc_changed c =? 1 then nc_last_changed c else None.

Section Traces.
Context {D W : Type} `{DesignBackend D} `{DesignPlaces D} `{EngineWave W} `{StdSort}.
Context (getenv : bytes -> option bytes) (fs : FileSystem) (design_path waveform_path : bytes) (trunc : bytes -> Z) (d : D) (x : DesignQueryIndex).
Abbreviation step := (act W).
Abbreviation name := (signal_name d).
Abbreviation rows_of := (source_rows getenv fs design_path waveform_path).

(** ** Evidence *)

Definition source_context (file : bytes) (line : Z) : res json := trace_source_context getenv fs design_path waveform_path file line line.
Definition source_path (f : Driver) (source target : bytes) : res json :=
  context ← source_context (f_file f) (f_line f);
  Ret (jobj [(lit "file", shown_file (f_file f)); (lit "line", JInt (Z.max 1 (f_line f))); (lit "source_context", context);
             (lit "signal_path", JArray (map JString ((if is_nonempty source && negb (eqs source target) then [source] else []) ++ [target])))]).
(** The place of a hop: of its driver, else of the signal. *)
Definition hop_file (driver : option Driver) (signal_index : Z) (missing : bytes) : res bytes :=
  let own := match driver with Some f => f_file f | None => [] end in
  if is_nonempty own then Ret own
  else if 0 <=? signal_index then file ← dp_signal_file d signal_index; Ret (default missing file) else Ret missing.
Definition hop_line (driver : option Driver) (signal_index missing : Z) : res Z :=
  let own := match driver with Some f => f_line f | None => 0 end in
  if 0 <? own then Ret own else if 0 <=? signal_index then dp_signal_line d signal_index else Ret missing.
Definition trace_hop (w : W) (index : Z) (signal : bytes) (s : Sample) (relation : string) (driver : option Driver) (signal_index : Z)
    (unit : TimeRenderUnit) (format : ValueRenderFormat) : res json :=
  file ← hop_file driver signal_index unknown_file;
  line ← hop_line driver signal_index 1;
  context ← source_context file line;
  Ret (jobj [(lit "index", JUint index); (lit "chain_id", string_value "c0"); (lit "signal", JString signal);
             (lit "time", JString (ew_format_time w (sm_query_time s) unit)); (lit "active_time", JString (ew_format_time w (sm_active_time s) unit));
             (lit "value", JString (logic_string s format)); (lit "relation", string_value relation); (lit "file", shown_file file);
             (lit "line", JInt (Z.max 1 line)); (lit "source_context", context); (lit "signal_path", JArray [JString signal])]).

(** The control and the event line above a statement, at most sixteen lines up. *)
Fixpoint context_rows_scan (candidate control_line : Z) (rows : list json) : res (Z * Z) :=
  match rows with
  | [] => Ret (control_line, 0)
  | row :: rows' =>
      active ← value_or as_bool (lit "active") false row;
      if negb active then context_rows_scan candidate control_line rows'
      else
        raw ← value_or as_string (lit "text") [] row;
        let text := trim_copy raw in
        let control_line := if (control_line =? 0) && (starts_with (lit "if") text || starts_with (lit "else if") text) then candidate else control_line in
        if starts_with (lit "always") text then Ret (control_line, candidate) else context_rows_scan candidate control_line rows'
  end.
Fixpoint context_lines (left : nat) (file : bytes) (candidate control_line : Z) : res (Z * Z) :=
  match left with
  | O => Ret (control_line, 0)
  | S left' =>
      if candidate <=? 0 then Ret (control_line, 0)
      else
        rows ← rows_of file candidate;
        '(control_line, event_line) ← context_rows_scan candidate control_line rows;
        if event_line =? 0 then context_lines left' file (candidate - 1) control_line else Ret (control_line, event_line)
  end.
Definition context_path (file : bytes) (line : Z) (signals : list bytes) : res json :=
  context ← source_context file line;
  Ret (jobj [(lit "file", JString file); (lit "line", JInt line); (lit "source_context", context);
             (lit "signal_path", JArray (foldl append_unique_signal [] signals))]).
Definition append_flattened_statement_context_paths (paths : list json) (g : StatementGroup) (target : bytes) (compatibility : bool) : res (list json) :=
  if negb (kind_is_of "nba" g) then Ret paths
  else
    '(control_line, event_line) ← context_lines 16 (g_file g) (g_line g - 1) 0;
    paths ← (if 0 <? control_line then
               expression ← parse_expr (g_predicate g);
               let signals := match expression with Some e => map (fun s => public_signal_name s target compatibility) (expression_signals e) | None => [] end in
               path ← context_path (g_file g) control_line (signals ++ [target]); Ret (paths ++ [path])
             else Ret paths);
    if 0 <? event_line then
      names ← map_res (fun r => n ← name (f_src r); Ret (public_signal_name n target compatibility))
                (List.filter (fun r => has_source r && is_event_role r) (g_records g));
      path ← context_path (g_file g) event_line (names ++ [target]); Ret (paths ++ [path])
    else Ret paths.

(** ** Candidates *)

Definition driver_source_name (f : Driver) : res bytes :=
  source ← name (f_src f);
  match f_rhs_numeric_selector f, source with
  | Some selector, _ :: _ => Ret (source ++ lit "[" ++ to_string selector ++ lit "]")
  | _, _ =>
      if 0 <=? f_rhs_selector_signal f then
        selector ← name (f_rhs_selector_signal f);
        let leaf := leaf_name selector in
        Ret (if is_nonempty source && is_nonempty leaf then source ++ lit "[" ++ leaf ++ lit "]" else source)
      else Ret source
  end.
Definition candidate_change (requested_root : bytes) (evidence_time : Z) (c : NativeCandidateChange * Z) (f : Driver) : step (NativeCandidateChange * Z) :=
  let '(change, index) := c in
  internal ← lift (driver_source_name f);
  let source := public_signal_name internal requested_root true in
  before ← sample_before source evidence_time;
  after ← sample_at source evidence_time;
  mret (if negb (sm_ok before && sm_ok after) then change
        else if eqs (sm_bits before) (sm_bits after)
        then MkChange (nc_candidates change) (nc_sampled change + 1) (nc_changed change) (nc_last_changed change)
        else MkChange (nc_candidates change) (nc_sampled change + 1) (nc_changed change + 1) (Some index), index + 1).
Definition native_candidate_changes (g : StatementGroup) (requested_root : bytes) (evidence_time : Z) : step NativeCandidateChange :=
  '(change, _) ← fold_act (candidate_change requested_root evidence_time) (g_rhs g) (MkChange (zlen (g_rhs g)) 0 0 None, 0);
  mret change.

Fixpoint increasing (l : list Z) : bool := match l with a :: (b :: _) as l' => (a <? b) && increasing l' | _ => true end.
Definition same_file_in_order (statements : list StatementGroup) : bool :=
  match statements with
  | [] => true
  | first :: rest => forallb (fun g => eqs (g_file g) (g_file first)) rest && increasing (map g_line statements)
  end.
Definition statement_only (f : Driver) : bool := negb (has_source f) && kind_of_is "proc_assign" f && role_is "statement" f.
Definition select_native_statement_input (w : W) (drivers : list Driver) (s : Sample) : option StatementGroup :=
  let statements := statement_groups drivers in
  let times := map (sb_time_at w) (sb_time_indices_of w (sm_ref s)) in
  if negb (length drivers =? 0)%nat && forallb statement_only drivers && negb (length statements =? 0)%nat &&
     forallb (fun g => (length (g_rhs g) =? 0)%nat && negb (length (g_records g) =? 0)%nat) statements &&
     same_file_in_order statements && (length times =? length statements)%nat && increasing times
  then snd <$> List.find (fun tg => fst tg =? sm_active_time s) (zip times statements)
  else None.

(** ** Ambiguity *)

Definition ambiguity_value (w : W) (s : Sample) (unit : TimeRenderUnit) (format : ValueRenderFormat) (missing_status : string) (value_time : Z) : json :=
  if sm_ok s then
    jobj [(lit "status", string_value "ok"); (lit "value", JString (logic_string s format)); (lit "known", JBool (known_bits (sm_bits s)));
          (lit "value_time", JString (ew_format_time w value_time unit))]
  else jobj [(lit "status", string_value missing_status); (lit "value", JNull); (lit "known", JNull); (lit "value_time", JNull)].
Definition named_driver (requested_root : bytes) (compatibility : bool) (f : Driver) : res (bytes * Driver) :=
  source ← driver_source_name f; Ret (public_signal_name source requested_root compatibility, f).
Definition rhs_sample (active_time : Z) (unit : TimeRenderUnit) (format : ValueRenderFormat) (public_source : bytes) : step json :=
  source_exists ← found public_source;
  let missing_status := if source_exists : bool then "missing_value"%string else "signal_not_found"%string in
  before ← sample_before public_source active_time;
  after ← sample_at public_source active_time;
  w ← get_state;
  mret (jobj [(lit "signal", JString public_source);
              (lit "before", ambiguity_value w before unit format missing_status (sm_active_time before));
              (lit "after", ambiguity_value w after unit format missing_status active_time);
              (lit "changed", if sm_ok before && sm_ok after then JBool (negb (eqs (sm_bits before) (sm_bits after))) else JNull)]).
Definition ambiguity_statement (requested_root : bytes) (compatibility : bool) (active_time max_trace_signals : Z) (unit : TimeRenderUnit) (format : ValueRenderFormat)
    (st : list json * Z * Z) (g : StatementGroup) : step (list json * Z * Z) :=
  let '(statements, rhs_count, returned) := st in
  named ← lift (map_res (named_driver requested_root compatibility) (g_rhs g));
  let ordered := stable_sort (fun a b : bytes * Driver => str_ltb (fst a) (fst b)) named in
  samples ← map_act (rhs_sample active_time unit format) (map fst (take (Z.to_nat (max_trace_signals - returned)) ordered));
  let statement := jobj [(lit "kind", JString (if is_nil (g_kind g) then lit "assignment" else g_kind g)); (lit "driver", JString (g_kind g));
                         (lit "file", JString (g_file g)); (lit "line", JInt (Z.max 0 (g_line g))); (lit "rhs_signal_count", JUint (zlen (g_rhs g)));
                         (lit "returned_rhs_signal_count", JUint (zlen samples)); (lit "complete", JBool (zlen samples =? zlen (g_rhs g)));
                         (lit "rhs_samples", JArray samples)] in
  mret (statements ++ [statement], rhs_count + zlen (g_rhs g), returned + zlen samples).
(** The evidence, and whether every source is in it. *)
Definition ambiguity_evidence (kind_ signal requested_root : bytes) (compatibility : bool) (active_time hop_index : Z) (groups : list StatementGroup)
    (max_trace_signals : Z) (unit : TimeRenderUnit) (format : ValueRenderFormat) : step (json * bool) :=
  '(statements, rhs_count, returned) ← fold_act (ambiguity_statement requested_root compatibility active_time max_trace_signals unit format) groups ([], 0, 0);
  w ← get_state;
  let omitted := rhs_count - returned in
  mret (jobj [(lit "kind", JString kind_); (lit "signal", JString (public_signal_name signal requested_root compatibility));
              (lit "active_time", JString (ew_format_time w active_time unit)); (lit "hop_index", JUint hop_index);
              (lit "statement_count", JUint (zlen groups)); (lit "rhs_signal_count", JUint rhs_count); (lit "returned_rhs_signal_count", JUint returned);
              (lit "omitted_rhs_signal_count", JUint omitted); (lit "analysis_complete", JBool (omitted =? 0));
              (lit "truncation_scopes", JArray (if omitted =? 0 then [] else [string_value "ambiguity_rhs_samples"]));
              (lit "statements", JArray statements)], omitted =? 0).

(** ** One hop *)

Record TraceSetup := MkSetup {
  ts_root : bytes; ts_compatibility : bool; ts_duplicate_top : bool; ts_unit : TimeRenderUnit; ts_format : ValueRenderFormat;
  ts_max_depth : Z; ts_max_nodes : Z; ts_max_signals : Z }.

(** *** The facts of the hop *)

Record HopFacts := MkHopFacts {
  hf_drivers : list Driver; hf_driver_index : Z; hf_endpoint : bool; hf_source_less : bool; hf_flattened : bool; hf_native_flattened : bool;
  (** the parent of a projected root input *)
  hf_parent : option bytes;
  hf_bound : bool; hf_bound_exact : bool; hf_context : option SelectedDesignSignal; hf_loop_boundary : bool }.

Definition bind_context (native_flattened : bool) (context : option SelectedDesignSignal) (facts : list Driver)
  : res (list Driver * bool * bool * option SelectedDesignSignal) :=
  match context with
  | Some c =>
      if native_flattened then Ret (facts, false, false, None)
      else
        '(bound_facts, bound) ← bind_target_loop_indices d x c facts;
        Ret (if bound : bool then (bound_facts, true, sd_exact c, None) else (facts, false, false, context))
  | None => Ret (facts, false, false, None)
  end.
Definition hop_facts (ts : TraceSetup) (depth : Z) (selected : SelectedDesignSignal) (context : option SelectedDesignSignal) : step HopFacts :=
  let index := sd_index selected in
  facts ← lift (drivers_for d index);
  boundary ← (if ts_duplicate_top ts then select_native_input_parent_driver_facts d x index facts index else mret (MkBoundary false false facts index));
  flattened ← select_flattened_output_driver_facts d x index
    (ts_compatibility ts || (sd_has_selector selected && negb (sd_exact selected))) (nb_drivers boundary);
  let '(facts, driver_index) := default (nb_drivers boundary, nb_index boundary) flattened in
  leaf ← (if ts_duplicate_top ts then lift (select_native_flattened_leaf_facts d x selected facts) else mret None);
  let native_flattened := is_present leaf in
  let '(facts, driver_index) := default (facts, driver_index) leaf in
  parent ← (if ts_compatibility ts && (depth =? 0) then select_root_input_parent_driver_facts d x index else mret None);
  let '(facts, driver_index, parent) :=
    match parent with
    | Some ([], parent_index, _) => ([], parent_index, None)
    | Some (parent_facts, parent_index, parent_name) => (parent_facts, parent_index, Some parent_name)
    | None => (facts, driver_index, None)
    end in
  '(facts, bound, bound_exact, context) ← lift (bind_context native_flattened context facts);
  facts ← lift (if ts_duplicate_top ts then map_native_local_input_ports d x index facts else Ret facts);
  facts ← lift (annotate_output_instance_identities d x driver_index facts);
  facts ← (if native_flattened then mret facts else expand_expression_temporaries d x facts);
  facts ← lift (if ts_duplicate_top ts then map_native_local_input_ports d x index facts else Ret facts);
  facts ← lift (if ts_duplicate_top ts then annotate_native_source_loop_ranges getenv fs design_path waveform_path d facts else Ret facts);
  let facts := annotate_loop_selected_rhs facts in
  mret (MkHopFacts facts driver_index (nb_endpoint boundary) (nb_source_less boundary) (is_present flattened || native_flattened) native_flattened
          parent bound bound_exact context (ts_duplicate_top ts && negb bound && has_native_loop_selection_boundary facts)).

(** *** The statements of the hop *)

Record HopStatements := MkHopStatements { hs_evaluated : EvaluatedStatements; hs_groups : list StatementGroup; hs_force : bool; hs_statement_input : bool }.
Inductive StatementsOutcome := BacktracksLimited | InitializationOnly | HopHas (statements : HopStatements).
Definition drives (g : StatementGroup) : bool :=
  negb (length (g_rhs g) =? 0)%nat || kind_is_of "nba" g || kind_is_of "force" g || existsb (role_is "control") (g_records g).
Definition hop_groups (w : W) (ts : TraceSetup) (depth : Z) (facts : HopFacts) (s : Sample) (es : EvaluatedStatements) : HopStatements :=
  let groups := List.filter drives (es_active es) in
  let force := existsb (kind_is_of "force") groups in
  let groups := if force then List.filter (kind_is_of "force") groups else groups in
  let input := if ts_duplicate_top ts && (0 <? depth) && negb force && (length (es_unresolved es) =? 0)%nat
               then select_native_statement_input w (hf_drivers facts) s else None in
  let groups := match input with Some g => [g] | None => groups end in
  let native := if ts_duplicate_top ts && negb (hf_loop_boundary facts) && negb (is_present input) && negb force
                then native_dependency_groups groups (hf_drivers facts) else [] in
  MkHopStatements es (match native with [] => groups | _ => native end) force (is_present input).
Definition hop_statements (ts : TraceSetup) (depth current_time : Z) (facts : HopFacts) (s : Sample) : step StatementsOutcome :=
  '(es, limited) ← active_statement_groups_skipping_self_hold d x (hf_drivers facts) (hf_driver_index facts) (sm_active_time s)
                     (if ts_compatibility ts then sm_active_time s else current_time) (ts_max_nodes ts);
  if limited : bool then mret BacktracksLimited
  else
    es ← lift (if ts_compatibility ts && negb (ts_duplicate_top ts)
               then suppress_non_source_rhs getenv fs design_path waveform_path d es else Ret es);
    w ← get_state;
    let '(es, initialization_only) :=
      if ts_compatibility ts && hf_flattened facts then suppress_initialization_only_event_evidence w es s else (es, false) in
    if initialization_only && (length (es_active es) =? 0)%nat && (length (es_unresolved es) =? 0)%nat then mret InitializationOnly
    else
      es ← suppress_unobserved_statement_only_force d es s;
      w ← get_state;
      mret (HopHas (hop_groups w ts depth facts s (apply_unique_nba_priority es))).

(** *** The choice of a driver *)

Record Choice := MkChoice { ch_groups : list StatementGroup; ch_ambiguity : bytes; ch_selected : option Driver; ch_upstream : bytes; ch_control_only : bool }.
Definition with_upstream (upstream : bytes) (c : Choice) : Choice := MkChoice (ch_groups c) (ch_ambiguity c) (ch_selected c) upstream (ch_control_only c).
(** Crossing a port: no driver is shown and the ambiguity is resolved. *)
Definition crossed (upstream : bytes) (c : Choice) : Choice := MkChoice (ch_groups c) [] None upstream (ch_control_only c).
Definition sampleable (signal : bytes) (time : Z) : step bool := s ← sample_at signal time; mret (sm_ok s).

(** The ambiguity, whether only controls are left, and the one source that changed. *)
Definition choose_ambiguity (ts : TraceSetup) (current_time : Z) (facts : HopFacts) (hs : HopStatements) : step (list StatementGroup * bytes * bool * option Driver) :=
  if hf_loop_boundary facts then mret ([], [], false, None)
  else if negb (hs_force hs) && negb (length (es_unresolved (hs_evaluated hs)) =? 0)%nat then mret (hs_groups hs, lit "predicate_unresolved", false, None)
  else
    match hs_groups hs with
    | [g] =>
        if (length (g_rhs g) <=? 1)%nat then mret ([g], [], false, None)
        else if ts_duplicate_top ts && negb (hf_bound_exact facts) then
          changes ← native_candidate_changes g (ts_root ts) current_time;
          mret (if nc_sampled changes =? nc_candidates changes then
                  if nc_changed changes =? 1 then ([g], [], false, i ← nc_unique changes; g_rhs g !! Z.to_nat i)
                  else if nc_changed changes =? 0 then ([g], [], true, None)
                  else ([g], lit "multiple_rhs_sources", false, None)
                else ([g], lit "multiple_rhs_sources", false, None))
        else mret ([g], lit "multiple_rhs_sources", false, None)
    | [] => mret ([], [], false, None)
    | groups => mret (groups, lit "multiple_active_candidates", false, None)
    end.
Definition choose_driver (ts : TraceSetup) (current : bytes) (current_time : Z) (s : Sample) (facts : HopFacts) (hs : HopStatements) : step Choice :=
  '(groups, ambiguity, control_only, unique) ← choose_ambiguity ts current_time facts hs;
  let selected := match groups with g :: _ => representative_driver g | [] => None end in
  match unique with
  | Some f =>
      upstream ← lift (driver_source_name f);
      ok ← (if eqs upstream current then mret false else sampleable upstream (sm_active_time s));
      mret (MkChoice groups ambiguity (Some f) (if ok : bool then upstream else []) control_only)
  | None =>
      match groups, selected with
      | g :: _, Some f =>
          if is_nil ambiguity && negb control_only && negb (kind_is_of "force" g) && role_is "rhs" f then
            candidate ← lift (driver_source_name f);
            ok ← (if is_nil candidate || eqs candidate current then mret false else sampleable candidate (sm_active_time s));
            mret (MkChoice groups ambiguity selected (if ok : bool then candidate else []) control_only)
          else mret (MkChoice groups ambiguity selected [] control_only)
      | _, _ => mret (MkChoice groups ambiguity selected [] control_only)
      end
  end.

(** *** Ports *)

Definition is_single {A} (l : list A) : bool := match l with [_] => true | _ => false end.
Definition no_unresolved (hs : HopStatements) : bool := (length (es_unresolved (hs_evaluated hs)) =? 0)%nat.
Definition deeper_ports (current : bytes) (ports : list Z) : res (list (Z * bytes)) :=
  named ← map_res (with_name d) ports;
  Ret (List.filter (fun pn : Z * bytes => (hierarchy_depth current <? hierarchy_depth (snd pn))%nat) named).

(** An output at the root crosses to the one deepest child output. *)
Definition cross_child_output (facts : HopFacts) (hs : HopStatements) (index direction : Z) (current previous : bytes) (s : Sample) (c : Choice) : step Choice :=
  if negb (ch_control_only c) && negb (hf_native_flattened facts) && (direction =? 2) && is_nil previous && no_unresolved hs &&
     is_single (ch_groups c) && forallb (kind_is_of "cont_assign") (ch_groups c) then
    ports ← lift (deeper_ports current (List.filter (fun port => negb (port =? index)) (ports_connected_to x index 2)));
    match deepest_port ports with
    | Some (_, candidate) => ok ← sampleable candidate (sm_active_time s); mret (if ok : bool then crossed candidate c else c)
    | None => mret c
    end
  else mret c.

Definition connects (index : Z) (previous_index : Z) (connection : PortConnection) : bool := other_end connection previous_index =? index.
(** Arrived from a ref port, and from an output connected to here. *)
Definition arrival (index : Z) (previous : bytes) : res (bool * bool) :=
  if is_nil previous then Ret (false, false)
  else
    previous_index ← dp_resolve d previous;
    if previous_index <? 0 then Ret (false, false)
    else
      direction ← db_signal_direction d previous_index;
      if direction =? 2 then connections ← db_port_connections d previous_index; Ret (false, existsb (connects index previous_index) connections)
      else Ret (direction =? 3, false).
Definition inside_output (output_scope : bytes) (f : Driver) : res bool :=
  source ← name (f_src f); Ret (eqs (signal_scope source) output_scope || is_scope_ancestor output_scope source).
(** A net crosses to the one deeper output that drives it. *)
Definition cross_net_output (facts : HopFacts) (hs : HopStatements) (index direction : Z) (arrived : bool * bool) (current : bytes) (s : Sample) (c : Choice) : step Choice :=
  match ch_groups c with
  | [g] =>
      if negb (ch_control_only c) && negb (hf_native_flattened facts) && (direction =? 0) && negb (fst arrived) && negb (snd arrived) && no_unresolved hs then
        ports ← lift (deeper_ports current (ports_connected_to x index 2));
        let output_candidate := match ports with [(_, candidate)] => candidate | _ => [] end in
        inside ← lift (exists_res (inside_output (signal_scope output_candidate)) (g_rhs g));
        if is_nil output_candidate || inside then mret c
        else ok ← sampleable output_candidate (sm_active_time s); mret (if ok : bool then crossed output_candidate c else c)
      else mret c
  | _ => mret c
  end.

Definition mapped_record (mapped : gmap Z Z) (f : Driver) : Driver :=
  match mapped !! f_src f with Some port => with_src port f | None => f end.
Fixpoint map_instance_inputs (instance_scope : bytes) (rhs : list Driver) (mapped : gmap Z Z) : res (option (gmap Z Z)) :=
  match rhs with
  | [] => Ret (Some mapped)
  | f :: rhs' =>
      ports ← filter_res (inside_scope d instance_scope) (ports_connected_to x (f_src f) 1 ++ ports_connected_to x (f_src f) 3);
      match ports with
      | [port] => map_instance_inputs instance_scope rhs' (<[f_src f := port]> mapped)
      | _ => Ret None
      end
  end.
Definition map_group (mapped : gmap Z Z) (g : StatementGroup) : StatementGroup :=
  MkGroup (g_kind g) (g_file g) (g_predicate g) (g_line g) (g_event_time g) (g_predicate_unknown g) (g_loop_ranges g)
    (map (fun f => if role_is "rhs" f then mapped_record mapped f else f) (g_records g)) (map (mapped_record mapped) (g_rhs g)).
(** An output whose source is the net just left: the parent's statement, seen from inside the instance. *)
Definition enter_instance (ts : TraceSetup) (direction current_time : Z) (current previous : bytes) (s : Sample) (c : Choice) : step Choice :=
  if is_nil (ch_ambiguity c) && (direction =? 2) && is_nonempty previous && eqs (ch_upstream c) previous then
    parent_index ← lift (dp_resolve d previous);
    parent_facts ← lift (drivers_for d parent_index);
    es ← active_statement_groups d x parent_facts (sm_active_time s) (if ts_compatibility ts then sm_active_time s else current_time);
    es ← lift (if ts_compatibility ts then suppress_non_source_rhs getenv fs design_path waveform_path d es else Ret es);
    let es := apply_unique_nba_priority es in
    match es_unresolved es, es_active es with
    | [], [g] =>
        match g_rhs g with
        | [] => mret (MkChoice [g] [] (representative_driver g) [] (ch_control_only c))
        | rhs =>
            mapped ← lift (map_instance_inputs (signal_scope current) rhs ∅);
            match mapped with
            | None => mret c
            | Some mapped =>
                let g := map_group mapped g in
                match g_rhs g with
                | [f] => upstream ← lift (name (f_src f)); mret (MkChoice [g] [] (representative_driver g) upstream (ch_control_only c))
                | _ => mret (MkChoice [g] (lit "multiple_rhs_sources") (representative_driver g) [] (ch_control_only c))
                end
            end
        end
    | _, _ => mret c
    end
  else mret c.

Definition ancestor_port (current_scope : bytes) (pn : Z * bytes) : bool := is_scope_ancestor (signal_scope (snd pn)) current_scope.
(** An input crosses to the nearest input of an enclosing scope. *)
Definition cross_ancestor_input (index direction : Z) (current : bytes) (s : Sample) (c : Choice) : step Choice :=
  match ch_selected c with
  | Some f =>
      if is_nil (ch_ambiguity c) && (direction =? 1) then
        named ← lift (map_res (with_name d) (List.filter (fun port => negb (port =? index)) (ports_connected_to x (f_src f) 1)));
        match deepest_port (List.filter (ancestor_port (signal_scope current)) named) with
        | Some (port, candidate) =>
            ok ← sampleable candidate (sm_active_time s);
            mret (if ok : bool then MkChoice (ch_groups c) [] (Some (with_src port f)) candidate (ch_control_only c) else c)
        | None => mret c
        end
      else mret c
  | None => mret c
  end.

(** The choice after the ports, and whether its source expression is no plain signal. *)
Definition direct_source (ts : TraceSetup) (facts : HopFacts) (c : Choice) : res (Choice * bool) :=
  direct ← match ch_groups c with
           | [g] => if ts_compatibility ts && negb (ts_duplicate_top ts) && is_nil (ch_ambiguity c) && negb (kind_is_of "force" g) && is_nonempty (ch_upstream c)
                    then statement_has_direct_rhs getenv fs design_path waveform_path g else Ret true
           | _ => Ret true
           end;
  let c := if direct : bool then c else with_upstream [] c in
  Ret (match hf_parent facts with
       | Some parent => if is_nil (ch_ambiguity c) && is_nonempty parent then (with_upstream parent c, false) else (c, negb direct)
       | None => (c, negb direct)
       end).
(** The sample with the time of the assignment. *)
Definition causal_sample (ts : TraceSetup) (depth current_time index : Z) (s : Sample) (c : Choice) : step Sample :=
  projected ← (if ts_duplicate_top ts && (depth =? 0)
               then project_duplicate_top_same_slot_nba_race d x index (ts_root ts) current_time (ts_max_nodes ts) s else mret None);
  let s := default s projected in
  match is_nil (ch_ambiguity c), ch_groups c with
  | true, [g] =>
      match kind_is_of "nba" g, g_event_time g with
      | true, Some t => mret (with_active_time t (with_query_time t s))
      | _, _ =>
          if kind_is_of "cont_assign" g && is_nonempty (ch_upstream c) then
            causal ← causal_event_time_through_unique_chain d x (Z.to_nat (ts_max_nodes ts)) [] (ch_upstream c) current_time;
            mret (match causal with
                  | Some t => if negb (ts_duplicate_top ts) || (t <=? sm_active_time s) then with_active_time t s else s
                  | None => s
                  end)
          else mret s
      end
  | _, _ => mret s
  end.

(** *** The hop reported *)

Definition relation_at (depth : Z) : string := if depth =? 0 then "root" else "driver".
Definition shown_signal (ts : TraceSetup) (signal : bytes) : bytes := public_signal_name signal (ts_root ts) (ts_compatibility ts).
Definition hop_json (w : W) (ts : TraceSetup) (depth index : Z) (current : bytes) (s : Sample) (facts : HopFacts) (c : Choice) : res json :=
  hop ← trace_hop w depth (shown_signal ts current) s (relation_at depth) (ch_selected c) index (ts_unit ts) (ts_format ts);
  let source := match hf_parent facts with Some parent => if is_nonempty parent then parent else ch_upstream c | None => ch_upstream c end in
  let signals := (if is_nil source then [] else [shown_signal ts source]) ++ [shown_signal ts current] in
  let hop := set_key (lit "signal_path") (JArray (foldl append_unique_signal [] signals)) hop in
  Ret (if hf_loop_boundary facts || hf_source_less facts
       then set_key (lit "source_context") (JArray []) (set_key (lit "line") (JInt 1) (set_key (lit "file") (JString unknown_file) hop))
       else hop).

(** How a hop ends the chain, or where it goes on. *)
Inductive HopOutcome :=
| HopEnds (termination detail : bytes)
| HopAmbiguous (detail : bytes) (evidence : json) (complete : bool)
| HopGoesOn (upstream : bytes) (next_time : Z)
| HopLimited
| HopFails (error : json).

(** The other end of a port without facts. *)
Fixpoint port_upstream (direction index : Z) (current : bytes) (s : Sample) (connections : list PortConnection) : step bytes :=
  match connections with
  | [] => mret []
  | connection :: connections' =>
      candidate ← lift (name (other_end connection index));
      if (direction =? 1) && (hierarchy_depth current <=? hierarchy_depth candidate)%nat then port_upstream direction index current s connections'
      else if is_nil candidate || eqs candidate current then port_upstream direction index current s connections'
      else
        ok ← sampleable candidate (sm_active_time s);
        match ok with true => mret candidate | false => port_upstream direction index current s connections' end
  end.
Definition no_source_termination (drivers : list Driver) (active : list StatementGroup) : bytes :=
  match drivers with
  | [] => lit "unresolved"
  | _ => if existsb (fun g => is_assignment_kind (g_kind g)) active then lit "assignment"
         else if existsb (role_is "control") drivers then lit "control_only" else lit "assignment"
  end.
Definition no_source_detail (non_direct : bool) (termination : bytes) : bytes :=
  if non_direct then lit "non_direct_rhs_expression"
  else if eqs termination (lit "assignment") then lit "constant_or_no_rhs_signal" else termination.
Definition follow (index direction : Z) (current : bytes) (s : Sample) (facts : HopFacts) (hs : HopStatements) (c : Choice) (non_direct : bool) : step HopOutcome :=
  if is_nonempty (ch_upstream c) then mret (HopGoesOn (ch_upstream c) (sm_active_time s))
  else
    let port := (length (hf_drivers facts) =? 0)%nat && ((direction =? 1) || (direction =? 3)) in
    upstream ← (if port then connections ← lift (db_port_connections d index); port_upstream direction index current s connections else mret []);
    if is_nonempty upstream then mret (HopGoesOn upstream (sm_active_time s))
    else
      let termination := if port then lit "primary_input" else no_source_termination (hf_drivers facts) (es_active (hs_evaluated hs)) in
      mret (HopEnds termination (no_source_detail non_direct termination)).

Definition hop_outcome (ts : TraceSetup) (current_time index direction hop_count : Z) (current : bytes) (s : Sample) (facts : HopFacts) (hs : HopStatements)
    (c : Choice) (non_direct : bool) : step HopOutcome :=
  if hf_loop_boundary facts || hf_endpoint facts then mret (HopEnds (lit "primary_input") (lit "primary_input"))
  else if ch_control_only c then mret (HopEnds (lit "control_only") (lit "no_causal_toggle"))
  else if hs_statement_input hs then mret (HopEnds (lit "primary_input") (lit "primary_input"))
  else if is_nonempty (ch_ambiguity c) then
    let unresolved := eqs (ch_ambiguity c) (lit "predicate_unresolved") in
    let evidence_groups := if unresolved then es_unresolved (hs_evaluated hs) else ch_groups c in
    let hop_index := if eqs (ch_ambiguity c) (lit "multiple_active_candidates") then hop_count else u64 (hop_count - 1) in
    let evidence_time := if ts_duplicate_top ts && negb (hf_bound facts) then current_time else sm_active_time s in
    '(evidence, complete) ← ambiguity_evidence (ch_ambiguity c) current (ts_root ts) (ts_compatibility ts) evidence_time hop_index evidence_groups
                              (ts_max_signals ts) (ts_unit ts) (ts_format ts);
    mret (HopAmbiguous (ch_ambiguity c) (if unresolved then set_key (lit "analysis_complete") (JBool false) evidence else evidence) complete)
  else
    match ch_groups c with
    | [g] => if kind_is_of "force" g then mret (HopEnds (lit "force") (lit "force")) else follow index direction current s facts hs c non_direct
    | _ => follow index direction current s facts hs c non_direct
    end.

Definition choose_hop (ts : TraceSetup) (depth current_time index direction : Z) (current previous : bytes) (s : Sample) (facts : HopFacts) (hs : HopStatements)
  : step (Choice * bool) :=
  c ← choose_driver ts current current_time s facts hs;
  c ← cross_child_output facts hs index direction current previous s c;
  arrived ← lift (arrival index previous);
  c ← cross_net_output facts hs index direction arrived current s c;
  c ← enter_instance ts direction current_time current previous s c;
  c ← cross_ancestor_input index direction current s c;
  lift (direct_source ts facts c).

(** One round of the loop: the hops, the selector context and the outcome. *)
Definition chain_hop (ts : TraceSetup) (depth : Z) (current previous : bytes) (current_time : Z) (hops : list json) (context : option SelectedDesignSignal)
  : step (list json * option SelectedDesignSignal * HopOutcome) :=
  selected ← lift (resolve_selected_design_signal d current);
  let context := if sd_has_selector selected then Some selected else context in
  let index := sd_index selected in
  if index <? 0 then mret (hops, context, HopFails (error_response (lit "SIGNAL_NOT_FOUND") (lit "signal not found in design: " ++ current)))
  else
    s ← sample_at current current_time;
    if negb (sm_ok s) then mret (hops, context, HopFails (error_response (lit "VALUE_NOT_AVAILABLE") (lit "signal value not available in FST: " ++ current)))
    else
      external ← lift (if ts_compatibility ts && (depth =? 0) then is_external_primary_input d index else Ret false);
      if external : bool then
        w ← get_state;
        hop ← lift (trace_hop w depth current s "root" None index (ts_unit ts) (ts_format ts));
        mret (hops ++ [hop], context, HopEnds (lit "primary_input") (lit "primary_input"))
      else
        facts ← hop_facts ts depth selected context;
        outcome ← hop_statements ts depth current_time facts s;
        match outcome with
        | BacktracksLimited =>
            w ← get_state;
            hop ← lift (trace_hop w depth (shown_signal ts current) s (relation_at depth) None index (ts_unit ts) (ts_format ts));
            mret (hops ++ [hop], hf_context facts, HopLimited)
        | InitializationOnly => mret (hops, hf_context facts, HopEnds (lit "unresolved") (lit "unresolved"))
        | HopHas hs =>
            direction ← lift (db_signal_direction d index);
            '(c, non_direct) ← choose_hop ts depth current_time index direction current previous s facts hs;
            s ← causal_sample ts depth current_time index s c;
            w ← get_state;
            hops ← (if eqs (ch_ambiguity c) (lit "multiple_active_candidates") then mret hops
                    else hop ← lift (hop_json w ts depth index current s facts c); mret (hops ++ [hop]));
            outcome ← hop_outcome ts current_time index direction (zlen hops) current s facts hs c non_direct;
            mret (hops, hf_context facts, outcome)
        end.

(** ** The chain *)

Record ChainEnd := MkChainEnd {
  ce_hops : list json; ce_termination : bytes; ce_detail : bytes; ce_limited : bool; ce_ambiguity : option json; ce_ambiguity_limited : bool;
  ce_ambiguity_incomplete : bool; ce_frontier : option (bytes * Sample) }.
Definition chain_ends (hops : list json) (termination detail : bytes) : json + ChainEnd :=
  inr (MkChainEnd hops termination detail false None false false None).
Definition chain_limited (hops : list json) (detail : string) (frontier : option (bytes * Sample)) : json + ChainEnd :=
  inr (MkChainEnd hops (lit "limit") (lit detail) true None false false frontier).
Definition visit_key (current : bytes) (time : Z) : bytes := current ++ [chr 31] ++ udec time.
(** [left] is the depth still allowed: the loop ends at [max_depth] at the latest. *)
Fixpoint chain_loop (left : nat) (ts : TraceSetup) (visited : list bytes) (hops : list json) (context : option SelectedDesignSignal)
    (current previous : bytes) (current_time : Z) : step (json + ChainEnd) :=
  if smem (visit_key current current_time) visited then mret (chain_ends hops (lit "loop_detected") (lit "loop_detected"))
  else
    '(hops, context, outcome) ← chain_hop ts (ts_max_depth ts - Z.of_nat left) current previous current_time hops context;
    match outcome with
    | HopEnds termination detail => mret (chain_ends hops termination detail)
    | HopAmbiguous detail evidence complete =>
        let unresolved := eqs detail (lit "predicate_unresolved") in
        mret (inr (MkChainEnd hops (lit "ambiguous") detail false (Some evidence) (negb unresolved && negb complete) unresolved None))
    | HopLimited => mret (chain_limited hops "max_nodes" None)
    | HopFails error => mret (inl error)
    | HopGoesOn upstream next_time =>
        frontier ← sample_at upstream next_time;
        if ts_max_nodes ts <=? zlen hops then mret (chain_limited hops "max_nodes" (Some (upstream, frontier)))
        else
          match left with
          | O => mret (chain_limited hops "max_depth" (Some (upstream, frontier)))
          | S left' => chain_loop left' ts (visit_key current current_time :: visited) hops context upstream current next_time
          end
    end.

Definition depth_frontier (w : W) (ts : TraceSetup) (time : Z) (e : ChainEnd) : list (bytes * json) :=
  match ce_frontier e with
  | Some (signal, s) =>
      if eqs (ce_detail e) (lit "max_depth") && sm_ok s then
        let frontier_time := JString (ew_format_time w (sm_query_time s) (ts_unit ts)) in
        [(lit "depth_frontiers", JArray [jobj [(lit "chain_id", string_value "c0"); (lit "signal", JString signal); (lit "time", frontier_time);
            (lit "value", JString (logic_string s (ts_format ts))); (lit "stopped_after_depth", JUint (ts_max_depth ts))]]);
         (lit "suggested_next_actions", JArray [
            jobj [(lit "action", string_value "trace.active_driver_chain"); (lit "reason", string_value "continue_from_depth_frontier");
                  (lit "chain_id", string_value "c0"); (lit "args", jobj [(lit "signal", JString signal); (lit "time", frontier_time)]);
                  (lit "limits", jobj [(lit "max_depth", JUint (ts_max_depth ts))])];
            jobj [(lit "action", string_value "trace.active_driver_chain"); (lit "reason", string_value "rerun_from_root_with_higher_depth");
                  (lit "args", jobj [(lit "signal", JString (ts_root ts)); (lit "time", JString (ew_format_time w time (ts_unit ts)))]);
                  (lit "limits", jobj [(lit "max_depth", JUint (u64 (ts_max_depth ts * 2)))])]])]
      else []
  | None => []
  end.
Definition chain_response (w : W) (ts : TraceSetup) (time : Z) (e : ChainEnd) : json :=
  let data := [(lit "hops", JArray (ce_hops e))] ++ depth_frontier w ts time e ++
              match ce_ambiguity e with Some evidence => [(lit "ambiguity_evidence", evidence)] | None => [] end in
  let truncation := (if ce_limited e then [string_value "analysis_trace"] else []) ++ (if ce_ambiguity_limited e then [string_value "ambiguity_rhs_samples"] else []) in
  let complete := negb (ce_limited e) && negb (ce_ambiguity_limited e) && negb (ce_ambiguity_incomplete e) in
  ok_response
    (jobj [(lit "signal", JString (ts_root ts)); (lit "time", JString (ew_format_time w time (ts_unit ts)));
           (lit "termination", JString (ce_termination e)); (lit "termination_detail", JString (ce_detail e));
           (lit "scan_complete", JBool complete); (lit "analysis_complete", JBool complete); (lit "response_truncated", JBool false);
           (lit "total_count", JUint (zlen (ce_hops e))); (lit "returned_count", JUint (zlen (ce_hops e))); (lit "truncation_scopes", JArray truncation);
           (lit "value_width_complete", JBool true); (lit "width_diagnostics", JArray [])])
    (jobj data).

Definition unsigned_limit (k : string) (fallback : Z) (limits : json) : res Z := value_or (as_number trunc u32) (lit k) fallback limits.
Definition chain_setup (q : TraceQuery) (request : json) : res TraceSetup :=
  limits ← value_or Ret (lit "limits") (JObject []) request;
  max_depth ← unsigned_limit "max_depth" 8 limits;
  max_nodes ← unsigned_limit "max_nodes" 50 limits;
  max_signals ← unsigned_limit "max_trace_signals" 64 limits;
  compatibility ← uses_native_visible_root d (tq_signal q);
  duplicate_top ← uses_duplicate_hdl_top_projection d (tq_signal q);
  Ret (MkSetup (tq_signal q) compatibility duplicate_top (tq_unit q) (tq_format q) max_depth max_nodes max_signals).
Definition trace_active_driver_chain (request : json) : step json :=
  w ← get_state;
  query ← lift (parse_common w request);
  match query with
  | inl error => mret error
  | inr q =>
      ts ← lift (chain_setup q request);
      ended ← chain_loop (Z.to_nat (ts_max_depth ts)) ts [] [] None (tq_signal q) [] (tq_time q);
      w ← get_state;
      mret (match ended with inl error => error | inr e => chain_response w ts (tq_time q) e end)
  end.

(** ** trace.active_driver *)

Definition primary_input_response (w : W) (q : TraceQuery) (index : Z) (target : Sample) : res json :=
  file ← dp_signal_file d index;
  let file := default unknown_file file in
  line ← dp_signal_line d index;
  let line := Z.max 1 line in
  context ← source_context file line;
  let path := jobj [(lit "file", JString file); (lit "line", JInt line); (lit "source_context", context); (lit "signal_path", JArray [JString (tq_signal q)])] in
  Ret (ok_response
    (jobj [(lit "signal", JString (tq_signal q)); (lit "time", JString (ew_format_time w (tq_time q) (tq_unit q)));
           (lit "active_time", JString (ew_format_time w (sm_active_time target) (tq_unit q))); (lit "termination", string_value "primary_input");
           (lit "termination_detail", string_value "primary_input"); (lit "scan_complete", JBool true); (lit "analysis_complete", JBool true);
           (lit "response_truncated", JBool false); (lit "total_count", JInt 1); (lit "returned_count", JInt 1); (lit "truncation_scopes", JArray [])])
    (jobj [(lit "paths", JArray [path])])).

Definition statement_paths (signal : bytes) (compatibility flattened force : bool) (paths : list json) (g : StatementGroup) : res (list json) :=
  if force && negb (kind_is_of "force" g) then Ret paths
  else
    match representative_driver g with
    | None => Ret paths
    | Some f =>
        if (f_line f <=? 0) || is_nil (f_file f) then Ret paths
        else
          raw ← name (f_src f);
          path ← source_path f (public_signal_name raw signal compatibility) signal;
          if flattened then append_flattened_statement_context_paths (paths ++ [path]) g signal compatibility else Ret (paths ++ [path])
    end.

Abbreviation PathKey := (bytes * Z * bytes)%type.
Definition path_key (path : json) : res PathKey :=
  signal_path ← at_key (lit "signal_path") path;
  last ← match list.last (json_items signal_path) with Some item => as_string item | None => Ret [] end;
  file ← value_or as_string (lit "file") [] path;
  line ← value_or (as_number trunc i32) (lit "line") 0 path;
  Ret (file, line, last).
Definition add_hop_path (st : list PathKey * list json) (hop : json) : res (list PathKey * list json) :=
  let '(seen, paths) := st in
  hop_signal ← value_or as_string (lit "signal") [] hop;
  file ← value_or as_string (lit "file") [] hop;
  line ← value_or (as_number trunc i32) (lit "line") 0 hop;
  if bool_decide ((file, line, hop_signal) ∈ seen) then Ret st
  else
    shown ← value_or as_string (lit "file") unknown_file hop;
    shown_line ← value_or (as_number trunc i32) (lit "line") 1 hop;
    context ← value_or Ret (lit "source_context") (JArray []) hop;
    signal_path ← value_or Ret (lit "signal_path") (JArray [JString hop_signal]) hop;
    Ret ((file, line, hop_signal) :: seen,
         paths ++ [jobj [(lit "file", JString shown); (lit "line", JInt (Z.max 1 shown_line)); (lit "source_context", context); (lit "signal_path", signal_path)]]).
Definition add_chain_paths (paths : list json) (chain : json) : res (list json) :=
  seen ← map_res path_key paths;
  data ← value_or Ret (lit "data") (JObject []) chain;
  hops ← value_or Ret (lit "hops") (JArray []) data;
  '(_, paths) ← fold_res add_hop_path (json_items hops) (seen, paths);
  Ret paths.
(** Whether the chain met a limit, and which. *)
Definition analysis_limit (chain : json) : res (option bytes) :=
  summary ← value_or Ret (lit "summary") (JObject []) chain;
  complete ← value_or as_bool (lit "analysis_complete") true summary;
  if complete : bool then Ret None else detail ← value_or as_string (lit "termination_detail") (lit "limit") summary; Ret (Some detail).

Record ActiveResult := MkActive {
  ar_paths : list json; ar_evaluated : EvaluatedStatements; ar_initialization_only : bool; ar_has_drivers : bool; ar_force : bool; ar_limit : option bytes }.
Definition active_termination (r : ActiveResult) (shown : list json) : bytes * bytes :=
  match ar_limit r with
  | Some detail => (lit "limit", detail)
  | None =>
      if ar_force r then (lit "force", lit "force")
      else
        match es_unresolved (ar_evaluated r), shown with
        | _ :: _, _ => (lit "unresolved", lit "predicate_unresolved")
        | [], [] => if ar_initialization_only r || ar_has_drivers r then (lit "unresolved", lit "unresolved") else (lit "no_driver", lit "no_driver")
        | [], _ => (lit "assignment", lit "assignment")
        end
  end.
Definition active_response (w : W) (q : TraceQuery) (target : Sample) (max_results : Z) (r : ActiveResult) : json :=
  let total := zlen (ar_paths r) in
  let shown := take (Z.to_nat max_results) (ar_paths r) in
  let truncated := zlen shown <? total in
  let '(termination, detail) := active_termination r shown in
  let complete := negb (is_present (ar_limit r)) && (ar_force r || (length (es_unresolved (ar_evaluated r)) =? 0)%nat) in
  ok_response
    (jobj [(lit "signal", JString (tq_signal q)); (lit "time", JString (ew_format_time w (tq_time q) (tq_unit q)));
           (lit "active_time", JString (ew_format_time w (sm_active_time target) (tq_unit q))); (lit "termination", JString termination);
           (lit "termination_detail", JString detail); (lit "scan_complete", JBool complete); (lit "analysis_complete", JBool complete);
           (lit "response_truncated", JBool truncated); (lit "total_count", JUint total); (lit "returned_count", JUint (zlen shown));
           (lit "truncation_scopes", JArray (if is_present (ar_limit r) then [string_value "analysis_trace"]
                                             else if truncated then [string_value "response_paths"] else []))])
    (jobj [(lit "paths", JArray shown)]).

Definition active_statements (q : TraceQuery) (compatibility : bool) (index : Z) (target : Sample) : step (list Driver * bool * EvaluatedStatements * bool) :=
  facts ← lift (drivers_for d index);
  selected ← select_flattened_output_driver_facts d x index compatibility facts;
  let '(facts, driver_index) := default (facts, index) selected in
  let flattened := is_present selected in
  facts ← lift (annotate_output_instance_identities d x driver_index facts);
  es ← active_statement_groups d x facts (sm_active_time target) (if compatibility then sm_active_time target else 0);
  es ← lift (if compatibility then suppress_non_source_rhs getenv fs design_path waveform_path d es else Ret es);
  w ← get_state;
  let '(es, initialization_only) := if compatibility && flattened then suppress_initialization_only_event_evidence w es target else (es, false) in
  es ← suppress_unobserved_statement_only_force d es target;
  mret (facts, flattened, apply_unique_nba_priority es, initialization_only).
Definition trace_active_driver_facts (request limits : json) (q : TraceQuery) (compatibility : bool) (index : Z) (target : Sample) : step ActiveResult :=
  '(facts, flattened, es, initialization_only) ← active_statements q compatibility index target;
  let force := existsb (kind_is_of "force") (es_active es) in
  paths ← lift (fold_res (statement_paths (tq_signal q) compatibility flattened force) (es_active es) []);
  let through := existsb (kind_is_of "cont_assign") (es_active es) || flattened in
  let has_limit := jcontains (lit "max_nodes") limits || jcontains (lit "max_depth") limits || jcontains (lit "max_time_steps") limits in
  if through || has_limit then
    chain ← trace_active_driver_chain request;
    ok ← lift (value_or as_bool (lit "ok") false chain);
    paths ← lift (if through && ok then add_chain_paths paths chain else Ret paths);
    limit ← lift (if has_limit && ok then analysis_limit chain else Ret None);
    mret (MkActive paths es initialization_only (negb (length facts =? 0)%nat) force limit)
  else mret (MkActive paths es initialization_only (negb (length facts =? 0)%nat) force None).
Definition trace_active_driver (request : json) : step json :=
  w ← get_state;
  query ← lift (parse_common w request);
  match query with
  | inl error => mret error
  | inr q =>
      index ← lift (dp_resolve d (tq_signal q));
      if index <? 0 then mret (error_response (lit "SIGNAL_NOT_FOUND") (lit "signal not found in design: " ++ tq_signal q))
      else
        target ← sample_at (tq_signal q) (tq_time q);
        if negb (sm_ok target) then mret (error_response (lit "VALUE_NOT_AVAILABLE") (lit "signal value not available in FST"))
        else
          limits ← lift (value_or Ret (lit "limits") (JObject []) request);
          max_results ← lift (unsigned_limit "max_results" 10 limits);
          compatibility ← lift (uses_native_visible_root d (tq_signal q));
          external ← lift (if compatibility : bool then is_external_primary_input d index else Ret false);
          w ← get_state;
          if external : bool then lift (primary_input_response w q index target)
          else r ← trace_active_driver_facts request limits q compatibility index target; w ← get_state; mret (active_response w q target max_results r)
  end.
End Traces.

(** ** The chain *)

Section Chains.
Context {D W : Type} `{DesignBackend D} `{DesignPlaces D} `{EngineWave W} `{StdSort}.
Context (getenv : bytes -> option bytes) (fs : FileSystem) (design_path waveform_path : bytes) (d : D) (x : DesignQueryIndex).

Definition indexed (i : Z) (hop : json) : Prop := jget (lit "index") hop = Some (JUint i).
Definition numbered (hops : list json) : Prop := forall i hop, hops !! i = Some hop -> indexed (Z.of_nat i) hop.
Lemma numbered_snoc hops hop : numbered hops -> indexed (zlen hops) hop -> numbered (hops ++ [hop]).
Proof.
  intros Hn Hi i h [Hl|[Hge Hl]]%lookup_app_Some; [by apply Hn|]. apply list_lookup_singleton_Some in Hl as [Hz <-].
  assert (Z.of_nat i = zlen hops) as -> by (unfold zlen; lia). done.
Qed.
Lemma indexed_set_key k v i hop : k <> lit "index" -> indexed i hop -> indexed i (set_key k v hop).
Proof. unfold indexed. destruct hop; try done. intros Hk. unfold jget, set_key, Json.members. by rewrite mget_mset_ne. Qed.
Lemma trace_hop_indexed (w : W) i signal s relation driver index unit format hop :
  trace_hop getenv fs design_path waveform_path d w i signal s relation driver index unit format = Ret hop -> indexed i hop.
Proof. intros (file & _ & E)%res_bind_Ret. apply res_bind_Ret in E as (line & _ & E). apply res_bind_Ret in E as (context & _ & [= <-]). done. Qed.
Lemma hop_json_indexed (w : W) ts i index current s facts c hop :
  hop_json getenv fs design_path waveform_path d w ts i index current s facts c = Ret hop -> indexed i hop.
Proof.
  intros (h & Eh & [= <-])%res_bind_Ret. apply trace_hop_indexed in Eh. destruct (_ || _); repeat (apply indexed_set_key; [by vm_compute|]); done.
Qed.

(** Where a chain goes on, the hop had no ambiguity. *)
Lemma goes_on_unambiguous ts current_time index direction n current s facts hs c non_direct (w : W) upstream t w' :
  hop_outcome d ts current_time index direction n current s facts hs c non_direct w = (Ret (HopGoesOn upstream t), w') -> ch_ambiguity c = [].
Proof.
  unfold hop_outcome. destruct (_ || _); [done|]. destruct (ch_control_only c); [done|]. destruct (hs_statement_input hs); [done|].
  destruct (ch_ambiguity c); [done|]. cbn [is_nonempty is_nil negb]. intros ([evidence complete] & w1 & _ & E)%act_bind_inv. done.
Qed.
Lemma chain_hop_numbered ts depth current previous current_time hops context (w : W) hops' context' outcome w' :
  chain_hop getenv fs design_path waveform_path d x ts depth current previous current_time hops context w = (Ret (hops', context', outcome), w') ->
  zlen hops = depth -> numbered hops ->
  numbered hops' /\ zlen hops' <= depth + 1 /\ (forall upstream t, outcome = HopGoesOn upstream t -> zlen hops' = depth + 1).
Proof.
  intros E Hd Hn. assert (forall hop, indexed depth hop -> numbered (hops ++ [hop]) /\ zlen (hops ++ [hop]) <= depth + 1 /\ zlen (hops ++ [hop]) = depth + 1) as Hsnoc.
  { intros hop Hi. rewrite zlen_app. change (zlen [hop]) with 1. split_and!; try lia. apply numbered_snoc; [done|by rewrite Hd]. }
  unfold chain_hop in E. apply act_bind_inv in E as (selected & w1 & _ & E). cbv zeta in E.
  destruct (_ <? 0); [injection E as <- <- <- _; split_and!; [done|lia|done]|]. apply act_bind_inv in E as (s & w2 & _ & E).
  destruct (negb (sm_ok s)); [injection E as <- <- <- _; split_and!; [done|lia|done]|]. apply act_bind_inv in E as (external & w3 & _ & E). destruct external.
  { apply act_bind_inv in E as (w4 & w5 & _ & E). apply act_bind_inv in E as (hop & w6 & Eh & E). injection E as <- <- <- _.
    unfold lift in Eh. injection Eh as Eh _. apply trace_hop_indexed in Eh. destruct (Hsnoc hop Eh) as (? & ? & ?). by split_and!. }
  apply act_bind_inv in E as (facts & w4 & _ & E). apply act_bind_inv in E as (oc & w5 & _ & E). destruct oc as [| |hs].
  - apply act_bind_inv in E as (w6 & w7 & _ & E). apply act_bind_inv in E as (hop & w8 & Eh & E). injection E as <- <- <- _.
    unfold lift in Eh. injection Eh as Eh _. apply trace_hop_indexed in Eh. destruct (Hsnoc hop Eh) as (? & ? & ?). by split_and!.
  - injection E as <- <- <- _. split_and!; [done|lia|done].
  - apply act_bind_inv in E as (direction & w6 & _ & E). apply act_bind_inv in E as ([c non_direct] & w7 & _ & E). apply act_bind_inv in E as (s' & w8 & _ & E).
    apply act_bind_inv in E as (w9 & w10 & _ & E). apply act_bind_inv in E as (hops1 & w11 & Eh & E). apply act_bind_inv in E as (oc & w12 & Eo & E). injection E as <- <- <- _.
    destruct (eqs (ch_ambiguity c) _) eqn:Ea.
    + injection Eh as <- _. split_and!; [done|lia|]. intros upstream t ->. apply goes_on_unambiguous in Eo. rewrite Eo in Ea. by vm_compute in Ea.
    + apply act_bind_inv in Eh as (hop & w13 & Eh & [= <- _]). unfold lift in Eh. injection Eh as Eh _. apply hop_json_indexed in Eh.
      destruct (Hsnoc hop Eh) as (? & ? & ?). by split_and!.
Qed.

Lemma chain_loop_numbered left ts visited hops context current previous current_time (w : W) e w' :
  chain_loop getenv fs design_path waveform_path d x left ts visited hops context current previous current_time w = (Ret (inr e), w') ->
  zlen hops = ts_max_depth ts - Z.of_nat left -> numbered hops -> zlen hops < Z.max 1 (ts_max_nodes ts) ->
  numbered (ce_hops e) /\ zlen (ce_hops e) <= ts_max_depth ts + 1 /\ zlen (ce_hops e) <= Z.max 1 (ts_max_nodes ts).
Proof.
  revert visited hops context current previous current_time w. induction left as [|left IH]; intros visited hops context current previous current_time w E Hl Hn Hm; cbn [chain_loop] in E.
  all: destruct (smem _ visited); [injection E as <- _; cbn [ce_hops chain_ends]; split_and!; [done|lia|lia]|].
  all: apply act_bind_inv in E as ([[hops1 context1] outcome] & w1 & Eh & E); apply chain_hop_numbered in Eh as (Hn1 & Hb1 & Hg); [|done..].
  all: destruct outcome as [termination detail|detail evidence complete|upstream t| |error]; try (injection E as <- _; cbn [ce_hops chain_ends chain_limited]; split_and!; [done|lia|lia]); try done.
  all: specialize (Hg _ _ eq_refl); apply act_bind_inv in E as (frontier & w2 & _ & E); destruct (Z.leb_spec (ts_max_nodes ts) (zlen hops1)).
  all: try (injection E as <- _; cbn [ce_hops chain_limited]; split_and!; [done|lia|lia]).
  apply IH in E; [done|lia|done|lia].
Qed.
End Chains.

(** C32: a chain of active drivers is bounded by its limits: whatever the
    design and the waveform, feedback included, it has at most [max_depth + 1]
    hops and at most [max_nodes] (one when that is zero), and its hops are
    numbered from zero in the order they were followed. *)
Theorem active_chain_bounded {D W} `{DesignBackend D} `{DesignPlaces D} `{EngineWave W} `{StdSort} getenv fs design_path waveform_path (d : D) x ts current_time (w : W) e w' :
  0 <= ts_max_depth ts ->
  chain_loop getenv fs design_path waveform_path d x (Z.to_nat (ts_max_depth ts)) ts [] [] None (ts_root ts) [] current_time w = (Ret (inr e), w') ->
  zlen (ce_hops e) <= ts_max_depth ts + 1 /\ zlen (ce_hops e) <= Z.max 1 (ts_max_nodes ts) /\
  forall i hop, ce_hops e !! i = Some hop -> jget (lit "index") hop = Some (JUint (Z.of_nat i)).
Proof. intros Hd E. apply chain_loop_numbered in E as (Hn & H1' & H2'); [done|unfold zlen; cbn; lia|done|unfold zlen; cbn; lia]. Qed.

(** [top.y] follows [top.b], which follows [top.a]. *)
Definition no_files : FileSystem := MkFs (fun _ => false) (fun _ => false) (lit "/") (fun _ => None).
Definition no_env (_ : bytes) : option bytes := None.
Definition empty_index : DesignQueryIndex := MkDQI ∅ ∅ ∅ ∅ 0 0.
Definition chain_design : TableDesign :=
  [MkTableSignal (lit "top.y") 0 1 [assigned 1 "rhs"]; MkTableSignal (lit "top.b") 0 1 [assigned 2 "rhs"]; MkTableSignal (lit "top.a") 0 1 []].
Definition chain_wave : Table := MkTable [bits_row (lit "top.y") (lit "01"); bits_row (lit "top.b") (lit "01"); bits_row (lit "top.a") (lit "01")] 2 0.
Definition chain_example_setup : TraceSetup := MkSetup (lit "top.y") false false UnitNs Hex 8 50 64.
Definition chain_example : res (json + ChainEnd) * Table :=
  chain_loop (H1 := table_wave) (H2 := stable_std_sort) no_env no_files [] [] chain_design empty_index (Z.to_nat (ts_max_depth chain_example_setup))
    chain_example_setup [] [] None (ts_root chain_example_setup) [] 25 chain_wave.
Lemma active_chain_bounded_witness : exists e, fst chain_example = Ret (inr e) /\ length (ce_hops e) = 3%nat /\
  forall i hop, ce_hops e !! i = Some hop -> jget (lit "index") hop = Some (JUint (Z.of_nat i)).
Proof.
  assert (match fst chain_example with Ret (inr e) => length (ce_hops e) =? 3 | _ => false end = true)%nat as Hr by (vm_compute; reflexivity).
  destruct chain_example as [r w'] eqn:E. cbn [fst] in *. destruct r as [[err|e]| |]; try discriminate Hr. exists e. split; [done|]. split; [by apply Nat.eqb_eq|].
  apply (active_chain_bounded (H1 := table_wave) (H2 := stable_std_sort) no_env no_files [] [] chain_design empty_index chain_example_setup 25 chain_wave e w' ltac:(cbn; lia) E).
Defined.
