(* ===== verification/XOrigin.v ===== *)
(** * XOrigin: trace.x_origin

    Models [TraceXOriginHandler] of
    [src/engine/actions/combined/combined_actions.cpp]: the search for the
    signals an unknown value comes from, the chains it reports, their
    coalescing and numbering, and the response. *)

From S2P Require Import Prelude Sorting CLib Json LogicValue Waveform ExprParser ExprEval ClockSampling WellenBackend BinaryDesign DesignIndex Engine TableWave Xout SourceContext WaveState ScopeList DesignActions DriverFacts ActiveStatements ActiveTrace.

Open Scope Z_scope.

(** ** States *)

Record XState := MkXState {
  xs_signal : bytes; xs_chain_id : bytes; xs_relation : bytes; xs_visited : list bytes; xs_hops : list json;
  xs_pending : list json; xs_branches : list json; xs_depth : Z; xs_time : Z; xs_complete : bool; xs_incoming : option Driver }.
Record XSource := MkXSource { xo_signal : bytes; xo_relation : bytes; xo_onset : Z; xo_driver : Driver }.
Record XSearch := MkXSearch {
  xr_chains : list json; xr_limitations : list json; xr_times : list Z; xr_explored : list bytes; xr_serial : Z;
  xr_node_limit : bool; xr_time_limit : bool }.
Record XLimits := MkXLimits { xl_depth : Z; xl_chains : Z; xl_nodes : Z; xl_time_steps : Z; xl_signals : Z }.

Definition with_hops (hops : list json) (s : XState) : XState :=
  MkXState (xs_signal s) (xs_chain_id s) (xs_relation s) (xs_visited s) hops (xs_pending s) (xs_branches s) (xs_depth s) (xs_time s) (xs_complete s) (xs_incoming s).
Definition with_pending (pending : list json) (s : XState) : XState :=
  MkXState (xs_signal s) (xs_chain_id s) (xs_relation s) (xs_visited s) (xs_hops s) (xs_pending s ++ pending) (xs_branches s) (xs_depth s) (xs_time s) false (xs_incoming s).
(** The state at a source; the signal is not yet visited. *)
Definition at_source (source : XSource) (s : XState) : XState :=
  MkXState (xo_signal source) (xs_chain_id s) (xo_relation source) (xs_visited s) (xs_hops s) (xs_pending s) (xs_branches s)
    (xs_depth s + 1) (xo_onset source) (xs_complete s) (Some (xo_driver source)).
Definition first_child (source : XSource) (s : XState) : XState :=
  let c := at_source source s in
  MkXState (xs_signal c) (xs_chain_id c) (xs_relation c) (visit_key (xs_signal c) (xs_time c) :: xs_visited c) (xs_hops c) (xs_pending c) (xs_branches c)
    (xs_depth c) (xs_time c) (xs_complete c) (xs_incoming c).
Definition chain_name (serial : Z) : bytes := lit "c" ++ udec serial.
Definition other_child (serial : Z) (source : XSource) (s : XState) : XState :=
  let c := first_child source s in
  MkXState (xs_signal c) (chain_name serial) (xs_relation c) (xs_visited c) (map (set_key (lit "chain_id") (JString (chain_name serial))) (xs_hops c)) [] []
    (xs_depth c) (xs_time c) true (xs_incoming c).
(** The children in order and the next serial. *)
Definition children_of (s : XState) (sources : list XSource) (serial : Z) : list XState * Z :=
  match sources with
  | [] => ([], serial)
  | first :: rest => (first_child first s :: imap (fun i source => other_child (serial + Z.of_nat i) source s) rest, u64 (serial + zlen rest))
  end.

Definition add_chain (chain : json) (r : XSearch) : XSearch :=
  MkXSearch (xr_chains r ++ [chain]) (xr_limitations r) (xr_times r) (xr_explored r) (xr_serial r) (xr_node_limit r) (xr_time_limit r).
Definition add_limitation (text : bytes) (r : XSearch) : XSearch :=
  MkXSearch (xr_chains r) (xr_limitations r ++ [JString text]) (xr_times r) (xr_explored r) (xr_serial r) (xr_node_limit r) (xr_time_limit r).
Definition explored (key : bytes) (r : XSearch) : XSearch :=
  MkXSearch (xr_chains r) (xr_limitations r) (xr_times r) (key :: xr_explored r) (xr_serial r) (xr_node_limit r) (xr_time_limit r).
Definition at_time (t : Z) (r : XSearch) : XSearch :=
  MkXSearch (xr_chains r) (xr_limitations r) (t :: xr_times r) (xr_explored r) (xr_serial r) (xr_node_limit r) (xr_time_limit r).
Definition with_serial (serial : Z) (r : XSearch) : XSearch :=
  MkXSearch (xr_chains r) (xr_limitations r) (xr_times r) (xr_explored r) serial (xr_node_limit r) (xr_time_limit r).
Definition limited_by (nodes : bool) (r : XSearch) : XSearch :=
  MkXSearch (xr_chains r) (xr_limitations r) (xr_times r) (xr_explored r) (xr_serial r) (xr_node_limit r || nodes) (xr_time_limit r || negb nodes).

(** The data and control dependencies, one of each signal and role. *)
Definition x_dependency (f : Driver) : bool := (role_is "rhs" f || role_is "control" f) && has_source f.
Definition add_dependency (l : list Driver) (f : Driver) : list Driver :=
  if existsb (fun g => (f_src g =? f_src f) && eqs (f_role g) (f_role f)) l then l else l ++ [f].
Definition x_dependencies (active : list Driver) : list Driver := foldl add_dependency [] (List.filter x_dependency active).
Definition port_fact (other : Z) (kind_ : bytes) : Driver := MkFact other kind_ (lit "port") [] [] 0 [] None (-1) None.

Section Search.
Context {D W : Type} `{DesignBackend D} `{DesignPlaces D} `{EngineWave W} `{StdSort}.
Context (trunc : bytes -> Z) (d : D) (x : DesignQueryIndex) (unit : TimeRenderUnit) (format : ValueRenderFormat) (xl : XLimits).
Abbreviation step := (act W).
Abbreviation name := (signal_name d).

(** ** Evidence *)

Definition x_hop (w : W) (s : XState) (sample : Sample) (onset index : Z) : res json :=
  file ← hop_file d (xs_incoming s) index [];
  line ← hop_line d (xs_incoming s) index 0;
  Ret (jobj [(lit "index", JUint (zlen (xs_hops s))); (lit "chain_id", JString (xs_chain_id s)); (lit "signal", JString (xs_signal s));
             (lit "x_onset_time", JString (ew_format_time w onset unit)); (lit "active_time", JString (ew_format_time w (sm_active_time sample) unit));
             (lit "value", logic_json sample format); (lit "x_mask", JString (x_mask (sm_bits sample))); (lit "relation", JString (xs_relation s));
             (lit "file", JString file); (lit "line", JInt (Z.max 0 line)); (lit "signal_path", JArray [JString (xs_signal s)])]).
Definition current_json (w : W) (signal : bytes) (sample : Sample) (onset : Z) : json :=
  jobj [(lit "signal", JString signal); (lit "x_onset_time", JString (ew_format_time w onset unit));
        (lit "value", logic_json sample format); (lit "x_mask", JString (x_mask (sm_bits sample)))].
Definition chain_json (w : W) (s : XState) (sample : Sample) (onset : Z) (status detail : string) (complete : bool) : json :=
  let chain := jobj [(lit "chain_id", JString (xs_chain_id s)); (lit "status", string_value status); (lit "termination_detail", string_value detail);
                     (lit "complete", JBool complete); (lit "current", current_json w (xs_signal s) sample onset); (lit "hops", JArray (xs_hops s))] in
  let chain := match xs_pending s with [] => chain | pending => set_key (lit "pending_x_dependencies") (JArray pending) chain end in
  match xs_branches s with [] => chain | branches => set_key (lit "branch_events") (JArray branches) chain end.
Definition origin_json (w : W) (signal : bytes) (onset : Z) (kind_ reason status : string) (file : bytes) (line : Z) : json :=
  jobj [(lit "signal", JString signal); (lit "x_onset_time", JString (ew_format_time w onset unit)); (lit "kind", string_value kind_);
        (lit "reason", string_value reason); (lit "evidence_status", string_value status); (lit "file", JString file); (lit "line", JInt (Z.max 0 line))].
(** [finish_chain] with its origin. *)
Definition origin_chain (w : W) (s : XState) (sample : Sample) (onset : Z) (detail : string) : res json :=
  index ← dp_resolve d (xs_signal s);
  file ← (if 0 <=? index then dp_signal_file d index else Ret None);
  line ← (if 0 <=? index then dp_signal_line d index else Ret 0);
  Ret (set_key (lit "origin") (origin_json w (xs_signal s) onset "assignment" detail "best_effort" (default [] file) line)
         (chain_json w s sample onset "origin_found" detail (xs_complete s))).

(** ** Sources *)

(** The unknown value at the other end, and where it was unknown first. *)
Definition x_upstream (candidate : bytes) (time : Z) : step (option Z) :=
  upstream ← sample_at candidate time;
  w ← get_state;
  mret (if sm_ok upstream && has_x (sm_bits upstream) then Some (x_onset_time w upstream) else None).
Definition add_source (s : XState) (sources : list XSource * list XSource) (source : XSource) : list XSource * list XSource :=
  if smem (visit_key (xo_signal source) (xo_onset source)) (xs_visited s) then (fst sources, snd sources ++ [source]) else (fst sources ++ [source], snd sources).
Definition dependency_source (s : XState) (sources : list XSource * list XSource) (f : Driver) : step (list XSource * list XSource) :=
  candidate ← lift (name (f_src f));
  if is_nil candidate then mret sources
  else
    onset ← x_upstream candidate (xs_time s);
    mret (match onset with Some onset => add_source s sources (MkXSource candidate (f_role f) onset f) | None => sources end).
(** The signal of the hop before the last. *)
Definition parent_signal (hops : list json) : res (option bytes) :=
  match rev hops with _ :: hop :: _ => signal ← value_or as_string (lit "signal") [] hop; Ret (Some signal) | _ => Ret None end.
Definition port_source (s : XState) (index : Z) (sources : list XSource * list XSource) (port : PortConnection) : step (list XSource * list XSource) :=
  let other := other_end port index in
  candidate ← lift (name other);
  if is_nil candidate then mret sources
  else
    onset ← x_upstream candidate (xs_time s);
    match onset with
    | None => mret sources
    | Some onset =>
        parent ← lift (parent_signal (xs_hops s));
        mret (if bool_decide (parent = Some candidate) then sources
              else add_source s sources (MkXSource candidate (lit "port") onset (port_fact other (pc_kind port))))
    end.
Definition x_sources (s : XState) (index : Z) (dependencies : list Driver) : step (list XSource * list XSource) :=
  match dependencies with
  | [] => ports ← lift (db_port_connections d index); fold_act (port_source s index) ports ([], [])
  | _ => fold_act (dependency_source s) dependencies ([], [])
  end.

Definition pending_json (f : Driver) : res json :=
  signal ← name (f_src f);
  Ret (jobj [(lit "signal", JString signal); (lit "relation", JString (f_role f)); (lit "reason", string_value "max_trace_signals")]).
(** At most [max_trace_signals] dependencies; the rest is pending. *)
Definition limit_dependencies (s : XState) (dependencies : list Driver) (r : XSearch) : res (XState * list Driver * XSearch) :=
  if xl_signals xl <? zlen dependencies then
    pending ← map_res pending_json (drop (Z.to_nat (xl_signals xl)) dependencies);
    Ret (with_pending pending s, take (Z.to_nat (xl_signals xl)) dependencies,
         add_limitation (lit "dependency enumeration truncated by limits.max_trace_signals at " ++ xs_signal s) r)
  else Ret (s, dependencies, r).

Definition loop_chain (s : XState) (r : XSearch) (source : XSource) : step XSearch :=
  upstream ← sample_at (xo_signal source) (xs_time s);
  w ← get_state;
  mret (add_chain (set_key (lit "_semantic_tail_relation") (JString (xo_relation source))
                     (chain_json w (at_source source s) upstream (xo_onset source) "loop_detected" "loop_detected" (xs_complete s))) r).

(** ** One state *)

Definition force_chain (w : W) (s : XState) (sample : Sample) (onset : Z) (driver : option Driver) : json :=
  let s := match driver with
           | Some f => with_hops (alter (fun hop => set_key (lit "line") (JInt (Z.max 0 (f_line f))) (set_key (lit "file") (JString (f_file f)) hop))
                                    (length (xs_hops s) - 1)%nat (xs_hops s)) s
           | None => s
           end in
  set_key (lit "origin")
    (origin_json w (xs_signal s) onset "force" "force_x" "proven" (match driver with Some f => f_file f | None => [] end)
       (match driver with Some f => f_line f | None => 0 end))
    (chain_json w s sample onset "origin_found" "force_x" (xs_complete s)).

(** The sources of the state, after its own hop; the children and the search. *)
Definition follow_sources (s : XState) (sample : Sample) (onset index : Z) (active : list Driver) (r : XSearch) : step (list XState * XSearch) :=
  '(s, dependencies, r) ← lift (limit_dependencies s (x_dependencies active) r);
  '(sources, loops) ← x_sources s index dependencies;
  r ← fold_act (loop_chain s) loops r;
  match sources, loops with
  | [], [] => w ← get_state; chain ← lift (origin_chain w s sample onset "candidate_x_source"); mret ([], add_chain chain r)
  | _, _ => let '(children, serial) := children_of s sources (xr_serial r) in mret (children, with_serial serial r)
  end.
Definition expand_state (s : XState) (sample : Sample) (onset index : Z) (r : XSearch) : step (list XState * XSearch) :=
  w ← get_state;
  hop ← lift (x_hop w s sample onset index);
  let s := with_hops (xs_hops s ++ [hop]) s in
  facts ← lift (drivers_for d index);
  facts ← lift (annotate_output_instance_identities d x index facts);
  facts ← expand_expression_temporaries d x facts;
  es ← active_statement_groups d x facts (sm_active_time sample) 0;
  es ← suppress_unobserved_statement_only_force d es sample;
  let es := apply_unique_nba_priority es in
  w ← get_state;
  match List.find (kind_is_of "force") (es_active es) with
  | Some g => mret ([], add_chain (force_chain w s sample onset (representative_driver g)) r)
  | None =>
      if existsb (fun g => negb (g_predicate_unknown g)) (es_unresolved es) then
        mret ([], add_chain (chain_json w s sample onset "unresolved" "predicate_unresolved" false)
                    (add_limitation (lit "activation predicate unresolved at " ++ xs_signal s) r))
      else
        let active := flat_map g_records (es_active es) ++ flat_map g_records (es_unresolved es) in
        if negb (length facts =? 0)%nat && (length active =? 0)%nat then
          mret ([], add_chain (chain_json w s sample onset "unresolved" "no_active_statement" false)
                      (add_limitation (lit "no active statement matched waveform controls at " ++ xs_signal s) r))
        else follow_sources s sample onset index active r
  end.

(** What happens to a state taken from the stack. *)
Inductive Visit := Skipped (r : XSearch) | Expands (sample : Sample) (onset index : Z) (r : XSearch).
Definition limit_chain (w : W) (s : XState) (sample : Sample) (onset : Z) (detail : string) (r : XSearch) : XSearch :=
  add_chain (chain_json w s sample onset "limit" detail false) r.
Definition visit_state (nodes_left : bool) (s : XState) (r : XSearch) : step Visit :=
  index ← lift (dp_resolve d (xs_signal s));
  sample ← sample_at (xs_signal s) (xs_time s);
  w ← get_state;
  if (index <? 0) || negb (sm_ok sample) then mret (Skipped r)
  else
    let onset := x_onset_time w sample in
    if xl_depth xl <? xs_depth s then mret (Skipped (limit_chain w s sample onset "max_depth" r))
    else
      key ← lift (x_origin_semantic_state_key (JArray (xs_hops s)) (xs_relation s) (xs_signal s) onset);
      if smem key (xr_explored r) then mret (Skipped r)
      else
        let r := explored key r in
        if xr_node_limit r then mret (Skipped (limit_chain w s sample onset "max_nodes" r))
        else if xr_time_limit r then mret (Skipped (limit_chain w s sample onset "max_time_steps" r))
        else if negb nodes_left then
          mret (Skipped (limit_chain w s sample onset "max_nodes" (add_limitation (lit "trace truncated by limits.max_nodes") (limited_by true r))))
        else
          let known_time := zmem (xs_time s) (xr_times r) in
          let r := if known_time then r else at_time (xs_time s) r in
          if negb known_time && (xl_time_steps xl <? zlen (xr_times r)) then
            mret (Skipped (limit_chain w s sample onset "max_time_steps" (add_limitation (lit "trace truncated by limits.max_time_steps") (limited_by false r))))
          else mret (Expands sample onset index r).
(** The stack of states; [left] nodes may still be expanded, so the search ends. *)
Fixpoint explore (left : nat) : list XState -> XSearch -> step XSearch :=
  fix go pending r :=
    match pending with
    | [] => mret r
    | s :: rest =>
        visit ← visit_state (match left with O => false | S _ => true end) s r;
        match visit, left with
        | Expands sample onset index r, S left' =>
            '(children, r) ← expand_state s sample onset index r;
            explore left' (children ++ rest) r
        | Skipped r, _ | Expands _ _ _ r, O => go rest r
        end
    end.

(** ** Chains *)

Definition chain_complete (fallback : bool) (chain : json) : res bool := value_or as_bool (lit "complete") fallback chain.
(** Chains of one key: the first complete one, else the first. *)
Fixpoint coalesce_into (key : bytes) (chain : json) (chains : list (bytes * json)) : res (list (bytes * json)) :=
  match chains with
  | [] => Ret [(key, chain)]
  | (key', chain') :: chains' =>
      if eqs key key' then
        old ← chain_complete false chain';
        new ← (if old : bool then Ret false else chain_complete false chain);
        Ret ((key', if new : bool then chain else chain') :: chains')
      else rest ← coalesce_into key chain chains'; Ret ((key', chain') :: rest)
  end.
Definition coalesce_chain (chains : list (bytes * json)) (chain : json) : res (list (bytes * json)) :=
  key ← x_origin_semantic_chain_key chain; coalesce_into key chain chains.
Definition coalesce_chains (chains : list json) : res (list json) :=
  keyed ← fold_res coalesce_chain chains []; Ret (map snd keyed).

Definition omitted_json (chain : json) : res json :=
  let current := jat (lit "current") chain in
  let hops := jat (lit "hops") chain in
  relation ← match list.last (json_items hops) with Some hop => value_or as_string (lit "relation") (lit "rhs") hop | None => Ret (lit "rhs") end;
  Ret (jobj [(lit "signal", jat (lit "signal") current); (lit "relation", JString relation); (lit "x_onset_time", jat (lit "x_onset_time") current)]).
Definition retain (chain : json) (omitted : list json) (total : Z) : res json :=
  pending ← value_or Ret (lit "pending_x_dependencies") (JArray []) chain;
  events ← value_or Ret (lit "branch_events") (JArray []) chain;
  let event := jobj [(lit "hop_index", JInt 0); (lit "reason", string_value "max_chains"); (lit "x_dependency_count", JUint total);
                     (lit "returned_x_dependency_count", JUint (xl_chains xl)); (lit "omitted_x_dependency_count", JUint (total - xl_chains xl));
                     (lit "pending_x_dependencies", JArray omitted)] in
  Ret (set_key (lit "complete") (JBool false)
         (set_key (lit "branch_events") (JArray (json_items events ++ [event]))
            (set_key (lit "pending_x_dependencies") (JArray (json_items pending ++ omitted)) chain))).
(** At most [max_chains]; the first one tells what is left out. *)
Definition limit_chains (chains limitations : list json) : res (list json * list json) :=
  match chains with
  | first :: rest =>
      if xl_chains xl <? zlen chains then
        omitted ← map_res omitted_json (drop (Z.to_nat (xl_chains xl)) chains);
        retained ← retain first omitted (zlen chains);
        Ret (take (Z.to_nat (xl_chains xl)) (retained :: rest), limitations ++ [string_value "X semantic branches truncated by limits.max_chains"])
      else Ret (chains, limitations)
  | [] => Ret ([], limitations)
  end.
Definition erase_key (k : bytes) (j : json) : json := match j with JObject m => JObject (mdel k m) | _ => j end.

(** ** The response *)

Record XTotals := MkTotals { xt_completed : Z; xt_limited : Z; xt_unresolved : Z; xt_loops : Z; xt_hops : Z; xt_origins : Z }.
Definition count_if (b : bool) : Z := if b then 1 else 0.
Definition number_chain (index : Z) (chain : json) : json :=
  let id := JString (chain_name index) in
  set_key (lit "hops") (JArray (map (set_key (lit "chain_id") id) (json_items (jat (lit "hops") chain)))) (set_key (lit "chain_id") id chain).
Definition continuation (limits : json) (signal time value_format chain_id : json) (max_depth : Z) (reason : string) : json :=
  let limits := set_key (lit "max_chains") (JUint (xl_chains xl)) (set_key (lit "max_depth") (JUint max_depth) limits) in
  jobj ([(lit "action", string_value "trace.x_origin"); (lit "reason", string_value reason)] ++
        (match chain_id with JNull => [] | _ => [(lit "chain_id", chain_id)] end) ++
        [(lit "args", jobj [(lit "signal", signal); (lit "time", time); (lit "value_format", value_format)]); (lit "limits", limits)]).
Definition frontier_json (chain : json) : json :=
  let current := jat (lit "current") chain in
  jobj [(lit "signal", jat (lit "signal") current); (lit "continue_time", jat (lit "x_onset_time") current); (lit "value", jat (lit "value") current);
        (lit "x_mask", jat (lit "x_mask") current); (lit "chain_id", jat (lit "chain_id") chain); (lit "stopped_after_depth", JUint (xl_depth xl))].
Definition at_max_depth (chain : json) : res bool :=
  status ← value_or as_string (lit "status") [] chain;
  detail ← value_or as_string (lit "termination_detail") [] chain;
  Ret (eqs status (lit "limit") && eqs detail (lit "max_depth")).
Definition total_chain (t : XTotals) (chain : json) : res XTotals :=
  status ← value_or as_string (lit "status") [] chain;
  complete ← chain_complete true chain;
  let limited := eqs status (lit "limit") || negb complete in
  Ret (MkTotals (xt_completed t + count_if (negb limited)) (xt_limited t + count_if limited) (xt_unresolved t + count_if (eqs status (lit "unresolved")))
         (xt_loops t + count_if (eqs status (lit "loop_detected"))) (xt_hops t + Z.of_nat (jsize (jat (lit "hops") chain)))
         (xt_origins t + count_if (jcontains (lit "origin") chain))).
Definition x_termination (t : XTotals) : string :=
  if negb (xt_unresolved t =? 0) then (if xt_completed t =? 0 then "pending" else "partial")
  else if negb (xt_limited t =? 0) then (if xt_completed t =? 0 then "limit" else "partial")
  else if negb (xt_origins t =? 0) then "origin_found"
  else if negb (xt_loops t =? 0) then "loop_detected" else "x_not_observable_upstream".
Definition x_response (w : W) (q : TraceQuery) (limits query value_format : json) (chains limitations : list json) : res json :=
  '(chains, limitations) ← limit_chains chains limitations;
  let chains := imap (fun i chain => number_chain (Z.of_nat i) (erase_key (lit "_semantic_tail_relation") chain)) chains in
  t ← fold_res total_chain chains (MkTotals 0 0 0 0 0 0);
  deep ← filter_res at_max_depth chains;
  let query_time := JString (ew_format_time w (tq_time q) unit) in
  let continued chain := let current := jat (lit "current") chain in
    continuation limits (jat (lit "signal") current) (jat (lit "x_onset_time") current) value_format (jat (lit "chain_id") chain) (xl_depth xl) "continue_from_depth_frontier" in
  let deeper := match deep with
                | [] => []
                | _ => [(lit "depth_frontiers", JArray (map frontier_json deep));
                        (lit "suggested_next_actions", JArray (map continued deep ++
                           [continuation limits (JString (tq_signal q)) query_time value_format JNull (u64 (xl_depth xl * 2)) "rerun_from_root_with_higher_depth"]))]
                end in
  let complete := xt_limited t =? 0 in
  Ret (ok_response
    (jobj [(lit "signal", JString (tq_signal q)); (lit "query_time", query_time); (lit "termination", string_value (x_termination t));
           (lit "evidence_status", string_value (if xt_origins t =? 0 then "unresolved" else "best_effort")); (lit "chain_count", JUint (zlen chains));
           (lit "completed_chain_count", JUint (xt_completed t)); (lit "limited_chain_count", JUint (xt_limited t)); (lit "hop_count", JUint (xt_hops t));
           (lit "origin_count", JUint (xt_origins t)); (lit "scan_complete", JBool complete); (lit "analysis_complete", JBool complete);
           (lit "response_truncated", JBool false); (lit "total_count", JUint (zlen chains)); (lit "returned_count", JUint (zlen chains));
           (lit "truncation_scopes", JArray (if complete then [] else [string_value "analysis_trace"]))])
    (jobj ([(lit "query", query); (lit "chains", JArray chains); (lit "limitations", JArray limitations)] ++ deeper))).
End Search.

(** ** trace.x_origin *)

Section Handler.
Context {D W : Type} `{DesignBackend D} `{DesignPlaces D} `{EngineWave W} `{StdSort} (trunc : bytes -> Z) (d : D) (x : DesignQueryIndex).

Definition not_x_response (q : TraceQuery) (query query_time : json) : json :=
  ok_response
    (jobj [(lit "signal", JString (tq_signal q)); (lit "query_time", query_time); (lit "termination", string_value "not_x_at_query_time");
           (lit "evidence_status", string_value "proven"); (lit "chain_count", JInt 0); (lit "completed_chain_count", JInt 0); (lit "limited_chain_count", JInt 0);
           (lit "hop_count", JInt 0); (lit "origin_count", JInt 0); (lit "scan_complete", JBool true); (lit "analysis_complete", JBool true);
           (lit "response_truncated", JBool false); (lit "total_count", JInt 0); (lit "returned_count", JInt 0); (lit "truncation_scopes", JArray [])])
    (jobj [(lit "query", query); (lit "chains", JArray []); (lit "limitations", JArray [])]).
Definition x_limits (limits : json) : res XLimits :=
  max_depth ← unsigned_limit trunc "max_depth" 8 limits;
  max_chains ← unsigned_limit trunc "max_chains" 8 limits;
  max_nodes ← unsigned_limit trunc "max_nodes" 50 limits;
  max_time_steps ← unsigned_limit trunc "max_time_steps" 128 limits;
  max_trace_signals ← unsigned_limit trunc "max_trace_signals" 64 limits;
  Ret (MkXLimits max_depth max_chains max_nodes max_time_steps max_trace_signals).
Definition initial_state (root : bytes) (onset : Z) : XState :=
  MkXState root (lit "c0") (lit "root") [visit_key root onset] [] [] [] 0 onset true None.
Definition trace_x_origin (request : json) : act W json :=
  w ← get_state;
  parsed ← lift (parse_common w request);
  match parsed with
  | inl error => mret error
  | inr q =>
      root_index ← lift (dp_resolve d (tq_signal q));
      if root_index <? 0 then mret (error_response (lit "SIGNAL_NOT_FOUND") (lit "signal not found in design: " ++ tq_signal q))
      else
        sample ← sample_at (tq_signal q) (tq_time q);
        w ← get_state;
        if negb (sm_ok sample) then mret (error_response (lit "VALUE_NOT_AVAILABLE") (lit "signal value not available in FST"))
        else
          let query_time := JString (ew_format_time w (tq_time q) (tq_unit q)) in
          let query := jobj [(lit "signal", JString (tq_signal q)); (lit "query_time", query_time); (lit "value", logic_json sample (tq_format q));
                             (lit "x_mask", JString (x_mask (sm_bits sample)))] in
          if negb (has_x (sm_bits sample)) then mret (not_x_response q query query_time)
          else
            limits ← lift (value_or Ret (lit "limits") (JObject []) request);
            xl ← lift (x_limits limits);
            r ← explore d x (tq_unit q) (tq_format q) xl (Z.to_nat (xl_nodes xl)) [initial_state (tq_signal q) (x_onset_time w sample)]
                  (MkXSearch [] [] [] [] 1 false false);
            chains ← lift (coalesce_chains (xr_chains r));
            args ← lift (at_key (lit "args") request);
            value_format ← lift (value_or as_string (lit "value_format") (lit "hex") args);
            w ← get_state;
            lift (x_response (tq_unit q) xl w q limits query (JString value_format) chains (xr_limitations r))
  end.
End Handler.

(** ** Paths of the search *)

Section Paths.
Context {D W : Type} `{DesignBackend D} `{DesignPlaces D} `{EngineWave W} `{StdSort}.
Context (d : D) (x : DesignQueryIndex) (unit : TimeRenderUnit) (format : ValueRenderFormat) (xl : XLimits).

(** A state has one hop for each step from the root, and never entered a signal and onset twice. *)
Record path_ok (s : XState) : Prop := {
  po_visited : NoDup (xs_visited s);
  po_here : head (xs_visited s) = Some (visit_key (xs_signal s) (xs_time s));
  po_length : zlen (xs_visited s) = xs_depth s + 1;
  po_hops : zlen (xs_hops s) = xs_depth s;
  po_depth : 0 <= xs_depth s <= xl_depth xl + 1;
}.
Definition fresh (s : XState) (source : XSource) : Prop := smem (visit_key (xo_signal source) (xo_onset source)) (xs_visited s) = false.
Definition fresh_sources (s : XState) (sources : list XSource * list XSource) : Prop := Forall (fresh s) (fst sources).

Lemma add_source_fresh s sources source : fresh_sources s sources -> fresh_sources s (add_source s sources source).
Proof.
  unfold fresh_sources, add_source. destruct (smem _ _) eqn:E; cbn [fst]; [done|]. intros Hf. apply list.Forall_app. split; [done|]. by constructor.
Qed.
Lemma fold_act_invariant {St A B} (P : B -> Prop) (f : B -> A -> act St B) l : (forall b a s b' s', P b -> f b a s = (Ret b', s') -> P b') ->
  forall b s b' s', P b -> fold_act f l b s = (Ret b', s') -> P b'.
Proof.
  intros Hf. induction l as [|a l IH]; intros b s b' s' Hb; cbn [fold_act]; [by intros [= <- <-]|].
  intros (b1 & s1 & E1 & E2)%act_bind_inv. eapply IH; [|exact E2]. by eapply Hf.
Qed.
Lemma dependency_source_fresh s sources f (w : W) sources' w' : fresh_sources s sources -> dependency_source d s sources f w = (Ret sources', w') -> fresh_sources s sources'.
Proof.
  intros Hs E. unfold dependency_source in E. apply act_bind_inv in E as (n & w1 & _ & E). destruct (is_nil n); [by injection E as <- _|].
  apply act_bind_inv in E as ([onset|] & w2 & _ & [= <- _]); [by apply add_source_fresh|done].
Qed.
Lemma port_source_fresh s index sources port (w : W) sources' w' : fresh_sources s sources -> port_source d s index sources port w = (Ret sources', w') -> fresh_sources s sources'.
Proof.
  intros Hs E. unfold port_source in E. apply act_bind_inv in E as (n & w1 & _ & E). destruct (is_nil n); [by injection E as <- _|].
  apply act_bind_inv in E as ([onset|] & w2 & _ & E); [|by injection E as <- _]. apply act_bind_inv in E as (parent & w3 & _ & [= <- _]).
  case_bool_decide; [done|]. by apply add_source_fresh.
Qed.
Lemma x_sources_fresh s index dependencies (w : W) sources w' : x_sources d s index dependencies w = (Ret sources, w') -> fresh_sources s sources.
Proof.
  assert (fresh_sources s ([], [])) as H0' by constructor. unfold x_sources. destruct dependencies.
  - intros (ports & w1 & _ & E)%act_bind_inv. eapply fold_act_invariant; [|exact H0'|exact E]. intros. by eapply port_source_fresh.
  - apply fold_act_invariant; [|done]. intros. by eapply dependency_source_fresh.
Qed.

Lemma first_child_ok s source : NoDup (xs_visited s) -> zlen (xs_visited s) = xs_depth s + 1 -> zlen (xs_hops s) = xs_depth s + 1 -> 0 <= xs_depth s <= xl_depth xl ->
  fresh s source -> path_ok (first_child source s).
Proof.
  intros Hnd Hl Hh Hd Hf. split; cbn [first_child at_source xs_visited xs_signal xs_time xs_depth xs_hops head]; rewrite ?zlen_cons; try lia; try done.
  apply list.NoDup_cons. split; [|done]. intros Hin. apply not_true_iff_false in Hf. apply Hf, existsb_exists.
  eexists. split; [by apply list_elem_of_In|apply eqs_refl].
Qed.
Lemma other_child_ok serial s source : path_ok (first_child source s) -> path_ok (other_child serial source s).
Proof. intros [H1' H2' H3' H4' H5']. split; cbn [other_child xs_visited xs_signal xs_time xs_depth xs_hops] in *; try done. by rewrite <- H4'; unfold zlen; rewrite length_map. Qed.
Lemma children_ok s sources serial : NoDup (xs_visited s) -> zlen (xs_visited s) = xs_depth s + 1 -> zlen (xs_hops s) = xs_depth s + 1 -> 0 <= xs_depth s <= xl_depth xl ->
  Forall (fresh s) sources -> Forall path_ok (fst (children_of s sources serial)).
Proof.
  intros Hnd Hl Hh Hd Hf. assert (forall source, fresh s source -> path_ok (first_child source s)) as Hc by (intros; by apply first_child_ok).
  destruct Hf as [|first rest Hfirst Hrest]; cbn [children_of fst]; [constructor|]. constructor; [by apply Hc|]. apply list.Forall_forall. intros c Hin.
  apply elem_of_lookup_imap in Hin as (i & source & -> & Hi). apply other_child_ok, Hc. eapply list.Forall_forall in Hrest; [exact Hrest|]. by eapply list_elem_of_lookup_2.
Qed.

(** A chain that respects the depth limit. *)
Definition chain_ok (chain : json) : Prop := exists hops, jget (lit "hops") chain = Some (JArray hops) /\ zlen hops <= xl_depth xl + 1.
Definition search_ok (r : XSearch) : Prop := Forall chain_ok (xr_chains r).
Lemma chain_ok_set_key k v chain : k <> lit "hops" -> chain_ok chain -> chain_ok (set_key k v chain).
Proof. intros Hk (hops & Hg & Hl). exists hops. split; [|done]. destruct chain; try done. unfold jget, set_key, Json.members in *. by rewrite mget_mset_ne. Qed.
Lemma chain_json_ok (w : W) s sample onset status detail complete : zlen (xs_hops s) <= xl_depth xl + 1 -> chain_ok (chain_json unit format w s sample onset status detail complete).
Proof.
  intros Hl. unfold chain_json. set (chain := jobj _). assert (chain_ok chain) as Hc by (exists (xs_hops s); split; [reflexivity|done]). clearbody chain.
  destruct (xs_pending s), (xs_branches s); repeat (apply chain_ok_set_key; [by vm_compute|]); done.
Qed.
Lemma add_chain_ok chain r : chain_ok chain -> search_ok r -> search_ok (add_chain chain r).
Proof. intros Hc Hr. apply list.Forall_app. split; [done|by constructor]. Qed.

Lemma visit_state_ok left s r (w : W) v w' : path_ok s -> search_ok r -> visit_state d unit format xl left s r w = (Ret v, w') ->
  match v with Skipped r' => search_ok r' | Expands _ _ _ r' => search_ok r' /\ xs_depth s <= xl_depth xl end.
Proof.
  intros Hs Hr E. assert (forall (w : W) sample onset detail r, search_ok r -> search_ok (limit_chain unit format w s sample onset detail r)) as Hlim.
  { intros. apply add_chain_ok; [|done]. apply chain_json_ok. destruct Hs. lia. }
  unfold visit_state in E. apply act_bind_inv in E as (index & w1 & _ & E). apply act_bind_inv in E as (sample & w2 & _ & E). apply act_bind_inv in E as (w3 & w4 & _ & E).
  destruct (_ || _); [by injection E as <- _|]. cbv zeta in E. destruct (Z.ltb_spec (xl_depth xl) (xs_depth s)); [injection E as <- _; by apply Hlim|].
  apply act_bind_inv in E as (key & w5 & _ & E). destruct (smem key _); [by injection E as <- _|].
  destruct (xr_node_limit _); [injection E as <- _; by apply Hlim|]. destruct (xr_time_limit _); [injection E as <- _; by apply Hlim|].
  destruct left; cbn [negb] in E; [|injection E as <- _; by apply Hlim].
  destruct (zmem _ _); cbn [negb andb] in E; [injection E as <- _; by split|]. destruct (_ <? _); injection E as <- _; [by apply Hlim|by split].
Qed.
Lemma visit_state_depth left s r (w : W) sample onset index r1 w1 : visit_state d unit format xl left s r w = (Ret (Expands sample onset index r1), w1) -> xs_depth s <= xl_depth xl.
Proof.
  intros E. unfold visit_state in E. apply act_bind_inv in E as (i & w2 & _ & E). apply act_bind_inv in E as (sm & w3 & _ & E). apply act_bind_inv in E as (w4 & w5 & _ & E).
  destruct (_ || _); [done|]. cbv zeta in E. by destruct (Z.ltb_spec (xl_depth xl) (xs_depth s)).
Qed.
Lemma loop_chain_ok s r source (w : W) r' w' : zlen (xs_hops s) <= xl_depth xl + 1 -> search_ok r -> loop_chain unit format s r source w = (Ret r', w') -> search_ok r'.
Proof.
  intros Hl Hr E. unfold loop_chain in E. apply act_bind_inv in E as (up & w1 & _ & E). apply act_bind_inv in E as (w2 & w3 & _ & [= <- _]).
  apply add_chain_ok; [|done]. apply chain_ok_set_key; [by vm_compute|]. by apply chain_json_ok.
Qed.
Lemma expand_state_ok s sample onset index r (w : W) children r' w' : path_ok s -> xs_depth s <= xl_depth xl ->
  expand_state d x unit format xl s sample onset index r w = (Ret (children, r'), w') -> Forall path_ok children /\ (search_ok r -> search_ok r').
Proof.
  intros [Hnd _ Hl Hh Hd] Hdepth E. unfold expand_state in E. apply act_bind_inv in E as (w1 & w2 & _ & E). apply act_bind_inv in E as (hop & w3 & _ & E). cbv zeta in E.
  set (s1 := with_hops (xs_hops s ++ [hop]) s) in E. assert (zlen (xs_hops s1) = xs_depth s + 1) as Hh1 by (cbn; rewrite zlen_app; unfold zlen in *; cbn [length]; lia).
  assert (forall s2 (w : W) status detail complete, zlen (xs_hops s2) = xs_depth s + 1 -> chain_ok (chain_json unit format w s2 sample onset status detail complete)) as Hc
    by (intros; apply chain_json_ok; lia).
  apply act_bind_inv in E as (f1 & w4 & _ & E). apply act_bind_inv in E as (f2 & w5 & _ & E). apply act_bind_inv in E as (f3 & w6 & _ & E).
  apply act_bind_inv in E as (es1 & w7 & _ & E). apply act_bind_inv in E as (es2 & w8 & _ & E). apply act_bind_inv in E as (w9 & w10 & _ & E).
  destruct (List.find _ _) as [g|].
  { injection E as <- <- _. split; [constructor|]. intros Hr. apply add_chain_ok; [|done]. unfold force_chain. apply chain_ok_set_key; [by vm_compute|]. apply Hc.
    destruct (representative_driver g); [|done]. cbn [with_hops xs_hops]. unfold zlen in *. by rewrite length_alter. }
  destruct (existsb _ _). { injection E as <- <- _. split; [constructor|]. intros Hr. apply add_chain_ok; [by apply Hc|done]. }
  destruct (_ && _). { injection E as <- <- _. split; [constructor|]. intros Hr. apply add_chain_ok; [by apply Hc|done]. }
  unfold follow_sources in E. apply act_bind_inv in E as ([[s2 deps] r2] & w11 & Elim & E).
  assert (xs_visited s2 = xs_visited s /\ xs_depth s2 = xs_depth s /\ zlen (xs_hops s2) = xs_depth s + 1 /\ (search_ok r -> search_ok r2)) as (Ev & Ed & Eh & Hr2).
  { unfold lift in Elim. injection Elim as Elim _. unfold limit_dependencies in Elim. destruct (_ <? _); [|injection Elim as <- _ <-; by split_and!].
    apply res_bind_Ret in Elim as (pending & _ & [= <- _ <-]). by split_and!. }
  apply act_bind_inv in E as ([sources loops] & w12 & Es & E). apply x_sources_fresh in Es. unfold fresh_sources in Es. cbn [fst] in Es.
  apply act_bind_inv in E as (r3 & w13 & El & E).
  assert (search_ok r -> search_ok r3) as Hr3. { intros Hr. eapply fold_act_invariant; [|exact (Hr2 Hr)|exact El]. intros. eapply loop_chain_ok; [|done..]. lia. }
  assert (Forall path_ok (fst (children_of s2 sources (xr_serial r3)))) as Hch by (apply children_ok; rewrite ?Ev, ?Ed; done || lia).
  destruct sources as [|source sources].
  - destruct loops; [|injection E as <- <- _; by split].
    apply act_bind_inv in E as (w14 & w15 & _ & E). apply act_bind_inv in E as (chain & w16 & Eo & [= <- <- _]). split; [constructor|]. intros Hr. apply add_chain_ok; [|by apply Hr3].
    unfold lift in Eo. injection Eo as Eo _. unfold origin_chain in Eo. apply res_bind_Ret in Eo as (i & _ & Eo). apply res_bind_Ret in Eo as (file & _ & Eo).
    apply res_bind_Ret in Eo as (line & _ & [= <-]). apply chain_ok_set_key; [by vm_compute|]. apply chain_json_ok. lia.
  - destruct (children_of s2 (source :: sources) (xr_serial r3)) as [children1 serial]. injection E as <- <- _. by split.
Qed.

Lemma explore_ok left : forall pending r (w : W) r' w', Forall path_ok pending -> search_ok r -> explore d x unit format xl left pending r w = (Ret r', w') -> search_ok r'.
Proof.
  induction left as [|left IH]; intros pending; induction pending as [|s rest IHp]; intros r w r' w' Hp Hr; cbn [explore]; try by intros [= <- <-].
  all: intros (v & w1 & Ev & E)%act_bind_inv; inversion_clear Hp as [|? ? Hs Hrest]; apply visit_state_ok in Ev; [|done..]; destruct v as [r1|sample onset index r1].
  - by eapply IHp.
  - eapply IHp; [done| |exact E]. by destruct Ev.
  - by eapply IHp.
  - apply act_bind_inv in E as ([children r2] & w2 & Ee & E). destruct Ev as [Hr1 Hd]. apply expand_state_ok in Ee as [Hc Hr2]; [|done..].
    eapply IH; [|exact (Hr2 Hr1)|exact E]. by apply list.Forall_app.
Qed.

(** The states the search may put on its stack. *)
Inductive x_reaches : XState -> Prop :=
| reach_root root onset : 0 <= xl_depth xl -> x_reaches (initial_state root onset)
| reach_child left s r (w : W) sample onset index r1 w1 children r2 w2 c : x_reaches s ->
    visit_state d unit format xl left s r w = (Ret (Expands sample onset index r1), w1) ->
    expand_state d x unit format xl s sample onset index r1 w1 = (Ret (children, r2), w2) -> c ∈ children -> x_reaches c.
Lemma initial_ok root onset : 0 <= xl_depth xl -> path_ok (initial_state root onset).
Proof. intros Hd. split; cbn; try done; try lia. apply NoDup_singleton. Qed.
End Paths.

(** C33: the search for an unknown value follows simple paths: on every state it
    reaches the pairs of signal and onset entered are pairwise distinct, the
    last one is the state's own, there is one hop for each step from the root,
    and the depth limit is exceeded by at most one, the state that reports it. *)
Theorem x_paths_simple {D W} `{DesignBackend D} `{DesignPlaces D} `{EngineWave W} `{StdSort} (d : D) x unit format xl s :
  x_reaches (W := W) d x unit format xl s ->
  NoDup (xs_visited s) /\ head (xs_visited s) = Some (visit_key (xs_signal s) (xs_time s)) /\ zlen (xs_visited s) = xs_depth s + 1 /\
  zlen (xs_hops s) = xs_depth s /\ 0 <= xs_depth s <= xl_depth xl + 1.
Proof.
  intros Hr. enough (path_ok xl s) as [H1' H2' H3' H4' H5'] by done.
  induction Hr as [root onset Hd|left s r w sample onset index r1 w1 children r2 w2 c _ IH Hv He Hc]; [by apply initial_ok|].
  apply visit_state_depth in Hv. apply expand_state_ok in He as [Hall _]; [|done..]. by eapply list.Forall_forall in Hall.
Qed.

(** Every chain a search reports respects the depth limit: it has at most
    [max_depth + 1] hops, whatever the design, the waveform and the number of
    nodes the search may expand. *)
Theorem x_chains_bounded {D W} `{DesignBackend D} `{DesignPlaces D} `{EngineWave W} `{StdSort} (d : D) x unit format xl nodes root onset (w : W) r w' :
  0 <= xl_depth xl -> explore d x unit format xl nodes [initial_state root onset] (MkXSearch [] [] [] [] 1 false false) w = (Ret r, w') ->
  Forall (fun chain => exists hops, jget (lit "hops") chain = Some (JArray hops) /\ zlen hops <= xl_depth xl + 1) (xr_chains r).
Proof.
  intros Hd E. eapply explore_ok; [| |exact E]; [|by constructor]. constructor; [by apply initial_ok|constructor].
Qed.

(** ** Coalescing *)

(** A chain with its key and whether it is complete. *)
Record Keyed := MkKeyed { kc_key : bytes; kc_complete : bool; kc_chain : json }.
Definition keyed_chain (chain : json) : res Keyed :=
  key ← x_origin_semantic_chain_key chain; complete ← chain_complete false chain; Ret (MkKeyed key complete chain).
Definition has_key (key : bytes) (k : Keyed) : bool := eqs (kc_key k) key.
(** The first complete chain of a key, else its first chain. *)
Definition representative (key : bytes) (l : list Keyed) : json :=
  match List.find (fun k => has_key key k && kc_complete k) l with
  | Some k => kc_chain k
  | None => match List.find (has_key key) l with Some k => kc_chain k | None => JNull end
  end.
Definition distinct_keys (l : list Keyed) : list bytes := foldl insert_once [] (map kc_key l).
Definition coalesced (l : list Keyed) : list (bytes * json) := map (fun key => (key, representative key l)) (distinct_keys l).

Lemma find_snoc {A} (p : A -> bool) l a : List.find p (l ++ [a]) = match List.find p l with Some b => Some b | None => if p a then Some a else None end.
Proof. induction l as [|b l IH]; cbn [app List.find]; [done|]. by destruct (p b). Qed.
Lemma distinct_keys_snoc l k : distinct_keys (l ++ [k]) = insert_once (distinct_keys l) (kc_key k).
Proof. unfold distinct_keys. by rewrite List.map_app, foldl_app. Qed.
Lemma distinct_keys_spec l : NoDup (distinct_keys l) /\ forall key, key ∈ distinct_keys l <-> exists k, k ∈ l /\ kc_key k = key.
Proof.
  induction l as [|k l [IHn IHe]] using rev_ind; [split; [constructor|]; intros key; rewrite elem_of_nil; split; [done|]; by intros (k & ?%elem_of_nil & _)|].
  rewrite distinct_keys_snoc. split; [by apply insert_once_nodup|]. intros key. rewrite insert_once_elem, IHe. split.
  - intros [(k' & Hk & <-)| ->]; [exists k'|exists k]; rewrite elem_of_app, list_elem_of_singleton; auto.
  - intros (k' & [Hk| ->%list_elem_of_singleton]%elem_of_app & <-); [left; by exists k'|by right].
Qed.
(** What a chain of a known key does to its representative. *)
Lemma representative_snoc key l k : representative key (l ++ [k]) =
  if has_key key k then
    match List.find (has_key key) l with
    | None => kc_chain k
    | Some _ => match List.find (fun k => has_key key k && kc_complete k) l with Some k' => kc_chain k' | None => if kc_complete k then kc_chain k else representative key l end
    end
  else representative key l.
Proof.
  unfold representative. rewrite !find_snoc. destruct (has_key key k) eqn:Ek; cbn [andb].
  - assert (List.find (has_key key) l = None -> List.find (fun k => has_key key k && kc_complete k) l = None) as Hn.
    { clear. induction l as [|a l IH]; cbn [List.find]; [done|]. by destruct (has_key key a). }
    destruct (List.find (has_key key) l) as [k1|] eqn:E1.
    + destruct (List.find (fun k => has_key key k && kc_complete k) l) as [k2|]; [done|]. by destruct (kc_complete k); rewrite ?E1.
    + rewrite Hn by done. by destruct (kc_complete k).
  - destruct (List.find (fun k => has_key key k && kc_complete k) l); [done|]. by destruct (List.find (has_key key) l).
Qed.
Lemma representative_complete key l : Forall (fun k => chain_complete false (kc_chain k) = Ret (kc_complete k)) l -> List.find (has_key key) l <> None ->
  chain_complete false (representative key l) = Ret (match List.find (fun k => has_key key k && kc_complete k) l with Some _ => true | None => false end).
Proof.
  intros Hall Hne. unfold representative. destruct (List.find (fun k => has_key key k && kc_complete k) l) as [k|] eqn:E.
  - apply find_some in E as [Hin [_ Hc]%andb_prop]. apply list_elem_of_In in Hin. eapply list.Forall_forall in Hall; [|exact Hin]. by rewrite Hall, Hc.
  - destruct (List.find (has_key key) l) as [k|] eqn:E1; [|done]. apply find_some in E1 as [Hin Hk]. pose proof (find_none _ _ E _ Hin) as Hc. cbn in Hc. rewrite Hk in Hc. cbn [andb] in Hc.
    apply list_elem_of_In in Hin. eapply list.Forall_forall in Hall; [|exact Hin]. by rewrite Hall, Hc.
Qed.

Lemma coalesce_into_absent key chain (f : bytes -> json) keys : key ∉ keys -> coalesce_into key chain (map (fun k => (k, f k)) keys) = Ret (map (fun k => (k, f k)) keys ++ [(key, chain)]).
Proof.
  induction keys as [|k keys IH]; cbn [map coalesce_into app]; [done|]. intros [Hne Hni]%not_elem_of_cons. assert (eqs key k = false) as -> by (by apply eqs_false).
  by rewrite IH.
Qed.
Lemma coalesce_into_present key chain (f : bytes -> json) keys (old new : bool) : NoDup keys -> key ∈ keys -> chain_complete false (f key) = Ret old -> chain_complete false chain = Ret new ->
  coalesce_into key chain (map (fun k => (k, f k)) keys) = Ret (map (fun k => (k, if eqs key k then if negb old && new then chain else f k else f k)) keys).
Proof.
  intros Hnd Hin Ho Hn. induction Hnd as [|k keys Hk Hnd IH]; [by apply elem_of_nil in Hin|]. cbn [map coalesce_into]. destruct (eqs key k) eqn:E.
  - apply eqs_true in E as ->. rewrite Ho. cbn [mbind res_bind]. assert (map (fun k0 => (k0, if eqs k k0 then if negb old && new then chain else f k0 else f k0)) keys = map (fun k0 => (k0, f k0)) keys) as ->.
    { apply map_ext_in. intros k0 Hk0. apply list_elem_of_In in Hk0. assert (eqs k k0 = false) as -> by (apply eqs_false; by intros ->). done. }
    destruct old; cbn [negb andb mbind res_bind]; [done|]. by rewrite Hn.
  - apply elem_of_cons in Hin as [->|Hin]; [by rewrite eqs_refl in E|]. by rewrite (IH Hin).
Qed.
Lemma coalesce_step l k : Forall (fun k => keyed_chain (kc_chain k) = Ret k) (l ++ [k]) -> coalesce_chain (coalesced l) (kc_chain k) = Ret (coalesced (l ++ [k])).
Proof.
  intros Hall. assert (Forall (fun k => chain_complete false (kc_chain k) = Ret (kc_complete k)) (l ++ [k])) as Hc.
  { eapply list.Forall_impl; [exact Hall|]. intros k' E. apply res_bind_Ret in E as (key & _ & E). apply res_bind_Ret in E as (c & Ec & E). rewrite Ec. f_equal. exact (f_equal kc_complete (Ret_inj _ _ E)). }
  apply list.Forall_app in Hall as [_ Hk]. rewrite list.Forall_singleton in Hk. apply list.Forall_app in Hc as [Hcl Hck]. rewrite list.Forall_singleton in Hck.
  apply res_bind_Ret in Hk as (key & Ekey & Hk). apply res_bind_Ret in Hk as (c & _ & Hk). assert (kc_key k = key) as <- by (symmetry; exact (f_equal kc_key (Ret_inj _ _ Hk))). clear Hk c.
  unfold coalesce_chain. rewrite Ekey. cbn [mbind res_bind]. destruct (distinct_keys_spec l) as [Hnd Hkeys]. unfold coalesced. rewrite distinct_keys_snoc. unfold insert_once.
  destruct (existsb (eqs (kc_key k)) (distinct_keys l)) eqn:E.
  - apply existsb_exists in E as (key & Hin & Ekey0%eqs_true). apply list_elem_of_In in Hin. rewrite Ekey0.
    assert (List.find (has_key key) l <> None) as Hf.
    { apply Hkeys in Hin as (k' & Hk' & <-). intros Hn. apply list_elem_of_In in Hk'. pose proof (find_none _ _ Hn _ Hk') as Hb. unfold has_key in Hb. by rewrite eqs_refl in Hb. }
    rewrite (coalesce_into_present _ _ (fun key => representative key l) _ _ _ Hnd Hin (representative_complete _ _ Hcl Hf) Hck). f_equal. apply map_ext_in. intros key' Hin'. f_equal.
    rewrite representative_snoc. change (has_key key' k) with (eqs (kc_key k) key'). rewrite Ekey0. destruct (eqs key key') eqn:Ek.
    + apply eqs_true in Ek as <-. destruct (List.find (has_key key) l) as [k1|] eqn:E1; [|done].
      destruct (List.find (fun k0 => has_key key k0 && kc_complete k0) l) as [k2|] eqn:E2; cbn [negb andb]; [|by destruct (kc_complete k)].
      unfold representative. by rewrite E2.
    + done.
  - assert (kc_key k ∉ distinct_keys l) as Hni.
    { intros Hin. apply not_true_iff_false in E. apply E, existsb_exists. eexists. split; [by apply list_elem_of_In|apply eqs_refl]. }
    rewrite (coalesce_into_absent _ _ (fun key => representative key l)) by done. rewrite List.map_app. cbn [map]. f_equal. f_equal.
    + apply map_ext_in. intros key Hin. f_equal. rewrite representative_snoc. unfold has_key at 1. apply list_elem_of_In in Hin.
      assert (eqs (kc_key k) key = false) as -> by (apply eqs_false; by intros <-). done.
    + rewrite representative_snoc. unfold has_key at 1. rewrite eqs_refl. destruct (List.find (has_key (kc_key k)) l) as [k'|] eqn:E1; [|done].
      apply find_some in E1 as [Hin Hk']. destruct Hni. apply Hkeys. exists k'. split; [by apply list_elem_of_In|by apply eqs_true].
Qed.

(** Physical variants of a chain are merged and nothing else: for chains
    whose keys and flags can be read, the result has one chain for each
    distinct key, in the order the keys first appear, and it is the first
    complete chain of the key, or its first chain when none is complete. So a
    complete chain is never hidden behind an incomplete alias of it. *)
Theorem coalesce_exact chains keyed : map_res keyed_chain chains = Ret keyed ->
  coalesce_chains chains = Ret (map (fun key => representative key keyed) (distinct_keys keyed)).
Proof.
  intros E. unfold coalesce_chains. assert (chains = map kc_chain keyed /\ Forall (fun k => keyed_chain (kc_chain k) = Ret k) keyed) as [-> Hall].
  { revert keyed E. induction chains as [|c chains IH]; intros keyed; cbn [map_res]; [by intros [= <-]|]. intros E. apply res_bind_Ret in E as (k & Ek & E).
    apply res_bind_Ret in E as (ks & Eks & [= <-]). destruct (IH ks Eks) as [-> Hall].
    assert (kc_chain k = c) as Hc by (unfold keyed_chain in Ek; apply res_bind_Ret in Ek as (? & _ & Ek); by apply res_bind_Ret in Ek as (? & _ & [= <-])).
    split; [by rewrite <- Hc|]. constructor; [by rewrite Hc|done]. }
  clear E. assert (forall l1 l2, Forall (fun k => keyed_chain (kc_chain k) = Ret k) (l1 ++ l2) -> fold_res coalesce_chain (map kc_chain l2) (coalesced l1) = Ret (coalesced (l1 ++ l2))) as Hf.
  { intros l1 l2. revert l1. unfold fold_res. induction l2 as [|k l2 IH]; intros l1 Hl; [by rewrite app_nil_r|]. cbn [map foldl].
    replace (l1 ++ k :: l2) with ((l1 ++ [k]) ++ l2) in * by (by rewrite <- app_assoc).
    pose proof (proj1 (proj1 (list.Forall_app _ _ _) Hl)) as Hk. cbn [mbind res_bind]. rewrite (coalesce_step _ _ Hk). by apply IH. }
  pose proof (Hf [] keyed Hall) as E. change (coalesced []) with (@nil (bytes * json)) in E. rewrite E. cbn [app mbind res_bind]. unfold coalesced. by rewrite List.map_map.
Qed.

(** Two aliases of one chain, the complete one second, and another chain. *)
Definition example_chain (relation signal : string) (complete : bool) : json :=
  jobj [(lit "status", string_value "origin_found"); (lit "complete", JBool complete); (lit "hops", JArray [example_hop relation signal "1"]);
        (lit "current", jobj [(lit "signal", string_value signal); (lit "x_onset_time", string_value "1")])].
Lemma coalesce_exact_witness :
  coalesce_chains [example_chain "port" "a" false; example_chain "rhs" "b" true; example_chain "port+port" "a" true] =
  Ret [example_chain "port+port" "a" true; example_chain "rhs" "b" true].
Proof.
  destruct (map_res keyed_chain [example_chain "port" "a" false; example_chain "rhs" "b" true; example_chain "port+port" "a" true]) as [keyed| |] eqn:E;
    [|exfalso; vm_compute in E; discriminate E..].
  rewrite (coalesce_exact _ keyed E). vm_compute in E. injection E as <-. vm_compute. reflexivity.
Defined.

(** [top.y] is unknown because [top.a] is; [top.b] reads it back. *)
Definition x_design : TableDesign :=
  [MkTableSignal (lit "top.y") 0 1 [assigned 1 "rhs"; assigned 2 "rhs"]; MkTableSignal (lit "top.b") 0 1 [assigned 0 "rhs"]; MkTableSignal (lit "top.a") 0 1 []].
Definition x_wave : Table := MkTable [bits_row (lit "top.y") (lit "0x"); bits_row (lit "top.b") (lit "0x"); bits_row (lit "top.a") (lit "0x")] 2 0.
Definition x_example_limits : XLimits := MkXLimits 4 8 50 128 64.
Definition x_example : res XSearch * Table :=
  explore (H1 := table_wave) (H2 := stable_std_sort) x_design empty_index UnitNs Hex x_example_limits 50 [initial_state (lit "top.y") 20] (MkXSearch [] [] [] [] 1 false false) x_wave.
Lemma x_chains_bounded_witness : exists r, fst x_example = Ret r /\ length (xr_chains r) = 2%nat /\
  Forall (fun chain => exists hops, jget (lit "hops") chain = Some (JArray hops) /\ zlen hops <= 5) (xr_chains r).
Proof.
  assert (match fst x_example with Ret r => length (xr_chains r) =? 2 | _ => false end = true)%nat as Hr by (vm_compute; reflexivity).
  destruct x_example as [r w'] eqn:E. cbn [fst] in *. destruct r as [r| |]; try discriminate Hr. exists r. split; [done|]. split; [by apply Nat.eqb_eq|].
  apply (x_chains_bounded (H1 := table_wave) (H2 := stable_std_sort) x_design empty_index UnitNs Hex x_example_limits 50 (lit "top.y") 20 x_wave r w' ltac:(cbn; lia) E).
Defined.
Lemma x_paths_simple_witness : exists c, x_reaches (W := Table) (H1 := table_wave) (H2 := stable_std_sort) x_design empty_index UnitNs Hex x_example_limits c /\
  xs_signal c = lit "top.b" /\ NoDup (xs_visited c) /\ zlen (xs_hops c) = xs_depth c.
Proof.
  set (s := initial_state (lit "top.y") 20). set (r := MkXSearch [] [] [] [] 1 false false).
  destruct (visit_state (H1 := table_wave) x_design UnitNs Hex x_example_limits true s r x_wave) as [v w1] eqn:Ev.
  pose proof Ev as Ev'. vm_compute in Ev'. injection Ev' as <- <-.
  match type of Ev with _ = (Ret (Expands ?sample ?onset ?index ?r1), ?w) =>
    destruct (expand_state (H1 := table_wave) (H2 := stable_std_sort) x_design empty_index UnitNs Hex x_example_limits s sample onset index r1 w) as [e w2] eqn:Ee end.
  pose proof Ee as Ee'. vm_compute in Ee'. injection Ee' as <- <-.
  match type of Ee with _ = (Ret (?c :: _, _), _) => exists c;
    assert (x_reaches (W := Table) (H1 := table_wave) (H2 := stable_std_sort) x_design empty_index UnitNs Hex x_example_limits c) as Hc end.
  { eapply reach_child; [apply (reach_root _ _ _ _ _ (lit "top.y") 20); cbn; lia|exact Ev|exact Ee|left]. }
  destruct (x_paths_simple (H1 := table_wave) (H2 := stable_std_sort) _ _ _ _ _ _ Hc) as (Hnd & _ & _ & Hh & _).
  split; [exact Hc|]. split; [reflexivity|]. split; [exact Hnd|exact Hh].
Defined.

(** ** Omitted chains *)

Section Omitted.
Context {W : Type} `{EngineWave W} (unit : TimeRenderUnit) (xl : XLimits).

Definition incomplete (chain : json) : Prop := exists m, chain = JObject m /\ mget (lit "complete") m = Some (JBool false).
Lemma retain_incomplete chain omitted total out : retain xl chain omitted total = Ret out -> incomplete out.
Proof.
  intros E. unfold retain in E. destruct chain as [| | | | | | |m]; try done. apply res_bind_Ret in E as (pending & _ & E). apply res_bind_Ret in E as (events & _ & [= <-]).
  cbn [set_key]. eexists. split; [done|]. apply mget_mset_eq.
Qed.
Lemma number_incomplete i chain : incomplete chain -> incomplete (number_chain i (erase_key (lit "_semantic_tail_relation") chain)).
Proof.
  intros (m & -> & Hm). unfold number_chain. cbn [erase_key set_key]. eexists. split; [done|]. rewrite !mget_mset_ne by (by vm_compute). by rewrite mget_mdel_ne by (by vm_compute).
Qed.
Lemma total_chain_grows t chain t' : total_chain t chain = Ret t' -> xt_limited t <= xt_limited t'.
Proof.
  intros E. apply res_bind_Ret in E as (status & _ & E). apply res_bind_Ret in E as (complete & _ & [= <-]). cbn [xt_limited]. unfold count_if. destruct (_ || _); lia.
Qed.
Lemma fold_res_step {A B} (f : B -> A -> res B) a l b out : fold_res f (a :: l) b = Ret out -> exists b', f b a = Ret b' /\ fold_res f l b' = Ret out.
Proof.
  unfold fold_res. cbn [foldl]. cbn [mbind res_bind]. intros E. destruct (f b a) as [b'| |e]; [by exists b'|exfalso..]; induction l as [|a' l IH]; try done; by apply IH.
Qed.
Lemma totals_grow chains : forall t t', fold_res total_chain chains t = Ret t' -> xt_limited t <= xt_limited t'.
Proof.
  induction chains as [|c chains IH]; intros t t'; [by intros [= <-]|]. intros (t1 & E1 & E2)%fold_res_step. apply total_chain_grows in E1. apply IH in E2. lia.
Qed.
End Omitted.

(** An answer that leaves chains out says so: when there are more chains
    than [max_chains], which the request schema keeps at one or more, the
    response counts [max_chains] chains and is marked incomplete, and it never
    ends in [origin_found] or [loop_detected]. *)
Theorem omitted_chains_reported {W} `{EngineWave W} unit xl (w : W) q limits query value_format chains limitations response :
  1 <= xl_chains xl < zlen chains -> x_response unit xl w q limits query value_format chains limitations = Ret response ->
  exists summary data, response = ok_response summary data /\ jget (lit "analysis_complete") summary = Some (JBool false) /\
    jget (lit "chain_count") summary = Some (JUint (xl_chains xl)) /\
    exists termination, jget (lit "termination") summary = Some (string_value termination) /\ In termination ["pending"; "partial"; "limit"]%string.
Proof.
  intros Hn E. unfold x_response in E. apply res_bind_Ret in E as ([shown lim] & El & E). unfold limit_chains in El. destruct chains as [|first rest]; [unfold zlen in Hn; cbn in Hn; lia|].
  destruct (Z.ltb_spec (xl_chains xl) (zlen (first :: rest))); [|lia]. apply res_bind_Ret in El as (omitted & _ & El). apply res_bind_Ret in El as (retained & Er & [= <- _]).
  apply retain_incomplete in Er. destruct (Z.to_nat (xl_chains xl)) as [|n] eqn:En; [lia|]. cbn [take imap] in E. apply res_bind_Ret in E as (t & Et & E). apply res_bind_Ret in E as (deep & _ & [= <-]).
  apply fold_res_step in Et as (t1 & E1 & E2). apply totals_grow in E2.
  assert (1 <= xt_limited t1) as H1'.
  { apply (number_incomplete (Z.of_nat 0)) in Er as (m & Em & Hm). rewrite Em in E1. unfold total_chain, chain_complete, value_or in E1. rewrite Hm in E1.
    apply res_bind_Ret in E1 as (status & _ & [= <-]). cbn [xt_limited negb]. rewrite orb_true_r. cbn. lia. }
  eexists _, _. split; [reflexivity|]. assert (xt_limited t =? 0 = false) as -> by (apply Z.eqb_neq; lia). split; [reflexivity|]. split.
  - change (jget (lit "chain_count") (jobj ?l)) with (jget (lit "chain_count") (jobj l)). unfold jobj, jget, Json.members, mfrom. cbn [foldl fst snd].
    repeat (rewrite mget_mset_ne by (by vm_compute)). rewrite mget_mset_eq. f_equal. f_equal. unfold zlen. cbn [length]. rewrite length_imap, length_take.
    unfold zlen in Hn. cbn [length] in Hn. lia.
  - exists (x_termination t). split; [reflexivity|]. unfold x_termination. assert (xt_limited t =? 0 = false) as -> by (apply Z.eqb_neq; lia).
    destruct (negb _), (xt_completed t =? 0); cbn; auto.
Qed.
(** Two origins, of which one may be shown. *)
Definition omitting : res json :=
  x_response (H1 := table_wave) UnitNs (MkXLimits 8 1 50 128 64) x_wave (MkTraceQuery (lit "top.y") 25 UnitNs Hex) (JObject []) (JObject []) (string_value "hex")
    [example_chain "rhs" "a" true; example_chain "rhs" "b" true] [].
Lemma omitted_chains_reported_witness : exists summary data, omitting = Ret (ok_response summary data) /\ jget (lit "analysis_complete") summary = Some (JBool false).
Proof.
  assert (is_ret omitting = true) as Hr by (vm_compute; reflexivity). destruct omitting as [response| |] eqn:E; try discriminate Hr.
  destruct (omitted_chains_reported (H := table_wave) UnitNs (MkXLimits 8 1 50 128 64) x_wave (MkTraceQuery (lit "top.y") 25 UnitNs Hex) (JObject []) (JObject []) (string_value "hex")
    [example_chain "rhs" "a" true; example_chain "rhs" "b" true] [] response) as (summary & data & -> & Hc & _); [by vm_compute|exact E|]. by exists summary, data.
Defined.
