(* ===== verification/SessionService.v ===== *)
(** * SessionService: opening, checking and removing managed sessions

    Models [src/session/session_service.cpp], the client end of
    [src/session/uds_transport.cpp] and
    [src/session/session_lifecycle_lease.h]. The registry and the artifacts
    of a session are the operations of [SessionRegistry] and
    [SessionArtifacts] on the explicit file system [world]; everything else the
    service asks of the operating system (the files of a request, processes,
    signals, the peer of a socket) is answered by an arbitrary [SessionOs]:
    each call gives an answer and a next state, so a theorem about every
    instance covers every behaviour of the other processes. A log records the
    calls that matter to others: processes started, signals sent, and the
    records and the evidence seen before. No other process writes to the
    registry while a request runs, which the lease ensures for its session. Child-side redirection of standard streams and the
    time a call takes are not part of the state. *)

From S2P Require Import Prelude CLib Json SessionTypes SessionContract SessionRegistry SessionRegistryTheory SessionArtifacts Sha256 EnvConfig InternalRequest Engine SourceContext.

Open Scope Z_scope.

(** ** The operating system outside the registry *)

Inductive FileKind := KRegular | KDirectory | KSocket | KOther.
#[export] Instance FileKind_eq_dec : EqDecision FileKind.
Proof. solve_decision. Defined.

(** [struct stat] *)
Record Stat := MkStat { st_kind : FileKind; st_mtime : Z; st_size : Z; st_dev : Z; st_ino : Z }.

(** One [send] and one [read] on a socket: a send that transfers anything
    transfers at least one byte, one that does not counts as failed with the
    [errno] it leaves. *)
Inductive send_event := Sent (extra : nat) | SendInterrupted | SendFailed (errno : Z).
Inductive recv_event := Received (data : bytes) | RecvInterrupted | RecvFailed (errno : Z).

(** What a connection to a socket path meets: the [errno] of [socket],
    [setsockopt] and [connect] when they fail, how the sends go, and the reads
    that follow the bytes delivered; past their end the peer has closed. *)
Record Connection := MkConnection {
  cn_socket : option Z;
  cn_configure : option Z;
  cn_connect : option Z;
  cn_sends : list send_event;
  cn_replies : bytes -> list recv_event;
}.

Class SessionOs (OS : Type) := {
  os_canonical : bytes -> OS -> option bytes * OS;                 (* [fs::canonical] *)
  os_stat : bytes -> OS -> option Stat * OS;
  os_lstat : bytes -> OS -> option Stat * OS;
  os_read : bytes -> OS -> option bytes * OS;                      (* a whole file *)
  os_tree : bytes -> OS -> option (list (bytes * node)) * OS;      (* a whole directory *)
  os_entropy : OS -> (nat -> Z) * OS;                              (* [/dev/urandom] *)
  os_time : OS -> Z * OS;
  os_self : OS -> option bytes * OS;                               (* [/proc/self/exe] *)
  os_fork : list bytes -> OS -> Z * OS;                            (* [fork] and [execv] *)
  os_waitpid : Z -> bool -> OS -> (Z * option Z) * OS;             (* the result and the status it wrote *)
  os_kill : Z -> Z -> OS -> option Z * OS;                         (* the [errno] *)
  os_usleep : OS -> unit * OS;
  os_connection : bytes -> OS -> Connection * OS;
}.

(** The text side of [nlohmann::json]: [dump()] on one line, extraction from
    a stream, and the texts of the exceptions. *)
Class JsonStream := {
  json_line : json -> option bytes;
  json_extract : bytes -> option json;
  extract_error : bytes -> bytes;
  parse_error : bytes -> bytes;
}.

Inductive event :=
| Started (pid : Z) (argv : list bytes)
| Signalled (pid signal : Z)
| Exchanged (path : bytes) (request response : json)
| SawCommand (pid : Z) (command : bytes)
| SawStopped (pid : Z)
| Loaded (s : SessionInfo).

Record service (OS : Type) := MkService { sv_files : world; sv_os : OS; sv_log : list event }.
Arguments MkService {OS}.
Arguments sv_files {OS}.
Arguments sv_os {OS}.
Arguments sv_log {OS}.

Section Steps.
Context {OS : Type} `{SessionOs OS}.

(** A registry or artifact operation. *)
Definition on_files {A} (c : io A) : act (service OS) A := fun s =>
  match c (sv_files s) with
  | (w, Some a) => (Ret a, MkService w (sv_os s) (sv_log s))
  | (w, None) => (Throw "json::exception", MkService w (sv_os s) (sv_log s))
  end.
Definition ask {A} (f : OS -> A * OS) : act (service OS) A := fun s =>
  let '(a, o) := f (sv_os s) in (Ret a, MkService (sv_files s) o (sv_log s)).
Definition record_event (e : event) : act (service OS) unit := fun s =>
  (Ret tt, MkService (sv_files s) (sv_os s) (sv_log s ++ [e])).
End Steps.

(** ** Constants *)

Definition SIGKILL : Z := 9.
Definition SIGTERM : Z := 15.
Definition EPERM : Z := 1.
Definition ESRCH : Z := 3.

(** ** JSON *)

(** [operator[]] of a constant object: a missing member is undefined. *)
Definition const_at (k : bytes) (j : json) : res json :=
  match j with
  | JObject m => match mget k m with Some v => Ret v | None => UB end
  | _ => Throw "type_error.305"
  end.
Definition text_value (k : bytes) (j : json) : res bytes := value_or as_string k [] j.
Definition object_member (k : bytes) (j : json) : res json := value_or Ret k (JObject []) j.

Definition failure_at (layer : bytes) (recoverable : bool) (details : json) (err_code message_ : bytes) : json :=
  jobj [(lit "ok", JBool false);
        (lit "error", merge (jobj [(lit "code", JString err_code); (lit "message", JString message_);
                                   (lit "recoverable", JBool recoverable); (lit "error_layer", JString layer)]) details)].
Definition session_manager : bytes := lit "session_manager".
Definition failure : bytes -> bytes -> json := failure_at session_manager true (JObject []).

Definition registry_lookup_failure (r : SessionRegistryResult) : json :=
  failure (if decide (status r = NotFound) then lit "SESSION_NOT_FOUND" else lit "SESSION_REGISTRY_FAILED") (message r).

(** ** Sessions *)

Record Fingerprint := MkPrint { fp_mtime : Z; fp_size : Z; fp_dev : Z; fp_inode : Z }.
Definition fingerprint_of (st : Stat) : Fingerprint := MkPrint (st_mtime st) (st_size st) (st_dev st) (st_ino st).

Definition with_lifecycle (state : bytes) (s : SessionInfo) : SessionInfo :=
  MkSession (session_id s) (generation s) state (transport s) (si_socket_path s) (file_dir s) (host s) (bind_host s)
    (port s) (server_host s) (auth_token s) (ownership_token_hash s) (server_pid s) (created_at s) (last_active s)
    (dbdir_path s) (design_db_format s) (dbdir_mtime s) (dbdir_size s) (dbdir_dev s) (dbdir_inode s)
    (fsdb_file s) (fsdb_mtime s) (fsdb_size s) (fsdb_dev s) (fsdb_inode s).
Definition with_pid (pid : Z) (s : SessionInfo) : SessionInfo :=
  MkSession (session_id s) (generation s) (lifecycle_state s) (transport s) (si_socket_path s) (file_dir s) (host s) (bind_host s)
    (port s) (server_host s) (auth_token s) (ownership_token_hash s) pid (created_at s) (last_active s)
    (dbdir_path s) (design_db_format s) (dbdir_mtime s) (dbdir_size s) (dbdir_dev s) (dbdir_inode s)
    (fsdb_file s) (fsdb_mtime s) (fsdb_size s) (fsdb_dev s) (fsdb_inode s).
Definition with_design (path format : bytes) (fp : Fingerprint) (s : SessionInfo) : SessionInfo :=
  MkSession (session_id s) (generation s) (lifecycle_state s) (transport s) (si_socket_path s) (file_dir s) (host s) (bind_host s)
    (port s) (server_host s) (auth_token s) (ownership_token_hash s) (server_pid s) (created_at s) (last_active s)
    path format (fp_mtime fp) (fp_size fp) (fp_dev fp) (fp_inode fp)
    (fsdb_file s) (fsdb_mtime s) (fsdb_size s) (fsdb_dev s) (fsdb_inode s).
Definition with_waveform (path : bytes) (fp : Fingerprint) (s : SessionInfo) : SessionInfo :=
  MkSession (session_id s) (generation s) (lifecycle_state s) (transport s) (si_socket_path s) (file_dir s) (host s) (bind_host s)
    (port s) (server_host s) (auth_token s) (ownership_token_hash s) (server_pid s) (created_at s) (last_active s)
    (dbdir_path s) (design_db_format s) (dbdir_mtime s) (dbdir_size s) (dbdir_dev s) (dbdir_inode s)
    path (fp_mtime fp) (fp_size fp) (fp_dev fp) (fp_inode fp).

(** The record [session.open] starts from. *)
Definition opening_record (env : Env) (id gen token_hash : bytes) (now : Z) : SessionInfo :=
  MkSession id gen (lit "opening") (lit "uds") (xdebug_design_socket_path env id) [] [] [] 0 (lit "localhost") [] token_hash
    0 now now [] [] 0 0 0 0 [] 0 0 0 0.

Definition session_mode (s : SessionInfo) : bytes :=
  if negb (str_empty (dbdir_path s)) && negb (str_empty (fsdb_file s)) then lit "combined"
  else if str_empty (dbdir_path s) then lit "waveform" else lit "design".
(** The mode as [public_session] and [session.doctor] spell it. *)
Definition shown_mode (s : SessionInfo) : bytes :=
  if str_empty (dbdir_path s) then lit "waveform" else if str_empty (fsdb_file s) then lit "design" else lit "combined".

Definition transport_members (s : SessionInfo) : list (bytes * json) :=
  if eqs (transport s) (lit "uds") then
    [(lit "socket_path", JString (si_socket_path s)); (lit "server_host", JString (server_host s))]
  else if eqs (transport s) (lit "tcp") then
    [(lit "host", JString (host s)); (lit "bind_host", JString (bind_host s)); (lit "port", JInt (port s));
     (lit "server_host", JString (server_host s))]
  else if eqs (transport s) (lit "file") then
    [(lit "file_dir", JString (file_dir s)); (lit "server_host", JString (server_host s))]
  else [].
Definition positive_member (k : bytes) (z : Z) : list (bytes * json) := if 0 <? z then [(k, JInt z)] else [].
Definition text_member (k s : bytes) : list (bytes * json) := if str_empty s then [] else [(k, JString s)].
Definition public_session (s : SessionInfo) : json :=
  jobj ([(lit "session_id", JString (session_id s)); (lit "mode", JString (shown_mode s)); (lit "transport", JString (transport s))] ++
        text_member (lit "daidir") (dbdir_path s) ++ text_member (lit "fsdb") (fsdb_file s) ++ transport_members s ++
        positive_member (lit "server_pid") (server_pid s) ++ positive_member (lit "created_at") (created_at s) ++
        positive_member (lit "last_active") (last_active s)).

Definition same_resource (lhs rhs : SessionInfo) : bool :=
  let mode := session_mode lhs in
  if negb (eqs mode (session_mode rhs)) then false
  else if eqs mode (lit "design") then eqs (dbdir_path lhs) (dbdir_path rhs)
  else if eqs mode (lit "waveform") then eqs (fsdb_file lhs) (fsdb_file rhs)
  else eqs (dbdir_path lhs) (dbdir_path rhs) && eqs (fsdb_file lhs) (fsdb_file rhs).
Definition resource_match_kind (s : SessionInfo) : bytes :=
  let mode := session_mode s in
  if eqs mode (lit "design") then lit "same_daidir" else if eqs mode (lit "waveform") then lit "same_fsdb"
  else lit "same_combined_resource".
Definition advisory (opened existing : SessionInfo) : json :=
  jobj [(lit "code", JString (lit "RESOURCE_SESSION_ALREADY_ALIVE")); (lit "severity", JString (lit "info"));
        (lit "match_kind", JString (resource_match_kind opened)); (lit "existing_session_id", JString (session_id existing));
        (lit "existing_mode", JString (session_mode existing));
        (lit "message", JString (lit "same resource already has an alive session; consider closing one to save resources"))].
Definition duplicate_resource_advisories (before : list SessionInfo) (opened : SessionInfo) : list json :=
  map (advisory opened) (List.filter (fun e => negb (eqs (session_id e) (session_id opened)) && same_resource e opened) before).

(** ** The socket transport *)

Definition sun_path_size : Z := 108.
Definition max_line : Z := 16 * 1024 * 1024.

Definition socket_address (path : bytes) : option bytes :=
  if str_empty path || (sun_path_size <=? zlen path)
  then Some (lit "UDS socket path is empty or exceeds sockaddr_un capacity") else None.

Section Transport.
Context (strerror : Z -> bytes).

(** The bytes delivered, and the error. *)
Fixpoint write_all (events : list send_event) (delivered text : bytes) : bytes * option bytes :=
  match text with
  | [] => (delivered, None)
  | _ =>
      match events with
      | [] => (delivered ++ text, None)
      | Sent extra :: events' => write_all events' (delivered ++ take (S extra) text) (drop (S extra) text)
      | SendInterrupted :: events' => write_all events' delivered text
      | SendFailed e :: _ => (delivered, Some (lit "UDS write failed: " ++ strerror e))
      end
  end.

(** The text before the first newline. *)
Definition before_newline (line : bytes) : option bytes :=
  match list_find (fun c => c = chr 10) line with Some (i, _) => Some (take i line) | None => None end.

Definition line_end_error (line : bytes) : bytes :=
  if max_line <? zlen line then lit "UDS JSON line exceeds 16 MiB" else lit "UDS peer closed before newline".

Fixpoint read_line (events : list recv_event) (line : bytes) : bytes + bytes :=
  if max_line <? zlen line then inl (line_end_error line)
  else
    match events with
    | [] => inl (line_end_error line)
    | RecvInterrupted :: events' => read_line events' line
    | RecvFailed e :: _ => inl (lit "UDS read failed: " ++ strerror e)
    | Received [] :: _ => inl (line_end_error line)
    | Received data :: events' =>
        let line := line ++ data in
        match before_newline line with
        | Some text => inr text
        | None => read_line events' line
        end
    end.

Context `{JsonText} `{JsonStream}.

Definition parse_line (events : list recv_event) : bytes + json :=
  match read_line events [] with
  | inl e => inl e
  | inr line =>
      match json_parse line with
      | Some v => inr v
      | None => inl (lit "invalid UDS JSON line: " ++ parse_error line)
      end
  end.

(** A request and its answer over one connection. [dump()] throws when the
    request has a string that is not UTF-8. *)
Definition exchange (c : Connection) (request : json) : res (bytes + json) :=
  match cn_socket c with
  | Some e => Ret (inl (lit "cannot create UDS client: " ++ strerror e))
  | None =>
      match cn_configure c with
      | Some e => Ret (inl (lit "cannot configure UDS timeout: " ++ strerror e))
      | None =>
          match cn_connect c with
          | Some e => Ret (inl (lit "UDS connect failed: " ++ strerror e))
          | None =>
              match json_line request with
              | None => Throw "type_error.316"
              | Some text =>
                  match write_all (cn_sends c) [] (text ++ newline) with
                  | (_, Some e) => Ret (inl e)
                  | (delivered, None) => Ret (parse_line (cn_replies c delivered))
                  end
              end
          end
      end
  end.

Context {OS : Type} `{SessionOs OS}.

Definition uds_request (path : bytes) (request : json) (timeout_ms : Z) : act (service OS) (bytes + json) :=
  if timeout_ms <=? 0 then mret (inl (lit "UDS timeout must be positive"))
  else
    match socket_address path with
    | Some e => mret (inl e)
    | None =>
        c ← ask (os_connection path);
        r ← lift (exchange c request);
        match r with
        | inl e => mret (inl e)
        | inr response => _ ← record_event (Exchanged path request response); mret (inr response)
        end
    end.

(** ** Endpoints and processes *)

Definition control_request (action : bytes) : json :=
  jobj [(lit "api_version", JString (lit "xdebug.internal.v1")); (lit "action", JString action); (lit "args", JObject [])].

Definition endpoint_control (s : SessionInfo) (action : bytes) : act (service OS) (bytes + json) :=
  if negb (eqs (transport s) (lit "uds"))
  then mret (inl (lit "transport is not implemented by this endpoint client: " ++ transport s))
  else uds_request (si_socket_path s) (control_request action) 1000.

(** The answer to a ping names the generation. *)
Definition names_generation (response : json) (gen : bytes) : res bool :=
  ok ← value_or as_bool (lit "ok") false response;
  if negb ok then Ret false
  else
    data ← object_member (lit "data") response;
    g ← text_value (lit "generation") data;
    Ret (eqs g gen).

Definition endpoint_is_generation (s : SessionInfo) : act (service OS) bool :=
  r ← endpoint_control s (lit "server.ping");
  match r with
  | inl _ => mret false
  | inr response => lift (names_generation response (generation s))
  end.

(** [waitpid] reaps a child that has exited; [kill] with signal 0 only looks. *)
Definition running_or_logged (pid : Z) (running : bool) : act (service OS) bool :=
  if running then mret true else _ ← record_event (SawStopped pid); mret false.
Definition process_is_running (pid : Z) : act (service OS) bool :=
  if pid <=? 0 then running_or_logged pid false
  else
    child ← ask (os_waitpid pid true);
    if fst child =? pid then running_or_logged pid false
    else
      e ← ask (os_kill pid 0);
      running_or_logged pid (match e with None => true | Some e => e =? EPERM end).

Definition contains_text (needle hay : bytes) : bool :=
  existsb (fun i => eqs (take (length needle) (drop i hay)) needle) (seq 0 (S (length hay))).
Definition command_matches (s : SessionInfo) (command : bytes) : bool :=
  contains_text (lit "xdebug-fst") command && contains_text (session_id s) command && contains_text (generation s) command.

Definition process_matches_generation (s : SessionInfo) : act (service OS) bool :=
  running ← process_is_running (server_pid s);
  if negb running then mret false
  else
    command ← ask (os_read (lit "/proc/" ++ udec (server_pid s) ++ lit "/cmdline"));
    match command with
    | None => mret false
    | Some command => _ ← record_event (SawCommand (server_pid s) command); mret (command_matches s command)
    end.

Fixpoint wait_polls (n : nat) (pid : Z) : act (service OS) bool :=
  match n with
  | O => running ← process_is_running pid; mret (negb running)
  | S n' =>
      running ← process_is_running pid;
      if negb running then mret true else _ ← ask os_usleep; wait_polls n' pid
  end.
(** A poll every 10 ms. *)
Definition wait_process_exit (pid timeout_ms : Z) : act (service OS) bool := wait_polls (Z.to_nat ((timeout_ms + 9) / 10)) pid.

(** [kill(pid, signal) == 0 || errno == ESRCH] *)
Definition send_signal (pid signal : Z) : act (service OS) (option Z) :=
  _ ← record_event (Signalled pid signal); ask (os_kill pid signal).
Definition delivered_or_gone (e : option Z) : bool := match e with None => true | Some e => e =? ESRCH end.

(** ** The resources of a request *)

Definition hex_byte (b : Z) : bytes := [hex_lower (Z.land b 255 / 16); hex_lower (Z.land b 15)].

(** The [read] loop on [/dev/urandom]: whether all 32 bytes came. *)
Fixpoint read_random (sched : list outcome) (remaining : nat) : list outcome * bool :=
  match remaining with
  | O => (sched, true)
  | _ =>
      match sched with
      | [] => ([], true)
      | Done :: sched' => (sched', true)
      | Partial O :: sched' => (sched', false)
      | Partial n :: sched' => read_random sched' (remaining - n)
      | Interrupted :: sched' => read_random sched' remaining
      | Fault :: sched' => (sched', false)
      end
  end.
Definition read_random_bytes : io bool := fun w =>
  let '(sched, ok) := read_random (schedule w) 32 in (set_schedule sched w, Some ok).

Definition random_hex_256 : act (service OS) (option bytes) :=
  entropy ← ask os_entropy;
  on_files
    (fd <-- syscall;;
     if decide (fd = None) then
       got <-- read_random_bytes;;
       closed <-- syscall;;
       iret (if (got : bool) && bool_decide (closed = None) then Some (flat_map (fun i => hex_byte (entropy i)) (seq 0 32)) else None)
     else iret None).

Definition is_kind (k : FileKind) (path : bytes) : act (service OS) bool :=
  st ← ask (os_stat path); mret (match st with Some st => bool_decide (st_kind st = k) | None => false end).

Definition canonical_existing_path (input : bytes) (directory : bool) : act (service OS) (bytes + bytes) :=
  let error := (if directory then lit "directory is unavailable: " else lit "file is unavailable: ") ++ input in
  path ← ask (os_canonical input);
  match path with
  | None => mret (inl error)
  | Some path =>
      found ← is_kind (if directory then KDirectory else KRegular) path;
      mret (if found : bool then inr path else inl error)
  end.

Record DesignResource := MkResource { dr_path : bytes; dr_format : bytes }.

(** [path.extension()]: from the last period of the file name, unless that is
    its first character or the name is [".."]. *)
Definition file_name (p : bytes) : bytes := List.last (names_from [] p) [].
Definition extension (p : bytes) : bytes :=
  let name := file_name p in
  match list_find (fun c => c = "."%char) (rev name) with
  | Some (i, _) => if (length name =? S i)%nat || eqs name (lit "..") then [] else drop (length name - S i) name
  | None => []
  end.
Definition has_prefix (pre s : bytes) : bool := eqs (take (length pre) s) pre.

(** A member that is a string with something in it. *)
Definition nonempty_text (k : bytes) (j : json) : bool :=
  match jget k j with Some (JString s) => negb (str_empty s) | _ => false end.

(** The declared format, the artifact and its extension. *)
Definition bundle_artifact (manifest : json) : res (option (bytes * bytes * bytes)) :=
  schema ← text_value (lit "schema_version") manifest;
  if eqs schema (lit "xdebug.design-db-bundle.v1") && is_object manifest && (jsize manifest =? 2)%nat && nonempty_text (lit "library") manifest
  then library ← as_string (jat (lit "library") manifest); Ret (Some (lit "xdd-so", library, lit ".so"))
  else if eqs schema (lit "xdebug.design-db-bundle.v2") && is_object manifest && (jsize manifest =? 3)%nat then
    format ← text_value (lit "format") manifest;
    if eqs format (lit "binary-v1") && nonempty_text (lit "database") manifest
    then database ← as_string (jat (lit "database") manifest); Ret (Some (lit "binary-v1", database, lit ".xddb"))
    else Ret None
  else Ret None.

Definition resolve_artifact (bundle format artifact required_extension : bytes) : act (service OS) (bytes + DesignResource) :=
  if is_absolute artifact then mret (inl (lit "DesignDB bundle artifact must be relative to the bundle"))
  else
    resolved ← ask (os_canonical (join_paths bundle artifact));
    let resolved := default [] resolved in
    root ← ask (os_canonical bundle);
    let error := lit "DesignDB bundle artifact must resolve to an in-bundle file of the declared format" in
    match root with
    | None => mret (inl error)
    | Some root =>
        regular ← is_kind KRegular resolved;
        mret (if negb regular || negb (eqs (extension resolved) required_extension) || negb (has_prefix (root ++ lit "/") resolved)
              then inl error else inr (MkResource resolved format))
    end.

Definition resolve_design_bundle (bundle_input : bytes) : act (service OS) (bytes + bytes * DesignResource) :=
  bundle ← canonical_existing_path bundle_input true;
  match bundle with
  | inl e => mret (inl e)
  | inr bundle =>
      text ← ask (os_read (join_paths bundle (lit "xdebug-design-db.json")));
      match text with
      | None => mret (inl (lit "DesignDB bundle is missing xdebug-design-db.json: " ++ bundle))
      | Some text =>
          match json_extract text with
          | None => mret (inl (lit "DesignDB bundle manifest is invalid JSON: " ++ extract_error text))
          | Some manifest =>
              declared ← lift (bundle_artifact manifest);
              match declared with
              | None => mret (inl (lit "DesignDB bundle manifest must be strict v1 xdd-so or v2 binary-v1"))
              | Some (format, artifact, required_extension) =>
                  resource ← resolve_artifact bundle format artifact required_extension;
                  mret (match resource with inl e => inl e | inr resource => inr (bundle, resource) end)
              end
          end
      end
  end.

(** The first member that is not allowed; a value that is no object has an
    empty one. *)
Definition unexpected_member (allowed : list bytes) (j : json) : option bytes :=
  match j with
  | JObject m => fst <$> List.find (fun kv => negb (one_of (fst kv) allowed)) m
  | _ => Some []
  end.

Definition lowercase_sha256 (digest : bytes) : bool := (zlen digest =? 64) && forallb lower_hex digest.
Definition nonnegative_size (j : json) : option Z :=
  match j with JUint z => Some z | JInt z => if z <? 0 then None else Some z | _ => None end.

Definition copy_evidence (evidence : json) (details : json) (fields : bytes * bytes) : json :=
  match jget (fst fields) evidence with Some v => set_key (snd fields) v details | None => details end.
Definition evidence_fields : list (bytes * bytes) :=
  map (fun f => (lit f, lit f)) ["manifest_path"; "resource"; "expected_path"; "actual_path"; "expected_size_bytes"; "actual_size_bytes";
                                 "expected_sha256"; "actual_sha256"]%string ++
  [(lit "schema_version", lit "manifest_schema_version"); (lit "state", lit "manifest_state")].
Definition provenance_failure (message_ : bytes) (evidence : json) : json :=
  failure_at (lit "handler") true (foldl (copy_evidence evidence) (JObject []) evidence_fields) (lit "RESOURCE_PROVENANCE_MISMATCH") message_.

(** The declared path, size and digest. *)
Definition declared_resource (declaration : json) : option (bytes * Z * bytes) :=
  match jget (lit "path") declaration, jget (lit "size_bytes") declaration, jget (lit "sha256") declaration with
  | Some (JString path), Some size_, Some (JString digest) =>
      match nonnegative_size size_ with
      | Some expected =>
          if (jsize declaration =? 3)%nat && negb (str_empty path) && negb (is_absolute path) && lowercase_sha256 digest
          then Some (path, expected, digest) else None
      | None => None
      end
  | _, _, _ => None
  end.

Definition digest_of (path : bytes) (directory : bool) : act (service OS) (bytes + bytes) :=
  if directory then entries ← ask (os_tree path); mret (sha256_directory_tree entries)
  else contents_ ← ask (os_read path); mret (sha256_file contents_).

Definition resource_text (key rest : bytes) : bytes := lit "run manifest resource " ++ key ++ rest.

Definition check_digest (key target_path : bytes) (directory : bool) (expected : bytes) (evidence : json) : act (service OS) (option json) :=
  digest ← digest_of target_path directory;
  let bad actual := Some (provenance_failure (lit "run manifest resource SHA-256 does not match target: " ++ key)
                            (set_key (lit "actual_sha256") actual evidence)) in
  mret (match digest with
        | inl _ => bad JNull
        | inr actual => if eqs actual expected then None else bad (if str_empty actual then JNull else JString actual)
        end).

Definition check_contents (key target_path : bytes) (expected_size : Z) (expected_sha : bytes) (evidence : json) : act (service OS) (option json) :=
  st ← ask (os_stat target_path);
  let bad actual := mret (Some (provenance_failure (lit "run manifest resource size does not match target: " ++ key)
                                  (set_key (lit "actual_size_bytes") actual evidence))) in
  match st with
  | None => bad JNull
  | Some st =>
      if (st_size st <? 0) then bad JNull
      else if negb (st_size st =? expected_size) then bad (JUint (st_size st))
      else check_digest key target_path (bool_decide (st_kind st = KDirectory)) expected_sha evidence
  end.

(** [None] when the resource is what the manifest declares. *)
Definition validate_manifest_resource (manifest_path key : bytes) (declaration : json) (target_path : bytes) (common_evidence : json)
    : act (service OS) (option json) :=
  let evidence := set_key (lit "resource") (JString key) common_evidence in
  match unexpected_member [lit "path"; lit "size_bytes"; lit "sha256"] declaration with
  | Some field =>
      mret (Some (provenance_failure
        (if is_object declaration then resource_text key (lit " contains unknown field: " ++ field) else resource_text key (lit " must be a JSON object"))
        evidence))
  | None =>
      match declared_resource declaration with
      | None =>
          mret (Some (provenance_failure
            (resource_text key (lit " must contain exactly relative path, non-negative size_bytes, and lowercase 64-hex sha256")) evidence))
      | Some (relative, expected_size, expected_sha) =>
          let evidence := set_key (lit "expected_sha256") (JString expected_sha)
            (set_key (lit "expected_size_bytes") (JUint expected_size) (set_key (lit "expected_path") (JString relative) evidence)) in
          expected ← ask (os_canonical (join_paths (parent_path manifest_path) relative));
          let evidence := set_key (lit "actual_path") (JString target_path) evidence in
          if negb (bool_decide (expected = Some target_path))
          then mret (Some (provenance_failure (lit "run manifest resource path does not match target: " ++ key) evidence))
          else check_contents key target_path expected_size expected_sha evidence
      end
  end.

Definition manifest_evidence (path : bytes) : json := jobj [(lit "manifest_path", JString path)].

(** The checks of the parsed manifest before its resources: the evidence, the
    texts and the resources. *)
Definition manifest_shape (manifest_path : bytes) (has_design : bool) (parsed : json) : res (json + json * bytes * bytes * json) :=
  match unexpected_member [lit "schema_version"; lit "state"; lit "resources"] parsed with
  | Some field =>
      Ret (inl (provenance_failure
        (if is_object parsed then lit "run manifest contains unknown root field: " ++ field else lit "run manifest root must be a JSON object")
        (manifest_evidence manifest_path)))
  | None =>
      schema_version ← text_value (lit "schema_version") parsed;
      state ← text_value (lit "state") parsed;
      let evidence := jobj [(lit "manifest_path", JString manifest_path); (lit "schema_version", JString schema_version); (lit "state", JString state)] in
      if negb (eqs schema_version (lit "xdebug.run-manifest.v1")) || negb (eqs state (lit "published"))
      then Ret (inl (provenance_failure (lit "run manifest must be xdebug.run-manifest.v1 in published state") evidence))
      else
        let resources := jat (lit "resources") parsed in
        if negb (is_object resources)
        then Ret (inl (provenance_failure (lit "run manifest resources must be a JSON object") evidence))
        else
          match unexpected_member [lit "fsdb"; lit "daidir"] resources with
          | Some field =>
              Ret (inl (provenance_failure
                (if jcontains (lit "fsdb") resources then lit "run manifest resources contains unknown field: " ++ field
                 else lit "run manifest resources must declare fsdb") evidence))
          | None =>
              if negb (jcontains (lit "fsdb") resources)
              then Ret (inl (provenance_failure (lit "run manifest resources must declare fsdb") evidence))
              else if negb (eqb (jcontains (lit "daidir") resources) has_design)
              then Ret (inl (provenance_failure
                (lit "run manifest resources must exactly match target.fsdb and optional target.daidir") evidence))
              else Ret (inr (evidence, schema_version, state, resources))
          end
  end.

Definition manifest_resources (manifest_path : bytes) (s : SessionInfo) (evidence resources : json) : act (service OS) (option json) :=
  e ← validate_manifest_resource manifest_path (lit "fsdb") (jat (lit "fsdb") resources) (fsdb_file s) evidence;
  match e with
  | Some e => mret (Some e)
  | None =>
      if negb (str_empty (dbdir_path s))
      then validate_manifest_resource manifest_path (lit "daidir") (jat (lit "daidir") resources) (dbdir_path s) evidence
      else mret None
  end.

(** The error response, or the details of the manifest. *)
Definition validate_run_manifest (target : json) (s : SessionInfo) : act (service OS) (json + json) :=
  match jget (lit "run_manifest") target with
  | None => mret (inr (JObject []))
  | Some requested =>
      requested ← lift (as_string requested);
      canonical ← ask (os_canonical requested);
      match canonical with
      | None => mret (inl (provenance_failure (lit "run manifest is missing or cannot be resolved") (manifest_evidence requested)))
      | Some manifest_path =>
          text ← ask (os_read manifest_path);
          match text with
          | None => mret (inl (provenance_failure (lit "run manifest cannot be opened") (manifest_evidence manifest_path)))
          | Some text =>
              match json_extract text with
              | None => mret (inl (provenance_failure (lit "run manifest is not valid JSON") (manifest_evidence manifest_path)))
              | Some parsed =>
                  shape ← lift (manifest_shape manifest_path (negb (str_empty (dbdir_path s))) parsed);
                  match shape with
                  | inl e => mret (inl e)
                  | inr (evidence, schema_version, state, resources) =>
                      e ← manifest_resources manifest_path s evidence resources;
                      mret (match e with
                            | Some e => inl e
                            | None => inr (jobj [(lit "schema_version", JString schema_version); (lit "state", JString state);
                                                 (lit "resources", resources); (lit "manifest_path", JString manifest_path)])
                            end)
                  end
              end
          end
      end
  end.

(** ** Health and cleanup *)

Context (env : Env) (getenv : bytes -> option bytes).

Record HealthResult := MkHealth { healthy : bool; health_status : bytes; health_message : bytes }.

Definition gone_or (s : SessionInfo) (state text : bytes) : act (service OS) HealthResult :=
  running ← process_is_running (server_pid s);
  running' ← process_is_running (server_pid s);
  mret (MkHealth false (if running : bool then state else lit "process_exited")
          (if running' : bool then text else lit "Server process is not running")).

(** The resource [stat] finds and its status: missing, changed or as recorded. *)
Definition resource_health (path : bytes) (kind : FileKind) (mtime_ size_ : Z) (missing changed : HealthResult)
    : act (service OS) (option HealthResult) :=
  if str_empty path then mret None
  else
    st ← ask (os_stat path);
    mret (match st with
          | Some st =>
              if negb (bool_decide (st_kind st = kind)) then Some missing
              else if resource_content_matches mtime_ size_ (st_mtime st) (st_size st) then None else Some changed
          | None => Some missing
          end).

Definition endpoint_health (s : SessionInfo) : act (service OS) HealthResult :=
  socket ← ask (os_lstat (si_socket_path s));
  if negb (match socket with Some st => bool_decide (st_kind st = KSocket) | None => false end)
  then gone_or s (lit "socket_missing") (lit "Session socket is missing")
  else
    answers ← endpoint_is_generation s;
    if negb answers then gone_or s (lit "ping_failed") (lit "Session ping failed or generation differs")
    else mret (MkHealth true (lit "healthy") (lit "Session is healthy")).

Definition diagnose (s : SessionInfo) : act (service OS) HealthResult :=
  if negb (eqs (lifecycle_state s) (lit "active")) then
    mret (MkHealth false (if eqs (lifecycle_state s) (lit "opening") then lit "connect_failed" else lit "process_exited")
            (lit "Session generation is not active"))
  else
    matches ← on_files (xdebug_design_generation_matches env (session_id s) (generation s));
    if negb matches then
      mret (MkHealth false (lit "registry_missing") (lit "Session registry and generation marker do not match"))
    else
      design ← resource_health (dbdir_path s) KDirectory (dbdir_mtime s) (dbdir_size s)
        (MkHealth false (lit "dbdir_missing") (lit "Daidir path is missing"))
        (MkHealth false (lit "dbdir_changed") (lit "Daidir metadata changed since session.open"));
      match design with
      | Some h => mret h
      | None =>
          wave ← resource_health (fsdb_file s) KRegular (fsdb_mtime s) (fsdb_size s)
            (MkHealth false (lit "fsdb_missing") (lit "Waveform path is missing"))
            (MkHealth false (lit "fsdb_changed") (lit "Waveform metadata changed since session.open"));
          match wave with
          | Some h => mret h
          | None => endpoint_health s
          end
      end.

Definition cleanup_generation (s : SessionInfo) : act (service OS) bool :=
  artifacts ← on_files (xdebug_design_remove_session_generation env (session_id s) (generation s));
  if negb artifacts then mret false
  else
    removed ← on_files (remove_if_generation env (session_id s) (generation s));
    mret (ok removed).

(** [if (!stopped && owned)]: a signal, and the wait for the exit. *)
Definition stop_with (signal : Z) (s : SessionInfo) (stopped owned : bool) : act (service OS) bool :=
  if negb stopped && owned then
    e ← send_signal (server_pid s) signal;
    if delivered_or_gone e then wait_process_exit (server_pid s) 1500 else mret false
  else mret stopped.

Definition ask_to_quit (s : SessionInfo) (stopped endpoint_owned force : bool) : act (service OS) bool :=
  if negb stopped && endpoint_owned && negb force then
    _ ← endpoint_control s (lit "server.quit");
    wait_process_exit (server_pid s) 1500
  else mret stopped.

Definition stop_engine (s : SessionInfo) (force : bool) : act (service OS) bool :=
  running ← process_is_running (server_pid s);
  endpoint_owned ← endpoint_is_generation s;
  stopped ← ask_to_quit s (negb running) endpoint_owned force;
  process_owned ← (if endpoint_owned : bool then mret true else process_matches_generation s);
  stopped ← stop_with SIGTERM s stopped process_owned;
  stop_with SIGKILL s stopped process_owned.

Definition cleanup_managed_session (s : SessionInfo) (force : bool) : act (service OS) bool :=
  let retained := with_lifecycle (lit "cleanup_failed") s in
  marked ← on_files (mark_cleanup_failed env retained (generation s));
  if negb (ok marked) then mret false
  else
    stopped ← stop_engine s force;
    if negb stopped then mret false else cleanup_generation retained.

(** [registry.get]; the record it gives is noted in the log. *)
Definition load_session (id : bytes) : act (service OS) (SessionRegistryResult + SessionInfo) :=
  found ← on_files (get env id);
  match found with
  | inl r => mret (inl r)
  | inr s => _ ← record_event (Loaded s); mret (inr s)
  end.

(** ** Leases

    [flock] waits; the lease is the right to run the operations of one id. *)

Definition xdebug_design_session_lifecycle_lock_path (id : bytes) : bytes :=
  xdebug_design_lifecycle_locks_dir env ++ lit "/" ++ session_dir_name id ++ lit ".lock".

Definition acquire_lease (id : bytes) : io bool :=
  home <-- xdebug_design_ensure_home env;;
  if negb home then iret false
  else
    fd <-- sys_open_create (xdebug_design_session_lifecycle_lock_path id);;
    match fd with
    | Some _ => iret false
    | None => locked <-- syscall;; iret (bool_decide (locked = None))
    end.

(** ** [session.open] *)

Definition self_executable : act (service OS) bytes :=
  link ← ask os_self;
  mret (match link with Some p => take (Z.to_nat 4095) p | None => [] end).

Definition engine_arguments (executable : bytes) (s : SessionInfo) (design : DesignResource) : list bytes :=
  [executable; lit "--server"; lit "--session-id"; session_id s; lit "--generation"; generation s; lit "--socket-path"; si_socket_path s] ++
  (if str_empty (fsdb_file s) then [] else [lit "-fst"; fsdb_file s]) ++
  (if str_empty (dr_path design) then [] else [lit "-dbdir"; dr_path design; lit "--design-db-format"; dr_format design]).

Definition spawn_uds_engine (s : SessionInfo) (design : DesignResource) : act (service OS) Z :=
  executable ← self_executable;
  if str_empty executable then mret (-1)
  else
    let argv := engine_arguments executable s design in
    child ← ask (os_fork argv);
    _ ← (if 0 <? child then record_event (Started child argv) else mret tt);
    mret child.

(** [WIFEXITED], [WEXITSTATUS], [WIFSIGNALED] and [WTERMSIG] *)
Definition exit_code (status_ : Z) : Z :=
  let low := Z.land status_ 127 in
  if low =? 0 then Z.land (Z.shiftr status_ 8) 255 else if low <? 127 then 128 + low else -1.

Inductive startup := Ready | Exited (status_ : Z) | TimedOut.

Fixpoint await_ready (attempts : nat) (child : Z) (s : SessionInfo) : act (service OS) startup :=
  match attempts with
  | O => mret TimedOut
  | S attempts' =>
      ready ← endpoint_is_generation s;
      if ready : bool then mret Ready
      else
        exited ← ask (os_waitpid child true);
        if fst exited =? child then mret (Exited (default 0 (snd exited)))
        else _ ← ask os_usleep; await_ready attempts' child s
  end.

(** The child that did not become ready is stopped and reaped. *)
Definition reap_child (child : Z) (outcome_ : startup) : act (service OS) Z :=
  match outcome_ with
  | Exited status_ => mret status_
  | _ =>
      alive ← ask (os_kill child 0);
      _ ← (if decide (alive = None) then _ ← send_signal child SIGKILL; mret tt else mret tt);
      waited ← ask (os_waitpid child false);
      mret (default 0 (snd waited))
  end.

Definition not_ready (timeout_sec : Z) (outcome_ : startup) (status_ : Z) : json :=
  let exited := match outcome_ with Exited _ => true | _ => false end in
  failure_at session_manager true
    (jobj [(lit "timeout_ms", JInt (timeout_sec * 1000)); (lit "exit_status", JInt (exit_code status_))])
    (if exited then lit "SESSION_START_FAILED" else lit "SESSION_START_TIMEOUT")
    (if exited then lit "engine exited before publishing a healthy endpoint"
     else lit "engine did not become ready within " ++ udec (timeout_sec * 1000) ++ lit " ms").

(** [kill] and [waitpid] on the child that was forked. *)
Definition kill_child (child : Z) : act (service OS) unit :=
  _ ← send_signal child SIGKILL;
  _ ← ask (os_waitpid child false);
  mret tt.

(** The modification time and size of a resource now; without a resource
    those of the record. *)
Definition current_print (path : bytes) (mtime_ size_ : Z) : act (service OS) (option (Z * Z)) :=
  if str_empty path then mret (Some (mtime_, size_))
  else st ← ask (os_stat path); mret ((fun st => (st_mtime st, st_size st)) <$> st).

Definition resources_changed (s : SessionInfo) : act (service OS) bool :=
  design ← current_print (dbdir_path s) (dbdir_mtime s) (dbdir_size s);
  match design with
  | None => mret true
  | Some (dm, dz) =>
      wave ← current_print (fsdb_file s) (fsdb_mtime s) (fsdb_size s);
      mret (match wave with
            | None => true
            | Some (fm, fz) =>
                negb (dm =? dbdir_mtime s) || negb (dz =? dbdir_size s) || negb (fm =? fsdb_mtime s) || negb (fz =? fsdb_size s)
            end)
  end.

Definition opened_response (before : list SessionInfo) (s : SessionInfo) (manifest_details : json) : json :=
  let response := jobj [(lit "ok", JBool true); (lit "session", public_session s); (lit "summary", jobj [(lit "status", JString (lit "opened"))]);
                        (lit "data", jobj [(lit "run_manifest", if json_empty manifest_details then JNull else manifest_details)])] in
  match duplicate_resource_advisories before s with [] => response | l => set_key (lit "advisories") (JArray l) response end.

(** The steps of [session.open], each ending the request with its error. *)
Abbreviation opens A := (trial json (service OS) A).

(** The name, the timeout, the ownership token and the target of the request. *)
Record OpenRequest := MkOpen { or_id : bytes; or_timeout : Z; or_args : json; or_target : json }.

Definition open_request (request : json) : opens OpenRequest :=
  target ← pure_step (object_member (lit "target") request);
  args ← pure_step (object_member (lit "args") request);
  id ← pure_step (text_value (lit "name") args);
  transport_ ← pure_step (value_or as_string (lit "transport") (lit "uds") args);
  if negb (eqs transport_ (lit "uds")) then
    stop (failure_at (lit "transport") true (JObject []) (lit "TRANSPORT_UNAVAILABLE")
            (lit "requested transport is not implemented yet: " ++ transport_))
  else
    let '(timeout, error) := xdebug_session_start_timeout_sec getenv in
    if timeout <? 0 then stop (failure_at session_manager false (JObject []) (lit "INVALID_ENVIRONMENT") error)
    else mret (MkOpen id timeout args target).

(** A fresh record with its generation and the hash of the token. *)
Definition new_record (r : OpenRequest) : opens SessionInfo :=
  now ← run_step (ask os_time);
  gen ← run_step random_hex_256;
  match gen with
  | None =>
      stop (failure_at (lit "internal") false (JObject []) (lit "SESSION_GENERATION_FAILED")
              (lit "failed to create a cryptographic lifecycle generation"))
  | Some gen =>
      token ← pure_step (text_value (lit "ownership_token") (or_args r));
      mret (opening_record env (or_id r) gen (if str_empty token then [] else sha256_text token) now)
  end.

(** A failed [stat] leaves the error text empty. *)
Definition open_design (target : json) (s : SessionInfo) : opens (SessionInfo * DesignResource) :=
  match jget (lit "daidir") target with
  | None => mret (s, MkResource [] [])
  | Some input =>
      input ← pure_step (as_string input);
      bundle ← run_step (resolve_design_bundle input);
      match bundle with
      | inl error => stop (failure (lit "DESIGN_BUNDLE_INVALID") error)
      | inr (path, resource) =>
          st ← run_step (ask (os_stat path));
          match st with
          | None => stop (failure (lit "DESIGN_BUNDLE_INVALID") [])
          | Some st => mret (with_design path (dr_format resource) (fingerprint_of st) s, resource)
          end
      end
  end.

Definition open_waveform (target : json) (s : SessionInfo) : opens SessionInfo :=
  match jget (lit "fsdb") target with
  | None => mret s
  | Some input =>
      input ← pure_step (as_string input);
      path ← run_step (canonical_existing_path input false);
      match path with
      | inl error => stop (failure (lit "WAVEFORM_OPEN_FAILED") error)
      | inr path =>
          st ← run_step (ask (os_stat path));
          match st with
          | None => stop (failure (lit "WAVEFORM_OPEN_FAILED") [])
          | Some st => mret (with_waveform path (fingerprint_of st) s)
          end
      end
  end.

Definition open_manifest (target : json) (s : SessionInfo) : opens json :=
  r ← run_step (validate_run_manifest target s);
  match r with inl e => stop e | inr details => mret details end.

(** The lease, the sessions there are, the reservation and the marker. *)
Definition lease_failure : json :=
  failure (lit "SESSION_LIFECYCLE_LOCK_FAILED") (lit "failed to acquire the session lifecycle lease").

Definition reserve_session (s : SessionInfo) : opens (list SessionInfo) :=
  locked ← run_step (on_files (acquire_lease (session_id s)));
  if negb locked then stop lease_failure
  else
    before ← run_step (on_files (load_all env));
    match before with
    | inl r => stop (failure (lit "SESSION_REGISTRY_FAILED") (message r))
    | inr before =>
        reserved ← run_step (on_files (reserve_opening env s));
        if negb (ok reserved) then
          stop (failure (if decide (status reserved = Conflict) then lit "SESSION_ID_EXISTS" else lit "SESSION_REGISTRY_FAILED") (message reserved))
        else
          marked ← run_step (on_files (xdebug_design_write_generation_marker env (session_id s) (generation s)));
          if negb marked then
            _ ← run_step (on_files (remove_if_generation env (session_id s) (generation s)));
            stop (failure (lit "SESSION_ARTIFACT_FAILED") (lit "failed to commit the session generation marker"))
          else mret before
    end.

Definition start_engine (s : SessionInfo) (design : DesignResource) : opens SessionInfo :=
  child ← run_step (spawn_uds_engine s design);
  if child <=? 0 then
    _ ← run_step (cleanup_generation s);
    stop (failure (lit "SESSION_START_FAILED") (lit "failed to fork the engine process"))
  else
    let s := with_pid child s in
    updated ← run_step (on_files (update_opening env s (generation s)));
    if negb (ok updated) then
      _ ← run_step (kill_child child);
      _ ← run_step (cleanup_generation s);
      stop (failure (lit "SESSION_REGISTRY_FAILED") (lit "failed to persist opening process evidence"))
    else mret s.

Definition await_engine (timeout : Z) (s : SessionInfo) : opens unit :=
  outcome_ ← run_step (await_ready (Z.to_nat (timeout * 100)) (server_pid s) s);
  match outcome_ with
  | Ready => mret tt
  | _ =>
      status_ ← run_step (reap_child (server_pid s) outcome_);
      _ ← run_step (cleanup_generation s);
      stop (not_ready timeout outcome_ status_)
  end.

(** The endpoint is told to quit, the child killed, the generation removed. *)
Definition abandon (s : SessionInfo) (error : json) {A} : opens A :=
  _ ← run_step (endpoint_control s (lit "server.quit"));
  _ ← run_step (kill_child (server_pid s));
  _ ← run_step (cleanup_generation s);
  stop error.

Definition publish_session (s : SessionInfo) : opens SessionInfo :=
  changed ← run_step (resources_changed s);
  if changed : bool then
    abandon s (failure (lit "SESSION_RESOURCE_CHANGED") (lit "session resource changed while the engine was opening"))
  else
    now ← run_step (ask os_time);
    let s := set_last_active now (with_lifecycle (lit "active") s) in
    finalized ← run_step (on_files (finalize_opening env s (generation s)));
    if negb (ok finalized) then
      abandon s (failure (lit "SESSION_REGISTRY_FAILED") (lit "failed to finalize the active generation"))
    else mret s.

Definition open_session (request : json) : act (service OS) json := answered (
  r ← open_request request;
  s ← new_record r;
  '(s, design) ← open_design (or_target r) s;
  s ← open_waveform (or_target r) s;
  details ← open_manifest (or_target r) s;
  before ← reserve_session s;
  s ← start_engine s design;
  _ ← await_engine (or_timeout r) s;
  s ← publish_session s;
  mret (opened_response before s details)).

(** ** The other actions *)

Definition list_sessions : act (service OS) json :=
  loaded ← on_files (load_all env);
  match loaded with
  | inl r => mret (failure (lit "SESSION_REGISTRY_FAILED") (message r))
  | inr sessions =>
      let '(timeout, error) := xdebug_session_idle_timeout_sec getenv in
      mret (if timeout <? 0 then failure_at session_manager false (JObject []) (lit "INVALID_ENVIRONMENT") error
            else
              let visible := map public_session sessions in
              ok_response (jobj [(lit "session_count", JUint (zlen visible)); (lit "expired_removed_count", JInt 0)])
                (jobj [(lit "sessions", JArray visible)]))
  end.

Definition target_session (request : json) : res bytes :=
  target ← const_at (lit "target") request; text_value (lit "session_id") target.

Definition unhealthy_response (s : SessionInfo) (h : HealthResult) : json :=
  failure_at session_manager true
    (jobj [(lit "health_status", JString (health_status h)); (lit "session_id", JString (session_id s));
           (lit "session_mode", JString (shown_mode s)); (lit "session_transport", JString (transport s))])
    (lit "SESSION_UNHEALTHY") (health_message h).

Definition doctor_session (request : json) : act (service OS) json :=
  id ← lift (target_session request);
  found ← load_session id;
  match found with
  | inl r => mret (registry_lookup_failure r)
  | inr s =>
      h ← diagnose s;
      mret (if healthy h then
              jobj [(lit "ok", JBool true); (lit "session", public_session s); (lit "summary", jobj [(lit "healthy", JBool true)]);
                    (lit "data", jobj [(lit "message", JString (lit "Session is healthy"))])]
            else unhealthy_response s h)
  end.

(** One session of a removal of all: the removed and the failed so far. *)
Definition remove_one (force : bool) (acc : list json * list bytes) (snapshot : SessionInfo) : act (service OS) (list json * list bytes) :=
  let id := session_id snapshot in
  locked ← on_files (acquire_lease id);
  current ← (if locked : bool then load_session id
             else mret (inl (MkResult IoError (lit "failed to acquire the session lifecycle lease"))));
  match current with
  | inl r => mret (if decide (status r = NotFound) then acc else (fst acc, snd acc ++ [id]))
  | inr s =>
      if negb (eqs (generation s) (generation snapshot)) then mret (fst acc, snd acc ++ [id])
      else
        removed ← cleanup_managed_session s force;
        mret (if removed : bool then (fst acc ++ [public_session s], snd acc) else (fst acc, snd acc ++ [session_id s]))
  end.

Fixpoint fold_sessions {A} (f : A -> SessionInfo -> act (service OS) A) (acc : A) (l : list SessionInfo) : act (service OS) A :=
  match l with
  | [] => mret acc
  | s :: l' => acc ← f acc s; fold_sessions f acc l'
  end.

Definition remove_all (request : json) (force : bool) : act (service OS) json :=
  args ← lift (object_member (lit "args") request);
  if jcontains (lit "ownership_token") args then
    mret (failure_at session_manager false (JObject []) (lit "SESSION_OWNERSHIP_TOKEN_FORBIDDEN")
            (lit "args.ownership_token is only valid for one exact session_id"))
  else
    loaded ← on_files (load_all env);
    match loaded with
    | inl r => mret (failure (lit "SESSION_REGISTRY_FAILED") (message r))
    | inr sessions =>
        '(removed, failed) ← fold_sessions (remove_one force) ([], []) sessions;
        mret (match failed with
              | [] =>
                  ok_response (jobj [(lit "requested_count", JUint (zlen sessions)); (lit "removed_count", JUint (zlen removed))])
                    (jobj [(lit "removed_sessions", JArray removed)])
              | _ =>
                  failure_at session_manager true
                    (jobj [(lit "requested_count", JUint (zlen sessions)); (lit "removed_count", JUint (zlen removed));
                           (lit "failed_session_ids", JArray (map JString failed))])
                    (lit "SESSION_CLEANUP_PARTIAL_FAILURE") (lit "one or more session engines could not be stopped")
              end)
    end.

(** A token that was given must be the one the session was opened with. *)
Definition token_mismatch (token : bytes) (s : SessionInfo) : bool :=
  negb (str_empty token) && (str_empty (ownership_token_hash s) || negb (eqs (sha256_text token) (ownership_token_hash s))).
Definition token_given (request : json) (force : bool) : res bytes :=
  if force then args ← object_member (lit "args") request; text_value (lit "ownership_token") args else Ret [].

Definition cleanup_failed_response : json :=
  failure_at session_manager true
    (jobj [(lit "cleanup_succeeded", JBool false); (lit "lifecycle_state", JString (lit "cleanup_failed"));
           (lit "compensation_status", JString (lit "cleanup_failed"))])
    (lit "SESSION_CLEANUP_FAILED") (lit "session generation cleanup failed and evidence was retained").

Definition remove_exact (request : json) (force : bool) (id : bytes) : act (service OS) json :=
  locked ← on_files (acquire_lease id);
  if negb locked then mret lease_failure
  else
    found ← load_session id;
    match found with
    | inl r => mret (registry_lookup_failure r)
    | inr s =>
        token ← lift (token_given request force);
        if token_mismatch token s then
          mret (failure_at session_manager false (JObject []) (lit "SESSION_OWNERSHIP_TOKEN_MISMATCH")
                  (lit "the supplied ownership token does not match this session.open record"))
        else
          removed ← cleanup_managed_session s force;
          mret (if removed : bool then
                  ok_response (jobj [(lit "removed", JBool true)]) (jobj [(lit "removed_session", public_session s)])
                else cleanup_failed_response)
    end.

Definition remove_session (request : json) (force : bool) : act (service OS) json :=
  id ← lift (target_session request);
  if eqs id (lit "all") then remove_all request force else remove_exact request force id.

(** One session of a collection: the kept and the removed so far. *)
Definition gc_removed (s : SessionInfo) (h : HealthResult) : json :=
  jobj [(lit "removed_session", public_session s); (lit "reason", JString (lit "unhealthy"));
        (lit "health_evidence", jobj [(lit "code", JString (lit "SESSION_UNHEALTHY")); (lit "message", JString (health_message h));
                                      (lit "health_status", JString (health_status h))])].
Definition gc_one (acc : list json * list json) (snapshot : SessionInfo) : act (service OS) (list json * list json) :=
  let keep s := (fst acc ++ [public_session s], snd acc) in
  locked ← on_files (acquire_lease (session_id snapshot));
  if negb locked then mret (keep snapshot)
  else
    current ← load_session (session_id snapshot);
    match current with
    | inl r => mret (if decide (status r = NotFound) then acc else keep snapshot)
    | inr s =>
        if negb (eqs (generation s) (generation snapshot)) then mret (keep snapshot)
        else
          h ← diagnose s;
          if healthy h then mret (keep s)
          else
            removed ← cleanup_managed_session s true;
            mret (if removed : bool then (fst acc, snd acc ++ [gc_removed s h]) else keep s)
    end.

Definition gc_sessions : act (service OS) json :=
  loaded ← on_files (load_all env);
  match loaded with
  | inl r => mret (failure (lit "SESSION_REGISTRY_FAILED") (message r))
  | inr sessions =>
      '(kept, removed) ← fold_sessions gc_one ([], []) sessions;
      mret (ok_response (jobj [(lit "before_count", JUint (zlen sessions)); (lit "kept_count", JUint (zlen kept)); (lit "removed_count", JUint (zlen removed))])
              (jobj [(lit "kept_sessions", JArray kept); (lit "removed", JArray removed)]))
  end.

Definition is_frontend_session_action (action : bytes) : bool :=
  one_of action [lit "session.open"; lit "session.list"; lit "session.doctor"; lit "session.close"; lit "session.kill"; lit "session.gc"].
Definition request_targets_managed_session (request : json) : bool :=
  is_object request && is_object (jat (lit "target") request) && nonempty_text (lit "session_id") (jat (lit "target") request).

Definition handle_frontend_session_action (request : json) : act (service OS) json :=
  action ← lift (text_value (lit "action") request);
  if eqs action (lit "session.open") then open_session request
  else if eqs action (lit "session.list") then list_sessions
  else if eqs action (lit "session.doctor") then doctor_session request
  else if eqs action (lit "session.close") then remove_session request false
  else if eqs action (lit "session.kill") then remove_session request true
  else if eqs action (lit "session.gc") then gc_sessions
  else mret (failure (lit "UNKNOWN_ACTION") (lit "unknown session action: " ++ action)).

Definition forward_to_managed_session (request : json) : act (service OS) json :=
  id ← lift (target_session request);
  found ← load_session id;
  match found with
  | inl r => mret (registry_lookup_failure r)
  | inr s =>
      if negb (eqs (lifecycle_state s) (lit "active")) then mret (failure (lit "SESSION_UNHEALTHY") (lit "session generation is not active"))
      else
        r ← uds_request (si_socket_path s) request 30000;
        mret (match r with
              | inl e => failure_at (lit "transport") true (JObject []) (lit "TRANSPORT_FAILED") e
              | inr response => response
              end)
  end.
End Transport.
