(* ===== verification/SessionServiceTheory.v ===== *)
(** * SessionServiceTheory: what the session service may do to others

    The service runs beside processes it does not control. These theorems
    hold for every [SessionOs], so whatever the files, the processes, the
    signals and the peers of the sockets do: which processes are signalled and
    on which evidence, what removing a session leaves in the registry, and what
    opening one does to the records that are there. [guarded] follows the log
    of a computation, [calm] and [fresh] the stored records, [returns] the
    values; a small operating system shows that a session can be opened and
    removed. *)

From S2P Require Import Prelude CLib Json SessionTypes SessionContract SessionRegistry SessionRegistryTheory SessionArtifacts Sha256 EnvConfig InternalRequest Engine SourceContext SessionService.

Open Scope Z_scope.

(** ** Evidence *)

(** The endpoint of [c] has answered a ping with its generation, or the
    command line of its process names the program, the session and the
    generation. *)
Definition pinged (c : SessionInfo) (log : list event) : Prop :=
  exists response, Exchanged (si_socket_path c) (control_request (lit "server.ping")) response ∈ log /\
    names_generation response (generation c) = Ret true.
Definition owned_by (c : SessionInfo) (log : list event) : Prop :=
  pinged c log \/
  (exists command, SawCommand (server_pid c) command ∈ log /\ command_matches c command = true).

(** A process may be signalled: it was started here, or is the process of a
    record read from the registry and has proved to be that session's own. *)
Definition justified (pid : Z) (log : list event) : Prop :=
  (exists argv, Started pid argv ∈ log) \/
  (exists c, Loaded c ∈ log /\ server_pid c = pid /\ owned_by c log).

Section Guarded.
Context {OS : Type} `{SessionOs OS} `{JsonText} `{JsonStream}.

Lemma pinged_mono c l1 l2 : pinged c l1 -> pinged c (l1 ++ l2).
Proof. unfold pinged. setoid_rewrite elem_of_app. naive_solver. Qed.
Lemma owned_by_mono c l1 l2 : owned_by c l1 -> owned_by c (l1 ++ l2).
Proof. unfold owned_by, pinged. setoid_rewrite elem_of_app. naive_solver. Qed.
Lemma justified_mono pid l1 l2 : justified pid l1 -> justified pid (l1 ++ l2).
Proof.
  intros [[argv Ha]|(c & Hl & Hc & Ho)]; [left; exists argv; apply elem_of_app; by left|].
  right. exists c. split; [apply elem_of_app; by left|]. split; [done|by apply owned_by_mono].
Qed.

(** Each signal of [new] is justified by what was seen before it. *)
Definition justified_from (seen new : list event) : Prop :=
  forall l1 pid signal l2, new = l1 ++ Signalled pid signal :: l2 -> justified pid (seen ++ l1).

Lemma justified_from_nil seen : justified_from seen [].
Proof. intros [|??]; by intros. Qed.
Lemma justified_from_app seen l1 l2 : justified_from seen l1 -> justified_from (seen ++ l1) l2 -> justified_from seen (l1 ++ l2).
Proof.
  intros H1' H2' a pid signal b E. apply app_eq_inv in E as [(k & -> & E)|(k & -> & ->)].
  - destruct k as [|e k].
    + rewrite app_nil_r in *. destruct l2 as [|e l2]; [done|]. cbn in E. injection E as <- ->. specialize (H2' [] pid signal l2 eq_refl).
      by rewrite app_nil_r in H2'.
    + injection E as <- ->. by apply (H1' _ _ signal k).
  - rewrite app_assoc. by apply (H2' _ _ signal b).
Qed.
Lemma justified_from_one seen e : (forall pid signal, e = Signalled pid signal -> justified pid seen) -> justified_from seen [e].
Proof.
  intros He [|x l1] pid signal l2 E; injection E as E1 E2; [|by destruct l1]. rewrite app_nil_r. by eapply He.
Qed.

(** After [seen], [m] sends justified signals only, and a normal result
    satisfies [Q] with everything seen by then. *)
Definition guarded {A} (seen : list event) (m : act (service OS) A) (Q : list event -> A -> Prop) : Prop :=
  forall s r s', m s = (r, s') -> exists new, sv_log s' = sv_log s ++ new /\ justified_from seen new /\ forall a, r = Ret a -> Q (seen ++ new) a.

(** All that is known afterwards is that nothing was forgotten. *)
Definition after (seen : list event) {A} : list event -> A -> Prop := fun seen' _ => exists new, seen' = seen ++ new.

Lemma guarded_weaken {A} seen (m : act (service OS) A) (Q R : list event -> A -> Prop) :
  guarded seen m Q -> (forall l a, Q l a -> R l a) -> guarded seen m R.
Proof. intros Hm HQ s r s' E. destruct (Hm s r s' E) as (new & El & Hj & Hr). exists new. eauto. Qed.

Lemma guarded_ret {A} seen (a : A) : guarded seen (mret a) (fun l b => l = seen /\ b = a).
Proof. intros s r s' [= <- <-]. exists []. rewrite !app_nil_r. split; [done|]. split; [apply justified_from_nil|]. by intros ? [= <-]. Qed.

Lemma guarded_bind {A B} seen (m : act (service OS) A) (f : A -> act (service OS) B) Q R :
  guarded seen m Q -> (forall l a, Q l a -> guarded l (f a) R) -> guarded seen (m ≫= f) R.
Proof.
  intros Hm Hf s r s' E. unfold mbind, act_bind in E. destruct (m s) as [[a| |t] s1] eqn:E1.
  - destruct (Hm _ _ _ E1) as (n1 & L1 & J1 & Q1). destruct (Hf _ a (Q1 a eq_refl) _ _ _ E) as (n2 & L2 & J2 & Q2).
    exists (n1 ++ n2). rewrite L2, L1, !app_assoc. split; [done|]. split; [by apply justified_from_app|done].
  - injection E as <- <-. destruct (Hm _ _ _ E1) as (n1 & L1 & J1 & _). by exists n1.
  - injection E as <- <-. destruct (Hm _ _ _ E1) as (n1 & L1 & J1 & _). by exists n1.
Qed.

Lemma guarded_lift {A} seen (r : res A) : guarded seen (lift r) (fun l a => l = seen /\ r = Ret a).
Proof. intros s r' s' [= <- <-]. exists []. rewrite !app_nil_r. split; [done|]. split; [apply justified_from_nil|done]. Qed.
Lemma guarded_ask {A} seen (f : OS -> A * OS) : guarded seen (ask f) (fun l _ => l = seen).
Proof.
  intros s r s' E. unfold ask in E. destruct (f (sv_os s)). injection E as <- <-. exists []. rewrite !app_nil_r.
  split; [done|]. split; [apply justified_from_nil|done].
Qed.
Lemma guarded_files {A} seen (c : io A) : guarded seen (on_files (OS := OS) c) (fun l _ => l = seen).
Proof.
  intros s r s' E. unfold on_files in E. exists []. rewrite !app_nil_r.
  destruct (c (sv_files s)) as [w [a|]]; injection E as <- <-; split; try done; (split; [apply justified_from_nil|done]).
Qed.
Lemma guarded_event seen e : (forall pid signal, e = Signalled pid signal -> justified pid seen) ->
  guarded seen (record_event (OS := OS) e) (fun l _ => l = seen ++ [e]).
Proof. intros He s r s' [= <- <-]. exists [e]. split; [done|]. split; [by apply justified_from_one|done]. Qed.

Lemma guarded_trial_bind {E A B} seen (m : trial E (service OS) A) (f : A -> trial E (service OS) B) Q R :
  guarded seen m (fun l x => match x with inl e => R l (inl e) | inr a => Q l a end) ->
  (forall l a, Q l a -> guarded l (f a : act (service OS) (E + B)) R) -> guarded seen (m ≫= f : act (service OS) (E + B)) R.
Proof.
  intros Hm Hf s r s' E'. unfold mbind, trial_bind in E'. destruct (m s) as [[[e|a]| |t] s1] eqn:E1.
  - injection E' as <- <-. destruct (Hm _ _ _ E1) as (n1 & L1 & J1 & Q1). exists n1. split; [done|]. split; [done|]. intros ? [= <-]. by apply (Q1 (inl e)).
  - destruct (Hm _ _ _ E1) as (n1 & L1 & J1 & Q1). destruct (Hf _ a (Q1 (inr a) eq_refl) _ _ _ E') as (n2 & L2 & J2 & Q2).
    exists (n1 ++ n2). rewrite L2, L1, !app_assoc. split; [done|]. split; [by apply justified_from_app|done].
  - injection E' as <- <-. destruct (Hm _ _ _ E1) as (n1 & L1 & J1 & _). by exists n1.
  - injection E' as <- <-. destruct (Hm _ _ _ E1) as (n1 & L1 & J1 & _). by exists n1.
Qed.
Lemma guarded_run_step {E A} seen (m : act (service OS) A) Q (R : list event -> E + A -> Prop) :
  guarded seen m Q -> (forall l a, Q l a -> R l (inr a)) -> guarded seen (run_step m : act (service OS) (E + A)) R.
Proof.
  intros Hm HR s r s' E'. unfold run_step in E'. destruct (m s) as [r1 s1] eqn:E1. cbn [fst snd] in E'. injection E' as <- <-.
  destruct (Hm _ _ _ E1) as (n1 & L1 & J1 & Q1). exists n1. split; [done|]. split; [done|]. destruct r1; cbn; [|done..]. intros ? [= <-]. auto.
Qed.
Lemma guarded_answered {A} seen (m : trial A (service OS) A) Q :
  guarded seen (m : act (service OS) (A + A)) (fun l x => Q l (merge_sum x)) -> guarded seen (answered m) Q.
Proof.
  intros Hm s r s' E'. unfold answered in E'. destruct (m s) as [r1 s1] eqn:E1. cbn [fst snd] in E'. injection E' as <- <-.
  destruct (Hm _ _ _ E1) as (n1 & L1 & J1 & Q1). exists n1. split; [done|]. split; [done|]. destruct r1; cbn; [|done..]. intros ? [= <-]. auto.
Qed.
End Guarded.

(** ** Steps that signal nobody *)

Section Tame.
Context {OS : Type} `{SessionOs OS} `{JsonText} `{JsonStream}.

Definition tame {A} (m : act (service OS) A) : Prop := forall seen, guarded seen m (fun _ _ => True).

Lemma tame_ret {A} (a : A) : tame (mret a).
Proof. intros seen. eapply guarded_weaken; [apply guarded_ret|done]. Qed.
Lemma tame_bind {A B} (m : act (service OS) A) (f : A -> act (service OS) B) : tame m -> (forall a, tame (f a)) -> tame (m ≫= f).
Proof. intros Hm Hf seen. eapply guarded_bind; [apply Hm|]. intros l a _. apply Hf. Qed.
Lemma tame_lift {A} (r : res A) : tame (lift r).
Proof. intros seen. eapply guarded_weaken; [apply guarded_lift|done]. Qed.
Lemma tame_ask {A} (f : OS -> A * OS) : tame (ask f).
Proof. intros seen. eapply guarded_weaken; [apply guarded_ask|done]. Qed.
Lemma tame_files {A} (c : io A) : tame (on_files c).
Proof. intros seen. eapply guarded_weaken; [apply guarded_files|done]. Qed.
Lemma tame_event e : match e with Signalled _ _ => False | _ => True end -> tame (record_event e).
Proof. intros He seen. eapply guarded_weaken; [apply guarded_event; by intros pid signal ->|done]. Qed.
Lemma tame_trial_bind {E A B} (m : trial E (service OS) A) (f : A -> trial E (service OS) B) :
  tame (m : act (service OS) (E + A)) -> (forall a, tame (f a : act (service OS) (E + B))) -> tame (m ≫= f : act (service OS) (E + B)).
Proof.
  intros Hm Hf seen. eapply (guarded_trial_bind _ _ _ (fun _ _ => True)); [eapply guarded_weaken; [apply Hm|]; by intros l []|].
  intros l a _. apply Hf.
Qed.
Lemma tame_run_step {E A} (m : act (service OS) A) : tame m -> tame (run_step m : act (service OS) (E + A)).
Proof. intros Hm seen. by eapply guarded_run_step; [apply Hm|]. Qed.
Lemma tame_pure_step {E A} (r : res A) : tame (pure_step r : act (service OS) (E + A)).
Proof. intros seen s r' s' [= <- <-]. exists []. rewrite !app_nil_r. split; [done|]. split; [apply justified_from_nil|done]. Qed.
Lemma tame_stop {E A} (e : E) : tame (stop e : act (service OS) (E + A)).
Proof. intros seen s r' s' [= <- <-]. exists []. rewrite !app_nil_r. split; [done|]. split; [apply justified_from_nil|done]. Qed.
Lemma tame_trial_ret {E A} (a : A) : tame (mret (M := trial E (service OS)) a : act (service OS) (E + A)).
Proof. intros seen s r' s' [= <- <-]. exists []. rewrite !app_nil_r. split; [done|]. split; [apply justified_from_nil|done]. Qed.
End Tame.

Create HintDb tame.
#[export] Hint Resolve tame_ret tame_lift tame_ask tame_files tame_run_step tame_pure_step tame_stop tame_trial_ret : tame.

(** Go through the steps of a computation. *)
Ltac tame_step :=
  match goal with
  | |- forall _, _ => intro
  | |- tame (@mbind (act _) _ _ _ _ _) => apply tame_bind
  | |- tame (@mbind (trial _ _) _ _ _ _ _) => apply tame_trial_bind
  | |- tame (match ?x with _ => _ end) => destruct x
  | |- tame (let '(_, _) := ?x in _) => destruct x
  | |- tame (record_event _) => by apply tame_event
  | |- tame (run_step _) => apply tame_run_step
  | |- tame _ => solve [eauto with tame nocore]
  end.
Ltac tame := repeat tame_step.

Section TameSteps.
Context {OS : Type} `{SessionOs OS} `{JsonText} `{JsonStream} (strerror : Z -> bytes) (env : Env) (getenv : bytes -> option bytes).

Lemma tame_request path request timeout : tame (uds_request strerror path request timeout).
Proof. unfold uds_request. tame. Qed.
#[local] Hint Resolve tame_request : tame.
Lemma tame_control s action : tame (endpoint_control strerror s action).
Proof. unfold endpoint_control. tame. Qed.
#[local] Hint Resolve tame_control : tame.
Lemma tame_ping s : tame (endpoint_is_generation strerror s).
Proof. unfold endpoint_is_generation. tame. Qed.
Lemma tame_running pid : tame (process_is_running pid).
Proof. unfold process_is_running, running_or_logged. tame. Qed.
#[local] Hint Resolve tame_ping tame_running : tame.
Lemma tame_matches s : tame (process_matches_generation s).
Proof. unfold process_matches_generation. tame. Qed.
Lemma tame_polls n pid : tame (wait_polls n pid).
Proof. induction n; cbn [wait_polls]; tame. Qed.
Lemma tame_wait pid timeout : tame (wait_process_exit pid timeout).
Proof. apply tame_polls. Qed.
Lemma tame_canonical input directory : tame (canonical_existing_path input directory).
Proof. unfold canonical_existing_path, is_kind. tame. Qed.
#[local] Hint Resolve tame_canonical tame_wait tame_matches : tame.
Lemma tame_bundle input : tame (resolve_design_bundle input).
Proof. unfold resolve_design_bundle, resolve_artifact, is_kind. tame. Qed.
Lemma tame_resource path key declaration target evidence : tame (validate_manifest_resource path key declaration target evidence).
Proof. unfold validate_manifest_resource, check_contents, check_digest, digest_of. tame. Qed.
#[local] Hint Resolve tame_bundle tame_resource : tame.
Lemma tame_manifest target s : tame (validate_run_manifest target s).
Proof. unfold validate_run_manifest, manifest_resources. tame. Qed.
Lemma tame_diagnose s : tame (diagnose strerror env s).
Proof. unfold diagnose, endpoint_health, gone_or, resource_health. tame. Qed.
Lemma tame_cleanup_generation s : tame (cleanup_generation (OS := OS) env s).
Proof. unfold cleanup_generation. tame. Qed.
Lemma tame_random : tame random_hex_256.
Proof. unfold random_hex_256. tame. Qed.
End TameSteps.
#[export] Hint Resolve tame_request tame_control tame_ping tame_running tame_matches tame_wait tame_canonical tame_bundle tame_manifest
  tame_diagnose tame_cleanup_generation tame_random : tame.

(** ** Who is signalled *)

Section Signals.
Context {OS : Type} `{SessionOs OS} `{JsonText} `{JsonStream} (strerror : Z -> bytes) (env : Env) (getenv : bytes -> option bytes).

(** What was seen stays seen. *)
Lemma guarded_keeps {A} seen (m : act (service OS) A) (Q : list event -> A -> Prop) (P : list event -> Prop) :
  guarded seen m Q -> (forall l1 l2, P l1 -> P (l1 ++ l2)) -> P seen -> guarded seen m (fun l a => Q l a /\ P l).
Proof.
  intros Hm HP Hs s r s' E. destruct (Hm _ _ _ E) as (new & L & J & Hr). exists new. split; [done|]. split; [done|].
  intros a ->. split; [auto|by apply HP].
Qed.

Lemma request_seen seen path request timeout :
  guarded seen (uds_request strerror path request timeout) (fun l x => forall response, x = inr response -> Exchanged path request response ∈ l).
Proof.
  unfold uds_request. destruct (timeout <=? 0); [eapply guarded_weaken; [apply guarded_ret|by intros ? ? [-> ->]]|].
  destruct (socket_address path); [eapply guarded_weaken; [apply guarded_ret|by intros ? ? [-> ->]]|].
  eapply guarded_bind; [apply guarded_ask|]. intros l c _. eapply guarded_bind; [apply guarded_lift|]. intros l' [e|response] _.
  - eapply guarded_weaken; [apply guarded_ret|by intros ? ? [-> ->]].
  - eapply guarded_bind; [by apply guarded_event|]. intros l'' [] ->. eapply guarded_weaken; [apply guarded_ret|].
    intros l3 a [-> ->] ? [= ->]. apply elem_of_app. right. by left.
Qed.

Lemma ping_pinged seen c : guarded seen (endpoint_is_generation strerror c) (fun l b => b = true -> pinged c l).
Proof.
  unfold endpoint_is_generation. eapply (guarded_bind _ _ _ (fun l x => forall response, x = inr response ->
    Exchanged (si_socket_path c) (control_request (lit "server.ping")) response ∈ l)).
  - unfold endpoint_control. case_if; [eapply guarded_weaken; [apply guarded_ret|by intros ? ? [-> ->]]|apply request_seen].
  - intros l [e|response] Hx; [eapply guarded_weaken; [apply guarded_ret|by intros ? ? [-> ->]]|].
    eapply guarded_weaken; [apply guarded_lift|]. intros ? b [-> E] ->. exists response. auto.
Qed.
Lemma ping_seen seen c : guarded seen (endpoint_is_generation strerror c) (fun l b => b = true -> owned_by c l).
Proof. eapply guarded_weaken; [apply ping_pinged|]. intros l b Hl E. left. auto. Qed.

Lemma command_seen seen c : guarded seen (process_matches_generation c) (fun l b => b = true -> owned_by c l).
Proof.
  unfold process_matches_generation. eapply guarded_bind; [apply tame_running|]. intros l running _.
  case_if; [eapply guarded_weaken; [apply guarded_ret|by intros ? ? [-> ->]]|].
  eapply guarded_bind; [apply guarded_ask|]. intros l' [command|] ->; [|eapply guarded_weaken; [apply guarded_ret|by intros ? ? [-> ->]]].
  eapply guarded_bind; [by apply guarded_event|]. intros l'' [] ->. eapply guarded_weaken; [apply guarded_ret|].
  intros l3 b [-> ->] Hm. right. exists command. split; [|done]. apply elem_of_app. right. by left.
Qed.

Lemma signal_guarded seen pid signal : justified pid seen -> guarded seen (send_signal (OS := OS) pid signal) (fun l _ => justified pid l).
Proof.
  intros Hj. unfold send_signal. eapply guarded_bind; [apply guarded_event; by intros ?? [= <- <-]|]. intros l [] ->.
  eapply guarded_weaken; [apply guarded_ask|]. intros l' e ->. by apply justified_mono.
Qed.

(** The engine counts as stopped only when it was seen not to run. *)
Lemma running_seen seen pid : guarded seen (process_is_running (OS := OS) pid) (fun l b => b = false -> SawStopped pid ∈ l).
Proof.
  assert (forall seen b, guarded seen (running_or_logged (OS := OS) pid b) (fun l b => b = false -> SawStopped pid ∈ l)) as Hl.
  { intros seen' []; unfold running_or_logged; [eapply guarded_weaken; [apply guarded_ret|by intros ? ? [-> ->]]|].
    eapply guarded_bind; [by apply guarded_event|]. intros l [] ->. eapply guarded_weaken; [apply guarded_ret|]. intros ? ? [-> ->] _.
    apply elem_of_app. right. by left. }
  unfold process_is_running. case_if; [apply Hl|]. eapply guarded_bind; [apply guarded_ask|]. intros l child _. case_if; [apply Hl|].
  eapply guarded_bind; [apply guarded_ask|]. intros l' e _. apply Hl.
Qed.
Lemma wait_seen seen pid timeout : guarded seen (wait_process_exit (OS := OS) pid timeout) (fun l b => b = true -> SawStopped pid ∈ l).
Proof.
  unfold wait_process_exit. generalize (Z.to_nat ((timeout + 9) / 10)). intros n. revert seen. induction n as [|n IH]; intros seen; cbn [wait_polls];
    (eapply guarded_bind; [apply running_seen|]; intros l running Hr).
  - eapply guarded_weaken; [apply guarded_ret|]. intros ? ? [-> ->] E%negb_true_iff. auto.
  - destruct running; cbn [negb]; [eapply guarded_bind; [apply guarded_ask|]; intros; apply IH|].
    eapply guarded_weaken; [apply guarded_ret|]. intros ? ? [-> ->] _. auto.
Qed.

Lemma loaded_mono c l1 l2 : Loaded c ∈ l1 -> Loaded c ∈ l1 ++ l2.
Proof. intros Hl. apply elem_of_app. by left. Qed.

(** The signals of [stop_engine] go to the process of the record. *)
Lemma stop_with_seen seen signal c stopped owned : Loaded c ∈ seen ->
  (stopped = true -> SawStopped (server_pid c) ∈ seen) -> (owned = true -> owned_by c seen) ->
  guarded seen (stop_with (OS := OS) signal c stopped owned)
    (fun l b => (b = true -> SawStopped (server_pid c) ∈ l) /\ (owned = true -> owned_by c l) /\ Loaded c ∈ l).
Proof.
  intros Hld Hst Hown. eapply (guarded_keeps _ _ _ (fun l => (owned = true -> owned_by c l) /\ Loaded c ∈ l));
    [|intros ? ? [Hl1 Hl2]; split; [intros E; by apply owned_by_mono, Hl1|by apply loaded_mono]|done].
  unfold stop_with. destruct (negb stopped && owned) eqn:E.
  - apply andb_true_iff in E as [_ E]. eapply guarded_bind; [apply signal_guarded; right; exists c; auto|]. intros l e _.
    case_if; [apply wait_seen|]. eapply guarded_weaken; [apply guarded_ret|]. by intros ? ? [-> ->].
  - eapply guarded_weaken; [apply guarded_ret|]. by intros ? ? [-> ->].
Qed.

Lemma stop_engine_seen seen c force : Loaded c ∈ seen ->
  guarded seen (stop_engine strerror c force) (fun l b => b = true -> SawStopped (server_pid c) ∈ l).
Proof.
  intros Hld. unfold stop_engine. eapply (guarded_bind _ _ _ (fun l running => (negb running = true -> SawStopped (server_pid c) ∈ l) /\ Loaded c ∈ l)).
  { eapply guarded_keeps; [|apply loaded_mono|done]. eapply guarded_weaken; [apply running_seen|]. intros l b Hl E%negb_true_iff. auto. }
  clear Hld. intros l1 running [Hst1 Hld1].
  eapply (guarded_bind _ _ _ (fun l owned => (owned = true -> owned_by c l) /\ (negb running = true -> SawStopped (server_pid c) ∈ l) /\ Loaded c ∈ l)).
  { eapply (guarded_keeps _ _ _ (fun l => (negb running = true -> SawStopped (server_pid c) ∈ l) /\ Loaded c ∈ l)); [apply ping_seen| |done].
    intros ? ? [Hl1 Hl2]. split; [intros E; apply elem_of_app; left; auto|by apply loaded_mono]. }
  intros l2 owned (Ho & Hst2 & Hld2).
  eapply (guarded_bind _ _ _ (fun l stopped => (stopped = true -> SawStopped (server_pid c) ∈ l) /\ (owned = true -> owned_by c l) /\ Loaded c ∈ l)).
  { eapply (guarded_keeps _ _ _ (fun l => (owned = true -> owned_by c l) /\ Loaded c ∈ l));
      [|intros ? ? [Hl1 Hl2]; split; [intros E; by apply owned_by_mono, Hl1|by apply loaded_mono]|done]. unfold ask_to_quit. case_if.
    - eapply guarded_bind; [apply tame_control|]. intros l e _. apply wait_seen.
    - eapply guarded_weaken; [apply guarded_ret|]. intros ? ? [-> ->]. exact Hst2. }
  intros l3 stopped (Hst3 & Ho3 & Hld3).
  eapply (guarded_bind _ _ _ (fun l b => (b = true -> owned_by c l) /\ (stopped = true -> SawStopped (server_pid c) ∈ l) /\ Loaded c ∈ l)).
  { eapply (guarded_keeps _ _ _ (fun l => (stopped = true -> SawStopped (server_pid c) ∈ l) /\ Loaded c ∈ l));
      [|intros ? ? [Hl1 Hl2]; split; [intros E; apply elem_of_app; left; auto|by apply loaded_mono]|done]. destruct owned; [|apply command_seen].
    eapply guarded_weaken; [apply guarded_ret|]. intros l b [-> ->] _. auto. }
  intros l4 owned' (Ho4 & Hst4 & Hld4). eapply guarded_bind; [by apply stop_with_seen|]. intros l5 stopped' (H5 & Ho5 & Hld5).
  eapply guarded_weaken; [by apply stop_with_seen|]. by intros ? ? [? _].
Qed.

Lemma cleanup_guarded seen c force : Loaded c ∈ seen -> guarded seen (cleanup_managed_session strerror env c force) (fun _ _ => True).
Proof.
  intros Hld. unfold cleanup_managed_session. eapply (guarded_bind _ _ _ (fun l _ => Loaded c ∈ l)).
  { eapply guarded_weaken; [apply guarded_files|]. by intros ? ? ->. }
  intros l marked Hl. case_if; [apply tame_ret|]. eapply guarded_bind; [by apply stop_engine_seen|]. intros l' stopped _.
  case_if; [apply tame_ret|apply tame_cleanup_generation].
Qed.

(** What the registry gave is in the log. *)
Lemma load_seen seen id : guarded seen (load_session (OS := OS) env id) (fun l x => forall c, x = inr c -> Loaded c ∈ l).
Proof.
  unfold load_session. eapply guarded_bind; [apply guarded_files|]. intros l [r|c] _.
  - eapply guarded_weaken; [apply guarded_ret|]. by intros ? ? [-> ->].
  - eapply guarded_bind; [by apply guarded_event|]. intros l' [] ->. eapply guarded_weaken; [apply guarded_ret|].
    intros ? ? [-> ->] ? [= <-]. apply elem_of_app. right. by left.
Qed.
Lemma tame_load id : tame (load_session (OS := OS) env id).
Proof. intros seen. by eapply guarded_weaken; [apply load_seen|]. Qed.
#[local] Hint Resolve tame_load : tame.

Lemma fold_sessions_tame {A} (f : A -> SessionInfo -> act (service OS) A) acc l : (forall a s, tame (f a s)) -> tame (fold_sessions f acc l).
Proof. intros Hf. revert acc. induction l as [|s l IH]; intros acc; cbn [fold_sessions]; [apply tame_ret|]. apply tame_bind; auto. Qed.

Lemma remove_one_tame force acc snapshot : tame (remove_one strerror env force acc snapshot).
Proof.
  intros seen. unfold remove_one. cbv zeta. eapply guarded_bind; [apply tame_files|]. intros l locked _.
  eapply (guarded_bind _ _ _ (fun l x => forall c, x = inr c -> Loaded c ∈ l)).
  { destruct locked; [apply load_seen|]. eapply guarded_weaken; [apply guarded_ret|]. by intros ? ? [-> ->]. }
  intros l' [r|c] Hl; [apply tame_ret|]. case_if; [apply tame_ret|].
  eapply guarded_bind; [apply cleanup_guarded; by apply Hl|]. intros l'' removed _. apply tame_ret.
Qed.
Lemma remove_exact_tame request force id : tame (remove_exact strerror env request force id).
Proof.
  intros seen. unfold remove_exact. eapply guarded_bind; [apply tame_files|]. intros l locked _. case_if; [apply tame_ret|].
  eapply guarded_bind; [apply load_seen|]. intros l' [r|c] Hl; [apply tame_ret|].
  eapply guarded_bind; [apply guarded_lift|]. intros l2 token [-> _]. case_if; [apply tame_ret|].
  eapply guarded_bind; [apply cleanup_guarded; by apply Hl|]. intros l'' removed _. apply tame_ret.
Qed.
Lemma gc_one_tame acc snapshot : tame (gc_one strerror env acc snapshot).
Proof.
  intros seen. unfold gc_one. cbv zeta. eapply guarded_bind; [apply tame_files|]. intros l locked _. case_if; [apply tame_ret|].
  eapply guarded_bind; [apply load_seen|]. intros l' [r|c] Hl; [apply tame_ret|]. case_if; [apply tame_ret|]. specialize (Hl c eq_refl).
  eapply (guarded_bind _ _ _ (fun l _ => Loaded c ∈ l)).
  { eapply guarded_weaken; [eapply (guarded_keeps _ _ _ (fun l => Loaded c ∈ l)); [apply tame_diagnose|apply loaded_mono|done]|]. by intros ? ? [_ ?]. }
  intros l2 h Hl2. case_if; [apply tame_ret|]. eapply guarded_bind; [by apply cleanup_guarded|]. intros l'' removed _. apply tame_ret.
Qed.
#[local] Hint Resolve remove_exact_tame : tame.

Lemma remove_tame request force : tame (remove_session strerror env request force).
Proof. unfold remove_session, remove_all. tame. apply fold_sessions_tame. intros acc0 s0. apply remove_one_tame. Qed.
Lemma gc_tame : tame (gc_sessions strerror env).
Proof. unfold gc_sessions. tame. apply fold_sessions_tame. intros acc0 s0. apply gc_one_tame. Qed.

(** ** Opening *)

Definition started (pid : Z) (l : list event) : Prop := exists argv, Started pid argv ∈ l.
Lemma started_mono pid l1 l2 : started pid l1 -> started pid (l1 ++ l2).
Proof. intros [argv Ha]. exists argv. apply elem_of_app. by left. Qed.
Lemma started_justified pid l : started pid l -> justified pid l.
Proof. intros Hl. by left. Qed.

Lemma spawn_seen seen c design : guarded seen (spawn_uds_engine (OS := OS) c design) (fun l child => 0 < child -> started child l).
Proof.
  unfold spawn_uds_engine. eapply guarded_bind; [unfold self_executable; eapply guarded_bind; [apply guarded_ask|]; intros; apply tame_ret|].
  intros l executable _. case_if; [eapply guarded_weaken; [apply guarded_ret|]; intros l' a [-> ->]; lia|].
  eapply guarded_bind; [apply guarded_ask|]. intros l' child ->. destruct (Z.ltb_spec 0 child).
  - eapply guarded_bind; [by apply guarded_event|]. intros l' [] ->. eapply guarded_weaken; [apply guarded_ret|]. intros l'' a [-> ->] _.
    eexists. apply elem_of_app. right. by left.
  - eapply guarded_bind; [apply guarded_ret|]. intros l' [] _. eapply guarded_weaken; [apply guarded_ret|]. intros l'' a [-> ->]. lia.
Qed.

Lemma kill_child_guarded seen child : started child seen -> guarded seen (kill_child (OS := OS) child) (fun _ _ => True).
Proof.
  intros Hs. unfold kill_child. eapply guarded_bind; [by apply signal_guarded, started_justified|]. intros l e _.
  eapply guarded_bind; [apply guarded_ask|]. intros. apply tame_ret.
Qed.

Definition if_open {A} (Q : list event -> A -> Prop) (l : list event) (x : json + A) : Prop := match x with inl _ => True | inr a => Q l a end.

Lemma cleanup_stop_guarded {A} seen c error Q :
  guarded seen ((_ ← run_step (cleanup_generation env c); stop error) : trial json (service OS) A) (if_open Q).
Proof.
  eapply (guarded_trial_bind _ _ _ (fun _ _ => True)); [eapply guarded_run_step; [apply tame_cleanup_generation|done]|].
  intros l b _ s r s' [= <- <-]. exists []. rewrite !app_nil_r. split; [done|]. split; [apply justified_from_nil|]. by intros ? [= <-].
Qed.

Lemma start_engine_guarded seen c design :
  guarded seen (start_engine env c design : act (service OS) (json + SessionInfo)) (if_open (fun l s => started (server_pid s) l)).
Proof.
  unfold start_engine. eapply (guarded_trial_bind _ _ _ (fun l child => 0 < child -> started child l)).
  { eapply guarded_run_step; [apply spawn_seen|done]. }
  intros l child Hc. destruct (Z.leb_spec child 0) as [|Hp].
  { apply cleanup_stop_guarded. }
  specialize (Hc Hp). eapply (guarded_trial_bind _ _ _ (fun l' _ => started child l')).
  { eapply guarded_run_step; [eapply (guarded_keeps _ _ _ (started child)); [apply guarded_files|apply started_mono|done]|]. by intros ? ? [_ ?]. }
  clear seen l Hc. intros l updated Hc. case_if.
  - eapply (guarded_trial_bind _ _ _ (fun _ _ => True)); [eapply guarded_run_step; [by apply kill_child_guarded|done]|].
    intros l' [] _. apply cleanup_stop_guarded.
  - intros s r s' [= <- <-]. exists []. rewrite !app_nil_r. split; [done|]. split; [apply justified_from_nil|]. by intros ? [= <-].
Qed.

Lemma abandon_guarded {A} seen c error : started (server_pid c) seen -> guarded seen (abandon strerror env c error : act (service OS) (json + A)) (fun _ _ => True).
Proof.
  intros Hs. unfold abandon. eapply (guarded_trial_bind _ _ _ (fun l _ => started (server_pid c) l)).
  { eapply guarded_run_step; [eapply (guarded_keeps _ _ _ (started (server_pid c))); [apply tame_control|apply started_mono|done]|]. by intros ? ? [_ ?]. }
  intros l e Hl. eapply (guarded_trial_bind _ _ _ (fun _ _ => True)); [eapply guarded_run_step; [by apply kill_child_guarded|done]|].
  intros l' [] _. revert l'. match goal with |- forall l, guarded l ?m _ => change (tame (OS := OS) m) end. tame.
Qed.

Lemma await_tame n child c : tame (await_ready strerror n child c).
Proof. induction n; cbn [await_ready]; tame. Qed.

Lemma reap_guarded seen child o : started child seen -> guarded seen (reap_child (OS := OS) child o) (fun _ _ => True).
Proof.
  intros Hs. assert (guarded seen (alive ← ask (os_kill child 0);
      _ ← (if decide (alive = None) then _ ← send_signal child SIGKILL; mret tt else mret tt);
      waited ← ask (os_waitpid child false); mret (default 0 (snd waited))) (fun _ _ => True)) as Hg.
  { eapply guarded_bind; [apply guarded_ask|]. intros l alive ->. eapply (guarded_bind _ _ _ (fun _ _ => True)).
    - case_decide; [|apply tame_ret]. eapply guarded_bind; [by apply signal_guarded, started_justified|]. intros. apply tame_ret.
    - intros l [] _. eapply guarded_bind; [apply guarded_ask|]. intros. apply tame_ret. }
  destruct o; [exact Hg|apply tame_ret|exact Hg].
Qed.

Lemma await_engine_guarded seen timeout c : started (server_pid c) seen ->
  guarded seen (await_engine strerror env timeout c : act (service OS) (json + unit)) (fun l _ => started (server_pid c) l).
Proof.
  intros Hs. eapply guarded_weaken; [eapply (guarded_keeps _ _ (fun _ _ => True) (started (server_pid c)))|by intros ? ? [_ ?]]; [|apply started_mono|done].
  unfold await_engine. eapply (guarded_trial_bind _ _ _ (fun l _ => started (server_pid c) l)).
  { eapply guarded_run_step; [eapply (guarded_keeps _ _ _ (started (server_pid c))); [apply await_tame|apply started_mono|done]|]. by intros ? ? [_ ?]. }
  intros l o Hl. assert (guarded l ((status_ ← run_step (reap_child (server_pid c) o); _ ← run_step (cleanup_generation env c);
      stop (not_ready timeout o status_)) : trial json (service OS) unit) (fun _ _ => True)) as Hg.
  { eapply (guarded_trial_bind _ _ _ (fun _ _ => True)); [eapply guarded_run_step; [by apply reap_guarded|done]|]. intros l' st _. revert l'.
    match goal with |- forall l, guarded l ?m _ => change (tame (OS := OS) m) end. tame. }
  destruct o; [apply tame_trial_ret|exact Hg..].
Qed.

Lemma publish_guarded seen c : started (server_pid c) seen ->
  guarded seen (publish_session strerror env c : act (service OS) (json + SessionInfo)) (fun _ _ => True).
Proof.
  intros Hs. unfold publish_session. eapply (guarded_trial_bind _ _ _ (fun l _ => started (server_pid c) l)).
  { eapply guarded_run_step; [eapply (guarded_keeps _ _ (fun _ _ => True) (started (server_pid c))); [|apply started_mono|done]|by intros ? ? [_ ?]].
    assert (tame (OS := OS) (resources_changed c)) as Ht by (unfold resources_changed, current_print; tame). apply Ht. }
  intros l changed Hl. case_if; [by apply abandon_guarded|].
  eapply (guarded_trial_bind _ _ _ (fun l _ => started (server_pid c) l)).
  { eapply guarded_run_step; [apply guarded_ask|]. by intros ? ? ->. }
  intros l' now Hl'. eapply (guarded_trial_bind _ _ _ (fun l _ => started (server_pid c) l)).
  { eapply guarded_run_step; [apply guarded_files|]. by intros ? ? ->. }
  intros l2 finalized Hl2. case_if; [by apply abandon_guarded|apply tame_trial_ret].
Qed.

Lemma open_tame request : tame (open_session strerror env getenv request).
Proof.
  intros seen. apply guarded_answered. unfold open_session.
  assert (forall seen, forall {A B} (m : trial json (service OS) A) (f : A -> trial json (service OS) B), tame (m : act (service OS) (json + A)) ->
    (forall l a, guarded l (f a : act (service OS) (json + B)) (fun _ _ => True)) -> guarded seen (m ≫= f : act (service OS) (json + B)) (fun _ _ => True)) as Hb.
  { intros seen' A B m f Hm Hf. eapply (guarded_trial_bind _ _ _ (fun _ _ => True)); [eapply guarded_weaken; [apply Hm|]; by intros ? []|]. auto. }
  apply Hb; [unfold open_request; tame|]. intros l1 r. apply Hb; [unfold new_record; tame|]. intros l2 s.
  apply Hb; [unfold open_design; tame|]. intros l3 [s2 design]. apply Hb; [unfold open_waveform; tame|]. intros l4 s3.
  apply Hb; [unfold open_manifest; tame|]. intros l5 details. apply Hb; [unfold reserve_session; tame|]. intros l6 before.
  eapply (guarded_trial_bind _ _ _ (fun l s => started (server_pid s) l)); [eapply guarded_weaken; [apply start_engine_guarded|]; by intros ? []|].
  intros l7 s4 Hs. eapply (guarded_trial_bind _ _ _ (fun l _ => started (server_pid s4) l));
    [eapply guarded_weaken; [by apply await_engine_guarded|]; by intros l []|]. intros l8 [] Hs'.
  eapply (guarded_trial_bind _ _ _ (fun _ _ => True)); [eapply guarded_weaken; [by apply publish_guarded|]; by intros ? []|]. intros l9 s5 _. apply tame_trial_ret.
Qed.

(** C8: the session service signals only processes it has a right to: whatever
    the request, the files, the other processes and the peers of the sockets do,
    each signal a request sends goes to an engine that the same request has
    started before, or to the process of a session record that the request has
    read from the registry and that before the signal has proved to be that
    session's own engine, by an answer to a ping on the record's socket with the
    record's generation or by a command line of that process with the program's
    name, the record's session and its generation. *)
Theorem signals_justified request (s : service OS) :
  exists new, sv_log (snd (handle_frontend_session_action strerror env getenv request s)) = sv_log s ++ new /\
    forall l1 pid signal l2, new = l1 ++ Signalled pid signal :: l2 ->
      (exists argv, Started pid argv ∈ l1) \/ (exists c, Loaded c ∈ l1 /\ server_pid c = pid /\ owned_by c l1).
Proof.
  assert (tame (handle_frontend_session_action strerror env getenv request)) as Ht.
  { unfold handle_frontend_session_action. apply tame_bind; [apply tame_lift|]. intros action.
    repeat (case_if; [solve [apply open_tame|unfold list_sessions; tame|unfold doctor_session; tame|apply remove_tame|apply gc_tame]|]). apply tame_ret. }
  destruct (handle_frontend_session_action strerror env getenv request s) as [r s'] eqn:E. destruct (Ht [] _ _ _ E) as (new & L & J & _). exists new. split; [done|]. intros l1 pid signal l2 En. exact (J _ _ _ _ En).
Qed.
End Signals.

(** ** Removing *)

Section Removal.
Context {OS : Type} `{SessionOs OS} {JT : JsonText} {HL : JsonTextLaws} `{JsonStream} (strerror : Z -> bytes) (env : Env).

(** Steps that leave the registry alone. *)
Definition apart {A} (m : act (service OS) A) : Prop := forall s r s', m s = (r, s') -> sv_files s' = sv_files s.

Lemma apart_ret {A} (a : A) : apart (mret a).
Proof. by intros s r s' [= <- <-]. Qed.
Lemma apart_lift {A} (r : res A) : apart (lift r).
Proof. by intros s r' s' [= <- <-]. Qed.
Lemma apart_ask {A} (f : OS -> A * OS) : apart (ask f).
Proof. intros s r s'. unfold ask. destruct (f (sv_os s)). by intros [= <- <-]. Qed.
Lemma apart_event e : apart (record_event e).
Proof. by intros s r s' [= <- <-]. Qed.
Lemma apart_bind {A B} (m : act (service OS) A) (f : A -> act (service OS) B) : apart m -> (forall a, apart (f a)) -> apart (m ≫= f).
Proof.
  intros Hm Hf s r s' E. unfold mbind, act_bind in E. destruct (m s) as [[a| |t] s1] eqn:E1; pose proof (Hm _ _ _ E1) as E2.
  - by rewrite (Hf a _ _ _ E).
  - by injection E as <- <-.
  - by injection E as <- <-.
Qed.
End Removal.

Create HintDb apart.
#[export] Hint Resolve apart_ret apart_lift apart_ask apart_event : apart.
Ltac apart :=
  repeat match goal with
  | |- forall _, _ => intro
  | |- apart (@mbind (act _) _ _ _ _ _) => apply apart_bind
  | |- apart (match ?x with _ => _ end) => destruct x
  | |- apart _ => solve [eauto with apart nocore]
  end.

Section RemovalSteps.
Context {OS : Type} `{SessionOs OS} {JT : JsonText} {HL : JsonTextLaws} `{JsonStream} (strerror : Z -> bytes) (env : Env).

Lemma apart_control c action : apart (endpoint_control strerror c action).
Proof. unfold endpoint_control, uds_request. apart. Qed.
Lemma apart_ping c : apart (endpoint_is_generation strerror c).
Proof. unfold endpoint_is_generation, endpoint_control, uds_request. apart. Qed.
Lemma apart_running pid : apart (process_is_running pid).
Proof. unfold process_is_running, running_or_logged. apart. Qed.
#[local] Hint Resolve apart_control apart_ping apart_running : apart.
Lemma apart_wait pid timeout : apart (wait_process_exit pid timeout).
Proof. unfold wait_process_exit. generalize (Z.to_nat ((timeout + 9) / 10)). intros n. induction n; cbn [wait_polls]; apart. Qed.
Lemma apart_matches c : apart (process_matches_generation c).
Proof. unfold process_matches_generation. apart. Qed.
#[local] Hint Resolve apart_wait apart_matches : apart.
Lemma apart_stop_with signal c stopped owned : apart (stop_with signal c stopped owned).
Proof. unfold stop_with, send_signal. apart. Qed.
#[local] Hint Resolve apart_stop_with : apart.
Lemma apart_stop_engine c force : apart (stop_engine strerror c force).
Proof. unfold stop_engine, ask_to_quit. apart. Qed.
End RemovalSteps.

Section RemovalEffect.
Context {OS : Type} `{SessionOs OS} {JT : JsonText} {HL : JsonTextLaws} `{JsonStream} (strerror : Z -> bytes) (env : Env).

Lemma cleanup_generation_effect c (st : service OS) r st' g :
  stored env (sv_files st) (session_id c) = Some g -> generation g = generation c -> cleanup_generation env c st = (r, st') ->
  (forall id, id <> session_id c -> stored env (sv_files st') id = stored env (sv_files st) id) /\
  (stored env (sv_files st') (session_id c) = Some g /\ r <> Ret true \/
   stored env (sv_files st') (session_id c) = None /\ archived env (sv_files st') (session_id c) (generation c) g).
Proof.
  intros Hs Hg E. unfold cleanup_generation in E. unfold mbind, act_bind, on_files in E.
  destruct (artifact_removal_guarded env (session_id c) (generation c) (sv_files st)) as (b & w1 & E1 & _ & _ & Hk & _). rewrite E1 in E.
  assert (forall id, stored env w1 id = stored env (sv_files st) id) as Hw1.
  { intros id. apply stored_same. rewrite state_in_session. apply Hk. repeat constructor. }
  destruct b; cbn [negb] in E; [|injection E as <- <-; cbn [sv_files]; split; [by intros; apply Hw1|]; left; by rewrite Hw1].
  cbn [sv_files] in E. destruct (remove_if_generation env (session_id c) (generation c) w1) as [w2 r2] eqn:E2.
  apply remove_spec in E2 as [[Hoff Heff] Ha]. assert (sv_files st' = w2 /\ (forall x, r2 = Some x -> r = Ret (ok x)) /\ (r2 = None -> r <> Ret true)) as (-> & Hr & Hn)
    by (destruct r2; injection E as <- <-; split_and!; cbn; try done; by intros ? [= ->]).
  split; [intros id Hid; rewrite Hoff by done; apply Hw1|]. cbn [op_id] in Heff. rewrite Hw1, Hs in Heff. destruct Heff as [Ht|[Hst Hf]].
  - right. assert (stored env w2 (session_id c) = None) as Hn0 by (remember (stored env w2 (session_id c)) as o; by inversion Ht).
    split; [done|]. apply Ha; [by rewrite Hw1|done].
  - left. split; [done|]. destruct r2 as [x|]; [|by apply Hn]. rewrite (Hr x) by done. specialize (Hf x eq_refl). intros [= Hok].
    unfold ok in Hok. by apply bool_decide_eq_true in Hok.
Qed.

(** What [retained] is: the record with its life cycle closed. *)
Lemma retained_ok c : session_ok c -> session_ok (with_lifecycle (lit "cleanup_failed") c).
Proof.
  intros [Hn Hg Ho Hr Hl Hres Hsv Ht]. constructor; try done; [by destruct Hr; constructor|by apply cleanup_failed_ok|by destruct Hres; constructor|].
  destruct Ht; [by apply uds_ok|apply tcp_ok; try done|by apply file_ok].
  match goal with Hp : _ \/ _ |- _ => destruct Hp as [|[_ Hp]]; [by left|]; right; by split end.
Qed.

(** Removing a session keeps its evidence: under every schedule of file
    failures and every behaviour of the engine, the clean-up of a stored
    generation leaves all other sessions as they were; it reports success only
    when the engine was seen not to run, the record is gone and a closed copy is
    in the history of the session; and when it does not, the registry still has
    a record of that generation, as it was or marked as a failed clean-up, or
    the closed copy is in the history. *)
Theorem cleanup_keeps_evidence c force (s : service OS) r s' g :
  session_ok c -> stored env (sv_files s) (session_id c) = Some g -> generation g = generation c ->
  cleanup_managed_session strerror env c force s = (r, s') ->
  let retained := with_lifecycle (lit "cleanup_failed") c in
  let gone := stored env (sv_files s') (session_id c) = None /\ archived env (sv_files s') (session_id c) (generation c) retained in
  (forall id, id <> session_id c -> stored env (sv_files s') id = stored env (sv_files s) id) /\
  (r = Ret true -> gone /\ exists new, sv_log s' = sv_log s ++ new /\ SawStopped (server_pid c) ∈ new) /\
  (r <> Ret true -> stored env (sv_files s') (session_id c) ∈ [Some g; Some retained] \/ gone).
Proof.
  intros Hok Hs Hg E retained gone. unfold cleanup_managed_session in E. fold retained in E. unfold mbind at 1, act_bind at 1, on_files at 1 in E.
  destruct (mark_cleanup_failed env retained (generation c) (sv_files s)) as [w1 r1] eqn:E1.
  apply (run_op_effect env (MarkCleanup retained (generation c))) in E1 as [Hoff Heff]; [|by apply retained_ok].
  cbn [op_id] in Hoff, Heff. change (session_id retained) with (session_id c) in Hoff, Heff. rewrite Hs in Heff.
  assert (stored env w1 (session_id c) ∈ [Some g; Some retained]) as Hw1.
  { destruct Heff as [Ht| [-> _]]; [inversion Ht; subst; set_solver|set_solver]. }
  destruct r1 as [marked|]; [|injection E as <- <-; cbn [sv_files]; split_and!; [done|done|by left]].
  destruct (ok marked) eqn:Em; cbn [negb] in E; [|injection E as <- <-; cbn [sv_files]; split_and!; [done|done|by left]].
  assert (stored env w1 (session_id c) = Some retained) as Hret.
  { destruct Heff as [Ht|[_ Hf]]; [by inversion Ht|]. specialize (Hf marked eq_refl). unfold ok in Em. by apply bool_decide_eq_true in Em. }
  unfold mbind, act_bind in E. destruct (stop_engine strerror c force (MkService w1 (sv_os s) (sv_log s))) as [r2 s2] eqn:E2.
  pose proof (apart_stop_engine strerror c force _ _ _ E2) as Hf2. cbn [sv_files] in Hf2.
  destruct (stop_engine_seen strerror [Loaded c] c force (list_elem_of_here _ _) _ _ _ E2) as (new & L & _ & Hst). cbn [sv_log app] in L, Hst.
  assert (forall y, s2 = s' -> y <> Ret true -> (forall id, id <> session_id c -> stored env (sv_files s') id = stored env (sv_files s) id) /\
    (y = Ret true -> gone /\ exists new, sv_log s' = sv_log s ++ new /\ SawStopped (server_pid c) ∈ new) /\
    (y <> Ret true -> stored env (sv_files s') (session_id c) ∈ [Some g; Some retained] \/ gone)) as Hstay.
  { intros y <- Hy. rewrite Hf2. split_and!; [done|done|by left]. }
  destruct r2 as [stopped| |t]; [|injection E as <- <-; by apply Hstay..]. destruct stopped; cbn [negb] in E; [|injection E as <- <-; by apply Hstay].
  pose proof (cleanup_generation_effect retained s2 r s' retained) as He. rewrite Hf2 in He. specialize (He Hret eq_refl E) as [Hoff' Heff'].
  change (session_id retained) with (session_id c) in *. change (generation retained) with (generation c) in *.
  split; [intros id Hid; by rewrite Hoff', Hoff|].
  assert (exists new', sv_log s' = sv_log s2 ++ new') as [new' L'] by (destruct (tame_cleanup_generation env retained [] _ _ _ E) as (n & Ln & _); by exists n).
  split.
  - intros ->. destruct Heff' as [[_ ?]|Hgone]; [done|]. split; [exact Hgone|]. exists (new ++ new'). rewrite L', L, app_assoc.
    split; [done|]. apply elem_of_app. left. specialize (Hst true eq_refl eq_refl). by apply elem_of_cons in Hst as [?|?].
  - intros _. destruct Heff' as [[-> _]|Hgone]; [left; set_solver|by right].
Qed.
End RemovalEffect.

(** ** Opening: steps that leave every record as it is *)

Section Calm.
Context {OS : Type} `{SessionOs OS} {JT : JsonText} {HL : JsonTextLaws} `{JsonStream} (strerror : Z -> bytes) (env : Env) (getenv : bytes -> option bytes).

Definition still (w w' : world) : Prop := forall id, stored env w' id = stored env w id.
#[global] Instance still_preorder : PreOrder still.
Proof. split; [done|]. intros a b c H1' H2' id. by rewrite H2'. Qed.
Lemma keeps_still w w' : keeps_sessions env w w' -> still w w'.
Proof. intros K id. apply stored_same. rewrite state_in_session. apply K. Qed.
Lemma files_still w w' : files w' = files w -> still w w'.
Proof. intros E id. apply stored_same. by rewrite E. Qed.

Definition calm {A} (m : act (service OS) A) : Prop := forall s r s', m s = (r, s') -> still (sv_files s) (sv_files s').
Definition calm_io {A} (c : io A) : Prop := forall w w' r, c w = (w', r) -> still w w'.

Lemma calm_apart {A} (m : act (service OS) A) : apart m -> calm m.
Proof. intros Hm s r s' E. apply files_still. by rewrite (Hm _ _ _ E). Qed.
Lemma calm_files {A} (c : io A) : calm_io c -> calm (on_files c).
Proof. intros Hc s r s'. unfold on_files. destruct (c (sv_files s)) as [w [a|]] eqn:E; intros [= <- <-]; by eapply Hc. Qed.
Lemma calm_io_bind {A B} (c : io A) (f : A -> io B) : calm_io c -> (forall a, calm_io (f a)) -> calm_io (ibind c f).
Proof.
  intros Hc Hf w w' r. unfold ibind. destruct (c w) as [w1 [a|]] eqn:E; intros E'.
  - etransitivity; [by eapply Hc|by eapply Hf].
  - injection E' as <- <-. by eapply Hc.
Qed.
Lemma calm_io_quiet {A} (c : io A) : quiet c -> calm_io c.
Proof. intros Hq w w' r E. destruct (Hq w) as (a & w1 & E1 & [Hf _]). rewrite E in E1. injection E1 as -> ->. by apply files_still. Qed.
Lemma calm_bind {A B} (m : act (service OS) A) (f : A -> act (service OS) B) : calm m -> (forall a, calm (f a)) -> calm (m ≫= f).
Proof.
  intros Hm Hf s r s' E. unfold mbind, act_bind in E. destruct (m s) as [[a| |t] s1] eqn:E1; pose proof (Hm _ _ _ E1) as E2.
  - etransitivity; [exact E2|by eapply Hf].
  - by injection E as <- <-.
  - by injection E as <- <-.
Qed.
Lemma calm_trial_bind {E A B} (m : trial E (service OS) A) (f : A -> trial E (service OS) B) :
  calm (m : act (service OS) (E + A)) -> (forall a, calm (f a : act (service OS) (E + B))) -> calm (m ≫= f : act (service OS) (E + B)).
Proof.
  intros Hm Hf s r s' E'. unfold mbind, trial_bind in E'. destruct (m s) as [[[e|a]| |t] s1] eqn:E1; pose proof (Hm _ _ _ E1) as E2.
  - by injection E' as <- <-.
  - etransitivity; [exact E2|by eapply Hf].
  - by injection E' as <- <-.
  - by injection E' as <- <-.
Qed.
Lemma calm_run_step {E A} (m : act (service OS) A) : calm m -> calm (run_step m : act (service OS) (E + A)).
Proof. intros Hm s r s'. unfold run_step. destruct (m s) as [r1 s1] eqn:E1. intros [= <- <-]. by eapply Hm. Qed.
Lemma calm_pure_step {E A} (r : res A) : calm (pure_step r : act (service OS) (E + A)).
Proof. by intros s r' s' [= <- <-]. Qed.
Lemma calm_stop {E A} (e : E) : calm (stop e : act (service OS) (E + A)).
Proof. by intros s r' s' [= <- <-]. Qed.
Lemma calm_trial_ret {E A} (a : A) : calm (mret (M := trial E (service OS)) a : act (service OS) (E + A)).
Proof. by intros s r' s' [= <- <-]. Qed.
Lemma calm_ret {A} (a : A) : calm (mret a).
Proof. by intros s r s' [= <- <-]. Qed.
Lemma calm_ask {A} (f : OS -> A * OS) : calm (ask f).
Proof. apply calm_apart, apart_ask. Qed.
Lemma calm_lift {A} (r : res A) : calm (lift r).
Proof. apply calm_apart, apart_lift. Qed.

(** *** The registry operations that change no record *)

Lemma lock_not_state id id' : xdebug_design_session_lifecycle_lock_path env id <> xdebug_design_session_state_path env id'.
Proof.
  unfold xdebug_design_session_lifecycle_lock_path, xdebug_design_lifecycle_locks_dir, xdebug_design_session_state_path, xdebug_design_session_dir,
    tool_session_dir, tool_sessions_dir, xdebug_design_home_dir. rewrite <- !app_assoc. intros E. by apply app_inv_head in E.
Qed.
Lemma calm_lease id : calm_io (acquire_lease env id).
Proof.
  unfold acquire_lease. apply calm_io_bind; [apply calm_io_quiet; unfold xdebug_design_ensure_home; auto with quiet|]. intros [].
  2: by intros w w' r [= <- <-].
  apply calm_io_bind; [|intros [e|]; [by intros w w' r [= <- <-]|apply calm_io_quiet; auto with quiet]].
  intros w w' r E id'. apply stored_same. apply open_create_off in E as (? & ? & Hoff & _). apply Hoff. intros Hp. by eapply lock_not_state.
Qed.

Lemma calm_get id : calm_io (get env id).
Proof. intros w w' r E. apply read_one_spec in E as (x & _ & K & _). by apply keeps_still. Qed.

Lemma calm_parse path : calm_io (parse_record_file path).
Proof. intros w w' r E. apply (parse_file_spec env) in E as (x & _ & K & _). by apply keeps_still. Qed.
Lemma calm_merge path s : calm_io (merge_activity path s).
Proof. intros w w' r E. apply (merge_spec env) in E as (t & _ & K & _). by apply keeps_still. Qed.
Lemma calm_entries entries sessions : calm_io (load_entries env entries sessions).
Proof.
  revert sessions. induction entries as [|name entries IH]; intros sessions; cbn [load_entries];
    (apply calm_io_bind; [apply calm_io_quiet; auto with quiet|]; intros e; case_decide; [|by intros w w' r [= <- <-]]).
  - by intros w w' r [= <- <-].
  - case_if; [apply IH|]. apply calm_io_bind; [apply calm_parse|]. intros [x|s]; [apply IH|].
    apply calm_io_bind; [apply calm_merge|]. intros s'. apply IH.
Qed.
Lemma calm_load_all : calm_io (load_all env).
Proof.
  unfold load_all. apply calm_io_bind.
  { intros w w' r E. apply legacy_spec in E as (leg & _ & K & _). by apply keeps_still. }
  intros legacy. case_if; [by intros w w' r [= <- <-]|]. intros w w' r. case_decide; [|by intros [= <- <-]].
  revert w' r. match goal with |- forall w' r, ?c w = _ -> _ => enough (calm_io c) as Hc by apply Hc end.
  apply calm_io_bind; [apply calm_io_quiet; auto with quiet|]. intros opened. case_decide; [|by intros ? ? ? [= <- <-]].
  apply calm_io_bind; [apply calm_entries|]. intros x. apply calm_io_bind; [apply calm_io_quiet; auto with quiet|]. intros closed.
  case_if; by intros ? ? ? [= <- <-].
Qed.
Lemma calm_marker id g : calm_io (xdebug_design_write_generation_marker env id g).
Proof.
  intros w w' r E id'. pose proof (generation_marker_atomic env id g w) as Hm. rewrite E in Hm. destruct Hm as (b & _ & Hoff & _).
  apply stored_same, Hoff; unfold xdebug_design_generation_marker_path; rewrite state_in_session.
  - change (xdebug_design_session_dir env id ++ lit "/generation") with (in_session env id (lit "generation")). by intros [_ ?]%in_session_inj.
  - change (temp_name (xdebug_design_session_dir env id ++ lit "/generation") g) with (temp_name (in_session env id (lit "generation")) g).
    rewrite temp_in_session. by intros [_ ?]%in_session_inj.
Qed.
Lemma calm_random : calm random_hex_256.
Proof.
  unfold random_hex_256. apply calm_bind; [apply calm_ask|]. intros entropy. apply calm_files.
  apply calm_io_bind; [apply calm_io_quiet; auto with quiet|]. intros fd. case_decide; [|by intros ? ? ? [= <- <-]].
  apply calm_io_bind. { intros w w' r. unfold read_random_bytes. destruct (read_random _ _). by intros [= <- <-]. }
  intros got. apply calm_io_bind; [apply calm_io_quiet; auto with quiet|]. by intros closed ? ? ? [= <- <-].
Qed.
End Calm.

(** ** What a step returns *)

Section Returns.
Context {OS : Type} `{SessionOs OS}.

Definition returns {A} (m : act (service OS) A) (P : A -> Prop) : Prop := forall s a s', m s = (Ret a, s') -> P a.

Lemma returns_any {A} (m : act (service OS) A) : returns m (fun _ => True).
Proof. by intros s a s' _. Qed.
Lemma returns_ret {A} (a : A) (P : A -> Prop) : P a -> returns (mret a) P.
Proof. by intros Hp s b s' [= <- <-]. Qed.
Lemma returns_lift {A} (r : res A) : returns (lift r) (fun a => r = Ret a).
Proof. by intros s b s' [= <- <-]. Qed.
Lemma returns_ask {A} (f : OS -> A * OS) (P : A -> Prop) : (forall o, P (fst (f o))) -> returns (ask f) P.
Proof. intros Hf s a s'. unfold ask. specialize (Hf (sv_os s)). destruct (f (sv_os s)). by intros [= <- <-]. Qed.
Lemma returns_bind {A B} (m : act (service OS) A) (f : A -> act (service OS) B) P Q :
  returns m P -> (forall a, P a -> returns (f a) Q) -> returns (m ≫= f) Q.
Proof.
  intros Hm Hf s b s' E. unfold mbind, act_bind in E. destruct (m s) as [[a| |t] s1] eqn:E1; [|done..]. eapply Hf; [by eapply Hm|done].
Qed.
Lemma returns_then {A B} (m : act (service OS) A) (f : A -> act (service OS) B) Q : (forall a, returns (f a) Q) -> returns (m ≫= f) Q.
Proof. intros Hf. eapply returns_bind; [apply returns_any|]. auto. Qed.
Lemma returns_trial_bind {E A B} (m : trial E (service OS) A) (f : A -> trial E (service OS) B) P (Q : E + B -> Prop) :
  returns (m : act (service OS) (E + A)) (fun x => match x with inl e => Q (inl e) | inr a => P a end) ->
  (forall a, P a -> returns (f a : act (service OS) (E + B)) Q) -> returns (m ≫= f : act (service OS) (E + B)) Q.
Proof.
  intros Hm Hf s b s' E'. unfold mbind, trial_bind in E'. destruct (m s) as [[[e|a]| |t] s1] eqn:E1; [| |done..].
  - injection E' as <- <-. by apply (Hm _ _ _ E1).
  - eapply Hf; [by apply (Hm _ _ _ E1)|done].
Qed.
Lemma returns_run_step {E A} (m : act (service OS) A) (P : A -> Prop) (Q : E + A -> Prop) :
  returns m P -> (forall a, P a -> Q (inr a)) -> returns (run_step m : act (service OS) (E + A)) Q.
Proof.
  intros Hm HQ s x s'. unfold run_step. destruct (m s) as [[a| |t] s1] eqn:E1; cbn; [|done..]. intros [= <- <-]. apply HQ. by eapply Hm.
Qed.
Lemma returns_pure_step {E A} (r : res A) (Q : E + A -> Prop) : (forall a, r = Ret a -> Q (inr a)) -> returns (pure_step r : act (service OS) (E + A)) Q.
Proof. intros HQ s x s'. unfold pure_step. destruct r; cbn; [|done..]. intros [= <- <-]. auto. Qed.
Lemma returns_stop {E A} (e : E) (Q : E + A -> Prop) : Q (inl e) -> returns (stop e : act (service OS) (E + A)) Q.
Proof. by intros HQ s x s' [= <- <-]. Qed.
Lemma returns_trial_ret {E A} (a : A) (Q : E + A -> Prop) : Q (inr a) -> returns (mret (M := trial E (service OS)) a : act (service OS) (E + A)) Q.
Proof. by intros HQ s x s' [= <- <-]. Qed.
Lemma returns_weaken {A} (m : act (service OS) A) (P Q : A -> Prop) : returns m P -> (forall a, P a -> Q a) -> returns m Q.
Proof. intros Hm HQ s a s' E. apply HQ. by eapply Hm. Qed.
End Returns.

(** ** Opening: what happens to the slot of the session *)

Section Fresh.
Context {OS : Type} `{SessionOs OS} {JT : JsonText} {HL : JsonTextLaws} `{JsonStream} (strerror : Z -> bytes) (env : Env) (getenv : bytes -> option bytes).

(** From [w0], where [id] had no record, only [id] has changed, and a record
    it has is of generation [g]. *)
Definition fresh (w0 : world) (id g : bytes) (w : world) : Prop :=
  (forall id', id' <> id -> stored env w id' = stored env w0 id') /\ stored env w0 id = None /\ forall c, stored env w id = Some c -> generation c = g.

Lemma fresh_still w0 id g w w' : still env w w' -> fresh w0 id g w -> fresh w0 id g w'.
Proof. intros Hw (Ho & Hn & Hg). split_and!; [intros id' Hid; rewrite Hw; auto|done|]. intros c. rewrite Hw. auto. Qed.

Lemma fresh_op w0 id g op w w' r : op_id op = id -> op_effect env op w w' r ->
  (forall c0 c, transition op c0 (Some c) -> generation c = g) -> fresh w0 id g w -> fresh w0 id g w'.
Proof.
  intros <- [Hoff Heff] Ht (Ho & Hn & Hg). split_and!; [intros id' Hid; rewrite Hoff by done; auto|done|]. intros c Hc.
  destruct Heff as [Htr|[E _]]; [|rewrite E in Hc; auto]. rewrite Hc in Htr. by eapply Ht.
Qed.

Definition keeps_fresh {A} (w0 : world) (id g : bytes) (m : act (service OS) A) : Prop :=
  forall s r s', m s = (r, s') -> fresh w0 id g (sv_files s) -> fresh w0 id g (sv_files s').

Lemma keeps_fresh_calm {A} w0 id g (m : act (service OS) A) : calm env m -> keeps_fresh w0 id g m.
Proof. intros Hm s r s' E. by eapply fresh_still, Hm. Qed.
Lemma keeps_fresh_bind {A B} w0 id g (m : act (service OS) A) (f : A -> act (service OS) B) :
  keeps_fresh w0 id g m -> (forall a, keeps_fresh w0 id g (f a)) -> keeps_fresh w0 id g (m ≫= f).
Proof.
  intros Hm Hf s r s' E Hs. unfold mbind, act_bind in E. destruct (m s) as [[a| |t] s1] eqn:E1; pose proof (Hm _ _ _ E1 Hs) as E2.
  - by eapply Hf.
  - by injection E as <- <-.
  - by injection E as <- <-.
Qed.
Lemma keeps_fresh_trial_bind {E A B} w0 id g (m : trial E (service OS) A) (f : A -> trial E (service OS) B) :
  keeps_fresh w0 id g (m : act (service OS) (E + A)) -> (forall a, keeps_fresh w0 id g (f a : act (service OS) (E + B))) ->
  keeps_fresh w0 id g (m ≫= f : act (service OS) (E + B)).
Proof.
  intros Hm Hf s r s' E' Hs. unfold mbind, trial_bind in E'. destruct (m s) as [[[e|a]| |t] s1] eqn:E1; pose proof (Hm _ _ _ E1 Hs) as E2.
  - by injection E' as <- <-.
  - by eapply Hf.
  - by injection E' as <- <-.
  - by injection E' as <- <-.
Qed.
Lemma keeps_fresh_run_step {E A} w0 id g (m : act (service OS) A) : keeps_fresh w0 id g m -> keeps_fresh w0 id g (run_step m : act (service OS) (E + A)).
Proof. intros Hm s r s'. unfold run_step. destruct (m s) as [r1 s1] eqn:E1. intros [= <- <-]. by eapply Hm. Qed.

Lemma keeps_fresh_op w0 id g op : op_id op = id -> op_valid op -> (forall c0 c, transition op c0 (Some c) -> generation c = g) ->
  keeps_fresh w0 id g (on_files (run_op env op)).
Proof.
  intros Hid Hv Ht s r s'. unfold on_files. destruct (run_op env op (sv_files s)) as [w1 r1] eqn:E.
  intros E'. assert (sv_files s' = w1) as -> by (destruct r1; by injection E' as <- <-). eapply fresh_op; [done|by eapply run_op_effect|done].
Qed.
Lemma keeps_fresh_remove w0 id g g' : keeps_fresh w0 id g (on_files (remove_if_generation env id g')).
Proof. apply (keeps_fresh_op w0 id g (Remove id g')); [done|done|]. intros c0 c Ht. by inversion Ht. Qed.

Lemma keeps_fresh_cleanup w0 g c : keeps_fresh w0 (session_id c) g (cleanup_generation env c).
Proof.
  unfold cleanup_generation. apply keeps_fresh_bind; [apply keeps_fresh_calm, calm_files|].
  - intros w w' r E id. destruct (artifact_removal_guarded env (session_id c) (generation c) w) as (b & w1 & E1 & _ & _ & Hk & _).
    rewrite E in E1. injection E1 as -> ->. apply stored_same. rewrite state_in_session. apply Hk. repeat constructor.
  - intros b. case_if; [apply keeps_fresh_calm, calm_ret|]. apply keeps_fresh_bind; [apply keeps_fresh_remove|]. intros x. apply keeps_fresh_calm, calm_ret.
Qed.

Lemma keeps_fresh_kill w0 id g child : keeps_fresh w0 id g (kill_child child).
Proof. apply keeps_fresh_calm, calm_apart. unfold kill_child, send_signal. apart. Qed.
Lemma keeps_fresh_cleanup_stop {A} w0 g c error :
  keeps_fresh w0 (session_id c) g ((_ ← run_step (cleanup_generation env c); stop error) : trial json (service OS) A).
Proof.
  apply keeps_fresh_trial_bind; [apply keeps_fresh_run_step, keeps_fresh_cleanup|]. intros b. apply keeps_fresh_calm, calm_stop.
Qed.
Lemma keeps_fresh_abandon {A} w0 g c error : keeps_fresh w0 (session_id c) g (abandon strerror env c error : act (service OS) (json + A)).
Proof.
  unfold abandon. apply keeps_fresh_trial_bind; [apply keeps_fresh_run_step, keeps_fresh_calm, calm_apart, apart_control|]. intros _.
  apply keeps_fresh_trial_bind; [apply keeps_fresh_run_step, keeps_fresh_kill|]. intros _. apply keeps_fresh_cleanup_stop.
Qed.

(** A record of the session's own, ready to be stored. *)
Definition own_record (g : bytes) (c : SessionInfo) : Prop := session_ok c /\ generation c = g /\ lifecycle_state c = lit "opening".

Lemma with_pid_own g c pid : own_record g c -> 0 <= pid <= int_max -> own_record g (with_pid pid c).
Proof.
  intros ([Hn Hg Ho Hr Hl Hres Hsv Ht] & Eg & El) Hp. split_and!; [|done|done]. constructor; try done.
  - destruct Hr. by constructor.
  - by apply opening_ok.
  - destruct Hres. by constructor.
  - destruct Ht; [by apply uds_ok|by apply tcp_ok|by apply file_ok].
Qed.
Lemma active_own g c now : own_record g c -> 0 < server_pid c -> transport c = lit "uds" -> 0 <= now <= i64_max ->
  session_ok (set_last_active now (with_lifecycle (lit "active") c)).
Proof.
  intros ([Hn Hg Ho Hr Hl Hres Hsv Ht] & Eg & El) Hp Hu Hnow. constructor; try done.
  - destruct Hr. by constructor.
  - by apply active_ok.
  - destruct Hres. by constructor.
  - destruct Ht; [by apply uds_ok|by rewrite Hu in *|by rewrite Hu in *].
Qed.

Lemma keeps_fresh_start w0 g c design : own_record g c -> (forall argv o, fst (os_fork argv o) <= int_max) ->
  keeps_fresh w0 (session_id c) g (start_engine env c design : act (service OS) (json + SessionInfo)).
Proof.
  intros Hc Hf s r s' E. unfold start_engine in E. unfold mbind at 1, trial_bind at 1, run_step at 1 in E.
  destruct (spawn_uds_engine c design s) as [r1 s1] eqn:E1. cbn [fst snd] in E.
  assert (calm env (spawn_uds_engine (OS := OS) c design)) as Hcalm by (apply calm_apart; unfold spawn_uds_engine, self_executable; apart).
  specialize (Hcalm _ _ _ E1). destruct r1 as [child| |t]; cbn in E; [|injection E as <- <-; by apply fresh_still..].
  intros Hs. eapply fresh_still in Hs; [|exact Hcalm]. destruct (Z.leb_spec child 0); [by eapply keeps_fresh_cleanup_stop|].
  assert (0 <= child <= int_max) as Hr.
  { split; [lia|]. assert (returns (OS := OS) (spawn_uds_engine c design) (fun child => child <= int_max)) as Hsp; [|by eapply Hsp].
    unfold spawn_uds_engine. apply returns_then. intros executable. case_if; [by apply returns_ret|].
    eapply returns_bind; [apply (returns_ask _ (fun child => child <= int_max)); auto|]. intros child' Hle. apply returns_then. intros _. by apply returns_ret. }
  pose proof (with_pid_own g c child Hc Hr) as Hown. revert E Hs. revert s1 r s' E1 Hcalm. intros s1 r s' _ _ E. revert E.
  assert (keeps_fresh w0 (session_id c) g (on_files (update_opening env (with_pid child c) (generation c)))) as Hup.
  { apply (keeps_fresh_op w0 (session_id c) g (Update (with_pid child c) (generation c))); [done|apply Hown|]. intros c0 c1 Ht. inversion Ht; subst. apply Hown. }
  match goal with |- ?m s1 = _ -> _ => enough (keeps_fresh w0 (session_id c) g m) as Hk by apply Hk end.
  apply keeps_fresh_trial_bind; [by apply keeps_fresh_run_step|]. intros updated. case_if; [|apply keeps_fresh_calm, calm_trial_ret].
  apply keeps_fresh_trial_bind; [apply keeps_fresh_run_step, keeps_fresh_kill|]. intros _. apply (keeps_fresh_cleanup_stop w0 g (with_pid child c)).
Qed.
End Fresh.

(** ** Opening: the record and the refusals *)

(** Documented ranges of what the operating system returns; a modification
    time before 1970 is excluded, the registry refuses to read it back. *)
Class SessionOsLaws (OS : Type) `{SessionOs OS} : Prop := {
  canonical_nonempty : forall p o q, fst (os_canonical p o) = Some q -> q <> [];
  stat_ranges : forall p o st, fst (os_stat p o) = Some st ->
    0 <= st_mtime st <= i64_max /\ 0 <= st_size st <= i64_max /\ 0 <= st_dev st <= u64_max /\ 0 <= st_ino st <= u64_max;
  time_range : forall o, 0 <= fst (os_time o) <= i64_max;
  fork_range : forall argv o, fst (os_fork argv o) <= int_max;
}.

Definition refused (response : json) : Prop := jget (lit "ok") response = Some (JBool false).
Lemma failure_refused layer recoverable details c m : refused (failure_at layer recoverable details c m).
Proof. reflexivity. Qed.

Section OpeningRecord.
Context {OS : Type} `{SessionOs OS} {HO : SessionOsLaws OS} {JT : JsonText} `{JsonStream} (strerror : Z -> bytes) (env : Env) (getenv : bytes -> option bytes).

Definition or_refused {A} (P : A -> Prop) (x : json + A) : Prop := match x with inl e => refused e | inr a => P a end.

Lemma hex_lower_hex d : 0 <= d < 16 -> hex_lower d ∈ lit "0123456789abcdef".
Proof.
  intros Hd. assert (d ∈ seqZ 0 16) as Hin by (apply elem_of_seqZ; lia). clear Hd. revert d Hin. apply list.Forall_forall. vm_compute. repeat constructor.
Qed.
Lemma land_ones_range z n : 0 <= n -> 0 <= Z.land z (Z.ones n) < 2 ^ n.
Proof. intros Hn. rewrite Z.land_ones by done. apply Z.mod_pos_bound. lia. Qed.
Lemma entropy_hex (entropy : nat -> Z) n : hex64 (flat_map (fun i => hex_byte (entropy i)) (seq n 32)).
Proof.
  split; [done|]. apply list.Forall_forall. intros c Hc. apply list_elem_of_In, in_flat_map in Hc as (i & _ & Hc).
  unfold hex_byte in Hc. pose proof (land_ones_range (entropy i) 8 ltac:(done)) as H1'. pose proof (land_ones_range (entropy i) 4 ltac:(done)) as H2'.
  change (Z.ones 8) with 255 in H1'. change (2 ^ 8) with 256 in H1'. change (Z.ones 4) with 15 in H2'. change (2 ^ 4) with 16 in H2'.
  destruct Hc as [<-|[<-|[]]]; apply hex_lower_hex; [|done]. split; [apply Z.div_pos; lia|apply Z.div_lt_upper_bound; lia].
Qed.
Lemma regs_hex r : hex64 (hex_of_regs r).
Proof.
  unfold hex_of_regs. split; [done|]. apply list.Forall_forall. intros c Hc.
  apply list_elem_of_In, in_concat in Hc as (l & Hl & Hc). apply in_map_iff in Hl as (v & <- & _). apply in_map_iff in Hc as (shift & <- & _).
  pose proof (land_ones_range (Z.shiftr v shift) 4 ltac:(done)) as Hr. change (Z.ones 4) with 15 in Hr. change (2 ^ 4) with 16 in Hr.
  apply list_elem_of_In, nth_In. change (length (lit "0123456789abcdef")) with 16%nat. lia.
Qed.
Lemma sha_text_hex text : hex64 (sha256_text text).
Proof. unfold sha256_text, finish. cbv zeta. apply regs_hex. Qed.

Lemma random_returns : returns random_hex_256 (fun o => forall g, o = Some g -> hex64 g).
Proof.
  unfold random_hex_256. apply returns_then. intros entropy s a s'. unfold on_files, ibind, iret.
  destruct (syscall (sv_files s)) as [w1 [fd|]]; [|done]. case_decide; [|by intros [= <- <-]].
  destruct (read_random_bytes w1) as [w2 [got|]]; [|done]. destruct (syscall w2) as [w3 [closed|]]; [|done].
  intros [= <- _] g. case_if; [|done]. intros [= <-]. apply entropy_hex.
Qed.

Lemma new_record_returns r : returns (new_record env r : act (service OS) (json + SessionInfo)) (or_refused (fun s =>
  exists gen hash now, s = opening_record env (or_id r) gen hash now /\ hex64 gen /\ (hash = [] \/ hex64 hash) /\ 0 <= now <= i64_max)).
Proof.
  unfold new_record. eapply (returns_trial_bind _ _ (fun now => 0 <= now <= i64_max)).
  { eapply returns_run_step; [apply (returns_ask _ (fun now => 0 <= now <= i64_max)), time_range|done]. }
  intros now Hnow. eapply (returns_trial_bind _ _ (fun o => forall g, o = Some g -> hex64 g)).
  { eapply returns_run_step; [apply random_returns|done]. }
  intros [gen|] Hgen; [|by apply returns_stop, failure_refused]. eapply (returns_trial_bind _ _ (fun _ => True)); [by apply returns_pure_step|].
  intros token _. apply returns_trial_ret. eexists gen, _, now. split; [done|]. split; [by apply Hgen|]. split; [|done].
  destruct (str_empty token); [by left|right; apply sha_text_hex].
Qed.

Definition print_ok (fp : Fingerprint) : Prop :=
  0 <= fp_mtime fp <= i64_max /\ 0 <= fp_size fp <= i64_max /\ 0 <= fp_dev fp <= u64_max /\ 0 <= fp_inode fp <= u64_max.
Lemma stat_returns path : returns (ask (os_stat path)) (fun o => forall st, o = Some st -> print_ok (fingerprint_of st)).
Proof. apply returns_ask. intros o st Hst. by eapply stat_ranges. Qed.

Lemma canonical_returns input directory : returns (canonical_existing_path input directory) (fun x => forall p, x = inr p -> p <> []).
Proof.
  unfold canonical_existing_path. cbv zeta. eapply returns_bind; [apply (returns_ask _ (fun o => forall p, o = Some p -> p <> [])); intros o p Hp; by eapply canonical_nonempty|].
  intros [path|] Hp; [|by apply returns_ret]. apply returns_then. intros found. apply returns_ret. intros p. destruct found; [|done]. intros [= <-]. by apply Hp.
Qed.

Definition design_formats : list bytes := [lit "xdd-so"; lit "binary-v1"].
Lemma bundle_returns input : returns (resolve_design_bundle input) (fun x => forall p r, x = inr (p, r) -> p <> [] /\ dr_format r ∈ design_formats).
Proof.
  unfold resolve_design_bundle. eapply returns_bind; [apply canonical_returns|]. intros [e|bundle] Hb; [by apply returns_ret|].
  apply returns_then. intros [text|]; [|by apply returns_ret]. destruct (json_extract text) as [manifest|]; [|by apply returns_ret].
  eapply returns_bind; [apply returns_lift|]. intros [[[format artifact] ext]|] Hd; [|by apply returns_ret].
  assert (format ∈ design_formats) as Hf.
  { unfold bundle_artifact in Hd. apply res_bind_Ret in Hd as (schema & _ & Hd). case_if_in Hd.
    - apply res_bind_Ret in Hd as (? & _ & [= <- _ _]). by left.
    - case_if_in Hd; [|done]. apply res_bind_Ret in Hd as (? & _ & Hd). case_if_in Hd; [|done].
      apply res_bind_Ret in Hd as (? & _ & [= <- _ _]). right. by left. }
  eapply (returns_bind _ _ (fun x => forall r, x = inr r -> dr_format r = format)).
  - unfold resolve_artifact. case_if; [by apply returns_ret|]. apply returns_then. intros resolved. apply returns_then. intros [root|]; [|by apply returns_ret].
    apply returns_then. intros regular. apply returns_ret. intros r. case_if; [done|]. by intros [= <-].
  - intros [e|resource] Hr; apply returns_ret; [done|]. intros p r [= <- <-]. split; [by apply Hb|]. by rewrite (Hr resource).
Qed.

Lemma open_design_returns target s : returns (open_design target s : act (service OS) (json + SessionInfo * DesignResource)) (or_refused (fun x =>
  if jcontains (lit "daidir") target
  then exists path format fp, fst x = with_design path format fp s /\ path <> [] /\ format ∈ design_formats /\ print_ok fp
  else fst x = s)).
Proof.
  unfold open_design, jcontains. destruct (jget (lit "daidir") target) as [input|]; [|by apply returns_trial_ret].
  eapply (returns_trial_bind _ _ (fun _ => True)); [by apply returns_pure_step|]. intros path _.
  eapply returns_trial_bind; [eapply returns_run_step; [apply bundle_returns|]; intros a Ha; exact Ha|].
  intros [e|[p resource]] Hb; [by apply returns_stop, failure_refused|]. destruct (Hb p resource eq_refl) as [Hp Hf].
  eapply returns_trial_bind; [eapply returns_run_step; [apply stat_returns|]; intros a Ha; exact Ha|]. intros [st|] Hst; [|by apply returns_stop, failure_refused].
  apply returns_trial_ret. eexists p, (dr_format resource), _. split; [done|]. split; [done|]. split; [done|]. by apply Hst.
Qed.
Lemma open_waveform_returns target s : returns (open_waveform target s : act (service OS) (json + SessionInfo)) (or_refused (fun x =>
  if jcontains (lit "fsdb") target then exists path fp, x = with_waveform path fp s /\ path <> [] /\ print_ok fp else x = s)).
Proof.
  unfold open_waveform, jcontains. destruct (jget (lit "fsdb") target) as [input|]; [|by apply returns_trial_ret].
  eapply (returns_trial_bind _ _ (fun _ => True)); [by apply returns_pure_step|]. intros path _.
  eapply returns_trial_bind; [eapply returns_run_step; [apply canonical_returns|]; intros a Ha; exact Ha|].
  intros [e|p] Hp; [by apply returns_stop, failure_refused|].
  eapply returns_trial_bind; [eapply returns_run_step; [apply stat_returns|]; intros a Ha; exact Ha|]. intros [st|] Hst; [|by apply returns_stop, failure_refused].
  apply returns_trial_ret. eexists p, _. split; [done|]. split; [by apply Hp|by apply Hst].
Qed.

Lemma opening_record_ok id gen hash now : session_name_ok id -> hex64 gen -> (hash = [] \/ hex64 hash) -> 0 <= now <= i64_max ->
  forall s, (s = opening_record env id gen hash now \/ exists path format fp, s = with_design path format fp (opening_record env id gen hash now) /\
     path <> [] /\ format ∈ design_formats /\ print_ok fp) ->
  forall s', (s' = s /\ dbdir_path s <> [] \/ exists path fp, s' = with_waveform path fp s /\ path <> [] /\ print_ok fp) ->
  own_record gen s' /\ session_id s' = id /\ transport s' = lit "uds".
Proof.
  intros Hn Hg Ho Hnow s Hs s' Hs'.
  assert (xdebug_design_socket_path env id <> []) as Hsock.
  { unfold xdebug_design_socket_path, socket_path, short_socket_path. cbv zeta. case_if; intros E; apply app_eq_nil in E as [_ E]; [done|].
    by apply app_eq_nil in E as [? _]. }
  assert (i64_max = 9223372036854775807 /\ u64_max = 18446744073709551615 /\ int_max = 2147483647) as (Ei & Eu & Em) by done.
  destruct Hs as [->|(path & format & fp & -> & Hp & Hf & Hfp)]; (destruct Hs' as [[-> Hd]|(p' & fp' & -> & Hp' & Hfp')]);
    (split; [split_and!; [constructor; try done|done|done]|split; done]);
    try (constructor; cbn; unfold print_ok in *; lia); try (by apply opening_ok); try (by apply uds_ok);
    try (constructor; cbn; [by auto|done|by intros; apply Hf|done]); (constructor; cbn; [by auto|done|done|done]).
Qed.
End OpeningRecord.

(** ** Opening: the steps up to the reservation *)

Section Before.
Context {OS : Type} `{SessionOs OS} {JT : JsonText} {HL : JsonTextLaws} `{JsonStream} (strerror : Z -> bytes) (env : Env) (getenv : bytes -> option bytes).

(** A step goes on with its result, or ends the request. *)
Lemma trial_inv {A B} (m : trial json (service OS) A) (f : A -> trial json (service OS) B) s r s' : (m ≫= f) s = (r, s') ->
  (exists a s1, m s = (Ret (inr a), s1) /\ f a s1 = (r, s')) \/
  (exists r1, m s = (r1, s') /\ (forall a, r1 <> Ret (inr a)) /\ forall e, r = Ret e -> exists e', e = inl e' /\ r1 = Ret (inl e')).
Proof.
  unfold mbind, trial_bind. destruct (m s) as [[[e|a]| |t] s1] eqn:E1.
  - intros [= <- <-]. right. exists (Ret (inl e)). split_and!; [done|done|]. intros ? [= <-]. eauto.
  - intros E. left. eauto.
  - intros [= <- <-]. right. by exists UB.
  - intros [= <- <-]. right. by exists (Throw t).
Qed.

Lemma apart_stat path : apart (OS := OS) (ask (os_stat path)).
Proof. apart. Qed.
Lemma apart_canonical input directory : apart (canonical_existing_path (OS := OS) input directory).
Proof. unfold canonical_existing_path, is_kind. apart. Qed.
#[local] Hint Resolve apart_canonical : apart.
Lemma apart_bundle input : apart (resolve_design_bundle (OS := OS) input).
Proof. unfold resolve_design_bundle, resolve_artifact, is_kind. apart. Qed.
Lemma apart_resource path key declaration target evidence : apart (validate_manifest_resource (OS := OS) path key declaration target evidence).
Proof. unfold validate_manifest_resource, check_contents, check_digest, digest_of. apart. Qed.
#[local] Hint Resolve apart_resource : apart.
Lemma apart_manifest target c : apart (validate_run_manifest (OS := OS) target c).
Proof. unfold validate_run_manifest, manifest_resources. apart. Qed.

Lemma calm_open_request request : calm env (open_request getenv request : act (service OS) (json + OpenRequest)).
Proof.
  unfold open_request. do 4 (apply calm_trial_bind; [apply calm_pure_step|]; intros ?). case_if; [apply calm_stop|].
  destruct (xdebug_session_start_timeout_sec getenv). case_if; [apply calm_stop|apply calm_trial_ret].
Qed.
Lemma calm_new_record r : calm env (new_record env r : act (service OS) (json + SessionInfo)).
Proof.
  unfold new_record. apply calm_trial_bind; [apply calm_run_step, calm_ask|]. intros now.
  apply calm_trial_bind; [apply calm_run_step, calm_random|]. intros [gen|]; [|apply calm_stop].
  apply calm_trial_bind; [apply calm_pure_step|]. intros token. apply calm_trial_ret.
Qed.
Lemma calm_open_design target c : calm env (open_design target c : act (service OS) (json + SessionInfo * DesignResource)).
Proof.
  unfold open_design. destruct (jget _ target) as [input|]; [|apply calm_trial_ret]. apply calm_trial_bind; [apply calm_pure_step|]. intros path.
  apply calm_trial_bind; [apply calm_run_step, calm_apart, apart_bundle|]. intros [e|[p resource]]; [apply calm_stop|].
  apply calm_trial_bind; [apply calm_run_step, calm_ask|]. intros [st|]; [apply calm_trial_ret|apply calm_stop].
Qed.
Lemma calm_open_waveform target c : calm env (open_waveform target c : act (service OS) (json + SessionInfo)).
Proof.
  unfold open_waveform. destruct (jget _ target) as [input|]; [|apply calm_trial_ret]. apply calm_trial_bind; [apply calm_pure_step|]. intros path.
  apply calm_trial_bind; [apply calm_run_step, calm_apart, apart_canonical|]. intros [e|p]; [apply calm_stop|].
  apply calm_trial_bind; [apply calm_run_step, calm_ask|]. intros [st|]; [apply calm_trial_ret|apply calm_stop].
Qed.
Lemma calm_open_manifest target c : calm env (open_manifest target c : act (service OS) (json + json)).
Proof.
  unfold open_manifest. apply calm_trial_bind; [apply calm_run_step, calm_apart, apart_manifest|]. intros [e|details]; [apply calm_stop|apply calm_trial_ret].
Qed.

Lemma open_request_returns request : returns (open_request getenv request : act (service OS) (json + OpenRequest)) (or_refused (fun r =>
  object_member (lit "target") request = Ret (or_target r) /\
  (args ← object_member (lit "args") request; text_value (lit "name") args) = Ret (or_id r))).
Proof.
  unfold open_request. eapply returns_trial_bind; [apply returns_pure_step; intros a Ha; exact Ha|]. intros target Ht.
  eapply returns_trial_bind; [apply returns_pure_step; intros a Ha; exact Ha|]. intros args Hargs.
  eapply returns_trial_bind; [apply returns_pure_step; intros a Ha; exact Ha|]. intros id Hid.
  eapply (returns_trial_bind _ _ (fun _ => True)); [by apply returns_pure_step|]. intros t _. case_if; [by apply returns_stop, failure_refused|].
  destruct (xdebug_session_start_timeout_sec getenv) as [timeout error]. case_if; [by apply returns_stop, failure_refused|].
  apply returns_trial_ret. cbn [or_refused or_target or_id]. split; [done|]. by rewrite Hargs.
Qed.

Lemma resource_returns path key declaration target evidence :
  returns (validate_manifest_resource (OS := OS) path key declaration target evidence) (fun x => forall e, x = Some e -> refused e).
Proof.
  assert (forall m e, refused (provenance_failure m e)) as Hp by done.
  unfold validate_manifest_resource. destruct (unexpected_member _ _); [apply returns_ret; by intros ? [= <-]|].
  destruct (declared_resource _) as [[[relative size] sha]|]; [|apply returns_ret; by intros ? [= <-]]. apply returns_then. intros expected.
  case_if; [apply returns_ret; by intros ? [= <-]|]. unfold check_contents. apply returns_then. intros [st|]; [|apply returns_ret; by intros ? [= <-]].
  case_if; [apply returns_ret; by intros ? [= <-]|]. case_if; [apply returns_ret; by intros ? [= <-]|].
  unfold check_digest. apply returns_then. intros [e|actual]; apply returns_ret; [by intros ? [= <-]|]. case_if; by intros ? [= <-].
Qed.
Lemma manifest_returns target c : returns (validate_run_manifest (OS := OS) target c) (fun x => forall e, x = inl e -> refused e).
Proof.
  assert (forall m e, refused (provenance_failure m e)) as Hp by done.
  unfold validate_run_manifest. destruct (jget _ target) as [requested|]; [|by apply returns_ret]. apply returns_then. intros path.
  apply returns_then. intros [p|]; [|apply returns_ret; by intros ? [= <-]]. apply returns_then. intros [text|]; [|apply returns_ret; by intros ? [= <-]].
  destruct (json_extract text) as [parsed|]; [|apply returns_ret; by intros ? [= <-]]. eapply returns_bind; [apply returns_lift|].
  intros [e|[[[evidence version] state] resources]] Hs.
  - apply returns_ret. intros ? [= <-]. unfold manifest_shape in Hs. destruct (unexpected_member _ _); [by injection Hs as <-|].
    apply res_bind_Ret in Hs as (? & _ & Hs). apply res_bind_Ret in Hs as (? & _ & Hs). cbv zeta in Hs.
    case_if_in Hs; [by injection Hs as <-|]. case_if_in Hs; [by injection Hs as <-|]. destruct (unexpected_member _ _); [by injection Hs as <-|].
    case_if_in Hs; [by injection Hs as <-|]. case_if_in Hs; [by injection Hs as <-|]. done.
  - eapply (returns_bind _ _ (fun x => forall e, x = Some e -> refused e)).
    + unfold manifest_resources. eapply returns_bind; [apply resource_returns|]. intros [e|] He; [apply returns_ret; intros ? [= <-]; by apply He|].
      case_if; [apply resource_returns|by apply returns_ret].
    + intros [e|] He; apply returns_ret; [intros ? [= <-]; by apply He|done].
Qed.
Lemma open_manifest_returns target c : returns (open_manifest target c : act (service OS) (json + json)) (or_refused (fun _ => True)).
Proof.
  unfold open_manifest. eapply returns_trial_bind; [eapply returns_run_step; [apply manifest_returns|]; intros a Ha; exact Ha|].
  intros [e|details] He; [apply returns_stop; by apply He|by apply returns_trial_ret].
Qed.
End Before.

(** ** Opening: from the reservation to the published session *)

Section After.
Context {OS : Type} `{SessionOs OS} {HO : SessionOsLaws OS} {JT : JsonText} {HL : JsonTextLaws} `{JsonStream} (strerror : Z -> bytes) (env : Env) (getenv : bytes -> option bytes).

Lemma keeps_fresh_ignore {A} w0 id g (m : act (service OS) A) error : keeps_fresh env w0 id g m ->
  keeps_fresh env w0 id g ((_ ← run_step m; stop error) : trial json (service OS) (list SessionInfo)).
Proof.
  intros Hm. apply keeps_fresh_trial_bind; [by apply keeps_fresh_run_step|]. intros _. apply keeps_fresh_calm, calm_stop.
Qed.

(** Another id is left alone; a record that is there stays, and the request is
    refused; else at most a record of the new generation appears. *)
Definition reserved (w : world) (c : SessionInfo) {A} (r : res (json + A)) (w' : world) : Prop :=
  (forall id, id <> session_id c -> stored env w' id = stored env w id) /\
  (stored env w (session_id c) = None -> fresh env w (session_id c) (generation c) w') /\
  (forall old, stored env w (session_id c) = Some old -> stored env w' (session_id c) = Some old /\ forall a, r <> Ret (inr a)) /\
  (forall e, r = Ret (inl e) -> refused e).

Lemma reserved_still w c A (r : res (json + A)) w' : still env w w' -> (forall a, r <> Ret (inr a)) -> (forall e, r = Ret (inl e) -> refused e) -> reserved w c r w'.
Proof.
  intros Hw Hr He. split_and!; [by intros; apply Hw| |by intros; rewrite Hw|done]. intros Hn. split_and!; [by intros; apply Hw|done|]. intros x. by rewrite Hw, Hn.
Qed.
Lemma reserved_thrown w c A (r : res (json + A)) w' : still env w w' -> (forall x, r <> Ret x) -> reserved w c r w'.
Proof. intros Hw Hr. apply reserved_still; [done|by intros a; apply Hr|]. intros e He. by destruct (Hr _ He). Qed.
Lemma reserved_before w0 w c A (r : res (json + A)) w' : still env w0 w -> reserved w c r w' -> reserved w0 c r w'.
Proof.
  intros Hw (H1' & H2' & H3 & H4). split_and!; [|rewrite <- Hw|rewrite <- (Hw (session_id c))|done].
  - intros id Hid. rewrite H1' by done. apply Hw.
  - intros Hn. destruct (H2' Hn) as (F1 & F2 & F3). split_and!; [|by rewrite <- Hw|done]. intros id Hid. rewrite F1 by done. apply Hw.
  - intros old Hold. by apply H3.
Qed.

(** A step that does not end the request itself. *)
Lemma run_inv {A B} (m : act (service OS) A) (f : A -> trial json (service OS) B) s r s' : ((run_step m : trial json (service OS) A) ≫= f) s = (r, s') ->
  (exists a s1, m s = (Ret a, s1) /\ f a s1 = (r, s')) \/ (exists r1, m s = (r1, s') /\ forall x, r <> Ret x).
Proof.
  unfold mbind, trial_bind, run_step. destruct (m s) as [[a| |t] s1]; cbn [fst snd fmap res_fmap].
  - intros E. left. eauto.
  - intros [= <- <-]. right. by exists UB.
  - intros [= <- <-]. right. by exists (Throw t).
Qed.
Lemma calm_inv {A B} (m : act (service OS) A) (f : A -> trial json (service OS) B) s r s' : calm env m ->
  ((run_step m : trial json (service OS) A) ≫= f) s = (r, s') ->
  (exists a s1, still env (sv_files s) (sv_files s1) /\ f a s1 = (r, s')) \/ (still env (sv_files s) (sv_files s') /\ forall x, r <> Ret x).
Proof.
  intros Hm [(a & s1 & E1 & E)|(r1 & E1 & Hr)]%run_inv; [left; exists a, s1; split; [by eapply Hm|done]|right; split; [by eapply Hm|done]].
Qed.

(** A registry operation. *)
Definition result_of {A} (r : res A) : option A := match r with Ret a => Some a | _ => None end.
Lemma files_effect op (s : service OS) r s' : op_valid op -> on_files (SessionRegistryTheory.run_op env op) s = (r, s') ->
  op_effect env op (sv_files s) (sv_files s') (result_of r).
Proof.
  intros Hv. unfold on_files. destruct (SessionRegistryTheory.run_op env op (sv_files s)) as [w1 r1] eqn:E1.
  apply run_op_effect in E1; [|done]. by destruct r1; intros [= <- <-].
Qed.

Lemma reserve_spec c (s : service OS) r s' : own_record (generation c) c -> reserve_session env c s = (r, s') -> reserved (sv_files s) c r (sv_files s').
Proof.
  intros Hc E. unfold reserve_session in E.
  apply calm_inv in E as [(locked & s1 & Hw1 & E)|[Hw Hr]]; [|by apply reserved_thrown|apply calm_files, calm_lease].
  eapply reserved_before; [exact Hw1|]. clear Hw1 s. case_if_in E.
  { injection E as <- <-. apply reserved_still; [done|done|]. by intros ? [= <-]. }
  apply calm_inv in E as [(before & s2 & Hw2 & E)|[Hw Hr]]; [|by apply reserved_thrown|apply calm_files, calm_load_all].
  eapply reserved_before; [exact Hw2|]. clear Hw2 s1. destruct before as [e|before].
  { injection E as <- <-. apply reserved_still; [done|done|]. by intros ? [= <-]. }
  apply run_inv in E as [(res & s3 & E3 & E)|(r1 & E3 & Hr)].
  2: { apply (files_effect (Reserve c)) in E3 as [Hoff Hst]; [|apply Hc]. cbn [op_id] in *. split_and!; [done| | |by intros e ->; destruct (Hr (inl e))].
       - intros Hn. split_and!; [done|done|]. intros x Hx. rewrite Hn, Hx in Hst. destruct Hst as [Ht|[? _]]; [by inversion Ht|done].
       - intros old Hold. rewrite Hold in Hst. destruct Hst as [Ht|[-> _]]; [by inversion Ht|]. split; [done|]. intros a. apply Hr. }
  apply (files_effect (Reserve c)) in E3 as [Hoff Hst]; [|apply Hc]. cbn [op_id] in *. 
  assert (forall old, stored env (sv_files s2) (session_id c) = Some old -> stored env (sv_files s3) (session_id c) = Some old /\ ok res = false) as Hold.
  { intros old Ho. rewrite Ho in Hst. destruct Hst as [Ht|[-> Hs]]; [by inversion Ht|]. split; [done|]. apply bool_decide_eq_false. by apply Hs. }
  assert (stored env (sv_files s2) (session_id c) = None -> fresh env (sv_files s2) (session_id c) (generation c) (sv_files s3)) as Hfresh.
  { intros Hn. split_and!; [done|done|]. intros x Hx. rewrite Hn, Hx in Hst. destruct Hst as [Ht|[? _]]; [by inversion Ht|done]. }
  destruct (ok res) eqn:Eo; cbn [negb] in E.
  2: { injection E as <- <-. split_and!; [done|done| |by intros ? [= <-]]. intros old Ho. by destruct (Hold old Ho). }
  assert (stored env (sv_files s2) (session_id c) = None) as Hn.
  { destruct (stored env (sv_files s2) (session_id c)) as [old|]; [|done]. by destruct (Hold old eq_refl). }
  specialize (Hfresh Hn). assert (fresh env (sv_files s2) (session_id c) (generation c) (sv_files s')) as Hf'.
  { revert E Hfresh. match goal with |- ?m s3 = _ -> _ => enough (keeps_fresh env (sv_files s2) (session_id c) (generation c) m) as Hk by apply Hk end.
    apply keeps_fresh_trial_bind; [apply keeps_fresh_run_step, keeps_fresh_calm, calm_files, calm_marker|]. intros marked.
    case_if; [|apply keeps_fresh_calm, calm_trial_ret]. apply keeps_fresh_ignore, keeps_fresh_remove. }
  split_and!; [apply Hf'|done|by rewrite Hn|]. intros e ->. apply run_inv in E as [(marked & s4 & _ & E)|(r1 & _ & Hr)]; [|by destruct (Hr (inl e))].
  case_if_in E; [|done]. apply run_inv in E as [(x & s5 & _ & E)|(r1 & _ & Hr)]; [|by destruct (Hr (inl e))]. by injection E as <- _.
Qed.

Lemma start_returns c design : returns (start_engine env c design : act (service OS) (json + SessionInfo)) (or_refused (fun s =>
  exists child, s = with_pid child c /\ 0 < child <= int_max)).
Proof.
  unfold start_engine. eapply (returns_trial_bind _ _ (fun child => child <= int_max)).
  { eapply (returns_run_step _ (fun child => child <= int_max)); [|done]. unfold spawn_uds_engine. apply returns_then. intros executable. case_if; [by apply returns_ret|].
    eapply returns_bind; [apply (returns_ask _ (fun child => child <= int_max)), fork_range|]. intros child Hc. apply returns_then. intros _. by apply returns_ret. }
  intros child Hc. destruct (Z.leb_spec child 0).
  { eapply (returns_trial_bind _ _ (fun _ => True)); [by eapply returns_run_step; [apply returns_any|]|]. intros _ _. by apply returns_stop. }
  eapply (returns_trial_bind _ _ (fun _ => True)); [by eapply returns_run_step; [apply returns_any|]|]. intros updated _. case_if.
  - eapply (returns_trial_bind _ _ (fun _ => True)); [by eapply returns_run_step; [apply returns_any|]|]. intros _ _.
    eapply (returns_trial_bind _ _ (fun _ => True)); [by eapply returns_run_step; [apply returns_any|]|]. intros _ _. by apply returns_stop.
  - apply returns_trial_ret. exists child. split; [done|lia].
Qed.

Lemma await_pinged n child c : forall seen, guarded seen (await_ready strerror n child c) (fun l o => o = Ready -> pinged c l).
Proof.
  induction n as [|n IH]; intros seen; cbn [await_ready]; [eapply guarded_weaken; [apply guarded_ret|]; by intros ? ? [-> ->]|].
  eapply guarded_bind; [apply ping_pinged|]. intros l [] Hl; [eapply guarded_weaken; [apply guarded_ret|]; intros ? ? [-> ->] _; by apply Hl|].
  eapply guarded_bind; [apply guarded_ask|]. intros l' exited _. case_if; [eapply guarded_weaken; [apply guarded_ret|]; by intros ? ? [-> ->]|].
  eapply guarded_bind; [apply guarded_ask|]. intros l'' [] _. apply IH.
Qed.

Lemma apart_await n child c : apart (await_ready strerror n child c).
Proof.
  induction n as [|n IH]; cbn [await_ready]; [apart|]. apply apart_bind; [apply apart_ping|]. intros []; apart.
Qed.

Lemma await_spec w0 g timeout c (s : service OS) r s' : await_engine strerror env timeout c s = (r, s') ->
  fresh env w0 (session_id c) g (sv_files s) ->
  fresh env w0 (session_id c) g (sv_files s') /\ (forall e, r = Ret (inl e) -> refused e) /\ (r = Ret (inr tt) -> exists new, sv_log s' = sv_log s ++ new /\ pinged c new).
Proof.
  intros E Hf. unfold await_engine in E.
  assert (calm env (await_ready strerror (Z.to_nat (timeout * 100)) (server_pid c) c)) as Hcalm.
  { apply calm_apart, apart_await. }
  apply run_inv in E as [(o & s1 & E1 & E)|(r1 & E1 & Hr)].
  2: { split_and!; [eapply fresh_still; [by eapply Hcalm|done]|intros e ->; by destruct (Hr (inl e))|intros ->; by destruct (Hr (inr tt))]. }
  pose proof (Hcalm _ _ _ E1) as Hw. apply (await_pinged _ _ _ []) in E1 as (new & L & _ & Hp). specialize (Hp o eq_refl).
  eapply fresh_still in Hf; [|exact Hw].
  assert (forall f, o <> Ready -> keeps_fresh env w0 (session_id c) g ((status_ ← run_step (reap_child (server_pid c) o); _ ← run_step (cleanup_generation env c);
      stop (f status_)) : trial json (service OS) unit)) as Hk.
  { intros f _. apply keeps_fresh_trial_bind; [apply keeps_fresh_run_step, keeps_fresh_calm, calm_apart; unfold reap_child, send_signal; apart|].
    intros status_. apply keeps_fresh_cleanup_stop. }
  assert (forall x, o <> Ready -> ((status_ ← run_step (reap_child (server_pid c) o); _ ← run_step (cleanup_generation env c);
      stop (not_ready timeout o status_)) : trial json (service OS) unit) s1 = (Ret x, s') -> exists e, x = inl e /\ refused e) as Hx.
  { intros x _ Ex. apply run_inv in Ex as [(st & s2 & _ & Ex)|(r1 & _ & Hr)]; [|by destruct (Hr x)].
    apply run_inv in Ex as [(b & s3 & _ & Ex)|(r1 & _ & Hr)]; [|by destruct (Hr x)]. injection Ex as <- _. by eexists. }
  destruct o as [|status_|].
  - injection E as <- <-. split_and!; [done|done|]. intros _. exists new. split; [done|by apply Hp].
  - split_and!; [by eapply Hk|intros e ->; apply Hx in E as (? & [= <-] & ?); done|intros ->; by apply Hx in E as (? & ? & _)].
  - split_and!; [by eapply Hk|intros e ->; apply Hx in E as (? & [= <-] & ?); done|intros ->; by apply Hx in E as (? & ? & _)].
Qed.

Lemma abandon_refused {A} c error (s : service OS) r s' : refused error -> abandon strerror env c error s = (r, s') ->
  forall x : json + A, r = Ret x -> exists e, x = inl e /\ refused e.
Proof.
  intros He E x ->. unfold abandon in E. apply run_inv in E as [(? & s1 & _ & E)|(r1 & _ & Hr)]; [|by destruct (Hr x)].
  apply run_inv in E as [(? & s2 & _ & E)|(r1 & _ & Hr)]; [|by destruct (Hr x)].
  apply run_inv in E as [(? & s3 & _ & E)|(r1 & _ & Hr)]; [|by destruct (Hr x)]. injection E as <- _. eauto.
Qed.

(** Published: the active record of the session is stored. *)
Definition published (c : SessionInfo) (w' : world) (c' : SessionInfo) : Prop :=
  stored env w' (session_id c) = Some c' /\ lifecycle_state c' = lit "active" /\ generation c' = generation c /\ server_pid c' = server_pid c /\
  si_socket_path c' = si_socket_path c.

Lemma publish_spec w0 g c (s : service OS) r s' : own_record g c -> 0 < server_pid c -> transport c = lit "uds" ->
  publish_session strerror env c s = (r, s') -> fresh env w0 (session_id c) g (sv_files s) ->
  fresh env w0 (session_id c) g (sv_files s') /\ (forall e, r = Ret (inl e) -> refused e) /\
  (forall c', r = Ret (inr c') -> published c (sv_files s') c').
Proof.
  intros Hc Hp Hu E Hf. unfold publish_session in E.
  apply calm_inv in E as [(changed & s1 & Hw & E)|[Hw Hr]]; [| |apply calm_apart; unfold resources_changed, current_print; apart].
  2: { split_and!; [by eapply fresh_still|intros e ->; by destruct (Hr (inl e))|intros c' ->; by destruct (Hr (inr c'))]. }
  eapply fresh_still in Hf; [|exact Hw]. case_if_in E.
  { split; [by eapply keeps_fresh_abandon|]. pose proof (fun He x Hx => abandon_refused _ _ _ _ _ He E x Hx) as Ha.
    specialize (Ha eq_refl). split; intros x Hx; by destruct (Ha _ Hx) as (e & [= ->] & ?). }
  apply run_inv in E as [(now & s2 & E2 & E)|(r1 & E2 & Hr)].
  2: { split_and!; [eapply fresh_still; [by eapply (calm_ask env)|done]|intros e ->; by destruct (Hr (inl e))|intros c' ->; by destruct (Hr (inr c'))]. }
  assert (0 <= now <= i64_max) as Hnow by (by eapply (returns_ask _ (fun now => 0 <= now <= i64_max) time_range)).
  eapply fresh_still in Hf; [|by eapply (calm_ask env)]. set (c2 := set_last_active now (with_lifecycle (lit "active") c)) in *.
  assert (session_ok c2) as Hok by (by eapply active_own). assert (generation c2 = g) as Hg by apply Hc.
  change (generation c2) with (generation c) in *.
  assert (keeps_fresh (OS := OS) env w0 (session_id c) g (on_files (finalize_opening env c2 (generation c)))) as Hkf.
  { apply (keeps_fresh_op env w0 (session_id c) g (Finalize c2 (generation c))); [done|done|]. intros c0 c1 Ht. inversion Ht; subst. apply Hc. }
  apply run_inv in E as [(res & s3 & E3 & E)|(r1 & E3 & Hr)].
  2: { split_and!; [by eapply Hkf|intros e ->; by destruct (Hr (inl e))|intros c' ->; by destruct (Hr (inr c'))]. }
  pose proof (Hkf _ _ _ E3 Hf) as Hf3. apply (files_effect (Finalize c2 (generation c))) in E3 as [_ Hst]; [|done]. cbn [op_id result_of] in Hst.
  change (session_id c2) with (session_id c) in Hst.
  destruct (ok res) eqn:Eo; cbn [negb] in E.
  - injection E as <- <-. split_and!; [done|done|]. intros c' [= <-]. split; [|done].
    destruct Hst as [Ht|[_ Hs]]; [|specialize (Hs res eq_refl); unfold ok in Eo; by apply bool_decide_eq_true in Eo].
    remember (stored env (sv_files s3) (session_id c)) as o. by inversion Ht.
  - split; [by eapply (keeps_fresh_abandon strerror env w0 g c2)|]. pose proof (fun He x Hx => abandon_refused _ _ _ _ _ He E x Hx) as Ha.
    specialize (Ha eq_refl). split; intros x Hx; by destruct (Ha _ Hx) as (e & [= ->] & ?).
Qed.

(** *** The whole request *)

Definition grows (s s' : service OS) : Prop := exists new, sv_log s' = sv_log s ++ new.
Lemma tame_grows {A} (m : act (service OS) A) s r s' : tame m -> m s = (r, s') -> grows s s'.
Proof. intros Hm E. destruct (Hm [] _ _ _ E) as (new & L & _). by exists new. Qed.
#[local] Instance grows_preorder : PreOrder grows.
Proof.
  split; [intros s; exists []; by rewrite app_nil_r|]. intros s1 s2 s3 [n1 E1] [n2 E2]. exists (n1 ++ n2). by rewrite E2, E1, app_assoc.
Qed.

(** What the log of the request shows of the published session. *)
Definition evidence (s s' : service OS) (c : SessionInfo) : Prop :=
  exists new, sv_log s' = sv_log s ++ new /\ started (server_pid c) new /\ pinged c new.

Definition opened (id : bytes) (s : service OS) (r : res (json + json)) (s' : service OS) : Prop :=
  (forall id', id' <> id -> stored env (sv_files s') id' = stored env (sv_files s) id') /\
  (forall old, stored env (sv_files s) id = Some old -> stored env (sv_files s') id = Some old /\ forall x, r <> Ret (inr x)) /\
  (forall e, r = Ret (inl e) -> refused e) /\
  (forall response, r = Ret (inr response) -> jget (lit "ok") response = Some (JBool true) /\ exists c,
     stored env (sv_files s') id = Some c /\ lifecycle_state c = lit "active" /\ evidence s s' c /\
     jget (lit "session") response = Some (public_session c)).

(** The steps before the reservation. *)
Lemma opened_step {A} id (m : trial json (service OS) A) (f : A -> trial json (service OS) json) (P : A -> Prop) s r s' :
  calm env (m : act (service OS) (json + A)) -> tame (m : act (service OS) (json + A)) -> returns (m : act (service OS) (json + A)) (or_refused P) ->
  (forall a s1 r s', P a -> f a s1 = (r, s') -> opened id s1 r s') -> (m ≫= f) s = (r, s') -> opened id s r s'.
Proof.
  intros Hc Ht Hr Hf [(a & s1 & E1 & E)|(r1 & E1 & H1' & H2')]%trial_inv; pose proof (Hc _ _ _ E1) as Hw.
  - pose proof (Hr _ _ _ E1) as HP. destruct (Hf _ _ _ _ HP E) as (O1 & O2 & O3 & O4). split_and!; [| |done|].
    + intros id' Hid. rewrite O1 by done. apply Hw.
    + intros old. rewrite <- Hw. apply O2.
    + intros response Hresp. destruct (O4 _ Hresp) as (Hok & c & Hs & Ha & (new & L & Hst & Hp) & Hj). split; [done|]. exists c.
      split_and!; [done|done| |done]. destruct (tame_grows _ _ _ _ Ht E1) as [n1 L1]. exists (n1 ++ new). rewrite L, L1, app_assoc. split; [done|].
      destruct Hst as [argv Hst], Hp as (p & Hp & Hg). split; [exists argv|exists p]; rewrite !elem_of_app; auto.
  - split_and!; [by intros; apply Hw| | |].
    + intros old Hold. rewrite Hw. split; [done|]. intros x ->. by destruct (H2' _ eq_refl) as (? & ? & _).
    + intros e ->. destruct (H2' _ eq_refl) as (e' & [= <-] & ->). exact (Hr _ _ _ E1).
    + intros x ->. by destruct (H2' _ eq_refl) as (? & ? & _).
Qed.

Lemma opened_response_spec before c details :
  jget (lit "ok") (opened_response before c details) = Some (JBool true) /\
  jget (lit "session") (opened_response before c details) = Some (public_session c).
Proof. unfold opened_response. destruct (duplicate_resource_advisories before c); done. Qed.

(** From the reservation on. *)
Lemma open_rest c design timeout details s r s' : own_record (generation c) c -> transport c = lit "uds" ->
  ((before ← reserve_session env c; s ← start_engine env c design; _ ← await_engine strerror env timeout s;
    s ← publish_session strerror env s; mret (opened_response before s details)) : trial json (service OS) json) s = (r, s') ->
  opened (session_id c) s r s'.
Proof.
  intros Hc Hu E. apply trial_inv in E as [(before & s1 & E1 & E)|(r1 & E1 & H1' & H2')].
  2: { apply reserve_spec in E1 as (R1 & R2 & R3 & R4); [|done]. split_and!; [done| | |].
       - intros old Hold. split; [by apply R3|]. intros x ->. by destruct (H2' _ eq_refl) as (? & ? & _).
       - intros e ->. destruct (H2' _ eq_refl) as (e' & [= <-] & ->). by apply R4.
       - intros x ->. by destruct (H2' _ eq_refl) as (? & ? & _). }
  assert (grows s s1) as G1 by (eapply tame_grows; [|exact E1]; unfold reserve_session; tame).
  apply reserve_spec in E1 as (R1 & R2 & R3 & _); [|done].
  assert (stored env (sv_files s) (session_id c) = None) as Hn.
  { destruct (stored env (sv_files s) (session_id c)) as [old|]; [|done]. destruct (R3 old eq_refl) as [_ Hx]. by destruct (Hx before). }
  specialize (R2 Hn). clear R1 R3.
  assert (forall r s', fresh env (sv_files s) (session_id c) (generation c) (sv_files s') -> (forall e, r = Ret (inl e) -> refused e) ->
    (forall x, r <> Ret (inr x)) -> opened (session_id c) s r s') as Hstop.
  { intros r0 s0 (F1 & F2 & _) He Hx. split_and!; [done|by rewrite Hn|done|]. intros x ->. by destruct (Hx x). }
  apply trial_inv in E as [(c1 & s2 & E2 & E)|(r1 & E2 & H1' & H2')].
  2: { apply Hstop; [by eapply (keeps_fresh_start env (sv_files s)); [done|apply fork_range|exact E2|]| |].
       - intros e ->. destruct (H2' _ eq_refl) as (e' & [= <-] & ->). exact (start_returns _ _ _ _ _ E2).
       - intros x ->. by destruct (H2' _ eq_refl) as (? & ? & _). }
  pose proof (keeps_fresh_start env (sv_files s) _ _ design Hc fork_range _ _ _ E2 R2) as F2.
  pose proof (start_returns _ _ _ _ _ E2) as (child & -> & Hch). apply (start_engine_guarded _ []) in E2 as (new2 & L2 & _ & Hst).
  specialize (Hst _ eq_refl). cbn [if_open app] in Hst. change (session_id c) with (session_id (with_pid child c)) in F2, Hstop.
  apply trial_inv in E as [([] & s3 & E3 & E)|(r1 & E3 & H1' & H2')].
  2: { destruct (await_spec _ _ _ _ _ _ _ E3 F2) as (F3 & He & _). apply Hstop; [done| |].
       - intros e ->. destruct (H2' _ eq_refl) as (e' & [= <-] & ->). by apply He.
       - intros x ->. by destruct (H2' _ eq_refl) as (? & ? & _). }
  destruct (await_spec _ _ _ _ _ _ _ E3 F2) as (F3 & _ & Hping). destruct (Hping eq_refl) as (new3 & L3 & Hp).
  assert (own_record (generation c) (with_pid child c)) as Hown by (apply with_pid_own; [done|lia]).
  apply trial_inv in E as [(c' & s4 & E4 & E)|(r1 & E4 & H1' & H2')].
  2: { eapply publish_spec in E4 as (F4 & He & _); [|done|cbn; lia|done|done]. apply Hstop; [done| |].
       - intros e ->. destruct (H2' _ eq_refl) as (e' & [= <-] & ->). by apply He.
       - intros x ->. by destruct (H2' _ eq_refl) as (? & ? & _). }
  assert (grows s3 s4) as [new4 L4].
  { apply (publish_guarded _ _ new2) in E4 as (n & L & _); [by exists n|done]. }
  eapply publish_spec in E4 as ((F4 & _) & _ & Hpub); [|done|cbn; lia|done|done]. destruct (Hpub c' eq_refl) as (Hs & Ha & Hg & Hpid & Hsock).
  injection E as <- <-. destruct (opened_response_spec before c' details) as [Hok Hj]. split_and!; [done|by rewrite Hn|done|].
  intros response [= <-]. split; [done|]. exists c'. split_and!; [done|done| |done]. destruct G1 as [new1 L1].
  exists (new1 ++ new2 ++ new3 ++ new4). split; [by rewrite L4, L3, L2, L1, <- !app_assoc|].
  destruct Hst as [argv Hst], Hp as (p & Hp & Hgen). split.
  - exists argv. rewrite Hpid, !elem_of_app. auto.
  - exists p. rewrite Hsock, Hg, !elem_of_app. auto.
Qed.

(** C7: opening a session never touches another one. Under every schedule of
    file failures and every behaviour of the processes and peers, the request
    leaves the records of all other sessions as they were; a record that the
    name already has stays as it is, and the request is refused; and the
    response says that the session is open only when the registry holds its
    active record, and the request has itself started the process of that
    record and received, on the socket of the record, a ping answer that names
    the record's generation. The name and the target are those of a request
    that its schema accepts: a valid session name, and a design or a waveform.
    The operating system returns values in the documented ranges and no time
    before 1970, and only the request itself writes to the registry while it
    runs. *)
Theorem open_session_guarded request id (s : service OS) :
  (args ← object_member (lit "args") request; text_value (lit "name") args) = Ret id -> session_name_ok id ->
  (forall target, object_member (lit "target") request = Ret target -> jcontains (lit "daidir") target || jcontains (lit "fsdb") target = true) ->
  let (r, s') := open_session strerror env getenv request s in
  (forall id', id' <> id -> stored env (sv_files s') id' = stored env (sv_files s) id') /\
  (forall old, stored env (sv_files s) id = Some old ->
     stored env (sv_files s') id = Some old /\ forall response, r = Ret response -> refused response) /\
  (forall response, r = Ret response -> ~ refused response -> exists c new,
     stored env (sv_files s') id = Some c /\ lifecycle_state c = lit "active" /\ jget (lit "session") response = Some (public_session c) /\
     sv_log s' = sv_log s ++ new /\ started (server_pid c) new /\ pinged c new).
Proof.
  intros Hid Hname Htarget. unfold open_session, answered.
  set (steps := open_request getenv request ≫= _). enough (forall r s', steps s = (r, s') -> opened id s r s') as Ho.
  { destruct (steps s) as [r s'] eqn:E. destruct (Ho r s' eq_refl) as (O1 & O2 & O3 & O4). cbn [fst snd]. split_and!; [done| |].
    - intros old Hold. destruct (O2 old Hold) as [Hs Hx]. split; [done|]. intros response Hr. destruct r as [[e|x]| |t]; try done; [|by destruct (Hx x)].
      injection Hr as <-. by apply O3.
    - intros response Hr Hnr. destruct r as [[e|x]| |t]; try done; injection Hr as <-; [by destruct Hnr; apply O3|].
      destruct (O4 x eq_refl) as (Hok & c & Hs & Ha & (new & L & Hst & Hp) & Hj). by exists c, new. }
  intros r s' E. subst steps.
  eapply opened_step; [apply calm_open_request|unfold open_request; tame|apply open_request_returns| |exact E]. clear dependent s. clear r s'.
  intros q s r s' [Ht Hq] E. rewrite Hid in Hq. injection Hq as Hq. specialize (Htarget _ Ht).
  eapply opened_step; [apply calm_new_record|unfold new_record; tame|apply new_record_returns| |exact E]. clear s r s' E.
  intros c0 s r s' (gen & hash & now & -> & Hgen & Hhash & Hnow) E.
  eapply opened_step; [apply calm_open_design|unfold open_design; tame|apply open_design_returns| |exact E]. clear s r s' E.
  intros [c1 design] s r s' Hc1 E. cbn [fst] in Hc1.
  eapply opened_step; [apply calm_open_waveform|unfold open_waveform; tame|apply open_waveform_returns| |exact E]. clear s r s' E.
  intros c2 s r s' Hc2 E.
  eapply opened_step; [apply calm_open_manifest|unfold open_manifest; tame|apply open_manifest_returns| |exact E]. clear s r s' E.
  intros details s r s' _ E. rewrite Hq in Hname.
  destruct (opening_record_ok env (or_id q) gen hash now Hname Hgen Hhash Hnow c1) with (s' := c2) as (Hown & Hsid & Hu).
  - destruct (jcontains (lit "daidir") (or_target q)); [by right|by left].
  - destruct (jcontains (lit "fsdb") (or_target q)); [by right|]. left. split; [done|]. rewrite orb_false_r in Htarget. rewrite Htarget in Hc1.
    by destruct Hc1 as (path & format & fp & -> & Hp & _).
  - rewrite Hq, <- Hsid. eapply open_rest; [|done|exact E]. destruct Hown as (? & Hg & ?). by rewrite Hg.
Qed.
End After.

(** ** A small operating system *)

Definition demo_generation : bytes := flat_map (fun _ => lit "0") (seq 0 64).
Definition demo_reply : json := jobj [(lit "ok", JBool true); (lit "data", jobj [(lit "generation", JString demo_generation)])].
#[local] Instance demo_stream : JsonStream :=
  {| json_line := json_dump; json_extract := json_parse; extract_error := fun _ => []; parse_error := fun _ => [] |}.
(** Files exist, the engine runs until it is signalled, and answers pings. *)
#[local] Instance demo_os : SessionOs bool := {|
  os_canonical := fun p o => (match p with [] => None | _ => Some p end, o);
  os_stat := fun _ o => (Some (MkStat KRegular 10 20 1 2), o);
  os_lstat := fun _ o => (Some (MkStat KSocket 10 20 1 2), o);
  os_read := fun _ o => (None, o);
  os_tree := fun _ o => (None, o);
  os_entropy := fun o => (fun _ => 0, o);
  os_time := fun o => (100, o);
  os_self := fun o => (Some (lit "/bin/xdebug-fst"), o);
  os_fork := fun _ _ => (4242, true);
  os_waitpid := fun _ _ o => ((0, None), o);
  os_kill := fun _ signal o => (if o : bool then None else Some ESRCH, o && (signal =? 0));
  os_usleep := fun o => (tt, o);
  os_connection := fun _ o =>
    (MkConnection None None None [] (fun _ => if o : bool then [Received (default [] (json_dump demo_reply) ++ lit " " ++ newline)] else []), o);
|}.
#[local] Instance demo_laws : SessionOsLaws bool.
Proof.
  split.
  - intros [|c p] o q; [done|]. by intros [= <-].
  - intros p o st [= <-]. vm_compute. done.
  - intros o. vm_compute. done.
  - intros argv o. vm_compute. done.
Qed.

Definition demo_request : json :=
  jobj [(lit "action", JString (lit "session.open")); (lit "args", jobj [(lit "name", JString (lit "s2"))]);
        (lit "target", jobj [(lit "fsdb", JString (lit "/w.fst"))])].
Definition demo_service : service bool := MkService reserved_world false [].
Definition demo_open := open_session (fun _ => []) sample_env (fun _ => None) demo_request demo_service.
Lemma open_session_guarded_witness : exists response s' c new,
  demo_open = (Ret response, s') /\ stored sample_env (sv_files s') (lit "s1") = Some sample_session /\
  stored sample_env (sv_files s') (lit "s2") = Some c /\ lifecycle_state c = lit "active" /\
  sv_log s' = [] ++ new /\ started (server_pid c) new /\ pinged c new.
Proof.
  pose proof (open_session_guarded (fun _ => []) sample_env (fun _ => None) demo_request (lit "s2") demo_service) as H. fold demo_open in H.
  assert (match fst demo_open with Ret j => jget (lit "ok") j = Some (JBool true) | _ => False end) as Hok by (vm_compute; reflexivity).
  destruct demo_open as [[response| |t] s']; [|done..].
  cbn [fst] in Hok. destruct H as (H1 & _ & H3).
  - vm_compute. reflexivity.
  - apply valid_name_iff. vm_compute. reflexivity.
  - intros target [= <-]. vm_compute. reflexivity.
  - destruct (H3 response eq_refl) as (c & new & Hs & Ha & _ & L & Hst & Hp).
    { unfold refused. rewrite Hok. discriminate. }
    exists response, s', c, new. split_and!; [done| |done..]. rewrite H1; [exact reserved_stored|]. vm_compute. discriminate.
Defined.

(** The session that was opened, removed again: the engine answers its ping,
    does not quit when asked, and stops at the first signal. *)
Definition demo_opened : service bool := snd demo_open.
Definition demo_session : SessionInfo := default sample_session (stored sample_env (sv_files demo_opened) (lit "s2")).

Definition demo_cleanup := cleanup_managed_session (fun _ => []) sample_env demo_session false demo_opened.

Lemma cleanup_keeps_evidence_witness : exists s', demo_cleanup = (Ret true, s') /\
  stored sample_env (sv_files s') (lit "s2") = None /\ SawStopped 4242 ∈ sv_log s'.
Proof.
  assert (fst demo_cleanup = Ret true) as Hr by (vm_compute; reflexivity). destruct demo_cleanup as [r s'] eqn:E. cbn [fst] in Hr. subst r.
  exists s'. split; [done|].
  assert (session_id demo_session = lit "s2" /\ server_pid demo_session = 4242) as [Hi Hp] by (split; vm_compute; reflexivity).
  destruct (cleanup_keeps_evidence (fun _ => []) sample_env demo_session false demo_opened (Ret true) s' demo_session) as (_ & H & _).
  - apply (record_parse_ok (session_registry_record_to_json demo_session)); vm_compute; reflexivity.
  - vm_compute. reflexivity.
  - reflexivity.
  - exact E.
  - destruct (H eq_refl) as [[Hn _] (new & L & Hs)]. rewrite Hi in Hn. rewrite Hp in Hs. split; [exact Hn|]. rewrite L. apply elem_of_app. by right.
Defined.

(** ** Examples *)

(** A bundle manifest that is JSON but not an object is not reported as an
    invalid bundle: [manifest.value] throws before [is_object] is asked. *)
Lemma bundle_array_throws : bundle_artifact (JArray []) = Throw "type_error.306".
Proof. reflexivity. Qed.

(** The record of a waveform file dated before 1970 is written, reported as
    reserved, and refused when it is read back. *)
Definition old_record : SessionInfo :=
  with_waveform (lit "/w.fst") (MkPrint (-5) 20 1 2) (opening_record sample_env (lit "s2") demo_generation [] 100).
Lemma old_record_unreadable :
  let '(w, r) := reserve_opening sample_env old_record reserved_world in
  r = Some result_ok /\ stored sample_env w (lit "s2") = None /\
  is_Some (files w !! xdebug_design_session_state_path sample_env (lit "s2")).
Proof. vm_compute. split_and!; [reflexivity..|by eexists]. Qed.
